(* ===== verification/_CoqProject ===== *)
-Q . S2P
Prelude.v
Words.v
GenKey.v
SlabAlloc.v
SlabFacts.v
SlabThms.v
SlabStore.v
TimerWheel.v
TimerArith.v
TimerOps.v
TimerThms.v
IrBytes.v
IrData.v
IrCheck.v
IrWrite.v
IrRead.v
IrThms.v
IrEnc.v
IrRound.v
IrRoundThms.v
PipId.v
ArenaBump.v
ArenaThms.v
TaskCell.v
TaskProto.v
TaskThms.v
TaskRefId.v
WorkerAlloc.v
WorkerRing.v
TaskSlots.v
RunQueue.v
TaskTree.v
TaskTreeSpec.v
WorkerCycle.v
WorkerInv.v
WorkerPoll.v
WorkerTurn.v
WorkerPass.v
RuntimeDrive.v
DriveThms.v
WorkerThms.v
LeafFutures.v
Bitmap.v
IoTokens.v
InflightSlab.v
InflightSpec.v
SockAddr.v
Seam.v
MsgSlot.v
MsgThms.v
InflightProto.v
SeamSpec.v
InflightInv.v
InflightSafe.v
InflightDrain.v
InflightRun.v
StreamRegistry.v
MultishotSlab.v
MultishotSpec.v
RecvSlab.v
RecvSpec.v
StreamProto.v
StreamRun.v
StreamThms.v
MpscRing.v
MpscInv.v
MpscThms.v
Park.v
CancelInbox.v
CancelRoute.v
SlotlessProto.v
SlotlessThms.v
Registered.v
BufRing.v
Uring.v
UringThms.v
BufRingThms.v
Steal.v
StealThms.v
