(* ===== verification/Prelude.v ===== *)
(** * Kwokka: a verification development

    Kwokka is an async runtime for Linux: every worker thread owns a shard (its
    tasks, timers, queues and io_uring driver) and futures submit operations to
    the kernel through a seam.  This library models the parts of the runtime
    that carry its own logic, as executable definitions translated from the
    sources under src/crates/, and proves what makes them correct.

    ** How the code is represented

    A Rust call that may panic, break an [unsafe] contract or loop is a value of
    [outcome]: [Ret], [Panic], [Undefined] (undefined behaviour, e.g. a read of
    an uninitialised slot) or [OutOfFuel].  [Result] is [result], [Option] is
    [option].  Unsigned integers are [Z] values with their width written out
    ([fits], [wrap], [checked_add], [add_or_panic]); a byte region is a
    [list byte]; an array is a list with bounds-checked access.  Mutable state
    is passed explicitly, as a record with the fields of the struct.  Code that
    runs concurrently is a transition system whose steps are the atomic accesses
    of the code; a compare-exchange may fail spuriously.

    Loops that are not structural take fuel.  Every such loop has a theorem that
    the fuel its caller passes suffices, so the results below are of the form
    "it returns, and": the wheel iterates at most once per tick and entry, the
    allocator scans take one turn per slot, the poll loop one per queued task,
    the drains one per entry of a bounded ring.

    ** The parts, and where they are modelled

    - Slab, generations, keys (kwokka-core/src/generation, slab): [GenKey],
      [SlabAlloc]; invariant and abstract generational map in [SlabFacts],
      [SlabThms]; the interface its clients are proved against in [SlabStore].
    - Timer wheel (kwokka-runtime/src/timer/wheel): [TimerWheel] over the slab's
      interface; placement arithmetic in [TimerArith], invariant, operations and
      advance in [TimerOps]; theorems in [TimerThms].
    - Intermediate representation (kwokka-ir): bytes and readers in [IrBytes] and
      [IrData], the validator and views in [IrCheck], the writer in [IrWrite];
      soundness of validation in [IrRead], [IrThms]; the round trip in
      [IrEnc], [IrRound], [IrRoundThms].
    - Task identifiers (kwokka-core/src/id): [PipId].
    - Bump arena (kwokka-core/src/arena): [ArenaBump], [ArenaThms].
    - Task cell (kwokka-runtime/src/task/cell, scheduler/stealing/relocate.rs):
      the state byte and the cell in [TaskCell], the threads that share a cell in
      [TaskProto], theorems in [TaskThms].
    - Task references, worker ids (task/reference, worker/coordination/alloc.rs):
      [TaskRefId], [WorkerAlloc].
    - The worker (worker/queue, worker/poll, worker/cycle, scheduler/runnable,
      task/join/children.rs): rings in [WorkerRing], slots in [TaskSlots], run
      queue in [RunQueue], children and reaping in [TaskTree], [TaskTreeSpec],
      the pass in [WorkerCycle]; invariant and steps in [WorkerInv],
      [WorkerPoll], [WorkerTurn], [WorkerPass];
      [block_on] in [RuntimeDrive], [DriveThms]; theorems in [WorkerThms].
    - What a task awaits on its worker (task/reference/waker.rs, timer/delay,
      task/cooperative, task/join/scope.rs and handle.rs): [LeafFutures].
    - The lock-free ring between threads (sync/mpsc.rs): [MpscRing], [MpscInv],
      [MpscThms], one shared-memory access per step.
    - Parking (worker/park/endpoint.rs, worker/coordination/mailbox.rs,
      [park_bracketed] of runtime/crew/stealing.rs): [Park].
    - Work stealing (scheduler/stealing, runtime/drive/steal.rs): the slabs,
      routes and transports of every worker in [Steal], the network of workers
      in [StealThms].  A step of the network is one handler of one worker over
      its own slab; the rings between workers are the queues [MpscThms] shows
      them to be.
    - Buffered operations (kwokka-io/src/buffer/oneshot, boundary/seam,
      operation/future): tokens in [IoTokens], bitmaps in [Bitmap], the registry
      in [InflightSlab], [InflightSpec], the seam, the futures and the drains in
      [Seam]; futures, drains and kernel as one transition system
      in [InflightProto]; its invariant in [SeamSpec], [InflightInv],
      [InflightSafe], [InflightDrain]; an executable scheduler and the theorems
      in [InflightRun].
    - Addresses and messages (kwokka-io/src/addr, operation/core/msghdr.rs and
      vectored.rs, operation/future/msg.rs and vectored.rs): [SockAddr], the
      structures staged in a slot in [MsgSlot], what the kernel reads there in
      [MsgThms].
    - Multishot streams (kwokka-io/src/buffer/multishot, kwokka-net/src/tcp):
      the interface in [StreamRegistry], the accept registry in [MultishotSlab],
      [MultishotSpec], the byte-level receive registry in [RecvSlab],
      [RecvSpec]; streams, drains and kernel in [StreamProto], its
      invariant, runs and the abstract queues in [StreamRun]; theorems in
      [StreamThms].
    - Cancellation (kwokka-io/src/boundary/cancel, seam/cancel.rs): the rings and
      token sets in [CancelInbox], routing, disposal and the futures without a
      slot in [CancelRoute]; these futures, the drains and the kernel together in
      [SlotlessProto], [SlotlessThms].
    - Registered resources and provided buffers (kwokka-io/src/buffer/registration
      and ring, operation/core/provided.rs): [Registered], [BufRing],
      [BufRingThms].
    - The io_uring driver (kwokka-io/src/operation/request, uring, driver): entry
      builders, submission, completion drain, probe, registration, readiness
      retries and dispatch in [Uring], theorems in [UringThms].

    [Words] and this file hold what the components share.

    ** What the theorems show

    - Memory and resource safety: slab keys that are stale resolve to nothing;
      arena objects never overlap and are dropped once; a task's future and
      output are used and dropped once under every interleaving; a buffer slot is
      not reused while the kernel owns it, as long as a task keeps one operation
      outstanding and is polled after its completion; every accepted descriptor
      and every provided buffer ends in exactly one place.
    - Refinement: the slab refines a list of vacant, promised and occupied slots
      with the stack of vacant ones, the wheel a map of pending timers, the arena
      objects laid out one after the other, the rings bounded queues, the
      multishot registries one queue per slot, the registrations a set of slots,
      the driver the requests it accepted.
    - Concurrency: the lock-free ring delivers every value once and in claim
      order; a worker that parks through the bracket misses no wake, steal
      request, handoff or shutdown when the ring takes its arms and delivers its
      messages; worker ids are exclusive; a stolen task has one body, one carrier
      back, and a route its wakes follow.
    - Progress: a worker's pass polls every woken task, [block_on] returns after
      the pass that completes its root, a scope answers once its children
      settled, timers fire at their deadline, reaping frees every settled child
      of the parents it visits, a quiescent system whose cancels were accepted
      leaks no slot.
    - Meaning at the kernel boundary: the kernel reads out of each accepted entry
      what its request asked for, a staged message or vector is the caller's
      bytes and address, a received datagram reaches the caller with its sender,
      completions are handed over in order.
    - Codec: validation makes every accessor total and the name lookup a correct
      search, written blobs and packed IPv4 and IPv6 addresses read back.
    - Limits: where a promise needs a discipline the code does not enforce, a
      theorem exhibits the run that breaks it ([inflight_disciplines_needed],
      [slotless_disciplines_needed], [park_disciplines_needed],
      [task_cancel_window], [accept_ended_slot_strands] and others); a settled
      note put down before the parked flag does not keep its victim awake
      ([park_sleeps_through_note]).

    ** Parameters and hypotheses

    The kernel, the driver's answers, [mmap], the global allocator, the clock and
    the user's futures are not code of the repository: they are arguments of the
    definitions or nondeterministic steps.  The kernel model posts at most one
    final completion per operation, and the terminal completion of a multishot
    accept carries no descriptor, as the sources state.  The io-uring crate is a
    class of ring operations ([Ring] of [Uring]) with its laws ([RingLaws] of
    [UringThms]), which lists implement.  A worker of the steal network relies on
    its own pass for what happens to a body between two steal steps (the relation
    [rely] of [StealThms]).  Atomic accesses interleave in one total order.

    ** Not modelled

    The system calls behind [mmap], the eventfd, CPU affinity and thread
    creation, and the thread bodies of the crews around the modelled steps.
    Socket and file wrappers of kwokka-net and kwokka-fs, which pass their
    arguments to the modelled futures.  The attribute macros, which manipulate
    syntax.  Formatting and marker types.  The byte layout and the function
    table of the erased task cell: a slot is its header and the two halves of
    its cell.
*)

From Stdlib Require Import ZArith Lia.
From Stdlib.Init Require Import Byte.
From stdpp Require Import base tactics option list numbers gmap fin_maps sorting.

#[global] Set Default Goal Selector "!".

(** ** Rust outcomes

    A Rust call that may panic, or that is undefined behaviour when an
    [unsafe] precondition is broken, is a value of [outcome]; a loop that is
    run with fuel answers [OutOfFuel] when the fuel does not suffice.  A Rust
    [Result<A, E>] is a value of [result E A].  A function that returns a
    [Result] and may also panic has type [outcome (result E A)]. *)

Inductive outcome (A : Type) : Type :=
| Ret (a : A)
| Panic
| Undefined
| OutOfFuel.
Arguments Ret {A} a.
Arguments Panic {A}.
Arguments Undefined {A}.
Arguments OutOfFuel {A}.

Inductive result (E A : Type) : Type :=
| Ok (a : A)
| Err (e : E).
Arguments Ok {E A} a.
Arguments Err {E A} e.

#[global] Instance outcome_ret : MRet outcome := @Ret.
#[global] Instance outcome_bind : MBind outcome := fun A B f m =>
  match m with
  | Ret a => f a
  | Panic => Panic
  | Undefined => Undefined
  | OutOfFuel => OutOfFuel
  end.
#[global] Instance result_ret E : MRet (result E) := @Ok E.
#[global] Instance result_bind E : MBind (result E) := fun A B f m =>
  match m with Ok a => f a | Err e => Err e end.

(** [ok_or o e] is Rust's [Option::ok_or]. *)
Definition ok_or {E A} (o : option A) (e : E) : result E A :=
  match o with Some a => Ok a | None => Err e end.

(** [ok r] is Rust's [Result::ok]. *)
Definition ok {E A} (r : result E A) : option A :=
  match r with Ok a => Some a | Err _ => None end.

Lemma outcome_bind_Ret {A B} (m : outcome A) (f : A -> outcome B) b :
  (m ≫= f) = Ret b <-> exists a, m = Ret a /\ f a = Ret b.
Proof. destruct m; cbn; naive_solver. Qed.

Lemma result_bind_Ok {E A B} (m : result E A) (f : A -> result E B) b :
  (m ≫= f) = Ok b <-> exists a, m = Ok a /\ f a = Ok b.
Proof. destruct m; cbn; naive_solver. Qed.

Lemma ok_or_Ok {E A} (o : option A) (e : E) a : ok_or o e = Ok a <-> o = Some a.
Proof. destruct o; cbn; naive_solver. Qed.

Lemma ok_Some {E A} (r : result E A) a : ok r = Some a <-> r = Ok a.
Proof. destruct r; cbn; naive_solver. Qed.

(** ** Machine integers

    Unsigned machine integers are [Z] values in [0, 2^w); [usize] is 64 bits
    wide.  Arithmetic is written with its overflow behaviour: [wrap w] for
    wrapping operations and [as]-casts, [checked_*] for the checked ones, and
    [add_or_panic]/[sub_or_panic] for the plain operators, whose overflow
    panics in a checked build. *)

Abbreviation U8 := 8%Z (only parsing).
Abbreviation U16 := 16%Z (only parsing).
Abbreviation U32 := 32%Z (only parsing).
Abbreviation U64 := 64%Z (only parsing).
Abbreviation U128 := 128%Z (only parsing).
Abbreviation USIZE := 64%Z (only parsing).

Definition fits (w z : Z) : Prop := (0 <= z < 2 ^ w)%Z.
Definition fitsb (w z : Z) : bool := ((0 <=? z) && (z <? 2 ^ w))%Z.
Definition wrap (w z : Z) : Z := (z mod 2 ^ w)%Z.
Definition checked_add (w a b : Z) : option Z :=
  if (a + b <? 2 ^ w)%Z then Some (a + b)%Z else None.
Definition checked_mul (w a b : Z) : option Z :=
  if (a * b <? 2 ^ w)%Z then Some (a * b)%Z else None.
Definition saturating_sub (a b : Z) : Z := Z.max 0 (a - b).
Definition saturating_add (w a b : Z) : Z := Z.min (2 ^ w - 1) (a + b).
Definition try_from (w a : Z) : option Z :=
  if (a <? 2 ^ w)%Z then Some a else None.
Definition add_or_panic (w a b : Z) : outcome Z :=
  if (a + b <? 2 ^ w)%Z then Ret (a + b)%Z else Panic.
Definition sub_or_panic (a b : Z) : outcome Z :=
  if (b <=? a)%Z then Ret (a - b)%Z else Panic.
(** Bitwise negation at width [w]. *)
Definition lnot (w a : Z) : Z := Z.lxor a (2 ^ w - 1).

#[global] Instance fits_dec w z : Decision (fits w z).
Proof. unfold fits. apply _. Defined.

Lemma fitsb_spec w z : fitsb w z = true <-> fits w z.
Proof. unfold fitsb, fits. lia. Qed.

Lemma checked_add_Some w a b c :
  checked_add w a b = Some c <-> c = (a + b)%Z /\ (a + b < 2 ^ w)%Z.
Proof. unfold checked_add. case_match; naive_solver lia. Qed.

Lemma checked_mul_Some w a b c :
  checked_mul w a b = Some c <-> c = (a * b)%Z /\ (a * b < 2 ^ w)%Z.
Proof. unfold checked_mul. case_match; naive_solver lia. Qed.

Lemma checked_add_ok w a b : (a + b < 2 ^ w)%Z -> checked_add w a b = Some (a + b)%Z.
Proof. intros. by apply checked_add_Some. Qed.

Lemma checked_mul_ok w a b : (a * b < 2 ^ w)%Z -> checked_mul w a b = Some (a * b)%Z.
Proof. intros. by apply checked_mul_Some. Qed.

Lemma try_from_Some w a c :
  try_from w a = Some c <-> c = a /\ (a < 2 ^ w)%Z.
Proof. unfold try_from. case_match; naive_solver lia. Qed.

Lemma add_or_panic_Ret w a b c :
  add_or_panic w a b = Ret c <-> c = (a + b)%Z /\ (a + b < 2 ^ w)%Z.
Proof. unfold add_or_panic. case_match; naive_solver lia. Qed.

Lemma sub_or_panic_Ret a b c :
  sub_or_panic a b = Ret c <-> c = (a - b)%Z /\ (b <= a)%Z.
Proof. unfold sub_or_panic. case_match; naive_solver lia. Qed.

(** ** Bit fields *)

Lemma land_ones_mod w a : (0 <= w)%Z -> Z.land a (2 ^ w - 1) = (a mod 2 ^ w)%Z.
Proof. intros. rewrite <- Z.land_ones by lia. f_equal. rewrite Z.ones_equiv. lia. Qed.

Lemma lor_shiftl_add hi lo w :
  (0 <= w)%Z -> (0 <= lo < 2 ^ w)%Z ->
  Z.lor (Z.shiftl hi w) lo = (hi * 2 ^ w + lo)%Z.
Proof.
  intros Hw Hlo. rewrite <- Z.shiftl_mul_pow2 by lia. symmetry.
  apply Z.add_nocarry_lor.
  apply Z.bits_inj'. intros n Hn. rewrite Z.land_spec, Z.bits_0, Z.shiftl_spec by lia.
  destruct (Z.lt_ge_cases n w).
  - rewrite Z.testbit_neg_r by lia. done.
  - replace lo with (lo mod 2 ^ w)%Z by (apply Z.mod_small; lia).
    rewrite Z.mod_pow2_bits_high by lia. apply andb_false_r.
Qed.

Lemma shiftr_div w a : (0 <= w)%Z -> Z.shiftr a w = (a / 2 ^ w)%Z.
Proof. apply Z.shiftr_div_pow2. Qed.

(** ** Automation

    The database [rust] rewrites checked arithmetic whose bounds [lia] finds. *)

Lemma add_ok w a b : (a + b < 2 ^ w)%Z -> add_or_panic w a b = Ret (a + b)%Z.
Proof. intros. by apply add_or_panic_Ret. Qed.

Lemma sub_ok a b : (b <= a)%Z -> sub_or_panic a b = Ret (a - b)%Z.
Proof. intros. by apply sub_or_panic_Ret. Qed.

Lemma wrap_id w a : fits w a -> wrap w a = a.
Proof. intros. by apply Z.mod_small. Qed.

Lemma wrap_wrap_sub w a b : wrap w (wrap w a - wrap w b) = wrap w (a - b).
Proof. unfold wrap. by rewrite <- Zminus_mod. Qed.

Lemma wrap_add_l w a b : wrap w (wrap w a + b) = wrap w (a + b).
Proof. unfold wrap. apply Zplus_mod_idemp_l. Qed.

Create HintDb rust discriminated.
#[export] Hint Rewrite add_ok sub_ok using lia : rust.
#[export] Hint Rewrite wrap_wrap_sub wrap_add_l : rust.

Ltac rust := repeat (progress (autorewrite with rust; cbn [mbind outcome_bind])).

(** ** Permutations by counting *)

Module Tally.

Definition cnt {A} `{EqDecision A} (x : A) (l : list A) : nat := length (filter (x =.) l).

Section cnt.
Context {A : Type} `{EqDecision A}.
Implicit Types (x y : A) (l k : list A).

Lemma cnt_nil x : cnt x [] = 0%nat.
Proof. done. Qed.

Lemma cnt_cons x y l : cnt x (y :: l) = ((if decide (x = y) then 1 else 0) + cnt x l)%nat.
Proof. unfold cnt. rewrite filter_cons. by destruct (decide (x = y)). Qed.

Lemma cnt_app x l k : cnt x (l ++ k) = (cnt x l + cnt x k)%nat.
Proof. unfold cnt. by rewrite filter_app, length_app. Qed.

Lemma cnt_elem x l : x ∈ l <-> (0 < cnt x l)%nat.
Proof.
  induction l as [|y l IH]; [rewrite cnt_nil, elem_of_nil; lia|]. rewrite cnt_cons, elem_of_cons, IH. destruct (decide (x = y)); naive_solver lia.
Qed.

Lemma perm_cnt l k : l ≡ₚ k <-> forall x, cnt x l = cnt x k.
Proof.
  split; [intros H x; unfold cnt; by rewrite H|]. revert k. induction l as [|y l IH]; intros k H.
  - destruct k as [|z k]; [done|]. specialize (H z). rewrite cnt_nil, cnt_cons, decide_True in H by done. lia.
  - assert (Hy : y ∈ k) by (apply cnt_elem; rewrite <- H, cnt_cons, decide_True by done; lia).
    apply elem_of_Permutation in Hy as [k' Hk]. rewrite Hk. apply perm_skip, IH. intros x. specialize (H x). rewrite cnt_cons in H.
    assert (Hx : cnt x k = cnt x (y :: k')) by (unfold cnt; by rewrite Hk). rewrite cnt_cons in Hx. lia.
Qed.

Lemma perm_delete l i x : l !! i = Some x -> l ≡ₚ x :: delete i l.
Proof. intros H. by apply delete_Permutation. Qed.

End cnt.

(** [tally] proves a permutation of appended lists, from those that
    [weigh H] has added for the hypotheses [H]. *)
Ltac counts := repeat first [rewrite cnt_app | rewrite cnt_cons | rewrite cnt_nil].
Ltac counts_in H := repeat first [rewrite cnt_app in H | rewrite cnt_cons in H | rewrite cnt_nil in H].
Tactic Notation "weigh" constr(H) "at" constr(x) :=
  let K := fresh "K" in pose proof (proj1 (perm_cnt _ _) H x) as K; counts_in K.
Ltac tally0 := apply perm_cnt; let x := fresh "x" in intros x; counts; lia.
Tactic Notation "tally" := tally0.
Tactic Notation "tally" constr(H) := apply perm_cnt; let x := fresh "x" in intros x; weigh H at x; counts; lia.
Tactic Notation "tally" constr(H1) constr(H2) := apply perm_cnt; let x := fresh "x" in intros x; weigh H1 at x; weigh H2 at x; counts; lia.
Tactic Notation "tally" constr(H1) constr(H2) constr(H3) :=
  apply perm_cnt; let x := fresh "x" in intros x; weigh H1 at x; weigh H2 at x; weigh H3 at x; counts; lia.

End Tally.
