(* ===== verification/Words.v ===== *)
(** * 64-bit words

    Bit counting, rotation and single-bit updates of [u64] masks, shared by the
    timer wheel (its populated masks) and the worker-id allocator (its
    occupancy words). *)

From S2P Require Import Prelude.
From stdpp Require Import base tactics list numbers.

Local Open Scope Z_scope.

(** [u64::leading_zeros], [u64::trailing_zeros] and [u64::rotate_right]. *)
Definition leading_zeros (a : Z) : Z := if a =? 0 then 64 else 63 - Z.log2 a.

Fixpoint pos_trailing_zeros (p : positive) : Z :=
  match p with xO p => 1 + pos_trailing_zeros p | _ => 0 end.

Definition trailing_zeros (a : Z) : Z :=
  match a with Zpos p => pos_trailing_zeros p | _ => 64 end.

Definition rotate_right (a n : Z) : Z :=
  Z.lor (Z.shiftr a n) (wrap U64 (Z.shiftl a (64 - n))).

Lemma pos_trailing_zeros_nonneg p : 0 <= pos_trailing_zeros p.
Proof. induction p; cbn; lia. Qed.

Lemma pos_trailing_zeros_spec p n :
  0 <= n -> n <= pos_trailing_zeros p <-> Zpos p mod 2 ^ n = 0.
Proof.
  revert n. induction p as [p IH|p IH|]; intros n Hn; cbn [pos_trailing_zeros].
  - destruct (Z.eq_dec n 0) as [->|]; [split; [intros; apply Z.mod_1_r|lia]|].
    split; [lia|]. intros H. exfalso. replace n with (1 + (n - 1)) in H by lia.
    rewrite Z.pow_add_r in H by lia. rewrite Z.rem_mul_r in H by (try apply Z.pow_pos_nonneg; lia).
    pose proof (Z.mod_pos_bound (Zpos p~1 / 2 ^ 1) (2 ^ (n - 1))). 
    assert (0 < 2 ^ (n - 1)) by (apply Z.pow_pos_nonneg; lia).
    assert (Zpos p~1 mod 2 ^ 1 = 1) by (rewrite Pos2Z.inj_xI; change (2 ^ 1) with 2; Z.div_mod_to_equations; lia).
    change (2 ^ 1) with 2 in *. lia.
  - destruct (Z.eq_dec n 0) as [->|].
    { split; [intros; apply Z.mod_1_r|]. pose proof (pos_trailing_zeros_nonneg p). lia. }
    rewrite Pos2Z.inj_xO. replace n with (1 + (n - 1)) at 2 by lia.
    rewrite Z.pow_add_r by lia. change (2 ^ 1) with 2.
    rewrite Z.mul_mod_distr_l by (try apply Z.pow_nonzero; lia).
    specialize (IH (n - 1)). split.
    + intros H. assert (n - 1 <= pos_trailing_zeros p) as H' by lia. apply IH in H'; lia.
    + intros H. assert (Zpos p mod 2 ^ (n - 1) = 0) as H' by lia. apply IH in H'; lia.
  - destruct (Z.eq_dec n 0) as [->|]; [split; [intros; apply Z.mod_1_r|lia]|].
    split; [lia|]. intros H. rewrite Z.mod_small in H; [lia|].
    split; [lia|]. apply Z.pow_gt_1; lia.
Qed.

Lemma pos_trailing_zeros_bit p :
  Z.testbit (Zpos p) (pos_trailing_zeros p) = true /\
  forall j, 0 <= j < pos_trailing_zeros p -> Z.testbit (Zpos p) j = false.
Proof.
  induction p as [p _|p [IHt IHf]|]; cbn [pos_trailing_zeros]; [split; [done|lia]| |split; [done|lia]].
  pose proof (pos_trailing_zeros_nonneg p). rewrite Pos2Z.inj_xO. split.
  - rewrite Z.add_comm, Z.add_1_r, Z.double_bits_succ by lia. done.
  - intros j Hj. destruct (Z.eq_dec j 0) as [->|]; [apply Z.testbit_even_0|].
    replace j with (Z.succ (j - 1)) by lia. rewrite Z.double_bits_succ by lia. apply IHf. lia.
Qed.

(** [trailing_zeros] finds the least set bit of a non-zero mask. *)
Lemma trailing_zeros_least a j :
  0 < a -> 0 <= j -> Z.testbit a j = true ->
  0 <= trailing_zeros a <= j /\ Z.testbit a (trailing_zeros a) = true.
Proof.
  intros Ha Hj Hb. destruct a as [|p|p]; try lia. cbn [trailing_zeros].
  destruct (pos_trailing_zeros_bit p) as [Ht Hf]. pose proof (pos_trailing_zeros_nonneg p).
  split; [split; [lia|]|done]. destruct (Z.le_gt_cases (pos_trailing_zeros p) j); [done|].
  rewrite Hf in Hb by lia. done.
Qed.

Lemma testbit_above m j : fits 64 m -> 64 <= j -> Z.testbit m j = false.
Proof.
  intros Hm Hj. replace m with (m mod 2 ^ 64) by (apply Z.mod_small, Hm).
  apply Z.mod_pow2_bits_high. lia.
Qed.

Lemma testbit_set m s j : 0 <= s -> 0 <= j ->
  Z.testbit (Z.lor m (Z.shiftl 1 s)) j = (Z.testbit m j || (j =? s)).
Proof.
  intros Hs Hj. rewrite Z.lor_spec, Z.shiftl_1_l, Z.pow2_bits_eqb by lia. by rewrite (Z.eqb_sym s j).
Qed.

Lemma testbit_clear m s j : 0 <= s < 64 -> 0 <= j < 64 ->
  Z.testbit (Z.land m (lnot 64 (Z.shiftl 1 s))) j = (Z.testbit m j && negb (j =? s)).
Proof.
  intros Hs Hj. unfold lnot. rewrite Z.land_spec, Z.lxor_spec, Z.shiftl_1_l, Z.pow2_bits_eqb by lia.
  replace (2 ^ 64 - 1) with (Z.ones 64) by reflexivity. rewrite Z.testbit_ones_nonneg by lia.
  destruct (Z.ltb_spec j 64); [|lia]. by rewrite xorb_true_r, (Z.eqb_sym s j).
Qed.

Lemma fits_set m s : fits 64 m -> 0 <= s < 64 -> fits 64 (Z.lor m (Z.shiftl 1 s)).
Proof.
  intros [H0 H1] Hs. split; [apply Z.lor_nonneg; split; [lia|apply Z.shiftl_nonneg; lia]|].
  assert (Z.lor m (Z.shiftl 1 s) = (Z.lor m (Z.shiftl 1 s)) mod 2 ^ 64) as ->;
    [|apply Z.mod_pos_bound; lia].
  apply Z.bits_inj'. intros n Hn. destruct (Z.lt_ge_cases n 64).
  - by rewrite Z.mod_pow2_bits_low.
  - rewrite Z.mod_pow2_bits_high, testbit_set by lia.
    replace m with (m mod 2 ^ 64) by (apply Z.mod_small; lia).
    rewrite Z.mod_pow2_bits_high by lia. cbn. lia.
Qed.

Lemma fits_land m a : fits 64 m -> fits 64 (Z.land m a).
Proof.
  intros [H0 H1]. split; [apply Z.land_nonneg; by left|].
  assert (Z.land m a = (Z.land m a) mod 2 ^ 64) as ->; [|apply Z.mod_pos_bound; lia].
  apply Z.bits_inj'. intros n Hn. destruct (Z.lt_ge_cases n 64).
  - by rewrite Z.mod_pow2_bits_low.
  - rewrite Z.mod_pow2_bits_high, Z.land_spec by lia.
    replace m with (m mod 2 ^ 64) by (apply Z.mod_small; lia).
    by rewrite Z.mod_pow2_bits_high by lia.
Qed.

(** A 64-bit mask is zero exactly when none of its 64 bits is set. *)
Lemma mask_zero m : fits 64 m -> m = 0 <-> forall j, 0 <= j < 64 -> Z.testbit m j = false.
Proof.
  intros Hm. split; [intros -> j _; apply Z.bits_0|]. intros H. apply Z.bits_inj'.
  intros n Hn. rewrite Z.bits_0. destruct (Z.lt_ge_cases n 64); [by apply H|].
  replace m with (m mod 2 ^ 64) by (apply Z.mod_small, Hm). apply Z.mod_pow2_bits_high. lia.
Qed.

Lemma testbit_rotate_right m c k :
  fits 64 m -> 0 <= c < 64 -> 0 <= k < 64 ->
  Z.testbit (rotate_right m c) k = Z.testbit m ((k + c) mod 64).
Proof.
  intros Hm Hc Hk. unfold rotate_right, wrap.
  rewrite Z.lor_spec, Z.shiftr_spec, Z.mod_pow2_bits_low, Z.shiftl_spec by lia.
  destruct (Z.lt_ge_cases (k + c) 64).
  - rewrite (Z.testbit_neg_r m (k - (64 - c))), orb_false_r, Z.mod_small by lia. done.
  - rewrite (testbit_above m (k + c)) by (done || lia). cbn [orb]. f_equal.
    Z.div_mod_to_equations. lia.
Qed.
