(* ===== verification/GenKey.v ===== *)
(** * Generation counters and slab keys

    [Module Generation] models the 24-bit wrapping counter of
    src/crates/kwokka-core/src/generation/revision.rs and [Module SlabKey]
    the 64-bit packed slot reference of src/crates/kwokka-core/src/slab/key.rs.
    Both newtypes are their raw machine integer. *)

From S2P Require Import Prelude.
From stdpp Require Import base tactics list numbers.

Local Open Scope Z_scope.

Module Generation.

Definition GENERATION_BITS : Z := 24.
Definition ZERO : Z := 0.
Definition MAX : Z := Z.shiftl 1 GENERATION_BITS - 1.

Definition get (g : Z) : Z := Z.land g MAX.
Definition is_occupied (g : Z) : bool := Z.land g 1 =? 1.
Definition next (g : Z) : Z := Z.land (wrap U32 (g + 1)) MAX.
Definition from_raw (raw : Z) : Z := raw.

(** Well-formed generations hold 24 bits; every constructor of the source
    other than an unmasked [from_raw] yields one. *)
Definition wf (g : Z) : Prop := fits GENERATION_BITS g.

(** [bump n g] is [n] successive recyclings of a slot at generation [g]. *)
Definition bump (n : nat) (g : Z) : Z := Nat.iter n next g.

Lemma MAX_eq : MAX = 2 ^ 24 - 1.
Proof. reflexivity. Qed.

Lemma get_mod g : get g = g mod 2 ^ 24.
Proof. unfold get. rewrite MAX_eq. by apply land_ones_mod. Qed.

Lemma is_occupied_odd g : is_occupied g = Z.odd g.
Proof.
  unfold is_occupied. change 1 with (2 ^ 1 - 1) at 1. rewrite land_ones_mod by lia.
  rewrite Zodd_mod. destruct (Zeq_bool _ _) eqn:E; [apply Zeq_bool_eq in E|apply Zeq_bool_neq in E];
    change (2 ^ 1) with 2; lia.
Qed.

Lemma next_mod g : wf g -> next g = (g + 1) mod 2 ^ 24.
Proof.
  unfold wf, fits, next, wrap. intros Hg. change GENERATION_BITS with 24 in Hg.
  rewrite MAX_eq, land_ones_mod by lia. rewrite (Z.mod_small (g + 1) (2 ^ 32)); [done|].
  change (2 ^ 24) with 16777216 in Hg. change (2 ^ 32) with 4294967296. lia.
Qed.

Lemma next_wf g : wf (next g).
Proof.
  unfold wf, fits, next. rewrite MAX_eq, land_ones_mod by lia.
  apply Z.mod_pos_bound. reflexivity.
Qed.

Lemma next_occupied g : wf g -> is_occupied (next g) = negb (is_occupied g).
Proof.
  intros Hg. rewrite !is_occupied_odd, (next_mod g Hg).
  rewrite <- (Z.negb_even ((g + 1) mod 2 ^ 24)), <- (Z.negb_even g). f_equal.
  assert (2 ^ 24 = 2 * 8388608) as -> by reflexivity.
  rewrite Z.negb_even. rewrite <- Z.even_add_mul_2 with (n := (g + 1) mod (2 * 8388608))
    (m := 8388608 * ((g + 1) / (2 * 8388608))).
  replace ((g + 1) mod (2 * 8388608) + 2 * (8388608 * ((g + 1) / (2 * 8388608)))) with (g + 1)
    by (pose proof (Z.div_mod (g + 1) (2 * 8388608)); lia).
  rewrite Z.add_1_r. apply Z.even_succ.
Qed.

Lemma bump_mod n g : wf g -> bump n g = (g + Z.of_nat n) mod 2 ^ 24.
Proof.
  intros Hg. induction n as [|n IH].
  - cbn. rewrite Z.add_0_r, Z.mod_small; [done|]. exact Hg.
  - change (bump (S n) g) with (next (bump n g)). rewrite next_mod.
    + rewrite IH, Zplus_mod_idemp_l. f_equal. lia.
    + rewrite IH. apply Z.mod_pos_bound. reflexivity.
Qed.

Lemma bump_wf n g : wf g -> wf (bump n g).
Proof. intros Hg. rewrite bump_mod by done. apply Z.mod_pos_bound. reflexivity. Qed.

(** A slot recycled between one and 2^24 - 1 times never shows its original
    generation again. *)
Lemma bump_fresh n g :
  wf g -> (0 < n)%nat -> Z.of_nat n < 2 ^ 24 -> bump n g <> g.
Proof.
  intros Hg Hn Hlt E. rewrite bump_mod in E by done. destruct Hg as [Hg1 Hg2].
  change GENERATION_BITS with 24 in Hg2.
  destruct (Z.lt_ge_cases (g + Z.of_nat n) (2 ^ 24)).
  - rewrite Z.mod_small in E by lia. lia.
  - replace (g + Z.of_nat n) with (g + Z.of_nat n - 2 ^ 24 + 1 * 2 ^ 24) in E by lia.
    rewrite Z.mod_add, Z.mod_small in E by lia. lia.
Qed.

End Generation.

Module SlabKey.

Definition INDEX_BITS : Z := 32.
Definition INDEX_MASK : Z := Z.shiftl 1 INDEX_BITS - 1.
Definition GENERATION_MASK : Z := Generation.MAX.
Definition GENERATION_SHIFT : Z := INDEX_BITS.

Definition new (index generation : Z) : Z :=
  Z.lor (Z.shiftl (Generation.get generation) GENERATION_SHIFT) index.
Definition index (key : Z) : Z := wrap U32 (Z.land key INDEX_MASK).
Definition generation (key : Z) : Z :=
  wrap U32 (Z.land (Z.shiftr key GENERATION_SHIFT) GENERATION_MASK).
Definition to_bits (key : Z) : Z := key.

Lemma key_new_eq i g : fits 32 i -> new i g = Generation.get g * 2 ^ 32 + i.
Proof. intros Hi. unfold new. by apply lor_shiftl_add. Qed.

Lemma index_mod k : index k = k mod 2 ^ 32.
Proof.
  unfold index, wrap. change INDEX_MASK with (2 ^ 32 - 1).
  rewrite land_ones_mod by lia. by rewrite Z.mod_mod.
Qed.

Lemma generation_mod k : generation k = (k / 2 ^ 32) mod 2 ^ 24.
Proof.
  unfold generation, wrap, GENERATION_MASK, GENERATION_SHIFT, INDEX_BITS.
  rewrite Generation.MAX_eq, land_ones_mod, shiftr_div by lia.

  apply Z.mod_small. pose proof (Z.mod_pos_bound (k / 2 ^ 32) (2 ^ 24)).
  change (2 ^ 32) with 4294967296 in *. change (2 ^ 24) with 16777216 in *. lia.
Qed.

Lemma index_new i g : fits 32 i -> index (new i g) = i.
Proof.
  intros Hi. rewrite index_mod, key_new_eq by done. rewrite Z.add_comm, Z.mod_add by lia.
  apply Z.mod_small, Hi.
Qed.

Lemma generation_new i g : fits 32 i -> Generation.wf g -> generation (new i g) = g.
Proof.
  intros Hi Hg. rewrite generation_mod, key_new_eq, Generation.get_mod by done.
  rewrite Z.div_add_l, (Z.div_small i) by (unfold fits in *; lia).
  rewrite Z.add_0_r, Z.mod_mod by lia. apply Z.mod_small, Hg.
Qed.

Lemma generation_wf k : Generation.wf (generation k).
Proof. rewrite generation_mod. apply Z.mod_pos_bound. reflexivity. Qed.

Lemma index_fits k : fits 32 (index k).
Proof. rewrite index_mod. apply Z.mod_pos_bound. reflexivity. Qed.

(** Two keys with the same index and generation fields name the same slot
    incarnation, whatever their reserved bits. *)
Lemma new_inj i g i' g' :
  fits 32 i -> fits 32 i' -> Generation.wf g -> Generation.wf g' ->
  new i g = new i' g' -> i = i' /\ g = g'.
Proof.
  intros ???? E. split.
  - rewrite <- (index_new i g), <- (index_new i' g') by done. by rewrite E.
  - rewrite <- (generation_new i g), <- (generation_new i' g') by done. by rewrite E.
Qed.

End SlabKey.
