(* ===== verification/SlabAlloc.v ===== *)
(** * The generational slab

    [Module Slab] models src/crates/kwokka-core/src/slab/slab.rs.  The backing
    [Vec<Slot<T>>] is a list of slots and [MaybeUninit<T>] an option: reading a
    slot whose data is [None] is [Undefined], the panics of the source
    ([unreachable!], indexing, checked arithmetic) are [Panic], so the
    invariant theorems also show that no operation panics or reads
    uninitialised memory.  An exclusive reference handed out by [get_mut] is
    the value it points at together with the function that stores a new value
    through it. *)

From S2P Require Import Prelude GenKey.
From stdpp Require Import base tactics list numbers sorting.

Local Open Scope Z_scope.

Module Slab.

Definition FREE_SENTINEL : Z := 2 ^ 32 - 1.

Inductive SlabError : Set := Full.

Record slot (V : Type) : Type := mkSlot {
  generation : Z;
  next_free : Z;
  data : option V;
}.
Arguments mkSlot {V} _ _ _.
Arguments generation {V} _.
Arguments next_free {V} _.
Arguments data {V} _.

Record slab (V : Type) : Type := mkSlab {
  slots : list (slot V);
  free_head : Z;
  len : Z;
}.
Arguments mkSlab {V} _ _ _.
Arguments slots {V} _.
Arguments free_head {V} _.
Arguments len {V} _.

Section ops.
Context {V : Type}.
Implicit Types (s : slab V) (sl : slot V) (key : Z) (v : V).

(** [Vec::get] at a [u32] index. *)
Definition slot_at s (idx : Z) : option (slot V) := slots s !! Z.to_nat idx.

Definition set_slot s (idx : Z) sl : list (slot V) := <[Z.to_nat idx := sl]> (slots s).

(** [assume_init_ref] and its siblings. *)
Definition data_ref sl : outcome V :=
  match data sl with Some v => Ret v | None => Undefined end.

Definition new (capacity : Z) : outcome (slab V) :=
  match try_from U32 capacity with
  | None => Panic
  | Some capacity_u32 =>
      let mk idx :=
        mkSlot Generation.ZERO
          (if idx + 1 <? capacity_u32 then idx + 1 else FREE_SENTINEL) None in
      Ret (mkSlab (mk <$> seqZ 0 capacity_u32)
             (if capacity_u32 =? 0 then FREE_SENTINEL else 0) 0)
  end.

Definition insert s v : outcome (result SlabError Z * slab V) :=
  let idx := free_head s in
  if idx =? FREE_SENTINEL then Ret (Err Full, s) else
  match slot_at s idx with
  | None => Panic
  | Some sl =>
      if Generation.is_occupied (generation sl) then Panic else
      let g := Generation.next (generation sl) in
      len' ← add_or_panic USIZE (len s) 1;
      Ret (Ok (SlabKey.new idx g),
           mkSlab (set_slot s idx (mkSlot g FREE_SENTINEL (Some v))) (next_free sl) len')
  end.

Definition get s key : outcome (option V) :=
  match slot_at s (SlabKey.index key) with
  | None => Ret None
  | Some sl =>
      if generation sl =? SlabKey.generation key
      then v ← data_ref sl; Ret (Some v)
      else Ret None
  end.

Definition get_mut s key : outcome (option (V * (V -> slab V))) :=
  let idx := SlabKey.index key in
  match slot_at s idx with
  | None => Ret None
  | Some sl =>
      if generation sl =? SlabKey.generation key
      then v ← data_ref sl;
           Ret (Some (v, fun v' =>
             mkSlab (set_slot s idx (mkSlot (generation sl) (next_free sl) (Some v')))
               (free_head s) (len s)))
      else Ret None
  end.

(** The pointer is the address of the slot's data, that is its index; no
    memory is read. *)
Definition slot_ptr s key : option Z :=
  match slot_at s (SlabKey.index key) with
  | None => None
  | Some sl =>
      if generation sl =? SlabKey.generation key then Some (SlabKey.index key) else None
  end.

Definition slot_ptr_mut s key : option Z :=
  match slot_at s (SlabKey.index key) with
  | None => None
  | Some sl =>
      if generation sl =? SlabKey.generation key then Some (SlabKey.index key) else None
  end.

Definition remove s key : outcome (option V * slab V) :=
  let head := free_head s in
  let idx := SlabKey.index key in
  match slot_at s idx with
  | None => Ret (None, s)
  | Some sl =>
      if generation sl =? SlabKey.generation key
      then value ← data_ref sl;
           len' ← sub_or_panic (len s) 1;
           Ret (Some value,
                mkSlab (set_slot s idx (mkSlot (Generation.next (generation sl)) head None))
                  idx len')
      else Ret (None, s)
  end.

(** The slot's bytes were moved out by the caller: no read, no drop; the
    [MaybeUninit] keeps whatever it held. *)
Definition retire_slot s key : outcome (bool * slab V) :=
  let head := free_head s in
  let idx := SlabKey.index key in
  match slot_at s idx with
  | None => Ret (false, s)
  | Some sl =>
      if generation sl =? SlabKey.generation key
      then len' ← sub_or_panic (len s) 1;
           Ret (true,
                mkSlab (set_slot s idx (mkSlot (Generation.next (generation sl)) head (data sl)))
                  idx len')
      else Ret (false, s)
  end.

Definition reserve s : outcome (result SlabError Z * slab V) :=
  let idx := free_head s in
  if idx =? FREE_SENTINEL then Ret (Err Full, s) else
  match slot_at s idx with
  | None => Panic
  | Some sl =>
      if Generation.is_occupied (generation sl) then Panic else
      Ret (Ok (SlabKey.new idx (Generation.next (generation sl))),
           mkSlab (set_slot s idx (mkSlot (generation sl) idx (data sl))) (next_free sl) (len s))
  end.

Definition install s key v : outcome (result V unit * slab V) :=
  let idx := SlabKey.index key in
  match slot_at s idx with
  | None => Ret (Err v, s)
  | Some sl =>
      if (negb (next_free sl =? idx))
         || (negb (Generation.next (generation sl) =? SlabKey.generation key))
      then Ret (Err v, s)
      else
        len' ← add_or_panic USIZE (len s) 1;
        Ret (Ok tt,
             mkSlab (set_slot s idx
                       (mkSlot (Generation.next (generation sl)) FREE_SENTINEL (Some v)))
               (free_head s) len')
  end.

Definition unreserve s key : bool * slab V :=
  let idx := SlabKey.index key in
  match slot_at s idx with
  | None => (false, s)
  | Some sl =>
      if (negb (next_free sl =? idx))
         || (negb (Generation.next (generation sl) =? SlabKey.generation key))
      then (false, s)
      else (true,
            mkSlab (set_slot s idx (mkSlot (generation sl) (free_head s) (data sl)))
              idx (len s))
  end.

Definition capacity s : Z := Z.of_nat (length (slots s)).
Definition is_empty s : bool := len s =? 0.

Definition get_by_index s (idx : Z) : outcome (option V) :=
  match slot_at s idx with
  | None => Ret None
  | Some sl =>
      if Generation.is_occupied (generation sl)
      then v ← data_ref sl; Ret (Some v)
      else Ret None
  end.

Definition get_mut_by_index s (idx : Z) : outcome (option (V * (V -> slab V))) :=
  match slot_at s idx with
  | None => Ret None
  | Some sl =>
      if Generation.is_occupied (generation sl)
      then v ← data_ref sl;
           Ret (Some (v, fun v' =>
             mkSlab (set_slot s idx (mkSlot (generation sl) (next_free sl) (Some v')))
               (free_head s) (len s)))
      else Ret None
  end.

Definition remove_by_index s (idx : Z) : outcome (option V * slab V) :=
  let head := free_head s in
  match slot_at s idx with
  | None => Ret (None, s)
  | Some sl =>
      if Generation.is_occupied (generation sl)
      then value ← data_ref sl;
           len' ← sub_or_panic (len s) 1;
           Ret (Some value,
                mkSlab (set_slot s idx (mkSlot (Generation.next (generation sl)) head None))
                  idx len')
      else Ret (None, s)
  end.

(** The [filter_map] over the enumerated slots, from position [idx] on. *)
Fixpoint iter_from (idx : Z) (ss : list (slot V)) : outcome (list (Z * V)) :=
  match ss with
  | [] => Ret []
  | sl :: ss =>
      if Generation.is_occupied (generation sl)
      then v ← data_ref sl;
           rest ← iter_from (idx + 1) ss;
           Ret ((SlabKey.new (wrap U32 idx) (generation sl), v) :: rest)
      else iter_from (idx + 1) ss
  end.

Definition iter s : outcome (list (Z * V)) := iter_from 0 (slots s).

(** [Drop for Slab]: the values dropped in place, in slot order. *)
Fixpoint drop_slots (ss : list (slot V)) : outcome (list V) :=
  match ss with
  | [] => Ret []
  | sl :: ss =>
      if Generation.is_occupied (generation sl)
      then v ← data_ref sl; rest ← drop_slots ss; Ret (v :: rest)
      else drop_slots ss
  end.

Definition drop s : outcome (list V) := drop_slots (slots s).

End ops.
End Slab.
