(* ===== verification/SlabFacts.v ===== *)
(** * The slab invariant and its consequences

    The in-band free list is a chain of empty slots that ends in the sentinel;
    every slot is either occupied (odd generation, initialised), free (on the
    chain) or reserved (pointing at itself).  The abstract content of a slab is
    [view]: slot index to generation and value. *)

From S2P Require Import Prelude GenKey SlabAlloc.
From stdpp Require Import base tactics list numbers sets sorting.

Local Open Scope Z_scope.

Module SlabSpec.
Import Slab.

Section defs.
Context {V : Type}.
Implicit Types (s : slab V) (sl : slot V) (ss : list (slot V)) (fl : list nat).

Definition occ sl : bool := Generation.is_occupied (generation sl).

Definition occupied_count ss : nat := length (filter (fun sl => occ sl = true) ss).

(** [chain ss h fl]: following [next_free] from head [h] visits exactly the
    empty slots [fl]. *)
Fixpoint chain ss (h : Z) fl : Prop :=
  match fl with
  | [] => h = FREE_SENTINEL
  | i :: fl => h = Z.of_nat i /\ exists sl, ss !! i = Some sl /\ occ sl = false /\ chain ss (next_free sl) fl
  end.

Definition slot_ok fl (i : nat) sl : Prop :=
  Generation.wf (generation sl) /\
  if occ sl then next_free sl = FREE_SENTINEL /\ is_Some (data sl)
  else i ∈ fl \/ next_free sl = Z.of_nat i.

Record wf_with s fl : Prop := {
  wf_cap : Z.of_nat (length (slots s)) < 2 ^ 32;
  wf_chain : chain (slots s) (free_head s) fl;
  wf_nodup : NoDup fl;
  wf_slots : forall i sl, slots s !! i = Some sl -> slot_ok fl i sl;
  wf_len : len s = Z.of_nat (occupied_count (slots s));
}.

Definition wf s : Prop := exists fl, wf_with s fl.

(** Abstract content: what each slot index holds. *)
Definition view s (i : nat) : option (Z * V) :=
  sl ← slots s !! i; if occ sl then v ← data sl; Some (generation sl, v) else None.

(** Slot [i] has been promised by [reserve] and not yet installed. *)
Definition reserved s (i : nat) : Prop :=
  exists sl, slots s !! i = Some sl /\ occ sl = false /\ next_free sl = Z.of_nat i.

(** The generation slot [i] currently carries. *)
Definition gen_at s (i : nat) : option Z := generation <$> slots s !! i.

Definition key_index (key : Z) : nat := Z.to_nat (SlabKey.index key).

(** Keys handed out by [insert] and [reserve] carry an occupied generation. *)
Definition live_key (key : Z) : Prop :=
  Generation.is_occupied (SlabKey.generation key) = true.

(** What a key resolves to: the slot's value while the slot still carries the
    key's generation. *)
Definition lookup s (key : Z) : option V :=
  '(g, v) ← view s (key_index key); if g =? SlabKey.generation key then Some v else None.

(** [view] after slot [i] changed to [c]. *)
Definition upd (f : nat -> option (Z * V)) (i : nat) (c : option (Z * V)) (j : nat) : option (Z * V) :=
  if decide (j = i) then c else f j.

End defs.

Section facts.
Context {V : Type}.
Implicit Types (s : slab V) (sl : slot V) (ss : list (slot V)) (fl : list nat).

Lemma occupied_count_insert ss i sl sl' :
  ss !! i = Some sl ->
  Z.of_nat (occupied_count (<[i:=sl']> ss))
  = Z.of_nat (occupied_count ss) - Z.b2z (occ sl) + Z.b2z (occ sl').
Proof.
  unfold occupied_count. revert i. induction ss as [|sl0 ss IH]; intros [|i] Hi; try done.
  - cbn in Hi. simplify_eq. change (<[0%nat:=sl']> (sl :: ss)) with (sl' :: ss).
    rewrite !filter_cons.
    destruct (occ sl), (occ sl'); repeat case_decide; try congruence;
      cbn [length Z.b2z]; lia.
  - cbn in Hi. change (<[S i:=sl']> (sl0 :: ss)) with (sl0 :: <[i:=sl']> ss).
    rewrite !filter_cons. specialize (IH i Hi). case_decide; cbn [length]; lia.
Qed.

Lemma occupied_count_lookup ss i sl :
  ss !! i = Some sl -> occ sl = true -> (0 < occupied_count ss)%nat.
Proof.
  intros Hi Ho. unfold occupied_count. apply list_elem_of_lookup_2 in Hi.
  destruct (filter (fun sl => occ sl = true) ss) eqn:E; cbn; [|lia].
  exfalso. apply (not_elem_of_nil sl). rewrite <- E. by apply list_elem_of_filter.
Qed.

Lemma occupied_count_length ss : (occupied_count ss <= length ss)%nat.
Proof. unfold occupied_count. apply length_filter. Qed.

Lemma chain_insert_ne ss h fl i sl' :
  i ∉ fl -> chain ss h fl -> chain (<[i:=sl']> ss) h fl.
Proof.
  revert h. induction fl as [|j fl IH]; intros h Hi; [done|].
  cbn. intros (-> & sl & Hj & Ho & Hc). split; [done|]. exists sl.
  rewrite list_lookup_insert_ne by set_solver. split_and!; try done. apply IH; [set_solver|done].
Qed.

Lemma chain_head_sentinel s fl :
  wf_with s fl -> free_head s = FREE_SENTINEL -> fl = [].
Proof.
  intros W E. destruct fl as [|i fl]; [done|]. exfalso.
  destruct (wf_chain _ _ W) as (Hh & sl & Hi & _). apply lookup_lt_Some in Hi.
  pose proof (wf_cap _ _ W). unfold FREE_SENTINEL in E. lia.
Qed.

Lemma chain_unocc ss h fl i :
  chain ss h fl -> i ∈ fl -> exists sl, ss !! i = Some sl /\ occ sl = false.
Proof.
  revert h. induction fl as [|j fl IH]; intros h; [set_solver|].
  cbn. intros (-> & sl & Hj & Ho & Hc) [->|Hi]%elem_of_cons; eauto.
Qed.

(** A slot on the free chain never points at itself: the reserved mark is
    unambiguous. *)
Lemma chain_not_self ss h fl i sl :
  Z.of_nat (length ss) < 2 ^ 32 -> NoDup fl -> chain ss h fl ->
  i ∈ fl -> ss !! i = Some sl -> next_free sl <> Z.of_nat i.
Proof.
  intros Hcap. revert h. induction fl as [|j fl IH]; intros h; [set_solver|].
  intros [Hj Hnd]%NoDup_cons (-> & sl' & Hsl' & Ho & Hc) [->|Hi]%elem_of_cons Hsl; [|by eauto].
  pose proof (lookup_lt_Some _ _ _ Hsl) as Hlt.
  simplify_eq. destruct fl as [|k fl]; cbn in Hc.
  - rewrite Hc. unfold FREE_SENTINEL. lia.
  - destruct Hc as (-> & _). intros E. apply Hj. simplify_eq. set_solver.
Qed.

(** The shared step of every mutating operation: one slot is rewritten and
    the free list, head and length follow. *)
Lemma wf_update s fl fl' i sl sl' h' n' :
  wf_with s fl -> slots s !! i = Some sl ->
  chain (<[i:=sl']> (slots s)) h' fl' -> NoDup fl' -> slot_ok fl' i sl' ->
  (forall j, j <> i -> j ∈ fl <-> j ∈ fl') ->
  n' = len s - Z.b2z (occ sl) + Z.b2z (occ sl') ->
  wf_with (mkSlab (<[i:=sl']> (slots s)) h' n') fl'.
Proof.
  intros W Hi Hc Hnd Hok Hfl ->. constructor; cbn [slots free_head len]; try done.
  - rewrite length_insert. apply W.
  - intros j slj Hj. destruct (decide (j = i)) as [->|Hne].
    + rewrite list_lookup_insert_eq in Hj by (by eapply lookup_lt_Some). by simplify_eq.
    + rewrite list_lookup_insert_ne in Hj by done. destruct (wf_slots _ _ W _ _ Hj) as [Hg Hd].
      split; [done|]. destruct (occ slj); [done|]. rewrite <- (Hfl j) by done. done.
  - rewrite (wf_len _ _ W), (occupied_count_insert _ _ _ _ Hi). lia.
Qed.

Lemma wf_take s i fl sl sl' h' n' :
  wf_with s (i :: fl) -> slots s !! i = Some sl -> h' = next_free sl ->
  slot_ok fl i sl' -> n' = len s - Z.b2z (occ sl) + Z.b2z (occ sl') ->
  wf_with (mkSlab (<[i:=sl']> (slots s)) h' n') fl.
Proof.
  intros W Hi -> Hok Hn. pose proof (wf_nodup _ _ W) as [Hni Hnd]%NoDup_cons.
  destruct (wf_chain _ _ W) as (_ & sl0 & Hsl0 & _ & Hc). simplify_eq.
  eapply wf_update; [done..| |done|done| |done].
  - by apply chain_insert_ne.
  - set_solver.
Qed.

Lemma wf_put s i fl sl sl' n' :
  wf_with s fl -> slots s !! i = Some sl -> i ∉ fl ->
  Generation.wf (generation sl') -> occ sl' = false -> next_free sl' = free_head s ->
  n' = len s - Z.b2z (occ sl) + Z.b2z (occ sl') ->
  wf_with (mkSlab (<[i:=sl']> (slots s)) (Z.of_nat i) n') (i :: fl).
Proof.
  intros W Hi Hni Hg Ho Hnf Hn. eapply wf_update; [done..| | | | |done].
  - cbn. split; [done|]. exists sl'.
    rewrite list_lookup_insert_eq by (by eapply lookup_lt_Some). split_and!; try done.
    rewrite Hnf. apply chain_insert_ne; [done|]. apply W.
  - constructor; [done|]. apply W.
  - split; [done|]. rewrite Ho. set_solver.
  - set_solver.
Qed.

Lemma wf_in_place s i fl sl sl' n' :
  wf_with s fl -> slots s !! i = Some sl -> i ∉ fl -> slot_ok fl i sl' ->
  n' = len s - Z.b2z (occ sl) + Z.b2z (occ sl') ->
  wf_with (mkSlab (<[i:=sl']> (slots s)) (free_head s) n') fl.
Proof.
  intros W Hi Hni Hok Hn. eapply wf_update; [done..| | |done| |done].
  - apply chain_insert_ne; [done|]. apply W.
  - apply W.
  - set_solver.
Qed.

Lemma occ_not_free s fl i sl :
  wf_with s fl -> slots s !! i = Some sl -> occ sl = true -> i ∉ fl.
Proof.
  intros W Hi Ho Hin. destruct (chain_unocc _ _ _ _ (wf_chain _ _ W) Hin) as (sl' & ? & ?).
  simplify_eq. congruence.
Qed.

Lemma occ_data s fl i sl :
  wf_with s fl -> slots s !! i = Some sl -> occ sl = true -> exists v, data sl = Some v.
Proof. intros W Hi Ho. destruct (wf_slots _ _ W _ _ Hi) as [_ H]. rewrite Ho in H. apply H. Qed.

Lemma wf_index s fl i sl :
  wf_with s fl -> slots s !! i = Some sl -> fits 32 (Z.of_nat i).
Proof. intros W Hi%lookup_lt_Some. pose proof (wf_cap _ _ W). unfold fits. lia. Qed.

Lemma wf_len_pos s fl i sl :
  wf_with s fl -> slots s !! i = Some sl -> occ sl = true -> 1 <= len s.
Proof.
  intros W Hi Ho. rewrite (wf_len _ _ W). pose proof (occupied_count_lookup _ _ _ Hi Ho). lia.
Qed.

Lemma wf_len_bound s fl : wf_with s fl -> 0 <= len s < 2 ^ 32.
Proof.
  intros W. rewrite (wf_len _ _ W). pose proof (occupied_count_length (slots s)).
  pose proof (wf_cap _ _ W). lia.
Qed.

Lemma view_insert s h n i sl sl' j :
  slots s !! i = Some sl ->
  view (mkSlab (<[i:=sl']> (slots s)) h n) j
  = if decide (j = i) then (if occ sl' then v ← data sl'; Some (generation sl', v) else None)
    else view s j.
Proof.
  intros Hi. unfold view. cbn. case_decide; subst.
  - rewrite list_lookup_insert_eq by (by eapply lookup_lt_Some). done.
  - by rewrite list_lookup_insert_ne.
Qed.

Lemma view_Some s i g v :
  view s i = Some (g, v) <->
  exists sl, slots s !! i = Some sl /\ occ sl = true /\ generation sl = g /\ data sl = Some v.
Proof.
  unfold view. destruct (slots s !! i) as [sl|]; cbn; [|naive_solver].
  destruct (occ sl) eqn:Ho; [|naive_solver congruence].
  destruct (data sl) eqn:Hd; cbn; naive_solver.
Qed.

Lemma view_unocc s i sl : slots s !! i = Some sl -> occ sl = false -> view s i = None.
Proof. intros Hi Ho. unfold view. rewrite Hi. cbn. by rewrite Ho. Qed.

Lemma key_index_Z key : Z.of_nat (key_index key) = SlabKey.index key.
Proof. unfold key_index. pose proof (SlabKey.index_fits key). unfold fits in *. lia. Qed.

Lemma key_index_new s fl i sl g :
  wf_with s fl -> slots s !! i = Some sl -> key_index (SlabKey.new (Z.of_nat i) g) = i.
Proof.
  intros W Hi. unfold key_index. rewrite SlabKey.index_new by (by eapply wf_index). lia.
Qed.

Lemma lookup_new_key s fl i sl g :
  wf_with s fl -> slots s !! i = Some sl -> Generation.wf g ->
  lookup s (SlabKey.new (Z.of_nat i) g)
  = '(g', v) ← view s i; if g' =? g then Some v else None.
Proof.
  intros W Hi Hg. unfold lookup. erewrite key_index_new by done.
  rewrite SlabKey.generation_new by (done || by eapply wf_index). done.
Qed.

(** The slot a live key matches is occupied and initialised. *)
Lemma match_occupied s fl key sl :
  wf_with s fl -> live_key key -> slots s !! key_index key = Some sl ->
  generation sl = SlabKey.generation key -> occ sl = true /\ exists v, data sl = Some v.
Proof.
  intros W Hk Hi Hg. assert (occ sl = true) by (unfold occ; rewrite Hg; exact Hk).
  split; [done|]. by eapply occ_data.
Qed.

Lemma lookup_Some s key v :
  lookup s key = Some v <->
  exists sl, slots s !! key_index key = Some sl /\ occ sl = true /\
    generation sl = SlabKey.generation key /\ data sl = Some v.
Proof.
  unfold lookup. destruct (view s (key_index key)) as [[g v']|] eqn:E; cbn.
  - apply view_Some in E as (sl & Hi & Ho & <- & Hd). destruct (Z.eqb_spec (generation sl) (SlabKey.generation key)); naive_solver.
  - split; [done|]. intros (sl & Hi & Ho & Hg & Hd).
    assert (view s (key_index key) = Some (SlabKey.generation key, v)) by (apply view_Some; eauto).
    congruence.
Qed.

Lemma lookup_None_mismatch s key sl :
  slots s !! key_index key = Some sl -> generation sl <> SlabKey.generation key ->
  lookup s key = None.
Proof.
  intros Hi Hg. destruct (lookup s key) eqn:E; [|done].
  apply lookup_Some in E as (sl' & ? & ? & ? & ?). congruence.
Qed.

Lemma lookup_None_range s key : slots s !! key_index key = None -> lookup s key = None.
Proof. intros Hi. unfold lookup, view. by rewrite Hi. Qed.

End facts.
End SlabSpec.
