(* ===== verification/SlabThms.v ===== *)
(** * What each slab operation does

    One specification per operation of [Module Slab], on every branch: on a
    well-formed slab and a key the slab could have issued, the operation
    returns (no panic, no uninitialised read), keeps the slab well formed and
    changes the abstract content as documented. *)

From S2P Require Import Prelude GenKey SlabAlloc SlabFacts.
From stdpp Require Import base tactics list numbers sets sorting.

Local Open Scope Z_scope.

Module SlabOps.
Import Slab SlabSpec.

Section specs.
Context {V : Type}.
Implicit Types (s : slab V) (sl : slot V) (fl : list nat) (key : Z) (v : V).

Lemma slot_at_nat s idx i : idx = Z.of_nat i -> slot_at s idx = slots s !! i.
Proof. intros ->. unfold slot_at. by rewrite Nat2Z.id. Qed.

Lemma slot_at_key s key : slot_at s (SlabKey.index key) = slots s !! key_index key.
Proof. done. Qed.

Lemma set_slot_nat s idx i sl : idx = Z.of_nat i -> set_slot s idx sl = <[i:=sl]> (slots s).
Proof. intros ->. unfold set_slot. by rewrite Nat2Z.id. Qed.

Lemma set_slot_key s key sl :
  set_slot s (SlabKey.index key) sl = <[key_index key:=sl]> (slots s).
Proof. done. Qed.

Lemma next_occ_true g : Generation.wf g -> Generation.is_occupied g = false ->
  Generation.is_occupied (Generation.next g) = true.
Proof. intros Hg Ho. by rewrite Generation.next_occupied, Ho. Qed.

Lemma next_occ_false g : Generation.wf g -> Generation.is_occupied g = true ->
  Generation.is_occupied (Generation.next g) = false.
Proof. intros Hg Ho. by rewrite Generation.next_occupied, Ho. Qed.

Lemma head_slot s fl :
  wf_with s fl -> free_head s <> FREE_SENTINEL ->
  exists i fl' sl, fl = i :: fl' /\ free_head s = Z.of_nat i /\ slots s !! i = Some sl /\
    occ sl = false /\ Generation.wf (generation sl).
Proof.
  intros W Hne. pose proof (wf_chain _ _ W) as Hc. destruct fl as [|i fl']; [done|].
  destruct Hc as (Hh & sl & Hi & Ho & _). exists i, fl', sl. split_and!; try done.
  apply (wf_slots _ _ W _ _ Hi).
Qed.

(** A slab with an empty free list has every slot occupied or reserved. *)
Lemma exhausted s fl i :
  wf_with s fl -> free_head s = FREE_SENTINEL -> (i < length (slots s))%nat ->
  (exists c, view s i = Some c) \/ reserved s i.
Proof.
  intros W Hh Hi. pose proof (chain_head_sentinel _ _ W Hh) as ->.
  apply lookup_lt_is_Some_2 in Hi as [sl Hi]. destruct (wf_slots _ _ W _ _ Hi) as [_ Hok].
  destruct (occ sl) eqn:Ho.
  - destruct Hok as [_ [v Hv]]. left. exists (generation sl, v). apply view_Some; eauto.
  - right. destruct Hok as [H|H]; [set_solver|]. exists sl; eauto.
Qed.

Lemma insert_spec s v :
  wf s ->
  match insert s v with
  | Ret (Ok key, s') =>
      wf s' /\ live_key key /\ view s (key_index key) = None /\ ~ reserved s (key_index key) /\
      (forall j, view s' j = upd (view s) (key_index key) (Some (SlabKey.generation key, v)) j) /\
      length (slots s') = length (slots s)
  | Ret (Err Full, s') =>
      s' = s /\ forall i, (i < length (slots s))%nat -> (exists c, view s i = Some c) \/ reserved s i
  | _ => False
  end.
Proof.
  intros [fl W]. unfold insert. destruct (Z.eqb_spec (free_head s) FREE_SENTINEL) as [Hh|Hh].
  { split; [done|]. intros i. by apply (exhausted _ fl). }
  destruct (head_slot _ _ W Hh) as (i & fl' & sl & -> & Hhd & Hi & Ho & Hg).
  rewrite (slot_at_nat _ _ i Hhd), Hi. fold (occ sl). rewrite Ho.
  unfold add_or_panic. pose proof (wf_len_bound _ _ W).
  destruct (Z.ltb_spec (len s + 1) (2 ^ 64)); [|lia]. cbn [mbind outcome_bind].
  rewrite (set_slot_nat _ _ i _ Hhd), Hhd.
  set (g := Generation.next (generation sl)). assert (Generation.wf g) by apply Generation.next_wf.
  assert (Generation.is_occupied g = true) as Hgo by by apply next_occ_true.
  rewrite (key_index_new _ _ i sl g W Hi). unfold live_key.
  rewrite SlabKey.generation_new by (done || by eapply wf_index).
  split_and!.
  - exists fl'. eapply wf_take; [done..| |].
    + split; [done|]. unfold occ. cbn. rewrite Hgo. eauto.
    + unfold occ at 2. cbn. rewrite Ho, Hgo. cbn [Z.b2z]. lia.
  - done.
  - by eapply view_unocc.
  - intros (sl' & Hi' & _ & Hnf). simplify_eq. revert Hnf.
    eapply chain_not_self; [apply W|apply W|apply W|set_solver|done].
  - intros j. rewrite (view_insert _ _ _ _ _ _ _ Hi). unfold upd, occ. cbn. by rewrite Hgo.
  - cbn. by rewrite length_insert.
Qed.

Lemma get_spec s key : wf s -> live_key key -> get s key = Ret (lookup s key).
Proof.
  intros [fl W] Hk. unfold get. rewrite slot_at_key.
  destruct (slots s !! key_index key) as [sl|] eqn:Hi; [|by rewrite lookup_None_range].
  destruct (Z.eqb_spec (generation sl) (SlabKey.generation key)) as [Hg|Hg].
  - destruct (match_occupied _ _ _ _ W Hk Hi Hg) as (Ho & v & Hv).
    unfold data_ref. rewrite Hv. cbn. do 2 f_equal. symmetry. apply lookup_Some; eauto 6.
  - by erewrite lookup_None_mismatch.
Qed.

Lemma get_mut_spec s key :
  wf s -> live_key key ->
  match lookup s key with
  | None => get_mut s key = Ret None
  | Some v => exists st, get_mut s key = Ret (Some (v, st)) /\ forall v',
      wf (st v') /\ length (slots (st v')) = length (slots s) /\
      forall j, view (st v') j = upd (view s) (key_index key) (Some (SlabKey.generation key, v')) j
  end.
Proof.
  intros [fl W] Hk. unfold get_mut. rewrite slot_at_key.
  destruct (slots s !! key_index key) as [sl|] eqn:Hi; [|by rewrite lookup_None_range].
  destruct (Z.eqb_spec (generation sl) (SlabKey.generation key)) as [Hg|Hg];
    [|by erewrite lookup_None_mismatch].
  destruct (match_occupied _ _ _ _ W Hk Hi Hg) as (Ho & v & Hv).
  assert (lookup s key = Some v) as -> by (apply lookup_Some; eauto 6).
  unfold data_ref. rewrite Hv. cbn. eexists. split; [done|]. intros v'. split_and!.
  - exists fl. rewrite set_slot_key. eapply wf_in_place; [done..| | |].
    + by eapply occ_not_free.
    + destruct (wf_slots _ _ W _ _ Hi) as [Hw Hok]. split; [done|]. unfold occ in *. cbn.
      rewrite Ho in *. destruct Hok. eauto.
    + unfold occ. cbn. lia.
  - cbn. by rewrite set_slot_key, length_insert.
  - intros j. rewrite set_slot_key, (view_insert _ _ _ _ _ _ _ Hi). unfold upd, occ in *. cbn.
    rewrite Ho, Hg. done.
Qed.

(** Removing (by key, by index) and retiring share this step. *)
Lemma release_spec s fl i sl d n' :
  wf_with s fl -> slots s !! i = Some sl -> occ sl = true -> n' = len s - 1 ->
  let s' := mkSlab (<[i:=mkSlot (Generation.next (generation sl)) (free_head s) d]> (slots s))
              (Z.of_nat i) n' in
  wf s' /\ length (slots s') = length (slots s) /\ forall j, view s' j = upd (view s) i None j.
Proof.
  intros W Hi Ho -> s'. destruct (wf_slots _ _ W _ _ Hi) as [Hw _].
  assert (Generation.is_occupied (Generation.next (generation sl)) = false) as Hn
    by by apply next_occ_false.
  split_and!.
  - exists (i :: fl). eapply wf_put; try done.
    + by eapply occ_not_free.
    + apply Generation.next_wf.
    + unfold occ at 2. cbn. rewrite Ho, Hn. cbn [Z.b2z]. lia.
  - subst s'. cbn. by rewrite length_insert.
  - intros j. subst s'. rewrite (view_insert _ _ _ _ _ _ _ Hi). unfold upd, occ. cbn.
    by rewrite Hn.
Qed.

Lemma remove_spec s key :
  wf s -> live_key key ->
  match lookup s key with
  | None => remove s key = Ret (None, s)
  | Some v => exists s', remove s key = Ret (Some v, s') /\ wf s' /\
      length (slots s') = length (slots s) /\
      forall j, view s' j = upd (view s) (key_index key) None j
  end.
Proof.
  intros [fl W] Hk. unfold remove. rewrite slot_at_key.
  destruct (slots s !! key_index key) as [sl|] eqn:Hi; [|by rewrite lookup_None_range].
  destruct (Z.eqb_spec (generation sl) (SlabKey.generation key)) as [Hg|Hg];
    [|by erewrite lookup_None_mismatch].
  destruct (match_occupied _ _ _ _ W Hk Hi Hg) as (Ho & v & Hv).
  assert (lookup s key = Some v) as -> by (apply lookup_Some; eauto 6).
  unfold data_ref. rewrite Hv. cbn. unfold sub_or_panic.
  pose proof (wf_len_pos _ _ _ _ W Hi Ho). destruct (Z.leb_spec 1 (len s)); [|lia]. cbn.
  eexists. split; [done|]. rewrite set_slot_key, <- key_index_Z. by eapply release_spec.
Qed.

Lemma retire_slot_spec s key :
  wf s -> live_key key ->
  match lookup s key with
  | None => retire_slot s key = Ret (false, s)
  | Some v => exists s', retire_slot s key = Ret (true, s') /\ wf s' /\
      length (slots s') = length (slots s) /\
      forall j, view s' j = upd (view s) (key_index key) None j
  end.
Proof.
  intros [fl W] Hk. unfold retire_slot. rewrite slot_at_key.
  destruct (slots s !! key_index key) as [sl|] eqn:Hi; [|by rewrite lookup_None_range].
  destruct (Z.eqb_spec (generation sl) (SlabKey.generation key)) as [Hg|Hg];
    [|by erewrite lookup_None_mismatch].
  destruct (match_occupied _ _ _ _ W Hk Hi Hg) as (Ho & v & Hv).
  assert (lookup s key = Some v) as -> by (apply lookup_Some; eauto 6).
  unfold sub_or_panic. pose proof (wf_len_pos _ _ _ _ W Hi Ho).
  destruct (Z.leb_spec 1 (len s)); [|lia]. cbn.
  eexists. split; [done|]. rewrite set_slot_key, <- key_index_Z. by eapply release_spec.
Qed.

(** [key] is the key [reserve] promised for a slot that is still reserved. *)
Definition promised s key : Prop :=
  exists sl, slots s !! key_index key = Some sl /\ occ sl = false /\
    next_free sl = SlabKey.index key /\
    Generation.next (generation sl) = SlabKey.generation key.

Lemma reserve_spec s :
  wf s ->
  match reserve s with
  | Ret (Ok key, s') =>
      wf s' /\ live_key key /\ promised s' key /\ ~ reserved s (key_index key) /\
      lookup s' key = None /\ (forall j, view s' j = view s j) /\
      length (slots s') = length (slots s)
  | Ret (Err Full, s') =>
      s' = s /\ forall i, (i < length (slots s))%nat -> (exists c, view s i = Some c) \/ reserved s i
  | _ => False
  end.
Proof.
  intros [fl W]. unfold reserve. destruct (Z.eqb_spec (free_head s) FREE_SENTINEL) as [Hh|Hh].
  { split; [done|]. intros i. by apply (exhausted _ fl). }
  destruct (head_slot _ _ W Hh) as (i & fl' & sl & -> & Hhd & Hi & Ho & Hg).
  rewrite (slot_at_nat _ _ i Hhd), Hi. fold (occ sl). rewrite Ho.
  rewrite (set_slot_nat _ _ i _ Hhd), Hhd.
  set (g := Generation.next (generation sl)). assert (Generation.wf g) by apply Generation.next_wf.
  assert (Generation.is_occupied g = true) as Hgo by by apply next_occ_true.
  set (s' := mkSlab _ _ _).
  assert (slots s' !! i = Some (mkSlot (generation sl) (Z.of_nat i) (data sl))) as Hi'.
  { subst s'. cbn. apply list_lookup_insert_eq. by eapply lookup_lt_Some. }
  assert (wf_with s' fl') as W'.
  { subst s'. eapply wf_take; [done..| |].
    - split; [done|]. fold (occ sl). unfold occ. cbn. fold (occ sl). rewrite Ho. by right.
    - unfold occ. cbn. lia. }
  assert (forall j, view s' j = view s j) as Hview.
  { intros j. subst s'. rewrite (view_insert _ _ _ _ _ _ _ Hi). case_decide; [|done]. subst.
    unfold occ in *. cbn. rewrite Ho. symmetry. by eapply view_unocc. }
  split_and!; try done.
  - by exists fl'.
  - unfold live_key. rewrite SlabKey.generation_new by (done || by eapply wf_index). done.
  - unfold promised. erewrite key_index_new by done. rewrite Hi'. eexists. split_and!; [done..| |].
    + cbn. rewrite SlabKey.index_new; [done|]. by eapply wf_index.
    + cbn. rewrite SlabKey.generation_new by (done || by eapply wf_index). done.
  - erewrite key_index_new by done. intros (sl' & ? & _ & Hnf). simplify_eq. revert Hnf.
    eapply chain_not_self; [apply W|apply W|apply W|set_solver|done].
  - rewrite (lookup_new_key _ _ _ _ _ W' Hi') by done.
    rewrite Hview. erewrite view_unocc by done. done.
  - subst s'. cbn. by rewrite length_insert.
Qed.

(** On a well-formed slab the guard of [install] and [unreserve] is exactly
    [promised]. *)
Lemma promised_guard s fl key sl :
  wf_with s fl -> slots s !! key_index key = Some sl ->
  (negb (next_free sl =? SlabKey.index key))
    || (negb (Generation.next (generation sl) =? SlabKey.generation key)) = false
  <-> promised s key.
Proof.
  intros W Hi. rewrite orb_false_iff, !negb_false_iff, !Z.eqb_eq. unfold promised. split.
  - intros [Hn Hg]. exists sl. split_and!; try done. destruct (occ sl) eqn:Ho; [|done].
    destruct (wf_slots _ _ W _ _ Hi) as [_ Hok]. rewrite Ho in Hok. destruct Hok as [Hs _].
    pose proof (wf_cap _ _ W). apply lookup_lt_Some in Hi.
    rewrite Hs, <- key_index_Z in Hn. unfold FREE_SENTINEL in Hn. lia.
  - intros (sl' & ? & _ & ? & ?). simplify_eq. done.
Qed.

Lemma promised_not_free s fl key :
  wf_with s fl -> promised s key -> key_index key ∉ fl.
Proof.
  intros W (sl & Hi & Ho & Hn & _) Hin. revert Hn. rewrite <- key_index_Z.
  eapply chain_not_self; [apply W|apply W|apply W|done|done].
Qed.

Lemma install_spec s key v :
  wf s -> promised s key ->
  exists s', install s key v = Ret (Ok tt, s') /\ wf s' /\ length (slots s') = length (slots s) /\
    lookup s' key = Some v /\
    forall j, view s' j = upd (view s) (key_index key) (Some (SlabKey.generation key, v)) j.
Proof.
  intros [fl W] Hp. pose proof Hp as (sl & Hi & Ho & Hn & Hg).
  pose proof (proj2 (promised_guard _ _ _ _ W Hi) Hp) as E.
  unfold install. rewrite slot_at_key, Hi, E. destruct (wf_slots _ _ W _ _ Hi) as [Hw _].
  unfold add_or_panic. pose proof (wf_len_bound _ _ W).
  destruct (Z.ltb_spec (len s + 1) (2 ^ 64)); [|lia]. cbn [mbind outcome_bind].
  rewrite set_slot_key, Hg. eexists. split; [done|].
  assert (Generation.is_occupied (SlabKey.generation key) = true) as Hgo.
  { rewrite <- Hg. by apply next_occ_true. }
  split_and!.
  - exists fl. eapply wf_in_place; [done..| | |].
    + by eapply promised_not_free.
    + split; [apply SlabKey.generation_wf|]. unfold occ. cbn. rewrite Hgo. eauto.
    + unfold occ at 2. cbn. rewrite Ho, Hgo. cbn [Z.b2z]. lia.
  - cbn. by rewrite length_insert.
  - apply lookup_Some. eexists. cbn. rewrite list_lookup_insert_eq by (by eapply lookup_lt_Some).
    split_and!; [done|exact Hgo|done|done].
  - intros j. rewrite (view_insert _ _ _ _ _ _ _ Hi). unfold upd, occ. cbn. by rewrite Hgo.
Qed.

Lemma install_reject s key v :
  wf s -> ~ promised s key -> install s key v = Ret (Err v, s).
Proof.
  intros [fl W] Hp. unfold install. rewrite slot_at_key.
  destruct (slots s !! key_index key) as [sl|] eqn:Hi; [|done].
  destruct (_ || _) eqn:E; [done|]. exfalso. by apply Hp, (promised_guard _ _ _ _ W Hi).
Qed.

Lemma unreserve_spec s key :
  wf s -> promised s key ->
  exists s', unreserve s key = (true, s') /\ wf s' /\ length (slots s') = length (slots s) /\
    (forall j, view s' j = view s j) /\ ~ promised s' key.
Proof.
  intros [fl W] Hp. pose proof Hp as (sl & Hi & Ho & Hn & Hg).
  pose proof (proj2 (promised_guard _ _ _ _ W Hi) Hp) as E.
  unfold unreserve. rewrite slot_at_key, Hi, E. destruct (wf_slots _ _ W _ _ Hi) as [Hw _].
  rewrite set_slot_key, <- key_index_Z. eexists. split; [done|].
  set (s' := mkSlab _ _ _). assert (wf_with s' (key_index key :: fl)) as W'.
  { eapply wf_put; try done; [by eapply promised_not_free|]. unfold occ at 2. cbn. fold (occ sl). lia. }
  split_and!.
  - by eexists.
  - cbn. by rewrite length_insert.
  - intros j. subst s'. rewrite (view_insert _ _ _ _ _ _ _ Hi). case_decide; [|done]. subst.
    unfold occ in *. cbn. rewrite Ho. symmetry. by eapply view_unocc.
  - intros Hp'. eapply promised_not_free; [exact W'|exact Hp'|set_solver].
Qed.

Lemma unreserve_reject s key : wf s -> ~ promised s key -> unreserve s key = (false, s).
Proof.
  intros [fl W] Hp. unfold unreserve. rewrite slot_at_key.
  destruct (slots s !! key_index key) as [sl|] eqn:Hi; [|done].
  destruct (_ || _) eqn:E; [done|]. exfalso. by apply Hp, (promised_guard _ _ _ _ W Hi).
Qed.

(** *** Access by raw index *)

Definition view_value s (i : nat) : option V := snd <$> view s i.

Lemma occ_view s fl i sl :
  wf_with s fl -> slots s !! i = Some sl -> occ sl = true ->
  exists v, data sl = Some v /\ view s i = Some (generation sl, v).
Proof.
  intros W Hi Ho. destruct (occ_data _ _ _ _ W Hi Ho) as [v Hv]. exists v. split; [done|].
  apply view_Some; eauto.
Qed.

Lemma get_by_index_spec s i :
  wf s -> get_by_index s (Z.of_nat i) = Ret (view_value s i).
Proof.
  intros [fl W]. unfold get_by_index, view_value. rewrite (slot_at_nat _ _ i) by done.
  destruct (slots s !! i) as [sl|] eqn:Hi; [|unfold view; by rewrite Hi].
  fold (occ sl). destruct (occ sl) eqn:Ho; [|by erewrite view_unocc].
  destruct (occ_view _ _ _ _ W Hi Ho) as (v & Hv & ->). unfold data_ref. by rewrite Hv.
Qed.

Lemma get_mut_by_index_spec s i :
  wf s ->
  match view s i with
  | None => get_mut_by_index s (Z.of_nat i) = Ret None
  | Some (g, v) => exists st, get_mut_by_index s (Z.of_nat i) = Ret (Some (v, st)) /\ forall v',
      wf (st v') /\ length (slots (st v')) = length (slots s) /\
      forall j, view (st v') j = upd (view s) i (Some (g, v')) j
  end.
Proof.
  intros [fl W]. unfold get_mut_by_index. rewrite (slot_at_nat _ _ i) by done.
  destruct (slots s !! i) as [sl|] eqn:Hi; [|unfold view; by rewrite Hi].
  fold (occ sl). destruct (occ sl) eqn:Ho; [|by erewrite view_unocc].
  destruct (occ_view _ _ _ _ W Hi Ho) as (v & Hv & ->). unfold data_ref. rewrite Hv. cbn.
  eexists. split; [done|]. intros v'. cbv beta. rewrite (set_slot_nat _ _ i) by done. split_and!.
  - exists fl. eapply wf_in_place; [done..| | |].
    + by eapply occ_not_free.
    + destruct (wf_slots _ _ W _ _ Hi) as [Hw Hok]. split; [done|]. unfold occ in *. cbn.
      rewrite Ho in *. destruct Hok. eauto.
    + unfold occ. cbn. lia.
  - cbn. by rewrite length_insert.
  - intros j. rewrite (view_insert _ _ _ _ _ _ _ Hi). unfold upd, occ in *. cbn. by rewrite Ho.
Qed.

Lemma remove_by_index_spec s i :
  wf s ->
  match view s i with
  | None => remove_by_index s (Z.of_nat i) = Ret (None, s)
  | Some (_, v) => exists s', remove_by_index s (Z.of_nat i) = Ret (Some v, s') /\ wf s' /\
      length (slots s') = length (slots s) /\ forall j, view s' j = upd (view s) i None j
  end.
Proof.
  intros [fl W]. unfold remove_by_index. rewrite (slot_at_nat _ _ i) by done.
  destruct (slots s !! i) as [sl|] eqn:Hi; [|unfold view; by rewrite Hi].
  fold (occ sl). destruct (occ sl) eqn:Ho; [|by erewrite view_unocc].
  destruct (occ_view _ _ _ _ W Hi Ho) as (v & Hv & ->). unfold data_ref. rewrite Hv. cbn.
  unfold sub_or_panic. pose proof (wf_len_pos _ _ _ _ W Hi Ho).
  destruct (Z.leb_spec 1 (len s)); [|lia]. cbn. rewrite (set_slot_nat _ _ i) by done.
  eexists. split; [done|]. by eapply release_spec.
Qed.

(** *** Construction *)

Definition new_slot (c idx : Z) : slot V :=
  mkSlot Generation.ZERO (if idx + 1 <? c then idx + 1 else FREE_SENTINEL) None.

Lemma new_eq c : c < 2 ^ 32 ->
  @new V c = Ret (mkSlab (new_slot c <$> seqZ 0 c) (if c =? 0 then FREE_SENTINEL else 0) 0).
Proof.
  intros Hc. unfold new, try_from. destruct (Z.ltb_spec c (2 ^ 32)); [done|lia].
Qed.

Lemma new_slot_lookup c (i : nat) :
  (new_slot c <$> seqZ 0 c) !! i = if Z.of_nat i <? c then Some (new_slot c (Z.of_nat i)) else None.
Proof.
  rewrite list_lookup_fmap. destruct (Z.ltb_spec (Z.of_nat i) c).
  - rewrite lookup_seqZ_lt by lia. done.
  - rewrite lookup_seqZ_ge by lia. done.
Qed.

Lemma new_chain c (n i : nat) :
  c < 2 ^ 32 -> Z.of_nat (i + n) = c ->
  chain (new_slot c <$> seqZ 0 c) (if (n =? 0)%nat then FREE_SENTINEL else Z.of_nat i) (seq i n).
Proof.
  intros Hc. revert i. induction n as [|n IH]; intros i Hin; [done|].
  cbn. split; [done|]. exists (new_slot c (Z.of_nat i)). split; [|split; [done|]].
  - rewrite new_slot_lookup. destruct (Z.ltb_spec (Z.of_nat i) c); [done|lia].
  - specialize (IH (S i)). cbn. destruct (Z.ltb_spec (Z.of_nat i + 1) c).
    + destruct n; [lia|]. replace (Z.of_nat i + 1) with (Z.of_nat (S i)) by lia. apply IH. lia.
    + assert (n = 0)%nat as -> by lia. reflexivity.
Qed.

Lemma new_slot_inv c i sl : (new_slot c <$> seqZ 0 c) !! i = Some sl -> Z.of_nat i < c /\ sl = new_slot c (Z.of_nat i).
Proof. rewrite new_slot_lookup. destruct (Z.ltb_spec (Z.of_nat i) c); naive_solver. Qed.

Lemma slab_new_wf c : 0 <= c < 2 ^ 32 ->
  wf_with (mkSlab (new_slot c <$> seqZ 0 c) (if c =? 0 then FREE_SENTINEL else 0) 0) (seq 0 (Z.to_nat c)).
Proof.
  intros Hc. constructor; cbn [slots free_head len].
  - rewrite length_fmap, length_seqZ. lia.
  - pose proof (new_chain c (Z.to_nat c) 0). destruct (Z.eqb_spec c 0) as [->|]; [done|].
    destruct (Z.to_nat c) eqn:E; [lia|]. cbn in *. apply H; lia.
  - apply NoDup_seq.
  - intros i sl (Hi & ->)%new_slot_inv. split; [done|]. unfold occ. cbn. left. apply elem_of_seq. lia.
  - destruct (decide (occupied_count (new_slot c <$> seqZ 0 c) = 0)%nat) as [->|Hn]; [done|].
    exfalso. unfold occupied_count in Hn. destruct (filter _ _) as [|sl l] eqn:E; [done|].
    assert (sl ∈ filter (fun sl => occ sl = true) (new_slot c <$> seqZ 0 c)) as [Ho Hel]%list_elem_of_filter by (rewrite E; set_solver).
    apply list_elem_of_lookup in Hel as (i & (_ & ->)%new_slot_inv). done.
Qed.

Lemma new_spec c :
  0 <= c < 2 ^ 32 ->
  exists s, @new V c = Ret s /\ wf s /\ len s = 0 /\ capacity s = c /\ forall i, view s i = None.
Proof.
  intros Hc. rewrite new_eq by lia. eexists. split; [done|]. split_and!; [by eexists; apply slab_new_wf|done| |].
  - unfold capacity. cbn. rewrite length_fmap, length_seqZ. lia.
  - intros i. unfold view. cbn. destruct (_ !! i) eqn:E; [|done]. apply new_slot_inv in E as (_ & ->). done.
Qed.

(** *** Iteration and drop *)

Lemma iter_from_spec (ss : list (slot V)) (k : nat) :
  (forall sl, sl ∈ ss -> occ sl = true -> is_Some (data sl)) ->
  Z.of_nat (k + length ss) < 2 ^ 32 ->
  exists l, iter_from (Z.of_nat k) ss = Ret l /\ drop_slots ss = Ret (snd <$> l) /\
    length l = occupied_count ss /\
    forall key v, (key, v) ∈ l <-> exists i sl, ss !! i = Some sl /\ occ sl = true /\
      data sl = Some v /\ key = SlabKey.new (Z.of_nat (k + i)) (generation sl).
Proof.
  revert k. induction ss as [|sl ss IH]; intros k Hd Hk.
  - exists []. split_and!; try done. intros. split; [set_solver|]. intros (i & ? & ? & _). done.
  - cbn [length] in Hk. destruct (IH (S k)) as (l & Hl & Hdr & Hlen & Hin); [set_solver|lia|].
    cbn [iter_from drop_slots]. replace (Z.of_nat k + 1) with (Z.of_nat (S k)) by lia.
    fold (occ sl). unfold occupied_count. rewrite filter_cons, Hl, Hdr.
    assert (forall i, (k + S i = S k + i)%nat) as Hadd by lia.
    destruct (occ sl) eqn:Ho; cbn [decide].
    + destruct (Hd sl) as [v Hv]; [set_solver|done|]. unfold data_ref. rewrite Hv. cbn.
      eexists. split_and!; [done|done| |].
      * case_decide; [|congruence]. cbn. by rewrite Hlen.
      * assert (wrap 32 (Z.of_nat k) = Z.of_nat k) as -> by (apply Z.mod_small; lia).
        intros key w. rewrite elem_of_cons, Hin. split.
        -- intros [[= -> ->]|(i & sl' & ? & ? & ? & ->)].
           ++ exists 0%nat, sl. rewrite Nat.add_0_r. done.
           ++ exists (S i), sl'. by rewrite Hadd.
        -- intros ([|i] & sl' & Hi & Ho' & Hw & ->); cbn in Hi; simplify_eq.
           ++ left. by rewrite Nat.add_0_r.
           ++ right. exists i, sl'. by rewrite Hadd.
    + exists l. split_and!; [done|done| |].
      * case_decide; [congruence|]. by rewrite Hlen.
      * intros key w. rewrite Hin. split.
        -- intros (i & sl' & ? & ? & ? & ->). exists (S i), sl'. by rewrite Hadd.
        -- intros ([|i] & sl' & Hi & Ho' & Hw & ->); cbn in Hi; [congruence|].
           exists i, sl'. by rewrite Hadd.
Qed.

Lemma iter_spec s :
  wf s ->
  exists l, iter s = Ret l /\ Slab.drop s = Ret (snd <$> l) /\ Z.of_nat (length l) = len s /\
    forall key v, (key, v) ∈ l <->
      exists i g, view s i = Some (g, v) /\ key = SlabKey.new (Z.of_nat i) g.
Proof.
  intros [fl W]. destruct (iter_from_spec (slots s) 0) as (l & Hl & Hdr & Hlen & Hin).
  - intros sl [i Hi]%list_elem_of_lookup Ho.
    destruct (occ_data _ _ _ _ W Hi Ho) as [v Hv]. by eauto.
  - apply W.
  - exists l. split_and!; try done.
    + rewrite Hlen. symmetry. apply W.
    + intros key v. rewrite Hin. split.
      * intros (i & sl & Hi & Ho & Hv & ->). exists i, (generation sl). split; [|done].
        apply view_Some. eauto.
      * intros (i & g & (sl & Hi & Ho & <- & Hv)%view_Some & ->). eauto 8.
Qed.

End specs.
End SlabOps.

Module SlabTrace.
Import Slab SlabSpec SlabOps.

(** ** Sequences of operations *)

Section trace.
Context {V : Type}.
Implicit Types (s : slab V) (key : Z) (v : V).

(** A client's calls.  [OWrite] and [OWriteIdx] are a [get_mut] whose
    reference is then assigned. *)
Inductive op : Type :=
| OInsert (v : V)
| OGet (key : Z)
| OWrite (key : Z) (v : V)
| ORemove (key : Z)
| ORetire (key : Z)
| OReserve
| OInstall (key : Z) (v : V)
| OUnreserve (key : Z)
| OGetIdx (i : nat)
| OWriteIdx (i : nat) (v : V)
| ORemoveIdx (i : nat).

Inductive reply : Type :=
| RKey (r : result SlabError Z)
| RVal (o : option V)
| RBool (b : bool)
| RInstall (r : result V unit).

Definition store_through s (r : option (V * (V -> slab V))) v : reply * slab V :=
  match r with
  | None => (RBool false, s)
  | Some (_, st) => (RBool true, st v)
  end.

Definition step s (o : op) : outcome (reply * slab V) :=
  match o with
  | OInsert v => '(r, s') ← insert s v; Ret (RKey r, s')
  | OGet key => r ← get s key; Ret (RVal r, s)
  | OWrite key v => r ← get_mut s key; Ret (store_through s r v)
  | ORemove key => '(r, s') ← remove s key; Ret (RVal r, s')
  | ORetire key => '(b, s') ← retire_slot s key; Ret (RBool b, s')
  | OReserve => '(r, s') ← reserve s; Ret (RKey r, s')
  | OInstall key v => '(r, s') ← install s key v; Ret (RInstall r, s')
  | OUnreserve key => let '(b, s') := unreserve s key in Ret (RBool b, s')
  | OGetIdx i => r ← get_by_index s (Z.of_nat i); Ret (RVal r, s)
  | OWriteIdx i v => r ← get_mut_by_index s (Z.of_nat i); Ret (store_through s r v)
  | ORemoveIdx i => '(r, s') ← remove_by_index s (Z.of_nat i); Ret (RVal r, s')
  end.

(** The keys a client passes were issued by the slab. *)
Definition op_ok (o : op) : Prop :=
  match o with
  | OGet key | OWrite key _ | ORemove key | ORetire key => live_key key
  | _ => True
  end.

(** The abstract slab: for each slot a generation and whether it is vacant,
    promised to the holder of a reservation or holds a value; and the vacant
    slots, in the order they are handed out. *)
Inductive place : Type := Vacant | Promised | Holds (v : V).
Record aslab : Type := mkAbs { places : list (Z * place); pool : list nat }.

Definition fresh (c : Z) : aslab := mkAbs (replicate (Z.to_nat c) (Generation.ZERO, Vacant)) (seq 0 (Z.to_nat c)).

Definition put (i : nat) (p : Z * place) (a : aslab) : aslab := mkAbs (<[i := p]> (places a)) (pool a).

(** What a key resolves to. *)
Definition resolve (a : aslab) key : option V :=
  match places a !! key_index key with
  | Some (g, Holds v) => if g =? SlabKey.generation key then Some v else None
  | _ => None
  end.

(** [key] is the one promised for its slot. *)
Definition owed (a : aslab) key : bool :=
  match places a !! key_index key with
  | Some (g, Promised) => Generation.next g =? SlabKey.generation key
  | _ => false
  end.

(** Slot [i] becomes vacant under its next generation, first in the pool. *)
Definition release (i : nat) (a : aslab) : aslab :=
  match places a !! i with
  | Some (g, _) => mkAbs (<[i := (Generation.next g, Vacant)]> (places a)) (i :: pool a)
  | None => a
  end.

(** The first vacant slot, with the key it will have. *)
Definition grab (a : aslab) : option (nat * Z * Z * list nat) :=
  match pool a with
  | [] => None
  | i :: fl => '(g, _) ← places a !! i; Some (i, g, SlabKey.new (Z.of_nat i) (Generation.next g), fl)
  end.

(** What every operation answers and does. *)
Definition spec (a : aslab) (o : op) : reply * aslab :=
  match o with
  | OInsert v =>
      match grab a with
      | None => (RKey (Err Full), a)
      | Some (i, g, key, fl) => (RKey (Ok key), mkAbs (<[i := (Generation.next g, Holds v)]> (places a)) fl)
      end
  | OReserve =>
      match grab a with
      | None => (RKey (Err Full), a)
      | Some (i, g, key, fl) => (RKey (Ok key), mkAbs (<[i := (g, Promised)]> (places a)) fl)
      end
  | OInstall key v =>
      if owed a key then (RInstall (Ok tt), put (key_index key) (SlabKey.generation key, Holds v) a) else (RInstall (Err v), a)
  | OUnreserve key =>
      match places a !! key_index key with
      | Some (g, _) => if owed a key then (RBool true, mkAbs (<[key_index key := (g, Vacant)]> (places a)) (key_index key :: pool a)) else (RBool false, a)
      | None => (RBool false, a)
      end
  | OGet key => (RVal (resolve a key), a)
  | OWrite key v => if resolve a key is Some _ then (RBool true, put (key_index key) (SlabKey.generation key, Holds v) a) else (RBool false, a)
  | ORemove key => (RVal (resolve a key), if resolve a key is Some _ then release (key_index key) a else a)
  | ORetire key => if resolve a key is Some _ then (RBool true, release (key_index key) a) else (RBool false, a)
  | OGetIdx i => (RVal (match places a !! i with Some (_, Holds v) => Some v | _ => None end), a)
  | OWriteIdx i v => match places a !! i with Some (g, Holds _) => (RBool true, put i (g, Holds v) a) | _ => (RBool false, a) end
  | ORemoveIdx i => match places a !! i with Some (_, Holds v) => (RVal (Some v), release i a) | _ => (RVal None, a) end
  end.

Fixpoint spec_run (a : aslab) (os : list op) : list reply * aslab :=
  match os with
  | [] => ([], a)
  | o :: os => let '(r, a1) := spec a o in let '(rs, a2) := spec_run a1 os in (r :: rs, a2)
  end.

(** *** Representation *)

Definition place_of (i : nat) (sl : slot V) : Z * place :=
  (generation sl,
   if occ sl then match data sl with Some v => Holds v | None => Vacant end
   else if next_free sl =? Z.of_nat i then Promised else Vacant).

Record abs s (a : aslab) : Prop := {
  ab_wf : wf_with s (pool a);
  ab_places : forall i, places a !! i = place_of i <$> slots s !! i;
}.

Lemma abs_wf s a : abs s a -> wf s.
Proof. intros [W _]. by exists (pool a). Qed.

(** The abstract slab of a well-formed slab. *)
Lemma wf_abs s : wf s -> exists a, abs s a.
Proof.
  intros [fl W]. exists (mkAbs (imap place_of (slots s)) fl). split; [done|]. intros i. apply list_lookup_imap.
Qed.

Lemma abs_update s a i sl sl' h n fl : abs s a -> slots s !! i = Some sl -> wf_with (mkSlab (<[i:=sl']> (slots s)) h n) fl ->
  abs (mkSlab (<[i:=sl']> (slots s)) h n) (mkAbs (<[i:=place_of i sl']> (places a)) fl).
Proof.
  intros [W H] Hi W'. split; [done|]. intros j. cbn. pose proof (lookup_lt_Some _ _ _ Hi).
  assert (i < length (places a))%nat. { apply lookup_lt_is_Some. rewrite H, Hi. by eexists. }
  destruct (decide (j = i)) as [->|Hne]; [by rewrite !list_lookup_insert_eq|by rewrite !list_lookup_insert_ne].
Qed.

Lemma abs_place s a i sl : abs s a -> slots s !! i = Some sl -> places a !! i = Some (place_of i sl).
Proof. intros A Hi. by rewrite (ab_places _ _ A), Hi. Qed.

Lemma abs_resolve s a key : abs s a -> resolve a key = lookup s key.
Proof.
  intros A. unfold resolve. rewrite (ab_places _ _ A). unfold lookup, view. destruct (slots s !! key_index key) as [sl|]; [|done].
  cbn. unfold place_of. destruct (occ sl); [destruct (data sl); done|]. by destruct (_ =? _).
Qed.

Lemma abs_value s a i : abs s a -> match places a !! i with Some (g, Holds v) => view s i = Some (g, v) | _ => view s i = None end.
Proof.
  intros A. rewrite (ab_places _ _ A). unfold view. destruct (slots s !! i) as [sl|]; [|done]. cbn. unfold place_of.
  destruct (occ sl); [by destruct (data sl)|by destruct (_ =? _)].
Qed.

Lemma abs_owed s a key : abs s a -> owed a key = true <-> promised s key.
Proof.
  intros A. unfold owed. rewrite (ab_places _ _ A). unfold promised. destruct (slots s !! key_index key) as [sl|]; cbn; [|naive_solver].
  unfold place_of. rewrite <- key_index_Z. destruct (occ sl) eqn:Ho; [destruct (data sl); naive_solver congruence|].
  destruct (Z.eqb_spec (next_free sl) (Z.of_nat (key_index key))); [rewrite Z.eqb_eq|]; naive_solver.
Qed.

Lemma promised_view s key : promised s key -> view s (key_index key) = None.
Proof. intros (sl & Hi & Ho & _). by eapply view_unocc. Qed.

Lemma abs_grab s a : abs s a ->
  match grab a with
  | None => free_head s = FREE_SENTINEL
  | Some (i, g, key, fl) => pool a = i :: fl /\ free_head s = Z.of_nat i /\ exists sl, slots s !! i = Some sl /\ occ sl = false /\ generation sl = g /\
      key = SlabKey.new (Z.of_nat i) (Generation.next g) /\ free_head s <> FREE_SENTINEL
  end.
Proof.
  intros A. pose proof (ab_wf _ _ A) as W. pose proof (wf_chain _ _ W) as Hc. unfold grab. destruct (pool a) as [|i fl]; [done|].
  destruct Hc as (Hh & sl & Hi & Ho & _). rewrite (abs_place _ _ _ _ A Hi). cbn. split_and!; [done..|]. exists sl. split_and!; try done.
  rewrite Hh. pose proof (wf_cap _ _ W). apply lookup_lt_Some in Hi. unfold FREE_SENTINEL. lia.
Qed.

(** Rewriting the value of an occupied slot, and vacating it. *)
Lemma abs_write s a i sl v : abs s a -> slots s !! i = Some sl -> occ sl = true ->
  abs (mkSlab (<[i := mkSlot (generation sl) (next_free sl) (Some v)]> (slots s)) (free_head s) (len s)) (put i (generation sl, Holds v) a).
Proof.
  intros A Hi Ho. pose proof (ab_wf _ _ A) as W.
  replace (generation sl, Holds v) with (place_of i (mkSlot (generation sl) (next_free sl) (Some v))) by (unfold place_of, occ in *; cbn; by rewrite Ho).
  eapply abs_update; [done..|]. eapply wf_in_place; [done..|by eapply occ_not_free| |unfold occ; cbn; lia].
  destruct (wf_slots _ _ W _ _ Hi) as [Hw Hok]. split; [done|]. unfold occ in *. cbn. rewrite Ho in *. destruct Hok. eauto.
Qed.

Lemma abs_release s a i sl d n : abs s a -> slots s !! i = Some sl -> occ sl = true -> n = len s - 1 ->
  abs (mkSlab (<[i := mkSlot (Generation.next (generation sl)) (free_head s) d]> (slots s)) (Z.of_nat i) n) (release i a).
Proof.
  intros A Hi Ho ->. pose proof (ab_wf _ _ A) as W. destruct (wf_slots _ _ W _ _ Hi) as [Hw _].
  assert (Hn : Generation.is_occupied (Generation.next (generation sl)) = false) by by apply next_occ_false.
  unfold release. rewrite (abs_place _ _ _ _ A Hi). cbn [place_of].
  set (sl' := mkSlot _ _ d).
  assert (Hf : i ∉ pool a) by (by eapply occ_not_free).
  assert (W' : wf_with (mkSlab (<[i:=sl']> (slots s)) (Z.of_nat i) (len s - 1)) (i :: pool a)).
  { eapply wf_put; try done; [apply Generation.next_wf|]. unfold occ at 2. cbn. rewrite Ho, Hn. cbn [Z.b2z]. lia. }
  replace (Generation.next (generation sl), Vacant) with (place_of i sl'); [by eapply abs_update|].
  unfold place_of, occ. cbn. rewrite Hn. destruct (Z.eqb_spec (free_head s) (Z.of_nat i)) as [E|]; [|done]. exfalso.
  pose proof (wf_chain _ _ W) as Hc. destruct (pool a) as [|j fl]; cbn in Hc.
  - pose proof (wf_cap _ _ W). apply lookup_lt_Some in Hi. rewrite Hc in E. unfold FREE_SENTINEL in E. lia.
  - destruct Hc as [Hc _]. apply Hf. rewrite Hc in E. apply Nat2Z.inj in E as ->. set_solver.
Qed.

(** What [remove], [retire_slot] and [get_mut] find. *)
Lemma abs_live s a key : abs s a -> live_key key ->
  (exists sl v, slots s !! key_index key = Some sl /\ occ sl = true /\ generation sl = SlabKey.generation key /\ data sl = Some v /\ resolve a key = Some v) \/
  (resolve a key = None /\ match slots s !! key_index key with Some sl => generation sl <> SlabKey.generation key | None => True end).
Proof.
  intros A Hk. pose proof (ab_wf _ _ A) as W. rewrite (abs_resolve _ _ _ A). destruct (slots s !! key_index key) as [sl|] eqn:Hi; [|right; by rewrite lookup_None_range].
  destruct (decide (generation sl = SlabKey.generation key)) as [Hg|Hg]; [|right; by erewrite lookup_None_mismatch].
  destruct (match_occupied _ _ _ _ W Hk Hi Hg) as (Ho & v & Hv). left. exists sl, v. split_and!; try done. apply lookup_Some. eauto 6.
Qed.

Lemma sub_len s a i sl : abs s a -> slots s !! i = Some sl -> occ sl = true -> sub_or_panic (len s) 1 = Ret (len s - 1).
Proof.
  intros A Hi Ho. unfold sub_or_panic. pose proof (wf_len_pos _ _ _ _ (ab_wf _ _ A) Hi Ho). by destruct (Z.leb_spec 1 (len s)); [|lia].
Qed.

Lemma add_len s a : abs s a -> add_or_panic USIZE (len s) 1 = Ret (len s + 1).
Proof. intros A. unfold add_or_panic. pose proof (wf_len_bound _ _ (ab_wf _ _ A)). by destruct (Z.ltb_spec (len s + 1) (2 ^ 64)); [|lia]. Qed.

(** One lemma per kind of operation. *)
Lemma insert_exact s a v : abs s a -> exists s', step s (OInsert v) = Ret ((spec a (OInsert v)).1, s') /\ abs s' (spec a (OInsert v)).2.
Proof.
  intros A. pose proof (abs_grab s a A) as Hg. cbn [step spec]. unfold insert. destruct (grab a) as [[[[i g] key] fl]|]; [|rewrite Hg; by exists s].
  destruct Hg as (Hp & Hh & sl & Hi & Ho & <- & -> & Hne). pose proof (ab_wf _ _ A) as W. rewrite Hp in W. destruct (wf_slots _ _ W _ _ Hi) as [Hw _].
  rewrite (proj2 (Z.eqb_neq _ _) Hne), (slot_at_nat _ _ i Hh), Hi. fold (occ sl). rewrite Ho, (add_len _ _ A). cbn [mbind outcome_bind].
  rewrite (set_slot_nat _ _ i _ Hh), Hh. eexists. split; [done|]. cbn [snd].
  pose proof (next_occ_true _ Hw Ho) as Hgo. set (sl' := mkSlot _ _ _).
  replace (Generation.next (generation sl), Holds v) with (place_of i sl') by (unfold place_of, occ; cbn; by rewrite Hgo).
  eapply abs_update; [done..|]. eapply wf_take; [done..| |].
  - split; [apply Generation.next_wf|]. unfold occ. cbn. rewrite Hgo. eauto.
  - unfold occ at 2. cbn. rewrite Ho, Hgo. cbn [Z.b2z]. lia.
Qed.

Lemma reserve_exact s a : abs s a -> exists s', step s OReserve = Ret ((spec a OReserve).1, s') /\ abs s' (spec a OReserve).2.
Proof.
  intros A. pose proof (abs_grab s a A) as Hg. cbn [step spec]. unfold reserve. destruct (grab a) as [[[[i g] key] fl]|]; [|rewrite Hg; by exists s].
  destruct Hg as (Hp & Hh & sl & Hi & Ho & <- & -> & Hne). pose proof (ab_wf _ _ A) as W. rewrite Hp in W. destruct (wf_slots _ _ W _ _ Hi) as [Hw _].
  rewrite (proj2 (Z.eqb_neq _ _) Hne), (slot_at_nat _ _ i Hh), Hi. fold (occ sl). rewrite Ho. cbn [mbind outcome_bind].
  rewrite (set_slot_nat _ _ i _ Hh), Hh. eexists. split; [done|]. cbn [snd]. set (sl' := mkSlot _ _ _).
  replace (generation sl, Promised) with (place_of i sl') by (unfold place_of, occ in *; cbn; by rewrite Ho, Z.eqb_refl).
  eapply abs_update; [done..|]. eapply wf_take; [done..| |].
  - split; [done|]. unfold occ in *. cbn. rewrite Ho. by right.
  - unfold occ. cbn. lia.
Qed.

Lemma install_exact s a key v : abs s a -> exists s', step s (OInstall key v) = Ret ((spec a (OInstall key v)).1, s') /\ abs s' (spec a (OInstall key v)).2.
Proof.
  intros A. pose proof (ab_wf _ _ A) as W. cbn [step spec]. destruct (owed a key) eqn:E.
  - apply (abs_owed _ _ _ A) in E as Hp. pose proof Hp as (sl & Hi & Ho & Hn & Hg). pose proof (proj2 (promised_guard _ _ _ _ W Hi) Hp) as Eg.
    unfold install. rewrite slot_at_key, Hi, Eg, (add_len _ _ A). cbn [mbind outcome_bind]. rewrite set_slot_key, Hg. eexists. split; [done|]. cbn [snd].
    destruct (wf_slots _ _ W _ _ Hi) as [Hw _]. assert (Hgo : Generation.is_occupied (SlabKey.generation key) = true) by (rewrite <- Hg; by apply next_occ_true).
    set (sl' := mkSlot _ _ _). replace (SlabKey.generation key, Holds v) with (place_of (key_index key) sl') by (unfold place_of, occ; cbn; by rewrite Hgo).
    eapply abs_update; [done..|]. eapply wf_in_place; [done..|by eapply promised_not_free| |].
    + split; [apply SlabKey.generation_wf|]. unfold occ. cbn. rewrite Hgo. eauto.
    + unfold occ at 2. cbn. rewrite Ho, Hgo. cbn [Z.b2z]. lia.
  - rewrite install_reject; [by exists s|by eapply abs_wf|]. intros Hp%(abs_owed _ _ _ A). congruence.
Qed.

Lemma unreserve_exact s a key : abs s a -> exists s', step s (OUnreserve key) = Ret ((spec a (OUnreserve key)).1, s') /\ abs s' (spec a (OUnreserve key)).2.
Proof.
  intros A. pose proof (ab_wf _ _ A) as W. cbn [step spec]. destruct (owed a key) eqn:E.
  - apply (abs_owed _ _ _ A) in E as Hp. pose proof Hp as (sl & Hi & Ho & Hn & Hg). pose proof (proj2 (promised_guard _ _ _ _ W Hi) Hp) as Eg.
    unfold unreserve. rewrite slot_at_key, Hi, Eg, (abs_place _ _ _ _ A Hi). rewrite set_slot_key, <- key_index_Z. cbn [place_of]. eexists. split; [done|]. cbn [snd].
    pose proof (promised_not_free _ _ _ W Hp) as Hf. destruct (wf_slots _ _ W _ _ Hi) as [Hw _]. set (sl' := mkSlot _ _ _).
    assert (W' : wf_with (mkSlab (<[key_index key:=sl']> (slots s)) (Z.of_nat (key_index key)) (len s)) (key_index key :: pool a)).
    { eapply wf_put; try done. unfold occ at 2. cbn. fold (occ sl). lia. }
    replace (generation sl, Vacant) with (place_of (key_index key) sl'); [by eapply abs_update|].
    unfold place_of, occ in *. cbn. rewrite Ho. destruct (Z.eqb_spec (free_head s) (Z.of_nat (key_index key))) as [Ef|]; [|done]. exfalso.
    eapply (chain_not_self _ _ _ (key_index key) sl'); [apply W'|apply W'|apply W'|set_solver| |done]. cbn. apply list_lookup_insert_eq. by eapply lookup_lt_Some.
  - rewrite unreserve_reject; [|by eapply abs_wf|intros Hp%(abs_owed _ _ _ A); congruence]. destruct (places a !! key_index key) as [[]|]; by exists s.
Qed.

(** The operations on a resolving key or index. *)
Lemma access_exact s a o : abs s a -> op_ok o ->
  match o with OGet _ | OWrite _ _ | ORemove _ | ORetire _ | OGetIdx _ | OWriteIdx _ _ | ORemoveIdx _ => True | _ => False end ->
  exists s', step s o = Ret ((spec a o).1, s') /\ abs s' (spec a o).2.
Proof.
  intros A Hok Ho. pose proof (ab_wf _ _ A) as W. destruct o as [|key|key v|key|key| | | |i|i v|i]; try done; cbn [step spec op_ok] in *; clear Ho.
  1-4: unfold get, get_mut, remove, retire_slot; rewrite slot_at_key;
    destruct (abs_live s a key A Hok) as [(sl & w & Hi & Ho & Hg & Hd & ->)|[-> Hn]];
    [rewrite Hi, (proj2 (Z.eqb_eq _ _) Hg); unfold data_ref; rewrite ?Hd; cbn [mbind outcome_bind]; rewrite ?(sub_len _ _ _ _ A Hi Ho); cbn [mbind outcome_bind store_through]; rewrite ?set_slot_key
    |destruct (slots s !! key_index key) as [sl|]; [rewrite (proj2 (Z.eqb_neq _ _) Hn)|]; by exists s].
  - by exists s.
  - eexists. split; [done|]. rewrite <- Hg. by apply abs_write.
  - eexists. split; [done|]. rewrite <- key_index_Z. by eapply abs_release.
  - eexists. split; [done|]. rewrite <- key_index_Z. by eapply abs_release.
  - rewrite get_by_index_spec by (by eapply abs_wf). cbn. exists s. split; [|done]. pose proof (abs_value s a i A) as Hv. unfold view_value.
    destruct (places a !! i) as [[g []]|]; by rewrite Hv.
  - unfold get_mut_by_index. rewrite (slot_at_nat _ _ i) by done. rewrite (ab_places _ _ A). destruct (slots s !! i) as [sl|] eqn:Hi; cbn; [|by exists s].
    fold (occ sl). unfold place_of. destruct (occ sl) eqn:Ho; [|destruct (_ =? _); by exists s].
    destruct (occ_data _ _ _ _ W Hi Ho) as [w Hw]. unfold data_ref. rewrite Hw. cbn. rewrite (set_slot_nat _ _ i) by done. eexists. split; [done|]. by apply abs_write.
  - unfold remove_by_index. rewrite (slot_at_nat _ _ i) by done. rewrite (ab_places _ _ A). destruct (slots s !! i) as [sl|] eqn:Hi; cbn; [|by exists s].
    fold (occ sl). unfold place_of. destruct (occ sl) eqn:Ho; [|destruct (_ =? _); by exists s].
    destruct (occ_data _ _ _ _ W Hi Ho) as [w Hw]. unfold data_ref. rewrite Hw. cbn [mbind outcome_bind]. rewrite (sub_len _ _ _ _ A Hi Ho). cbn.
    rewrite (set_slot_nat _ _ i) by done. eexists. split; [done|]. by eapply abs_release.
Qed.

Lemma step_exact s a o : abs s a -> op_ok o -> exists s', step s o = Ret ((spec a o).1, s') /\ abs s' (spec a o).2.
Proof.
  intros A Hok. destruct o; first [by apply insert_exact|by apply reserve_exact|by apply install_exact|by apply unreserve_exact|by apply access_exact].
Qed.

Lemma step_returns s o : wf s -> op_ok o -> exists r s', step s o = Ret (r, s') /\ wf s'.
Proof. intros [a A]%wf_abs Hok. destruct (step_exact s a o A Hok) as (s' & E & A'). eexists _, s'. split; [done|by eapply abs_wf]. Qed.

Fixpoint run s (os : list op) : outcome (list reply * slab V) :=
  match os with
  | [] => Ret ([], s)
  | o :: os => '(r, s') ← step s o; '(rs, s'') ← run s' os; Ret (r :: rs, s'')
  end.

Lemma run_exact s a os : abs s a -> Forall op_ok os -> exists s', run s os = Ret ((spec_run a os).1, s') /\ abs s' (spec_run a os).2.
Proof.
  revert s a. induction os as [|o os IH]; intros s a A Hok; [by exists s|]. apply Forall_cons in Hok as [Ho Hos]. cbn.
  destruct (step_exact s a o A Ho) as (s1 & -> & A1). destruct (spec a o) as [r a1]. cbn in *.
  destruct (IH s1 a1 A1 Hos) as (s2 & -> & A2). destruct (spec_run a1 os) as [rs a2]. by exists s2.
Qed.

Lemma run_returns s os : wf s -> Forall op_ok os -> exists rs s', run s os = Ret (rs, s') /\ wf s'.
Proof. intros [a A]%wf_abs Hok. destruct (run_exact s a os A Hok) as (s' & E & A'). eexists _, s'. split; [done|by eapply abs_wf]. Qed.

Lemma new_abs c : 0 <= c < 2 ^ 32 -> exists s, @new V c = Ret s /\ abs s (fresh c).
Proof.
  intros Hc. destruct (new_spec (V := V) c Hc) as (s & E & _). exists s. split; [done|]. rewrite new_eq in E by lia. injection E as <-.
  pose proof (slab_new_wf (V := V) c Hc) as W. split; [done|]. intros i. cbn [fresh places slots]. rewrite new_slot_lookup.
  destruct (Z.ltb_spec (Z.of_nat i) c).
  - rewrite lookup_replicate_2 by lia. cbn. unfold place_of, occ. cbn. do 2 f_equal.
    destruct (Z.ltb_spec (Z.of_nat i + 1) c); [destruct (Z.eqb_spec (Z.of_nat i + 1) (Z.of_nat i)); [lia|done]|].
    destruct (Z.eqb_spec FREE_SENTINEL (Z.of_nat i)) as [Es|]; [unfold FREE_SENTINEL in Es; lia|done].
  - by rewrite (proj1 (lookup_replicate_None _ _ _)) by lia.
Qed.

(** *** How one operation may change one slot *)

(** Case analysis on an operation that returned. *)
Ltac invert_step :=
  repeat match goal with
  | H : Ret _ = Ret _ |- _ => injection H as H; try subst
  | H : Panic = Ret _ |- _ => discriminate H
  | H : Undefined = Ret _ |- _ => discriminate H
  | H : OutOfFuel = Ret _ |- _ => discriminate H
  | H : (_, _) = (_, _) |- _ => injection H as H; try subst
  | H : mbind _ _ = Ret _ |- _ => apply outcome_bind_Ret in H as (? & ? & H)
  | H : context [match ?x with _ => _ end] |- _ => destruct x eqn:?
  end; simplify_eq/=.

Lemma gen_at_set s h n idx sl sl' i :
  slot_at s idx = Some sl ->
  gen_at (mkSlab (set_slot s idx sl') h n) i
  = if decide (i = Z.to_nat idx) then Some (generation sl') else gen_at s i.
Proof.
  unfold slot_at, set_slot, gen_at. cbn. intros Hi. case_decide; subst.
  - by rewrite list_lookup_insert_eq by (by eapply lookup_lt_Some).
  - by rewrite list_lookup_insert_ne.
Qed.

Lemma step_gen s o r s' i :
  step s o = Ret (r, s') ->
  gen_at s' i = gen_at s i \/ gen_at s' i = Generation.next <$> gen_at s i.
Proof.
  intros H. destruct o; cbn [step] in H;
    unfold insert, get, get_mut, remove, retire_slot, reserve, install, unreserve,
      get_by_index, get_mut_by_index, remove_by_index, data_ref, store_through in H;
    invert_step; auto;
    match goal with
    | Hs : slot_at s ?idx = Some ?sl |- _ =>
        rewrite ?(gen_at_set _ _ _ _ _ _ _ Hs); case_decide; subst; auto;
        unfold gen_at; unfold slot_at in Hs; rewrite Hs; auto
    end.
Qed.

Lemma run_gen s os rs s' i :
  run s os = Ret (rs, s') ->
  exists n, (n <= length os)%nat /\ gen_at s' i = Generation.bump n <$> gen_at s i.
Proof.
  revert s rs. induction os as [|o os IH]; intros s rs H; cbn [run] in H.
  - simplify_eq. exists 0%nat. split; [done|]. by destruct (gen_at s' i).
  - apply outcome_bind_Ret in H as ([r s1] & H1 & H).
    apply outcome_bind_Ret in H as ([rs' s2] & H2 & H). simplify_eq.
    destruct (IH _ _ H2) as (n & Hn & ->). cbn [length].
    destruct (step_gen _ _ _ _ i H1) as [->| ->].
    + exists n. split; [lia|done].
    + exists (S n). split; [lia|]. destruct (gen_at s i) as [g|]; [|done]. cbn. f_equal.
      symmetry. apply (Nat.iter_succ_r n Generation.next g).
Qed.

(** A promise is only consumed by [install] or [unreserve] on its slot. *)
Definition touches (o : op) (i : nat) : Prop :=
  match o with
  | OInstall key _ | OUnreserve key => key_index key = i
  | _ => False
  end.

Lemma promised_set_ne s h n idx sl key :
  key_index key <> Z.to_nat idx -> promised s key -> promised (mkSlab (set_slot s idx sl) h n) key.
Proof.
  intros Hne (sl0 & Hi & H). exists sl0. unfold set_slot. cbn. by rewrite list_lookup_insert_ne.
Qed.

Lemma head_not_promised s fl key :
  wf_with s fl -> promised s key -> free_head s <> FREE_SENTINEL ->
  key_index key <> Z.to_nat (free_head s).
Proof.
  intros W Hp Hne E. destruct (head_slot _ _ W Hne) as (i & fl' & sl & -> & Hhd & _).
  apply (promised_not_free _ _ _ W Hp). rewrite E, Hhd, Nat2Z.id. set_solver.
Qed.

Lemma promised_step s o r s' key :
  wf s -> op_ok o -> step s o = Ret (r, s') -> ~ touches o (key_index key) ->
  promised s key -> promised s' key.
Proof.
  intros [fl W] Hok H Ht Hp. pose proof Hp as (sl & Hi & Ho & _).
  assert (forall k sl0, live_key k -> slot_at s (SlabKey.index k) = Some sl0 ->
    generation sl0 = SlabKey.generation k -> key_index key <> key_index k) as Hlive.
  { intros k sl0 Hk Hs Hg E. unfold slot_at in Hs. fold (key_index k) in Hs. rewrite <- E, Hi in Hs.
    simplify_eq. unfold occ in Ho. rewrite Hg, Hk in Ho. done. }
  assert (forall idx sl0, slot_at s (Z.of_nat idx) = Some sl0 ->
    Generation.is_occupied (generation sl0) = true -> key_index key <> idx) as Hidx.
  { intros idx sl0 Hs Ho' E. unfold slot_at in Hs. rewrite Nat2Z.id, <- E, Hi in Hs.
    simplify_eq. unfold occ in Ho. congruence. }
  destruct o; cbn [step op_ok touches] in *;
    unfold insert, get, get_mut, remove, retire_slot, reserve, install, unreserve,
      get_by_index, get_mut_by_index, remove_by_index, data_ref, store_through in H;
    invert_step; try done; (apply promised_set_ne; [|done]);
    rewrite ?Nat2Z.id; try (by eapply Hidx); try (eapply Hlive; [done..|by apply Z.eqb_eq]);
    try (eapply head_not_promised; [done..|by apply Z.eqb_neq]); intros E; by apply Ht.
Qed.

Lemma promised_run s os rs s' key :
  wf s -> Forall op_ok os -> run s os = Ret (rs, s') ->
  Forall (fun o => ~ touches o (key_index key)) os -> promised s key -> promised s' key.
Proof.
  revert s rs. induction os as [|o os IH]; intros s rs W Hok H Ht Hp; cbn [run] in H.
  - by simplify_eq.
  - apply Forall_cons in Hok as [Ho Hos]. apply Forall_cons in Ht as [Ht Hts].
    apply outcome_bind_Ret in H as ([r s1] & H1 & H).
    apply outcome_bind_Ret in H as ([rs' s2] & H2 & H). simplify_eq.
    destruct (step_returns s o W Ho) as (r' & s1' & E & W1). rewrite E in H1. simplify_eq.
    eapply IH; [exact W1|done|exact H2|done|]. eapply promised_step; [exact W|exact Ho|exact E|done|done].
Qed.

(** *** Reachable slabs *)

Inductive reachable : slab V -> Prop :=
| reach_new c s : 0 <= c -> new c = Ret s -> reachable s
| reach_step s o r s' : reachable s -> op_ok o -> step s o = Ret (r, s') -> reachable s'.

Lemma reachable_wf s : reachable s -> wf s.
Proof.
  induction 1 as [c s Hc E|s o r s' _ W Hok E].
  - destruct (Z.lt_ge_cases c (2 ^ 32)).
    + destruct (new_spec (V := V) c) as (s' & E' & W & _); [lia|]. rewrite E in E'. by simplify_eq.
    + unfold new, try_from in E. destruct (Z.ltb_spec c (2 ^ 32)); [lia|done].
  - destruct (step_returns s o W Hok) as (r' & s1 & E' & W1). rewrite E in E'. by simplify_eq.
Qed.

Lemma reachable_run s os rs s' :
  reachable s -> Forall op_ok os -> run s os = Ret (rs, s') -> reachable s'.
Proof.
  revert s rs. induction os as [|o os IH]; intros s rs R Hok H; cbn [run] in H.
  - by simplify_eq.
  - apply Forall_cons in Hok as [Ho Hos].
    apply outcome_bind_Ret in H as ([r s1] & H1 & H).
    apply outcome_bind_Ret in H as ([rs' s2] & H2 & H). simplify_eq.
    eapply IH; [|done|exact H2]. by eapply reach_step.
Qed.

Lemma remove_gen s key v s' :
  remove s key = Ret (Some v, s') ->
  gen_at s' (key_index key) = Some (Generation.next (SlabKey.generation key)).
Proof.
  unfold remove. intros H. invert_step. rewrite (gen_at_set _ _ _ _ _ _ _ Heqo).
  unfold key_index. case_decide; [|done]. cbn. do 2 f_equal. by apply Z.eqb_eq.
Qed.

Lemma lookup_gen s key v :
  lookup s key = Some v -> gen_at s (key_index key) = Some (SlabKey.generation key).
Proof. intros (sl & Hi & _ & Hg & _)%lookup_Some. unfold gen_at. rewrite Hi. cbn. by rewrite Hg. Qed.

End trace.

(** ** Claims *)

Section claims.
Context {V : Type}.
Implicit Types (s : slab V) (v : V).

(** C28: every finite sequence of calls on a fresh slab of any legal capacity,
    with keys that carry an occupied generation, returns normally (no panic,
    no read of uninitialised memory), and each reply, the value or the refusal,
    is the one the abstract slab gives: a list of slots, each vacant, promised
    or holding a value under its generation, and the stack of vacant slots.
    In particular the slab is full exactly when no slot is vacant, a promised
    slot is handed out to nobody else, exactly its key installs, and what is
    released or unreserved is available again. *)
Theorem slab_run_refines (c : Z) (os : list (op (V := V))) :
  0 <= c < 2 ^ 32 -> Forall op_ok os ->
  exists s0 s, new c = Ret s0 /\ abs s0 (fresh c) /\
    run s0 os = Ret ((spec_run (fresh c) os).1, s) /\ abs s (spec_run (fresh c) os).2.
Proof.
  intros Hc Hos. destruct (new_abs (V := V) c Hc) as (s0 & E0 & A0).
  destruct (run_exact s0 (fresh c) os A0 Hos) as (s & E & A). by exists s0, s.
Qed.

(** a key whose value was removed stays dead: after any further sequence
    of fewer than 2^24 - 1 operations on the slab (including reuse of the same
    slot) it resolves to nothing. *)
Theorem slab_stale_key s1 s2 s3 key v os rs :
  reachable s1 -> live_key key -> remove s1 key = Ret (Some v, s2) ->
  Forall op_ok os -> Z.of_nat (length os) < 2 ^ 24 - 1 -> run s2 os = Ret (rs, s3) ->
  get s3 key = Ret None.
Proof.
  intros R Hk Hr Hos Hlen Hrun.
  assert (reachable s2) as R2.
  { apply (reach_step s1 (ORemove key) (RVal (Some v))); [done..|]. cbn. by rewrite Hr. }
  assert (wf s3) as W3 by (eapply reachable_wf, reachable_run; [exact R2|done..]).
  rewrite get_spec by done. f_equal. destruct (lookup s3 key) as [w|] eqn:E; [|done]. exfalso.
  apply lookup_gen in E. apply remove_gen in Hr.
  destruct (run_gen _ _ _ _ (key_index key) Hrun) as (n & Hn & Hg).
  rewrite E, Hr in Hg. cbn in Hg. simplify_eq.
  apply (Generation.bump_fresh (S n) (SlabKey.generation key)); [apply SlabKey.generation_wf|lia|lia|].
  rewrite Hg at 2. apply (Nat.iter_succ_r n Generation.next).
Qed.

(** a reservation holds until it is consumed: whatever other operations
    run in between, the promised key resolves to nothing, and installing a
    value under it then succeeds and makes the key resolve to that value. *)
Theorem slab_reserve_install s s1 s2 key v os rs :
  reachable s -> reserve s = Ret (Ok key, s1) ->
  Forall op_ok os -> Forall (fun o => ~ touches o (key_index key)) os ->
  run s1 os = Ret (rs, s2) ->
  get s2 key = Ret None /\
  exists s3, install s2 key v = Ret (Ok tt, s3) /\ get s3 key = Ret (Some v).
Proof.
  intros R Hr Hos Ht Hrun. pose proof (reserve_spec s (reachable_wf _ R)) as H. rewrite Hr in H.
  destruct H as (W1 & Hk & Hp & _).
  assert (promised s2 key) as Hp2 by (by eapply promised_run).
  destruct (run_returns s1 os W1 Hos) as (? & ? & E & W2). rewrite Hrun in E. simplify_eq.
  split.
  - rewrite get_spec by done. f_equal. unfold lookup. by rewrite promised_view.
  - destruct (install_spec _ key v W2 Hp2) as (s3 & Hi & W3 & _ & Hl & _). exists s3.
    split; [done|]. rewrite get_spec by done. by rewrite Hl.
Qed.

(** [insert] reports [Full] exactly when every slot is occupied or
    reserved; otherwise it takes a slot that held nothing. *)
Theorem slab_insert_full s v :
  reachable s ->
  ((exists s', insert s v = Ret (Err Full, s')) <->
   forall i, (i < length (slots s))%nat -> (exists c, view s i = Some c) \/ reserved s i).
Proof.
  intros R. pose proof (insert_spec s v (reachable_wf _ R)) as H.
  destruct (insert s v) as [[[key|[]] s']| | |]; try done.
  - destruct H as (_ & _ & Hn & Hr & Hv & Hl). split; [by intros [? ?]|]. intros Hall. exfalso.
    destruct (Hall (key_index key)) as [[c Hc]|Hc]; [|congruence|done].
    specialize (Hv (key_index key)). unfold upd in Hv. rewrite decide_True in Hv by done.
    apply view_Some in Hv as (sl & Hi & _). rewrite <- Hl. by eapply lookup_lt_Some.
  - destruct H as [-> H]. split; eauto.
Qed.

(** iteration yields every live entry under its current key, once each
    ([len] of them), and dropping the slab drops exactly those values. *)
Theorem slab_iter_drop s :
  reachable s ->
  exists l, iter s = Ret l /\ Slab.drop s = Ret (snd <$> l) /\ Z.of_nat (length l) = len s /\
    forall key v, (key, v) ∈ l <->
      exists i g, view s i = Some (g, v) /\ key = SlabKey.new (Z.of_nat i) g.
Proof. intros R. apply iter_spec, reachable_wf, R. Qed.

(** the public constructors also build keys with an even generation; on a
    fresh slab such a key matches the empty slot 0, so [get] and [remove] read
    uninitialised memory and [retire_slot] underflows the length. *)
Theorem slab_forged_key c :
  0 < c < 2 ^ 32 ->
  exists s, @new V c = Ret s /\
    let key := SlabKey.new 0 Generation.ZERO in
    get s key = Undefined /\ remove s key = Undefined /\ retire_slot s key = Panic.
Proof.
  intros Hc. rewrite new_eq by lia. eexists. split; [done|]. cbv zeta.
  assert (slot_at (mkSlab (new_slot c <$> seqZ 0 c) (if c =? 0 then FREE_SENTINEL else 0) 0)
            (SlabKey.index (SlabKey.new 0 Generation.ZERO)) = Some (new_slot (V := V) c 0)) as E.
  { unfold slot_at. cbn [slots]. rewrite new_slot_lookup.
    change (Z.to_nat _) with 0%nat. destruct (Z.ltb_spec (Z.of_nat 0) c); [done|lia]. }
  unfold get, remove, retire_slot. by rewrite E.
Qed.

End claims.

(** ** Witnesses *)

(** A two-slot slab: empty, then holding 7 in slot 0. *)
Definition demo0 : slab Z := mkSlab [mkSlot 0 1 None; mkSlot 0 FREE_SENTINEL None] 0 0.
Definition demo1 : slab Z :=
  mkSlab [mkSlot 1 FREE_SENTINEL (Some 7); mkSlot 0 FREE_SENTINEL None] 1 1.
Definition demo_key : Z := SlabKey.new 0 1.

Lemma demo0_reachable : reachable demo0.
Proof. apply (reach_new 2); [lia|reflexivity]. Defined.

Lemma demo1_reachable : reachable demo1.
Proof.
  apply (reach_step demo0 (OInsert 7) (RKey (Ok demo_key))); [apply demo0_reachable|done|reflexivity].
Defined.

Lemma slab_run_refines_witness :
  exists s0 s, new 2 = Ret s0 /\
    run s0 [OInsert 7; OReserve; OInsert 9; OInstall (SlabKey.new 1 1) 8; OInstall (SlabKey.new 1 1) 8; ORemove demo_key; OReserve; OUnreserve (SlabKey.new 0 3); OInsert 5]
    = Ret ([RKey (Ok demo_key); RKey (Ok (SlabKey.new 1 1)); RKey (Err Full); RInstall (Ok tt); RInstall (Err 8); RVal (Some 7);
            RKey (Ok (SlabKey.new 0 3)); RBool true; RKey (Ok (SlabKey.new 0 3))], s).
Proof.
  destruct (slab_run_refines 2 [OInsert 7; OReserve; OInsert 9; OInstall (SlabKey.new 1 1) 8; OInstall (SlabKey.new 1 1) 8; ORemove demo_key; OReserve; OUnreserve (SlabKey.new 0 3); OInsert 5])
    as (s0 & s & E0 & _ & E & _); [lia|repeat (apply Forall_cons; split; [reflexivity || exact I|]); apply Forall_nil; exact I|].
  exists s0, s. split; [exact E0|exact E].
Defined.

(** Slot 0 is freed and reused for 9; the old key does not see the 9. *)
Definition demo2 : slab Z := mkSlab [mkSlot 2 1 None; mkSlot 0 FREE_SENTINEL None] 0 0.
Definition demo3 : slab Z :=
  mkSlab [mkSlot 3 FREE_SENTINEL (Some 9); mkSlot 0 FREE_SENTINEL None] 1 1.

Lemma slab_stale_key_witness : get demo3 demo_key = Ret None.
Proof.
  apply (slab_stale_key demo1 demo2 demo3 demo_key 7 [OInsert 9] [RKey (Ok (SlabKey.new 0 3))]).
  - apply demo1_reachable.
  - reflexivity.
  - reflexivity.
  - apply Forall_cons. split; [exact I|]. apply Forall_nil. exact I.
  - reflexivity.
  - reflexivity.
Defined.

(** Slot 1 is reserved beside the live slot 0, then 8 is installed. *)
Definition demo4 : slab Z :=
  mkSlab [mkSlot 1 FREE_SENTINEL (Some 7); mkSlot 0 1 None] FREE_SENTINEL 1.
Definition demo5 : slab Z := mkSlab [mkSlot 2 FREE_SENTINEL None; mkSlot 0 1 None] 0 0.

Lemma slab_reserve_install_witness :
  get demo5 (SlabKey.new 1 1) = Ret None /\
  exists s3, install demo5 (SlabKey.new 1 1) 8 = Ret (Ok tt, s3) /\
    get s3 (SlabKey.new 1 1) = Ret (Some 8).
Proof.
  apply (slab_reserve_install demo1 demo4 demo5 (SlabKey.new 1 1) 8 [ORemove demo_key] [RVal (Some 7)]).
  - apply demo1_reachable.
  - reflexivity.
  - apply Forall_cons. split; [reflexivity|]. apply Forall_nil. exact I.
  - apply Forall_cons. split; [intros []|]. apply Forall_nil. exact I.
  - reflexivity.
Defined.

Lemma slab_insert_full_witness :
  (exists s', insert demo1 9 = Ret (Err Full, s')) <->
  forall i, (i < length (slots demo1))%nat -> (exists c, view demo1 i = Some c) \/ reserved demo1 i.
Proof. apply (slab_insert_full demo1 9). apply demo1_reachable. Defined.

Lemma slab_iter_drop_witness :
  exists l, iter demo1 = Ret l /\ Slab.drop demo1 = Ret (snd <$> l) /\
    Z.of_nat (length l) = len demo1 /\
    forall key v, (key, v) ∈ l <->
      exists i g, view demo1 i = Some (g, v) /\ key = SlabKey.new (Z.of_nat i) g.
Proof. apply (slab_iter_drop demo1). apply demo1_reachable. Defined.

Lemma slab_forged_key_witness :
  exists s, @new Z 4 = Ret s /\
    let key := SlabKey.new 0 Generation.ZERO in
    get s key = Undefined /\ remove s key = Undefined /\ retire_slot s key = Panic.
Proof. apply (slab_forged_key 4). lia. Defined.

End SlabTrace.
