(* ===== verification/SlabStore.v ===== *)
(** * The interface a slab offers its clients

    [EntryStore V S] is what the timer wheel and the worker need from the slab
    that holds their entries: the operations of [Module Slab] they call and the
    laws they obey,
    stated on the abstract content [es_view].  Clients are developed against
    this class; [slab_store] discharges it for the slab itself. *)

From S2P Require Import Prelude GenKey SlabAlloc SlabFacts SlabThms.
From stdpp Require Import base tactics list numbers sets.

Local Open Scope Z_scope.

Class EntryStore (V S : Type) := {
  es_new : Z -> outcome S;
  es_insert : S -> V -> outcome (result Slab.SlabError Z * S);
  es_get : S -> Z -> outcome (option V);
  es_get_mut : S -> Z -> outcome (option (V * (V -> S)));
  es_remove : S -> Z -> outcome (option V * S);
  es_retire_slot : S -> Z -> outcome (bool * S);
  es_get_by_index : S -> Z -> outcome (option V);
  es_get_mut_by_index : S -> Z -> outcome (option (V * (V -> S)));
  es_remove_by_index : S -> Z -> outcome (option V * S);

  es_wf : S -> Prop;
  es_view : S -> nat -> option (Z * V);
  es_cap : S -> nat;

  es_view_range s i c : es_wf s -> es_view s i = Some c -> (i < es_cap s)%nat;
  es_view_gen s i g v : es_wf s -> es_view s i = Some (g, v) -> Generation.wf g /\ Generation.is_occupied g = true;
  es_cap_bound s : es_wf s -> Z.of_nat (es_cap s) < 2 ^ 32;

  es_new_spec c : 0 <= c < 2 ^ 32 ->
    exists s, es_new c = Ret s /\ es_wf s /\ es_cap s = Z.to_nat c /\ forall i, es_view s i = None;

  es_insert_spec s v : es_wf s ->
    match es_insert s v with
    | Ret (Ok key, s') =>
        es_wf s' /\ SlabSpec.live_key key /\ es_cap s' = es_cap s /\
        es_view s (SlabSpec.key_index key) = None /\
        forall j, es_view s' j = SlabSpec.upd (es_view s) (SlabSpec.key_index key)
                                   (Some (SlabKey.generation key, v)) j
    | Ret (Err _, s') => s' = s
    | _ => False
    end;

  es_insert_full s v e s' : es_wf s -> es_insert s v = Ret (Err e, s') ->
    forall i, (i < es_cap s)%nat -> is_Some (es_view s i);

  es_insert_key s v key s' : es_wf s -> es_insert s v = Ret (Ok key, s') ->
    key = SlabKey.new (SlabKey.index key) (SlabKey.generation key);

  es_get_spec s key : es_wf s -> SlabSpec.live_key key ->
    es_get s key = Ret ('(g, v) ← es_view s (SlabSpec.key_index key);
                        if g =? SlabKey.generation key then Some v else None);

  es_get_mut_spec s key : es_wf s -> SlabSpec.live_key key ->
    match '(g, v) ← es_view s (SlabSpec.key_index key); if g =? SlabKey.generation key then Some v else None with
    | None => es_get_mut s key = Ret None
    | Some v => exists st, es_get_mut s key = Ret (Some (v, st)) /\ forall v',
        es_wf (st v') /\ es_cap (st v') = es_cap s /\
        forall j, es_view (st v') j = SlabSpec.upd (es_view s) (SlabSpec.key_index key)
                                        (Some (SlabKey.generation key, v')) j
    end;

  es_retire_slot_spec s key v : es_wf s -> SlabSpec.live_key key ->
    es_view s (SlabSpec.key_index key) = Some (SlabKey.generation key, v) ->
    exists s', es_retire_slot s key = Ret (true, s') /\ es_wf s' /\ es_cap s' = es_cap s /\
      forall j, es_view s' j = SlabSpec.upd (es_view s) (SlabSpec.key_index key) None j;

  es_remove_spec s key v : es_wf s -> SlabSpec.live_key key ->
    es_view s (SlabSpec.key_index key) = Some (SlabKey.generation key, v) ->
    exists s', es_remove s key = Ret (Some v, s') /\ es_wf s' /\ es_cap s' = es_cap s /\
      forall j, es_view s' j = SlabSpec.upd (es_view s) (SlabSpec.key_index key) None j;

  es_get_by_index_spec s i : es_wf s ->
    es_get_by_index s (Z.of_nat i) = Ret (snd <$> es_view s i);

  es_get_mut_by_index_spec s i : es_wf s ->
    match es_view s i with
    | None => es_get_mut_by_index s (Z.of_nat i) = Ret None
    | Some (g, v) => exists st, es_get_mut_by_index s (Z.of_nat i) = Ret (Some (v, st)) /\
        forall v', es_wf (st v') /\ es_cap (st v') = es_cap s /\
          forall j, es_view (st v') j = SlabSpec.upd (es_view s) i (Some (g, v')) j
    end;

  es_remove_by_index_spec s i g v : es_wf s -> es_view s i = Some (g, v) ->
    exists s', es_remove_by_index s (Z.of_nat i) = Ret (Some v, s') /\ es_wf s' /\
      es_cap s' = es_cap s /\ forall j, es_view s' j = SlabSpec.upd (es_view s) i None j;
}.

(** [modify_by_index]: when [get_mut_by_index] finds the entry, assign [f] of it
    through the reference. *)
Definition modify_by_index {V S} `{!EntryStore V S} (s : S) (idx : Z) (f : V -> V) : outcome S :=
  r ← es_get_mut_by_index s idx;
  Ret (match r with None => s | Some (v, st) => st (f v) end).

Lemma modify_by_index_spec {V S} `{!EntryStore V S} (s : S) i g v f :
  es_wf s -> es_view s i = Some (g, v) ->
  exists s', modify_by_index s (Z.of_nat i) f = Ret s' /\ es_wf s' /\ es_cap s' = es_cap s /\
    forall j, es_view s' j = SlabSpec.upd (es_view s) i (Some (g, f v)) j.
Proof.
  intros W E. pose proof (es_get_mut_by_index_spec s i W) as H. rewrite E in H.
  destruct H as (st & Hst & H). unfold modify_by_index. rewrite Hst. cbn.
  exists (st (f v)). split; [done|]. apply H.
Qed.

(** A slab whose clients do not reserve: no slot is promised. *)
Module SlabClosed.
Import Slab SlabSpec SlabOps.

Section closed.
Context {V : Type}.
Implicit Types (s : slab V) (sl : slot V).

Definition closed s : Prop := wf s /\ forall i, ~ reserved s i.

Lemma unreserved_update s i sl sl' h n :
  slots s !! i = Some sl -> (forall j, ~ reserved s j) -> occ sl' = true \/ next_free sl' <> Z.of_nat i ->
  forall j, ~ reserved (mkSlab (<[i:=sl']> (slots s)) h n) j.
Proof.
  intros Hi Hr Hsl j (sl0 & Hj & Ho & Hn). cbn in Hj. destruct (decide (j = i)) as [-> |Hne].
  - rewrite list_lookup_insert_eq in Hj by (by eapply lookup_lt_Some). simplify_eq. destruct Hsl; congruence.
  - rewrite list_lookup_insert_ne in Hj by done. apply (Hr j). by exists sl0.
Qed.

(** The head of the free list is not an occupied slot. *)
Lemma head_not_occ s fl i sl : wf_with s fl -> slots s !! i = Some sl -> occ sl = true -> free_head s <> Z.of_nat i.
Proof.
  intros W Hi Ho E. pose proof (wf_index _ _ _ _ W Hi). destruct (head_slot s fl W) as (i' & fl' & sl' & _ & Hh & Hi' & Ho' & _).
  - rewrite E. unfold FREE_SENTINEL. apply lookup_lt_Some in Hi. pose proof (wf_cap _ _ W). lia.
  - rewrite E in Hh. apply Nat2Z.inj in Hh. subst i'. congruence.
Qed.

Lemma insert_closed s v key s' : closed s -> insert s v = Ret (Ok key, s') -> forall j, ~ reserved s' j.
Proof.
  intros [[fl W] Hr] E. unfold insert in E. destruct (Z.eqb_spec (free_head s) FREE_SENTINEL) as [|Hh]; [done|].
  destruct (head_slot _ _ W Hh) as (i & fl' & sl & -> & Hhd & Hi & Ho & Hg).
  rewrite (slot_at_nat _ _ i Hhd), Hi in E. fold (occ sl) in E. rewrite Ho in E. apply outcome_bind_Ret in E as (n & _ & E).
  injection E as _ <-. rewrite (set_slot_nat _ _ i _ Hhd). eapply unreserved_update; [exact Hi|done|left]. by apply next_occ_true.
Qed.

Lemma insert_exhausted s v e s' :
  closed s -> insert s v = Ret (Err e, s') -> forall i, (i < length (slots s))%nat -> is_Some (view s i).
Proof.
  intros [W Hr] E i Hi. pose proof (insert_spec s v W) as H. rewrite E in H. destruct e. destruct H as [_ H].
  destruct (H i Hi) as [[c Hc]|Hc]; [by exists c|by destruct (Hr i)].
Qed.

(** The two ways a slot is found. *)
Lemma get_mut_closed s key v st v' : closed s -> live_key key -> get_mut s key = Ret (Some (v, st)) -> forall j, ~ reserved (st v') j.
Proof.
  intros [[fl W] Hr] Hk E. unfold get_mut in E. rewrite slot_at_key in E. destruct (slots s !! key_index key) as [sl|] eqn:Hi; [|done].
  destruct (Z.eqb_spec (generation sl) (SlabKey.generation key)) as [Hg|]; [|done]. apply outcome_bind_Ret in E as (x & _ & E).
  injection E as _ <-. rewrite set_slot_key. eapply unreserved_update; [exact Hi|done|left]. unfold occ. cbn. by rewrite Hg.
Qed.

Lemma get_mut_by_index_closed s i v st v' :
  closed s -> get_mut_by_index s (Z.of_nat i) = Ret (Some (v, st)) -> forall j, ~ reserved (st v') j.
Proof.
  intros [[fl W] Hr] E. unfold get_mut_by_index in E. rewrite (slot_at_nat s _ i eq_refl) in E.
  destruct (slots s !! i) as [sl|] eqn:Hi; [|done]. destruct (Generation.is_occupied (generation sl)) eqn:Ho; [|done].
  apply outcome_bind_Ret in E as (x & _ & E). injection E as _ <-. rewrite (set_slot_nat s _ i _ eq_refl).
  eapply unreserved_update; [exact Hi|done|by left].
Qed.

(** Freeing puts the slot on the free list, in front of another one. *)
Lemma freed_closed s fl i sl d n :
  wf_with s fl -> (forall j, ~ reserved s j) -> slots s !! i = Some sl -> occ sl = true ->
  forall j, ~ reserved (mkSlab (<[i:=mkSlot (Generation.next (generation sl)) (free_head s) d]> (slots s)) (Z.of_nat i) n) j.
Proof. intros W Hr Hi Ho. eapply unreserved_update; [exact Hi|done|right]. by eapply head_not_occ. Qed.

Lemma remove_closed s key v s' : closed s -> live_key key -> remove s key = Ret (Some v, s') -> forall j, ~ reserved s' j.
Proof.
  intros [[fl W] Hr] Hk E. unfold remove in E. rewrite slot_at_key in E. destruct (slots s !! key_index key) as [sl|] eqn:Hi; [|done].
  destruct (Z.eqb_spec (generation sl) (SlabKey.generation key)) as [Hg|]; [|done]. apply outcome_bind_Ret in E as (x & _ & E).
  apply outcome_bind_Ret in E as (n & _ & E). injection E as _ <-. rewrite set_slot_key, <- key_index_Z.
  eapply freed_closed; try done. unfold occ. by rewrite Hg.
Qed.

Lemma retire_closed s key s' : closed s -> live_key key -> retire_slot s key = Ret (true, s') -> forall j, ~ reserved s' j.
Proof.
  intros [[fl W] Hr] Hk E. unfold retire_slot in E. rewrite slot_at_key in E. destruct (slots s !! key_index key) as [sl|] eqn:Hi; [|done].
  destruct (Z.eqb_spec (generation sl) (SlabKey.generation key)) as [Hg|]; [|done].
  apply outcome_bind_Ret in E as (n & _ & E). injection E as <-. rewrite set_slot_key, <- key_index_Z.
  eapply freed_closed; try done. unfold occ. by rewrite Hg.
Qed.

Lemma remove_by_index_closed s i v s' : closed s -> remove_by_index s (Z.of_nat i) = Ret (Some v, s') -> forall j, ~ reserved s' j.
Proof.
  intros [[fl W] Hr] E. unfold remove_by_index in E. rewrite (slot_at_nat s _ i eq_refl) in E.
  destruct (slots s !! i) as [sl|] eqn:Hi; [|done]. destruct (Generation.is_occupied (generation sl)) eqn:Ho; [|done].
  apply outcome_bind_Ret in E as (x & _ & E). apply outcome_bind_Ret in E as (n & _ & E). injection E as _ <-.
  rewrite (set_slot_nat s _ i _ eq_refl). by eapply freed_closed.
Qed.

Lemma new_closed c s : 0 <= c < 2 ^ 32 -> new c = Ret s -> forall j, ~ reserved s j.
Proof.
  intros Hc. rewrite new_eq by lia. intros [= <-] j (sl & Hj & _ & Hn). cbn in Hj. rewrite new_slot_lookup in Hj.
  destruct (Z.ltb_spec (Z.of_nat j) c); [|done]. injection Hj as <-. cbn in Hn. unfold FREE_SENTINEL in Hn.
  destruct (Z.ltb_spec (Z.of_nat j + 1) c); lia.
Qed.
End closed.
End SlabClosed.

Section slab_store.
Context {V : Type}.

Lemma slab_view_range (s : Slab.slab V) i c :
  SlabSpec.view s i = Some c -> (i < length (Slab.slots s))%nat.
Proof. destruct c. intros (sl & Hi & _)%SlabSpec.view_Some. by eapply lookup_lt_Some. Qed.

Lemma slab_view_gen (s : Slab.slab V) i g v :
  SlabClosed.closed s -> SlabSpec.view s i = Some (g, v) -> Generation.wf g /\ Generation.is_occupied g = true.
Proof.
  intros [[fl W] _] (sl & Hi & Ho & <- & _)%SlabSpec.view_Some. split; [apply (SlabSpec.wf_slots _ _ W _ _ Hi)|done].
Qed.

Lemma slab_new_store c : 0 <= c < 2 ^ 32 ->
  exists s : Slab.slab V, Slab.new c = Ret s /\ SlabClosed.closed s /\
    length (Slab.slots s) = Z.to_nat c /\ forall i, SlabSpec.view s i = None.
Proof.
  intros Hc. destruct (SlabOps.new_spec (V := V) c Hc) as (s & E & W & _ & Hcap & Hv).
  exists s. unfold Slab.capacity in Hcap. split_and!; [done|split; [done|by eapply SlabClosed.new_closed]|lia|done].
Qed.

Lemma slab_insert_store (s : Slab.slab V) v : SlabClosed.closed s ->
  match Slab.insert s v with
  | Ret (Ok key, s') =>
      SlabClosed.closed s' /\ SlabSpec.live_key key /\ length (Slab.slots s') = length (Slab.slots s) /\
      SlabSpec.view s (SlabSpec.key_index key) = None /\
      forall j, SlabSpec.view s' j = SlabSpec.upd (SlabSpec.view s) (SlabSpec.key_index key)
                                       (Some (SlabKey.generation key, v)) j
  | Ret (Err _, s') => s' = s
  | _ => False
  end.
Proof.
  intros W. pose proof (SlabOps.insert_spec s v (proj1 W)) as H. pose proof (SlabClosed.insert_closed s v) as Hr.
  destruct (Slab.insert s v) as [[[key|[]] s']| | |]; try naive_solver.
  destruct H as (? & ? & ? & ? & ? & ?). split_and!; try done. split; [done|]. by eapply Hr.
Qed.

Lemma slab_insert_key (s : Slab.slab V) v key s' :
  SlabClosed.closed s -> Slab.insert s v = Ret (Ok key, s') ->
  key = SlabKey.new (SlabKey.index key) (SlabKey.generation key).
Proof.
  intros [[fl W] _] E. unfold Slab.insert in E. destruct (Z.eqb_spec (Slab.free_head s) Slab.FREE_SENTINEL) as [|Hh]; [done|].
  destruct (SlabOps.head_slot _ _ W Hh) as (i & fl' & sl & -> & Hhd & Hi & Ho & Hg).
  rewrite (SlabOps.slot_at_nat _ _ i Hhd), Hi in E. fold (SlabSpec.occ sl) in E. rewrite Ho in E.
  apply outcome_bind_Ret in E as (n & _ & E). injection E as <- _. rewrite Hhd.
  pose proof (SlabSpec.wf_index _ _ _ _ W Hi). rewrite SlabKey.index_new, SlabKey.generation_new by (done || apply Generation.next_wf). done.
Qed.

Lemma slab_get_mut_store (s : Slab.slab V) key : SlabClosed.closed s -> SlabSpec.live_key key ->
  match SlabSpec.lookup s key with
  | None => Slab.get_mut s key = Ret None
  | Some v => exists st, Slab.get_mut s key = Ret (Some (v, st)) /\ forall v',
      SlabClosed.closed (st v') /\ length (Slab.slots (st v')) = length (Slab.slots s) /\
      forall j, SlabSpec.view (st v') j = SlabSpec.upd (SlabSpec.view s) (SlabSpec.key_index key) (Some (SlabKey.generation key, v')) j
  end.
Proof.
  intros W Hk. pose proof (SlabOps.get_mut_spec s key (proj1 W) Hk) as H. destruct (SlabSpec.lookup s key) as [v|]; [|done].
  destruct H as (st & E & H). exists st. split; [done|]. intros v'. destruct (H v') as (? & ? & ?).
  split_and!; try done. split; [done|]. by eapply SlabClosed.get_mut_closed.
Qed.

Lemma slab_get_mut_by_index_store (s : Slab.slab V) i : SlabClosed.closed s ->
  match SlabSpec.view s i with
  | None => Slab.get_mut_by_index s (Z.of_nat i) = Ret None
  | Some (g, v) => exists st, Slab.get_mut_by_index s (Z.of_nat i) = Ret (Some (v, st)) /\
      forall v', SlabClosed.closed (st v') /\ length (Slab.slots (st v')) = length (Slab.slots s) /\
        forall j, SlabSpec.view (st v') j = SlabSpec.upd (SlabSpec.view s) i (Some (g, v')) j
  end.
Proof.
  intros W. pose proof (SlabOps.get_mut_by_index_spec s i (proj1 W)) as H. destruct (SlabSpec.view s i) as [[g v]|]; [|done].
  destruct H as (st & E & H). exists st. split; [done|]. intros v'. destruct (H v') as (? & ? & ?).
  split_and!; try done. split; [done|]. by eapply SlabClosed.get_mut_by_index_closed.
Qed.

Lemma slab_remove_store (s : Slab.slab V) key v :
  SlabClosed.closed s -> SlabSpec.live_key key ->
  SlabSpec.view s (SlabSpec.key_index key) = Some (SlabKey.generation key, v) ->
  exists s', Slab.remove s key = Ret (Some v, s') /\ SlabClosed.closed s' /\
    length (Slab.slots s') = length (Slab.slots s) /\
    forall j, SlabSpec.view s' j = SlabSpec.upd (SlabSpec.view s) (SlabSpec.key_index key) None j.
Proof.
  intros W Hk Hv. pose proof (SlabOps.remove_spec s key (proj1 W) Hk) as H.
  unfold SlabSpec.lookup in H. rewrite Hv in H. cbn in H. rewrite Z.eqb_refl in H. destruct H as (s' & E & ? & ? & ?).
  exists s'. split_and!; try done. split; [done|]. by eapply SlabClosed.remove_closed.
Qed.

Lemma slab_retire_store (s : Slab.slab V) key v :
  SlabClosed.closed s -> SlabSpec.live_key key ->
  SlabSpec.view s (SlabSpec.key_index key) = Some (SlabKey.generation key, v) ->
  exists s', Slab.retire_slot s key = Ret (true, s') /\ SlabClosed.closed s' /\
    length (Slab.slots s') = length (Slab.slots s) /\
    forall j, SlabSpec.view s' j = SlabSpec.upd (SlabSpec.view s) (SlabSpec.key_index key) None j.
Proof.
  intros W Hk Hv. pose proof (SlabOps.retire_slot_spec s key (proj1 W) Hk) as H.
  unfold SlabSpec.lookup in H. rewrite Hv in H. cbn in H. rewrite Z.eqb_refl in H. destruct H as (s' & E & ? & ? & ?).
  exists s'. split_and!; try done. split; [done|]. by eapply SlabClosed.retire_closed.
Qed.

Lemma slab_remove_by_index_store (s : Slab.slab V) i g v :
  SlabClosed.closed s -> SlabSpec.view s i = Some (g, v) ->
  exists s', Slab.remove_by_index s (Z.of_nat i) = Ret (Some v, s') /\ SlabClosed.closed s' /\
    length (Slab.slots s') = length (Slab.slots s) /\
    forall j, SlabSpec.view s' j = SlabSpec.upd (SlabSpec.view s) i None j.
Proof.
  intros W Hv. pose proof (SlabOps.remove_by_index_spec s i (proj1 W)) as H. rewrite Hv in H. destruct H as (s' & E & ? & ? & ?).
  exists s'. split_and!; try done. split; [done|]. by eapply SlabClosed.remove_by_index_closed.
Qed.

#[export] Instance slab_store : EntryStore V (Slab.slab V) := {
  es_new := Slab.new;
  es_insert := Slab.insert;
  es_get := Slab.get;
  es_get_mut := Slab.get_mut;
  es_remove := Slab.remove;
  es_retire_slot := Slab.retire_slot;
  es_get_by_index := Slab.get_by_index;
  es_get_mut_by_index := Slab.get_mut_by_index;
  es_remove_by_index := Slab.remove_by_index;
  es_wf := SlabClosed.closed;
  es_view := SlabSpec.view;
  es_cap s := length (Slab.slots s);
  es_view_range s i c _ := slab_view_range s i c;
  es_view_gen := slab_view_gen;
  es_cap_bound s W := match proj1 W with ex_intro _ fl W' => SlabSpec.wf_cap _ _ W' end;
  es_new_spec := slab_new_store;
  es_insert_spec := slab_insert_store;
  es_insert_full := SlabClosed.insert_exhausted;
  es_insert_key := slab_insert_key;
  es_get_spec s key W := SlabOps.get_spec s key (proj1 W);
  es_get_mut_spec := slab_get_mut_store;
  es_retire_slot_spec := slab_retire_store;
  es_remove_spec := slab_remove_store;
  es_get_by_index_spec s i W := SlabOps.get_by_index_spec s i (proj1 W);
  es_get_mut_by_index_spec := slab_get_mut_by_index_store;
  es_remove_by_index_spec := slab_remove_by_index_store;
}.

End slab_store.
