(* ===== verification/TimerWheel.v ===== *)
(** * The hierarchical timer wheel

    Models src/crates/kwokka-runtime/src/timer/wheel/ (entry.rs, handle.rs,
    slot.rs, hierarchy.rs).  [Option<NonZeroU32>] links are [option Z]; an
    out-of-range array index is [Panic]; the entry slab is any [EntryStore].
    The clock is not part of the state: [new] takes its reading, and callers
    pass [now] where the source calls [now_tick].  The [while let] over a slot
    list and the [loop] of the expiry iterator run on fuel. *)

From S2P Require Import Prelude Words GenKey SlabAlloc SlabFacts SlabStore.
From stdpp Require Import base tactics list numbers.

Local Open Scope Z_scope.

Module Wheel.

Definition LEVEL_COUNT : Z := 6.
Definition SLOTS_PER_LEVEL : Z := 64.

Record TimerEntry : Type := mkEntry {
  deadline_tick : Z;
  task_ref : Z;
  prev : option Z;
  next : option Z;
  level : Z;
  slot : Z;
}.

Definition set_prev (p : option Z) (e : TimerEntry) : TimerEntry :=
  mkEntry (deadline_tick e) (task_ref e) p (next e) (level e) (slot e).
Definition set_next (n : option Z) (e : TimerEntry) : TimerEntry :=
  mkEntry (deadline_tick e) (task_ref e) (prev e) n (level e) (slot e).
Definition set_place (l s : Z) (e : TimerEntry) : TimerEntry :=
  mkEntry (deadline_tick e) (task_ref e) (prev e) (next e) l s.

(** handle.rs *)
Definition slab_to_nz (index : Z) : outcome Z := add_or_panic U32 index 1.
Definition nz_to_slab (nz : Z) : Z := nz - 1.

(** A slot is the head of its list. *)
Record WheelLevel : Type := mkLevel {
  slots : list (option Z);
  populated_mask : Z;
}.

Definition empty_level : WheelLevel :=
  mkLevel (replicate (Z.to_nat SLOTS_PER_LEVEL) None) 0.

Section wheel.
Context {S : Type} `{!EntryStore TimerEntry S}.

Record TimerWheel : Type := mkWheel {
  current_tick : Z;
  levels : list WheelLevel;
  entries : S;
}.

Definition new (now capacity : Z) : outcome TimerWheel :=
  es ← es_new capacity;
  Ret (mkWheel now (replicate (Z.to_nat LEVEL_COUNT) empty_level) es).

(** slot.rs: [WheelSlot::push_front] and [WheelSlot::remove] on a slot head. *)
Definition push_front (head : option Z) (entry_nz : Z) (es : S) : outcome (option Z * S) :=
  let idx := nz_to_slab entry_nz in
  r ← es_get_mut_by_index es idx;
  match r with
  | None => Ret (head, es)
  | Some (entry, st) =>
      let es1 := st (set_next head (set_prev None entry)) in
      es2 ← match head with
            | Some old_head =>
                modify_by_index es1 (nz_to_slab old_head) (set_prev (Some entry_nz))
            | None => Ret es1
            end;
      Ret (Some entry_nz, es2)
  end.

Definition is_none (o : option Z) : bool := match o with None => true | Some _ => false end.

Definition slot_remove (head : option Z) (entry_nz : Z) (es : S)
    : outcome (bool * option Z * S) :=
  let idx := nz_to_slab entry_nz in
  r ← es_get_by_index es idx;
  match r with
  | None => Ret (is_none head, head, es)
  | Some entry =>
      let prev := prev entry in
      let next := next entry in
      '(head1, es1) ← match prev with
                      | Some prev_nz =>
                          es1 ← modify_by_index es (nz_to_slab prev_nz) (set_next next);
                          Ret (head, es1)
                      | None => Ret (next, es)
                      end;
      es2 ← match next with
            | Some next_nz => modify_by_index es1 (nz_to_slab next_nz) (set_prev prev)
            | None => Ret es1
            end;
      es3 ← modify_by_index es2 idx (fun e => set_next None (set_prev None e));
      Ret (is_none head1, head1, es3)
  end.

(** [self.levels[level].slots[slot]]: indexing, and the write-back of a slot
    head and of the level's mask. *)
Definition level_at (w : TimerWheel) (l : Z) : outcome WheelLevel :=
  match levels w !! Z.to_nat l with Some lv => Ret lv | None => Panic end.

Definition head_at (lv : WheelLevel) (s : Z) : outcome (option Z) :=
  match slots lv !! Z.to_nat s with Some h => Ret h | None => Panic end.

Definition set_head (lv : WheelLevel) (s : Z) (h : option Z) (mask : Z) : WheelLevel :=
  mkLevel (<[Z.to_nat s := h]> (slots lv)) mask.

Definition set_level (w : TimerWheel) (l : Z) (lv : WheelLevel) : list WheelLevel :=
  <[Z.to_nat l := lv]> (levels w).

Definition insert_at (w : TimerWheel) (entry_nz l s : Z) : outcome TimerWheel :=
  let idx := nz_to_slab entry_nz in
  es1 ← modify_by_index (entries w) idx (set_place l s);
  lv ← level_at w l;
  h ← head_at lv s;
  '(h', es2) ← push_front h entry_nz es1;
  Ret (mkWheel (current_tick w)
         (set_level w l (set_head lv s h' (Z.lor (populated_mask lv) (Z.shiftl 1 s)))) es2).

Definition remove_from_slot (w : TimerWheel) (entry_nz : Z) : outcome TimerWheel :=
  let idx := nz_to_slab entry_nz in
  r ← es_get_by_index (entries w) idx;
  match r with
  | None => Ret w
  | Some entry =>
      let l := level entry in
      let s := slot entry in
      lv ← level_at w l;
      h ← head_at lv s;
      '(is_empty, h', es') ← slot_remove h entry_nz (entries w);
      let mask :=
        if is_empty : bool
        then Z.land (populated_mask lv) (lnot U64 (Z.shiftl 1 s))
        else populated_mask lv in
      Ret (mkWheel (current_tick w) (set_level w l (set_head lv s h' mask)) es')
  end.

(** The (level, slot) for a deadline relative to the current tick. *)
Definition position (deadline_tick current_tick : Z) : Z * Z :=
  let delta := saturating_sub deadline_tick current_tick in
  if delta =? 0 then (0, Z.land current_tick 63) else
  let l := Z.min ((63 - leading_zeros delta) / 6) 5 in
  (l, Z.land (Z.shiftr deadline_tick (l * 6)) 63).

Definition register (w : TimerWheel) (task_ref deadline_tick : Z)
    : outcome (result Slab.SlabError Z * TimerWheel) :=
  '(r, es) ← es_insert (entries w) (mkEntry deadline_tick task_ref None None 0 0);
  match r with
  | Err e => Ret (Err e, mkWheel (current_tick w) (levels w) es)
  | Ok key =>
      nz ← slab_to_nz (SlabKey.index key);
      let '(l, s) := position deadline_tick (current_tick w) in
      w' ← insert_at (mkWheel (current_tick w) (levels w) es) nz l s;
      Ret (Ok key, w')
  end.

Definition cancel (w : TimerWheel) (handle : Z) : outcome (bool * TimerWheel) :=
  r ← es_get (entries w) handle;
  match r with
  | None => Ret (false, w)
  | Some _ =>
      nz ← slab_to_nz (SlabKey.index handle);
      w1 ← remove_from_slot w nz;
      '(_, es) ← es_remove (entries w1) handle;
      Ret (true, mkWheel (current_tick w1) (levels w1) es)
  end.

(** Ticks until the next expiry, scanning the levels from [l] on. *)
Fixpoint next_expiry_from (l : Z) (current_tick : Z) (lvs : list WheelLevel) : option Z :=
  match lvs with
  | [] => None
  | lv :: lvs =>
      let mask := populated_mask lv in
      if mask =? 0 then next_expiry_from (l + 1) current_tick lvs else
      let current_slot := Z.land (Z.shiftr current_tick (l * 6)) 63 in
      let distance := trailing_zeros (rotate_right mask current_slot) in
      let slot_size := Z.shiftl 1 (l * 6) in
      Some (distance * slot_size + 1)
  end.

Definition next_expiry (w : TimerWheel) : option Z :=
  next_expiry_from 0 (current_tick w) (levels w).

(** The [while let Some(nz) = entry_nz] loop of [cascade_level]. *)
Fixpoint cascade_loop (fuel : nat) (w : TimerWheel) (entry_nz : option Z) : outcome TimerWheel :=
  match entry_nz with
  | None => Ret w
  | Some nz =>
      match fuel with
      | O => OutOfFuel
      | Datatypes.S fuel =>
          let idx := nz_to_slab nz in
          r ← es_get_by_index (entries w) idx;
          match r with
          | None => Ret w
          | Some entry =>
              es1 ← modify_by_index (entries w) idx (fun e => set_next None (set_prev None e));
              let '(l, s) := position (deadline_tick entry) (current_tick w) in
              w' ← insert_at (mkWheel (current_tick w) (levels w) es1) nz l s;
              cascade_loop fuel w' (next entry)
          end
      end
  end.

Definition cascade_level (fuel : nat) (w : TimerWheel) (l : Z) : outcome TimerWheel :=
  let slot_idx := Z.land (Z.shiftr (current_tick w) (l * 6)) 63 in
  lv ← level_at w l;
  entry_nz ← head_at lv slot_idx;
  let lv' := set_head lv slot_idx None
               (Z.land (populated_mask lv) (lnot U64 (Z.shiftl 1 slot_idx))) in
  cascade_loop fuel (mkWheel (current_tick w) (set_level w l lv') (entries w)) entry_nz.

(** [for lvl in lvl..LEVEL_COUNT] with its early [break]. *)
Fixpoint cascade_up (fuel : nat) (w : TimerWheel) (tz : Z) (lvls : list Z) : outcome TimerWheel :=
  match lvls with
  | [] => Ret w
  | lvl :: lvls =>
      if lvl * 6 <=? tz
      then w' ← cascade_level fuel w lvl; cascade_up fuel w' tz lvls
      else Ret w
  end.

Definition advance_one_tick (fuel : nat) (w : TimerWheel) : outcome TimerWheel :=
  t ← add_or_panic U64 (current_tick w) 1;
  let w1 := mkWheel t (levels w) (entries w) in
  let tz := trailing_zeros t in
  if 6 <=? tz
  then w2 ← cascade_level fuel w1 1; cascade_up fuel w2 tz [2; 3; 4; 5]
  else Ret w1.

(** The expiry iterator returned by [advance_to]. *)
Record ExpiredIter : Type := mkIter {
  wheel : TimerWheel;
  target_tick : Z;
  current_drain : option Z;
}.

Definition advance_to (w : TimerWheel) (target : Z) : ExpiredIter := mkIter w target None.

(** [Iterator::next]; the inner [loop] runs on fuel. *)
Fixpoint iter_next (fuel : nat) (it : ExpiredIter) : outcome (option Z * ExpiredIter) :=
  match fuel with
  | O => OutOfFuel
  | Datatypes.S fuel' =>
      let w := wheel it in
      match current_drain it with
      | Some nz =>
          let idx := nz_to_slab nz in
          r ← es_get_by_index (entries w) idx;
          match r with
          | None => iter_next fuel' (mkIter w (target_tick it) None)
          | Some entry =>
              '(_, es) ← es_remove_by_index (entries w) idx;
              Ret (Some (task_ref entry),
                   mkIter (mkWheel (current_tick w) (levels w) es) (target_tick it) (next entry))
          end
      | None =>
          if target_tick it <=? current_tick w then Ret (None, it) else
          lv0 ← level_at w 0;
          next_l0_wrap ← (if populated_mask lv0 =? 0
                          then add_or_panic U64 (Z.lor (current_tick w) 63) 1
                          else Ret 0);
          if (populated_mask lv0 =? 0) && (target_tick it <? next_l0_wrap)
          then Ret (None, mkIter (mkWheel (target_tick it) (levels w) (entries w)) (target_tick it) None)
          else
          let w1 := if populated_mask lv0 =? 0
                    then mkWheel (next_l0_wrap - 1) (levels w) (entries w) else w in
          w2 ← advance_one_tick fuel w1;
          let slot_idx := Z.land (current_tick w2) 63 in
          lv ← level_at w2 0;
          drain ← head_at lv slot_idx;
          let mask :=
            match drain with
            | Some _ => Z.land (populated_mask lv) (lnot U64 (Z.shiftl 1 slot_idx))
            | None => populated_mask lv
            end in
          iter_next fuel'
            (mkIter (mkWheel (current_tick w2) (set_level w2 0 (set_head lv slot_idx None mask))
                       (entries w2))
               (target_tick it) drain)
      end
  end.

(** [for task_ref in timer.advance_to(now)]: the iterator run to exhaustion. *)
Fixpoint collect (fuel : nat) (it : ExpiredIter) : outcome (list Z * TimerWheel) :=
  match fuel with
  | O => OutOfFuel
  | Datatypes.S fuel' =>
      '(r, it') ← iter_next fuel it;
      match r with
      | None => Ret ([], wheel it')
      | Some task => '(rest, w) ← collect fuel' it'; Ret (task :: rest, w)
      end
  end.

End wheel.
Arguments TimerWheel : clear implicits.
Arguments ExpiredIter : clear implicits.
End Wheel.
