(* ===== verification/TimerArith.v ===== *)
(** * Where a deadline lives on the wheel

    The arithmetic of [Wheel.position] and of the cascade: which level and slot
    an entry occupies at a given tick, how that is affected by one tick, and
    why a cascaded or drained slot holds exactly the entries that are due
    there. *)

From S2P Require Import Prelude Words GenKey SlabAlloc SlabFacts SlabStore TimerWheel.
From stdpp Require Import base tactics list numbers.

Local Open Scope Z_scope.

Module Place.
Import Wheel.

(** Ticks covered by one slot of level [l]. *)
Definition span (l : Z) : Z := 2 ^ (l * 6).

(** [placed lo cur d l s]: an entry with deadline [d] sits in slot [s] of level
    [l] when the wheel is at [cur], at least [lo] ticks ahead on level 0. *)
Definition placed (lo cur d l s : Z) : Prop :=
  0 <= l <= 5 /\ s = (d / span l) mod 64 /\
  (l = 0 -> lo <= d - cur <= 63) /\
  (1 <= l -> 1 <= d / span l - cur / span l /\
             (l < 5 -> d / span l - cur / span l <= 64)).

(** The same while the cascades of tick [cur] are under way: levels below [k]
    are done, a level at or above [k] whose slot boundary is [cur] is not. *)
Definition mid (k cur d l s : Z) : Prop :=
  0 <= l <= 5 /\ s = (d / span l) mod 64 /\
  (l = 0 -> 0 <= d - cur <= 63) /\
  (1 <= l -> 0 <= d / span l - cur / span l /\
    (l < 5 -> d / span l - cur / span l <= 64) /\
    (l < k \/ cur mod span l <> 0 -> 1 <= d / span l - cur / span l) /\
    (l < 5 -> k <= l -> cur mod span l = 0 -> d / span l - cur / span l <= 63)).

Lemma level_cases (P : Z -> Prop) l :
  0 <= l <= 5 -> P 0 -> P 1 -> P 2 -> P 3 -> P 4 -> P 5 -> P l.
Proof.
  intros Hl ??????.
  assert (l = 0 \/ l = 1 \/ l = 2 \/ l = 3 \/ l = 4 \/ l = 5) as H' by lia.
  destruct H' as [->|[->|[->|[->|[->| ->]]]]]; done.
Qed.

(** Case analysis on the level, with the spans as numerals. *)
Ltac by_level l Hl :=
  pattern l; apply (level_cases _ l Hl); clear l Hl;
  try change (span 0) with 1; try change (span 1) with 64; try change (span 2) with 4096;
  try change (span 3) with 262144; try change (span 4) with 16777216;
  try change (span 5) with 1073741824;
  intros; repeat split; intros; Z.div_mod_to_equations; lia.

Lemma land_63 a : Z.land a 63 = a mod 64.
Proof. change 63 with (2 ^ 6 - 1). apply land_ones_mod. lia. Qed.

Lemma shiftr_span a l : 0 <= l -> Z.shiftr a (l * 6) = a / span l.
Proof. intros. rewrite shiftr_div by lia. done. Qed.

(** The level chosen by [position]: the delta spans at least one slot of it
    and, below the last level, fewer than 64. *)
Lemma position_level d cur l s :
  cur < d -> position d cur = (l, s) ->
  0 <= l <= 5 /\ s = (d / span l) mod 64 /\ (1 <= l -> span l <= d - cur) /\
  (l < 5 -> d - cur < 64 * span l).
Proof.
  intros Hlt. unfold position, saturating_sub. rewrite Z.max_r by lia.
  destruct (Z.eqb_spec (d - cur) 0); [lia|]. unfold leading_zeros.
  destruct (Z.eqb_spec (d - cur) 0); [lia|].
  replace (63 - (63 - Z.log2 (d - cur))) with (Z.log2 (d - cur)) by lia.
  set (q := Z.log2 (d - cur)). intros [= <- <-].
  assert (0 <= q) as Hq by apply Z.log2_nonneg.
  destruct (Z.log2_spec (d - cur)) as [Hlo Hhi]; [lia|]. fold q in Hlo, Hhi.
  clearbody q. assert (0 <= q / 6) by (apply Z.div_pos; lia).
  pose proof (Z.mul_div_le q 6 ltac:(lia)). pose proof (Z.mod_pos_bound q 6 ltac:(lia)).
  pose proof (Z.div_mod q 6 ltac:(lia)). set (r := q / 6) in *. clearbody r.
  split_and!; [lia|lia| | |].
  - rewrite land_63, shiftr_span by lia. done.
  - intros _. etrans; [|exact Hlo]. unfold span. apply Z.pow_le_mono_r; lia.
  - intros H5. eapply Z.lt_le_trans; [exact Hhi|]. unfold span. change 64 with (2 ^ 6).
    rewrite <- Z.pow_add_r by lia. apply Z.pow_le_mono_r; lia.
Qed.

Lemma position_zero cur : position cur cur = (0, cur mod 64).
Proof.
  unfold position, saturating_sub. rewrite Z.sub_diag. cbn. by rewrite land_63.
Qed.

Lemma position_mid k d cur l s :
  1 <= k -> cur <= d -> position d cur = (l, s) -> mid k cur d l s.
Proof.
  intros Hk Hle E. destruct (Z.eq_dec cur d) as [->|Hne].
  - rewrite position_zero in E. simplify_eq. unfold mid. change (span 0) with 1.
    rewrite Z.div_1_r. split_and!; lia || done.
  - destruct (position_level d cur l s) as (Hl & Hs & Hlo & Hhi); [lia|done|].
    split_and!; [lia|lia|done|..]; revert Hlo Hhi; clear Hs E s; by_level l Hl.
Qed.

Lemma position_placed d cur l s :
  cur < d -> position d cur = (l, s) -> placed 1 cur d l s.
Proof.
  intros Hlt E. destruct (position_level d cur l s) as (Hl & Hs & Hlo & Hhi); [lia|done|].
  split_and!; [lia|lia|done|..]; revert Hlo Hhi; clear Hs E s; by_level l Hl.
Qed.

Lemma placed_gt cur d l s : placed 1 cur d l s -> cur < d.
Proof.
  intros (Hl & _ & H0 & H1). revert H0 H1. by_level l Hl.
Qed.

Lemma tick_mid cur d l s : placed 1 cur d l s -> mid 1 (cur + 1) d l s.
Proof.
  intros (Hl & Hs & H0 & H1). split_and!; [lia|lia|done|..]; revert H0 H1; clear Hs s;
    by_level l Hl.
Qed.

Lemma mid_done cur d l s : mid 6 cur d l s -> placed 0 cur d l s.
Proof.
  intros (Hl & Hs & H0 & H1). split; [done|]. split; [done|]. split; [done|]. intros Hl1.
  destruct (H1 Hl1) as (_ & ? & Hc & _). split; [apply Hc; lia|done].
Qed.

Lemma mid_skip k cur d l s :
  1 <= k <= 5 -> cur mod span k <> 0 -> mid k cur d l s -> mid 6 cur d l s.
Proof.
  intros Hk Hm (Hl & Hs & H0 & H1). split; [done|]. split; [done|]. split; [done|]. intros Hl1.
  destruct (H1 Hl1) as (Ha & Hb & Hc & Hd). split; [done|]. split; [done|]. split; [|lia].
  intros _. apply Hc. destruct (Z.lt_ge_cases l k); [by left|]. right. intros Hz. apply Hm.
  unfold span in *. apply Z.mod_divide in Hz; [|apply Z.pow_nonzero; lia].
  apply Z.mod_divide; [apply Z.pow_nonzero; lia|]. etrans; [|exact Hz].
  exists (2 ^ ((l - k) * 6)). rewrite <- Z.pow_add_r by lia. f_equal. lia.
Qed.

Lemma mid_stay k cur d l s :
  cur mod span k = 0 -> 1 <= k ->
  (l = k -> s <> (cur / span k) mod 64) -> mid k cur d l s -> mid (k + 1) cur d l s.
Proof.
  intros Hz Hk Hne (Hl & Hs & H0 & H1). split; [done|]. split; [done|]. split; [done|]. intros Hl1.
  destruct (H1 Hl1) as (Ha & Hb & Hc & Hd). split; [done|]. split; [done|].
  split; [|intros; apply Hd; lia].
  intros H. destruct (Z.eq_dec l k) as [->|Hlk].
  - assert (d / span k <> cur / span k) as Hd' by (intros E; apply Hne; [done|]; by rewrite Hs, E).
    lia.
  - apply Hc. destruct H; [left; lia|by right].
Qed.

Lemma mid_out k cur d s :
  cur mod span k = 0 -> 1 <= k <= 5 -> mid k cur d k s -> cur <= d.
Proof.
  intros Hz Hk (Hl & _ & _ & H1). destruct H1 as (Ha & _); [lia|]. clear Hl.
  assert (0 <= k <= 5) as Hl by lia. clear Hk. revert Hz Ha. by_level k Hl.
Qed.

(** The level-0 slot of the current tick holds exactly the entries due now. *)
Lemma placed_drain cur d s :
  placed 0 cur d 0 s -> s = cur mod 64 -> d = cur.
Proof.
  intros (_ & Hs & H0 & _) E. specialize (H0 eq_refl). change (span 0) with 1 in Hs.
  rewrite Z.div_1_r in Hs. Z.div_mod_to_equations. lia.
Qed.

Lemma placed_keep cur d l s :
  placed 0 cur d l s -> (l = 0 -> s <> cur mod 64) -> placed 1 cur d l s.
Proof.
  intros (Hl & Hs & H0 & H1) Hne. split; [done|]. split; [done|]. split; [|done]. intros ->.
  specialize (H0 eq_refl). specialize (Hne eq_refl). change (span 0) with 1 in Hs.
  rewrite Z.div_1_r in Hs. subst s. destruct (Z.eq_dec d cur) as [->|]; [done|lia].
Qed.

(** With level 0 empty the tick may jump within its block of 64. *)
Lemma placed_jump cur cur' d l s :
  placed 1 cur d l s -> 1 <= l -> cur' / 64 = cur / 64 ->
  placed 1 cur' d l s.
Proof.
  intros (Hl & Hs & H0 & H1) Hl1 E. specialize (H1 Hl1).
  assert (cur' / span l = cur / span l) as E'.
  { unfold span. replace (l * 6) with (6 + (l - 1) * 6) by lia.
    rewrite Z.pow_add_r by lia. rewrite <- !Z.div_div by (apply Z.pow_nonzero || apply Z.pow_pos_nonneg; lia).
    change (2 ^ 6) with 64. by rewrite E. }
  split; [done|]. split; [done|]. split; [lia|]. intros _. by rewrite E'.
Qed.

(** *** Trailing zeros *)

Lemma trailing_zeros_span t l :
  0 < t -> 0 <= l -> l * 6 <=? trailing_zeros t = true <-> t mod span l = 0.
Proof.
  intros Ht Hl. destruct t as [|p|p]; try lia. cbn [trailing_zeros]. rewrite Z.leb_le.
  apply pos_trailing_zeros_spec. lia.
Qed.

(** *** Masks *)

Lemma lor_63 a : 0 <= a -> Z.lor a 63 = a / 64 * 64 + 63.
Proof.
  intros Ha. rewrite (Z.div_mod a 64) at 1 by lia. rewrite Z.mul_comm.
  replace (a / 64 * 64 + a mod 64) with (Z.lor (Z.shiftl (a / 64) 6) (a mod 64)).
  2: { apply lor_shiftl_add; [lia|]. apply Z.mod_pos_bound. lia. }
  rewrite <- Z.lor_assoc. change 63 with (2 ^ 6 - 1) at 1.
  assert (Z.lor (a mod 64) (2 ^ 6 - 1) = 63) as ->.
  { pose proof (Z.mod_pos_bound a 64 ltac:(lia)) as Hb. apply Z.bits_inj'. intros n Hn.
    rewrite Z.lor_spec. replace (2 ^ 6 - 1) with (Z.ones 6) by reflexivity.
    change 63 with (Z.ones 6). rewrite !Z.testbit_ones_nonneg by lia.
    destruct (Z.ltb_spec n 6); [apply orb_true_r|]. rewrite orb_false_r.
    replace (a mod 64) with ((a mod 64) mod 2 ^ 6) by (apply Z.mod_small; lia).
    apply Z.mod_pow2_bits_high. lia. }
  apply lor_shiftl_add; lia.
Qed.

(** *** The scan of [next_expiry] *)

(** Slots ahead of the current one on level [l]. *)
Definition slot_distance (cur l d : Z) : Z := (d / span l - cur / span l) mod 64.

Lemma slot_distance_bound cur l d : 0 <= slot_distance cur l d < 64.
Proof. apply Z.mod_pos_bound. lia. Qed.

Lemma slot_distance_rotate cur l d :
  (slot_distance cur l d + (cur / span l) mod 64) mod 64 = (d / span l) mod 64.
Proof. unfold slot_distance. rewrite <- Z.add_mod by lia. f_equal. lia. Qed.

Lemma slot_distance_0 cur d : 0 <= d - cur <= 63 -> slot_distance cur 0 d = d - cur.
Proof.
  intros H. unfold slot_distance. change (span 0) with 1. rewrite !Z.div_1_r. apply Z.mod_small. lia.
Qed.

(** The bit [next_expiry] finds: the least slot distance whose slot is
    populated. *)
Lemma scan_distance m cur l d :
  fits 64 m -> 0 <= l -> Z.testbit m ((d / span l) mod 64) = true ->
  let c := Z.land (Z.shiftr cur (l * 6)) 63 in
  let k := trailing_zeros (rotate_right m c) in
  0 <= k <= slot_distance cur l d /\ Z.testbit m ((k + (cur / span l) mod 64) mod 64) = true.
Proof.
  intros Hm Hl Hb c k. assert (Ec : c = (cur / span l) mod 64).
  { unfold c. by rewrite shiftr_span, land_63 by done. }
  pose proof (Z.mod_pos_bound (cur / span l) 64 ltac:(lia)) as Hc. rewrite <- Ec in Hc.
  pose proof (slot_distance_bound cur l d) as Hd.
  pose proof (slot_distance_rotate cur l d) as Hr.
  assert (Z.testbit (rotate_right m c) (slot_distance cur l d) = true) as Hbit.
  { rewrite testbit_rotate_right, Ec, Hr by (done || lia). done. }
  assert (0 < rotate_right m c) as Hpos.
  { assert (0 <= rotate_right m c) as Hge.
    { apply Z.lor_nonneg. split; [apply Z.shiftr_nonneg; apply Hm|apply Z.mod_pos_bound; lia]. }
    destruct (Z.eq_dec (rotate_right m c) 0) as [E|]; [|lia]. by rewrite E, Z.bits_0 in Hbit. }
  destruct (trailing_zeros_least _ _ Hpos (proj1 Hd) Hbit) as [Hk Ht]. split; [done|].
  rewrite <- Ec. rewrite <- testbit_rotate_right by (done || (unfold k; lia)). done.
Qed.

End Place.

(** * The timer wheel invariant

    Every slot of every level heads a doubly linked list threaded through the
    entries, the masks record which lists are non-empty, and every stored
    entry is in the list its [level] and [slot] fields name, except for the
    [loose] ones an operation has detached.  [chains] is the ghost content of
    the 6 x 64 slots. *)

From stdpp Require Import base tactics list numbers sets.

Local Open Scope Z_scope.

Module WheelInv.
Import Wheel Place.

(** [Option<NonZeroU32>] links denote slab indices shifted by one. *)
Definition lnk (o : option nat) : option Z := (fun i => Z.of_nat i + 1) <$> o.

Definition store_view := nat -> option (Z * TimerEntry).

(** [dseg f p c n]: the entries [c] are linked in both directions, between
    neighbours [p] and [n]. *)
Fixpoint dseg (f : store_view) (p : option nat) (c : list nat) (n : option nat) : Prop :=
  match c with
  | [] => True
  | i :: c' =>
      (exists g e, f i = Some (g, e) /\ prev e = lnk p /\
         next e = lnk (match c' with [] => n | j :: _ => Some j end)) /\
      dseg f (Some i) c' n
  end.

(** [sseg f c]: following [next] from the first of [c] visits [c]. *)
Fixpoint sseg (f : store_view) (c : list nat) : Prop :=
  match c with
  | [] => True
  | i :: c' => (exists g e, f i = Some (g, e) /\ next e = lnk (head c')) /\ sseg f c'
  end.

(** What an entry is about, and where it is filed. *)
Definition payload (c : Z * TimerEntry) : Z * (Z * Z) := (c.1, (deadline_tick c.2, task_ref c.2)).
Definition place (c : Z * TimerEntry) : Z * (Z * Z) * (Z * Z) := (payload c, (level c.2, slot c.2)).

Definition chains := Z -> Z -> list nat.
Definition chupd (ch : chains) (l s : Z) (c : list nat) : chains :=
  fun l' s' => if decide (l' = l /\ s' = s) then c else ch l' s'.

Definition level_ok (ch : chains) (l : Z) (lv : WheelLevel) : Prop :=
  length (slots lv) = 64%nat /\ fits 64 (populated_mask lv) /\
  forall s, 0 <= s < 64 ->
    slots lv !! Z.to_nat s = Some (lnk (head (ch l s))) /\
    (Z.testbit (populated_mask lv) s = false <-> ch l s = []).

Definition in_range (l s : Z) : Prop := 0 <= l < 6 /\ 0 <= s < 64.

Section inv.
Context {S : Type} `{!EntryStore TimerEntry S}.
Implicit Types (w : TimerWheel S).

Definition vw w : store_view := es_view (entries w).

Record inv w (ch : chains) (loose : list nat) : Prop := {
  inv_store : es_wf (entries w);
  inv_len : length (levels w) = 6%nat;
  inv_level l lv : 0 <= l < 6 -> levels w !! Z.to_nat l = Some lv -> level_ok ch l lv;
  inv_dseg l s : in_range l s -> dseg (vw w) None (ch l s) None;
  inv_nodup l s : in_range l s -> NoDup (ch l s);
  inv_chain l s i : in_range l s -> i ∈ ch l s ->
    i ∉ loose /\ exists g e, vw w i = Some (g, e) /\ level e = l /\ slot e = s;
  inv_all i g e : vw w i = Some (g, e) ->
    i ∈ loose \/ in_range (level e) (slot e) /\ i ∈ ch (level e) (slot e);
}.

(** Every filed entry sits where [P] puts its deadline. *)
Definition filed w (loose : list nat) (P : Z -> Z -> Z -> Prop) : Prop :=
  forall i g e, vw w i = Some (g, e) -> i ∉ loose -> P (deadline_tick e) (level e) (slot e).

(** The abstract state: what is registered under each index. *)
Definition pend w (i : nat) : option (Z * (Z * Z)) := payload <$> vw w i.

(** A wheel between operations. *)
Definition wheel_ok w (ch : chains) : Prop :=
  inv w ch [] /\ filed w [] (placed 1 (current_tick w)) /\ 0 <= current_tick w.
Definition wheel_wf w : Prop := exists ch, wheel_ok w ch.

End inv.

Section segments.
Implicit Types (f : store_view) (c : list nat).

Lemma dseg_ext f f' p c n :
  (forall i, i ∈ c -> f' i = f i) -> dseg f p c n -> dseg f' p c n.
Proof.
  revert p. induction c as [|i c IH]; intros p Hf; [done|]. intros [(g & e & H & ?) Hc]. split.
  - exists g, e. by rewrite Hf by set_solver.
  - apply IH; [set_solver|done].
Qed.

Lemma sseg_ext f f' c : (forall i, i ∈ c -> f' i = f i) -> sseg f c -> sseg f' c.
Proof.
  induction c as [|i c IH]; intros Hf; [done|]. intros [(g & e & H & ?) Hc]. split.
  - exists g, e. by rewrite Hf by set_solver.
  - apply IH; [set_solver|done].
Qed.

Lemma dseg_sseg f p c : dseg f p c None -> sseg f c.
Proof.
  revert p. induction c as [|i c IH]; intros p; [done|]. intros [(g & e & H & ? & Hn) Hc].
  split; [|by eapply IH]. exists g, e. split; [done|]. rewrite Hn. by destruct c.
Qed.

Lemma dseg_app f p a b n :
  dseg f p (a ++ b) n <->
  dseg f p a (match b with [] => n | j :: _ => Some j end) /\
  dseg f (match last a with Some x => Some x | None => p end) b n.
Proof.
  revert p. induction a as [|i a IH]; intros p; [cbn; naive_solver|].
  cbn [dseg app]. rewrite IH. destruct a as [|x a].
  - cbn. destruct b; naive_solver.
  - change (last (i :: x :: a)) with (last (x :: a)). cbn [app].
    destruct (last (x :: a)) eqn:E; [naive_solver|]. apply last_None in E. done.
Qed.

Lemma sseg_loose f c i : sseg f c -> i ∈ c -> is_Some (f i).
Proof.
  induction c as [|j c IH]; intros Hs; [set_solver|]. destruct Hs as [(g & e & H & _) Hs].
  intros [->|?]%elem_of_cons; [by rewrite H|auto].
Qed.

(** Re-linking the first and the last entry of a segment. *)
Lemma dseg_set_prev f f' p p' i c n g e :
  i ∉ c -> f i = Some (g, e) -> f' i = Some (g, set_prev (lnk p') e) ->
  (forall j, j <> i -> f' j = f j) -> dseg f p (i :: c) n -> dseg f' p' (i :: c) n.
Proof.
  intros Hi E E' Hf [(g' & e' & H & _ & Hn) Hc]. simplify_eq. split.
  - exists g, (set_prev (lnk p') e). cbn. by rewrite E'.
  - eapply dseg_ext; [|done]. intros j Hj. apply Hf. set_solver.
Qed.

Lemma dseg_set_next f f' p i c n n' g e :
  i ∉ c -> f i = Some (g, e) -> f' i = Some (g, set_next (lnk n') e) ->
  (forall j, j <> i -> f' j = f j) -> dseg f p (c ++ [i]) n -> dseg f' p (c ++ [i]) n'.
Proof.
  intros Hi E E' Hf [Hc [(g' & e' & H & Hp & _) _]]%dseg_app. simplify_eq. apply dseg_app. split.
  - eapply dseg_ext; [|done]. intros j Hj. apply Hf. set_solver.
  - split; [|done]. exists g, (set_next (lnk n') e). cbn. by rewrite E'.
Qed.

Lemma lnk_head_None c : lnk (head c) = None <-> c = [].
Proof. destruct c; cbn; naive_solver. Qed.

End segments.

Section slot_ops.
Context {S : Type} `{!EntryStore TimerEntry S}.
Implicit Types (es : S).

Lemma nz_to_slab_of_nat i : nz_to_slab (Z.of_nat i + 1) = Z.of_nat i.
Proof. unfold nz_to_slab. lia. Qed.

Lemma upd_place (f : store_view) i g e e' :
  f i = Some (g, e) -> place (g, e') = place (g, e) ->
  forall j, place <$> SlabSpec.upd f i (Some (g, e')) j = place <$> f j.
Proof. intros E Hp j. unfold SlabSpec.upd. case_decide; subst; [|done]. rewrite E. cbn. by f_equal. Qed.

Lemma upd_eq (f : store_view) i c : SlabSpec.upd f i c i = c.
Proof. unfold SlabSpec.upd. by case_decide. Qed.

Lemma upd_ne (f : store_view) i j c : j <> i -> SlabSpec.upd f i c j = f j.
Proof. unfold SlabSpec.upd. by case_decide. Qed.

Lemma push_front_spec es i c g e :
  es_wf es -> es_view es i = Some (g, e) -> NoDup (i :: c) -> dseg (es_view es) None c None ->
  exists es', push_front (lnk (head c)) (Z.of_nat i + 1) es = Ret (Some (Z.of_nat i + 1), es') /\
    es_wf es' /\ dseg (es_view es') None (i :: c) None /\
    (forall j, j <> i -> j ∉ c -> es_view es' j = es_view es j) /\
    (forall j, place <$> es_view es' j = place <$> es_view es j).
Proof.
  intros W E [Hi Hnd]%NoDup_cons Hc. unfold push_front. rewrite nz_to_slab_of_nat.
  pose proof (es_get_mut_by_index_spec es i W) as H. rewrite E in H.
  destruct H as (st & -> & Hst). cbn.
  set (e1 := set_next (lnk (head c)) (set_prev None e)).
  destruct (Hst e1) as (W1 & _ & V1). set (es1 := st e1) in *. clearbody es1.
  destruct c as [|j c]; cbn.
  - exists es1. split_and!; [done|done| |done|..].
    + exists g, e1. rewrite V1, upd_eq. done.
    + intros j Hj _. by rewrite V1, upd_ne.
    + intros j. rewrite V1. by apply (upd_place _ _ _ e).
  - destruct Hc as [(gj & ej & Ej & Hp & Hn) Hc].
    assert (j <> i) as Hji by set_solver. apply NoDup_cons in Hnd as [Hjc Hnd].
    rewrite nz_to_slab_of_nat.
    destruct (modify_by_index_spec es1 j gj ej (set_prev (Some (Z.of_nat i + 1))) W1)
      as (es2 & -> & W2 & _ & V2); [by rewrite V1, upd_ne|].
    assert (es_view es2 i = Some (g, e1)) as V2i by (by rewrite V2, upd_ne, V1, upd_eq).
    cbn. exists es2. split_and!; [done|done|..].
    + exists g, e1. by rewrite V2i.
    + exists gj, (set_prev (Some (Z.of_nat i + 1)) ej). by rewrite V2, upd_eq.
    + eapply dseg_ext; [|exact Hc]. intros k Hk. rewrite V2, upd_ne, V1, upd_ne by set_solver. done.
    + intros k Hk Hkc. rewrite V2, upd_ne, V1, upd_ne by set_solver. done.
    + intros k. rewrite V2, (upd_place _ _ _ ej) by (rewrite ?V1, ?upd_ne by done; done).
      rewrite V1. by apply (upd_place _ _ _ e).
Qed.

(** Unlinking, first half: the predecessor (or the head) skips to [b]. *)
Lemma unlink_prev es a i b :
  es_wf es -> NoDup (a ++ i :: b) -> dseg (es_view es) None a (Some i) ->
  exists es', (match lnk (last a) with
       | Some prev_nz => es1 ← modify_by_index es (nz_to_slab prev_nz) (set_next (lnk (head b)));
                         Ret (lnk (head (a ++ i :: b)), es1)
       | None => Ret (lnk (head b), es)
       end) = Ret (lnk (head (a ++ b)), es') /\ es_wf es' /\
    dseg (es_view es') None a (head b) /\
    (forall j, j ∉ a -> es_view es' j = es_view es j) /\
    (forall j, place <$> es_view es' j = place <$> es_view es j).
Proof.
  intros W Hnd Hd. destruct a as [|x a _] using rev_ind; [cbn; eauto 10|].
  rewrite last_snoc. cbn. rewrite nz_to_slab_of_nat.
  pose proof Hd as [_ [(g & e & E & _) _]]%dseg_app.
  destruct (modify_by_index_spec es x g e (set_next (lnk (head b))) W E)
    as (es' & -> & W' & _ & V').
  assert (x ∉ a) as Hx. { apply NoDup_app in Hnd as (Hnd & _). apply NoDup_app in Hnd. set_solver. }
  exists es'. split_and!; [by destruct a|done|..].
  - eapply dseg_set_next; [done|exact E|by rewrite V', upd_eq| |exact Hd].
    intros j Hj. by rewrite V', upd_ne.
  - intros j Hj. rewrite V', upd_ne; [done|set_solver].
  - intros j. rewrite V'. by apply (upd_place _ _ _ e).
Qed.

(** Second half: the successor points back past the removed entry. *)
Lemma unlink_next es p i b :
  es_wf es -> NoDup (i :: b) -> dseg (es_view es) (Some i) b None ->
  exists es', (match lnk (head b) with
       | Some next_nz => modify_by_index es (nz_to_slab next_nz) (set_prev (lnk p))
       | None => Ret es
       end) = Ret es' /\ es_wf es' /\
    dseg (es_view es') p b None /\
    (forall j, j ∉ b -> es_view es' j = es_view es j) /\
    (forall j, place <$> es_view es' j = place <$> es_view es j).
Proof.
  intros W Hnd Hd. destruct b as [|y b]; [cbn; eauto 10|].
  cbn. rewrite nz_to_slab_of_nat. pose proof Hd as [(g & e & E & _) _].
  destruct (modify_by_index_spec es y g e (set_prev (lnk p)) W E) as (es' & -> & W' & _ & V').
  apply NoDup_cons in Hnd as [_ [Hy _]%NoDup_cons].
  exists es'. split; [done|]. split; [done|]. split; [|split].
  - eapply dseg_set_prev; [done|exact E|by rewrite V', upd_eq| |exact Hd].
    intros j Hj. by rewrite V', upd_ne.
  - intros j Hj. rewrite V', upd_ne; [done|set_solver].
  - intros j. rewrite V'. by apply (upd_place _ _ _ e).
Qed.

Lemma is_none_lnk c : is_none (lnk (head c)) = bool_decide (c = []).
Proof. destruct c; done. Qed.

Lemma slot_remove_spec es a i b :
  es_wf es -> NoDup (a ++ i :: b) -> dseg (es_view es) None (a ++ i :: b) None ->
  exists es', slot_remove (lnk (head (a ++ i :: b))) (Z.of_nat i + 1) es
      = Ret (bool_decide (a ++ b = []), lnk (head (a ++ b)), es') /\
    es_wf es' /\ dseg (es_view es') None (a ++ b) None /\
    (forall j, j ∉ a ++ i :: b -> es_view es' j = es_view es j) /\
    (forall j, place <$> es_view es' j = place <$> es_view es j).
Proof.
  intros W Hnd Hd. pose proof Hd as [Ha [(g & e & E & Hp & Hn) Hb]]%dseg_app.
  unfold slot_remove. rewrite nz_to_slab_of_nat, es_get_by_index_spec, E by done. cbn.
  replace (prev e) with (lnk (last a)) by (rewrite Hp; by destruct (last a)).
  replace (next e) with (lnk (head b)) by (rewrite Hn; by destruct b).
  destruct (unlink_prev es a i b W Hnd Ha) as (es1 & -> & W1 & Ha1 & F1 & P1). cbn.
  pose proof Hnd as (Hnda & Hdisj & Hndb)%NoDup_app.
  destruct (unlink_next es1 (last a) i b W1 Hndb) as (es2 & -> & W2 & Hb2 & F2 & P2).
  { eapply dseg_ext; [|exact Hb]. intros j Hj. apply F1. set_solver. }
  cbn. apply NoDup_cons in Hndb as [Hib _].
  assert (es_view es2 i = Some (g, e)) as E2 by (rewrite F2, F1; set_solver).
  destruct (modify_by_index_spec es2 i g e (fun e => set_next None (set_prev None e)) W2 E2)
    as (es3 & -> & W3 & _ & V3). cbn.
  exists es3. rewrite is_none_lnk. split_and!; [done|done|..].
  - apply dseg_app. split.
    + apply (dseg_ext (es_view es1)); [|by destruct b].
      intros j Hj. rewrite V3, upd_ne, F2 by set_solver. done.
    + apply (dseg_ext (es_view es2)); [|by destruct (last a)].
      intros j Hj. rewrite V3, upd_ne by set_solver. done.
  - intros j Hj. rewrite V3, upd_ne, F2, F1 by set_solver. done.
  - intros j. rewrite V3, (upd_place _ _ _ e) by done. by rewrite P2.
Qed.

End slot_ops.
End WheelInv.
