(* ===== verification/TimerOps.v ===== *)
(** * The wheel operations and the invariant

    Specifications of [insert_at], [remove_from_slot], [register] and [cancel]
    against the invariant: they never panic, keep the lists and masks
    consistent and change the abstract content exactly as they should. *)

From S2P Require Import Prelude Words GenKey SlabAlloc SlabFacts SlabStore TimerWheel TimerArith.
From stdpp Require Import base tactics list numbers sets.

Local Open Scope Z_scope.

Module WheelOps.
Import Wheel Place WheelInv.

Section ops.
Context {S : Type} `{!EntryStore TimerEntry S}.
Implicit Types (w : TimerWheel S) (ch : chains) (es : S).

Lemma chupd_eq ch l s c : chupd ch l s c l s = c.
Proof. unfold chupd. case_decide; naive_solver. Qed.

Lemma chupd_ne ch l s c l' s' : ~ (l' = l /\ s' = s) -> chupd ch l s c l' s' = ch l' s'.
Proof. unfold chupd. by case_decide. Qed.

Lemma place_Some (o : option (Z * TimerEntry)) p l s :
  place <$> o = Some (p, (l, s)) <->
  exists g e, o = Some (g, e) /\ payload (g, e) = p /\ level e = l /\ slot e = s.
Proof.
  destruct o as [[g e]|]; cbn; [|naive_solver]. unfold place; cbn. split; [|naive_solver].
  intros [= <- <- <-]. by exists g, e.
Qed.

(** Two entries with the same place. *)
Lemma place_same (o : option (Z * TimerEntry)) g e :
  place <$> o = place <$> Some (g, e) ->
  exists e', o = Some (g, e') /\ deadline_tick e' = deadline_tick e /\
    level e' = level e /\ slot e' = slot e.
Proof. intros (g' & e' & -> & [= <- ??] & ? & ?)%place_Some. by exists e'. Qed.

(** Lists at different places share no entry. *)
Lemma inv_disjoint w ch loose l s l' s' i :
  inv w ch loose -> in_range l s -> in_range l' s' ->
  i ∈ ch l s -> i ∈ ch l' s' -> l' = l /\ s' = s.
Proof.
  intros I R R' (_ & g & e & E & ? & ?)%(inv_chain _ _ _ I) (_ & g' & e' & E' & ? & ?)%(inv_chain _ _ _ I);
    [|done..]. naive_solver.
Qed.

Lemma inv_level_at w ch loose l :
  inv w ch loose -> 0 <= l < 6 ->
  exists lv, levels w !! Z.to_nat l = Some lv /\ level_at w l = Ret lv /\ level_ok ch l lv.
Proof.
  intros I Hl. destruct (lookup_lt_is_Some_2 (levels w) (Z.to_nat l)) as [lv E].
  { rewrite (inv_len _ _ _ I). lia. }
  exists lv. unfold level_at. rewrite E. split_and!; try done. by eapply inv_level.
Qed.

Lemma level_head ch l lv s :
  level_ok ch l lv -> 0 <= s < 64 -> head_at lv s = Ret (lnk (head (ch l s))).
Proof. intros (_ & _ & H) Hs. unfold head_at. by rewrite (proj1 (H s Hs)). Qed.

Lemma level_ok_update ch l lv s c m :
  level_ok ch l lv -> 0 <= s < 64 -> fits 64 m ->
  (forall j, 0 <= j < 64 ->
     Z.testbit m j = if j =? s then bool_decide (c <> []) else Z.testbit (populated_mask lv) j) ->
  level_ok (chupd ch l s c) l (set_head lv s (lnk (head c)) m).
Proof.
  intros (Hlen & Hf & H) Hs Hm Hbits. split_and!; [by cbn; rewrite length_insert|done|].
  intros j Hj. cbn [set_head slots populated_mask]. rewrite (Hbits j Hj).
  destruct (Z.eqb_spec j s) as [->|Hne].
  - rewrite chupd_eq, list_lookup_insert_eq by (rewrite Hlen; lia). split; [done|].
    case_bool_decide; destruct c; naive_solver.
  - rewrite chupd_ne, list_lookup_insert_ne by lia. by apply H.
Qed.

Lemma level_ok_other ch l lv l' s c :
  level_ok ch l' lv -> l' <> l -> level_ok (chupd ch l s c) l' lv.
Proof.
  intros (Hlen & Hf & H) Hne. split_and!; [done..|]. intros j Hj. rewrite chupd_ne by lia. by apply H.
Qed.

(** One list is replaced: the shared step of every operation. *)
Lemma inv_update w ch loose l s c' loose' lv m es' :
  inv w ch loose -> in_range l s -> levels w !! Z.to_nat l = Some lv -> fits 64 m ->
  (forall j, 0 <= j < 64 ->
     Z.testbit m j = if j =? s then bool_decide (c' <> []) else Z.testbit (populated_mask lv) j) ->
  es_wf es' -> dseg (es_view es') None c' None -> NoDup c' ->
  (forall j, j ∉ ch l s -> j ∉ loose -> es_view es' j = vw w j) ->
  (forall i, i ∈ c' -> i ∉ loose' /\
     exists g e, es_view es' i = Some (g, e) /\ level e = l /\ slot e = s) ->
  (forall i, i ∈ loose' -> i ∈ loose \/ i ∈ ch l s) ->
  (forall i g e, es_view es' i = Some (g, e) -> i ∈ ch l s \/ i ∈ loose -> i ∈ loose' \/ i ∈ c') ->
  inv (mkWheel (current_tick w) (set_level w l (set_head lv s (lnk (head c')) m)) es')
      (chupd ch l s c') loose'.
Proof.
  intros I R Hlv Hm Hbits W' Hd Hnd Hframe Hc' Hl' Hall. pose proof R as [Hl Hs].
  assert (Hother : forall l' s' i, in_range l' s' -> ~ (l' = l /\ s' = s) -> i ∈ ch l' s' ->
            i ∉ ch l s /\ i ∉ loose /\ es_view es' i = vw w i).
  { intros l' s' i R' Hne Hi. assert (i ∉ ch l s) by (intros Hi'; apply Hne; by eapply inv_disjoint).
    destruct (inv_chain _ _ _ I l' s' i R' Hi) as [? _]. auto. }
  constructor; unfold vw; cbn [entries levels set_level].
  - done.
  - unfold set_level. rewrite length_insert. apply I.
  - intros l' lv' Hl'r E. unfold set_level in E. destruct (Z.eq_dec l' l) as [->|Hne].
    + rewrite list_lookup_insert_eq in E by (rewrite (inv_len _ _ _ I); lia). simplify_eq.
      apply level_ok_update; [by eapply inv_level|done..].
    + rewrite list_lookup_insert_ne in E by lia. apply level_ok_other; [by eapply inv_level|done].
  - intros l' s' R'. destruct (decide (l' = l /\ s' = s)) as [[-> ->]|Hne].
    + by rewrite chupd_eq.
    + rewrite chupd_ne by done. eapply dseg_ext; [|by apply (inv_dseg _ _ _ I)].
      intros i Hi. by eapply Hother.
  - intros l' s' R'. destruct (decide (l' = l /\ s' = s)) as [[-> ->]|Hne].
    + by rewrite chupd_eq.
    + rewrite chupd_ne by done. by apply (inv_nodup _ _ _ I).
  - intros l' s' i R' Hi. destruct (decide (l' = l /\ s' = s)) as [[-> ->]|Hne].
    + rewrite chupd_eq in Hi. by apply Hc'.
    + rewrite chupd_ne in Hi by done. destruct (Hother l' s' i R' Hne Hi) as (? & ? & ->).
      destruct (inv_chain _ _ _ I l' s' i R' Hi) as [_ ?]. split; [|done]. intros []%Hl'; done.
  - intros i g e E. destruct (decide (i ∈ ch l s \/ i ∈ loose)) as [Hin|Hin].
    + destruct (Hall i g e E Hin) as [?|Hi]; [by left|]. right.
      destruct (Hc' i Hi) as (_ & g' & e' & E' & <- & <-). simplify_eq. by rewrite chupd_eq.
    + rewrite Hframe in E by naive_solver.
      destruct (inv_all _ _ _ I i g e E) as [?|[R' Hi]]; [naive_solver|]. right. split; [done|].
      destruct (decide (level e = l /\ slot e = s)) as [[El Es]|Hne].
      * rewrite El, Es in Hi. naive_solver.
      * by rewrite chupd_ne.
Qed.

Lemma bits_set c m s : 0 <= s < 64 -> c <> [] ->
  forall j, 0 <= j < 64 -> Z.testbit (Z.lor m (Z.shiftl 1 s)) j
    = if j =? s then bool_decide (c <> ([] : list nat)) else Z.testbit m j.
Proof.
  intros Hs Hc j Hj. rewrite testbit_set by lia. destruct (j =? s);
    [rewrite bool_decide_eq_true_2 by done; apply orb_true_r|apply orb_false_r].
Qed.

Lemma bits_clear m s : 0 <= s < 64 ->
  forall j, 0 <= j < 64 -> Z.testbit (Z.land m (lnot 64 (Z.shiftl 1 s))) j
    = if j =? s then bool_decide (([] : list nat) <> []) else Z.testbit m j.
Proof.
  intros Hs j Hj. rewrite testbit_clear by lia. destruct (j =? s); [|apply andb_true_r].
  rewrite bool_decide_eq_false_2 by naive_solver. apply andb_false_r.
Qed.

Lemma insert_at_spec w ch loose i l s g e :
  inv w ch (i :: loose) -> i ∉ loose -> in_range l s -> vw w i = Some (g, e) ->
  exists w', insert_at w (Z.of_nat i + 1) l s = Ret w' /\
    current_tick w' = current_tick w /\ inv w' (chupd ch l s (i :: ch l s)) loose /\
    (forall j, j <> i -> j ∉ ch l s -> vw w' j = vw w j) /\
    (forall j, j <> i -> place <$> vw w' j = place <$> vw w j) /\
    place <$> vw w' i = Some (payload (g, e), (l, s)).
Proof.
  intros I Hil R E. pose proof R as [Hl Hs]. unfold insert_at. rewrite nz_to_slab_of_nat.
  assert (Hni : i ∉ ch l s).
  { intros Hi. destruct (inv_chain _ _ _ I l s i R Hi) as [Hn _]. apply Hn. set_solver. }
  destruct (modify_by_index_spec (entries w) i g e (set_place l s) (inv_store _ _ _ I) E)
    as (es1 & -> & W1 & _ & V1). cbn.
  destruct (inv_level_at w ch _ l I Hl) as (lv & Hlv & -> & Hok). cbn.
  rewrite (level_head _ _ _ _ Hok Hs). cbn.
  assert (Hd1 : dseg (es_view es1) None (ch l s) None).
  { eapply dseg_ext; [|by apply (inv_dseg _ _ _ I)]. intros j Hj. rewrite V1, upd_ne; set_solver. }
  assert (Hnd : NoDup (i :: ch l s)) by (apply NoDup_cons; split; [done|by apply (inv_nodup _ _ _ I)]).
  destruct (push_front_spec es1 i (ch l s) g (set_place l s e)) as (es2 & -> & W2 & Hd2 & F2 & P2);
    [done|by rewrite V1, upd_eq|done|done|]. cbn.
  assert (Pi : place <$> es_view es2 i = Some (payload (g, e), (l, s)))
    by (rewrite P2, V1, upd_eq; done).
  assert (Pj : forall j, j <> i -> place <$> es_view es2 j = place <$> vw w j)
    by (intros j Hj; rewrite P2, V1, upd_ne; done).
  eexists. split_and!; [done|done| |unfold vw; cbn..|exact Pi].
  - apply (inv_update w ch (i :: loose) l s (i :: ch l s) loose); try done.
    + apply fits_set; [apply Hok|lia].
    + by apply bits_set.
    + intros j Hj Hj'. rewrite F2, V1, upd_ne by set_solver. done.
    + intros j [->|Hj]%elem_of_cons.
      * split; [done|]. apply place_Some in Pi as (g' & e' & ? & _ & ?). eauto.
      * destruct (inv_chain _ _ _ I l s j R Hj) as (Hn & g' & e' & E' & <- & <-).
        split; [set_solver|]. specialize (Pj j ltac:(set_solver)). rewrite E' in Pj.
        apply place_same in Pj as (e2 & ? & _ & ?). eauto.
    + set_solver.
    + set_solver.
  - intros j Hj Hjc. rewrite F2, V1, upd_ne by set_solver. done.
  - done.
Qed.

Lemma remove_from_slot_spec w ch i g e :
  inv w ch [] -> vw w i = Some (g, e) ->
  exists w' ch', remove_from_slot w (Z.of_nat i + 1) = Ret w' /\
    current_tick w' = current_tick w /\ inv w' ch' [i] /\
    (forall j, place <$> vw w' j = place <$> vw w j).
Proof.
  intros I E. destruct (inv_all _ _ _ I i g e E) as [H|[R Hi]]; [set_solver|].
  set (l := level e) in *. set (s := slot e) in *. pose proof R as [Hl Hs].
  unfold remove_from_slot. rewrite nz_to_slab_of_nat, es_get_by_index_spec by apply I.
  unfold vw in E. rewrite E. cbn [snd fmap option_fmap option_map].
  change (mbind ?f (Ret ?a)) with (f a). cbv beta iota. fold l s.
  destruct (inv_level_at w ch _ l I Hl) as (lv & Hlv & -> & Hok). cbn.
  rewrite (level_head _ _ _ _ Hok Hs). cbn.
  apply list_elem_of_split in Hi as (a & b & Hab).
  pose proof (inv_nodup _ _ _ I l s R) as Hnd. pose proof (inv_dseg _ _ _ I l s R) as Hd.
  rewrite Hab in *.
  destruct (slot_remove_spec (entries w) a i b) as (es' & -> & W' & Hd' & F' & P');
    [apply I|done|done|]. cbn.
  pose proof Hnd as (Hnda & Hdis & [Hib Hndb]%NoDup_cons)%NoDup_app.
  eexists _, (chupd ch l s (a ++ b)). split_and!; [done|done| |done].
  apply (inv_update w ch [] l s (a ++ b) [i]); try done.
  - case_bool_decide; [apply fits_land|]; apply Hok.
  - case_bool_decide as Hc; [rewrite Hc; by apply bits_clear|].
    intros j Hj. destruct (Z.eqb_spec j s) as [->|]; [|done].
    rewrite bool_decide_eq_true_2 by done. destruct Hok as (_ & _ & H).
    apply not_false_is_true. rewrite (proj2 (H s Hs)). rewrite Hab. by destruct a.
  - apply NoDup_app. split_and!; [done| |done]. set_solver.
  - intros j Hj _. apply F'. by rewrite <- Hab.
  - intros j Hj. split; [set_solver|].
    destruct (inv_chain _ _ _ I l s j R) as (_ & g' & e' & E' & Hlv' & Hs'); [rewrite Hab; set_solver|].
    specialize (P' j). unfold vw in E'. rewrite E' in P'.
    apply place_same in P' as (e2 & ? & _ & ? & ?). exists g', e2. split_and!; congruence.
  - rewrite Hab. set_solver.
  - rewrite Hab. set_solver.
Qed.

Lemma place_payload (o o' : option (Z * TimerEntry)) :
  place <$> o = place <$> o' -> payload <$> o = payload <$> o'.
Proof. intros H. apply (f_equal (fmap (M:=option) fst)) in H. destruct o, o'; done. Qed.

(** An entry outside every list appears in or disappears from the store. *)
Lemma inv_swap w ch loose loose' i c t es' :
  inv w ch loose -> i ∈ loose \/ vw w i = None -> es_wf es' ->
  (forall j, es_view es' j = SlabSpec.upd (vw w) i c j) ->
  (forall j, j <> i -> j ∈ loose' <-> j ∈ loose) -> (c <> None -> i ∈ loose') ->
  inv (mkWheel t (levels w) es') ch loose'.
Proof.
  intros I Hi W' V Hl Hc.
  assert (Hni : forall l s, in_range l s -> i ∉ ch l s).
  { intros l s R (? & g & e & E & _)%(inv_chain _ _ _ I); [|done]. destruct Hi; congruence. }
  assert (Hne : forall l s j, in_range l s -> j ∈ ch l s -> j <> i) by (intros ??? ?? ->; naive_solver).
  constructor; unfold vw; cbn [entries levels]; try apply I; try done.
  - intros l s R. eapply dseg_ext; [|by apply (inv_dseg _ _ _ I)].
    intros j Hj. rewrite V, upd_ne; [done|by eapply Hne].
  - intros l s j R Hj. destruct (inv_chain _ _ _ I l s j R Hj) as (Hn & H).
    pose proof (Hne _ _ _ R Hj). rewrite V, upd_ne by done. by rewrite Hl.
  - intros j g e. rewrite V. destruct (decide (j = i)) as [->|Hj].
    + rewrite upd_eq. intros ->. left. by apply Hc.
    + rewrite upd_ne, Hl by done. apply (inv_all _ _ _ I).
Qed.

Lemma placed_range lo cur d l s : placed lo cur d l s -> in_range l s.
Proof. intros (Hl & -> & _). split; [lia|]. apply Z.mod_pos_bound. lia. Qed.

Lemma slab_to_nz_index es i c :
  es_wf es -> es_view es i = Some c -> slab_to_nz (Z.of_nat i) = Ret (Z.of_nat i + 1).
Proof.
  intros W E. pose proof (es_view_range es i c W E). pose proof (es_cap_bound es W).
  apply add_or_panic_Ret. lia.
Qed.

(** Filing one loose entry where [P] wants it. *)
Lemma filed_insert w w' loose i l s g e P :
  filed w (i :: loose) P -> vw w i = Some (g, e) -> P (deadline_tick e) l s ->
  (forall j, j <> i -> place <$> vw w' j = place <$> vw w j) ->
  place <$> vw w' i = Some (payload (g, e), (l, s)) -> filed w' loose P.
Proof.
  intros F E HP Pj Pi j g' e' E' Hj. destruct (decide (j = i)) as [->|Hne].
  - rewrite E' in Pi. injection Pi as _ -> _ -> ->. done.
  - specialize (Pj j Hne). rewrite E' in Pj. symmetry in Pj. apply place_same in Pj as (e2 & E2 & <- & <- & <-).
    apply (F j g' e2 E2). set_solver.
Qed.

Lemma register_spec w ch task d :
  wheel_ok w ch -> current_tick w < d ->
  match register w task d with
  | Ret (Ok key, w') =>
      wheel_wf w' /\ current_tick w' = current_tick w /\ SlabSpec.live_key key /\
      pend w (SlabSpec.key_index key) = None /\
      forall j, pend w' j = SlabSpec.upd (pend w) (SlabSpec.key_index key)
                              (Some (SlabKey.generation key, (d, task))) j
  | Ret (Err _, w') => w' = w
  | _ => False
  end.
Proof.
  intros (I & F & Ht) Hd. unfold register.
  pose proof (es_insert_spec (entries w) (mkEntry d task None None 0 0) (inv_store _ _ _ I)) as H.
  destruct (es_insert (entries w) _) as [[[key|err] es]| | |]; try done; [|cbn; subst; by destruct w].
  destruct H as (W & Hk & _ & Hfree & V). cbn.
  rewrite <- SlabSpec.key_index_Z. set (i := SlabSpec.key_index key) in *.
  assert (Ei : es_view es i = Some (SlabKey.generation key, mkEntry d task None None 0 0))
    by (rewrite V, upd_eq; done).
  rewrite (slab_to_nz_index _ _ _ W Ei). cbn.
  destruct (position d (current_tick w)) as [l s] eqn:Hpos.
  pose proof (position_placed _ _ _ _ Hd Hpos) as Hpl. set (w1 := mkWheel _ _ es).
  assert (I1 : inv w1 ch [i]) by (eapply inv_swap; [exact I|by right|done|exact V|set_solver..]).
  destruct (insert_at_spec w1 ch [] i l s (SlabKey.generation key) (mkEntry d task None None 0 0) I1) as (w' & -> & Hcur & I' & _ & Pj & Pi);
    [set_solver|by eapply placed_range|exact Ei|].
  cbn. fold i. split_and!; try done.
  - exists (chupd ch l s (i :: ch l s)). split_and!; [done| |by rewrite Hcur]. rewrite Hcur.
    eapply (filed_insert w1); [|exact Ei|exact Hpl|exact Pj|exact Pi].
    intros j g e E Hj. unfold vw in E; cbn in E. rewrite V, upd_ne in E by set_solver.
    eapply F; [done|set_solver].
  - unfold pend, vw. by rewrite Hfree.
  - intros j. unfold pend. destruct (decide (j = i)) as [->|Hne].
    + apply place_Some in Pi as (g' & e' & -> & Hp & _). unfold SlabSpec.upd. case_decide; [|done].
      cbn. by rewrite Hp.
    + rewrite (place_payload _ _ (Pj j Hne)). unfold vw, w1; cbn. rewrite V, upd_ne by done.
      unfold SlabSpec.upd. by case_decide.
Qed.

Lemma cancel_spec w ch key :
  wheel_ok w ch -> SlabSpec.live_key key ->
  match pend w (SlabSpec.key_index key) with
  | Some (g, _) =>
      if g =? SlabKey.generation key then
        exists w', cancel w key = Ret (true, w') /\ wheel_wf w' /\
          current_tick w' = current_tick w /\
          forall j, pend w' j = SlabSpec.upd (pend w) (SlabSpec.key_index key) None j
      else cancel w key = Ret (false, w)
  | None => cancel w key = Ret (false, w)
  end.
Proof.
  intros (I & F & Ht) Hk. unfold cancel. rewrite es_get_spec by (done || apply I).
  unfold pend, vw. set (i := SlabSpec.key_index key).
  destruct (es_view (entries w) i) as [[g e]|] eqn:E; [|done]. cbn.
  destruct (Z.eqb_spec g (SlabKey.generation key)) as [Hg|]; [|done]. cbn.
  rewrite <- SlabSpec.key_index_Z. fold i.
  rewrite (slab_to_nz_index _ _ _ (inv_store _ _ _ I) E). cbn.
  destruct (remove_from_slot_spec w ch i g e I E) as (w1 & ch1 & -> & Hcur & I1 & P1). cbn.
  pose proof (P1 i) as Pi. unfold vw in Pi. rewrite E in Pi. apply place_same in Pi as (e1 & E1 & _).
  destruct (es_remove_spec (entries w1) key e1) as (es & -> & W & _ & V);
    [apply I1|done|fold i; by rewrite E1, Hg|]. cbn.
  eexists. split_and!; [done|exists ch1; split_and!|done|].
  - apply (inv_swap w1 ch1 [i] [] i None); [done|left; set_solver|done|exact V|set_solver|done].
  - intros j g' e' E' _. unfold vw in E'; cbn in *. rewrite V in E'. fold i in E'.
    destruct (decide (j = i)) as [->|Hne]; [by rewrite upd_eq in E'|]. rewrite upd_ne in E' by done.
    specialize (P1 j). unfold vw in P1. rewrite E' in P1. symmetry in P1.
    apply place_same in P1 as (e2 & E2 & <- & <- & <-).
    rewrite Hcur. eapply F; [exact E2|set_solver].
  - cbn. lia.
  - intros j. cbn. rewrite V. fold i. unfold SlabSpec.upd. case_decide; [done|].
    apply place_payload, P1.
Qed.

End ops.
End WheelOps.

(** * Advancing the wheel

    The cascades of one tick, the expiry iterator and the loop that drains it:
    termination with enough fuel, and what is fired when. *)

From stdpp Require Import base tactics list numbers sets sorting.

Local Open Scope Z_scope.

Module WheelAdvance.
Import Wheel Place WheelInv WheelOps.

Section advance.
Context {S : Type} `{!EntryStore TimerEntry S}.
Implicit Types (w : TimerWheel S) (ch : chains).

(** All occupied indices are below [n]. *)
Definition bounded (n : nat) w : Prop := forall i c, pend w i = Some c -> (i < n)%nat.

Lemma pend_vw w i c : vw w i = Some c -> pend w i = Some (payload c).
Proof. unfold pend. by intros ->. Qed.

Lemma chain_length w ch loose n l s :
  inv w ch loose -> bounded n w -> in_range l s -> (length (ch l s) <= n)%nat.
Proof.
  intros I B R. rewrite <- (length_seq n 0). apply NoDup_incl_length.
  - apply NoDup_ListNoDup. by apply (inv_nodup _ _ _ I).
  - intros i Hi. apply list_elem_of_In in Hi. apply list_elem_of_In, elem_of_seq.
    destruct (inv_chain _ _ _ I l s i R Hi) as (_ & g & e & E & _).
    apply pend_vw, B in E. lia.
Qed.

Lemma mid_range k cur d l s : mid k cur d l s -> in_range l s.
Proof. intros (Hl & -> & _). split; [lia|]. apply Z.mod_pos_bound. lia. Qed.

(** Detaching a whole list. *)
Lemma inv_detach w ch l s lv m :
  inv w ch [] -> in_range l s -> levels w !! Z.to_nat l = Some lv -> fits 64 m ->
  (forall j, 0 <= j < 64 ->
     Z.testbit m j = if j =? s then bool_decide (([] : list nat) <> []) else Z.testbit (populated_mask lv) j) ->
  inv (mkWheel (current_tick w) (set_level w l (set_head lv s None m)) (entries w))
      (chupd ch l s []) (ch l s).
Proof.
  intros I R Hlv Hm Hb. change None with (lnk (head [])).
  eapply inv_update; try done; [apply I|apply NoDup_nil_2|set_solver..].
Qed.

Lemma cascade_loop_spec fuel k w ch out :
  inv w ch out -> NoDup out -> sseg (vw w) out -> (length out <= fuel)%nat -> 1 <= k ->
  filed w out (mid k (current_tick w)) ->
  (forall i g e, i ∈ out -> vw w i = Some (g, e) -> current_tick w <= deadline_tick e) ->
  exists w' ch', cascade_loop fuel w (lnk (head out)) = Ret w' /\
    current_tick w' = current_tick w /\ inv w' ch' [] /\
    filed w' [] (mid k (current_tick w)) /\ (forall j, pend w' j = pend w j).
Proof.
  revert w ch out. induction fuel as [|fuel IH]; intros w ch out I Hnd Hs Hf Hk F Hd.
  { destruct out; [|cbn in Hf; lia]. cbn. eauto 10. }
  destruct out as [|i out]; [cbn; eauto 10|]. cbn [head lnk fmap option_fmap option_map cascade_loop].
  destruct Hs as [(g & e & E & Hn) Hs]. apply NoDup_cons in Hnd as [Hi Hnd].
  rewrite nz_to_slab_of_nat, es_get_by_index_spec by apply I. unfold vw in E. rewrite E. cbn.
  set (reset := fun e => set_next None (set_prev None e)).
  destruct (modify_by_index_spec (entries w) i g e reset (inv_store _ _ _ I) E)
    as (es1 & -> & W1 & _ & V1). cbn.
  destruct (position (deadline_tick e) (current_tick w)) as [l s] eqn:Hpos.
  assert (Hm : mid k (current_tick w) (deadline_tick e) l s).
  { apply position_mid; [done| |done]. eapply Hd; [|exact E]. set_solver. }
  set (w1 := mkWheel _ _ es1).
  assert (I1 : inv w1 ch (i :: out)).
  { apply (inv_swap w ch (i :: out) (i :: out) i (Some (g, reset e))); [done|left; set_solver|done|exact V1|done|set_solver]. }
  destruct (insert_at_spec w1 ch out i l s g (reset e) I1 Hi) as (w2 & -> & Hcur & I2 & F2 & Pj & Pi);
    [by eapply mid_range|unfold vw, w1; cbn; by rewrite V1, upd_eq|].
  cbn. rewrite Hn.
  assert (Hrest : forall j, j ∈ out -> vw w2 j = vw w j).
  { intros j Hj. rewrite F2; [unfold vw, w1; cbn; rewrite V1, upd_ne; [done|set_solver]|set_solver|].
    intros Hjc. destruct (inv_chain _ _ _ I1 l s j) as [Hn' _]; [by eapply mid_range|done|set_solver]. }
  destruct (IH w2 _ out I2 Hnd) as (w' & ch' & -> & Hcur' & I' & F' & P'); [|cbn in Hf; lia|done|..].
  - eapply sseg_ext; [exact Hrest|done].
  - rewrite Hcur. cbn. eapply (filed_insert w1); [|unfold vw, w1; cbn; by rewrite V1, upd_eq|exact Hm|exact Pj|exact Pi].
    intros j g' e' E' Hj. unfold vw, w1 in E'; cbn in E'. rewrite V1, upd_ne in E' by set_solver.
    by eapply F.
  - intros j g' e' Hj. rewrite Hrest by done. rewrite Hcur. cbn. apply Hd. set_solver.
  - exists w', ch'. rewrite Hcur in *. split_and!; try done. intros j. rewrite P'. unfold pend.
    destruct (decide (j = i)) as [->|Hne].
    + apply place_Some in Pi as (g' & e' & -> & Hp & _). unfold vw. rewrite E. cbn. by rewrite Hp.
    + rewrite (place_payload _ _ (Pj j Hne)). unfold vw, w1; cbn. by rewrite V1, upd_ne.
Qed.

Lemma cascade_level_spec fuel w ch l :
  inv w ch [] -> bounded fuel w -> 1 <= l <= 5 -> current_tick w mod span l = 0 ->
  filed w [] (mid l (current_tick w)) ->
  exists w' ch', cascade_level fuel w l = Ret w' /\
    current_tick w' = current_tick w /\ inv w' ch' [] /\
    filed w' [] (mid (l + 1) (current_tick w)) /\ (forall j, pend w' j = pend w j).
Proof.
  intros I B Hl Hz F. unfold cascade_level.
  destruct (inv_level_at w ch [] l I) as (lv & Hlv & -> & Hok); [lia|]. cbn.
  rewrite land_63, shiftr_span by lia. set (s := (current_tick w / span l) mod 64).
  assert (Hs : 0 <= s < 64) by (apply Z.mod_pos_bound; lia).
  assert (R : in_range l s) by (split; lia).
  rewrite (level_head _ _ _ _ Hok Hs). cbn.
  set (m := Z.land _ _). set (w1 := mkWheel _ _ _).
  assert (I1 : inv w1 (chupd ch l s []) (ch l s)).
  { apply inv_detach; [done..| |by apply bits_clear]. apply fits_land, Hok. }
  destruct (cascade_loop_spec fuel (l + 1) w1 _ _ I1) as (w' & ch' & -> & Hc & I' & F' & P').
  - by apply (inv_nodup _ _ _ I).
  - eapply dseg_sseg. by apply (inv_dseg _ _ _ I).
  - by eapply chain_length.
  - lia.
  - intros i g e E Hi. apply mid_stay; [done|lia| |apply (F i g e); [done|set_solver]].
    intros El Es. apply Hi. destruct (inv_all _ _ _ I i g e E) as [?|[_ Hin]]; [set_solver|].
    rewrite El, Es in Hin. done.
  - intros i g e Hi E. destruct (inv_chain _ _ _ I l s i R Hi) as (_ & g' & e' & E' & El & Es).
    change (vw w i = Some (g, e)) in E. rewrite E in E'. injection E' as <- <-.
    apply (mid_out l _ _ s); [done|lia|]. pose proof (F i g e E ltac:(set_solver)) as H.
    by rewrite El, Es in H.
  - by exists w', ch'.
Qed.

Lemma bounded_pend n w w' : bounded n w -> (forall j, pend w' j = pend w j) -> bounded n w'.
Proof. intros B P i c E. rewrite P in E. by eapply B. Qed.

Lemma filed_impl w loose (P Q : Z -> Z -> Z -> Prop) :
  filed w loose P -> (forall d l s, P d l s -> Q d l s) -> filed w loose Q.
Proof. intros F H i g e E Hi. by eapply H, F. Qed.

Lemma cascade_up_spec fuel n k w ch :
  (k + n = 6)%nat -> (1 <= k)%nat -> inv w ch [] -> bounded fuel w -> 0 < current_tick w ->
  filed w [] (mid (Z.of_nat k) (current_tick w)) ->
  exists w' ch', cascade_up fuel w (trailing_zeros (current_tick w)) (Z.of_nat <$> seq k n) = Ret w' /\
    current_tick w' = current_tick w /\ inv w' ch' [] /\
    filed w' [] (placed 0 (current_tick w)) /\ (forall j, pend w' j = pend w j).
Proof.
  revert k w ch. induction n as [|n IH]; intros k w ch Hn Hk I B Ht F.
  { exists w, ch. split_and!; try done. eapply filed_impl; [exact F|]. intros d l s.
    replace (Z.of_nat k) with 6 by lia. apply mid_done. }
  cbn [seq fmap list_fmap cascade_up]. case_match eqn:Htz.
  - apply trailing_zeros_span in Htz; [|lia..].
    destruct (cascade_level_spec fuel w ch (Z.of_nat k) I B) as (w1 & ch1 & -> & Hc & I1 & F1 & P1);
      [lia|done|done|]. cbn.
    destruct (IH (Datatypes.S k) w1 ch1) as (w' & ch' & E & Hc' & I' & F' & P');
      [lia|lia|done|by eapply bounded_pend|lia| |].
    { replace (Z.of_nat (Datatypes.S k)) with (Z.of_nat k + 1) by lia. by rewrite Hc. }
    rewrite Hc in *. exists w', ch'. split_and!; try done. intros j. by rewrite P'.
  - exists w, ch. split_and!; try done. eapply filed_impl; [exact F|]. intros d l s H.
    apply mid_done. eapply (mid_skip (Z.of_nat k)); [lia| |done].
    rewrite <- trailing_zeros_span by lia. by rewrite Htz.
Qed.

Lemma advance_one_tick_spec fuel w ch :
  wheel_ok w ch -> bounded fuel w -> current_tick w + 1 < 2 ^ 64 ->
  exists w' ch', advance_one_tick fuel w = Ret w' /\
    current_tick w' = current_tick w + 1 /\ inv w' ch' [] /\
    filed w' [] (placed 0 (current_tick w + 1)) /\ (forall j, pend w' j = pend w j).
Proof.
  intros (I & F & Ht) B Hmax. unfold advance_one_tick.
  rewrite (proj2 (add_or_panic_Ret 64 _ 1 (current_tick w + 1))) by lia. cbn.
  set (w1 := mkWheel (current_tick w + 1) (levels w) (entries w)).
  assert (I1 : inv w1 ch []) by (destruct I; by constructor).
  assert (F1 : filed w1 [] (mid 1 (current_tick w1))).
  { eapply filed_impl; [exact F|]. intros d l s. apply tick_mid. }
  destruct (cascade_up_spec fuel 5 1 w1 ch) as (w' & ch' & E & H); [lia|lia|done|done|cbn; lia|done|].
  exists w', ch'. split; [|done]. cbn [seq fmap list_fmap cascade_up] in E.
  change (Z.of_nat 1 * 6) with 6 in E. change (current_tick w1) with (current_tick w + 1) in E.
  destruct (6 <=? trailing_zeros (current_tick w + 1)); exact E.
Qed.

(** The iterator between two calls of [next]: the entries [out] are detached
    and due at the current tick. *)
Record iter_ok (n : nat) (it : ExpiredIter S) ch (out : list nat) : Prop := {
  it_inv : inv (wheel it) ch out;
  it_nodup : NoDup out;
  it_sseg : sseg (vw (wheel it)) out;
  it_drain : current_drain it = lnk (head out);
  it_filed : filed (wheel it) out (placed 1 (current_tick (wheel it)));
  it_due i g e : i ∈ out -> vw (wheel it) i = Some (g, e) ->
    deadline_tick e = current_tick (wheel it);
  it_target : out <> [] -> current_tick (wheel it) <= target_tick it;
  it_tick : 0 <= current_tick (wheel it);
  it_bounded : bounded n (wheel it);
}.

Lemma iter_ok_start n w ch t : wheel_ok w ch -> bounded n w -> iter_ok n (advance_to w t) ch [].
Proof.
  intros (I & F & Ht) B. constructor; try done; [apply NoDup_nil_2|set_solver].
Qed.

Lemma iter_ok_wheel n it ch : iter_ok n it ch [] -> wheel_ok (wheel it) ch.
Proof. intros H. split_and!; apply H. Qed.

(** With an empty level-0 mask every entry is on a higher level. *)
Lemma level0_empty w ch lv i g e :
  inv w ch [] -> levels w !! 0%nat = Some lv -> populated_mask lv = 0 ->
  vw w i = Some (g, e) -> 1 <= level e.
Proof.
  intros I Hlv Hm E. destruct (inv_all _ _ _ I i g e E) as [?|[R Hi]]; [set_solver|].
  pose proof R as [Hl Hs]. destruct (Z.eq_dec (level e) 0) as [H0|]; [|lia]. exfalso.
  rewrite H0 in Hi. destruct (inv_level _ _ _ I 0 lv) as (_ & _ & H); [lia|done|].
  rewrite (proj1 (proj2 (H _ Hs))) in Hi; [set_solver|]. rewrite Hm. apply Z.bits_0.
Qed.

Lemma filed_jump w ch lv t :
  wheel_ok w ch -> levels w !! 0%nat = Some lv -> populated_mask lv = 0 ->
  t / 64 = current_tick w / 64 -> 0 <= t -> wheel_ok (mkWheel t (levels w) (entries w)) ch.
Proof.
  intros (I & F & Ht) Hlv Hm Hb H0. split_and!; [destruct I; by constructor| |done].
  intros i g e E Hi. cbn. apply (placed_jump (current_tick w)); [by eapply F| |done].
  by eapply level0_empty.
Qed.

(** Collecting the slot of the current tick after the cascades. *)
Lemma drain_slot n w ch lv (t : Z) :
  inv w ch [] -> filed w [] (placed 0 (current_tick w)) -> 0 <= current_tick w <= t ->
  bounded n w -> levels w !! 0%nat = Some lv ->
  let s := current_tick w mod 64 in
  let m := match lnk (head (ch 0 s)) with
           | Some _ => Z.land (populated_mask lv) (lnot U64 (Z.shiftl 1 s))
           | None => populated_mask lv
           end in
  iter_ok n (mkIter (mkWheel (current_tick w) (set_level w 0 (set_head lv s None m)) (entries w))
               t (lnk (head (ch 0 s)))) (chupd ch 0 s []) (ch 0 s).
Proof.
  intros I F Ht B Hlv s m. assert (Hs : 0 <= s < 64) by (apply Z.mod_pos_bound; lia).
  assert (R : in_range 0 s) by (split; lia).
  destruct (inv_level _ _ _ I 0 lv) as (Hlen & Hf & H); [lia|done|].
  assert (I' : inv (mkWheel (current_tick w) (set_level w 0 (set_head lv s None m)) (entries w))
                 (chupd ch 0 s []) (ch 0 s)).
  { apply inv_detach; [done..| |]; unfold m; destruct (ch 0 s) as [|i c] eqn:E; cbn [head lnk fmap option_fmap option_map].
    - done.
    - by apply fits_land.
    - intros j Hj. destruct (Z.eqb_spec j s) as [->|]; [|done]. rewrite bool_decide_eq_false_2 by naive_solver.
      by apply H.
    - by apply bits_clear. }
  assert (Hin : forall i g e, i ∈ ch 0 s -> vw w i = Some (g, e) -> level e = 0 /\ slot e = s).
  { intros i g e Hi E. destruct (inv_chain _ _ _ I 0 s i R Hi) as (_ & g' & e' & E' & ?). naive_solver. }
  constructor; cbn [wheel target_tick current_drain current_tick]; try done.
  - by apply (inv_nodup _ _ _ I).
  - eapply dseg_sseg. by apply (inv_dseg _ _ _ I).
  - intros i g e E Hi. apply placed_keep; [by apply (F i g e); [|set_solver]|].
    intros El Es. apply Hi. destruct (inv_all _ _ _ I i g e E) as [?|[_ Hin']]; [set_solver|].
    rewrite El, Es in Hin'. done.
  - intros i g e Hi E. destruct (Hin i g e Hi E) as [El Es].
    pose proof (F i g e E ltac:(set_solver)) as Hp. rewrite El, Es in Hp. by eapply placed_drain.
  - lia.
  - lia.
Qed.

(** What one call of [next] does to the abstract state. *)
Definition next_post (it : ExpiredIter S) (r : option Z) (it' : ExpiredIter S) : Prop :=
  match r with
  | Some task => exists i g d, pend (wheel it) i = Some (g, (d, task)) /\ d <= target_tick it /\
      current_tick (wheel it') = d /\
      (forall j g' d' t', pend (wheel it) j = Some (g', (d', t')) -> d <= d') /\
      (forall j, pend (wheel it') j = SlabSpec.upd (pend (wheel it)) i None j)
  | None => current_tick (wheel it') = Z.max (current_tick (wheel it)) (target_tick it) /\
      (forall j, pend (wheel it') j = pend (wheel it) j) /\
      (forall j g' d' t', pend (wheel it) j = Some (g', (d', t')) -> target_tick it < d')
  end.

Lemma pend_inv w i g d t : pend w i = Some (g, (d, t)) ->
  exists e, vw w i = Some (g, e) /\ deadline_tick e = d /\ task_ref e = t.
Proof. unfold pend. destruct (vw w i) as [[g' e]|]; cbn; [|done]. intros [= <- <- <-]. eauto. Qed.

(** Everything pending is due now or later, and later when nothing is
    detached. *)
Lemma iter_ok_min n it ch out j g d t :
  iter_ok n it ch out -> pend (wheel it) j = Some (g, (d, t)) ->
  current_tick (wheel it) <= d /\ (out = [] -> current_tick (wheel it) < d).
Proof.
  intros H (e & E & <- & <-)%pend_inv. destruct (decide (j ∈ out)) as [Hj|Hj].
  - rewrite (it_due _ _ _ _ H j g e Hj E). split; [lia|]. intros ->. set_solver.
  - pose proof (it_filed _ _ _ _ H j g e E Hj) as Hp%placed_gt. lia.
Qed.

(** The iterator yields the first detached entry. *)
Lemma iter_next_drain n it ch i out fuel :
  iter_ok n it ch (i :: out) -> (1 <= fuel)%nat ->
  exists task it', iter_next fuel it = Ret (Some task, it') /\ iter_ok n it' ch out /\
    target_tick it' = target_tick it /\ current_tick (wheel it') = current_tick (wheel it) /\
    next_post it (Some task) it'.
Proof.
  intros H Hf. destruct fuel as [|fuel]; [lia|]. cbn [iter_next].
  rewrite (it_drain _ _ _ _ H). cbn [head lnk fmap option_fmap option_map].
  destruct (it_sseg _ _ _ _ H) as [(g & e & E & Hn) Hs].
  pose proof (inv_store _ _ _ (it_inv _ _ _ _ H)) as W.
  pose proof (it_nodup _ _ _ _ H) as [Hi Hnd]%NoDup_cons.
  rewrite nz_to_slab_of_nat, es_get_by_index_spec by done. unfold vw in E. rewrite E. cbn.
  destruct (es_remove_by_index_spec (entries (wheel it)) i g e W E) as (es & -> & W' & _ & V). cbn.
  assert (Hpend : pend (wheel it) i = Some (g, (deadline_tick e, task_ref e))).
  { unfold pend, vw. by rewrite E. }
  assert (Hd : deadline_tick e = current_tick (wheel it)) by (eapply (it_due _ _ _ _ H i); [set_solver|exact E]).
  assert (Hup : forall j, payload <$> es_view es j = SlabSpec.upd (pend (wheel it)) i None j).
  { intros j. rewrite V. unfold SlabSpec.upd. by case_decide. }
  eexists _, _. split_and!; [done| |done|done|].
  - constructor; cbn [wheel target_tick current_drain current_tick]; try done.
    + apply (inv_swap _ _ (i :: out) out i None); [apply H|left; set_solver|done|exact V|set_solver|done].
    + eapply sseg_ext; [|exact Hs]. intros j Hj. unfold vw; cbn. rewrite V, upd_ne; [done|]. set_solver.
    + intros j g' e' E' Hj. unfold vw in E'; cbn in E'. rewrite V in E'.
      destruct (decide (j = i)) as [->|Hne]; [by rewrite upd_eq in E'|]. rewrite upd_ne in E' by done.
      apply (it_filed _ _ _ _ H j g' e' E'). set_solver.
    + intros j g' e' Hj E'. unfold vw in E'; cbn in E'. rewrite V, upd_ne in E' by set_solver.
      apply (it_due _ _ _ _ H j g' e'); [set_solver|done].
    + intros _. by apply H.
    + apply H.
    + intros j c Ej. unfold pend, vw in Ej; cbn in Ej. rewrite Hup in Ej. unfold SlabSpec.upd in Ej.
      case_decide; [done|]. by apply (it_bounded _ _ _ _ H) in Ej.
  - cbn. exists i, g, (deadline_tick e). split_and!; [done| |done| |done].
    + rewrite Hd. by apply H.
    + intros j g' d' t' Ej. rewrite Hd. by eapply (iter_ok_min _ _ _ _ _ _ _ _ H).
Qed.

Lemma bounded_le n m w : (n <= m)%nat -> bounded n w -> bounded m w.
Proof. intros Hnm B i c E. apply B in E. lia. Qed.

(** One tick, then the slot that came due. *)
Lemma tick_and_drain n fuel w ch t :
  wheel_ok w ch -> bounded n w -> (n <= fuel)%nat -> current_tick w + 1 <= t -> t < 2 ^ 64 ->
  exists w2 lv ch' out, advance_one_tick fuel w = Ret w2 /\
    current_tick w2 = current_tick w + 1 /\ level_at w2 0 = Ret lv /\
    head_at lv (Z.land (current_tick w2) 63) = Ret (lnk (head out)) /\
    let m := match lnk (head out) with
             | Some _ => Z.land (populated_mask lv) (lnot U64 (Z.shiftl 1 (Z.land (current_tick w2) 63)))
             | None => populated_mask lv
             end in
    let it' := mkIter (mkWheel (current_tick w2)
                         (set_level w2 0 (set_head lv (Z.land (current_tick w2) 63) None m)) (entries w2))
                 t (lnk (head out)) in
    iter_ok n it' ch' out /\ (forall j, pend (wheel it') j = pend w j).
Proof.
  intros H B Hf Ht Hmax. pose proof H as (_ & _ & H0).
  destruct (advance_one_tick_spec fuel w ch H) as (w2 & ch2 & Ea & Hc & I2 & F2 & P2);
    [by eapply bounded_le|lia|].
  destruct (inv_level_at w2 ch2 [] 0 I2) as (lv & Hlv & El & Hok); [lia|].
  assert (0 <= current_tick w2 mod 64 < 64) by (apply Z.mod_pos_bound; lia).
  exists w2, lv, (chupd ch2 0 (current_tick w2 mod 64) []), (ch2 0 (current_tick w2 mod 64)).
  rewrite !land_63. split_and!; [done..|by apply level_head|]. cbv zeta. split; [|done].
  apply drain_slot; [done|by rewrite Hc|lia|by eapply bounded_pend|done].
Qed.

(** The rest of the loop body, from the tick on: the iterator goes round. *)
Lemma tick_continue n it ch fuel w1 ch1 :
  iter_ok n it ch [] -> target_tick it + 64 <= 2 ^ 64 -> (n <= Datatypes.S fuel)%nat ->
  wheel_ok w1 ch1 -> current_tick (wheel it) <= current_tick w1 ->
  current_tick w1 + 1 <= target_tick it -> (forall j, pend w1 j = pend (wheel it) j) ->
  exists it' ch' out, (w2 ← advance_one_tick (Datatypes.S fuel) w1;
      let slot_idx := Z.land (current_tick w2) 63 in
      lv ← level_at w2 0;
      drain ← head_at lv slot_idx;
      let mask := match drain with
        | Some _ => Z.land (populated_mask lv) (lnot U64 (Z.shiftl 1 slot_idx))
        | None => populated_mask lv end in
      iter_next fuel
        (mkIter (mkWheel (current_tick w2) (set_level w2 0 (set_head lv slot_idx None mask))
          (entries w2)) (target_tick it) drain)) = iter_next fuel it' /\ iter_ok n it' ch' out /\
    target_tick it' = target_tick it /\
    current_tick (wheel it) < current_tick (wheel it') <= target_tick it /\
    (forall j, pend (wheel it') j = pend (wheel it) j).
Proof.
  intros H Hmax Hf Hw1 Hle Hle' P1.
  destruct (tick_and_drain n (Datatypes.S fuel) w1 ch1 (target_tick it))
    as (w2 & lv2 & ch2 & out & -> & Hc & E1 & E2 & H2 & P2);
    [done|eapply bounded_pend; [apply H|done]|done|done|lia|].
  cbn [mbind outcome_bind]. cbv zeta. rewrite E1. cbn [mbind outcome_bind]. rewrite E2. cbn [mbind outcome_bind].
  eexists _, ch2, out. split_and!; [done|exact H2|done|cbn; lia|cbn; lia|].
  intros j. rewrite <- P1. apply P2.
Qed.

Lemma iter_next_tick n it ch fuel :
  iter_ok n it ch [] -> current_tick (wheel it) < target_tick it -> target_tick it + 64 <= 2 ^ 64 ->
  (n <= Datatypes.S fuel)%nat ->
  (exists it', iter_next (Datatypes.S fuel) it = Ret (None, it') /\ iter_ok n it' ch [] /\
     target_tick it' = target_tick it /\ next_post it None it') \/
  (exists it' ch' out, iter_next (Datatypes.S fuel) it = iter_next fuel it' /\ iter_ok n it' ch' out /\
     target_tick it' = target_tick it /\
     current_tick (wheel it) < current_tick (wheel it') <= target_tick it /\
     (forall j, pend (wheel it') j = pend (wheel it) j)).
Proof.
  intros H Hlt Hmax Hf. cbn [iter_next]. rewrite (it_drain _ _ _ _ H). cbn [head lnk fmap option_fmap option_map].
  destruct (Z.leb_spec (target_tick it) (current_tick (wheel it))) as [?|_]; [lia|].
  pose proof (iter_ok_wheel _ _ _ H) as Hw. pose proof Hw as (I & _ & H0).
  destruct (inv_level_at _ _ _ 0 I) as (lv & Hlv & -> & Hok); [lia|]. cbn [mbind outcome_bind].
  pose proof (lor_63 (current_tick (wheel it)) H0) as Hlor.
  pose proof (Z.div_mod (current_tick (wheel it)) 64) as Hdm.
  pose proof (Z.mod_pos_bound (current_tick (wheel it)) 64) as Hmb.
  destruct (Z.eqb_spec (populated_mask lv) 0) as [Hm|Hm].
  - rewrite (proj2 (add_or_panic_Ret 64 _ 1 (Z.lor (current_tick (wheel it)) 63 + 1))) by lia.
    cbn [mbind outcome_bind andb]. rewrite Hlor.
    destruct (Z.ltb_spec (target_tick it) (current_tick (wheel it) / 64 * 64 + 63 + 1)).
    + left. set (w' := mkWheel _ _ _).
      assert (H' : wheel_ok w' ch) by (eapply filed_jump; [done..| |lia]; Z.div_mod_to_equations; lia).
      assert (Hit : iter_ok n (advance_to w' (target_tick it)) ch [])
        by (apply iter_ok_start; [done|apply H]).
      exists (advance_to w' (target_tick it)). split_and!; [done|done|done|].
      split; [cbn; lia|]. split; [done|]. intros j g d t E. by eapply (iter_ok_min _ _ _ _ j g d t Hit).
    + right. eapply tick_continue; [done..|eapply filed_jump; [done..| |lia]; Z.div_mod_to_equations; lia|cbn; lia|cbn; lia|done].
  - right. cbn [mbind outcome_bind andb]. by eapply tick_continue; [..|lia|lia|].
Qed.

(** One call of [next], with fuel for every tick up to the target and for the
    longest list. *)
Lemma iter_next_spec n it ch out fuel :
  iter_ok n it ch out -> target_tick it + 64 <= 2 ^ 64 ->
  Z.max 0 (target_tick it - current_tick (wheel it)) + Z.of_nat n + 1 <= Z.of_nat fuel ->
  exists r it' ch' out', iter_next fuel it = Ret (r, it') /\ iter_ok n it' ch' out' /\
    target_tick it' = target_tick it /\ current_tick (wheel it) <= current_tick (wheel it') /\
    (r = None -> out' = []) /\ next_post it r it'.
Proof.
  revert it ch out. induction fuel as [|fuel IH]; intros it ch out H Hmax Hf; [lia|].
  destruct out as [|i out].
  2: { destruct (iter_next_drain n it ch i out (Datatypes.S fuel) H) as (task & it' & -> & H' & ? & Hc & ?);
         [lia|]. eexists _, it', ch, out. split_and!; try done. lia. }
  destruct (Z.le_gt_cases (target_tick it) (current_tick (wheel it))) as [Hle|Hlt].
  { cbn [iter_next]. rewrite (it_drain _ _ _ _ H). cbn [head lnk fmap option_fmap option_map].
    destruct (Z.leb_spec (target_tick it) (current_tick (wheel it))); [|lia].
    exists None, it, ch, []. split_and!; try done. split; [lia|]. split; [done|].
    intros j g d t E. pose proof (iter_ok_min _ _ _ _ _ _ _ _ H E) as [_ Hd]. specialize (Hd eq_refl). lia. }
  destruct (iter_next_tick n it ch fuel H) as [(it' & -> & H' & Ht & Hp)|(it' & ch' & out & -> & H' & Ht & Hc & P)];
    [lia..| |].
  { exists None, it', ch, []. split_and!; try done. destruct Hp as [-> _]. lia. }
  destruct (IH it' ch' out H') as (r & it2 & ch2 & out2 & -> & H2 & Ht2 & Hc2 & Hn & Hp); [lia..|].
  exists r, it2, ch2, out2. split_and!; try done; [congruence|lia|].
  destruct r as [task|]; cbn in *; rewrite Ht in *.
  - destruct Hp as (i & g & d & E & Hd & Hcd & Hmin & Hu). exists i, g, d. rewrite P in E.
    split_and!; [done|done|done| |].
    + intros j g' d' t'. rewrite <- P. apply Hmin.
    + intros j. rewrite Hu. unfold SlabSpec.upd. by rewrite P.
  - destruct Hp as (? & Hu & Hmin). split_and!; [lia| |].
    + intros j. by rewrite Hu.
    + intros j g' d' t'. rewrite <- P. apply Hmin.
Qed.

(** How many entries are pending, and the deadline of one. *)
Definition live (n : nat) w : nat := length (filter (fun i => is_Some (pend w i)) (seq 0 n)).
Definition due w (i : nat) : Z := match pend w i with Some (_, (d, _)) => d | None => 0 end.

Lemma live_decrease n w w' i :
  bounded n w -> is_Some (pend w i) -> (forall j, pend w' j = SlabSpec.upd (pend w) i None j) ->
  (live n w' < live n w)%nat.
Proof.
  intros B Hi Hu. unfold live.
  replace (filter (fun j => is_Some (pend w' j)) (seq 0 n))
    with (filter (fun j => is_Some (pend w' j)) (filter (fun j => is_Some (pend w j)) (seq 0 n))).
  - apply (length_filter_lt _ _ i).
    + apply list_elem_of_filter. split; [done|]. destruct Hi as [c Hi]. apply B in Hi.
      apply elem_of_seq. lia.
    + rewrite Hu. unfold SlabSpec.upd. case_decide; [|done]. by intros [].
  - rewrite list_filter_filter. apply list_filter_iff. intros j. rewrite Hu. unfold SlabSpec.upd.
    case_decide; subst; [|naive_solver]. split; [by intros [[] _]|by intros []].
Qed.

(** [fires w t fired tasks w']: advancing [w] to [t] fires the entries [fired],
    each once, earliest deadline first, and these are all the entries due; the
    tasks yielded are theirs, and nothing else changes. *)
Record fires w (t : Z) (fired : list nat) (tasks : list Z) w' : Prop := {
  fires_once : NoDup fired;
  fires_due i : i ∈ fired <-> exists g d task, pend w i = Some (g, (d, task)) /\ d <= t;
  fires_tasks : Forall2 (fun i task => exists g d, pend w i = Some (g, (d, task))) fired tasks;
  fires_sorted : StronglySorted (fun i j => due w i <= due w j) fired;
  fires_rest j : pend w' j = if decide (j ∈ fired) then None else pend w j;
  fires_tick : current_tick w' = Z.max (current_tick w) t;
  fires_wf : wheel_wf w';
}.

Lemma due_eq w i g d t : pend w i = Some (g, (d, t)) -> due w i = d.
Proof. unfold due. by intros ->. Qed.

(** Yielding one entry and then firing the rest. *)
Lemma fires_cons it it' w' i g d task fired tasks :
  pend (wheel it) i = Some (g, (d, task)) -> d <= target_tick it ->
  current_tick (wheel it) <= current_tick (wheel it') -> current_tick (wheel it') = d ->
  (forall j g' d' t', pend (wheel it) j = Some (g', (d', t')) -> d <= d') ->
  (forall j, pend (wheel it') j = SlabSpec.upd (pend (wheel it)) i None j) ->
  fires (wheel it') (target_tick it) fired tasks w' ->
  fires (wheel it) (target_tick it) (i :: fired) (task :: tasks) w'.
Proof.
  intros Ei Hd Hc Hcd Hmin Hu F.
  assert (Hne : forall j, j ∈ fired -> j <> i /\ pend (wheel it') j = pend (wheel it) j).
  { intros j (g' & d' & t' & Ej & _)%(fires_due _ _ _ _ _ F). rewrite Hu in Ej |- *.
    unfold SlabSpec.upd in *. by case_decide. }
  constructor.
  - apply NoDup_cons. split; [|apply F]. by intros []%Hne.
  - intros j. rewrite elem_of_cons, (fires_due _ _ _ _ _ F). rewrite Hu. unfold SlabSpec.upd.
    case_decide as Hji; [subst; naive_solver|naive_solver].
  - constructor; [eauto|]. pose proof (fires_tasks _ _ _ _ _ F) as Ht.
    assert (forall j, j ∈ fired -> pend (wheel it') j = pend (wheel it) j) as Hp by (intros; by apply Hne).
    clear -Ht Hp. induction Ht as [|j t fired tasks Hj Ht IH]; constructor.
    + rewrite <- Hp by set_solver. done.
    + apply IH. intros k Hk. apply Hp. set_solver.
  - constructor.
    + pose proof (fires_sorted _ _ _ _ _ F) as Hs.
      assert (forall j, j ∈ fired -> due (wheel it') j = due (wheel it) j) as Hp
        by (intros j Hj; unfold due; by rewrite (proj2 (Hne j Hj))).
      clear -Hs Hp. induction Hs as [|j fired Hs IH Hall]; constructor.
      * apply IH. intros k Hk. apply Hp. set_solver.
      * rewrite Forall_forall in *. intros k Hk. rewrite <- !Hp by set_solver. by apply Hall.
    + apply Forall_forall. intros j Hj. rewrite (due_eq _ _ _ _ _ Ei).
      apply (fires_due _ _ _ _ _ F) in Hj as Hj'. destruct Hj' as (g' & d' & t' & Ej & _).
      rewrite (proj2 (Hne j Hj)) in Ej. rewrite (due_eq _ _ _ _ _ Ej). by eapply Hmin.
  - intros j. rewrite (fires_rest _ _ _ _ _ F), Hu. unfold SlabSpec.upd.
    repeat case_decide; set_solver.
  - rewrite (fires_tick _ _ _ _ _ F). lia.
  - apply F.
Qed.

Lemma collect_spec n it ch out fuel :
  iter_ok n it ch out -> target_tick it + 64 <= 2 ^ 64 ->
  Z.max 0 (target_tick it - current_tick (wheel it)) + Z.of_nat n + 1
    + Z.of_nat (live n (wheel it)) <= Z.of_nat fuel ->
  exists tasks w' fired, collect fuel it = Ret (tasks, w') /\
    fires (wheel it) (target_tick it) fired tasks w'.
Proof.
  revert it ch out. induction fuel as [|fuel IH]; intros it ch out H Hmax Hf; [lia|].
  cbn [collect]. destruct (iter_next_spec n it ch out (Datatypes.S fuel) H)
    as (r & it' & ch' & out' & -> & H' & Ht & Hc & Hn & Hp); [lia..|]. cbn [mbind outcome_bind].
  destruct r as [task|].
  - destruct Hp as (i & g & d & Ei & Hd & Hcd & Hmin & Hu).
    pose proof (live_decrease n (wheel it) (wheel it') i (it_bounded _ _ _ _ H) ltac:(eauto) Hu).
    destruct (IH it' ch' out' H') as (tasks & w' & fired & -> & F); [lia..|]. cbn.
    exists (task :: tasks), w', (i :: fired). split; [done|]. rewrite Ht in F. by eapply fires_cons.
  - destruct Hp as (Hcur & Hu & Hmin). rewrite (Hn eq_refl) in H'.
    exists [], (wheel it'), []. split; [done|]. constructor; try done.
    + apply NoDup_nil_2.
    + intros i. split; [set_solver|]. intros (g & d & t & E & Hd). apply Hmin in E. lia.
    + constructor.
    + exists ch'. by eapply iter_ok_wheel.
Qed.

End advance.
End WheelAdvance.
