(* ===== verification/TimerThms.v ===== *)
(** * Timer wheel theorems

    Wheels reachable from [new] over the real slab by [register] with a future
    deadline (the run loop always adds a non-zero delay to the clock), [cancel]
    and [advance_to] run to exhaustion; what advancing fires, what happens to
    one timer along a run, and what [next_expiry] computes. *)

From S2P Require Import Prelude Words GenKey SlabAlloc SlabFacts SlabStore TimerWheel TimerArith TimerOps.
From stdpp Require Import base tactics list numbers sets sorting.

Local Open Scope Z_scope.

Module WheelThms.
Import Wheel Place WheelInv WheelOps WheelAdvance.

Abbreviation wheel := (TimerWheel (Slab.slab TimerEntry)).

(** Fuel that suffices for [advance_to]: one unit per tick, per list entry and
    per yielded timer. *)
Definition advance_fuel (w : wheel) (t : Z) : nat :=
  Z.to_nat (t - current_tick w) + 2 * es_cap (entries w) + 1.

Inductive op : Type :=
| Register (task deadline : Z)
| Cancel (handle : Z)
| Advance (target : Z).

(** What a step yields: the key or error of a registration, the answer of a
    cancellation, the tasks fired by an advance. *)
Inductive reply : Type :=
| Registered (r : result Slab.SlabError Z)
| Cancelled (b : bool)
| Fired (tasks : list Z).

Definition step (w : wheel) (o : op) : outcome (reply * wheel) :=
  match o with
  | Register task d => '(r, w') ← register w task d; Ret (Registered r, w')
  | Cancel h => '(b, w') ← cancel w h; Ret (Cancelled b, w')
  | Advance t => '(tasks, w') ← collect (advance_fuel w t) (advance_to w t); Ret (Fired tasks, w')
  end.

Fixpoint run (w : wheel) (ops : list op) : outcome (list reply * wheel) :=
  match ops with
  | [] => Ret ([], w)
  | o :: ops => '(r, w1) ← step w o; '(rs, w2) ← run w1 ops; Ret (r :: rs, w2)
  end.

(** What the run loop guarantees about its calls. *)
Definition op_ok (w : wheel) (o : op) : Prop :=
  match o with
  | Register _ d => current_tick w < d
  | Cancel h => SlabSpec.live_key h
  | Advance t => t + 64 <= 2 ^ 64
  end.

Inductive reachable : wheel -> Prop :=
| reach_new now cap w : 0 <= now -> 0 <= cap < 2 ^ 32 -> new now cap = Ret w -> reachable w
| reach_step w o r w' : reachable w -> op_ok w o -> step w o = Ret (r, w') -> reachable w'.

Lemma new_wf now cap : 0 <= now -> 0 <= cap < 2 ^ 32 ->
  exists w : wheel, new now cap = Ret w /\ wheel_wf w /\ current_tick w = now /\
    forall i, pend w i = None.
Proof.
  intros Hn Hc. destruct (es_new_spec (V := TimerEntry) cap Hc) as (s & E & W & _ & V).
  unfold new. rewrite E. cbn [mbind outcome_bind]. eexists. split; [done|]. split; [|split; [done|]].
  - exists (fun _ _ => []). split_and!; [|intros i g e; unfold vw; cbn [entries]; by rewrite V|done].
    constructor; cbn [levels entries]; try done.
    + intros l lv Hl Hlv. cbn [levels] in Hlv. apply lookup_replicate_1 in Hlv as [-> _].
      split_and!; [done|done|]. intros j Hj. split; [|split; [done|intros _; apply Z.bits_0]].
      cbn. apply lookup_replicate_2. unfold SLOTS_PER_LEVEL. lia.
    + intros l j _. constructor.
    + set_solver.
    + intros i g e. unfold vw; cbn [entries]. by rewrite V.
  - intros i. unfold pend, vw; cbn [entries]. by rewrite V.
Qed.

Lemma wf_bounded (w : wheel) : wheel_wf w -> bounded (es_cap (entries w)) w.
Proof.
  intros (ch & I & _) i c E. unfold pend in E. apply fmap_Some in E as (e & E & _).
  eapply es_view_range; [apply I|exact E].
Qed.

Lemma live_le n (w : wheel) : (live n w <= n)%nat.
Proof. unfold live. etrans; [apply length_filter|]. by rewrite length_seq. Qed.

Lemma advance_fires (w : wheel) t :
  wheel_wf w -> t + 64 <= 2 ^ 64 ->
  exists tasks w' fired, collect (advance_fuel w t) (advance_to w t) = Ret (tasks, w') /\
    fires w t fired tasks w'.
Proof.
  intros Hw Ht. pose proof (wf_bounded w Hw) as B. destruct Hw as (ch & Hw).
  pose proof (live_le (es_cap (entries w)) w).
  apply (collect_spec _ _ _ _ (advance_fuel w t) (iter_ok_start _ w ch t Hw B)); [done|].
  unfold advance_fuel. cbn [target_tick advance_to Wheel.wheel]. lia.
Qed.

(** The effect of one step on the abstract state. *)
Definition spec_step (w : wheel) (o : op) (r : reply) (w' : wheel) : Prop :=
  match o, r with
  | Register task d, Registered (Ok key) =>
      SlabSpec.live_key key /\ pend w (SlabSpec.key_index key) = None /\
      current_tick w' = current_tick w /\
      forall j, pend w' j = SlabSpec.upd (pend w) (SlabSpec.key_index key)
                              (Some (SlabKey.generation key, (d, task))) j
  | Register _ _, Registered (Err _) => w' = w
  | Cancel h, Cancelled b =>
      b = match pend w (SlabSpec.key_index h) with
          | Some (g, _) => g =? SlabKey.generation h
          | None => false
          end /\
      current_tick w' = current_tick w /\
      forall j, pend w' j = (if b then SlabSpec.upd (pend w) (SlabSpec.key_index h) None j else pend w j)
  | Advance t, Fired tasks => exists fired, fires w t fired tasks w'
  | _, _ => False
  end.

Lemma step_spec w o : wheel_wf w -> op_ok w o ->
  exists r w', step w o = Ret (r, w') /\ wheel_wf w' /\ spec_step w o r w'.
Proof.
  intros Hw Ho. pose proof Hw as (ch & H). destruct o as [task d|h|t]; cbn [step op_ok spec_step] in *.
  - pose proof (register_spec w ch task d H Ho) as Hr.
    destruct (register w task d) as [[[key|e] w']| | |]; try done; cbn [mbind outcome_bind].
    + destruct Hr as (? & ? & ? & ? & ?). by eexists _, _.
    + subst. by eexists _, _.
  - pose proof (cancel_spec w ch h H Ho) as Hc.
    destruct (pend w (SlabSpec.key_index h)) as [[g [d t]]|] eqn:E.
    + destruct (g =? SlabKey.generation h) eqn:Hg.
      * destruct Hc as (w' & -> & ? & ? & ?). eexists _, _. split; [reflexivity|done].
      * rewrite Hc. eexists _, _. split; [reflexivity|done].
    + rewrite Hc. eexists _, _. split; [reflexivity|done].
  - destruct (advance_fires w t Hw Ho) as (tasks & w' & fired & -> & F).
    eexists _, _. split; [done|]. split; [apply F|]. by exists fired.
Qed.

Lemma wheel_reachable_wf w : reachable w -> wheel_wf w.
Proof.
  induction 1 as [now cap w Hn Hc E|w o r w' _ IH Ho E].
  - destruct (new_wf now cap Hn Hc) as (w' & E' & H & _). congruence.
  - destruct (step_spec w o IH Ho) as (r' & w2 & E' & H & _). congruence.
Qed.

(** [op_keeps key d o]: the operation neither cancels [key] nor reaches [d]. *)
Definition op_keeps (key d : Z) (o : op) : Prop :=
  match o with
  | Register _ _ => True
  | Cancel h => ~ (SlabSpec.key_index h = SlabSpec.key_index key /\
                   SlabKey.generation h = SlabKey.generation key)
  | Advance t => t < d
  end.

(** Every operation of a run is made under the caller's guarantees. *)
Fixpoint run_ok (w : wheel) (ops : list op) : Prop :=
  match ops with
  | [] => True
  | o :: ops => op_ok w o /\ forall r w', step w o = Ret (r, w') -> run_ok w' ops
  end.

Lemma step_keeps w o r w' key d task :
  spec_step w o r w' -> op_keeps key d o ->
  pend w (SlabSpec.key_index key) = Some (SlabKey.generation key, (d, task)) ->
  pend w' (SlabSpec.key_index key) = Some (SlabKey.generation key, (d, task)).
Proof.
  intros Hs Hk Hp. destruct o as [task' d'|h|t], r as [[key'|]|b|tasks]; cbn [spec_step op_keeps] in *; try done.
  - destruct Hs as (_ & Hn & _ & ->). unfold SlabSpec.upd. case_decide as E; [|done].
    rewrite E in Hp. congruence.
  - by subst.
  - destruct Hs as (-> & _ & ->). destruct (pend w (SlabSpec.key_index h)) as [[g ?]|] eqn:Eh; [|done].
    destruct (Z.eqb_spec g (SlabKey.generation h)); [|done]. unfold SlabSpec.upd.
    case_decide as E; [|done]. exfalso. apply Hk. split; [done|]. rewrite E in Hp. congruence.
  - destruct Hs as (fired & F). rewrite (fires_rest _ _ _ _ _ F). case_decide as Hin; [|done].
    apply (fires_due _ _ _ _ _ F) in Hin as (g & d' & t' & E & Hd). rewrite Hp in E. simplify_eq. lia.
Qed.

Lemma run_keeps w ops key d task :
  wheel_wf w -> run_ok w ops -> Forall (op_keeps key d) ops ->
  pend w (SlabSpec.key_index key) = Some (SlabKey.generation key, (d, task)) ->
  exists rs w', run w ops = Ret (rs, w') /\ wheel_wf w' /\
    pend w' (SlabSpec.key_index key) = Some (SlabKey.generation key, (d, task)).
Proof.
  revert w. induction ops as [|o ops IH]; intros w Hw Hok Hk Hp; [cbn; eauto 10|].
  destruct Hok as [Ho Hok]. apply Forall_cons in Hk as [Hk Hks].
  destruct (step_spec w o Hw Ho) as (r & w1 & E & Hw1 & Hs). cbn [run]. rewrite E. cbn [mbind outcome_bind].
  destruct (IH w1 Hw1 (Hok _ _ E) Hks) as (rs & w' & -> & Hw' & Hp'); [by eapply step_keeps|].
  cbn. eauto 10.
Qed.

(** *** The scan over the levels *)

Lemma next_expiry_from_spec cur l (lvs : list WheelLevel) :
  match next_expiry_from l cur lvs with
  | None => forall n lv, lvs !! n = Some lv -> populated_mask lv = 0
  | Some k => exists n lv, lvs !! n = Some lv /\ populated_mask lv <> 0 /\
      (forall n' lv', (n' < n)%nat -> lvs !! n' = Some lv' -> populated_mask lv' = 0) /\
      k = trailing_zeros (rotate_right (populated_mask lv)
            (Z.land (Z.shiftr cur ((l + Z.of_nat n) * 6)) 63)) * Z.shiftl 1 ((l + Z.of_nat n) * 6) + 1
  end.
Proof.
  revert l. induction lvs as [|lv lvs IH]; intros l; cbn [next_expiry_from]; [done|].
  destruct (Z.eqb_spec (populated_mask lv) 0) as [Hm|Hm].
  - specialize (IH (l + 1)). destruct (next_expiry_from (l + 1) cur lvs) as [k|].
    + destruct IH as (n & lv' & Hn & Hm' & Hlt & ->). exists (Datatypes.S n), lv'.
      replace (l + Z.of_nat (Datatypes.S n)) with (l + 1 + Z.of_nat n) by lia.
      split_and!; [done..| |done]. intros [|n'] lv2 Hn' E; [by cbn in E; simplify_eq|].
      eapply Hlt; [|exact E]. lia.
    + intros [|n] lv' E; [by cbn in E; simplify_eq|by eapply IH].
  - exists 0%nat, lv. rewrite Z.add_0_r. split_and!; [done..| |done]. lia.
Qed.

Lemma mask_filed (w : wheel) ch l lv i g e :
  inv w ch [] -> levels w !! Z.to_nat l = Some lv -> vw w i = Some (g, e) -> level e = l ->
  Z.testbit (populated_mask lv) (slot e) = true.
Proof.
  intros I Hlv E <-. destruct (inv_all _ _ _ I i g e E) as [?|[[Hl Hs] Hi]]; [set_solver|].
  destruct (inv_level _ _ _ I (level e) lv Hl Hlv) as (_ & _ & H).
  apply not_false_is_true. rewrite (proj2 (H _ Hs)). intros Hnil. rewrite Hnil in Hi. set_solver.
Qed.

Lemma filed_mask (w : wheel) ch l s lv :
  inv w ch [] -> in_range l s -> levels w !! Z.to_nat l = Some lv ->
  Z.testbit (populated_mask lv) s = true ->
  exists i g e, vw w i = Some (g, e) /\ level e = l /\ slot e = s.
Proof.
  intros I R Hlv Hb. pose proof R as [Hl Hs]. destruct (inv_level _ _ _ I l lv Hl Hlv) as (_ & _ & H).
  destruct (ch l s) as [|i c] eqn:Ec.
  - rewrite (proj2 (proj2 (H _ Hs)) Ec) in Hb. done.
  - destruct (inv_chain _ _ _ I l s i R) as (_ & g & e & ?); [rewrite Ec; set_solver|]. eauto.
Qed.

(** What [next_expiry] computes: the least slot distance on the lowest
    populated level, in ticks of that level, plus one. *)
Definition expiry_scan (w : wheel) (k : Z) : Prop :=
  exists i g e, vw w i = Some (g, e) /\
    k = slot_distance (current_tick w) (level e) (deadline_tick e) * span (level e) + 1 /\
    forall j g' e', vw w j = Some (g', e') ->
      level e <= level e' /\
      (level e' = level e ->
       slot_distance (current_tick w) (level e) (deadline_tick e)
       <= slot_distance (current_tick w) (level e) (deadline_tick e')).

Lemma mask_nonzero_bit m : fits 64 m -> m <> 0 -> exists s, 0 <= s < 64 /\ Z.testbit m s = true.
Proof.
  intros Hm Hne. destruct (decide (Exists (fun n => Z.testbit m (Z.of_nat n) = true) (seq 0 64))) as [Hex|Hex].
  - apply Exists_exists in Hex as (n & Hn%elem_of_seq & Hb). exists (Z.of_nat n). split; [lia|done].
  - exfalso. apply Hne, mask_zero; [done|]. intros j Hj.
    apply not_Exists_Forall in Hex; [|apply _]. rewrite Forall_forall in Hex.
    apply not_true_is_false. rewrite <- (Z2Nat.id j) by lia. apply Hex, elem_of_seq. lia.
Qed.

Lemma next_expiry_None w : wheel_wf w -> next_expiry w = None -> forall i, pend w i = None.
Proof.
  intros (ch & I & F & _) Hn i. pose proof (next_expiry_from_spec (current_tick w) 0 (levels w)) as H.
  unfold next_expiry in Hn. rewrite Hn in H. unfold pend.
  destruct (vw w i) as [[g e]|] eqn:E; [|done]. exfalso.
  destruct (inv_all _ _ _ I i g e E) as [?|[[Hl Hs] _]]; [set_solver|].
  destruct (inv_level_at w ch [] (level e) I Hl) as (lv & Hlv & _).
  pose proof (mask_filed w ch _ lv i g e I Hlv E eq_refl) as Hb.
  by rewrite (H _ _ Hlv), Z.bits_0 in Hb.
Qed.

Lemma next_expiry_Some w k : wheel_wf w -> next_expiry w = Some k -> expiry_scan w k.
Proof.
  intros (ch & I & F & _) Hn. pose proof (next_expiry_from_spec (current_tick w) 0 (levels w)) as H.
  unfold next_expiry in Hn. rewrite Hn in H. destruct H as (n & lv & Hlv & Hm & Hlt & ->).
  rewrite Z.add_0_l, Z.shiftl_1_l. set (l := Z.of_nat n) in *.
  assert (Hl : 0 <= l < 6).
  { apply lookup_lt_Some in Hlv. rewrite (inv_len _ _ _ I) in Hlv. lia. }
  replace n with (Z.to_nat l) in Hlv by lia. pose proof (inv_level _ _ _ I l lv Hl Hlv) as (_ & Hfit & _).
  assert (Hslot : forall i g e, vw w i = Some (g, e) -> slot e = (deadline_tick e / span (level e)) mod 64)
    by (intros i g e E; by destruct (F i g e E ltac:(set_solver)) as (_ & ? & _)).
  destruct (mask_nonzero_bit _ Hfit Hm) as (s0 & Hs0 & Hb0).
  destruct (filed_mask w ch l s0 lv I ltac:(split; lia) Hlv Hb0) as (i0 & g0 & e0 & E0 & Hl0 & Hse0).
  assert (Hscan : forall i g e, vw w i = Some (g, e) -> level e = l ->
    let k := trailing_zeros (rotate_right (populated_mask lv) (Z.land (Z.shiftr (current_tick w) (l * 6)) 63)) in
    0 <= k <= slot_distance (current_tick w) l (deadline_tick e) /\
    Z.testbit (populated_mask lv) ((k + (current_tick w / span l) mod 64) mod 64) = true).
  { intros i g e E He. apply scan_distance; [done|lia|].
    rewrite <- He, <- (Hslot i g e E). by apply (mask_filed w ch l lv i g e). }
  cbv zeta in Hscan. set (k := trailing_zeros _) in *.
  destruct (Hscan i0 g0 e0 E0 Hl0) as [Hk Hbk].
  destruct (filed_mask w ch l ((k + (current_tick w / span l) mod 64) mod 64) lv I)
    as (i & g & e & E & He & Hs); [split; [lia|apply Z.mod_pos_bound; lia]|done|done|].
  pose proof (slot_distance_bound (current_tick w) l (deadline_tick e0)).
  assert (Hke : slot_distance (current_tick w) (level e) (deadline_tick e) = k).
  { rewrite He. unfold slot_distance. rewrite (Hslot i g e E), He in Hs.
    rewrite <- (Z.mod_small k 64) by lia. Z.div_mod_to_equations. lia. }
  exists i, g, e. rewrite Hke, He. split_and!; [done|done|].
  intros j g' e' E'. split.
  - destruct (Z.le_gt_cases l (level e')) as [|Hgt]; [done|]. exfalso.
    destruct (inv_all _ _ _ I j g' e' E') as [?|[[Hl' _] _]]; [set_solver|].
    destruct (inv_level_at w ch [] (level e') I Hl') as (lv' & Hlv' & _).
    pose proof (mask_filed w ch _ lv' j g' e' I Hlv' E' eq_refl) as Hb.
    assert (Z.to_nat (level e') < n)%nat as Hlt' by (unfold l in *; lia).
    rewrite (Hlt _ _ Hlt' Hlv'), Z.bits_0 in Hb. done.
  - intros He'. apply (Hscan j g' e' E'). lia.
Qed.

(** *** Concrete wheels for the witnesses *)

Definition the {A} (d : A) (o : outcome A) : A := match o with Ret a => a | _ => d end.

Definition empty_wheel : wheel := mkWheel 0 [] (Slab.mkSlab [] 0 0).

(** At tick 50, with timers due at 64 (level 1 when it was registered at
    tick 0) and 110. *)
Definition demo_ops : list op := [Register 7 64; Advance 50; Register 8 110].
Definition demo_wheel0 : wheel := the empty_wheel (new 0 4).
Definition demo_wheel1 : wheel := (the ([], empty_wheel) (run demo_wheel0 [Register 7 64])).2.
Definition demo_wheel2 : wheel := (the ([], empty_wheel) (run demo_wheel0 [Register 7 64; Advance 50])).2.
Definition demo_wheel3 : wheel := (the ([], empty_wheel) (run demo_wheel0 demo_ops)).2.
Definition demo_handle : Z :=
  match the (Cancelled false, empty_wheel) (step demo_wheel0 (Register 7 64)) with
  | (Registered (Ok k), _) => k | _ => 0 end.

Lemma demo_reachable0 : reachable demo_wheel0.
Proof. apply (reach_new 0 4); [lia|lia|]. vm_compute. reflexivity. Qed.

Lemma demo_reachable1 : reachable demo_wheel1.
Proof.
  eapply (reach_step demo_wheel0 (Register 7 64)); [apply demo_reachable0|vm_compute; done|].
  vm_compute. reflexivity.
Qed.

Lemma demo_reachable2 : reachable demo_wheel2.
Proof.
  eapply (reach_step demo_wheel1 (Advance 50)); [apply demo_reachable1|vm_compute; discriminate|].
  vm_compute. reflexivity.
Qed.

Lemma demo_reachable3 : reachable demo_wheel3.
Proof.
  eapply (reach_step demo_wheel2 (Register 8 110)); [apply demo_reachable2|vm_compute; done|].
  vm_compute. reflexivity.
Qed.

(** C18: Every call the run loop makes on a reachable wheel returns (no panic,
    no loop that fails to end within [advance_fuel]) in a reachable wheel, and
    refines the abstract map of pending timers: a registration adds exactly its
    timer under a fresh key or reports the full slab and changes nothing, a
    cancellation removes exactly the timer its handle still names and answers
    whether there was one, an advance fires exactly what [fires] says. *)
Theorem wheel_step_refines (w : wheel) (o : op) :
  reachable w -> op_ok w o ->
  exists r w', step w o = Ret (r, w') /\ reachable w' /\ spec_step w o r w'.
Proof.
  intros Hr Ho. destruct (step_spec w o (wheel_reachable_wf w Hr) Ho) as (r & w' & E & _ & Hs).
  exists r, w'. split_and!; [done| |done]. by eapply reach_step.
Qed.

Lemma wheel_step_refines_witness :
  reachable demo_wheel2 /\ op_ok demo_wheel2 (Cancel demo_handle) /\
  exists r w', step demo_wheel2 (Cancel demo_handle) = Ret (r, w') /\ reachable w' /\
    spec_step demo_wheel2 (Cancel demo_handle) r w'.
Proof.
  split; [apply demo_reachable2|]. split; [vm_compute; reflexivity|].
  apply (wheel_step_refines demo_wheel2 (Cancel demo_handle)); [apply demo_reachable2|].
  vm_compute. reflexivity.
Defined.

(** The life of one timer: once registered under [key] with deadline [d],
    it stays pending through any run that neither cancels that key nor
    advances to [d]; the first advance to a target at or past [d] then yields
    its task, and from then on cancelling the key answers [false]. *)
Theorem wheel_timer_lifecycle (w w1 : wheel) (task d key t : Z) (ops : list op) :
  reachable w -> current_tick w < d -> step w (Register task d) = Ret (Registered (Ok key), w1) ->
  run_ok w1 ops -> Forall (op_keeps key d) ops -> d <= t -> t + 64 <= 2 ^ 64 ->
  exists rs w2 tasks w3 w4, run w1 ops = Ret (rs, w2) /\
    step w2 (Advance t) = Ret (Fired tasks, w3) /\ task ∈ tasks /\
    pend w3 (SlabSpec.key_index key) = None /\
    step w3 (Cancel key) = Ret (Cancelled false, w4).
Proof.
  intros Hr Hd E Hok Hk Ht Hmax. apply wheel_reachable_wf in Hr.
  destruct (step_spec w (Register task d) Hr Hd) as (r & w1' & E' & Hw1 & Hs).
  rewrite E in E'. injection E' as <- <-. destruct Hs as (Hlive & _ & _ & Hp1).
  assert (Hp : pend w1 (SlabSpec.key_index key) = Some (SlabKey.generation key, (d, task)))
    by (rewrite Hp1; unfold SlabSpec.upd; by case_decide).
  destruct (run_keeps w1 ops key d task Hw1 Hok Hk Hp) as (rs & w2 & Hrun & Hw2 & Hp2).
  destruct (step_spec w2 (Advance t) Hw2 Hmax) as (r & w3 & E3 & Hw3 & Hs3).
  destruct r as [| |tasks]; try done. destruct Hs3 as (fired & F).
  assert (Hin : SlabSpec.key_index key ∈ fired) by (apply (fires_due _ _ _ _ _ F); eauto 10).
  assert (Hp3 : pend w3 (SlabSpec.key_index key) = None)
    by (rewrite (fires_rest _ _ _ _ _ F); by case_decide).
  destruct (step_spec w3 (Cancel key) Hw3 Hlive) as (r & w4 & E4 & _ & Hs4).
  destruct r as [|b|]; try done. destruct Hs4 as (-> & _). rewrite Hp3 in E4.
  exists rs, w2, tasks, w3, w4. split_and!; try done.
  apply list_elem_of_lookup in Hin as (n & Hn).
  destruct (Forall2_lookup_l _ _ _ _ _ (fires_tasks _ _ _ _ _ F) Hn) as (task' & Ht' & g & d' & Hpd).
  rewrite Hp2 in Hpd. simplify_eq. by eapply list_elem_of_lookup_2.
Qed.

Lemma wheel_timer_lifecycle_witness :
  exists rs w2 tasks w3 w4, run demo_wheel1 [Advance 50; Register 8 110] = Ret (rs, w2) /\
    step w2 (Advance 64) = Ret (Fired tasks, w3) /\ 7 ∈ tasks /\
    pend w3 (SlabSpec.key_index demo_handle) = None /\
    step w3 (Cancel demo_handle) = Ret (Cancelled false, w4).
Proof.
  apply (wheel_timer_lifecycle demo_wheel0 demo_wheel1 7 64 demo_handle 64
           [Advance 50; Register 8 110]).
  - apply demo_reachable0.
  - vm_compute. reflexivity.
  - vm_compute. reflexivity.
  - split; [vm_compute; discriminate|]. intros r w' E. vm_compute in E. injection E as <- <-.
    split; [vm_compute; reflexivity|]. intros. exact Logic.I.
  - repeat constructor.
  - lia.
  - lia.
Defined.

(** What [next_expiry] answers on a reachable wheel: [None] exactly when
    nothing is pending; otherwise the least slot distance on the lowest
    populated level, times that level's slot size, plus one.  When a timer
    within the next 63 ticks is on level 0, that is one more than the
    distance of the earliest of those. *)
Theorem wheel_next_expiry (w : wheel) :
  reachable w ->
  match next_expiry w with
  | None => forall i, pend w i = None
  | Some k => expiry_scan w k /\
      forall i g e, vw w i = Some (g, e) -> level e = 0 -> k <= deadline_tick e - current_tick w + 1
  end.
Proof.
  intros Hr%wheel_reachable_wf. destruct (next_expiry w) as [k|] eqn:E; [|by apply next_expiry_None].
  pose proof (next_expiry_Some w k Hr E) as Hs. split; [done|].
  destruct Hs as (i & g & e & Ei & -> & Hmin). destruct Hr as (ch & I & F & _).
  intros j g' e' Ej Hl. destruct (Hmin j g' e' Ej) as [Hle Hd].
  destruct (F i g e Ei ltac:(set_solver)) as (? & _). assert (level e = 0) as E0 by lia.
  rewrite E0 in *. specialize (Hd Hl). change (span 0) with 1.
  destruct (F j g' e' Ej ltac:(set_solver)) as (_ & _ & H0 & _).
  rewrite (slot_distance_0 _ (deadline_tick e')) in Hd by (specialize (H0 Hl); lia). lia.
Qed.

Lemma wheel_next_expiry_witness :
  reachable demo_wheel3 /\
  match next_expiry demo_wheel3 with
  | None => forall i, pend demo_wheel3 i = None
  | Some k => expiry_scan demo_wheel3 k /\
      forall i g e, vw demo_wheel3 i = Some (g, e) -> level e = 0 ->
        k <= deadline_tick e - current_tick demo_wheel3 + 1
  end.
Proof.
  split; [apply demo_reachable3|]. apply (wheel_next_expiry demo_wheel3). apply demo_reachable3.
Defined.

(** [next_expiry] can overshoot: a reachable wheel at tick 50 has a timer
    due at tick 64, in 14 ticks, and [next_expiry] answers 61, because only
    the lowest populated level is consulted. *)
Theorem wheel_next_expiry_overshoots :
  reachable demo_wheel3 /\ current_tick demo_wheel3 = 50 /\
  (exists i g, pend demo_wheel3 i = Some (g, (64, 7))) /\ next_expiry demo_wheel3 = Some 61.
Proof.
  split; [apply demo_reachable3|]. split; [vm_compute; reflexivity|].
  split; [exists 0%nat, 1; vm_compute; reflexivity|vm_compute; reflexivity].
Qed.

End WheelThms.
