(* ===== verification/IrBytes.v ===== *)
(** * Bytes, ranges and little-endian integers

    A [&[u8]] is a [list byte].  [get_range l a b] is [l.get(a..b)],
    [copy_at] is [l[o..o + n].copy_from_slice(bs)] (a panic when the range is
    outside the slice), and [le_encode]/[le_decode] are [to_le_bytes] and
    [from_le_bytes].  [holds l o bs] says that [l] carries [bs] at offset [o]:
    it turns a chain of writes into facts about reads. *)

From S2P Require Import Prelude.
From Stdlib.Init Require Import Byte.
From stdpp Require Import base tactics list numbers.

Local Open Scope Z_scope.

Module Bytes.

#[global] Instance byte_eq_dec : EqDecision byte.
Proof. intros a b. apply Byte.byte_eq_dec. Defined.

Definition byte_to_Z (b : byte) : Z := Z.of_N (Byte.to_N b).
Definition byte_of_Z (z : Z) : byte :=
  match Byte.of_N (Z.to_N (z mod 256)) with Some b => b | None => x00 end.

Definition zlen {A} (l : list A) : Z := Z.of_nat (length l).

Fixpoint le_decode (bs : list byte) : Z :=
  match bs with
  | [] => 0
  | b :: bs => byte_to_Z b + 256 * le_decode bs
  end.

Fixpoint le_encode (n : nat) (z : Z) : list byte :=
  match n with
  | O => []
  | S n => byte_of_Z z :: le_encode n (z / 256)
  end.

Definition get_range (l : list byte) (a b : Z) : option (list byte) :=
  if (a <=? b) && (b <=? zlen l)
  then Some (take (Z.to_nat (b - a)) (drop (Z.to_nat a) l)) else None.

Definition get (l : list byte) (i : Z) : option byte := l !! Z.to_nat i.

Definition copy_at (l : list byte) (o : Z) (bs : list byte) : outcome (list byte) :=
  if o + zlen bs <=? zlen l
  then Ret (take (Z.to_nat o) l ++ bs ++ drop (Z.to_nat (o + zlen bs)) l) else Panic.

(** Lexicographic order on byte strings: [<[u8] as Ord>::cmp]. *)
Fixpoint bytes_cmp (a b : list byte) : comparison :=
  match a, b with
  | [], [] => Eq
  | [], _ :: _ => Lt
  | _ :: _, [] => Gt
  | x :: a, y :: b =>
      match byte_to_Z x ?= byte_to_Z y with Eq => bytes_cmp a b | c => c end
  end.

Definition holds (l : list byte) (o : Z) (bs : list byte) : Prop :=
  0 <= o /\ o + zlen bs <= zlen l /\
  forall i b, bs !! i = Some b -> l !! (Z.to_nat o + i)%nat = Some b.

(** ** Integers *)

Lemma byte_to_Z_range b : 0 <= byte_to_Z b < 256.
Proof. unfold byte_to_Z. pose proof (Byte.to_N_bounded b). lia. Qed.

Lemma byte_to_of z : 0 <= z < 256 -> byte_to_Z (byte_of_Z z) = z.
Proof.
  intros Hz. unfold byte_to_Z, byte_of_Z. rewrite Z.mod_small by lia.
  destruct (Byte.of_N (Z.to_N z)) as [b|] eqn:E.
  - apply Byte.to_of_N in E. lia.
  - apply Byte.of_N_None_iff in E. lia.
Qed.

Lemma byte_of_to b : byte_of_Z (byte_to_Z b) = b.
Proof.
  unfold byte_of_Z, byte_to_Z. pose proof (Byte.to_N_bounded b).
  rewrite Z.mod_small by lia. rewrite N2Z.id, Byte.of_to_N. done.
Qed.

Lemma byte_of_Z_congr z z' : z mod 256 = z' mod 256 -> byte_of_Z z = byte_of_Z z'.
Proof. unfold byte_of_Z. by intros ->. Qed.

Lemma byte_of_Z_mod z : byte_to_Z (byte_of_Z z) = z mod 256.
Proof.
  replace (byte_of_Z z) with (byte_of_Z (z mod 256)).
  - apply byte_to_of, Z.mod_pos_bound. lia.
  - unfold byte_of_Z. by rewrite Z.mod_mod.
Qed.

Lemma le_decode_range bs : fits (8 * zlen bs) (le_decode bs).
Proof.
  unfold fits, zlen. induction bs as [|b bs IH]; cbn [le_decode length]; [done|].
  pose proof (byte_to_Z_range b). rewrite Nat2Z.inj_succ.
  replace (8 * Z.succ (Z.of_nat (length bs))) with (8 + 8 * Z.of_nat (length bs)) by lia.
  rewrite Z.pow_add_r by lia. change (2 ^ 8) with 256. lia.
Qed.

Lemma length_le_encode n z : length (le_encode n z) = n.
Proof. revert z. induction n; intros z; cbn; [done|]. f_equal. apply IHn. Qed.

Lemma zlen_le_encode n z : zlen (le_encode n z) = Z.of_nat n.
Proof. unfold zlen. by rewrite length_le_encode. Qed.

Lemma le_decode_encode n z : fits (8 * Z.of_nat n) z -> le_decode (le_encode n z) = z.
Proof.
  unfold fits. revert z. induction n as [|n IH]; intros z Hz; cbn [le_encode le_decode].
  - change (8 * Z.of_nat 0) with 0 in Hz. lia.
  - rewrite Nat2Z.inj_succ in Hz. replace (8 * Z.succ (Z.of_nat n)) with (8 + 8 * Z.of_nat n) in Hz by lia.
    rewrite Z.pow_add_r in Hz by lia. change (2 ^ 8) with 256 in Hz.
    rewrite byte_of_Z_mod, IH; [Z.div_mod_to_equations; lia|].
    split; [apply Z.div_pos; lia|]. apply Z.div_lt_upper_bound; lia.
Qed.

Lemma le_encode_decode bs : le_encode (length bs) (le_decode bs) = bs.
Proof.
  induction bs as [|b bs IH]; cbn [length le_decode le_encode]; [done|].
  pose proof (byte_to_Z_range b). f_equal.
  - rewrite <- (byte_of_to b) at 2. apply byte_of_Z_congr. rewrite Z.mul_comm. by apply Z.mod_add.
  - replace ((byte_to_Z b + 256 * le_decode bs) / 256) with (le_decode bs); [done|].
    Z.div_mod_to_equations. lia.
Qed.

(** ** Ranges *)

Lemma zlen_app {A} (a b : list A) : zlen (a ++ b) = zlen a + zlen b.
Proof. unfold zlen. rewrite length_app. lia. Qed.

Lemma zlen_cons {A} x (l : list A) : zlen (x :: l) = 1 + zlen l.
Proof. unfold zlen. cbn [length]. lia. Qed.

Lemma zlen_nonneg {A} (l : list A) : 0 <= zlen l.
Proof. unfold zlen. lia. Qed.

Lemma get_range_Some l a b r :
  0 <= a -> get_range l a b = Some r -> zlen r = b - a /\ a <= b <= zlen l /\ holds l a r.
Proof.
  unfold get_range. intros Ha. case_match eqn:E; [|done]. intros [= <-].
  apply andb_true_iff in E as [E1%Z.leb_le E2%Z.leb_le].
  assert (Hl : zlen (take (Z.to_nat (b - a)) (drop (Z.to_nat a) l)) = b - a).
  { unfold zlen in *. rewrite length_take, length_drop. lia. }
  split_and!; [done|lia|lia|]. split_and!; [done|lia|]. intros i x Hx.
  apply lookup_take_Some in Hx as [Hx _]. by rewrite lookup_drop in Hx.
Qed.

Lemma get_range_None l a b : get_range l a b = None <-> ~ (a <= b <= zlen l).
Proof. unfold get_range. case_match eqn:E; split; try done; lia. Qed.

Lemma get_range_is_Some l a b : a <= b <= zlen l -> exists r, get_range l a b = Some r.
Proof. intros H. destruct (get_range l a b) eqn:E; [eauto|]. apply get_range_None in E. lia. Qed.

Lemma holds_get_range l o bs :
  holds l o bs -> get_range l o (o + zlen bs) = Some bs.
Proof.
  intros (H0 & H1 & H). destruct (get_range_is_Some l o (o + zlen bs)) as (r & E);
    [pose proof (zlen_nonneg bs); lia|].
  rewrite E. f_equal. apply get_range_Some in E as (Hl & _ & _ & _ & Hr); [|done].
  assert (length r = length bs) as Hlen by (unfold zlen in *; lia).
  apply (list_eq_same_length _ _ (length bs)); [done|done|]. intros i x y Hi Hx Hy.
  apply Hr in Hx. apply H in Hy. congruence.
Qed.

Lemma get_range_holds l a b r :
  0 <= a -> zlen r = b - a -> holds l a r -> get_range l a b = Some r.
Proof. intros Ha Hr H. replace b with (a + zlen r) by lia. by apply holds_get_range. Qed.

Lemma holds_app l o a b : holds l o (a ++ b) <-> holds l o a /\ holds l (o + zlen a) b.
Proof.
  unfold holds. rewrite zlen_app. pose proof (zlen_nonneg a) as Ha. pose proof (zlen_nonneg b) as Hb. split.
  - intros (H0 & H1 & H2). split_and!; try lia.
    + intros i x Hx. apply H2. by apply lookup_app_l_Some.
    + intros i x Hx. replace (Z.to_nat (o + zlen a) + i)%nat with (Z.to_nat o + (length a + i))%nat
        by (unfold zlen in *; lia).
      apply H2. rewrite lookup_app_r by lia. by replace (length a + i - length a)%nat with i by lia.
  - intros ((H0 & H1 & H2) & H3 & H4 & H5). split_and!; try lia. intros i x Hx.
    apply lookup_app_Some in Hx as [Hx|[Hi Hx]]; [by apply H2|].
    apply H5 in Hx. unfold zlen in *.
    by replace (Z.to_nat (o + Z.of_nat (length a)) + (i - length a))%nat with (Z.to_nat o + i)%nat in Hx by lia.
Qed.

Lemma holds_lookup l o bs j :
  holds l o bs -> (Z.to_nat o <= j < Z.to_nat o + length bs)%nat ->
  l !! j = bs !! (j - Z.to_nat o)%nat.
Proof.
  intros (H0 & H1 & H) Hj. destruct (lookup_lt_is_Some_2 bs (j - Z.to_nat o)) as [b Hb]; [lia|].
  rewrite Hb. apply H in Hb. by replace (Z.to_nat o + (j - Z.to_nat o))%nat with j in Hb by lia.
Qed.

Lemma holds_self l : holds l 0 l.
Proof. unfold holds. split_and!; [lia|lia|]. intros i b Hi. done. Qed.

Lemma holds_trans l o m o' bs : holds l o m -> holds m o' bs -> holds l (o + o') bs.
Proof.
  intros (H0 & H1 & H2) (H3 & H4 & H5). pose proof (zlen_nonneg bs).
  split_and!; [lia|lia|]. intros i b Hb%H5%H2.
  by replace (Z.to_nat (o + o') + i)%nat with (Z.to_nat o + (Z.to_nat o' + i))%nat by lia.
Qed.

(** A range of a range. *)
Lemma holds_sub l o m a b r :
  holds l o m -> 0 <= a -> get_range m a b = Some r -> holds l (o + a) r.
Proof. intros H Ha (_ & _ & Hr)%get_range_Some; [|done]. by eapply holds_trans. Qed.

Lemma holds_middle a b c : holds (a ++ b ++ c) (zlen a) b.
Proof.
  pose proof (holds_self (a ++ b ++ c)) as H. apply holds_app in H as [_ H].
  rewrite Z.add_0_l in H. by apply holds_app in H as [H _].
Qed.

(** ** Writes *)

Lemma copy_at_ok l o bs :
  0 <= o -> o + zlen bs <= zlen l ->
  exists l', copy_at l o bs = Ret l' /\ zlen l' = zlen l /\ holds l' o bs /\
    forall j, (j < Z.to_nat o \/ Z.to_nat (o + zlen bs) <= j)%nat -> l' !! j = l !! j.
Proof.
  intros H0 H1. unfold copy_at. destruct (Z.leb_spec (o + zlen bs) (zlen l)); [|lia].
  pose proof (zlen_nonneg bs).
  assert (Hlt : length (take (Z.to_nat o) l) = Z.to_nat o) by (rewrite length_take; unfold zlen in *; lia).
  eexists. split; [done|]. split_and!.
  - unfold zlen in *. rewrite !length_app, Hlt, length_drop. lia.
  - pose proof (holds_middle (take (Z.to_nat o) l) bs (drop (Z.to_nat (o + zlen bs)) l)) as Hm.
    replace (zlen (take (Z.to_nat o) l)) with o in Hm by (unfold zlen; rewrite Hlt; lia). done.
  - intros j [Hj|Hj].
    + rewrite lookup_app_l by lia. by apply lookup_take_lt.
    + rewrite lookup_app_r by lia. rewrite lookup_app_r by (unfold zlen in *; lia).
      rewrite lookup_drop. f_equal. unfold zlen in *. lia.
Qed.

Lemma copy_at_app l o a b :
  0 <= o -> o + zlen a + zlen b <= zlen l ->
  (l1 ← copy_at l o a; copy_at l1 (o + zlen a) b) = copy_at l o (a ++ b).
Proof.
  intros H0 H1. pose proof (zlen_nonneg a) as Ha. pose proof (zlen_nonneg b) as Hb.
  destruct (copy_at_ok l o a) as (l1 & -> & Hl1 & h1 & f1); [lia..|]. cbn [mbind outcome_bind].
  destruct (copy_at_ok l1 (o + zlen a) b) as (l2 & -> & Hl2 & h2 & f2); [lia..|].
  destruct (copy_at_ok l o (a ++ b)) as (l3 & -> & Hl3 & h3 & f3); [lia|rewrite zlen_app; lia|].
  rewrite zlen_app in f3. f_equal. apply list_eq. intros j. unfold zlen in *.
  destruct (decide (j < Z.to_nat o \/ Z.to_nat o + length a + length b <= j)%nat).
  { rewrite f2, f1, f3 by lia. done. }
  rewrite (holds_lookup _ _ _ j h3) by (rewrite length_app; lia).
  destruct (decide (j < Z.to_nat o + length a)%nat).
  - rewrite f2, (holds_lookup _ _ _ j h1), lookup_app_l by lia. done.
  - rewrite (holds_lookup _ _ _ j h2), lookup_app_r by lia. f_equal. lia.
Qed.

(** Two adjacent writes are one. *)
Lemma copy_fuse {B} l o o' a b (k : list byte -> outcome B) :
  0 <= o -> o' = o + zlen a -> o + zlen a + zlen b <= zlen l ->
  (l1 ← copy_at l o a; l2 ← copy_at l1 o' b; k l2) = (l2 ← copy_at l o (a ++ b); k l2).
Proof.
  intros H0 -> H1. rewrite <- copy_at_app by done. destruct (copy_at l o a); done.
Qed.

(** Writes to disjoint ranges commute. *)
Lemma copy_comm {B} l o o' a b (k : list byte -> outcome B) :
  0 <= o -> o + zlen a <= o' -> o' + zlen b <= zlen l ->
  (l1 ← copy_at l o' b; l2 ← copy_at l1 o a; k l2) = (l1 ← copy_at l o a; l2 ← copy_at l1 o' b; k l2).
Proof.
  intros H0 H1 H2. pose proof (zlen_nonneg a) as Ha. pose proof (zlen_nonneg b) as Hb.
  destruct (copy_at_ok l o a) as (l1 & -> & Hl1 & h1 & f1); [lia..|].
  destruct (copy_at_ok l o' b) as (l2 & -> & Hl2 & h2 & f2); [lia..|]. cbn [mbind outcome_bind].
  destruct (copy_at_ok l1 o' b) as (l3 & -> & Hl3 & h3 & f3); [lia..|].
  destruct (copy_at_ok l2 o a) as (l4 & -> & Hl4 & h4 & f4); [lia..|]. cbn [mbind outcome_bind].
  replace l4 with l3; [done|]. apply list_eq. intros j. unfold zlen in *.
  destruct (decide (Z.to_nat o <= j < Z.to_nat o + length a)%nat).
  { rewrite f3, (holds_lookup _ _ _ j h1), (holds_lookup _ _ _ j h4) by lia. done. }
  destruct (decide (Z.to_nat o' <= j < Z.to_nat o' + length b)%nat).
  { rewrite f4, (holds_lookup _ _ _ j h2), (holds_lookup _ _ _ j h3) by lia. done. }
  rewrite f3, f1, f4, f2 by lia. done.
Qed.

(** A held range survives a write elsewhere. *)
Lemma holds_frame l l' o bs o' n :
  holds l o bs -> zlen l' = zlen l ->
  (forall j, (j < Z.to_nat o' \/ Z.to_nat (o' + n) <= j)%nat -> l' !! j = l !! j) ->
  0 <= o' -> 0 <= n -> o + zlen bs <= o' \/ o' + n <= o -> holds l' o bs.
Proof.
  intros (H0 & H1 & H) Hl Hf Ho' Hn Hd. split_and!; [done|lia|]. intros i b Hb.
  pose proof (lookup_lt_Some _ _ _ Hb). rewrite Hf; [by apply H|]. unfold zlen in *. lia.
Qed.

(** Reading inside a range. *)
Lemma holds_restrict l a b m o bs :
  0 <= a -> 0 <= o -> get_range l a b = Some m -> holds l (a + o) bs -> o + zlen bs <= zlen m -> holds m o bs.
Proof.
  intros Ha Ho (Hl & _ & (_ & _ & Hm))%get_range_Some (H0 & H1 & H) Hb; [|done]. split_and!; [done|done|].
  intros i x Hx. pose proof (lookup_lt_Some _ _ _ Hx).
  destruct (lookup_lt_is_Some_2 m (Z.to_nat o + i)) as [y Hy]; [unfold zlen in *; lia|].
  rewrite Hy. f_equal. apply Hm in Hy. apply H in Hx.
  replace (Z.to_nat (a + o) + i)%nat with (Z.to_nat a + (Z.to_nat o + i))%nat in Hx by lia. congruence.
Qed.

Lemma holds_take l n o bs :
  holds l o bs -> o + zlen bs <= Z.of_nat n -> holds (take n l) o bs.
Proof.
  intros (H0 & H1 & H) Hn. split_and!; [done|unfold zlen in *; rewrite length_take; lia|].
  intros i b Hb. pose proof (lookup_lt_Some _ _ _ Hb). rewrite lookup_take_lt; [by apply H|].
  unfold zlen in *. lia.
Qed.

End Bytes.

(** * Fields of a byte region

    The little-endian accessors over an [MmapRegion]'s bytes that the
    multishot receive registry keeps its records with
    (src/crates/kwokka-io/src/buffer/multishot/recv.rs, [read_u16] to
    [write_i32]): a read past the region answers 0, a write past it does
    nothing. *)

From Stdlib.Init Require Import Byte.
From stdpp Require Import base tactics list numbers.

Local Open Scope Z_scope.

Module Region.
Import Bytes.

Definition read_uint (n : nat) (region : list byte) (offset : Z) : Z :=
  match get_range region offset (offset + Z.of_nat n) with Some bytes => le_decode bytes | None => 0 end.

Definition write_uint (n : nat) (region : list byte) (offset value : Z) : list byte :=
  match copy_at region offset (le_encode n value) with Ret region => region | _ => region end.

Definition read_u16 := read_uint 2.
Definition write_u16 := write_uint 2.
Definition read_u64 := read_uint 8.
Definition write_u64 := write_uint 8.

(** [i32::from_le_bytes] and [i32::to_le_bytes]: two's complement. *)
Definition i32_of (u : Z) : Z := if u <? 2 ^ 31 then u else u - 2 ^ 32.
Definition i32_fits (z : Z) : Prop := - 2 ^ 31 <= z < 2 ^ 31.
Definition read_i32 (region : list byte) (offset : Z) : Z := i32_of (read_uint 4 region offset).
Definition write_i32 (region : list byte) (offset value : Z) : list byte := write_uint 4 region offset (wrap U32 value).

Lemma i32_of_wrap z : i32_fits z -> i32_of (wrap U32 z) = z.
Proof.
  intros Hz. unfold i32_fits in Hz. unfold i32_of, wrap. destruct (Z.lt_ge_cases z 0).
  - replace (z mod 2 ^ 32) with (z + 2 ^ 32); [destruct (Z.ltb_spec (z + 2 ^ 32) (2 ^ 31)); lia|].
    symmetry. rewrite <- (Z.mod_add z 1) by lia. rewrite Z.mul_1_l. apply Z.mod_small. lia.
  - rewrite Z.mod_small by lia. destruct (Z.ltb_spec z (2 ^ 31)); lia.
Qed.

Lemma wrap_fits w z : 0 <= w -> fits w (wrap w z).
Proof. intros. unfold fits, wrap. apply Z.mod_pos_bound. apply Z.pow_pos_nonneg; lia. Qed.

Lemma zlen_write n r o v : 0 <= o -> zlen (write_uint n r o v) = zlen r.
Proof.
  intros H0. unfold write_uint. destruct (Z.lt_ge_cases (zlen r) (o + Z.of_nat n)) as [H|H].
  - unfold copy_at. rewrite zlen_le_encode. by destruct (Z.leb_spec (o + Z.of_nat n) (zlen r)); [lia|].
  - destruct (copy_at_ok r o (le_encode n v)) as (r' & -> & Hl & _); [done|rewrite zlen_le_encode; lia|done].
Qed.

Lemma read_write_same n r o v : 0 <= o -> o + Z.of_nat n <= zlen r -> fits (8 * Z.of_nat n) v -> read_uint n (write_uint n r o v) o = v.
Proof.
  intros H0 H1 Hv. unfold read_uint, write_uint. destruct (copy_at_ok r o (le_encode n v)) as (r' & -> & Hl & Hh & _); [done|rewrite zlen_le_encode; lia|].
  rewrite (get_range_holds r' o _ (le_encode n v)); [by apply le_decode_encode|done|rewrite zlen_le_encode; lia|done].
Qed.

Lemma read_write_other n n' r o o' v : 0 <= o -> 0 <= o' -> o' + Z.of_nat n' <= o \/ o + Z.of_nat n <= o' ->
  read_uint n' (write_uint n r o v) o' = read_uint n' r o'.
Proof.
  intros H0 H0' Hd. unfold read_uint. pose proof (zlen_write n r o v H0) as Hz.
  destruct (get_range r o' (o' + Z.of_nat n')) as [bs|] eqn:E.
  - pose proof E as (Hl & Hb & Hh)%get_range_Some; [|done]. unfold write_uint. destruct (Z.lt_ge_cases (zlen r) (o + Z.of_nat n)) as [H|H].
    + unfold copy_at. rewrite zlen_le_encode. destruct (Z.leb_spec (o + Z.of_nat n) (zlen r)); [lia|]. by rewrite E.
    + destruct (copy_at_ok r o (le_encode n v)) as (r' & -> & Hl' & _ & Hf); [done|rewrite zlen_le_encode; lia|].
      rewrite zlen_le_encode in Hf. rewrite (get_range_holds r' o' _ bs); [done|done|done|].
      apply (holds_frame r r' o' bs o (Z.of_nat n)); [done|done|exact Hf|done|lia|lia].
  - apply get_range_None in E. destruct (get_range _ o' _) as [bs|] eqn:E'; [|done]. apply get_range_Some in E'; [|done]. lia.
Qed.

Lemma read_fits n r o : 0 <= o -> fits (8 * Z.of_nat n) (read_uint n r o).
Proof.
  intros H0. unfold read_uint. destruct (get_range r o _) as [bs|] eqn:E; [|unfold fits; split; [done|apply Z.pow_pos_nonneg; lia]].
  apply get_range_Some in E as (Hl & _); [|done]. pose proof (le_decode_range bs) as Hr. by replace (zlen bs) with (Z.of_nat n) in Hr by lia.
Qed.

(** A fresh region reads as zeros. *)
Lemma read_zero n m o : 0 <= o -> read_uint n (replicate m x00) o = 0.
Proof.
  intros H0. unfold read_uint. destruct (get_range _ o _) as [bs|] eqn:E; [|done]. unfold get_range in E. destruct (_ && _); [|done].
  injection E as <-. rewrite drop_replicate, take_replicate. generalize (Z.to_nat (o + Z.of_nat n - o) `min` (m - Z.to_nat o))%nat. intros k.
  induction k as [|k IH]; [done|]. cbn [replicate le_decode]. rewrite IH. done.
Qed.

(** Checked slices of the region, in range. *)
Lemma copy_write n r o v : 0 <= o -> o + Z.of_nat n <= zlen r -> copy_at r o (le_encode n v) = Ret (write_uint n r o v).
Proof. intros H0 H1. unfold write_uint. destruct (copy_at_ok r o (le_encode n v)) as (r' & -> & _); [done|rewrite zlen_le_encode; lia|done]. Qed.

Lemma get_read n r o : 0 <= o -> o + Z.of_nat n <= zlen r -> exists bs, get_range r o (o + Z.of_nat n) = Some bs /\ le_decode bs = read_uint n r o.
Proof. intros H0 H1. unfold read_uint. destruct (get_range_is_Some r o (o + Z.of_nat n)) as [bs E]; [lia|]. rewrite E. by eexists. Qed.

End Region.
