(* ===== verification/IrData.v ===== *)
(** * The IR wire format: integers, record frames and decoded views

    Models src/crates/kwokka-ir/src: flat/header.rs, error/fault.rs,
    node/tag.rs, the readers of flat/reader.rs, policy/*.rs, config/*.rs,
    registry/*.rs and conductor/{edge,stage}.rs.  A borrowed slice is the list
    of its bytes; [usize] arithmetic keeps its checked operations. *)

From S2P Require Import Prelude IrBytes.
From Stdlib.Init Require Import Byte.
From stdpp Require Import base tactics list numbers.

Local Open Scope Z_scope.

Module Header.
Definition MAGIC : list byte := [x4b; x57; x49; x52].
Definition VERSION : Z := 1.
Definition HEADER_LEN : Z := 16.
Definition ROOT_OFFSET_FIELD : Z := 12.
End Header.

Module NodeTag.
Inductive t : Type :=
| ConductorSpec | StageNode | Edge | PolicyRetry | PolicyBreaker
| PolicyLimiter | PolicyTimeout | RegistryEntry | ConfigBinding.

#[global] Instance t_eq_dec : EqDecision t.
Proof. solve_decision. Defined.

(** [self as u16]. *)
Definition to_u16 (tag : t) : Z :=
  match tag with
  | ConductorSpec => 1 | StageNode => 2 | Edge => 3 | PolicyRetry => 4 | PolicyBreaker => 5
  | PolicyLimiter => 6 | PolicyTimeout => 7 | RegistryEntry => 8 | ConfigBinding => 9
  end.

Definition from_u16 (value : Z) : option t :=
  match value with
  | 1 => Some ConductorSpec
  | 2 => Some StageNode
  | 3 => Some Edge
  | 4 => Some PolicyRetry
  | 5 => Some PolicyBreaker
  | 6 => Some PolicyLimiter
  | 7 => Some PolicyTimeout
  | 8 => Some RegistryEntry
  | 9 => Some ConfigBinding
  | _ => None
  end.

Lemma from_to_u16 tag : from_u16 (to_u16 tag) = Some tag.
Proof. by destruct tag. Qed.

Lemma from_u16_Some v tag : from_u16 v = Some tag -> v = to_u16 tag.
Proof. unfold from_u16. repeat case_match; naive_solver. Qed.
End NodeTag.

Inductive IrError : Type :=
| BadMagic
| UnsupportedVersion (found : Z)
| Truncated
| OutOfBounds
| Misaligned
| BadTag (tag : Z)
| OrdinalOutOfRange
| RegistryUnsorted.

#[global] Instance IrError_eq_dec : EqDecision IrError.
Proof. solve_decision. Defined.

Module Reader.
Import Bytes.

Definition RECORD_HEADER_LEN : Z := 8.
Definition RECORD_ALIGN : Z := 8.

Record RecordView : Type := mkRecord { tag : NodeTag.t; body : list byte }.

Definition read_u16 (bytes : list byte) (offset : Z) : result IrError Z :=
  end_ ← ok_or (checked_add USIZE offset 2) Truncated;
  match get_range bytes offset end_ with
  | Some [a; b] => Ok (le_decode [a; b])
  | _ => Err Truncated
  end.

Definition read_u8 (bytes : list byte) (offset : Z) : result IrError Z :=
  ok_or (byte_to_Z <$> get bytes offset) Truncated.

Definition read_u32 (bytes : list byte) (offset : Z) : result IrError Z :=
  end_ ← ok_or (checked_add USIZE offset 4) Truncated;
  match get_range bytes offset end_ with
  | Some [a; b; c; d] => Ok (le_decode [a; b; c; d])
  | _ => Err Truncated
  end.

(** [slice.try_into::<[u8; 8]>()]. *)
Definition as_array8 (slice : list byte) : option (list byte) :=
  if (length slice =? 8)%nat then Some slice else None.

Definition read_u64 (bytes : list byte) (offset : Z) : result IrError Z :=
  end_ ← ok_or (checked_add USIZE offset 8) Truncated;
  chunk ← ok_or (get_range bytes offset end_ ≫= as_array8) Truncated;
  Ok (le_decode chunk).

Definition read_record (bytes : list byte) (offset : Z) : result IrError RecordView :=
  if negb (offset mod RECORD_ALIGN =? 0) then Err Misaligned else
  tag_raw ← read_u16 bytes offset;
  len_offset ← ok_or (checked_add USIZE offset 4) Truncated;
  len ← read_u32 bytes len_offset;
  if len <? RECORD_HEADER_LEN then Err OutOfBounds else
  if negb (len mod RECORD_ALIGN =? 0) then Err Misaligned else
  end_ ← ok_or (checked_add USIZE offset len) OutOfBounds;
  body_start ← ok_or (checked_add USIZE offset RECORD_HEADER_LEN) OutOfBounds;
  body ← ok_or (get_range bytes body_start end_) OutOfBounds;
  tag ← ok_or (NodeTag.from_u16 tag_raw) (BadTag tag_raw);
  Ok (mkRecord tag body).
End Reader.

Module LimiterView.
Import Bytes Reader.
Record t : Type := new { capacity : Z; refill_tokens : Z; refill_period_ns : Z }.
Definition LEN : Z := 16.
Definition parse (body : list byte) : result IrError t :=
  if negb (zlen body =? LEN) then Err Truncated else
  capacity ← read_u32 body 0;
  refill_tokens ← read_u32 body 4;
  refill_period_ns ← read_u64 body 8;
  Ok (new capacity refill_tokens refill_period_ns).
End LimiterView.

Module TimeoutView.
Import Bytes Reader.
Record t : Type := new { duration_ns : Z }.
Definition LEN : Z := 8.
Definition parse (body : list byte) : result IrError t :=
  if negb (zlen body =? LEN) then Err Truncated else
  duration_ns ← read_u64 body 0;
  Ok (new duration_ns).
End TimeoutView.

Module RetryView.
Import Bytes Reader.
Record t : Type := new {
  max_attempts : Z;
  backoff_kind : Z;
  jitter_kind : Z;
  base_delay_ns : Z;
  max_delay_ns : Z;
}.
Definition LEN : Z := 24.
Definition parse (body : list byte) : result IrError t :=
  if negb (zlen body =? LEN) then Err Truncated else
  max_attempts ← read_u32 body 0;
  backoff_kind ← read_u8 body 4;
  jitter_kind ← read_u8 body 5;
  base_delay_ns ← read_u64 body 8;
  max_delay_ns ← read_u64 body 16;
  Ok (new max_attempts backoff_kind jitter_kind base_delay_ns max_delay_ns).
End RetryView.

Module BreakerView.
Import Bytes Reader.
Record t : Type := new {
  window_kind : Z;
  failure_rate_percent : Z;
  minimum_calls : Z;
  window_span : Z;
  half_open_max_calls : Z;
  half_open_success_threshold : Z;
  open_duration_ns : Z;
}.
Definition LEN : Z := 32.
Definition parse (body : list byte) : result IrError t :=
  if negb (zlen body =? LEN) then Err Truncated else
  window_kind ← read_u8 body 0;
  failure_rate_percent ← read_u8 body 1;
  minimum_calls ← read_u32 body 4;
  window_span ← read_u64 body 8;
  half_open_max_calls ← read_u32 body 16;
  half_open_success_threshold ← read_u32 body 20;
  open_duration_ns ← read_u64 body 24;
  Ok (new window_kind failure_rate_percent minimum_calls window_span half_open_max_calls
        half_open_success_threshold open_duration_ns).
End BreakerView.

Module PolicyKind.
Inductive t : Type := Limiter | Timeout | Retry | Breaker.

#[global] Instance t_eq_dec : EqDecision t.
Proof. solve_decision. Defined.

Definition COUNT : Z := 4.
Definition ALL : list t := [Limiter; Timeout; Retry; Breaker].

Definition node_tag (self : t) : NodeTag.t :=
  match self with
  | Limiter => NodeTag.PolicyLimiter
  | Timeout => NodeTag.PolicyTimeout
  | Retry => NodeTag.PolicyRetry
  | Breaker => NodeTag.PolicyBreaker
  end.

Definition slot_field (self : t) : Z :=
  match self with Limiter => 0 | Timeout => 4 | Retry => 8 | Breaker => 12 end.

(** [r.map(drop)]. *)
Definition forget {E A} (r : result E A) : result E unit :=
  match r with Ok _ => Ok tt | Err e => Err e end.

Definition validate_body (self : t) (body : list byte) : result IrError unit :=
  match self with
  | Limiter => forget (LimiterView.parse body)
  | Timeout => forget (TimeoutView.parse body)
  | Retry => forget (RetryView.parse body)
  | Breaker => forget (BreakerView.parse body)
  end.
End PolicyKind.

Module ScalarValue.
Import Bytes Reader.
Record t : Type := new { kind : Z; value : Z }.
Definition LEN : Z := 16.
Definition parse (body : list byte) : result IrError t :=
  if negb (zlen body =? LEN) then Err Truncated else
  kind ← read_u8 body 0;
  value ← read_u64 body 8;
  Ok (new kind value).
Definition as_bool (self : t) : bool := negb (value self =? 0).
End ScalarValue.

Module ConfigBindingView.
Import Bytes Reader.
Record t : Type := mk {
  node_ordinal : Z;
  field_tag : Z;
  key : list byte;
  default_value : ScalarValue.t;
}.
Definition LEN : Z := 32.
Definition SCALAR_OFFSET : Z := 16.
Definition parse (body entry : list byte) : result IrError t :=
  if negb (zlen entry =? LEN) then Err Truncated else
  node_ordinal ← read_u16 entry 0;
  field_tag ← read_u16 entry 2;
  key_len ← read_u32 entry 4;
  key_offset ← read_u32 entry 8;
  key_end ← ok_or (checked_add USIZE key_offset key_len) OutOfBounds;
  key ← ok_or (get_range body key_offset key_end) OutOfBounds;
  scalar ← ok_or (get_range entry SCALAR_OFFSET LEN) OutOfBounds;
  default_value ← ScalarValue.parse scalar;
  Ok (mk node_ordinal field_tag key default_value).
End ConfigBindingView.

Module EdgeView.
Import Bytes.
Record t : Type := new { from_ordinal : Z; to_ordinal : Z; input_index : Z }.
Definition LEN : Z := 8.
Definition parse (bytes : list byte) : option t :=
  match bytes with
  | [f0; f1; t0; t1; i0; i1; _; _] =>
      Some (new (le_decode [f0; f1]) (le_decode [t0; t1]) (le_decode [i0; i1]))
  | _ => None
  end.
End EdgeView.

Module RegistryView.
Import Bytes.
Record t : Type := new {
  body : list byte;
  name_table : list byte;
  sorted_index : list byte;
  count : Z;
}.
Definition NAME_ENTRY_LEN : Z := 8.
Definition SORTED_ENTRY_LEN : Z := 2.
Definition stage_count (self : t) : Z := count self.
Definition is_empty (self : t) : bool := count self =? 0.

Definition name (self : t) (ordinal : Z) : option (list byte) :=
  if count self <=? ordinal then None else
  offset ← checked_mul USIZE ordinal NAME_ENTRY_LEN;
  end_ ← checked_add USIZE offset NAME_ENTRY_LEN;
  entry ← get_range (name_table self) offset end_;
  match entry with
  | [o0; o1; o2; o3; l0; l1; l2; l3] =>
      let str_offset := le_decode [o0; o1; o2; o3] in
      let str_len := le_decode [l0; l1; l2; l3] in
      str_end ← checked_add USIZE str_offset str_len;
      get_range (body self) str_offset str_end
  | _ => None
  end.

Definition sorted_ordinal (self : t) (rank : Z) : option Z :=
  offset ← checked_mul USIZE rank SORTED_ENTRY_LEN;
  end_ ← checked_add USIZE offset SORTED_ENTRY_LEN;
  entry ← get_range (sorted_index self) offset end_;
  match entry with
  | [a; b] => Some (le_decode [a; b])
  | _ => None
  end.

(** The binary search of registry/name.rs; [high - low] shrinks at every
    turn, so [Z.to_nat (high - low)] turns suffice ([lookup_loop_fuel]). *)
Fixpoint lookup_loop (fuel : nat) (self : t) (nm : list byte) (low high : Z) : option Z :=
  match fuel with
  | O => None
  | S fuel =>
      if low <? high then
        let mid := low + (high - low) / 2 in
        ordinal ← sorted_ordinal self mid;
        probe ← name self ordinal;
        match bytes_cmp nm probe with
        | Eq => Some ordinal
        | Lt => lookup_loop fuel self nm low mid
        | Gt => lookup_loop fuel self nm (mid + 1) high
        end
      else None
  end.

Definition lookup (self : t) (nm : list byte) : option Z :=
  lookup_loop (Z.to_nat (stage_count self)) self nm 0 (stage_count self).
End RegistryView.

Module StageView.
Import Bytes Reader.
Record t : Type := new { body : list byte; entry : list byte }.

Definition policy_body (self : t) (kind : PolicyKind.t) : option (list byte) :=
  match read_u32 (entry self) (PolicyKind.slot_field kind) with
  | Err _ => None
  | Ok slot_offset =>
      if slot_offset =? 0 then None else
      record ← ok (read_record (body self) slot_offset);
      if decide (Reader.tag record = PolicyKind.node_tag kind) then Some (Reader.body record) else None
  end.

Definition limiter (self : t) : option LimiterView.t :=
  policy_body self PolicyKind.Limiter ≫= fun body => ok (LimiterView.parse body).
Definition timeout (self : t) : option TimeoutView.t :=
  policy_body self PolicyKind.Timeout ≫= fun body => ok (TimeoutView.parse body).
Definition retry (self : t) : option RetryView.t :=
  policy_body self PolicyKind.Retry ≫= fun body => ok (RetryView.parse body).
Definition breaker (self : t) : option BreakerView.t :=
  policy_body self PolicyKind.Breaker ≫= fun body => ok (BreakerView.parse body).
End StageView.
