(* ===== verification/IrCheck.v ===== *)
(** * Bounds-checking an untrusted blob

    Models src/crates/kwokka-ir/src: conductor/check.rs, conductor/spec.rs,
    [validate] of flat/reader.rs and node/blob.rs.  The [while offset <
    table.len()] loops share one shape and are one definition,
    [for_each_entry]; the [for] loops over ranges are [for_range]. *)

From S2P Require Import Prelude IrBytes IrData.
From Stdlib.Init Require Import Byte.
From stdpp Require Import base tactics list numbers.

Local Open Scope Z_scope.

Module Check.
Import Bytes Reader.

Definition STAGE_COUNT_FIELD : Z := 0.
Definition EDGE_COUNT_FIELD : Z := 4.
Definition STAGE_TABLE_OFFSET_FIELD : Z := 8.
Definition EDGE_TABLE_OFFSET_FIELD : Z := 12.
Definition REGISTRY_TABLE_OFFSET_FIELD : Z := 16.
Definition CONFIG_TABLE_OFFSET_FIELD : Z := 20.
Definition CONDUCTOR_HEADER_LEN : Z := 24.
Definition STAGE_ENTRY_LEN : Z := PolicyKind.COUNT * 4.
Definition CONFIG_HEADER_LEN : Z := 8.

Record Span : Type := mkSpan { offset : Z; len : Z }.

Definition ranges_overlap (left right : Span) : bool :=
  (offset left <? offset right + len right) && (offset right <? offset left + len left).

Definition overlaps_any (span : Span) (sections : list Span) : bool :=
  existsb (fun section => ranges_overlap span section) sections.

Definition slice_table (body : list byte) (offset_field count entry_len : Z)
    : result IrError (Z * list byte) :=
  table_offset ← read_u32 body offset_field;
  if table_offset <? CONDUCTOR_HEADER_LEN then Err OutOfBounds else
  span ← ok_or (checked_mul USIZE count entry_len) OutOfBounds;
  end_ ← ok_or (checked_add USIZE table_offset span) OutOfBounds;
  slice ← ok_or (get_range body table_offset end_) OutOfBounds;
  Ok (table_offset, slice).

(** [while offset < table.len() { entry = table.get(offset..offset + stride)?;
    f(entry)?; offset += stride }] with the checked additions of the source;
    the fuel is one turn per byte of the table, see [for_each_entry_unfold]. *)
Fixpoint for_each_entry_from (fuel : nat) (table : list byte) (stride : Z)
    (f : list byte -> result IrError unit) (offset : Z) : result IrError unit :=
  match fuel with
  | O => Ok tt
  | S fuel =>
      if offset <? zlen table then
        end_ ← ok_or (checked_add USIZE offset stride) OutOfBounds;
        entry ← ok_or (get_range table offset end_) OutOfBounds;
        _ ← f entry;
        for_each_entry_from fuel table stride f (offset + stride)
      else Ok tt
  end.

Definition for_each_entry (table : list byte) (stride : Z) (f : list byte -> result IrError unit)
    : result IrError unit :=
  for_each_entry_from (length table) table stride f 0.

(** [for i in lo..lo + n { f(i)? }]. *)
Fixpoint for_range (n : nat) (lo : Z) (f : Z -> result IrError unit) : result IrError unit :=
  match n with
  | O => Ok tt
  | S n => _ ← f lo; for_range n (lo + 1) f
  end.

Definition check_edge_ordinals (edge_table : list byte) (stage_count : Z) : result IrError unit :=
  for_each_entry edge_table EdgeView.LEN (fun entry =>
    edge ← ok_or (EdgeView.parse entry) OutOfBounds;
    if (stage_count <=? EdgeView.from_ordinal edge) || (stage_count <=? EdgeView.to_ordinal edge)
    then Err OrdinalOutOfRange else Ok tt).

Definition record_span_at (body entry : list byte) (kind : PolicyKind.t)
    : result IrError (option Span) :=
  slot_offset ← read_u32 entry (PolicyKind.slot_field kind);
  if slot_offset =? 0 then Ok None else
  if slot_offset <? CONDUCTOR_HEADER_LEN then Err OutOfBounds else
  record ← read_record body slot_offset;
  len ← ok_or (checked_add USIZE RECORD_HEADER_LEN (zlen (Reader.body record))) OutOfBounds;
  Ok (Some (mkSpan slot_offset len)).

Definition check_policy_slot (body entry : list byte) (kind : PolicyKind.t) (sections : list Span)
    : result IrError unit :=
  record_span ← record_span_at body entry kind;
  match record_span with
  | None => Ok tt
  | Some record_span =>
      record ← read_record body (offset record_span);
      if negb (bool_decide (Reader.tag record = PolicyKind.node_tag kind))
      then Err (BadTag (NodeTag.to_u16 (Reader.tag record))) else
      _ ← PolicyKind.validate_body kind (Reader.body record);
      if overlaps_any record_span sections then Err OutOfBounds else Ok tt
  end.

(** [for kind in PolicyKind::ALL { f(kind)? }]. *)
Fixpoint for_kinds (kinds : list PolicyKind.t) (f : PolicyKind.t -> result IrError unit)
    : result IrError unit :=
  match kinds with
  | [] => Ok tt
  | k :: kinds => _ ← f k; for_kinds kinds f
  end.

Definition check_stage_policies (body stage_table : list byte) (sections : list Span)
    : result IrError unit :=
  for_each_entry stage_table STAGE_ENTRY_LEN (fun entry =>
    for_kinds PolicyKind.ALL (fun kind => check_policy_slot body entry kind sections)).

Definition nth_record_span (body stage_table : list byte) (n : Z) : result IrError (option Span) :=
  offset ← ok_or (checked_mul USIZE (n / PolicyKind.COUNT) STAGE_ENTRY_LEN) OutOfBounds;
  end_ ← ok_or (checked_add USIZE offset STAGE_ENTRY_LEN) OutOfBounds;
  entry ← ok_or (get_range stage_table offset end_) OutOfBounds;
  match PolicyKind.ALL !! Z.to_nat (n mod PolicyKind.COUNT) with
  | Some kind => record_span_at body entry kind
  | None => Err OutOfBounds
  end.

Definition check_record_overlaps (body stage_table : list byte) : result IrError unit :=
  total ← ok_or (checked_mul USIZE (zlen stage_table / STAGE_ENTRY_LEN) PolicyKind.COUNT) OutOfBounds;
  for_range (Z.to_nat total) 0 (fun a =>
    span_a ← nth_record_span body stage_table a;
    match span_a with
    | None => Ok tt
    | Some span_a =>
        for_range (Z.to_nat (total - (a + 1))) (a + 1) (fun b =>
          span_b ← nth_record_span body stage_table b;
          match span_b with
          | None => Ok tt
          | Some span_b => if ranges_overlap span_a span_b then Err OutOfBounds else Ok tt
          end)
    end).

Record ParsedRegistry : Type := mkParsedRegistry {
  view : RegistryView.t;
  name_table : list byte;
  name_span : Span;
  sorted_span : Span;
}.

Definition check_registry_names (view : RegistryView.t) (stage_count : Z) : result IrError unit :=
  for_range (Z.to_nat stage_count) 0 (fun ordinal =>
    match RegistryView.name view ordinal with None => Err OutOfBounds | Some _ => Ok tt end).

Definition check_sorted_ordinals (sorted_index : list byte) (stage_count : Z) : result IrError unit :=
  for_each_entry sorted_index RegistryView.SORTED_ENTRY_LEN (fun entry =>
    match entry with
    | [a; b] => if stage_count <=? le_decode [a; b] then Err OrdinalOutOfRange else Ok tt
    | _ => Err OutOfBounds
    end).

Definition parse_registry (body : list byte) (stage_count : Z)
    : result IrError (option ParsedRegistry) :=
  registry_offset ← read_u32 body REGISTRY_TABLE_OFFSET_FIELD;
  if registry_offset =? 0 then Ok None else
  '(name_offset, name_table) ←
    slice_table body REGISTRY_TABLE_OFFSET_FIELD stage_count RegistryView.NAME_ENTRY_LEN;
  sorted_offset ← ok_or (checked_add USIZE name_offset (zlen name_table)) OutOfBounds;
  sorted_len ← ok_or (checked_mul USIZE stage_count RegistryView.SORTED_ENTRY_LEN) OutOfBounds;
  sorted_end ← ok_or (checked_add USIZE sorted_offset sorted_len) OutOfBounds;
  sorted_index ← ok_or (get_range body sorted_offset sorted_end) OutOfBounds;
  let view := RegistryView.new body name_table sorted_index stage_count in
  _ ← check_registry_names view stage_count;
  _ ← check_sorted_ordinals sorted_index stage_count;
  Ok (Some (mkParsedRegistry view name_table (mkSpan name_offset (zlen name_table))
              (mkSpan sorted_offset (zlen sorted_index)))).

Record ParsedConfig : Type := mkParsedConfig {
  count : Z;
  entries : list byte;
  section_span : Span;
}.

Definition check_config_entries (body entries : list byte) (stage_count : Z) : result IrError unit :=
  for_each_entry entries ConfigBindingView.LEN (fun entry =>
    binding ← ConfigBindingView.parse body entry;
    if stage_count <=? ConfigBindingView.node_ordinal binding then Err OrdinalOutOfRange else Ok tt).

Definition parse_config (body : list byte) (stage_count : Z)
    : result IrError (option ParsedConfig) :=
  config_offset ← read_u32 body CONFIG_TABLE_OFFSET_FIELD;
  if config_offset =? 0 then Ok None else
  if config_offset <? CONDUCTOR_HEADER_LEN then Err OutOfBounds else
  count ← read_u32 body config_offset;
  entries_offset ← ok_or (checked_add USIZE config_offset CONFIG_HEADER_LEN) OutOfBounds;
  entries_len ← ok_or (checked_mul USIZE count ConfigBindingView.LEN) OutOfBounds;
  entries_end ← ok_or (checked_add USIZE entries_offset entries_len) OutOfBounds;
  entries ← ok_or (get_range body entries_offset entries_end) OutOfBounds;
  _ ← check_config_entries body entries stage_count;
  section_len ← ok_or (checked_add USIZE CONFIG_HEADER_LEN entries_len) OutOfBounds;
  Ok (Some (mkParsedConfig count entries (mkSpan config_offset section_len))).

(** [for (index, &section) in sections.iter().enumerate()] over
    [&sections[index + 1..]]. *)
Fixpoint check_sections_disjoint (sections : list Span) : result IrError unit :=
  match sections with
  | [] => Ok tt
  | section :: rest =>
      if existsb (fun other => ranges_overlap section other) rest then Err OutOfBounds
      else check_sections_disjoint rest
  end.

Definition max_end (floor : Z) (span : Span) : Z := Z.max floor (offset span + len span).

(** [for n in 0..total { if let Some(span) = nth_record_span(..)? { floor =
    floor.max(..) } }]. *)
Fixpoint record_floor (n : nat) (i : Z) (body stage_table : list byte) (floor : Z)
    : result IrError Z :=
  match n with
  | O => Ok floor
  | S n =>
      span ← nth_record_span body stage_table i;
      record_floor n (i + 1) body stage_table
        (match span with Some span => max_end floor span | None => floor end)
  end.

Definition heap_floor (sections : list Span) (body stage_table : list byte) : result IrError Z :=
  let floor := foldl max_end 0 sections in
  total ← ok_or (checked_mul USIZE (zlen stage_table / STAGE_ENTRY_LEN) PolicyKind.COUNT) OutOfBounds;
  record_floor (Z.to_nat total) 0 body stage_table floor.

Definition check_names_in_heap (name_table : list byte) (floor : Z) : result IrError unit :=
  for_each_entry name_table RegistryView.NAME_ENTRY_LEN (fun entry =>
    o ← read_u32 entry 0; if o <? floor then Err OutOfBounds else Ok tt).

Definition check_keys_in_heap (entries : list byte) (floor : Z) : result IrError unit :=
  for_each_entry entries ConfigBindingView.LEN (fun entry =>
    o ← read_u32 entry 8; if o <? floor then Err OutOfBounds else Ok tt).

Fixpoint check_sorted_from (n : nat) (rank : Z) (view : RegistryView.t) (previous : option (list byte))
    : result IrError unit :=
  match n with
  | O => Ok tt
  | S n =>
      ordinal ← ok_or (RegistryView.sorted_ordinal view rank) OutOfBounds;
      name ← ok_or (RegistryView.name view ordinal) OutOfBounds;
      _ ← match previous with
          | Some prev => match bytes_cmp name prev with Lt => Err RegistryUnsorted | _ => Ok tt end
          | None => Ok tt
          end;
      check_sorted_from n (rank + 1) view (Some name)
  end.

Definition check_sorted_order (view : RegistryView.t) (stage_count : Z) : result IrError unit :=
  check_sorted_from (Z.to_nat stage_count) 0 view None.

Record Parsed : Type := mkParsed {
  body : list byte;
  stage_count : Z;
  edge_count : Z;
  stage_table : list byte;
  edge_table : list byte;
  registry : option RegistryView.t;
  config_count : Z;
  config_entries : list byte;
}.

(** The occupied prefix of the five-slot section array. *)
Definition section_spans (stage_span edge_span : Span) (registry : option ParsedRegistry)
    (config : option ParsedConfig) : list Span :=
  [stage_span; edge_span]
  ++ match registry with Some reg => [name_span reg; sorted_span reg] | None => [] end
  ++ match config with Some cfg => [section_span cfg] | None => [] end.

Definition parse (body : list byte) : result IrError Parsed :=
  stage_count ← read_u32 body STAGE_COUNT_FIELD;
  edge_count ← read_u32 body EDGE_COUNT_FIELD;
  '(stage_off, stage_table) ←
    slice_table body STAGE_TABLE_OFFSET_FIELD stage_count STAGE_ENTRY_LEN;
  '(edge_off, edge_table) ← slice_table body EDGE_TABLE_OFFSET_FIELD edge_count EdgeView.LEN;
  registry ← parse_registry body stage_count;
  config ← parse_config body stage_count;
  let sections := section_spans (mkSpan stage_off (zlen stage_table))
                    (mkSpan edge_off (zlen edge_table)) registry config in
  _ ← check_sections_disjoint sections;
  _ ← check_edge_ordinals edge_table stage_count;
  _ ← check_stage_policies body stage_table sections;
  _ ← check_record_overlaps body stage_table;
  floor ← heap_floor sections body stage_table;
  _ ← match registry with
      | Some reg => _ ← check_names_in_heap (name_table reg) floor; check_sorted_order (view reg) stage_count
      | None => Ok tt
      end;
  _ ← match config with Some cfg => check_keys_in_heap (entries cfg) floor | None => Ok tt end;
  Ok (mkParsed body stage_count edge_count stage_table edge_table (view <$> registry)
        (match config with Some cfg => count cfg | None => 0 end)
        (match config with Some cfg => entries cfg | None => [] end)).
End Check.

Module ConductorView.
Import Bytes Check.

Record t : Type := mk {
  body : list byte;
  stage_count : Z;
  edge_count : Z;
  stage_table : list byte;
  edge_table : list byte;
  registry : option RegistryView.t;
  config_count : Z;
  config_entries : list byte;
}.

Definition parse (bytes : list byte) : result IrError t :=
  checked ← Check.parse bytes;
  Ok (mk (Check.body checked) (Check.stage_count checked) (Check.edge_count checked)
        (Check.stage_table checked) (Check.edge_table checked) (Check.registry checked)
        (Check.config_count checked) (Check.config_entries checked)).

Definition stage (self : t) (ordinal : Z) : option StageView.t :=
  if stage_count self <=? ordinal then None else
  offset ← checked_mul USIZE ordinal STAGE_ENTRY_LEN;
  end_ ← checked_add USIZE offset STAGE_ENTRY_LEN;
  entry ← get_range (stage_table self) offset end_;
  Some (StageView.new (body self) entry).

Definition edge (self : t) (index : Z) : option EdgeView.t :=
  offset ← checked_mul USIZE index EdgeView.LEN;
  end_ ← checked_add USIZE offset EdgeView.LEN;
  entry ← get_range (edge_table self) offset end_;
  EdgeView.parse entry.

(** [(0..n).filter_map(f)]. *)
Definition filter_map_range {A} (n : Z) (f : Z -> option A) : list A :=
  omap f (seqZ 0 n).

Definition edges (self : t) : list EdgeView.t := filter_map_range (edge_count self) (edge self).

Definition config_binding (self : t) (index : Z) : option ConfigBindingView.t :=
  offset ← checked_mul USIZE index ConfigBindingView.LEN;
  end_ ← checked_add USIZE offset ConfigBindingView.LEN;
  entry ← get_range (config_entries self) offset end_;
  ok (ConfigBindingView.parse (body self) entry).

Definition config_bindings (self : t) : list ConfigBindingView.t :=
  filter_map_range (config_count self) (config_binding self).
End ConductorView.

Module Blob.
Import Bytes Reader Header.

(** node/blob.rs: [KwokkaIr] wraps the bytes. *)
Record KwokkaIr : Type := from_trusted { as_bytes : list byte }.

Definition conductor (self : KwokkaIr) : result IrError ConductorView.t :=
  root_offset ← read_u32 (as_bytes self) ROOT_OFFSET_FIELD;
  root ← read_record (as_bytes self) root_offset;
  if negb (bool_decide (Reader.tag root = NodeTag.ConductorSpec))
  then Err (BadTag (NodeTag.to_u16 (Reader.tag root))) else
  ConductorView.parse (Reader.body root).

Definition validate (bytes : list byte) : result IrError KwokkaIr :=
  if zlen bytes <? HEADER_LEN then Err Truncated else
  if negb (bool_decide (get_range bytes 0 (zlen MAGIC) = Some MAGIC)) then Err BadMagic else
  version ← read_u16 bytes 4;
  if VERSION <? version then Err (UnsupportedVersion version) else
  total_len ← read_u32 bytes 8;
  if negb (total_len =? zlen bytes) then Err Truncated else
  root_offset ← read_u32 bytes ROOT_OFFSET_FIELD;
  root ← read_record bytes root_offset;
  if negb (bool_decide (Reader.tag root = NodeTag.ConductorSpec))
  then Err (BadTag (NodeTag.to_u16 (Reader.tag root))) else
  _ ← ConductorView.parse (Reader.body root);
  Ok (from_trusted bytes).
End Blob.
