(* ===== verification/IrWrite.v ===== *)
(** * The flat writer

    Models src/crates/kwokka-ir/src: conductor/draft.rs and flat/writer.rs.
    The destination buffer is threaded through; an indexed write outside it is
    [Panic].  The plain [usize] additions of the source compute offsets into
    that buffer, so an overflowing one would panic as well and is not
    distinguished.  [&mut heap] is threaded as a second component. *)

From S2P Require Import Prelude IrBytes IrData.
From Stdlib.Init Require Import Byte.
From stdpp Require Import base tactics list numbers.

Local Open Scope Z_scope.

Module Draft.
Record StageSpec : Type := mkStage {
  limiter : option LimiterView.t;
  timeout : option TimeoutView.t;
  retry : option RetryView.t;
  breaker : option BreakerView.t;
}.

Record RegistrySpec : Type := mkRegistry {
  names : list (list byte);
  sorted : list Z;
}.

Record ConfigBindingSpec : Type := mkBinding {
  node_ordinal : Z;
  field_tag : Z;
  key : list byte;
  default_value : ScalarValue.t;
}.

Record ConductorBlob : Type := mkBlob {
  stages : list StageSpec;
  edges : list EdgeView.t;
  registry : option RegistrySpec;
  config : list ConfigBindingSpec;
}.
End Draft.

Module Writer.
Import Bytes Header Draft.
Import Reader(RECORD_HEADER_LEN).

Definition CONDUCTOR_HEADER_LEN : Z := 24.
Definition STAGE_ENTRY_LEN : Z := PolicyKind.COUNT * 4.
Definition CONFIG_HEADER_LEN : Z := 8.
Definition BODY_OFFSET : Z := HEADER_LEN + RECORD_HEADER_LEN.

Inductive WriteError : Type :=
| BufferTooSmall (needed available : Z)
| SpecTooLarge
| RegistryArity (names sorted stages : Z).

Record Layout : Type := mkLayout {
  total : Z;
  spec_record_len : Z;
  stage_count : Z;
  edge_count : Z;
  edge_table_off : Z;
  policy_heap_off : Z;
  registry_off : Z;
  config_off : Z;
  heap_off : Z;
}.

Definition align8 (value : Z) : result WriteError Z :=
  bumped ← ok_or (checked_add USIZE value 7) SpecTooLarge;
  Ok (Z.land bumped (lnot USIZE 7)).

Definition validate_registry_arity (blob : ConductorBlob) : result WriteError unit :=
  match registry blob with
  | None => Ok tt
  | Some reg =>
      if negb (zlen (names reg) =? zlen (stages blob)) || negb (zlen (sorted reg) =? zlen (stages blob))
      then Err (RegistryArity (zlen (names reg)) (zlen (sorted reg)) (zlen (stages blob)))
      else Ok tt
  end.

Definition registry_len (stage_count : Z) : result WriteError Z :=
  names ← ok_or (checked_mul USIZE stage_count RegistryView.NAME_ENTRY_LEN) SpecTooLarge;
  sorted ← ok_or (checked_mul USIZE stage_count RegistryView.SORTED_ENTRY_LEN) SpecTooLarge;
  sum ← ok_or (checked_add USIZE names sorted) SpecTooLarge;
  align8 sum.

(** [for x in xs { total = total.checked_add(len(x))? }]. *)
Fixpoint checked_sum (total : Z) (lens : list Z) : result WriteError Z :=
  match lens with
  | [] => Ok total
  | n :: lens => total ← ok_or (checked_add USIZE total n) SpecTooLarge; checked_sum total lens
  end.

Definition string_heap_len (blob : ConductorBlob) : result WriteError Z :=
  total ← match registry blob with
          | Some reg => checked_sum 0 (zlen <$> names reg)
          | None => Ok 0
          end;
  checked_sum total ((fun b => zlen (key b)) <$> config blob).

Definition slot_len {A} (slot : option A) (len : Z) : option Z :=
  match slot with Some _ => Some len | None => None end.

Definition record_body_lens (stage : StageSpec) : list (option Z) :=
  [slot_len (limiter stage) LimiterView.LEN; slot_len (timeout stage) TimeoutView.LEN;
   slot_len (retry stage) RetryView.LEN; slot_len (breaker stage) BreakerView.LEN].

Definition payload_len (stage : StageSpec) : result WriteError Z :=
  checked_sum 0 ((fun len => RECORD_HEADER_LEN + len) <$> omap id (record_body_lens stage)).

Fixpoint add_payloads (after_policies : Z) (stages : list StageSpec) : result WriteError Z :=
  match stages with
  | [] => Ok after_policies
  | stage :: stages =>
      n ← payload_len stage;
      after_policies ← ok_or (checked_add USIZE after_policies n) SpecTooLarge;
      add_payloads after_policies stages
  end.

Definition compute (blob : ConductorBlob) : result WriteError Layout :=
  stage_count ← ok_or (try_from U32 (zlen (stages blob))) SpecTooLarge;
  edge_count ← ok_or (try_from U32 (zlen (edges blob))) SpecTooLarge;
  _ ← validate_registry_arity blob;
  stage_table_len ← ok_or (checked_mul USIZE (zlen (stages blob)) STAGE_ENTRY_LEN) SpecTooLarge;
  edge_table_off ← ok_or (checked_add USIZE CONDUCTOR_HEADER_LEN stage_table_len) SpecTooLarge;
  edge_table_len ← ok_or (checked_mul USIZE (zlen (edges blob)) EdgeView.LEN) SpecTooLarge;
  policy_heap_off ← ok_or (checked_add USIZE edge_table_off edge_table_len) SpecTooLarge;
  after_policies ← add_payloads policy_heap_off (stages blob);
  '(registry_off, after_registry) ←
    match registry blob with
    | Some _ =>
        len ← registry_len (zlen (stages blob));
        end_ ← ok_or (checked_add USIZE after_policies len) SpecTooLarge;
        Ok (after_policies, end_)
    | None => Ok (0, after_policies)
    end;
  '(config_off, after_config) ←
    match config blob with
    | [] => Ok (0, after_registry)
    | _ =>
        entries_len ← ok_or (checked_mul USIZE (zlen (config blob)) ConfigBindingView.LEN) SpecTooLarge;
        len ← ok_or (checked_add USIZE CONFIG_HEADER_LEN entries_len) SpecTooLarge;
        end_ ← ok_or (checked_add USIZE after_registry len) SpecTooLarge;
        Ok (after_registry, end_)
    end;
  let heap_off := after_config in
  heap_len ← string_heap_len blob;
  body_end ← ok_or (checked_add USIZE heap_off heap_len) SpecTooLarge;
  body_len ← align8 body_end;
  spec_record_len ← ok_or (checked_add USIZE RECORD_HEADER_LEN body_len) SpecTooLarge;
  total ← ok_or (checked_add USIZE HEADER_LEN spec_record_len) SpecTooLarge;
  _ ← ok_or (try_from U32 total) SpecTooLarge;
  Ok (mkLayout total spec_record_len stage_count edge_count edge_table_off policy_heap_off
        registry_off config_off heap_off).

Definition put_u16 (buf : list byte) (offset value : Z) : outcome (list byte) :=
  copy_at buf offset (le_encode 2 value).
Definition put_u32 (buf : list byte) (offset value : Z) : outcome (list byte) :=
  copy_at buf offset (le_encode 4 value).
Definition put_u64 (buf : list byte) (offset value : Z) : outcome (list byte) :=
  copy_at buf offset (le_encode 8 value).
(** [buf[offset] = value] for a [u8]. *)
Definition put_u8 (buf : list byte) (offset value : Z) : outcome (list byte) :=
  copy_at buf offset (le_encode 1 value).

Definition put_offset (buf : list byte) (offset value : Z) : outcome (list byte) :=
  let value := match try_from U32 value with Some v => v | None => 2 ^ 32 - 1 end in
  copy_at buf offset (le_encode 4 value).

Definition write_frame (buf : list byte) (payload : Z) (tag : NodeTag.t) (body_len : Z)
    : outcome (Z * list byte) :=
  let record := BODY_OFFSET + payload in
  buf ← put_u16 buf record (NodeTag.to_u16 tag);
  buf ← put_u16 buf (record + 2) 0;
  buf ← put_offset buf (record + 4) (RECORD_HEADER_LEN + body_len);
  Ret (record + RECORD_HEADER_LEN, buf).

Definition write_bytes (buf : list byte) (heap : Z) (bytes : list byte) : outcome (list byte * Z) :=
  buf ← copy_at buf (BODY_OFFSET + heap) bytes;
  Ret (buf, heap + zlen bytes).

Definition write_header (buf : list byte) (layout : Layout) : outcome (list byte) :=
  buf ← copy_at buf 0 MAGIC;
  buf ← put_u16 buf 4 VERSION;
  buf ← put_u16 buf 6 0;
  buf ← put_offset buf 8 (total layout);
  buf ← put_offset buf 12 HEADER_LEN;
  buf ← put_u16 buf HEADER_LEN (NodeTag.to_u16 NodeTag.ConductorSpec);
  buf ← put_u16 buf (HEADER_LEN + 2) 0;
  buf ← put_offset buf (HEADER_LEN + 4) (spec_record_len layout);
  buf ← put_u32 buf BODY_OFFSET (stage_count layout);
  buf ← put_u32 buf (BODY_OFFSET + 4) (edge_count layout);
  buf ← put_offset buf (BODY_OFFSET + 8) CONDUCTOR_HEADER_LEN;
  buf ← put_offset buf (BODY_OFFSET + 12) (edge_table_off layout);
  buf ← put_offset buf (BODY_OFFSET + 16) (registry_off layout);
  put_offset buf (BODY_OFFSET + 20) (config_off layout).

(** The inner loop over the slots of one stage entry. *)
Fixpoint write_slots (buf : list byte) (at_ payload : Z) (lens : list (option Z))
    : outcome (list byte * Z) :=
  match lens with
  | [] => Ret (buf, payload)
  | Some len :: lens =>
      buf ← put_offset buf at_ payload;
      write_slots buf (at_ + 4) (payload + (RECORD_HEADER_LEN + len)) lens
  | None :: lens =>
      buf ← put_offset buf at_ 0;
      write_slots buf (at_ + 4) payload lens
  end.

Fixpoint write_stages_from (buf : list byte) (entry payload : Z) (stages : list StageSpec)
    : outcome (list byte) :=
  match stages with
  | [] => Ret buf
  | stage :: stages =>
      '(buf, payload) ← write_slots buf entry payload (record_body_lens stage);
      write_stages_from buf (entry + STAGE_ENTRY_LEN) payload stages
  end.

Definition write_stage_table (buf : list byte) (layout : Layout) (stages : list StageSpec)
    : outcome (list byte) :=
  write_stages_from buf (BODY_OFFSET + CONDUCTOR_HEADER_LEN) (policy_heap_off layout) stages.

Fixpoint write_edges_from (buf : list byte) (entry : Z) (edges : list EdgeView.t)
    : outcome (list byte) :=
  match edges with
  | [] => Ret buf
  | edge :: edges =>
      buf ← put_u16 buf entry (EdgeView.from_ordinal edge);
      buf ← put_u16 buf (entry + 2) (EdgeView.to_ordinal edge);
      buf ← put_u16 buf (entry + 4) (EdgeView.input_index edge);
      buf ← put_u16 buf (entry + 6) 0;
      write_edges_from buf (entry + EdgeView.LEN) edges
  end.

Definition write_edge_table (buf : list byte) (layout : Layout) (edges : list EdgeView.t)
    : outcome (list byte) :=
  write_edges_from buf (BODY_OFFSET + edge_table_off layout) edges.

Definition write_limiter (buf : list byte) (payload : Z) (slot : option LimiterView.t)
    : outcome (list byte * Z) :=
  match slot with
  | None => Ret (buf, payload)
  | Some v =>
      '(body, buf) ← write_frame buf payload NodeTag.PolicyLimiter LimiterView.LEN;
      buf ← put_u32 buf body (LimiterView.capacity v);
      buf ← put_u32 buf (body + 4) (LimiterView.refill_tokens v);
      buf ← put_u64 buf (body + 8) (LimiterView.refill_period_ns v);
      Ret (buf, payload + (RECORD_HEADER_LEN + LimiterView.LEN))
  end.

Definition write_timeout (buf : list byte) (payload : Z) (slot : option TimeoutView.t)
    : outcome (list byte * Z) :=
  match slot with
  | None => Ret (buf, payload)
  | Some v =>
      '(body, buf) ← write_frame buf payload NodeTag.PolicyTimeout TimeoutView.LEN;
      buf ← put_u64 buf body (TimeoutView.duration_ns v);
      Ret (buf, payload + (RECORD_HEADER_LEN + TimeoutView.LEN))
  end.

Definition write_retry (buf : list byte) (payload : Z) (slot : option RetryView.t)
    : outcome (list byte * Z) :=
  match slot with
  | None => Ret (buf, payload)
  | Some v =>
      '(body, buf) ← write_frame buf payload NodeTag.PolicyRetry RetryView.LEN;
      buf ← put_u32 buf body (RetryView.max_attempts v);
      buf ← put_u8 buf (body + 4) (RetryView.backoff_kind v);
      buf ← put_u8 buf (body + 5) (RetryView.jitter_kind v);
      buf ← put_u16 buf (body + 6) 0;
      buf ← put_u64 buf (body + 8) (RetryView.base_delay_ns v);
      buf ← put_u64 buf (body + 16) (RetryView.max_delay_ns v);
      Ret (buf, payload + (RECORD_HEADER_LEN + RetryView.LEN))
  end.

Definition write_breaker (buf : list byte) (payload : Z) (slot : option BreakerView.t)
    : outcome (list byte * Z) :=
  match slot with
  | None => Ret (buf, payload)
  | Some v =>
      '(body, buf) ← write_frame buf payload NodeTag.PolicyBreaker BreakerView.LEN;
      buf ← put_u8 buf body (BreakerView.window_kind v);
      buf ← put_u8 buf (body + 1) (BreakerView.failure_rate_percent v);
      buf ← put_u16 buf (body + 2) 0;
      buf ← put_u32 buf (body + 4) (BreakerView.minimum_calls v);
      buf ← put_u64 buf (body + 8) (BreakerView.window_span v);
      buf ← put_u32 buf (body + 16) (BreakerView.half_open_max_calls v);
      buf ← put_u32 buf (body + 20) (BreakerView.half_open_success_threshold v);
      buf ← put_u64 buf (body + 24) (BreakerView.open_duration_ns v);
      Ret (buf, payload + (RECORD_HEADER_LEN + BreakerView.LEN))
  end.

Fixpoint write_records_from (buf : list byte) (payload : Z) (stages : list StageSpec)
    : outcome (list byte) :=
  match stages with
  | [] => Ret buf
  | stage :: stages =>
      '(buf, payload) ← write_limiter buf payload (limiter stage);
      '(buf, payload) ← write_timeout buf payload (timeout stage);
      '(buf, payload) ← write_retry buf payload (retry stage);
      '(buf, payload) ← write_breaker buf payload (breaker stage);
      write_records_from buf payload stages
  end.

Definition write_policy_records (buf : list byte) (layout : Layout) (stages : list StageSpec)
    : outcome (list byte) :=
  write_records_from buf (policy_heap_off layout) stages.

Fixpoint write_names_from (buf : list byte) (entry heap : Z) (names : list (list byte))
    : outcome (list byte * Z) :=
  match names with
  | [] => Ret (buf, heap)
  | name :: names =>
      buf ← put_offset buf entry heap;
      buf ← put_offset buf (entry + 4) (zlen name);
      '(buf, heap) ← write_bytes buf heap name;
      write_names_from buf (entry + RegistryView.NAME_ENTRY_LEN) heap names
  end.

Fixpoint write_sorted_from (buf : list byte) (at_ : Z) (sorted : list Z) : outcome (list byte) :=
  match sorted with
  | [] => Ret buf
  | ordinal :: sorted =>
      buf ← put_u16 buf at_ ordinal;
      write_sorted_from buf (at_ + RegistryView.SORTED_ENTRY_LEN) sorted
  end.

Definition write_registry (buf : list byte) (layout : Layout) (reg : RegistrySpec) (heap : Z)
    : outcome (list byte * Z) :=
  let name_table := BODY_OFFSET + registry_off layout in
  let sorted_table := name_table + stage_count layout * RegistryView.NAME_ENTRY_LEN in
  '(buf, heap) ← write_names_from buf name_table heap (names reg);
  buf ← write_sorted_from buf sorted_table (sorted reg);
  Ret (buf, heap).

Fixpoint write_bindings_from (buf : list byte) (entry heap : Z) (config : list ConfigBindingSpec)
    : outcome (list byte * Z) :=
  match config with
  | [] => Ret (buf, heap)
  | binding :: config =>
      buf ← put_u16 buf entry (node_ordinal binding);
      buf ← put_u16 buf (entry + 2) (field_tag binding);
      buf ← put_offset buf (entry + 4) (zlen (key binding));
      buf ← put_offset buf (entry + 8) heap;
      buf ← put_u32 buf (entry + 12) 0;
      buf ← put_u64 buf (entry + 16) (ScalarValue.kind (default_value binding));
      buf ← put_u64 buf (entry + 24) (ScalarValue.value (default_value binding));
      '(buf, heap) ← write_bytes buf heap (key binding);
      write_bindings_from buf (entry + ConfigBindingView.LEN) heap config
  end.

Definition write_config (buf : list byte) (layout : Layout) (config : list ConfigBindingSpec) (heap : Z)
    : outcome (list byte * Z) :=
  let section := BODY_OFFSET + config_off layout in
  buf ← put_offset buf section (zlen config);
  buf ← put_u32 buf (section + 4) 0;
  write_bindings_from buf (section + CONFIG_HEADER_LEN) heap config.

(** The result, and the buffer as the call leaves it. *)
Definition write_conductor (buf : list byte) (blob : ConductorBlob)
    : outcome (result WriteError Z * list byte) :=
  match compute blob with
  | Err e => Ret (Err e, buf)
  | Ok layout =>
      if zlen buf <? total layout
      then Ret (Err (BufferTooSmall (total layout) (zlen buf)), buf) else
      buf ← copy_at buf 0 (replicate (Z.to_nat (total layout)) x00);
      buf ← write_header buf layout;
      buf ← write_stage_table buf layout (stages blob);
      buf ← write_edge_table buf layout (edges blob);
      buf ← write_policy_records buf layout (stages blob);
      let heap := heap_off layout in
      '(buf, heap) ← match registry blob with
                     | Some reg => write_registry buf layout reg heap
                     | None => Ret (buf, heap)
                     end;
      '(buf, _) ← match config blob with
                  | [] => Ret (buf, heap)
                  | _ => write_config buf layout (config blob) heap
                  end;
      Ret (Ok (total layout), buf)
  end.
End Writer.
