(* ===== verification/IrRead.v ===== *)
(** * Reading lemmas

    What a successful read says about the bytes, and that reads succeed on
    bytes a section is known to hold; the shared shape of the checking loops. *)

From S2P Require Import Prelude IrBytes IrData IrCheck.
From Stdlib.Init Require Import Byte.
From stdpp Require Import base tactics list numbers.

Local Open Scope Z_scope.

Module Read.
Import Bytes Reader Check.

(** Peels the error monad off a successful computation. *)
Ltac inv_ok :=
  repeat match goal with
  | H : (_ ≫= _) = Ok _ |- _ =>
      let x := fresh "x" in let Hx := fresh "Hx" in apply result_bind_Ok in H as (x & Hx & H)
  | H : ok_or _ _ = Ok _ |- _ => apply ok_or_Ok in H
  | H : checked_add _ _ _ = Some _ |- _ => apply checked_add_Some in H as [-> H]
  | H : checked_mul _ _ _ = Some _ |- _ => apply checked_mul_Some in H as [-> H]
  | H : Ok _ = Ok _ |- _ => injection H as H; try subst
  | H : (if ?b then Err _ else _) = Ok _ |- _ =>
      let Hb := fresh "Hb" in destruct b eqn:Hb; [discriminate H|]
  | H : negb (_ =? _) = false |- _ => apply negb_false_iff, Z.eqb_eq in H
  | H : negb (bool_decide _) = false |- _ => apply negb_false_iff, bool_decide_eq_true in H
  | H : (_ <? _) = false |- _ => apply Z.ltb_ge in H
  | H : (_ <=? _) = false |- _ => apply Z.leb_gt in H
  | H : Err _ = Ok _ |- _ => discriminate H
  end.

(** ** Integer reads *)

Lemma zlen_length {A} (l : list A) n : zlen l = Z.of_nat n <-> length l = n.
Proof. unfold zlen. lia. Qed.

Lemma read_u32_Ok l o v :
  0 <= o -> read_u32 l o = Ok v ->
  exists bs, length bs = 4%nat /\ holds l o bs /\ v = le_decode bs /\ fits 32 v.
Proof.
  intros Ho H. unfold read_u32 in H. inv_ok.
  destruct (get_range l o (o + 4)) as [bs|] eqn:E; [|done].
  apply get_range_Some in E as (Hl & _ & Hh); [|done].
  destruct bs as [|a [|b [|c [|d [|]]]]]; try done. injection H as <-.
  exists [a; b; c; d]. split_and!; try done. apply (le_decode_range [a; b; c; d]).
Qed.

Lemma read_u16_Ok l o v :
  0 <= o -> read_u16 l o = Ok v ->
  exists bs, length bs = 2%nat /\ holds l o bs /\ v = le_decode bs /\ fits 16 v.
Proof.
  intros Ho H. unfold read_u16 in H. inv_ok.
  destruct (get_range l o (o + 2)) as [bs|] eqn:E; [|done].
  apply get_range_Some in E as (Hl & _ & Hh); [|done].
  destruct bs as [|a [|b [|]]]; try done. injection H as <-.
  exists [a; b]. split_and!; try done. apply (le_decode_range [a; b]).
Qed.

(** Reads of held bytes. *)
Lemma read_u32_holds l o bs :
  holds l o bs -> length bs = 4%nat -> o + 4 < 2 ^ 64 -> read_u32 l o = Ok (le_decode bs).
Proof.
  intros H Hl Ho. unfold read_u32. rewrite (proj2 (checked_add_Some 64 o 4 (o + 4))) by done. cbn.
  replace (o + 4) with (o + zlen bs) by (unfold zlen; lia). rewrite (holds_get_range _ _ _ H).
  by destruct bs as [|a [|b [|c [|d [|]]]]].
Qed.

Lemma read_u16_holds l o bs :
  holds l o bs -> length bs = 2%nat -> o + 2 < 2 ^ 64 -> read_u16 l o = Ok (le_decode bs).
Proof.
  intros H Hl Ho. unfold read_u16. rewrite (proj2 (checked_add_Some 64 o 2 (o + 2))) by done. cbn.
  replace (o + 2) with (o + zlen bs) by (unfold zlen; lia). rewrite (holds_get_range _ _ _ H).
  by destruct bs as [|a [|b [|]]].
Qed.

Lemma read_u64_holds l o bs :
  holds l o bs -> length bs = 8%nat -> o + 8 < 2 ^ 64 -> read_u64 l o = Ok (le_decode bs).
Proof.
  intros H Hl Ho. unfold read_u64. rewrite (proj2 (checked_add_Some 64 o 8 (o + 8))) by done. cbn.
  replace (o + 8) with (o + zlen bs) by (unfold zlen; lia). rewrite (holds_get_range _ _ _ H).
  cbn. unfold as_array8. by rewrite Hl.
Qed.

Lemma read_u8_holds l o bs :
  holds l o bs -> length bs = 1%nat -> read_u8 l o = Ok (le_decode bs).
Proof.
  intros (H0 & H1 & H) Hl. unfold read_u8, get. destruct bs as [|b [|]]; try done.
  specialize (H 0%nat b eq_refl). rewrite Nat.add_0_r in H. rewrite H. cbn. f_equal. lia.
Qed.

(** An integer written by [le_encode] is read back. *)
Lemma read_u32_enc l o v : holds l o (le_encode 4 v) -> fits 32 v -> o + 4 < 2 ^ 64 -> read_u32 l o = Ok v.
Proof. intros H Hv Ho. rewrite (read_u32_holds _ _ _ H), le_decode_encode; done. Qed.
Lemma read_u16_enc l o v : holds l o (le_encode 2 v) -> fits 16 v -> o + 2 < 2 ^ 64 -> read_u16 l o = Ok v.
Proof. intros H Hv Ho. rewrite (read_u16_holds _ _ _ H), le_decode_encode; done. Qed.
Lemma read_u64_enc l o v : holds l o (le_encode 8 v) -> fits 64 v -> o + 8 < 2 ^ 64 -> read_u64 l o = Ok v.
Proof. intros H Hv Ho. rewrite (read_u64_holds _ _ _ H), le_decode_encode; done. Qed.
Lemma read_u8_enc l o v : holds l o (le_encode 1 v) -> fits 8 v -> read_u8 l o = Ok v.
Proof. intros H Hv. rewrite (read_u8_holds _ _ _ H), le_decode_encode; done. Qed.

(** ** Record frames *)

Lemma read_record_Ok l o r :
  0 <= o -> read_record l o = Ok r ->
  o mod 8 = 0 /\ holds l (o + 8) (Reader.body r) /\ (8 + zlen (Reader.body r)) mod 8 = 0 /\
  o + 8 + zlen (Reader.body r) <= zlen l.
Proof.
  intros Ho H. unfold read_record in H. inv_ok.
  match goal with H : get_range _ _ _ = Some _ |- _ =>
    apply get_range_Some in H as (Hl & ? & Hh); [|unfold RECORD_HEADER_LEN in *; lia] end.
  cbn [Reader.body]. unfold RECORD_HEADER_LEN, RECORD_ALIGN in *. split_and!; try done; [|lia].
  rewrite Hl. replace (8 + (o + x1 - (o + 8))) with x1 by lia. done.
Qed.

(** ** The checking loops *)

Section entries.
Context (table : list byte) (stride : Z) (f : list byte -> result IrError unit).
Hypothesis Hstride : 1 <= stride.
Hypothesis Hlen : zlen table + stride < 2 ^ 64.

(** The loop equation: the fuel of [for_each_entry] never runs out. *)
Lemma for_each_entry_unfold fuel offset :
  0 <= offset -> zlen table - offset <= Z.of_nat fuel ->
  for_each_entry_from fuel table stride f offset =
  if offset <? zlen table then
    end_ ← ok_or (checked_add USIZE offset stride) OutOfBounds;
    entry ← ok_or (get_range table offset end_) OutOfBounds;
    _ ← f entry;
    for_each_entry_from (fuel - 1) table stride f (offset + stride)
  else Ok tt.
Proof.
  intros Ho Hf. destruct fuel as [|fuel]; cbn [for_each_entry_from].
  - destruct (Z.ltb_spec offset (zlen table)); [lia|done].
  - by replace (S fuel - 1)%nat with fuel by lia.
Qed.

(** On a table of [n] entries the loop succeeds exactly when every entry
    passes. *)
Lemma for_each_entry_from_Ok fuel n i :
  0 <= i -> zlen table = (i + Z.of_nat n) * stride -> zlen table - i * stride <= Z.of_nat fuel ->
  for_each_entry_from fuel table stride f (i * stride) = Ok tt <->
  forall j, i <= j < i + Z.of_nat n ->
    exists entry, get_range table (j * stride) ((j + 1) * stride) = Some entry /\ f entry = Ok tt.
Proof.
  revert i fuel. induction n as [|n IH]; intros i fuel Hi Hz Hf; rewrite for_each_entry_unfold by nia.
  - destruct (Z.ltb_spec (i * stride) (zlen table)) as [?|_]; [nia|]. split; [intros _ j; lia|done].
  - destruct (Z.ltb_spec (i * stride) (zlen table)) as [Hlt|?]; [|nia].
    rewrite (proj2 (checked_add_Some 64 _ stride ((i + 1) * stride))) by nia. cbn [ok_or mbind result_bind].
    replace (i * stride + stride) with ((i + 1) * stride) by lia.
    specialize (IH (i + 1) (fuel - 1)%nat ltac:(lia) ltac:(nia) ltac:(nia)).
    destruct (get_range_is_Some table (i * stride) ((i + 1) * stride)) as (entry & E); [nia|].
    rewrite E. cbn [ok_or mbind result_bind]. split.
    + intros H. apply result_bind_Ok in H as ([] & Hfe & H). rewrite IH in H.
      intros j Hj. destruct (Z.eq_dec j i) as [->|]; [eauto|]. apply H. lia.
    + intros H. destruct (H i ltac:(lia)) as (entry' & E' & Hfe). rewrite E in E'. simplify_eq.
      rewrite Hfe. cbn. apply IH. intros j Hj. apply H. lia.
Qed.

Lemma for_each_entry_Ok n :
  0 <= n -> zlen table = n * stride ->
  for_each_entry table stride f = Ok tt <->
  forall j, 0 <= j < n ->
    exists entry, get_range table (j * stride) ((j + 1) * stride) = Some entry /\ f entry = Ok tt.
Proof.
  intros Hn Hz. unfold for_each_entry. change 0 with (0 * stride) at 1.
  rewrite (for_each_entry_from_Ok _ (Z.to_nat n)); [|lia|lia|unfold zlen; lia].
  split; intros H j Hj; apply H; lia.
Qed.

End entries.

Lemma for_range_Ok n lo f :
  for_range n lo f = Ok tt <-> forall i, lo <= i < lo + Z.of_nat n -> f i = Ok tt.
Proof.
  revert lo. induction n as [|n IH]; intros lo; cbn [for_range].
  - split; [intros _ i; lia|done].
  - split.
    + intros H. apply result_bind_Ok in H as ([] & H0 & H). rewrite IH in H. intros i Hi.
      destruct (Z.eq_dec i lo) as [->|]; [done|]. apply H. lia.
    + intros H. rewrite (H lo) by lia. cbn. apply IH. intros i Hi. apply H. lia.
Qed.

Lemma for_kinds_Ok f : for_kinds PolicyKind.ALL f = Ok tt <-> forall kind, f kind = Ok tt.
Proof.
  unfold PolicyKind.ALL. cbn [for_kinds]. split.
  - intros H. inv_ok. repeat match goal with x : unit |- _ => destruct x end. by intros [].
  - intros H. rewrite !H. done.
Qed.

Lemma check_sections_disjoint_Ok sections :
  check_sections_disjoint sections = Ok tt <->
  forall i j a b, (i < j)%nat -> sections !! i = Some a -> sections !! j = Some b ->
    ranges_overlap a b = false.
Proof.
  induction sections as [|s sections IH]; cbn [check_sections_disjoint]; [naive_solver|]. split.
  - intros H [|i] [|j] a b Hij Ha Hb; try lia; cbn in Ha, Hb; inv_ok.
    + simplify_eq. apply list_elem_of_lookup_2 in Hb. apply not_true_is_false. intros Ho.
      revert Hb0. apply not_false_iff_true.
      apply existsb_exists. exists b. split; [by apply list_elem_of_In|done].
    + rewrite IH in H. eapply (H i j); [lia|done|done].
  - intros H. assert (existsb (fun other => ranges_overlap s other) sections = false) as ->.
    + apply not_true_is_false. intros (b & Hb & Ho)%existsb_exists.
      apply list_elem_of_In, list_elem_of_lookup in Hb as (j & Hj).
      rewrite (H 0%nat (S j) s b) in Ho; [done|lia|done|done].
    + apply IH. intros i j a b Hij Ha Hb. apply (H (S i) (S j)); [lia|done|done].
Qed.

End Read.

(** * What validation guarantees

    A blob [validate] accepts: every accessor of the conductor view resolves
    within the blob, every ordinal names a stage, the registry lookup is a
    correct search, and no policy record overlaps another. *)

From Stdlib.Init Require Import Byte.
From stdpp Require Import base tactics list numbers.

Local Open Scope Z_scope.

Module BytesOrder.
Import Bytes.

Lemma bytes_cmp_Eq a b : bytes_cmp a b = Eq <-> a = b.
Proof.
  revert b. induction a as [|x a IH]; intros [|y b]; cbn; try done.
  destruct (Z.compare_spec (byte_to_Z x) (byte_to_Z y)) as [E|E|E].
  - rewrite IH. split; [intros ->; f_equal|by intros [= -> ->]].
    rewrite <- (byte_of_to x), <- (byte_of_to y). by f_equal.
  - split; [done|]. intros [= -> ->]. lia.
  - split; [done|]. intros [= -> ->]. lia.
Qed.

Lemma bytes_cmp_antisym a b : bytes_cmp a b = CompOpp (bytes_cmp b a).
Proof.
  revert b. induction a as [|x a IH]; intros [|y b]; cbn; try done.
  rewrite (Z.compare_antisym (byte_to_Z y)). destruct (byte_to_Z y ?= byte_to_Z x); cbn; auto.
Qed.

Lemma bytes_cmp_Lt_trans a b c : bytes_cmp a b = Lt -> bytes_cmp b c = Lt -> bytes_cmp a c = Lt.
Proof.
  revert b c. induction a as [|x a IH]; intros [|y b] [|z c]; cbn; try done.
  destruct (Z.compare_spec (byte_to_Z x) (byte_to_Z y)), (Z.compare_spec (byte_to_Z y) (byte_to_Z z)),
    (Z.compare_spec (byte_to_Z x) (byte_to_Z z)); try done; try lia. apply IH.
Qed.

(** [bytes_le a b]: [a <= b] in the lexicographic order. *)
Definition bytes_le (a b : list byte) : Prop := bytes_cmp b a <> Lt.

Lemma bytes_le_lt_trans a b c : bytes_le a b -> bytes_cmp b c = Lt -> bytes_cmp a c = Lt.
Proof.
  unfold bytes_le. intros Hab Hbc. destruct (bytes_cmp b a) eqn:E; [|done|].
  - apply bytes_cmp_Eq in E as ->. done.
  - rewrite bytes_cmp_antisym in E. destruct (bytes_cmp a b) eqn:E'; try done.
    by eapply bytes_cmp_Lt_trans.
Qed.

Lemma bytes_lt_le_trans a b c : bytes_cmp a b = Lt -> bytes_le b c -> bytes_cmp a c = Lt.
Proof.
  unfold bytes_le. intros Hab Hbc. destruct (bytes_cmp c b) eqn:E; [|done|].
  - apply bytes_cmp_Eq in E as ->. done.
  - rewrite bytes_cmp_antisym in E. destruct (bytes_cmp b c) eqn:E'; try done.
    by eapply bytes_cmp_Lt_trans.
Qed.

#[global] Instance bytes_le_preorder : PreOrder bytes_le.
Proof.
  split; [intros a; unfold bytes_le; by rewrite (proj2 (bytes_cmp_Eq a a))|].
  intros a b c Hab Hbc Hca. apply Hab. by eapply bytes_le_lt_trans.
Qed.

End BytesOrder.

Module Registry.
Import Bytes Check Read BytesOrder RegistryView.

(** The name at a position of the sorted index. *)
Definition rank_name (r : t) (rank : Z) : option (list byte) := sorted_ordinal r rank ≫= name r.

Record registry_ok (r : t) : Prop := {
  reg_names o : 0 <= o < count r -> is_Some (name r o);
  reg_ranks k : 0 <= k < count r -> exists o, sorted_ordinal r k = Some o /\ 0 <= o < count r;
  reg_sorted k k' a b : 0 <= k <= k' -> k' < count r ->
    rank_name r k = Some a -> rank_name r k' = Some b -> bytes_le a b;
}.

Lemma rank_name_Some r k : registry_ok r -> 0 <= k < count r ->
  exists o nm, sorted_ordinal r k = Some o /\ 0 <= o < count r /\ name r o = Some nm /\ rank_name r k = Some nm.
Proof.
  intros H Hk. destruct (reg_ranks _ H k Hk) as (o & Eo & Ho). destruct (reg_names _ H o Ho) as (nm & En).
  exists o, nm. unfold rank_name. by rewrite Eo, En.
Qed.

(** The binary search: nothing below [low] or from [high] on is the name. *)
Lemma lookup_loop_spec r nm fuel low high :
  registry_ok r -> 0 <= low -> high <= count r -> high - low <= Z.of_nat fuel ->
  (forall k a, 0 <= k < low -> rank_name r k = Some a -> bytes_cmp nm a = Gt) ->
  (forall k a, high <= k < count r -> rank_name r k = Some a -> bytes_cmp nm a = Lt) ->
  match lookup_loop fuel r nm low high with
  | Some o => 0 <= o < count r /\ name r o = Some nm
  | None => forall k, 0 <= k < count r -> rank_name r k <> Some nm
  end.
Proof.
  intros H. revert low high. induction fuel as [|fuel IH]; intros low high Hlo Hhi Hf Hl Hh;
    cbn [lookup_loop].
  - intros k Hk E. assert (bytes_cmp nm nm = Eq) as Hr by (by apply bytes_cmp_Eq).
    destruct (Z.lt_ge_cases k low); [rewrite (Hl k nm) in Hr|rewrite (Hh k nm) in Hr]; done || lia.
  - destruct (Z.ltb_spec low high).
    2: { intros k Hk E. assert (bytes_cmp nm nm = Eq) as Hr by (by apply bytes_cmp_Eq).
         destruct (Z.lt_ge_cases k low); [rewrite (Hl k nm) in Hr|rewrite (Hh k nm) in Hr]; done || lia. }
    set (mid := low + (high - low) / 2). assert (low <= mid < high) as Hm by (unfold mid; Z.div_mod_to_equations; lia).
    destruct (rank_name_Some r mid H) as (o & pr & Eo & Ho & En & Er); [lia|].
    rewrite Eo. cbn. rewrite En. cbn.
    destruct (bytes_cmp nm pr) eqn:Ec.
    + apply bytes_cmp_Eq in Ec as ->. done.
    + apply IH; [lia..|done|]. intros k a Hk Ea. eapply bytes_lt_le_trans; [exact Ec|].
      eapply (reg_sorted _ H mid k); [lia|lia|done|done].
    + apply IH; [lia..| |done]. intros k a Hk Ea.
      rewrite bytes_cmp_antisym. rewrite bytes_cmp_antisym in Ec.
      rewrite (bytes_le_lt_trans a pr nm); [done| |destruct (bytes_cmp pr nm); done].
      eapply (reg_sorted _ H k mid); [lia|lia|done|done].
Qed.

Lemma lookup_spec r nm :
  registry_ok r -> 0 <= count r ->
  match lookup r nm with
  | Some o => 0 <= o < count r /\ name r o = Some nm
  | None => forall k, 0 <= k < count r -> rank_name r k <> Some nm
  end.
Proof.
  intros H Hc. unfold lookup. apply lookup_loop_spec; unfold stage_count; try done; lia.
Qed.

Lemma check_sorted_from_Ok n rank r prev :
  check_sorted_from n rank r prev = Ok tt ->
  (forall k, rank <= k < rank + Z.of_nat n -> is_Some (rank_name r k)) /\
  (forall k a b, rank <= k -> k + 1 < rank + Z.of_nat n ->
     rank_name r k = Some a -> rank_name r (k + 1) = Some b -> bytes_le a b) /\
  (forall p a, prev = Some p -> (0 < n)%nat -> rank_name r rank = Some a -> bytes_le p a).
Proof.
  revert rank prev. induction n as [|n IH]; intros rank prev H; cbn [check_sorted_from] in H.
  - split_and!; intros; lia.
  - inv_ok. destruct x1. apply IH in H as (IH1 & IH2 & IH3).
    assert (Er : rank_name r rank = Some x0) by (unfold rank_name; rewrite Hx; done).
    split_and!.
    + intros k Hk. destruct (Z.eq_dec k rank) as [->|]; [by rewrite Er|]. apply IH1. lia.
    + intros k a b Hk Hk' Ea Eb. destruct (Z.eq_dec k rank) as [->|]; [|by apply (IH2 k); [lia|lia| |]].
      rewrite Er in Ea. simplify_eq. apply (IH3 a b); [done|lia|done].
    + intros p a -> _ Ea. rewrite Er in Ea. simplify_eq. unfold bytes_le.
      destruct (bytes_cmp a p); done.
Qed.

(** Adjacent order extends to all positions. *)
Lemma adjacent_sorted r n :
  (forall k, 0 <= k < n -> is_Some (rank_name r k)) ->
  (forall k a b, 0 <= k -> k + 1 < n -> rank_name r k = Some a -> rank_name r (k + 1) = Some b -> bytes_le a b) ->
  forall k k' a b, 0 <= k <= k' -> k' < n -> rank_name r k = Some a -> rank_name r k' = Some b -> bytes_le a b.
Proof.
  intros Hs Ha k k' a b Hk Hk' Ea. remember (Z.to_nat (k' - k)) as m eqn:Em.
  revert k' b Hk Hk' Em. induction m as [|m IH]; intros k' b Hk Hk' Em Eb.
  - assert (k' = k) as -> by lia. rewrite Ea in Eb. by simplify_eq.
  - destruct (Hs (k' - 1)) as (c & Ec); [lia|]. transitivity c.
    + apply (IH (k' - 1)); [lia|lia|lia|done].
    + apply (Ha (k' - 1)); [lia|lia|done|]. by replace (k' - 1 + 1) with k' by lia.
Qed.

End Registry.

Module Sound.
Import Bytes Reader Check Read BytesOrder Registry.

Lemma slice_table_Ok body fld c e off tbl :
  0 <= fld -> 0 <= c -> 0 <= e -> slice_table body fld c e = Ok (off, tbl) ->
  CONDUCTOR_HEADER_LEN <= off /\ zlen tbl = c * e /\ holds body off tbl /\
  off + c * e <= zlen body /\ read_u32 body fld = Ok off.
Proof.
  intros Hf Hc He H. unfold slice_table in H. inv_ok.
  apply read_u32_Ok in Hx as Hr; [|done]. destruct Hr as (_ & _ & _ & _ & Hr). unfold fits in Hr.
  apply get_range_Some in Hx2 as (Hl & Hb' & Hh); [|lia]. split_and!; try done; try lia.
Qed.

(** The entry at index [j] of a table of [n] entries. *)
Lemma table_entry tbl n e j : zlen tbl = n * e -> 0 <= j < n -> 0 <= e ->
  exists entry, get_range tbl (j * e) ((j + 1) * e) = Some entry /\ zlen entry = e.
Proof.
  intros Hl Hj He. destruct (get_range_is_Some tbl (j * e) ((j + 1) * e)) as (entry & E); [nia|].
  exists entry. split; [done|]. apply get_range_Some in E as (-> & _); [lia|nia].
Qed.

Definition slot_ok (body entry : list byte) (sections : list Span) : Prop :=
  forall kind, check_policy_slot body entry kind sections = Ok tt.

(** Everything [Check.parse] establishes about the body it accepts. *)
Record parsed_ok (p : Parsed) : Prop := {
  po_stage_count : fits 32 (stage_count p);
  po_edge_count : fits 32 (edge_count p);
  po_config_count : fits 32 (config_count p);
  po_stage_table : zlen (stage_table p) = stage_count p * STAGE_ENTRY_LEN;
  po_edge_table : zlen (edge_table p) = edge_count p * EdgeView.LEN;
  po_config_table : zlen (config_entries p) = config_count p * ConfigBindingView.LEN;
  po_edges j : 0 <= j < edge_count p -> exists entry e,
    get_range (edge_table p) (j * EdgeView.LEN) ((j + 1) * EdgeView.LEN) = Some entry /\
    EdgeView.parse entry = Some e /\
    EdgeView.from_ordinal e < stage_count p /\ EdgeView.to_ordinal e < stage_count p;
  po_slots : exists sections, forall j, 0 <= j < stage_count p -> exists entry,
    get_range (stage_table p) (j * STAGE_ENTRY_LEN) ((j + 1) * STAGE_ENTRY_LEN) = Some entry /\
    slot_ok (body p) entry sections;
  po_records n m a b : 0 <= n < m -> m < stage_count p * PolicyKind.COUNT ->
    nth_record_span (body p) (stage_table p) n = Ok (Some a) ->
    nth_record_span (body p) (stage_table p) m = Ok (Some b) -> ranges_overlap a b = false;
  po_registry r : registry p = Some r -> RegistryView.count r = stage_count p /\ registry_ok r;
  po_config j : 0 <= j < config_count p -> exists entry b,
    get_range (config_entries p) (j * ConfigBindingView.LEN) ((j + 1) * ConfigBindingView.LEN) = Some entry /\
    ConfigBindingView.parse (body p) entry = Ok b /\ ConfigBindingView.node_ordinal b < stage_count p;
}.

Lemma check_edge_ordinals_Ok tbl n c :
  0 <= n -> zlen tbl = n * EdgeView.LEN -> zlen tbl < 2 ^ 32 -> check_edge_ordinals tbl c = Ok tt ->
  forall j, 0 <= j < n -> exists entry e,
    get_range tbl (j * EdgeView.LEN) ((j + 1) * EdgeView.LEN) = Some entry /\
    EdgeView.parse entry = Some e /\ EdgeView.from_ordinal e < c /\ EdgeView.to_ordinal e < c.
Proof.
  intros Hn Hl Hz H j Hj. unfold check_edge_ordinals in H.
  rewrite for_each_entry_Ok with (n := n) in H; [|done|unfold EdgeView.LEN; lia|done|done].
  destruct (H j Hj) as (entry & E & Hf). inv_ok. exists entry, x.
  apply orb_false_iff in Hb as [?%Z.leb_gt ?%Z.leb_gt]. done.
Qed.

Lemma check_stage_policies_Ok body tbl n sections :
  0 <= n -> zlen tbl = n * STAGE_ENTRY_LEN -> zlen tbl < 2 ^ 32 ->
  check_stage_policies body tbl sections = Ok tt ->
  forall j, 0 <= j < n -> exists entry,
    get_range tbl (j * STAGE_ENTRY_LEN) ((j + 1) * STAGE_ENTRY_LEN) = Some entry /\
    slot_ok body entry sections.
Proof.
  intros Hn Hl Hz H j Hj. unfold check_stage_policies in H.
  rewrite for_each_entry_Ok with (n := n) in H; [|done|unfold STAGE_ENTRY_LEN, PolicyKind.COUNT; lia|done|done].
  destruct (H j Hj) as (entry & E & Hf). exists entry. split; [done|]. intros kind. by apply (proj1 (for_kinds_Ok _) Hf).
Qed.

Lemma check_record_overlaps_Ok body tbl n :
  0 <= n -> zlen tbl = n * STAGE_ENTRY_LEN -> check_record_overlaps body tbl = Ok tt ->
  forall i j a b, 0 <= i < j -> j < n * PolicyKind.COUNT ->
    nth_record_span body tbl i = Ok (Some a) -> nth_record_span body tbl j = Ok (Some b) ->
    ranges_overlap a b = false.
Proof.
  intros Hn Hl H i j a b Hi Hj Ea Eb. unfold check_record_overlaps in H. inv_ok.
  replace (zlen tbl / STAGE_ENTRY_LEN) with n in * by (rewrite Hl, Z.div_mul; done).
  rewrite for_range_Ok in H. specialize (H i ltac:(lia)). rewrite Ea in H. cbn in H.
  rewrite for_range_Ok in H. specialize (H j ltac:(lia)). rewrite Eb in H. cbn in H.
  by destruct (ranges_overlap a b).
Qed.

Lemma sorted_ordinal_entry r k n entry :
  zlen (RegistryView.sorted_index r) = n * 2 -> 0 <= k < n -> n < 2 ^ 32 ->
  get_range (RegistryView.sorted_index r) (k * 2) ((k + 1) * 2) = Some entry ->
  exists a b, entry = [a; b] /\ RegistryView.sorted_ordinal r k = Some (le_decode [a; b]).
Proof.
  intros Hl Hk Hn E. unfold RegistryView.sorted_ordinal, RegistryView.SORTED_ENTRY_LEN.
  rewrite checked_mul_ok by lia. cbn. rewrite checked_add_ok by lia. cbn.
  replace (k * 2 + 2) with ((k + 1) * 2) by lia. rewrite E. cbn.
  apply get_range_Some in E as (Hle & _); [|lia]. unfold zlen in Hle.
  destruct entry as [|a [|b [|]]]; cbn in Hle; try lia. eauto.
Qed.

Lemma parse_registry_Ok body n reg :
  fits 32 n -> zlen body < 2 ^ 32 -> parse_registry body n = Ok (Some reg) ->
  RegistryView.count (view reg) = n /\ RegistryView.body (view reg) = body /\
  RegistryView.name_table (view reg) = name_table reg /\
  zlen (name_table reg) = n * 8 /\
  (forall o, 0 <= o < n -> is_Some (RegistryView.name (view reg) o)) /\
  (forall k, 0 <= k < n -> exists o, RegistryView.sorted_ordinal (view reg) k = Some o /\ 0 <= o < n).
Proof.
  intros Hn Hz H. unfold fits in Hn. unfold parse_registry in H. inv_ok.
  destruct (x =? 0); [done|]. inv_ok. destruct x0 as [off tbl].
  apply slice_table_Ok in Hx0 as (Ho & Hl & Hh & Hb & _); [|done|lia|done].
  inv_ok. unfold RegistryView.NAME_ENTRY_LEN, RegistryView.SORTED_ENTRY_LEN, CONDUCTOR_HEADER_LEN in *.
  apply get_range_Some in Hx3 as (Hsl & Hsb & Hsh); [|lia].
  destruct x4, x5. cbn [view RegistryView.count RegistryView.body RegistryView.name_table name_table].
  split_and!; try done.
  - intros o Ho'. unfold check_registry_names in Hx4. rewrite for_range_Ok in Hx4.
    specialize (Hx4 o ltac:(lia)). destruct (RegistryView.name _ o); [eauto|done].
  - intros k Hk. unfold check_sorted_ordinals in Hx5.
    rewrite for_each_entry_Ok with (n := n) in Hx5;
      [|unfold RegistryView.SORTED_ENTRY_LEN; lia|unfold RegistryView.SORTED_ENTRY_LEN; lia|lia|
       unfold RegistryView.SORTED_ENTRY_LEN; lia].
    destruct (Hx5 k Hk) as (entry & E & Hf).
    edestruct (sorted_ordinal_entry (RegistryView.new body tbl x3 n) k n entry) as (a & b & -> & Er);
      [cbn; lia|done|lia|exact E|].
    rewrite Er. eexists. split; [done|]. inv_ok.
    pose proof (le_decode_range [a; b]) as [? _]. lia.
Qed.

Lemma parse_config_Ok body n cfg :
  zlen body < 2 ^ 32 -> parse_config body n = Ok (Some cfg) ->
  fits 32 (count cfg) /\ zlen (entries cfg) = count cfg * ConfigBindingView.LEN /\
  forall j, 0 <= j < count cfg -> exists entry b,
    get_range (entries cfg) (j * ConfigBindingView.LEN) ((j + 1) * ConfigBindingView.LEN) = Some entry /\
    ConfigBindingView.parse body entry = Ok b /\ ConfigBindingView.node_ordinal b < n.
Proof.
  intros Hz H. unfold parse_config in H. inv_ok. destruct (x =? 0); [done|]. inv_ok.
  apply read_u32_Ok in Hx as (_ & _ & _ & _ & Hr); [|done]. unfold fits in Hr.
  apply read_u32_Ok in Hx0 as (_ & _ & _ & _ & Hc); [|lia].
  unfold ConfigBindingView.LEN, CONFIG_HEADER_LEN, fits in *.
  apply get_range_Some in Hx4 as (Hl & Hb' & _); [|lia]. cbn [count entries].
  assert (zlen x4 = x0 * 32) as Hl' by lia. split_and!; [lia|lia|done|].
  intros j Hj. destruct x5. unfold check_config_entries in Hx5.
  rewrite for_each_entry_Ok with (n := x0) in Hx5;
    [|unfold ConfigBindingView.LEN; lia|unfold ConfigBindingView.LEN; lia|lia|done].
  destruct (Hx5 j Hj) as (entry & E & Hf). inv_ok. eauto 10.
Qed.

(** The checks on the optional sections. *)
Definition registry_part (reg : option ParsedRegistry) (n floor : Z) : result IrError unit :=
  match reg with
  | Some reg => _ ← check_names_in_heap (name_table reg) floor; check_sorted_order (view reg) n
  | None => Ok tt
  end.

Lemma registry_part_ok body n reg floor :
  fits 32 n -> zlen body < 2 ^ 32 -> parse_registry body n = Ok reg -> registry_part reg n floor = Ok tt ->
  forall r, view <$> reg = Some r -> RegistryView.count r = n /\ registry_ok r.
Proof.
  intros Hn Hz Hp Hr r E. destruct reg as [reg|]; [|done]. cbn in E. simplify_eq.
  apply parse_registry_Ok in Hp as (Hc & _ & _ & _ & Hnames & Hranks); [|done..].
  cbn in Hr. inv_ok. unfold check_sorted_order in Hr. apply check_sorted_from_Ok in Hr as (Hs & Ha & _).
  unfold fits in Hn. rewrite Z2Nat.id in * by lia. split; [done|].
  constructor; rewrite ?Hc; [done|done|]. apply adjacent_sorted; [intros; apply Hs; lia|].
  intros k a b ??. by apply Ha.
Qed.

Lemma parse_ok b p : zlen b < 2 ^ 32 -> Check.parse b = Ok p -> parsed_ok p /\ body p = b.
Proof.
  intros Hz H. unfold Check.parse in H. apply result_bind_Ok in H as (sc & Hsc & H).
  apply result_bind_Ok in H as (ec & Hec & H).
  apply result_bind_Ok in H as ([so st] & Hst & H). apply result_bind_Ok in H as ([eo et] & Het & H).
  apply result_bind_Ok in H as (reg & Hreg & H). apply result_bind_Ok in H as (cfg & Hcfg & H).
  apply result_bind_Ok in H as ([] & Hdis & H). apply result_bind_Ok in H as ([] & Hed & H).
  apply result_bind_Ok in H as ([] & Hpol & H). apply result_bind_Ok in H as ([] & Hov & H).
  apply result_bind_Ok in H as (floor & Hfl & H). apply result_bind_Ok in H as ([] & Hrp & H).
  apply result_bind_Ok in H as ([] & Hcp & H). injection H as <-.
  apply read_u32_Ok in Hsc as (_ & _ & _ & _ & Hsc); [|done].
  apply read_u32_Ok in Hec as (_ & _ & _ & _ & Hec); [|done].
  pose proof Hsc as [Hsc0 _]. pose proof Hec as [Hec0 _].
  apply slice_table_Ok in Hst as (Hso & Hstl & _ & Hstb & _); [|done|done|done].
  apply slice_table_Ok in Het as (Heo & Hetl & _ & Hetb & _); [|done|done|done].
  unfold CONDUCTOR_HEADER_LEN in Hso, Heo. split; [|done].
  constructor; cbn [stage_count edge_count config_count stage_table edge_table config_entries body registry]; try done.
  - destruct cfg as [cfg|]; [|done]. by apply parse_config_Ok in Hcfg as (? & _).
  - destruct cfg as [cfg|]; [|done]. by apply parse_config_Ok in Hcfg as (_ & ? & _).
  - apply check_edge_ordinals_Ok; [done|done|lia|done].
  - eexists. apply check_stage_policies_Ok; [done|done|lia|exact Hpol].
  - intros i j a b' Hij Hj. by apply (check_record_overlaps_Ok b st sc).
  - by eapply registry_part_ok.
  - destruct cfg as [cfg|]; [|intros j Hj; lia]. by apply parse_config_Ok in Hcfg as (_ & _ & ?).
Qed.

End Sound.
