(* ===== verification/IrThms.v ===== *)
(** * IR reader theorems *)

From S2P Require Import Prelude IrBytes IrData IrCheck IrRead IrWrite.
From Stdlib.Init Require Import Byte.
From stdpp Require Import base tactics list numbers.

Local Open Scope Z_scope.

Module IrThms.
Import Bytes Reader Check Read BytesOrder Registry Sound.

Definition isSome {A} (o : option A) : bool := match o with Some _ => true | None => false end.

(** Whether the accessor of a policy kind yields a policy. *)
Definition policy_present (s : StageView.t) (kind : PolicyKind.t) : bool :=
  match kind with
  | PolicyKind.Limiter => isSome (StageView.limiter s)
  | PolicyKind.Timeout => isSome (StageView.timeout s)
  | PolicyKind.Retry => isSome (StageView.retry s)
  | PolicyKind.Breaker => isSome (StageView.breaker s)
  end.

(** A slot's offset field is readable, and the policy accessor yields a policy
    exactly when it is not zero. *)
Definition slot_resolves (s : StageView.t) (kind : PolicyKind.t) : Prop :=
  exists off, read_u32 (StageView.entry s) (PolicyKind.slot_field kind) = Ok off /\
    policy_present s kind = negb (off =? 0).

Lemma validate_body_present s kind b :
  StageView.policy_body s kind = Some b -> PolicyKind.validate_body kind b = Ok tt ->
  policy_present s kind = true.
Proof.
  intros E Hv. destruct kind; cbn in *;
    unfold StageView.limiter, StageView.timeout, StageView.retry, StageView.breaker; rewrite E; cbn;
    [destruct (LimiterView.parse b)|destruct (TimeoutView.parse b)|destruct (RetryView.parse b)|
     destruct (BreakerView.parse b)]; done.
Qed.

Lemma no_body_absent s kind : StageView.policy_body s kind = None -> policy_present s kind = false.
Proof.
  intros E. destruct kind; cbn;
    unfold StageView.limiter, StageView.timeout, StageView.retry, StageView.breaker; by rewrite E.
Qed.

Lemma slot_ok_resolves body entry sections kind :
  slot_ok body entry sections -> slot_resolves (StageView.new body entry) kind.
Proof.
  intros H. specialize (H kind). unfold check_policy_slot in H.
  apply result_bind_Ok in H as (span & Hs & H). unfold record_span_at in Hs.
  apply result_bind_Ok in Hs as (off & Ho & Hs). exists off. split; [done|].
  assert (Hb : StageView.policy_body (StageView.new body entry) kind =
            if off =? 0 then None else
            record ← ok (read_record body off);
            if decide (Reader.tag record = PolicyKind.node_tag kind) then Some (Reader.body record) else None).
  { unfold StageView.policy_body. cbn [StageView.entry StageView.body]. by rewrite Ho. }
  destruct (off =? 0) eqn:E0; cbn [negb].
  - by apply no_body_absent.
  - inv_ok. cbn [offset] in Hx1. rewrite Hx in Hx1. injection Hx1 as <-. destruct x1.
    eapply validate_body_present; [|exact Hx2]. rewrite Hb, Hx. cbn. by rewrite decide_True.
Qed.

(** Every accessor of the view answers, within its range and only there. *)
Record accessors_total (v : ConductorView.t) : Prop := {
  at_stage o : 0 <= o ->
    match ConductorView.stage v o with
    | Some s => o < ConductorView.stage_count v /\ forall kind, slot_resolves s kind
    | None => ConductorView.stage_count v <= o
    end;
  at_edge i : 0 <= i < 2 ^ 32 ->
    match ConductorView.edge v i with
    | Some e => i < ConductorView.edge_count v /\
        EdgeView.from_ordinal e < ConductorView.stage_count v /\
        EdgeView.to_ordinal e < ConductorView.stage_count v
    | None => ConductorView.edge_count v <= i
    end;
  at_edges : zlen (ConductorView.edges v) = ConductorView.edge_count v;
  at_config i : 0 <= i < 2 ^ 32 ->
    match ConductorView.config_binding v i with
    | Some b => i < ConductorView.config_count v /\
        ConfigBindingView.node_ordinal b < ConductorView.stage_count v
    | None => ConductorView.config_count v <= i
    end;
  at_configs : zlen (ConductorView.config_bindings v) = ConductorView.config_count v;
  at_registry r : ConductorView.registry v = Some r ->
    RegistryView.count r = ConductorView.stage_count v /\
    forall o, 0 <= o -> is_Some (RegistryView.name r o) <-> o < ConductorView.stage_count v;
}.

Definition view_of (p : Parsed) : ConductorView.t :=
  ConductorView.mk (body p) (stage_count p) (edge_count p) (stage_table p) (edge_table p)
    (registry p) (config_count p) (config_entries p).

Lemma stage_total p o : parsed_ok p -> 0 <= o ->
  match ConductorView.stage (view_of p) o with
  | Some s => o < stage_count p /\ forall kind, slot_resolves s kind
  | None => stage_count p <= o
  end.
Proof.
  intros H Ho. pose proof (po_stage_count _ H) as [_ Hc]. unfold ConductorView.stage. cbn [ConductorView.stage_count ConductorView.stage_table ConductorView.body view_of].
  destruct (Z.leb_spec (stage_count p) o); [done|].
  destruct (po_slots _ H) as (sections & Hs). destruct (Hs o ltac:(lia)) as (entry & E & Hok).
  unfold STAGE_ENTRY_LEN, PolicyKind.COUNT in *.
  rewrite checked_mul_ok by lia. cbn. rewrite checked_add_ok by lia. cbn.
  replace (o * (4 * 4) + 4 * 4) with ((o + 1) * (4 * 4)) by lia.
  rewrite E. cbn. split; [done|]. intros kind. by eapply slot_ok_resolves.
Qed.

Lemma edge_total p i : parsed_ok p -> 0 <= i < 2 ^ 32 ->
  match ConductorView.edge (view_of p) i with
  | Some e => i < edge_count p /\ EdgeView.from_ordinal e < stage_count p /\
      EdgeView.to_ordinal e < stage_count p
  | None => edge_count p <= i
  end.
Proof.
  intros H Hi. unfold ConductorView.edge. cbn [ConductorView.edge_table view_of].
  pose proof (po_edge_table _ H) as Hl. pose proof (po_edges _ H i) as He. unfold EdgeView.LEN in *.
  rewrite checked_mul_ok by lia. cbn. rewrite checked_add_ok by lia. cbn.
  replace (i * 8 + 8) with ((i + 1) * 8) by lia. destruct (Z.lt_ge_cases i (edge_count p)).
  - destruct He as (entry & e & E & Ep & ?); [lia|]. rewrite E. cbn. rewrite Ep. done.
  - rewrite (proj2 (get_range_None _ _ _)) by lia. done.
Qed.

Lemma config_total p i : parsed_ok p -> 0 <= i < 2 ^ 32 ->
  match ConductorView.config_binding (view_of p) i with
  | Some b => i < config_count p /\ ConfigBindingView.node_ordinal b < stage_count p
  | None => config_count p <= i
  end.
Proof.
  intros H Hi. unfold ConductorView.config_binding. cbn [ConductorView.config_entries ConductorView.body view_of].
  pose proof (po_config_table _ H) as Hl. pose proof (po_config _ H i) as He. unfold ConfigBindingView.LEN in *.
  rewrite checked_mul_ok by lia. cbn. rewrite checked_add_ok by lia. cbn.
  replace (i * 32 + 32) with ((i + 1) * 32) by lia. destruct (Z.lt_ge_cases i (config_count p)).
  - destruct He as (entry & e & E & Ep & ?); [lia|]. rewrite E. cbn. rewrite Ep. done.
  - rewrite (proj2 (get_range_None _ _ _)) by lia. done.
Qed.

(** [filter_map] over a range where nothing is filtered. *)
Lemma filter_map_range_total {A} n (f : Z -> option A) :
  0 <= n -> (forall i, 0 <= i < n -> is_Some (f i)) ->
  zlen (ConductorView.filter_map_range n f) = n.
Proof.
  intros Hn Hf. unfold ConductorView.filter_map_range.
  assert (Hall : forall i, i ∈ seqZ 0 n -> is_Some (f i)) by (intros i Hi%elem_of_seqZ; apply Hf; lia).
  assert (Hlen : length (omap f (seqZ 0 n)) = length (seqZ 0 n)).
  { induction (seqZ 0 n) as [|x l IH]; [done|]. cbn.
    destruct (Hall x) as (y & ->); [apply list_elem_of_here|]. cbn. f_equal. apply IH.
    intros i Hi. apply Hall. by apply list_elem_of_further. }
  unfold zlen. rewrite Hlen, length_seqZ. lia.
Qed.

Lemma view_total p : parsed_ok p -> accessors_total (view_of p).
Proof.
  intros H. constructor; cbn [ConductorView.stage_count ConductorView.edge_count ConductorView.config_count ConductorView.registry view_of].
  - intros o Ho. by apply stage_total.
  - intros i Hi. by apply edge_total.
  - destruct (po_edge_count _ H) as [H0 H1]. apply filter_map_range_total; [done|]. intros i Hi.
    pose proof (edge_total p i H ltac:(cbn; lia)) as He. destruct (ConductorView.edge _ i); [eauto|].
    cbn in *; lia.
  - intros i Hi. by apply config_total.
  - destruct (po_config_count _ H) as [H0 H1]. apply filter_map_range_total; [done|]. intros i Hi.
    pose proof (config_total p i H ltac:(cbn; lia)) as He. destruct (ConductorView.config_binding _ i); [eauto|].
    cbn in *; lia.
  - intros r Hr. destruct (po_registry _ H r Hr) as [Hc Hok]. split; [done|]. intros o Ho. split.
    + intros [nm E]. unfold RegistryView.name in E. rewrite Hc in E.
      by destruct (Z.leb_spec (stage_count p) o).
    + intros Hlt. apply (reg_names _ Hok). lia.
Qed.

(** Validation parses the same body the accessor will. *)
Lemma validate_conductor bytes ir :
  Blob.validate bytes = Ok ir ->
  exists p, Blob.conductor ir = Ok (view_of p) /\ parsed_ok p.
Proof.
  intros H. unfold Blob.validate in H. inv_ok.
  match goal with H : read_u32 bytes 8 = Ok _ |- _ =>
    apply read_u32_Ok in H as (_ & _ & _ & _ & Hlen); [|done] end. unfold fits in Hlen.
  match goal with H : read_u32 bytes _ = Ok _ |- _ => rename H into Hroot end.
  match goal with H : read_record bytes _ = Ok _ |- _ => rename H into Hrec end.
  match goal with H : ConductorView.parse _ = Ok _ |- _ => rename H into Hparse end.
  unfold Blob.conductor. cbn [Blob.as_bytes]. rewrite Hroot. cbn. rewrite Hrec. cbn.
  rewrite bool_decide_eq_true_2 by done. cbn. pose proof Hparse as Hp.
  apply read_u32_Ok in Hroot as (_ & _ & _ & _ & [Hr0 _]); [|done].
  apply read_record_Ok in Hrec as (_ & _ & _ & Hbl); [|done].
  unfold ConductorView.parse in Hp. apply result_bind_Ok in Hp as (p & Hp & E).
  apply parse_ok in Hp as [Hok _]; [|lia]. exists p. split; [|done]. rewrite Hparse, <- E. done.
Qed.

(** *** Concrete blobs *)

Definition demo_blob (sorted : list Z) : Draft.ConductorBlob :=
  Draft.mkBlob
    [Draft.mkStage (Some (LimiterView.new 5 6 7)) None (Some (RetryView.new 3 1 0 100 2000))
       (Some (BreakerView.new 1 50 10 1000 3 2 99999));
     Draft.mkStage None (Some (TimeoutView.new 5000)) None None]
    [EdgeView.new 0 1 0]
    (Some (Draft.mkRegistry [[x62; x63]; [x61]] sorted))
    [Draft.mkBinding 1 256 [x6b; x65; x79] (ScalarValue.new 2 42)].

Definition encoded (blob : Draft.ConductorBlob) : list byte :=
  match Writer.write_conductor (replicate 400 xff) blob with
  | Ret (Ok n, buf) => take (Z.to_nat n) buf
  | _ => []
  end.

Definition demo_bytes : list byte := encoded (demo_blob [1; 0]).
(** The index of this one names stage 0 twice and stage 1 never. *)
Definition skewed_bytes : list byte := encoded (demo_blob [0; 0]).

(** C30: Once [validate] accepts a blob, [conductor] succeeds and every accessor
    of the view is total on its range and empty outside it: each stage
    resolves and each of its non-empty policy slots decodes, every edge and
    every config binding decodes and names existing stages, the edge and
    binding iterators drop nothing, and every ordinal has a name when there
    is a registry. *)
Theorem ir_validate_accessors (bytes : list byte) (ir : Blob.KwokkaIr) :
  Blob.validate bytes = Ok ir -> exists v, Blob.conductor ir = Ok v /\ accessors_total v.
Proof.
  intros H. destruct (validate_conductor bytes ir H) as (p & E & Hp). exists (view_of p).
  split; [done|]. by apply view_total.
Qed.

Lemma ir_validate_accessors_witness :
  exists v, Blob.conductor (Blob.from_trusted demo_bytes) = Ok v /\ accessors_total v.
Proof. apply (ir_validate_accessors demo_bytes). vm_compute. reflexivity. Defined.

(** C19: The registry lookup of a validated blob is a correct binary search:
    a hit is a stage that carries exactly the name asked for, and a miss means
    that no entry of the sorted index names a stage with that name. *)
Theorem ir_lookup_correct (bytes : list byte) (ir : Blob.KwokkaIr) (v : ConductorView.t)
    (r : RegistryView.t) (nm : list byte) :
  Blob.validate bytes = Ok ir -> Blob.conductor ir = Ok v -> ConductorView.registry v = Some r ->
  match RegistryView.lookup r nm with
  | Some o => 0 <= o < ConductorView.stage_count v /\ RegistryView.name r o = Some nm
  | None => forall k o, 0 <= k < ConductorView.stage_count v ->
      RegistryView.sorted_ordinal r k = Some o -> RegistryView.name r o <> Some nm
  end.
Proof.
  intros H Hv Hr. destruct (validate_conductor bytes ir H) as (p & E & Hp). rewrite E in Hv.
  injection Hv as <-. destruct (po_registry _ Hp r Hr) as [Hc Hok].
  pose proof (po_stage_count _ Hp) as [H0 _].
  pose proof (lookup_spec r nm Hok ltac:(lia)) as Hl. cbn [ConductorView.stage_count view_of].
  destruct (RegistryView.lookup r nm); rewrite Hc in Hl; [done|].
  intros k o Hk Ho En. apply (Hl k Hk). unfold rank_name. by rewrite Ho.
Qed.

Definition the_ok {E A} (d : A) (r : result E A) : A := match r with Ok a => a | Err _ => d end.
Definition no_view : ConductorView.t := ConductorView.mk [] 0 0 [] [] None 0 [].
Definition demo_view : ConductorView.t := the_ok no_view (Blob.conductor (Blob.from_trusted demo_bytes)).
Definition demo_registry : RegistryView.t :=
  default (RegistryView.new [] [] [] 0) (ConductorView.registry demo_view).

Lemma ir_lookup_correct_witness :
  RegistryView.lookup demo_registry [x61] = Some 1 /\
  match RegistryView.lookup demo_registry [x61] with
  | Some o => 0 <= o < ConductorView.stage_count demo_view /\ RegistryView.name demo_registry o = Some [x61]
  | None => forall k o, 0 <= k < ConductorView.stage_count demo_view ->
      RegistryView.sorted_ordinal demo_registry k = Some o -> RegistryView.name demo_registry o <> Some [x61]
  end.
Proof.
  split; [vm_compute; reflexivity|].
  apply (ir_lookup_correct demo_bytes (Blob.from_trusted demo_bytes) demo_view demo_registry [x61]);
    vm_compute; reflexivity.
Defined.

(** In a validated blob no two policy slots share a byte: the records of
    distinct slots of the stage table have disjoint spans. *)
Theorem ir_records_disjoint (bytes : list byte) (ir : Blob.KwokkaIr) (v : ConductorView.t)
    (n m : Z) (a b : Span) :
  Blob.validate bytes = Ok ir -> Blob.conductor ir = Ok v ->
  0 <= n < m -> m < ConductorView.stage_count v * PolicyKind.COUNT ->
  nth_record_span (ConductorView.body v) (ConductorView.stage_table v) n = Ok (Some a) ->
  nth_record_span (ConductorView.body v) (ConductorView.stage_table v) m = Ok (Some b) ->
  offset a + len a <= offset b \/ offset b + len b <= offset a.
Proof.
  intros H Hv Hn Hm Ea Eb. destruct (validate_conductor bytes ir H) as (p & E & Hp). rewrite E in Hv.
  injection Hv as <-. pose proof (po_records _ Hp n m a b Hn Hm Ea Eb) as Ho.
  unfold ranges_overlap in Ho. lia.
Qed.

Lemma ir_records_disjoint_witness : 64 + 24 <= 88 \/ 88 + 32 <= 64.
Proof.
  apply (ir_records_disjoint demo_bytes (Blob.from_trusted demo_bytes) demo_view 0 2
           (mkSpan 64 24) (mkSpan 88 32)); try (vm_compute; reflexivity).
  split; vm_compute; [discriminate|reflexivity].
Defined.

(** The header checks of [validate], each with its error: a blob shorter
    than the header is [Truncated], wrong leading bytes are [BadMagic], a newer
    version is reported with its number, and a [total_len] that disagrees with
    the buffer is [Truncated]. *)
Theorem ir_validate_header_errors (bytes : list byte) :
  (zlen bytes < Header.HEADER_LEN -> Blob.validate bytes = Err Truncated) /\
  (Header.HEADER_LEN <= zlen bytes -> get_range bytes 0 4 <> Some Header.MAGIC ->
     Blob.validate bytes = Err BadMagic) /\
  (Header.HEADER_LEN <= zlen bytes -> get_range bytes 0 4 = Some Header.MAGIC ->
     exists version total_len, read_u16 bytes 4 = Ok version /\ read_u32 bytes 8 = Ok total_len /\
       (Header.VERSION < version -> Blob.validate bytes = Err (UnsupportedVersion version)) /\
       (version <= Header.VERSION -> total_len <> zlen bytes -> Blob.validate bytes = Err Truncated)).
Proof.
  unfold Blob.validate. change (zlen Header.MAGIC) with 4. unfold Header.HEADER_LEN. split_and!.
  - intros H. by destruct (Z.ltb_spec (zlen bytes) 16); [|lia].
  - intros H Hm. destruct (Z.ltb_spec (zlen bytes) 16); [lia|].
    by rewrite bool_decide_eq_false_2.
  - intros H Hm. destruct (Z.ltb_spec (zlen bytes) 16); [lia|].
    rewrite bool_decide_eq_true_2 by done. cbn [negb].
    destruct (get_range_is_Some bytes 4 (4 + 2)) as (b1 & E1); [lia|].
    destruct (get_range_is_Some bytes 8 (8 + 4)) as (b2 & E2); [lia|].
    apply get_range_Some in E1 as (Hl1 & _ & Hh1); [|lia]. apply get_range_Some in E2 as (Hl2 & _ & Hh2); [|lia].
    exists (le_decode b1), (le_decode b2).
    rewrite (read_u16_holds _ _ _ Hh1) by (unfold zlen in *; lia).
    rewrite (read_u32_holds _ _ _ Hh2) by (unfold zlen in *; lia). cbn [mbind result_bind].
    split_and!; try done.
    + intros Hv. by destruct (Z.ltb_spec Header.VERSION (le_decode b1)); [|lia].
    + intros Hv Ht. destruct (Z.ltb_spec Header.VERSION (le_decode b1)); [lia|].
      by destruct (Z.eqb_spec (le_decode b2) (zlen bytes)).
Qed.

(** [validate] does not require the sorted index to list every stage: it
    accepts a blob whose stage 1 is named "a" and for which looking up "a"
    finds nothing. *)
Theorem ir_lookup_can_miss :
  Blob.validate skewed_bytes = Ok (Blob.from_trusted skewed_bytes) /\
  exists v r, Blob.conductor (Blob.from_trusted skewed_bytes) = Ok v /\
    ConductorView.registry v = Some r /\ RegistryView.name r 1 = Some [x61] /\
    RegistryView.lookup r [x61] = None.
Proof.
  split; [vm_compute; reflexivity|].
  exists (the_ok no_view (Blob.conductor (Blob.from_trusted skewed_bytes))).
  exists (default (RegistryView.new [] [] [] 0)
            (ConductorView.registry (the_ok no_view (Blob.conductor (Blob.from_trusted skewed_bytes))))).
  split_and!; vm_compute; reflexivity.
Qed.

End IrThms.
