(* ===== verification/IrEnc.v ===== *)
(** * What the writer writes

    The sections of a blob as byte strings, and the proof that the writer's
    loops put exactly these strings at the offsets [compute] laid out. *)

From S2P Require Import Prelude IrBytes IrData IrWrite IrRead.
From Stdlib.Init Require Import Byte.
From stdpp Require Import base tactics list numbers.

Local Open Scope Z_scope.

Module Enc.
Import Bytes Draft Writer.
Import Reader(RECORD_HEADER_LEN).

Definition enc_limiter (v : LimiterView.t) : list byte :=
  le_encode 4 (LimiterView.capacity v) ++ le_encode 4 (LimiterView.refill_tokens v)
  ++ le_encode 8 (LimiterView.refill_period_ns v).
Definition enc_timeout (v : TimeoutView.t) : list byte := le_encode 8 (TimeoutView.duration_ns v).
Definition enc_retry (v : RetryView.t) : list byte :=
  le_encode 4 (RetryView.max_attempts v) ++ le_encode 1 (RetryView.backoff_kind v)
  ++ le_encode 1 (RetryView.jitter_kind v) ++ le_encode 2 0
  ++ le_encode 8 (RetryView.base_delay_ns v) ++ le_encode 8 (RetryView.max_delay_ns v).
Definition enc_breaker (v : BreakerView.t) : list byte :=
  le_encode 1 (BreakerView.window_kind v) ++ le_encode 1 (BreakerView.failure_rate_percent v)
  ++ le_encode 2 0 ++ le_encode 4 (BreakerView.minimum_calls v)
  ++ le_encode 8 (BreakerView.window_span v) ++ le_encode 4 (BreakerView.half_open_max_calls v)
  ++ le_encode 4 (BreakerView.half_open_success_threshold v)
  ++ le_encode 8 (BreakerView.open_duration_ns v).

Definition enc_record (tag : NodeTag.t) (body : list byte) : list byte :=
  le_encode 2 (NodeTag.to_u16 tag) ++ le_encode 2 0 ++ le_encode 4 (8 + zlen body) ++ body.

(** The policy slots of a stage: tag and body of each record. *)
Definition stage_recs (st : StageSpec) : list (option (NodeTag.t * list byte)) :=
  [(fun v => (NodeTag.PolicyLimiter, enc_limiter v)) <$> limiter st;
   (fun v => (NodeTag.PolicyTimeout, enc_timeout v)) <$> timeout st;
   (fun v => (NodeTag.PolicyRetry, enc_retry v)) <$> retry st;
   (fun v => (NodeTag.PolicyBreaker, enc_breaker v)) <$> breaker st].

Definition recs (sts : list StageSpec) : list (option (NodeTag.t * list byte)) :=
  sts ≫= stage_recs.

Definition rec_bytes (r : option (NodeTag.t * list byte)) : list byte :=
  match r with Some (tag, body) => enc_record tag body | None => [] end.

Definition enc_recs (rs : list (option (NodeTag.t * list byte))) : list byte := rs ≫= rec_bytes.

(** The slot offsets of the stage table, from payload offset [p] on. *)
Fixpoint enc_slots (p : Z) (rs : list (option (NodeTag.t * list byte))) : list byte :=
  match rs with
  | [] => []
  | r :: rs =>
      le_encode 4 (match r with Some _ => p | None => 0 end) ++ enc_slots (p + zlen (rec_bytes r)) rs
  end.

Definition enc_edge (e : EdgeView.t) : list byte :=
  le_encode 2 (EdgeView.from_ordinal e) ++ le_encode 2 (EdgeView.to_ordinal e)
  ++ le_encode 2 (EdgeView.input_index e) ++ le_encode 2 0.

Fixpoint enc_names (heap : Z) (names : list (list byte)) : list byte :=
  match names with
  | [] => []
  | nm :: names => (le_encode 4 heap ++ le_encode 4 (zlen nm)) ++ enc_names (heap + zlen nm) names
  end.

Definition enc_sorted (sorted : list Z) : list byte := sorted ≫= le_encode 2.

Fixpoint enc_bindings (heap : Z) (config : list ConfigBindingSpec) : list byte :=
  match config with
  | [] => []
  | b :: config =>
      (le_encode 2 (node_ordinal b) ++ le_encode 2 (field_tag b) ++ le_encode 4 (zlen (key b))
       ++ le_encode 4 heap ++ le_encode 4 0 ++ le_encode 8 (ScalarValue.kind (default_value b))
       ++ le_encode 8 (ScalarValue.value (default_value b))) ++ enc_bindings (heap + zlen (key b)) config
  end.

Definition enc_header (l : Layout) : list byte :=
  Header.MAGIC ++ le_encode 2 Header.VERSION ++ le_encode 2 0 ++ le_encode 4 (total l)
  ++ le_encode 4 Header.HEADER_LEN ++ le_encode 2 (NodeTag.to_u16 NodeTag.ConductorSpec)
  ++ le_encode 2 0 ++ le_encode 4 (spec_record_len l) ++ le_encode 4 (stage_count l)
  ++ le_encode 4 (edge_count l) ++ le_encode 4 CONDUCTOR_HEADER_LEN
  ++ le_encode 4 (edge_table_off l) ++ le_encode 4 (registry_off l) ++ le_encode 4 (config_off l).

(** ** Lengths *)

Ltac zl := rewrite ?zlen_app, ?zlen_le_encode, ?zlen_cons; cbn [Z.of_nat Pos.of_succ_nat Pos.succ].

Lemma bind_cons {A B} (f : A -> list B) x l : (x :: l) ≫= f = f x ++ (l ≫= f).
Proof. done. Qed.

Lemma zlen_nil {A} : zlen (@nil A) = 0.
Proof. done. Qed.

Lemma zlen_enc_limiter v : zlen (enc_limiter v) = LimiterView.LEN.
Proof. unfold enc_limiter. by zl. Qed.
Lemma zlen_enc_timeout v : zlen (enc_timeout v) = TimeoutView.LEN.
Proof. unfold enc_timeout. by zl. Qed.
Lemma zlen_enc_retry v : zlen (enc_retry v) = RetryView.LEN.
Proof. unfold enc_retry. by zl. Qed.
Lemma zlen_enc_breaker v : zlen (enc_breaker v) = BreakerView.LEN.
Proof. unfold enc_breaker. by zl. Qed.
Lemma zlen_enc_record tag body : zlen (enc_record tag body) = 8 + zlen body.
Proof. unfold enc_record. zl. lia. Qed.
Lemma zlen_enc_edge e : zlen (enc_edge e) = EdgeView.LEN.
Proof. unfold enc_edge. by zl. Qed.
Lemma zlen_enc_slots p rs : zlen (enc_slots p rs) = 4 * zlen rs.
Proof. revert p. induction rs as [|r rs IH]; intros p; cbn [enc_slots]; zl; [done|]. rewrite IH. lia. Qed.
Lemma zlen_enc_names h names : zlen (enc_names h names) = 8 * zlen names.
Proof. revert h. induction names as [|r rs IH]; intros p; cbn [enc_names]; zl; [done|]. rewrite IH. lia. Qed.
Lemma zlen_enc_bindings h config : zlen (enc_bindings h config) = 32 * zlen config.
Proof. revert h. induction config as [|r rs IH]; intros p; cbn [enc_bindings]; zl; [done|]. rewrite IH. lia. Qed.
Lemma zlen_enc_sorted sorted : zlen (enc_sorted sorted) = 2 * zlen sorted.
Proof. unfold enc_sorted. induction sorted as [|r rs IH]; [done|]. rewrite bind_cons. zl. rewrite IH. lia. Qed.
Lemma zlen_enc_edges es : zlen (es ≫= enc_edge) = 8 * zlen es.
Proof. induction es as [|r rs IH]; [done|]. rewrite bind_cons. zl. rewrite IH, zlen_enc_edge. unfold EdgeView.LEN. lia. Qed.
Lemma zlen_enc_header l : zlen (enc_header l) = 48.
Proof. unfold enc_header. by zl. Qed.
Lemma zlen_recs sts : zlen (recs sts) = 4 * zlen sts.
Proof. induction sts as [|st sts IH]; [done|]. unfold recs in *. rewrite bind_cons. zl. rewrite IH. change (zlen (stage_recs st)) with 4. lia. Qed.

Lemma enc_recs_app a b : enc_recs (a ++ b) = enc_recs a ++ enc_recs b.
Proof. unfold enc_recs. by rewrite bind_app. Qed.

Lemma enc_slots_app p a b : enc_slots p (a ++ b) = enc_slots p a ++ enc_slots (p + zlen (enc_recs a)) b.
Proof.
  revert p. induction a as [|r a IH]; intros p; cbn [enc_slots app].
  - change (enc_recs []) with (@nil byte). by rewrite zlen_nil, Z.add_0_r.
  - rewrite IH, <- app_assoc. do 2 f_equal. unfold enc_recs. rewrite bind_cons, zlen_app, Z.add_assoc. done.
Qed.

(** ** The writer's steps as single writes *)

Lemma try_from_ok w v : v < 2 ^ w -> try_from w v = Some v.
Proof. intros. by apply try_from_Some. Qed.

Lemma copy_at_last l o o' a b :
  0 <= o -> o' = o + zlen a -> o + zlen a + zlen b <= zlen l ->
  (l1 ← copy_at l o a; copy_at l1 o' b) = copy_at l o (a ++ b).
Proof. intros H0 -> H1. by apply copy_at_app. Qed.

(** Fuses the leading writes of a goal, offsets and bounds by [lia], and the
    last one when nothing follows it. *)
Ltac fuse :=
  repeat (rewrite copy_fuse; [|zl; lia|zl; lia|zl; lia]);
  try (rewrite copy_at_last; [|zl; lia|zl; lia|zl; lia]);
  rewrite <- ?app_assoc.

Lemma write_header_eq buf l :
  48 <= zlen buf -> total l < 2 ^ 32 -> spec_record_len l < 2 ^ 32 -> edge_table_off l < 2 ^ 32 ->
  registry_off l < 2 ^ 32 -> config_off l < 2 ^ 32 ->
  write_header buf l = copy_at buf 0 (enc_header l).
Proof.
  intros Hb H1 H2 H3 H4 H5.
  unfold write_header, put_u16, put_u32, put_offset, BODY_OFFSET, Header.HEADER_LEN,
    RECORD_HEADER_LEN, CONDUCTOR_HEADER_LEN.
  rewrite !try_from_ok by done. assert (zlen Header.MAGIC = 4) as Hm by done. by fuse.
Qed.

(** Splits a write of a concatenation. *)
Lemma copy_split {B} l o a b (k : list byte -> outcome B) :
  0 <= o -> o + zlen a + zlen b <= zlen l ->
  (l2 ← copy_at l o (a ++ b); k l2) = (l1 ← copy_at l o a; l2 ← copy_at l1 (o + zlen a) b; k l2).
Proof. intros. symmetry. by apply copy_fuse. Qed.

(** A write keeps the length. *)
Lemma copy_bind {B} l o bs (k k' : list byte -> outcome B) :
  (forall l', zlen l' = zlen l -> k l' = k' l') ->
  0 <= o -> o + zlen bs <= zlen l -> (l' ← copy_at l o bs; k l') = (l' ← copy_at l o bs; k' l').
Proof. intros H H0 H1. destruct (copy_at_ok l o bs H0 H1) as (l' & -> & Hl & _). cbn. auto. Qed.

Lemma copy_nil {B} buf o (k : list byte -> outcome B) : o <= zlen buf -> (b ← copy_at buf o []; k b) = k buf.
Proof.
  intros H. unfold copy_at. change (zlen (@nil byte)) with 0. rewrite Z.add_0_r.
  destruct (Z.leb_spec o (zlen buf)); [|lia]. cbn. by rewrite take_drop.
Qed.

Definition rec_len (r : option (NodeTag.t * list byte)) : option Z :=
  (fun r => zlen r.2) <$> r.

Lemma record_body_lens_eq st : record_body_lens st = rec_len <$> stage_recs st.
Proof.
  unfold record_body_lens, stage_recs. destruct (limiter st), (timeout st), (retry st), (breaker st);
    cbn [slot_len fmap list_fmap option_fmap option_map rec_len snd];
    rewrite ?zlen_enc_limiter, ?zlen_enc_timeout, ?zlen_enc_retry, ?zlen_enc_breaker; done.
Qed.

Lemma zlen_rec_bytes r : zlen (rec_bytes r) = match rec_len r with Some n => RECORD_HEADER_LEN + n | None => 0 end.
Proof. destruct r as [[tag body]|]; [apply zlen_enc_record|done]. Qed.

Lemma zlen_enc_recs_cons r rs : zlen (enc_recs (r :: rs)) = zlen (rec_bytes r) + zlen (enc_recs rs).
Proof. unfold enc_recs. by rewrite bind_cons, zlen_app. Qed.

Lemma write_slots_eq buf o p rs :
  0 <= o -> o + 4 * zlen rs <= zlen buf -> p + zlen (enc_recs rs) < 2 ^ 32 ->
  write_slots buf o p (rec_len <$> rs)
  = (b ← copy_at buf o (enc_slots p rs); Ret (b, p + zlen (enc_recs rs))).
Proof.
  revert buf o p. induction rs as [|r rs IH]; intros buf o p Ho Hb Hp.
  - change (zlen []) with 0 in Hb. cbn [fmap list_fmap write_slots enc_slots]. rewrite copy_nil by lia.
    change (zlen (enc_recs [])) with 0. by rewrite Z.add_0_r.
  - rewrite zlen_cons in Hb. rewrite zlen_enc_recs_cons in *. pose proof (zlen_nonneg (enc_recs rs)).
    pose proof (zlen_nonneg (rec_bytes r)). pose proof (zlen_nonneg rs).
    pose proof (zlen_rec_bytes r) as Hr. cbn [enc_slots fmap list_fmap].
    rewrite copy_split by (zl; rewrite ?zlen_enc_slots; lia). zl.
    destruct (rec_len r) as [n|] eqn:E; cbn [write_slots]; unfold put_offset; rewrite try_from_ok by lia.
    + assert (exists r', r = Some r') as (r' & ->) by (destruct r; eauto; done).
      apply copy_bind; [|lia|zl; lia]. intros l' Hl. rewrite IH by lia. rewrite Hr.
      f_equal. by rewrite <- Z.add_assoc.
    + assert (r = None) as -> by (destruct r; done). rewrite Hr in *.
      apply copy_bind; [|lia|zl; lia]. intros l' Hl. rewrite Z.add_0_r, IH by lia. done.
Qed.

Lemma stage_recs_len st : zlen (stage_recs st) = 4.
Proof. done. Qed.

Lemma recs_cons st sts : recs (st :: sts) = stage_recs st ++ recs sts.
Proof. done. Qed.

Lemma write_stages_from_eq buf o p sts :
  0 <= o -> o + 16 * zlen sts <= zlen buf -> p + zlen (enc_recs (recs sts)) < 2 ^ 32 ->
  write_stages_from buf o p sts = (b ← copy_at buf o (enc_slots p (recs sts)); Ret b).
Proof.
  revert buf o p. induction sts as [|st sts IH]; intros buf o p Ho Hb Hp; [change (zlen []) with 0 in Hb; by rewrite copy_nil by lia|].
  rewrite recs_cons, enc_recs_app, zlen_app in Hp. rewrite zlen_cons in Hb.
  pose proof (zlen_nonneg sts). pose proof (zlen_nonneg (enc_recs (recs sts))).
  rewrite recs_cons, enc_slots_app. cbn [write_stages_from].
  rewrite record_body_lens_eq, write_slots_eq by (rewrite ?stage_recs_len; lia).
  rewrite copy_split by (rewrite ?zlen_enc_slots, ?stage_recs_len, ?zlen_recs; lia).
  rewrite zlen_enc_slots, stage_recs_len.
  destruct (copy_at_ok buf o (enc_slots p (stage_recs st))) as (l' & -> & Hl & _);
    [lia|rewrite zlen_enc_slots, stage_recs_len; lia|].
  cbn [mbind outcome_bind]. rewrite IH; [done|unfold STAGE_ENTRY_LEN, PolicyKind.COUNT; lia| |lia].
  unfold STAGE_ENTRY_LEN, PolicyKind.COUNT; lia.
Qed.

Lemma write_edges_from_eq buf o es :
  0 <= o -> o + 8 * zlen es <= zlen buf ->
  write_edges_from buf o es = (b ← copy_at buf o (es ≫= enc_edge); Ret b).
Proof.
  revert buf o. induction es as [|e es IH]; intros buf o Ho Hb; [change (zlen []) with 0 in Hb; by rewrite copy_nil by lia|].
  rewrite zlen_cons in Hb. pose proof (zlen_nonneg es). rewrite bind_cons. cbn [write_edges_from].
  rewrite copy_split by (rewrite ?zlen_enc_edge, ?zlen_enc_edges; unfold EdgeView.LEN; lia).
  unfold put_u16. fuse. fold (enc_edge e). apply copy_bind; [|lia|rewrite zlen_enc_edge; unfold EdgeView.LEN; lia].
  intros l' Hl. rewrite IH by (unfold EdgeView.LEN; lia). by rewrite zlen_enc_edge.
Qed.

(** *** Policy records *)

Lemma obind_assoc {A B C} (m : outcome A) (f : A -> outcome B) (g : B -> outcome C) :
  ((m ≫= f) ≫= g) = (m ≫= fun x => f x ≫= g).
Proof. by destruct m. Qed.

#[global] Instance outcome_bind_proper {A B} :
  Proper (pointwise_relation A eq ==> eq ==> eq) (mbind (M := outcome) (A := A) (B := B)).
Proof. intros f g Hf m m' <-. destruct m; cbn; auto. Qed.

Lemma obind_Ret {A B} (a : A) (f : A -> outcome B) : (Ret a ≫= f) = f a.
Proof. done. Qed.

(** Flattens nested sequences. *)
Ltac flatten := repeat (setoid_rewrite obind_assoc || setoid_rewrite obind_Ret); cbv beta iota.

Lemma write_frame_bind {B} buf p tag n (k : Z * list byte -> outcome B) :
  0 <= p -> 24 + p + 8 <= zlen buf -> 8 + n < 2 ^ 32 ->
  (x ← write_frame buf p tag n; k x)
  = (b ← copy_at buf (24 + p) (le_encode 2 (NodeTag.to_u16 tag) ++ le_encode 2 0 ++ le_encode 4 (8 + n));
     k (24 + p + 8, b)).
Proof.
  intros Hp Hb Hn. unfold write_frame, put_u16, put_offset, BODY_OFFSET, Header.HEADER_LEN, RECORD_HEADER_LEN.
  rewrite try_from_ok by lia. change (16 + 8 + p) with (24 + p). flatten. by fuse.
Qed.

Ltac record_write := 
  intros Hp Hb; rewrite write_frame_bind by (lia || done); cbv beta iota;
  unfold put_u8, put_u16, put_u32, put_u64; fuse.

Lemma write_limiter_eq buf p v :
  0 <= p -> 24 + p + 24 <= zlen buf ->
  write_limiter buf p (Some v)
  = (b ← copy_at buf (24 + p) (enc_record NodeTag.PolicyLimiter (enc_limiter v)); Ret (b, p + 24)).
Proof. unfold write_limiter. record_write. by unfold enc_record; rewrite zlen_enc_limiter. Qed.

Lemma write_timeout_eq buf p v :
  0 <= p -> 24 + p + 16 <= zlen buf ->
  write_timeout buf p (Some v)
  = (b ← copy_at buf (24 + p) (enc_record NodeTag.PolicyTimeout (enc_timeout v)); Ret (b, p + 16)).
Proof. unfold write_timeout. record_write. by unfold enc_record; rewrite zlen_enc_timeout. Qed.

Lemma write_retry_eq buf p v :
  0 <= p -> 24 + p + 32 <= zlen buf ->
  write_retry buf p (Some v)
  = (b ← copy_at buf (24 + p) (enc_record NodeTag.PolicyRetry (enc_retry v)); Ret (b, p + 32)).
Proof. unfold write_retry. record_write. by unfold enc_record; rewrite zlen_enc_retry. Qed.

Lemma write_breaker_eq buf p v :
  0 <= p -> 24 + p + 40 <= zlen buf ->
  write_breaker buf p (Some v)
  = (b ← copy_at buf (24 + p) (enc_record NodeTag.PolicyBreaker (enc_breaker v)); Ret (b, p + 40)).
Proof. unfold write_breaker. record_write. by unfold enc_record; rewrite zlen_enc_breaker. Qed.

(** One slot, empty or not. *)
Definition slot_write (buf : list byte) (p : Z) (r : option (NodeTag.t * list byte)) : outcome (list byte * Z) :=
  b ← copy_at buf (24 + p) (rec_bytes r); Ret (b, p + zlen (rec_bytes r)).

Lemma slot_write_None buf p : 24 + p <= zlen buf -> slot_write buf p None = Ret (buf, p).
Proof. intros H. unfold slot_write. cbn [rec_bytes]. rewrite copy_nil by done. by rewrite Z.add_0_r. Qed.

Ltac slot_case lem H :=
  cbn [fmap option_fmap option_map] in *; unfold slot_write; cbn [rec_bytes] in *;
  rewrite zlen_enc_record, ?zlen_enc_limiter, ?zlen_enc_timeout, ?zlen_enc_retry, ?zlen_enc_breaker in *;
  rewrite lem; [done|lia|unfold LimiterView.LEN, TimeoutView.LEN, RetryView.LEN, BreakerView.LEN in H; lia].

Ltac slot_none H :=
  cbn [fmap option_fmap option_map] in *; change (zlen (rec_bytes None)) with 0 in H;
  by rewrite slot_write_None by lia.

Lemma write_limiter_slot buf p v :
  let r := (fun v => (NodeTag.PolicyLimiter, enc_limiter v)) <$> v in
  0 <= p -> 24 + p + zlen (rec_bytes r) <= zlen buf -> write_limiter buf p v = slot_write buf p r.
Proof.
  intros r Hp H. subst r. destruct v as [v|]; [slot_case (write_limiter_eq buf p v) H|].
  slot_none H.
Qed.

Lemma write_timeout_slot buf p v :
  let r := (fun v => (NodeTag.PolicyTimeout, enc_timeout v)) <$> v in
  0 <= p -> 24 + p + zlen (rec_bytes r) <= zlen buf -> write_timeout buf p v = slot_write buf p r.
Proof.
  intros r Hp H. subst r. destruct v as [v|]; [slot_case (write_timeout_eq buf p v) H|].
  slot_none H.
Qed.

Lemma write_retry_slot buf p v :
  let r := (fun v => (NodeTag.PolicyRetry, enc_retry v)) <$> v in
  0 <= p -> 24 + p + zlen (rec_bytes r) <= zlen buf -> write_retry buf p v = slot_write buf p r.
Proof.
  intros r Hp H. subst r. destruct v as [v|]; [slot_case (write_retry_eq buf p v) H|].
  slot_none H.
Qed.

Lemma write_breaker_slot buf p v :
  let r := (fun v => (NodeTag.PolicyBreaker, enc_breaker v)) <$> v in
  0 <= p -> 24 + p + zlen (rec_bytes r) <= zlen buf -> write_breaker buf p v = slot_write buf p r.
Proof.
  intros r Hp H. subst r. destruct v as [v|]; [slot_case (write_breaker_eq buf p v) H|].
  slot_none H.
Qed.

(** The write [w] followed by [k] is one write at [24 + p] followed by [k']. *)
Lemma slot_then {B} buf p r bs (m : outcome (list byte * Z)) (k : list byte -> Z -> outcome B)
    (k' : list byte -> outcome B) :
  0 <= p -> 24 + p + zlen (rec_bytes r) + zlen bs <= zlen buf -> m = slot_write buf p r ->
  (forall b, zlen b = zlen buf ->
     k b (p + zlen (rec_bytes r)) = (b' ← copy_at b (24 + (p + zlen (rec_bytes r))) bs; k' b')) ->
  ('(b, q) ← m; k b q) = (b ← copy_at buf (24 + p) (rec_bytes r ++ bs); k' b).
Proof.
  intros Hp Hb -> Hk. pose proof (zlen_nonneg bs). pose proof (zlen_nonneg (rec_bytes r)).
  unfold slot_write. flatten. rewrite copy_split by lia.
  replace (24 + p + zlen (rec_bytes r)) with (24 + (p + zlen (rec_bytes r))) by lia.
  apply copy_bind; [|lia|lia]. intros b Hbl. by apply Hk.
Qed.

Lemma write_records_from_eq buf p sts :
  0 <= p -> 24 + p + zlen (enc_recs (recs sts)) <= zlen buf ->
  write_records_from buf p sts = (b ← copy_at buf (24 + p) (enc_recs (recs sts)); Ret b).
Proof.
  revert buf p. induction sts as [|st sts IH]; intros buf p Hp Hb.
  { change (enc_recs (recs [])) with (@nil byte) in *. rewrite zlen_nil in Hb. by rewrite copy_nil by lia. }
  rewrite recs_cons, enc_recs_app in *. unfold stage_recs, enc_recs in Hb |- *.
  rewrite !bind_cons in Hb |- *. rewrite <- !app_assoc in Hb |- *. rewrite !zlen_app in Hb.
  set (r1 := _ <$> limiter st) in *. set (r2 := _ <$> timeout st) in *.
  set (r3 := _ <$> retry st) in *. set (r4 := _ <$> breaker st) in *.
  change ([] ≫= rec_bytes) with (@nil byte) in *. rewrite app_nil_l. rewrite zlen_nil in Hb.
  pose proof (zlen_nonneg (rec_bytes r1)). pose proof (zlen_nonneg (rec_bytes r2)).
  pose proof (zlen_nonneg (rec_bytes r3)). pose proof (zlen_nonneg (rec_bytes r4)).
  pose proof (zlen_nonneg (recs sts ≫= rec_bytes)). cbn [write_records_from].
  apply slot_then; [lia|rewrite !zlen_app; lia|apply write_limiter_slot; fold r1; lia|]. intros b1 Hb1.
  apply slot_then; [lia|rewrite !zlen_app; lia|apply write_timeout_slot; fold r2; lia|]. intros b2 Hb2.
  apply slot_then; [lia|rewrite !zlen_app; lia|apply write_retry_slot; fold r3; lia|]. intros b3 Hb3.
  apply slot_then; [lia|lia|apply write_breaker_slot; fold r4; lia|]. intros b4 Hb4.
  apply IH; [lia|]. unfold enc_recs. lia.
Qed.

(** *** Registry and config sections *)

Definition heap_names (names : list (list byte)) : list byte := names ≫= fun nm => nm.
Definition heap_keys (config : list ConfigBindingSpec) : list byte := config ≫= key.

(** An entry, its string, and then the rest of the two tables: the shape of
    the name and binding loops. *)
Lemma interleave {B} buf e h a c bs d (k : list byte -> outcome B) :
  0 <= e -> e + zlen a + zlen c <= h -> h + zlen bs + zlen d <= zlen buf ->
  (b ← copy_at buf e a; b ← copy_at b h bs; b ← copy_at b (e + zlen a) c;
   b ← copy_at b (h + zlen bs) d; k b)
  = (b ← copy_at buf e (a ++ c); b ← copy_at b h (bs ++ d); k b).
Proof.
  intros He H1 H2. pose proof (zlen_nonneg a). pose proof (zlen_nonneg c).
  pose proof (zlen_nonneg bs). pose proof (zlen_nonneg d).
  rewrite (copy_split _ _ a c) by lia. apply copy_bind; [|lia|lia]. intros b1 Hb1.
  rewrite copy_comm by lia. apply copy_bind; [|lia|lia]. intros b2 Hb2.
  rewrite (copy_split _ _ bs d) by lia. done.
Qed.

Lemma write_names_from_eq buf e heap names :
  0 <= heap -> 0 <= e -> e + 8 * zlen names <= 24 + heap -> 24 + heap + zlen (heap_names names) <= zlen buf ->
  heap + zlen (heap_names names) < 2 ^ 32 ->
  write_names_from buf e heap names
  = (b ← copy_at buf e (enc_names heap names); b ← copy_at b (24 + heap) (heap_names names);
     Ret (b, heap + zlen (heap_names names))).
Proof.
  revert buf e heap. induction names as [|nm names IH]; intros buf e heap Hh He H1 H2 H3.
  { change (heap_names []) with (@nil byte) in *. unfold zlen in H1; cbn in H1. rewrite zlen_nil in *. cbn [enc_names write_names_from].
    rewrite copy_nil by lia. rewrite copy_nil by lia. by rewrite Z.add_0_r. }
  rewrite zlen_cons in H1. unfold heap_names in *. rewrite bind_cons in *. rewrite zlen_app in *.
  pose proof (zlen_nonneg nm). pose proof (zlen_nonneg names). pose proof (zlen_nonneg (names ≫= fun nm => nm)).
  cbn [enc_names write_names_from]. unfold put_offset. rewrite !try_from_ok by lia.
  rewrite <- interleave by (zl; rewrite ?zlen_enc_names; lia). zl.
  unfold write_bytes, BODY_OFFSET, Header.HEADER_LEN, RECORD_HEADER_LEN. flatten.
  rewrite copy_fuse by (zl; lia). apply copy_bind; [|lia|zl; lia]. intros b1 Hb1.
  change (16 + 8 + heap) with (24 + heap). apply copy_bind; [|lia|lia]. intros b2 Hb2.
  rewrite IH by (unfold RegistryView.NAME_ENTRY_LEN; lia). unfold RegistryView.NAME_ENTRY_LEN.
  replace (24 + (heap + zlen nm)) with (24 + heap + zlen nm) by lia.
  change (4 + 4) with 8. by rewrite Z.add_assoc.
Qed.

Lemma write_sorted_from_eq buf o sorted :
  0 <= o -> o + 2 * zlen sorted <= zlen buf ->
  write_sorted_from buf o sorted = (b ← copy_at buf o (enc_sorted sorted); Ret b).
Proof.
  revert buf o. induction sorted as [|k sorted IH]; intros buf o Ho Hb.
  { change (zlen []) with 0 in Hb. by rewrite copy_nil by lia. }
  rewrite zlen_cons in Hb. pose proof (zlen_nonneg sorted). unfold enc_sorted. rewrite bind_cons.
  fold (enc_sorted sorted). cbn [write_sorted_from]. unfold put_u16.
  rewrite copy_split by (zl; rewrite ?zlen_enc_sorted; lia). zl.
  apply copy_bind; [|lia|zl; lia]. intros l' Hl.
  by rewrite IH by (unfold RegistryView.SORTED_ENTRY_LEN; lia).
Qed.

Lemma write_bindings_from_eq buf e heap config :
  0 <= heap -> 0 <= e -> e + 32 * zlen config <= 24 + heap -> 24 + heap + zlen (heap_keys config) <= zlen buf ->
  heap + zlen (heap_keys config) < 2 ^ 32 ->
  write_bindings_from buf e heap config
  = (b ← copy_at buf e (enc_bindings heap config); b ← copy_at b (24 + heap) (heap_keys config);
     Ret (b, heap + zlen (heap_keys config))).
Proof.
  revert buf e heap. induction config as [|c config IH]; intros buf e heap Hh He H1 H2 H3.
  { change (heap_keys []) with (@nil byte) in *. unfold zlen in H1; cbn in H1. rewrite zlen_nil in *. cbn [enc_bindings write_bindings_from].
    rewrite copy_nil by lia. rewrite copy_nil by lia. by rewrite Z.add_0_r. }
  rewrite zlen_cons in H1. unfold heap_keys in *. rewrite bind_cons in *. rewrite zlen_app in *.
  pose proof (zlen_nonneg (key c)). pose proof (zlen_nonneg config). pose proof (zlen_nonneg (config ≫= key)).
  cbn [enc_bindings write_bindings_from]. unfold put_offset, put_u16, put_u32, put_u64.
  rewrite !try_from_ok by lia. rewrite <- interleave by (zl; rewrite ?zlen_enc_bindings; lia). zl.
  unfold write_bytes, BODY_OFFSET, Header.HEADER_LEN, RECORD_HEADER_LEN. flatten.
  do 6 (rewrite copy_fuse; [|zl; lia|zl; lia|zl; lia]). rewrite <- !app_assoc.
  apply copy_bind; [|lia|zl; lia]. intros b1 Hb1.
  change (16 + 8 + heap) with (24 + heap). apply copy_bind; [|lia|lia]. intros b2 Hb2.
  rewrite IH by (unfold ConfigBindingView.LEN; lia). unfold ConfigBindingView.LEN.
  replace (24 + (heap + zlen (key c))) with (24 + heap + zlen (key c)) by lia.
  rewrite <- (Z.add_assoc heap). done.
Qed.

End Enc.

(** * The computed layout and the written buffer

    [compute] places the sections one after the other, and [write_conductor]
    leaves in the buffer exactly the sections of [IrEnc] at these places. *)

From Stdlib.Init Require Import Byte.
From stdpp Require Import base tactics list numbers.

Local Open Scope Z_scope.

Module LayoutFacts.
Import Bytes Draft Writer Enc Read.
Import Reader(RECORD_HEADER_LEN).

Definition sum (l : list Z) : Z := foldr Z.add 0 l.

Lemma checked_sum_Ok t lens r : checked_sum t lens = Ok r -> r = t + sum lens.
Proof.
  revert t. induction lens as [|n lens IH]; intros t H; cbn [checked_sum] in H; inv_ok; [cbn; lia|].
  apply IH in H. change (sum (n :: lens)) with (n + sum lens). lia.
Qed.

Lemma sum_recs rs :
  sum ((fun len => RECORD_HEADER_LEN + len) <$> omap id (rec_len <$> rs)) = zlen (enc_recs rs).
Proof.
  induction rs as [|r rs IH]; [done|]. rewrite zlen_enc_recs_cons, zlen_rec_bytes, <- IH.
  cbn [fmap list_fmap]. destruct (rec_len r); done.
Qed.

Lemma payload_len_Ok st r : payload_len st = Ok r -> r = zlen (enc_recs (stage_recs st)).
Proof.
  unfold payload_len. rewrite record_body_lens_eq. intros H%checked_sum_Ok.
  by rewrite sum_recs in H.
Qed.

Lemma add_payloads_Ok p sts r : add_payloads p sts = Ok r -> r = p + zlen (enc_recs (recs sts)).
Proof.
  revert p. induction sts as [|st sts IH]; intros p H; cbn [add_payloads] in H.
  - inv_ok. change (zlen (enc_recs (recs []))) with 0. lia.
  - apply result_bind_Ok in H as (n & Hn%payload_len_Ok & H). inv_ok. apply IH in H.
    rewrite recs_cons, enc_recs_app, zlen_app. lia.
Qed.

Lemma align8_Ok v r : 0 <= v -> align8 v = Ok r -> v <= r < v + 8 /\ r mod 8 = 0.
Proof.
  intros Hv H. unfold align8 in H. inv_ok.
  assert (Z.land (v + 7) (lnot 64 7) = (v + 7) / 8 * 8) as ->.
  { apply Z.bits_inj'. intros n Hn. rewrite Z.land_spec. unfold lnot.
    replace (Z.lxor 7 (2 ^ 64 - 1)) with (Z.shiftl (Z.ones 61) 3) by reflexivity.
    rewrite <- (Z.shiftl_mul_pow2 _ 3), <- (Z.shiftr_div_pow2 _ 3) by lia.
    rewrite !Z.shiftl_spec by lia. destruct (Z.lt_ge_cases n 3).
    - rewrite !(Z.testbit_neg_r _ (n - 3)) by lia. apply andb_false_r.
    - rewrite Z.shiftr_spec by lia. replace (n - 3 + 3) with n by lia.
      destruct (Z.lt_ge_cases n 64).
      + rewrite Z.ones_spec_low by lia. apply andb_true_r.
      + replace (v + 7) with ((v + 7) mod 2 ^ 64) by (apply Z.mod_small; lia).
        by rewrite Z.mod_pow2_bits_high by lia. }
  Z.div_mod_to_equations. lia.
Qed.

Definition sum_len (xs : list (list byte)) : Z := sum (zlen <$> xs).

Lemma zlen_heap_names names : zlen (heap_names names) = sum (zlen <$> names).
Proof.
  induction names as [|nm names IH]; [done|]. unfold heap_names in *. rewrite bind_cons, zlen_app, IH. done.
Qed.

Lemma zlen_heap_keys config : zlen (heap_keys config) = sum ((fun b => zlen (key b)) <$> config).
Proof.
  induction config as [|nm config IH]; [done|]. unfold heap_keys in *. rewrite bind_cons, zlen_app, IH. done.
Qed.

(** Section ends, as functions of the blob and its layout. *)
Definition policy_end (blob : ConductorBlob) (l : Layout) : Z :=
  policy_heap_off l + zlen (enc_recs (recs (stages blob))).
Definition name_bytes (blob : ConductorBlob) : list byte :=
  match registry blob with Some reg => heap_names (names reg) | None => [] end.

Record layout_ok (blob : ConductorBlob) (l : Layout) : Prop := {
  lo_total : total l < 2 ^ 32;
  lo_spec : spec_record_len l = total l - 16;
  lo_stages : stage_count l = zlen (stages blob);
  lo_edges : edge_count l = zlen (edges blob);
  lo_arity reg : registry blob = Some reg ->
    zlen (names reg) = zlen (stages blob) /\ zlen (sorted reg) = zlen (stages blob);
  lo_edge_off : edge_table_off l = 24 + 16 * zlen (stages blob);
  lo_heap : policy_heap_off l = edge_table_off l + 8 * zlen (edges blob);
  lo_registry : registry_off l = match registry blob with Some _ => policy_end blob l | None => 0 end;
  lo_config : config_off l = match config blob with [] => 0
                             | _ => heap_off l - (8 + 32 * zlen (config blob)) end;
  lo_order : policy_end blob l + match registry blob with Some _ => 10 * zlen (stages blob) | None => 0 end
             <= heap_off l - match config blob with [] => 0 | _ => 8 + 32 * zlen (config blob) end;
  lo_body : (total l - 24) mod 8 = 0;
  lo_strings : heap_off l + zlen (name_bytes blob) + zlen (heap_keys (config blob)) <= total l - 24;
}.

Lemma string_heap_len_Ok blob r :
  string_heap_len blob = Ok r -> r = zlen (name_bytes blob) + zlen (heap_keys (config blob)).
Proof.
  intros H. unfold string_heap_len, name_bytes in *. apply result_bind_Ok in H as (t & Ht & H).
  apply checked_sum_Ok in H. rewrite zlen_heap_keys.
  destruct (registry blob) as [reg|]; [apply checked_sum_Ok in Ht; rewrite zlen_heap_names|inv_ok; change (zlen []) with 0]; lia.
Qed.

Lemma registry_section_Ok {A} (reg : option A) n pe off re :
  0 <= n ->
  match reg with
  | Some _ => len ← registry_len n; end_ ← ok_or (checked_add USIZE pe len) SpecTooLarge; Ok (pe, end_)
  | None => Ok (0, pe)
  end = Ok (off, re) ->
  off = match reg with Some _ => pe | None => 0 end /\
  pe + match reg with Some _ => 10 * n | None => 0 end <= re.
Proof.
  intros Hn H. destruct reg; [|injection H as <- <-; lia].
  apply result_bind_Ok in H as (len & Hlen & H). inv_ok. unfold registry_len in Hlen. inv_ok.
  unfold RegistryView.NAME_ENTRY_LEN, RegistryView.SORTED_ENTRY_LEN in *.
  apply align8_Ok in Hlen; [|lia]. split; [done|lia].
Qed.

Lemma config_section_Ok (cfg : list ConfigBindingSpec) re off he :
  match cfg with
  | [] => Ok (0, re)
  | _ =>
      entries_len ← ok_or (checked_mul USIZE (zlen cfg) ConfigBindingView.LEN) SpecTooLarge;
      len ← ok_or (checked_add USIZE CONFIG_HEADER_LEN entries_len) SpecTooLarge;
      end_ ← ok_or (checked_add USIZE re len) SpecTooLarge;
      Ok (re, end_)
  end = Ok (off, he) ->
  off = match cfg with [] => 0 | _ => re end /\
  he = re + match cfg with [] => 0 | _ => 8 + 32 * zlen cfg end.
Proof.
  intros H. destruct cfg as [|c cfg]; [injection H as <- <-; lia|].
  remember (c :: cfg) as cs. inv_ok. unfold ConfigBindingView.LEN, CONFIG_HEADER_LEN in *.
  split; [done|]. lia.
Qed.

Lemma arity_Ok blob reg :
  validate_registry_arity blob = Ok tt -> registry blob = Some reg ->
  zlen (names reg) = zlen (stages blob) /\ zlen (sorted reg) = zlen (stages blob).
Proof.
  intros H E. unfold validate_registry_arity in H. rewrite E in H. inv_ok.
  apply orb_false_iff in Hb as [Ha Hb]. inv_ok. done.
Qed.

Lemma compute_Ok blob l : compute blob = Ok l -> layout_ok blob l.
Proof.
  intros H. unfold compute in H. inv_ok.
  repeat (match goal with x : (Z * Z)%type |- _ => destruct x end; inv_ok).
  repeat match goal with H : try_from _ _ = Some _ |- _ => apply try_from_Some in H as [-> H] end.
  match goal with H : add_payloads _ _ = Ok _ |- _ => apply add_payloads_Ok in H as -> end.
  match goal with H : string_heap_len _ = Ok _ |- _ => apply string_heap_len_Ok in H as -> end.
  match goal with H : validate_registry_arity _ = Ok ?u |- _ => destruct u; rename H into Har end.
  match goal with H : align8 _ = Ok _ |- _ => rename H into Hal end.
  pose proof (zlen_nonneg (stages blob)). pose proof (zlen_nonneg (edges blob)).
  pose proof (zlen_nonneg (enc_recs (recs (stages blob)))). pose proof (zlen_nonneg (name_bytes blob)).
  pose proof (zlen_nonneg (heap_keys (config blob))). pose proof (zlen_nonneg (config blob)).
  apply registry_section_Ok in Hx7 as [Hro Hre]; [|done]. apply config_section_Ok in Hx8 as [Hco Hhe].
  unfold STAGE_ENTRY_LEN, EdgeView.LEN, PolicyKind.COUNT, CONDUCTOR_HEADER_LEN, Header.HEADER_LEN,
    RECORD_HEADER_LEN in *.
  assert (0 <= match registry blob with Some _ => 10 * zlen (stages blob) | None => 0 end)
    by (destruct (registry blob); lia).
  assert (0 <= match config blob with [] => 0 | _ => 8 + 32 * zlen (config blob) end)
    by (destruct (config blob); lia).
  apply align8_Ok in Hal as [Hal Ham]; [|lia].
  constructor; cbn [total spec_record_len stage_count edge_count edge_table_off policy_heap_off
    registry_off config_off heap_off]; unfold policy_end; cbn [policy_heap_off]; try done; try lia.
  - intros reg. by apply arity_Ok.
  - destruct (config blob); lia.
  - replace (16 + (8 + x4) - 24) with x4 by lia. done.
Qed.

(** The order of the sections, as inequalities between their ends. *)
Record layout_order (blob : ConductorBlob) (l : Layout) : Prop := {
  or_edges : edge_table_off l = 24 + 16 * zlen (stages blob);
  or_policies : policy_heap_off l = edge_table_off l + 8 * zlen (edges blob);
  or_counts : 0 <= zlen (stages blob) /\ 0 <= zlen (edges blob) /\
    0 <= zlen (enc_recs (recs (stages blob))) /\ 0 <= zlen (config blob);
  or_end : policy_end blob l = policy_heap_off l + zlen (enc_recs (recs (stages blob)));
  or_registry : registry blob <> None ->
    registry_off l = policy_end blob l /\ registry_off l + 10 * zlen (stages blob) <= heap_off l /\
    (config blob <> [] -> registry_off l + 10 * zlen (stages blob) <= config_off l);
  or_config : config blob <> [] -> policy_end blob l <= config_off l /\
    config_off l + 8 + 32 * zlen (config blob) = heap_off l;
  or_offs : registry_off l <= total l - 24 /\ config_off l <= total l - 24;
  or_heap : policy_end blob l <= heap_off l;
  or_strings : 0 <= zlen (name_bytes blob) /\ 0 <= zlen (heap_keys (config blob)) /\
    24 + heap_off l + zlen (name_bytes blob) + zlen (heap_keys (config blob)) <= total l;
}.

Lemma layout_ordered blob l : layout_ok blob l -> layout_order blob l.
Proof.
  intros [Ht Hsp Hsc Hec Har Heo Hph Hro Hco Hord Hbody Hstr].
  pose proof (zlen_nonneg (stages blob)). pose proof (zlen_nonneg (edges blob)).
  pose proof (zlen_nonneg (enc_recs (recs (stages blob)))). pose proof (zlen_nonneg (name_bytes blob)).
  pose proof (zlen_nonneg (heap_keys (config blob))). pose proof (zlen_nonneg (config blob)).
  constructor; try done; try lia; unfold policy_end in *.
  - intros Hr. destruct (registry blob); [|done]. destruct (config blob); split_and!; try lia; done.
  - intros Hc. destruct (config blob); [done|]. destruct (registry blob); lia.
  - destruct (registry blob), (config blob); lia.
  - destruct (registry blob), (config blob); lia.
Qed.

(** ** The written buffer *)

(** [keeps b b' lo hi]: a write confined to [lo, hi). *)
Definition keeps (b b' : list byte) (lo hi : Z) : Prop :=
  zlen b' = zlen b /\
  forall j, (j < Z.to_nat lo \/ Z.to_nat hi <= j)%nat -> b' !! j = b !! j.

Lemma keeps_holds b b' lo hi o bs :
  keeps b b' lo hi -> 0 <= lo -> lo <= hi -> holds b o bs -> o + zlen bs <= lo \/ hi <= o -> holds b' o bs.
Proof.
  intros [Hl Hf] H0 H1 H Hd. eapply (holds_frame b b' o bs lo (hi - lo)); try done; try lia.
  intros j Hj. apply Hf. replace (lo + (hi - lo)) with hi in Hj by lia. done.
Qed.

Lemma keeps_trans b b' b'' lo hi :
  keeps b b' lo hi -> keeps b' b'' lo hi -> keeps b b'' lo hi.
Proof. intros [Hl Hf] [Hl' Hf']. split; [lia|]. intros j Hj. by rewrite Hf', Hf. Qed.

Lemma keeps_weaken b b' lo hi lo' hi' :
  keeps b b' lo hi -> lo' <= lo -> hi <= hi' -> keeps b b' lo' hi'.
Proof. intros [Hl Hf] H1 H2. split; [done|]. intros j Hj. apply Hf. lia. Qed.

Lemma copy_at_keeps b o bs :
  0 <= o -> o + zlen bs <= zlen b ->
  exists b', copy_at b o bs = Ret b' /\ holds b' o bs /\ keeps b b' o (o + zlen bs).
Proof.
  intros H0 H1. destruct (copy_at_ok b o bs H0 H1) as (b' & E & Hl & Hh & Hf). exists b'.
  split_and!; done.
Qed.

Definition registry_bytes (blob : ConductorBlob) (l : Layout) (reg : RegistrySpec) : list byte :=
  enc_names (heap_off l) (names reg) ++ enc_sorted (sorted reg).
Definition config_bytes (blob : ConductorBlob) (l : Layout) : list byte :=
  (le_encode 4 (zlen (config blob)) ++ le_encode 4 0)
  ++ enc_bindings (heap_off l + zlen (name_bytes blob)) (config blob).

Record sections_at (b : list byte) (blob : ConductorBlob) (l : Layout) : Prop := {
  sa_header : holds b 0 (enc_header l);
  sa_stages : holds b 48 (enc_slots (policy_heap_off l) (recs (stages blob)));
  sa_edges : holds b (24 + edge_table_off l) (edges blob ≫= enc_edge);
  sa_recs : holds b (24 + policy_heap_off l) (enc_recs (recs (stages blob)));
  sa_registry reg : registry blob = Some reg ->
    holds b (24 + registry_off l) (registry_bytes blob l reg) /\
    holds b (24 + heap_off l) (heap_names (names reg));
  sa_config : config blob <> [] ->
    holds b (24 + config_off l) (config_bytes blob l) /\
    holds b (24 + heap_off l + zlen (name_bytes blob)) (heap_keys (config blob));
}.

(** The fixed sections. *)
Lemma write_front buf blob l :
  layout_ok blob l -> total l <= zlen buf ->
  exists b, (b ← copy_at buf 0 (replicate (Z.to_nat (total l)) x00);
             b ← write_header b l;
             b ← write_stage_table b l (stages blob);
             b ← write_edge_table b l (edges blob);
             write_policy_records b l (stages blob)) = Ret b /\
    keeps buf b 0 (total l) /\ holds b 0 (enc_header l) /\
    holds b 48 (enc_slots (policy_heap_off l) (recs (stages blob))) /\
    holds b (24 + edge_table_off l) (edges blob ≫= enc_edge) /\
    holds b (24 + policy_heap_off l) (enc_recs (recs (stages blob))).
Proof.
  intros Hok Hbuf. pose proof (lo_total _ _ Hok). pose proof (lo_spec _ _ Hok).
  destruct (layout_ordered _ _ Hok) as [Heo Hph (Hn & Hm & Hr & Hc) Hpe _ _ [Ho1 Ho2] Hhe (Hs1 & Hs2 & Hs3)].
  assert (zlen (replicate (Z.to_nat (total l)) x00) = total l) as Hz by (unfold zlen; rewrite length_replicate; lia).
  destruct (copy_at_keeps buf 0 (replicate (Z.to_nat (total l)) x00)) as (b0 & -> & _ & K0); [lia|lia|].
  pose proof K0 as [L0 _]. rewrite Hz in K0. cbn [mbind outcome_bind].
  rewrite write_header_eq by lia.
  destruct (copy_at_keeps b0 0 (enc_header l)) as (b1 & -> & h1 & K1); [lia|rewrite zlen_enc_header; lia|].
  pose proof K1 as [L1 _]. rewrite zlen_enc_header in K1. cbn [mbind outcome_bind].
  unfold write_stage_table, BODY_OFFSET, Header.HEADER_LEN, RECORD_HEADER_LEN, CONDUCTOR_HEADER_LEN.
  change (16 + 8 + 24) with 48. rewrite write_stages_from_eq by lia.
  destruct (copy_at_keeps b1 48 (enc_slots (policy_heap_off l) (recs (stages blob)))) as (b2 & -> & h2 & K2);
    [lia|rewrite zlen_enc_slots, zlen_recs; lia|].
  pose proof K2 as [L2 _]. rewrite zlen_enc_slots, zlen_recs in K2. cbn [mbind outcome_bind].
  unfold write_edge_table, BODY_OFFSET, Header.HEADER_LEN, RECORD_HEADER_LEN. change (16 + 8) with 24.
  rewrite write_edges_from_eq by lia.
  destruct (copy_at_keeps b2 (24 + edge_table_off l) (edges blob ≫= enc_edge)) as (b3 & -> & h3 & K3);
    [lia|rewrite zlen_enc_edges; lia|].
  pose proof K3 as [L3 _]. rewrite zlen_enc_edges in K3. cbn [mbind outcome_bind].
  unfold write_policy_records. rewrite write_records_from_eq by lia.
  destruct (copy_at_keeps b3 (24 + policy_heap_off l) (enc_recs (recs (stages blob)))) as (b4 & -> & h4 & K4);
    [lia|lia|]. cbn [mbind outcome_bind]. exists b4. split; [done|].
  rewrite Z.add_0_l in K0.
  split; [|split; [|split; [|split]]]; [| | | |done].
  - eapply keeps_trans; [exact K0|]. eapply keeps_trans; [eapply keeps_weaken; [exact K1|lia|lia]|].
    eapply keeps_trans; [eapply keeps_weaken; [exact K2|lia|lia]|].
    eapply keeps_trans; [eapply keeps_weaken; [exact K3|lia|lia]|]. eapply keeps_weaken; [exact K4|lia|lia].
  - eapply keeps_holds; [exact K4|lia|lia| |rewrite zlen_enc_header; lia].
    eapply keeps_holds; [exact K3|lia|lia| |rewrite zlen_enc_header; lia].
    eapply keeps_holds; [exact K2|lia|lia|done|rewrite zlen_enc_header; lia].
  - eapply keeps_holds; [exact K4|lia|lia| |rewrite zlen_enc_slots, zlen_recs; lia].
    eapply keeps_holds; [exact K3|lia|lia|done|rewrite zlen_enc_slots, zlen_recs; lia].
  - eapply keeps_holds; [exact K4|lia|lia|done|rewrite zlen_enc_edges; lia].
Qed.

(** The registry section and the names in the heap. *)
Lemma write_registry_section b blob l reg :
  layout_ok blob l -> registry blob = Some reg -> total l <= zlen b ->
  exists b', write_registry b l reg (heap_off l)
      = Ret (b', heap_off l + zlen (heap_names (names reg))) /\
    holds b' (24 + registry_off l) (registry_bytes blob l reg) /\
    holds b' (24 + heap_off l) (heap_names (names reg)) /\
    keeps b b' (24 + registry_off l) (total l).
Proof.
  intros Hok Er Hb. pose proof (lo_total _ _ Hok). destruct (lo_arity _ _ Hok reg Er) as [An As].
  destruct (layout_ordered _ _ Hok) as [Heo Hph (Hn & Hm & Hr & Hc) Hpe Hor _ [Ho1 Ho2] Hhe (Hs1 & Hs2 & Hs3)].
  destruct Hor as (Hro & Hre & _); [by rewrite Er|].
  assert (name_bytes blob = heap_names (names reg)) as Enb by (unfold name_bytes; by rewrite Er).
  rewrite Enb in *. unfold write_registry. rewrite (lo_stages _ _ Hok).
  unfold BODY_OFFSET, Header.HEADER_LEN, RECORD_HEADER_LEN, RegistryView.NAME_ENTRY_LEN. change (16 + 8) with 24.
  rewrite write_names_from_eq by lia.
  destruct (copy_at_keeps b (24 + registry_off l) (enc_names (heap_off l) (names reg))) as (b1 & -> & h1 & K1);
    [lia|rewrite zlen_enc_names; lia|]. pose proof K1 as [L1 _]. rewrite zlen_enc_names in K1. cbn [mbind outcome_bind].
  destruct (copy_at_keeps b1 (24 + heap_off l) (heap_names (names reg))) as (b2 & -> & h2 & K2); [lia|lia|].
  pose proof K2 as [L2 _]. cbn [mbind outcome_bind]. rewrite write_sorted_from_eq by lia.
  destruct (copy_at_keeps b2 (24 + registry_off l + zlen (stages blob) * 8) (enc_sorted (sorted reg)))
    as (b3 & -> & h3 & K3); [lia|rewrite zlen_enc_sorted; lia|]. rewrite zlen_enc_sorted in K3. cbn [mbind outcome_bind].
  exists b3. split; [done|]. split; [|split].
  - apply holds_app. rewrite zlen_enc_names, An. split.
    + eapply keeps_holds; [exact K3|lia|lia| |rewrite zlen_enc_names; lia].
      eapply keeps_holds; [exact K2|lia|lia|done|rewrite zlen_enc_names; lia].
    + by replace (24 + registry_off l + 8 * zlen (stages blob)) with (24 + registry_off l + zlen (stages blob) * 8) by lia.
  - eapply keeps_holds; [exact K3|lia|lia|done|lia].
  - eapply keeps_trans; [eapply keeps_weaken; [exact K1|lia|lia]|].
    eapply keeps_trans; [eapply keeps_weaken; [exact K2|lia|lia]|]. eapply keeps_weaken; [exact K3|lia|lia].
Qed.

(** The config section and its keys. *)
Lemma write_config_section b blob l :
  layout_ok blob l -> config blob <> [] -> total l <= zlen b ->
  exists b', write_config b l (config blob) (heap_off l + zlen (name_bytes blob))
      = Ret (b', heap_off l + zlen (name_bytes blob) + zlen (heap_keys (config blob))) /\
    holds b' (24 + config_off l) (config_bytes blob l) /\
    holds b' (24 + heap_off l + zlen (name_bytes blob)) (heap_keys (config blob)) /\
    keeps b b' (24 + config_off l) (total l) /\
    (forall o bs, holds b o bs -> 24 + heap_off l <= o -> o + zlen bs <= 24 + heap_off l + zlen (name_bytes blob) ->
       holds b' o bs).
Proof.
  intros Hok Hne Hb. pose proof (lo_total _ _ Hok).
  destruct (layout_ordered _ _ Hok) as [Heo Hph (Hn & Hm & Hr & Hc) Hpe _ Hor [Ho1 Ho2] Hhe (Hs1 & Hs2 & Hs3)].
  destruct (Hor Hne) as [Hco1 Hco2].
  unfold write_config, put_offset, put_u32, BODY_OFFSET, Header.HEADER_LEN, RECORD_HEADER_LEN, CONFIG_HEADER_LEN.
  change (16 + 8) with 24. rewrite try_from_ok by lia.
  rewrite copy_fuse; [|lia|zl; lia|zl; lia].
  destruct (copy_at_keeps b (24 + config_off l) (le_encode 4 (zlen (config blob)) ++ le_encode 4 0))
    as (b1 & -> & h1 & K1); [lia|zl; lia|]. pose proof K1 as [L1 _]. rewrite zlen_app, !zlen_le_encode in K1.
  cbn [mbind outcome_bind]. rewrite write_bindings_from_eq by lia.
  set (heap := heap_off l + zlen (name_bytes blob)) in *.
  destruct (copy_at_keeps b1 (24 + config_off l + 8) (enc_bindings heap (config blob)))
    as (b2 & -> & h2 & K2); [lia|rewrite zlen_enc_bindings; lia|]. pose proof K2 as [L2 _].
  rewrite zlen_enc_bindings in K2. cbn [mbind outcome_bind].
  destruct (copy_at_keeps b2 (24 + heap) (heap_keys (config blob))) as (b3 & -> & h3 & K3); [lia|lia|].
  cbn [mbind outcome_bind]. exists b3. split; [done|]. split; [|split; [|split]].
  - unfold config_bytes. apply holds_app. rewrite zlen_app, !zlen_le_encode. split.
    + eapply keeps_holds; [exact K3|lia|lia| |zl; lia].
      eapply keeps_holds; [exact K2|lia|lia|done|zl; lia].
    + eapply keeps_holds; [exact K3|lia|lia|exact h2|rewrite zlen_enc_bindings; lia].
  - by replace (24 + heap_off l + zlen (name_bytes blob)) with (24 + heap) by lia.
  - eapply keeps_trans; [eapply keeps_weaken; [exact K1|lia|lia]|].
    eapply keeps_trans; [eapply keeps_weaken; [exact K2|lia|lia]|]. eapply keeps_weaken; [exact K3|lia|lia].
  - intros o bs Hh H1 H2. eapply keeps_holds; [exact K3|lia|lia| |lia].
    eapply keeps_holds; [exact K2|lia|lia| |lia]. eapply keeps_holds; [exact K1|lia|lia|done|lia].
Qed.

Lemma seq_front {B} (m1 : outcome (list byte)) (m2 m3 m4 m5 : list byte -> outcome (list byte))
    (k : list byte -> outcome B) :
  (b ← m1; b ← m2 b; b ← m3 b; b ← m4 b; b ← m5 b; k b)
  = ((b ← m1; b ← m2 b; b ← m3 b; b ← m4 b; m5 b) ≫= k).
Proof. by flatten. Qed.

(** The optional sections after the fixed ones. *)
Lemma write_optional b blob l :
  layout_ok blob l -> total l <= zlen b -> holds b 0 (enc_header l) ->
  holds b 48 (enc_slots (policy_heap_off l) (recs (stages blob))) ->
  holds b (24 + edge_table_off l) (edges blob ≫= enc_edge) ->
  holds b (24 + policy_heap_off l) (enc_recs (recs (stages blob))) ->
  exists b', ('(b, heap) ← match registry blob with
                           | Some reg => write_registry b l reg (heap_off l)
                           | None => Ret (b, heap_off l)
                           end;
              '(b, _) ← match config blob with
                        | [] => Ret (b, heap)
                        | _ => write_config b l (config blob) heap
                        end;
              Ret (Ok (E := WriteError) (total l), b)) = Ret (Ok (total l), b') /\
    keeps b b' 0 (total l) /\ sections_at b' blob l.
Proof.
  intros Hok Hb h1 h2 h3 h4.
  pose proof (layout_ordered _ _ Hok) as [Heo Hph (Hn & Hm & Hr & Hc) Hpe Hore Horc [Ho1 Ho2] Hhe (Hs1 & Hs2 & Hs3)].
  assert (H1 : exists b1, (match registry blob with
               | Some reg => write_registry b l reg (heap_off l)
               | None => Ret (b, heap_off l) end) = Ret (b1, heap_off l + zlen (name_bytes blob)) /\
             keeps b b1 (24 + policy_end blob l) (total l) /\
             forall reg, registry blob = Some reg ->
               holds b1 (24 + registry_off l) (registry_bytes blob l reg) /\
               holds b1 (24 + heap_off l) (heap_names (names reg))).
  { unfold name_bytes. destruct (registry blob) as [reg|] eqn:Er.
    - destruct (write_registry_section b blob l reg Hok Er Hb) as (b1 & -> & ha & hb & K).
      destruct Hore as (Hro & _); [done|]. rewrite Hro in K. exists b1. split_and!; [done|done|].
      intros reg' [= <-]. done.
    - exists b. rewrite Z.add_0_r. split_and!; [done| |done]. split; [done|]. done. }
  destruct H1 as (b1 & -> & K1 & hr). pose proof K1 as [L1 _]. cbn [mbind outcome_bind].
  assert (H2 : exists b2, (match config blob with
               | [] => Ret (b1, heap_off l + zlen (name_bytes blob))
               | _ => write_config b1 l (config blob) (heap_off l + zlen (name_bytes blob)) end)
               = Ret (b2, heap_off l + zlen (name_bytes blob) + zlen (heap_keys (config blob))) /\
             keeps b1 b2 (24 + policy_end blob l) (total l) /\
             (forall reg, registry blob = Some reg ->
               holds b2 (24 + registry_off l) (registry_bytes blob l reg) /\
               holds b2 (24 + heap_off l) (heap_names (names reg))) /\
             (config blob <> [] -> holds b2 (24 + config_off l) (config_bytes blob l) /\
                holds b2 (24 + heap_off l + zlen (name_bytes blob)) (heap_keys (config blob)))).
  { destruct (decide (config blob = [])) as [Ec|Ec].
    - exists b1. rewrite Ec. change (zlen (heap_keys [])) with 0. rewrite Z.add_0_r.
      split_and!; [done| |done|done]. split; done.
    - destruct (write_config_section b1 blob l Hok Ec) as (b2 & E2 & hc & hk & K2 & F2); [lia|].
      destruct (Horc Ec) as [Hc1 Hc2]. exists b2. split_and!.
      + destruct (config blob); done.
      + eapply keeps_weaken; [exact K2|lia|lia].
      + intros reg Er. destruct (hr reg Er) as [ha hb]. destruct Hore as (Hro & Hre & Hrc); [by rewrite Er|].
        destruct (lo_arity _ _ Hok reg Er) as [An As]. split.
        * eapply keeps_holds; [exact K2|lia|lia|exact ha|]. left. specialize (Hrc Ec).
          unfold registry_bytes. rewrite zlen_app, zlen_enc_names, zlen_enc_sorted. lia.
        * apply F2; [done|lia|]. unfold name_bytes. rewrite Er. lia.
      + done. }
  destruct H2 as (b2 & -> & K2 & hr2 & hc2). cbn [mbind outcome_bind]. exists b2. split; [done|].
  assert (K : keeps b b2 (24 + policy_end blob l) (total l)) by (eapply keeps_trans; done).
  split; [eapply keeps_weaken; [exact K|lia|lia]|].
  constructor; [| | | |exact hr2|exact hc2].
  - eapply keeps_holds; [exact K|lia|lia|done|]. rewrite zlen_enc_header. lia.
  - eapply keeps_holds; [exact K|lia|lia|done|]. rewrite zlen_enc_slots, zlen_recs. lia.
  - eapply keeps_holds; [exact K|lia|lia|done|]. rewrite zlen_enc_edges. lia.
  - eapply keeps_holds; [exact K|lia|lia|done|]. lia.
Qed.

Lemma write_conductor_spec buf blob l :
  compute blob = Ok l -> total l <= zlen buf ->
  exists buf', write_conductor buf blob = Ret (Ok (total l), buf') /\ zlen buf' = zlen buf /\
    sections_at buf' blob l /\ (forall j, (Z.to_nat (total l) <= j)%nat -> buf' !! j = buf !! j).
Proof.
  intros E Hb. pose proof (compute_Ok _ _ E) as Hok. unfold write_conductor. rewrite E.
  destruct (Z.ltb_spec (zlen buf) (total l)); [lia|].
  rewrite (seq_front _ (fun b => write_header b l) (fun b => write_stage_table b l (stages blob))
             (fun b => write_edge_table b l (edges blob)) (fun b => write_policy_records b l (stages blob))).
  destruct (write_front buf blob l Hok Hb) as (b & -> & Kf & h1 & h2 & h3 & h4). cbn [mbind outcome_bind].
  pose proof Kf as [Lf _].
  destruct (write_optional b blob l Hok) as (b' & -> & K & Hs); [lia|done..|].
  exists b'. pose proof (keeps_trans _ _ _ _ _ Kf K) as [Hl Hj]. split_and!; [done|done|done|].
  intros j Hjt. apply Hj. lia.
Qed.

End LayoutFacts.
