(* ===== verification/IrRound.v ===== *)
(** * Reading back what was written

    The views of a blob produced by [write_conductor] decode to its inputs. *)

From S2P Require Import Prelude IrBytes IrData IrCheck IrWrite IrRead IrThms IrEnc.
From Stdlib.Init Require Import Byte.
From stdpp Require Import base tactics list numbers.

Local Open Scope Z_scope.

Module Decode.
Import Bytes Draft Enc Read.

(** Field ranges: what the Rust types guarantee. *)
Definition limiter_ok (v : LimiterView.t) : Prop :=
  fits 32 (LimiterView.capacity v) /\ fits 32 (LimiterView.refill_tokens v) /\
  fits 64 (LimiterView.refill_period_ns v).
Definition timeout_ok (v : TimeoutView.t) : Prop := fits 64 (TimeoutView.duration_ns v).
Definition retry_ok (v : RetryView.t) : Prop :=
  fits 32 (RetryView.max_attempts v) /\ fits 8 (RetryView.backoff_kind v) /\
  fits 8 (RetryView.jitter_kind v) /\ fits 64 (RetryView.base_delay_ns v) /\
  fits 64 (RetryView.max_delay_ns v).
Definition breaker_ok (v : BreakerView.t) : Prop :=
  fits 8 (BreakerView.window_kind v) /\ fits 8 (BreakerView.failure_rate_percent v) /\
  fits 32 (BreakerView.minimum_calls v) /\ fits 64 (BreakerView.window_span v) /\
  fits 32 (BreakerView.half_open_max_calls v) /\ fits 32 (BreakerView.half_open_success_threshold v) /\
  fits 64 (BreakerView.open_duration_ns v).
Definition edge_ok (e : EdgeView.t) : Prop :=
  fits 16 (EdgeView.from_ordinal e) /\ fits 16 (EdgeView.to_ordinal e) /\ fits 16 (EdgeView.input_index e).

Definition opt_ok {A} (P : A -> Prop) (o : option A) : Prop := match o with Some a => P a | None => True end.
Definition stage_ok (st : StageSpec) : Prop :=
  opt_ok limiter_ok (limiter st) /\ opt_ok timeout_ok (timeout st) /\
  opt_ok retry_ok (retry st) /\ opt_ok breaker_ok (breaker st).

(** Splits [holds l o (a ++ b ++ ...)] into its parts with numeric offsets. *)
Ltac split_holds H :=
  repeat rewrite holds_app in H; rewrite ?zlen_app, ?zlen_le_encode in H; destruct_and? H;
  repeat match goal with
  | H : holds ?l (?a + ?b) ?bs |- _ => let o := eval vm_compute in (a + b) in change (holds l o bs) in H
  end.

Ltac read_fields :=
  repeat match goal with
  | H : holds ?l ?o (le_encode 4 _) |- context [Reader.read_u32 ?l ?o] =>
      rewrite (read_u32_enc l o _ H) by (assumption || lia); cbn [mbind result_bind]
  | H : holds ?l ?o (le_encode 2 _) |- context [Reader.read_u16 ?l ?o] =>
      rewrite (read_u16_enc l o _ H) by (assumption || lia); cbn [mbind result_bind]
  | H : holds ?l ?o (le_encode 8 _) |- context [Reader.read_u64 ?l ?o] =>
      rewrite (read_u64_enc l o _ H) by (assumption || lia); cbn [mbind result_bind]
  | H : holds ?l ?o (le_encode 1 _) |- context [Reader.read_u8 ?l ?o] =>
      rewrite (read_u8_enc l o _ H) by (assumption || lia); cbn [mbind result_bind]
  end.

Lemma parse_limiter v : limiter_ok v -> LimiterView.parse (enc_limiter v) = Ok v.
Proof.
  intros (? & ? & ?). unfold LimiterView.parse. rewrite zlen_enc_limiter, Z.eqb_refl. cbn [negb].
  pose proof (holds_self (enc_limiter v)) as Hs. unfold enc_limiter in Hs at 2. split_holds Hs.
  read_fields. by destruct v.
Qed.

Lemma parse_timeout v : timeout_ok v -> TimeoutView.parse (enc_timeout v) = Ok v.
Proof.
  intros ?. unfold TimeoutView.parse. rewrite zlen_enc_timeout, Z.eqb_refl. cbn [negb].
  pose proof (holds_self (enc_timeout v)) as Hs. unfold enc_timeout in Hs at 2.
  read_fields. by destruct v.
Qed.

Lemma parse_retry v : retry_ok v -> RetryView.parse (enc_retry v) = Ok v.
Proof.
  intros (? & ? & ? & ? & ?). unfold RetryView.parse. rewrite zlen_enc_retry, Z.eqb_refl. cbn [negb].
  pose proof (holds_self (enc_retry v)) as Hs. unfold enc_retry in Hs at 2. split_holds Hs.
  read_fields. by destruct v.
Qed.

Lemma parse_breaker v : breaker_ok v -> BreakerView.parse (enc_breaker v) = Ok v.
Proof.
  intros (? & ? & ? & ? & ? & ? & ?). unfold BreakerView.parse. rewrite zlen_enc_breaker, Z.eqb_refl. cbn [negb].
  pose proof (holds_self (enc_breaker v)) as Hs. unfold enc_breaker in Hs at 2. split_holds Hs.
  read_fields. by destruct v.
Qed.

Lemma parse_edge e : edge_ok e -> EdgeView.parse (enc_edge e) = Some e.
Proof.
  intros (H1 & H2 & H3). unfold enc_edge.
  pose proof (le_decode_encode 2 (EdgeView.from_ordinal e) H1) as E1.
  pose proof (le_decode_encode 2 (EdgeView.to_ordinal e) H2) as E2.
  pose proof (le_decode_encode 2 (EdgeView.input_index e) H3) as E3.
  cbn [le_encode app EdgeView.parse] in *. rewrite E1, E2, E3. by destruct e.
Qed.

(** A record written by the writer is read back. *)
Lemma read_record_enc l o tag body :
  holds l o (enc_record tag body) -> o mod 8 = 0 -> zlen body mod 8 = 0 -> o + 8 + zlen body < 2 ^ 32 ->
  Reader.read_record l o = Ok (Reader.mkRecord tag body).
Proof.
  intros H Ho Hb Hs. pose proof H as (H0 & _ & _). pose proof (zlen_nonneg body).
  unfold enc_record in H. repeat rewrite holds_app in H. rewrite !zlen_le_encode in H.
  destruct H as (Ht & _ & Hl & Hbd). unfold Reader.read_record, Reader.RECORD_ALIGN, Reader.RECORD_HEADER_LEN.
  rewrite Ho. cbn [Z.eqb negb].
  rewrite (read_u16_enc l o _ Ht) by (destruct tag; done || (unfold fits; cbn; lia)). cbn [mbind result_bind].
  rewrite (checked_add_ok 64 o 4) by lia. cbn [ok_or mbind result_bind].
  replace (o + Z.of_nat 2 + Z.of_nat 2) with (o + 4) in Hl by lia.
  rewrite (read_u32_enc l (o + 4) _ Hl) by (unfold fits; lia). cbn [mbind result_bind].
  destruct (Z.ltb_spec (8 + zlen body) 8); [lia|].
  replace ((8 + zlen body) mod 8) with 0 by (Z.div_mod_to_equations; lia). cbn [Z.eqb negb].
  rewrite !checked_add_ok by lia. cbn [ok_or mbind result_bind].
  rewrite (get_range_holds l (o + 8) (o + (8 + zlen body)) body); [|lia|lia|].
  2: { by replace (o + Z.of_nat 2 + Z.of_nat 2 + Z.of_nat 4) with (o + 8) in Hbd by lia. }
  cbn [ok_or mbind result_bind]. by rewrite NodeTag.from_to_u16.
Qed.

(** ** Slots and records by index *)

Lemma enc_slots_lookup p rs j r :
  rs !! j = Some r ->
  holds (enc_slots p rs) (4 * Z.of_nat j)
    (le_encode 4 (match r with Some _ => p + zlen (enc_recs (take j rs)) | None => 0 end)).
Proof.
  intros E. rewrite <- (take_drop_middle rs j r E) at 1. rewrite enc_slots_app. cbn [enc_slots].
  replace (4 * Z.of_nat j) with (zlen (enc_slots p (take j rs))); [apply holds_middle|].
  rewrite zlen_enc_slots. unfold zlen. rewrite length_take. apply lookup_lt_Some in E. lia.
Qed.

Lemma enc_recs_lookup rs j r :
  rs !! j = Some r -> holds (enc_recs rs) (zlen (enc_recs (take j rs))) (rec_bytes r).
Proof.
  intros E. rewrite <- (take_drop_middle rs j r E) at 1. rewrite enc_recs_app.
  unfold enc_recs at 2. rewrite bind_cons. apply holds_middle.
Qed.

(** The records before the [j]-th end before it begins. *)
Lemma enc_recs_take_le rs i j r :
  rs !! i = Some r -> (i < j)%nat ->
  zlen (enc_recs (take i rs)) + zlen (rec_bytes r) <= zlen (enc_recs (take j rs)).
Proof.
  intros E Hij. assert (take j rs = take i rs ++ r :: drop (S i) (take j rs)) as ->.
  { rewrite <- (take_drop_middle (take j rs) i r) at 1 by (by rewrite lookup_take_lt).
    f_equal. rewrite take_take. f_equal. lia. }
  rewrite enc_recs_app, zlen_app, zlen_enc_recs_cons. pose proof (zlen_nonneg (enc_recs (drop (S i) (take j rs)))).
  lia.
Qed.

(** Bodies of the four kinds, in slot order. *)
Definition kind_index (k : PolicyKind.t) : nat :=
  match k with PolicyKind.Limiter => 0 | PolicyKind.Timeout => 1 | PolicyKind.Retry => 2 | PolicyKind.Breaker => 3 end.

Lemma kind_of_index j : (j < 4)%nat -> exists k, kind_index k = j.
Proof.
  intros Hj. destruct j as [|[|[|[|]]]]; try lia;
    [by exists PolicyKind.Limiter|by exists PolicyKind.Timeout|by exists PolicyKind.Retry|by exists PolicyKind.Breaker].
Qed.

Lemma slot_field_index k : PolicyKind.slot_field k = 4 * Z.of_nat (kind_index k).
Proof. by destruct k. Qed.

Lemma recs_lookup sts i st k :
  sts !! i = Some st -> recs sts !! (4 * i + kind_index k)%nat = stage_recs st !! kind_index k.
Proof.
  revert sts. induction i as [|i IH]; intros [|st' sts] E; try done; rewrite recs_cons.
  - cbn in E. simplify_eq. rewrite lookup_app_l; [done|]. destruct k; cbn; lia.
  - rewrite lookup_app_r by (cbn; lia). rewrite <- (IH sts E). f_equal. cbn. lia.
Qed.

(** What slot [k] of a stage holds: always the tag of its kind, with a body
    that decodes and keeps the records 8-aligned. *)
Lemma stage_rec_spec st k :
  stage_ok st -> exists r, stage_recs st !! kind_index k = Some r /\
    match r with
    | Some (tag, body) => tag = PolicyKind.node_tag k /\ PolicyKind.validate_body k body = Ok tt /\
        zlen body mod 8 = 0
    | None => True
    end.
Proof.
  intros (H1 & H2 & H3 & H4). destruct k; (eexists; split; [reflexivity|]).
  - destruct (limiter st) as [v|]; [|done]. cbn [fmap option_fmap option_map PolicyKind.validate_body]. rewrite parse_limiter by done. by rewrite zlen_enc_limiter.
  - destruct (timeout st) as [v|]; [|done]. cbn [fmap option_fmap option_map PolicyKind.validate_body]. rewrite parse_timeout by done. by rewrite zlen_enc_timeout.
  - destruct (retry st) as [v|]; [|done]. cbn [fmap option_fmap option_map PolicyKind.validate_body]. rewrite parse_retry by done. by rewrite zlen_enc_retry.
  - destruct (breaker st) as [v|]; [|done]. cbn [fmap option_fmap option_map PolicyKind.validate_body]. rewrite parse_breaker by done. by rewrite zlen_enc_breaker.
Qed.

Lemma rec_bytes_mod8 sts j r :
  Forall stage_ok sts -> recs sts !! j = Some r -> zlen (rec_bytes r) mod 8 = 0.
Proof.
  intros Hok E. assert (r ∈ recs sts) as Hr by (by eapply list_elem_of_lookup_2).
  unfold recs in Hr. apply list_elem_of_bind in Hr as (st & Hr & Hst).
  apply list_elem_of_lookup in Hst as (i & Hst). apply (Forall_lookup_1 _ _ _ _ Hok) in Hst. clear Hok.
  rename Hst into Hok.
  apply list_elem_of_lookup in Hr as (k & Ek). destruct r as [[tag body]|]; [|done].
  assert (zlen body mod 8 = 0) as Hb.
  { destruct (kind_of_index k) as (kd & <-); [apply lookup_lt_Some in Ek; exact Ek|].
    destruct (stage_rec_spec st kd Hok) as (r & E' & H). rewrite E' in Ek. injection Ek as ->. apply H. }
  cbn [rec_bytes]. rewrite zlen_enc_record. Z.div_mod_to_equations. lia.
Qed.

Lemma enc_recs_mod8 rs j :
  (forall i r, rs !! i = Some r -> zlen (rec_bytes r) mod 8 = 0) -> zlen (enc_recs (take j rs)) mod 8 = 0.
Proof.
  revert j. induction rs as [|r rs IH]; intros [|j] H; try done.
  cbn [take]. rewrite zlen_enc_recs_cons. specialize (IH j (fun i r' => H (S i) r')).
  specialize (H 0%nat r eq_refl). Z.div_mod_to_equations. lia.
Qed.

End Decode.

(** * The write/validate round trip

    A blob written by [write_conductor] from well-formed inputs passes
    [validate], and the views decode to these inputs. *)

From Stdlib.Init Require Import Byte.
From stdpp Require Import base tactics list numbers.

Local Open Scope Z_scope.

Module Roundtrip.
Import Bytes Read BytesOrder Sound Draft Enc Decode LayoutFacts.
Import Reader(RECORD_HEADER_LEN, read_u16, read_u32, read_u64, read_u8, read_record).

Definition binding_ok (n : Z) (c : ConfigBindingSpec) : Prop :=
  fits 16 (node_ordinal c) /\ node_ordinal c < n /\ fits 16 (field_tag c) /\
  fits 8 (ScalarValue.kind (default_value c)) /\ fits 64 (ScalarValue.value (default_value c)).

(** [sorted] lists every ordinal, in ascending order of the names. *)
Record sorted_ok (n : Z) (reg : RegistrySpec) : Prop := {
  so_range i o : sorted reg !! i = Some o -> fits 16 o /\ o < n;
  so_order i j oi oj a b : (i <= j)%nat -> sorted reg !! i = Some oi -> sorted reg !! j = Some oj ->
    names reg !! Z.to_nat oi = Some a -> names reg !! Z.to_nat oj = Some b -> bytes_le a b;
  so_complete o : 0 <= o < n -> o ∈ sorted reg;
}.

(** Inputs the writer's contract covers: fields within their Rust types,
    ordinals within the stage count, a sorted registry index. *)
Record blob_ok (blob : ConductorBlob) : Prop := {
  bo_stages : Forall stage_ok (stages blob);
  bo_edges i e : edges blob !! i = Some e ->
    edge_ok e /\ EdgeView.from_ordinal e < zlen (stages blob) /\ EdgeView.to_ordinal e < zlen (stages blob);
  bo_config i c : config blob !! i = Some c -> binding_ok (zlen (stages blob)) c;
  bo_registry reg : registry blob = Some reg -> sorted_ok (zlen (stages blob)) reg;
}.

(** ** Tables of fixed-size entries *)

Lemma bind_entry {A} (f : A -> list byte) (xs : list A) s j x :
  (forall x, zlen (f x) = s) -> xs !! j = Some x ->
  holds (xs ≫= f) (Z.of_nat j * s) (f x).
Proof.
  intros Hf. revert j. induction xs as [|y xs IH]; intros [|j] E; try done; rewrite bind_cons.
  - cbn in E. simplify_eq. pose proof (holds_middle [] (f x) (xs ≫= f)) as H. done.
  - apply IH in E. pose proof (holds_self (f y ++ (xs ≫= f))) as H. apply holds_app in H as [_ H].
    rewrite Hf in H. pose proof (holds_trans _ _ _ _ _ H E) as H'.
    by replace (0 + s + Z.of_nat j * s) with (Z.of_nat (S j) * s) in H' by lia.
Qed.

Lemma enc_names_lookup h names j nm :
  names !! j = Some nm ->
  holds (enc_names h names) (Z.of_nat j * 8)
    (le_encode 4 (h + zlen (heap_names (take j names))) ++ le_encode 4 (zlen nm)).
Proof.
  revert h j. induction names as [|x names IH]; intros h [|j] E; try done; cbn [enc_names].
  - cbn in E. simplify_eq. cbn [take]. change (zlen (heap_names [])) with 0. rewrite Z.add_0_r.
    pose proof (holds_middle [] (le_encode 4 h ++ le_encode 4 (zlen nm)) (enc_names (h + zlen nm) names)) as H. done.
  - apply (IH (h + zlen x)) in E.
    pose proof (holds_self ((le_encode 4 h ++ le_encode 4 (zlen x)) ++ enc_names (h + zlen x) names)) as H.
    apply holds_app in H as [_ H]. rewrite zlen_app, !zlen_le_encode in H.
    pose proof (holds_trans _ _ _ _ _ H E) as H'. cbn [take].
    replace (zlen (heap_names (x :: take j names))) with (zlen x + zlen (heap_names (take j names)))
      by (unfold heap_names; rewrite bind_cons, zlen_app; done).
    rewrite Z.add_assoc. replace (Z.of_nat (S j) * 8) with (0 + (Z.of_nat 4 + Z.of_nat 4) + Z.of_nat j * 8) by lia.
    done.
Qed.

Definition binding_entry (h : Z) (c : ConfigBindingSpec) : list byte :=
  le_encode 2 (node_ordinal c) ++ le_encode 2 (field_tag c) ++ le_encode 4 (zlen (key c))
  ++ le_encode 4 h ++ le_encode 4 0 ++ le_encode 8 (ScalarValue.kind (default_value c))
  ++ le_encode 8 (ScalarValue.value (default_value c)).

Lemma zlen_binding_entry h c : zlen (binding_entry h c) = 32.
Proof. unfold binding_entry. by zl. Qed.

Lemma enc_bindings_lookup h config j c :
  config !! j = Some c ->
  holds (enc_bindings h config) (Z.of_nat j * 32)
    (binding_entry (h + zlen (heap_keys (take j config))) c).
Proof.
  revert h j. induction config as [|x config IH]; intros h [|j] E; try done; cbn [enc_bindings];
    fold (binding_entry h x).
  - cbn in E. simplify_eq. cbn [take]. change (zlen (heap_keys [])) with 0. rewrite Z.add_0_r.
    pose proof (holds_middle [] (binding_entry h c) (enc_bindings (h + zlen (key c)) config)) as H. done.
  - apply (IH (h + zlen (key x))) in E.
    pose proof (holds_self (binding_entry h x ++ enc_bindings (h + zlen (key x)) config)) as H.
    apply holds_app in H as [_ H]. rewrite zlen_binding_entry in H.
    pose proof (holds_trans _ _ _ _ _ H E) as H'. cbn [take].
    replace (zlen (heap_keys (x :: take j config))) with (zlen (key x) + zlen (heap_keys (take j config)))
      by (unfold heap_keys; rewrite bind_cons, zlen_app; done).
    rewrite Z.add_assoc. replace (Z.of_nat (S j) * 32) with (0 + 32 + Z.of_nat j * 32) by lia. done.
Qed.

(** A string of the heap. *)
Lemma heap_lookup {A} (f : A -> list byte) (xs : list A) j x :
  xs !! j = Some x -> holds (xs ≫= f) (zlen (take j xs ≫= f)) (f x).
Proof.
  intros E. rewrite <- (take_drop_middle xs j x E) at 1. rewrite bind_app, bind_cons. apply holds_middle.
Qed.

Lemma parse_scalar v :
  fits 8 (ScalarValue.kind v) -> fits 64 (ScalarValue.value v) ->
  ScalarValue.parse (le_encode 8 (ScalarValue.kind v) ++ le_encode 8 (ScalarValue.value v)) = Ok v.
Proof.
  intros Hk Hv. unfold ScalarValue.parse. rewrite zlen_app, !zlen_le_encode.
  change (negb (Z.of_nat 8 + Z.of_nat 8 =? ScalarValue.LEN)) with false. cbv iota.
  set (sc := le_encode 8 (ScalarValue.kind v) ++ le_encode 8 (ScalarValue.value v)).
  pose proof (holds_self sc) as Hy. unfold sc in Hy at 2. apply holds_app in Hy as [Hy1 Hy2].
  change (le_encode 8 (ScalarValue.kind v))
    with (le_encode 1 (ScalarValue.kind v) ++ le_encode 7 (ScalarValue.kind v / 256)) in Hy1.
  apply holds_app in Hy1 as [Hy1 _]. rewrite zlen_le_encode in Hy2.
  rewrite (read_u8_enc _ _ _ Hy1 Hk). cbn [mbind result_bind].
  rewrite (read_u64_enc _ 8 _ Hy2 Hv) by done. cbn [mbind result_bind]. by destruct v.
Qed.

(** Spans laid out one after the other between [lo] and [hi]. *)
Fixpoint chained (lo : Z) (spans : list Check.Span) (hi : Z) : Prop :=
  match spans with
  | [] => lo <= hi
  | sp :: spans => lo <= Check.offset sp /\ 0 <= Check.len sp /\ chained (Check.offset sp + Check.len sp) spans hi
  end.

Lemma chained_weaken lo lo' spans hi : lo' <= lo -> chained lo spans hi -> chained lo' spans hi.
Proof. destruct spans; cbn; intros; [lia|]. intuition lia. Qed.

Lemma chained_bounds lo spans hi : chained lo spans hi ->
  Forall (fun sp => lo <= Check.offset sp /\ Check.offset sp + Check.len sp <= hi) spans.
Proof.
  revert lo. induction spans as [|sp spans IH]; intros lo H; [done|]. destruct H as (H1 & H2 & H3).
  assert (Check.offset sp + Check.len sp <= hi).
  { clear IH H1 H2. generalize dependent (Check.offset sp + Check.len sp).
    induction spans as [|sp' spans IH]; intros z Hz; cbn in Hz; [lia|]. destruct Hz as (? & ? & Hz%IH). lia. }
  apply Forall_cons; [lia|]. eapply Forall_impl; [|exact (IH _ H3)]. cbn. lia.
Qed.

Lemma chained_disjoint lo spans hi : chained lo spans hi -> Check.check_sections_disjoint spans = Ok tt.
Proof.
  revert lo. induction spans as [|sp spans IH]; intros lo H; [done|]. destruct H as (H1 & H2 & H3).
  cbn [Check.check_sections_disjoint].
  assert (existsb (fun other => Check.ranges_overlap sp other) spans = false) as ->; [|by eapply IH].
  apply not_true_is_false. intros (sp' & Hin & Ho)%existsb_exists.
  apply chained_bounds in H3. rewrite Forall_forall in H3. apply H3 in Hin.
  unfold Check.ranges_overlap in Ho. lia.
Qed.

(** ** The body of a written blob *)

Section written.
Context (blob : ConductorBlob) (l : Writer.Layout) (b body : list byte).
Hypothesis Hc : Writer.compute blob = Ok l.
Hypothesis Hok : blob_ok blob.
Hypothesis Hlen : zlen b = Writer.total l.
Hypothesis Hs : sections_at b blob l.
Hypothesis Hbody : get_range b 24 (Writer.total l) = Some body.

Local Abbreviation N := (zlen (stages blob)).
Local Abbreviation M := (zlen (edges blob)).

Lemma w_layout : layout_ok blob l.
Proof. by apply compute_Ok. Qed.

Lemma w_order : layout_order blob l.
Proof. apply layout_ordered, w_layout. Qed.

Lemma w_len : zlen body = Writer.total l - 24 /\ Writer.total l < 2 ^ 32.
Proof.
  split; [|apply w_layout]. apply get_range_Some in Hbody as (-> & _); lia.
Qed.

(** Sections of the blob are sections of the body. *)
Lemma w_holds o bs : 0 <= o -> holds b (24 + o) bs -> holds body o bs.
Proof.
  intros Ho H. eapply (holds_restrict b 24); [lia|done|exact Hbody|done|].
  destruct H as (_ & H & _). rewrite (proj1 w_len). lia.
Qed.

Lemma w_header :
  read_u32 body Check.STAGE_COUNT_FIELD = Ok N /\ read_u32 body Check.EDGE_COUNT_FIELD = Ok M /\
  read_u32 body Check.STAGE_TABLE_OFFSET_FIELD = Ok 24 /\
  read_u32 body Check.EDGE_TABLE_OFFSET_FIELD = Ok (Writer.edge_table_off l) /\
  read_u32 body Check.REGISTRY_TABLE_OFFSET_FIELD = Ok (Writer.registry_off l) /\
  read_u32 body Check.CONFIG_TABLE_OFFSET_FIELD = Ok (Writer.config_off l).
Proof.
  pose proof (sa_header _ _ _ Hs) as H. unfold enc_header in H.
  repeat rewrite holds_app in H. rewrite !zlen_le_encode in H.
  destruct H as (_ & _ & _ & _ & _ & _ & _ & _ & H1 & H2 & H3 & H4 & H5 & H6).
  change (0 + zlen Header.MAGIC + Z.of_nat 2 + Z.of_nat 2 + Z.of_nat 4 + Z.of_nat 4 + Z.of_nat 2 + Z.of_nat 2 + Z.of_nat 4) with (24 + 0) in *.
  destruct w_order as [Heo Hph (Hn & Hm & Hr & Hcf) Hpe Hore Horc [Ho1 Ho2] Hhe (Hs1 & Hs2 & Hs3)].
  destruct w_len as [_ Ht]. pose proof w_layout as Hl. rewrite (lo_stages _ _ Hl) in H1. rewrite (lo_edges _ _ Hl) in H2.
  assert (0 <= Writer.registry_off l /\ 0 <= Writer.config_off l) as [Hr0 Hc0].
  { rewrite (lo_registry _ _ Hl), (lo_config _ _ Hl). destruct (registry blob), (config blob) eqn:Ec; split; try lia;
      destruct Horc; (done || lia). }
  split_and!; (eapply read_u32_enc; [apply w_holds; [done|eassumption]|unfold fits; lia|done]).
Qed.

(** The sections as the reader slices them. *)
Definition slot_bytes : list byte := enc_slots (Writer.policy_heap_off l) (recs (stages blob)).
Definition edge_bytes : list byte := edges blob ≫= enc_edge.

Lemma w_stage_table :
  Check.slice_table body Check.STAGE_TABLE_OFFSET_FIELD N Check.STAGE_ENTRY_LEN = Ok (24, slot_bytes).
Proof.
  destruct w_header as (_ & _ & H & _). unfold Check.slice_table. rewrite H. cbn [mbind result_bind].
  change (24 <? Check.CONDUCTOR_HEADER_LEN) with false. cbv iota.
  destruct w_order as [Heo Hph (Hn & Hm & Hr & Hcf) Hpe Hore Horc [Ho1 Ho2] Hhe (Hs1 & Hs2 & Hs3)].
  destruct w_len as [_ Ht]. unfold Check.STAGE_ENTRY_LEN, PolicyKind.COUNT.
  rewrite checked_mul_ok by lia. cbn [ok_or mbind result_bind]. rewrite checked_add_ok by lia.
  cbn [ok_or mbind result_bind]. rewrite (get_range_holds body 24 _ slot_bytes); [done|lia| |].
  - unfold slot_bytes. rewrite zlen_enc_slots, zlen_recs. lia.
  - apply w_holds; [done|]. apply Hs.
Qed.

Lemma w_edge_table :
  Check.slice_table body Check.EDGE_TABLE_OFFSET_FIELD M EdgeView.LEN = Ok (Writer.edge_table_off l, edge_bytes).
Proof.
  destruct w_header as (_ & _ & _ & H & _). unfold Check.slice_table. rewrite H. cbn [mbind result_bind].
  destruct w_order as [Heo Hph (Hn & Hm & Hr & Hcf) Hpe Hore Horc [Ho1 Ho2] Hhe (Hs1 & Hs2 & Hs3)].
  destruct w_len as [_ Ht]. unfold Check.CONDUCTOR_HEADER_LEN, EdgeView.LEN.
  destruct (Z.ltb_spec (Writer.edge_table_off l) 24); [lia|].
  rewrite checked_mul_ok by lia. cbn [ok_or mbind result_bind]. rewrite checked_add_ok by lia.
  cbn [ok_or mbind result_bind]. rewrite (get_range_holds body _ _ edge_bytes); [done|lia| |].
  - unfold edge_bytes. rewrite zlen_enc_edges. lia.
  - apply w_holds; [lia|]. apply Hs.
Qed.

(** *** Policy slots *)

Definition rec_at (j : nat) : Z := Writer.policy_heap_off l + zlen (enc_recs (take j (recs (stages blob)))).

Definition rec_span (j : nat) : option Check.Span :=
  match recs (stages blob) !! j with
  | Some (Some (tag, bd)) => Some (Check.mkSpan (rec_at j) (8 + zlen bd))
  | _ => None
  end.

Lemma w_rec_at j r : recs (stages blob) !! j = Some r ->
  24 <= rec_at j /\ rec_at j mod 8 = 0 /\ rec_at j + zlen (rec_bytes r) <= policy_end blob l /\
  holds body (rec_at j) (rec_bytes r).
Proof.
  intros E. destruct w_order as [Heo Hph (Hn & Hm & Hr & Hcf) Hpe _ _ _ _ _].
  pose proof (zlen_nonneg (enc_recs (take j (recs (stages blob))))).
  pose proof (enc_recs_take_le _ j (length (recs (stages blob))) r E) as Hle.
  rewrite firstn_all in Hle. pose proof (lookup_lt_Some _ _ _ E). unfold rec_at. split_and!; [lia| |lia|].
  - assert (zlen (enc_recs (take j (recs (stages blob)))) mod 8 = 0).
    { apply enc_recs_mod8. intros i r' E'. eapply rec_bytes_mod8; [apply Hok|exact E']. }
    Z.div_mod_to_equations. lia.
  - eapply holds_trans; [apply w_holds; [lia|apply Hs]|]. by apply enc_recs_lookup.
Qed.

(** The slot of kind [k] of stage [i]. *)
Lemma w_slot i st k entry :
  stages blob !! i = Some st ->
  get_range slot_bytes (Z.of_nat i * Check.STAGE_ENTRY_LEN) ((Z.of_nat i + 1) * Check.STAGE_ENTRY_LEN) = Some entry ->
  exists r, stage_recs st !! kind_index k = Some r /\
    recs (stages blob) !! (4 * i + kind_index k)%nat = Some r /\
    read_u32 entry (PolicyKind.slot_field k)
      = Ok (match r with Some _ => rec_at (4 * i + kind_index k) | None => 0 end) /\
    Check.record_span_at body entry k = Ok (rec_span (4 * i + kind_index k)) /\
    match r with
    | Some (tag, bd) => read_record body (rec_at (4 * i + kind_index k)) = Ok (Reader.mkRecord tag bd) /\
        tag = PolicyKind.node_tag k /\ PolicyKind.validate_body k bd = Ok tt
    | None => True
    end.
Proof.
  intros Ei Ee. pose proof (Forall_lookup_1 _ _ _ _ (bo_stages _ Hok) Ei) as Hst.
  destruct (stage_rec_spec st k Hst) as (r & Er & Hr). exists r. split; [done|].
  assert (E : recs (stages blob) !! (4 * i + kind_index k)%nat = Some r) by (rewrite (recs_lookup _ _ st); done).
  split; [done|]. destruct (w_rec_at _ _ E) as (H24 & Hmod & Hend & Hh).
  destruct w_order as [_ _ _ _ _ _ _ Hhe (Hs1 & Hs2 & Hs3)]. destruct w_len as [_ Ht].
  pose proof (zlen_nonneg (rec_bytes r)).
  assert (Hread : read_u32 entry (PolicyKind.slot_field k)
            = Ok (match r with Some _ => rec_at (4 * i + kind_index k) | None => 0 end)).
  { eapply read_u32_enc; [|destruct r; unfold fits; lia|destruct k; done].
    eapply (holds_restrict slot_bytes (Z.of_nat i * Check.STAGE_ENTRY_LEN)); [unfold Check.STAGE_ENTRY_LEN, PolicyKind.COUNT; lia|destruct k; done|exact Ee| |].
    - rewrite slot_field_index. unfold Check.STAGE_ENTRY_LEN, PolicyKind.COUNT.
      replace (Z.of_nat i * (4 * 4) + 4 * Z.of_nat (kind_index k)) with (4 * Z.of_nat (4 * i + kind_index k)) by lia.
      unfold rec_at. apply (enc_slots_lookup _ _ _ _ E).
    - apply get_range_Some in Ee as (-> & _); [|unfold Check.STAGE_ENTRY_LEN, PolicyKind.COUNT; lia].
      rewrite zlen_le_encode, slot_field_index. unfold Check.STAGE_ENTRY_LEN, PolicyKind.COUNT. destruct k; cbn; lia. }
  split; [done|]. unfold Check.record_span_at, rec_span. rewrite Hread, E. cbn [mbind result_bind].
  destruct r as [[tag bd]|]; [|done]. destruct Hr as (Htag & Hv & Hm8). cbn [rec_bytes] in *.
  rewrite zlen_enc_record in *. pose proof (zlen_nonneg bd).
  destruct (Z.eqb_spec (rec_at (4 * i + kind_index k)) 0); [lia|].
  unfold Check.CONDUCTOR_HEADER_LEN. destruct (Z.ltb_spec (rec_at (4 * i + kind_index k)) 24); [lia|].
  rewrite (read_record_enc _ _ _ _ Hh) by (done || lia). cbn [mbind result_bind Reader.body].
  unfold RECORD_HEADER_LEN. rewrite checked_add_ok by lia. done.
Qed.

Lemma w_slot_bytes_len : zlen slot_bytes = N * Check.STAGE_ENTRY_LEN.
Proof. unfold slot_bytes. rewrite zlen_enc_slots, zlen_recs. unfold Check.STAGE_ENTRY_LEN, PolicyKind.COUNT. lia. Qed.

Lemma w_stage_lookup j : 0 <= j < N -> exists st, stages blob !! Z.to_nat j = Some st.
Proof. intros Hj. apply lookup_lt_is_Some_2. unfold zlen in Hj. lia. Qed.

Lemma w_nth_span j : 0 <= j < N * PolicyKind.COUNT ->
  Check.nth_record_span body slot_bytes j = Ok (rec_span (Z.to_nat j)).
Proof.
  intros Hj. unfold PolicyKind.COUNT in *. destruct w_order as [Heo _ (Hn & _) _ _ _ _ _ (Hs1 & Hs2 & Hs3)].
  destruct w_len as [_ Ht]. destruct w_order as [_ Hph (_ & Hm & Hr & _) Hpe _ _ _ Hhe _].
  pose proof (Z.div_mod j 4 ltac:(lia)) as Hdm. pose proof (Z.mod_pos_bound j 4 ltac:(lia)) as Hm4.
  assert (0 <= j / 4 < N) as Hq by lia. destruct (w_stage_lookup (j / 4) Hq) as (st & Est).
  destruct (table_entry slot_bytes N Check.STAGE_ENTRY_LEN (j / 4) w_slot_bytes_len Hq ltac:(done)) as (entry & Ee & _).
  unfold Check.nth_record_span, PolicyKind.COUNT. unfold Check.STAGE_ENTRY_LEN, PolicyKind.COUNT in *.
  rewrite checked_mul_ok by lia. cbn [ok_or mbind result_bind]. rewrite checked_add_ok by lia.
  cbn [ok_or mbind result_bind]. replace (j / 4 * (4 * 4) + 4 * 4) with ((j / 4 + 1) * (4 * 4)) by lia.
  rewrite Ee. cbn [ok_or mbind result_bind].
  destruct (kind_of_index (Z.to_nat (j mod 4))) as (k & Ek); [lia|]. rewrite <- Ek.
  replace (PolicyKind.ALL !! kind_index k) with (Some k) by (by destruct k).
  destruct (w_slot (Z.to_nat (j / 4)) st k entry Est) as (r & _ & _ & _ & Hsp & _).
  { rewrite Z2Nat.id by lia. exact Ee. }
  rewrite Hsp. do 2 f_equal. rewrite Ek. lia.
Qed.

(** Record spans lie between the edge table and the policy end, in order. *)
Lemma w_span_bounds j sp : rec_span j = Some sp ->
  Writer.policy_heap_off l <= Check.offset sp /\ 0 < Check.len sp /\ 
  Check.offset sp + Check.len sp <= policy_end blob l.
Proof.
  unfold rec_span. destruct (recs (stages blob) !! j) as [[[tag bd]|]|] eqn:E; try done. intros [= <-].
  destruct (w_rec_at j _ E) as (_ & _ & Hend & _). cbn [rec_bytes] in Hend. rewrite zlen_enc_record in Hend.
  cbn [Check.offset Check.len]. pose proof (zlen_nonneg bd).
  pose proof (zlen_nonneg (enc_recs (take j (recs (stages blob))))). unfold rec_at. split_and!; try lia.
  unfold rec_at in Hend. lia.
Qed.

Lemma w_span_order i j a c : (i < j)%nat -> rec_span i = Some a -> rec_span j = Some c ->
  Check.offset a + Check.len a <= Check.offset c.
Proof.
  unfold rec_span. intros Hij. destruct (recs (stages blob) !! i) as [[[ti bi]|]|] eqn:Ei; try done.
  destruct (recs (stages blob) !! j) as [[[tj bj]|]|] eqn:Ej; try done. intros [= <-] [= <-].
  cbn [Check.offset Check.len]. pose proof (enc_recs_take_le _ _ _ _ Ei Hij) as H. cbn [rec_bytes] in H.
  rewrite zlen_enc_record in H. unfold rec_at. lia.
Qed.

Lemma no_overlap a c : Check.offset a + Check.len a <= Check.offset c -> Check.ranges_overlap a c = false.
Proof. intros H. unfold Check.ranges_overlap. lia. Qed.
Lemma no_overlap' a c : Check.offset c + Check.len c <= Check.offset a -> Check.ranges_overlap a c = false.
Proof. intros H. unfold Check.ranges_overlap. lia. Qed.

Lemma w_record_overlaps : Check.check_record_overlaps body slot_bytes = Ok tt.
Proof.
  unfold Check.check_record_overlaps. rewrite w_slot_bytes_len, Z.div_mul by done.
  destruct w_order as [Heo Hph (Hn & Hm & Hr & _) Hpe _ _ _ Hhe (Hs1 & Hs2 & Hs3)]. destruct w_len as [_ Ht].
  rewrite checked_mul_ok by (unfold PolicyKind.COUNT; lia). cbn [ok_or mbind result_bind].
  apply for_range_Ok. intros i Hi. rewrite w_nth_span by lia. cbn [mbind result_bind].
  destruct (rec_span (Z.to_nat i)) as [a|] eqn:Ea; [|done].
  apply for_range_Ok. intros j Hj. rewrite w_nth_span by lia. cbn [mbind result_bind].
  destruct (rec_span (Z.to_nat j)) as [c|] eqn:Ec; [|done].
  rewrite no_overlap; [done|]. eapply w_span_order; [|exact Ea|exact Ec]. lia.
Qed.

(** Sections whose spans avoid the policy records. *)
Definition avoids_records (sp : Check.Span) : Prop :=
  Check.offset sp + Check.len sp <= Writer.policy_heap_off l \/ policy_end blob l <= Check.offset sp.

Lemma w_stage_policies sections : Forall avoids_records sections ->
  Check.check_stage_policies body slot_bytes sections = Ok tt.
Proof.
  intros Hav. unfold Check.check_stage_policies.
  destruct w_order as [Heo Hph (Hn & Hm & Hr & _) Hpe _ _ _ Hhe (Hs1 & Hs2 & Hs3)]. destruct w_len as [_ Ht].
  pose proof w_slot_bytes_len as Hsl. unfold Check.STAGE_ENTRY_LEN, PolicyKind.COUNT in Hsl.
  rewrite for_each_entry_Ok with (n := N);
    [|unfold Check.STAGE_ENTRY_LEN, PolicyKind.COUNT; lia|unfold Check.STAGE_ENTRY_LEN, PolicyKind.COUNT; lia|done|
     exact w_slot_bytes_len].
  intros j Hj. destruct (w_stage_lookup j Hj) as (st & Est).
  destruct (table_entry slot_bytes N Check.STAGE_ENTRY_LEN j w_slot_bytes_len Hj ltac:(done)) as (entry & Ee & _).
  exists entry. split; [done|]. apply for_kinds_Ok. intros k.
  destruct (w_slot (Z.to_nat j) st k entry Est) as (r & _ & Er & _ & Hsp & Hrec); [by rewrite Z2Nat.id by lia|].
  set (q := (4 * Z.to_nat j + kind_index k)%nat) in *.
  unfold Check.check_policy_slot. rewrite Hsp. cbn [mbind result_bind].
  destruct (rec_span q) as [sp|] eqn:Esp; [|done].
  pose proof (w_span_bounds _ _ Esp) as (Hb1 & Hb2 & Hb3).
  unfold rec_span in Esp. rewrite Er in Esp. destruct r as [[tag bd]|]; [|done]. injection Esp as <-.
  cbn [Check.offset Check.len] in *. destruct Hrec as (-> & -> & Hv).
  cbn [mbind result_bind Reader.tag Reader.body].
  rewrite bool_decide_eq_true_2 by done. cbn [negb]. rewrite Hv. cbn [mbind result_bind].
  assert (Check.overlaps_any (Check.mkSpan (rec_at q) (8 + zlen bd)) sections = false) as ->; [|done].
  apply not_true_is_false. intros (sp & Hin & Ho)%existsb_exists.
  apply list_elem_of_In, list_elem_of_lookup in Hin as (n & Hin). apply (Forall_lookup_1 _ _ _ _ Hav) in Hin as [Ha|Ha].
  - rewrite no_overlap' in Ho; [done|]. cbn [Check.offset Check.len]. lia.
  - rewrite no_overlap in Ho; [done|]. cbn [Check.offset Check.len]. lia.
Qed.

Lemma w_record_floor n i floor H :
  0 <= i -> i + Z.of_nat n <= N * PolicyKind.COUNT -> floor <= H -> policy_end blob l <= H ->
  exists f, Check.record_floor n i body slot_bytes floor = Ok f /\ f <= H.
Proof.
  revert i floor. induction n as [|n IH]; intros i floor Hi Hn Hf Hp; cbn [Check.record_floor]; [eauto|].
  rewrite w_nth_span by lia. cbn [mbind result_bind]. apply IH; [lia|lia| |done].
  destruct (rec_span (Z.to_nat i)) as [sp|] eqn:E; [|done]. apply w_span_bounds in E. unfold Check.max_end. lia.
Qed.

Lemma max_end_le sections floor H :
  floor <= H -> Forall (fun sp => Check.offset sp + Check.len sp <= H) sections ->
  foldl Check.max_end floor sections <= H.
Proof.
  revert floor. induction sections as [|sp sections IH]; intros floor Hf Hs'; [done|].
  apply Forall_cons_iff in Hs' as [H1 H2]. apply IH; [unfold Check.max_end; lia|done].
Qed.

Lemma w_heap_floor sections :
  Forall (fun sp => Check.offset sp + Check.len sp <= Writer.heap_off l) sections ->
  exists f, Check.heap_floor sections body slot_bytes = Ok f /\ f <= Writer.heap_off l.
Proof.
  intros Hsec. unfold Check.heap_floor. rewrite w_slot_bytes_len, Z.div_mul by done.
  destruct w_order as [Heo Hph (Hn & Hm & Hr & _) Hpe _ _ _ Hhe (Hs1 & Hs2 & Hs3)]. destruct w_len as [_ Ht].
  rewrite checked_mul_ok by (unfold PolicyKind.COUNT; lia). cbn [ok_or mbind result_bind].
  apply w_record_floor; [lia|unfold PolicyKind.COUNT; lia| |lia]. apply max_end_le; [lia|done].
Qed.

Lemma w_edge_ordinals : Check.check_edge_ordinals edge_bytes N = Ok tt.
Proof.
  unfold Check.check_edge_ordinals.
  destruct w_order as [Heo Hph (Hn & Hm & Hr & _) Hpe _ _ _ Hhe (Hs1 & Hs2 & Hs3)]. destruct w_len as [_ Ht].
  assert (Hl : zlen edge_bytes = M * EdgeView.LEN) by (unfold edge_bytes; rewrite zlen_enc_edges; unfold EdgeView.LEN; lia).
  unfold EdgeView.LEN in *. rewrite for_each_entry_Ok with (n := M); [|lia|lia|done|done].
  intros j Hj. destruct (lookup_lt_is_Some_2 (edges blob) (Z.to_nat j)) as [e E]; [unfold zlen in Hj; lia|].
  destruct (bo_edges _ Hok _ _ E) as (He & Hf & Ht'). exists (enc_edge e). split.
  - apply get_range_holds; [lia|rewrite zlen_enc_edge; unfold EdgeView.LEN; lia|].
    rewrite <- (Z2Nat.id j) by lia. apply bind_entry; [apply zlen_enc_edge|done].
  - rewrite parse_edge by done. cbn [ok_or mbind result_bind].
    destruct (Z.leb_spec N (EdgeView.from_ordinal e)); [lia|]. by destruct (Z.leb_spec N (EdgeView.to_ordinal e)); [lia|].
Qed.

(** *** The registry *)

(** A table entry at its index. *)
Lemma entry_at tbl (e : list byte) j s :
  0 <= j -> zlen e = s -> holds tbl (j * s) e -> get_range tbl (j * s) ((j + 1) * s) = Some e.
Proof. intros Hj He H. apply get_range_holds; [pose proof (zlen_nonneg e); nia|lia|done]. Qed.

Section registry.
Context (reg : RegistrySpec) (Hreg : registry blob = Some reg).

Definition name_bytes_tbl : list byte := enc_names (Writer.heap_off l) (names reg).
Definition reg_view : RegistryView.t :=
  RegistryView.new body name_bytes_tbl (enc_sorted (sorted reg)) N.

Lemma w_reg_lens : zlen (names reg) = N /\ zlen (sorted reg) = N.
Proof. exact (lo_arity _ _ w_layout reg Hreg). Qed.

Lemma w_reg_holds :
  holds body (Writer.registry_off l) name_bytes_tbl /\
  holds body (Writer.registry_off l + 8 * N) (enc_sorted (sorted reg)) /\
  holds body (Writer.heap_off l) (heap_names (names reg)).
Proof.
  destruct (sa_registry _ _ _ Hs reg Hreg) as [H1 H2]. unfold registry_bytes in H1.
  apply holds_app in H1 as [H1 H3]. rewrite zlen_enc_names, (proj1 w_reg_lens), <- Z.add_assoc in H3.
  destruct w_order as [Heo Hph (Hn & Hm & Hr & _) Hpe Hore _ _ Hhe _].
  destruct (Hore ltac:(by rewrite Hreg)) as (Hro & _).
  split_and!; apply w_holds; (lia || done).
Qed.

Lemma w_name_offset j nm : names reg !! j = Some nm ->
  0 <= zlen (heap_names (take j (names reg))) /\
  zlen (heap_names (take j (names reg))) + zlen nm <= zlen (name_bytes blob) /\
  holds body (Writer.heap_off l + zlen (heap_names (take j (names reg)))) nm.
Proof.
  intros E. pose proof (heap_lookup id (names reg) j nm E) as H. fold (heap_names (take j (names reg))) in H.
  assert (Hx : holds (heap_names (names reg)) (zlen (heap_names (take j (names reg)))) nm) by exact H.
  split_and!; [apply zlen_nonneg| |eapply holds_trans; [apply w_reg_holds|done]].
  destruct Hx as (_ & Hx & _). unfold name_bytes. rewrite Hreg. done.
Qed.

Lemma w_name_entry j nm : names reg !! j = Some nm ->
  get_range name_bytes_tbl (Z.of_nat j * 8) ((Z.of_nat j + 1) * 8)
  = Some (le_encode 4 (Writer.heap_off l + zlen (heap_names (take j (names reg)))) ++ le_encode 4 (zlen nm)).
Proof. intros E. apply entry_at; [lia|by zl|by apply enc_names_lookup]. Qed.

Lemma w_name o nm : 0 <= o -> names reg !! Z.to_nat o = Some nm -> RegistryView.name reg_view o = Some nm.
Proof.
  intros Ho E. pose proof (lookup_lt_Some _ _ _ E) as Hlt. destruct w_reg_lens as [Hln _].
  destruct (w_name_offset _ _ E) as (H1 & H2 & H3). pose proof (w_name_entry _ _ E) as He.
  rewrite Z2Nat.id in He by done.
  destruct w_order as [Heo Hph (Hn & Hm & Hr & _) Hpe _ _ _ Hhe (Hs1 & Hs2 & Hs3)]. destruct w_len as [_ Ht].
  unfold RegistryView.name, reg_view. cbn [RegistryView.count RegistryView.name_table RegistryView.body].
  unfold RegistryView.NAME_ENTRY_LEN. destruct (Z.leb_spec N o); [unfold zlen in *; lia|].
  rewrite checked_mul_ok by lia. cbn [mbind option_bind]. rewrite checked_add_ok by lia. cbn [mbind option_bind].
  replace (o * 8 + 8) with ((o + 1) * 8) by lia. rewrite He. cbn [mbind option_bind].
  set (off := Writer.heap_off l + zlen (heap_names (take (Z.to_nat o) (names reg)))) in *.
  pose proof (zlen_nonneg nm).
  pose proof (le_decode_encode 4 off ltac:(unfold fits; lia)) as E1.
  pose proof (le_decode_encode 4 (zlen nm) ltac:(unfold fits; lia)) as E2.
  cbn [le_encode app] in *. rewrite E1, E2. rewrite checked_add_ok by lia. cbn [mbind option_bind].
  by apply holds_get_range.
Qed.

Lemma w_sorted_entry k o : sorted reg !! Z.to_nat k = Some o -> 0 <= k ->
  get_range (enc_sorted (sorted reg)) (k * 2) ((k + 1) * 2) = Some (le_encode 2 o).
Proof.
  intros E Hk. apply entry_at; [done|by zl|]. rewrite <- (Z2Nat.id k) by done.
  apply (bind_entry (le_encode 2) _ 2); [intros; by zl|done].
Qed.

Lemma w_sorted k o : 0 <= k -> sorted reg !! Z.to_nat k = Some o ->
  RegistryView.sorted_ordinal reg_view k = Some o.
Proof.
  intros Hk E. pose proof (lookup_lt_Some _ _ _ E) as Hlt. destruct w_reg_lens as [_ Hln].
  destruct (so_range _ _ (bo_registry _ Hok reg Hreg) _ _ E) as [Hf _].
  destruct w_order as [Heo Hph (Hn & Hm & Hr & _) Hpe _ _ _ Hhe (Hs1 & Hs2 & Hs3)]. destruct w_len as [_ Ht].
  unfold RegistryView.sorted_ordinal, reg_view. cbn [RegistryView.sorted_index].
  unfold RegistryView.SORTED_ENTRY_LEN, zlen in *. rewrite checked_mul_ok by lia. cbn [mbind option_bind].
  rewrite checked_add_ok by lia. cbn [mbind option_bind].
  replace (k * 2 + 2) with ((k + 1) * 2) by lia. rewrite (w_sorted_entry k o E Hk). cbn [mbind option_bind].
  pose proof (le_decode_encode 2 o Hf) as E1. cbn [le_encode] in *. by rewrite E1.
Qed.
Definition parsed_registry : Check.ParsedRegistry :=
  Check.mkParsedRegistry reg_view name_bytes_tbl (Check.mkSpan (Writer.registry_off l) (8 * N))
    (Check.mkSpan (Writer.registry_off l + 8 * N) (2 * N)).

Lemma w_names_lookup o : 0 <= o < N -> exists nm, names reg !! Z.to_nat o = Some nm.
Proof. intros Ho. apply lookup_lt_is_Some_2. destruct w_reg_lens as [Hln _]. unfold zlen in *. lia. Qed.

Lemma w_sorted_lookup k : 0 <= k < N -> exists o, sorted reg !! Z.to_nat k = Some o /\ fits 16 o /\ o < N.
Proof.
  intros Hk. destruct (lookup_lt_is_Some_2 (sorted reg) (Z.to_nat k)) as [o E].
  { destruct w_reg_lens as [_ Hln]. unfold zlen in *. lia. }
  exists o. split; [done|]. by apply (so_range _ _ (bo_registry _ Hok reg Hreg) _ _ E).
Qed.

Lemma w_sorted_ordinals : Check.check_sorted_ordinals (enc_sorted (sorted reg)) N = Ok tt.
Proof.
  unfold Check.check_sorted_ordinals, RegistryView.SORTED_ENTRY_LEN.
  destruct w_order as [Heo Hph (Hn & Hm & Hr & _) Hpe _ _ _ Hhe (Hs1 & Hs2 & Hs3)]. destruct w_len as [_ Ht].
  assert (Hl : zlen (enc_sorted (sorted reg)) = N * 2) by (rewrite zlen_enc_sorted, (proj2 w_reg_lens); lia).
  rewrite for_each_entry_Ok with (n := N); [|lia|lia|done|done].
  intros j Hj. destruct (w_sorted_lookup j Hj) as (o & E & Hf & Ho). exists (le_encode 2 o).
  split; [apply w_sorted_entry; [done|lia]|]. pose proof (le_decode_encode 2 o Hf) as E1. cbn [le_encode] in *.
  rewrite E1. by destruct (Z.leb_spec N o); [lia|].
Qed.

Lemma w_parse_registry : Check.parse_registry body N = Ok (Some parsed_registry).
Proof.
  destruct w_header as (_ & _ & _ & _ & H & _). unfold Check.parse_registry, Check.slice_table.
  rewrite H. cbn [mbind result_bind].
  destruct w_order as [Heo Hph (Hn & Hm & Hr & _) Hpe Hore _ _ Hhe (Hs1 & Hs2 & Hs3)]. destruct w_len as [_ Ht].
  destruct (Hore ltac:(by rewrite Hreg)) as (Hro & Hro2 & _). destruct w_reg_lens as [Hln Hls].
  destruct w_reg_holds as (H1 & H2 & _).
  assert (Ht8 : zlen name_bytes_tbl = 8 * N) by (unfold name_bytes_tbl; rewrite zlen_enc_names; lia).
  assert (Ht2 : zlen (enc_sorted (sorted reg)) = 2 * N) by (rewrite zlen_enc_sorted; lia).
  destruct (Z.eqb_spec (Writer.registry_off l) 0); [lia|].
  unfold Check.CONDUCTOR_HEADER_LEN, RegistryView.NAME_ENTRY_LEN, RegistryView.SORTED_ENTRY_LEN.
  destruct (Z.ltb_spec (Writer.registry_off l) 24); [lia|].
  rewrite !checked_mul_ok by lia. cbn [ok_or mbind result_bind].
  rewrite checked_add_ok by lia. cbn [ok_or mbind result_bind].
  rewrite (get_range_holds body _ _ name_bytes_tbl) by (lia || done). cbn [ok_or mbind result_bind].
  rewrite checked_add_ok by lia. cbn [ok_or mbind result_bind].
  rewrite checked_add_ok by lia. cbn [ok_or mbind result_bind]. rewrite Ht8.
  rewrite (get_range_holds body _ _ (enc_sorted (sorted reg))) by (lia || done). cbn [ok_or mbind result_bind].
  fold reg_view. unfold Check.check_registry_names. rewrite (proj2 (for_range_Ok _ _ _)); cbn [mbind result_bind].
  2: { intros o Ho. destruct (w_names_lookup o) as (nm & E); [lia|]. by rewrite (w_name o nm) by (done || lia). }
  rewrite w_sorted_ordinals. cbn [mbind result_bind]. by rewrite Ht2.
Qed.

Lemma w_names_in_heap floor : floor <= Writer.heap_off l ->
  Check.check_names_in_heap name_bytes_tbl floor = Ok tt.
Proof.
  intros Hfl. unfold Check.check_names_in_heap, RegistryView.NAME_ENTRY_LEN.
  destruct w_order as [Heo Hph (Hn & Hm & Hr & _) Hpe _ _ _ Hhe (Hs1 & Hs2 & Hs3)]. destruct w_len as [_ Ht].
  assert (Hl : zlen name_bytes_tbl = N * 8) by (unfold name_bytes_tbl; rewrite zlen_enc_names, (proj1 w_reg_lens); lia).
  rewrite for_each_entry_Ok with (n := N); [|lia|lia|done|done].
  intros j Hj. destruct (w_names_lookup j Hj) as (nm & E). pose proof (w_name_entry _ _ E) as He.
  destruct (w_name_offset _ _ E) as (H1 & H2 & _). pose proof (zlen_nonneg nm).
  rewrite Z2Nat.id in He by lia. eexists. split; [exact He|].
  erewrite read_u32_enc; [|apply (proj1 (proj1 (holds_app _ 0 _ _) (holds_self _)))|unfold fits; lia|done].
  cbn [mbind result_bind]. destruct (Z.ltb_spec (Writer.heap_off l + zlen (heap_names (take (Z.to_nat j) (names reg)))) floor); [lia|done].
Qed.

(** The name written at a rank of the sorted index. *)
Definition ranked (k : nat) (nm : list byte) : Prop :=
  exists o, sorted reg !! k = Some o /\ names reg !! Z.to_nat o = Some nm.

Lemma w_sorted_from n k prev :
  0 <= k -> k + Z.of_nat n <= N -> (forall p, prev = Some p -> exists k', (k' <= Z.to_nat k)%nat /\ ranked k' p) ->
  Check.check_sorted_from n k reg_view prev = Ok tt.
Proof.
  revert k prev. induction n as [|n IH]; intros k prev Hk Hn Hp; cbn [Check.check_sorted_from]; [done|].
  destruct (w_sorted_lookup k) as (o & Eo & Hf & Ho); [lia|].
  destruct (w_names_lookup o) as (nm & En); [unfold fits in Hf; lia|].
  rewrite (w_sorted k o Hk Eo). cbn [ok_or mbind result_bind].
  rewrite (w_name o nm) by (done || (unfold fits in Hf; lia)). cbn [ok_or mbind result_bind].
  assert (match prev with Some p => match bytes_cmp nm p with Lt => Err RegistryUnsorted | _ => Ok tt end
          | None => Ok tt end = Ok tt) as ->.
  { destruct prev as [p|]; [|done]. destruct (Hp p eq_refl) as (k' & Hk' & o' & Eo' & En').
    pose proof (so_order _ _ (bo_registry _ Hok reg Hreg) _ _ _ _ _ _ Hk' Eo' Eo En' En) as Hle.
    unfold bytes_le in Hle. by destruct (bytes_cmp nm p). }
  cbn [mbind result_bind]. apply IH; [lia|lia|]. intros p [= <-]. exists (Z.to_nat k). split; [lia|by exists o].
Qed.

Lemma w_sorted_order : Check.check_sorted_order reg_view N = Ok tt.
Proof. pose proof (zlen_nonneg (stages blob)). apply w_sorted_from; [done|lia|done]. Qed.
End registry.

(** *** The configuration bindings *)

Definition binding_view (c : ConfigBindingSpec) : ConfigBindingView.t :=
  ConfigBindingView.mk (node_ordinal c) (field_tag c) (key c) (default_value c).

(** An entry whose key lies in the body decodes to its binding. *)
Lemma parse_binding n h c :
  binding_ok n c -> 0 <= h -> h + zlen (key c) < 2 ^ 32 -> holds body h (key c) ->
  ConfigBindingView.parse body (binding_entry h c) = Ok (binding_view c).
Proof.
  intros (H1 & _ & H2 & H3 & H4) Hh Hb Hk. unfold ConfigBindingView.parse.
  rewrite zlen_binding_entry. change (negb (32 =? ConfigBindingView.LEN)) with false. cbv iota.
  pose proof (zlen_nonneg (key c)).
  pose proof (holds_self (binding_entry h c)) as Hx. unfold binding_entry in Hx at 2.
  repeat rewrite holds_app in Hx. rewrite !zlen_le_encode in Hx.
  destruct Hx as (Ha & Hb' & Hc' & Hd & _ & He & Hf).
  rewrite (read_u16_enc _ _ _ Ha H1) by done. cbn [mbind result_bind].
  rewrite (read_u16_enc _ 2 _ Hb' H2) by done. cbn [mbind result_bind].
  rewrite (read_u32_enc _ 4 _ Hc') by (unfold fits; lia). cbn [mbind result_bind].
  rewrite (read_u32_enc _ 8 _ Hd) by (unfold fits; lia). cbn [mbind result_bind].
  rewrite checked_add_ok by lia. cbn [ok_or mbind result_bind].
  rewrite (get_range_holds body h _ (key c)) by (lia || done). cbn [ok_or mbind result_bind].
  set (sc := le_encode 8 (ScalarValue.kind (default_value c)) ++ le_encode 8 (ScalarValue.value (default_value c))).
  assert (Hsc : holds (binding_entry h c) 16 sc) by (apply holds_app; rewrite zlen_le_encode; split; done).
  rewrite (get_range_holds (binding_entry h c) _ _ sc) by done. cbn [ok_or mbind result_bind].
  unfold sc. rewrite parse_scalar by done. done.
Qed.

Lemma w_config_holds : config blob <> [] ->
  holds body (Writer.config_off l) (config_bytes blob l) /\
  holds body (Writer.heap_off l + zlen (name_bytes blob)) (heap_keys (config blob)).
Proof.
  intros Hne. destruct (sa_config _ _ _ Hs Hne) as [H1 H2]. rewrite <- Z.add_assoc in H2.
  destruct w_order as [Heo Hph (Hn & Hm & Hr & _) Hpe _ Horc _ Hhe (Hs1 & Hs2 & Hs3)].
  destruct (Horc Hne). split; apply w_holds; (lia || done).
Qed.

Definition key_off (j : nat) : Z :=
  Writer.heap_off l + zlen (name_bytes blob) + zlen (heap_keys (take j (config blob))).
Definition config_tbl : list byte := enc_bindings (Writer.heap_off l + zlen (name_bytes blob)) (config blob).

Lemma w_config_entry j c : config blob !! j = Some c ->
  get_range config_tbl (Z.of_nat j * 32) ((Z.of_nat j + 1) * 32) = Some (binding_entry (key_off j) c) /\
  Writer.heap_off l <= key_off j < 2 ^ 32 /\
  ConfigBindingView.parse body (binding_entry (key_off j) c) = Ok (binding_view c).
Proof.
  intros E. assert (Hne : config blob <> []) by (by intros E'; rewrite E' in E).
  split; [apply entry_at; [lia|apply zlen_binding_entry|by apply enc_bindings_lookup]|].
  pose proof (heap_lookup key (config blob) j c E) as Hk. fold (heap_keys (take j (config blob))) in Hk.
  destruct w_order as [Heo Hph (Hn & Hm & Hr & _) Hpe _ _ _ Hhe (Hs1 & Hs2 & Hs3)]. destruct w_len as [_ Ht].
  pose proof Hk as (Hk0 & Hk1 & _). pose proof (zlen_nonneg (key c)).
  fold (heap_keys (config blob)) in Hk1. unfold key_off. split; [lia|].
  eapply parse_binding; [by eapply bo_config|lia|lia|].
  eapply holds_trans; [by apply w_config_holds|exact Hk].
Qed.

Definition parsed_config : Check.ParsedConfig :=
  Check.mkParsedConfig (zlen (config blob)) config_tbl
    (Check.mkSpan (Writer.config_off l) (8 + 32 * zlen (config blob))).

Lemma w_config_lookup j : 0 <= j < zlen (config blob) -> exists c, config blob !! Z.to_nat j = Some c.
Proof. intros Hj. apply lookup_lt_is_Some_2. unfold zlen in Hj. lia. Qed.

(** A check of every configuration entry. *)
Lemma w_config_each f :
  config blob <> [] ->
  (forall j c, config blob !! j = Some c -> f (binding_entry (key_off j) c) = Ok tt) ->
  Check.for_each_entry config_tbl ConfigBindingView.LEN f = Ok tt.
Proof.
  intros Hne Hf. unfold ConfigBindingView.LEN.
  destruct w_order as [Heo Hph (Hn & Hm & Hr & Hcf) Hpe _ Horc _ Hhe (Hs1 & Hs2 & Hs3)]. destruct w_len as [_ Ht].
  assert (Hl : zlen config_tbl = zlen (config blob) * 32) by (unfold config_tbl; rewrite zlen_enc_bindings; lia).
  destruct (Horc Hne). rewrite for_each_entry_Ok with (n := zlen (config blob)); [|lia|lia|done|done].
  intros j Hj. destruct (w_config_lookup j Hj) as (c & E). destruct (w_config_entry _ _ E) as (He & _ & _).
  rewrite Z2Nat.id in He by lia. eauto.
Qed.

Lemma w_parse_config : config blob <> [] -> Check.parse_config body N = Ok (Some parsed_config).
Proof.
  intros Hne. destruct w_header as (_ & _ & _ & _ & _ & H). unfold Check.parse_config.
  rewrite H. cbn [mbind result_bind].
  destruct w_order as [Heo Hph (Hn & Hm & Hr & Hcf) Hpe Hore Horc _ Hhe (Hs1 & Hs2 & Hs3)]. destruct w_len as [_ Ht].
  destruct (Horc Hne) as [Hc1 Hc2].
  destruct (w_config_holds Hne) as [H1 _]. unfold config_bytes in H1. fold config_tbl in H1.
  apply holds_app in H1 as [H1 H2]. apply holds_app in H1 as [H1 _].
  rewrite zlen_app, !zlen_le_encode in H2.
  assert (Hl : zlen config_tbl = 32 * zlen (config blob)) by (unfold config_tbl; by rewrite zlen_enc_bindings).
  destruct (Z.eqb_spec (Writer.config_off l) 0); [lia|].
  unfold Check.CONDUCTOR_HEADER_LEN, Check.CONFIG_HEADER_LEN, ConfigBindingView.LEN.
  destruct (Z.ltb_spec (Writer.config_off l) 24); [lia|].
  rewrite (read_u32_enc _ _ _ H1) by (unfold fits; lia). cbn [mbind result_bind].
  rewrite checked_add_ok by lia. cbn [ok_or mbind result_bind].
  rewrite checked_mul_ok by lia. cbn [ok_or mbind result_bind].
  rewrite !checked_add_ok by lia. cbn [ok_or mbind result_bind].
  rewrite (get_range_holds body _ _ config_tbl) by (lia || done). cbn [ok_or mbind result_bind].
  unfold Check.check_config_entries. rewrite w_config_each; [|done|].
  - cbn [mbind result_bind]. unfold parsed_config. by replace (zlen (config blob) * 32) with (32 * zlen (config blob)) by lia.
  - intros j c E. destruct (w_config_entry _ _ E) as (_ & _ & ->). cbn [mbind result_bind].
    destruct (bo_config _ Hok _ _ E) as (_ & Ho & _). cbn [binding_view ConfigBindingView.node_ordinal].
    by destruct (Z.leb_spec N (node_ordinal c)); [lia|].
Qed.

Lemma w_keys_in_heap floor : config blob <> [] -> floor <= Writer.heap_off l ->
  Check.check_keys_in_heap config_tbl floor = Ok tt.
Proof.
  intros Hne Hf. apply w_config_each; [done|]. intros j c E. destruct (w_config_entry _ _ E) as (_ & Hb & _).
  pose proof (holds_self (binding_entry (key_off j) c)) as Hx. unfold binding_entry in Hx at 2.
  repeat rewrite holds_app in Hx. rewrite !zlen_le_encode in Hx. destruct Hx as (_ & _ & _ & Hd & _).
  assert (0 <= Writer.heap_off l). { destruct w_order; lia. }
  rewrite (read_u32_enc _ 8 _ Hd) by (unfold fits; lia). cbn [mbind result_bind].
  by destruct (Z.ltb_spec (key_off j) floor); [lia|].
Qed.

(** *** The whole body *)

Definition registry_part : option Check.ParsedRegistry := parsed_registry <$> registry blob.
Definition config_part : option Check.ParsedConfig :=
  match config blob with [] => None | _ => Some parsed_config end.
Definition sections : list Check.Span :=
  Check.section_spans (Check.mkSpan 24 (16 * N)) (Check.mkSpan (Writer.edge_table_off l) (8 * M))
    registry_part config_part.

Lemma w_registry_part : Check.parse_registry body N = Ok registry_part.
Proof.
  unfold registry_part. destruct (registry blob) as [reg|] eqn:E; [by apply w_parse_registry|].
  destruct w_header as (_ & _ & _ & _ & H & _). unfold Check.parse_registry.
  rewrite H, (lo_registry _ _ w_layout), E. done.
Qed.

Lemma w_config_part : Check.parse_config body N = Ok config_part.
Proof.
  unfold config_part. destruct (config blob) as [|c cs] eqn:E; [|apply w_parse_config; by rewrite E].
  destruct w_header as (_ & _ & _ & _ & _ & H). unfold Check.parse_config.
  rewrite H, (lo_config _ _ w_layout), E. done.
Qed.

(** The spans of the optional sections, in order after the policy records. *)
Lemma w_optional_spans :
  (forall r, registry_part = Some r ->
     policy_end blob l <= Check.offset (Check.name_span r) /\ 0 <= Check.len (Check.name_span r) /\
     Check.offset (Check.name_span r) + Check.len (Check.name_span r) <= Check.offset (Check.sorted_span r) /\
     0 <= Check.len (Check.sorted_span r) /\
     Check.offset (Check.sorted_span r) + Check.len (Check.sorted_span r) <= Writer.heap_off l /\
     forall c, config_part = Some c ->
       Check.offset (Check.sorted_span r) + Check.len (Check.sorted_span r) <= Check.offset (Check.section_span c)) /\
  (forall c, config_part = Some c ->
     policy_end blob l <= Check.offset (Check.section_span c) /\ 0 <= Check.len (Check.section_span c) /\
     Check.offset (Check.section_span c) + Check.len (Check.section_span c) <= Writer.heap_off l).
Proof.
  destruct w_order as [Heo Hph (Hn & Hm & Hr & Hcf) Hpe Hore Horc _ Hhe _]. unfold registry_part, config_part.
  split.
  - intros r Er. destruct (registry blob) as [reg|]; [|done]. injection Er as <-.
    destruct Hore as (H1 & H2 & H3); [done|]. cbn [parsed_registry parsed_config Check.name_span Check.sorted_span Check.section_span Check.offset Check.len]. split_and!; try lia.
    intros c Ec. destruct (config blob); [done|]. injection Ec as <-. cbn [parsed_registry parsed_config Check.name_span Check.sorted_span Check.section_span Check.offset Check.len]. specialize (H3 ltac:(done)). lia.
  - intros c Ec. assert (Hne : config blob <> []) by (by destruct (config blob)).
    destruct (Horc Hne). replace (match config blob with [] => None | _ => Some parsed_config end) with (Some parsed_config)
      in Ec by (by destruct (config blob)). injection Ec as <-. cbn [parsed_registry parsed_config Check.name_span Check.sorted_span Check.section_span Check.offset Check.len]. lia.
Qed.

Lemma w_sections :
  Check.check_sections_disjoint sections = Ok tt /\ Forall avoids_records sections /\
  Forall (fun sp => Check.offset sp + Check.len sp <= Writer.heap_off l) sections.
Proof.
  destruct w_order as [Heo Hph (Hn & Hm & Hr & Hcf) Hpe _ _ _ Hhe _].
  destruct w_optional_spans as [Hreg Hcfg]. unfold sections, Check.section_spans, avoids_records.
  assert (Hcf1 : match config_part with Some c => chained (policy_end blob l) [Check.section_span c] (Writer.heap_off l)
               | None => True end).
  { destruct config_part as [c|]; [|done]. destruct (Hcfg c eq_refl) as (? & ? & ?). cbn. lia. }
  assert (Hro : chained (policy_end blob l) (match registry_part with Some reg => [Check.name_span reg; Check.sorted_span reg] | None => [] end
      ++ match config_part with Some cfg => [Check.section_span cfg] | None => [] end) (Writer.heap_off l)).
  { destruct registry_part as [r|]; [destruct (Hreg r eq_refl) as (? & ? & ? & ? & ? & Hrc)|];
      (destruct config_part as [c|]; [|cbn; lia]); [specialize (Hrc c eq_refl); cbn in *; lia|done]. }
  set (opt := match registry_part with Some _ => _ | None => _ end ++ _) in *. clearbody opt. clear Hcf1 Hreg Hcfg.
  split_and!.
  - apply (chained_disjoint 24 _ (Writer.heap_off l)). cbn [app chained Check.offset Check.len]. split_and!; try lia.
    eapply chained_weaken; [|exact Hro]. lia.
  - cbn [app]. repeat apply Forall_cons; cbn [Check.offset Check.len]; [lia|lia|].
    eapply Forall_impl; [|exact (chained_bounds _ _ _ Hro)]. cbn. lia.
  - cbn [app]. repeat apply Forall_cons; cbn [Check.offset Check.len]; [lia|lia|].
    eapply Forall_impl; [|exact (chained_bounds _ _ _ Hro)]. cbn. lia.
Qed.

Definition parsed : Check.Parsed :=
  Check.mkParsed body N M slot_bytes edge_bytes (Check.view <$> registry_part)
    (zlen (config blob)) (match config_part with Some _ => config_tbl | None => [] end).

Lemma w_parse : Check.parse body = Ok parsed.
Proof.
  destruct w_header as (H1 & H2 & _). unfold Check.parse. rewrite H1. cbn [mbind result_bind].
  rewrite H2. cbn [mbind result_bind]. rewrite w_stage_table. cbn [mbind result_bind].
  rewrite w_edge_table. cbn [mbind result_bind]. rewrite w_registry_part. cbn [mbind result_bind].
  rewrite w_config_part. cbn [mbind result_bind].
  assert (Check.section_spans (Check.mkSpan 24 (zlen slot_bytes)) (Check.mkSpan (Writer.edge_table_off l) (zlen edge_bytes))
    registry_part config_part = sections) as ->.
  { unfold sections. rewrite w_slot_bytes_len. unfold edge_bytes, Check.STAGE_ENTRY_LEN, PolicyKind.COUNT.
    rewrite zlen_enc_edges. by replace (N * (4 * 4)) with (16 * N) by lia. }
  destruct w_sections as (Hd & Ha & Hh). rewrite Hd. cbn [mbind result_bind].
  rewrite w_edge_ordinals. cbn [mbind result_bind]. rewrite w_stage_policies by done. cbn [mbind result_bind].
  rewrite w_record_overlaps. cbn [mbind result_bind].
  destruct (w_heap_floor _ Hh) as (floor & -> & Hfl). cbn [mbind result_bind].
  unfold parsed, registry_part, config_part.
  destruct (registry blob) as [reg|] eqn:E; cbn [fmap option_fmap option_map Check.name_table Check.view parsed_registry].
  - rewrite w_names_in_heap by done. cbn [mbind result_bind]. rewrite w_sorted_order by done. cbn [mbind result_bind].
    destruct (config blob) eqn:Ec; [done|]. cbn [Check.entries parsed_config].
    rewrite w_keys_in_heap by (done || by rewrite Ec). by rewrite <- Ec.
  - cbn [mbind result_bind]. destruct (config blob) eqn:Ec; [done|]. cbn [Check.entries parsed_config].
    rewrite w_keys_in_heap by (done || by rewrite Ec). by rewrite <- Ec.
Qed.

End written.
End Roundtrip.
