(* ===== verification/IrRoundThms.v ===== *)
(** * Round trip of the IR codec

    What [write_conductor] writes, [validate] accepts and the views decode to
    the writer's inputs; the writer never panics and never writes past the
    length it reports. *)

From S2P Require Import Prelude IrBytes IrData IrCheck IrRead IrThms IrWrite IrEnc IrRound.
From Stdlib.Init Require Import Byte.
From stdpp Require Import base tactics list numbers.

Local Open Scope Z_scope.

Module RoundThms.
Import Bytes Read BytesOrder Sound Draft Enc Decode LayoutFacts Roundtrip IrThms.
Import Reader(RECORD_HEADER_LEN, read_u16, read_u32, read_u64, read_u8, read_record).

(** The policies a stage view resolves to. *)
Definition stage_decodes (s : StageView.t) (st : StageSpec) : Prop :=
  StageView.limiter s = limiter st /\ StageView.timeout s = timeout st /\
  StageView.retry s = retry st /\ StageView.breaker s = breaker st.

(** The registry view answers for exactly the names written. *)
Definition registry_decodes (r : RegistryView.t) (reg : RegistrySpec) : Prop :=
  (forall o nm, names reg !! o = Some nm -> RegistryView.name r (Z.of_nat o) = Some nm) /\
  forall nm, match RegistryView.lookup r nm with
             | Some o => 0 <= o /\ names reg !! Z.to_nat o = Some nm
             | None => nm ∉ names reg
             end.

(** The view [v] presents the content of [blob]. *)
Record decodes (v : ConductorView.t) (blob : ConductorBlob) : Prop := {
  dc_count : ConductorView.stage_count v = zlen (stages blob);
  dc_stage i st : stages blob !! i = Some st ->
    exists s, ConductorView.stage v (Z.of_nat i) = Some s /\ stage_decodes s st;
  dc_edges : ConductorView.edges v = edges blob;
  dc_config : ConductorView.config_bindings v = binding_view <$> config blob;
  dc_registry : match registry blob with
                | Some reg => exists r, ConductorView.registry v = Some r /\ registry_decodes r reg
                | None => ConductorView.registry v = None
                end;
}.

Lemma filter_map_range_eq {A} (f : Z -> option A) (xs : list A) :
  (forall j x, xs !! j = Some x -> f (Z.of_nat j) = Some x) ->
  ConductorView.filter_map_range (zlen xs) f = xs.
Proof.
  intros H. unfold ConductorView.filter_map_range, zlen, seqZ. rewrite Nat2Z.id.
  enough (Hg : forall k, (forall j x, xs !! j = Some x -> f (Z.of_nat (k + j)) = Some x) ->
            omap f ((fun i => Z.of_nat i + 0) <$> seq k (length xs)) = xs) by by apply (Hg 0%nat).
  clear H. induction xs as [|x xs IH]; intros k H; [done|]. cbn.
  specialize (H 0%nat x eq_refl) as H0. rewrite Nat.add_0_r in H0. rewrite Z.add_0_r, H0. f_equal. apply IH.
  intros j y E. replace (S k + j)%nat with (k + S j)%nat by lia. by apply H.
Qed.

Section written.
Context (blob : ConductorBlob) (l : Writer.Layout) (b body : list byte).
Hypothesis Hc : Writer.compute blob = Ok l.
Hypothesis Hok : blob_ok blob.
Hypothesis Hlen : zlen b = Writer.total l.
Hypothesis Hs : sections_at b blob l.
Hypothesis Hbody : get_range b 24 (Writer.total l) = Some body.

Local Abbreviation view := (view_of (parsed blob l body)).

Lemma r_policy_body i st k entry r :
  stages blob !! i = Some st -> stage_recs st !! kind_index k = Some r ->
  get_range (slot_bytes blob l) (Z.of_nat i * Check.STAGE_ENTRY_LEN) ((Z.of_nat i + 1) * Check.STAGE_ENTRY_LEN) = Some entry ->
  StageView.policy_body (StageView.new body entry) k = snd <$> r.
Proof.
  intros Ei Er Ee.
  destruct (w_slot blob l b body Hc Hok Hlen Hs Hbody i st k entry Ei Ee) as (r' & Er' & El & Hrd & _ & Hrec).
  rewrite Er in Er'. injection Er' as <-. unfold StageView.policy_body. cbn [StageView.entry StageView.body].
  rewrite Hrd. destruct r as [[tag bd]|]; [|done].
  destruct (w_rec_at blob l b body Hc Hok Hlen Hs Hbody _ _ El) as (H24 & _). destruct Hrec as (Hrec & -> & _).
  destruct (Z.eqb_spec (rec_at blob l (4 * i + kind_index k)) 0); [lia|]. rewrite Hrec. cbn. by rewrite decide_True.
Qed.

Lemma r_stage i st : stages blob !! i = Some st ->
  exists s, ConductorView.stage view (Z.of_nat i) = Some s /\ stage_decodes s st.
Proof.
  intros Ei. pose proof (lookup_lt_Some _ _ _ Ei) as Hi.
  assert (Hi' : 0 <= Z.of_nat i < zlen (stages blob)) by (unfold zlen; lia).
  pose proof (w_slot_bytes_len blob l) as Hsl.
  destruct (table_entry _ _ Check.STAGE_ENTRY_LEN (Z.of_nat i) Hsl Hi' ltac:(done)) as (entry & Ee & _).
  destruct (w_order blob l Hc) as [Heo _ _ _ _ _ _ _ _]. pose proof (lo_total _ _ (compute_Ok _ _ Hc)).
  pose proof (w_order blob l Hc) as [_ Hph (Hn & Hm & Hr & _) Hpe _ _ _ Hhe (? & ? & ?)].
  exists (StageView.new body entry). split.
  - unfold ConductorView.stage. cbn [ConductorView.stage_count ConductorView.stage_table ConductorView.body view_of parsed
      Check.stage_count Check.stage_table Check.body].
    destruct (Z.leb_spec (zlen (stages blob)) (Z.of_nat i)); [lia|].
    unfold Check.STAGE_ENTRY_LEN, PolicyKind.COUNT in *. rewrite checked_mul_ok by lia. cbn [mbind option_bind].
    rewrite checked_add_ok by lia. cbn [mbind option_bind].
    replace (Z.of_nat i * (4 * 4) + 4 * 4) with ((Z.of_nat i + 1) * (4 * 4)) by lia. by rewrite Ee.
  - destruct (Forall_lookup_1 _ _ _ _ (bo_stages _ Hok) Ei) as (Hl & Ht & Hre & Hb).
    unfold stage_decodes, StageView.limiter, StageView.timeout, StageView.retry, StageView.breaker.
    rewrite (r_policy_body i st PolicyKind.Limiter entry _ Ei eq_refl Ee),
      (r_policy_body i st PolicyKind.Timeout entry _ Ei eq_refl Ee),
      (r_policy_body i st PolicyKind.Retry entry _ Ei eq_refl Ee),
      (r_policy_body i st PolicyKind.Breaker entry _ Ei eq_refl Ee).
    split_and!; [destruct (limiter st)|destruct (timeout st)|destruct (retry st)|destruct (breaker st)];
      cbn [fmap option_fmap option_map snd mbind option_bind]; try done;
      rewrite ?parse_limiter, ?parse_timeout, ?parse_retry, ?parse_breaker by done; done.
Qed.

Lemma r_edges : ConductorView.edges view = edges blob.
Proof.
  apply filter_map_range_eq. intros j e E. pose proof (lookup_lt_Some _ _ _ E) as Hj.
  pose proof (lo_total _ _ (compute_Ok _ _ Hc)).
  pose proof (w_order blob l Hc) as [Heo Hph (Hn & Hm & Hr & _) Hpe _ _ _ Hhe (? & ? & ?)].
  unfold ConductorView.edge, EdgeView.LEN. rewrite checked_mul_ok by (unfold zlen in *; lia). cbn [mbind option_bind].
  rewrite checked_add_ok by (unfold zlen in *; lia). cbn [mbind option_bind].
  replace (Z.of_nat j * 8 + 8) with ((Z.of_nat j + 1) * 8) by lia.
  cbn [ConductorView.edge_table view_of parsed Check.edge_table].
  rewrite (entry_at _ (enc_edge e)); [|lia|apply zlen_enc_edge|apply bind_entry; [apply zlen_enc_edge|done]].
  cbn [mbind option_bind]. apply parse_edge. by eapply bo_edges.
Qed.

Lemma r_config : ConductorView.config_bindings view = binding_view <$> config blob.
Proof.
  unfold ConductorView.config_bindings. cbn [ConductorView.config_count view_of parsed Check.config_count].
  replace (zlen (config blob)) with (zlen (binding_view <$> config blob)) by (unfold zlen; by rewrite length_fmap).
  apply filter_map_range_eq. intros j e E. apply list_lookup_fmap_Some in E as (c & -> & E).
  pose proof (lookup_lt_Some _ _ _ E) as Hj. pose proof (lo_total _ _ (compute_Ok _ _ Hc)).
  pose proof (w_order blob l Hc) as [Heo Hph (Hn & Hm & Hr & Hcf) Hpe _ Horc _ Hhe (? & ? & ?)].
  assert (Hne : config blob <> []) by (by intros E'; rewrite E' in E). destruct (Horc Hne).
  unfold ConductorView.config_binding, ConfigBindingView.LEN. rewrite checked_mul_ok by (unfold zlen in *; lia).
  cbn [mbind option_bind]. rewrite checked_add_ok by (unfold zlen in *; lia). cbn [mbind option_bind].
  replace (Z.of_nat j * 32 + 32) with ((Z.of_nat j + 1) * 32) by lia.
  cbn [ConductorView.config_entries ConductorView.body view_of parsed Check.config_entries Check.body]. unfold config_part.
  destruct (w_config_entry blob l b body Hc Hok Hlen Hs Hbody j c E) as (He & _ & Hpb).
  replace (match (match config blob with [] => None | _ => Some (parsed_config blob l) end) with
           | Some _ => config_tbl blob l | None => [] end) with (config_tbl blob l) by (by destruct (config blob)).
  rewrite He. cbn [mbind option_bind]. by rewrite Hpb.
Qed.

Lemma r_registry reg : registry blob = Some reg ->
  registry_decodes (reg_view blob l body reg) reg.
Proof.
  intros E. assert (Hname : forall o nm, names reg !! o = Some nm -> RegistryView.name (reg_view blob l body reg) (Z.of_nat o) = Some nm).
  { intros o nm En. apply (w_name blob l b body Hc Hlen Hs Hbody reg E); [lia|by rewrite Nat2Z.id]. }
  split; [done|]. intros nm. pose proof (w_parse blob l b body Hc Hok Hlen Hs Hbody) as Hp.
  destruct (w_len blob l b body Hc Hbody) as [Hbl Ht].
  apply parse_ok in Hp as [Hp _]; [|lia].
  destruct (po_registry _ Hp (reg_view blob l body reg)) as [Hcnt Hrok]; [unfold parsed, registry_part; by rewrite E|].
  pose proof (Registry.lookup_spec _ nm Hrok (zlen_nonneg (stages blob))) as Hl.
  change (RegistryView.count (reg_view blob l body reg)) with (zlen (stages blob)) in Hl.
  destruct (RegistryView.lookup _ nm) as [o|].
  - destruct Hl as [Ho Hn]. split; [lia|].
    destruct (w_names_lookup blob l b Hc reg E o Ho) as (nm' & En). pose proof (Hname _ _ En) as En'.
    rewrite Z2Nat.id in En' by lia. rewrite Hn in En'. by injection En' as ->.
  - intros Hin. apply list_elem_of_lookup in Hin as (o & En). pose proof (lookup_lt_Some _ _ _ En) as Ho.
    destruct (lo_arity _ _ (compute_Ok _ _ Hc) reg E) as [Ha Ha']. unfold zlen in Ha, Ha'.
    pose proof (so_complete _ _ (bo_registry _ Hok reg E) (Z.of_nat o)) as Hso.
    apply list_elem_of_lookup in Hso as (k & Ek); [|unfold zlen; lia]. pose proof (lookup_lt_Some _ _ _ Ek).
    apply (Hl (Z.of_nat k)); [unfold zlen; lia|]. unfold Registry.rank_name.
    rewrite (w_sorted blob l b body Hc Hok Hbody reg E (Z.of_nat k) (Z.of_nat o)); [|lia|by rewrite Nat2Z.id].
    cbn [mbind option_bind]. by apply Hname.
Qed.

Lemma r_decodes : decodes view blob.
Proof.
  constructor; [done|apply r_stage|apply r_edges|apply r_config|].
  destruct (registry blob) as [reg|] eqn:E; cbn [ConductorView.registry view_of parsed Check.registry];
    unfold registry_part; rewrite E; [|done].
  eexists. split; [done|]. by apply r_registry.
Qed.

(** The root record of the blob and the whole of [validate]. *)
Lemma r_root : read_u32 b Header.ROOT_OFFSET_FIELD = Ok 16 /\
  read_record b 16 = Ok (Reader.mkRecord NodeTag.ConductorSpec body).
Proof.
  pose proof (sa_header _ _ _ Hs) as H. unfold enc_header in H. repeat rewrite holds_app in H.
  rewrite !zlen_le_encode in H. destruct H as (_ & _ & _ & _ & Hr & Ht & Hz & Hl & _).
  destruct (w_len blob l b body Hc Hbody) as [Hbl Ht32]. pose proof (compute_Ok _ _ Hc) as Hlo.
  rewrite (lo_spec _ _ Hlo) in Hl. pose proof (lo_body _ _ Hlo) as Hmod.
  split; [by eapply read_u32_enc|].
  apply get_range_Some in Hbody as (_ & Hb1 & Hb2); [|done].
  apply read_record_enc; [|done|by rewrite Hbl|lia].
  unfold enc_record. repeat rewrite holds_app. rewrite !zlen_le_encode.
  replace (8 + zlen body) with (Writer.total l - 16) by lia. done.
Qed.

Lemma r_validate : Blob.validate b = Ok (Blob.from_trusted b) /\
  Blob.conductor (Blob.from_trusted b) = Ok view.
Proof.
  destruct r_root as [H1 H2]. pose proof (w_parse blob l b body Hc Hok Hlen Hs Hbody) as Hp.
  assert (Hv : ConductorView.parse body = Ok view) by (unfold ConductorView.parse; by rewrite Hp).
  split.
  - pose proof (sa_header _ _ _ Hs) as H. pose proof H as (_ & H48 & _). rewrite zlen_enc_header in H48.
    unfold enc_header in H. repeat rewrite holds_app in H. rewrite !zlen_le_encode in H.
    destruct H as (Hm & Hver & _ & Ht & _).
    unfold Blob.validate, Header.HEADER_LEN. destruct (Z.ltb_spec (zlen b) 16); [lia|].
    rewrite bool_decide_eq_true_2 by (by apply (get_range_holds _ 0)). cbn [negb].
    rewrite (read_u16_enc _ 4 _ Hver) by done. cbn [mbind result_bind].
    destruct (Z.ltb_spec Header.VERSION Header.VERSION); [lia|].
    destruct (w_len blob l b body Hc Hbody) as [_ Ht32].
    rewrite (read_u32_enc _ 8 _ Ht) by (done || (unfold fits; lia)). cbn [mbind result_bind].
    rewrite Hlen, Z.eqb_refl. cbn [negb]. rewrite H1. cbn [mbind result_bind]. rewrite H2. cbn [mbind result_bind Reader.tag Reader.body].
    rewrite bool_decide_eq_true_2 by done. cbn [negb]. by rewrite Hv.
  - unfold Blob.conductor. cbn [Blob.as_bytes]. rewrite H1. cbn [mbind result_bind]. rewrite H2.
    cbn [mbind result_bind Reader.tag Reader.body]. rewrite bool_decide_eq_true_2 by done. cbn [negb]. done.
Qed.
End written.

(** The prefix the writer reports holds the sections. *)
Lemma sections_take b blob l : layout_ok blob l -> zlen b >= Writer.total l ->
  sections_at b blob l -> sections_at (take (Z.to_nat (Writer.total l)) b) blob l.
Proof.
  intros Hl Hb [H1 H2 H3 H4 H5 H6].
  destruct (layout_ordered _ _ Hl) as [Heo Hph (Hn & Hm & Hr & Hcf) Hpe Hore Horc _ Hhe (? & ? & ?)].
  constructor.
  - apply holds_take; [done|]. rewrite zlen_enc_header. lia.
  - apply holds_take; [done|]. rewrite zlen_enc_slots, zlen_recs. lia.
  - apply holds_take; [done|]. rewrite zlen_enc_edges. lia.
  - apply holds_take; [done|]. lia.
  - intros reg E. destruct (H5 reg E) as [Ha Hb']. destruct (Hore ltac:(by rewrite E)) as (? & ? & _).
    destruct (lo_arity _ _ Hl reg E) as [Hna Hso].
    split; (apply holds_take; [done|]).
    + unfold registry_bytes. rewrite zlen_app, zlen_enc_names, zlen_enc_sorted. lia.
    + unfold name_bytes in *. rewrite E in *. lia.
  - intros Hne. destruct (H6 Hne) as [Ha Hb']. destruct (Horc Hne). split; (apply holds_take; [done|]).
    + unfold config_bytes. rewrite !zlen_app, !zlen_le_encode, zlen_enc_bindings. lia.
    + lia.
Qed.

(** C29: Round trip: whatever [write_conductor] writes from well-formed inputs,
    [validate] accepts, and the resulting view decodes to exactly these
    inputs: every policy of every stage, the edges, the config bindings with
    their keys and defaults, and the names, of which [lookup] finds all and
    only those written. *)
Theorem ir_write_roundtrip (buf buf' : list byte) (blob : ConductorBlob) (n : Z) :
  blob_ok blob -> Writer.write_conductor buf blob = Ret (Ok n, buf') ->
  exists ir v, Blob.validate (take (Z.to_nat n) buf') = Ok ir /\ Blob.conductor ir = Ok v /\ decodes v blob.
Proof.
  intros Hok H. destruct (Writer.compute blob) as [l|e] eqn:Hc; [|unfold Writer.write_conductor in H; by rewrite Hc in H].
  pose proof (compute_Ok _ _ Hc) as Hlo. destruct (layout_ordered _ _ Hlo) as [Heo Hph (Hn & Hm & Hr & Hcf) Hpe _ _ _ Hhe (? & ? & ?)].
  destruct (Z.lt_ge_cases (zlen buf) (Writer.total l)) as [Hb|Hb].
  { unfold Writer.write_conductor in H. rewrite Hc in H. by destruct (Z.ltb_spec (zlen buf) (Writer.total l)); [|lia]. }
  destruct (write_conductor_spec buf blob l Hc Hb) as (b & E & Hl & Hs & _). rewrite E in H. injection H as <- <-.
  apply sections_take in Hs; [|done|lia]. set (bt := take _ _) in *.
  assert (Hlen : zlen bt = Writer.total l) by (unfold bt, zlen in *; rewrite length_take; lia).
  destruct (get_range_is_Some bt 24 (Writer.total l)) as (body & Hbody); [lia|].
  destruct (r_validate blob l bt body Hc Hok Hlen Hs Hbody) as [Hv Hcond].
  exists (Blob.from_trusted bt), (view_of (parsed blob l body)). split_and!; [done|done|].
  by apply (r_decodes blob l bt body).
Qed.

Lemma demo_blob_ok : blob_ok (demo_blob [1; 0]).
Proof.
  constructor.
  - repeat (apply Forall_cons; [by repeat split|]). by apply Forall_nil.
  - intros [|[|]] e E; cbn in E; simplify_eq. by repeat split.
  - intros [|[|]] c E; cbn in E; simplify_eq. by repeat split.
  - intros reg [= <-]. constructor.
    + intros [|[|[|]]] o E; cbn in E; simplify_eq; by repeat split.
    + intros [|[|[|]]] [|[|[|]]] oi oj x y Hij [= <-] [= <-]; try lia; vm_compute; intros [= <-] [= <-]; done.
    + intros o Ho. change (0 <= o < 2) in Ho. assert (o = 0 \/ o = 1) as [-> | ->] by lia;
        cbn; repeat (apply list_elem_of_here || apply list_elem_of_further).
Qed.

Definition demo_buffer : list byte :=
  match Writer.write_conductor (replicate 400 xff) (demo_blob [1; 0]) with Ret (_, b) => b | _ => [] end.

Lemma ir_write_roundtrip_witness :
  exists ir v, Blob.validate (take (Z.to_nat 272) demo_buffer) = Ok ir /\ Blob.conductor ir = Ok v /\
    decodes v (demo_blob [1; 0]).
Proof.
  apply (ir_write_roundtrip (replicate 400 xff) demo_buffer (demo_blob [1; 0]) 272); [exact demo_blob_ok|].
  vm_compute. reflexivity.
Defined.

(** The writer is total: on any inputs and any buffer it returns rather
    than panics.  Success reports the computed length, which fits the buffer,
    and leaves every byte past it alone; failure leaves the buffer untouched
    and is either the layout's error or a buffer shorter than the layout,
    reported with both lengths. *)
Theorem ir_write_total (buf : list byte) (blob : ConductorBlob) :
  match Writer.write_conductor buf blob with
  | Ret (Ok n, buf') =>
      (exists l, Writer.compute blob = Ok l /\ Writer.total l = n) /\ n <= zlen buf /\ zlen buf' = zlen buf /\
      forall j, (Z.to_nat n <= j)%nat -> buf' !! j = buf !! j
  | Ret (Err e, buf') =>
      buf' = buf /\
      (Writer.compute blob = Err e \/
       exists l, Writer.compute blob = Ok l /\ zlen buf < Writer.total l /\
         e = Writer.BufferTooSmall (Writer.total l) (zlen buf))
  | _ => False
  end.
Proof.
  destruct (Writer.compute blob) as [l|e] eqn:Hc.
  2: { unfold Writer.write_conductor. rewrite Hc. auto. }
  destruct (Z.lt_ge_cases (zlen buf) (Writer.total l)) as [Hb|Hb].
  - unfold Writer.write_conductor. rewrite Hc. destruct (Z.ltb_spec (zlen buf) (Writer.total l)); [|lia]. eauto 10.
  - destruct (write_conductor_spec buf blob l Hc Hb) as (b & -> & Hl & _ & Hf). eauto 10.
Qed.

End RoundThms.
