(* ===== verification/PipId.v ===== *)
(** * Task identifiers

    Models src/crates/kwokka-core/src/id: the bit layout (layout.rs), the
    accessors (pip.rs), the constructors over the process-wide counter
    (generate.rs), the ancestry predicates (relation.rs) and [PipError]
    (error.rs).  A [Pip] is its raw 128-bit integer; constructors that draw a
    sequence number take the counter [GLOBAL_SEQ] and return its new value. *)

From S2P Require Import Prelude.
From stdpp Require Import base tactics list numbers.

Local Open Scope Z_scope.

Module Pip.

Definition SEQ_SHIFT : Z := 80.
Definition SEQ_BITS : Z := 48.
Definition SEQ_MASK : Z := Z.shiftl (Z.shiftl 1 SEQ_BITS - 1) SEQ_SHIFT.
Definition DEPTH_SHIFT : Z := 64.
Definition DEPTH_BITS : Z := 16.
Definition DEPTH_MASK : Z := Z.shiftl (Z.shiftl 1 DEPTH_BITS - 1) DEPTH_SHIFT.
Definition VERSION_SHIFT : Z := 40.
Definition CURRENT_VERSION : Z := 0.
Definition WORKER_SHIFT : Z := 2.
Definition WORKER_BITS : Z := 38.
Definition WORKER_MASK : Z := Z.shiftl (Z.shiftl 1 WORKER_BITS - 1) WORKER_SHIFT.

(** [<<] on [u128] drops the bits shifted out. *)
Definition shl128 (a n : Z) : Z := wrap U128 (Z.shiftl a n).

Definition depth (self : Z) : Z := wrap U16 (Z.shiftr (Z.land self DEPTH_MASK) DEPTH_SHIFT).
Definition seq (self : Z) : Z := wrap U64 (Z.shiftr (Z.land self SEQ_MASK) SEQ_SHIFT).
Definition worker_id (self : Z) : Z := wrap U64 (Z.shiftr (Z.land self WORKER_MASK) WORKER_SHIFT).

Definition pack (seq depth worker : Z) : Z :=
  let worker_masked := Z.land worker (Z.shiftl 1 WORKER_BITS - 1) in
  Z.lor (Z.lor (Z.lor (shl128 seq SEQ_SHIFT) (shl128 depth DEPTH_SHIFT))
           (shl128 CURRENT_VERSION VERSION_SHIFT))
    (shl128 worker_masked WORKER_SHIFT).

Inductive PipError : Type := DepthOverflow.

(** [GLOBAL_SEQ.fetch_add(1)]: the old value, and the counter after it. *)
Definition next_seq (global : Z) : Z * Z := (global, wrap U64 (global + 1)).

Definition root (global : Z) : Z * Z :=
  let '(s, global) := next_seq global in (pack s 0 0, global).

Definition root_on (worker : Z) (global : Z) : Z * Z :=
  let '(s, global) := next_seq global in (pack s 0 worker, global).

Definition issue (worker seq : Z) : Z := pack seq 0 worker.

Definition child (self : Z) (global : Z) : result PipError Z * Z :=
  match checked_add U16 (depth self) 1 with
  | None => (Err DepthOverflow, global)
  | Some child_depth =>
      let '(s, global) := next_seq global in (Ok (pack s child_depth (worker_id self)), global)
  end.

Definition detached (global : Z) : Z * Z := root global.

Definition is_parent_of (self other : Z) : bool :=
  (wrap U16 (depth self + 1) =? depth other) && (seq self <? seq other).

Definition is_ancestor_of (self other : Z) : bool :=
  (depth self <? depth other) && (seq self <? seq other).

(** ** Fields of a packed identifier *)

(** A contiguous field of [n] bits from bit [s]. *)
Lemma field_get x s n w :
  0 <= s -> 0 <= n <= w ->
  wrap w (Z.shiftr (Z.land x (Z.shiftl (Z.shiftl 1 n - 1) s)) s) = (x / 2 ^ s) mod 2 ^ n.
Proof.
  intros Hs Hn. assert (Z.shiftr (Z.land x (Z.shiftl (Z.shiftl 1 n - 1) s)) s = (x / 2 ^ s) mod 2 ^ n) as ->.
  { rewrite Z.shiftr_land, Z.shiftr_shiftl_l by done. rewrite Z.sub_diag, Z.shiftl_0_r.
    rewrite Z.shiftl_1_l, land_ones_mod, Z.shiftr_div_pow2 by lia. done. }
  unfold wrap. apply Z.mod_small. pose proof (Z.mod_pos_bound (x / 2 ^ s) (2 ^ n) ltac:(apply Z.pow_pos_nonneg; lia)).
  pose proof (Z.pow_le_mono_r 2 n w ltac:(lia) ltac:(lia)). lia.
Qed.

Lemma pack_sum s d w :
  0 <= s -> fits 16 d -> 0 <= w ->
  pack s d w = (s mod 2 ^ 48) * 2 ^ 80 + d * 2 ^ 64 + (w mod 2 ^ 38) * 2 ^ 2.
Proof.
  intros Hs Hd Hw. unfold pack, shl128, SEQ_SHIFT, DEPTH_SHIFT, VERSION_SHIFT, WORKER_SHIFT, WORKER_BITS, CURRENT_VERSION.
  rewrite Z.shiftl_1_l, land_ones_mod by done. unfold wrap, fits in *. cbn [Z.shiftl].
  change (Z.shiftl 0 40) with 0. change (0 mod 2 ^ 128) with 0. rewrite Z.lor_0_r.
  pose proof (Z.mod_pos_bound w (2 ^ 38) ltac:(lia)). pose proof (Z.mod_pos_bound s (2 ^ 48) ltac:(lia)).
  rewrite !Z.shiftl_mul_pow2 by done.
  assert ((s * 2 ^ 80) mod 2 ^ 128 = s mod 2 ^ 48 * 2 ^ 80) as ->.
  { change (2 ^ 128) with (2 ^ 48 * 2 ^ 80). by rewrite Z.mul_mod_distr_r by done. }
  rewrite (Z.mod_small (d * 2 ^ 64)) by lia. rewrite (Z.mod_small (w mod 2 ^ 38 * 2 ^ 2)) by lia.
  rewrite <- (Z.shiftl_mul_pow2 (s mod 2 ^ 48) 80) by done.
  rewrite lor_shiftl_add by lia.
  replace (s mod 2 ^ 48 * 2 ^ 80 + d * 2 ^ 64) with ((s mod 2 ^ 48 * 2 ^ 16 + d) * 2 ^ 64) by lia.
  rewrite <- (Z.shiftl_mul_pow2 _ 64) by done. rewrite lor_shiftl_add by lia. rewrite ?Z.shiftl_mul_pow2 by done. lia.
Qed.

Section fields.
Context (s d w : Z) (Hs : 0 <= s) (Hd : fits 16 d) (Hw : 0 <= w).

Lemma seq_pack : seq (pack s d w) = s mod 2 ^ 48.
Proof.
  unfold seq, SEQ_MASK, SEQ_SHIFT, SEQ_BITS. rewrite field_get, pack_sum by (done || lia). unfold fits in Hd.
  pose proof (Z.mod_pos_bound w (2 ^ 38) ltac:(lia)).
  replace (s mod 2 ^ 48 * 2 ^ 80 + d * 2 ^ 64 + w mod 2 ^ 38 * 2 ^ 2)
    with (d * 2 ^ 64 + w mod 2 ^ 38 * 2 ^ 2 + s mod 2 ^ 48 * 2 ^ 80) by lia.
  rewrite Z.div_add, Z.div_small by lia. by rewrite Z.add_0_l, Z.mod_mod.
Qed.

Lemma depth_pack : depth (pack s d w) = d.
Proof.
  unfold depth, DEPTH_MASK, DEPTH_SHIFT, DEPTH_BITS. rewrite field_get, pack_sum by (done || lia). unfold fits in Hd.
  pose proof (Z.mod_pos_bound w (2 ^ 38) ltac:(lia)).
  replace (s mod 2 ^ 48 * 2 ^ 80 + d * 2 ^ 64 + w mod 2 ^ 38 * 2 ^ 2)
    with (w mod 2 ^ 38 * 2 ^ 2 + (d + s mod 2 ^ 48 * 2 ^ 16) * 2 ^ 64) by lia.
  rewrite Z.div_add, Z.div_small by lia. rewrite Z.add_0_l, Z.mod_add by lia. by apply Z.mod_small.
Qed.

Lemma worker_pack : worker_id (pack s d w) = w mod 2 ^ 38.
Proof.
  unfold worker_id, WORKER_MASK, WORKER_SHIFT, WORKER_BITS. rewrite field_get, pack_sum by (done || lia).
  replace (s mod 2 ^ 48 * 2 ^ 80 + d * 2 ^ 64 + w mod 2 ^ 38 * 2 ^ 2)
    with ((w mod 2 ^ 38 + (s mod 2 ^ 48 * 2 ^ 40 + d * 2 ^ 24) * 2 ^ 38) * 2 ^ 2) by lia.
  rewrite Z.div_mul by lia. by rewrite Z.mod_add, Z.mod_mod by lia.
Qed.
End fields.
End Pip.

(** * Identifier theorems

    Families of identifiers minted in sequence from the process-wide counter,
    and what the packed fields and the ancestry predicates say of them. *)

From stdpp Require Import base tactics list numbers.

Local Open Scope Z_scope.

Module PipThms.
Import Pip.

(** ** Families *)

(** Constructors in the order they are called; [MkChild k] derives a child
    of the [k]-th identifier minted so far. *)
Inductive mint : Type :=
| MkRoot
| MkRootOn (worker : Z)
| MkDetached
| MkChild (parent : nat).

(** The identifiers minted so far with their parents, and [GLOBAL_SEQ]. *)
Record family : Type := mkFamily { members : list (Z * option nat); global : Z }.

(** [GLOBAL_SEQ] starts at 1. *)
Definition no_family : family := mkFamily [] 1.

Definition mint_step (f : family) (m : mint) : family :=
  match m with
  | MkRoot => let '(p, g) := root (global f) in mkFamily (members f ++ [(p, None)]) g
  | MkRootOn w => let '(p, g) := root_on w (global f) in mkFamily (members f ++ [(p, None)]) g
  | MkDetached => let '(p, g) := detached (global f) in mkFamily (members f ++ [(p, None)]) g
  | MkChild k =>
      match members f !! k with
      | None => f
      | Some (parent, _) =>
          match child parent (global f) with
          | (Ok p, g) => mkFamily (members f ++ [(p, Some k)]) g
          | (Err _, g) => mkFamily (members f) g
          end
      end
  end.

Definition mint_all (ms : list mint) : family := foldl mint_step no_family ms.

(** Workers are given as [u64]. *)
Definition mint_ok (m : mint) : Prop := match m with MkRootOn w => fits 64 w | _ => True end.

(** Descent through recorded parents. *)
Inductive descends (f : family) : nat -> nat -> Prop :=
| d_child i j p : members f !! j = Some (p, Some i) -> descends f i j
| d_trans i j k : descends f i j -> descends f j k -> descends f i k.

(** Sequence numbers count the members, depths and workers follow parents. *)
Record family_ok (f : family) : Prop := {
  fo_global : global f = 1 + Z.of_nat (length (members f));
  fo_member j p q : members f !! j = Some (p, q) ->
    exists d w, fits 16 d /\ fits 64 w /\ p = pack (1 + Z.of_nat j) d w;
  fo_parent j p i : members f !! j = Some (p, Some i) ->
    exists pp q, members f !! i = Some (pp, q) /\ (i < j)%nat /\ depth p = depth pp + 1 /\ worker_id p = worker_id pp;
}.

Lemma family_snoc f p q d w :
  family_ok f -> Z.of_nat (length (members f)) + 2 < 2 ^ 64 -> fits 16 d -> fits 64 w -> p = pack (global f) d w ->
  (forall i, q = Some i -> exists pp q', members f !! i = Some (pp, q') /\ depth p = depth pp + 1 /\ worker_id p = worker_id pp) ->
  family_ok (mkFamily (members f ++ [(p, q)]) (wrap U64 (global f + 1))).
Proof.
  intros [Hg Hm Hp] Hlen Hd Hw Ep Hq. constructor; cbn.
  - rewrite length_app. cbn. unfold wrap. rewrite Z.mod_small; lia.
  - intros j p' q' [E|[Ej E]]%lookup_snoc_Some; [by eapply Hm; destruct E|].
    injection E as <- <-. exists d, w. rewrite Ep, Hg. subst. split_and!; done.
  - intros j p' i [[Hj E]|[-> E]]%lookup_snoc_Some.
    + destruct (Hp _ _ _ E) as (pp & q' & E' & ? & ?). exists pp, q'. rewrite lookup_app_l by (apply lookup_lt_Some in E'; done). done.
    + injection E as <- ->. destruct (Hq i eq_refl) as (pp & q' & E' & ?). exists pp, q'.
      pose proof (lookup_lt_Some _ _ _ E'). rewrite lookup_app_l by done. done.
Qed.

Lemma mint_step_ok f m :
  family_ok f -> mint_ok m -> Z.of_nat (length (members f)) + 2 < 2 ^ 64 -> family_ok (mint_step f m).
Proof.
  intros Hf Hm Hlen. pose proof (fo_global _ Hf) as Hg.
  destruct m as [|w| |k]; cbn [mint_step]; unfold detached, root, root_on; cbn [next_seq].
  - by apply (family_snoc f _ _ 0 0).
  - by apply (family_snoc f _ _ 0 w).
  - by apply (family_snoc f _ _ 0 0).
  - destruct (members f !! k) as [[pp q]|] eqn:Ek; [|done]. unfold child.
    destruct (checked_add U16 (depth pp) 1) as [d|] eqn:Ed; [|by destruct f]. cbn [next_seq].
    apply checked_add_Some in Ed as [-> Hd]. destruct (fo_member _ Hf _ _ _ Ek) as (d & w & Hd' & Hw & Ep).
    assert (Hdp : depth pp = d) by (rewrite Ep; apply depth_pack; [lia|done|apply Hw]).
    assert (Hwp : fits 64 (worker_id pp)) by (unfold worker_id, wrap, fits; apply Z.mod_pos_bound; lia).
    apply (family_snoc f _ _ (depth pp + 1) (worker_id pp)); try done; [unfold fits in *; lia|].
    intros i [= ->]. exists pp, q. split_and!; [done| |].
    + apply depth_pack; [lia|unfold fits in *; lia|apply Hwp].
    + rewrite worker_pack; [|lia|unfold fits in *; lia|apply Hwp]. rewrite Ep, worker_pack; [|lia|done|apply Hw].
      by rewrite Z.mod_mod.
Qed.

Lemma mint_step_length f m : (length (members (mint_step f m)) <= S (length (members f)))%nat.
Proof.
  destruct m as [|w| |k]; cbn; rewrite ?length_app; cbn; try lia.
  destruct (members f !! k) as [[pp q]|]; [|lia]. destruct (child pp (global f)) as [[p|e] g]; cbn; rewrite ?length_app; cbn; lia.
Qed.

Lemma mint_from ms f :
  family_ok f -> Forall mint_ok ms -> Z.of_nat (length (members f)) + Z.of_nat (length ms) + 2 < 2 ^ 64 ->
  family_ok (foldl mint_step f ms).
Proof.
  revert f. induction ms as [|m ms IH]; intros f Hf Hm Hlen; [done|]. apply Forall_cons_iff in Hm as [H1 H2].
  cbn [length] in Hlen. pose proof (mint_step_length f m). apply IH; [|done|lia]. apply mint_step_ok; [done|done|lia].
Qed.

Lemma mint_all_ok ms :
  Forall mint_ok ms -> Z.of_nat (length ms) + 2 < 2 ^ 64 -> family_ok (mint_all ms).
Proof. intros Hm Hlen. apply mint_from; [|done|cbn; lia]. by constructor. Qed.

Lemma mint_all_length ms : (length (members (mint_all ms)) <= length ms)%nat.
Proof.
  unfold mint_all. assert (H : forall f, (length (members (foldl mint_step f ms)) <= length (members f) + length ms)%nat).
  { induction ms as [|m ms IH]; intros f; cbn; [lia|]. pose proof (mint_step_length f m). specialize (IH (mint_step f m)). lia. }
  apply H.
Qed.

Lemma member_seq f j p q : family_ok f -> Z.of_nat (length (members f)) + 1 < 2 ^ 48 ->
  members f !! j = Some (p, q) -> seq p = 1 + Z.of_nat j.
Proof.
  intros Hf Hlen E. pose proof (lookup_lt_Some _ _ _ E). destruct (fo_member _ Hf _ _ _ E) as (d & w & Hd & Hw & ->).
  rewrite seq_pack; [|lia|done|apply Hw]. apply Z.mod_small. lia.
Qed.

Lemma descends_depth f i j : family_ok f -> descends f i j ->
  exists pi qi pj qj, members f !! i = Some (pi, qi) /\ members f !! j = Some (pj, qj) /\
    (i < j)%nat /\ depth pi < depth pj /\ worker_id pi = worker_id pj.
Proof.
  intros Hf. induction 1 as [i j p E|i j k _ IH1 _ IH2].
  - destruct (fo_parent _ Hf _ _ _ E) as (pp & q & E' & Hij & Hd & Hw). exists pp, q, p, (Some i). split_and!; try done; lia.
  - destruct IH1 as (pi & qi & pj & qj & Ei & Ej & ? & ? & ?), IH2 as (pj' & qj' & pk & qk & Ej' & Ek & ? & ? & ?).
    rewrite Ej in Ej'. injection Ej' as <- <-. exists pi, qi, pk, qk. split_and!; try done; try lia; try congruence.
Qed.

(** The packed fields read back: a [Pip] built from any 64-bit sequence
    number, 16-bit depth and 64-bit worker has that depth, the low 48 bits of
    the sequence number and the low 38 bits of the worker, and two such triples
    pack to the same identifier only when these three fields agree. *)
Theorem pip_pack_fields (s d w s' d' w' : Z) :
  fits 64 s -> fits 16 d -> fits 64 w -> fits 64 s' -> fits 16 d' -> fits 64 w' ->
  seq (pack s d w) = s mod 2 ^ 48 /\ depth (pack s d w) = d /\ worker_id (pack s d w) = w mod 2 ^ 38 /\
  (pack s d w = pack s' d' w' <-> s mod 2 ^ 48 = s' mod 2 ^ 48 /\ d = d' /\ w mod 2 ^ 38 = w' mod 2 ^ 38).
Proof.
  intros [Hs _] Hd [Hw _] [Hs' _] Hd' [Hw' _]. split_and!; [by apply seq_pack|by apply depth_pack|by apply worker_pack|].
  split.
  - intros E. pose proof (f_equal seq E) as E1. pose proof (f_equal depth E) as E2. pose proof (f_equal worker_id E) as E3.
    rewrite !seq_pack in E1 by done. rewrite !depth_pack in E2 by done. by rewrite !worker_pack in E3 by done.
  - intros (E1 & -> & E3). rewrite !pack_sum by done. by rewrite E1, E3.
Qed.

Lemma pip_pack_fields_witness :
  seq (pack 42 3 7) = 42 mod 2 ^ 48 /\ depth (pack 42 3 7) = 3 /\ worker_id (pack 42 3 7) = 7 mod 2 ^ 38 /\
  (pack 42 3 7 = pack 42 3 (7 + 2 ^ 38) <->
   42 mod 2 ^ 48 = 42 mod 2 ^ 48 /\ 3 = 3 /\ 7 mod 2 ^ 38 = (7 + 2 ^ 38) mod 2 ^ 38).
Proof. apply (pip_pack_fields 42 3 7 42 3 (7 + 2 ^ 38)); split; vm_compute; (reflexivity || discriminate). Defined.

(** Identifiers minted by the process are unique and never the reserved
    zero: along any sequence of fewer than 2^48 - 1 constructor calls, the
    [j]-th identifier has sequence number [j + 1], so no two are equal. *)
Theorem pip_mint_unique (ms : list mint) (i j : nat) (p p' : Z) (q q' : option nat) :
  Forall mint_ok ms -> Z.of_nat (length ms) + 1 < 2 ^ 48 ->
  members (mint_all ms) !! i = Some (p, q) -> members (mint_all ms) !! j = Some (p', q') ->
  seq p = 1 + Z.of_nat i /\ p <> 0 /\ (p = p' -> i = j).
Proof.
  intros Hm Hlen Ei Ej. pose proof (mint_all_length ms). pose proof (mint_all_ok ms Hm ltac:(lia)) as Hf.
  pose proof (member_seq _ _ _ _ Hf ltac:(lia) Ei) as Hi. pose proof (member_seq _ _ _ _ Hf ltac:(lia) Ej) as Hj.
  split_and!; [done| |intros ->; lia]. intros ->. change (seq 0) with 0 in Hi. lia.
Qed.

Definition demo_mints : list mint := [MkRoot; MkRootOn 7; MkChild 1; MkChild 2].

Lemma pip_mint_unique_witness :
  seq (pack 3 1 7) = 1 + 2 /\ pack 3 1 7 <> 0 /\ (pack 3 1 7 = pack 4 2 7 -> 2%nat = 3%nat).
Proof.
  apply (pip_mint_unique demo_mints 2 3 (pack 3 1 7) (pack 4 2 7) (Some 1%nat) (Some 2%nat));
    [|reflexivity|reflexivity|reflexivity].
  repeat constructor; vm_compute; discriminate.
Defined.

(** The ancestry predicates have no false negatives on a minted family:
    a child is one level below its parent, keeps its worker and satisfies
    [is_parent_of], and every descendant satisfies [is_ancestor_of]. *)
Theorem pip_ancestry_complete (ms : list mint) (i j : nat) (p p' : Z) (q q' : option nat) :
  Forall mint_ok ms -> Z.of_nat (length ms) + 1 < 2 ^ 48 ->
  members (mint_all ms) !! i = Some (p, q) -> members (mint_all ms) !! j = Some (p', q') ->
  (q' = Some i -> is_parent_of p p' = true /\ depth p' = depth p + 1 /\ worker_id p' = worker_id p) /\
  (descends (mint_all ms) i j -> is_ancestor_of p p' = true /\ worker_id p' = worker_id p).
Proof.
  intros Hm Hlen Ei Ej. pose proof (mint_all_length ms). pose proof (mint_all_ok ms Hm ltac:(lia)) as Hf.
  pose proof (member_seq _ _ _ _ Hf ltac:(lia) Ei) as Hi. pose proof (member_seq _ _ _ _ Hf ltac:(lia) Ej) as Hj.
  split.
  - intros ->. destruct (fo_parent _ Hf _ _ _ Ej) as (pp & qq & E & Hij & Hd & Hw). rewrite Ei in E. injection E as <- <-.
    split_and!; [|done|done]. unfold is_parent_of. rewrite <- Hd. unfold wrap. rewrite Z.mod_small.
    + rewrite Z.eqb_refl. cbn. lia.
    + unfold depth, wrap. apply Z.mod_pos_bound. lia.
  - intros (pi & qi & pj & qj & Ei' & Ej' & Hij & Hd & Hw)%descends_depth; [|done].
    rewrite Ei in Ei'. rewrite Ej in Ej'. simplify_eq. split; [|done]. unfold is_ancestor_of. lia.
Qed.

Lemma pip_ancestry_complete_witness :
  (Some 2%nat = Some 2%nat -> is_parent_of (pack 3 1 7) (pack 4 2 7) = true /\
     depth (pack 4 2 7) = depth (pack 3 1 7) + 1 /\ worker_id (pack 4 2 7) = worker_id (pack 3 1 7)) /\
  (descends (mint_all demo_mints) 2 3 -> is_ancestor_of (pack 3 1 7) (pack 4 2 7) = true /\
     worker_id (pack 4 2 7) = worker_id (pack 3 1 7)).
Proof.
  apply (pip_ancestry_complete demo_mints 2 3 (pack 3 1 7) (pack 4 2 7) (Some 1%nat) (Some 2%nat));
    [|reflexivity|reflexivity|reflexivity].
  repeat constructor; vm_compute; discriminate.
Defined.

(** [child] fails exactly at depth [u16::MAX] and then draws no sequence
    number, yet at that depth [is_parent_of] wraps: the deepest identifier is
    reported as a possible direct parent of any later root. *)
Theorem pip_depth_limit (p g : Z) :
  (fst (child p g) = Err DepthOverflow <-> depth p = 2 ^ 16 - 1) /\
  (depth p = 2 ^ 16 - 1 -> snd (child p g) = g /\
     forall s, seq p < s < 2 ^ 48 -> is_parent_of p (issue 0 s) = true).
Proof.
  assert (Hd : 0 <= depth p < 2 ^ 16) by (unfold depth, wrap; apply Z.mod_pos_bound; lia).
  assert (Hq : 0 <= seq p) by (unfold seq, wrap; apply Z.mod_pos_bound; lia).
  unfold child, checked_add. destruct (Z.ltb_spec (depth p + 1) (2 ^ 16)); cbn [fst snd next_seq].
  - split; [split; [done|lia]|lia].
  - split; [split; [lia|done]|]. intros E. split; [done|]. intros s Hs. unfold is_parent_of, issue.
    rewrite depth_pack, seq_pack by (done || lia). rewrite E, (Z.mod_small s) by lia.
    change (wrap U16 (2 ^ 16 - 1 + 1)) with 0. rewrite Z.eqb_refl. cbn [andb]. lia.
Qed.
End PipThms.
