(* ===== verification/ArenaBump.v ===== *)
(** * The bump arena

    Models src/crates/kwokka-core/src/arena: [BumpAllocator] (bump.rs), its
    builder (builder.rs) and the lifecycle phase (phase.rs).  The backing
    region is a list of bytes addressed from [buffer]; a Rust type is its
    [Layout] and a value its bytes; a destructor call is an event that records
    the pointer and the type it was monomorphised for.  Broken [unsafe]
    preconditions are [Undefined]. *)

From S2P Require Import Prelude GenKey IrBytes.
From Stdlib.Init Require Import Byte.
From stdpp Require Import base tactics list numbers.

Local Open Scope Z_scope.

Module Arena.
Import Bytes.

(** ** [core::alloc::Layout] *)

Definition ISIZE_MAX : Z := 2 ^ 63 - 1.

Record Layout : Type := mkLayout { size : Z; align : Z }.

#[global] Instance Layout_eq_dec : EqDecision Layout.
Proof. solve_decision. Defined.

(** [usize::is_power_of_two]. *)
Definition is_power_of_two (n : Z) : bool := (0 <? n) && (Z.land n (n - 1) =? 0).

(** The size rounded up to the alignment must not exceed [isize::MAX]. *)
Definition from_size_align (sz al : Z) : option Layout :=
  if is_power_of_two al && (sz <=? ISIZE_MAX - (al - 1)) then Some (mkLayout sz al) else None.

(** ** Phase and errors *)

Inductive ArenaPhase : Type := Build | Frozen.

#[global] Instance ArenaPhase_eq_dec : EqDecision ArenaPhase.
Proof. solve_decision. Defined.

Inductive ArenaError : Type :=
| ZeroCapacity
| InvalidAlignment (alignment : Z)
| Exhausted (requested available : Z)
| DropRegistryFull (capacity : Z)
| WrongPhase (current : ArenaPhase).

(** [drop_fn] is the destructor of the type with this layout. *)
Record DropEntry : Type := mkDrop { ptr : Z; drop_fn : Layout }.

Record BumpAllocator : Type := mkArena {
  buffer : Z;
  region : list byte;
  capacity : Z;
  alignment : Z;
  cursor : Z;
  drops : list DropEntry;
  drop_capacity : Z;
  phase : ArenaPhase;
  generation : Z;
}.

Definition set_cursor (c : Z) (a : BumpAllocator) : BumpAllocator :=
  mkArena (buffer a) (region a) (capacity a) (alignment a) c (drops a) (drop_capacity a) (phase a) (generation a).
Definition set_region (m : list byte) (a : BumpAllocator) : BumpAllocator :=
  mkArena (buffer a) m (capacity a) (alignment a) (cursor a) (drops a) (drop_capacity a) (phase a) (generation a).
Definition set_drops (d : list DropEntry) (a : BumpAllocator) : BumpAllocator :=
  mkArena (buffer a) (region a) (capacity a) (alignment a) (cursor a) d (drop_capacity a) (phase a) (generation a).
Definition set_phase (p : ArenaPhase) (a : BumpAllocator) : BumpAllocator :=
  mkArena (buffer a) (region a) (capacity a) (alignment a) (cursor a) (drops a) (drop_capacity a) p (generation a).
Definition set_generation (g : Z) (a : BumpAllocator) : BumpAllocator :=
  mkArena (buffer a) (region a) (capacity a) (alignment a) (cursor a) (drops a) (drop_capacity a) (phase a) g.

(** ** The builder *)

Definition DEFAULT_BYTES : Z := 64 * 1024.
Definition DEFAULT_DROP_SLOTS : Z := 0.
Definition DEFAULT_ALIGNMENT : Z := 4096.

Record BumpAllocatorBuilder : Type := mkBuilder { b_bytes : Z; b_drop_slots : Z; b_alignment : Z }.

Definition builder_new : BumpAllocatorBuilder :=
  mkBuilder DEFAULT_BYTES DEFAULT_DROP_SLOTS DEFAULT_ALIGNMENT.
Definition with_bytes (bytes : Z) (self : BumpAllocatorBuilder) : BumpAllocatorBuilder :=
  mkBuilder bytes (b_drop_slots self) (b_alignment self).
Definition with_alignment (al : Z) (self : BumpAllocatorBuilder) : BumpAllocatorBuilder :=
  mkBuilder (b_bytes self) (b_drop_slots self) al.
Definition with_drop_slots (n : Z) (self : BumpAllocatorBuilder) : BumpAllocatorBuilder :=
  mkBuilder (b_bytes self) n (b_alignment self).

Definition buffer_layout (bytes al : Z) : result ArenaError Layout :=
  ok_or (from_size_align bytes al) (Exhausted bytes 0).

(** [alloc] is the global allocator: the address and the contents of the
    region it hands out, or [None] for null, on which the constructor aborts. *)
Definition from_builder (alloc : Layout -> option (Z * list byte)) (bytes drop_slots al : Z)
    : outcome (result ArenaError BumpAllocator) :=
  if bytes =? 0 then Ret (Err ZeroCapacity) else
  if negb (is_power_of_two al) then Ret (Err (InvalidAlignment al)) else
  match buffer_layout bytes al with
  | Err e => Ret (Err e)
  | Ok layout =>
      match alloc layout with
      | None => Panic
      | Some (raw, contents) =>
          Ret (Ok (mkArena raw contents bytes al 0 [] drop_slots Build Generation.ZERO))
      end
  end.

Definition build (alloc : Layout -> option (Z * list byte)) (self : BumpAllocatorBuilder)
    : outcome (result ArenaError BumpAllocator) :=
  from_builder alloc (b_bytes self) (b_drop_slots self) (b_alignment self).

(** ** Allocation *)

Definition align_up (addr al : Z) : outcome Z :=
  s ← add_or_panic USIZE addr al;
  t ← sub_or_panic s 1;
  m ← sub_or_panic al 1;
  Ret (Z.land t (lnot USIZE m)).

Definition exhausted (self : BumpAllocator) (requested : Z) : outcome ArenaError :=
  available ← sub_or_panic (capacity self) (cursor self);
  Ret (Exhausted requested available).

Definition alloc_raw (self : BumpAllocator) (layout : Layout)
    : outcome (result ArenaError Z * BumpAllocator) :=
  if negb (bool_decide (phase self = Build)) then Ret (Err (WrongPhase (phase self)), self) else
  if alignment self <? align layout then
    requested ← add_or_panic USIZE (size layout) (align layout);
    e ← exhausted self requested;
    Ret (Err e, self)
  else
  aligned ← align_up (cursor self) (align layout);
  match checked_add USIZE aligned (size layout) with
  | None => e ← exhausted self (size layout); Ret (Err e, self)
  | Some new_cursor =>
      if capacity self <? new_cursor then
        requested ← sub_or_panic new_cursor (cursor self);
        e ← exhausted self requested;
        Ret (Err e, self)
      else
        if capacity self <? aligned then Undefined else
        Ret (Ok (buffer self + aligned), set_cursor new_cursor self)
  end.

(** [ptr.write(value)] and [ptr.read()] through a pointer into the region. *)
Definition write_at (self : BumpAllocator) (p : Z) (v : list byte) : outcome BumpAllocator :=
  if (buffer self <=? p) && (p - buffer self + zlen v <=? zlen (region self)) then
    m ← copy_at (region self) (p - buffer self) v;
    Ret (set_region m self)
  else Undefined.

Definition read_at (self : BumpAllocator) (p n : Z) : outcome (list byte) :=
  if buffer self <=? p then
    match get_range (region self) (p - buffer self) (p - buffer self + n) with
    | Some bs => Ret bs
    | None => Undefined
    end
  else Undefined.

(** A value of a type is as many bytes as its layout says. *)
Definition alloc (self : BumpAllocator) (t : Layout) (value : list byte)
    : outcome (result ArenaError Z * BumpAllocator) :=
  '(r, self) ← alloc_raw self t;
  match r with
  | Err e => Ret (Err e, self)
  | Ok raw => self ← write_at self raw value; Ret (Ok raw, self)
  end.

Definition alloc_with_drop (self : BumpAllocator) (t : Layout) (value : list byte)
    : outcome (result ArenaError Z * BumpAllocator) :=
  if drop_capacity self <=? zlen (drops self)
  then Ret (Err (DropRegistryFull (drop_capacity self)), self) else
  '(r, self) ← alloc_raw self t;
  match r with
  | Err e => Ret (Err e, self)
  | Ok raw =>
      self ← write_at self raw value;
      Ret (Ok raw, set_drops (drops self ++ [mkDrop raw t]) self)
  end.

Definition USIZE_MAX : Z := 2 ^ 64 - 1.

Definition alloc_slice (self : BumpAllocator) (t : Layout) (count : Z)
    : outcome (result ArenaError Z * BumpAllocator) :=
  match checked_mul USIZE (size t) count with
  | None => e ← exhausted self USIZE_MAX; Ret (Err e, self)
  | Some bytes =>
      match from_size_align bytes (align t) with
      | None => e ← exhausted self bytes; Ret (Err e, self)
      | Some layout => alloc_raw self layout
      end
  end.

(** ** Lifecycle *)

Definition freeze (self : BumpAllocator) : BumpAllocator := set_phase Frozen self.

(** [while let Some(entry) = self.drops.pop()]: one turn per entry, the last
    pushed first; the result lists the destructor calls in order. *)
Fixpoint run_drops_loop (fuel : nat) (self : BumpAllocator) : list DropEntry * BumpAllocator :=
  match fuel with
  | O => ([], self)
  | S fuel =>
      match list.last (drops self) with
      | None => ([], self)
      | Some entry =>
          let '(calls, self) :=
            run_drops_loop fuel (set_drops (take (length (drops self) - 1) (drops self)) self) in
          (entry :: calls, self)
      end
  end.

Definition run_drops (self : BumpAllocator) : list DropEntry * BumpAllocator :=
  run_drops_loop (length (drops self)) self.

Definition reset (self : BumpAllocator) : list DropEntry * BumpAllocator :=
  let '(calls, self) := run_drops self in
  let self := set_cursor 0 self in
  let self := set_phase Build self in
  (calls, set_generation (Generation.next (generation self)) self).

(** [Drop for BumpAllocator]: the destructor calls and the layout the region
    is given back with. *)
Definition drop (self : BumpAllocator) : list DropEntry * option Layout :=
  let '(calls, self) := run_drops self in
  (calls, from_size_align (capacity self) (alignment self)).

Definition used (self : BumpAllocator) : Z := cursor self.
Definition available (self : BumpAllocator) : outcome Z := sub_or_panic (capacity self) (cursor self).
End Arena.
