(* ===== verification/ArenaThms.v ===== *)
(** * Arena theorems

    An abstract arena of live objects with contents, a LIFO of pending
    destructors and a phase; the bump allocator refines it. *)

From S2P Require Import Prelude GenKey IrBytes ArenaBump.
From Stdlib.Init Require Import Byte.
From stdpp Require Import base tactics list numbers.

Local Open Scope Z_scope.

Module ArenaThms.
Import Bytes Arena.

(** ** Powers of two and alignment *)

Lemma power_of_two_spec n : is_power_of_two n = true <-> exists k, 0 <= k /\ n = 2 ^ k.
Proof.
  unfold is_power_of_two. rewrite andb_true_iff, Z.ltb_lt, Z.eqb_eq. split.
  - intros [Hn H]. pose proof (Z.log2_nonneg n). exists (Z.log2 n). split; [done|].
    destruct (Z.log2_spec n Hn) as [H1 H2]. destruct (Z.eq_dec n (2 ^ Z.log2 n)) as [|Hne]; [done|].
    exfalso. assert (Z.testbit (Z.land n (n - 1)) (Z.log2 n) = true); [|by rewrite H, Z.bits_0 in *].
    rewrite Z.land_spec, Z.bit_log2 by done. cbn.
    assert (Z.log2 (n - 1) = Z.log2 n) as <-; [|apply Z.bit_log2; lia].
    apply Z.log2_unique; [done|]. lia.
  - intros (k & Hk & ->). split; [by apply Z.pow_pos_nonneg|].
    apply Z.bits_inj'. intros m Hm. rewrite Z.bits_0, Z.land_spec, Z.pow2_bits_eqb by done.
    destruct (Z.eqb_spec k m) as [->|]; [|done]. cbn.
    rewrite Z.sub_1_r, <- Z.ones_equiv. by rewrite Z.ones_spec_high by lia.
Qed.

Lemma align_up_spec addr k :
  0 <= addr -> 0 <= k -> addr + 2 ^ k < 2 ^ 64 ->
  exists r, align_up addr (2 ^ k) = Ret r /\ addr <= r < addr + 2 ^ k /\ r mod 2 ^ k = 0.
Proof.
  intros Ha Hk Hb. assert (0 < 2 ^ k) by (by apply Z.pow_pos_nonneg).
  unfold align_up. rewrite (proj2 (add_or_panic_Ret _ _ _ _)) by (split; [done|lia]). cbn.
  rewrite (proj2 (sub_or_panic_Ret _ _ _)) by (split; [done|lia]). cbn.
  rewrite (proj2 (sub_or_panic_Ret _ _ _)) by (split; [done|lia]). cbn.
  eexists. split; [done|].
  assert (Z.land (addr + 2 ^ k - 1) (lnot 64 (2 ^ k - 1)) = (addr + 2 ^ k - 1) / 2 ^ k * 2 ^ k) as ->.
  { apply Z.bits_inj'. intros n Hn. rewrite Z.land_spec. unfold lnot. rewrite Z.lxor_spec.
    rewrite !Z.sub_1_r, <- !Z.ones_equiv.
    rewrite <- Z.shiftl_mul_pow2, <- Z.shiftr_div_pow2 by done. rewrite !Z.shiftl_spec by lia.
    destruct (Z.lt_ge_cases n k).
    - rewrite (Z.testbit_neg_r _ (n - k)) by lia. rewrite (Z.ones_spec_low k) by lia.
      rewrite (Z.ones_spec_low 64); [by rewrite andb_false_r|].
      assert (2 ^ k < 2 ^ 64) by lia. apply Z.pow_lt_mono_r_iff in H1; lia.
    - rewrite Z.shiftr_spec by lia. replace (n - k + k) with n by lia.
      rewrite (Z.ones_spec_high k) by lia. cbn. destruct (Z.lt_ge_cases n 64).
      + rewrite Z.ones_spec_low by lia. apply andb_true_r.
      + replace (Z.pred (addr + 2 ^ k)) with (Z.pred (addr + 2 ^ k) mod 2 ^ 64) by (apply Z.mod_small; lia).
        by rewrite Z.mod_pow2_bits_high by lia. }
  rewrite Z.mod_mul by lia. split; [|done].
  pose proof (Z.div_mod (addr + 2 ^ k - 1) (2 ^ k) ltac:(lia)). pose proof (Z.mod_pos_bound (addr + 2 ^ k - 1) (2 ^ k) ltac:(lia)).
  lia.
Qed.

(** A layout [Layout::from_size_align] accepts; every Rust type has one. *)
Definition layout_ok (t : Layout) : Prop :=
  0 <= size t /\ from_size_align (size t) (align t) = Some t.

Lemma from_size_align_Some sz al t :
  from_size_align sz al = Some t <->
  t = mkLayout sz al /\ (exists k, 0 <= k /\ al = 2 ^ k) /\ sz <= ISIZE_MAX - (al - 1).
Proof.
  unfold from_size_align. rewrite <- power_of_two_spec.
  destruct (is_power_of_two al), (Z.leb_spec sz (ISIZE_MAX - (al - 1))); cbn; naive_solver lia.
Qed.

Lemma layout_ok_spec t : layout_ok t ->
  0 <= size t /\ (exists k, 0 <= k /\ align t = 2 ^ k) /\ 0 < align t /\ size t <= ISIZE_MAX - (align t - 1).
Proof.
  intros [H0 (_ & (k & Hk & E) & Hs)%from_size_align_Some]. split_and!; [done|eauto| |done].
  rewrite E. by apply Z.pow_pos_nonneg.
Qed.

Lemma pow2_divide a b : (exists k, 0 <= k /\ a = 2 ^ k) -> (exists k, 0 <= k /\ b = 2 ^ k) -> a <= b -> (a | b).
Proof.
  intros (k & Hk & ->) (m & Hm & ->) H. apply Z.pow_le_mono_r_iff in H; [|lia|done].
  exists (2 ^ (m - k)). rewrite <- Z.pow_add_r by lia. f_equal. lia.
Qed.

(** ** The invariant *)

Record arena_ok (a : BumpAllocator) : Prop := {
  ak_cursor : 0 <= cursor a <= capacity a;
  ak_region : zlen (region a) = capacity a;
  ak_layout : from_size_align (capacity a) (alignment a) = Some (mkLayout (capacity a) (alignment a));
  ak_buffer : 0 < buffer a /\ buffer a mod alignment a = 0;
  ak_drops : zlen (drops a) <= drop_capacity a;
  ak_generation : Generation.wf (generation a);
}.

(** The first multiple of the alignment from the cursor on. *)
Definition fit (a : BumpAllocator) (t : Layout) (o : Z) : Prop :=
  cursor a <= o < cursor a + align t /\ o mod align t = 0.

Lemma exhausted_ok a n : arena_ok a -> exhausted a n = Ret (Exhausted n (capacity a - cursor a)).
Proof.
  intros [Hc _ _ _ _ _]. unfold exhausted. by rewrite (proj2 (sub_or_panic_Ret _ _ _)) by (split; [done|lia]).
Qed.

(** Every branch of [alloc_raw]: no overflow, no out-of-bounds pointer. *)
Lemma alloc_raw_cases a t :
  arena_ok a -> layout_ok t ->
  (phase a = Frozen /\ alloc_raw a t = Ret (Err (WrongPhase Frozen), a)) \/
  (phase a = Build /\ alignment a < align t /\
     alloc_raw a t = Ret (Err (Exhausted (size t + align t) (capacity a - cursor a)), a)) \/
  (phase a = Build /\ align t <= alignment a /\ exists o, fit a t o /\
     if capacity a <? o + size t
     then alloc_raw a t = Ret (Err (Exhausted (o + size t - cursor a) (capacity a - cursor a)), a)
     else alloc_raw a t = Ret (Ok (buffer a + o), set_cursor (o + size t) a)).
Proof.
  intros Ha Ht. destruct (layout_ok_spec t Ht) as (Hs0 & (k & Hk & Ek) & Hal & Hs).
  pose proof Ha as [Hc Hr Hl Hb Hd Hg]. apply from_size_align_Some in Hl as (_ & Hp & Hcap).
  unfold ISIZE_MAX in *. unfold alloc_raw. destruct (phase a) eqn:Ep; [|by left].
  right. rewrite bool_decide_eq_true_2 by done. cbn [negb].
  destruct (Z.ltb_spec (alignment a) (align t)) as [Hlt|Hge]; [left|right].
  - split_and!; [done|done|]. rewrite (proj2 (add_or_panic_Ret _ _ _ _)) by (split; [done|lia]). cbn [mbind outcome_bind].
    by rewrite exhausted_ok.
  - split_and!; [done|done|]. rewrite Ek in *.
    destruct (align_up_spec (cursor a) k) as (o & -> & Ho & Hm); [lia|done|lia|].
    exists o. split; [by rewrite <- Ek in *|]. cbn [mbind outcome_bind]. rewrite checked_add_ok by lia.
    destruct (Z.ltb_spec (capacity a) (o + size t)).
    + rewrite (proj2 (sub_or_panic_Ret _ _ _)) by (split; [done|lia]). cbn [mbind outcome_bind]. by rewrite exhausted_ok.
    + destruct (Z.ltb_spec (capacity a) o); [lia|done].
Qed.

Lemma fit_aligned a t o : arena_ok a -> layout_ok t -> align t <= alignment a -> fit a t o ->
  (buffer a + o) mod align t = 0.
Proof.
  intros [_ _ Hl [_ Hb] _ _] Ht Hle [_ Hm]. destruct (layout_ok_spec t Ht) as (_ & Hk & Hal & _).
  apply from_size_align_Some in Hl as (_ & Hp & _).
  destruct (pow2_divide _ _ Hk Hp Hle) as (q & Hq). apply Z.mod_divide in Hb as (m & Hb); [|lia].
  apply Z.mod_divide in Hm as (n & Hm); [|lia]. rewrite Hb, Hm, Hq.
  replace (m * (q * align t) + n * align t) with ((m * q + n) * align t) by lia. apply Z.mod_mul. lia.
Qed.

(** ** Operations of a client *)

Inductive op : Type :=
| OAlloc (t : Layout) (v : list byte)
| OAllocDrop (t : Layout) (v : list byte)
| OSlice (t : Layout) (count : Z)
| OWrite (p : Z) (v : list byte)
| ORead (p n : Z)
| OFreeze
| OReset.

Inductive reply : Type :=
| RPtr (r : result ArenaError Z)
| RBytes (bs : list byte)
| RDrops (calls : list DropEntry)
| RUnit.

Definition step (a : BumpAllocator) (o : op) : outcome (reply * BumpAllocator) :=
  match o with
  | OAlloc t v => '(r, a) ← alloc a t v; Ret (RPtr r, a)
  | OAllocDrop t v => '(r, a) ← alloc_with_drop a t v; Ret (RPtr r, a)
  | OSlice t n => '(r, a) ← alloc_slice a t n; Ret (RPtr r, a)
  | OWrite p v => a ← write_at a p v; Ret (RUnit, a)
  | ORead p n => bs ← read_at a p n; Ret (RBytes bs, a)
  | OFreeze => Ret (RUnit, freeze a)
  | OReset => let '(calls, a) := reset a in Ret (RDrops calls, a)
  end.

(** ** The abstract arena *)

(** A live object; an uninitialised slice has no value yet. *)
Record obj : Type := mkObj { o_ptr : Z; o_size : Z; o_val : option (list byte) }.

Record spec : Type := mkSpec {
  sp_live : list obj;
  sp_drops : list DropEntry;
  sp_phase : ArenaPhase;
  sp_generation : Z;
}.

Definition apart (p n q m : Z) : Prop := p + n <= q \/ q + m <= p.

(** Objects at [p] with as many bytes as [v] now hold [v]. *)
Definition overwrite (p : Z) (v : list byte) (o : obj) : obj :=
  if (o_ptr o =? p) && (o_size o =? zlen v) && (0 <? zlen v) then mkObj p (o_size o) (Some v) else o.

(** What a client may do: valid types, values of the type's size, and
    accesses through pointers of live objects only. *)
Definition op_ok (s : spec) (o : op) : Prop :=
  match o with
  | OAlloc t v | OAllocDrop t v => layout_ok t /\ zlen v = size t
  | OSlice t n => layout_ok t /\ 0 <= n
  | OWrite p v => exists ob, ob ∈ sp_live s /\ o_ptr ob = p /\ o_size ob = zlen v
  | ORead p n => exists ob, ob ∈ sp_live s /\ o_ptr ob = p /\ o_size ob = n
  | OFreeze | OReset => True
  end.

(** What a builder fixes for good: the region, the largest alignment it serves
    and the number of destructors it records. *)
Record geometry : Type := mkGeo { base : Z; cap : Z; max_align : Z; max_drops : Z }.
Definition geometry_of (a : BumpAllocator) : geometry := mkGeo (buffer a) (capacity a) (alignment a) (drop_capacity a).

Section spec.
Context (geo : geometry).

(** Objects are laid out one after the other; the newest comes first in
    [sp_live], so what follows it is what is left. *)
Definition top (s : spec) : Z := match sp_live s with [] => base geo | ob :: _ => o_ptr ob + o_size ob end.
Definition room (s : spec) : Z := base geo + cap geo - top s.

(** The first multiple of [al] from [x] on. *)
Definition ceil (x al : Z) : Z := (x + al - 1) / al * al.

(** Where [n] bytes at alignment [al] go, or why they are refused. *)
Definition placed (s : spec) (n al : Z) : result ArenaError Z :=
  match sp_phase s with
  | Frozen => Err (WrongPhase Frozen)
  | Build =>
      if max_align geo <? al then Err (Exhausted (n + al) (room s)) else
      let o := ceil (top s - base geo) al in
      if cap geo <? o + n then Err (Exhausted (o + n - (top s - base geo)) (room s)) else Ok (base geo + o)
  end.

(** What a slice of [n] elements asks for. *)
Definition slice_placed (s : spec) (t : Layout) (n : Z) : result ArenaError Z :=
  if 2 ^ 64 <=? size t * n then Err (Exhausted (2 ^ 64 - 1) (room s)) else
  match from_size_align (size t * n) (align t) with
  | None => Err (Exhausted (size t * n) (room s))
  | Some _ => placed s (size t * n) (align t)
  end.

(** A new object: in the region, aligned, apart from every live object. *)
Definition fresh (s : spec) (p n al : Z) : Prop :=
  base geo <= p /\ p + n <= base geo + cap geo /\ p mod al = 0 /\
  forall ob, ob ∈ sp_live s -> apart p n (o_ptr ob) (o_size ob).

Inductive spec_step (s : spec) : op -> reply -> spec -> Prop :=
| s_alloc t v p : placed s (size t) (align t) = Ok p -> fresh s p (size t) (align t) ->
    spec_step s (OAlloc t v) (RPtr (Ok p))
      (mkSpec (mkObj p (size t) (Some v) :: sp_live s) (sp_drops s) Build (sp_generation s))
| s_alloc_error t v e : placed s (size t) (align t) = Err e -> spec_step s (OAlloc t v) (RPtr (Err e)) s
| s_alloc_drop t v p : zlen (sp_drops s) < max_drops geo -> placed s (size t) (align t) = Ok p -> fresh s p (size t) (align t) ->
    spec_step s (OAllocDrop t v) (RPtr (Ok p))
      (mkSpec (mkObj p (size t) (Some v) :: sp_live s) (mkDrop p t :: sp_drops s) Build (sp_generation s))
| s_alloc_drop_error t v e : zlen (sp_drops s) < max_drops geo -> placed s (size t) (align t) = Err e ->
    spec_step s (OAllocDrop t v) (RPtr (Err e)) s
| s_drops_full t v : zlen (sp_drops s) = max_drops geo ->
    spec_step s (OAllocDrop t v) (RPtr (Err (DropRegistryFull (max_drops geo)))) s
| s_slice t n p : slice_placed s t n = Ok p -> fresh s p (size t * n) (align t) ->
    spec_step s (OSlice t n) (RPtr (Ok p))
      (mkSpec (mkObj p (size t * n) None :: sp_live s) (sp_drops s) Build (sp_generation s))
| s_slice_error t n e : slice_placed s t n = Err e -> spec_step s (OSlice t n) (RPtr (Err e)) s
| s_write p v : spec_step s (OWrite p v) RUnit
    (mkSpec (overwrite p v <$> sp_live s) (sp_drops s) (sp_phase s) (sp_generation s))
| s_read p n bs : zlen bs = n ->
    (forall ob v, ob ∈ sp_live s -> o_ptr ob = p -> o_size ob = n -> o_val ob = Some v -> bs = v) ->
    spec_step s (ORead p n) (RBytes bs) s
| s_freeze : spec_step s OFreeze RUnit (mkSpec (sp_live s) (sp_drops s) Frozen (sp_generation s))
| s_reset : spec_step s OReset (RDrops (sp_drops s))
    (mkSpec [] [] Build ((sp_generation s + 1) mod 2 ^ 24)).

(** The answers are determined, those to a read of a slice that was never
    written apart. *)
Lemma spec_step_reply s o r1 s1 r2 s2 : match o with ORead _ _ => False | _ => True end ->
  spec_step s o r1 s1 -> spec_step s o r2 s2 -> r1 = r2 /\ s1 = s2.
Proof. intros Ho. destruct 1; inversion 1; subst; (done || (exfalso; lia) || naive_solver congruence). Qed.
End spec.

(** ** Refinement *)

Definition obj_in (a : BumpAllocator) (o : obj) : Prop :=
  0 <= o_size o /\ buffer a <= o_ptr o /\ o_ptr o + o_size o <= buffer a + cursor a /\
  forall v, o_val o = Some v -> zlen v = o_size o /\ holds (region a) (o_ptr o - buffer a) v.

Record refines (a : BumpAllocator) (s : spec) : Prop := {
  rf_ok : arena_ok a;
  rf_objs o : o ∈ sp_live s -> obj_in a o;
  rf_apart i j oi oj : (i < j)%nat -> sp_live s !! i = Some oi -> sp_live s !! j = Some oj ->
    o_ptr oj + o_size oj <= o_ptr oi;
  rf_drops : sp_drops s = rev (drops a);
  rf_phase : sp_phase s = phase a;
  rf_generation : sp_generation s = generation a;
  rf_top : top (geometry_of a) s = buffer a + cursor a;
}.

Lemma fit_ceil a t o : 0 < align t -> fit a t o -> o = ceil (cursor a) (align t).
Proof.
  intros Hal [Hf Hm]. unfold ceil. apply Z.mod_divide in Hm as (q & ->); [|lia].
  assert ((cursor a + align t - 1) / align t = q) as ->; [|done]. symmetry. apply (Z.div_unique _ _ q (cursor a + align t - 1 - q * align t)); lia.
Qed.

(** [alloc_raw], abstractly. *)
Lemma alloc_raw_placed a s t : refines a s -> layout_ok t ->
  match placed (geometry_of a) s (size t) (align t) with
  | Err e => alloc_raw a t = Ret (Err e, a)
  | Ok p => alloc_raw a t = Ret (Ok p, set_cursor (p - buffer a + size t) a) /\ phase a = Build /\
      fresh (geometry_of a) s p (size t) (align t) /\ buffer a + cursor a <= p
  end.
Proof.
  intros Hr Ht. pose proof (rf_ok _ _ Hr) as Ha. destruct (layout_ok_spec t Ht) as (Hs0 & _ & Hal & _). pose proof (rf_top _ _ Hr) as Htop.
  assert (Hroom : room (geometry_of a) s = capacity a - cursor a) by (unfold room; rewrite Htop; cbn; lia).
  unfold placed. rewrite (rf_phase _ _ Hr), Hroom, Htop. cbn [max_align base cap geometry_of]. replace (buffer a + cursor a - buffer a) with (cursor a) by lia.
  destruct (alloc_raw_cases a t Ha Ht) as [(Hp & E')|[(Hp & Hlt & E')|(Hp & Hle & o & Hf & E')]]; rewrite Hp; [done| |].
  - by rewrite (proj2 (Z.ltb_lt _ _)) by done.
  - rewrite (proj2 (Z.ltb_ge _ _)) by done. pose proof (fit_aligned _ _ _ Ha Ht Hle Hf) as Hmod. rewrite <- (fit_ceil a t o Hal Hf).
    destruct (Z.ltb_spec (capacity a) (o + size t)); [done|]. destruct Hf as [Hf _]. destruct (ak_cursor _ Ha).
    split_and!; [rewrite E'; do 3 f_equal; lia|done| |lia]. unfold fresh. cbn. split_and!; [lia|lia|done|].
    intros ob Hob. destruct (rf_objs _ _ Hr _ Hob) as (? & ? & ? & _). right. lia.
Qed.

(** Placing a new object past the cursor keeps the others. *)
Lemma refines_place a s p n val m :
  refines a s -> phase a = Build -> 0 <= n -> buffer a + cursor a <= p -> p + n <= buffer a + capacity a ->
  zlen m = zlen (region a) ->
  (forall j, (j < Z.to_nat (p - buffer a))%nat -> m !! j = region a !! j) ->
  (forall v, val = Some v -> zlen v = n /\ holds m (p - buffer a) v) ->
  refines (set_region m (set_cursor (p - buffer a + n) a))
    (mkSpec (mkObj p n val :: sp_live s) (sp_drops s) Build (sp_generation s)).
Proof.
  intros [Ha Hob Hap Hdr Hph Hg Htop] Hb Hn Hp Hpn Hm Hj Hv. pose proof Ha as [Hc Hrg Hl Hbuf Hd Hgen].
  constructor; cbn; try done.
  - constructor; cbn; try done; lia.
  - intros o [->|Ho]%elem_of_cons; [unfold obj_in; cbn; split_and!; (lia || exact Hv)|].
    destruct (Hob o Ho) as (H0 & H1 & H2 & H3). unfold obj_in. cbn. split_and!; [lia|lia|lia|].
    intros v E. destruct (H3 v E) as [Hz (Hh0 & Hh1 & Hh2)].
    split; [done|]. split_and!; [lia|lia|]. intros i b Hi. pose proof (lookup_lt_Some _ _ _ Hi). unfold zlen in Hz. rewrite Hj by lia. auto.
  - intros [|i] [|j] oi oj Hij Ei Ej; cbn in *; try lia.
    + injection Ei as <-. cbn. destruct (Hob oj) as (_ & _ & ? & _); [by eapply list_elem_of_lookup_2|]. lia.
    + eapply (Hap i j); [lia|done|done].
  - unfold top. cbn. lia.
Qed.

(** Writing a value of the right size where [alloc_raw] pointed. *)
Lemma write_fresh a s t p v :
  refines a s -> layout_ok t -> zlen v = size t -> placed (geometry_of a) s (size t) (align t) = Ok p ->
  fresh (geometry_of a) s p (size t) (align t) /\
  exists a' a'', alloc_raw a t = Ret (Ok p, a') /\ write_at a' p v = Ret a'' /\ drops a'' = drops a /\ geometry_of a'' = geometry_of a /\
    refines a'' (mkSpec (mkObj p (size t) (Some v) :: sp_live s) (sp_drops s) Build (sp_generation s)).
Proof.
  intros Hr Ht Hv E. pose proof (alloc_raw_placed a s t Hr Ht) as H. rewrite E in H. destruct H as (Ea & Hb & Hf & Hp).
  split; [done|]. eexists. destruct Hf as (Hf1 & Hf2 & _). cbn in Hf1, Hf2. destruct (layout_ok_spec t Ht) as (Hs0 & _).
  pose proof (ak_region _ (rf_ok _ _ Hr)) as Hrg. pose proof (ak_cursor _ (rf_ok _ _ Hr)) as Hc.
  unfold write_at. cbn [buffer region set_cursor].
  destruct (copy_at_ok (region a) (p - buffer a) v) as (m & Em & Hl & Hh & Hj); [lia|lia|].
  eexists. split; [exact Ea|]. cbn [buffer region set_cursor].
  rewrite (proj2 (Z.leb_le _ _)) by lia. rewrite (proj2 (Z.leb_le _ _)) by lia. cbn [andb]. rewrite Em.
  split_and!; [done|done|done|]. apply refines_place; try done; try lia.
  - intros j Hlt. apply Hj. lia.
  - by intros ? [= <-].
Qed.

(** A client write through a live pointer. *)
Lemma write_live a s p v :
  refines a s -> (exists ob, ob ∈ sp_live s /\ o_ptr ob = p /\ o_size ob = zlen v) ->
  exists a', write_at a p v = Ret a' /\ geometry_of a' = geometry_of a /\
    refines a' (mkSpec (overwrite p v <$> sp_live s) (sp_drops s) (sp_phase s) (sp_generation s)).
Proof.
  intros [Ha Hob Hap Hdr Hph Hg Htop] (ob & Hin & Hp & Hsz). pose proof (Hob ob Hin) as (H0 & H1 & H2 & _).
  pose proof Ha as [Hc Hrg Hl Hbuf Hd Hgen]. unfold write_at.
  rewrite (proj2 (Z.leb_le _ _)) by lia. rewrite (proj2 (Z.leb_le _ _)) by lia. cbn [andb].
  destruct (copy_at_ok (region a) (p - buffer a) v) as (m & -> & Hlm & Hh & Hj); [lia|lia|].
  eexists. split_and!; [done|done|]. constructor; cbn; try done.
  - constructor; cbn; try done. lia.
  - intros o (o' & -> & Ho')%list_elem_of_fmap. pose proof (Hob o' Ho') as (G0 & G1 & G2 & G3).
    unfold overwrite. destruct (_ && _ && _) eqn:E.
    + unfold obj_in. cbn. split_and!; [lia|lia|lia|]. intros w [= <-]. split; [lia|done].
    + unfold obj_in. cbn [buffer cursor region set_region]. split_and!; [done|done|done|]. intros w Hw. destruct (G3 w Hw) as [Hz Hwh]. split; [done|].
      eapply (holds_frame (region a) m _ w (p - buffer a) (zlen v)); try done; try lia.
      apply list_elem_of_lookup in Hin as (i & Hi), Ho' as (j & Hj'). pose proof (zlen_nonneg v).
      destruct (Nat.lt_trichotomy i j) as [Hij|[->|Hij]].
      * pose proof (Hap i j _ _ Hij Hi Hj'). lia.
      * rewrite Hi in Hj'. injection Hj' as <-. lia.
      * pose proof (Hap j i _ _ Hij Hj' Hi). lia.
  - intros i j oi oj Hij Ei Ej. apply list_lookup_fmap_Some in Ei as (oi' & -> & Ei), Ej as (oj' & -> & Ej).
    pose proof (Hap i j _ _ Hij Ei Ej). unfold overwrite.
    destruct (_ && _ && _) eqn:E1, (_ && _ && _) eqn:E2 in |- *; cbn; lia.
  - rewrite <- Htop. unfold top. cbn. destruct (sp_live s) as [|o l]; [done|]. cbn. unfold overwrite. destruct (_ && _ && _) eqn:E; cbn; lia.
Qed.

(** Destructors run last registered first. *)
Lemma run_drops_loop_spec fuel a : (length (drops a) <= fuel)%nat ->
  run_drops_loop fuel a = (rev (drops a), set_drops [] a).
Proof.
  revert a. induction fuel as [|fuel IH]; intros a Hf; cbn [run_drops_loop].
  - destruct a as [? ? ? ? ? ds]. cbn in *. by destruct ds; [|cbn in Hf; lia].
  - destruct (drops a) as [|d ds] eqn:E using rev_ind; [by destruct a; cbn in *; subst|]. clear IHds.
    rewrite last_snoc, length_app. cbn [length]. replace (length ds + 1 - 1)%nat with (length ds) by lia.
    rewrite take_app_length. rewrite IH by (cbn; rewrite length_app in Hf; cbn in Hf; lia).
    cbn [drops set_drops]. rewrite rev_unit. by destruct a.
Qed.

Lemma run_drops_spec a : run_drops a = (rev (drops a), set_drops [] a).
Proof. by apply run_drops_loop_spec. Qed.

Lemma zlen_rev {A} (l : list A) : zlen (rev l) = zlen l.
Proof. unfold zlen. by rewrite length_rev. Qed.

Lemma refines_reset a s : refines a s ->
  exists a', reset a = (sp_drops s, a') /\ geometry_of a' = geometry_of a /\
    refines a' (mkSpec [] [] Build ((sp_generation s + 1) mod 2 ^ 24)).
Proof.
  intros [Ha Hob Hap Hdr Hph Hg Htop]. unfold reset. rewrite run_drops_spec, Hdr. eexists. split_and!; [done|done|].
  pose proof Ha as [Hc Hrg Hl Hbuf Hd Hgen]. pose proof (zlen_nonneg (drops a)).
  constructor; cbn; try done.
  - constructor; cbn; try done; [lia|change (zlen (@nil DropEntry)) with 0; lia|apply Generation.next_wf].
  - by intros o ?%not_elem_of_nil.
  - by rewrite Hg, Generation.next_mod.
  - unfold top. cbn. lia.
Qed.

Lemma refines_register a s d : refines a s -> zlen (drops a) < drop_capacity a ->
  refines (set_drops (drops a ++ [d]) a) (mkSpec (sp_live s) (d :: sp_drops s) (sp_phase s) (sp_generation s)).
Proof.
  intros [Ha Hob Hap Hdr Hph Hg Htop] Hd. pose proof Ha as [Hc Hrg Hl Hbuf _ Hgen].
  constructor; cbn; try done.
  - constructor; cbn; try done. rewrite zlen_app. change (zlen [d]) with 1. lia.
  - by rewrite rev_unit, Hdr.
Qed.

(** One step of the simulation: the arena answers as the abstract arena does. *)
Definition simulates (a : BumpAllocator) (s : spec) (o : op) (m : outcome (reply * BumpAllocator)) : Prop :=
  exists r a' s', m = Ret (r, a') /\ spec_step (geometry_of a) s o r s' /\ refines a' s' /\ geometry_of a' = geometry_of a.

Lemma simulates_alloc a s t v : refines a s -> op_ok s (OAlloc t v) -> simulates a s (OAlloc t v) (step a (OAlloc t v)).
Proof.
  intros Hr [Ht Hv]. cbn [step]. unfold alloc. pose proof (alloc_raw_placed a s t Hr Ht) as H.
  destruct (placed _ s (size t) (align t)) as [p|e] eqn:E.
  - destruct (write_fresh _ _ _ _ _ Hr Ht Hv E) as (Hf & a' & a'' & -> & Ew & _ & Hgeo & Hr'). cbn [mbind outcome_bind]. rewrite Ew.
    cbn [mbind outcome_bind]. eexists _, _, _. split_and!; try done. by apply s_alloc.
  - rewrite H. cbn [mbind outcome_bind]. eexists _, _, s. split_and!; try done. by apply s_alloc_error.
Qed.

Lemma simulates_alloc_drop a s t v :
  refines a s -> op_ok s (OAllocDrop t v) -> simulates a s (OAllocDrop t v) (step a (OAllocDrop t v)).
Proof.
  intros Hr [Ht Hv]. cbn [step]. unfold alloc_with_drop. pose proof (ak_drops _ (rf_ok _ _ Hr)) as Hd.
  assert (Hz : zlen (sp_drops s) = zlen (drops a)) by (by rewrite (rf_drops _ _ Hr), zlen_rev).
  destruct (Z.leb_spec (drop_capacity a) (zlen (drops a))) as [Hfull|Hroom]; cbn [mbind outcome_bind].
  { eexists _, _, s. split_and!; try done. apply (s_drops_full (geometry_of a)). cbn. lia. }
  pose proof (alloc_raw_placed a s t Hr Ht) as H. destruct (placed _ s (size t) (align t)) as [p|e] eqn:E.
  - destruct (write_fresh _ _ _ _ _ Hr Ht Hv E) as (Hf & a' & a'' & -> & Ew & Hdr & Hgeo & Hr'). cbn [mbind outcome_bind]. rewrite Ew.
    cbn [mbind outcome_bind]. eexists _, _, _.
    split_and!; [done|apply s_alloc_drop; [cbn; lia|done|done]| |done].
    apply (refines_register _ _ (mkDrop p t)) in Hr'; [done|]. injection Hgeo as _ _ _ ->. by rewrite Hdr.
  - rewrite H. cbn [mbind outcome_bind]. eexists _, _, s. split_and!; try done. apply s_alloc_drop_error; [cbn; lia|done].
Qed.

Lemma simulates_slice a s t n : refines a s -> op_ok s (OSlice t n) -> simulates a s (OSlice t n) (step a (OSlice t n)).
Proof.
  intros Hr [Ht Hn]. cbn [step]. unfold alloc_slice. pose proof (rf_ok _ _ Hr) as Ha.
  assert (Hroom : room (geometry_of a) s = capacity a - cursor a) by (unfold room; rewrite (rf_top _ _ Hr); cbn; lia).
  assert (Herr : forall e m, slice_placed (geometry_of a) s t n = Err e -> m = Ret (RPtr (Err e), a) -> simulates a s (OSlice t n) m).
  { intros e m E ->. eexists _, _, s. split_and!; try done. by apply s_slice_error. }
  destruct (layout_ok_spec t Ht) as (Hs0 & _). unfold slice_placed in Herr. rewrite Hroom in Herr.
  destruct (checked_mul USIZE (size t) n) as [bytes|] eqn:Em.
  2: { assert (2 ^ 64 <= size t * n) by (unfold checked_mul in Em; destruct (Z.ltb_spec (size t * n) (2 ^ 64)); [done|lia]).
    rewrite (proj2 (Z.leb_le _ _)) in Herr by done. rewrite exhausted_ok by done. by eapply Herr. }
  apply checked_mul_Some in Em as [-> Hm]. rewrite (proj2 (Z.leb_gt _ _)) in Herr by lia.
  destruct (from_size_align (size t * n) (align t)) as [l|] eqn:El.
  2: { rewrite exhausted_ok by done. by eapply Herr. }
  assert (Hl : layout_ok l).
  { pose proof El as El'. apply from_size_align_Some in El' as (-> & _ & _). split; [cbn; nia|done]. }
  pose proof El as (-> & _ & _)%from_size_align_Some.
  pose proof (alloc_raw_placed a s _ Hr Hl) as H. cbn [size align] in H.
  destruct (placed _ s (size t * n) (align t)) as [p|e] eqn:E; [|rewrite H; by eapply Herr].
  destruct H as (-> & Hb & Hf & Hp). cbn [mbind outcome_bind]. pose proof Hf as (Hf1 & Hf2 & _). cbn in Hf1, Hf2.
  eexists _, _, _. split_and!; [done|apply s_slice; [unfold slice_placed; rewrite (proj2 (Z.leb_gt _ _)) by lia; by rewrite El|done]| |done].
  pose proof (refines_place a s p (size t * n) None (region a) Hr Hb ltac:(nia) Hp Hf2 eq_refl ltac:(done) ltac:(done)) as Hpl.
  by destruct a.
Qed.

(** The whole step. *)
Lemma arena_step a s o : refines a s -> op_ok s o -> simulates a s o (step a o).
Proof.
  intros Hr Ho. destruct o as [t v|t v|t n|p v|p n| |].
  - by apply simulates_alloc.
  - by apply simulates_alloc_drop.
  - by apply simulates_slice.
  - destruct (write_live a s p v Hr Ho) as (a' & E & Hgeo & Hr'). cbn [step]. rewrite E. cbn [mbind outcome_bind].
    eexists _, _, _. split_and!; try done. apply s_write.
  - destruct Ho as (ob & Hin & Hp & Hn). destruct (rf_objs _ _ Hr ob Hin) as (H0 & H1 & H2 & _).
    pose proof (ak_region _ (rf_ok _ _ Hr)). pose proof (ak_cursor _ (rf_ok _ _ Hr)).
    cbn [step]. unfold read_at. rewrite (proj2 (Z.leb_le _ _)) by lia.
    destruct (get_range_is_Some (region a) (p - buffer a) (p - buffer a + n)) as (bs & E); [lia|]. rewrite E.
    cbn [mbind outcome_bind]. eexists _, _, s. split_and!; try done.
    pose proof E as (Hl & _)%get_range_Some; [|lia]. apply s_read; [lia|].
    intros ob' v Hin' Hp' Hn' Hv'. destruct (rf_objs _ _ Hr ob' Hin') as (_ & _ & _ & Hvv).
    destruct (Hvv v Hv') as [Hz Hh]. apply holds_get_range in Hh. rewrite Hp', Hz, Hn' in Hh.
    rewrite Hh in E. by injection E.
  - eexists _, _, _. split_and!; [done|apply s_freeze| |done]. destruct Hr as [[? ? ? ? ? ?] ? ? ? ? ? ?].
    by constructor.
  - destruct (refines_reset a s Hr) as (a' & E & Hgeo & Hr'). cbn [step]. rewrite E.
    eexists _, _, _. split_and!; [done|apply s_reset|done|done].
Qed.

(** ** Executions *)

(** What [std::alloc::alloc] documents of a non-null result. *)
Class GlobalAlloc (galloc : Layout -> option (Z * list byte)) : Prop := galloc_ok l raw m :
  0 <= size l -> 0 < align l -> galloc l = Some (raw, m) ->
  0 < raw /\ raw mod align l = 0 /\ zlen m = size l.

Definition empty_spec : spec := mkSpec [] [] Build Generation.ZERO.

(** The traces of a client that keeps to [op_ok]. *)
Inductive exec (galloc : Layout -> option (Z * list byte)) (b : BumpAllocatorBuilder)
  : list (op * reply) -> BumpAllocator -> spec -> Prop :=
| exec_build a : build galloc b = Ret (Ok a) -> exec galloc b [] a empty_spec
| exec_step tr a s o r a' s' :
    exec galloc b tr a s -> op_ok s o -> step a o = Ret (r, a') ->
    spec_step (geometry_of a) s o r s' -> exec galloc b (tr ++ [(o, r)]) a' s'.

Lemma spec_step_det geo s o r s1 s2 : spec_step geo s o r s1 -> spec_step geo s o r s2 -> s1 = s2.
Proof. destruct 1; inversion 1; subst; done. Qed.

Section exec.
Context (galloc : Layout -> option (Z * list byte)) `{GlobalAlloc galloc} (b : BumpAllocatorBuilder).
Context (Hbytes : 0 <= b_bytes b) (Hslots : 0 <= b_drop_slots b).

Lemma build_refines a : build galloc b = Ret (Ok a) -> refines a empty_spec.
Proof.
  unfold build, from_builder. destruct (Z.eqb_spec (b_bytes b) 0) as [|Hb]; [done|].
  destruct (is_power_of_two (b_alignment b)) eqn:Hp; [|done]. cbn [negb].
  unfold buffer_layout. destruct (from_size_align (b_bytes b) (b_alignment b)) as [l|] eqn:El; [|done]. cbn [ok_or].
  destruct (galloc l) as [[raw m]|] eqn:Ea; [|done]. intros [= <-].
  pose proof El as (-> & (k & Hk & Ek) & Hsz)%from_size_align_Some.
  assert (0 < b_alignment b) by (rewrite Ek; by apply Z.pow_pos_nonneg).
  destruct (galloc_ok (mkLayout (b_bytes b) (b_alignment b)) raw m Hbytes H0 Ea) as (Hr & Hm & Hz). cbn in Hz, Hm.
  constructor; cbn; try done.
  - by intros o ?%not_elem_of_nil.
  - unfold top. cbn. lia.
Qed.

Lemma exec_refines tr a s : exec galloc b tr a s -> refines a s.
Proof.
  induction 1 as [a Hb|tr a s o r a' s' _ IH Ho E Hs]; [by apply build_refines|].
  destruct (arena_step a s o IH Ho) as (r1 & a1 & s1 & E1 & Hs1 & Hr & _). rewrite E in E1.
  injection E1 as <- <-. by rewrite (spec_step_det _ _ _ _ _ _ Hs Hs1).
Qed.
End exec.

(** Destructors registered and called along a trace. *)
Definition registered (tr : list (op * reply)) : list DropEntry :=
  tr ≫= fun e => match e with (OAllocDrop t _, RPtr (Ok p)) => [mkDrop p t] | _ => [] end.
Definition called (tr : list (op * reply)) : list DropEntry :=
  tr ≫= fun e => match e with (_, RDrops calls) => calls | _ => [] end.

Lemma exec_calls galloc b tr a s :
  exec galloc b tr a s -> called tr ++ sp_drops s ≡ₚ registered tr.
Proof.
  induction 1 as [a Hb|tr a s o r a' s' _ IH Ho E Hs]; [done|].
  unfold registered, called in *. rewrite !bind_app. destruct Hs; cbn; rewrite ?app_nil_r; try done;
    rewrite <- IH; try done.
  by rewrite <- Permutation_cons_append, <- (Permutation_middle (called tr) (sp_drops s) (mkDrop p t)).
Qed.

(** *** A concrete arena *)

(** A global allocator that hands out zeroed regions at an aligned address. *)
Definition demo_alloc (l : Layout) : option (Z * list byte) :=
  Some (align l, replicate (Z.to_nat (size l)) x00).

#[global] Instance demo_alloc_ok : GlobalAlloc demo_alloc.
Proof.
  intros l raw m H0 H1 [= <- <-]. split_and!; [done|by rewrite Z.mod_same by lia|].
  unfold zlen. rewrite length_replicate. lia.
Qed.

Definition demo_builder : BumpAllocatorBuilder := with_drop_slots 2 (with_bytes 64 builder_new).
Definition demo_arena : BumpAllocator :=
  mkArena 4096 (replicate 64 x00) 64 4096 0 [] 2 Build 0.
Definition u32_layout : Layout := mkLayout 4 4.

Lemma demo_exec : exec demo_alloc demo_builder [] demo_arena empty_spec.
Proof. apply exec_build. reflexivity. Qed.

(** Two objects, the first with a destructor. *)
Definition demo_trace : list (op * reply) :=
  [(OAllocDrop u32_layout [x01; x02; x03; x04], RPtr (Ok 4096));
   (OAlloc u32_layout [x05; x06; x07; x08], RPtr (Ok 4100))].
Definition demo_full : BumpAllocator :=
  mkArena 4096 ([x01; x02; x03; x04; x05; x06; x07; x08] ++ replicate 56 x00) 64 4096 8
    [mkDrop 4096 u32_layout] 2 Build 0.
Definition demo_spec : spec :=
  mkSpec [mkObj 4100 4 (Some [x05; x06; x07; x08]); mkObj 4096 4 (Some [x01; x02; x03; x04])]
    [mkDrop 4096 u32_layout] Build 0.

Lemma u32_ok : layout_ok u32_layout.
Proof. split; [vm_compute; discriminate|reflexivity]. Qed.

Lemma demo_exec_full : exec demo_alloc demo_builder demo_trace demo_full demo_spec.
Proof.
  apply (exec_step _ _ [(OAllocDrop u32_layout [x01; x02; x03; x04], RPtr (Ok 4096))]
    (mkArena 4096 ([x01; x02; x03; x04] ++ replicate 60 x00) 64 4096 4 [mkDrop 4096 u32_layout] 2 Build 0)
    (mkSpec [mkObj 4096 4 (Some [x01; x02; x03; x04])] [mkDrop 4096 u32_layout] Build 0)).
  - eapply (exec_step _ _ []); [exact demo_exec|by split; [exact u32_ok|]|reflexivity|].
    apply (s_alloc_drop _ empty_spec); [done|reflexivity|]. split_and!; try done. by intros ob ?%not_elem_of_nil.
  - by split; [exact u32_ok|].
  - reflexivity.
  - apply s_alloc; [reflexivity|]. split_and!; try done. intros ob ->%list_elem_of_singleton. by right.
Qed.

(** C31: The bump arena refines an arena of objects laid out one after the
    other.  Whatever a client that keeps to its pointer obligations does next,
    the operation returns (no overflow panics, no out-of-bounds access) and
    answers as the abstract arena does: an allocation goes to the first aligned
    address past the newest live object, inside the region and apart from every
    live object, and is refused exactly when that does not fit, when its
    alignment exceeds the region's, when the destructor registry is full or in
    the frozen phase, with the numbers of the error as documented; a read gives
    back what was last written through that pointer; [reset] runs the pending
    destructors last registered first, leaves no live object, so that the whole
    region is free again, reopens the build phase and bumps the generation; a
    failure changes nothing. *)
Theorem arena_refines_spec (galloc : Layout -> option (Z * list byte)) (b : BumpAllocatorBuilder)
    (tr : list (op * reply)) (a : BumpAllocator) (s : spec) (o : op) :
  GlobalAlloc galloc -> 0 <= b_bytes b -> 0 <= b_drop_slots b ->
  exec galloc b tr a s -> op_ok s o ->
  exists r a' s', step a o = Ret (r, a') /\ spec_step (geometry_of a) s o r s' /\
    exec galloc b (tr ++ [(o, r)]) a' s' /\ geometry_of a' = geometry_of a /\ top (geometry_of a) s' = buffer a + used a'.
Proof.
  intros Hg H0 H1 He Ho. pose proof (exec_refines galloc b H0 H1 tr a s He) as Hr.
  destruct (arena_step a s o Hr Ho) as (r & a' & s' & E & Hs & Hr' & Hgeo). exists r, a', s'.
  split_and!; [done|done|by eapply exec_step|done|]. rewrite <- Hgeo, (rf_top _ _ Hr'). by injection Hgeo as -> _.
Qed.

(** The demo arena holds eight bytes of sixty-four: fifteen words more are
    refused; after a reset they are not. *)
Lemma arena_refines_spec_witness :
  exists r a' s', step demo_full OReset = Ret (r, a') /\
    spec_step (geometry_of demo_full) demo_spec OReset r s' /\ exec demo_alloc demo_builder (demo_trace ++ [(OReset, r)]) a' s' /\
    placed (geometry_of demo_full) demo_spec 60 4 = Err (Exhausted 60 56) /\ placed (geometry_of demo_full) s' 60 4 = Ok 4096.
Proof.
  destruct (arena_refines_spec demo_alloc demo_builder demo_trace demo_full demo_spec OReset)
    as (r & a' & s' & E & Hs & He & _).
  - exact demo_alloc_ok.
  - vm_compute. discriminate.
  - vm_compute. discriminate.
  - exact demo_exec_full.
  - exact I.
  - exists r, a', s'. split_and!; [exact E|exact Hs|exact He|reflexivity|]. inversion Hs. reflexivity.
Defined.

(** Live objects never overlap: any two objects allocated since the last
    reset occupy disjoint parts of the consumed prefix of the region, and every
    initialised one still holds the bytes last written to it. *)
Theorem arena_live_disjoint (galloc : Layout -> option (Z * list byte)) (b : BumpAllocatorBuilder)
    (tr : list (op * reply)) (a : BumpAllocator) (s : spec) (i j : nat) (oi oj : obj) :
  GlobalAlloc galloc -> 0 <= b_bytes b -> 0 <= b_drop_slots b ->
  exec galloc b tr a s -> i <> j -> sp_live s !! i = Some oi -> sp_live s !! j = Some oj ->
  apart (o_ptr oi) (o_size oi) (o_ptr oj) (o_size oj) /\ buffer a <= o_ptr oi /\
  o_ptr oi + o_size oi <= buffer a + used a /\ used a <= capacity a /\
  forall v, o_val oi = Some v -> read_at a (o_ptr oi) (o_size oi) = Ret v.
Proof.
  intros Hg H0 H1 He Hij Ei Ej. pose proof (exec_refines galloc b H0 H1 tr a s He) as Hr.
  destruct (rf_objs _ _ Hr oi) as (_ & Hb & Hc & Hv); [by eapply list_elem_of_lookup_2|].
  split_and!; [|done|done|apply (ak_cursor _ (rf_ok _ _ Hr))|].
  - unfold apart. destruct (Nat.lt_gt_cases i j) as [[Hlt|Hgt] _]; [done|..].
    + right. by eapply (rf_apart _ _ Hr).
    + left. by eapply (rf_apart _ _ Hr).
  - intros v E. destruct (Hv v E) as [Hz Hh]. unfold read_at. rewrite (proj2 (Z.leb_le _ _)) by done.
    apply holds_get_range in Hh. rewrite Hz in Hh. by rewrite Hh.
Qed.

Lemma arena_live_disjoint_witness :
  apart 4100 4 4096 4 /\ buffer demo_full <= 4100 /\ 4100 + 4 <= buffer demo_full + used demo_full /\
  used demo_full <= capacity demo_full /\
  forall v, Some [x05; x06; x07; x08] = Some v -> read_at demo_full 4100 4 = Ret v.
Proof.
  apply (arena_live_disjoint demo_alloc demo_builder demo_trace demo_full demo_spec 0 1
           (mkObj 4100 4 (Some [x05; x06; x07; x08])) (mkObj 4096 4 (Some [x01; x02; x03; x04]))).
  - exact demo_alloc_ok.
  - vm_compute. discriminate.
  - vm_compute. discriminate.
  - exact demo_exec_full.
  - discriminate.
  - reflexivity.
  - reflexivity.
Defined.

(** Every destructor registered by [alloc_with_drop] runs exactly once by
    the time the arena is gone: the calls made by the resets of a trace
    together with those of the final [drop] are a permutation of the
    registrations, the calls of [drop] are the pending ones last registered
    first, and the region is given back with the layout it was allocated
    with. *)
Theorem arena_drops_once (galloc : Layout -> option (Z * list byte)) (b : BumpAllocatorBuilder)
    (tr : list (op * reply)) (a : BumpAllocator) (s : spec) :
  GlobalAlloc galloc -> 0 <= b_bytes b -> 0 <= b_drop_slots b ->
  exec galloc b tr a s ->
  called tr ++ fst (drop a) ≡ₚ registered tr /\ fst (drop a) = rev (drops a) /\
  snd (drop a) = Some (mkLayout (capacity a) (alignment a)).
Proof.
  intros Hg H0 H1 He. pose proof (exec_refines galloc b H0 H1 tr a s He) as Hr.
  unfold drop. rewrite run_drops_spec. cbn. split_and!; [|done|apply (ak_layout _ (rf_ok _ _ Hr))].
  rewrite <- (rf_drops _ _ Hr). by eapply exec_calls.
Qed.

Lemma arena_drops_once_witness :
  called demo_trace ++ fst (drop demo_full) ≡ₚ registered demo_trace /\
  fst (drop demo_full) = rev (drops demo_full) /\
  snd (drop demo_full) = Some (mkLayout (capacity demo_full) (alignment demo_full)).
Proof.
  apply (arena_drops_once demo_alloc demo_builder demo_trace demo_full demo_spec).
  - exact demo_alloc_ok.
  - vm_compute. discriminate.
  - vm_compute. discriminate.
  - exact demo_exec_full.
Defined.

(** The exact outcome of [alloc] on a well-formed arena, branch by branch:
    in the frozen phase [WrongPhase]; for an alignment above the buffer's, and
    for a request that does not fit behind the padded cursor, [Exhausted] with
    the padded request and the remaining bytes; otherwise the value is placed
    at the first aligned offset from the cursor.  A failed call leaves the
    arena as it was. *)
Theorem arena_alloc_exact (a : BumpAllocator) (t : Layout) (v : list byte) :
  arena_ok a -> layout_ok t -> zlen v = size t ->
  match phase a with
  | Frozen => alloc a t v = Ret (Err (WrongPhase Frozen), a)
  | Build =>
      if alignment a <? align t
      then alloc a t v = Ret (Err (Exhausted (size t + align t) (capacity a - cursor a)), a)
      else exists o, fit a t o /\
        if capacity a <? o + size t
        then alloc a t v = Ret (Err (Exhausted (o + size t - cursor a) (capacity a - cursor a)), a)
        else exists a', alloc a t v = Ret (Ok (buffer a + o), a') /\ arena_ok a' /\
               used a' = o + size t /\ read_at a' (buffer a + o) (size t) = Ret v
  end.
Proof.
  intros Ha Ht Hv. unfold alloc.
  destruct (alloc_raw_cases a t Ha Ht) as [(-> & ->)|[(-> & Hlt & ->)|(-> & Hle & o & Hf & E)]]; [done| |].
  { by rewrite (proj2 (Z.ltb_lt _ _)) by done. }
  rewrite (proj2 (Z.ltb_ge _ _)) by done. exists o. split; [done|].
  destruct (Z.ltb_spec (capacity a) (o + size t)); rewrite E; [done|]. cbn [mbind outcome_bind].
  destruct Hf as [Hf _]. pose proof Ha as [Hc Hrg Hl Hbuf Hd Hgen]. destruct (layout_ok_spec t Ht) as (Hs0 & _).
  unfold write_at. cbn [buffer region set_cursor].
  rewrite (proj2 (Z.leb_le _ _)) by lia. rewrite (proj2 (Z.leb_le _ _)) by lia. cbn [andb].
  destruct (copy_at_ok (region a) (buffer a + o - buffer a) v) as (m & -> & Hlm & Hh & _); [lia|lia|].
  cbn [mbind outcome_bind]. eexists. split_and!; [done| |done|].
  - constructor; cbn; try done; lia.
  - unfold read_at. cbn [buffer region set_region set_cursor]. rewrite (proj2 (Z.leb_le _ _)) by lia.
    apply holds_get_range in Hh. rewrite Hv in Hh. by rewrite Hh.
Qed.

Lemma demo_full_ok : arena_ok demo_full.
Proof. constructor; try (vm_compute; (reflexivity || done)). Qed.

Lemma arena_alloc_exact_witness :
  exists o, fit demo_full u32_layout o /\
    exists a', alloc demo_full u32_layout [x09; x09; x09; x09] = Ret (Ok (4096 + o), a') /\ arena_ok a' /\
      used a' = o + 4 /\ read_at a' (4096 + o) 4 = Ret [x09; x09; x09; x09].
Proof.
  destruct (arena_alloc_exact demo_full u32_layout [x09; x09; x09; x09] demo_full_ok u32_ok eq_refl) as (o & Hf & H).
  exists o. split; [exact Hf|]. assert (o = 8) as ->; [|exact H].
  destruct Hf as [Hf Hm]. cbn in Hf, Hm. assert (o = 8 \/ o = 9 \/ o = 10 \/ o = 11) as [-> | [-> | [-> | ->]]] by lia; done.
Defined.
End ArenaThms.
