(* ===== verification/TaskCell.v ===== *)
(** * Task lifecycle state and the task cell

    [Module TaskState] models src/crates/kwokka-runtime/src/task/cell/state.rs:
    the state word with its relocation claim and the operations on them.
    [Module TaskCell] adds the two halves of the cell (the future and its
    output) and the code that moves, writes and drops them: [poll_fn] and
    [drop_in_place_fn] of layout.rs, [poll_task] of lifecycle.rs,
    [take_output_shared] of erased.rs, and [move_out] and [move_out_woken] of
    scheduler/stealing/relocate.rs.  A half that is used when it is not live is
    undefined behaviour. *)

From S2P Require Import Prelude.
From stdpp Require Import base tactics list numbers.

Local Open Scope Z_scope.

Module TaskState.

Inductive t : Type :=
| Sleeping | Woken | Running | Done | Cancelled | Failed | Taken | Retired.

#[global] Instance t_eq_dec : EqDecision t.
Proof. solve_decision. Defined.

Definition is_terminal (self : t) : bool :=
  match self with Cancelled | Failed | Taken | Retired => true | _ => false end.

Definition to_u8 (self : t) : Z :=
  match self with
  | Sleeping => 0 | Woken => 1 | Running => 2 | Done => 3
  | Cancelled => 4 | Failed => 5 | Taken => 6 | Retired => 7
  end.

Definition from_u8 (value : Z) : outcome t :=
  match value with
  | 0 => Ret Sleeping | 1 => Ret Woken | 2 => Ret Running | 3 => Ret Done
  | 4 => Ret Cancelled | 5 => Ret Failed | 6 => Ret Taken | 7 => Ret Retired
  | _ => Panic
  end.

(** The state word and the relocation claim. *)
Record AtomicTaskState : Type := mkAtomic { state : Z; claim : bool }.

Definition new : AtomicTaskState := mkAtomic (to_u8 Sleeping) false.

Definition load (self : AtomicTaskState) : outcome t := from_u8 (state self).

Definition try_claim (self : AtomicTaskState) : bool * AtomicTaskState :=
  if claim self then (false, self) else (true, mkAtomic (state self) true).

Definition release_claim (self : AtomicTaskState) : AtomicTaskState := mkAtomic (state self) false.

(** [compare_exchange] on the state word: the old value on failure. *)
Definition compare_exchange (self : AtomicTaskState) (expected next : t)
    : result Z unit * AtomicTaskState :=
  if state self =? to_u8 expected then (Ok tt, mkAtomic (to_u8 next) (claim self))
  else (Err (state self), self).

(** The weak form may also fail spuriously, on an equal value. *)
Definition compare_exchange_weak (spurious : bool) (self : AtomicTaskState) (expected next : t)
    : result Z unit * AtomicTaskState :=
  if spurious then (Err (state self), self) else compare_exchange self expected next.

Definition retire_from (expected : t) (self : AtomicTaskState)
    : outcome (result t unit * AtomicTaskState) :=
  let '(r, self) := compare_exchange self expected Retired in
  match r with
  | Ok _ => Ret (Ok tt, self)
  | Err current => c ← from_u8 current; Ret (Err c, self)
  end.

Definition try_retire : AtomicTaskState -> outcome (result t unit * AtomicTaskState) := retire_from Sleeping.
Definition try_retire_woken : AtomicTaskState -> outcome (result t unit * AtomicTaskState) := retire_from Woken.

(** One turn of the loop of [transition]; [None] goes around again. *)
Definition transition_turn (spurious : bool) (self : AtomicTaskState) (expected next : t)
    : outcome (option (result t unit) * AtomicTaskState) :=
  let '(r, self) := compare_exchange_weak spurious self expected next in
  match r with
  | Ok _ => Ret (Some (Ok tt), self)
  | Err current_raw =>
      current ← from_u8 current_raw;
      if is_terminal current || negb (bool_decide (current = expected))
      then Ret (Some (Err current), self) else Ret (None, self)
  end.

(** [transition] run with nothing interleaved: [spurious] lists which turns
    fail spuriously, after which a turn decides. *)
Fixpoint transition_loop (spurious : list bool) (self : AtomicTaskState) (expected next : t)
    : outcome (result t unit * AtomicTaskState) :=
  '(r, self) ← transition_turn (match spurious with b :: _ => b | [] => false end) self expected next;
  match r, spurious with
  | Some r, _ => Ret (r, self)
  | None, _ :: spurious => transition_loop spurious self expected next
  | None, [] => OutOfFuel
  end.

Definition transition (spurious : list bool) (self : AtomicTaskState) (expected next : t)
    : outcome (result t unit * AtomicTaskState) :=
  if is_terminal expected then c ← load self; Ret (Err c, self)
  else transition_loop spurious self expected next.

Definition wake spurious self := transition spurious self Sleeping Woken.
Definition try_start_poll spurious self := transition spurious self Woken Running.
Definition complete spurious self := transition spurious self Running Done.
Definition suspend spurious self := transition spurious self Running Sleeping.

(** The states [cancel] moves out of; [Done] counts as settled here. *)
Definition cancellable (self : t) : bool :=
  match self with Sleeping | Woken | Running => true | _ => false end.

(** [cancel] run with nothing interleaved, [fuel] turns of its loop. *)
Fixpoint cancel (fuel : nat) (spurious : list bool) (self : AtomicTaskState)
    : outcome (bool * AtomicTaskState) :=
  match fuel with
  | O => OutOfFuel
  | S fuel =>
      current ← load self;
      if cancellable current then
        '(r, self) ← transition spurious self current Cancelled;
        match r with
        | Ok _ => Ret (true, self)
        | Err _ => cancel fuel spurious self
        end
      else Ret (false, self)
  end.

(** ** Sequential behaviour *)

Lemma from_to s : from_u8 (to_u8 s) = Ret s.
Proof. by destruct s. Qed.

Lemma to_u8_inj s s' : to_u8 s = to_u8 s' -> s = s'.
Proof. by destruct s, s'. Qed.

Lemma to_u8_eqb s s' : (to_u8 s =? to_u8 s') = bool_decide (s = s').
Proof. by destruct s, s'. Qed.

Lemma transition_loop_spec spurious s c e n :
  is_terminal e = false ->
  transition_loop spurious (mkAtomic (to_u8 s) c) e n =
  Ret (if bool_decide (s = e) then (Ok tt, mkAtomic (to_u8 n) c) else (Err s, mkAtomic (to_u8 s) c)).
Proof.
  intros He. induction spurious as [|b spurious IH]; cbn [transition_loop];
    unfold transition_turn, compare_exchange_weak, compare_exchange; cbn [state claim]; rewrite to_u8_eqb.
  - case_bool_decide as E; [done|]. rewrite from_to. cbn. rewrite bool_decide_eq_false_2 by done.
    by rewrite orb_true_r.
  - destruct b; [|case_bool_decide as E; [done|]]; rewrite from_to; cbn [mbind outcome_bind].
    + case_bool_decide as E; [|by rewrite orb_true_r]. subst e. rewrite He. cbn. exact IH.
    + rewrite bool_decide_eq_false_2 by done. by rewrite orb_true_r.
Qed.

Lemma transition_spec spurious s c e n :
  transition spurious (mkAtomic (to_u8 s) c) e n =
  Ret (if bool_decide (s = e) && negb (is_terminal e) then (Ok tt, mkAtomic (to_u8 n) c)
       else (Err s, mkAtomic (to_u8 s) c)).
Proof.
  unfold transition. destruct (is_terminal e) eqn:He; [|rewrite andb_true_r; by apply transition_loop_spec].
  unfold load. cbn [state]. rewrite from_to. cbn. by rewrite andb_false_r.
Qed.

Lemma cell_cancel_spec fuel spurious s c :
  (0 < fuel)%nat ->
  cancel fuel spurious (mkAtomic (to_u8 s) c) =
  Ret (if cancellable s then (true, mkAtomic (to_u8 Cancelled) c) else (false, mkAtomic (to_u8 s) c)).
Proof.
  intros Hf. destruct fuel as [|fuel]; [lia|]. cbn [cancel]. unfold load. cbn [state]. rewrite from_to. cbn [mbind outcome_bind].
  destruct (cancellable s) eqn:Ec; [|done]. rewrite transition_spec, bool_decide_eq_true_2 by done. by destruct s.
Qed.
End TaskState.

Module TaskCell.
Import TaskState.

(** Whether a half of the cell is initialised. *)
Inductive half : Type := Uninit | Live | Gone.

#[global] Instance half_eq_dec : EqDecision half.
Proof. solve_decision. Defined.

(** The slot as the protocols see it. *)
Record cell : Type := mkCell { st : AtomicTaskState; future : half; output : half }.

Definition new_cell : cell := mkCell TaskState.new Live Uninit.

Definition set_st (s : AtomicTaskState) (c : cell) : cell := mkCell s (future c) (output c).

(** [poll_fn]: polls a live future; on [Ready] writes the output and drops
    the future. *)
Definition poll_fn (ready : bool) (c : cell) : outcome (bool * cell) :=
  match future c with
  | Live =>
      if ready then Ret (true, mkCell (st c) Gone Live) else Ret (false, c)
  | _ => Undefined
  end.

(** [ptr::drop_in_place] of a half. *)
Definition drop_future (c : cell) : outcome cell :=
  match future c with Live => Ret (mkCell (st c) Gone (output c)) | _ => Undefined end.
Definition drop_output (c : cell) : outcome cell :=
  match output c with Live => Ret (mkCell (st c) (future c) Gone) | _ => Undefined end.

Definition drop_in_place_fn (c : cell) : outcome cell :=
  state ← load (st c);
  match state with
  | Sleeping | Woken | Running | Cancelled => drop_future c
  | Done => drop_output c
  | Failed | Taken | Retired => Ret c
  end.

(** The read of the output after [Done -> Taken]. *)
Definition read_output (c : cell) : outcome cell :=
  match output c with Live => Ret (mkCell (st c) (future c) Gone) | _ => Undefined end.

(** [copy_cell]: the future leaves for the thief's slab. *)
Definition copy_cell (c : cell) : outcome cell :=
  match future c with Live => Ret (mkCell (st c) Gone (output c)) | _ => Undefined end.

Inductive PollOutcome : Type :=
| Completed
| Suspended
| Rescheduled
| Skipped (observed : TaskState.t).

#[global] Instance PollOutcome_eq_dec : EqDecision PollOutcome.
Proof. solve_decision. Defined.

(** [poll_task] run with nothing interleaved. *)
Definition poll_task (ready : bool) (c : cell) : outcome (PollOutcome * cell) :=
  '(r, s) ← try_start_poll [] (st c);
  let c := set_st s c in
  match r with
  | Err observed => Ret (Skipped observed, c)
  | Ok _ =>
      '(is_ready, c) ← poll_fn ready c;
      if is_ready : bool then
        '(_, s) ← complete [] (st c);
        Ret (Completed, set_st s c)
      else
        '(r, s) ← suspend [] (st c);
        match r with
        | Err Woken => Ret (Rescheduled, set_st s c)
        | _ => Ret (Suspended, set_st s c)
        end
  end.

Definition take_output_shared (c : cell) : outcome cell :=
  '(r, s) ← transition [] (st c) Done Taken;
  match r with
  | Ok _ => read_output (set_st s c)
  | Err _ => Panic
  end.

(** [move_out] ([Sleeping]) and [move_out_woken] ([Woken]); [stealable] is the
    gate on in-flight operations, linked children and pinning.  [true] when
    the body left. *)
Definition move_out_from (retire : AtomicTaskState -> outcome (result TaskState.t unit * AtomicTaskState))
    (stealable : bool) (c : cell) : outcome (bool * cell) :=
  let '(claimed, s) := try_claim (st c) in
  if negb claimed then Ret (false, c) else
  if negb stealable then Ret (false, set_st (release_claim s) c) else
  '(r, s) ← retire s;
  match r with
  | Err _ => Ret (false, set_st (release_claim s) c)
  | Ok _ => c ← copy_cell (set_st s c); Ret (true, c)
  end.

Definition move_out : bool -> cell -> outcome (bool * cell) := move_out_from try_retire.
Definition move_out_woken : bool -> cell -> outcome (bool * cell) := move_out_from try_retire_woken.
End TaskCell.
