(* ===== verification/TaskProto.v ===== *)
(** * Concurrent protocol over one task cell

    Threads run the operations of the runtime on a shared cell, one atomic
    access of the state word or of the claim per step: wakers ([wake]), pollers
    ([poll_task]), cancellers ([cancel]), thieves ([move_out] and
    [move_out_woken]) and the joiner ([join_child] of worker/poll/frame.rs with
    [take_output_shared]).  Steps of different threads interleave freely and
    the weak compare-exchange may fail spuriously.  Each atomic is one
    location, accessed in a single total order. *)

From S2P Require Import Prelude TaskCell.
From stdpp Require Import base tactics list numbers.

Local Open Scope Z_scope.

Module TaskProto.
Import TaskState TaskCell.

(** The call of [transition] a thread is in, by its caller. *)
Inductive caller : Type :=
| KWake | KStart | KComplete | KSuspend | KTake
| KCancel (current : t).

Definition src (k : caller) : t :=
  match k with
  | KWake => Sleeping | KStart => Woken | KComplete | KSuspend => Running | KTake => Done
  | KCancel s => s
  end.
Definition dst (k : caller) : t :=
  match k with
  | KWake => Woken | KStart => Running | KComplete => Done | KSuspend => Sleeping | KTake => Taken
  | KCancel _ => Cancelled
  end.

(** Where a thread is between two atomic accesses. *)
Inductive thread : Type :=
| Idle
| Trans (k : caller)
| CancelLoad
| Polling
| Claim (woken stealable : bool)
| Gate (woken stealable : bool)
| Retire (woken : bool)
| Copy
| Release
| JoinLoad
| TakeRead.

Inductive op : Type := OWake | OPoll | OCancel | OSteal (woken stealable : bool) | OJoin.

(** A call, the next atomic access, or the poll of the future. *)
Inductive act : Type :=
| ACall (o : op)
| ATurn (spurious : bool)
| APoll (ready : bool).

Definition call (o : op) : thread :=
  match o with
  | OWake => Trans KWake
  | OPoll => Trans KStart
  | OCancel => CancelLoad
  | OSteal w g => Claim w g
  | OJoin => JoinLoad
  end.

(** Where [transition] returns to. *)
Definition after_ok (k : caller) : thread :=
  match k with KStart => Polling | KTake => TakeRead | _ => Idle end.
Definition after_err (k : caller) : outcome thread :=
  match k with KCancel _ => Ret CancelLoad | KTake => Panic | _ => Ret Idle end.

(** One turn of the loop of [transition]. *)
Definition transition_step (k : caller) (spurious : bool) (c : cell) : outcome (cell * thread) :=
  '(r, s) ← transition_turn spurious (st c) (src k) (dst k);
  let c := set_st s c in
  match r with
  | None => Ret (c, Trans k)
  | Some (Ok _) => Ret (c, after_ok k)
  | Some (Err _) => t ← after_err k; Ret (c, t)
  end.

(** The load at the head of the loop of [cancel]. *)
Definition cancel_step (c : cell) : outcome (cell * thread) :=
  current ← load (st c);
  Ret (c, if cancellable current then Trans (KCancel current) else Idle).

(** [poll_task] between [try_start_poll] and [complete] or [suspend]. *)
Definition poll_step (ready : bool) (c : cell) : outcome (cell * thread) :=
  '(is_ready, c) ← poll_fn ready c;
  Ret (c, if is_ready : bool then Trans KComplete else Trans KSuspend).

(** [move_out] and [move_out_woken]: the claim, the steal gate, the retirement,
    the copy of the body; the claim is given back where the slot stays. *)
Definition steal_step (c : cell) (t : thread) : option (outcome (cell * thread)) :=
  match t with
  | Claim w g =>
      let '(claimed, s) := try_claim (st c) in
      Some (Ret (set_st s c, if claimed then Gate w g else Idle))
  | Gate w g => Some (Ret (c, if g then Retire w else Release))
  | Retire w => Some (
      '(r, s) ← (if w then try_retire_woken else try_retire) (st c);
      Ret (set_st s c, match r with Ok _ => Copy | Err _ => Release end))
  | Copy => Some (c ← copy_cell c; Ret (c, Idle))
  | Release => Some (Ret (set_st (release_claim (st c)) c, Idle))
  | _ => None
  end.

(** [join_child]: the load it branches on; [take_output_shared] of a done
    child goes through [transition]. *)
Definition join_step (c : cell) : outcome (cell * thread) :=
  current ← load (st c);
  match current with
  | Done => Ret (c, Trans KTake)
  | Retired => Panic
  | _ => Ret (c, Idle)
  end.

(** One step of one thread; [None] when the action is not the thread's next. *)
Definition tstep (c : cell) (t : thread) (a : act) : option (outcome (cell * thread)) :=
  match t, a with
  | Idle, ACall o => Some (Ret (c, call o))
  | Trans k, ATurn spurious => Some (transition_step k spurious c)
  | CancelLoad, ATurn _ => Some (cancel_step c)
  | Polling, APoll ready => Some (poll_step ready c)
  | Claim _ _, ATurn _ | Gate _ _, ATurn _ | Retire _, ATurn _ | Copy, ATurn _ | Release, ATurn _ => steal_step c t
  | JoinLoad, ATurn _ => Some (join_step c)
  | TakeRead, ATurn _ => Some (c ← read_output c; Ret (c, Idle))
  | _, _ => None
  end.

Record config : Type := mkConfig { cl : cell; threads : list thread }.

Section machine.
(** Whether the task has a join handle.  Thread 0 is its holder, the only
    joiner, and a task with a handle is pinned, hence never stealable. *)
Context (joinable : bool).

Definition call_ok (i : nat) (a : act) : Prop :=
  match a with
  | ACall OJoin => i = 0%nat /\ joinable = true
  | ACall (OSteal _ true) => joinable = false
  | _ => True
  end.

(** Committed changes of the state word. *)
Definition commits (a b : Z) : list (Z * Z) := if a =? b then [] else [(a, b)].

Inductive reach (n : nat) : config -> list (Z * Z) -> Prop :=
| reach_new : reach n (mkConfig new_cell (replicate n Idle)) []
| reach_step cfg h i t a c' t' :
    reach n cfg h -> threads cfg !! i = Some t -> call_ok i a ->
    tstep (cl cfg) t a = Some (Ret (c', t')) ->
    reach n (mkConfig c' (<[i := t']> (threads cfg)))
      (h ++ commits (state (st (cl cfg))) (state (st c'))).

(** ** Invariant *)

Definition polls (t : thread) : Prop :=
  match t with Polling | Trans KComplete | Trans KSuspend => True | _ => False end.
Definition holder (t : thread) : Prop :=
  match t with Gate _ _ | Retire _ | Copy | Release => True | _ => False end.
Definition joins (t : thread) : Prop :=
  match t with JoinLoad | Trans KTake | TakeRead => True | _ => False end.
Definition steals (t : thread) : Prop :=
  match t with Claim _ true | Gate _ true | Retire _ | Copy => True | _ => False end.

(** What a thread's position says of the cell. *)
Definition thread_ok (c : cell) (s : t) (i : nat) (t : thread) : Prop :=
  match t with
  | Trans (KCancel e) => cancellable e = true
  | Polling | Trans KSuspend => (s = Running \/ s = Cancelled) /\ future c = Live /\ output c = Uninit
  | Trans KComplete => (s = Running \/ s = Cancelled) /\ future c = Gone /\ output c = Live
  | Trans KTake => s = Done /\ i = 0%nat
  | TakeRead => s = Taken /\ output c = Live /\ i = 0%nat
  | JoinLoad => i = 0%nat
  | Copy => s = Retired /\ future c = Live
  | _ => True
  end.

(** What the state says of the halves when no thread is in between. *)
Definition halves_ok (c : cell) (ts : list thread) (s : t) : Prop :=
  match s with
  | Sleeping | Woken => future c = Live /\ output c = Uninit
  | Running => exists i t, ts !! i = Some t /\ polls t
  | Done => future c = Gone /\ output c = Live
  | Cancelled => (future c = Live /\ output c = Uninit) \/ (future c = Gone /\ output c = Live)
  | Taken => future c = Gone /\ (output c = Gone \/ exists i, ts !! i = Some TakeRead)
  | Retired => output c = Uninit /\ (future c = Gone \/ exists i, ts !! i = Some Copy)
  | Failed => False
  end.

Record inv (cfg : config) (s : t) : Prop := {
  i_state : state (st (cl cfg)) = to_u8 s;
  i_threads i t : threads cfg !! i = Some t -> thread_ok (cl cfg) s i t;
  i_halves : halves_ok (cl cfg) (threads cfg) s;
  i_poll i j t u : threads cfg !! i = Some t -> threads cfg !! j = Some u -> polls t -> polls u -> i = j;
  i_claim i t : threads cfg !! i = Some t -> holder t -> claim (st (cl cfg)) = true;
  i_holder i j t u : threads cfg !! i = Some t -> threads cfg !! j = Some u -> holder t -> holder u -> i = j;
  i_join i t : threads cfg !! i = Some t -> joins t -> joinable = true;
  i_steal i t : threads cfg !! i = Some t -> steals t -> joinable = false;
  i_pinned : s = Retired -> joinable = false;
}.

Lemma lookup_upd (ts : list thread) i t' j u :
  <[i := t']> ts !! j = Some u -> (j = i /\ u = t') \/ (j <> i /\ ts !! j = Some u).
Proof. intros H. apply list_lookup_insert_Some in H as [(-> & -> & _)|[? ?]]; auto. Qed.

Section update.
Context (cfg : config) (s : t) (i : nat) (t : thread) (Hinv : inv cfg s) (Ht : threads cfg !! i = Some t).

(** Re-establishing the invariant after a step of thread [i]. *)
Lemma cell_inv_update c' t' s' :
  state (st c') = to_u8 s' ->
  thread_ok c' s' i t' ->
  (forall j u, j <> i -> threads cfg !! j = Some u -> thread_ok (cl cfg) s j u -> thread_ok c' s' j u) ->
  halves_ok c' (<[i := t']> (threads cfg)) s' ->
  (polls t' -> polls t \/ forall j u, j <> i -> threads cfg !! j = Some u -> ~ polls u) ->
  (holder t' -> claim (st c') = true /\ (holder t \/ claim (st (cl cfg)) = false)) ->
  (claim (st c') = claim (st (cl cfg)) \/ claim (st c') = true \/ holder t) ->
  (joins t' -> joinable = true) -> (steals t' -> joinable = false) -> (s' = Retired -> joinable = false) ->
  inv (mkConfig c' (<[i := t']> (threads cfg))) s'.
Proof.
  intros Hst Hok Hoth Hh Hp Hho Hcl Hj Hs Hr. destruct Hinv as [I1 I2 I3 I4 I5 I6 I7 I8 I9].
  constructor; cbn [cl threads]; try done.
  - intros j u [[-> ->]|[Hne E]]%lookup_upd; [done|]. apply Hoth; auto.
  - intros j k u v [[-> ->]|[Hj' Ej]]%lookup_upd [[-> ->]|[Hk' Ek]]%lookup_upd Pu Pv; [done|..].
    + destruct (Hp Pu) as [Pt|Hno]; [by rewrite (I4 _ _ _ _ Ht Ek Pt Pv)|by destruct (Hno k v)].
    + destruct (Hp Pv) as [Pt|Hno]; [by rewrite (I4 _ _ _ _ Ej Ht Pu Pt)|by destruct (Hno j u)].
    + by eapply I4.
  - intros j u [[-> ->]|[Hj' Ej]]%lookup_upd Hu; [by apply Hho|].
    destruct Hcl as [->|[->|Htt]]; [by eapply I5|done|]. destruct (Hj' (I6 _ _ _ _ Ej Ht Hu Htt)).
  - intros j k u v [[-> ->]|[Hj' Ej]]%lookup_upd [[-> ->]|[Hk' Ek]]%lookup_upd Hu Hv; [done|..].
    + destruct (Hho Hu) as [_ [Htt|Hc]]; [by rewrite (I6 _ _ _ _ Ht Ek Htt Hv)|by rewrite (I5 _ _ Ek Hv) in Hc].
    + destruct (Hho Hv) as [_ [Htt|Hc]]; [by rewrite (I6 _ _ _ _ Ej Ht Hu Htt)|by rewrite (I5 _ _ Ej Hu) in Hc].
    + by eapply I6.
  - intros j u [[-> ->]|[Hj' Ej]]%lookup_upd Hu; [auto|by eapply I7].
  - intros j u [[-> ->]|[Hj' Ej]]%lookup_upd Hu; [auto|by eapply I8].
Qed.

Lemma Hi_lt : (i < length (threads cfg))%nat.
Proof. by eapply lookup_lt_Some. Qed.

(** The halves survive when the thread was not the one in between. *)
Lemma halves_keep t' :
  (polls t -> polls t') -> t <> TakeRead -> t <> Copy ->
  halves_ok (cl cfg) (threads cfg) s -> halves_ok (cl cfg) (<[i := t']> (threads cfg)) s.
Proof.
  intros Hp Htr Hco Hh. unfold halves_ok in *. destruct s; try done.
  - destruct Hh as (j & u & Ej & Pu). destruct (decide (j = i)) as [->|Hne].
    + exists i, t'. rewrite list_lookup_insert_eq by apply Hi_lt. rewrite Ht in Ej. injection Ej as ->. auto.
    + exists j, u. by rewrite list_lookup_insert_ne.
  - destruct Hh as [Hf [Ho|(j & Ej)]]; split; auto. right. exists j.
    destruct (decide (j = i)) as [->|Hne]; [congruence|by rewrite list_lookup_insert_ne].
  - destruct Hh as [Hf [Ho|(j & Ej)]]; split; auto. right. exists j.
    destruct (decide (j = i)) as [->|Hne]; [congruence|by rewrite list_lookup_insert_ne].
Qed.

(** A step that leaves the cell alone. *)
Lemma inv_quiet t' :
  thread_ok (cl cfg) s i t' -> (polls t -> polls t') -> t <> TakeRead -> t <> Copy ->
  (polls t' -> polls t) -> (holder t' -> holder t) ->
  (joins t' -> joinable = true) -> (steals t' -> joinable = false) ->
  inv (mkConfig (cl cfg) (<[i := t']> (threads cfg))) s.
Proof.
  intros Hok Hp Htr Hco Hp' Hh Hj Hs. pose proof Hinv as [I1 I2 I3 I4 I5 I6 I7 I8 I9]. apply cell_inv_update; auto.
  - by apply halves_keep.
  - intros Hh'. split; [by eapply I5; [exact Ht|apply Hh]|auto].
Qed.

Lemma turn_cases sp e n :
  (transition_turn sp (st (cl cfg)) e n = Ret (None, st (cl cfg)) /\ s = e) \/
  (transition_turn sp (st (cl cfg)) e n = Ret (Some (Ok tt), mkAtomic (to_u8 n) (claim (st (cl cfg)))) /\ s = e) \/
  (transition_turn sp (st (cl cfg)) e n = Ret (Some (Err s), st (cl cfg)) /\ (is_terminal s = true \/ s <> e)).
Proof.
  pose proof (i_state _ _ Hinv) as Hst. unfold transition_turn, compare_exchange_weak, compare_exchange.
  assert (Hf : from_u8 (state (st (cl cfg))) = Ret s) by (rewrite Hst; apply from_to).
  destruct sp.
  - rewrite Hf. cbn. destruct (is_terminal s) eqn:Et; [by right; right; auto|].
    case_bool_decide; cbn; [by left|right; right; auto].
  - rewrite Hst, to_u8_eqb. case_bool_decide; [by right; left|]. rewrite from_to. cbn.
    rewrite bool_decide_eq_false_2, orb_true_r by done. right; right; auto.
Qed.

Lemma cell_eta c : set_st (st c) c = c.
Proof. by destruct c. Qed.

(** No other thread polls while this one does. *)
Lemma others_quiet j u : polls t -> j <> i -> threads cfg !! j = Some u -> ~ polls u.
Proof. intros Pt Hne Ej Pu. apply Hne. by eapply (i_poll _ _ Hinv). Qed.

(** Outside [Running] and [Cancelled] nobody polls. *)
Lemma nobody_polls j u : s <> Running -> s <> Cancelled -> threads cfg !! j = Some u -> ~ polls u.
Proof.
  intros Hr Hcn Ej Pu. pose proof (i_threads _ _ Hinv _ _ Ej) as Hok.
  destruct u as [| []| | | | | | | | | ]; try done; cbn in Hok; destruct Hok as [[?|?] _]; done.
Qed.
End update.

(** Closes [thread_ok] goals of the other threads. *)
Ltac other_threads :=
  intros;
  match goal with u : thread |- _ => destruct u as [| []| | | | | | | | | ] end;
  repeat match goal with
  | H : thread_ok _ _ _ _ |- _ => cbn in H
  | H : ~ polls _ |- _ => cbn in H
  end; cbn; try done; intuition congruence.

(** The committed edges of the lifecycle. *)
Definition edge (s s' : t) : bool :=
  match s, s' with
  | Sleeping, Woken | Woken, Running | Running, Sleeping | Running, Done | Done, Taken => true
  | (Sleeping | Woken | Running), Cancelled => true
  | (Sleeping | Woken), Retired => true
  | _, _ => false
  end.

Section commit.
Context (cfg : config) (s : t) (i : nat) (Hinv : inv cfg s).
Local Abbreviation ts := (threads cfg).
Local Abbreviation committed := (fun n => set_st (mkAtomic (to_u8 n) (claim (st (cl cfg)))) (cl cfg)).

Lemma commit_wake : ts !! i = Some (Trans KWake) -> s = Sleeping ->
  inv (mkConfig (committed Woken) (<[i := Idle]> ts)) Woken.
Proof.
  intros Ht ->. pose proof Hinv as [I1 I2 I3 I4 I5 I6 I7 I8 I9].
  apply (cell_inv_update cfg Sleeping i (Trans KWake)); cbn; auto; try done. other_threads.
Qed.

Lemma commit_start : ts !! i = Some (Trans KStart) -> s = Woken ->
  inv (mkConfig (committed Running) (<[i := Polling]> ts)) Running.
Proof.
  intros Ht ->. pose proof Hinv as [I1 I2 I3 I4 I5 I6 I7 I8 I9]. pose proof (Hi_lt _ _ _ Ht).
  apply (cell_inv_update cfg Woken i (Trans KStart)); cbn; auto; try done.
  - other_threads.
  - exists i, Polling. by rewrite list_lookup_insert_eq.
  - right. intros j u _ Ej. by eapply nobody_polls.
Qed.

Lemma commit_complete : ts !! i = Some (Trans KComplete) -> s = Running ->
  inv (mkConfig (committed Done) (<[i := Idle]> ts)) Done.
Proof.
  intros Ht ->. pose proof Hinv as [I1 I2 I3 I4 I5 I6 I7 I8 I9]. destruct (I2 _ _ Ht) as (_ & Hf & Ho).
  apply (cell_inv_update cfg Running i (Trans KComplete)); cbn; auto; try done.
  intros j u Hne Ej. pose proof (others_quiet cfg Running i _ Hinv Ht j u I Hne Ej). other_threads.
Qed.

Lemma commit_suspend : ts !! i = Some (Trans KSuspend) -> s = Running ->
  inv (mkConfig (committed Sleeping) (<[i := Idle]> ts)) Sleeping.
Proof.
  intros Ht ->. pose proof Hinv as [I1 I2 I3 I4 I5 I6 I7 I8 I9]. destruct (I2 _ _ Ht) as (_ & Hf & Ho).
  apply (cell_inv_update cfg Running i (Trans KSuspend)); cbn; auto; try done.
  intros j u Hne Ej. pose proof (others_quiet cfg Running i _ Hinv Ht j u I Hne Ej). other_threads.
Qed.

Lemma commit_take : ts !! i = Some (Trans KTake) -> s = Done ->
  inv (mkConfig (committed Taken) (<[i := TakeRead]> ts)) Taken.
Proof.
  intros Ht ->. pose proof Hinv as [I1 I2 I3 I4 I5 I6 I7 I8 I9]. destruct (I2 _ _ Ht) as [_ Hi].
  destruct I3 as [Hf Ho]. pose proof (Hi_lt _ _ _ Ht).
  apply (cell_inv_update cfg Done i (Trans KTake)); cbn; auto; try done.
  - other_threads.
  - split; [done|]. right. exists i. by rewrite list_lookup_insert_eq.
  - intros _. by eapply I7.
Qed.

Lemma commit_cancel : ts !! i = Some (Trans (KCancel s)) ->
  inv (mkConfig (committed Cancelled) (<[i := Idle]> ts)) Cancelled.
Proof.
  intros Ht. pose proof Hinv as [I1 I2 I3 I4 I5 I6 I7 I8 I9]. pose proof (I2 _ _ Ht) as Hc. cbn in Hc.
  apply (cell_inv_update cfg s i (Trans (KCancel s))); cbn; auto; try done.
  - intros. destruct s; try done; other_threads.
  - destruct s; try done; cbn in I3; [by left|by left|]. destruct I3 as (j & u & Ej & Pu).
    pose proof (I2 _ _ Ej) as Hu. destruct u as [| []| | | | | | | | | ]; try done; cbn in Hu; intuition.
Qed.

Lemma commit_retire w e : ts !! i = Some (Retire w) -> s = e -> e = Sleeping \/ e = Woken ->
  inv (mkConfig (committed Retired) (<[i := Copy]> ts)) Retired.
Proof.
  intros Ht -> He. pose proof Hinv as [I1 I2 I3 I4 I5 I6 I7 I8 I9]. pose proof (Hi_lt _ _ _ Ht).
  assert (Hh : future (cl cfg) = Live /\ output (cl cfg) = Uninit) by (by destruct He; subst e).
  pose proof (I5 _ _ Ht I). pose proof (I8 _ _ Ht I).
  apply (cell_inv_update cfg e i (Retire w)); cbn; auto; try done.
  - split; [done|]. apply Hh.
  - intros. destruct He; subst e; other_threads.
  - split; [apply Hh|]. right. exists i. by rewrite list_lookup_insert_eq.
Qed.

(** The steps that change a half or the claim. *)
Lemma step_poll ready c' r : ts !! i = Some Polling -> poll_fn ready (cl cfg) = Ret (r, c') ->
  inv (mkConfig c' (<[i := if r : bool then Trans KComplete else Trans KSuspend]> ts)) s.
Proof.
  intros Ht E. pose proof Hinv as [I1 I2 I3 I4 I5 I6 I7 I8 I9]. destruct (I2 _ _ Ht) as (Hs & Hf & Ho).
  pose proof (Hi_lt _ _ _ Ht). unfold poll_fn in E. rewrite Hf in E. destruct ready; injection E as <- <-.
  - apply (cell_inv_update cfg s i Polling); cbn; auto; try done.
    + intros j u Hne Ej. pose proof (others_quiet cfg s i _ Hinv Ht j u I Hne Ej). destruct Hs; subst s; other_threads.
    + destruct Hs; subst s; cbn; [|by right]. exists i, (Trans KComplete). by rewrite list_lookup_insert_eq.
  - apply (inv_quiet cfg s i Polling); done.
Qed.

Lemma step_copy c' : ts !! i = Some Copy -> copy_cell (cl cfg) = Ret c' -> inv (mkConfig c' (<[i := Idle]> ts)) s.
Proof.
  intros Ht E. pose proof Hinv as [I1 I2 I3 I4 I5 I6 I7 I8 I9]. destruct (I2 _ _ Ht) as (-> & Hf).
  unfold copy_cell in E. rewrite Hf in E. injection E as <-.
  apply (cell_inv_update cfg Retired i Copy); cbn; auto; try done.
  - intros j u Hne Ej. assert (u <> Copy) by (intros ->; apply Hne; by eapply I6). other_threads.
  - split; [apply I3|by left].
Qed.

Lemma step_take c' : ts !! i = Some TakeRead -> read_output (cl cfg) = Ret c' -> inv (mkConfig c' (<[i := Idle]> ts)) s.
Proof.
  intros Ht E. pose proof Hinv as [I1 I2 I3 I4 I5 I6 I7 I8 I9]. destruct (I2 _ _ Ht) as (-> & Ho & Hi).
  unfold read_output in E. rewrite Ho in E. injection E as <-.
  apply (cell_inv_update cfg Taken i TakeRead); cbn; auto; try done.
  - other_threads.
  - split; [apply I3|by left].
Qed.

Lemma step_claim w g : ts !! i = Some (Claim w g) -> claim (st (cl cfg)) = false ->
  inv (mkConfig (set_st (mkAtomic (state (st (cl cfg))) true) (cl cfg)) (<[i := Gate w g]> ts)) s.
Proof.
  intros Ht E. pose proof Hinv as [I1 I2 I3 I4 I5 I6 I7 I8 I9].
  apply (cell_inv_update cfg s i (Claim w g)); cbn; auto; try done; [by apply (halves_keep cfg s i (Claim w g))|].
  intros Hg. by apply (I8 _ _ Ht).
Qed.

Lemma step_release : ts !! i = Some Release ->
  inv (mkConfig (set_st (release_claim (st (cl cfg))) (cl cfg)) (<[i := Idle]> ts)) s.
Proof.
  intros Ht. pose proof Hinv as [I1 I2 I3 I4 I5 I6 I7 I8 I9].
  apply (cell_inv_update cfg s i Release); cbn; auto; try done. by apply (halves_keep cfg s i Release).
Qed.
End commit.

(** What one step yields: a value, the invariant, and a state word that is
    unchanged or moved along an edge of the lifecycle. *)
Definition advances (cfg : config) (s : t) (i : nat) (m : outcome (cell * thread)) : Prop :=
  exists c' t' s', m = Ret (c', t') /\ inv (mkConfig c' (<[i := t']> (threads cfg))) s' /\
    (s' = s \/ edge s s' = true).

Lemma advances_trans cfg s i k sp :
  inv cfg s -> threads cfg !! i = Some (Trans k) ->
  advances cfg s i (
    '(r, a) ← transition_turn sp (st (cl cfg)) (src k) (dst k);
    match r with
    | None => Ret (set_st a (cl cfg), Trans k)
    | Some (Ok _) => Ret (set_st a (cl cfg), after_ok k)
    | Some (Err _) => t ← after_err k; Ret (set_st a (cl cfg), t)
    end).
Proof.
  intros Hinv Ht. pose proof Hinv as [I1 I2 I3 I4 I5 I6 I7 I8 I9]. pose proof (I2 _ _ Ht) as Hok.
  destruct (turn_cases cfg s Hinv sp (src k) (dst k)) as [[-> Hs]|[[-> Hs]|[-> Hs]]]; cbn [mbind outcome_bind];
    rewrite ?cell_eta.
  - eexists _, _, s. split_and!; [done| |by left]. apply (inv_quiet cfg s i (Trans k)); try done; by eauto.
  - eexists _, _, (dst k). split_and!; [done| |right; by destruct k as [| | | | |[]]; cbn in *; subst s].
    destruct k as [| | | | |e]; cbn [src dst after_ok] in *; [by apply (commit_wake cfg s)|by apply (commit_start cfg s)|
      by apply (commit_complete cfg s)|by apply (commit_suspend cfg s)|by apply (commit_take cfg s)|subst e; by apply (commit_cancel cfg s)].
  - assert (k <> KTake) by (intros ->; cbn in Hok, Hs; destruct Hok as [-> _]; by destruct Hs).
    destruct k as [| | | | |e]; cbn [after_err mbind outcome_bind]; try done;
      eexists _, _, s; (split_and!; [done| |by left]).
    + by apply (inv_quiet cfg s i (Trans KWake)).
    + by apply (inv_quiet cfg s i (Trans KStart)).
    + apply (cell_inv_update cfg s i (Trans KComplete)); cbn; auto; try done. destruct Hok as [[-> | ->] Hh]; cbn in *; [|done].
      by destruct Hs.
    + apply (cell_inv_update cfg s i (Trans KSuspend)); cbn; auto; try done. destruct Hok as [[-> | ->] Hh]; cbn in *; [|done].
      by destruct Hs.
    + by apply (inv_quiet cfg s i (Trans (KCancel e))).
Qed.

Lemma advances_retire cfg s i (w : bool) :
  inv cfg s -> threads cfg !! i = Some (Retire w) ->
  advances cfg s i (
    '(r, a) ← (if w then try_retire_woken else try_retire) (st (cl cfg));
    Ret (set_st a (cl cfg), match r with Ok _ => Copy | Err _ => Release end)).
Proof.
  intros Hinv Ht. pose proof (i_state _ _ Hinv) as Hst. set (e := if w then Woken else Sleeping).
  replace ((if w then try_retire_woken else try_retire) (st (cl cfg))) with (retire_from e (st (cl cfg))) by (by destruct w).
  unfold retire_from, compare_exchange. rewrite Hst, to_u8_eqb. case_bool_decide as E.
  - cbn [mbind outcome_bind]. eexists _, _, Retired. split_and!; [done| |right; subst s e; by destruct w].
    apply (commit_retire cfg s i Hinv w e); try done. destruct w; auto.
  - rewrite from_to. cbn [mbind outcome_bind]. rewrite cell_eta. eexists _, _, s. split_and!; [done| |by left].
    by apply (inv_quiet cfg s i (Retire w)).
Qed.

Lemma step_advances cfg s i t a m :
  inv cfg s -> threads cfg !! i = Some t -> call_ok i a -> tstep (cl cfg) t a = Some m -> advances cfg s i m.
Proof.
  intros Hinv Ht Hc E. pose proof Hinv as [I1 I2 I3 I4 I5 I6 I7 I8 I9]. pose proof (I2 _ _ Ht) as Hok.
  assert (Hld : load (st (cl cfg)) = Ret s) by (unfold load; rewrite I1; apply from_to).
  destruct t as [|k| | |w g|w g|w| | | |], a as [o|sp|ready]; try done; cbn [tstep steal_step] in E; unfold transition_step, cancel_step, poll_step, join_step in E.
  - injection E as <-. eexists _, _, s. split_and!; [done| |by left].
    destruct o as [| | |w []|]; apply (inv_quiet cfg s i Idle); cbn in *; naive_solver.
  - injection E as <-. by apply advances_trans.
  - injection E as <-. rewrite Hld. cbn [mbind outcome_bind]. eexists _, _, s. split_and!; [done| |by left].
    destruct (cancellable s) eqn:Ec; by apply (inv_quiet cfg s i CancelLoad).
  - injection E as <-. destruct (poll_fn ready (cl cfg)) as [[r c']| | |] eqn:Ep;
      [|unfold poll_fn in Ep; destruct Hok as (_ & Hf & _); rewrite Hf in Ep; by destruct ready..].
    cbn [mbind outcome_bind]. eexists _, _, s. split_and!; [done| |by left]. by eapply step_poll.
  - unfold try_claim in E. destruct (claim (st (cl cfg))) eqn:Ec; injection E as <-; rewrite ?cell_eta;
      eexists _, _, s; (split_and!; [done| |by left]).
    + by apply (inv_quiet cfg s i (Claim w g)).
    + by apply step_claim.
  - injection E as <-. eexists _, _, s. split_and!; [done| |by left]. destruct g.
    + apply (inv_quiet cfg s i (Gate w true)); try done. intros _. by apply (I8 _ _ Ht).
    + by apply (inv_quiet cfg s i (Gate w false)).
  - injection E as <-. by apply advances_retire.
  - injection E as <-. destruct (copy_cell (cl cfg)) as [c'| | |] eqn:Ep;
      [|unfold copy_cell in Ep; destruct Hok as (_ & Hf); by rewrite Hf in Ep..].
    cbn [mbind outcome_bind]. eexists _, _, s. split_and!; [done| |by left]. by apply step_copy.
  - injection E as <-. eexists _, _, s. split_and!; [done| |by left]. by apply step_release.
  - injection E as <-. rewrite Hld. cbn [mbind outcome_bind].
    assert (Hj : joinable = true) by (by apply (I7 _ _ Ht)).
    destruct s; try (eexists _, _, _; split_and!; [done| |by left]; by apply (inv_quiet cfg _ i JoinLoad)).
    rewrite (I9 eq_refl) in Hj. done.
  - injection E as <-. destruct (read_output (cl cfg)) as [c'| | |] eqn:Ep;
      [|unfold read_output in Ep; destruct Hok as (_ & Ho & _); by rewrite Ho in Ep..].
    cbn [mbind outcome_bind]. eexists _, _, s. split_and!; [done| |by left]. by apply step_take.
Qed.
End machine.
End TaskProto.
