(* ===== verification/TaskThms.v ===== *)
(** * Task lifecycle theorems *)

From S2P Require Import Prelude TaskCell TaskProto.
From stdpp Require Import base tactics list numbers.

Local Open Scope Z_scope.

Module TaskThms.
Import TaskState TaskCell TaskProto.

(** A history that follows the lifecycle from one state to another. *)
Inductive path : t -> list (Z * Z) -> t -> Prop :=
| path_nil s : path s [] s
| path_snoc s h s1 s2 : path s h s1 -> edge s1 s2 = true -> path s (h ++ [(to_u8 s1, to_u8 s2)]) s2.

Definition enters_terminal (e : Z * Z) : bool :=
  match from_u8 e.2 with Ret s => is_terminal s | _ => false end.

Lemma enters_to_u8 a s : enters_terminal (a, to_u8 s) = is_terminal s.
Proof. unfold enters_terminal. cbn. by rewrite from_to. Qed.

Lemma path_terminal s h s' : is_terminal s = false -> path s h s' ->
  length (filter (fun e => enters_terminal e = true) h) = if is_terminal s' then 1%nat else 0%nat.
Proof.
  intros Hs. induction 1 as [s|s h s1 s2 Hp IH He]; [cbn; by rewrite Hs|].
  rewrite list.filter_app, length_app, IH by done. assert (is_terminal s1 = false) as -> by (by destruct s1, s2).
  cbn [filter list_filter]. case_decide as Hd; rewrite enters_to_u8 in Hd; destruct (is_terminal s2); cbn; congruence.
Qed.

Section reach.
Context (joinable : bool) (n : nat).

Lemma inv_new : inv joinable (mkConfig new_cell (replicate n Idle)) Sleeping.
Proof.
  assert (Hid : forall i t, replicate n Idle !! i = Some t -> t = Idle) by (intros i t [-> _]%lookup_replicate; done).
  constructor; cbn; try done.
  - by intros i t ->%Hid.
  - by intros i j t u ->%Hid.
  - by intros i t ->%Hid.
  - by intros i j t u ->%Hid.
  - by intros i t ->%Hid.
  - by intros i t ->%Hid.
Qed.

Lemma edge_ne s s' : edge s s' = true -> to_u8 s <> to_u8 s'.
Proof. by destruct s, s'. Qed.

Lemma reach_inv cfg h : reach joinable n cfg h -> exists s, inv joinable cfg s /\ path Sleeping h s.
Proof.
  induction 1 as [|cfg h i t a c' t' _ (s & Hinv & Hp) Ht Hc E].
  - exists Sleeping. split; [apply inv_new|apply path_nil].
  - destruct (step_advances joinable cfg s i t a _ Hinv Ht Hc E) as (c1 & t1 & s' & E1 & Hinv' & Hs).
    injection E1 as <- <-. exists s'. split; [done|]. unfold commits.
    rewrite (i_state _ _ _ Hinv). pose proof (i_state _ _ _ Hinv') as Hst. cbn in Hst. rewrite Hst.
    destruct Hs as [-> | He].
    + by rewrite Z.eqb_refl, app_nil_r.
    + destruct (Z.eqb_spec (to_u8 s) (to_u8 s')) as [E'|_]; [by apply edge_ne in He|by apply path_snoc].
Qed.

(** Steps that touch the future. *)
Lemma tstep_future c t a c' t' :
  tstep c t a = Some (Ret (c', t')) -> t <> Polling -> t <> Copy -> future c' = future c.
Proof.
  intros E H1 H2. destruct t as [|k| | |w g|w g|w| | | |], a as [o|sp|ready]; try done; cbn [tstep steal_step] in E; unfold transition_step, cancel_step, poll_step, join_step in E.
  - by injection E as <- <-.
  - injection E as E. apply outcome_bind_Ret in E as ([r s] & _ & E). destruct r as [[u|e]|]; [by injection E as <- <-| |by injection E as <- <-].
    apply outcome_bind_Ret in E as (t1 & _ & E). by injection E as <- <-.
  - injection E as E. apply outcome_bind_Ret in E as (s & _ & E). by injection E as <- <-.
  - destruct (try_claim (st c)) as [b s]. by injection E as <- <-.
  - by injection E as <- <-.
  - injection E as E. apply outcome_bind_Ret in E as ([r s] & _ & E). by injection E as <- <-.
  - by injection E as <- <-.
  - injection E as E. apply outcome_bind_Ret in E as (s & _ & E). destruct s; first [done | by injection E as <- <-].
  - injection E as E. apply outcome_bind_Ret in E as (s & Er & E). injection E as <- <-. unfold read_output in Er.
    destruct (output c); try done. by injection Er as <-.
Qed.

(** Only a successful poll entry starts a poll. *)
Lemma tstep_polls c t a c' t' :
  tstep c t a = Some (Ret (c', t')) -> polls t' -> polls t \/ state (st c') = to_u8 Running.
Proof.
  intros E Hp. destruct t as [|k| | |w g|w g|w| | | |], a as [o|sp|ready]; try done; cbn [tstep steal_step] in E; unfold transition_step, cancel_step, poll_step, join_step in E; try (by left).
  - injection E as <- <-. by destruct o.
  - injection E as E. apply outcome_bind_Ret in E as ([r s] & Et & E). destruct r as [[u|e]|].
    + injection E as <- <-. destruct k; try done. right. cbn [src dst] in Et.
      unfold transition_turn, compare_exchange_weak, compare_exchange in Et.
      destruct sp; [|destruct (state (st c) =? to_u8 Woken); [by injection Et as <- <-|]];
        apply outcome_bind_Ret in Et as (s' & _ & Et); case_match; by injection Et.
    + apply outcome_bind_Ret in E as (t1 & Ek & E). injection E as <- <-. destruct k; first [done | by injection Ek as <-].
    + injection E as <- <-. by left.
  - injection E as E. apply outcome_bind_Ret in E as (s & _ & E). injection E as <- <-. by destruct (cancellable s).
  - destruct (try_claim (st c)) as [[] s]; by injection E as <- <-.
  - injection E as <- <-. by destruct g.
  - injection E as E. apply outcome_bind_Ret in E as ([[] s] & _ & E); by injection E as <- <-.
  - injection E as E. apply outcome_bind_Ret in E as (s & _ & E). by injection E as <- <-.
  - by injection E as <- <-.
  - injection E as E. apply outcome_bind_Ret in E as (s & _ & E). destruct s; try done; by injection E as <- <-.
  - injection E as E. apply outcome_bind_Ret in E as (s & _ & E). by injection E as <- <-.
Qed.

(** The window in which a cancel beats the completion of a ready poll. *)
Definition cancelled_mid_poll (h : list (Z * Z)) : Prop := (to_u8 Running, to_u8 Cancelled) ∈ h.

(** Without such a cancel, a cancelled cell still owns its future. *)
Lemma reach_cancelled cfg h :
  reach joinable n cfg h -> ~ cancelled_mid_poll h -> state (st (cl cfg)) = to_u8 Cancelled ->
  future (cl cfg) = Live /\ forall j u, threads cfg !! j = Some u -> ~ polls u.
Proof.
  induction 1 as [|cfg h i t a c' t' Hr IH Ht Hc E]; [done|]. intros Hno Hst. cbn in *.
  destruct (reach_inv cfg h Hr) as (s & Hinv & _). pose proof (i_threads _ _ _ Hinv _ _ Ht) as Hok.
  destruct (step_advances joinable cfg s i t a _ Hinv Ht Hc E) as (c1 & t1 & s' & E1 & Hinv' & Hs).
  injection E1 as <- <-. pose proof (i_state _ _ _ Hinv') as Hst'. cbn in Hst'. rewrite Hst in Hst'.
  apply (to_u8_inj Cancelled) in Hst' as <-. pose proof (i_state _ _ _ Hinv) as Hst0.
  assert (Hh : ~ cancelled_mid_poll h) by (intros Hin; apply Hno; apply elem_of_app; by left).
  assert (s <> Running).
  { intros ->. apply Hno, elem_of_app. right. unfold commits. rewrite Hst0, Hst. apply list_elem_of_here. }
  assert (Hq : forall j u, threads cfg !! j = Some u -> ~ polls u).
  { destruct (decide (s = Cancelled)) as [-> | Hne]; [by apply IH|]. intros j u. by eapply nobody_polls. }
  assert (Hf : future (cl cfg) = Live).
  { destruct (decide (s = Cancelled)) as [-> | Hne]; [by apply IH|]. pose proof (i_halves _ _ _ Hinv) as Hhv.
    destruct Hs as [Hs|He]; [done|]. by destruct s; try done; destruct Hhv. }
  assert (Hnp : t <> Polling) by (intros ->; by apply (Hq i Polling)).
  assert (Hnc : t <> Copy) by (intros ->; cbn in Hok; destruct Hok as [-> _]; by destruct Hs).
  split; [by rewrite (tstep_future _ _ _ _ _ E)|].
  intros j u [[-> ->]|[Hne Ej]]%lookup_upd Pu; [|by eapply Hq].
  destruct (tstep_polls _ _ _ _ _ E Pu) as [Pt|Hrun]; [by eapply Hq|]. by rewrite Hst in Hrun.
Qed.
End reach.

(** The state operations on every state, run alone and with any number of
    spurious compare-exchange failures: [transition] succeeds exactly from its
    expected, non-terminal state and otherwise reports the state it found and
    changes nothing; [cancel] succeeds exactly from [Sleeping], [Woken] and
    [Running], in one turn of its loop; the claim is untouched. *)
Theorem task_ops_exact (spurious : list bool) (fuel : nat) (s e n : TaskState.t) (c : bool) :
  transition spurious (mkAtomic (to_u8 s) c) e n =
    Ret (if bool_decide (s = e) && negb (is_terminal e) then (Ok tt, mkAtomic (to_u8 n) c)
         else (Err s, mkAtomic (to_u8 s) c)) /\
  cancel (S fuel) spurious (mkAtomic (to_u8 s) c) =
    Ret (if cancellable s then (true, mkAtomic (to_u8 Cancelled) c) else (false, mkAtomic (to_u8 s) c)).
Proof. split; [apply transition_spec|apply cell_cancel_spec; lia]. Qed.

(** C1: Whatever the threads of a task do and however their atomic accesses
    interleave, the next step of any thread returns: no discriminant is
    invalid, no dropped or moved future is polled, copied or moved again, no
    output is read twice or before it is written, and the joiner never meets a
    retired slot. *)
Theorem task_protocol_safe (joinable : bool) (n : nat) (cfg : config) (h : list (Z * Z))
    (i : nat) (th : thread) (a : act) (m : outcome (cell * thread)) :
  reach joinable n cfg h -> threads cfg !! i = Some th -> call_ok joinable i a ->
  tstep (cl cfg) th a = Some m -> exists c' th', m = Ret (c', th').
Proof.
  intros Hr Ht Hc E. destruct (reach_inv joinable n cfg h Hr) as (s & Hinv & _).
  destruct (step_advances joinable cfg s i th a m Hinv Ht Hc E) as (c' & t' & s' & -> & _). eauto.
Qed.

(** Three threads: a waker that becomes a poller, a canceller, a thief. *)
Definition demo_cfg (c : cell) (a b d : thread) : config := mkConfig c [a; b; d].

Lemma demo_polling :
  reach false 3 (demo_cfg (mkCell (mkAtomic 2 false) Live Uninit) Polling Idle Idle) [(0, 1); (1, 2)].
Proof.
  apply (reach_step false 3 (demo_cfg (mkCell (mkAtomic 1 false) Live Uninit) (Trans KStart) Idle Idle) [(0, 1)]
           0 (Trans KStart) (ATurn false)); try done.
  apply (reach_step false 3 (demo_cfg (mkCell (mkAtomic 1 false) Live Uninit) Idle Idle Idle) [(0, 1)]
           0 Idle (ACall OPoll)); try done.
  apply (reach_step false 3 (demo_cfg new_cell (Trans KWake) Idle Idle) [] 0 (Trans KWake) (ATurn false)); try done.
  apply (reach_step false 3 (demo_cfg new_cell Idle Idle Idle) [] 0 Idle (ACall OWake)); try done.
  apply reach_new.
Qed.

Lemma task_protocol_safe_witness :
  exists c' th', tstep (mkCell (mkAtomic 2 false) Live Uninit) Polling (APoll true) = Some (Ret (c', th')).
Proof.
  destruct (task_protocol_safe false 3 (demo_cfg (mkCell (mkAtomic 2 false) Live Uninit) Polling Idle Idle)
    [(0, 1); (1, 2)] 0 Polling (APoll true) (Ret (mkCell (mkAtomic 2 false) Gone Live, Trans KComplete))
    demo_polling eq_refl I eq_refl) as (c' & th' & E).
  exists c', th'. injection E as <- <-. reflexivity.
Defined.

(** C15: Every run of the protocol commits a path of the documented lifecycle
    from [Sleeping] to the current state, and enters a terminal state at most
    once: exactly once when the current state is terminal, so that of any
    racing cancel, retire and take exactly one wins. *)
Theorem task_lifecycle_path (joinable : bool) (n : nat) (cfg : config) (h : list (Z * Z)) :
  reach joinable n cfg h ->
  exists s, load (st (cl cfg)) = Ret s /\ path Sleeping h s /\
    length (filter (fun e => enters_terminal e = true) h) = if is_terminal s then 1%nat else 0%nat.
Proof.
  intros Hr. destruct (reach_inv joinable n cfg h Hr) as (s & Hinv & Hp). exists s.
  split_and!; [|done|by apply (path_terminal Sleeping)]. unfold load. rewrite (i_state _ _ _ Hinv). apply from_to.
Qed.

Lemma task_lifecycle_path_witness :
  exists s, load (mkAtomic 2 false) = Ret s /\ path Sleeping [(0, 1); (1, 2)] s /\
    length (filter (fun e => enters_terminal e = true) [(0, 1); (1, 2)]) = if is_terminal s then 1%nat else 0%nat.
Proof.
  apply (task_lifecycle_path false 3 (demo_cfg (mkCell (mkAtomic 2 false) Live Uninit) Polling Idle Idle)).
  exact demo_polling.
Defined.

(** C16: Exclusion: at any moment at most one thread polls the task and at most
    one holds the relocation claim; while a body is being copied out the slot
    is retired, nobody polls it, and its future is still there. *)
Theorem task_exclusion (joinable : bool) (n : nat) (cfg : config) (h : list (Z * Z)) (i j : nat) (t u : thread) :
  reach joinable n cfg h -> threads cfg !! i = Some t -> threads cfg !! j = Some u ->
  (polls t -> polls u -> i = j) /\ (holder t -> holder u -> i = j) /\
  (t = Copy -> load (st (cl cfg)) = Ret Retired /\ ~ polls u /\ future (cl cfg) = Live).
Proof.
  intros Hr Ei Ej. destruct (reach_inv joinable n cfg h Hr) as (s & Hinv & _). split_and!.
  - by apply (i_poll _ _ _ Hinv).
  - by apply (i_holder _ _ _ Hinv).
  - intros ->. destruct (i_threads _ _ _ Hinv _ _ Ei) as [-> Hf]. split_and!; [| |done].
    + unfold load. rewrite (i_state _ _ _ Hinv). done.
    + by eapply nobody_polls.
Qed.

(** A thief about to copy the body out, while another thread tries to start a
    poll and a third to claim. *)
Lemma demo_copying :
  reach false 3 (demo_cfg (mkCell (mkAtomic 7 true) Live Uninit) Copy (Trans KStart) (Claim false true)) [(0, 7)].
Proof.
  apply (reach_step false 3 (demo_cfg (mkCell (mkAtomic 0 true) Live Uninit) (Retire false) (Trans KStart) (Claim false true)) []
           0 (Retire false) (ATurn false)); try done.
  apply (reach_step false 3 (demo_cfg (mkCell (mkAtomic 0 true) Live Uninit) (Gate false true) (Trans KStart) (Claim false true)) []
           0 (Gate false true) (ATurn false)); try done.
  apply (reach_step false 3 (demo_cfg new_cell (Claim false true) (Trans KStart) (Claim false true)) []
           0 (Claim false true) (ATurn false)); try done.
  apply (reach_step false 3 (demo_cfg new_cell (Claim false true) (Trans KStart) Idle) [] 2 Idle (ACall (OSteal false true))); try done.
  apply (reach_step false 3 (demo_cfg new_cell (Claim false true) Idle Idle) [] 1 Idle (ACall OPoll)); try done.
  apply (reach_step false 3 (demo_cfg new_cell Idle Idle Idle) [] 0 Idle (ACall (OSteal false true))); try done.
  apply reach_new.
Qed.

Lemma task_exclusion_witness :
  (forall j u, [Copy; Trans KStart; Claim false true] !! j = Some u -> holder u -> 0%nat = j) /\
  (load (mkAtomic 7 true) = Ret Retired /\ ~ polls (Trans KStart) /\ future (mkCell (mkAtomic 7 true) Live Uninit) = Live) /\
  (forall j u, [Polling; Idle; Idle] !! j = Some u -> polls u -> 0%nat = j).
Proof.
  split; [|split].
  - intros j u Hu. exact (proj1 (proj2 (task_exclusion false 3 _ _ 0 j Copy u demo_copying eq_refl Hu)) I).
  - exact (proj2 (proj2 (task_exclusion false 3 _ _ 0 1 Copy (Trans KStart) demo_copying eq_refl eq_refl)) eq_refl).
  - intros j u Hu. exact (proj1 (task_exclusion false 3 _ _ 0 j Polling u demo_polling eq_refl Hu) I).
Defined.

(** C17: Dropping the slot once its threads are done releases exactly the live
    half: unless a cancel was committed in the middle of a poll, [drop_in_place]
    neither drops a half twice nor leaves one live; and the only way for it to
    be undefined is a cancelled slot whose future the poll already dropped. *)
Theorem task_drop_exact (joinable : bool) (n : nat) (cfg : config) (h : list (Z * Z)) :
  reach joinable n cfg h -> Forall (fun t => t = Idle) (threads cfg) ->
  (drop_in_place_fn (cl cfg) = Undefined <->
     load (st (cl cfg)) = Ret Cancelled /\ future (cl cfg) = Gone) /\
  (~ cancelled_mid_poll h ->
     exists c', drop_in_place_fn (cl cfg) = Ret c' /\ future c' <> Live /\ output c' <> Live).
Proof.
  intros Hr Hidle. destruct (reach_inv joinable n cfg h Hr) as (s & Hinv & _).
  assert (Hid : forall i t, threads cfg !! i = Some t -> t = Idle) by (intros i t E; by eapply (Forall_lookup_1 _ _ _ _ Hidle)).
  pose proof (reach_cancelled joinable n cfg h Hr) as Hcn. pose proof (i_state _ _ _ Hinv) as Hst.
  pose proof (i_halves _ _ _ Hinv) as Hh. unfold drop_in_place_fn, load, drop_future, drop_output. rewrite Hst, from_to.
  cbn [mbind outcome_bind]. destruct s; cbn in Hh.
  1,2: destruct Hh as [-> ->]; split; [split; [done|by intros [? _]]|eauto 10].
  - destruct Hh as (j & u & Ej & Pu). by rewrite (Hid _ _ Ej) in Pu.
  - destruct Hh as [-> ->]. split; [split; [done|by intros [? _]]|eauto 10].
  - destruct Hh as [[Hf Ho]|[Hf Ho]]; rewrite ?Hf, ?Ho.
    + split; [split; [done|by intros [_ ?]]|eauto 10].
    + split; [done|]. intros Hno. destruct (Hcn Hno Hst) as [Hl _]. by rewrite Hf in Hl.
  - done.
  - destruct Hh as [Hf [Ho|(j & Ej)]]; [|by apply Hid in Ej].
    split; [split; [done|by intros [? _]]|]. intros _. exists (cl cfg). by rewrite Hf, Ho.
  - destruct Hh as [Ho [Hf|(j & Ej)]]; [|by apply Hid in Ej].
    split; [split; [done|by intros [? _]]|]. intros _. exists (cl cfg). by rewrite Hf, Ho.
Qed.

Lemma task_drop_exact_witness :
  (drop_in_place_fn new_cell = Undefined <-> load (st new_cell) = Ret Cancelled /\ future new_cell = Gone) /\
  (~ cancelled_mid_poll [] -> exists c', drop_in_place_fn new_cell = Ret c' /\ future c' <> Live /\ output c' <> Live).
Proof.
  apply (task_drop_exact false 3 (mkConfig new_cell (replicate 3 Idle)) []); [apply reach_new|].
  repeat constructor.
Defined.

(** The window the poll path documents is real: when a cancel commits
    between a ready poll and its completion, the slot ends up cancelled with
    its future already dropped and its output never released, and dropping it
    then drops the future a second time. *)
Theorem task_cancel_window :
  exists cfg h, reach false 3 cfg h /\ Forall (fun t => t = Idle) (threads cfg) /\
    output (cl cfg) = Live /\ drop_in_place_fn (cl cfg) = Undefined.
Proof.
  exists (demo_cfg (mkCell (mkAtomic 4 false) Gone Live) Idle Idle Idle), [(0, 1); (1, 2); (2, 4)].
  split_and!; [|by repeat constructor|done|done].
  apply (reach_step false 3 (demo_cfg (mkCell (mkAtomic 4 false) Gone Live) (Trans KComplete) Idle Idle) [(0, 1); (1, 2); (2, 4)]
           0 (Trans KComplete) (ATurn false)); try done.
  apply (reach_step false 3 (demo_cfg (mkCell (mkAtomic 2 false) Gone Live) (Trans KComplete) (Trans (KCancel Running)) Idle) [(0, 1); (1, 2)]
           1 (Trans (KCancel Running)) (ATurn false)); try done.
  apply (reach_step false 3 (demo_cfg (mkCell (mkAtomic 2 false) Gone Live) (Trans KComplete) CancelLoad Idle) [(0, 1); (1, 2)]
           1 CancelLoad (ATurn false)); try done.
  apply (reach_step false 3 (demo_cfg (mkCell (mkAtomic 2 false) Gone Live) (Trans KComplete) Idle Idle) [(0, 1); (1, 2)]
           1 Idle (ACall OCancel)); try done.
  apply (reach_step false 3 (demo_cfg (mkCell (mkAtomic 2 false) Live Uninit) Polling Idle Idle) [(0, 1); (1, 2)]
           0 Polling (APoll true)); try done.
  apply demo_polling.
Qed.
End TaskThms.
