(* ===== verification/TaskRefId.v ===== *)
(** * Task references and worker ids

    Models src/crates/kwokka-runtime/src/task/reference/identity.rs ([TaskRef],
    a 64-bit packed handle) and src/crates/kwokka-runtime/src/worker/shard/id.rs
    ([WorkerId]).  A [TaskRef] and a [WorkerId] are their raw integers. *)

From S2P Require Import Prelude GenKey.
From stdpp Require Import base tactics list numbers.

Local Open Scope Z_scope.

Module WorkerId.

Definition MAX_WORKERS : Z := 128.
Definition MAX : Z := MAX_WORKERS - 1.

Inductive WorkerError : Type := InvalidId (id max : Z).

Definition new (id : Z) : result WorkerError Z :=
  if MAX <? id then Err (InvalidId id MAX) else Ok id.
Definition raw (self : Z) : Z := self.

(** The ids [new] accepts. *)
Definition wf (w : Z) : Prop := 0 <= w <= MAX.

End WorkerId.

Module TaskRef.

Definition TAG_SHIFT : Z := 63.
Definition TAG_ARENA_BIT : Z := Z.shiftl 1 TAG_SHIFT.
Definition WORKER_BITS : Z := 7.
Definition WORKER_SHIFT : Z := 56.
Definition WORKER_MASK : Z := Z.shiftl 1 WORKER_BITS - 1.
Definition GENERATION_SHIFT : Z := 32.
Definition GENERATION_MASK : Z := Generation.MAX.
Definition INDEX_MASK : Z := 2 ^ 32 - 1.
Definition WORKER_ID_MAX : Z := Z.shiftl 1 WORKER_BITS - 1.

Definition from_slab (worker_id key : Z) : Z :=
  Z.lor (Z.shiftl (Z.land worker_id WORKER_ID_MAX) WORKER_SHIFT) (SlabKey.to_bits key).

Definition from_arena (worker_id offset generation : Z) : Z :=
  Z.lor (Z.lor (Z.lor TAG_ARENA_BIT (Z.shiftl (Z.land worker_id WORKER_ID_MAX) WORKER_SHIFT))
           (Z.shiftl (Generation.get generation) GENERATION_SHIFT)) offset.

Definition is_arena (self : Z) : bool := Z.shiftr self TAG_SHIFT =? 1.
Definition worker_id (self : Z) : Z := wrap U8 (Z.land (Z.shiftr self WORKER_SHIFT) WORKER_MASK).
Definition generation (self : Z) : Z :=
  Generation.from_raw (wrap U32 (Z.land (Z.shiftr self GENERATION_SHIFT) GENERATION_MASK)).
Definition index (self : Z) : Z := wrap U32 (Z.land self INDEX_MASK).
Definition raw (self : Z) : Z := self.
Definition from_raw (raw : Z) : Z := raw.

(** [SlabKey::new(task_ref.index(), task_ref.generation())], the key every
    reader of the slab builds. *)
Definition key (self : Z) : Z := SlabKey.new (index self) (generation self).

(** ** The fields as quotients *)

(** [field x s n] is the [n]-bit field of [x] from bit [s]. *)
Lemma wrap_land_field x s n w :
  0 <= s -> 0 <= n <= w -> wrap w (Z.land (Z.shiftr x s) (2 ^ n - 1)) = (x / 2 ^ s) mod 2 ^ n.
Proof.
  intros Hs Hn. rewrite land_ones_mod, shiftr_div by lia. unfold wrap. apply Z.mod_small.
  pose proof (Z.mod_pos_bound (x / 2 ^ s) (2 ^ n) ltac:(apply Z.pow_pos_nonneg; lia)).
  pose proof (Z.pow_le_mono_r 2 n w ltac:(lia) ltac:(lia)). lia.
Qed.

Lemma worker_id_field r : worker_id r = (r / 2 ^ 56) mod 2 ^ 7.
Proof. apply (wrap_land_field r 56 7 8); lia. Qed.

Lemma generation_field r : generation r = (r / 2 ^ 32) mod 2 ^ 24.
Proof. apply (wrap_land_field r 32 24 32); lia. Qed.

Lemma index_field r : index r = r mod 2 ^ 32.
Proof.
  pose proof (wrap_land_field r 0 32 32 ltac:(lia) ltac:(lia)) as H.
  rewrite Z.shiftr_0_r, Z.pow_0_r, Z.div_1_r in H. exact H.
Qed.

(** The packed word from its four fields. *)
Definition packed (tag w g i : Z) : Z := tag * 2 ^ 63 + w * 2 ^ 56 + g * 2 ^ 32 + i.

Section packed.
Context (tag w g i : Z) (Ht : 0 <= tag < 2) (Hw : 0 <= w < 2 ^ 7) (Hg : fits 24 g) (Hi : fits 32 i).

Lemma packed_fields :
  is_arena (packed tag w g i) = (tag =? 1) /\ worker_id (packed tag w g i) = w /\
  generation (packed tag w g i) = g /\ index (packed tag w g i) = i.
Proof.
  unfold is_arena, TAG_SHIFT. rewrite worker_id_field, generation_field, index_field, shiftr_div by lia.
  unfold packed, fits in *. split_and!.
  - f_equal. symmetry. apply (Z.div_unique _ _ _ (w * 2 ^ 56 + g * 2 ^ 32 + i)); lia.
  - rewrite <- (Z.div_unique (tag * 2 ^ 63 + w * 2 ^ 56 + g * 2 ^ 32 + i) (2 ^ 56) (tag * 2 ^ 7 + w) (g * 2 ^ 32 + i)) by lia.
    rewrite Z.add_comm, Z.mod_add by lia. by apply Z.mod_small.
  - rewrite <- (Z.div_unique (tag * 2 ^ 63 + w * 2 ^ 56 + g * 2 ^ 32 + i) (2 ^ 32) (tag * 2 ^ 31 + w * 2 ^ 24 + g) i) by lia.
    replace (tag * 2 ^ 31 + w * 2 ^ 24 + g) with (g + (tag * 2 ^ 7 + w) * 2 ^ 24) by lia.
    rewrite Z.mod_add by lia. by apply Z.mod_small.
  - replace (tag * 2 ^ 63 + w * 2 ^ 56 + g * 2 ^ 32 + i)
      with (i + (tag * 2 ^ 31 + w * 2 ^ 24 + g) * 2 ^ 32) by lia.
    rewrite Z.mod_add by lia. by apply Z.mod_small.
Qed.
End packed.

Lemma from_slab_packed w i g :
  0 <= w -> fits 32 i -> Generation.wf g ->
  from_slab w (SlabKey.new i g) = packed 0 (w mod 2 ^ 7) g i.
Proof.
  intros Hw Hi Hg. unfold from_slab, SlabKey.to_bits, WORKER_SHIFT, WORKER_ID_MAX, WORKER_BITS.
  rewrite SlabKey.key_new_eq, Generation.get_mod, Z.shiftl_1_l, land_ones_mod by (done || lia).
  unfold Generation.wf, Generation.GENERATION_BITS, fits in *. rewrite (Z.mod_small g) by lia.
  rewrite lor_shiftl_add by lia. unfold packed. lia.
Qed.

Lemma from_arena_packed w i g :
  0 <= w -> fits 32 i -> from_arena w i g = packed 1 (w mod 2 ^ 7) (g mod 2 ^ 24) i.
Proof.
  intros Hw Hi. unfold from_arena, TAG_ARENA_BIT, TAG_SHIFT, WORKER_SHIFT, WORKER_ID_MAX, WORKER_BITS, GENERATION_SHIFT.
  rewrite Generation.get_mod, (Z.shiftl_1_l 7), land_ones_mod by lia. unfold fits in *.
  pose proof (Z.mod_pos_bound w (2 ^ 7) ltac:(lia)). pose proof (Z.mod_pos_bound g (2 ^ 24) ltac:(lia)).
  rewrite (lor_shiftl_add 1 (Z.shiftl (w mod 2 ^ 7) 56) 63) by (rewrite ?Z.shiftl_mul_pow2 by lia; lia).
  rewrite Z.shiftl_mul_pow2 by lia.
  replace (1 * 2 ^ 63 + w mod 2 ^ 7 * 2 ^ 56) with ((2 ^ 7 + w mod 2 ^ 7) * 2 ^ 56) by lia.
  rewrite <- (Z.shiftl_mul_pow2 _ 56), lor_shiftl_add by (rewrite ?Z.shiftl_mul_pow2 by lia; lia).
  rewrite Z.shiftl_mul_pow2 by lia.
  replace ((2 ^ 7 + w mod 2 ^ 7) * 2 ^ 56 + g mod 2 ^ 24 * 2 ^ 32)
    with (((2 ^ 7 + w mod 2 ^ 7) * 2 ^ 24 + g mod 2 ^ 24) * 2 ^ 32) by lia.
  rewrite <- (Z.shiftl_mul_pow2 _ 32), lor_shiftl_add by lia. unfold packed. lia.
Qed.

Lemma from_slab_fields w i g :
  WorkerId.wf w -> fits 32 i -> Generation.wf g ->
  let r := from_slab w (SlabKey.new i g) in
  is_arena r = false /\ worker_id r = w /\ generation r = g /\ index r = i.
Proof.
  intros Hw Hi Hg. cbv zeta. unfold WorkerId.wf, WorkerId.MAX, WorkerId.MAX_WORKERS in Hw. rewrite from_slab_packed by (done || lia).
  rewrite (Z.mod_small w) by lia. apply (packed_fields 0); lia || done.
Qed.

Lemma key_from_slab w i g :
  WorkerId.wf w -> fits 32 i -> Generation.wf g -> key (from_slab w (SlabKey.new i g)) = SlabKey.new i g.
Proof. intros Hw Hi Hg. destruct (from_slab_fields w i g Hw Hi Hg) as (_ & _ & Eg & Ei). unfold key. by rewrite Eg, Ei. Qed.

End TaskRef.
