(* ===== verification/WorkerAlloc.v ===== *)
(** * The process-wide worker-id allocator

    Models src/crates/kwokka-runtime/src/worker/coordination/alloc.rs: two
    64-bit occupancy words, claimed by compare-exchange loops.  [claim_step] is
    one turn of a loop, with at most one atomic access; callers of several
    threads interleave turn by turn ([areach]), and [alone] runs one call with
    nothing interleaved. *)

From S2P Require Import Prelude Words GenKey TaskRefId.
From stdpp Require Import base tactics list numbers sets.

Local Open Scope Z_scope.

Module WorkerAlloc.

Definition U64_MAX : Z := 2 ^ 64 - 1.

(** Where a call is in its loops; [Return] carries the result and the number
    of ids it stands for. *)
Inductive pc : Type :=
| OneWord (word_index : nat)
| OneLoop (word_index : nat) (bits : Z)
| BlockWord (count : Z) (word_index : nat)
| BlockLoop (count : Z) (word_index : nat) (bits shift : Z)
| Return (r : option Z) (count : Z).

Definition run_mask (count : Z) : Z := if count =? 64 then U64_MAX else Z.shiftl 1 count - 1.

Definition claim_one : pc := OneWord 0.
Definition claim_block (count : Z) : pc :=
  if (count =? 0) || (64 <? count) then Return None count else BlockWord count 0.

(** The id a won compare-exchange stands for. *)
Definition won (word_index : nat) (bit : Z) : option Z :=
  raw ← try_from U8 (Z.of_nat word_index * 64 + bit); ok (WorkerId.new raw).

(** One turn of a call on the two words. *)
Definition claim_step (words : list Z) (spurious : bool) (p : pc) : list Z * pc :=
  match p with
  | OneWord w =>
      (words, match words !! w with Some bits => OneLoop w bits | None => Return None 1 end)
  | OneLoop w bits =>
      if bits =? U64_MAX then (words, OneWord (w + 1)) else
      let free := trailing_zeros (lnot U64 bits) in
      let actual := nth w words 0 in
      if negb spurious && (actual =? bits)
      then (<[w := Z.lor bits (Z.shiftl 1 free)]> words, Return (won w free) 1)
      else (words, OneLoop w actual)
  | BlockWord count w =>
      (words, match words !! w with Some bits => BlockLoop count w bits 0 | None => Return None count end)
  | BlockLoop count w bits shift =>
      if shift + count <=? 64 then
        let mask := wrap U64 (Z.shiftl (run_mask count) shift) in
        if negb (Z.land bits mask =? 0) then (words, BlockLoop count w bits (shift + 1)) else
        let actual := nth w words 0 in
        if negb spurious && (actual =? bits)
        then (<[w := Z.lor bits mask]> words, Return (won w shift) count)
        else (words, BlockLoop count w actual 0)
      else (words, BlockWord count (w + 1))
  | Return r n => (words, Return r n)
  end.

Definition fetch_and_not (words : list Z) (w : nat) (mask : Z) : outcome (list Z) :=
  match words !! w with
  | Some bits => Ret (<[w := Z.land bits (lnot U64 mask)]> words)
  | None => Panic
  end.

Definition release (words : list Z) (id : Z) : outcome (list Z) :=
  fetch_and_not words (Z.to_nat (id / 64)) (Z.shiftl 1 (id mod 64)).

Definition release_block (words : list Z) (start count : Z) : outcome (list Z) :=
  if (count =? 0) || (64 <? count) then Ret words else
  fetch_and_not words (Z.to_nat (start / 64)) (wrap U64 (Z.shiftl (run_mask count) (start mod 64))).

(** ** Interleaved callers *)

(** The words, the calls under way, and the blocks handed out and not yet
    released. *)
Record config : Type := mkConfig { words : list Z; calls : list pc; held : list (Z * Z) }.

Definition initial : config := mkConfig [0; 0] [] [].

Inductive astep : config -> config -> Prop :=
| astep_claim_one c : astep c (mkConfig (words c) (claim_one :: calls c) (held c))
| astep_claim_block c n :
    0 <= n -> astep c (mkConfig (words c) (claim_block n :: calls c) (held c))
| astep_turn c i p spurious ws p' :
    calls c !! i = Some p -> claim_step (words c) spurious p = (ws, p') ->
    astep c (mkConfig ws (<[i := p']> (calls c))
               (match p, p' with
                | Return _ _, _ => held c
                | _, Return (Some start) n => (start, n) :: held c
                | _, _ => held c
                end))
| astep_release c i start ws :
    held c !! i = Some (start, 1) -> release (words c) start = Ret ws ->
    astep c (mkConfig ws (calls c) (delete i (held c)))
| astep_release_block c i start n ws :
    held c !! i = Some (start, n) -> release_block (words c) start n = Ret ws ->
    astep c (mkConfig ws (calls c) (delete i (held c))).

Inductive areach : config -> Prop :=
| areach_init : areach initial
| areach_step c c' : areach c -> astep c c' -> areach c'.

(** The ids covered by the blocks handed out. *)
Definition ids (hs : list (Z * Z)) : list Z := hs ≫= fun '(start, n) => seqZ start n.

(** The occupancy bit of an id. *)
Definition occupied (ws : list Z) (id : Z) : bool := Z.testbit (nth (Z.to_nat (id / 64)) ws 0) (id mod 64).

(** ** One call on its own *)

Fixpoint alone (fuel : nat) (ws : list Z) (p : pc) : outcome (option Z * list Z) :=
  match p with
  | Return r _ => Ret (r, ws)
  | _ => match fuel with
         | O => OutOfFuel
         | S fuel => let '(ws, p) := claim_step ws false p in alone fuel ws p
         end
  end.

End WorkerAlloc.

(** * Theorems on worker ids

    The occupancy words cover exactly the ids handed out, whatever calls
    interleave; a call on its own takes the lowest fitting run; and the packed
    task reference gives back the fields it was built from. *)

From stdpp Require Import base tactics list numbers sets.

Local Open Scope Z_scope.

Module AllocThms.
Import WorkerAlloc.

(** ** Masks *)

(** The mask of [n] ids from bit [s] of a word. *)
Definition block_mask (s n : Z) : Z := wrap U64 (Z.shiftl (run_mask n) s).

Lemma run_mask_ones n : 0 <= n <= 64 -> run_mask n = Z.ones n.
Proof.
  intros Hn. unfold run_mask, U64_MAX. destruct (Z.eqb_spec n 64) as [->|]; [done|].
  rewrite Z.shiftl_1_l, Z.ones_equiv. lia.
Qed.

Lemma block_mask_bit s n j :
  0 <= s -> 0 <= n -> s + n <= 64 -> 0 <= j ->
  Z.testbit (block_mask s n) j = (s <=? j) && (j <? s + n).
Proof.
  intros Hs Hn Hsn Hj. unfold block_mask, wrap. rewrite run_mask_ones by lia.
  destruct (Z.lt_ge_cases j 64).
  - rewrite Z.mod_pow2_bits_low, Z.shiftl_spec by lia. destruct (Z.leb_spec s j).
    + rewrite Z.testbit_ones_nonneg by lia. cbn. destruct (Z.ltb_spec (j - s) n), (Z.ltb_spec j (s + n)); done || lia.
    + by rewrite Z.testbit_neg_r by lia.
  - rewrite Z.mod_pow2_bits_high by lia. destruct (Z.ltb_spec j (s + n)); [lia|]. by rewrite andb_false_r.
Qed.

Lemma block_mask_fits s n : fits 64 (block_mask s n).
Proof. apply Z.mod_pos_bound. lia. Qed.

Lemma one_mask s : 0 <= s < 64 -> Z.shiftl 1 s = block_mask s 1.
Proof.
  intros Hs. unfold block_mask, wrap. change (run_mask 1) with 1. rewrite Z.mod_small; [done|].
  rewrite Z.shiftl_1_l. split; [apply Z.pow_nonneg; lia|apply Z.pow_lt_mono_r; lia].
Qed.

Lemma lor_fits a b : fits 64 a -> fits 64 b -> fits 64 (Z.lor a b).
Proof.
  intros Ha Hb. split; [apply Z.lor_nonneg; unfold fits in *; lia|].
  assert (Z.lor a b = (Z.lor a b) mod 2 ^ 64) as ->; [|apply Z.mod_pos_bound; lia].
  apply Z.bits_inj'. intros n Hn. destruct (Z.lt_ge_cases n 64); [by rewrite Z.mod_pow2_bits_low|].
  rewrite Z.mod_pow2_bits_high, Z.lor_spec, !testbit_above by (done || lia). done.
Qed.

Lemma lnot_fits m : fits 64 m -> fits 64 (lnot 64 m).
Proof.
  intros Hm. unfold lnot. split; [apply Z.lxor_nonneg; unfold fits in *; lia|].
  assert (Z.lxor m (2 ^ 64 - 1) = Z.lxor m (2 ^ 64 - 1) mod 2 ^ 64) as ->; [|apply Z.mod_pos_bound; lia].
  apply Z.bits_inj'. intros n Hn. destruct (Z.lt_ge_cases n 64); [by rewrite Z.mod_pow2_bits_low|].
  rewrite Z.mod_pow2_bits_high, Z.lxor_spec, (testbit_above m) by (done || lia).
  change (2 ^ 64 - 1) with (Z.ones 64). by rewrite Z.ones_spec_high by lia.
Qed.

Lemma lnot_bit m j : 0 <= j < 64 -> Z.testbit (lnot 64 m) j = negb (Z.testbit m j).
Proof.
  intros Hj. unfold lnot. rewrite Z.lxor_spec. change (2 ^ 64 - 1) with (Z.ones 64).
  rewrite Z.ones_spec_low by lia. by rewrite xorb_true_r.
Qed.

(** The bit [claim_one] picks: the least clear one of a word that is not
    full. *)
Lemma first_clear_spec bits :
  fits 64 bits -> bits <> U64_MAX ->
  let f := trailing_zeros (lnot 64 bits) in
  0 <= f < 64 /\ Z.testbit bits f = false /\ forall j, 0 <= j < f -> Z.testbit bits j = true.
Proof.
  intros Hb Hne. cbv zeta. pose proof (lnot_fits bits Hb) as Hl.
  assert (lnot 64 bits <> 0) as Hz by (unfold lnot; intros E%Z.lxor_eq; by apply Hne).
  destruct (lnot 64 bits) as [|p|p] eqn:E; [done| |unfold fits in Hl; lia]. cbn [trailing_zeros].
  destruct (pos_trailing_zeros_bit p) as [Ht Hlow]. pose proof (pos_trailing_zeros_nonneg p).
  assert (pos_trailing_zeros p < 64).
  { apply Z.nle_gt. intros Hge. by rewrite (testbit_above (Zpos p)) in Ht by done. }
  assert (Hnot : forall j, 0 <= j < 64 -> Z.testbit bits j = negb (Z.testbit (Zpos p) j)).
  { intros j Hj. rewrite <- E, lnot_bit by lia. by rewrite negb_involutive. }
  split_and!; [lia|lia|by rewrite Hnot, Ht by lia|]. intros j Hj. by rewrite Hnot, Hlow by lia.
Qed.

Lemma block_clear bits s n :
  fits 64 bits -> 0 <= s -> 0 <= n -> s + n <= 64 ->
  Z.land bits (block_mask s n) = 0 <-> forall j, s <= j < s + n -> Z.testbit bits j = false.
Proof.
  intros Hb Hs Hn Hsn. rewrite (mask_zero (Z.land _ _)) by (by apply fits_land). split.
  - intros H j Hj. specialize (H j ltac:(lia)). rewrite Z.land_spec, block_mask_bit in H by lia.
    rewrite (proj2 (Z.leb_le s j)), (proj2 (Z.ltb_lt j (s + n))) in H by lia. by rewrite andb_true_r in H.
  - intros H j Hj. rewrite Z.land_spec, block_mask_bit by lia.
    destruct (Z.leb_spec s j), (Z.ltb_spec j (s + n)); try apply andb_false_r. by rewrite H by lia.
Qed.

(** ** The invariant *)

Definition block_ok (b : Z * Z) : Prop :=
  0 <= b.1 /\ 0 < b.2 /\ b.1 mod 64 + b.2 <= 64 /\ b.1 + b.2 <= 128.

Definition pc_ok (p : pc) : Prop :=
  match p with
  | OneLoop w bits => (w < 2)%nat /\ fits 64 bits
  | BlockWord n _ => 0 < n <= 64
  | BlockLoop n w bits shift => 0 < n <= 64 /\ (w < 2)%nat /\ fits 64 bits /\ 0 <= shift
  | OneWord _ | Return _ _ => True
  end.

Record ainv (c : config) : Prop := {
  a_len : length (words c) = 2%nat;
  a_fits : Forall (fits 64) (words c);
  a_blocks : Forall block_ok (held c);
  a_nodup : NoDup (ids (held c));
  a_bits id : 0 <= id < 128 -> occupied (words c) id = true <-> id ∈ ids (held c);
  a_calls : Forall pc_ok (calls c);
}.

Lemma elem_ids id hs : id ∈ ids hs <-> exists s n, (s, n) ∈ hs /\ s <= id < s + n.
Proof.
  unfold ids. rewrite list_elem_of_bind. split.
  - intros ([s n] & H & Hin). apply elem_of_seqZ in H. eauto.
  - intros (s & n & Hin & H). exists (s, n). split; [by apply elem_of_seqZ|done].
Qed.

Lemma word_lookup ws w : length ws = 2%nat -> (w < 2)%nat -> ws !! w = Some (nth w ws 0).
Proof. intros Hl Hw. destruct (nth_lookup_or_length ws w 0); [done|lia]. Qed.

Lemma occupied_insert ws w b id :
  length ws = 2%nat -> (w < 2)%nat -> 0 <= id ->
  occupied (<[w := b]> ws) id =
  if decide (id / 64 = Z.of_nat w) then Z.testbit b (id mod 64) else occupied ws id.
Proof.
  intros Hl Hw Hid. unfold occupied. rewrite !nth_lookup. destruct (decide _) as [E|E].
  - rewrite E, Nat2Z.id, list_lookup_insert_eq by lia. done.
  - rewrite list_lookup_insert_ne; [done|]. intros ->. apply E. rewrite Z2Nat.id; [done|]. apply Z.div_pos; lia.
Qed.

Lemma won_eq w s : (w < 2)%nat -> 0 <= s < 64 -> won w s = Some (Z.of_nat w * 64 + s).
Proof.
  intros Hw Hs. unfold won, try_from. destruct (Z.ltb_spec (Z.of_nat w * 64 + s) (2 ^ U8)); [|lia]. cbn.
  unfold WorkerId.new, WorkerId.MAX, WorkerId.MAX_WORKERS. by destruct (Z.ltb_spec (128 - 1) (Z.of_nat w * 64 + s)); [lia|].
Qed.

(** An id lies in word [w] at bit [j]. *)
Lemma id_split id w j : 0 <= j < 64 -> id = w * 64 + j <-> id / 64 = w /\ id mod 64 = j.
Proof. intros Hj. split; [intros ->; Z.div_mod_to_equations; lia|Z.div_mod_to_equations; lia]. Qed.

Section commit.
Context (c : config) (w : nat) (bits s n : Z).
Context (Hinv : ainv c) (Hw : (w < 2)%nat) (Hbits : nth w (words c) 0 = bits).
Context (Hs : 0 <= s) (Hn : 0 < n) (Hsn : s + n <= 64).
Context (Hclear : forall j, s <= j < s + n -> Z.testbit bits j = false).

Let start := Z.of_nat w * 64 + s.

Lemma in_block id : 0 <= id -> start <= id < start + n <-> id / 64 = Z.of_nat w /\ s <= id mod 64 < s + n.
Proof. unfold start. intros. Z.div_mod_to_equations. lia. Qed.

Lemma bits_fit : fits 64 bits.
Proof.
  rewrite <- Hbits. apply (Forall_lookup_1 _ _ w _ (a_fits _ Hinv)), word_lookup; [apply Hinv|done].
Qed.

(** A won compare-exchange hands out a block no one holds. *)
Lemma commit_inv cs :
  Forall pc_ok cs ->
  ainv (mkConfig (<[w := Z.lor bits (block_mask s n)]> (words c)) cs ((start, n) :: held c)).
Proof.
  intros Hcs. pose proof Hinv as [I1 I2 I3 I4 I5 I6].
  assert (Hfree : forall id, start <= id < start + n -> occupied (words c) id = false).
  { intros id Hid. pose proof (proj1 (in_block id ltac:(unfold start in *; lia)) Hid) as [E1 E2].
    unfold occupied. rewrite E1, Nat2Z.id, Hbits. by apply Hclear. }
  split; cbn [words held calls].
  - by rewrite length_insert.
  - apply Forall_insert; [done|]. apply lor_fits; [apply bits_fit|apply block_mask_fits].
  - constructor; [|done]. unfold block_ok, start. cbn. split_and!; try lia. Z.div_mod_to_equations; lia.
  - cbn. apply NoDup_app. split_and!; [apply NoDup_seqZ| |done].
    intros id Hid%elem_of_seqZ Hin. apply I5 in Hin; [|unfold start in *; lia]. by rewrite Hfree in Hin.
  - intros id Hid. rewrite occupied_insert by (done || lia). unfold ids. rewrite bind_cons, elem_of_app, elem_of_seqZ.
    fold (ids (held c)). rewrite in_block, <- I5 by lia. destruct (decide _) as [E|E].
    + rewrite Z.lor_spec, orb_true_iff. unfold occupied. rewrite E, Nat2Z.id, Hbits.
      rewrite block_mask_bit by (try apply Z.mod_pos_bound; lia). rewrite andb_true_iff, Z.leb_le, Z.ltb_lt. naive_solver.
    + naive_solver.
  - done.
Qed.
End commit.

Lemma ids_delete hs i b :
  hs !! i = Some b -> ids hs ≡ₚ seqZ b.1 b.2 ++ ids (delete i hs).
Proof.
  intros Hi. apply delete_Permutation in Hi. unfold ids. rewrite Hi at 1. by destruct b.
Qed.

(** Releasing a held block clears exactly its bits. *)
Lemma release_inv c i s n ws :
  ainv c -> held c !! i = Some (s, n) ->
  fetch_and_not (words c) (Z.to_nat (s / 64)) (block_mask (s mod 64) n) = Ret ws ->
  ainv (mkConfig ws (calls c) (delete i (held c))).
Proof.
  intros Hinv Hi E. pose proof Hinv as [I1 I2 I3 I4 I5 I6].
  destruct (Forall_lookup_1 _ _ _ _ I3 Hi) as (Hs & Hn & Hsn & Hmax). cbn in Hs, Hn, Hsn, Hmax.
  pose proof (ids_delete _ _ _ Hi) as Hp. cbn in Hp. rewrite Hp in I4. apply NoDup_app in I4 as (_ & Hd & Hnd).
  assert (Hw : (Z.to_nat (s / 64) < 2)%nat) by (Z.div_mod_to_equations; lia).
  unfold fetch_and_not in E. rewrite (word_lookup _ _ I1 Hw) in E. injection E as <-.
  split; cbn [words held calls].
  - by rewrite length_insert.
  - apply Forall_insert; [done|]. apply fits_land.
    apply (Forall_lookup_1 _ _ (Z.to_nat (s / 64)) _ I2). by apply word_lookup.
  - rewrite delete_take_drop. apply Forall_app. split; [by apply Forall_take|by apply Forall_drop].
  - done.
  - intros id Hid. rewrite occupied_insert by (done || lia).
    specialize (I5 id Hid). rewrite Hp, elem_of_app, elem_of_seqZ in I5.
    assert (Hx : s <= id < s + n -> id ∉ ids (delete i (held c))) by (intros H; apply Hd; by apply elem_of_seqZ).
    destruct (decide _) as [E|E]; rewrite Z2Nat.id in E by (apply Z.div_pos; lia).
    + rewrite Z.land_spec, andb_true_iff, lnot_bit by (apply Z.mod_pos_bound; lia).
      rewrite block_mask_bit by (Z.div_mod_to_equations; lia).
      unfold occupied in I5. rewrite E in I5. rewrite I5, negb_true_iff, andb_false_iff, Z.leb_gt, Z.ltb_ge.
      assert (s <= id < s + n <-> s mod 64 <= id mod 64 < s mod 64 + n) as Hm by (Z.div_mod_to_equations; lia).
      split; [intros [[?|?] ?]; [lia|done]|]. intros Hin. split; [by right|].
      destruct (Z.le_gt_cases (s mod 64) (id mod 64)); [right|by left].
      apply Z.nlt_ge. intros ?. apply Hx; [|done]. apply Hm. lia.
    + rewrite I5. split; [|by right]. intros [?|?]; [|done]. exfalso. apply E. Z.div_mod_to_equations. lia.
  - done.
Qed.

Lemma turn_inv c i p spurious ws p' :
  ainv c -> calls c !! i = Some p -> claim_step (words c) spurious p = (ws, p') ->
  ainv (mkConfig ws (<[i := p']> (calls c))
          (match p, p' with
           | Return _ _, _ => held c
           | _, Return (Some start) n => (start, n) :: held c
           | _, _ => held c
           end)).
Proof.
  intros Hinv Hi E. pose proof Hinv as [I1 I2 I3 I4 I5 I6]. pose proof (Forall_lookup_1 _ _ _ _ I6 Hi) as Hok.
  assert (Hquiet : forall q, pc_ok q -> ainv (mkConfig (words c) (<[i := q]> (calls c)) (held c))).
  { intros q Hq. split; cbn; try done. by apply Forall_insert. }
  assert (Hword : forall w, (w < 2)%nat -> fits 64 (nth w (words c) 0)).
  { intros w Hw. apply (Forall_lookup_1 _ _ w _ I2). by apply word_lookup. }
  destruct p as [w|w bits|n w|n w bits shift|r n]; cbn [claim_step] in E.
  - destruct (words c !! w) as [b|] eqn:Ew; injection E as <- <-; apply Hquiet; cbn; [|done].
    split; [rewrite <- I1; by eapply lookup_lt_Some|by apply (Forall_lookup_1 _ _ _ _ I2 Ew)].
  - destruct Hok as [Hw Hb]. destruct (Z.eqb_spec bits U64_MAX); [injection E as <- <-; by apply Hquiet|].
    destruct (negb spurious && (nth w (words c) 0 =? bits)) eqn:Ec; injection E as <- <-; [|apply Hquiet; cbn; auto].
    apply andb_true_iff in Ec as [_ Ec%Z.eqb_eq]. destruct (first_clear_spec bits Hb n) as (Hf & Hc & _).
    rewrite won_eq, one_mask by done. apply commit_inv; try done; try lia; [|by apply Forall_insert].
    intros j Hj. by replace j with (trailing_zeros (lnot 64 bits)) by lia.
  - destruct (words c !! w) as [b|] eqn:Ew; injection E as <- <-; apply Hquiet; cbn; [|done].
    split_and!; try apply Hok; [rewrite <- I1; by eapply lookup_lt_Some|apply (Forall_lookup_1 _ _ _ _ I2 Ew)|lia].
  - destruct Hok as (Hn & Hw & Hb & Hs). destruct (Z.leb_spec (shift + n) 64); [|injection E as <- <-; by apply Hquiet].
    fold (block_mask shift n) in E. destruct (Z.eqb_spec (Z.land bits (block_mask shift n)) 0) as [Hc|Hc]; cbn [negb] in E.
    2: { injection E as <- <-. apply Hquiet. cbn. split_and!; lia || done. }
    destruct (negb spurious && (nth w (words c) 0 =? bits)) eqn:Ec; injection E as <- <-;
      [|apply Hquiet; cbn; split_and!; try lia; auto].
    apply andb_true_iff in Ec as [_ Ec%Z.eqb_eq]. rewrite won_eq by lia.
    apply commit_inv; try done; try lia; [|by apply Forall_insert]. apply block_clear; done || lia.
  - injection E as <- <-. by apply Hquiet.
Qed.

Lemma areach_inv c : areach c -> ainv c.
Proof.
  induction 1 as [|c c' _ Hinv Hstep].
  - split; cbn; try by repeat constructor. intros id Hid. unfold occupied.
    rewrite nth_lookup. split; [|by intros ?%elem_of_nil].
    intros H. exfalso. destruct (Z.to_nat (id / 64)) as [|[|?]]; cbn in H; by rewrite Z.bits_0 in H.
  - pose proof Hinv as [I1 I2 I3 I4 I5 I6]. destruct Hstep as [c|c n Hn|c i p sp ws p' Hi E|c i s ws Hi E|c i s n ws Hi E].
    + split; cbn; try done. by constructor.
    + split; cbn; try done. constructor; [|done]. unfold claim_block.
      destruct (Z.eqb_spec n 0); cbn; [done|]. destruct (Z.ltb_spec 64 n); cbn; [done|lia].
    + by eapply turn_inv.
    + eapply release_inv; [done|exact Hi|]. rewrite <- one_mask by (apply Z.mod_pos_bound; lia). exact E.
    + eapply release_inv; [done|exact Hi|]. destruct (Forall_lookup_1 _ _ _ _ I3 Hi) as (Hs & Hn & Hsn & Hm). cbn in *.
      unfold release_block in E. destruct (Z.eqb_spec n 0); [lia|]. destruct (Z.ltb_spec 64 n); [|exact E].
      pose proof (Z.mod_pos_bound s 64). lia.
Qed.

(** ** A call on its own *)

(** [n] ids from [start] on are free and lie in one word. *)
Definition free_run (ws : list Z) (start n : Z) : Prop :=
  0 <= start /\ start + n <= 128 /\ start mod 64 + n <= 64 /\
  forall id, start <= id < start + n -> occupied ws id = false.

(** What a call for [n] ids answers: the least free run, which it marks, or
    [None] with the words unchanged when there is none. *)
Definition claims (ws : list Z) (n : Z) (r : option Z) (ws' : list Z) : Prop :=
  match r with
  | Some start =>
      free_run ws start n /\ (forall s, s < start -> ~ free_run ws s n) /\
      forall id, 0 <= id < 128 -> occupied ws' id = occupied ws id || ((start <=? id) && (id <? start + n))
  | None => ws' = ws /\ forall s, ~ free_run ws s n
  end.

Section alone.
Context (ws : list Z) (n : Z) (Hlen : length ws = 2%nat) (Hfit : Forall (fits 64) ws) (Hn : 0 < n <= 64).

(** No run of [n] ids starts below bit [s] of word [w]. *)
Definition none_below (w : nat) (s : Z) : Prop :=
  forall start, start < Z.of_nat w * 64 + s -> ~ free_run ws start n.

Lemma word_fits w : (w < 2)%nat -> fits 64 (nth w ws 0).
Proof. intros Hw. apply (Forall_lookup_1 _ _ w _ Hfit). by apply word_lookup. Qed.

Lemma free_run_word w s :
  (w < 2)%nat -> 0 <= s -> s + n <= 64 ->
  free_run ws (Z.of_nat w * 64 + s) n <-> forall j, s <= j < s + n -> Z.testbit (nth w ws 0) j = false.
Proof.
  intros Hw Hs Hsn. split.
  - intros (_ & _ & _ & H) j Hj. specialize (H (Z.of_nat w * 64 + j) ltac:(lia)). unfold occupied in H.
    destruct (proj1 (id_split (Z.of_nat w * 64 + j) (Z.of_nat w) j ltac:(lia)) eq_refl) as [E1 E2].
    by rewrite E1, E2, Nat2Z.id in H.
  - intros H. unfold free_run. split_and!; [lia|lia|Z.div_mod_to_equations; lia|]. intros id Hid.
    unfold occupied. pose proof (proj1 (id_split id (Z.of_nat w) (id - Z.of_nat w * 64) ltac:(lia)) ltac:(lia)) as [-> ->].
    rewrite Nat2Z.id. apply H. lia.
Qed.

Lemma none_below_step w s :
  none_below w s -> ~ free_run ws (Z.of_nat w * 64 + s) n -> none_below w (s + 1).
Proof.
  intros Hb Hf start Hs. destruct (Z.eq_dec start (Z.of_nat w * 64 + s)) as [->|]; [done|apply Hb; lia].
Qed.

Lemma none_below_word w s : 0 <= s -> 64 < s + n -> none_below w s -> none_below (w + 1) 0.
Proof.
  intros Hs Hsn Hb start Hlt Hr. destruct (Z.lt_ge_cases start (Z.of_nat w * 64 + s)); [by eapply Hb|].
  destruct Hr as (_ & _ & Hm & _). revert Hm. Z.div_mod_to_equations. lia.
Qed.

Lemma none_below_end : none_below 2 0 -> forall s, ~ free_run ws s n.
Proof. intros Hb s Hr. apply (Hb s); [|done]. destruct Hr as (_ & ? & _). lia. Qed.

Lemma claims_won w s :
  (w < 2)%nat -> 0 <= s -> s + n <= 64 -> none_below w s ->
  (forall j, s <= j < s + n -> Z.testbit (nth w ws 0) j = false) ->
  claims ws n (won w s) (<[w := Z.lor (nth w ws 0) (block_mask s n)]> ws).
Proof.
  intros Hw Hs Hsn Hb Hc. rewrite won_eq by lia. cbn. split_and!; [by apply free_run_word|exact Hb|].
  intros id Hid. rewrite occupied_insert by (done || lia). destruct (decide _) as [E|E].
  - rewrite Z.lor_spec, block_mask_bit by (try apply Z.mod_pos_bound; lia). unfold occupied. rewrite E, Nat2Z.id.
    f_equal. f_equal; apply eq_true_iff_eq; rewrite ?Z.leb_le, ?Z.ltb_lt; Z.div_mod_to_equations; lia.
  - destruct (Z.leb_spec (Z.of_nat w * 64 + s) id), (Z.ltb_spec id (Z.of_nat w * 64 + s + n)); cbn; rewrite ?orb_false_r; try done.
    exfalso. apply E. Z.div_mod_to_equations. lia.
Qed.

(** Scanning word [w] from bit [s]: within one turn per bit left, the call has
    won or moved on to the next word. *)
Lemma block_scan k w s :
  (w < 2)%nat -> 0 <= s -> Z.of_nat k = Z.max 0 (65 - n - s) -> none_below w s ->
  exists m, (m <= k + 1)%nat /\
    ((exists r ws', claims ws n r ws' /\ forall f, alone (m + f) ws (BlockLoop n w (nth w ws 0) s) = Ret (r, ws')) \/
     (none_below (w + 1) 0 /\ forall f, alone (m + f) ws (BlockLoop n w (nth w ws 0) s) = alone f ws (BlockWord n (w + 1)))).
Proof.
  intros Hw. revert s. induction k as [|k IH]; intros s Hs Hk Hb.
  - exists 1%nat. split; [lia|]. right. split; [apply (none_below_word w s); lia || done|]. intros f. cbn.
    destruct (Z.leb_spec (s + n) 64); [lia|done].
  - pose proof (word_fits w Hw) as Hf. destruct (decide (Z.land (nth w ws 0) (block_mask s n) = 0)) as [Hc|Hc].
    + exists 1%nat. split; [lia|]. left.
      exists (won w s), (<[w := Z.lor (nth w ws 0) (block_mask s n)]> ws).
      split; [apply claims_won; try done; try lia; apply block_clear; done || lia|].
      intros f. cbn. fold (block_mask s n). rewrite Hc, Z.eqb_refl.
      destruct (Z.leb_spec (s + n) 64); [|lia]. cbn. rewrite Z.eqb_refl. by destruct f.
    + destruct (IH (s + 1) ltac:(lia) ltac:(lia)) as (m & Hm & Hr).
      { apply none_below_step; [done|]. intros Hr. apply Hc, block_clear; [done|lia..|].
        apply free_run_word; done || lia. }
      exists (S m). split; [lia|].
      assert (Hs1 : forall f, alone (S m + f) ws (BlockLoop n w (nth w ws 0) s) =
                              alone (m + f) ws (BlockLoop n w (nth w ws 0) (s + 1))).
      { intros f. cbn. fold (block_mask s n). destruct (Z.leb_spec (s + n) 64); [|lia].
        destruct (Z.eqb_spec (Z.land (nth w ws 0) (block_mask s n)) 0); [done|]. done. }
      destruct Hr as [(r & ws' & Hcl & Hr)|[Hnb Hr]]; [left; exists r, ws'|right]; split; try done; intros f; by rewrite Hs1.
Qed.

Lemma block_words k w :
  (w + k = 2)%nat -> none_below w 0 ->
  exists m r ws', (m <= k * 67 + 1)%nat /\ claims ws n r ws' /\ forall f, alone (m + f) ws (BlockWord n w) = Ret (r, ws').
Proof.
  revert w. induction k as [|k IH]; intros w Hw Hb.
  - exists 1%nat, None, ws. split_and!; [lia|cbn; split; [done|apply none_below_end; by replace 2%nat with w by lia]|].
    intros f. cbn. rewrite lookup_ge_None_2 by lia. by destruct f.
  - destruct (block_scan (Z.to_nat (65 - n)) w 0 ltac:(lia) ltac:(lia) ltac:(lia) Hb) as (m & Hm & Hr).
    assert (Hs1 : forall f, alone (S m + f) ws (BlockWord n w) = alone (m + f) ws (BlockLoop n w (nth w ws 0) 0)).
    { intros f. cbn. by rewrite (word_lookup ws w) by (done || lia). }
    destruct Hr as [(r & ws' & Hcl & Hr)|[Hnb Hr]].
    + exists (S m), r, ws'. split_and!; [lia|done|]. intros f. by rewrite Hs1.
    + destruct (IH (w + 1)%nat ltac:(lia) Hnb) as (m2 & r & ws' & Hm2 & Hcl & Hr2).
      exists (S m + m2)%nat, r, ws'. split_and!; [lia|done|]. intros f.
      rewrite <- Nat.add_assoc, Hs1, Hr. apply Hr2.
Qed.
End alone.

Lemma full_word ws w :
  (w < 2)%nat -> nth w ws 0 = U64_MAX -> none_below ws 1 w 0 -> none_below ws 1 (w + 1) 0.
Proof.
  intros Hw E Hb start Hlt Hr. destruct (Z.lt_ge_cases start (Z.of_nat w * 64)); [by apply (Hb start); [lia|]|].
  destruct Hr as (_ & _ & _ & Hall). specialize (Hall start ltac:(lia)). unfold occupied in Hall.
  replace (start / 64) with (Z.of_nat w) in Hall by (Z.div_mod_to_equations; lia). rewrite Nat2Z.id, E in Hall.
  change U64_MAX with (Z.ones 64) in Hall. rewrite Z.ones_spec_low in Hall by (apply Z.mod_pos_bound; lia). done.
Qed.

Lemma one_words ws k w :
  length ws = 2%nat -> Forall (fits 64) ws -> (w + k = 2)%nat -> none_below ws 1 w 0 ->
  exists m r ws', (m <= k * 2 + 1)%nat /\ claims ws 1 r ws' /\ forall f, alone (m + f) ws (OneWord w) = Ret (r, ws').
Proof.
  intros Hlen Hfit. revert w. induction k as [|k IH]; intros w Hw Hb.
  - exists 1%nat, None, ws. split; [lia|]. split.
    { split; [done|]. apply none_below_end; [done|lia|]. by replace 2%nat with w by lia. }
    intros f. cbn. rewrite lookup_ge_None_2 by lia. by destruct f.
  - destruct (Z.eq_dec (nth w ws 0) U64_MAX) as [E|E].
    + destruct (IH (w + 1)%nat ltac:(lia)) as (m & r & ws' & Hm & Hcl & Hr); [by apply full_word; [lia|..]|].
      exists (2 + m)%nat, r, ws'. split_and!; [lia|done|]. intros f. cbn. rewrite (word_lookup ws w) by (done || lia).
      cbn. rewrite E, Z.eqb_refl. apply Hr.
    + destruct (first_clear_spec (nth w ws 0) (word_fits ws Hlen Hfit w ltac:(lia)) E) as (Hf & Hc & Hlow).
      set (b := trailing_zeros (lnot 64 (nth w ws 0))) in *.
      exists 2%nat, (won w b), (<[w := Z.lor (nth w ws 0) (Z.shiftl 1 b)]> ws). split_and!; [lia| |].
      * rewrite one_mask by lia. apply claims_won; try done; try lia.
        -- intros start Hs Hr. destruct (Z.lt_ge_cases start (Z.of_nat w * 64)); [by apply (Hb start); [lia|]|].
           destruct Hr as (_ & _ & _ & H'). specialize (H' start ltac:(lia)). unfold occupied in H'.
           pose proof (proj1 (id_split start (Z.of_nat w) (start - Z.of_nat w * 64) ltac:(lia)) ltac:(lia)) as [E1 E2].
           rewrite E1, E2, Nat2Z.id, Hlow in H' by lia. done.
        -- intros j Hj. by replace j with b by lia.
      * intros f. cbn. rewrite (word_lookup ws w) by (done || lia). cbn. fold b.
        destruct (Z.eqb_spec (nth w ws 0) U64_MAX); [done|]. rewrite Z.eqb_refl. by destruct f.
Qed.

(** C36: Worker ids are exclusive: however the compare-exchange turns and the
    releases of any number of callers interleave, with any spurious failures,
    the blocks handed out and not yet released never share an id, every id is
    routable, and an occupancy bit is set exactly for the ids handed out. *)
Theorem worker_ids_exclusive (c : config) :
  areach c ->
  NoDup (ids (held c)) /\ (forall id, id ∈ ids (held c) -> WorkerId.new id = Ok id /\ 0 <= id) /\
  (forall id, 0 <= id <= WorkerId.MAX -> occupied (words c) id = true <-> id ∈ ids (held c)).
Proof.
  intros Hr. destruct (areach_inv c Hr) as [_ _ Hb Hnd Hbits _]. split_and!; [done| |].
  - intros id (s & n & Hin & Hid)%elem_ids. pose proof (proj1 (Forall_forall _ _) Hb _ Hin) as (? & ? & ? & ?).
    cbn in *. split; [|lia]. unfold WorkerId.new, WorkerId.MAX, WorkerId.MAX_WORKERS.
    by destruct (Z.ltb_spec (128 - 1) id); [lia|].
  - intros id Hid. apply Hbits. unfold WorkerId.MAX, WorkerId.MAX_WORKERS in Hid. lia.
Qed.

(** Two racing claims of one id: the loser retries and takes the next one. *)
Lemma worker_ids_exclusive_witness :
  areach (mkConfig [3; 0] [Return (Some 1) 1; Return (Some 0) 1] [(1, 1); (0, 1)]) /\
  NoDup (ids [(1, 1); (0, 1)]).
Proof.
  assert (H : areach (mkConfig [3; 0] [Return (Some 1) 1; Return (Some 0) 1] [(1, 1); (0, 1)])).
  { eapply areach_step; [|apply (astep_turn (mkConfig [1; 0] [OneLoop 0 1; Return (Some 0) 1] [(0, 1)]) 0 (OneLoop 0 1) false [3; 0] (Return (Some 1) 1)); done].
    eapply areach_step; [|apply (astep_turn (mkConfig [1; 0] [OneLoop 0 0; Return (Some 0) 1] [(0, 1)]) 0 (OneLoop 0 0) false [1; 0] (OneLoop 0 1)); done].
    eapply areach_step; [|apply (astep_turn (mkConfig [0; 0] [OneLoop 0 0; OneLoop 0 0] []) 1 (OneLoop 0 0) false [1; 0] (Return (Some 0) 1)); done].
    eapply areach_step; [|apply (astep_turn (mkConfig [0; 0] [OneLoop 0 0; OneWord 0] []) 1 (OneWord 0) false [0; 0] (OneLoop 0 0)); done].
    eapply areach_step; [|apply (astep_turn (mkConfig [0; 0] [OneWord 0; OneWord 0] []) 0 (OneWord 0) false [0; 0] (OneLoop 0 0)); done].
    eapply areach_step; [|apply (astep_claim_one (mkConfig [0; 0] [OneWord 0] []))].
    eapply areach_step; [|apply (astep_claim_one initial)]. apply areach_init. }
  split; [exact H|]. exact (proj1 (worker_ids_exclusive _ H)).
Defined.

(** A call on its own returns within 135 turns: [claim_one] with the
    lowest free id, [claim_block] with the lowest run of free ids inside one
    word, each marked and nothing else changed; [None] exactly when there is no
    such run, in particular for a count of zero or above 64. *)
Theorem worker_claim_lowest (ws : list Z) (n : Z) :
  length ws = 2%nat -> Forall (fits 64) ws -> 0 <= n ->
  (exists r ws', alone 135 ws claim_one = Ret (r, ws') /\ claims ws 1 r ws') /\
  (exists r ws', alone 135 ws (claim_block n) = Ret (r, ws') /\
     if (n =? 0) || (64 <? n) then r = None /\ ws' = ws else claims ws n r ws').
Proof.
  intros Hl Hf Hn. assert (Hstart : forall k, none_below ws k 0 0) by (intros k s Hs (? & _); lia). split.
  - destruct (one_words ws 2 0 Hl Hf eq_refl (Hstart 1)) as (m & r & ws' & Hm & Hc & Hr). exists r, ws'.
    split; [|done]. replace 135%nat with (m + (135 - m))%nat by lia. apply Hr.
  - unfold claim_block. destruct ((n =? 0) || (64 <? n)) eqn:E; [by exists None, ws|].
    destruct (block_words ws n Hl Hf ltac:(lia) 2 0 eq_refl (Hstart n)) as (m & r & ws' & Hm & Hc & Hr). exists r, ws'.
    split; [|done]. replace 135%nat with (m + (135 - m))%nat by lia. apply Hr.
Qed.

Lemma worker_claim_lowest_witness :
  (exists r ws', alone 135 [2 ^ 64 - 1; 5] claim_one = Ret (r, ws') /\ claims [2 ^ 64 - 1; 5] 1 r ws') /\
  (exists r ws', alone 135 [2 ^ 64 - 1; 5] (claim_block 4) = Ret (r, ws') /\ claims [2 ^ 64 - 1; 5] 4 r ws').
Proof.
  assert (H : Forall (fits 64) [2 ^ 64 - 1; 5]) by (repeat constructor; unfold fits; lia).
  exact (worker_claim_lowest [2 ^ 64 - 1; 5] 4 eq_refl H ltac:(lia)).
Defined.

(** A task reference gives back what it was built from: the slab path the
    worker, the slot index and the generation, and with them the very slab
    key; the arena path the worker, the offset and the low 24 bits of the
    generation; the two paths never collide. *)
Theorem task_ref_roundtrip (w i g : Z) :
  WorkerId.wf w -> fits 32 i -> Generation.wf g ->
  let r := TaskRef.from_slab w (SlabKey.new i g) in
  let a := TaskRef.from_arena w i g in
  TaskRef.is_arena r = false /\ TaskRef.worker_id r = w /\ TaskRef.key r = SlabKey.new i g /\
  TaskRef.is_arena a = true /\ TaskRef.worker_id a = w /\ TaskRef.generation a = g /\ TaskRef.index a = i /\
  fits 64 r /\ fits 64 a.
Proof.
  intros Hw Hi Hg. cbv zeta. destruct (TaskRef.from_slab_fields w i g Hw Hi Hg) as (Ht & Ew & _ & _).
  pose proof (TaskRef.key_from_slab w i g Hw Hi Hg) as Ek.
  assert (Hw' : 0 <= w < 2 ^ 7) by (unfold WorkerId.wf, WorkerId.MAX, WorkerId.MAX_WORKERS in Hw; lia).
  pose proof (TaskRef.from_slab_packed w i g ltac:(lia) Hi Hg) as Es.
  pose proof (TaskRef.from_arena_packed w i g ltac:(lia) Hi) as Ea.
  unfold Generation.wf, Generation.GENERATION_BITS in Hg. rewrite (Z.mod_small w) in Es, Ea by lia.
  rewrite (Z.mod_small g) in Ea by exact Hg. rewrite Ea.
  destruct (TaskRef.packed_fields 1 w g i Hw' Hg Hi) as (At & Aw & Ag & Ai).
  split_and!; try done; [rewrite Es|]; unfold TaskRef.packed, fits in *; lia.
Qed.

Lemma task_ref_roundtrip_witness :
  TaskRef.key (TaskRef.from_slab 127 (SlabKey.new 5 3)) = SlabKey.new 5 3.
Proof.
  refine (proj1 (proj2 (proj2 (task_ref_roundtrip 127 5 3 _ _ _))));
    unfold WorkerId.wf, Generation.wf, fits; vm_compute; split; congruence.
Defined.
End AllocThms.
