(* ===== verification/WorkerRing.v ===== *)
(** * The worker's bounded inboxes

    Models the fixed-capacity rings of src/crates/kwokka-runtime/src/worker/queue/:
    [SpawnInbox] (inbox.rs), [TimerInbox] (arm.rs) and [ReapQueue] (reap.rs).
    The three share one layout, an array of [N] optional slots (a power of two)
    with wrapping [usize] cursors, and differ in what a full push answers.
    [Module Ring] is that layout; each inbox is its instance. *)

From S2P Require Import Prelude.
From stdpp Require Import base tactics list numbers.

Local Open Scope Z_scope.

Module Ring.

Record ring (A : Type) : Type := mkRing {
  slots : list (option A);
  head : Z;
  tail : Z;
}.
Arguments mkRing {A} _ _ _.
Arguments slots {A} _.
Arguments head {A} _.
Arguments tail {A} _.

Section ops.
Context {A : Type} (N : Z).

Definition new : ring A := mkRing (replicate (Z.to_nat N) None) 0 0.

(** [self.tail.wrapping_sub(self.head)]. *)
Definition len (r : ring A) : Z := wrap USIZE (tail r - head r).

(** The position a cursor stands for, [cursor & (N - 1)]. *)
Definition at_ (cursor : Z) : nat := Z.to_nat (Z.land cursor (N - 1)).

(** [true] when there was room. *)
Definition push (r : ring A) (a : A) : outcome (bool * ring A) :=
  if N <=? len r then Ret (false, r) else
  match slots r !! at_ (tail r) with
  | None => Panic
  | Some _ => Ret (true, mkRing (<[at_ (tail r) := Some a]> (slots r)) (head r) (wrap USIZE (tail r + 1)))
  end.

Definition pop (r : ring A) : outcome (option A * ring A) :=
  if head r =? tail r then Ret (None, r) else
  match slots r !! at_ (head r) with
  | None => Panic
  | Some a => Ret (a, mkRing (<[at_ (head r) := None]> (slots r)) (wrap USIZE (head r + 1)) (tail r))
  end.

(** What dropping the array drops, in slot order. *)
Definition contents (r : ring A) : list A := slots r ≫= fun o => match o with Some a => [a] | None => [] end.
End ops.
End Ring.

(** inbox.rs; [C] is the type of the erased child cells. *)
Module SpawnInbox.
Import Ring.

Definition SPAWN_INBOX_CAPACITY : Z := 64.

Record PendingSpawn (C : Type) : Type := mkPending { parent : Z; pcell : C }.
Arguments mkPending {C} _ _.
Arguments parent {C} _.
Arguments pcell {C} _.

Section ops.
Context {C : Type}.

Definition new : ring (PendingSpawn C) := Ring.new SPAWN_INBOX_CAPACITY.

(** Hands the request back when the inbox is full. *)
Definition push (r : ring (PendingSpawn C)) (request : PendingSpawn C)
    : outcome (option (PendingSpawn C) * ring (PendingSpawn C)) :=
  '(room, r) ← Ring.push SPAWN_INBOX_CAPACITY r request;
  Ret (if room : bool then None else Some request, r).

Definition pop : ring (PendingSpawn C) -> outcome (option (PendingSpawn C) * ring (PendingSpawn C)) :=
  Ring.pop SPAWN_INBOX_CAPACITY.
End ops.
End SpawnInbox.

(** arm.rs *)
Module TimerInbox.
Import Ring.

Definition TIMER_INBOX_CAPACITY : Z := 64.

Record TimerRequest : Type := mkRequest { task_ref : Z; delay_ticks : Z }.

Definition new : ring TimerRequest := Ring.new TIMER_INBOX_CAPACITY.
Definition push : ring TimerRequest -> TimerRequest -> outcome (bool * ring TimerRequest) :=
  Ring.push TIMER_INBOX_CAPACITY.
Definition pop : ring TimerRequest -> outcome (option TimerRequest * ring TimerRequest) :=
  Ring.pop TIMER_INBOX_CAPACITY.
End TimerInbox.

(** reap.rs; the queue holds task references. *)
Module ReapQueue.
Import Ring.

Definition REAP_QUEUE_CAPACITY : Z := 64.

Definition new : ring Z := Ring.new REAP_QUEUE_CAPACITY.
Definition push : ring Z -> Z -> outcome (bool * ring Z) := Ring.push REAP_QUEUE_CAPACITY.
Definition pop : ring Z -> outcome (option Z * ring Z) := Ring.pop REAP_QUEUE_CAPACITY.
End ReapQueue.

(** ** The bounded FIFO they implement *)

Module RingThms.
Import Ring.

Section fifo.
Context {A : Type} (N : Z).

(** [r] holds the queue [q], oldest first: entry [i] sits [i] places after the
    head, and every other slot is empty. *)
Record holds (r : ring A) (q : list A) : Prop := {
  h_slots : Z.of_nat (length (slots r)) = N;
  h_head : fits USIZE (head r);
  h_tail : tail r = wrap USIZE (head r + Z.of_nat (length q));
  h_len : Z.of_nat (length q) <= N;
  h_at j : (j < length (slots r))%nat ->
    slots r !! j = Some (q !! Z.to_nat ((Z.of_nat j - head r) mod N));
}.

Context (k : Z) (Hk : 0 <= k < 64) (HN : N = 2 ^ k).

Lemma N_pos : 0 < N < 2 ^ 64.
Proof. subst N. split; [apply Z.pow_pos_nonneg; lia|apply Z.pow_lt_mono_r; lia]. Qed.

Lemma wrap_mod_N x : wrap USIZE x mod N = x mod N.
Proof.
  unfold wrap. subst N. replace (2 ^ USIZE) with (2 ^ (64 - k) * 2 ^ k) by (rewrite <- Z.pow_add_r by lia; f_equal; lia).
  rewrite Z.mul_comm, Z.rem_mul_r by (try apply Z.pow_nonzero; try apply Z.pow_pos_nonneg; lia).
  rewrite Z.mul_comm, Z.mod_add by (apply Z.pow_nonzero; lia). apply Z.mod_mod, Z.pow_nonzero; lia.
Qed.

Lemma at_mod x : at_ N x = Z.to_nat (x mod N).
Proof. unfold at_. subst N. by rewrite land_ones_mod by lia. Qed.

Lemma holds_len r q : holds r q -> len r = Z.of_nat (length q).
Proof.
  intros [_ Hh Ht Hl _]. pose proof N_pos. unfold len. rewrite Ht. unfold wrap.
  rewrite Zminus_mod_idemp_l. replace (head r + Z.of_nat (length q) - head r) with (Z.of_nat (length q)) by lia.
  apply Z.mod_small. lia.
Qed.

(** The distance of a slot from the head moves as the cursor does. *)
Lemma distance j x d :
  0 <= d < N -> (j - x) mod N = d <-> j mod N = (x + d) mod N.
Proof.
  intros Hd. pose proof N_pos. split.
  - intros <-. rewrite Zplus_mod_idemp_r. f_equal. lia.
  - intros E. rewrite Zminus_mod, E, <- Zminus_mod. replace (x + d - x) with d by lia. by apply Z.mod_small.
Qed.

Lemma ring_holds_new : holds (new N) [].
Proof.
  pose proof N_pos. split; cbn; [rewrite length_replicate; lia|unfold fits; lia|done|lia|].
  intros j Hj. rewrite length_replicate in Hj. by rewrite lookup_replicate_2.
Qed.

Lemma push_holds r q a :
  holds r q ->
  exists r', push N r a = Ret (Z.of_nat (length q) <? N, r') /\
    holds r' (if Z.of_nat (length q) <? N then q ++ [a] else q) /\
    (Z.of_nat (length q) <? N = false -> r' = r).
Proof.
  intros H. pose proof N_pos. unfold push. rewrite (holds_len r q H).
  destruct H as [Hs Hh Ht Hl Hat].
  destruct (Z.leb_spec N (Z.of_nat (length q))), (Z.ltb_spec (Z.of_nat (length q)) N); try lia; [by exists r|].
  assert (Hpos : at_ N (tail r) = Z.to_nat ((head r + Z.of_nat (length q)) mod N)).
  { by rewrite at_mod, Ht, wrap_mod_N. }
  pose proof (Z.mod_pos_bound (head r + Z.of_nat (length q)) N ltac:(lia)) as Hb.
  rewrite Hat by lia. eexists. split; [done|]. split; [|done].
  split; cbn; [by rewrite length_insert|done|rewrite Ht; unfold wrap; rewrite Zplus_mod_idemp_l, length_app; cbn; f_equal; lia|rewrite length_app; cbn; lia|].
  intros j Hj. rewrite length_insert in Hj. destruct (decide (j = at_ N (tail r))) as [E|E].
  - rewrite E, list_lookup_insert_eq by lia. f_equal. symmetry. apply list_lookup_middle.
    assert ((Z.of_nat (at_ N (tail r)) - head r) mod N = Z.of_nat (length q)) as ->; [|lia].
    apply distance; [lia|]. rewrite Hpos, Z2Nat.id by lia. apply Z.mod_mod. lia.
  - rewrite list_lookup_insert_ne, Hat by done. f_equal.
    pose proof (Z.mod_pos_bound (Z.of_nat j - head r) N ltac:(lia)).
    destruct (decide (Z.to_nat ((Z.of_nat j - head r) mod N) < length q)%nat); [by rewrite lookup_app_l|].
    rewrite lookup_app_r by lia. rewrite lookup_ge_None_2 by lia. symmetry. apply lookup_ge_None_2. cbn.
    assert ((Z.of_nat j - head r) mod N <> Z.of_nat (length q)) as Hne; [|lia].
    intros Ed%distance; [|lia]. apply E. rewrite Z.mod_small in Ed by lia. lia.
Qed.

Lemma pop_holds r q :
  holds r q ->
  exists r', pop N r = Ret (List.hd_error q, r') /\ holds r' (List.tl q) /\ (q = [] -> r' = r).
Proof.
  intros H. pose proof N_pos. pose proof (holds_len r q H) as Hlen. unfold pop. destruct H as [Hs Hh Ht Hl Hat].
  destruct q as [|a q]; cbn [length] in *.
  - rewrite Z.add_0_r in Ht. unfold wrap in Ht. rewrite Z.mod_small in Ht by exact Hh. rewrite Ht, Z.eqb_refl.
    exists r. split; [done|]. split; [|done]. split; try done. cbn. rewrite Z.add_0_r. unfold wrap. by rewrite Z.mod_small.
  - destruct (Z.eqb_spec (head r) (tail r)) as [E|E].
    { unfold len in Hlen. rewrite <- E, Z.sub_diag in Hlen. unfold wrap in Hlen. rewrite Z.mod_0_l in Hlen by lia. lia. }
    pose proof (Z.mod_pos_bound (head r) N ltac:(lia)) as Hb.
    assert (Hpos : at_ N (head r) = Z.to_nat (head r mod N)) by apply at_mod.
    rewrite Hat by lia.
    assert ((Z.of_nat (at_ N (head r)) - head r) mod N = 0) as Hd.
    { apply distance; [lia|]. rewrite Hpos, Z2Nat.id, Z.add_0_r by lia. apply Z.mod_mod. lia. }
    rewrite Hd. cbn. eexists. split; [done|]. split; [|done].
    split; cbn [head slots tail]; [by rewrite length_insert|apply Z.mod_pos_bound; lia| |lia|].
    + rewrite Ht. unfold wrap. rewrite Zplus_mod_idemp_l. f_equal. lia.
    + intros j Hj. rewrite length_insert in Hj.
      assert (Hnext : (Z.of_nat j - wrap USIZE (head r + 1)) mod N = (Z.of_nat j - (head r + 1)) mod N).
      { rewrite Zminus_mod, wrap_mod_N, <- Zminus_mod. done. }
      rewrite Hnext. pose proof (Z.mod_pos_bound (Z.of_nat j - (head r + 1)) N ltac:(lia)) as Hm.
      destruct (decide (j = at_ N (head r))) as [Ej|Ej].
      * rewrite Ej, list_lookup_insert_eq by lia. f_equal. symmetry. apply lookup_ge_None_2.
        assert ((Z.of_nat (at_ N (head r)) - (head r + 1)) mod N = N - 1) as ->; [|lia].
        apply distance; [lia|]. rewrite Hpos, Z2Nat.id by lia. rewrite Z.mod_mod by lia.
        replace (head r + 1 + (N - 1)) with (head r + 1 * N) by lia. by rewrite Z.mod_add by lia.
      * rewrite list_lookup_insert_ne, Hat by done. f_equal.
        assert ((Z.of_nat j - head r) mod N = (Z.of_nat j - (head r + 1)) mod N + 1) as ->.
        { apply distance.
          - split; [lia|]. destruct (Z.eq_dec ((Z.of_nat j - (head r + 1)) mod N) (N - 1)) as [Ed|]; [|lia].
            exfalso. apply distance in Ed; [|lia]. apply Ej. rewrite Hpos.
            replace (head r + 1 + (N - 1)) with (head r + 1 * N) in Ed by lia. rewrite Z.mod_add in Ed by lia.
            rewrite Z.mod_small in Ed by lia. lia.
          - rewrite (Z.add_comm _ 1), Z.add_assoc, Zplus_mod_idemp_r. f_equal. lia. }
        rewrite Z2Nat.inj_add, Nat.add_1_r by lia. done.
Qed.

(** The slots hold the queue's entries, rotated, and nothing else. *)
Definition entry (q : list A) (i : nat) : list A := match q !! i with Some a => [a] | None => [] end.

Lemma entries_list q m : (length q <= m)%nat -> seq 0 m ≫= entry q = q.
Proof.
  revert q. induction m as [|m IH]; intros q Hm; [by destruct q; [|cbn in Hm; lia]|].
  destruct q as [|a q].
  - clear. assert (forall l, l ≫= entry [] = []) as H; [|apply H]. intros l. induction l; [done|]. rewrite bind_cons. by rewrite IHl.
  - cbn [seq]. rewrite bind_cons. unfold entry at 1. cbn [lookup list_lookup app]. f_equal.
    rewrite <- (IH q ltac:(cbn in Hm; lia)) at 2. rewrite <- fmap_S_seq.
    generalize (seq 0 m). intros l. induction l as [|i l IHl]; [done|]. rewrite fmap_cons, !bind_cons. by rewrite IHl.
Qed.

Lemma holds_contents r q : holds r q -> contents r ≡ₚ q.
Proof.
  intros [Hs Hh Ht Hl Hat]. pose proof N_pos. set (n := length (slots r)) in *.
  set (f := fun j => Z.to_nat ((Z.of_nat j - head r) mod N)).
  assert (Hf : contents r = (f <$> seq 0 n) ≫= entry q).
  { assert (slots r = (fun j => q !! f j) <$> seq 0 n) as E.
    { apply list_eq. intros j. rewrite list_lookup_fmap. destruct (decide (j < n)%nat).
      - rewrite Hat, lookup_seq_lt by done. done.
      - rewrite lookup_ge_None_2 by (fold n; lia). by rewrite lookup_seq_ge by lia. }
    unfold contents. rewrite E. generalize (seq 0 n). intros l. induction l as [|j l IHl]; [done|].
    rewrite !fmap_cons, !bind_cons. by rewrite IHl. }
  rewrite Hf. rewrite <- (entries_list q n) at 2 by lia.
  assert (f <$> seq 0 n ≡ₚ seq 0 n) as ->; [|done].
  assert (NoDup (f <$> seq 0 n)) as Hnd.
  { apply NoDup_fmap_2_strong; [|apply NoDup_seq]. intros i j Hi%elem_of_seq Hj%elem_of_seq E. unfold f in E.
    pose proof (Z.mod_pos_bound (Z.of_nat i - head r) N ltac:(lia)).
    pose proof (Z.mod_pos_bound (Z.of_nat j - head r) N ltac:(lia)).
    assert ((Z.of_nat i - head r) mod N = (Z.of_nat j - head r) mod N) as E' by lia.
    apply (distance (Z.of_nat i) (head r) ((Z.of_nat j - head r) mod N)) in E'; [|done]. rewrite Zplus_mod_idemp_r in E'.
    replace (head r + (Z.of_nat j - head r)) with (Z.of_nat j) in E' by lia. rewrite !Z.mod_small in E' by lia. lia. }
  apply submseteq_length_Permutation; [|by rewrite length_fmap].
  apply NoDup_submseteq; [done|]. intros x (j & -> & Hj)%list_elem_of_fmap. apply elem_of_seq. unfold f.
  pose proof (Z.mod_pos_bound (Z.of_nat j - head r) N ltac:(lia)). lia.
Qed.

(** ** Traces *)

Inductive op : Type := OPush (a : A) | OPop.
Inductive reply : Type := RPush (room : bool) | RPop (o : option A).

Definition step (r : ring A) (o : op) : outcome (reply * ring A) :=
  match o with
  | OPush a => '(b, r) ← push N r a; Ret (RPush b, r)
  | OPop => '(x, r) ← pop N r; Ret (RPop x, r)
  end.

(** The abstract queue of at most [N] entries. *)
Definition spec_step (q : list A) (o : op) : reply * list A :=
  match o with
  | OPush a => if Z.of_nat (length q) <? N then (RPush true, q ++ [a]) else (RPush false, q)
  | OPop => match q with [] => (RPop None, []) | a :: q => (RPop (Some a), q) end
  end.

Fixpoint run (r : ring A) (os : list op) : outcome (list reply * ring A) :=
  match os with
  | [] => Ret ([], r)
  | o :: os => '(x, r) ← step r o; '(xs, r) ← run r os; Ret (x :: xs, r)
  end.

Fixpoint spec_run (q : list A) (os : list op) : list reply * list A :=
  match os with
  | [] => ([], q)
  | o :: os => let '(x, q) := spec_step q o in let '(xs, q) := spec_run q os in (x :: xs, q)
  end.

Lemma ring_step_holds r q o :
  holds r q -> exists r', step r o = Ret ((spec_step q o).1, r') /\ holds r' (spec_step q o).2.
Proof.
  intros H. destruct o as [a|]; cbn.
  - destruct (push_holds r q a H) as (r' & -> & Hr' & _). exists r'. cbn.
    by destruct (Z.of_nat (length q) <? N).
  - destruct (pop_holds r q H) as (r' & -> & Hr' & _). exists r'. cbn. by destruct q.
Qed.

Lemma ring_run_holds os r q :
  holds r q -> exists r', run r os = Ret ((spec_run q os).1, r') /\ holds r' (spec_run q os).2.
Proof.
  revert r q. induction os as [|o os IH]; intros r q H; [by exists r|]. cbn.
  destruct (ring_step_holds r q o H) as (r1 & -> & H1). destruct (spec_step q o) as [x q1]. cbn in *.
  destruct (IH r1 q1 H1) as (r2 & -> & H2). cbn. destruct (spec_run q1 os) as [xs q2]. by exists r2.
Qed.
End fifo.

(** The rings behind the spawn, timer and reap inboxes are bounded FIFO
    queues: for any power-of-two capacity, every sequence of pushes and pops on
    a fresh ring runs without panicking, across any number of wrap-arounds of
    the cursors, and answers exactly as a list of at most [N] entries does; the
    slots then hold exactly the undrained entries, which is what dropping the
    ring releases. *)
Theorem ring_refines_fifo {A : Type} (k : Z) (os : list (op (A := A))) :
  0 <= k < 64 ->
  exists r, run (2 ^ k) (new (2 ^ k)) os = Ret ((spec_run (2 ^ k) [] os).1, r) /\
    contents r ≡ₚ (spec_run (2 ^ k) [] os).2.
Proof.
  intros Hk. destruct (ring_run_holds (2 ^ k) k Hk eq_refl os (new (2 ^ k)) []) as (r & E & H).
  - by eapply ring_holds_new.
  - exists r. split; [done|]. by eapply holds_contents.
Qed.

Lemma ring_refines_fifo_witness :
  exists r, run 2 (new 2) [OPush 1; OPush 2; OPush 3; OPop; OPush 4; OPop; OPop; OPop] =
    Ret ([RPush true; RPush true; RPush false; RPop (Some 1); RPush true; RPop (Some 2); RPop (Some 4); RPop None], r).
Proof.
  destruct (ring_refines_fifo 1 [OPush 1; OPush 2; OPush 3; OPop; OPush 4; OPop; OPop; OPop] ltac:(lia)) as (r & E & _).
  exists r. exact E.
Defined.
End RingThms.
