(* ===== verification/TaskSlots.v ===== *)
(** * Task slots in the worker's slab

    Models src/crates/kwokka-runtime/src/task/cell/header.rs ([WakeData],
    [TaskHeader]), the construction of a slot (layout.rs, lifecycle.rs
    [spawn_insert]) and src/crates/kwokka-runtime/src/task/cell/storage.rs, the
    [TaskStorage] implementation of the slab.  A slot is its header together
    with the two halves of its cell; the vtable is not data of the model.

    [TaskStorage w S] is what the list helpers, the run queue and the worker
    cycle assume of the slab on worker [w]: a map from the task references of
    that worker to slots. *)

From S2P Require Import Prelude GenKey SlabAlloc SlabFacts SlabThms SlabStore TaskRefId TaskCell.
From stdpp Require Import base tactics list numbers sets.

Local Open Scope Z_scope.

Module TaskSlot.

Record WakeData : Type := mkWake { wd_result : Z; flags : Z; buf_id : Z; has_result : bool }.

Definition NO_BUF : Z := 2 ^ 16 - 1.
Definition EMPTY : WakeData := mkWake 0 0 NO_BUF false.

Record slot : Type := mkSlot {
  cell : TaskCell.cell;
  pip : Z;
  namespace : Z;
  first_child : option Z;
  next_sibling : option Z;
  wake_data : WakeData;
  in_flight_ops : Z;
  is_pinned : bool;
  is_remote_settled : bool;
  has_polled : bool;
  io_bound : bool;
  next_runnable : option Z;
}.

Definition set_cell x s := mkSlot x (pip s) (namespace s) (first_child s) (next_sibling s) (wake_data s)
  (in_flight_ops s) (is_pinned s) (is_remote_settled s) (has_polled s) (io_bound s) (next_runnable s).
Definition set_pip x s := mkSlot (cell s) x (namespace s) (first_child s) (next_sibling s) (wake_data s)
  (in_flight_ops s) (is_pinned s) (is_remote_settled s) (has_polled s) (io_bound s) (next_runnable s).
Definition set_first_child x s := mkSlot (cell s) (pip s) (namespace s) x (next_sibling s) (wake_data s)
  (in_flight_ops s) (is_pinned s) (is_remote_settled s) (has_polled s) (io_bound s) (next_runnable s).
Definition set_next_sibling x s := mkSlot (cell s) (pip s) (namespace s) (first_child s) x (wake_data s)
  (in_flight_ops s) (is_pinned s) (is_remote_settled s) (has_polled s) (io_bound s) (next_runnable s).
Definition set_wake_data x s := mkSlot (cell s) (pip s) (namespace s) (first_child s) (next_sibling s) x
  (in_flight_ops s) (is_pinned s) (is_remote_settled s) (has_polled s) (io_bound s) (next_runnable s).
Definition set_in_flight x b s := mkSlot (cell s) (pip s) (namespace s) (first_child s) (next_sibling s) (wake_data s)
  x (is_pinned s) (is_remote_settled s) (has_polled s) b (next_runnable s).
Definition set_has_polled x s := mkSlot (cell s) (pip s) (namespace s) (first_child s) (next_sibling s) (wake_data s)
  (in_flight_ops s) (is_pinned s) (is_remote_settled s) x (io_bound s) (next_runnable s).
Definition set_next_runnable x s := mkSlot (cell s) (pip s) (namespace s) (first_child s) (next_sibling s) (wake_data s)
  (in_flight_ops s) (is_pinned s) (is_remote_settled s) (has_polled s) (io_bound s) x.

Definition state (s : slot) : TaskState.AtomicTaskState := TaskCell.st (cell s).
Definition set_state x (s : slot) : slot := set_cell (TaskCell.set_st x (cell s)) s.

(** [Slot::new(pip, namespace, future)] with [TaskHeader::new]. *)
Definition new (pip namespace : Z) : slot :=
  mkSlot TaskCell.new_cell pip namespace None None EMPTY 0 false false false false None.

Definition retire_in_flight_op (s : slot) : slot :=
  set_in_flight (saturating_sub (in_flight_ops s) 1) (io_bound s) s.

Definition store_io_result (result flags : Z) (buf_id : option Z) (s : slot) : slot :=
  retire_in_flight_op (set_wake_data (mkWake result flags (default NO_BUF buf_id) true) s).

End TaskSlot.

(** ** The interface *)

(** The references of worker [w]: those [TaskRef::from_slab] builds from keys
    the slab hands out. *)
Definition ref_of (w r : Z) : Prop :=
  WorkerId.wf w /\ exists i g, fits 32 i /\ Generation.wf g /\ Generation.is_occupied g = true /\
    r = TaskRef.from_slab w (SlabKey.new i g).

(** Reading and writing the cells in place: what the run queue needs. *)
Class TaskCells (w : Z) (S : Type) := {
  ts_get : S -> Z -> outcome (option TaskSlot.slot);
  ts_get_mut : S -> Z -> outcome (option (TaskSlot.slot * (TaskSlot.slot -> S)));

  ts_wf : S -> Prop;
  ts_at : S -> Z -> option TaskSlot.slot;
  ts_cap : S -> nat;

  ts_get_spec s r : ts_wf s -> ref_of w r -> ts_get s r = Ret (ts_at s r);
  ts_get_mut_spec s r : ts_wf s -> ref_of w r ->
    match ts_at s r with
    | None => ts_get_mut s r = Ret None
    | Some v => exists st, ts_get_mut s r = Ret (Some (v, st)) /\ forall v',
        ts_wf (st v') /\ ts_cap (st v') = ts_cap s /\
        forall r', ref_of w r' -> ts_at (st v') r' = if decide (r' = r) then Some v' else ts_at s r'
    end;
  ts_cap_bound s : ts_wf s -> Z.of_nat (ts_cap s) < 2 ^ 32;
  ts_bound s (l : list Z) : ts_wf s -> NoDup l ->
    Forall (fun r => ref_of w r /\ is_Some (ts_at s r)) l -> (length l <= ts_cap s)%nat;
}.

(** The whole storage: cells come and go. *)
Class TaskStorage (w : Z) (S : Type) := {
  #[global] ts_cells :: TaskCells w S;
  ts_insert : S -> TaskSlot.slot -> outcome (result Slab.SlabError Z * S);
  ts_remove : S -> Z -> outcome (option TaskSlot.slot * S);
  ts_retire_slot : S -> Z -> outcome (bool * S);

  ts_insert_spec s v : ts_wf s -> WorkerId.wf w ->
    match ts_insert s v with
    | Ret (Ok key, s') =>
        let r := TaskRef.from_slab w key in
        ts_wf s' /\ ref_of w r /\ ts_cap s' = ts_cap s /\ ts_at s r = None /\
        forall r', ref_of w r' -> ts_at s' r' = if decide (r' = r) then Some v else ts_at s r'
    | Ret (Err _, s') => s' = s
    | _ => False
    end;
  ts_insert_full s v e s' : ts_wf s -> WorkerId.wf w -> ts_insert s v = Ret (Err e, s') ->
    exists l, NoDup l /\ Forall (fun r => ref_of w r /\ is_Some (ts_at s r)) l /\ length l = ts_cap s;
  ts_remove_spec s r v : ts_wf s -> ref_of w r -> ts_at s r = Some v ->
    exists s', ts_remove s r = Ret (Some v, s') /\ ts_wf s' /\ ts_cap s' = ts_cap s /\
      forall r', ref_of w r' -> ts_at s' r' = if decide (r' = r) then None else ts_at s r';
  ts_retire_slot_spec s r v : ts_wf s -> ref_of w r -> ts_at s r = Some v ->
    exists s', ts_retire_slot s r = Ret (true, s') /\ ts_wf s' /\ ts_cap s' = ts_cap s /\
      forall r', ref_of w r' -> ts_at s' r' = if decide (r' = r) then None else ts_at s r';
}.

(** When [get_mut] finds the slot, assign [f] of it; [true] when it did. *)
Definition ts_modify {w S} `{!TaskCells w S} (s : S) (r : Z) (f : TaskSlot.slot -> TaskSlot.slot) : outcome (bool * S) :=
  x ← ts_get_mut s r;
  Ret (match x with None => (false, s) | Some (v, st) => (true, st (f v)) end).

Lemma ts_modify_spec {w S} `{!TaskCells w S} (s : S) r f :
  ts_wf s -> ref_of w r ->
  match ts_at s r with
  | None => ts_modify s r f = Ret (false, s)
  | Some v => exists s', ts_modify s r f = Ret (true, s') /\ ts_wf s' /\ ts_cap s' = ts_cap s /\
      forall r', ref_of w r' -> ts_at s' r' = if decide (r' = r) then Some (f v) else ts_at s r'
  end.
Proof.
  intros W Hr. pose proof (ts_get_mut_spec s r W Hr) as H. unfold ts_modify.
  destruct (ts_at s r) as [v|]; [|by rewrite H]. destruct H as (st & -> & H). exists (st (f v)). cbn. split; [done|]. apply H.
Qed.

(** ** The slab implements it *)

Section slab_tasks.
Context {S : Type} `{!EntryStore TaskSlot.slot S} (w : Z).

Definition at_ref (s : S) (r : Z) : option TaskSlot.slot :=
  '(g, v) ← es_view s (SlabSpec.key_index (TaskRef.key r)); if g =? SlabKey.generation (TaskRef.key r) then Some v else None.

(** A reference is its slot index and its generation. *)
Record keyed (r : Z) (i : nat) (g : Z) : Prop := {
  k_index : SlabSpec.key_index (TaskRef.key r) = i;
  k_gen : SlabKey.generation (TaskRef.key r) = g;
  k_live : SlabSpec.live_key (TaskRef.key r);
  k_ref : r = TaskRef.from_slab w (SlabKey.new (Z.of_nat i) g);
}.

Lemma ref_keyed r : ref_of w r -> exists i g, keyed r i g.
Proof.
  intros (Hw & i & g & Hi & Hg & Ho & ->). exists (Z.to_nat i), g. pose proof (TaskRef.key_from_slab w i g Hw Hi Hg) as E.
  split; unfold SlabSpec.key_index, SlabSpec.live_key; rewrite ?E, ?SlabKey.index_new, ?SlabKey.generation_new by done; try done.
  rewrite Z2Nat.id; [done|unfold fits in Hi; lia].
Qed.

Lemma keyed_at s r i g : keyed r i g -> at_ref s r = '(g', v) ← es_view s i; if g' =? g then Some v else None.
Proof. intros [<- <- _ _]. done. Qed.

Lemma keyed_inj r r' i g : keyed r i g -> keyed r' i g -> r = r'.
Proof. intros [_ _ _ ->] [_ _ _ ->]. done. Qed.

(** Content after the slot of [r] changed to [c]. *)
Lemma at_ref_upd s s' r i g c r' :
  keyed r i g -> ref_of w r' -> (forall v, c = Some v -> v.1 = g) ->
  (forall v, es_view s i = Some v -> v.1 = g) ->
  (forall j, es_view s' j = SlabSpec.upd (es_view s) i c j) ->
  at_ref s' r' = if decide (r' = r) then snd <$> c else at_ref s r'.
Proof.
  intros K (i' & g' & K')%ref_keyed Hc Hold Hv. rewrite (keyed_at s' r' i' g' K'), Hv. unfold SlabSpec.upd.
  destruct (decide (r' = r)) as [-> |Hne].
  - assert (i' = i) as -> by (destruct K, K'; congruence). assert (g' = g) as -> by (destruct K, K'; congruence).
    rewrite decide_True by done. destruct c as [[g0 v]|]; [|done]. specialize (Hc _ eq_refl). cbn in *. subst g0. by rewrite Z.eqb_refl.
  - rewrite (keyed_at s r' i' g' K'). destruct (decide (i' = i)) as [-> |]; [|done]. assert (g <> g') as Hg by (intros ->; apply Hne; by eapply keyed_inj).
    destruct c as [[g0 v]|], (es_view s i) as [[g1 v1]|] eqn:E; cbn;
      try specialize (Hc _ eq_refl); try specialize (Hold _ eq_refl); cbn in *; subst; rewrite ?(proj2 (Z.eqb_neq g g')) by done; done.
Qed.

Lemma slab_ts_get s r : es_wf s -> ref_of w r -> es_get s (TaskRef.key r) = Ret (at_ref s r).
Proof. intros W (i & g & K)%ref_keyed. apply (es_get_spec s _ W), K. Qed.

Lemma at_ref_view s r i g v : keyed r i g -> at_ref s r = Some v -> es_view s i = Some (g, v).
Proof.
  intros K. rewrite (keyed_at s r i g K). destruct (es_view s i) as [[g' v']|]; [|done]. cbn.
  destruct (Z.eqb_spec g' g); [|done]. by intros [= ->]; subst.
Qed.

Lemma slab_ts_get_mut s r : es_wf s -> ref_of w r ->
  match at_ref s r with
  | None => es_get_mut s (TaskRef.key r) = Ret None
  | Some v => exists st, es_get_mut s (TaskRef.key r) = Ret (Some (v, st)) /\ forall v',
      es_wf (st v') /\ es_cap (st v') = es_cap s /\
      forall r', ref_of w r' -> at_ref (st v') r' = if decide (r' = r) then Some v' else at_ref s r'
  end.
Proof.
  intros W (i & g & K)%ref_keyed. pose proof (es_get_mut_spec s (TaskRef.key r) W (k_live _ _ _ K)) as H.
  fold (at_ref s r) in H. destruct (at_ref s r) as [v|] eqn:E; [|done]. destruct H as (st & Hst & H). exists st.
  split; [done|]. intros v'. destruct (H v') as (W' & Hc & Hv). split_and!; [done|done|]. intros r' Hr'.
  pose proof (at_ref_view _ _ _ _ _ K E) as Ei. rewrite (k_index _ _ _ K), (k_gen _ _ _ K) in Hv.
  apply (at_ref_upd s _ r i g (Some (g, v'))); [done|done|by intros ? [= <-]|by intros ? ?; simplify_eq|done].
Qed.

Lemma slab_ts_insert s v : es_wf s -> WorkerId.wf w ->
  match es_insert s v with
  | Ret (Ok key, s') =>
      let r := TaskRef.from_slab w key in
      es_wf s' /\ ref_of w r /\ es_cap s' = es_cap s /\ at_ref s r = None /\
      forall r', ref_of w r' -> at_ref s' r' = if decide (r' = r) then Some v else at_ref s r'
  | Ret (Err _, s') => s' = s
  | _ => False
  end.
Proof.
  intros W Hw. pose proof (es_insert_spec s v W) as H. pose proof (es_insert_key s v) as Hkey.
  destruct (es_insert s v) as [[[key|e] s']| | |]; try done.
  destruct H as (W' & Hk & Hc & Hn & Hv). cbv zeta. specialize (Hkey key s' W eq_refl).
  pose proof (SlabKey.index_fits key) as Hi. pose proof (SlabKey.generation_wf key) as Hg.
  assert (Hr : ref_of w (TaskRef.from_slab w key)) by (split; [done|]; exists (SlabKey.index key), (SlabKey.generation key); by rewrite <- Hkey).
  destruct (ref_keyed _ Hr) as (i & g & K). pose proof K as [K1 K2 _ _].
  rewrite Hkey, TaskRef.key_from_slab, <- Hkey in K1, K2 by done. rewrite K1, K2 in *. split_and!; try done.
  - by rewrite (keyed_at _ _ _ _ K), Hn.
  - intros r' Hr'. apply (at_ref_upd s s' _ i g (Some (g, v))); [done|done|by intros ? [= <-]|by intros ? ?; simplify_eq|done].
Qed.

(** A failed insert leaves a witness that every slot is taken. *)
Lemma slab_ts_full s v e s' : es_wf s -> WorkerId.wf w -> es_insert s v = Ret (Err e, s') ->
  exists l, NoDup l /\ Forall (fun r => ref_of w r /\ is_Some (at_ref s r)) l /\ length l = es_cap s.
Proof.
  intros W Hw E. pose proof (es_insert_full s v e s' W E) as Hall. pose proof (es_cap_bound s W) as Hb.
  set (f := fun i : nat => TaskRef.from_slab w (SlabKey.new (Z.of_nat i) (default 0 (fst <$> es_view s i)))).
  assert (Hf : forall i, (i < es_cap s)%nat -> exists g, keyed (f i) i g /\ ref_of w (f i) /\ is_Some (at_ref s (f i))).
  { intros i Hi. destruct (Hall i Hi) as [[g x] Ei]. destruct (es_view_gen s i g x W Ei) as [Hg Ho].
    assert (Hr : ref_of w (f i)) by (split; [done|]; exists (Z.of_nat i), g; unfold f; rewrite Ei; split_and!; try done; unfold fits; lia).
    destruct (ref_keyed _ Hr) as (i' & g' & K). pose proof K as [K1 K2 _ _].
    unfold f in K1, K2. rewrite Ei in K1, K2. cbn in K1, K2. rewrite TaskRef.key_from_slab in K1, K2 by (done || unfold fits; lia).
    unfold SlabSpec.key_index in K1. rewrite SlabKey.index_new in K1 by (done || unfold fits; lia).
    rewrite SlabKey.generation_new in K2 by (done || unfold fits; lia). rewrite Nat2Z.id in K1. subst i' g'.
    exists g. split_and!; [done|done|]. rewrite (keyed_at _ _ _ _ K), Ei. cbn. rewrite Z.eqb_refl. by eexists. }
  exists (f <$> seq 0 (es_cap s)). split_and!; [| |by rewrite length_fmap, length_seq].
  - apply NoDup_fmap_2_strong; [|apply NoDup_seq]. intros i j Hi%elem_of_seq Hj%elem_of_seq Eij.
    destruct (Hf i ltac:(lia)) as (g & K & _), (Hf j ltac:(lia)) as (g' & K' & _). rewrite <- (k_index _ _ _ K), <- (k_index _ _ _ K'). by rewrite Eij.
  - apply Forall_forall. intros r (i & -> & Hi%elem_of_seq)%list_elem_of_fmap. destruct (Hf i ltac:(lia)) as (g & _ & ? & ?). done.
Qed.

Lemma slab_ts_release (free : S -> Z -> option TaskSlot.slot -> S -> Prop) s r v :
  (forall key v, es_wf s -> SlabSpec.live_key key -> es_view s (SlabSpec.key_index key) = Some (SlabKey.generation key, v) ->
     exists s', free s key (Some v) s' /\ es_wf s' /\ es_cap s' = es_cap s /\
       forall j, es_view s' j = SlabSpec.upd (es_view s) (SlabSpec.key_index key) None j) ->
  es_wf s -> ref_of w r -> at_ref s r = Some v ->
  exists s', free s (TaskRef.key r) (Some v) s' /\ es_wf s' /\ es_cap s' = es_cap s /\
    forall r', ref_of w r' -> at_ref s' r' = if decide (r' = r) then None else at_ref s r'.
Proof.
  intros Hfree W (i & g & K)%ref_keyed E. pose proof (at_ref_view _ _ _ _ _ K E) as Ei.
  destruct (Hfree (TaskRef.key r) v W (k_live _ _ _ K)) as (s' & F & W' & Hc & Hv); [by rewrite (k_index _ _ _ K), (k_gen _ _ _ K)|].
  exists s'. split_and!; try done. intros r' Hr'. rewrite (k_index _ _ _ K) in Hv.
  apply (at_ref_upd s s' r i g None); [done|done|done|by intros ? ?; simplify_eq|done].
Qed.

Lemma slab_ts_bound s l :
  es_wf s -> NoDup l -> Forall (fun r => ref_of w r /\ is_Some (at_ref s r)) l -> (length l <= es_cap s)%nat.
Proof.
  intros W Hnd Hl. rewrite <- (length_fmap (fun r => SlabSpec.key_index (TaskRef.key r))).
  replace (es_cap s) with (length (seq 0 (es_cap s))) by apply length_seq. apply submseteq_length, NoDup_submseteq.
  - apply NoDup_fmap_2_strong; [|done]. intros r r' Hr Hr' E. rewrite Forall_forall in Hl.
    destruct (Hl _ Hr) as [(i & g & K)%ref_keyed [v Hv]], (Hl _ Hr') as [(i' & g' & K')%ref_keyed [v' Hv']].
    rewrite (k_index _ _ _ K), (k_index _ _ _ K') in E. subst i'. apply (at_ref_view _ _ _ _ _ K) in Hv.
    apply (at_ref_view _ _ _ _ _ K') in Hv'. simplify_eq. by eapply keyed_inj.
  - intros i (r & -> & Hr)%list_elem_of_fmap. rewrite Forall_forall in Hl. destruct (Hl _ Hr) as [(i & g & K)%ref_keyed [v Hv]].
    apply (at_ref_view _ _ _ _ _ K) in Hv. apply elem_of_seq. rewrite (k_index _ _ _ K).
    pose proof (es_view_range s i _ W Hv). lia.
Qed.

Definition slab_cells : TaskCells w S := {|
  ts_get s r := es_get s (TaskRef.key r);
  ts_get_mut s r := es_get_mut s (TaskRef.key r);
  ts_wf := es_wf;
  ts_at := at_ref;
  ts_cap := es_cap;
  ts_get_spec := slab_ts_get;
  ts_get_mut_spec := slab_ts_get_mut;
  ts_cap_bound := es_cap_bound;
  ts_bound := slab_ts_bound;
|}.

#[export] Instance slab_tasks : TaskStorage w S := {|
  ts_cells := slab_cells;
  ts_insert := es_insert;
  ts_remove s r := es_remove s (TaskRef.key r);
  ts_retire_slot s r := es_retire_slot s (TaskRef.key r);
  ts_insert_spec := slab_ts_insert;
  ts_insert_full := slab_ts_full;
  ts_remove_spec s r v := slab_ts_release (fun s key o s' => es_remove s key = Ret (o, s')) s r v (es_remove_spec s);
  ts_retire_slot_spec s r v := slab_ts_release (fun s key _ s' => es_retire_slot s key = Ret (true, s')) s r v (es_retire_slot_spec s);
|}.
End slab_tasks.
