(* ===== verification/RunQueue.v ===== *)
(** * The local run queue and the local wake

    Models src/crates/kwokka-runtime/src/scheduler/runnable/queue.rs
    ([LocalRunQueue], a FIFO threaded through the [next_runnable] links of the
    task headers) and [wake_local] of
    src/crates/kwokka-runtime/src/worker/park/wake.rs. *)

From S2P Require Import Prelude GenKey TaskRefId TaskCell TaskSlots.
From stdpp Require Import base tactics list numbers sets.

Local Open Scope Z_scope.

Module RunQueue.
Import TaskSlot.

Record queue : Type := mkQueue { head : option Z; tail : option Z; len : Z }.

Definition new : queue := mkQueue None None 0.
Definition is_empty (q : queue) : bool := len q =? 0.

Section ops.
Context {w : Z} {S : Type} `{!TaskCells w S}.

Definition push (q : queue) (task_ref : Z) (tasks : S) : outcome (queue * S) :=
  '(found, tasks) ← ts_modify tasks task_ref (set_next_runnable None);
  if negb found then Ret (q, tasks) else
  '(head', tasks) ← match tail q with
                    | Some tail_ref =>
                        '(_, tasks) ← ts_modify tasks tail_ref (set_next_runnable (Some task_ref));
                        Ret (head q, tasks)
                    | None => Ret (Some task_ref, tasks)
                    end;
  len' ← add_or_panic USIZE (len q) 1;
  Ret (mkQueue head' (Some task_ref) len', tasks).

Definition pop (q : queue) (tasks : S) : outcome (option Z * queue) :=
  match head q with
  | None => Ret (None, q)
  | Some head_ref =>
      slot ← ts_get tasks head_ref;
      let next := slot ≫= next_runnable in
      len' ← sub_or_panic (len q) 1;
      Ret (Some head_ref, mkQueue next (match next with None => None | Some _ => tail q end) len')
  end.

Definition wake_local (tasks : S) (run_queue : queue) (task_ref : Z) : outcome (queue * S) :=
  x ← ts_get_mut tasks task_ref;
  match x with
  | None => Ret (run_queue, tasks)
  | Some (slot, st) =>
      '(r, state') ← TaskState.wake [] (state slot);
      let tasks := st (set_state state' slot) in
      match r with
      | Ok _ => push run_queue task_ref tasks
      | Err _ => Ret (run_queue, tasks)
      end
  end.

End ops.
End RunQueue.

(** ** The FIFO it implements *)

Module RunQueueSpec.
Import TaskSlot RunQueue.

Section spec.
Context {w : Z} {S : Type} `{!TaskCells w S}.
Implicit Types (s : S) (q : queue) (l : list Z).

(** [linked s l]: following [next_runnable] from each member of [l] leads to
    the next one, and from the last one nowhere. *)
Fixpoint linked s l : Prop :=
  match l with
  | [] => True
  | r :: l => (exists v, ts_at s r = Some v /\ next_runnable v = List.hd_error l) /\ linked s l
  end.

(** [q] holds the queue [l], front first. *)
Record holds s q l : Prop := {
  q_head : head q = List.hd_error l;
  q_tail : tail q = list.last l;
  q_len : len q = Z.of_nat (length l);
  q_refs : Forall (ref_of w) l;
  q_nodup : NoDup l;
  q_links : linked s l;
}.

(** The tasks with their run-queue links blanked out: what the queue
    operations leave alone. *)
Definition core s (r : Z) : option slot := set_next_runnable None <$> ts_at s r.

(** [s'] has the tasks of [s], up to run-queue links. *)
Record relinked s s' : Prop := {
  re_wf : ts_wf s';
  re_cap : ts_cap s' = ts_cap s;
  re_core r : ref_of w r -> core s' r = core s r;
}.

Lemma core_Some s r v : core s r = Some v -> exists v', ts_at s r = Some v' /\ v = set_next_runnable None v'.
Proof. unfold core. destruct (ts_at s r); cbn; naive_solver. Qed.

Lemma core_is_Some s r : is_Some (core s r) <-> is_Some (ts_at s r).
Proof. unfold core. by rewrite fmap_is_Some. Qed.

Lemma linked_resolves s l r : linked s l -> r ∈ l -> is_Some (ts_at s r).
Proof.
  induction l as [|r' l IH]; [by intros _ ?%elem_of_nil|]. intros [(v & E & _) Hl] [-> |Hr]%elem_of_cons; eauto.
Qed.

(** Slots outside [l] may change at will, those of [l] all but their link. *)
Lemma linked_frame s s' l :
  linked s l ->
  (forall r v, r ∈ l -> ts_at s r = Some v -> exists v', ts_at s' r = Some v' /\ next_runnable v' = next_runnable v) ->
  linked s' l.
Proof.
  induction l as [|r l IH]; [done|]. intros [(v & E & Hn) Hl] H. split.
  - destruct (H r v ltac:(set_solver) E) as (v' & E' & Hn'). exists v'. by rewrite Hn'.
  - apply IH; [done|]. intros. apply H; [set_solver|done].
Qed.

Lemma queue_holds_frame s s' q l :
  holds s q l ->
  (forall r v, r ∈ l -> ts_at s r = Some v -> exists v', ts_at s' r = Some v' /\ next_runnable v' = next_runnable v) ->
  holds s' q l.
Proof. intros [] H. split; try done. by eapply linked_frame. Qed.

Lemma queue_holds_new s : holds s new [].
Proof. by split; try constructor. Qed.

Lemma hd_error_app l r : List.hd_error (l ++ [r]) = Some (default r (List.hd_error l)).
Proof. by destruct l. Qed.

(** Linking the last member of [l] to a new one. *)
Lemma linked_snoc s s' l t r :
  linked s (l ++ [t]) -> NoDup (l ++ [t]) ->
  (forall v, ts_at s t = Some v -> ts_at s' t = Some (set_next_runnable (Some r) v)) ->
  (forall x, x ∈ l -> ts_at s' x = ts_at s x) -> (exists v, ts_at s' r = Some v /\ next_runnable v = None) ->
  linked s' (l ++ [t; r]).
Proof.
  induction l as [|x l IH]; cbn; intros Hl Hnd Ht Hx Hr.
  - destruct Hl as [(v & E & _) _]. split; [|done]. exists (set_next_runnable (Some r) v). by rewrite (Ht v E).
  - destruct Hl as [(v & E & Hn) Hl]. apply NoDup_cons in Hnd as [Hni Hnd]. split.
    + exists v. split; [rewrite Hx; [done|set_solver]|]. rewrite Hn. by destruct l.
    + apply IH; try done. intros y Hy. apply Hx. set_solver.
Qed.

Lemma queue_room s q l r :
  ts_wf s -> holds s q l -> r ∉ l -> ref_of w r -> is_Some (ts_at s r) -> add_or_panic USIZE (len q) 1 = Ret (Z.of_nat (length (l ++ [r]))).
Proof.
  intros W [_ _ Hlen Hrefs Hnd Hl] Hr Hw Hat. assert (length (l ++ [r]) <= ts_cap s)%nat as Hb.
  { apply (ts_bound s); [done| |].
    - apply NoDup_app. split_and!; [done|set_solver|apply NoDup_singleton].
    - apply Forall_app. split; [|by apply Forall_singleton]. rewrite Forall_forall in *. intros x Hx. split; [by apply Hrefs|].
      by eapply linked_resolves. }
  pose proof (ts_cap_bound s W). apply add_or_panic_Ret. rewrite length_app in *. cbn in *. lia.
Qed.

Lemma push_spec s q l r v :
  ts_wf s -> holds s q l -> r ∉ l -> ref_of w r -> ts_at s r = Some v ->
  exists q' s', push q r s = Ret (q', s') /\ holds s' q' (l ++ [r]) /\ relinked s s'.
Proof.
  intros W H Hr Hw Hv. pose proof (queue_room s q l r W H Hr Hw ltac:(eauto)) as Hroom.
  pose proof (ts_modify_spec s r (set_next_runnable None) W Hw) as H1. rewrite Hv in H1.
  destruct H1 as (s1 & E1 & W1 & C1 & A1). unfold push. rewrite E1. cbn [mbind outcome_bind negb].
  destruct H as [Hh Ht Hlen Hrefs Hnd Hl].
  assert (Hnd' : NoDup (l ++ [r])) by (apply NoDup_app; split_and!; [done|set_solver|apply NoDup_singleton]).
  assert (Hrefs' : Forall (ref_of w) (l ++ [r])) by (apply Forall_app; split; [done|by apply Forall_singleton]).
  assert (Hr1 : ts_at s1 r = Some (set_next_runnable None v)) by (rewrite A1, decide_True by done; done).
  destruct l as [|t l0 _] using rev_ind.
  - rewrite Ht. cbn [mbind outcome_bind list.last]. rewrite Hroom. cbn [mbind outcome_bind].
    eexists _, s1. split; [done|]. split.
    + split; try done. split; [|done]. exists (set_next_runnable None v). done.
    + split; [done|done|]. intros r' Hr'. unfold core. rewrite A1 by done. destruct (decide (r' = r)) as [-> |]; [|done]. by rewrite Hv.
  - rewrite Ht, last_snoc. assert (Hwt : ref_of w t) by (rewrite Forall_forall in Hrefs; apply Hrefs; set_solver).
    assert (Htr : t <> r) by set_solver.
    destruct (linked_resolves s _ t Hl ltac:(set_solver)) as [vt Hvt].
    assert (Ht1 : ts_at s1 t = Some vt) by (rewrite A1, decide_False by done; done).
    pose proof (ts_modify_spec s1 t (set_next_runnable (Some r)) W1 Hwt) as H2. rewrite Ht1 in H2.
    destruct H2 as (s2 & E2 & W2 & C2 & A2). rewrite E2. cbn [mbind outcome_bind]. rewrite Hroom. cbn [mbind outcome_bind].
    eexists _, s2. split; [done|]. split.
    + split; try done; cbn [head tail len].
      * rewrite Hh. by destruct l0.
      * by rewrite last_snoc.
      * rewrite <- app_assoc. cbn [app]. apply (linked_snoc s); try done.
        -- intros v0 E0. rewrite A2, decide_True by done. congruence.
        -- intros x Hx. rewrite Forall_forall in Hrefs. assert (ref_of w x) by (apply Hrefs; set_solver).
           rewrite A2, decide_False, A1, decide_False; [done|set_solver|done| |done].
           intros ->. apply NoDup_app in Hnd as (_ & Hd & _). by apply (Hd t Hx), list_elem_of_singleton.
        -- exists (set_next_runnable None v). split; [|done]. by rewrite A2, decide_False.
    + split; [done|by rewrite C2|]. intros r' Hr'. unfold core. rewrite A2 by done.
      destruct (decide (r' = t)) as [-> |]; [by rewrite Hvt|]. rewrite A1 by done.
      destruct (decide (r' = r)) as [-> |]; [by rewrite Hv|done].
Qed.

Lemma pop_spec s q l :
  ts_wf s -> holds s q l ->
  exists q', pop q s = Ret (List.hd_error l, q') /\ holds s q' (List.tl l).
Proof.
  intros W H. pose proof H as [Hh Ht Hlen Hrefs Hnd Hl]. unfold pop. rewrite Hh. destruct l as [|r l]; [by exists q|].
  cbn. apply Forall_cons in Hrefs as [Hr Hrefs]. destruct Hl as [(v & E & Hn) Hl].
  rewrite (ts_get_spec s r W Hr), E. cbn. unfold sub_or_panic. rewrite Hlen. cbn [length].
  destruct (Z.leb_spec 1 (Z.of_nat (Datatypes.S (length l)))); [|lia]. cbn. eexists. split; [done|].
  apply NoDup_cons in Hnd as [_ Hnd]. split; try done; cbn [head tail len]; [|lia].
  rewrite Hn. destruct l as [|r' l]; [done|]. cbn. by rewrite Ht.
Qed.

Lemma wake_local_spec s q l r :
  ts_wf s -> holds s q l -> ref_of w r ->
  match ts_at s r with
  | None => wake_local s q r = Ret (q, s)
  | Some v => forall st, TaskState.state (state v) = TaskState.to_u8 st -> (st = TaskState.Sleeping -> r ∉ l) ->
      exists q' s', wake_local s q r = Ret (q', s') /\ ts_wf s' /\ ts_cap s' = ts_cap s /\
        holds s' q' (if decide (st = TaskState.Sleeping) then l ++ [r] else l) /\
        forall r', ref_of w r' -> core s' r' =
          if decide (r' = r /\ st = TaskState.Sleeping)
          then Some (set_next_runnable None (set_state (TaskState.mkAtomic (TaskState.to_u8 TaskState.Woken) (TaskState.claim (state v))) v))
          else core s r'
  end.
Proof.
  intros W H Hr. pose proof (ts_get_mut_spec s r W Hr) as Hg. unfold wake_local.
  destruct (ts_at s r) as [v|] eqn:Ev; [|by rewrite Hg]. intros st Hst Hsl. destruct Hg as (f & -> & Hf). cbn [mbind outcome_bind].
  destruct (state v) as [z c] eqn:Es. cbn in Hst. subst z. unfold TaskState.wake. rewrite TaskState.transition_spec. cbn [mbind outcome_bind TaskState.is_terminal negb].
  rewrite andb_true_r. case_bool_decide as Hs.
  - subst st. destruct (Hf (set_state (TaskState.mkAtomic (TaskState.to_u8 TaskState.Woken) c) v)) as (W1 & C1 & A1).
    set (s1 := f _) in *. destruct (push_spec s1 q l r (set_state (TaskState.mkAtomic (TaskState.to_u8 TaskState.Woken) c) v) W1)
      as (q' & s' & E & H' & [W2 C2 K2]); [|by apply Hsl|done|rewrite A1, decide_True by done; done|].
    { eapply queue_holds_frame; [exact H|]. intros x vx Hx E. assert (x <> r) by (intros ->; by apply (Hsl eq_refl)).
      exists vx. rewrite A1, decide_False by (done || (destruct H; rewrite Forall_forall in *; auto)). done. }
    exists q', s'. rewrite decide_True by done. split_and!; [done|done|by rewrite C2|done|]. intros r' Hr'.
    rewrite K2 by done. unfold core. rewrite A1 by done. destruct (decide (r' = r)) as [-> |].
    + by rewrite decide_True by done.
    + rewrite decide_False; [done|]. naive_solver.
  - cbn. rewrite decide_False by done. destruct (Hf (set_state (TaskState.mkAtomic (TaskState.to_u8 st) c) v)) as (W1 & C1 & A1).
    assert (Hid : set_state (TaskState.mkAtomic (TaskState.to_u8 st) c) v = v).
    { rewrite <- Es. destruct v as [[]]. done. }
    rewrite Hid in *. eexists _, _. split; [done|]. split_and!; [done|done| |].
    + eapply queue_holds_frame; [exact H|]. intros x vx Hx E. exists vx. split; [|done].
      rewrite A1 by (destruct H; rewrite Forall_forall in *; auto). destruct (decide (x = r)) as [-> |]; [congruence|done].
    + intros r' Hr'. rewrite decide_False by naive_solver. unfold core. rewrite A1 by done.
      destruct (decide (r' = r)) as [-> |]; [by rewrite Ev|done].
Qed.
End spec.
End RunQueueSpec.
