(* ===== verification/TaskTree.v ===== *)
(** * Children lists and their reaping

    Models src/crates/kwokka-runtime/src/task/join/children.rs (the intrusive
    list of a task's children over [first_child] and [next_sibling]) and the
    reaping of settled children in
    src/crates/kwokka-runtime/src/worker/queue/reap.rs.  The walks run on fuel,
    one unit per visited task. *)

From S2P Require Import Prelude GenKey TaskRefId TaskCell TaskSlots WorkerRing.
From stdpp Require Import base tactics list numbers sets.

Local Open Scope Z_scope.

Module Children.
Import TaskSlot.

Inductive ChildrenError : Type := ParentNotFound | ChildNotFound.

Inductive RemovePosition : Type := Head | AfterPrev (prev : Z).

Section ops.
Context {w : Z} {S : Type} `{!TaskStorage w S}.
Implicit Types (storage : S).

Definition push_child storage (parent child : Z) : outcome (result ChildrenError unit * S) :=
  p ← ts_get storage parent;
  match p with
  | None => Ret (Err ParentNotFound, storage)
  | Some p =>
      let prev_first := first_child p in
      '(found, storage) ← ts_modify storage child (set_next_sibling prev_first);
      if negb found then Ret (Err ChildNotFound, storage) else
      '(found, storage) ← ts_modify storage parent (set_first_child (Some child));
      if negb found then Ret (Err ParentNotFound, storage) else Ret (Ok tt, storage)
  end.

(** [iter_children] and [ChildrenIter::next]: the iterator is the next
    reference to visit. *)
Definition iter_children storage (parent : Z) : outcome (option Z) :=
  h ← ts_get storage parent; Ret (h ≫= first_child).

Definition iter_next storage (next : option Z) : outcome (option (Z * option Z)) :=
  match next with
  | None => Ret None
  | Some current =>
      header ← ts_get storage current;
      Ret (match header with None => None | Some h => Some (current, next_sibling h) end)
  end.

(** [Iterator::find] on the children. *)
Fixpoint find_child (fuel : nat) storage (next : option Z) (p : S -> Z -> outcome bool) : outcome (option Z) :=
  match fuel with
  | O => OutOfFuel
  | Datatypes.S fuel =>
      x ← iter_next storage next;
      match x with
      | None => Ret None
      | Some (c, next) => b ← p storage c; if b : bool then Ret (Some c) else find_child fuel storage next p
      end
  end.

(** The [loop] of [locate]. *)
Fixpoint locate_from (fuel : nat) storage (current child : Z) : outcome (result ChildrenError RemovePosition) :=
  match fuel with
  | O => OutOfFuel
  | Datatypes.S fuel =>
      header ← ts_get storage current;
      match header with
      | None => Ret (Err ChildNotFound)
      | Some header =>
          match next_sibling header with
          | Some next => if next =? child then Ret (Ok (AfterPrev current)) else locate_from fuel storage next child
          | None => Ret (Err ChildNotFound)
          end
      end
  end.

Definition locate (fuel : nat) storage (parent child : Z) : outcome (result ChildrenError RemovePosition) :=
  parent_header ← ts_get storage parent;
  match parent_header with
  | None => Ret (Err ParentNotFound)
  | Some parent_header =>
      match first_child parent_header with
      | None => Ret (Err ChildNotFound)
      | Some current => if current =? child then Ret (Ok Head) else locate_from fuel storage current child
      end
  end.

Definition remove_child (fuel : nat) storage (parent child : Z) : outcome (result ChildrenError unit * S) :=
  position ← locate fuel storage parent child;
  match position with
  | Err e => Ret (Err e, storage)
  | Ok position =>
      c ← ts_get storage child;
      match c with
      | None => Ret (Err ChildNotFound, storage)
      | Some c =>
          let child_next := next_sibling c in
          '(r, storage) ←
            match position with
            | Head =>
                '(found, storage) ← ts_modify storage parent (set_first_child child_next);
                Ret (if found : bool then Ok tt else Err ParentNotFound, storage)
            | AfterPrev prev =>
                '(found, storage) ← ts_modify storage prev (set_next_sibling child_next);
                Ret (if found : bool then Ok tt else Err ChildNotFound, storage)
            end;
          match r with
          | Err e => Ret (Err e, storage)
          | Ok _ =>
              '(found, storage) ← ts_modify storage child (set_next_sibling None);
              Ret (if found : bool then Ok tt else Err ChildNotFound, storage)
          end
      end
  end.
End ops.
End Children.

Module Reap.
Import TaskSlot Children Ring.

Section ops.
Context {w : Z} {S : Type} `{!TaskStorage w S}.
Implicit Types (tasks : S).

Definition settled_state (header : slot) : outcome bool :=
  st ← TaskState.load (state header);
  Ret (if bool_decide (st = TaskState.Retired) then is_remote_settled header
       else TaskState.is_terminal st || bool_decide (st = TaskState.Done)).

Definition is_settled tasks (child : Z) : outcome bool :=
  x ← ts_get tasks child;
  match x with None => Ret false | Some header => settled_state header end.

Definition first_settled_child (fuel : nat) tasks (parent : Z) : outcome (option Z) :=
  next ← iter_children tasks parent; find_child fuel tasks next is_settled.

Definition is_husk tasks (child : Z) : outcome bool :=
  x ← ts_get tasks child;
  match x with
  | None => Ret false
  | Some header => st ← TaskState.load (state header); Ret (bool_decide (st = TaskState.Retired))
  end.

(** Freeing a child: a husk gives up its slot without drop glue; otherwise
    the removed slot is dropped, which runs [drop_in_place]. *)
Definition free_child tasks (child : Z) : outcome S :=
  husk ← is_husk tasks child;
  if husk : bool then '(_, tasks) ← ts_retire_slot tasks child; Ret tasks else
  '(x, tasks) ← ts_remove tasks child;
  match x with
  | None => Ret tasks
  | Some sl => _ ← TaskCell.drop_in_place_fn (cell sl); Ret tasks
  end.

(** [while let Some(child) = first_settled_child(..)]. *)
Fixpoint reap_children (fuel : nat) tasks (parent : Z) : outcome S :=
  match fuel with
  | O => OutOfFuel
  | Datatypes.S fuel' =>
      x ← first_settled_child fuel tasks parent;
      match x with
      | None => Ret tasks
      | Some child =>
          '(_, tasks) ← remove_child fuel tasks parent child;
          tasks ← free_child tasks child;
          reap_children fuel' tasks parent
      end
  end.

(** [while let Some(parent) = reap.pop()]; [turns] bounds the pops. *)
Fixpoint reap_settled (turns fuel : nat) tasks (reap : ring Z) : outcome (S * ring Z) :=
  match turns with
  | O => OutOfFuel
  | Datatypes.S turns =>
      '(x, reap) ← ReapQueue.pop reap;
      match x with
      | None => Ret (tasks, reap)
      | Some parent => tasks ← reap_children fuel tasks parent; reap_settled turns fuel tasks reap
      end
  end.
End ops.
End Reap.
