(* ===== verification/TaskTreeSpec.v ===== *)
(** * The forest the children lists implement

    [family F kids] relates the links of all slots to the list of children of
    each task: every list is a finite sibling chain without repetition and no
    task is on two of them.  The list operations and the reaping of settled
    children are shown against it. *)

From S2P Require Import Prelude GenKey TaskCell TaskRefId WorkerRing TaskSlots TaskTree.
From stdpp Require Import base tactics list numbers sets.

Local Open Scope Z_scope.

Module Family.
Import TaskSlot.

(** The two tree links of each slot. *)
Abbreviation links := (Z -> option (option Z * option Z)).

Fixpoint chain (F : links) (o : option Z) (l : list Z) : Prop :=
  match l with
  | [] => o = None
  | c :: l => o = Some c /\ exists fc ns, F c = Some (fc, ns) /\ chain F ns l
  end.

Section family.
Context (w : Z).
Implicit Types (F : links) (kids : Z -> list Z).

Record family F kids : Prop := {
  fa_chain p fc ns : ref_of w p -> F p = Some (fc, ns) -> chain F fc (kids p);
  fa_refs p : ref_of w p -> is_Some (F p) -> Forall (ref_of w) (kids p);
  fa_nodup p : ref_of w p -> is_Some (F p) -> NoDup (kids p);
  fa_disj p p' c : ref_of w p -> ref_of w p' -> is_Some (F p) -> is_Some (F p') ->
    c ∈ kids p -> c ∈ kids p' -> p = p';
  fa_self p : ref_of w p -> is_Some (F p) -> p ∉ kids p;
}.

(** No task that resolves has [c] among its children. *)
Definition orphan F kids (c : Z) : Prop := forall p, ref_of w p -> is_Some (F p) -> c ∉ kids p.

Definition kupd kids (p : Z) (l : list Z) (q : Z) : list Z := if decide (q = p) then l else kids q.

Lemma chain_resolves F o l c : chain F o l -> c ∈ l -> is_Some (F c).
Proof.
  revert o. induction l as [|x l IH]; intros o; [by intros _ ?%elem_of_nil|].
  intros [-> (fc & ns & E & H)] [-> |Hc]%elem_of_cons; [eauto|by eapply IH].
Qed.

Lemma chain_frame F F' o l :
  chain F o l -> (forall c fc ns, c ∈ l -> F c = Some (fc, ns) -> exists fc', F' c = Some (fc', ns)) -> chain F' o l.
Proof.
  revert o. induction l as [|x l IH]; intros o; [done|]. intros [-> (fc & ns & E & H)] Hf. split; [done|].
  destruct (Hf x fc ns ltac:(set_solver) E) as [fc' E']. exists fc', ns. split; [done|].
  apply IH; [done|]. intros. eapply Hf; [set_solver|done].
Qed.

Lemma chain_split F o a c b :
  chain F o (a ++ c :: b) -> exists fc ns, F c = Some (fc, ns) /\ chain F ns b /\ (a = [] -> o = Some c).
Proof.
  revert o. induction a as [|x a IH]; intros o; cbn.
  - intros [-> (fc & ns & E & H)]. eauto 6.
  - intros [-> (fc & ns & E & H)]. destruct (IH ns H) as (fc' & ns' & ? & ? & ?). by exists fc', ns'.
Qed.

(** Bypassing [c] after its predecessor [t]. *)
Lemma chain_bypass F F' o a t c b fc ns ft nt :
  chain F o (a ++ t :: c :: b) -> NoDup (a ++ t :: c :: b) -> F c = Some (fc, ns) -> F t = Some (ft, nt) ->
  F' t = Some (ft, ns) -> (forall x, x ∈ a ++ b -> F' x = F x) -> chain F' o (a ++ t :: b).
Proof.
  intros H Hnd Ec Et Et' Hx. revert o H. induction a as [|x a IH]; cbn in *; intros o.
  - intros [-> (ft' & nt' & Et0 & -> & (fc' & ns' & Ec0 & H))]. split; [done|]. exists ft, ns. split; [done|].
    assert (ns' = ns) as -> by congruence. eapply chain_frame; [exact H|]. intros y fy ny Hy Ey. exists fy. rewrite Hx; [done|set_solver].
  - intros [-> (fx & nx & Ex & H)]. apply NoDup_cons in Hnd as [? Hnd]. split; [done|]. exists fx, nx.
    split; [rewrite Hx; [done|set_solver]|]. apply IH; [done|set_solver|done].
Qed.

Lemma family_push F kids p c fp np fc nc :
  family F kids -> ref_of w p -> ref_of w c -> p <> c -> F p = Some (fp, np) -> F c = Some (fc, nc) ->
  orphan F kids c ->
  family (fun r => if decide (r = p) then Some (Some c, np) else if decide (r = c) then Some (fc, fp) else F r)
    (kupd kids p (c :: kids p)).
Proof.
  intros [H1 H2 H3 H4 H5] Hp Hc Hpc Ep Ec Ho.
  set (F' := fun r : Z => if decide (r = p) then _ else _). assert (Hlive : forall r, is_Some (F' r) -> is_Some (F r)).
  { intros r. unfold F'. destruct (decide (r = p)) as [-> |]; [eauto|]. destruct (decide (r = c)) as [-> |]; eauto. }
  assert (Hframe : forall o l, chain F o l -> c ∉ l -> chain F' o l).
  { intros o l Hl Hcl. eapply chain_frame; [exact Hl|]. intros x fx nx Hx Ex. unfold F'.
    destruct (decide (x = p)) as [-> |]; [exists (Some c); congruence|].
    rewrite decide_False by (by intros ->). eauto. }
  assert (Hkc : c ∉ kids p) by (apply Ho; eauto).
  split; unfold kupd.
  - intros q fq nq Hq Eq. destruct (decide (q = p)) as [-> |Hqp].
    + unfold F' in Eq. rewrite decide_True in Eq by done. injection Eq as <- <-. split; [done|]. exists fc, fp. split.
      * unfold F'. by rewrite decide_False, decide_True.
      * apply Hframe; [by eapply H1|done].
    + assert (chain F fq (kids q)) as Hch.
      { unfold F' in Eq. rewrite decide_False in Eq by done. destruct (decide (q = c)) as [-> |]; [injection Eq as <- <-; by eapply H1|by eapply H1]. }
      apply Hframe; [done|]. apply Ho; [done|]. apply Hlive. eauto.
  - intros q Hq Lq. destruct (decide (q = p)) as [-> |]; [constructor; [done|]|]; apply H2; auto.
  - intros q Hq Lq. destruct (decide (q = p)) as [-> |]; [constructor; [done|]|]; apply H3; auto.
  - intros q q' x Hq Hq' Lq Lq' Hx Hx'. apply Hlive in Lq, Lq'. destruct (decide (q = p)) as [-> |], (decide (q' = p)) as [-> |]; try done.
    + apply elem_of_cons in Hx as [-> |Hx]; [by exfalso; apply (Ho q')|]. by eapply H4.
    + apply elem_of_cons in Hx' as [-> |Hx']; [by exfalso; apply (Ho q)|]. by eapply H4.
    + by eapply H4.
  - intros q Hq Lq%Hlive. destruct (decide (q = p)) as [-> |]; [|by apply H5]. pose proof (H5 p Hq Lq). set_solver.
Qed.

(** The links after [remove_child]: the predecessor of [c], or the parent [p]
    when [a] is empty, skips [c], and [c] points nowhere. *)
Definition bypassed F (p : Z) (a : list Z) (nc : option Z) : links := fun r =>
  match list.last a with
  | None => if decide (r = p) then (fun x => (nc, snd x)) <$> F p else F r
  | Some t => if decide (r = t) then (fun x => (fst x, nc)) <$> F t else F r
  end.
Definition detached F (p : Z) (a : list Z) (c : Z) (nc : option Z) : links := fun r =>
  if decide (r = c) then (fun x => (fst x, None)) <$> bypassed F p a nc c else bypassed F p a nc r.

(** Unlinking [c], which follows [a], from the children of [p]. *)
Lemma family_remove F kids p c a b fc nc :
  family F kids -> ref_of w p -> is_Some (F p) -> kids p = a ++ c :: b -> F c = Some (fc, nc) ->
  family (detached F p a c nc) (kupd kids p (a ++ b)).
Proof.
  intros Hf Hp Lp Hk Ec. pose proof Hf as [H1 H2 H3 H4 H5]. set (F' := detached F p a c nc).
  assert (Hnd : NoDup (a ++ c :: b)) by (rewrite <- Hk; by apply H3).
  assert (Hlive : forall r, is_Some (F' r) <-> is_Some (F r)).
  { intros r. unfold F', detached, bypassed. destruct (list.last a) as [t|]; repeat case_decide; subst; by rewrite ?fmap_is_Some. }
  (* chains of other tasks avoid [c] and its predecessor *)
  assert (Hns : forall x fx nx, x <> c -> (forall t, list.last a = Some t -> x <> t) -> F x = Some (fx, nx) -> exists fx', F' x = Some (fx', nx)).
  { intros x fx nx Hxc Hxt Ex. unfold F', detached, bypassed. rewrite decide_False by done. destruct (list.last a) as [t|].
    - rewrite decide_False by (by apply Hxt). eauto.
    - destruct (decide (x = p)) as [-> |]; [|eauto]. rewrite Ex. eauto. }
  assert (Hother : forall q o, ref_of w q -> is_Some (F q) -> q <> p -> chain F o (kids q) -> chain F' o (kids q)).
  { intros q o Hq Lq Hqp Hl. assert (Hav : forall x, x ∈ kids q -> x ∉ kids p) by (intros x Hx Hx'; apply Hqp; by eapply H4).
    eapply chain_frame; [exact Hl|]. intros x fx nx Hx Ex. apply Hav in Hx. rewrite Hk in Hx. apply (Hns x fx nx); [set_solver| |done].
    intros t Ht ->. apply Hx. apply elem_of_app. left. by apply last_Some_elem_of. }
  assert (Hself : forall fp np, F p = Some (fp, np) -> forall fp' np', F' p = Some (fp', np') -> chain F' fp' (a ++ b)).
  { intros fp np Ep fp' np' Ep'. pose proof (H1 p fp np Hp Ep) as Hch. rewrite Hk in Hch.
    destruct a as [|t a _] using rev_ind.
    - cbn in *. destruct Hch as [-> (fc' & nc' & Ec' & Hch)].
      assert (nc' = nc) as -> by congruence. apply NoDup_cons in Hnd as [Hcb Hnd].
      assert (fp' = nc) as ->.
      { unfold F', detached, bypassed in Ep'. cbn in Ep'. destruct (decide (p = c)) as [-> |].
        - rewrite decide_True, Ep in Ep' by done. cbn in Ep'. congruence.
        - rewrite decide_True, Ep in Ep' by done. cbn in Ep'. congruence. }
      eapply chain_frame; [exact Hch|]. intros x fx nx Hx Ex. apply (Hns x fx nx); [by intros ->|done|done].
    - rewrite <- app_assoc in Hch, Hnd. cbn [app] in Hch, Hnd.
      destruct (chain_split _ _ _ _ _ Hch) as (ft & nt & Et & _).
      assert (Htc : t <> c) by (apply NoDup_app in Hnd as (_ & _ & Hnd); apply NoDup_cons in Hnd as [? _]; set_solver).
      assert (fp' = fp) as ->.
      { unfold F', detached, bypassed in Ep'. rewrite last_snoc in Ep'. repeat case_decide; subst; rewrite ?Ep in Ep'; cbn in Ep'; congruence. }
      rewrite <- app_assoc. cbn [app]. eapply (chain_bypass F F' fp a t c b); try done.
      + unfold F', detached, bypassed. rewrite last_snoc, decide_False, decide_True by done. by rewrite Et.
      + intros x Hx. assert (x <> t /\ x <> c) as [Hxt Hxc].
        { split; intros ->; revert Hnd; rewrite NoDup_app, !NoDup_cons; set_solver. }
        unfold F', detached, bypassed. by rewrite decide_False, last_snoc, decide_False. }
  split; unfold kupd.
  - intros q fq nq Hq Eq. assert (Lq : is_Some (F q)) by (apply Hlive; eauto). destruct Lq as [[fq0 nq0] Eq0].
    destruct (decide (q = p)) as [-> |Hqp]; [by eapply Hself|].
    assert (fq = fq0) as ->.
    { unfold F', detached, bypassed in Eq. destruct (list.last a); repeat case_decide; subst; rewrite ?Eq0 in Eq; cbn in Eq; congruence. }
    apply Hother; eauto.
  - intros q Hq Lq%Hlive. destruct (decide (q = p)) as [-> |]; [|by apply H2].
    pose proof (H2 p Hp Lp) as Hr. rewrite Hk in Hr. rewrite !Forall_app, ?Forall_cons in *. naive_solver.
  - intros q Hq Lq%Hlive. destruct (decide (q = p)) as [-> |]; [|by apply H3].
    revert Hnd. rewrite !NoDup_app, NoDup_cons. set_solver.
  - intros q q' x Hq Hq' Lq%Hlive Lq'%Hlive Hx Hx'.
    assert (Hin : forall y, y ∈ a ++ b -> y ∈ kids p) by (rewrite Hk; set_solver).
    destruct (decide (q = p)) as [-> |], (decide (q' = p)) as [-> |]; try done; eapply H4; eauto.
  - intros q Hq Lq%Hlive. destruct (decide (q = p)) as [-> |]; [|by apply H5]. pose proof (H5 p Hq Lq) as Hs. rewrite Hk in Hs. set_solver.
Qed.

Lemma family_delete F F' kids c :
  family F kids -> orphan F kids c -> F' c = None -> (forall r, ref_of w r -> r <> c -> F' r = F r) -> family F' kids.
Proof.
  intros [H1 H2 H3 H4 H5] Ho Hc Hr.
  assert (Hlive : forall r, ref_of w r -> is_Some (F' r) -> r <> c /\ is_Some (F r)).
  { intros r Hw [x E]. assert (r <> c) by (intros ->; congruence). rewrite <- Hr by done. eauto. }
  split.
  - intros p fp np Hp Ep. destruct (Hlive p Hp ltac:(eauto)) as [Hpc Lp]. rewrite Hr in Ep by done.
    eapply chain_frame; [by eapply H1|]. intros x fx nx Hx Ex. exists fx. rewrite Hr; [done| |].
    + by apply (proj1 (Forall_forall _ _) (H2 p Hp Lp)).
    + intros ->. by apply (Ho p Hp Lp).
  - intros p Hp Lp. apply H2; [done|]. by apply Hlive.
  - intros p Hp Lp. apply H3; [done|]. by apply Hlive.
  - intros p p' x Hp Hp' Lp Lp'. apply H4; try done; by apply Hlive.
  - intros p Hp Lp. apply H5; [done|]. by apply Hlive.
Qed.

Lemma family_insert F F' kids c :
  family F kids -> F c = None -> F' c = Some (None, None) -> (forall r, ref_of w r -> r <> c -> F' r = F r) ->
  family F' (kupd kids c []) /\ orphan F' (kupd kids c []) c.
Proof.
  intros [H1 H2 H3 H4 H5] Hc Hc' Hr.
  assert (Hlive : forall r, ref_of w r -> r <> c -> is_Some (F' r) -> is_Some (F r)) by (intros r ??; by rewrite Hr).
  assert (Hkid : forall p x, ref_of w p -> is_Some (F p) -> x ∈ kids p -> x <> c /\ ref_of w x).
  { intros p x Hp [[fp np] Ep] Hx. split; [|by apply (proj1 (Forall_forall _ _) (H2 p Hp ltac:(eauto)))].
    intros ->. destruct (chain_resolves F fp (kids p) c) as [? ?]; [by eapply H1|done|congruence]. }
  split; [split|]; unfold kupd, orphan.
  - intros p fp np Hp Ep. destruct (decide (p = c)) as [-> |]; [cbn; congruence|]. rewrite Hr in Ep by done.
    eapply chain_frame; [by eapply H1|]. intros x fx nx Hx Ex. exists fx.
    destruct (Hkid p x Hp ltac:(eauto) Hx). by rewrite Hr.
  - intros p Hp Lp. destruct (decide (p = c)); [constructor|]. apply H2; auto.
  - intros p Hp Lp. destruct (decide (p = c)); [constructor|]. apply H3; auto.
  - intros p p' x Hp Hp' Lp Lp'. repeat case_decide; try by intros ?%elem_of_nil. { by intros _ ?%elem_of_nil. } apply H4; auto.
  - intros p Hp Lp. case_decide; [by apply not_elem_of_nil|]. apply H5; auto.
  - intros p Hp Lp. case_decide; [by intros ?%elem_of_nil|]. intros Hx. by destruct (Hkid p c Hp ltac:(auto) Hx).
Qed.

Lemma family_ext F F' kids : family F kids -> (forall r, ref_of w r -> F' r = F r) -> family F' kids.
Proof.
  intros [H1 H2 H3 H4 H5] He. split.
  - intros p fp np Hp Ep. rewrite He in Ep by done. eapply chain_frame; [by eapply H1|]. intros x fx nx Hx Ex. exists fx.
    rewrite He; [done|]. by apply (proj1 (Forall_forall _ _) (H2 p Hp ltac:(eauto))).
  - intros p Hp Lp. rewrite He in Lp by done. auto.
  - intros p Hp Lp. rewrite He in Lp by done. auto.
  - intros p p' x Hp Hp' Lp Lp'. rewrite He in Lp, Lp' by done. eauto.
  - intros p Hp Lp. rewrite He in Lp by done. auto.
Qed.

(** [kids] only matters on the tasks that resolve, up to extensionality. *)
Lemma family_kids_ext F kids kids' : family F kids -> (forall p, kids' p = kids p) -> family F kids'.
Proof.
  intros [H1 H2 H3 H4 H5] He. split; intros *; rewrite ?He; eauto.
Qed.

Lemma family_kupd_same F kids p l : family F kids -> l = kids p -> family F (kupd kids p l).
Proof. intros Hf ->. eapply family_kids_ext; [exact Hf|]. intros q. unfold kupd. by case_decide; subst. Qed.

Lemma family_kupd_twice F kids p l l' l'' : family F (kupd (kupd kids p l) p l') -> l'' = l' -> family F (kupd kids p l'').
Proof. intros Hf ->. eapply family_kids_ext; [exact Hf|]. intros q. unfold kupd. by case_decide. Qed.
End family.
End Family.

Module TreeOps.
Import TaskSlot Children Family.

Section ops.
Context {w : Z} {S : Type} `{!TaskStorage w S}.
Implicit Types (s : S) (kids : Z -> list Z).

(** The tree links of the slots, and the slots without them. *)
Definition fam s : links := fun r => (fun v => (first_child v, next_sibling v)) <$> ts_at s r.
Definition unlink (v : slot) : slot := set_first_child None (set_next_sibling None v).
Definition body s (r : Z) : option slot := unlink <$> ts_at s r.

(** [s'] has the tasks of [s] up to tree links, which are [F]. *)
Record rewired s s' (F : links) : Prop := {
  rw_wf : ts_wf s';
  rw_cap : ts_cap s' = ts_cap s;
  rw_body r : ref_of w r -> body s' r = body s r;
  rw_fam r : ref_of w r -> fam s' r = F r;
}.

Lemma fam_Some s r fc ns : fam s r = Some (fc, ns) -> exists v, ts_at s r = Some v /\ first_child v = fc /\ next_sibling v = ns.
Proof. unfold fam. destruct (ts_at s r); cbn; naive_solver. Qed.

Lemma fam_is_Some s r : is_Some (fam s r) <-> is_Some (ts_at s r).
Proof. unfold fam. by rewrite fmap_is_Some. Qed.

Lemma body_is_Some s r : is_Some (body s r) <-> is_Some (ts_at s r).
Proof. unfold body. by rewrite fmap_is_Some. Qed.

Lemma modify_rewires s r f v :
  ts_wf s -> ref_of w r -> ts_at s r = Some v -> unlink (f v) = unlink v ->
  exists s', ts_modify s r f = Ret (true, s') /\
    rewired s s' (fun r' => if decide (r' = r) then Some (first_child (f v), next_sibling (f v)) else fam s r').
Proof.
  intros W Hr Ev Hf. pose proof (ts_modify_spec s r f W Hr) as H. rewrite Ev in H. destruct H as (s' & E & W' & C & A).
  exists s'. split; [done|]. split; [done|done| |].
  - intros r' Hr'. unfold body. rewrite A by done. case_decide; [subst; rewrite Ev; cbn; by rewrite Hf|done].
  - intros r' Hr'. unfold fam. rewrite A by done. by case_decide.
Qed.

Lemma rewired_trans s s1 s2 F G : rewired s s1 F -> rewired s1 s2 G -> rewired s s2 G.
Proof. intros [A1 A2 A3 A4] [B1 B2 B3 B4]. split; [done|congruence| |done]. intros r Hr. by rewrite B3, A3. Qed.

Lemma rewired_live s s' F r : rewired s s' F -> ref_of w r -> is_Some (ts_at s' r) <-> is_Some (ts_at s r).
Proof. intros [_ _ Hb _] Hr. rewrite <- !body_is_Some. by rewrite Hb. Qed.

(** [push_child] puts the child in front. *)
Lemma push_child_spec s kids p c :
  ts_wf s -> family w (fam s) kids -> ref_of w p -> ref_of w c -> p <> c -> is_Some (ts_at s c) ->
  orphan w (fam s) kids c ->
  match ts_at s p with
  | None => push_child s p c = Ret (Err ParentNotFound, s)
  | Some _ => exists s' F, push_child s p c = Ret (Ok tt, s') /\ rewired s s' F /\
      family w (fam s') (kupd kids p (c :: kids p))
  end.
Proof.
  intros W Hf Hp Hc Hpc [vc Evc] Ho. unfold push_child. rewrite (ts_get_spec s p W Hp). destruct (ts_at s p) as [vp|] eqn:Evp; [|done].
  cbn [mbind outcome_bind]. destruct (modify_rewires s c (set_next_sibling (first_child vp)) vc W Hc Evc eq_refl) as (s1 & E1 & R1).
  rewrite E1. cbn [mbind outcome_bind negb]. destruct (proj2 (rewired_live _ _ _ p R1 Hp) ltac:(eauto)) as [vp1 Evp1].
  destruct (modify_rewires s1 p (set_first_child (Some c)) vp1 (rw_wf _ _ _ R1) Hp Evp1 eq_refl) as (s2 & E2 & R2).
  rewrite E2. cbn [mbind outcome_bind negb]. pose proof (rewired_trans _ _ _ _ _ R1 R2) as R. eexists s2, _. split; [done|]. split; [exact R|].
  eapply family_ext; [apply (family_push w (fam s) kids p c (first_child vp) (next_sibling vp) (first_child vc) (next_sibling vc)); try done; unfold fam; by rewrite ?Evp, ?Evc|].
  intros r Hr. rewrite (rw_fam _ _ _ R) by done. destruct (decide (r = p)) as [-> |].
  - cbn. f_equal. f_equal. pose proof (rw_fam _ _ _ R1 p Hp) as E. unfold fam at 1 in E. rewrite Evp1, decide_False in E by done.
    unfold fam in E. rewrite Evp in E. cbn in E. congruence.
  - rewrite (rw_fam _ _ _ R1) by done. by case_decide.
Qed.

(** Walks along a sibling chain. *)
Lemma find_child_spec s o l fuel p b :
  ts_wf s -> Forall (ref_of w) l -> chain (fam s) o l -> (length l < fuel)%nat ->
  (forall c, c ∈ l -> p s c = Ret (b c)) -> find_child fuel s o p = Ret (List.find b l).
Proof.
  intros W. revert o fuel. induction l as [|c l IH]; intros o fuel Hr Hc Hf Hp; (destruct fuel as [|fuel]; [cbn in Hf; lia|]); cbn in Hc |- *.
  - by subst o.
  - destruct Hc as [-> (fc & ns & E & Hc)]. apply Forall_cons in Hr as [Hrc Hr]. apply fam_Some in E as (v & E & _ & Hns).
    cbn. rewrite (ts_get_spec s c W Hrc), E. cbn. rewrite Hp by set_solver. cbn. destruct (b c); [done|].
    rewrite Hns. apply IH; try done; [cbn in Hf; lia|]. intros. apply Hp. set_solver.
Qed.

Lemma locate_from_spec s o a t c b fuel :
  ts_wf s -> Forall (ref_of w) (a ++ t :: c :: b) -> chain (fam s) o (a ++ t :: c :: b) -> NoDup (a ++ t :: c :: b) ->
  (length a < fuel)%nat ->
  forall x, o = Some x -> locate_from fuel s x c = Ret (Ok (AfterPrev t)).
Proof.
  intros W. revert o fuel. induction a as [|y a IH]; intros o fuel Hr Hc Hnd Hf x ->; (destruct fuel as [|fuel]; [cbn in Hf; lia|]); cbn in Hc, Hr, Hnd |- *.
  - destruct Hc as [[= ->] (ft & nt & Et & -> & Hc)]. apply Forall_cons in Hr as [Hrt _].
    apply fam_Some in Et as (v & E & _ & Hns). rewrite (ts_get_spec s t W Hrt), E. cbn. by rewrite Hns, Z.eqb_refl.
  - destruct Hc as [[= ->] (fy & ny & Ey & Hc)]. apply Forall_cons in Hr as [Hry Hr]. apply NoDup_cons in Hnd as [Hy Hnd].
    apply fam_Some in Ey as (v & E & _ & Hns). rewrite (ts_get_spec s y W Hry), E. cbn. rewrite Hns.
    assert (exists x', ny = Some x' /\ x' <> c) as (x' & -> & Hx').
    { destruct a as [|z a]; cbn in Hc; destruct Hc as [-> _].
      - exists t. split; [done|]. apply NoDup_cons in Hnd as [? _]. set_solver.
      - exists z. split; [done|]. intros ->. apply NoDup_cons in Hnd as [Hn _]. apply Hn. set_solver. }
    destruct (Z.eqb_spec x' c); [done|]. eapply IH; eauto. cbn in Hf. lia.
Qed.

(** [remove_child] unlinks the child wherever it is in the list. *)
Lemma remove_child_spec s kids p c a b fuel :
  ts_wf s -> family w (fam s) kids -> ref_of w p -> is_Some (ts_at s p) -> kids p = a ++ c :: b ->
  (length (kids p) <= fuel)%nat ->
  exists s' F, remove_child fuel s p c = Ret (Ok tt, s') /\ rewired s s' F /\
    family w (fam s') (kupd kids p (a ++ b)).
Proof.
  intros W Hf Hp [vp Evp] Hk Hfuel. assert (Lp : is_Some (fam s p)) by (apply fam_is_Some; eauto).
  assert (Efp : fam s p = Some (first_child vp, next_sibling vp)) by (unfold fam; by rewrite Evp).
  pose proof (fa_chain _ _ _ Hf p _ _ Hp Efp) as Hch. pose proof (fa_refs _ _ _ Hf p Hp Lp) as Hrefs.
  pose proof (fa_nodup _ _ _ Hf p Hp Lp) as Hnd. rewrite Hk in *.
  destruct (chain_split _ _ _ _ _ Hch) as (fc & nc & Ec & _ & Hhd).
  assert (Hc : ref_of w c) by (apply (proj1 (Forall_forall _ _) Hrefs); set_solver).
  pose proof Ec as (vc & Evc & Hfc & Hnc)%fam_Some.
  assert (Hloc : locate fuel s p c = Ret (Ok (match list.last a with None => Head | Some t => AfterPrev t end))).
  { unfold locate. rewrite (ts_get_spec s p W Hp), Evp. cbn [mbind outcome_bind]. destruct a as [|t a _] using rev_ind.
    - rewrite (Hhd eq_refl). cbn. by rewrite Z.eqb_refl.
    - rewrite last_snoc. rewrite <- app_assoc in *. cbn [app] in *.
      assert (exists x, first_child vp = Some x /\ x <> c) as (x & Ex & Hx).
      { destruct a as [|y a]; cbn in Hch; destruct Hch as [Hch _].
        - exists t. split; [done|]. apply NoDup_cons in Hnd as [? _]. set_solver.
        - exists y. split; [done|]. intros ->. apply NoDup_cons in Hnd as [Hn _]. apply Hn. set_solver. }
      rewrite Ex. destruct (Z.eqb_spec x c); [done|]. eapply locate_from_spec; try done.
      rewrite !length_app in Hfuel. cbn in Hfuel. lia. }
  unfold remove_child. rewrite Hloc. cbn [mbind outcome_bind]. rewrite (ts_get_spec s c W Hc), Evc. cbn [mbind outcome_bind].
  (* the predecessor, or the parent, skips the child *)
  assert (exists s1, (match (match list.last a with None => Head | Some t => AfterPrev t end) with
      | Head => '(found, storage) ← ts_modify s p (set_first_child (next_sibling vc)); Ret (if found : bool then Ok tt else Err ParentNotFound, storage)
      | AfterPrev prev => '(found, storage) ← ts_modify s prev (set_next_sibling (next_sibling vc)); Ret (if found : bool then Ok tt else Err ChildNotFound, storage)
      end) = Ret (Ok tt, s1) /\ rewired s s1 (bypassed (fam s) p a nc)) as (s1 & E1 & R1).
  { destruct (list.last a) as [t|] eqn:El; unfold bypassed; rewrite ?El.
    - assert (Hta : t ∈ a) by (by apply last_Some_elem_of). assert (Ht : ref_of w t) by (apply (proj1 (Forall_forall _ _) Hrefs); set_solver).
      destruct (chain_resolves (fam s) _ _ t Hch ltac:(set_solver)) as [[ft nt] Et]. pose proof Et as (vt & Evt & Hft & Hnt)%fam_Some.
      destruct (modify_rewires s t (set_next_sibling (next_sibling vc)) vt W Ht Evt eq_refl) as (s1 & -> & [? ? ? HF]).
      exists s1. split; [done|]. split; try done. intros r Hr. rewrite HF by done. case_decide; [|done]. cbn. rewrite Et. cbn. by rewrite Hft, Hnc.
    - destruct (modify_rewires s p (set_first_child (next_sibling vc)) vp W Hp Evp eq_refl) as (s1 & -> & [? ? ? HF]).
      exists s1. split; [done|]. split; try done. intros r Hr. rewrite HF by done. case_decide; [|done]. cbn. rewrite Efp. cbn. by rewrite Hnc. }
  rewrite E1. cbn [mbind outcome_bind]. destruct (proj2 (rewired_live _ _ _ c R1 Hc) ltac:(eauto)) as [vc1 Evc1].
  destruct (modify_rewires s1 c (set_next_sibling None) vc1 (rw_wf _ _ _ R1) Hc Evc1 eq_refl) as (s2 & -> & R2). cbn [mbind outcome_bind].
  pose proof (rewired_trans _ _ _ _ _ R1 R2) as R. eexists s2, _. split; [done|]. split; [exact R|].
  eapply family_ext; [apply (family_remove w (fam s) kids p c a b fc nc); done|]. intros r Hr. rewrite (rw_fam _ _ _ R) by done.
  unfold detached. case_decide as Hrc; [|by rewrite (rw_fam _ _ _ R1)]. subst r.
  rewrite <- (rw_fam _ _ _ R1 c Hc). unfold fam. by rewrite Evc1.
Qed.
End ops.
End TreeOps.

(** * What reaping does

    [slot_ok] is the invariant of a slot between polls: a valid state byte and
    the halves of the cell that the state promises.  Reaping a parent frees
    exactly its settled children, running their drop glue, and leaves the
    others linked in order. *)

From stdpp Require Import base tactics list numbers sets.

Local Open Scope Z_scope.

Module ReapSpec.
Import TaskCell TaskSlot Children Reap Family TreeOps.

(** The halves of the cell in each state. *)
Definition halves (st : TaskState.t) (c : TaskCell.cell) : Prop :=
  match st with
  | TaskState.Sleeping | TaskState.Woken | TaskState.Running | TaskState.Cancelled => future c = Live /\ output c = Uninit
  | TaskState.Done => future c = Gone /\ output c = Live
  | TaskState.Taken => future c = Gone /\ output c = Gone
  | TaskState.Retired => future c = Gone /\ output c = Uninit
  | TaskState.Failed => False
  end.

(** The slot is in state [st]. *)
Definition in_state (v : slot) (st : TaskState.t) : Prop :=
  TaskState.state (state v) = TaskState.to_u8 st /\ halves st (cell v).

Definition slot_ok (v : slot) : Prop := exists st, in_state v st.

(** Whether a slot in state [st] counts as settled. *)
Definition settledb (v : slot) : bool :=
  match settled_state v with Ret b => b | _ => false end.

Lemma in_state_load v st : in_state v st -> TaskState.load (state v) = Ret st.
Proof. intros [E _]. unfold TaskState.load. rewrite E. apply TaskState.from_to. Qed.

Lemma settledb_state v st :
  in_state v st -> settled_state v = Ret (settledb v) /\
  settledb v = match st with
               | TaskState.Done | TaskState.Cancelled | TaskState.Taken => true
               | TaskState.Retired => is_remote_settled v
               | _ => false
               end.
Proof.
  intros H. unfold settledb, settled_state. rewrite (in_state_load _ _ H). destruct H as [_ H]. by destruct st.
Qed.

Lemma slot_ok_drop v : slot_ok v -> exists c', drop_in_place_fn (cell v) = Ret c'.
Proof.
  intros [st H]. pose proof (in_state_load _ _ H) as Hl. destruct H as [_ Hh]. unfold drop_in_place_fn, drop_future, drop_output.
  unfold state in Hl. rewrite Hl. cbn. destruct st; cbn in Hh; try destruct Hh as [-> ->]; eauto.
Qed.

Lemma unlink_state v v' : unlink v = unlink v' -> cell v = cell v' /\ is_remote_settled v = is_remote_settled v'.
Proof. unfold unlink, set_first_child, set_next_sibling. destruct v, v'. cbn. by intros [=]. Qed.

Lemma unlink_ok v v' : unlink v = unlink v' -> slot_ok v -> slot_ok v'.
Proof. intros [E _]%unlink_state [st H]. exists st. unfold in_state, state in *. by rewrite <- E. Qed.

Lemma unlink_settled v v' : unlink v = unlink v' -> settledb v = settledb v'.
Proof. intros [E1 E2]%unlink_state. unfold settledb, settled_state, state. by rewrite E1, E2. Qed.

Section reap.
Context {w : Z} {S : Type} `{!TaskStorage w S}.
Implicit Types (s : S) (kids : Z -> list Z).

Definition slots_ok s : Prop := forall r v, ref_of w r -> ts_at s r = Some v -> slot_ok v.

(** Whether the task [r] resolves to a settled slot; tree links do not
    matter. *)
Definition settled s (r : Z) : bool := match body s r with Some v => settledb v | None => false end.

Lemma settled_at s r v : ts_at s r = Some v -> settled s r = settledb v.
Proof. intros E. unfold settled, body. rewrite E. cbn. by apply unlink_settled. Qed.

Lemma is_settled_spec s r : ts_wf s -> slots_ok s -> ref_of w r -> is_settled s r = Ret (settled s r).
Proof.
  intros W Hok Hr. unfold is_settled. rewrite (ts_get_spec s r W Hr). destruct (ts_at s r) as [v|] eqn:E; cbn.
  - rewrite (settled_at s r v E). destruct (Hok r v Hr E) as [st H]. apply (settledb_state v st H).
  - unfold settled, body. by rewrite E.
Qed.

Lemma slots_ok_body s s' :
  slots_ok s -> (forall r v, ref_of w r -> body s' r = Some v -> body s r = Some v) -> slots_ok s'.
Proof.
  intros Hok Hb r v Hr E. assert (body s' r = Some (unlink v)) as E1 by (unfold body; by rewrite E).
  apply Hb in E1; [|done]. unfold body in E1. apply fmap_Some in E1 as (v0 & E0 & Hu). eapply unlink_ok; [symmetry; exact Hu|by eapply Hok].
Qed.

(** Freeing a child that resolves takes its slot out. *)
Lemma free_child_spec s c v :
  ts_wf s -> slots_ok s -> ref_of w c -> ts_at s c = Some v ->
  exists s', free_child s c = Ret s' /\ ts_wf s' /\ ts_cap s' = ts_cap s /\
    forall r, ref_of w r -> ts_at s' r = if decide (r = c) then None else ts_at s r.
Proof.
  intros W Hok Hc E. destruct (Hok c v Hc E) as [st H]. unfold free_child, is_husk. rewrite (ts_get_spec s c W Hc), E. cbn.
  rewrite (in_state_load v st H). cbn. case_bool_decide.
  - destruct (ts_retire_slot_spec s c v W Hc E) as (s' & -> & ? & ? & ?). exists s'. by split_and!.
  - destruct (ts_remove_spec s c v W Hc E) as (s' & -> & ? & ? & ?). cbn.
    destruct (slot_ok_drop v ltac:(by exists st)) as [c' ->]. exists s'. by split_and!.
Qed.

Lemma find_split (b : Z -> bool) l c :
  List.find b l = Some c -> exists l1 l2, l = l1 ++ c :: l2 /\ b c = true /\ Forall (fun x => b x = false) l1.
Proof.
  induction l as [|x l IH]; [done|]. cbn. destruct (b x) eqn:Ex.
  - intros [= ->]. by exists [], l.
  - intros (l1 & l2 & -> & ? & ?)%IH. exists (x :: l1), l2. split_and!; [done|done|by constructor].
Qed.

Lemma find_none_filter (b : Z -> bool) l : List.find b l = None -> filter (fun x => b x = false) l = l /\ filter (fun x => b x = true) l = [].
Proof.
  induction l as [|x l IH]; [done|]. intros H. cbn in H. destruct (b x) eqn:Ex; [done|]. destruct (IH H) as [H1 H2].
  rewrite !list.filter_cons, decide_True, decide_False by (by rewrite Ex). by rewrite H1, H2.
Qed.

Lemma filter_elem_ext (b b' : Z -> bool) (l : list Z) :
  (forall x, x ∈ l -> b x = b' x) -> filter (fun x => b x = false) l = filter (fun x => b' x = false) l.
Proof.
  induction l as [|x l IH]; [done|]. intros H. rewrite !list.filter_cons, IH by (intros; apply H; set_solver).
  by rewrite (H x ltac:(set_solver)).
Qed.

Lemma first_settled_spec s kids p fuel :
  ts_wf s -> slots_ok s -> family w (fam s) kids -> ref_of w p -> (length (kids p) < fuel)%nat ->
  first_settled_child fuel s p = Ret (if ts_at s p then List.find (settled s) (kids p) else None).
Proof.
  intros W Hok Hf Hp Hfuel. unfold first_settled_child, iter_children. rewrite (ts_get_spec s p W Hp).
  destruct (ts_at s p) as [vp|] eqn:Ep; cbn; [|by destruct fuel; [lia|]].
  assert (Efp : fam s p = Some (first_child vp, next_sibling vp)) by (unfold fam; by rewrite Ep).
  pose proof (fa_refs _ _ _ Hf p Hp ltac:(eauto)) as Hrefs. apply find_child_spec; try done; [by eapply fa_chain|].
  intros c Hc. apply is_settled_spec; [done|done|]. by apply (proj1 (Forall_forall _ _) Hrefs).
Qed.

(** One turn: the first settled child is unlinked and freed. *)
Lemma reap_turn s kids p a c b fuel :
  ts_wf s -> slots_ok s -> family w (fam s) kids -> ref_of w p -> is_Some (ts_at s p) -> kids p = a ++ c :: b ->
  (length (kids p) <= fuel)%nat ->
  exists s1 s2, remove_child fuel s p c = Ret (Ok tt, s1) /\ free_child s1 c = Ret s2 /\
    ts_wf s2 /\ ts_cap s2 = ts_cap s /\ slots_ok s2 /\ family w (fam s2) (kupd kids p (a ++ b)) /\
    forall r, ref_of w r -> body s2 r = if decide (r = c) then None else body s r.
Proof.
  intros W Hok Hf Hp Lp Hk Hfuel. destruct (remove_child_spec s kids p c a b fuel W Hf Hp Lp Hk Hfuel) as (s1 & F & E1 & R1 & Hf1).
  assert (Lfp : is_Some (fam s p)) by (by apply fam_is_Some).
  pose proof (fa_nodup _ _ _ Hf p Hp Lfp) as Hnd. pose proof (fa_refs _ _ _ Hf p Hp Lfp) as Hrefs.
  assert (Hc : ref_of w c) by (apply (proj1 (Forall_forall _ _) Hrefs); rewrite Hk; set_solver).
  assert (Hok1 : slots_ok s1) by (eapply slots_ok_body; [exact Hok|]; intros r v Hr; by rewrite (rw_body _ _ _ R1)).
  assert (Lc : is_Some (ts_at s1 c)).
  { apply (rewired_live _ _ _ c R1 Hc). destruct Lfp as [[fp np] Efp]. apply fam_is_Some.
    apply (chain_resolves (fam s) fp (kids p)); [by apply (fa_chain _ _ _ Hf p fp np)|rewrite Hk; set_solver]. }
  destruct Lc as [vc Evc]. destruct (free_child_spec s1 c vc (rw_wf _ _ _ R1) Hok1 Hc Evc) as (s2 & E2 & W2 & C2 & A2).
  assert (Hbody : forall r, ref_of w r -> body s2 r = if decide (r = c) then None else body s r).
  { intros r Hr. unfold body at 1. rewrite A2 by done. case_decide; [done|]. by rewrite <- (rw_body _ _ _ R1). }
  exists s1, s2. split_and!; [done|done|done|by rewrite C2, (rw_cap _ _ _ R1)| | |done].
  - eapply slots_ok_body; [exact Hok|]. intros r v Hr. rewrite Hbody by done. by case_decide.
  - apply (family_delete w (fam s1) (fam s2) (kupd kids p (a ++ b)) c); [exact Hf1| | |].
    + intros q Hq Lq Hin. apply fam_is_Some, (rewired_live _ _ _ q R1 Hq) in Lq. unfold kupd in Hin. rewrite Hk in Hnd.
      case_decide as Hqp; [subst q; revert Hnd Hin; rewrite NoDup_app, NoDup_cons; set_solver|].
      apply Hqp. eapply (fa_disj _ _ _ Hf q p c); try done; [by apply fam_is_Some|rewrite Hk; set_solver].
    + unfold fam. rewrite A2, decide_True by done. done.
    + intros r Hr Hne. unfold fam. by rewrite A2, decide_False.
Qed.

(** Reaping [p] frees exactly its settled children. *)
Lemma reap_children_spec n : forall fuel s kids p,
  ts_wf s -> slots_ok s -> family w (fam s) kids -> ref_of w p ->
  (length (kids p) <= n)%nat -> (n < fuel)%nat ->
  exists s', reap_children fuel s p = Ret s' /\ ts_wf s' /\ ts_cap s' = ts_cap s /\ slots_ok s' /\
    family w (fam s') (if ts_at s p then kupd kids p (filter (fun c => settled s c = false) (kids p)) else kids) /\
    forall r, ref_of w r ->
      body s' r = if decide (is_Some (ts_at s p) /\ r ∈ kids p /\ settled s r = true) then None else body s r.
Proof.
  induction n as [|n IH]; intros fuel s kids p W Hok Hf Hp Hn Hfuel; (destruct fuel as [|fuel]; [lia|]); cbn [reap_children];
    rewrite (first_settled_spec s kids p) by (done || lia); cbn [mbind outcome_bind].
  { destruct (kids p) as [|] eqn:Hk; [|cbn in Hn; lia]. assert ((if ts_at s p then List.find (settled s) [] else None) = None) as -> by (by destruct (ts_at s p)).
    exists s. split_and!; try done.
    - destruct (ts_at s p); [|done]. cbn. eapply family_kupd_same; [done|]. by rewrite Hk.
    - intros r Hr. rewrite decide_False; [done|]. intros (_ & Hin & _). by apply not_elem_of_nil in Hin. }
  destruct (ts_at s p) as [vp|] eqn:Ep.
  2: { exists s. by split_and!. }
  destruct (List.find (settled s) (kids p)) as [c|] eqn:Efind.
  2: { apply find_none_filter in Efind as [E1 E2]. exists s. rewrite E1. split_and!; try done; [by apply family_kupd_same|].
       intros r Hr. rewrite decide_False; [done|]. intros (_ & Hin & Hs).
       assert (r ∈ filter (fun x => settled s x = true) (kids p)) as Hx by (by apply list_elem_of_filter).
       rewrite E2 in Hx. by apply not_elem_of_nil in Hx. }
  apply find_split in Efind as (a & b & Hk & Hcs & Ha).
  destruct (reap_turn s kids p a c b (Datatypes.S fuel)) as (s1 & s2 & -> & E2 & W2 & C2 & Hok2 & Hf2 & Hb2); try done; [lia|].
  cbn [mbind outcome_bind]. rewrite E2. cbn [mbind outcome_bind].
  assert (Hkp : kupd kids p (a ++ b) p = a ++ b) by (unfold kupd; by rewrite decide_True).
  destruct (IH fuel s2 (kupd kids p (a ++ b)) p W2 Hok2 Hf2 Hp) as (s' & -> & W' & C' & Hok' & Hf' & Hb').
  { rewrite Hkp. rewrite Hk, length_app in Hn. cbn in Hn. rewrite length_app. lia. }
  { lia. }
  pose proof (fa_self _ _ _ Hf p Hp ltac:(apply fam_is_Some; eauto)) as Hself.
  pose proof (fa_nodup _ _ _ Hf p Hp ltac:(apply fam_is_Some; eauto)) as Hnd. rewrite Hk in Hnd, Hself.
  pose proof (fa_refs _ _ _ Hf p Hp ltac:(apply fam_is_Some; eauto)) as Hrefs. rewrite Hk in Hrefs.
  assert (Hpc : p <> c) by set_solver.
  assert (Lp2 : is_Some (ts_at s2 p)).
  { apply body_is_Some. rewrite Hb2, decide_False by done. apply body_is_Some. eauto. }
  assert (Hcnot : c ∉ a ++ b) by (revert Hnd; rewrite NoDup_app, NoDup_cons; set_solver).
  assert (Hsame : forall x, ref_of w x -> x <> c -> settled s2 x = settled s x).
  { intros x Hx Hxc. unfold settled. by rewrite Hb2, decide_False by done. }
  exists s'. split_and!; try done; [by rewrite C'| |].
  - destruct (ts_at s2 p) as [?|] eqn:Ep2; [|by destruct Lp2]. rewrite Hkp in Hf'. eapply family_kupd_twice; [exact Hf'|].
    rewrite Hk, list.filter_app, list.filter_cons, decide_False, <- list.filter_app by (by rewrite Hcs).
    apply filter_elem_ext. intros x Hx. rewrite Hsame; [done| |by intros ->].
    apply (proj1 (Forall_forall _ _) Hrefs). set_solver.
  - intros r Hr. rewrite Hb' by done. rewrite Hkp. destruct (decide (r = c)) as [-> |Hrc].
    + rewrite decide_False by (intros (_ & ? & _); done). rewrite Hb2, decide_True by done.
      rewrite decide_True; [done|]. split_and!; [eauto|rewrite Hk; set_solver|done].
    + rewrite Hsame, Hb2, (decide_False (P := r = c)) by done. apply decide_ext. rewrite Hk. split; intros (? & ? & ?); split_and!; eauto; set_solver.
Qed.
End reap.
End ReapSpec.
