(* ===== verification/WorkerCycle.v ===== *)
(** * One pass of the worker

    Models what a worker does with its shard between two parks, in the default
    (non-stealing) build: the poll frame a task reaches its worker through
    (src/crates/kwokka-runtime/src/worker/poll/frame.rs, the scope future of
    task/join/scope.rs), one poll (worker/poll/polling.rs), the cooperative
    tick (worker/cycle/pass.rs), the spawn drain (worker/cycle/spawn.rs) and
    their composition in [run_pass] (runtime/drive/turn.rs).  The driver parts
    of a pass (the cancel and completion drains) are left out, and the wake
    inbox is the list of references popped from it.

    What a future does when polled is not code of the repository: a [program]
    lists the frame calls it makes and whether it is then ready. *)

From S2P Require Import Prelude Words GenKey SlabAlloc SlabFacts SlabStore TimerWheel PipId TaskRefId TaskCell TaskSlots WorkerRing RunQueue TaskTree.
From stdpp Require Import base tactics list numbers.

Local Open Scope Z_scope.

Module PollFrame.
Import TaskSlot Ring.

Inductive JoinError : Type := JoinCancelled | JoinFailed | AlreadyJoined.

(** [Poll<Result<(), JoinError>>]; the value moved out is not part of the
    model. *)
Inductive JoinPoll : Type := Pending | ReadyOk | ReadyErr (e : JoinError).

Section frame.
Context {w : Z} {S : Type} `{!TaskStorage w S}.

(** The shard fields a frame points at, and the ops submitted through it. *)
Record env : Type := mkEnv {
  tasks : S;
  inbox : ring (SpawnInbox.PendingSpawn slot);
  reap : ring Z;
  timer_requests : ring TimerInbox.TimerRequest;
  submitted : Z;
}.

Definition set_tasks x e := mkEnv x (inbox e) (reap e) (timer_requests e) (submitted e).

Definition push_spawn (e : env) (request : SpawnInbox.PendingSpawn slot)
    : outcome (option (SpawnInbox.PendingSpawn slot) * env) :=
  '(back, inbox) ← SpawnInbox.push (inbox e) request;
  Ret (back, mkEnv (tasks e) inbox (reap e) (timer_requests e) (submitted e)).

Definition request_timer (e : env) (task_ref delay_ticks : Z) : outcome (bool * env) :=
  '(b, t) ← TimerInbox.push (timer_requests e) (TimerInbox.mkRequest task_ref delay_ticks);
  Ret (b, mkEnv (tasks e) (inbox e) (reap e) t (submitted e)).

Definition push_reap (e : env) (parent : Z) : outcome (bool * env) :=
  '(b, r) ← ReapQueue.push (reap e) parent;
  Ret (b, mkEnv (tasks e) (inbox e) r (timer_requests e) (submitted e)).

(** The count a submitted op leaves in the frame, an [AtomicU16]. *)
Definition submit_internal (e : env) (is_submitted : bool) : env :=
  if is_submitted
  then mkEnv (tasks e) (inbox e) (reap e) (timer_requests e) (wrap U16 (submitted e + 1)) else e.

Definition cancel_child (e : env) (current child : Z) : outcome (bool * env) :=
  if TaskRef.is_arena child || (TaskRef.index child =? TaskRef.index current) then Ret (false, e) else
  x ← ts_get_mut (tasks e) child;
  match x with
  | None => Ret (false, e)
  | Some (sl, st) =>
      '(b, a) ← TaskState.cancel 1 [] (state sl);
      Ret (b, set_tasks (st (set_state a sl)) e)
  end.

Definition join_child (e : env) (current child : Z) : outcome (JoinPoll * env) :=
  if TaskRef.is_arena child || (TaskRef.index child =? TaskRef.index current) then Ret (Pending, e) else
  x ← ts_get_mut (tasks e) child;
  match x with
  | None => Ret (ReadyErr JoinCancelled, e)
  | Some (sl, st) =>
      s ← TaskState.load (state sl);
      match s with
      | TaskState.Done =>
          c ← TaskCell.take_output_shared (cell sl);
          Ret (ReadyOk, set_tasks (st (set_cell c sl)) e)
      | TaskState.Failed => Ret (ReadyErr JoinFailed, e)
      | TaskState.Cancelled => Ret (ReadyErr JoinCancelled, e)
      | TaskState.Taken => Ret (ReadyErr AlreadyJoined, e)
      | TaskState.Sleeping | TaskState.Woken | TaskState.Running => Ret (Pending, e)
      | TaskState.Retired => Panic
      end
  end.

(** The walk from the first child captured at poll entry. *)
Fixpoint are_children_all_settled (fuel : nat) (s : S) (next : option Z) : outcome bool :=
  match next with
  | None => Ret true
  | Some child =>
      match fuel with
      | O => OutOfFuel
      | Datatypes.S fuel =>
          x ← ts_get s child;
          match x with
          | None => Ret true
          | Some header =>
              is_settled ← Reap.settled_state header;
              if negb is_settled then Ret false else are_children_all_settled fuel s (next_sibling header)
          end
      end
  end.

(** The calls a polled task makes; the spawned cell carries a detached id and
    is pinned by an affine scope, a draining scope checks its children and
    records its task for the reaper. *)
Inductive call : Type :=
| Spawn (pip namespace : Z) (is_pinned : bool)
| ArmTimer (delay_ticks : Z)
| DrainScope
| CancelChild (child : Z)
| JoinChild (child : Z)
| Submit (is_submitted : bool).

Definition pinned (b : bool) (s : slot) : slot :=
  mkSlot (cell s) (pip s) (namespace s) (first_child s) (next_sibling s) (wake_data s)
    (in_flight_ops s) b (is_remote_settled s) (has_polled s) (io_bound s) (next_runnable s).

Definition run_call (fuel : nat) (current : Z) (first_child : option Z) (e : env) (c : call) : outcome env :=
  match c with
  | Spawn pip ns b =>
      '(_, e) ← push_spawn e (SpawnInbox.mkPending current (pinned b (TaskSlot.new pip ns))); Ret e
  | ArmTimer delay => '(_, e) ← request_timer e current delay; Ret e
  | DrainScope =>
      settled ← are_children_all_settled fuel (tasks e) first_child;
      if settled : bool then '(_, e) ← push_reap e current; Ret e else Ret e
  | CancelChild child => '(_, e) ← cancel_child e current child; Ret e
  | JoinChild child => '(_, e) ← join_child e current child; Ret e
  | Submit b => Ret (submit_internal e b)
  end.

Fixpoint run_calls (fuel : nat) (current : Z) (first_child : option Z) (e : env) (cs : list call) : outcome env :=
  match cs with
  | [] => Ret e
  | c :: cs => e ← run_call fuel current first_child e c; run_calls fuel current first_child e cs
  end.

Record program : Type := mkProgram { calls : list call; ready : bool }.

(** The vtable poll: the future's calls, then its result. *)
Definition poll_via_vtable (fuel : nat) (current : Z) (first_child : option Z) (e : env) (p : program)
    : outcome (bool * env) :=
  e ← run_calls fuel current first_child e (calls p);
  x ← ts_get_mut (tasks e) current;
  match x with
  | None => Undefined
  | Some (sl, st) =>
      '(is_ready, c) ← TaskCell.poll_fn (ready p) (cell sl);
      Ret (is_ready, set_tasks (st (set_cell c sl)) e)
  end.

(** Apply [f] to the state of the polled slot, which the poll holds. *)
Definition on_state {A} (f : TaskState.AtomicTaskState -> outcome (A * TaskState.AtomicTaskState)) (current : Z) (e : env)
    : outcome (A * env) :=
  x ← ts_get_mut (tasks e) current;
  match x with
  | None => Undefined
  | Some (sl, st) => '(r, a) ← f (state sl); Ret (r, set_tasks (st (set_state a sl)) e)
  end.

Definition poll_task (fuel : nat) (current : Z) (first_child : option Z) (e : env) (p : program)
    : outcome (TaskCell.PollOutcome * env) :=
  '(r, e) ← on_state (TaskState.try_start_poll []) current e;
  match r with
  | Err observed => Ret (TaskCell.Skipped observed, e)
  | Ok _ =>
      '(_, s) ← ts_modify (tasks e) current (set_has_polled true);
      '(is_ready, e) ← poll_via_vtable fuel current first_child (set_tasks s e) p;
      if is_ready : bool then
        '(_, e) ← on_state (TaskState.complete []) current e; Ret (TaskCell.Completed, e)
      else
        '(r, e) ← on_state (TaskState.suspend []) current e;
        Ret (match r with Err TaskState.Woken => TaskCell.Rescheduled | _ => TaskCell.Suspended end, e)
  end.

(** [poll_one]; the frame starts with no submitted op. *)
Definition poll_one (fuel : nat) (current : Z) (e : env) (p : program)
    : outcome (option TaskCell.PollOutcome * env) :=
  x ← ts_get (tasks e) current;
  match x with
  | None => Ret (None, e)
  | Some parent =>
      '(outcome, e) ← poll_task fuel current (first_child parent)
                        (mkEnv (tasks e) (inbox e) (reap e) (timer_requests e) 0) p;
      if 0 <? submitted e then
        '(_, s) ← ts_modify (tasks e) current
                    (fun h => set_in_flight (saturating_add U16 (in_flight_ops h) (submitted e)) true h);
        Ret (Some outcome, set_tasks s e)
      else Ret (Some outcome, e)
  end.
End frame.
Arguments env : clear implicits.
Arguments mkEnv {S}.
End PollFrame.

Module Worker.
Import TaskSlot Ring RunQueue PollFrame.

Inductive Tick : Type := Worked | Idle.

Section pass.
Context {w : Z} {S T : Type} `{!TaskStorage w S} `{!EntryStore Wheel.TimerEntry T}.

(** The task side of [WorkerShard]: its task slab and inboxes ([senv]), its
    timer wheel, run queue and id sequence.  The worker id is [w]; the driver,
    its operation slabs and cancel inboxes, and the stealing fields are left
    out. *)
Record shard : Type := mkShard {
  senv : env S;
  timer : Wheel.TimerWheel T;
  run_queue : queue;
  pip_seq : Z;
}.

(** Wakes every reference of a list, in order. *)
Fixpoint wake_all (tasks : S) (q : queue) (refs : list Z) : outcome (queue * S) :=
  match refs with
  | [] => Ret (q, tasks)
  | r :: refs => '(q, tasks) ← wake_local tasks q r; wake_all tasks q refs
  end.

(** The poll loop of [tick]: [remaining] tasks at most, each given its
    program; the polls made, oldest first. *)
Fixpoint poll_loop (fuel remaining : nat) (progs : Z -> program) (e : env S) (q : queue)
    : outcome (list (Z * TaskCell.PollOutcome) * env S * queue) :=
  match remaining with
  | O => Ret ([], e, q)
  | Datatypes.S remaining =>
      '(x, q) ← pop q (tasks e);
      match x with
      | None => Ret ([], e, q)
      | Some task_ref =>
          '(o, e) ← poll_one fuel task_ref e (progs task_ref);
          match o with
          | None => poll_loop fuel remaining progs e q
          | Some o =>
              '(q, s) ← match o with
                        | TaskCell.Rescheduled => push q task_ref (tasks e)
                        | _ => Ret (q, tasks e)
                        end;
              '(polled, e, q) ← poll_loop fuel remaining progs (set_tasks s e) q;
              Ret ((task_ref, o) :: polled, e, q)
          end
      end
  end.

(** [while let Some(request) = timer_requests.pop()]; each turn reads the
    clock, [clock turns]. *)
Fixpoint drain_timers (turns : nat) (clock : nat -> Z) (r : ring TimerInbox.TimerRequest) (t : Wheel.TimerWheel T)
    : outcome (ring TimerInbox.TimerRequest * Wheel.TimerWheel T) :=
  match turns with
  | O => OutOfFuel
  | Datatypes.S turns =>
      '(x, r) ← TimerInbox.pop r;
      match x with
      | None => Ret (r, t)
      | Some request =>
          let deadline := saturating_add U64 (clock turns) (TimerInbox.delay_ticks request) in
          '(_, t) ← Wheel.register t (TimerInbox.task_ref request) deadline;
          drain_timers turns clock r t
      end
  end.

(** [tick]; [now] is the clock reading before the polls and [clock] gives
    those after them, [fuel] bounds the walks over tasks and [tfuel] the
    wheel. *)
Definition tick (fuel tfuel : nat) (now : Z) (clock : nat -> Z) (progs : Z -> program) (sh : shard)
    : outcome (Tick * list (Z * TaskCell.PollOutcome) * shard) :=
  '(expired, t) ← Wheel.collect tfuel (Wheel.advance_to (timer sh) now);
  '(q, s) ← wake_all (tasks (senv sh)) (run_queue sh) expired;
  '(polled, e, q) ← poll_loop fuel (Z.to_nat (len q)) progs (set_tasks s (senv sh)) q;
  '(r, t) ← drain_timers (Datatypes.S (length (slots (timer_requests e)))) clock (timer_requests e) t;
  let e := mkEnv (tasks e) (inbox e) (reap e) r (submitted e) in
  Ret (match expired, polled with [], [] => Idle | _, _ => Worked end, polled,
       mkShard e t q (pip_seq sh)).

(** [while let Some(mut pending) = spawn_inbox.pop()]. *)
Fixpoint drain_spawns (turns : nat) (s : S) (q : queue) (r : ring (SpawnInbox.PendingSpawn slot)) (seq : Z)
    : outcome (S * queue * ring (SpawnInbox.PendingSpawn slot) * Z) :=
  match turns with
  | O => OutOfFuel
  | Datatypes.S turns =>
      '(x, r) ← SpawnInbox.pop r;
      match x with
      | None => Ret (s, q, r, seq)
      | Some pending =>
          let pip := Pip.issue (WorkerId.raw w) seq in
          seq ← add_or_panic U64 seq 1;
          '(k, s) ← ts_insert s (set_pip pip (SpawnInbox.pcell pending));
          match k with
          | Err _ => Panic
          | Ok key =>
              let child := TaskRef.from_slab (WorkerId.raw w) key in
              '(_, s) ← Children.push_child s (SpawnInbox.parent pending) child;
              '(q, s) ← wake_local s q child;
              drain_spawns turns s q r seq
          end
      end
  end.

(** [run_pass] without its driver parts; [wakes] is what the wake inbox
    holds. *)
Definition run_pass (fuel tfuel : nat) (now : Z) (clock : nat -> Z) (wakes : list Z) (progs : Z -> program) (sh : shard)
    : outcome (Tick * list (Z * TaskCell.PollOutcome) * shard) :=
  '(q, s) ← wake_all (tasks (senv sh)) (run_queue sh) wakes;
  '(outcome, polled, sh) ← tick fuel tfuel now clock progs
                             (mkShard (set_tasks s (senv sh)) (timer sh) q (pip_seq sh));
  let e := senv sh in
  '(s, q, r, seq) ← drain_spawns (Datatypes.S (length (slots (inbox e)))) (tasks e) (run_queue sh) (inbox e) (pip_seq sh);
  '(s, rq) ← Reap.reap_settled (Datatypes.S (length (slots (reap e)))) fuel s (reap e);
  Ret (outcome, polled, mkShard (mkEnv s r rq (timer_requests e) (submitted e)) (timer sh) q seq).
End pass.
Arguments shard : clear implicits.
Arguments mkShard {S T}.
End Worker.
