(* ===== verification/WorkerInv.v ===== *)
(** * The invariant of a worker

    [tinv] relates the task slab, the run queue and the children lists of one
    worker: every slot is in a valid state, the run queue holds each of its
    tasks once, and a task is woken exactly when it is queued (or is the one
    being polled).  Each operation of the cycle is shown to keep it. *)

From S2P Require Import Prelude GenKey TaskRefId TaskCell TaskSlots WorkerRing RunQueue TaskTree TaskTreeSpec WorkerCycle.
From stdpp Require Import base tactics list numbers sets.

Local Open Scope Z_scope.

Module WorkerInv.
Import TaskSlot RunQueue Family TreeOps ReapSpec.

Section inv.
Context {w : Z} {S : Type} `{!TaskStorage w S}.
Implicit Types (s : S) (q : queue) (l : list Z) (kids : Z -> list Z) (cur : option Z).

(** The state of task [r], when it resolves. *)
Definition stt s (r : Z) : option TaskState.t :=
  v ← ts_at s r; match TaskState.load (state v) with Ret st => Some st | _ => None end.

Record tinv s q l kids cur : Prop := {
  t_wf : ts_wf s;
  t_queue : RunQueueSpec.holds s q l;
  t_slots : slots_ok s;
  t_family : family w (fam s) kids;
  t_queued r : r ∈ l -> stt s r = Some TaskState.Woken \/ stt s r = Some TaskState.Cancelled;
  t_woken r : ref_of w r -> stt s r = Some TaskState.Woken -> cur <> Some r -> r ∈ l;
  t_running r : ref_of w r -> stt s r = Some TaskState.Running -> cur = Some r;
  t_retired r : ref_of w r -> stt s r <> Some TaskState.Retired;
  t_current r : cur = Some r -> r ∉ l;
}.

Lemma stt_in_state s r v st : ts_at s r = Some v -> in_state v st -> stt s r = Some st.
Proof. intros E H. unfold stt. rewrite E. cbn. by rewrite (in_state_load v st H). Qed.

Lemma stt_Some s r st : slots_ok s -> ref_of w r -> stt s r = Some st -> exists v, ts_at s r = Some v /\ in_state v st.
Proof.
  intros Hok Hr. unfold stt. destruct (ts_at s r) as [v|] eqn:E; [|done]. cbn. destruct (Hok r v Hr E) as [st' H].
  rewrite (in_state_load v st' H). intros [= ->]. eauto.
Qed.

Lemma stt_live s r : slots_ok s -> ref_of w r -> is_Some (stt s r) <-> is_Some (ts_at s r).
Proof.
  intros Hok Hr. split.
  - intros [st (v & E & _)%stt_Some]; eauto.
  - intros [v E]. destruct (Hok r v Hr E) as [st H]. exists st. by eapply stt_in_state.
Qed.

(** Run-queue links and tree links do not show in the state. *)
Lemma stt_core s r : stt s r = v ← RunQueueSpec.core s r; match TaskState.load (state v) with Ret st => Some st | _ => None end.
Proof. unfold stt, RunQueueSpec.core. by destruct (ts_at s r). Qed.

Lemma stt_body s r : stt s r = v ← body s r; match TaskState.load (state v) with Ret st => Some st | _ => None end.
Proof. unfold stt, body. by destruct (ts_at s r). Qed.

Lemma fam_core s r : fam s r = (fun v => (first_child v, next_sibling v)) <$> RunQueueSpec.core s r.
Proof. unfold fam, RunQueueSpec.core. by destruct (ts_at s r). Qed.

Lemma core_slot_ok s r v : ts_at s r = Some v -> slot_ok v <-> slot_ok (set_next_runnable None v).
Proof. intros _. unfold slot_ok, in_state. done. Qed.

(** ** Changing the slot of one task *)

(** Slot [v] of [r] becomes [v'], which differs in its cell and flags only. *)
Record touched s s' (r : Z) (v v' : slot) : Prop := {
  to_wf : ts_wf s';
  to_cap : ts_cap s' = ts_cap s;
  to_at r' : ref_of w r' -> ts_at s' r' = if decide (r' = r) then Some v' else ts_at s r';
  to_links : first_child v' = first_child v /\ next_sibling v' = next_sibling v /\ next_runnable v' = next_runnable v;
}.

Lemma modify_touched s r v f :
  ts_wf s -> ref_of w r -> ts_at s r = Some v ->
  (first_child (f v) = first_child v /\ next_sibling (f v) = next_sibling v /\ next_runnable (f v) = next_runnable v) ->
  exists s', ts_modify s r f = Ret (true, s') /\ touched s s' r v (f v).
Proof.
  intros W Hr E Hf. pose proof (ts_modify_spec s r f W Hr) as H. rewrite E in H. destruct H as (s' & Es & ? & ? & ?). by exists s'.
Qed.

(** Through the write-back of [get_mut]. *)
Lemma get_mut_touched s r v :
  ts_wf s -> ref_of w r -> ts_at s r = Some v ->
  exists st, ts_get_mut s r = Ret (Some (v, st)) /\ forall v',
    (first_child v' = first_child v /\ next_sibling v' = next_sibling v /\ next_runnable v' = next_runnable v) ->
    touched s (st v') r v v'.
Proof.
  intros W Hr E. pose proof (ts_get_mut_spec s r W Hr) as H. rewrite E in H. destruct H as (st & Es & H). exists st.
  split; [done|]. intros v' Hl. by destruct (H v') as (? & ? & ?).
Qed.

Section touch.
Context (s s' : S) (r : Z) (v v' : slot) (Ht : touched s s' r v v') (Hr : ref_of w r) (Ev : ts_at s r = Some v).

Lemma touched_at : ts_at s' r = Some v'.
Proof. by rewrite (to_at _ _ _ _ _ Ht), decide_True. Qed.

Lemma touched_fam r' : ref_of w r' -> fam s' r' = fam s r'.
Proof.
  intros Hr'. unfold fam. rewrite (to_at _ _ _ _ _ Ht) by done. case_decide as E; [|done]. subst. rewrite Ev. cbn.
  by destruct (to_links _ _ _ _ _ Ht) as (-> & -> & _).
Qed.

Lemma touched_stt st' r' : in_state v' st' -> ref_of w r' -> stt s' r' = if decide (r' = r) then Some st' else stt s r'.
Proof.
  intros Hs Hr'. case_decide as E; [subst; eapply stt_in_state; [apply touched_at|done]|].
  unfold stt. by rewrite (to_at _ _ _ _ _ Ht), decide_False.
Qed.

Lemma touched_tinv q l kids cur cur' st' :
  tinv s q l kids cur -> in_state v' st' ->
  (r ∈ l -> st' = TaskState.Woken \/ st' = TaskState.Cancelled) -> (st' = TaskState.Woken -> cur' <> Some r -> r ∈ l) ->
  (st' = TaskState.Running -> cur' = Some r) -> st' <> TaskState.Retired ->
  (forall x, x <> r -> cur = Some x <-> cur' = Some x) -> (cur' = Some r -> r ∉ l) ->
  tinv s' q l kids cur'.
Proof.
  intros [T1 T2 T3 T4 T5 T6 T7 T8 T9] Hs H1 H2 H3 H4 H5 H6. pose proof (touched_stt st') as Hst. pose proof (RunQueueSpec.q_refs _ _ _ T2) as Hrefs.
  rewrite Forall_forall in Hrefs. split.
  - apply Ht.
  - eapply RunQueueSpec.queue_holds_frame; [exact T2|]. intros x vx Hx Ex. rewrite (to_at _ _ _ _ _ Ht) by auto.
    case_decide; [subst; exists v'; split; [done|]|by exists vx]. assert (vx = v) as -> by congruence. apply (to_links _ _ _ _ _ Ht).
  - intros x vx Hx. rewrite (to_at _ _ _ _ _ Ht) by done. case_decide; [intros [= <-]; by exists st'|]. by apply T3.
  - eapply family_ext; [exact T4|]. apply touched_fam.
  - intros x Hx. rewrite Hst by auto. case_decide; [subst; destruct (H1 Hx) as [-> | ->]; auto|by apply T5].
  - intros x Hx. rewrite Hst by auto. case_decide; [intros [= ->]; subst; by apply H2|]. intros E Hc. apply (T6 x Hx E). rewrite H5 by done. done.
  - intros x Hx. rewrite Hst by auto. case_decide; [intros [= ->]; subst; by apply H3|]. intros E. apply H5; [done|]. by apply T7.
  - intros x Hx. rewrite Hst by auto. case_decide; [congruence|by apply T8].
  - intros x Hx. destruct (decide (x = r)) as [-> |]; [by apply H6|]. apply T9. by apply H5.
Qed.
End touch.

(** ** Waking *)

Lemma wake_local_tinv s q l kids r :
  tinv s q l kids None -> ref_of w r ->
  exists q' s', wake_local s q r = Ret (q', s') /\ ts_cap s' = ts_cap s /\
    tinv s' q' (if decide (stt s r = Some TaskState.Sleeping) then l ++ [r] else l) kids None /\
    forall r', ref_of w r' -> stt s' r' =
      if decide (r' = r /\ stt s r = Some TaskState.Sleeping) then Some TaskState.Woken else stt s r'.
Proof.
  intros H Hr. pose proof H as [T1 T2 T3 T4 T5 T6 T7 T8 T9].
  pose proof (RunQueueSpec.wake_local_spec s q l r T1 T2 Hr) as Hw. destruct (ts_at s r) as [v|] eqn:Ev.
  2: { assert (stt s r = None) as Es by (unfold stt; by rewrite Ev). rewrite Es. exists q, s.
       rewrite decide_False by done. split_and!; try done. intros r' Hr'. rewrite decide_False; [done|]. by intros [_ ?]. }
  destruct (T3 r v Hr Ev) as [st Hst]. pose proof (stt_in_state _ _ _ _ Ev Hst) as Es.
  destruct (Hw st (proj1 Hst)) as (q' & s' & E & W' & C' & H' & K').
  { intros -> Hin. destruct (T5 r Hin) as [|]; congruence. }
  assert (Hstt : forall r', ref_of w r' -> stt s' r' = if decide (r' = r /\ stt s r = Some TaskState.Sleeping) then Some TaskState.Woken else stt s r').
  { intros r' Hr'. rewrite stt_core, K' by done. rewrite Es. destruct (decide (r' = r /\ st = TaskState.Sleeping)) as [[-> ->]|Hn].
    - by rewrite decide_True.
    - rewrite decide_False by naive_solver. by rewrite <- stt_core. }
  assert (Hl : (if decide (stt s r = Some TaskState.Sleeping) then l ++ [r] else l) = if decide (st = TaskState.Sleeping) then l ++ [r] else l).
  { rewrite Es. repeat case_decide; naive_solver. }
  exists q', s'. rewrite Hl. split_and!; [done|done| |done]. split; try done.
  - intros x vx Hx Ex. assert (RunQueueSpec.core s' x = Some (set_next_runnable None vx)) as Ec by (unfold RunQueueSpec.core; by rewrite Ex).
    rewrite K' in Ec by done. apply (core_slot_ok s' x vx Ex). destruct (decide (x = r /\ st = TaskState.Sleeping)) as [[-> ->]|Hn].
    + apply (inj Some) in Ec. rewrite <- Ec. exists TaskState.Woken. destruct Hst as [_ Hh]. by destruct v as [[]].
    + apply RunQueueSpec.core_Some in Ec as (v0 & E0 & Ev0). rewrite Ev0, <- (core_slot_ok s x v0 E0). by apply (T3 x).
  - eapply family_ext; [exact T4|]. intros x Hx. rewrite !fam_core, K' by done. destruct (decide (x = r /\ _)) as [[-> ->]|]; [|done].
    unfold RunQueueSpec.core. by rewrite Ev.
  - intros x Hx. assert (Hxr : ref_of w x) by (pose proof (RunQueueSpec.q_refs _ _ _ H') as Hf; rewrite Forall_forall in Hf; auto).
    rewrite Hstt, Es by done. destruct (decide (x = r /\ _)) as [|Hn]; [by left|]. apply T5. destruct (decide (st = _)) as [-> |]; [|done]. set_solver.
  - intros x Hx. rewrite Hstt, Es by done. destruct (decide (x = r /\ _)) as [[-> [= ->]]|Hn].
    + rewrite decide_True by done. set_solver.
    + intros Ex Hc. pose proof (T6 x Hx Ex Hc). destruct (decide (st = _)); set_solver.
  - intros x Hx. rewrite Hstt by done. destruct (decide (x = r /\ _)); [done|]. by apply T7.
  - intros x Hx. rewrite Hstt by done. destruct (decide (x = r /\ _)); [done|]. by apply T8.
Qed.

Lemma wake_all_tinv refs : forall s q l kids,
  tinv s q l kids None -> Forall (ref_of w) refs ->
  exists q' s' l', Worker.wake_all s q refs = Ret (q', s') /\ ts_cap s' = ts_cap s /\ tinv s' q' (l ++ l') kids None /\
    (forall r, r ∈ refs -> stt s r = Some TaskState.Sleeping -> r ∈ l') /\
    (forall r, r ∈ l' -> r ∈ refs /\ stt s r = Some TaskState.Sleeping) /\
    forall r, ref_of w r -> stt s' r = if decide (r ∈ l') then Some TaskState.Woken else stt s r.
Proof.
  induction refs as [|r refs IH]; intros s q l kids H Hrefs.
  - exists q, s, []. rewrite app_nil_r. split_and!; try done; by intros r ?%elem_of_nil.
  - apply Forall_cons in Hrefs as [Hr Hrefs]. destruct (wake_local_tinv s q l kids r H Hr) as (q1 & s1 & E1 & C1 & H1 & Hs1).
    cbn. rewrite E1. cbn. destruct (IH s1 q1 _ kids H1 Hrefs) as (q2 & s2 & l2 & E2 & C2 & H2 & Ha & Hb & Hs2).
    pose proof Hrefs as Hrefs'. rewrite Forall_forall in Hrefs'.
    destruct (decide (stt s r = Some TaskState.Sleeping)) as [Hsl|Hsl].
    + exists q2, s2, (r :: l2). rewrite <- app_assoc in H2. cbn in H2. split_and!; [done|by rewrite C2|done| | |].
      * intros x Hx Ex. destruct (decide (x = r)) as [-> |]; [set_solver|]. apply elem_of_cons. right. apply Ha; [set_solver|].
        rewrite Hs1 by (apply Hrefs'; set_solver). by rewrite decide_False by naive_solver.
      * intros x [-> |Hx]%elem_of_cons; [set_solver|]. destruct (Hb x Hx) as [Hin Ex]. split; [set_solver|].
        rewrite Hs1 in Ex by auto. by destruct (decide (x = r /\ _)) in Ex.
      * intros x Hx. rewrite Hs2, Hs1 by done. destruct (decide (x = r)) as [-> |].
        -- rewrite (decide_True (P := r = r /\ _)) by done. rewrite (decide_True (P := r ∈ r :: l2)) by set_solver. by destruct (decide (r ∈ l2)).
        -- rewrite (decide_False (P := x = r /\ _)) by naive_solver. destruct (decide (x ∈ l2)), (decide (x ∈ r :: l2)); set_solver.
    + exists q2, s2, l2. split_and!; [done|by rewrite C2|done| | |].
      * intros x Hx Ex. apply Ha; [|rewrite Hs1 by (apply elem_of_cons in Hx as [-> |]; auto); by rewrite decide_False by naive_solver].
        apply elem_of_cons in Hx as [-> |]; [done|done].
      * intros x Hx. destruct (Hb x Hx) as [Hin Ex]. split; [set_solver|]. rewrite Hs1 in Ex by auto. by destruct (decide (x = r /\ _)) in Ex.
      * intros x Hx. rewrite Hs2, Hs1 by done. by rewrite (decide_False (P := x = r /\ _)) by naive_solver.
Qed.
End inv.
End WorkerInv.
