(* ===== verification/WorkerPoll.v ===== *)
(** * One poll keeps the worker's invariant

    Whatever frame calls a polled future makes, the poll returns, the run queue
    and the children lists stay well formed, no slot is freed, and the polled
    task ends up done or asleep. *)

From S2P Require Import Prelude GenKey TaskRefId TaskCell TaskSlots WorkerRing RunQueue TaskTree TaskTreeSpec WorkerCycle WorkerInv.
From stdpp Require Import base tactics list numbers sets.

Local Open Scope Z_scope.

Module WorkerPoll.
Import TaskSlot RunQueue Family TreeOps ReapSpec PollFrame WorkerInv.

Lemma touched_trans {w S} `{!TaskStorage w S} (s s1 s2 : S) r v v1 v2 :
  touched s s1 r v v1 -> touched s1 s2 r v1 v2 -> touched s s2 r v v2.
Proof.
  intros [A1 A2 A3 (A4 & A5 & A6)] [B1 B2 B3 (B4 & B5 & B6)]. split; [done|congruence| |].
  - intros r' Hr'. rewrite B3, A3 by done. by case_decide.
  - split_and!; congruence.
Qed.

Section poll.
Context {w : Z} {S : Type} `{!TaskStorage w S}.
Implicit Types (s : S) (e : env S) (q : queue) (l : list Z) (kids : Z -> list Z).

(** [s'] resolves the same tasks with the same tree links. *)
Record steady s s' : Prop := {
  sd_cap : ts_cap s' = ts_cap s;
  sd_live r : ref_of w r -> is_Some (ts_at s' r) <-> is_Some (ts_at s r);
  sd_fam r : ref_of w r -> fam s' r = fam s r;
}.

Lemma steady_refl s : steady s s.
Proof. by split. Qed.

Lemma steady_trans s1 s2 s3 : steady s1 s2 -> steady s2 s3 -> steady s1 s3.
Proof.
  intros [A1 A2 A3] [B1 B2 B3]. split; [congruence| |].
  - intros r Hr. by rewrite B2, A2.
  - intros r Hr. by rewrite B3, A3.
Qed.

Lemma touched_steady s s' r v v' : touched s s' r v v' -> ref_of w r -> ts_at s r = Some v -> steady s s'.
Proof.
  intros Ht Hr Ev. split; [apply Ht| |].
  - intros x Hx. rewrite (to_at _ _ _ _ _ Ht) by done. case_decide; [subst; rewrite Ev; split; eauto|done].
  - intros x Hx. by eapply touched_fam.
Qed.

(** ** The frame's rings *)

Definition fresh_cell (c : slot) : Prop := exists pip ns b, c = pinned b (TaskSlot.new pip ns).

Definition spawn_ok (live : Z -> Prop) (p : SpawnInbox.PendingSpawn slot) : Prop :=
  ref_of w (SpawnInbox.parent p) /\ live (SpawnInbox.parent p) /\ fresh_cell (SpawnInbox.pcell p).
Definition timer_ok (t : TimerInbox.TimerRequest) : Prop :=
  ref_of w (TimerInbox.task_ref t) /\ 1 <= TimerInbox.delay_ticks t < 2 ^ 64.

(** The rings hold the spawns [pl], the parents to reap [rl] and the timers
    [tl] requested so far. *)
Record rings (live : Z -> Prop) e pl rl tl : Prop := {
  g_inbox : RingThms.holds SpawnInbox.SPAWN_INBOX_CAPACITY (inbox e) pl;
  g_reap : RingThms.holds ReapQueue.REAP_QUEUE_CAPACITY (reap e) rl;
  g_timers : RingThms.holds TimerInbox.TIMER_INBOX_CAPACITY (timer_requests e) tl;
  g_spawn_ok : Forall (spawn_ok live) pl;
  g_reap_ok : Forall (ref_of w) rl;
  g_timer_ok : Forall timer_ok tl;
}.

Definition rings_ok (live : Z -> Prop) e : Prop := exists pl rl tl, rings live e pl rl tl.

Lemma rings_tasks live e s : rings_ok live e -> rings_ok live (set_tasks s e).
Proof. intros (pl & rl & tl & []). by exists pl, rl, tl. Qed.

Definition cap_pow : 64 = 2 ^ 6 := eq_refl.

Lemma push_ring {A} (r : Ring.ring A) ql a (P : A -> Prop) :
  RingThms.holds 64 r ql -> Forall P ql -> P a ->
  exists b r' ql', Ring.push 64 r a = Ret (b, r') /\ RingThms.holds 64 r' ql' /\ Forall P ql'.
Proof.
  intros H HP Ha. destruct (RingThms.push_holds 64 6 ltac:(lia) eq_refl r ql a H) as (r' & E & H' & _).
  eexists _, r', _. split; [exact E|]. split; [exact H'|]. case_match; [|done]. apply Forall_app. split; [done|by apply Forall_singleton].
Qed.

(** ** Frame calls *)

Definition call_ok (c : call) : Prop :=
  match c with
  | ArmTimer d => 1 <= d < 2 ^ 64
  | CancelChild child | JoinChild child => TaskRef.is_arena child = true \/ ref_of w child
  | _ => True
  end.

(** The tasks outside [xs] that were woken are woken still, those outside [ys]
    are in the state they were in. *)
Definition spares (xs ys : list Z) s s' : Prop :=
  forall x, ref_of w x ->
    (x ∉ xs -> stt s x = Some TaskState.Woken -> stt s' x = Some TaskState.Woken) /\ (x ∉ ys -> stt s' x = stt s x).

Lemma spares_refl xs ys s : spares xs ys s s.
Proof. done. Qed.

Lemma spares_trans xs xs' ys ys' s1 s2 s3 :
  spares xs ys s1 s2 -> spares xs' ys' s2 s3 -> spares (xs ++ xs') (ys ++ ys') s1 s3.
Proof.
  intros A B x Hx. destruct (A x Hx) as [A1 A2], (B x Hx) as [B1 B2]. split.
  - intros Hn E. apply B1; [set_solver|]. apply A1; [set_solver|done].
  - intros Hn. rewrite B2, A2; set_solver.
Qed.

Lemma spares_mono xs xs' ys ys' s1 s2 :
  (forall x, x ∈ xs -> x ∈ xs') -> (forall x, x ∈ ys -> x ∈ ys') -> spares xs ys s1 s2 -> spares xs' ys' s1 s2.
Proof. intros Hx Hy A x Hr. destruct (A x Hr). split; auto. Qed.

Lemma touched_spares s s' r v v' : touched s s' r v v' -> spares [r] [r] s s'.
Proof.
  intros Ht x Hx. assert (x ∉ [r] -> stt s' x = stt s x) as E; [|split; [intros Hn; by rewrite E|done]].
  intros Hn. unfold stt. rewrite (to_at _ _ _ _ _ Ht) by done. rewrite decide_False by set_solver. done.
Qed.

(** The tasks a call cancels. *)
Definition cancels (c : call) : list Z := match c with CancelChild child => [child] | _ => [] end.

(** The tasks a call may move to another state. *)
Definition moves (c : call) : list Z := match c with CancelChild child | JoinChild child => [child] | _ => [] end.

Section calls.
Context (q : queue) (l : list Z) (kids : Z -> list Z) (r : Z) (Hr : ref_of w r).

(** A poll of [r] is under way: its slot is [v], and the frame captured its
    first child. *)
Record polling (live : Z -> Prop) (v : slot) e : Prop := {
  p_inv : tinv (tasks e) q l kids (Some r);
  p_slot : ts_at (tasks e) r = Some v;
  p_rings : rings_ok live e;
  p_live : forall x, ref_of w x -> live x <-> is_Some (ts_at (tasks e) x);
}.

(** Touching the slot of another task. *)
Lemma polling_touch live v e c vc vc' s' st' :
  polling live v e -> ref_of w c -> c <> r -> ts_at (tasks e) c = Some vc -> touched (tasks e) s' c vc vc' ->
  in_state vc' st' -> (c ∈ l -> st' = TaskState.Woken \/ st' = TaskState.Cancelled) -> (st' = TaskState.Woken -> c ∈ l) ->
  st' <> TaskState.Running -> st' <> TaskState.Retired ->
  polling live v (set_tasks s' e) /\ steady (tasks e) s' /\ spares [c] [c] (tasks e) s'.
Proof.
  intros [P1 P2 P3 P4] Hc Hcr Ec Ht Hst H1 H2 H3 H4. pose proof (touched_steady _ _ _ _ _ Ht Hc Ec) as Hsd.
  split; [|split; [done|by eapply touched_spares]]. split; cbn.
  - eapply (touched_tinv _ _ c vc vc' Ht Hc Ec); try done; auto. naive_solver.
  - by rewrite (to_at _ _ _ _ _ Ht), decide_False.
  - by apply rings_tasks.
  - intros x Hx. rewrite P4 by done. symmetry. by apply (sd_live _ _ Hsd).
Qed.

Lemma other_not_running live v e c vc st :
  polling live v e -> ref_of w c -> c <> r -> ts_at (tasks e) c = Some vc -> in_state vc st ->
  st <> TaskState.Running /\ st <> TaskState.Retired /\ (c ∈ l -> st = TaskState.Woken \/ st = TaskState.Cancelled) /\ (st = TaskState.Woken -> c ∈ l).
Proof.
  intros [P1 _ _ _] Hc Hcr Ec Hst. pose proof (stt_in_state _ _ _ _ Ec Hst) as Es. split_and!.
  - intros ->. pose proof (t_running _ _ _ _ _ P1 c Hc Es). congruence.
  - intros ->. by apply (t_retired _ _ _ _ _ P1 c Hc).
  - intros Hin. destruct (t_queued _ _ _ _ _ P1 c Hin) as [E|E]; rewrite Es in E; naive_solver.
  - intros ->. apply (t_woken _ _ _ _ _ P1 c Hc Es). congruence.
Qed.

Lemma cancel_child_polling live v e c :
  polling live v e -> TaskRef.is_arena c = true \/ ref_of w c ->
  exists b e', cancel_child e r c = Ret (b, e') /\ polling live v e' /\ steady (tasks e) (tasks e') /\ spares [c] [c] (tasks e) (tasks e').
Proof.
  intros P Hc. unfold cancel_child. destruct (TaskRef.is_arena c) eqn:Ha; cbn [orb]; [exists false, e; split_and!; [done|done|apply steady_refl|apply spares_refl]|].
  destruct Hc as [|Hc]; [done|]. destruct (Z.eqb_spec (TaskRef.index c) (TaskRef.index r)) as [|Hi]; [exists false, e; split_and!; [done|done|apply steady_refl|apply spares_refl]|].
  assert (Hcr : c <> r) by congruence. pose proof P as [P1 _ _ _]. pose proof (t_wf _ _ _ _ _ P1) as W.
  destruct (ts_at (tasks e) c) as [vc|] eqn:Ec.
  2: { pose proof (ts_get_mut_spec (tasks e) c W Hc) as Hg. rewrite Ec in Hg. rewrite Hg. exists false, e. split_and!; [done|done|apply steady_refl|apply spares_refl]. }
  destruct (get_mut_touched (tasks e) c vc W Hc Ec) as (f & -> & Hf). cbn [mbind outcome_bind].
  destruct (t_slots _ _ _ _ _ P1 c vc Hc Ec) as [st Hst]. destruct (other_not_running live v e c vc st P Hc Hcr Ec Hst) as (Hnr & Hnt & Hq & Hw).
  destruct (state vc) as [z cl] eqn:Es. pose proof Hst as [Ez Hh]. rewrite Es in Ez. cbn in Ez. subst z.
  rewrite TaskState.cell_cancel_spec by lia. destruct (TaskState.cancellable st) eqn:Ecan; cbn [mbind outcome_bind].
  - eexists true, _. split; [done|]. eapply (polling_touch live v e c vc _ _ TaskState.Cancelled); try done; [by apply Hf| |auto].
    split; [done|]. destruct vc as [[]]. by destruct st.
  - eexists false, _. split; [done|].
    assert (Hid : set_state (TaskState.mkAtomic (TaskState.to_u8 st) cl) vc = vc) by (rewrite <- Es; by destruct vc as [[]]).
    rewrite Hid. by eapply (polling_touch live v e c vc vc _ st); try apply Hf.
Qed.

Lemma join_child_polling live v e c :
  polling live v e -> TaskRef.is_arena c = true \/ ref_of w c ->
  exists b e', join_child e r c = Ret (b, e') /\ polling live v e' /\ steady (tasks e) (tasks e') /\ spares [] [c] (tasks e) (tasks e').
Proof.
  intros P Hc. unfold join_child. destruct (TaskRef.is_arena c) eqn:Ha; cbn [orb]; [eexists _, e; split_and!; [done|done|apply steady_refl|apply spares_refl]|].
  destruct Hc as [|Hc]; [done|]. destruct (Z.eqb_spec (TaskRef.index c) (TaskRef.index r)) as [|Hi]; [eexists _, e; split_and!; [done|done|apply steady_refl|apply spares_refl]|].
  assert (Hcr : c <> r) by congruence. pose proof P as [P1 _ _ _]. pose proof (t_wf _ _ _ _ _ P1) as W.
  destruct (ts_at (tasks e) c) as [vc|] eqn:Ec.
  2: { pose proof (ts_get_mut_spec (tasks e) c W Hc) as Hg. rewrite Ec in Hg. rewrite Hg. eexists _, e. split_and!; [done|done|apply steady_refl|apply spares_refl]. }
  destruct (get_mut_touched (tasks e) c vc W Hc Ec) as (f & -> & Hf). cbn [mbind outcome_bind].
  destruct (t_slots _ _ _ _ _ P1 c vc Hc Ec) as [st Hst]. destruct (other_not_running live v e c vc st P Hc Hcr Ec Hst) as (Hnr & Hnt & Hq & Hw).
  rewrite (in_state_load vc st Hst). cbn [mbind outcome_bind].
  destruct st; try done; try (eexists _, e; split_and!; [done|done|apply steady_refl|apply spares_refl]).
  (* [Done]: the output is moved out *)
  destruct Hst as [Ez [Hfu Hou]]. destruct vc as [[[z cl] fu ou] ? ? ? ? ? ? ? ? ? ? ?]. cbn in Ez, Hfu, Hou. subst z fu ou. cbn.
  eexists _, _. split; [done|]. match goal with |- context [f ?v'] => pose proof (Hf v' ltac:(done)) as Ht end.
  destruct (polling_touch live v e c _ _ _ TaskState.Taken P Hc Hcr Ec Ht) as (Pt & St & Nt);
    [done|intros Hin; by destruct (Hq Hin)|done|done|done|].
  split_and!; [exact Pt|exact St|]. intros x Hx. destruct (Nt x Hx) as [Nt1 Nt2]. split; [|done]. intros _ Ex.
  apply Nt1; [|done]. intros ->%list_elem_of_singleton. unfold stt in Ex. by rewrite Ec in Ex.
Qed.

Lemma all_settled_total s o kl fuel :
  ts_wf s -> slots_ok s -> Forall (ref_of w) kl -> chain (fam s) o kl -> (length kl <= fuel)%nat ->
  are_children_all_settled fuel s o = Ret (forallb (settled s) kl).
Proof.
  intros W Hok. revert o fuel. induction kl as [|c kl IH]; intros o fuel Hrefs Hch Hf; cbn in Hch.
  - subst o. by destruct fuel.
  - destruct Hch as [-> (fc & ns & E & Hch)]. destruct fuel as [|fuel]; [cbn in Hf; lia|]. apply Forall_cons in Hrefs as [Hc Hrefs].
    apply fam_Some in E as (vc & E & _ & Hns). cbn. rewrite (ts_get_spec s c W Hc), E. cbn.
    destruct (Hok c vc Hc E) as [st Hst]. destruct (settledb_state vc st Hst) as [-> _]. cbn. rewrite (settled_at s c vc E).
    destruct (settledb vc); cbn; [|done]. rewrite Hns. apply IH; try done. cbn in Hf. lia.
Qed.

Lemma kids_bound s kids' p : ts_wf s -> family w (fam s) kids' -> ref_of w p -> is_Some (ts_at s p) -> (length (kids' p) <= ts_cap s)%nat.
Proof.
  intros W Hf Hp Lp. apply fam_is_Some in Lp. apply (ts_bound s); [done|by apply Hf|].
  pose proof (fa_refs _ _ _ Hf p Hp Lp) as Hrefs. rewrite Forall_forall in *. intros c Hc. split; [auto|].
  destruct Lp as [[fp np] Ep]. apply fam_is_Some. apply (chain_resolves (fam s) fp (kids' p)); [by apply (fa_chain _ _ _ Hf p fp np)|done].
Qed.

Lemma run_call_polling live v e c fuel :
  polling live v e -> call_ok c -> (ts_cap (tasks e) <= fuel)%nat ->
  exists e', run_call fuel r (first_child v) e c = Ret e' /\ polling live v e' /\ steady (tasks e) (tasks e') /\
    spares (cancels c) (moves c) (tasks e) (tasks e').
Proof.
  intros P Hc Hfuel. pose proof P as [P1 P2 (pl & rl & tl & [G1 G2 G3 G4 G5 G6]) P4].
  destruct c as [pip ns b|d| |c|c|b]; cbn [run_call].
  - unfold push_spawn, SpawnInbox.push.
    destruct (push_ring (inbox e) pl (SpawnInbox.mkPending r (pinned b (TaskSlot.new pip ns))) (spawn_ok live)) as (room & r' & pl' & E & G' & GP'); try done.
    { split_and!; cbn; [done|apply P4; eauto|by exists pip, ns, b]. }
    change SpawnInbox.SPAWN_INBOX_CAPACITY with 64. rewrite E. cbn. eexists. split; [done|]. split; [|split; [apply steady_refl|apply spares_refl]].
    split; cbn; [done|done| |done]. by exists pl', rl, tl.
  - unfold request_timer, TimerInbox.push.
    destruct (push_ring (timer_requests e) tl (TimerInbox.mkRequest r d) timer_ok) as (room & r' & tl' & E & G' & GP'); try done.
    change TimerInbox.TIMER_INBOX_CAPACITY with 64. rewrite E. cbn. eexists. split; [done|]. split; [|split; [apply steady_refl|apply spares_refl]].
    split; cbn; [done|done| |done]. by exists pl, rl, tl'.
  - assert (Lr : is_Some (ts_at (tasks e) r)) by eauto. pose proof (t_family _ _ _ _ _ P1) as Hf.
    rewrite (all_settled_total _ _ (kids r)); [|apply P1|apply P1| | |].
    + cbn [mbind outcome_bind]. destruct (forallb _ _); [|exists e; split_and!; [done|done|apply steady_refl|apply spares_refl]].
      unfold push_reap, ReapQueue.push. destruct (push_ring (reap e) rl r (ref_of w)) as (room & r' & rl' & E & G' & GP'); try done.
      change ReapQueue.REAP_QUEUE_CAPACITY with 64. rewrite E. cbn. eexists. split; [done|]. split; [|split; [apply steady_refl|apply spares_refl]].
      split; cbn; [done|done| |done]. by exists pl, rl', tl.
    + apply (fa_refs _ _ _ Hf r Hr). by apply fam_is_Some.
    + apply (fa_chain _ _ _ Hf r _ (next_sibling v) Hr). unfold fam. by rewrite P2.
    + pose proof (kids_bound _ _ r (t_wf _ _ _ _ _ P1) Hf Hr Lr). lia.
  - destruct (cancel_child_polling live v e c P Hc) as (b & e' & -> & ? & ? & ?). by exists e'.
  - destruct (join_child_polling live v e c P Hc) as (b & e' & -> & ? & ? & ?). by exists e'.
  - eexists. split; [done|]. unfold submit_internal. destruct b; (split; [|split; [apply steady_refl|apply spares_refl]]); [|done].
    split; cbn; try done. by exists pl, rl, tl.
Qed.

Lemma run_calls_polling live v cs fuel : forall e,
  polling live v e -> Forall call_ok cs -> (ts_cap (tasks e) <= fuel)%nat ->
  exists e', run_calls fuel r (first_child v) e cs = Ret e' /\ polling live v e' /\ steady (tasks e) (tasks e') /\
    spares (cs ≫= cancels) (cs ≫= moves) (tasks e) (tasks e').
Proof.
  induction cs as [|c cs IH]; intros e P Hcs Hf; [exists e; split_and!; [done|done|apply steady_refl|apply spares_refl]|].
  apply Forall_cons in Hcs as [Hc Hcs]. cbn. destruct (run_call_polling live v e c fuel P Hc Hf) as (e1 & -> & P1 & S1 & N1). cbn.
  destruct (IH e1 P1 Hcs ltac:(rewrite (sd_cap _ _ S1); done)) as (e2 & -> & P2 & S2 & N2). exists e2. split_and!; [done|done|by eapply steady_trans|].
  by eapply spares_trans.
Qed.
End calls.
End poll.
End WorkerPoll.
