(* ===== verification/WorkerTurn.v ===== *)
(** * Polling a queue of tasks

    A poll of one task returns with the invariant restored and no task
    current; the poll loop polls the queued tasks once each, oldest first, and
    leaves the queue empty. *)

From S2P Require Import Prelude Words GenKey SlabAlloc SlabFacts SlabStore TimerWheel TimerArith TimerOps TimerThms PipId TaskCell TaskRefId WorkerRing TaskSlots RunQueue TaskTree TaskTreeSpec WorkerCycle WorkerInv WorkerPoll.
From stdpp Require Import base tactics list numbers sets.

Local Open Scope Z_scope.

Module WorkerTurn.
Import TaskSlot RunQueue Family TreeOps ReapSpec PollFrame WorkerInv WorkerPoll.

(** The state a poll leaves its task in, and what it reports. *)
Definition poll_outcome (st : TaskState.t) (p : program) : TaskCell.PollOutcome :=
  match st with
  | TaskState.Woken => if ready p then TaskCell.Completed else TaskCell.Suspended
  | _ => TaskCell.Skipped st
  end.
Definition after_poll (st : TaskState.t) (p : program) : TaskState.t :=
  match st with
  | TaskState.Woken => if ready p then TaskState.Done else TaskState.Sleeping
  | _ => st
  end.

(** The tasks a poll may take out of [Woken]: its own and those it cancels. *)
Definition disturbed (r : Z) (p : program) : list Z := r :: (calls p ≫= cancels).
(** Those it may move to another state. *)
Definition moved (r : Z) (p : program) : list Z := r :: (calls p ≫= moves).

Section turn.
Context {w : Z} {S : Type} `{!TaskStorage w S}.
Implicit Types (s : S) (e : env S) (q : queue) (l : list Z) (kids : Z -> list Z) (p : program).

Lemma on_state_spec {A} (f : TaskState.AtomicTaskState -> outcome (A * TaskState.AtomicTaskState)) r v e x a :
  ts_wf (tasks e) -> ref_of w r -> ts_at (tasks e) r = Some v -> f (state v) = Ret (x, a) ->
  exists s', on_state f r e = Ret (x, set_tasks s' e) /\ touched (tasks e) s' r v (set_state a v).
Proof.
  intros W Hr Ev Ef. unfold on_state. destruct (get_mut_touched (tasks e) r v W Hr Ev) as (g & -> & Hg).
  cbn [mbind outcome_bind]. rewrite Ef. exists (g (set_state a v)). split; [done|]. by apply Hg.
Qed.

Lemma transition_in_state v st (ex n : TaskState.t) :
  in_state v st -> TaskState.is_terminal ex = false ->
  TaskState.transition [] (state v) ex n =
  Ret (if decide (st = ex) then (Ok tt, TaskState.mkAtomic (TaskState.to_u8 n) (TaskState.claim (state v))) else (Err st, state v)).
Proof.
  intros [Es _] He. destruct (state v) as [z c]. cbn in Es. subst z. rewrite TaskState.transition_spec, He, andb_true_r.
  by case_bool_decide; case_decide.
Qed.

Lemma set_state_same v : set_state (state v) v = v.
Proof. by destruct v as [[]]. Qed.

(** A task that is not queued comes to rest. *)
Lemma rest_tinv s s' q l kids cur r v v' st' :
  tinv s q l kids cur -> ref_of w r -> ts_at s r = Some v -> touched s s' r v v' -> in_state v' st' ->
  (cur = None \/ cur = Some r) -> r ∉ l ->
  st' <> TaskState.Woken -> st' <> TaskState.Running -> st' <> TaskState.Retired ->
  tinv s' q l kids None /\ steady s s' /\ spares [r] [r] s s' /\ stt s' r = Some st' /\ ts_at s' r = Some v'.
Proof.
  intros H Hr Ev Ht Hst Hcur Hl H1 H2 H3. split_and!.
  - eapply (touched_tinv s s' r v v' Ht Hr Ev q l kids cur None st'); try done. intros x Hx. destruct Hcur as [-> | ->]; [done|].
    split; [by intros [= ->]|done].
  - by eapply touched_steady.
  - by eapply touched_spares.
  - eapply stt_in_state; [by eapply touched_at|done].
  - by eapply touched_at.
Qed.

(** Counting the submitted operations. *)
Definition count_ops (r : Z) e : outcome (env S) :=
  if 0 <? submitted e then
    '(_, s) ← ts_modify (tasks e) r (fun h => set_in_flight (saturating_add U16 (in_flight_ops h) (submitted e)) true h);
    Ret (set_tasks s e)
  else Ret e.

Lemma count_ops_spec r e q l kids v st live :
  tinv (tasks e) q l kids None -> ref_of w r -> ts_at (tasks e) r = Some v -> in_state v st -> r ∉ l ->
  st <> TaskState.Woken -> st <> TaskState.Running -> st <> TaskState.Retired -> rings_ok (w := w) live e ->
  exists e', count_ops r e = Ret e' /\ tinv (tasks e') q l kids None /\ steady (tasks e) (tasks e') /\
    spares [r] [r] (tasks e) (tasks e') /\ stt (tasks e') r = Some st /\ rings_ok (w := w) live e'.
Proof.
  intros H Hr Ev Hst Hl H1 H2 H3 Hg. unfold count_ops. destruct (0 <? submitted e).
  2: { exists e. split_and!; [done|done|apply steady_refl|apply spares_refl|by eapply stt_in_state|done]. }
  destruct (modify_touched (tasks e) r v (fun h => set_in_flight (saturating_add U16 (in_flight_ops h) (submitted e)) true h)
              (t_wf _ _ _ _ _ H) Hr Ev) as (s' & -> & Ht); [done|].
  exists (set_tasks s' e). split; [done|].
  destruct (rest_tinv _ _ _ _ _ _ _ _ _ st H Hr Ev Ht) as (? & ? & ? & ? & ?); try done; [by left|]. split_and!; try done.
  by apply rings_tasks.
Qed.

(** A poll of a woken task. *)
Section woken.
Context (q : queue) (l : list Z) (kids : Z -> list Z) (r : Z) (Hr : ref_of w r) (live : Z -> Prop).

Lemma start_poll e v :
  tinv (tasks e) q l kids (Some r) -> ts_at (tasks e) r = Some v -> in_state v TaskState.Woken ->
  rings_ok (w := w) live e -> (forall x, ref_of w x -> live x <-> is_Some (ts_at (tasks e) x)) ->
  exists s1 s2 v2, on_state (TaskState.try_start_poll []) r e = Ret (Ok tt, set_tasks s1 e) /\
    ts_modify s1 r (set_has_polled true) = Ret (true, s2) /\ in_state v2 TaskState.Running /\ first_child v2 = first_child v /\
    polling q l kids r live v2 (set_tasks s2 e) /\ steady (tasks e) s2 /\ spares [r] [r] (tasks e) s2.
Proof.
  intros H Ev Hst Hg Hlive. pose proof (t_current _ _ _ _ _ H r eq_refl) as Hl.
  destruct (on_state_spec (TaskState.try_start_poll []) r v e (Ok tt)
    (TaskState.mkAtomic (TaskState.to_u8 TaskState.Running) (TaskState.claim (state v))) (t_wf _ _ _ _ _ H) Hr Ev) as (s1 & E1 & Ht1).
  { unfold TaskState.try_start_poll. by rewrite (transition_in_state v TaskState.Woken). }
  pose proof (touched_at _ _ _ _ _ Ht1 Hr) as Ev1.
  destruct (modify_touched s1 r _ (set_has_polled true) (to_wf _ _ _ _ _ Ht1) Hr Ev1) as (s2 & E2 & Ht2); [done|].
  pose proof (touched_trans _ _ _ _ _ _ _ Ht1 Ht2) as Ht. set (v2 := set_has_polled true _) in *.
  assert (Hst2 : in_state v2 TaskState.Running) by (destruct Hst as [_ Hh]; split; [done|]; by destruct v as [[]]).
  exists s1, s2, v2. split; [done|]. split; [done|]. split; [done|]. split; [done|].
  pose proof (touched_steady _ _ _ _ _ Ht Hr Ev) as Hsd. split; [|split; [done|by eapply touched_spares]]. split; cbn.
  - by eapply (touched_tinv _ _ _ _ _ Ht Hr Ev q l kids (Some r) (Some r) TaskState.Running).
  - by eapply touched_at.
  - by apply rings_tasks.
  - intros x Hx. rewrite Hlive by done. symmetry. by apply (sd_live _ _ Hsd).
Qed.

(** The poll of the future with the transition that ends it. *)
Lemma end_poll e v b :
  polling q l kids r live v e -> in_state v TaskState.Running ->
  exists c g s2 v2,
    ts_get_mut (tasks e) r = Ret (Some (v, g)) /\ TaskCell.poll_fn b (cell v) = Ret (b, c) /\
    (forall f n, (f, n) = (if b then (TaskState.complete, TaskState.Done) else (TaskState.suspend, TaskState.Sleeping)) ->
      on_state (f []) r (set_tasks (g (set_cell c v)) e) = Ret (Ok tt, set_tasks s2 (set_tasks (g (set_cell c v)) e)) /\
      in_state v2 n) /\ touched (tasks e) s2 r v v2.
Proof.
  intros [P1 P2 P3 P4] [Es [Hf Ho]]. destruct (get_mut_touched (tasks e) r v (t_wf _ _ _ _ _ P1) Hr P2) as (g & Eg & Hg).
  exists (if b then TaskCell.mkCell (state v) TaskCell.Gone TaskCell.Live else cell v), g.
  set (c := if b then _ else _). pose proof (Hg (set_cell c v) ltac:(done)) as Ht1.
  pose proof (touched_at _ _ _ _ _ Ht1 Hr) as Ev1. set (n := if b then TaskState.Done else TaskState.Sleeping).
  assert (Est : state (set_cell c v) = state v) by (unfold c; by destruct b).
  destruct (on_state_spec (fun a => TaskState.transition [] a TaskState.Running n) r (set_cell c v) (set_tasks (g (set_cell c v)) e) (Ok tt)
    (TaskState.mkAtomic (TaskState.to_u8 n) (TaskState.claim (state v)))) as (s2 & E2 & Ht2); [apply Ht1|done|done| |].
  { rewrite Est. by rewrite (transition_in_state v TaskState.Running). }
  exists s2, (set_state (TaskState.mkAtomic (TaskState.to_u8 n) (TaskState.claim (state v))) (set_cell c v)).
  split; [done|]. split; [unfold TaskCell.poll_fn; rewrite Hf; by destruct b|]. split; [|by eapply touched_trans].
  intros f n' Hfn. subst n c. destruct b; inversion Hfn; subst; (split; [exact E2|split; [done|by destruct v as [[]]]]).
Qed.

Lemma poll_task_woken fuel e v p :
  tinv (tasks e) q l kids (Some r) -> ts_at (tasks e) r = Some v -> in_state v TaskState.Woken ->
  rings_ok (w := w) live e -> (forall x, ref_of w x -> live x <-> is_Some (ts_at (tasks e) x)) ->
  Forall (call_ok (w := w)) (calls p) -> (ts_cap (tasks e) <= fuel)%nat ->
  exists e' v', poll_task fuel r (first_child v) e p = Ret (poll_outcome TaskState.Woken p, e') /\
    tinv (tasks e') q l kids None /\ steady (tasks e) (tasks e') /\ spares (disturbed r p) (moved r p) (tasks e) (tasks e') /\
    ts_at (tasks e') r = Some v' /\ in_state v' (after_poll TaskState.Woken p) /\ rings_ok (w := w) live e'.
Proof.
  intros H Ev Hst Hg Hlive Hcs Hfuel. pose proof (t_current _ _ _ _ _ H r eq_refl) as Hl.
  destruct (start_poll e v H Ev Hst Hg Hlive) as (s1 & s2 & v2 & E1 & E2 & Hst2 & Hfc & P & Hsd & N1).
  destruct (run_calls_polling q l kids r Hr live v2 (calls p) fuel (set_tasks s2 e) P Hcs) as (e3 & E3 & P3 & Hsd3 & N3);
    [cbn; rewrite (sd_cap _ _ Hsd); done|].
  destruct (end_poll e3 v2 (ready p) P3 Hst2) as (c & s4 & s5 & v5 & E4 & E5 & E6 & Ht).
  pose proof P3 as [Q1 Q2 Q3 Q4].
  destruct (E6 (if ready p then TaskState.complete else TaskState.suspend) (after_poll TaskState.Woken p)) as [E7 Hst5]; [unfold after_poll; by destruct (ready p)|].
  destruct (rest_tinv _ _ _ _ _ _ _ _ _ _ Q1 Hr Q2 Ht Hst5) as (R1 & R2 & R5 & R3 & R4); [by right|done|unfold after_poll; by destruct (ready p)..|].
  exists (set_tasks s5 (set_tasks (s4 (set_cell c v2)) e3)), v5.
  split; [|split_and!; [done|eapply steady_trans; [exact Hsd|by eapply steady_trans]| |done|done|by apply rings_tasks, rings_tasks]].
  2: { eapply spares_mono; [| |exact (spares_trans _ _ _ _ _ _ _ N1 (spares_trans _ _ _ _ _ _ _ N3 R5))]; unfold disturbed, moved; set_solver. }
  unfold poll_task. rewrite E1. cbn [mbind outcome_bind tasks set_tasks]. rewrite E2. cbn [mbind outcome_bind].
  unfold poll_via_vtable. rewrite <- Hfc. change (set_tasks s2 (set_tasks s1 e)) with (set_tasks s2 e). rewrite E3.
  cbn [mbind outcome_bind]. rewrite E4. cbn [mbind outcome_bind]. rewrite E5. cbn [mbind outcome_bind].
  unfold poll_outcome. destruct (ready p); by rewrite E7.
Qed.
End woken.

(** ** One poll *)

Lemma poll_one_count fuel r e p :
  poll_one fuel r e p =
  x ← ts_get (tasks e) r;
  match x with
  | None => Ret (None, e)
  | Some parent =>
      '(o, e) ← poll_task fuel r (first_child parent) (mkEnv (tasks e) (inbox e) (reap e) (timer_requests e) 0) p;
      e ← count_ops r e; Ret (Some o, e)
  end.
Proof.
  unfold poll_one, count_ops. destruct (ts_get (tasks e) r) as [[]| | |]; try done. cbn [mbind outcome_bind].
  destruct (poll_task _ _ _ _ _) as [[o e']| | |]; try done. cbn [mbind outcome_bind].
  destruct (0 <? submitted e'); [|done]. by destruct (ts_modify _ _ _) as [[]| | |].
Qed.

Lemma poll_one_spec fuel e q l kids r st p live :
  tinv (tasks e) q l kids (Some r) -> ref_of w r -> stt (tasks e) r = Some st ->
  st = TaskState.Woken \/ st = TaskState.Cancelled ->
  rings_ok (w := w) live e -> (forall x, ref_of w x -> live x <-> is_Some (ts_at (tasks e) x)) ->
  Forall (call_ok (w := w)) (calls p) -> (ts_cap (tasks e) <= fuel)%nat ->
  exists e', poll_one fuel r e p = Ret (Some (poll_outcome st p), e') /\ tinv (tasks e') q l kids None /\
    steady (tasks e) (tasks e') /\ spares (disturbed r p) (moved r p) (tasks e) (tasks e') /\ stt (tasks e') r = Some (after_poll st p) /\ rings_ok (w := w) live e'.
Proof.
  intros H Hr Es Hcase Hg Hlive Hcs Hfuel. pose proof (t_current _ _ _ _ _ H r eq_refl) as Hl.
  destruct (stt_Some _ _ _ (t_slots _ _ _ _ _ H) Hr Es) as (v & Ev & Hst).
  rewrite poll_one_count, (ts_get_spec _ _ (t_wf _ _ _ _ _ H) Hr), Ev. cbn [mbind outcome_bind].
  set (e0 := mkEnv _ _ _ _ 0).
  assert (exists e' v', poll_task fuel r (first_child v) e0 p = Ret (poll_outcome st p, e') /\ tinv (tasks e') q l kids None /\
    steady (tasks e) (tasks e') /\ spares (disturbed r p) (moved r p) (tasks e) (tasks e') /\ ts_at (tasks e') r = Some v' /\ in_state v' (after_poll st p) /\ rings_ok (w := w) live e')
    as (e' & v' & -> & T & Hsd & N & Ev' & Hst' & Hg').
  { assert (Hg0 : rings_ok (w := w) live e0) by (destruct Hg as (pl & rl & tl & []); by exists pl, rl, tl).
    destruct Hcase as [-> | ->]; [by apply (poll_task_woken q l kids r Hr live fuel e0 v p)|]. unfold poll_task.
    destruct (on_state_spec (TaskState.try_start_poll []) r v e0 (Err TaskState.Cancelled) (state v) (t_wf _ _ _ _ _ H) Hr Ev) as (s1 & -> & Ht).
    { unfold TaskState.try_start_poll. by rewrite (transition_in_state v TaskState.Cancelled). }
    rewrite set_state_same in Ht. cbn [mbind outcome_bind]. exists (set_tasks s1 e0), v. split; [done|].
    destruct (rest_tinv _ _ _ _ _ _ _ _ _ _ H Hr Ev Ht Hst) as (? & ? & ? & ? & ?); try done; [by right|]. split_and!; try done.
    - eapply spares_mono; [| |done]; unfold disturbed, moved; set_solver.
    - by apply rings_tasks. }
  cbn [mbind outcome_bind].
  destruct (count_ops_spec r e' q l kids v' (after_poll st p) live T Hr Ev' Hst' Hl) as (e2 & -> & T2 & Hsd2 & N2 & Es2 & Hg2); try done;
    try (unfold after_poll; destruct Hcase as [-> | ->], (ready p); done).
  exists e2. split_and!; try done; [by eapply steady_trans|].
  eapply spares_mono; [| |exact (spares_trans _ _ _ _ _ _ _ N N2)]; unfold disturbed, moved; set_solver.
Qed.
(** ** The poll loop *)

Lemma pop_tinv s q r l kids :
  tinv s q (r :: l) kids None ->
  exists q' st, RunQueue.pop q s = Ret (Some r, q') /\ tinv s q' l kids (Some r) /\ ref_of w r /\ stt s r = Some st /\
    (st = TaskState.Woken \/ st = TaskState.Cancelled).
Proof.
  intros [T1 T2 T3 T4 T5 T6 T7 T8 T9]. destruct (RunQueueSpec.pop_spec s q _ T1 T2) as (q' & E & Hq). cbn in E, Hq.
  pose proof (RunQueueSpec.q_refs _ _ _ T2) as Hrefs. pose proof (RunQueueSpec.q_nodup _ _ _ T2) as Hnd.
  apply Forall_cons in Hrefs as [Hr _]. apply NoDup_cons in Hnd as [Hni Hnd].
  destruct (T5 r ltac:(set_solver)) as [Es|Es]; exists q', (default TaskState.Woken (stt s r)); rewrite Es; (split_and!; [done| |done|done|auto]);
    (split; try done; [intros x Hx; apply T5; set_solver| | |naive_solver]).
  all: intros x Hx Ex; first [intros Hc; pose proof (T6 x Hx Ex ltac:(done)); set_solver|by pose proof (T7 x Hx Ex)].
Qed.

(** What a poll of the loop may report. *)
Definition reported (progs : Z -> program) (x : Z * TaskCell.PollOutcome) : Prop :=
  x.2 = poll_outcome TaskState.Woken (progs x.1) \/ x.2 = TaskCell.Skipped TaskState.Cancelled.

Lemma poll_loop_spec fuel progs live : forall l e q kids,
  tinv (tasks e) q l kids None -> rings_ok (w := w) live e -> (forall x, ref_of w x -> live x <-> is_Some (ts_at (tasks e) x)) ->
  (forall r, Forall (call_ok (w := w)) (calls (progs r))) -> (ts_cap (tasks e) <= fuel)%nat ->
  exists outs e' q', Worker.poll_loop fuel (length l) progs e q = Ret (outs, e', q') /\ outs.*1 = l /\
    tinv (tasks e') q' [] kids None /\ steady (tasks e) (tasks e') /\ rings_ok (w := w) live e' /\ Forall (reported progs) outs /\
    (forall r, r ∈ l -> stt (tasks e) r = Some TaskState.Woken -> (forall r', r' ∈ l -> r ∉ calls (progs r') ≫= cancels) ->
      (r, poll_outcome TaskState.Woken (progs r)) ∈ outs) /\
    (forall r, ref_of w r -> (forall r', r' ∈ l -> r ∉ calls (progs r') ≫= moves) ->
      stt (tasks e') r = if decide (r ∈ l) then (fun st => after_poll st (progs r)) <$> stt (tasks e) r else stt (tasks e) r).
Proof.
  induction l as [|r l IH]; intros e q kids T Hg Hlive Hcs Hfuel.
  { exists [], e, q. split_and!; try done; try apply steady_refl; by intros r ?%elem_of_nil. }
  cbn [length Worker.poll_loop]. destruct (pop_tinv _ _ _ _ _ T) as (q' & st & -> & T1 & Hr & Es & Hst). cbn [mbind outcome_bind].
  destruct (poll_one_spec fuel e q' l kids r st (progs r) live T1 Hr Es Hst Hg Hlive (Hcs r) Hfuel) as (e1 & -> & T2 & Hsd & N & Es1 & Hg1).
  cbn [mbind outcome_bind].
  replace (match poll_outcome st (progs r) with TaskCell.Rescheduled => _ | _ => _ end) with (Ret (q', tasks e1))
    by (unfold poll_outcome; destruct Hst as [-> | ->], (ready (progs r)); done).
  cbn [mbind outcome_bind]. replace (set_tasks (tasks e1) e1) with e1 by (by destruct e1).
  destruct (IH e1 q' kids T2 Hg1) as (outs & e2 & q2 & -> & Eo & T3 & Hsd2 & Hg2 & Hrep & Hall & Hfin).
  { intros x Hx. rewrite Hlive by done. symmetry. by apply (sd_live _ _ Hsd). }
  { done. }
  { by rewrite (sd_cap _ _ Hsd). }
  exists ((r, poll_outcome st (progs r)) :: outs), e2, q2. cbn [mbind outcome_bind].
  pose proof (RunQueueSpec.q_nodup _ _ _ (t_queue _ _ _ _ _ T)) as Hnd. apply NoDup_cons in Hnd as [Hni _].
  split_and!; [done|cbn; by rewrite Eo|done|by eapply steady_trans|done| | |].
  - apply Forall_cons. split; [|done]. destruct Hst as [-> | ->]; [by left|by right].
  - pose proof (RunQueueSpec.q_refs _ _ _ (t_queue _ _ _ _ _ T)) as Hrefs. rewrite Forall_forall in Hrefs.
    intros x Hx Ex Hno. destruct (decide (x = r)) as [-> |Hne]; [rewrite Es in Ex; simplify_eq; set_solver|].
    apply elem_of_cons in Hx as [|Hx]; [done|]. apply elem_of_cons. right. apply Hall; [done| |set_solver].
    apply N; [apply Hrefs; set_solver| |done]. unfold disturbed. pose proof (Hno r ltac:(set_solver)). set_solver.
  - intros x Hx Hno. rewrite Hfin by (done || (intros; apply Hno; set_solver)). destruct (decide (x = r)) as [-> |Hne].
    + rewrite (decide_False (P := r ∈ l)), (decide_True (P := r ∈ r :: l)), Es, Es1 by (done || set_solver). done.
    + assert (stt (tasks e1) x = stt (tasks e) x) as ->.
      { apply N; [done|]. unfold moved. pose proof (Hno r ltac:(set_solver)). set_solver. }
      destruct (decide (x ∈ l)), (decide (x ∈ r :: l)); try done; set_solver.
Qed.
End turn.
End WorkerTurn.

(** * The drains around the tick

    The spawn drain turns every pending request into a woken child of its
    parent, in request order; the reap drain frees settled children of the
    parents it was told of and nothing else; the timer drain files a deadline
    for every armed request. *)

From stdpp Require Import base tactics list numbers sets.

Local Open Scope Z_scope.

Module WorkerDrain.
Import TaskSlot RunQueue Family TreeOps ReapSpec PollFrame WorkerInv WorkerPoll.

Section drain.
Context {w : Z} {S : Type} `{!TaskStorage w S}.
Implicit Types (s : S) (q : queue) (l : list Z) (kids : Z -> list Z).

(** ** Changing tree links *)

Lemma rewired_tinv s s' F q l kids kids' cur :
  tinv s q l kids cur -> rewired s s' F -> family w (fam s') kids' -> tinv s' q l kids' cur.
Proof.
  intros [T1 T2 T3 T4 T5 T6 T7 T8 T9] R Hf. pose proof (RunQueueSpec.q_refs _ _ _ T2) as Hrefs. rewrite Forall_forall in Hrefs.
  assert (Hst : forall r, ref_of w r -> stt s' r = stt s r) by (intros r Hr; by rewrite !stt_body, (rw_body _ _ _ R)).
  split; try done.
  - apply R.
  - eapply RunQueueSpec.queue_holds_frame; [exact T2|]. intros x vx Hx Ex. pose proof (rw_body _ _ _ R x ltac:(auto)) as Hb.
    unfold body in Hb. rewrite Ex in Hb. apply fmap_Some in Hb as (v' & E' & Hu). exists v'. split; [done|].
    by apply (f_equal next_runnable) in Hu.
  - eapply slots_ok_body; [exact T3|]. intros r v Hr. by rewrite (rw_body _ _ _ R).
  - intros r Hr. rewrite Hst by auto. by apply T5.
  - intros r Hr. rewrite Hst by done. by apply T6.
  - intros r Hr. rewrite Hst by done. by apply T7.
  - intros r Hr. rewrite Hst by done. by apply T8.
Qed.

(** ** Spawning *)

(** At least [n] slots are free. *)
Definition spare s (n : nat) : Prop :=
  forall l, NoDup l -> Forall (fun r => ref_of w r /\ is_Some (ts_at s r)) l -> (length l + n <= ts_cap s)%nat.

Lemma spare_steady s s' n : steady s s' -> spare s n -> spare s' n.
Proof.
  intros [C L _] H l Hnd Hl. rewrite C. apply H; [done|]. eapply Forall_impl; [exact Hl|].
  intros r [Hr Hs]. split; [done|]. by apply L.
Qed.

Lemma spare_steady_le s n m : (m <= n)%nat -> spare s n -> spare s m.
Proof. intros Hm H l Hnd Hl. pose proof (H l Hnd Hl). lia. Qed.

Section insert.
Context (s s' : S) (v : slot) (key : Z) (W : ts_wf s) (Hw : WorkerId.wf w) (E : ts_insert s v = Ret (Ok key, s')).
Let c := TaskRef.from_slab w key.

Lemma insert_facts :
  ts_wf s' /\ ref_of w c /\ ts_cap s' = ts_cap s /\ ts_at s c = None /\
  forall r, ref_of w r -> ts_at s' r = if decide (r = c) then Some v else ts_at s r.
Proof. pose proof (ts_insert_spec s v W Hw) as H. by rewrite E in H. Qed.

Lemma insert_spare n : spare s (Datatypes.S n) -> spare s' n.
Proof.
  destruct insert_facts as (W' & Hc & C & Hn & A). intros H l Hnd Hl. rewrite C.
  assert (Hd : NoDup (filter (fun r => r <> c) l)) by (by apply NoDup_filter).
  pose proof (H (filter (fun r => r <> c) l) Hd) as Hb.
  assert (length l <= Datatypes.S (length (filter (fun r => r <> c) l)))%nat as Hlen.
  { clear -Hnd. induction l as [|x l IH]; [cbn; lia|]. apply NoDup_cons in Hnd as [Hx Hnd]. rewrite list.filter_cons.
    destruct (decide (x <> c)) as [|Hxc]; [cbn; specialize (IH Hnd); lia|]. cbn. apply dec_stable in Hxc. subst x.
    assert (filter (fun r => r <> c) l = l) as ->; [|lia]. clear -Hx. induction l as [|y l IH]; [done|].
    rewrite list.filter_cons, decide_True by set_solver. f_equal. apply IH. set_solver. }
  enough (length (filter (fun r => r <> c) l) + Datatypes.S n <= ts_cap s)%nat by lia. apply Hb.
  rewrite Forall_forall in *. intros r [Hne Hin]%list_elem_of_filter. destruct (Hl r Hin) as [Hr Hs]. split; [done|].
  rewrite A, decide_False in Hs by done. done.
Qed.

Lemma insert_tinv q l kids :
  tinv s q l kids None -> fresh_cell v ->
  tinv s' q l (kupd kids c []) None /\ stt s' c = Some TaskState.Sleeping /\ orphan w (fam s') (kupd kids c []) c /\
  forall r, ref_of w r -> r <> c -> stt s' r = stt s r.
Proof.
  intros [T1 T2 T3 T4 T5 T6 T7 T8 T9] (pip & ns & b & Ev). destruct insert_facts as (W' & Hc & C & Hn & A).
  assert (Hst : in_state v TaskState.Sleeping) by (by subst v).
  assert (Ec : ts_at s' c = Some v) by (by rewrite A, decide_True).
  assert (Hsc : stt s' c = Some TaskState.Sleeping) by (by eapply stt_in_state).
  assert (Hs : forall r, ref_of w r -> r <> c -> stt s' r = stt s r) by (intros r Hr Hne; unfold stt; by rewrite A, decide_False).
  assert (Hdead : stt s c = None) by (unfold stt; by rewrite Hn).
  assert (Hlc : c ∉ l) by (intros Hin; destruct (T5 c Hin); congruence).
  destruct (family_insert w (fam s) (fam s') kids c T4) as [Hf Ho].
  { unfold fam. by rewrite Hn. }
  { unfold fam. rewrite Ec. by subst v. }
  { intros r Hr Hne. unfold fam. by rewrite A, decide_False. }
  split_and!; try done. pose proof (RunQueueSpec.q_refs _ _ _ T2) as Hrefs. rewrite Forall_forall in Hrefs. split; try done.
  - eapply RunQueueSpec.queue_holds_frame; [exact T2|]. intros x vx Hx Ex. exists vx. split; [|done].
    rewrite A, decide_False; [done|congruence|auto].
  - intros r vr Hr Er. rewrite A in Er by done. case_decide; [simplify_eq; by exists TaskState.Sleeping|by eapply T3].
  - intros r Hr. assert (r <> c) by congruence. rewrite Hs by auto. by apply T5.
  - intros r Hr. destruct (decide (r = c)) as [-> |]; [by rewrite Hsc|]. rewrite Hs by done. by apply T6.
  - intros r Hr. destruct (decide (r = c)) as [-> |]; [by rewrite Hsc|]. rewrite Hs by done. by apply T7.
  - intros r Hr. destruct (decide (r = c)) as [-> |]; [by rewrite Hsc|]. rewrite Hs by done. by apply T8.
Qed.
End insert.

Lemma fresh_set_pip x v : fresh_cell v -> fresh_cell (set_pip x v).
Proof. intros (pip & ns & b & ->). by exists x, ns, b. Qed.

(** A pending request becomes a woken child at the head of its parent's list. *)
Lemma spawn_turn s q l kids p v key s1 n :
  tinv s q l kids None -> ref_of w p -> is_Some (ts_at s p) -> fresh_cell v -> WorkerId.wf w ->
  ts_insert s v = Ret (Ok key, s1) -> spare s (Datatypes.S n) ->
  let c := TaskRef.from_slab w key in
  exists s2 q3 s3 kids', Children.push_child s1 p c = Ret (Ok tt, s2) /\ wake_local s2 q c = Ret (q3, s3) /\
    tinv s3 q3 (l ++ [c]) kids' None /\ ts_cap s3 = ts_cap s /\ spare s3 n /\ ref_of w c /\ ts_at s c = None /\
    (forall r, ref_of w r -> stt s3 r = if decide (r = c) then Some TaskState.Woken else stt s r) /\
    (forall r, kids' r = if decide (r = p) then c :: kids p else if decide (r = c) then [] else kids r).
Proof.
  intros T Hp Lp Hv Hw E Hsp c. destruct (insert_facts s s1 v key (t_wf _ _ _ _ _ T) Hw E) as (W1 & Hc & C1 & Hn & A1). fold c in Hc, Hn, A1.
  destruct (insert_tinv s s1 v key (t_wf _ _ _ _ _ T) Hw E q l kids T Hv) as (T1 & Hsc & Ho & Hs1). fold c in T1, Hsc, Ho, Hs1.
  assert (Hpc : p <> c) by (intros ->; destruct Lp; congruence).
  assert (Ec1 : ts_at s1 c = Some v) by (by rewrite A1, decide_True).
  pose proof (push_child_spec s1 _ p c W1 (t_family _ _ _ _ _ T1) Hp Hc Hpc ltac:(eauto) Ho) as Hpush.
  assert (Ep1 : ts_at s1 p = ts_at s p) by (by rewrite A1, decide_False). rewrite Ep1 in Hpush. destruct Lp as [vp Evp]. rewrite Evp in Hpush.
  destruct Hpush as (s2 & F & E2 & R2 & Hf2). pose proof (rewired_tinv _ _ _ _ _ _ _ _ T1 R2 Hf2) as T2.
  assert (Hs2 : forall r, ref_of w r -> stt s2 r = stt s1 r) by (intros r Hr; by rewrite !stt_body, (rw_body _ _ _ R2)).
  destruct (wake_local_tinv s2 q l _ c T2 Hc) as (q3 & s3 & E3 & C3 & T3 & Hs3). rewrite Hs2, Hsc in T3, Hs3 by done.
  rewrite decide_True in T3 by done.
  exists s2, q3, s3, (kupd (kupd kids c []) p (c :: kupd kids c [] p)). split_and!; try done.
  - by rewrite C3, (rw_cap _ _ _ R2), C1.
  - assert (spare s1 n) as Hsp1 by (exact (insert_spare s s1 v key (t_wf _ _ _ _ _ T) Hw E n Hsp)). intros l' Hnd Hl'. rewrite C3, (rw_cap _ _ _ R2). apply Hsp1; [done|].
    eapply Forall_impl; [exact Hl'|]. intros r [Hr Hlive]. split; [done|].
    apply (rewired_live _ _ _ r R2 Hr). apply (stt_live s2 r (t_slots _ _ _ _ _ T2) Hr). apply (stt_live s3 r (t_slots _ _ _ _ _ T3) Hr) in Hlive as [st Est].
    rewrite Hs3 in Est by done. case_decide as Hd; [destruct Hd as [-> _]; rewrite Hs2, Hsc by done; eauto|eauto].
  - intros r Hr. rewrite Hs3 by done. destruct (decide (r = c)) as [-> |Hne]; [by rewrite decide_True|].
    rewrite decide_False by naive_solver. rewrite Hs2, Hs1 by done. done.
  - intros r. unfold kupd. rewrite (decide_False (P := p = c)) by done. done.
Qed.
(** The children of live tasks only grow, by members of [cs], and only where
    [pl] asks for it. *)
Definition grown s kids kids' (pl : list (SpawnInbox.PendingSpawn slot)) (cs : list Z) : Prop :=
  forall r, ref_of w r -> is_Some (ts_at s r) -> exists new, kids' r = new ++ kids r /\ (forall c, c ∈ new -> c ∈ cs) /\
    (Forall (fun p => SpawnInbox.parent p <> r) pl -> new = []).

Lemma drain_spawns_spec pl : forall turns s q l kids rg seq,
  tinv s q l kids None -> RingThms.holds 64 rg pl -> Forall (spawn_ok (w := w) (fun r => is_Some (ts_at s r))) pl ->
  WorkerId.wf w -> 0 <= seq -> seq + Z.of_nat (length pl) < 2 ^ 64 -> spare s (length pl) -> (length pl < turns)%nat ->
  exists s' q' rg' cs kids', Worker.drain_spawns turns s q rg seq = Ret (s', q', rg', seq + Z.of_nat (length pl)) /\
    RingThms.holds 64 rg' [] /\ tinv s' q' (l ++ cs) kids' None /\ ts_cap s' = ts_cap s /\
    Forall2 (fun p c => c ∈ kids' (SpawnInbox.parent p)) pl cs /\ Forall (fun c => ref_of w c /\ ts_at s c = None /\ kids' c = []) cs /\
    (forall r, ref_of w r -> stt s' r = if decide (r ∈ cs) then Some TaskState.Woken else stt s r) /\ grown s kids kids' pl cs.
Proof.
  induction pl as [|p pl IH]; intros turns s q l kids rg seq T Hg Hok Hw Hs0 Hseq Hsp Ht; (destruct turns as [|turns]; [cbn in Ht; lia|]);
    cbn [Worker.drain_spawns]; unfold SpawnInbox.pop, SpawnInbox.SPAWN_INBOX_CAPACITY; destruct (RingThms.pop_holds 64 6 ltac:(lia) eq_refl rg _ Hg) as (rg1 & Er & Hg1 & _);
    rewrite Er; cbn [mbind outcome_bind List.hd_error]; cbn [List.tl] in Hg1.
  { exists s, q, rg1, [], kids. cbn [length]. rewrite app_nil_r, Z.add_0_r. split_and!; try done; try constructor.
    intros r Hr Hl. exists []. split_and!; [done| |done]. intros c Hc. by apply elem_of_nil in Hc. }
  apply Forall_cons in Hok as [(Hp & Lp & Hc) Hok]. cbn [length] in Hseq, Hsp, Ht. unfold WorkerId.raw.
  rewrite (proj2 (add_or_panic_Ret U64 seq 1 (seq + 1))) by lia. cbn [mbind outcome_bind].
  set (v := set_pip _ _). assert (Hv : fresh_cell v) by (by apply fresh_set_pip).
  pose proof (ts_insert_spec s v (t_wf _ _ _ _ _ T) Hw) as Hins.
  destruct (ts_insert s v) as [[[key|err] s1]| | |] eqn:Ei; try done.
  2: { exfalso. destruct (ts_insert_full s v err s1 (t_wf _ _ _ _ _ T) Hw Ei) as (ll & Hnd & Hll & Hlen). pose proof (Hsp ll Hnd Hll). lia. }
  clear Hins. cbn [mbind outcome_bind].
  destruct (spawn_turn s q l kids _ v key s1 (length pl) T Hp Lp Hv Hw Ei Hsp) as (s2 & q3 & s3 & kids3 & E2 & E3 & T3 & C3 & Hsp3 & Hcr & Hcn & Hs3 & Hk3).
  set (c := TaskRef.from_slab w key) in *. rewrite E2. cbn [mbind outcome_bind]. rewrite E3. cbn [mbind outcome_bind].
  assert (Hlive : forall r, ref_of w r -> is_Some (ts_at s r) -> is_Some (ts_at s3 r)).
  { intros r Hr Hl. apply (stt_live s3 r (t_slots _ _ _ _ _ T3) Hr). rewrite Hs3 by done. case_decide; [eauto|].
    by apply (stt_live s r (t_slots _ _ _ _ _ T) Hr). }
  destruct (IH turns s3 q3 (l ++ [c]) kids3 rg1 (seq + 1) T3 Hg1) as (s' & q' & rg' & cs & kids' & -> & Hg' & T' & C' & HF & Hn & Hst & Hgrow);
    try done; try lia.
  { eapply Forall_impl; [exact Hok|]. intros x (? & ? & ?). split_and!; auto. }
  exists s', q', rg', (c :: cs), kids'. split_and!; try done.
  - cbn [length]. replace (seq + 1 + Z.of_nat (length pl)) with (seq + Z.of_nat (Datatypes.S (length pl))) by lia. done.
  - by rewrite <- app_assoc in T'.
  - by rewrite C'.
  - constructor; [|done]. destruct (Hgrow _ Hp (Hlive _ Hp Lp)) as (new & -> & _). rewrite Hk3, decide_True by done. set_solver.
  - constructor.
    { split_and!; [done|done|]. destruct (Hgrow c Hcr) as (new & -> & _ & Hnew).
      { apply (stt_live s3 c (t_slots _ _ _ _ _ T3) Hcr). rewrite Hs3, decide_True by done. eauto. }
      rewrite Hk3, decide_False, decide_True by (done || (intros Ec; destruct Lp; congruence)). rewrite Hnew; [done|].
      eapply Forall_impl; [exact Hok|]. intros x (_ & [? ?] & _) Ex. congruence. }
    eapply Forall_impl; [exact Hn|]. intros r (Hr & Hd & Hk). split_and!; [done| |done]. destruct (ts_at s r) eqn:Er2; [|done].
    destruct (Hlive r Hr ltac:(eauto)). congruence.
  - intros r Hr. rewrite Hst, Hs3 by done. destruct (decide (r ∈ cs)), (decide (r = c)), (decide (r ∈ c :: cs)); try done; set_solver.
  - intros r Hr Hl. destruct (Hgrow r Hr (Hlive r Hr Hl)) as (new & Hk' & Hin & Hnew). assert (Hrc : r <> c) by (intros ->; destruct Hl; congruence).
    rewrite Hk', Hk3. destruct (decide (r = SpawnInbox.parent p)) as [Erp|]; [exists (new ++ [c])|exists new; rewrite (decide_False (P := r = c)) by done].
    + rewrite <- app_assoc, Erp. split_and!; [done|set_solver|]. intros [Hx _]%Forall_cons. by destruct Hx.
    + split_and!; [done|set_solver|]. intros [_ Hx]%Forall_cons. auto.
Qed.

(** ** Reaping *)

Lemma reap_children_tinv fuel s q l kids p :
  tinv s q l kids None -> ref_of w p -> (forall r, r ∈ l -> stt s r = Some TaskState.Woken) -> (ts_cap s < fuel)%nat ->
  exists s' kids', Reap.reap_children fuel s p = Ret s' /\ tinv s' q l kids' None /\ ts_cap s' = ts_cap s /\
    (forall r, kids' r = if decide (r = p /\ is_Some (ts_at s p)) then filter (fun c => settled s c = false) (kids p) else kids r) /\
    (forall r, ref_of w r -> body s' r = if decide (is_Some (ts_at s p) /\ r ∈ kids p /\ settled s r = true) then None else body s r).
Proof.
  intros T Hp Hall Hfuel. pose proof T as [T1 T2 T3 T4 T5 T6 T7 T8 T9].
  assert (Hset : forall r, ref_of w r -> settled s r = true -> stt s r <> Some TaskState.Woken).
  { intros r Hr Hs Ew. destruct (stt_Some s r _ T3 Hr Ew) as (v & Ev & Hv). rewrite (settled_at s r v Ev) in Hs.
    destruct (settledb_state v _ Hv) as [_ Hb]. congruence. }
  destruct (decide (is_Some (ts_at s p))) as [Lp|Np].
  2: { destruct (ts_at s p) as [v|] eqn:Ep; [by destruct Np|]. exists s, kids. split; [|split_and!; try done].
       - destruct fuel as [|fuel]; [lia|]. cbn. unfold Reap.first_settled_child, Children.iter_children. rewrite (ts_get_spec s p T1 Hp), Ep. done.
       - intros r. rewrite decide_False; [done|]. naive_solver. }
  pose proof (kids_bound s kids p T1 T4 Hp Lp) as Hkb.
  destruct (reap_children_spec (length (kids p)) fuel s kids p T1 T3 T4 Hp ltac:(lia) ltac:(lia)) as (s' & E & W' & C' & Ok' & F' & B').
  destruct (ts_at s p) as [vp|] eqn:Ep; [|by destruct Lp].
  assert (Hst : forall r, ref_of w r -> stt s' r = if decide (is_Some (Some vp) /\ r ∈ kids p /\ settled s r = true) then None else stt s r).
  { intros r Hr. rewrite !stt_body, B' by done. by destruct (decide (is_Some (Some vp) /\ _)). }
  pose proof (RunQueueSpec.q_refs _ _ _ T2) as Hrefs. rewrite Forall_forall in Hrefs.
  exists s', (kupd kids p (filter (fun c => settled s c = false) (kids p))). split_and!; try done.
  - split; try done.
    + eapply RunQueueSpec.queue_holds_frame; [exact T2|]. intros x vx Hx Ex. assert (body s' x = body s x) as Hb.
      { rewrite B' by auto. rewrite decide_False; [done|]. intros (_ & _ & Hs). by apply (Hset x (Hrefs x Hx) Hs), Hall. }
      unfold body in Hb. rewrite Ex in Hb. apply fmap_Some in Hb as (v' & E' & Hu). exists v'. split; [done|]. by apply (f_equal next_runnable) in Hu.
    + intros r Hr. rewrite Hst by auto. rewrite decide_False; [by apply T5|]. intros (_ & _ & Hs). by apply (Hset r (Hrefs r Hr) Hs), Hall.
    + intros r Hr. rewrite Hst by done. case_decide; [done|]. by apply T6.
    + intros r Hr. rewrite Hst by done. case_decide; [done|]. by apply T7.
    + intros r Hr. rewrite Hst by done. case_decide; [done|]. by apply T8.
  - intros r. unfold kupd. destruct (decide (r = p)) as [-> |]; [by rewrite decide_True|]. rewrite decide_False; [done|]. naive_solver.
Qed.

(** What the reap drain does to the tree: freed tasks were settled children of
    a recorded parent, the others are as before, and a recorded parent that is
    still there keeps just its unsettled children. *)
Record reaped s s' kids kids' (rl : list Z) : Prop := {
  rp_freed r : ref_of w r -> is_Some (ts_at s r) -> ts_at s' r = None -> settled s r = true /\
    exists p, p ∈ rl /\ is_Some (ts_at s p) /\ r ∈ kids p;
  rp_kept r : ref_of w r -> is_Some (ts_at s' r) -> body s' r = body s r;
  rp_kids r : ref_of w r -> is_Some (ts_at s' r) ->
    kids' r = if decide (r ∈ rl) then filter (fun c => settled s c = false) (kids r) else kids r;
}.

(** The tasks the drain frees, given those [dead] already: the settled children
    of each recorded parent in turn, unless the parent is gone by then. *)
Fixpoint doomed s kids (rl dead : list Z) : list Z :=
  match rl with
  | [] => dead
  | p :: rl => doomed s kids rl (if decide (is_Some (ts_at s p) /\ p ∉ dead) then dead ++ filter (fun c => settled s c = true) (kids p) else dead)
  end.

(** [s] is [s0] with the tasks [dead] freed. *)
Record tracked s0 kids0 s kids (dead : list Z) : Prop := {
  tk_live r : ref_of w r -> is_Some (ts_at s r) <-> is_Some (ts_at s0 r) /\ r ∉ dead;
  tk_settled r : ref_of w r -> is_Some (ts_at s r) -> settled s r = settled s0 r;
  tk_kids p c : ref_of w p -> is_Some (ts_at s p) ->
    (c ∈ kids p -> c ∈ kids0 p) /\ (c ∈ kids0 p -> settled s0 c = true -> c ∈ dead \/ c ∈ kids p);
}.

Lemma tracked_refl s kids : tracked s kids s kids [].
Proof. split; [intros r Hr; set_solver|done|auto]. Qed.

Lemma tracked_reap s0 kids0 s kids dead s1 kids1 p : tracked s0 kids0 s kids dead -> ref_of w p ->
  (forall r, kids1 r = if decide (r = p /\ is_Some (ts_at s p)) then filter (fun c => settled s c = false) (kids p) else kids r) ->
  (forall r, ref_of w r -> body s1 r = if decide (is_Some (ts_at s p) /\ r ∈ kids p /\ settled s r = true) then None else body s r) ->
  tracked s0 kids0 s1 kids1 (if decide (is_Some (ts_at s0 p) /\ p ∉ dead) then dead ++ filter (fun c => settled s0 c = true) (kids0 p) else dead).
Proof.
  intros [A1 A2 A3] Hp Hk Hb. rewrite (decide_ext _ (is_Some (ts_at s p))) by (symmetry; by apply A1).
  assert (Hl : forall r, ref_of w r -> is_Some (ts_at s1 r) <-> is_Some (ts_at s r) /\ ~ (is_Some (ts_at s p) /\ r ∈ kids p /\ settled s r = true)).
  { intros r Hr. rewrite <- (body_is_Some s1 r), <- (body_is_Some s r), Hb by done. destruct (decide (is_Some (ts_at s p) /\ _)) as [Hd|Hd]; [|tauto].
    split; [by intros []|tauto]. }
  assert (Hs : forall r, ref_of w r -> is_Some (ts_at s1 r) -> settled s1 r = settled s r).
  { intros r Hr [_ Hn]%Hl; [|done]. unfold settled. rewrite Hb by done. by rewrite decide_False. }
  destruct (decide (is_Some (ts_at s p))) as [Lp|Np].
  - split.
    + intros r Hr. rewrite Hl, A1 by done. rewrite elem_of_app, list_elem_of_filter. split.
      * intros [[Lr Hd] Hn]. split; [done|]. intros [?|[Hs0 Hin]]; [done|]. apply Hn. assert (is_Some (ts_at s r)) by (by apply A1).
        destruct (A3 p r Hp Lp) as [_ [?|?]]; [done|done|done|]. by rewrite A2.
      * intros [Lr Hn]. split_and!; [done|tauto|]. intros (_ & Hin & Hst). apply Hn. right. assert (is_Some (ts_at s r)) by (apply A1; tauto).
        rewrite <- A2 by done. split; [done|]. by apply (A3 p r Hp Lp).
    + intros r Hr Hl1. rewrite Hs by done. apply A2; [done|]. by apply Hl.
    + intros p' c Hp' [Hl' _]%Hl; [|done]. destruct (A3 p' c Hp' Hl') as [B1 B2]. rewrite Hk, elem_of_app, list_elem_of_filter.
      case_decide as Hd; [destruct Hd as [-> _]|]; [|split; [done|]; intros Hin Hst; destruct (B2 Hin Hst); auto].
      rewrite list_elem_of_filter. split; [tauto|]. intros Hin Hst. auto.
  - split.
    + intros r Hr. rewrite Hl, A1 by done. tauto.
    + intros r Hr Hl1. rewrite Hs by done. apply A2; [done|]. by apply Hl.
    + intros p' c Hp' [Hl' _]%Hl; [|done]. rewrite Hk, decide_False by tauto. by apply A3.
Qed.

Lemma reap_settled_core s0 kids0 rl : forall turns fuel s q l kids rg dead,
  tinv s q l kids None -> RingThms.holds 64 rg rl -> Forall (ref_of w) rl -> (forall r, r ∈ l -> stt s r = Some TaskState.Woken) ->
  (ts_cap s < fuel)%nat -> (length rl < turns)%nat -> tracked s0 kids0 s kids dead ->
  exists s' rg' kids', Reap.reap_settled turns fuel s rg = Ret (s', rg') /\ RingThms.holds 64 rg' [] /\
    tinv s' q l kids' None /\ ts_cap s' = ts_cap s /\ reaped s s' kids kids' rl /\ tracked s0 kids0 s' kids' (doomed s0 kids0 rl dead).
Proof.
  induction rl as [|p rl IH]; intros turns fuel s q l kids rg dead T Hg Hrefs Hall Hfuel Ht Htk; (destruct turns as [|turns]; [cbn in Ht; lia|]);
    cbn [Reap.reap_settled]; unfold ReapQueue.pop, ReapQueue.REAP_QUEUE_CAPACITY; destruct (RingThms.pop_holds 64 6 ltac:(lia) eq_refl rg _ Hg) as (rg1 & Er & Hg1 & _);
    rewrite Er; cbn [mbind outcome_bind List.hd_error]; cbn [List.tl] in Hg1.
  { exists s, rg1, kids. split; [done|]. split_and!; try done. split; try done. intros r Hr Hl Hn. destruct Hl. congruence. }
  apply Forall_cons in Hrefs as [Hp Hrefs]. destruct (reap_children_tinv fuel s q l kids p T Hp Hall Hfuel) as (s1 & kids1 & -> & T1 & C1 & Hk1 & B1).
  cbn [mbind outcome_bind].
  assert (Hst1 : forall r, ref_of w r -> is_Some (ts_at s1 r) -> body s1 r = body s r).
  { intros r Hr Hl. apply body_is_Some in Hl as [v Hv]. rewrite Hv. rewrite B1 in Hv by done. by case_decide. }
  assert (Hset1 : forall r, ref_of w r -> is_Some (ts_at s1 r) -> settled s1 r = settled s r) by (intros r Hr Hl; unfold settled; by rewrite Hst1).
  pose proof (RunQueueSpec.q_refs _ _ _ (t_queue _ _ _ _ _ T1)) as Hlr. rewrite Forall_forall in Hlr.
  pose proof (tracked_reap s0 kids0 s kids dead s1 kids1 p Htk Hp Hk1 B1) as Htk1.
  edestruct (fun H1 H2 H3 => IH turns fuel s1 q l kids1 rg1 _ T1 Hg1 Hrefs H1 H2 H3 Htk1) as (s' & rg' & kids' & E & Hg' & T' & C' & [R1 R2 R3] & Htk').
  { intros r Hr. assert (Hl1 : is_Some (ts_at s1 r)) by (eapply RunQueueSpec.linked_resolves; [apply (RunQueueSpec.q_links _ _ _ (t_queue _ _ _ _ _ T1))|done]).
    rewrite stt_body, Hst1, <- stt_body by auto. by apply Hall. }
  { by rewrite C1. }
  { cbn in Ht. lia. }
  exists s', rg', kids'. split_and!; try done; [by rewrite C'|]. clear Htk1 Htk'.
  assert (Hl1 : forall r, ref_of w r -> is_Some (ts_at s' r) -> is_Some (ts_at s1 r)).
  { intros r Hr Hl. pose proof (R2 r Hr Hl) as Hb. apply body_is_Some in Hl. rewrite Hb in Hl. by apply body_is_Some in Hl. }
  assert (Hkin : forall r c, c ∈ kids1 r -> c ∈ kids r).
  { intros r c. rewrite Hk1. case_decide as Hd; [destruct Hd as [-> _]; by intros [_ ?]%list_elem_of_filter|done]. }
  split.
  - intros r Hr Hl Hn. destruct (decide (is_Some (ts_at s1 r))) as [Hl'|Hn'].
    + destruct (R1 r Hr Hl' Hn) as (Hs & x & Hx & Lx & Hin). rewrite Hset1 in Hs by done. split; [done|]. exists x.
      split_and!; [set_solver| |by apply Hkin]. assert (Hxr : ref_of w x) by (by apply (proj1 (Forall_forall _ _) Hrefs)).
      apply body_is_Some. rewrite <- Hst1 by done. by apply body_is_Some.
    + pose proof (B1 r Hr) as Hb. destruct (decide (is_Some (ts_at s p) /\ _)) as [(Lp & Hin & Hs)|]; [split; [done|]; exists p; split_and!; [set_solver|done|done]|].
      exfalso. apply Hn'. apply body_is_Some. rewrite Hb. by apply body_is_Some.
  - intros r Hr Hl. rewrite R2, Hst1 by auto. done.
  - intros r Hr Hl. pose proof (Hl1 r Hr Hl) as Hl'. rewrite R3 by done.
    assert (Hkids : forall c, c ∈ kids1 r -> settled s1 c = settled s c).
    { intros c Hc. pose proof (t_family _ _ _ _ _ T1) as Hf. assert (Lr : is_Some (fam s1 r)) by (by apply fam_is_Some).
      apply Hset1; [by apply (proj1 (Forall_forall _ _) (fa_refs _ _ _ Hf r Hr Lr))|]. apply fam_is_Some. destruct Lr as [[fr nr] Er1].
      eapply chain_resolves; [by eapply (fa_chain _ _ _ Hf)|done]. }
    assert (Hfilt : filter (fun c => settled s1 c = false) (kids1 r) = filter (fun c => settled s c = false) (kids1 r)) by (by apply filter_elem_ext).
    assert (Hlive : is_Some (ts_at s r)) by (apply body_is_Some; rewrite <- Hst1 by done; by apply body_is_Some).
    rewrite Hfilt, Hk1. destruct (decide (r = p)) as [-> |Hne].
    + rewrite (decide_True (P := p = p /\ _)) by done. rewrite (decide_True (P := p ∈ p :: rl)) by set_solver.
      case_decide; [|done]. rewrite list_filter_filter. apply list_filter_iff. naive_solver.
    + rewrite (decide_False (P := r = p /\ _)) by naive_solver. destruct (decide (r ∈ rl)), (decide (r ∈ p :: rl)); try done; set_solver.
Qed.

Lemma reap_settled_spec rl turns fuel s q l kids rg :
  tinv s q l kids None -> RingThms.holds 64 rg rl -> Forall (ref_of w) rl -> (forall r, r ∈ l -> stt s r = Some TaskState.Woken) ->
  (ts_cap s < fuel)%nat -> (length rl < turns)%nat ->
  exists s' rg' kids', Reap.reap_settled turns fuel s rg = Ret (s', rg') /\ RingThms.holds 64 rg' [] /\
    tinv s' q l kids' None /\ ts_cap s' = ts_cap s /\ reaped s s' kids kids' rl /\ tracked s kids s' kids' (doomed s kids rl []).
Proof. intros. apply reap_settled_core; try done. apply tracked_refl. Qed.
End drain.
End WorkerDrain.

(** * Arming timers

    The tick drains the timer requests of its polls into the wheel: every
    request gets a deadline counted from a clock reading, unless the wheel has
    no slot left. *)

From stdpp Require Import base tactics list numbers sets.

Local Open Scope Z_scope.

Module WorkerTimers.
Import Wheel WheelInv WheelOps WheelThms.

(** ** Registering never changes the capacity *)

Definition wcap (t : wheel) : nat := length (Slab.slots (entries t)).

Lemma store_by_index_cap (s : Slab.slab TimerEntry) i f s' :
  modify_by_index s i f = Ret s' -> length (Slab.slots s') = length (Slab.slots s).
Proof.
  unfold modify_by_index. intros (x & E & [= <-])%outcome_bind_Ret. cbn in E. unfold Slab.get_mut_by_index in E.
  destruct (Slab.slot_at s i) as [sl|]; [|by simplify_eq]. destruct (Generation.is_occupied _); [|by simplify_eq].
  apply outcome_bind_Ret in E as (v & _ & [= <-]). cbn. unfold Slab.set_slot. by rewrite length_insert.
Qed.

Lemma push_front_cap head nz (s : Slab.slab TimerEntry) h' s' :
  push_front head nz s = Ret (h', s') -> length (Slab.slots s') = length (Slab.slots s).
Proof.
  unfold push_front. intros (x & E & E')%outcome_bind_Ret. destruct x as [[v st]|]; [|by simplify_eq].
  assert (H1 : forall v', length (Slab.slots (st v')) = length (Slab.slots s)).
  { cbn in E. unfold Slab.get_mut_by_index in E. destruct (Slab.slot_at s _) as [sl|]; [|done]. destruct (Generation.is_occupied _); [|done].
    apply outcome_bind_Ret in E as (y & _ & [= _ <-]). intros v'. cbn. unfold Slab.set_slot. by rewrite length_insert. }
  apply outcome_bind_Ret in E' as (s2 & E2 & [= _ <-]). destruct head as [old|]; [|by simplify_eq].
  by rewrite (store_by_index_cap _ _ _ _ E2).
Qed.

Lemma register_cap (t : wheel) task d r t' : register t task d = Ret (r, t') -> wcap t' = wcap t.
Proof.
  unfold register, wcap. intros ([x es] & E & E')%outcome_bind_Ret.
  assert (Hes : length (Slab.slots es) = length (Slab.slots (entries t))).
  { cbn in E. unfold Slab.insert in E. destruct (_ =? _); [by simplify_eq|]. destruct (Slab.slot_at _ _); [|done].
    destruct (Generation.is_occupied _); [done|]. apply outcome_bind_Ret in E as (n & _ & [= _ <-]). cbn. unfold Slab.set_slot. by rewrite length_insert. }
  destruct x as [key|e]; [|by simplify_eq]. apply outcome_bind_Ret in E' as (nz & _ & E'). destruct (position _ _) as [l s].
  apply outcome_bind_Ret in E' as (w' & E' & [= _ <-]). unfold insert_at in E'. apply outcome_bind_Ret in E' as (es1 & E1 & E').
  apply outcome_bind_Ret in E' as (lv & _ & E'). apply outcome_bind_Ret in E' as (h & _ & E'). apply outcome_bind_Ret in E' as ([h' es2] & E2 & [= <-]).
  cbn. by rewrite (push_front_cap _ _ _ _ _ E2), (store_by_index_cap _ _ _ _ E1).
Qed.

(** Every slot of the wheel holds a pending timer. *)
Definition wheel_full (t : wheel) : Prop := forall i, (i < wcap t)%nat -> is_Some (pend t i).

Lemma register_rejected (t : wheel) task d e t' : wheel_wf t -> register t task d = Ret (Err e, t') -> wheel_full t.
Proof.
  intros (ch & I & _) (x & E & E')%outcome_bind_Ret i Hi. destruct x as [[key|e'] es].
  - apply outcome_bind_Ret in E' as (nz & _ & E'). destruct (position _ _). apply outcome_bind_Ret in E' as (? & _ & ?). done.
  - destruct (es_insert_full _ _ _ _ (inv_store _ _ _ I) E i Hi) as [c Hc]. unfold pend, vw. rewrite Hc. by eexists.
Qed.

Section timers.
Context {w : Z}.

Definition timers_ok (t : wheel) : Prop := forall i g d task, pend t i = Some (g, (d, task)) -> ref_of w task.

(** A drained request has its timer pending, or the wheel is full. *)
Definition armed (clock : nat -> Z) (t : wheel) (rq : TimerInbox.TimerRequest) : Prop :=
  (exists i g k, pend t i = Some (g, (saturating_add U64 (clock k) (TimerInbox.delay_ticks rq), TimerInbox.task_ref rq))) \/ wheel_full t.

(** Pending timers stay, and the capacity is the same. *)
Definition extends (t t' : wheel) : Prop := wcap t' = wcap t /\ forall i x, pend t i = Some x -> pend t' i = Some x.

Lemma extends_trans t1 t2 t3 : extends t1 t2 -> extends t2 t3 -> extends t1 t3.
Proof. intros [A1 A2] [B1 B2]. split; [congruence|eauto]. Qed.

Lemma armed_extends clock t t' rq : extends t t' -> armed clock t rq -> armed clock t' rq.
Proof.
  intros [Hc He] [(i & g & k & Hi)|Hfull]; [left; eauto 6|right]. intros i Hi. rewrite Hc in Hi. destruct (Hfull i Hi) as [x Hx]. exists x. auto.
Qed.

Lemma register_turn (t : wheel) task d :
  wheel_wf t -> timers_ok t -> ref_of w task -> current_tick t < d ->
  exists r t', register t task d = Ret (r, t') /\ wheel_wf t' /\ timers_ok t' /\ current_tick t' = current_tick t /\ extends t t' /\
    ((exists i g, pend t' i = Some (g, (d, task))) \/ wheel_full t').
Proof.
  intros Hwf Hok Hr Hd. pose proof Hwf as (ch & Hch). pose proof (register_spec t ch task d Hch Hd) as H.
  pose proof (register_cap t task d) as Hcap. pose proof (register_rejected t task d) as Hrej.
  destruct (register t task d) as [[[key|e] t']| | |]; try done.
  - destruct H as (Hwf' & Hcur & Hk & Hn & Hp). eexists _, t'. split; [done|]. split_and!; try done.
    + intros i g d' task' E. rewrite Hp in E. unfold SlabSpec.upd in E. case_decide; [by simplify_eq|by eapply Hok].
    + split; [by eapply Hcap|]. intros i x E. rewrite Hp. unfold SlabSpec.upd. case_decide; [subst; congruence|done].
    + left. eexists _, _. rewrite Hp. unfold SlabSpec.upd. by rewrite decide_True.
  - subst t'. eexists _, t. split; [done|]. split_and!; try done. right. by eapply Hrej.
Qed.

Lemma drain_timers_spec (clock : nat -> Z) tl : forall turns r (t : wheel),
  RingThms.holds 64 r tl -> Forall (WorkerPoll.timer_ok (w := w)) tl -> wheel_wf t -> timers_ok t ->
  (forall k, current_tick t <= clock k) -> current_tick t + 64 <= 2 ^ 64 -> (length tl < turns)%nat ->
  exists r' t', Worker.drain_timers turns clock r t = Ret (r', t') /\ RingThms.holds 64 r' [] /\ wheel_wf t' /\ timers_ok t' /\
    current_tick t' = current_tick t /\ extends t t' /\ Forall (armed clock t') tl.
Proof.
  induction tl as [|rq tl IH]; intros turns r t Hg Hok Hwf Ht Hclock Hmax Hturns; (destruct turns as [|turns]; [cbn in Hturns; lia|]);
    cbn [Worker.drain_timers]; unfold TimerInbox.pop, TimerInbox.TIMER_INBOX_CAPACITY;
    destruct (RingThms.pop_holds 64 6 ltac:(lia) eq_refl r _ Hg) as (r1 & Er & Hg1 & _); rewrite Er; cbn [mbind outcome_bind List.hd_error]; cbn [List.tl] in Hg1.
  { by exists r1, t. }
  apply Forall_cons in Hok as [[Hr Hd] Hok]. pose proof (Hclock turns).
  destruct (register_turn t (TimerInbox.task_ref rq) (saturating_add U64 (clock turns) (TimerInbox.delay_ticks rq)) Hwf Ht Hr)
    as (res & t1 & -> & Hwf1 & Ht1 & Hcur1 & He1 & Ha1).
  { unfold saturating_add. lia. }
  cbn [mbind outcome_bind].
  destruct (IH turns r1 t1 Hg1 Hok Hwf1 Ht1) as (r' & t' & -> & Hg' & Hwf' & Ht' & Hcur' & He' & Ha'); [by rewrite Hcur1|by rewrite Hcur1|cbn in Hturns; lia|].
  exists r', t'. split_and!; try done; [congruence|by eapply extends_trans|]. constructor; [|done].
  eapply armed_extends; [exact He'|]. destruct Ha1 as [(i & g & Hi)|Hf]; [left; by exists i, g, turns|by right].
Qed.
End timers.
End WorkerTimers.
