(* ===== verification/WorkerPass.v ===== *)
(** * A pass of the worker

    [ready sh l kids] is the state of a shard between two passes.  Under the
    bounds a run keeps (spare task slots, room in the id sequence, a clock that
    does not go back) a pass returns, restores it, polls every runnable task
    once in queue order, and leaves exactly the newly spawned tasks queued. *)

From S2P Require Import Prelude Words GenKey SlabAlloc SlabFacts SlabStore TimerWheel TimerArith TimerOps TimerThms PipId TaskRefId TaskCell TaskSlots WorkerRing RunQueue TaskTree TaskTreeSpec WorkerCycle WorkerInv WorkerPoll WorkerTurn.
From stdpp Require Import base tactics list numbers sets.

Local Open Scope Z_scope.

Module WorkerPass.
Import TaskSlot RunQueue Family TreeOps ReapSpec PollFrame Worker WorkerInv WorkerPoll WorkerTurn WorkerDrain WorkerTimers.
Import Wheel WheelInv WheelThms WheelAdvance.

Section pass.
Context {w : Z} {S : Type} `{!TaskStorage w S}.
Abbreviation shard := (Worker.shard S (Slab.slab TimerEntry)).
Implicit Types (s : S) (q : queue) (l : list Z) (kids : Z -> list Z) (sh : shard) (progs : Z -> program).

Definition store sh : S := tasks (senv sh).
Definition alive s (r : Z) : Prop := is_Some (ts_at s r).

Record ready sh l kids : Prop := {
  rd_tasks : tinv (store sh) (run_queue sh) l kids None;
  rd_rings : rings_ok (w := w) (alive (store sh)) (senv sh);
  rd_wheel : wheel_wf (timer sh);
  rd_timers : timers_ok (w := w) (timer sh);
  rd_woken r : r ∈ l -> stt (store sh) r = Some TaskState.Woken;
  rd_seq : 0 <= pip_seq sh;
}.

Section bounds.
Context (now : Z) (clock : nat -> Z) (progs : Z -> program) (fuel tfuel : nat).

(** What a pass may rely on. *)
Record bounds sh : Prop := {
  bd_worker : WorkerId.wf w;
  bd_clock : current_tick (timer sh) <= now /\ now + 64 <= 2 ^ 64 /\ forall k, now <= clock k;
  bd_calls r : Forall (call_ok (w := w)) (calls (progs r));
  bd_spare : spare (store sh) 64;
  bd_seq : pip_seq sh + 64 < 2 ^ 64;
  bd_fuel : (ts_cap (store sh) < fuel)%nat /\ (advance_fuel (timer sh) now <= tfuel)%nat;
}.

(** A timer of [r] is due. *)
Definition due_timer (t : wheel) (r : Z) : Prop := exists i g d, pend t i = Some (g, (d, r)) /\ d <= now.

Lemma collect_fires (t : wheel) :
  wheel_wf t -> now + 64 <= 2 ^ 64 -> (advance_fuel t now <= tfuel)%nat ->
  exists expired t' fired, collect tfuel (advance_to t now) = Ret (expired, t') /\ fires t now fired expired t'.
Proof.
  intros Hw Hmax Hf. pose proof (wf_bounded t Hw) as B. destruct Hw as (ch & Hw). pose proof (live_le (es_cap (entries t)) t).
  apply (collect_spec _ _ _ _ tfuel (iter_ok_start _ t ch now Hw B)); [done|].
  unfold advance_fuel in Hf. cbn [target_tick advance_to Wheel.wheel]. lia.
Qed.

Lemma fires_expired (t t' : wheel) fired expired r : fires t now fired expired t' -> r ∈ expired <-> due_timer t r.
Proof.
  intros F. pose proof (fires_tasks _ _ _ _ _ F) as HF. split.
  - intros Hr. apply list_elem_of_lookup in Hr as [k Hk]. destruct (Forall2_lookup_r _ _ _ _ _ HF Hk) as (i & Hi & g & d & E).
    apply list_elem_of_lookup_2 in Hi. apply (fires_due _ _ _ _ _ F) in Hi as (g' & d' & task & E' & Hd). rewrite E in E'. simplify_eq. by exists i, g', d'.
  - intros (i & g & d & E & Hd). assert (Hi : i ∈ fired) by (apply (fires_due _ _ _ _ _ F); eauto 6).
    apply list_elem_of_lookup in Hi as [k Hk]. destruct (Forall2_lookup_l _ _ _ _ _ HF Hk) as (x & Hx & g' & d' & E'). rewrite E in E'. simplify_eq.
    by apply list_elem_of_lookup_2 in Hx.
Qed.

(** The tick of a shard whose queue is [l]. *)
Record ticked sh l kids (polled : list (Z * TaskCell.PollOutcome)) sh' : Prop := {
  tk_inv : tinv (store sh') (run_queue sh') [] kids None;
  tk_rings : rings_ok (w := w) (alive (store sh)) (senv sh');
  tk_armed : RingThms.holds 64 (timer_requests (senv sh')) [];
  tk_alive r : ref_of w r -> alive (store sh') r <-> alive (store sh) r;
  tk_cap : ts_cap (store sh') = ts_cap (store sh);
  tk_wheel : wheel_wf (timer sh');
  tk_timers : timers_ok (w := w) (timer sh');
  tk_tick : current_tick (timer sh') = now;
  tk_seq : pip_seq sh' = pip_seq sh;
  tk_order : exists l', polled.*1 = l ++ l' /\ (forall r, r ∈ l' <-> due_timer (timer sh) r /\ stt (store sh) r = Some TaskState.Sleeping);
  tk_once : NoDup polled.*1;
  tk_reported : Forall (reported progs) polled;
  tk_polled r : r ∈ polled.*1 -> stt (store sh) r <> Some TaskState.Cancelled -> (forall r', r' ∈ polled.*1 -> r ∉ calls (progs r') ≫= cancels) ->
    (r, poll_outcome TaskState.Woken (progs r)) ∈ polled;
  tk_state r : ref_of w r -> (forall r', r' ∈ polled.*1 -> r ∉ calls (progs r') ≫= moves) -> stt (store sh) r <> Some TaskState.Cancelled ->
    stt (store sh') r = if decide (r ∈ polled.*1) then Some (after_poll TaskState.Woken (progs r)) else stt (store sh) r;
}.

Lemma wake_alive s s' (l' : list Z) :
  slots_ok s -> slots_ok s' -> ts_cap s' = ts_cap s ->
  (forall r, ref_of w r -> stt s' r = if decide (r ∈ l') then Some TaskState.Woken else stt s r) ->
  (forall r, r ∈ l' -> stt s r = Some TaskState.Sleeping) ->
  forall r, ref_of w r -> alive s' r <-> alive s r.
Proof.
  intros H1 H2 C Hs Hl r Hr. unfold alive. rewrite <- (stt_live s' r H2 Hr), <- (stt_live s r H1 Hr), Hs by done.
  case_decide as Hd; [|done]. rewrite (Hl r Hd). split; eauto.
Qed.
Lemma rings_live (P Q : Z -> Prop) (e : env S) : (forall r, ref_of w r -> P r -> Q r) -> rings_ok (w := w) P e -> rings_ok (w := w) Q e.
Proof.
  intros H (pl & rl & tl & [G1 G2 G3 G4 G5 G6]). exists pl, rl, tl. split; try done. eapply Forall_impl; [exact G4|].
  intros x (? & ? & ?). split_and!; auto.
Qed.

Lemma tick_spec sh l kids :
  tinv (store sh) (run_queue sh) l kids None -> rings_ok (w := w) (alive (store sh)) (senv sh) -> wheel_wf (timer sh) -> timers_ok (w := w) (timer sh) ->
  bounds sh ->
  exists o polled sh', tick fuel tfuel now clock progs sh = Ret (o, polled, sh') /\ ticked sh l kids polled sh'.
Proof.
  intros T G Hw Ht [Bw (Bc1 & Bc2 & Bc3) Bcalls _ _ [Bf1 Bf2]]. unfold tick.
  destruct (collect_fires (timer sh) Hw Bc2 Bf2) as (expired & t1 & fired & -> & F). cbn [mbind outcome_bind].
  assert (Hexp : Forall (ref_of w) expired).
  { apply Forall_forall. intros r (i & g & d & E & _)%(fires_expired _ _ _ _ _ F). by eapply Ht. }
  destruct (wake_all_tinv expired (store sh) (run_queue sh) l kids T Hexp) as (q1 & s1 & l1 & E1 & C1 & T1 & Ha & Hb & Hs1).
  fold (store sh). rewrite E1. cbn [mbind outcome_bind].
  assert (Hal1 : forall r, ref_of w r -> alive s1 r <-> alive (store sh) r).
  { eapply wake_alive; [apply T|apply T1|done|exact Hs1|]. intros r Hr. by apply Hb. }
  rewrite (RunQueueSpec.q_len _ _ _ (t_queue _ _ _ _ _ T1)), Nat2Z.id.
  destruct (poll_loop_spec fuel progs (alive (store sh)) (l ++ l1) (set_tasks s1 (senv sh)) q1 kids T1 (rings_tasks _ _ _ G))
    as (outs & e2 & q2 & -> & Ho & T2 & Hsd & G2 & Hrep & Hpoll & Hfin); [intros x Hx; symmetry; by apply Hal1|done|cbn; rewrite C1; lia|].
  cbn [mbind outcome_bind]. destruct G2 as (pl & rl & tl & [G1 G2 G3 G4 G5 G6]).
  assert (Hcur : current_tick t1 = now) by (rewrite (fires_tick _ _ _ _ _ F); lia).
  destruct (drain_timers_spec clock tl (Datatypes.S (length (Ring.slots (timer_requests e2)))) (timer_requests e2) t1 G3 G6)
    as (r' & t' & -> & Hg' & Hwf' & Ht' & Hcur' & _ & _); [apply F| |intros k; rewrite Hcur; apply Bc3|by rewrite Hcur| |].
  { intros i g d task E. rewrite (fires_rest _ _ _ _ _ F) in E. case_decide; [done|by eapply Ht]. }
  { pose proof (RingThms.h_len _ _ _ G3). pose proof (RingThms.h_slots _ _ _ G3). lia. }
  cbn [mbind outcome_bind]. eexists _, outs, _. split; [done|]. split; cbn; try done.
  - exists pl, rl, []. by split.
  - intros r Hr. unfold alive, store at 1. cbn. rewrite (sd_live _ _ Hsd r Hr). cbn. by apply Hal1.
  - unfold store at 1. cbn. rewrite (sd_cap _ _ Hsd). done.
  - congruence.
  - exists l1. split; [done|]. intros r. rewrite <- (fires_expired _ _ _ _ r F). split; [apply Hb|]. intros [? ?]. by apply Ha.
  - rewrite Ho. apply (RunQueueSpec.q_nodup _ _ _ (t_queue _ _ _ _ _ T1)).
  - intros r Hr Hnc Hno. rewrite Ho in *. apply Hpoll; [done| |done]. cbn.
    assert (Hrr : ref_of w r) by (pose proof (RunQueueSpec.q_refs _ _ _ (t_queue _ _ _ _ _ T1)) as Hf; rewrite Forall_forall in Hf; auto).
    rewrite Hs1 by done. case_decide; [done|]. apply elem_of_app in Hr as [Hr|]; [|done].
    destruct (t_queued _ _ _ _ _ T r Hr) as [|]; [done|]. by destruct Hnc.
  - intros r Hr Hno Hnc. rewrite Ho in *. unfold store at 1. cbn. rewrite Hfin by done. cbn. rewrite Hs1 by done.
    destruct (decide (r ∈ l ++ l1)) as [Hin|Hin]; [|rewrite decide_False by set_solver; done].
    case_decide; [done|]. apply elem_of_app in Hin as [Hin|]; [|done]. by destruct (t_queued _ _ _ _ _ T r Hin) as [-> |].
Qed.

(** ** The whole pass *)

(** What a pass over [sh], whose queue is [l], leaves. *)
Record passed sh l kids (wakes : list Z) (polled : list (Z * TaskCell.PollOutcome)) sh' l' kids' : Prop := {
  ps_ready : ready sh' l' kids';
  ps_cap : ts_cap (store sh') = ts_cap (store sh);
  ps_seq : pip_seq sh' = pip_seq sh + Z.of_nat (length l') /\ (length l' <= 64)%nat;
  ps_order : exists l1 l2, polled.*1 = l ++ l1 ++ l2 /\
    (forall r, r ∈ l1 <-> r ∈ wakes /\ stt (store sh) r = Some TaskState.Sleeping) /\
    (forall r, r ∈ l2 <-> due_timer (timer sh) r /\ r ∉ wakes /\ stt (store sh) r = Some TaskState.Sleeping);
  ps_once : NoDup polled.*1;
  ps_reported : Forall (reported progs) polled;
  ps_polled r : r ∈ polled.*1 -> (forall r', r' ∈ polled.*1 -> r ∉ calls (progs r') ≫= cancels) ->
    (r, poll_outcome TaskState.Woken (progs r)) ∈ polled;
  ps_spawned : Forall (fun c => ref_of w c /\ ts_at (store sh) c = None /\ stt (store sh') c = Some TaskState.Woken) l';
  ps_tick : current_tick (timer sh') = now;
  ps_spare n : spare (w := w) (store sh) (n + 64) -> spare (w := w) (store sh') n;
  ps_freed r : ref_of w r -> alive (store sh) r -> ~ alive (store sh') r -> exists p, ref_of w p /\ alive (store sh) p /\ r ∈ kids p;
  ps_orphan r : ref_of w r -> alive (store sh) r -> (forall p, ref_of w p -> alive (store sh) p -> r ∉ kids p) ->
    forall p, ref_of w p -> alive (store sh') p -> r ∉ kids' p;
  ps_state r : ref_of w r -> alive (store sh) r -> alive (store sh') r ->
    (forall r', r' ∈ polled.*1 -> r ∉ calls (progs r') ≫= moves) -> stt (store sh) r <> Some TaskState.Cancelled ->
    stt (store sh') r = if decide (r ∈ polled.*1) then Some (after_poll TaskState.Woken (progs r)) else stt (store sh) r;
  ps_inboxes : RingThms.holds 64 (inbox (senv sh')) [] /\ RingThms.holds 64 (reap (senv sh')) [] /\ RingThms.holds 64 (timer_requests (senv sh')) [];
}.
Lemma spare_alive s s' n : ts_cap s' = ts_cap s -> (forall r, ref_of w r -> alive s' r <-> alive s r) -> spare (w := w) s n -> spare (w := w) s' n.
Proof.
  intros C Ha H l Hnd Hl. rewrite C. apply H; [done|]. eapply Forall_impl; [exact Hl|]. intros r [Hr Hs]. split; [done|]. by apply Ha.
Qed.

(** A store whose live tasks are those of another and at most [length cs] more. *)
Lemma spare_grow s s' (cs : list Z) n :
  ts_cap s' = ts_cap s -> (forall r, ref_of w r -> alive s' r -> alive s r \/ r ∈ cs) -> (length cs <= 64)%nat ->
  spare (w := w) s (n + 64) -> spare (w := w) s' n.
Proof.
  intros C Ha Hcs H l Hnd Hl. rewrite C. rewrite Forall_forall in Hl.
  assert (Hb : (length (filter (fun r => r ∈ cs) l) <= length cs)%nat).
  { apply submseteq_length, NoDup_submseteq; [by apply NoDup_filter|]. by intros x [? _]%list_elem_of_filter. }
  pose proof (H (filter (fun r => r ∉ cs) l) ltac:(by apply NoDup_filter)) as Hlen.
  assert (length l = length (filter (fun r => r ∈ cs) l) + length (filter (fun r => r ∉ cs) l))%nat as ->.
  { clear. induction l as [|x l IH]; [done|]. rewrite !list.filter_cons. destruct (decide (x ∈ cs)), (decide (x ∉ cs)); cbn; try done; lia. }
  enough (length (filter (fun r => r ∉ cs) l) + (n + 64) <= ts_cap s)%nat by lia. apply Hlen. apply Forall_forall.
  intros r [Hn Hin]%list_elem_of_filter. destruct (Hl r Hin) as [Hr Hs]. split; [done|]. by destruct (Ha r Hr Hs).
Qed.

(** What the drains that close the pass leave. *)
Record drained sh kids s3 q2 rg2 rg3 seq2 (cs : list Z) kids3 : Prop := {
  dr_cap : ts_cap s3 = ts_cap (store sh);
  dr_seq : seq2 = pip_seq sh + Z.of_nat (length cs) /\ (length cs <= 64)%nat;
  dr_ready : ready (mkShard (mkEnv s3 rg2 rg3 (timer_requests (senv sh)) (submitted (senv sh))) (timer sh) q2 seq2) cs kids3;
  dr_spawned : Forall (fun c => ref_of w c /\ ts_at (store sh) c = None /\ stt s3 c = Some TaskState.Woken) cs;
  dr_rings : RingThms.holds 64 rg2 [] /\ RingThms.holds 64 rg3 [];
  dr_alive r : ref_of w r -> alive s3 r -> alive (store sh) r \/ r ∈ cs;
  dr_freed r : ref_of w r -> alive (store sh) r -> ~ alive s3 r -> exists p, ref_of w p /\ alive (store sh) p /\ r ∈ kids p;
  dr_state r : ref_of w r -> alive (store sh) r -> alive s3 r -> stt s3 r = stt (store sh) r;
  dr_kids p : ref_of w p -> alive s3 p -> forall r, r ∈ kids3 p -> r ∈ cs \/ alive (store sh) p /\ r ∈ kids p;
}.

Lemma drains_spec sh kids :
  tinv (store sh) (run_queue sh) [] kids None -> rings_ok (w := w) (alive (store sh)) (senv sh) ->
  RingThms.holds 64 (timer_requests (senv sh)) [] -> wheel_wf (timer sh) -> timers_ok (w := w) (timer sh) ->
  WorkerId.wf w -> 0 <= pip_seq sh -> pip_seq sh + 64 < 2 ^ 64 -> spare (w := w) (store sh) 64 -> (ts_cap (store sh) < fuel)%nat ->
  exists s2 q2 rg2 seq2 s3 rg3 cs kids3,
    drain_spawns (Datatypes.S (length (Ring.slots (inbox (senv sh))))) (store sh) (run_queue sh) (inbox (senv sh)) (pip_seq sh) = Ret (s2, q2, rg2, seq2) /\
    Reap.reap_settled (Datatypes.S (length (Ring.slots (reap (senv sh))))) fuel s2 (reap (senv sh)) = Ret (s3, rg3) /\
    drained sh kids s3 q2 rg2 rg3 seq2 cs kids3.
Proof.
  intros T (pl & rl & tl & [G1 G2 G3 G4 G5 G6]) Ht0 Hw Ht Bw Hseq Bseq Hsp Hfuel.
  pose proof (RingThms.h_len _ _ _ G1) as HL1. pose proof (RingThms.h_slots _ _ _ G1) as HS1. unfold SpawnInbox.SPAWN_INBOX_CAPACITY in HL1, HS1.
  pose proof (RingThms.h_len _ _ _ G2) as HL2. pose proof (RingThms.h_slots _ _ _ G2) as HS2. unfold ReapQueue.REAP_QUEUE_CAPACITY in HL2, HS2.
  destruct (drain_spawns_spec pl (Datatypes.S (length (Ring.slots (inbox (senv sh))))) (store sh) (run_queue sh) [] kids (inbox (senv sh)) (pip_seq sh) T G1 G4 Bw Hseq)
    as (s2 & q2 & rg2 & cs & kids2 & E2 & Hg2 & T2 & C2 & HF & Hn & Hst & Hgrow); [lia|eapply spare_steady_le; [|exact Hsp]; lia|lia|].
  rewrite Forall_forall in Hn. pose proof (Forall2_length _ _ _ HF) as HFL.
  assert (Hcw : forall r, r ∈ cs -> stt s2 r = Some TaskState.Woken) by (intros r Hr; destruct (Hn r Hr); by rewrite Hst, decide_True).
  destruct (reap_settled_spec rl (Datatypes.S (length (Ring.slots (reap (senv sh))))) fuel s2 q2 cs kids2 (reap (senv sh)) T2 G2 G5 Hcw)
    as (s3 & rg3 & kids3 & E3 & Hg3 & T3 & C3 & [R1 R2 R3] & _); [lia|lia|].
  assert (Hal2 : forall r, ref_of w r -> alive s2 r <-> alive (store sh) r \/ r ∈ cs).
  { intros r Hr. unfold alive. rewrite <- (stt_live s2 r (t_slots _ _ _ _ _ T2) Hr), <- (stt_live (store sh) r (t_slots _ _ _ _ _ T) Hr), Hst by done.
    destruct (decide (r ∈ cs)); [split; [by right|eauto]|]. split; [by left|]. by intros [?|?]. }
  assert (Hst3 : forall r, ref_of w r -> alive s3 r -> stt s3 r = stt s2 r) by (intros r Hr Hl; by rewrite !stt_body, R2).
  assert (Hal3 : forall r, ref_of w r -> alive s3 r -> alive s2 r).
  { intros r Hr Hl. unfold alive. rewrite <- (stt_live s2 r (t_slots _ _ _ _ _ T2) Hr), <- Hst3 by done. by apply (stt_live s3 r (t_slots _ _ _ _ _ T3) Hr). }
  assert (Hca : forall r, r ∈ cs -> alive s3 r).
  { intros r Hr. eapply RunQueueSpec.linked_resolves; [apply (RunQueueSpec.q_links _ _ _ (t_queue _ _ _ _ _ T3))|done]. }
  assert (Hk2 : forall p r, ref_of w p -> alive s2 p -> r ∈ kids2 p -> r ∈ cs \/ alive (store sh) p /\ r ∈ kids p).
  { intros p r Hp Hl Hin. apply (Hal2 p Hp) in Hl as [Hl|Hl].
    - destruct (Hgrow p Hp Hl) as (new & Hk & Hnew & _). rewrite Hk in Hin. apply elem_of_app in Hin as [|]; auto.
    - destruct (Hn p Hl) as (_ & _ & Hk). rewrite Hk in Hin. by apply elem_of_nil in Hin. }
  exists s2, q2, rg2, (pip_seq sh + Z.of_nat (length pl)), s3, rg3, cs, kids3. split; [done|]. split; [done|]. split; try done.
  - by rewrite C3.
  - split; [by rewrite HFL|lia].
  - split; cbn; try done; [by exists [], [], []| |lia]. intros r Hr. destruct (Hn r Hr). rewrite Hst3; auto.
  - apply Forall_forall. intros c Hc. destruct (Hn c Hc) as (? & ? & ?). split_and!; [done|done|]. rewrite Hst3; auto.
  - intros r Hr Hl. apply Hal2; auto.
  - intros r Hr Hl Hd. destruct (R1 r Hr) as (_ & p & Hp & Lp & Hin).
    + apply Hal2; auto.
    + destruct (ts_at s3 r) eqn:E; [|done]. destruct Hd. unfold alive. rewrite E. by eexists.
    + assert (Hpr : ref_of w p) by (by apply (proj1 (Forall_forall _ _) G5)). exists p. destruct (Hk2 p r Hpr Lp Hin) as [Hc|[? ?]]; [|done].
      by destruct (Hd (Hca r Hc)).
  - intros r Hr Hl Hl3. rewrite Hst3, Hst by done. rewrite decide_False; [done|]. intros Hc. destruct (Hn r Hc) as (_ & Hnone & _). destruct Hl. congruence.
  - intros p Hp Hl r Hin. apply (Hk2 p r Hp (Hal3 p Hp Hl)). rewrite R3 in Hin by done. case_decide; [by apply list_elem_of_filter in Hin as [_ ?]|done].
Qed.

Lemma run_pass_spec sh l kids wakes :
  ready sh l kids -> Forall (ref_of w) wakes -> bounds sh ->
  exists o polled sh' l' kids', run_pass fuel tfuel now clock wakes progs sh = Ret (o, polled, sh') /\
    passed sh l kids wakes polled sh' l' kids'.
Proof.
  intros [T G Hw Ht Hwok Hseq] Hwakes B. pose proof B as [Bw Bc Bcalls Bsp Bseq [Bf1 Bf2]]. unfold run_pass.
  destruct (wake_all_tinv wakes (store sh) (run_queue sh) l kids T Hwakes) as (q0 & s0 & l1 & E0 & C0 & T0 & Ha & Hb & Hs0).
  fold (store sh). rewrite E0. cbn [mbind outcome_bind]. set (sh0 := mkShard (set_tasks s0 (senv sh)) (timer sh) q0 (pip_seq sh)).
  assert (Hal : forall r, ref_of w r -> alive s0 r <-> alive (store sh) r).
  { eapply wake_alive; [apply T|apply T0|done|exact Hs0|]. intros r Hr. by apply Hb. }
  destruct (tick_spec sh0 (l ++ l1) kids T0) as (o & polled & sh1 & -> & [K1 K2 K3 K4 K5 K6 K7 K14 K8 (l2 & K9 & K10) K11 K12 K13 K15]); [|done|done| |].
  { apply (rings_live (alive (store sh))); [intros r Hr; by apply Hal|]. by apply rings_tasks. }
  { split; try done; [by eapply spare_alive|]. unfold store. cbn. by rewrite C0. }
  cbn [mbind outcome_bind]. fold (store sh1).
  assert (Hal1 : forall r, ref_of w r -> alive (store sh1) r <-> alive (store sh) r) by (intros r Hr; rewrite K4 by done; by apply Hal).
  assert (HC : ts_cap (store sh1) = ts_cap (store sh)) by (rewrite K5; exact C0).
  destruct (drains_spec sh1 kids K1) as (s2 & q2 & rg2 & seq2 & s3 & rg3 & cs & kids3 & -> & E3 & [D1 [D2 D2'] D3 D4 [D5 D5'] D6 D7 D8 D9]); try done.
  { apply (rings_live (alive (store sh0))); [intros r Hr; by apply K4|done]. }
  { by rewrite K8. }
  { by rewrite K8. }
  { by eapply spare_alive. }
  { by rewrite HC. }
  cbn [mbind outcome_bind]. rewrite E3. cbn [mbind outcome_bind]. eexists o, polled, _, cs, kids3. split; [done|]. split; try done.
  - by rewrite <- HC.
  - cbn. by rewrite D2, K8.
  - exists l1, l2. rewrite app_assoc. split; [done|]. split.
    + intros r. split; [apply Hb|]. intros [? ?]. by apply Ha.
    + intros r. rewrite K10. cbn. split.
      * intros [Hd Hs]. pose proof Hd as (i & g & d & Ep & _). pose proof (Ht _ _ _ _ Ep) as Hr. change (store sh0) with s0 in Hs. rewrite Hs0 in Hs by done.
        case_decide as Hin; [done|]. split_and!; [done| |done]. intros Hrw. by apply Hin, Ha.
      * intros (Hd & Hnw & Hs). pose proof Hd as (i & g & d & Ep & _). pose proof (Ht _ _ _ _ Ep) as Hr. split; [done|]. change (store sh0) with s0.
        rewrite Hs0 by done. rewrite decide_False; [done|]. intros [? _]%Hb. done.
  - intros r Hr Hno. apply K13; [done| |done]. change (store sh0) with s0. rewrite K9 in Hr. apply elem_of_app in Hr as [Hr|Hr].
    + destruct (t_queued _ _ _ _ _ T0 r Hr) as [->|Hc]; [done|]. assert (Hrr : ref_of w r)
        by (pose proof (RunQueueSpec.q_refs _ _ _ (t_queue _ _ _ _ _ T0)) as Hf; rewrite Forall_forall in Hf; auto).
      rewrite Hs0 in Hc |- * by done. case_decide; [done|]. apply elem_of_app in Hr as [Hr|]; [|done]. by rewrite (Hwok r Hr).
    + apply K10 in Hr as [_ Hs]. change (store sh0) with s0 in Hs. by rewrite Hs.
  - rewrite Forall_forall in *. intros c Hc. destruct (D4 c Hc) as (Hr & Hd & Hs). split_and!; try done.
    destruct (ts_at (store sh) c) eqn:Ec; [|done]. destruct (proj2 (Hal1 c Hr)); [unfold alive; rewrite Ec; by eexists|congruence].
  - intros n Hn. eapply (spare_grow (store sh) s3 cs); [by rewrite <- HC| |done|done]. intros r Hr Hl. destruct (D6 r Hr Hl) as [Hl1|]; [left; by apply Hal1|by right].
  - intros r Hr Hl Hd. destruct (D7 r Hr) as (p & Hp & Lp & Hin); [by apply Hal1|done|]. exists p. split_and!; [done|by apply Hal1|done].
  - intros r Hr Hl Ho p Hp Hlp Hin. destruct (D9 p Hp Hlp r Hin) as [Hc|[Lp Hk]].
    + rewrite Forall_forall in D4. destruct (D4 r Hc) as (_ & Hd & _). apply (Hal1 r Hr) in Hl. destruct Hl. congruence.
    + apply (Ho p Hp); [by apply Hal1|done].
  - intros r Hr Hl Hl' Hno Hnc. change (stt s3 r = if decide (r ∈ polled.*1) then Some (after_poll TaskState.Woken (progs r)) else stt (store sh) r).
    rewrite (D8 r Hr) by (done || by apply Hal1).
    assert (Hs0c : stt s0 r <> Some TaskState.Cancelled) by (rewrite Hs0 by done; by case_decide).
    rewrite K15 by done. case_decide as Hin; [done|]. change (store sh0) with s0. rewrite Hs0 by done. rewrite decide_False; [done|].
    intros Hin1. apply Hin. rewrite K9. set_solver.
Qed.
End bounds.
End pass.
End WorkerPass.
