(* ===== verification/RuntimeDrive.v ===== *)
(** * Driving a root future

    Models src/crates/kwokka-runtime/src/runtime/drive/root.rs: building a shard
    (worker/shard/state.rs), spawning the root task, running passes until it
    settles and taking its output, [block_on] of the affine runtime.  What the
    environment supplies to a pass (the clock, the wakes that arrived, what the
    futures do) is a [round]; [block_on] is given the rounds of its passes and
    runs out of fuel when they end.  Arming the wake fd, installing the guards
    and parking act on the driver only. *)

From S2P Require Import Prelude Words GenKey SlabAlloc SlabFacts SlabStore TimerWheel TimerThms PipId TaskRefId TaskCell TaskSlots WorkerRing RunQueue TaskTree WorkerCycle.
From stdpp Require Import base tactics list numbers.

Local Open Scope Z_scope.

Module Drive.
Import TaskSlot RunQueue PollFrame Worker.

Definition ROOT : Z := 0.

Section drive.
Context {w : Z} {S : Type} `{!TaskStorage w S}.
Abbreviation shard := (Worker.shard S (Slab.slab Wheel.TimerEntry)).
Implicit Types (sh : shard).

(** [WorkerShard::new]: the task side of the shard over the fresh slab
    [tasks]; [now] is the first clock reading. *)
Definition shard_new (tasks : S) (now task_capacity : Z) : outcome shard :=
  t ← Wheel.new now task_capacity;
  Ret (mkShard (mkEnv tasks SpawnInbox.new ReapQueue.new TimerInbox.new 0) t RunQueue.new 1).

Definition set_store (s : S) (q : queue) (seq : Z) sh : shard :=
  mkShard (set_tasks s (senv sh)) (timer sh) q seq.

Definition issue_pip sh : outcome (Z * shard) :=
  let seq := pip_seq sh in
  seq' ← add_or_panic U64 seq 1;
  Ret (Pip.issue (WorkerId.raw w) seq, mkShard (senv sh) (timer sh) (run_queue sh) seq').

Definition spawn_insert (tasks : S) (worker_id pip namespace : Z) : outcome (result Slab.SlabError Z * S) :=
  '(k, tasks) ← ts_insert tasks (TaskSlot.new pip namespace);
  Ret (match k with Ok key => Ok (TaskRef.from_slab worker_id key) | Err e => Err e end, tasks).

Definition spawn_root sh : outcome (Z * shard) :=
  '(pip, sh) ← issue_pip sh;
  '(r, s) ← spawn_insert (tasks (senv sh)) (WorkerId.raw w) pip ROOT;
  match r with
  | Err _ => Panic
  | Ok root =>
      '(found, s) ← ts_modify s root (pinned true);
      if negb found then Panic else
      '(q, s) ← wake_local s (run_queue sh) root;
      Ret (root, set_store s q (pip_seq sh) sh)
  end.

Definition root_settled sh (root : Z) : outcome bool :=
  x ← ts_get (tasks (senv sh)) root;
  match x with
  | None => Panic
  | Some sl =>
      st ← TaskState.load (state sl);
      match st with
      | TaskState.Done => Ret true
      | TaskState.Cancelled | TaskState.Failed => Panic
      | TaskState.Sleeping | TaskState.Woken | TaskState.Running => Ret false
      | TaskState.Taken | TaskState.Retired => Panic
      end
  end.

(** [TaskSlot::take_output]: consumes the output through [&mut self]. *)
Definition take_output (c : TaskCell.cell) : outcome TaskCell.cell :=
  '(r, s) ← TaskState.transition [] (TaskCell.st c) TaskState.Done TaskState.Taken;
  match r with
  | Ok _ => TaskCell.read_output (TaskCell.set_st s c)
  | Err _ => Panic
  end.

(** The removed slot is dropped at the end of the statement. *)
Definition take_root_output sh (root : Z) : outcome shard :=
  x ← ts_get_mut (tasks (senv sh)) root;
  match x with
  | None => Panic
  | Some (sl, st) =>
      c ← take_output (cell sl);
      '(removed, s) ← ts_remove (st (set_cell c sl)) root;
      match removed with
      | None => Ret (set_store s (run_queue sh) (pip_seq sh) sh)
      | Some sl => _ ← TaskCell.drop_in_place_fn (cell sl); Ret (set_store s (run_queue sh) (pip_seq sh) sh)
      end
  end.

(** The environment of one pass. *)
Record round : Type := mkRound { now : Z; clock : nat -> Z; wakes : list Z; progs : Z -> program }.

(** One pass, with fuel for the walks over the tasks and for the wheel. *)
Definition pass (rd : round) sh : outcome (Tick * list (Z * TaskCell.PollOutcome) * shard) :=
  run_pass (Datatypes.S (ts_cap (tasks (senv sh)))) (WheelThms.advance_fuel (timer sh) (now rd)) (now rd) (clock rd) (wakes rd) (progs rd) sh.

(** The [loop] of [block_on]; the number of passes made. *)
Fixpoint drive_loop (rounds : list round) (root : Z) sh : outcome (nat * shard) :=
  match rounds with
  | [] => OutOfFuel
  | rd :: rounds =>
      '(_, _, sh) ← pass rd sh;
      settled ← root_settled sh root;
      if settled : bool then Ret (1%nat, sh) else
      '(n, sh) ← drive_loop rounds root sh;
      Ret (Datatypes.S n, sh)
  end.

Definition block_on (rounds : list round) sh : outcome (nat * shard) :=
  '(root, sh) ← spawn_root sh;
  '(n, sh) ← drive_loop rounds root sh;
  sh ← take_root_output sh root;
  Ret (n, sh).
End drive.

(** [SystemClock::ticks_to_duration], in nanoseconds; the product is checked
    arithmetic. *)
Definition TICK_NS : Z := 1000000.
Definition ticks_to_duration (ticks : Z) : outcome Z :=
  if ticks * TICK_NS <? 2 ^ U64 then Ret (ticks * TICK_NS) else Panic.

(** [park_for_next_event]: the deadline handed to the driver. *)
Definition park_deadline {T} (t : Wheel.TimerWheel T) : outcome (option Z) :=
  match Wheel.next_expiry t with
  | None => Ret None
  | Some ticks => d ← ticks_to_duration ticks; Ret (Some d)
  end.
End Drive.
