(* ===== verification/DriveThms.v ===== *)
(** * What [block_on] does

    A shard built fresh is ready; spawning the root makes it the one queued
    task; every pass keeps the root alive until it completes, and the loop ends
    at the pass that polls it to completion, when its output is taken. *)

From S2P Require Import Prelude Words GenKey SlabAlloc SlabFacts SlabStore TimerWheel TimerArith TimerOps TimerThms PipId TaskRefId TaskCell TaskSlots WorkerRing RunQueue TaskTree TaskTreeSpec WorkerCycle WorkerInv WorkerPoll WorkerTurn WorkerPass RuntimeDrive.
From stdpp Require Import base tactics list numbers sets.

Local Open Scope Z_scope.

Module DriveSpec.
Import TaskSlot RunQueue Family TreeOps ReapSpec PollFrame Worker WorkerInv WorkerPoll WorkerTurn WorkerDrain WorkerTimers WorkerPass Drive.

Section drive.
Context {w : Z} {S : Type} `{!TaskStorage w S}.
Abbreviation shard := (Worker.shard S (Slab.slab Wheel.TimerEntry)).
Implicit Types (s : S) (q : queue) (l : list Z) (kids : Z -> list Z) (sh : shard).

Lemma fresh_tinv s : ts_wf s -> (forall r, ts_at s r = None) -> tinv s RunQueue.new [] (fun _ => []) None.
Proof.
  intros W Hn. assert (Hs : forall r, stt s r = None) by (intros r; unfold stt; by rewrite Hn).
  split; try done.
  - apply RunQueueSpec.queue_holds_new.
  - intros r v _. by rewrite Hn.
  - split; unfold fam; [intros p fc ns _|intros p _|intros p _|intros p p' c _ _|intros p _]; rewrite Hn; [done|by intros [? ?]..].
  - intros r Hr. by apply elem_of_nil in Hr.
  - intros r _. by rewrite Hs.
  - intros r _. by rewrite Hs.
  - intros r _. by rewrite Hs.
Qed.

Lemma shard_new_ready s now cap :
  ts_wf s -> (forall r, ts_at s r = None) -> 0 <= now -> 0 <= cap < 2 ^ 32 ->
  exists sh, shard_new s now cap = Ret sh /\ ready sh [] (fun _ => []) /\ store sh = s /\ pip_seq sh = 1 /\ Wheel.current_tick (timer sh) = now.
Proof.
  intros W Hn Hnow Hcap. destruct (WheelThms.new_wf now cap Hnow Hcap) as (t & E & Hw & Ht & Hp). unfold shard_new. rewrite E.
  cbn [mbind outcome_bind]. eexists. split; [done|]. split_and!; try done. split; cbn; try done.
  - by apply fresh_tinv.
  - exists [], [], []. split; try constructor; try done; eapply (RingThms.ring_holds_new 64 6); done || lia.
  - intros i g d task Hi. by rewrite Hp in Hi.
  - intros r Hr. by apply elem_of_nil in Hr.
Qed.

(** No live task has [r] among its children. *)
Definition parentless s kids (r : Z) : Prop := forall p, ref_of w p -> alive s p -> r ∉ kids p.

Lemma spawn_root_spec sh n :
  ready sh [] (fun _ => []) -> WorkerId.wf w -> pip_seq sh + 1 < 2 ^ 64 -> spare (w := w) (store sh) (Datatypes.S n) ->
  exists root sh' kids', spawn_root sh = Ret (root, sh') /\ ready sh' [root] kids' /\ parentless (store sh') kids' root /\
    spare (w := w) (store sh') n /\ pip_seq sh' = pip_seq sh + 1 /\ timer sh' = timer sh /\ ref_of w root /\ ts_cap (store sh') = ts_cap (store sh).
Proof.
  intros [T G Hw Ht Hwok Hseq] Bw Bseq Hsp. unfold spawn_root, issue_pip.
  rewrite (proj2 (add_or_panic_Ret U64 (pip_seq sh) 1 (pip_seq sh + 1))) by lia. cbn [mbind outcome_bind senv]. unfold spawn_insert.
  set (v := TaskSlot.new _ ROOT). fold (store sh). pose proof (ts_insert_spec (store sh) v (t_wf _ _ _ _ _ T) Bw) as Hins.
  destruct (ts_insert (store sh) v) as [[[key|err] s1]| | |] eqn:Ei; try done.
  2: { exfalso. destruct (ts_insert_full _ v err s1 (t_wf _ _ _ _ _ T) Bw Ei) as (ll & Hnd & Hll & Hlen). pose proof (Hsp ll Hnd Hll). lia. }
  clear Hins. cbn [mbind outcome_bind]. assert (Hv : fresh_cell v) by (eexists _, _, false; done).
  destruct (insert_facts _ s1 v key (t_wf _ _ _ _ _ T) Bw Ei) as (W1 & Hc & C1 & Hn & A1).
  destruct (insert_tinv _ s1 v key (t_wf _ _ _ _ _ T) Bw Ei _ _ _ T Hv) as (T1 & Hsc & Ho & Hs1).
  pose proof (insert_spare _ s1 v key (t_wf _ _ _ _ _ T) Bw Ei n Hsp) as Hsp1. unfold WorkerId.raw. set (c := TaskRef.from_slab w key) in *.
  assert (Ec : ts_at s1 c = Some v) by (by rewrite A1, decide_True).
  destruct (modify_touched s1 c v (pinned true) W1 Hc Ec) as (s2 & E2 & Ht2); [done|]. rewrite E2. cbn [mbind outcome_bind negb run_queue].
  assert (Hst2 : in_state (pinned true v) TaskState.Sleeping) by done.
  assert (T2 : tinv s2 (run_queue sh) [] (kupd (fun _ => []) c []) None).
  { eapply (touched_tinv _ _ _ _ _ Ht2 Hc Ec); try done. intros Hin. by apply elem_of_nil in Hin. }
  destruct (wake_local_tinv s2 (run_queue sh) [] _ c T2 Hc) as (q3 & s3 & -> & C3 & T3 & Hs3). cbn [mbind outcome_bind].
  assert (Es2 : stt s2 c = Some TaskState.Sleeping) by (by rewrite (touched_stt _ _ _ _ _ Ht2 Hc TaskState.Sleeping c Hst2 Hc), decide_True).
  rewrite Es2 in T3, Hs3. rewrite decide_True in T3 by done.
  assert (Hal3 : forall r, ref_of w r -> alive s3 r <-> alive s1 r).
  { intros r Hr. unfold alive. rewrite <- (stt_live s3 r (t_slots _ _ _ _ _ T3) Hr), <- (stt_live s1 r (t_slots _ _ _ _ _ T1) Hr), Hs3 by done.
    rewrite (touched_stt _ _ _ _ _ Ht2 Hc TaskState.Sleeping r Hst2 Hr). destruct (decide (r = c)) as [-> |Hne].
    - rewrite decide_True by done. rewrite Hsc. split; eauto.
    - by rewrite decide_False by naive_solver. }
  eexists c, _, _. split; [done|]. split_and!; try done.
  - split; cbn; try done; try lia.
    + apply (rings_live (alive (store sh))); [|by apply rings_tasks]. intros r Hr Hl. apply Hal3; [done|]. unfold alive. rewrite A1 by done. destruct (decide (r = c)); [eauto|done].
    + intros r ->%list_elem_of_singleton. unfold store. cbn. rewrite Hs3, decide_True by done. done.
  - intros p Hp Hl. change (store _) with s3 in Hl. apply (Ho p Hp). apply fam_is_Some. by apply Hal3.
  - change (store _) with s3. eapply spare_alive; [|exact Hal3|exact Hsp1]. rewrite C3. apply (to_cap _ _ _ _ _ Ht2).
  - change (store (set_store _ _ _ _)) with s3. rewrite C3, (to_cap _ _ _ _ _ Ht2). done.
Qed.

(** ** Rounds *)

(** What a round may bring to a shard whose wheel stands at [t]; no future
    cancels or joins the root. *)
Record round_ok (root t : Z) (rd : round) : Prop := {
  ro_clock : t <= now rd /\ now rd + 64 <= 2 ^ 64 /\ forall k, now rd <= clock rd k;
  ro_wakes : Forall (ref_of w) (wakes rd);
  ro_calls r : Forall (call_ok (w := w)) (calls (progs rd r)) /\ root ∉ calls (progs rd r) ≫= moves;
}.

Fixpoint rounds_ok (root t : Z) (rounds : list round) : Prop :=
  match rounds with
  | [] => True
  | rd :: rounds => round_ok root t rd /\ rounds_ok root (now rd) rounds
  end.

(** A shard whose root is still running, with room for [n] more passes. *)
Record driving sh (root : Z) (n : nat) : Prop := {
  dv_ready : exists l kids, ready sh l kids /\ parentless (store sh) kids root;
  dv_root : ref_of w root /\ (stt (store sh) root = Some TaskState.Sleeping \/ stt (store sh) root = Some TaskState.Woken);
  dv_spare : spare (w := w) (store sh) (64 * n);
  dv_seq : pip_seq sh + 64 * Z.of_nat n < 2 ^ 64;
}.

Lemma driving_bounds sh root n rd :
  driving sh root (Datatypes.S n) -> WorkerId.wf w -> round_ok root (Wheel.current_tick (timer sh)) rd ->
  bounds (w := w) (now rd) (clock rd) (progs rd) (Datatypes.S (ts_cap (store sh))) (WheelThms.advance_fuel (timer sh) (now rd)) sh.
Proof.
  intros [_ _ Hsp Hseq] Bw [Bc Bwk Bcalls]. split; try done; try lia; [intros r; apply Bcalls|]. eapply spare_steady_le; [|exact Hsp]. lia.
Qed.

Lemma moves_cancels (root : Z) (p : program) : root ∉ calls p ≫= moves -> root ∉ calls p ≫= cancels.
Proof.
  intros Hno Hin. apply Hno. apply list_elem_of_bind in Hin as (c & Hin & Hc). apply list_elem_of_bind. exists c. split; [|done].
  destruct c; cbn in *; first [done|by apply elem_of_nil in Hin].
Qed.

(** A queued root is polled by the next pass. *)
Lemma pass_polls_root sh root l kids n rd :
  ready sh l kids -> root ∈ l -> driving sh root (Datatypes.S n) -> WorkerId.wf w -> round_ok root (Wheel.current_tick (timer sh)) rd ->
  exists o polled sh', pass rd sh = Ret (o, polled, sh') /\ (root, poll_outcome TaskState.Woken (progs rd root)) ∈ polled.
Proof.
  intros R Hl D Bw Hrd. pose proof Hrd as [_ Bwk Bcalls].
  destruct (run_pass_spec _ _ _ _ _ sh l kids (wakes rd) R Bwk (driving_bounds sh root n rd D Bw Hrd)) as (o & polled & sh' & l' & kids' & E & P).
  exists o, polled, sh'. split; [exact E|]. destruct (ps_order _ _ _ _ _ _ _ _ _ _ P) as (l1 & l2 & Hp & _).
  apply (ps_polled _ _ _ _ _ _ _ _ _ _ P); [rewrite Hp; set_solver|]. intros r' _. apply moves_cancels, Bcalls.
Qed.

Lemma pass_driving sh root n rd :
  driving sh root (Datatypes.S n) -> WorkerId.wf w -> round_ok root (Wheel.current_tick (timer sh)) rd ->
  exists o polled sh', pass rd sh = Ret (o, polled, sh') /\ Wheel.current_tick (timer sh') = now rd /\
    if decide ((root, TaskCell.Completed) ∈ polled)
    then exists l kids, ready sh' l kids /\ stt (store sh') root = Some TaskState.Done
    else driving sh' root n.
Proof.
  intros D Bw Hrd. pose proof (driving_bounds sh root n rd D Bw Hrd) as B.
  destruct D as [(l & kids & R & Hpar) [Hr Hst] Hsp Hseq], Hrd as [Bc Bwk Bcalls].
  destruct (run_pass_spec (now rd) (clock rd) (progs rd) _ _ sh l kids (wakes rd) R Bwk B) as (o & polled & sh' & l' & kids' & E & P).
  exists o, polled, sh'. split; [exact E|]. split; [apply P|].
  assert (Hal : alive (store sh) root) by (apply (stt_live _ root (t_slots _ _ _ _ _ (rd_tasks _ _ _ R)) Hr); destruct Hst; eauto).
  assert (Hal' : alive (store sh') root).
  { destruct (decide (alive (store sh') root)) as [|Hd]; [done|]. destruct (ps_freed _ _ _ _ _ _ _ _ _ _ P root Hr Hal Hd) as (p & Hp & Lp & Hin).
    by destruct (Hpar p Hp Lp). }
  assert (Hno : forall r', r' ∈ polled.*1 -> root ∉ calls (progs rd r') ≫= moves) by (intros r' _; apply Bcalls).
  assert (Hnc : forall r', r' ∈ polled.*1 -> root ∉ calls (progs rd r') ≫= cancels) by (intros r' _; apply moves_cancels, Bcalls).
  pose proof (ps_state _ _ _ _ _ _ _ _ _ _ P root Hr Hal Hal' Hno ltac:(destruct Hst; congruence)) as Hs.
  assert (Hout : root ∈ polled.*1 -> (root, TaskCell.Completed) ∈ polled <-> PollFrame.ready (progs rd root) = true).
  { intros Hin. pose proof (ps_polled _ _ _ _ _ _ _ _ _ _ P root Hin Hnc) as Hp. unfold poll_outcome in Hp. destruct (PollFrame.ready (progs rd root)).
    - done.
    - split; [|done]. intros Hc. apply list_elem_of_lookup in Hp as [i Hi], Hc as [j Hj]. exfalso.
      assert (i = j) as -> by (apply (NoDup_lookup polled.*1 i j root); [apply (ps_once _ _ _ _ _ _ _ _ _ _ P)|by rewrite list_lookup_fmap, Hi|by rewrite list_lookup_fmap, Hj]). congruence. }
  destruct (decide ((root, TaskCell.Completed) ∈ polled)) as [Hd|Hd].
  - exists l', kids'. split; [apply P|]. assert (Hin : root ∈ polled.*1) by (apply list_elem_of_fmap; by exists (root, TaskCell.Completed)).
    rewrite Hs, decide_True by done. apply (Hout Hin) in Hd. unfold after_poll. by rewrite Hd.
  - split.
    + exists l', kids'. split; [apply P|]. intros p Hp Lp. by apply (ps_orphan _ _ _ _ _ _ _ _ _ _ P root Hr Hal Hpar).
    + split; [done|]. rewrite Hs. destruct (decide (root ∈ polled.*1)) as [Hin|]; [|done]. unfold after_poll.
      destruct (PollFrame.ready (progs rd root)) eqn:Er; [by destruct Hd; apply (Hout Hin)|by left].
    + apply (ps_spare _ _ _ _ _ _ _ _ _ _ P). by replace (64 * n + 64)%nat with (64 * Datatypes.S n)%nat by lia.
    + destruct (ps_seq _ _ _ _ _ _ _ _ _ _ P) as [-> ?]. lia.
Qed.

(** ** The loop *)

(** [driven root rounds sh n sh']: of the passes over [rounds], the [n]-th is
    the first that polls the root to completion, and it leaves [sh']. *)
Inductive driven (root : Z) : list round -> shard -> nat -> shard -> Prop :=
| driven_last rd rounds sh o polled sh' :
    pass rd sh = Ret (o, polled, sh') -> (root, TaskCell.Completed) ∈ polled -> driven root (rd :: rounds) sh 1 sh'
| driven_more rd rounds sh o polled sh1 n sh' :
    pass rd sh = Ret (o, polled, sh1) -> (root, TaskCell.Completed) ∉ polled -> driven root rounds sh1 n sh' ->
    driven root (rd :: rounds) sh (Datatypes.S n) sh'.

(** No pass over [rounds] polls the root to completion. *)
Inductive undriven (root : Z) : list round -> shard -> Prop :=
| undriven_nil sh : undriven root [] sh
| undriven_more rd rounds sh o polled sh1 :
    pass rd sh = Ret (o, polled, sh1) -> (root, TaskCell.Completed) ∉ polled -> undriven root rounds sh1 ->
    undriven root (rd :: rounds) sh.

Lemma root_settled_spec sh l kids root st :
  ready sh l kids -> ref_of w root -> stt (store sh) root = Some st ->
  st = TaskState.Sleeping \/ st = TaskState.Woken \/ st = TaskState.Done ->
  root_settled sh root = Ret (bool_decide (st = TaskState.Done)).
Proof.
  intros R Hr Es Hst. pose proof (rd_tasks _ _ _ R) as T. destruct (stt_Some _ _ _ (t_slots _ _ _ _ _ T) Hr Es) as (v & Ev & Hv).
  unfold root_settled. fold (store sh). rewrite (ts_get_spec _ _ (t_wf _ _ _ _ _ T) Hr), Ev. cbn [mbind outcome_bind].
  rewrite (in_state_load v st Hv). by destruct Hst as [-> |[-> | ->]].
Qed.

Lemma drive_loop_spec rounds : forall sh root,
  driving sh root (length rounds) -> WorkerId.wf w -> rounds_ok root (Wheel.current_tick (timer sh)) rounds ->
  (exists n sh' l kids, drive_loop rounds root sh = Ret (n, sh') /\ driven root rounds sh n sh' /\ ready sh' l kids /\
     stt (store sh') root = Some TaskState.Done) \/
  drive_loop rounds root sh = OutOfFuel /\ undriven root rounds sh.
Proof.
  induction rounds as [|rd rounds IH]; intros sh root D Bw Hrounds; [right; split; [done|constructor]|].
  destruct Hrounds as [Hrd Hrounds]. pose proof (dv_root _ _ _ D) as [Hr _].
  destruct (pass_driving sh root (length rounds) rd D Bw Hrd) as (o & polled & sh1 & E & Htick & H). cbn [drive_loop]. rewrite E. cbn [mbind outcome_bind].
  destruct (decide ((root, TaskCell.Completed) ∈ polled)) as [Hin|Hin].
  - left. destruct H as (l & kids & R & Es). rewrite (root_settled_spec sh1 l kids root TaskState.Done) by (auto). cbn.
    exists 1%nat, sh1, l, kids. split_and!; try done. by econstructor.
  - pose proof H as [(l & kids & R & _) [_ Hst] _ _].
    assert (root_settled sh1 root = Ret false) as ->.
    { destruct Hst as [Es|Es]; by rewrite (root_settled_spec sh1 l kids root _ R Hr Es) by auto. }
    cbn [mbind outcome_bind]. rewrite <- Htick in Hrounds. destruct (IH sh1 root H Bw Hrounds) as [(n & sh' & l' & kids' & -> & Hd & R' & Es)|[-> Hu]].
    + left. exists (Datatypes.S n), sh', l', kids'. split_and!; try done. by econstructor.
    + right. split; [done|]. by econstructor.
Qed.

Lemma take_root_output_spec sh l kids root :
  ready sh l kids -> ref_of w root -> stt (store sh) root = Some TaskState.Done ->
  exists sh', take_root_output sh root = Ret sh' /\
    forall r, ref_of w r -> ts_at (store sh') r = if decide (r = root) then None else ts_at (store sh) r.
Proof.
  intros R Hr Es. pose proof (rd_tasks _ _ _ R) as T. destruct (stt_Some _ _ _ (t_slots _ _ _ _ _ T) Hr Es) as (v & Ev & Hv).
  unfold take_root_output. fold (store sh). destruct (get_mut_touched _ _ _ (t_wf _ _ _ _ _ T) Hr Ev) as (g & -> & Hg). cbn [mbind outcome_bind].
  destruct Hv as [Ez [Hf Ho]]. unfold take_output. destruct (cell v) as [[z k] fu ou] eqn:Ecell. unfold state in Ez. rewrite Ecell in Ez. cbn in Ez, Hf, Ho. subst z fu ou.
  cbn. set (c := TaskCell.mkCell _ _ _). pose proof (Hg (set_cell c v) ltac:(done)) as Ht.
  destruct (ts_remove_spec _ root (set_cell c v) (to_wf _ _ _ _ _ Ht) Hr (touched_at _ _ _ _ _ Ht Hr)) as (s' & -> & W' & C' & A'). cbn.
  eexists. split; [done|]. intros r Hrr. change (store (set_store s' _ _ _)) with s'. rewrite A' by done. destruct (decide (r = root)); [done|].
  by rewrite (to_at _ _ _ _ _ Ht), decide_False.
Qed.
End drive.
End DriveSpec.
