(* ===== verification/WorkerThms.v ===== *)
(** * Worker theorems

    The properties of the worker's cycle over the real task slab: a pass
    returns and loses no wake-up, the drains do exactly what was asked, and
    [block_on] returns when its root has been polled to completion. *)

From S2P Require Import Prelude Words GenKey SlabAlloc SlabFacts SlabThms SlabStore TimerWheel TimerArith TimerOps TimerThms PipId TaskRefId TaskCell TaskSlots WorkerRing RunQueue TaskTree TaskTreeSpec WorkerCycle WorkerInv WorkerPoll WorkerTurn WorkerPass RuntimeDrive DriveThms.
From stdpp Require Import base tactics list numbers sets.

Local Open Scope Z_scope.

Module WorkerThms.
Import TaskSlot RunQueue Family TreeOps ReapSpec PollFrame Worker WorkerInv WorkerPoll WorkerTurn WorkerDrain WorkerTimers WorkerPass Drive DriveSpec.

(** The task slab of a worker. *)
Abbreviation task_slab := (Slab.slab slot).
Abbreviation wshard := (Worker.shard task_slab (Slab.slab Wheel.TimerEntry)).

Lemma slab_new_fresh (w cap : Z) (s0 : task_slab) :
  0 <= cap < 2 ^ 32 -> Slab.new cap = Ret s0 -> ts_wf (w := w) s0 /\ (forall r, ts_at (w := w) s0 r = None) /\ ts_cap (w := w) s0 = Z.to_nat cap.
Proof.
  intros Hcap E. destruct (slab_new_store (V := slot) cap Hcap) as (s & E' & W & Hc & Hv). rewrite E in E'. injection E' as <-.
  split_and!; [exact W| |exact Hc]. intros r. cbn. unfold at_ref. cbn. by rewrite Hv.
Qed.

Lemma fresh_spare (w : Z) (s0 : task_slab) n :
  ts_wf (w := w) s0 -> (forall r, ts_at (w := w) s0 r = None) -> (n <= ts_cap (w := w) s0)%nat -> spare (w := w) s0 n.
Proof.
  intros W Hn Hle l _ Hl. destruct l as [|r l]; [done|]. apply Forall_cons in Hl as [[_ [v Hv]] _]. by rewrite Hn in Hv.
Qed.

(** The root of a fresh shard is driving. *)
Lemma boot (w cap now0 : Z) (s0 : task_slab) :
  WorkerId.wf w -> 1 <= cap < 2 ^ 32 -> 0 <= now0 -> Slab.new cap = Ret s0 ->
  exists sh0 root sh1, shard_new s0 now0 cap = Ret sh0 /\ spawn_root (w := w) sh0 = Ret (root, sh1) /\
    Wheel.current_tick (timer sh1) = now0 /\ ref_of w root /\ (exists kids, ready (w := w) sh1 [root] kids) /\
    forall n, (1 + 64 * n <= Z.to_nat cap)%nat -> driving (w := w) sh1 root n.
Proof.
  intros Hw Hcap Hnow E. destruct (slab_new_fresh w cap s0 ltac:(lia) E) as (W & Hn & Hc).
  destruct (shard_new_ready s0 now0 cap W Hn Hnow ltac:(lia)) as (sh0 & E0 & R0 & Es & Eseq & Et).
  pose proof (fresh_spare w s0 (Z.to_nat cap) W Hn ltac:(lia)) as Hsp. rewrite <- Es in Hsp.
  destruct (spawn_root_spec (w := w) sh0 (Z.to_nat cap - 1) R0 Hw) as (root & sh1 & kids1 & E1 & R1 & Hpar & Hsp1 & Hseq1 & Ht1 & Hr & Hc1).
  { rewrite Eseq. lia. }
  { eapply spare_steady_le; [|exact Hsp]. lia. }
  exists sh0, root, sh1. split_and!; try done; [congruence|by exists kids1|]. intros n Hle. split.
  - by exists [root], kids1.
  - split; [done|]. right. by apply (rd_woken _ _ _ R1), list_elem_of_singleton.
  - eapply spare_steady_le; [|exact Hsp1]. lia.
  - rewrite Hseq1, Eseq. lia.
Qed.

(** ** Claims *)

(** C2: No wake-up is lost.  From any ready shard and within the bounds of a
    run, a pass returns without panicking and leaves the shard ready; it polls,
    once each and in this order, the tasks that were queued, the sleeping tasks
    the wake inbox names and the sleeping tasks whose timers are due; and unless
    another task cancels it in that very pass, each of them has its future
    polled (completing or suspending as the future answers), never skipped. *)
Theorem worker_no_lost_wakeup (w : Z) (sh : wshard) l kids wakes now clock progs fuel tfuel :
  ready (w := w) sh l kids -> Forall (ref_of w) wakes -> bounds (w := w) now clock progs fuel tfuel sh ->
  exists o polled sh' l' kids', run_pass (w := w) fuel tfuel now clock wakes progs sh = Ret (o, polled, sh') /\ ready (w := w) sh' l' kids' /\
    NoDup polled.*1 /\
    (exists l1 l2, polled.*1 = l ++ l1 ++ l2 /\
      (forall r, r ∈ l1 <-> r ∈ wakes /\ stt (w := w) (store sh) r = Some TaskState.Sleeping) /\
      (forall r, r ∈ l2 <-> due_timer now (timer sh) r /\ r ∉ wakes /\ stt (w := w) (store sh) r = Some TaskState.Sleeping)) /\
    forall r, r ∈ polled.*1 -> (forall r', r' ∈ polled.*1 -> r ∉ calls (progs r') ≫= cancels) ->
      (r, poll_outcome TaskState.Woken (progs r)) ∈ polled.
Proof.
  intros R Hw B. destruct (run_pass_spec now clock progs fuel tfuel sh l kids wakes R Hw B) as (o & polled & sh' & l' & kids' & E & P).
  exists o, polled, sh', l', kids'. split_and!; [done|..]; apply P.
Qed.

(** C32: What a pass does to the tasks.  A task that is alive before and after
    it, that was not cancelled and that no polled future cancels or joins, ends
    the pass asleep or done, as its future answered, when it was polled, and in
    the state it had otherwise; the tasks queued for the next pass are exactly
    the ones spawned in this one, which did not exist before, are woken, and
    advance the id sequence one by one; only tasks linked under a live parent
    are freed; and all three inboxes are left empty. *)
Theorem worker_pass_effect (w : Z) (sh : wshard) l kids wakes now clock progs fuel tfuel :
  ready (w := w) sh l kids -> Forall (ref_of w) wakes -> bounds (w := w) now clock progs fuel tfuel sh ->
  exists o polled sh' l' kids', run_pass (w := w) fuel tfuel now clock wakes progs sh = Ret (o, polled, sh') /\ ready (w := w) sh' l' kids' /\
    (forall r, ref_of w r -> alive (w := w) (store sh) r -> alive (w := w) (store sh') r ->
      (forall r', r' ∈ polled.*1 -> r ∉ calls (progs r') ≫= moves) -> stt (w := w) (store sh) r <> Some TaskState.Cancelled ->
      stt (w := w) (store sh') r = if decide (r ∈ polled.*1) then Some (after_poll TaskState.Woken (progs r)) else stt (w := w) (store sh) r) /\
    Forall (fun c => ref_of w c /\ ts_at (w := w) (store sh) c = None /\ stt (w := w) (store sh') c = Some TaskState.Woken) l' /\
    pip_seq sh' = pip_seq sh + Z.of_nat (length l') /\
    (forall r, ref_of w r -> alive (w := w) (store sh) r -> ~ alive (w := w) (store sh') r ->
      exists p, ref_of w p /\ alive (w := w) (store sh) p /\ r ∈ kids p) /\
    RingThms.holds 64 (inbox (senv sh')) [] /\ RingThms.holds 64 (reap (senv sh')) [] /\ RingThms.holds 64 (timer_requests (senv sh')) [].
Proof.
  intros R Hw B. destruct (run_pass_spec now clock progs fuel tfuel sh l kids wakes R Hw B) as (o & polled & sh' & l' & kids' & E & P).
  exists o, polled, sh', l', kids'. split_and!; [done|..]; apply P.
Qed.

(** C3: Driving a root future.  A runtime with a task slab of [cap] slots boots
    and spawns its root, which the first pass polls; then, whatever the rounds bring (clock readings that do
    not go back, wakes for this worker's tasks, futures making any frame calls
    except on the root) and as long as the slab has room for the root and for the
    64 spawns each of the rounds can ask for, [block_on] never panics: it returns after exactly the first
    pass that polls the root to completion, with the output taken and the root's
    slot freed, and otherwise goes on driving. *)
Theorem block_on_returns (w cap now0 : Z) (s0 : task_slab) :
  WorkerId.wf w -> 1 <= cap < 2 ^ 32 -> 0 <= now0 -> Slab.new cap = Ret s0 ->
  exists sh0 root sh1, shard_new s0 now0 cap = Ret sh0 /\ spawn_root (w := w) sh0 = Ret (root, sh1) /\
    (forall rd, round_ok (w := w) root now0 rd -> 65 <= cap ->
      exists o polled sh', pass (w := w) rd sh1 = Ret (o, polled, sh') /\ (root, poll_outcome TaskState.Woken (progs rd root)) ∈ polled) /\
    forall rounds, rounds_ok (w := w) root now0 rounds -> (1 + 64 * length rounds <= Z.to_nat cap)%nat ->
      (exists n sh2 sh', block_on (w := w) rounds sh0 = Ret (n, sh') /\ driven (w := w) root rounds sh1 n sh2 /\
         stt (w := w) (store sh2) root = Some TaskState.Done /\ ts_at (w := w) (store sh') root = None) \/
      block_on (w := w) rounds sh0 = OutOfFuel /\ undriven (w := w) root rounds sh1.
Proof.
  intros Hw Hcap Hnow E. destruct (boot w cap now0 s0 Hw Hcap Hnow E) as (sh0 & root & sh1 & E0 & E1 & Ht & Hr & [kids R] & D).
  exists sh0, root, sh1. split_and!; [done|done| |].
  { intros rd Hrd Hc. rewrite <- Ht in Hrd. eapply (pass_polls_root sh1 root [root] kids 0 rd R); try done; [set_solver|]. apply D. lia. }
  intros rounds Hro Hle. rewrite <- Ht in Hro. unfold block_on. rewrite E1. cbn [mbind outcome_bind].
  destruct (drive_loop_spec rounds sh1 root (D _ Hle) Hw Hro) as [(n & sh2 & l & kids' & -> & Hd & R' & Es)|[-> Hu]]; cbn [mbind outcome_bind]; [left|by right].
  destruct (take_root_output_spec sh2 l kids' root R' Hr Es) as (sh' & -> & Ha). exists n, sh2, sh'. split_and!; try done.
  by rewrite Ha, decide_True.
Qed.

(** C34: The spawn drain.  Every pending request whose parent is alive becomes
    a fresh task, woken and appended to the run queue in request order, and
    linked among the children of its parent; existing tasks keep their state
    and their children; the inbox is left empty and the id sequence advances by
    one per child.  With a free slot per request nothing panics. *)
Theorem worker_spawn_drain (w : Z) (s : task_slab) q l kids rg pl seq turns :
  tinv (w := w) s q l kids None -> RingThms.holds 64 rg pl -> Forall (spawn_ok (w := w) (alive (w := w) s)) pl ->
  WorkerId.wf w -> 0 <= seq -> seq + Z.of_nat (length pl) < 2 ^ 64 -> spare (w := w) s (length pl) -> (length pl < turns)%nat ->
  exists s' q' rg' cs kids', drain_spawns (w := w) turns s q rg seq = Ret (s', q', rg', seq + Z.of_nat (length pl)) /\
    RingThms.holds 64 rg' [] /\ tinv (w := w) s' q' (l ++ cs) kids' None /\
    Forall2 (fun p c => c ∈ kids' (SpawnInbox.parent p)) pl cs /\ Forall (fun c => ts_at (w := w) s c = None) cs /\
    (forall r, ref_of w r -> stt (w := w) s' r = if decide (r ∈ cs) then Some TaskState.Woken else stt (w := w) s r) /\
    (forall r, ref_of w r -> alive (w := w) s r -> exists new, kids' r = new ++ kids r /\ forall c, c ∈ new -> c ∈ cs).
Proof.
  intros T Hg Hok Hw Hs0 Hseq Hsp Ht.
  destruct (drain_spawns_spec pl turns s q l kids rg seq T Hg Hok Hw Hs0 Hseq Hsp Ht) as (s' & q' & rg' & cs & kids' & E & Hg' & T' & _ & HF & Hn & Hst & Hgr).
  exists s', q', rg', cs, kids'. split_and!; try done.
  - eapply Forall_impl; [exact Hn|]. by intros c (_ & ? & _).
  - intros r Hr Hl. destruct (Hgr r Hr Hl) as (new & ? & ? & _). by exists new.
Qed.

(** C35: Reaping.  Draining the reap queue frees exactly what it should: taking
    the recorded parents in order, the settled children of each one that still
    has its slot then, and nothing else; in particular every settled child of a
    recorded parent that survives the drain is freed, and such a parent keeps
    exactly its unsettled children, in order.  Every other task is untouched,
    the run queue included, and each freed cell's drop glue finds the halves of
    the cell it drops. *)
Theorem worker_reap_exact (w : Z) (s : task_slab) q l kids rg rl turns fuel :
  tinv (w := w) s q l kids None -> RingThms.holds 64 rg rl -> Forall (ref_of w) rl ->
  (forall r, r ∈ l -> stt (w := w) s r = Some TaskState.Woken) -> (ts_cap (w := w) s < fuel)%nat -> (length rl < turns)%nat ->
  exists s' rg' kids', Reap.reap_settled (w := w) turns fuel s rg = Ret (s', rg') /\ RingThms.holds 64 rg' [] /\
    tinv (w := w) s' q l kids' None /\
    (forall r, ref_of w r -> alive (w := w) s r -> ts_at (w := w) s' r = None <-> r ∈ doomed (w := w) s kids rl []) /\
    (forall r, ref_of w r -> alive (w := w) s r -> ts_at (w := w) s' r = None ->
      settled (w := w) s r = true /\ exists p, p ∈ rl /\ alive (w := w) s p /\ r ∈ kids p) /\
    (forall p r, p ∈ rl -> alive (w := w) s' p -> r ∈ kids p -> settled (w := w) s r = true -> ts_at (w := w) s' r = None) /\
    (forall r, ref_of w r -> alive (w := w) s' r -> stt (w := w) s' r = stt (w := w) s r) /\
    (forall r, ref_of w r -> alive (w := w) s' r ->
      kids' r = if decide (r ∈ rl) then filter (fun c => settled (w := w) s c = false) (kids r) else kids r).
Proof.
  intros T Hg Hrefs Hall Hfuel Ht.
  destruct (reap_settled_spec rl turns fuel s q l kids rg T Hg Hrefs Hall Hfuel Ht) as (s' & rg' & kids' & E & Hg' & T' & _ & [R1 R2 R3] & K).
  assert (Hex : forall r, ref_of w r -> alive (w := w) s r -> ts_at (w := w) s' r = None <-> r ∈ doomed (w := w) s kids rl []).
  { intros r Hr Hl. pose proof (tk_live _ _ _ _ _ K r Hr) as H. destruct (ts_at s' r) as [v|] eqn:Er.
    - split; [done|]. intros Hin. by destruct (proj1 H ltac:(by eexists)).
    - split; [|done]. intros _. destruct (decide (r ∈ doomed (w := w) s kids rl [])) as [|Hn]; [done|]. destruct (proj2 H ltac:(done)). congruence. }
  exists s', rg', kids'. split_and!; try done; [|intros r Hr Hl; by rewrite !stt_body, R2].
  intros p r Hp Hl Hin Hs. assert (Hpr : ref_of w p) by (by apply (proj1 (Forall_forall _ _) Hrefs)).
  destruct (ts_at s' r) as [v|] eqn:Er; [|done]. exfalso.
  assert (Lp : alive (w := w) s p) by (by apply (tk_live _ _ _ _ _ K p Hpr)).
  assert (Hrr : ref_of w r) by (by apply (proj1 (Forall_forall _ _) (fa_refs _ _ _ (t_family _ _ _ _ _ T) p Hpr ltac:(by apply fam_is_Some)))).
  destruct (tk_kids _ _ _ _ _ K p r Hpr Hl) as [_ [Hd|Hk]]; [done|done| |].
  - assert (Hn : ts_at (w := w) s' r = None); [|congruence]. apply Hex; [done| |done]. apply (tk_live _ _ _ _ _ K r Hrr). by eexists.
  - rewrite R3, decide_True in Hk by done. apply list_elem_of_filter in Hk as [Hk _]. congruence.
Qed.

(** ** Witnesses *)

Definition demo_tasks : task_slab := match Slab.new 65 with Ret s => s | _ => Slab.mkSlab [] 0 0 end.

(** A future that spawns a child, arms a timer and stays pending, and one that
    drains its scope and completes. *)
Definition demo_spawner : program := mkProgram [Spawn 0 0 false; ArmTimer 5] false.
Definition demo_finisher : program := mkProgram [DrainScope] true.

Lemma demo_boot :
  exists sh0 root (sh1 : wshard), shard_new demo_tasks 0 65 = Ret sh0 /\ spawn_root (w := 0) sh0 = Ret (root, sh1) /\
    Wheel.current_tick (timer sh1) = 0 /\ ref_of 0 root /\ (exists kids, ready (w := 0) sh1 [root] kids) /\ driving (w := 0) sh1 root 1.
Proof.
  destruct (boot 0 65 0 demo_tasks) as (sh0 & root & sh1 & ? & ? & ? & ? & ? & D); [done|done|done|reflexivity|].
  exists sh0, root, sh1. split_and!; try done. apply D. done.
Qed.

Lemma demo_bounds (sh : wshard) root :
  driving (w := 0) sh root 1 -> Wheel.current_tick (timer sh) = 0 ->
  bounds (w := 0) 0 (fun _ => 0) (fun _ => demo_spawner) (S (ts_cap (w := 0) (store sh))) (WheelThms.advance_fuel (timer sh) 0) sh.
Proof.
  intros [_ _ Hsp Hseq] Ht. split; [done|rewrite Ht; split_and!; done| |exact Hsp|lia|lia].
  intros r. repeat constructor; cbn; lia.
Qed.

Lemma worker_no_lost_wakeup_witness :
  exists (sh : wshard) root o polled sh', run_pass (w := 0) (S (ts_cap (w := 0) (store sh))) (WheelThms.advance_fuel (timer sh) 0) 0 (fun _ => 0) []
      (fun _ => demo_spawner) sh = Ret (o, polled, sh') /\ root ∈ polled.*1.
Proof.
  destruct demo_boot as (sh0 & root & sh1 & _ & _ & Ht & Hr & [kids R] & D).
  destruct (worker_no_lost_wakeup 0 sh1 [root] kids [] 0 (fun _ => 0) (fun _ => demo_spawner) _ _ R ltac:(constructor) (demo_bounds sh1 root D Ht))
    as (o & polled & sh' & l' & kids' & E & _ & _ & (l1 & l2 & Hl & _) & _).
  exists sh1, root, o, polled, sh'. split; [exact E|]. rewrite Hl. set_solver.
Defined.

Lemma worker_pass_effect_witness :
  exists (sh : wshard) o polled sh' (l' : list Z), run_pass (w := 0) (S (ts_cap (w := 0) (store sh))) (WheelThms.advance_fuel (timer sh) 0) 0 (fun _ => 0) []
      (fun _ => demo_spawner) sh = Ret (o, polled, sh') /\ pip_seq sh' = pip_seq sh + Z.of_nat (length l').
Proof.
  destruct demo_boot as (sh0 & root & sh1 & _ & _ & Ht & Hr & [kids R] & D).
  destruct (worker_pass_effect 0 sh1 [root] kids [] 0 (fun _ => 0) (fun _ => demo_spawner) _ _ R ltac:(constructor) (demo_bounds sh1 root D Ht))
    as (o & polled & sh' & l' & kids' & E & _ & _ & _ & Hseq & _).
  exists sh1, o, polled, sh', l'. split; [exact E|exact Hseq].
Defined.

Lemma block_on_returns_witness :
  exists sh0 root (sh1 : wshard), shard_new demo_tasks 0 65 = Ret sh0 /\ spawn_root (w := 0) sh0 = Ret (root, sh1) /\
    ((exists n sh2 sh', block_on (w := 0) [mkRound 0 (fun _ => 0) [] (fun _ => demo_finisher)] sh0 = Ret (n, sh') /\
        driven (w := 0) root [mkRound 0 (fun _ => 0) [] (fun _ => demo_finisher)] sh1 n sh2) \/
     block_on (w := 0) [mkRound 0 (fun _ => 0) [] (fun _ => demo_finisher)] sh0 = OutOfFuel).
Proof.
  destruct (block_on_returns 0 65 0 demo_tasks) as (sh0 & root & sh1 & E0 & E1 & _ & H); [done|done|done|reflexivity|].
  exists sh0, root, sh1. split_and!; [done|done|]. destruct (H [mkRound 0 (fun _ => 0) [] (fun _ => demo_finisher)]) as [(n & sh2 & sh' & E & D & _)|[E _]].
  - split; [|exact I]. split; [split_and!; done|constructor|]. intros r. split; [repeat constructor|]. cbn. apply not_elem_of_nil.
  - cbn. lia.
  - left. by exists n, sh2, sh'.
  - by right.
Defined.

Lemma worker_spawn_drain_witness :
  exists (s : task_slab) q (rg : Ring.ring (SpawnInbox.PendingSpawn slot)) s' q' rg', drain_spawns (w := 0) 2 s q rg 2 = Ret (s', q', rg', 3).
Proof.
  destruct demo_boot as (sh0 & root & sh1 & _ & _ & _ & Hr & [kids R] & D). pose proof (rd_tasks _ _ _ R) as T.
  destruct (RingThms.push_holds 64 6 ltac:(lia) eq_refl (Ring.new 64) [] (SpawnInbox.mkPending root (TaskSlot.new 0 0))) as (rg & _ & Hg & _);
    [eapply (RingThms.ring_holds_new 64 6); done || lia|].
  destruct (worker_spawn_drain 0 (store sh1) (run_queue sh1) [root] kids rg _ 2 2 T Hg) as (s' & q' & rg' & _ & _ & E & _).
  - repeat constructor; cbn; [apply Hr..| |by exists 0, 0, false]. apply (stt_live _ root (t_slots _ _ _ _ _ T) Hr).
    exists TaskState.Woken. apply (rd_woken _ _ _ R). set_solver.
  - done.
  - lia.
  - cbn. lia.
  - eapply spare_steady_le; [|exact (dv_spare _ _ _ D)]. cbn. lia.
  - cbn. lia.
  - by exists (store sh1), (run_queue sh1), rg, s', q', rg'.
Defined.

(** A root asleep with one child that completed. *)
Lemma demo_family : exists (s : task_slab) q kids root child, tinv (w := 0) s q [] kids None /\ ref_of 0 root /\ ref_of 0 child /\
  alive (w := 0) s root /\ stt (w := 0) s root = Some TaskState.Sleeping /\ child ∈ kids root /\ alive (w := 0) s child /\ settled (w := 0) s child = true.
Proof.
  destruct demo_boot as (sh0 & root & sh1 & _ & _ & _ & Hr & [kids R] & D). pose proof (rd_tasks _ _ _ R) as T. pose proof (rd_woken _ _ _ R root ltac:(set_solver)) as Ew.
  destruct (RingThms.push_holds 64 6 ltac:(lia) eq_refl (Ring.new 64) [] (SpawnInbox.mkPending root (TaskSlot.new 0 0))) as (rg & _ & Hg & _);
    [eapply (RingThms.ring_holds_new 64 6); done || lia|].
  destruct (drain_spawns_spec _ 2 (store sh1) (run_queue sh1) [root] kids rg 2 T Hg) as (s & q & rg' & cs & kids' & _ & _ & T1 & _ & HF & Hn & Hst & _).
  { repeat constructor; cbn; [apply Hr..| |by exists 0, 0, false]. apply (stt_live _ root (t_slots _ _ _ _ _ T) Hr). eauto. }
  { done. } { lia. } { cbn. lia. } { eapply spare_steady_le; [|exact (dv_spare _ _ _ D)]. cbn. lia. } { cbn. lia. }
  apply Forall2_cons_inv_l in HF as (c & cs' & Hc & HF & ->). apply Forall2_nil_inv_l in HF as ->. cbn in Hc.
  apply Forall_cons in Hn as [(Hcr & Hnone & _) _]. assert (Hcne : c <> root).
  { intros ->. unfold stt in Ew. by rewrite Hnone in Ew. }
  set (progs := fun r => mkProgram [] (negb (r =? root))).
  destruct (poll_loop_spec (w := 0) (ts_cap (w := 0) s) progs (fun x => is_Some (ts_at (w := 0) s x)) ([root] ++ [c]) (mkEnv s (Ring.new 64) (Ring.new 64) (Ring.new 64) 0) q kids' T1)
    as (outs & e' & q' & _ & _ & T2 & Hsd & _ & _ & _ & Hs').
  { exists [], [], []. split; try apply (RingThms.ring_holds_new 64 6 ltac:(lia) eq_refl); constructor. }
  { done. } { by constructor. } { done. }
  assert (Hs2 : forall r, ref_of 0 r -> stt (w := 0) (tasks e') r = if decide (r ∈ [root] ++ [c]) then (fun st => after_poll st (progs r)) <$> stt (w := 0) s r else stt (w := 0) s r).
  { intros r Hrr. rewrite Hs'; [done|done|]. intros r' _. cbn. apply not_elem_of_nil. }
  assert (Ec : stt (w := 0) (tasks e') c = Some TaskState.Done).
  { rewrite Hs2, decide_True, Hst, decide_True by set_solver. cbn. unfold progs. by rewrite (proj2 (Z.eqb_neq c root) Hcne). }
  assert (Er : stt (w := 0) (tasks e') root = Some TaskState.Sleeping).
  { rewrite Hs2, decide_True, Hst, decide_False by set_solver. rewrite Ew. cbn. unfold progs. by rewrite Z.eqb_refl. }
  exists (tasks e'), q', kids', root, c. pose proof (t_slots _ _ _ _ _ T2) as Hok.
  destruct (stt_Some _ c _ Hok Hcr Ec) as (vc & Evc & Hvc).
  split_and!; try done.
  - apply (stt_live _ root Hok Hr). eauto.
  - unfold alive. rewrite Evc. by eexists.
  - rewrite (settled_at _ _ _ Evc). by destruct (settledb_state vc _ Hvc) as [_ ->].
Qed.

Lemma worker_reap_exact_witness :
  exists (s : task_slab) fuel (rg : Ring.ring Z) s' rg' root child, Reap.reap_settled (w := 0) 2 fuel s rg = Ret (s', rg') /\ RingThms.holds 64 rg [root] /\
    alive (w := 0) s child /\ ts_at (w := 0) s' child = None /\ alive (w := 0) s' root.
Proof.
  destruct demo_family as (s & q & kids & root & child & T & Hr & Hc & Lr & Er & Hin & Lc & Hs).
  destruct (RingThms.push_holds 64 6 ltac:(lia) eq_refl (Ring.new 64) [] root) as (rg & _ & Hg & _);
    [eapply (RingThms.ring_holds_new 64 6); done || lia|].
  destruct (worker_reap_exact 0 s q [] kids rg [root] 2 (S (ts_cap (w := 0) s)) T Hg) as (s' & rg' & kids' & E & _ & _ & Hex & Hfr & Hall & _).
  - by constructor.
  - intros r Hx. by apply elem_of_nil in Hx.
  - lia.
  - cbn. lia.
  - assert (Lr' : alive (w := 0) s' root).
    { unfold alive. destruct (ts_at s' root) eqn:En; [by eexists|]. destruct (Hfr root Hr Lr En) as [Hsr _].
      destruct (stt_Some s root _ (t_slots _ _ _ _ _ T) Hr Er) as (v & Ev & Hv). rewrite (settled_at _ _ _ Ev) in Hsr.
      destruct (settledb_state v _ Hv) as [_ Hb]. congruence. }
    exists s, (S (ts_cap (w := 0) s)), rg, s', rg', root, child. split_and!; try done. apply (Hall root child); set_solver.
Defined.

(** A run: the root spawns a child and sleeps five ticks; the child completes;
    the timer wakes the root, which reaps the child and completes.  Both slots
    are free again. *)
Definition demo_round (t : Z) (child root : program) : round :=
  mkRound t (fun _ => t) [] (fun r => if r =? TaskRef.from_slab 0 (SlabKey.new 0 1) then root else child).

Example demo_run :
  match shard_new (S := task_slab) demo_tasks 0 65 with
  | Ret sh =>
      match block_on (w := 0) [demo_round 0 demo_finisher demo_spawner; demo_round 1 demo_finisher demo_finisher; demo_round 5 demo_finisher demo_finisher] sh with
      | Ret (n, sh) => n = 3%nat /\ Slab.len (store sh) = 0 /\ pip_seq sh = 3
      | _ => False
      end
  | _ => False
  end.
Proof. vm_compute. done. Qed.
End WorkerThms.
