(* ===== verification/LeafFutures.v ===== *)
(** * The futures a task awaits on its worker

    Models the raw task waker (src/crates/kwokka-runtime/src/task/reference/waker.rs
    and src/crates/kwokka-io/src/boundary/seam/waker.rs), the installed poll
    frames (worker/poll/polling.rs), the sleep future (timer/delay/sleeping.rs),
    the cooperative yield (task/cooperative/yielding.rs), the structured scope
    (task/join/scope.rs) and the join handle (task/join/handle.rs).  A wake is
    recorded as the reference it requests.  Each poll acts on the frame installed for its
    worker; the effect on the frame is a sequence of the frame calls
    [WorkerCycle] polls a task with, so that what is proved of a worker there
    holds of tasks that await these futures. *)

From S2P Require Import Prelude GenKey PipId TaskRefId TaskCell TaskSlots WorkerRing SlabStore RunQueue TaskTree TaskTreeSpec TimerWheel SlabAlloc WorkerCycle WorkerInv WorkerPoll WorkerTurn WorkerPass RuntimeDrive DriveThms WorkerThms.
From stdpp Require Import base tactics option numbers list sets.

Local Open Scope Z_scope.

(** ** Wakers *)

Module RawWaker.

(** A [RawWaker]: its data pointer and the address of its table. *)
Record Waker : Type := mkWaker { data : Z; vtable : Z }.
Record WakerBinding : Type := mkBinding { token : Z; worker_id : Z }.

(** [VTABLE] is the address of the runtime's static table. *)
Section table.
Context (VTABLE : Z).

Definition task_ref_to_data (task_ref : Z) : Z := TaskRef.raw task_ref.
Definition data_to_task_ref (data : Z) : Z := TaskRef.from_raw data.
Definition waker_from_task_ref (task_ref : Z) : Waker := mkWaker (task_ref_to_data task_ref) VTABLE.
Definition clone_fn (data : Z) : Waker := mkWaker data VTABLE.
Definition is_task_waker (waker : Waker) : bool := vtable waker =? VTABLE.

Definition decode_for_seam (waker : Waker) : option WakerBinding :=
  if negb (is_task_waker waker) then None else
  let task_ref := data_to_task_ref (data waker) in
  Some (mkBinding (TaskRef.raw task_ref) (TaskRef.worker_id task_ref)).
End table.

(** [WAKER_DECODER]: the first registration stays. *)
Definition decoder : Type := Waker -> option WakerBinding.
Definition register_decoder (current : option decoder) (new : decoder) : option decoder :=
  match current with None => Some new | Some d => Some d end.
Definition decode_waker (current : option decoder) (waker : Waker) : option WakerBinding :=
  match current with None => None | Some decoder => decoder waker end.

End RawWaker.

(** ** Installed frames *)

Module Frames.
Import PollFrame.

Section frames.
Context {S : Type}.

(** A [PollFrame]: the polled task, its first child at poll entry, and the
    shard fields it points at. *)
Record frame : Type := mkFrame { current : Z; first_child : option Z; fenv : env S }.

Definition FRAME_SLOTS : nat := 128.

(** [FRAMES], the wakes scheduled so far and the identifier sequence. *)
Record world : Type := mkWorld { frames : list (option frame); scheduled : list Z; global_seq : Z }.

Definition set_frames x (wd : world) := mkWorld x (scheduled wd) (global_seq wd).
Definition install (wd : world) (worker : Z) (f : frame) : outcome world :=
  match frames wd !! Z.to_nat (WorkerId.raw worker) with
  | Some _ => Ret (set_frames (<[Z.to_nat (WorkerId.raw worker) := Some f]> (frames wd)) wd)
  | None => Panic
  end.
Definition clear (wd : world) (worker : Z) : outcome world :=
  match frames wd !! Z.to_nat (WorkerId.raw worker) with
  | Some _ => Ret (set_frames (<[Z.to_nat (WorkerId.raw worker) := None]> (frames wd)) wd)
  | None => Panic
  end.

(** [with_current]: [f] acts on the installed frame through its pointers. *)
Definition with_current {A} (wd : world) (worker : Z) (f : frame -> outcome (A * env S)) : outcome (option A * world) :=
  match frames wd !! Z.to_nat (WorkerId.raw worker) with
  | None => Panic
  | Some None => Ret (None, wd)
  | Some (Some fr) =>
      '(a, e) ← f fr;
      Ret (Some a, set_frames (<[Z.to_nat (WorkerId.raw worker) := Some (mkFrame (current fr) (first_child fr) e)]> (frames wd)) wd)
  end.

(** [schedule_wake]: the request for a wake of [task_ref]. *)
Definition schedule_wake (task_ref : Z) (wd : world) : world := mkWorld (frames wd) (scheduled wd ++ [task_ref]) (global_seq wd).
Definition wake_by_ref (waker : RawWaker.Waker) (wd : world) : world := schedule_wake (RawWaker.data_to_task_ref (RawWaker.data waker)) wd.

End frames.
Arguments frame : clear implicits.
Arguments mkFrame {S}.
Arguments world : clear implicits.
Arguments mkWorld {S}.
End Frames.

(** ** Sleeping *)

Module Sleep.
Import PollFrame Frames.

Definition TICK_NS : Z := 1000000.
Inductive Poll (A : Type) : Type := Ready (a : A) | Pending.
#[global] Arguments Ready {_} _.
#[global] Arguments Pending {_}.

Record Sleep : Type := mkSleep { delay_ticks : Z; armed : bool }.

(** [u128::div_ceil], then the saturating conversion. *)
Definition div_ceil (a b : Z) : Z := if a mod b =? 0 then a / b else a / b + 1.
Definition sleep (duration_ns : Z) : Sleep := mkSleep (default (2 ^ 64 - 1) (try_from U64 (div_ceil duration_ns TICK_NS))) false.

Section poll.
Context {w : Z} {S : Type} `{!TaskStorage w S} (VTABLE : Z).

Definition poll (this : Sleep) (waker : RawWaker.Waker) (wd : world S) : outcome (Poll unit * Sleep * world S) :=
  if delay_ticks this =? 0 then Ret (Ready tt, this, wd) else
  if armed this then Ret (Ready tt, this, wd) else
  if negb (RawWaker.is_task_waker VTABLE waker) then Panic else
  let task := RawWaker.data_to_task_ref (RawWaker.data waker) in
  match WorkerId.new (TaskRef.worker_id task) with
  | Err _ => Panic
  | Ok worker =>
      '(answer, wd) ← with_current wd worker (fun fr => request_timer (fenv fr) task (delay_ticks this));
      if default false answer
      then Ret (Pending, mkSleep (delay_ticks this) true, wd)
      else Ret (Pending, this, wake_by_ref waker wd)
  end.
End poll.
End Sleep.

(** ** Yielding *)

Module Yield.
Import Frames Sleep.

Record YieldNow : Type := mkYield { has_yielded : bool }.
Definition yield_now : YieldNow := mkYield false.
Definition poll {S} (this : YieldNow) (waker : RawWaker.Waker) (wd : world S) : Poll unit * YieldNow * world S :=
  if has_yielded this then (Ready tt, this, wd) else (Pending, mkYield true, wake_by_ref waker wd).
End Yield.

(** ** Scopes *)

Module Scope.
Import TaskSlot PollFrame Frames Sleep.

Inductive SpawnError : Type := InboxFull | NoActiveFrame.
Inductive Mode : Type := Affine | Stealing.
Definition ROOT : Z := 0.

Section scope.
Context {w : Z} {S : Type} `{!TaskStorage w S} (VTABLE : Z).

Definition enqueue_child (parent worker : Z) (cell : slot) (wd : world S) : outcome (result SpawnError unit * world S) :=
  '(answer, wd) ← with_current wd worker (fun fr => push_spawn (fenv fr) (SpawnInbox.mkPending parent cell));
  Ret (match answer with None => Err NoActiveFrame | Some None => Ok tt | Some (Some _) => Err InboxFull end, wd).

(** The two [Scope::spawn]s: the affine one pins the child. *)
Definition spawn (m : Mode) (parent worker : Z) (wd : world S) : outcome (result SpawnError unit * world S) :=
  let '(pip, g) := Pip.detached (global_seq wd) in
  let wd := mkWorld (frames wd) (scheduled wd) g in
  let cell := TaskSlot.new pip ROOT in
  enqueue_child parent worker (match m with Affine => pinned true cell | Stealing => cell end) wd.

(** The builder closure: what it does with each spawn's answer, and its value. *)
Inductive builder (T : Type) : Type := Return (v : T) | Spawning (k : result SpawnError unit -> builder T).
#[global] Arguments Return {_} _.
#[global] Arguments Spawning {_} _.

Fixpoint run_builder {T} (m : Mode) (parent worker : Z) (b : builder T) (wd : world S) : outcome (T * world S) :=
  match b with
  | Return v => Ret (v, wd)
  | Spawning k => '(answer, wd) ← spawn m parent worker wd; run_builder m parent worker (k answer) wd
  end.

Record ScopeFuture (T : Type) : Type := mkScope { build : option (builder T); value : option T }.
#[global] Arguments mkScope {_} _ _.
#[global] Arguments build {_} _.
#[global] Arguments value {_} _.

Definition scope {T} (b : builder T) : ScopeFuture T := mkScope (Some b) None.

Definition poll {T} (fuel : nat) (m : Mode) (this : ScopeFuture T) (waker : RawWaker.Waker) (wd : world S)
    : outcome (Poll T * ScopeFuture T * world S) :=
  if negb (RawWaker.is_task_waker VTABLE waker) then Panic else
  let parent := RawWaker.data_to_task_ref (RawWaker.data waker) in
  match WorkerId.new (TaskRef.worker_id parent) with
  | Err _ => Panic
  | Ok worker =>
      match build this with
      | Some b =>
          '(v, wd) ← run_builder m parent worker b wd;
          Ret (Pending, mkScope None (Some v), wake_by_ref waker wd)
      | None =>
          '(settled, wd) ← with_current wd worker (fun fr =>
             settled ← are_children_all_settled fuel (tasks (fenv fr)) (first_child fr);
             if settled : bool then '(_, e) ← push_reap (fenv fr) parent; Ret (true, e) else Ret (false, fenv fr));
          if negb (default false settled) then Ret (Pending, this, wake_by_ref waker wd) else
          match value this with
          | None => Panic
          | Some v => Ret (Ready v, mkScope None None, wd)
          end
      end
  end.
End scope.
End Scope.

(** ** Join handles *)

Module Handle.
Import PollFrame Frames.

Record TaskHandle : Type := mkHandle { task_ref : Z; pip : Z }.

Section handle.
Context {w : Z} {S : Type} `{!TaskStorage w S}.

Definition cancel (self : TaskHandle) (wd : world S) : outcome (world S) :=
  match WorkerId.new (TaskRef.worker_id (task_ref self)) with
  | Err _ => Ret wd
  | Ok worker => '(_, wd) ← with_current wd worker (fun fr => cancel_child (fenv fr) (current fr) (task_ref self)); Ret wd
  end.

Definition poll (self : TaskHandle) (wd : world S) : outcome (JoinPoll * world S) :=
  match WorkerId.new (TaskRef.worker_id (task_ref self)) with
  | Err _ => Ret (Pending, wd)
  | Ok worker =>
      '(answer, wd) ← with_current wd worker (fun fr => join_child (fenv fr) (current fr) (task_ref self));
      Ret (default Pending answer, wd)
  end.
End handle.
End Handle.

(** ** Theorems *)

Module LeafThms.
Import TaskSlot Family TreeOps ReapSpec PollFrame Worker WorkerInv WorkerPoll WorkerTurn WorkerPass Drive WorkerThms Frames Sleep Scope.

Lemma ref_worker_new w r : ref_of w r -> WorkerId.new (TaskRef.worker_id r) = Ok w /\ 0 <= w.
Proof.
  intros (Hw & i & g & Hi & Hg & _ & ->). destruct (TaskRef.from_slab_fields w i g Hw Hi Hg) as (_ & -> & _).
  unfold WorkerId.wf in Hw. unfold WorkerId.new. rewrite (proj2 (Z.ltb_ge _ _)) by lia. split; [done|lia].
Qed.

Section leaf.
Context {w : Z} {S : Type} `{!TaskStorage w S} (VTABLE : Z).
Context (r : Z) (Hr : ref_of w r).
Implicit Types (wd : world S) (e : env S) (v : slot).

(** [wd] has the frame of [r]'s poll installed for its worker. *)
Definition hosts wd (fc : option Z) e : Prop := frames wd !! Z.to_nat w = Some (Some (mkFrame r fc e)).
(** Nothing but this worker's frame changed. *)
Definition local wd wd' : Prop := forall i, i <> Z.to_nat w -> frames wd' !! i = frames wd !! i.

Lemma with_current_hosts {A} wd fc e (f : frame S -> outcome (A * env S)) a e' : hosts wd fc e -> f (mkFrame r fc e) = Ret (a, e') ->
  exists wd', with_current wd w f = Ret (Some a, wd') /\ hosts wd' fc e' /\ local wd wd' /\ scheduled wd' = scheduled wd /\ global_seq wd' = global_seq wd.
Proof.
  intros Hh Hf. unfold with_current, WorkerId.raw. rewrite Hh, Hf. cbn [mbind outcome_bind]. eexists. split; [done|]. unfold hosts, local. cbn.
  split; [|split; [intros i Hi; by rewrite list_lookup_insert_ne|done]].
  apply list_lookup_insert_eq. by eapply lookup_lt_Some.
Qed.

(** *** Spawning *)

Definition pins (m : Mode) : bool := match m with Affine => true | Stealing => false end.
Definition child (m : Mode) (g : Z) : SpawnInbox.PendingSpawn slot := SpawnInbox.mkPending r (pinned (pins m) (TaskSlot.new (Pip.detached g).1 ROOT)).

(** The builder against an inbox that holds [pl]: its value, the inbox after
    it, the identifier sequence after it. *)
Fixpoint spec_builder {T} (m : Mode) (g : Z) (pl : list (SpawnInbox.PendingSpawn slot)) (b : builder T) : T * list (SpawnInbox.PendingSpawn slot) :=
  match b with
  | Return x => (x, pl)
  | Spawning k =>
      if Z.of_nat (length pl) <? SpawnInbox.SPAWN_INBOX_CAPACITY
      then spec_builder m (Pip.detached g).2 (pl ++ [child m g]) (k (Ok tt))
      else spec_builder m (Pip.detached g).2 pl (k (Err InboxFull))
  end.

(** The frame calls a builder makes. *)
Fixpoint spawn_calls {T} (m : Mode) (g : Z) (pl : list (SpawnInbox.PendingSpawn slot)) (b : builder T) : list call :=
  match b with
  | Return _ => []
  | Spawning k =>
      Spawn (Pip.detached g).1 ROOT (pins m) ::
      (if Z.of_nat (length pl) <? SpawnInbox.SPAWN_INBOX_CAPACITY
       then spawn_calls m (Pip.detached g).2 (pl ++ [child m g]) (k (Ok tt))
       else spawn_calls m (Pip.detached g).2 pl (k (Err InboxFull)))
  end.

Lemma push_spawn_holds e pl x : RingThms.holds SpawnInbox.SPAWN_INBOX_CAPACITY (inbox e) pl ->
  let room := Z.of_nat (length pl) <? SpawnInbox.SPAWN_INBOX_CAPACITY in
  exists e', push_spawn e x = Ret (if room then None else Some x, e') /\ tasks e' = tasks e /\ reap e' = reap e /\ timer_requests e' = timer_requests e /\
    RingThms.holds SpawnInbox.SPAWN_INBOX_CAPACITY (inbox e') (if room then pl ++ [x] else pl).
Proof.
  intros Hh room. destruct (RingThms.push_holds 64 6 ltac:(lia) eq_refl (inbox e) pl x Hh) as (r' & E & H' & _).
  unfold push_spawn, SpawnInbox.push, SpawnInbox.SPAWN_INBOX_CAPACITY in *. rewrite E. cbn [mbind outcome_bind]. eexists. split; [done|]. done.
Qed.

Lemma run_builder_spec {T} m fuel fc (b : builder T) : forall wd e pl, hosts wd fc e -> RingThms.holds SpawnInbox.SPAWN_INBOX_CAPACITY (inbox e) pl ->
  exists wd' e', run_builder m r w b wd = Ret ((spec_builder m (global_seq wd) pl b).1, wd') /\ hosts wd' fc e' /\ local wd wd' /\ scheduled wd' = scheduled wd /\
    RingThms.holds SpawnInbox.SPAWN_INBOX_CAPACITY (inbox e') (spec_builder m (global_seq wd) pl b).2 /\ tasks e' = tasks e /\
    run_calls fuel r fc e (spawn_calls m (global_seq wd) pl b) = Ret e'.
Proof.
  induction b as [x|k IH]; intros wd e pl Hh Hp; [by exists wd, e|]. cbn [run_builder spec_builder spawn_calls].
  destruct (Pip.detached (global_seq wd)) as [pip g] eqn:Eg. unfold spawn. rewrite Eg. cbn [fst snd].
  set (c := SpawnInbox.mkPending r (pinned (pins m) (TaskSlot.new pip ROOT))).
  destruct (push_spawn_holds e pl c Hp) as (e1 & E1 & Ht & _ & _ & Hp1). cbn zeta in E1, Hp1.
  replace (match m with Affine => pinned true (TaskSlot.new pip ROOT) | Stealing => TaskSlot.new pip ROOT end) with (pinned (pins m) (TaskSlot.new pip ROOT)) by (by destruct m).
  unfold enqueue_child. fold c.
  destruct (with_current_hosts (mkWorld (frames wd) (scheduled wd) g) fc e (fun fr => push_spawn (fenv fr) c) _ e1 Hh E1) as (wd1 & E & Hh1 & Hl1 & Hs1 & Hg1).
  rewrite E. cbn [mbind outcome_bind]. change (global_seq (mkWorld (frames wd) (scheduled wd) g)) with g in Hg1.
  assert (Hc : c = child m (global_seq wd)) by (unfold child; by rewrite Eg).
  set (room := Z.of_nat (length pl) <? SpawnInbox.SPAWN_INBOX_CAPACITY) in *.
  destruct (IH (if room then Ok tt else Err InboxFull) wd1 e1 _ Hh1 Hp1) as (wd2 & e2 & E2 & Hh2 & Hl2 & Hs2 & Hp2 & Ht2 & Hr2).
  rewrite Hg1 in *. rewrite <- Hc. exists wd2, e2. split_and!; [|done|intros i Hi; by rewrite Hl2, Hl1|by rewrite Hs2, Hs1| |by rewrite Ht2, Ht|].
  all: destruct room; cbn [run_calls run_call]; fold c; rewrite ?E1; done.
Qed.

(** *** Scopes *)

Definition waker : RawWaker.Waker := RawWaker.waker_from_task_ref VTABLE r.

Lemma waker_is_task : RawWaker.is_task_waker VTABLE waker = true.
Proof. apply Z.eqb_refl. Qed.

Lemma scope_first_poll {T} m fuel fc (b : builder T) wd e pl : hosts wd fc e -> RingThms.holds SpawnInbox.SPAWN_INBOX_CAPACITY (inbox e) pl ->
  let '(x, pl') := spec_builder m (global_seq wd) pl b in
  exists wd' e', Scope.poll VTABLE fuel m (scope b) waker wd = Ret (Pending, mkScope None (Some x), wd') /\ hosts wd' fc e' /\ local wd wd' /\
    scheduled wd' = scheduled wd ++ [r] /\ RingThms.holds SpawnInbox.SPAWN_INBOX_CAPACITY (inbox e') pl' /\ tasks e' = tasks e /\
    run_calls fuel r fc e (spawn_calls m (global_seq wd) pl b) = Ret e'.
Proof.
  intros Hh Hp. destruct (run_builder_spec m fuel fc b wd e pl Hh Hp) as (wd' & e' & E & Hh' & Hl & Hs & Hp' & Ht & Hr').
  destruct (spec_builder _ _ _ b) as [x pl']. unfold Scope.poll. rewrite waker_is_task. cbn [negb].
  change (RawWaker.data_to_task_ref (RawWaker.data waker)) with r. rewrite (proj1 (ref_worker_new w r Hr)). cbn [build scope]. rewrite E. cbn [mbind outcome_bind].
  eexists _, e'. split; [done|]. split_and!; try done. unfold wake_by_ref. cbn. by rewrite Hs.
Qed.

(** The poll of [r] finds its frame, its children listed from the frame's
    first child; [done] says whether they all settled. *)
Definition visit (fuel : nat) wd (done : bool) : Prop :=
  exists q l kids live v e, hosts wd (TaskSlot.first_child v) e /\ polling q l kids r live v e /\ (ts_cap (tasks e) <= fuel)%nat /\
    done = forallb (settled (tasks e)) (kids r).

Lemma drain_scope_polling q l kids live v e fuel : polling q l kids r live v e -> (ts_cap (tasks e) <= fuel)%nat ->
  are_children_all_settled fuel (tasks e) (TaskSlot.first_child v) = Ret (forallb (settled (tasks e)) (kids r)) /\
  exists room e', push_reap e r = Ret (room, e') /\ tasks e' = tasks e /\ polling q l kids r live v e'.
Proof.
  intros P Hfuel. pose proof P as [P1 P2 (pl & rl & tl & [G1 G2 G3 G4 G5 G6]) P4].
  assert (Lr : is_Some (ts_at (tasks e) r)) by eauto. pose proof (t_family _ _ _ _ _ P1) as Hf. split.
  - apply all_settled_total; [apply P1|apply P1| | |].
    + apply (fa_refs _ _ _ Hf r Hr). by apply fam_is_Some.
    + apply (fa_chain _ _ _ Hf r _ (next_sibling v) Hr). unfold fam. by rewrite P2.
    + pose proof (kids_bound _ _ r (t_wf _ _ _ _ _ P1) Hf Hr Lr). lia.
  - unfold push_reap, ReapQueue.push. destruct (push_ring (reap e) rl r (ref_of w)) as (room & r' & rl' & E & G' & GP'); try done.
    change ReapQueue.REAP_QUEUE_CAPACITY with 64. rewrite E. cbn. eexists _, _. split; [done|]. split; [done|].
    split; cbn; [done|done| |done]. by exists pl, rl', tl.
Qed.

Lemma scope_later_poll {T} m fuel (x : T) wd done : visit fuel wd done ->
  exists wd' e e' fc, Scope.poll VTABLE fuel m (mkScope None (Some x)) waker wd =
      Ret (if done then (Ready x, mkScope None None, wd') else (Pending, mkScope None (Some x), wd')) /\
    hosts wd fc e /\ hosts wd' fc e' /\ local wd wd' /\ scheduled wd' = scheduled wd ++ (if done then [] else [r]) /\ tasks e' = tasks e /\
    run_calls fuel r fc e [DrainScope] = Ret e'.
Proof.
  intros (q & l & kids & live & v & e & Hh & P & Hfuel & ->). destruct (drain_scope_polling _ _ _ _ _ _ _ P Hfuel) as (Ha & room & e' & Ep & Ht & _).
  unfold Scope.poll. rewrite waker_is_task. cbn [negb build].
  change (RawWaker.data_to_task_ref (RawWaker.data waker)) with r. rewrite (proj1 (ref_worker_new w r Hr)).
  match goal with |- context [with_current wd w ?f] => set (drain := f) end.
  assert (Ed : drain (mkFrame r (TaskSlot.first_child v) e) = Ret (forallb (settled (tasks e)) (kids r), if forallb (settled (tasks e)) (kids r) then e' else e)).
  { unfold drain. cbn [fenv Frames.first_child]. rewrite Ha. destruct (forallb _ _); cbn [mbind outcome_bind]; [by rewrite Ep|done]. }
  destruct (with_current_hosts wd _ e drain _ _ Hh Ed) as (wd' & -> & Hh' & Hl & Hs & _).
  destruct (forallb _ _); cbn; eexists _, e, _, (TaskSlot.first_child v); (split; [done|]); unfold wake_by_ref; cbn; rewrite ?Ha, ?Hs; cbn [mbind outcome_bind]; rewrite ?Ep; split_and!; try done; by rewrite app_nil_r.
Qed.

(** Polling a scope at one visit after another until it is ready: the visit
    that made it ready and its value. *)
Fixpoint await {T} (fuel : nat) (m : Mode) (this : ScopeFuture T) (n : nat) (wds : list (world S)) : outcome (option (nat * T)) :=
  match wds with
  | [] => Ret None
  | wd :: wds =>
      '(answer, this, _) ← Scope.poll VTABLE fuel m this waker wd;
      match answer with Ready x => Ret (Some (n, x)) | Pending => await fuel m this (Datatypes.S n) wds end
  end.

Fixpoint first_done (n : nat) (ds : list bool) : option nat :=
  match ds with [] => None | d :: ds => if d then Some n else first_done (Datatypes.S n) ds end.

Lemma await_spec {T} fuel m (x : T) wds ds : Forall2 (visit fuel) wds ds -> forall n,
  await fuel m (mkScope None (Some x)) n wds = Ret ((fun i => (i, x)) <$> first_done n ds).
Proof.
  induction 1 as [|wd d wds ds Hv _ IH]; intros n; cbn; [done|].
  destruct (scope_later_poll m fuel x wd d Hv) as (wd' & _ & _ & _ & -> & _). destruct d; [done|]. cbn. apply IH.
Qed.

(** C33: A scope awaits its children.  On its first poll the builder
    runs once: the children whose spawn was accepted, and no others, enter the
    worker's inbox under the polled task, the task is scheduled again and the
    answer is [Pending].  Polled after that at any sequence of visits, each
    finding the task's frame over a well formed shard, the scope answers the
    builder's value exactly at the first visit where every child of the task
    has settled, and never before; each visit that answers [Pending] schedules
    another, and each poll is one or more of the frame calls a worker's pass
    is proved for. *)
Theorem scope_awaits_children {T} m fuel fc (b : builder T) wd e pl wds ds :
  hosts wd fc e -> RingThms.holds SpawnInbox.SPAWN_INBOX_CAPACITY (inbox e) pl -> Forall2 (visit fuel) wds ds ->
  let '(x, pl') := spec_builder m (global_seq wd) pl b in
  (exists wd' e', Scope.poll VTABLE fuel m (scope b) waker wd = Ret (Pending, mkScope None (Some x), wd') /\ hosts wd' fc e' /\ local wd wd' /\
    scheduled wd' = scheduled wd ++ [r] /\ RingThms.holds SpawnInbox.SPAWN_INBOX_CAPACITY (inbox e') pl' /\
    run_calls fuel r fc e (spawn_calls m (global_seq wd) pl b) = Ret e') /\
  await fuel m (scope b) 0 (wd :: wds) = Ret ((fun i => (i, x)) <$> first_done 1 ds) /\
  (forall (i : nat) (wd0 : world S) (d : bool), wds !! i = Some wd0 -> ds !! i = Some d ->
    exists wd' e0 e' fc0, Scope.poll VTABLE fuel m (mkScope None (Some x)) waker wd0 =
        Ret (if d then (Ready x, mkScope None None, wd') else (Pending, mkScope None (Some x), wd')) /\
      hosts wd0 fc0 e0 /\ hosts wd' fc0 e' /\ scheduled wd' = scheduled wd0 ++ (if d then [] else [r]) /\
      run_calls fuel r fc0 e0 [DrainScope] = Ret e').
Proof.
  intros Hh Hp Hv. pose proof (scope_first_poll m fuel fc b wd e pl Hh Hp) as H1. destruct (spec_builder _ _ _ b) as [x pl'].
  destruct H1 as (wd' & e' & E & Hh' & Hl & Hs & Hp' & _ & Hc). split_and!.
  - exists wd', e'. by split_and!.
  - cbn [await]. rewrite E. cbn [mbind outcome_bind]. by apply await_spec.
  - intros i wd0 d Hi Hd. destruct (scope_later_poll m fuel x wd0 d) as (wd1 & e0 & e1 & fc0 & ? & ? & ? & _ & ? & _ & ?); [|by exists wd1, e0, e1, fc0].
    by eapply (Forall2_lookup_lr (visit fuel)).
Qed.

(** *** Sleeping *)

Lemma sleep_first_poll fuel fc d wd e tl : hosts wd fc e -> RingThms.holds TimerInbox.TIMER_INBOX_CAPACITY (timer_requests e) tl -> d <> 0 ->
  let room := Z.of_nat (length tl) <? TimerInbox.TIMER_INBOX_CAPACITY in
  exists wd' e', Sleep.poll VTABLE (mkSleep d false) waker wd = Ret (Pending, mkSleep d room, wd') /\ hosts wd' fc e' /\ local wd wd' /\
    scheduled wd' = scheduled wd ++ (if room then [] else [r]) /\
    RingThms.holds TimerInbox.TIMER_INBOX_CAPACITY (timer_requests e') (if room then tl ++ [TimerInbox.mkRequest r d] else tl) /\
    run_calls fuel r fc e [ArmTimer d] = Ret e'.
Proof.
  intros Hh Ht Hd room. destruct (RingThms.push_holds 64 6 ltac:(lia) eq_refl (timer_requests e) tl (TimerInbox.mkRequest r d) Ht) as (t' & E & H' & _).
  assert (Er : exists e', request_timer e r d = Ret (room, e') /\ timer_requests e' = t').
  { unfold request_timer, TimerInbox.push. change TimerInbox.TIMER_INBOX_CAPACITY with 64. rewrite E. cbn. unfold room.
    change TimerInbox.TIMER_INBOX_CAPACITY with 64. case_match; by eexists. }
  destruct Er as (e' & Er & Et). unfold Sleep.poll. cbn [delay_ticks armed]. rewrite (proj2 (Z.eqb_neq d 0)) by done. rewrite waker_is_task. cbn [negb].
  change (RawWaker.data_to_task_ref (RawWaker.data waker)) with r. rewrite (proj1 (ref_worker_new w r Hr)).
  destruct (with_current_hosts wd fc e (fun fr => request_timer (fenv fr) r d) room e' Hh Er) as (wd' & -> & Hh' & Hl & Hs & _).
  cbn [mbind outcome_bind default]. rewrite <- Et in H'. cbn [run_calls run_call]. rewrite Er.
  unfold room, TimerInbox.TIMER_INBOX_CAPACITY in *. destruct (Z.of_nat (length tl) <? 64); cbn; eexists _, e'; (split; [done|]);
    unfold wake_by_ref; cbn; rewrite ?Hs; split_and!; try done; by rewrite app_nil_r.
Qed.

(** A sleep asks for no less than its duration, the rounding is
    less than one tick, and the longest durations saturate.  Its first poll
    requests that many ticks for the polled task unless the worker's timer
    inbox is full, when it asks to be polled again; and once it is armed,
    whatever polls it next finds it ready. *)
Theorem sleep_requests_duration fuel fc ns wd e tl :
  hosts wd fc e -> RingThms.holds TimerInbox.TIMER_INBOX_CAPACITY (timer_requests e) tl -> 0 < ns ->
  let d := delay_ticks (sleep ns) in
  let room := Z.of_nat (length tl) <? TimerInbox.TIMER_INBOX_CAPACITY in
  (1 <= d < 2 ^ 64 /\ (ns <= d * TICK_NS /\ (d - 1) * TICK_NS < ns \/ d = 2 ^ 64 - 1 /\ d * TICK_NS < ns)) /\
  exists wd' e', Sleep.poll VTABLE (sleep ns) waker wd = Ret (Pending, mkSleep d room, wd') /\ hosts wd' fc e' /\ local wd wd' /\
    scheduled wd' = scheduled wd ++ (if room then [] else [r]) /\
    RingThms.holds TimerInbox.TIMER_INBOX_CAPACITY (timer_requests e') (if room then tl ++ [TimerInbox.mkRequest r d] else tl) /\
    run_calls fuel r fc e [ArmTimer d] = Ret e'.
Proof.
  intros Hh Ht Hns d room.
  assert (Hd : 1 <= d < 2 ^ 64 /\ (ns <= d * TICK_NS /\ (d - 1) * TICK_NS < ns \/ d = 2 ^ 64 - 1 /\ d * TICK_NS < ns)).
  { unfold d, sleep, div_ceil, try_from, TICK_NS. cbn [delay_ticks]. pose proof (Z.div_mod ns 1000000 ltac:(lia)). pose proof (Z.mod_pos_bound ns 1000000 ltac:(lia)).
    destruct (Z.eqb_spec (ns mod 1000000) 0); destruct (Z.ltb_spec (ns / 1000000) (2 ^ 64)), (Z.ltb_spec (ns / 1000000 + 1) (2 ^ 64)); unfold default, id; lia. }
  split; [done|]. apply (sleep_first_poll fuel fc d wd e tl Hh Ht). lia.
Qed.

(** An armed sleep answers [Ready] to any poll, whatever woke its task: the
    deadline is not looked at. *)
Theorem sleep_ready_on_any_wake d wd wk : Sleep.poll VTABLE (mkSleep d true) wk wd = Ret (Ready tt, mkSleep d true, wd).
Proof. unfold Sleep.poll. cbn. by case_match. Qed.

(** *** Join handles *)

(** Within a poll of [r], cancelling and joining a handle act as the frame's
    calls. *)
Theorem handle_is_frame_call fuel q l kids live v wd e h :
  hosts wd (TaskSlot.first_child v) e -> polling q l kids r live v e -> ref_of w (Handle.task_ref h) -> (ts_cap (tasks e) <= fuel)%nat ->
  (exists wd' e', Handle.cancel h wd = Ret wd' /\ hosts wd' (TaskSlot.first_child v) e' /\ polling q l kids r live v e' /\
    run_calls fuel r (TaskSlot.first_child v) e [CancelChild (Handle.task_ref h)] = Ret e') /\
  (exists j wd' e', Handle.poll h wd = Ret (j, wd') /\ hosts wd' (TaskSlot.first_child v) e' /\ polling q l kids r live v e' /\
    run_calls fuel r (TaskSlot.first_child v) e [JoinChild (Handle.task_ref h)] = Ret e').
Proof.
  intros Hh P Hc Hf. set (c := Handle.task_ref h) in *. split.
  - destruct (cancel_child_polling q l kids r Hr live v e c P ltac:(by right)) as (bb & e' & E & P' & _).
    destruct (with_current_hosts wd (TaskSlot.first_child v) e (fun fr => cancel_child (fenv fr) (current fr) c) bb e' Hh E) as (wd' & Ew & Hh' & _).
    exists wd', e'. unfold Handle.cancel. fold c. rewrite (proj1 (ref_worker_new w c Hc)), Ew. cbn [mbind outcome_bind]. split_and!; try done. cbn. by rewrite E.
  - destruct (join_child_polling q l kids r Hr live v e c P ltac:(by right)) as (j & e' & E & P' & _).
    destruct (with_current_hosts wd (TaskSlot.first_child v) e (fun fr => join_child (fenv fr) (current fr) c) j e' Hh E) as (wd' & Ew & Hh' & _).
    exists j, wd', e'. unfold Handle.poll. fold c. rewrite (proj1 (ref_worker_new w c Hc)), Ew. cbn [mbind outcome_bind]. split_and!; try done. cbn. by rewrite E.
Qed.

(** *** Wakers *)

(** The seam decodes a task's waker, and a clone of it, to the task and its
    worker; it decodes nothing else. *)
Theorem waker_decodes wk : RawWaker.decode_for_seam VTABLE waker = Some (RawWaker.mkBinding r w) /\
  RawWaker.clone_fn VTABLE (RawWaker.data waker) = waker /\
  (RawWaker.vtable wk <> VTABLE -> RawWaker.decode_for_seam VTABLE wk = None).
Proof.
  split_and!; [|done|].
  - unfold RawWaker.decode_for_seam. rewrite waker_is_task. cbn [negb]. change (RawWaker.data_to_task_ref (RawWaker.data waker)) with r.
    destruct (ref_worker_new w r Hr) as [Hw H0]. unfold WorkerId.new in Hw. case_match; naive_solver.
  - intros Hn. unfold RawWaker.decode_for_seam, RawWaker.is_task_waker. by rewrite (proj2 (Z.eqb_neq _ _)).
Qed.

End leaf.

(** *** Witnesses *)

(** A builder that spawns two children and counts those accepted. *)
Definition demo_builder : builder nat :=
  Spawning (fun a => Spawning (fun b => Return (length (omap (fun x => match x with Ok _ => Some tt | Err _ => None end) [a; b])))).
Definition demo_world (f : frame task_slab) : world task_slab := mkWorld (Some f :: replicate (Nat.pred FRAME_SLOTS) None) [] 0.

(** The root booted in the demo shard has no child. *)
Lemma demo_childless : forall sh0 root (sh1 : wshard), shard_new demo_tasks 0 65 = Ret sh0 -> spawn_root (w := 0) sh0 = Ret (root, sh1) ->
  TaskSlot.first_child <$> ts_at (w := 0) (store sh1) root = Some None.
Proof.
  assert (H : (match shard_new demo_tasks 0 65 with
               | Ret sh0 => match spawn_root (w := 0) sh0 with Ret (root, sh1) => TaskSlot.first_child <$> ts_at (w := 0) (store sh1) root | _ => None end
               | _ => None end) = Some None) by (vm_compute; reflexivity).
  intros sh0 root sh1 E0 E1. by rewrite E0, E1 in H.
Qed.

Lemma demo_visit : exists (root : Z) (v : slot) (e : env task_slab) pl rl tl, ref_of 0 root /\
  hosts (w := 0) root (demo_world (mkFrame root (TaskSlot.first_child v) e)) (TaskSlot.first_child v) e /\
  WorkerPoll.rings (w := 0) (alive (w := 0) (tasks e)) e pl rl tl /\
  visit (w := 0) root (ts_cap (w := 0) (tasks e)) (demo_world (mkFrame root (TaskSlot.first_child v) e)) true.
Proof.
  destruct demo_boot as (sh0 & root & sh1 & E0 & E1 & _ & Hr & [kids R] & D). destruct (pop_tinv _ _ _ _ _ (rd_tasks _ _ _ R)) as (q' & st & _ & T & _ & Es & _).
  pose proof (demo_childless sh0 root sh1 E0 E1) as Hc.
  destruct (ts_at (w := 0) (store sh1) root) as [v|] eqn:Ev; [|done]. injection Hc as Hc.
  assert (Hk : kids root = []).
  { pose proof (fa_chain _ _ _ (t_family _ _ _ _ _ T) root (TaskSlot.first_child v) (next_sibling v) Hr) as Hch. rewrite Hc in Hch.
    unfold fam in Hch. rewrite Ev in Hch. cbn in Hch. rewrite Hc in Hch. specialize (Hch eq_refl). by destruct (kids root); [|destruct Hch]. }
  destruct (rd_rings _ _ _ R) as (pl & rl & tl & G).
  exists root, v, (senv sh1), pl, rl, tl. split; [done|]. split; [done|]. split; [exact G|].
  exists q', [], kids, (alive (w := 0) (store sh1)), v, (senv sh1). split; [done|]. split; [|by rewrite Hk].
  split; [exact T|exact Ev|by exists pl, rl, tl|done].
Qed.

Lemma scope_awaits_children_witness : exists (root : Z) (wd : world task_slab) fuel k,
  await (w := 0) 7 root fuel Affine (scope demo_builder) 0 [wd; wd] = Ret (Some (1%nat, k)).
Proof.
  destruct demo_visit as (root & v & e & pl & rl & tl & Hr & Hh & G & Hv).
  pose proof (scope_awaits_children 7 root Hr Affine _ _ demo_builder _ e pl _ [true] Hh (g_inbox _ _ _ _ _ G) ltac:(by repeat constructor)) as H.
  destruct (spec_builder _ _ _ _ demo_builder) as [x pl']. destruct H as (_ & E & _).
  eexists root, _, _, x. exact E.
Defined.

Lemma sleep_requests_duration_witness : exists (root : Z) (wd wd' : world task_slab) room,
  Sleep.poll 7 (sleep 1500000) (waker 7 root) wd = Ret (Pending, mkSleep 2 room, wd').
Proof.
  destruct demo_visit as (root & v & e & pl & rl & tl & Hr & Hh & G & _).
  destruct (sleep_requests_duration 7 root Hr 0 _ 1500000 _ e tl Hh (g_timers _ _ _ _ _ G) ltac:(lia)) as (_ & wd' & e' & E & _).
  eexists root, _, wd', _. exact E.
Defined.

End LeafThms.
