(* ===== verification/Bitmap.v ===== *)
(** * Slot bitmaps

    The word bitmaps of the I/O registries
    (src/crates/kwokka-io/src/buffer/oneshot/inflight.rs and
    src/crates/kwokka-io/src/buffer/multishot/): single-bit test, set and
    clear, the ascending scan that peels set bits with
    [trailing_zeros]/[pending & (pending - 1)], and the inverted-bitmap search
    for the first free slot below a capacity.  Indexing a word array out of
    range panics. *)

From S2P Require Import Prelude Words.
From stdpp Require Import base tactics list numbers.

Local Open Scope Z_scope.

Module Bitmap.

Definition index {A} (a : list A) (i : nat) : outcome A :=
  match a !! i with Some x => Ret x | None => Panic end.
Definition store {A} (a : list A) (i : nat) (x : A) : outcome (list A) :=
  if decide (i < length a)%nat then Ret (<[i := x]> a) else Panic.

Definition word_bit (slot : Z) : nat * Z := (Z.to_nat (slot / 64), slot mod 64).

Definition test (b : list Z) (slot : Z) : outcome bool :=
  let '(word, bit) := word_bit slot in
  x ← index b word;
  Ret (negb (Z.land x (Z.shiftl 1 bit) =? 0)).

Definition set (b : list Z) (slot : Z) : outcome (list Z) :=
  let '(word, bit) := word_bit slot in
  x ← index b word;
  store b word (Z.lor x (Z.shiftl 1 bit)).

Definition clear (b : list Z) (slot : Z) : outcome (list Z) :=
  let '(word, bit) := word_bit slot in
  x ← index b word;
  store b word (Z.land x (lnot U64 (Z.shiftl 1 bit))).

(** The inner [while pending != 0] loop: at most 64 turns, one per set bit. *)
Fixpoint scan_word (fuel : nat) (hit : Z -> outcome bool) (word : nat) (pending : Z) : outcome (option Z) :=
  if pending =? 0 then Ret None else
  match fuel with
  | O => OutOfFuel
  | S fuel =>
      let slot := Z.of_nat word * 64 + trailing_zeros pending in
      h ← hit slot;
      if h : bool then Ret (Some slot) else scan_word fuel hit word (Z.land pending (pending - 1))
  end.

(** The outer [for word in 0..BITMAP_WORDS] loop. *)
Fixpoint scan_from (turns : nat) (hit : Z -> outcome bool) (b : list Z) (word : nat) (words : nat) : outcome (option Z) :=
  match words with
  | O => Ret None
  | S words =>
      pending ← index b word;
      r ← scan_word turns hit word pending;
      match r with Some slot => Ret (Some slot) | None => scan_from turns hit b (word + 1) words end
  end.

Definition scan (hit : Z -> outcome bool) (b : list Z) (words : nat) : outcome (option Z) := scan_from 64 hit b 0 words.

(** [first_free]: the [break] leaves the loop with no free slot. *)
Fixpoint free_loop (limit : Z) (word_idx : nat) (ws : list Z) : option Z :=
  match ws with
  | [] => None
  | word :: ws =>
      let last_word := limit / 64 in
      let last_bit := limit mod 64 in
      let search mask :=
        let available := Z.land (lnot U64 word) mask in
        if negb (available =? 0)
        then try_from U16 (Z.of_nat word_idx * 64 + trailing_zeros available)
        else free_loop limit (word_idx + 1) ws in
      if Z.of_nat word_idx <? last_word then search (2 ^ 64 - 1)
      else if (Z.of_nat word_idx =? last_word) && (0 <? last_bit) then search (Z.shiftl 1 last_bit - 1)
      else None
  end.

Definition first_free (limit : Z) (b : list Z) : option Z := free_loop limit 0 b.

(** ** The set a bitmap stands for *)

Definition has (b : list Z) (i : Z) : bool := Z.testbit (nth (Z.to_nat (i / 64)) b 0) (i mod 64).

Definition wf (words : nat) (b : list Z) : Prop := length b = words /\ Forall (fits 64) b.

(** [i] is a slot of a bitmap of [words] words. *)
Definition slot_in (words : nat) (i : Z) : Prop := 0 <= i < 64 * Z.of_nat words.

Lemma slot_in_word n b i : wf n b -> slot_in n i ->
  exists x, b !! Z.to_nat (i / 64) = Some x /\ fits 64 x /\ nth (Z.to_nat (i / 64)) b 0 = x /\ (Z.to_nat (i / 64) < n)%nat.
Proof.
  intros [Hl Hf] Hi. assert (Z.to_nat (i / 64) < length b)%nat as Hw.
  { rewrite Hl. unfold slot_in in Hi. Z.div_mod_to_equations; lia. }
  destruct (lookup_lt_is_Some_2 b _ Hw) as [x Hx]. exists x. split; [done|]. split; [by eapply Forall_lookup_1|].
  split; [by apply nth_lookup_Some|]. by rewrite <- Hl.
Qed.

Lemma test_spec n b i : wf n b -> slot_in n i -> test b i = Ret (has b i).
Proof.
  intros Hb Hi. destruct (slot_in_word n b i Hb Hi) as (x & Hx & _ & Hn & _).
  unfold test, word_bit, index, has. rewrite Hx, Hn. cbn. do 2 f_equal.
  assert (0 <= i mod 64 < 64) by (apply Z.mod_pos_bound; lia).
  destruct (Z.testbit x (i mod 64)) eqn:E.
  - apply negb_true_iff, Z.eqb_neq. intros H0. apply (f_equal (fun z => Z.testbit z (i mod 64))) in H0.
    rewrite Z.land_spec, Z.shiftl_1_l, Z.pow2_bits_true, E, Z.bits_0 in H0 by lia. done.
  - apply negb_false_iff, Z.eqb_eq, Z.bits_inj'. intros k Hk. rewrite Z.land_spec, Z.shiftl_1_l, Z.pow2_bits_eqb, Z.bits_0 by lia.
    destruct (Z.eqb_spec (i mod 64) k) as [<-|]; [by rewrite E|apply andb_false_r].
Qed.

(** A single-word update, whatever it does to the word's bits. *)
Lemma update_spec n b i x' : wf n b -> slot_in n i -> fits 64 x' ->
  let b' := <[Z.to_nat (i / 64) := x']> b in
  store b (Z.to_nat (i / 64)) x' = Ret b' /\ wf n b' /\
  forall j, slot_in n j -> has b' j = if decide (j / 64 = i / 64) then Z.testbit x' (j mod 64) else has b j.
Proof.
  intros Hb Hi Hx b'. destruct (slot_in_word n b i Hb Hi) as (x & Hl & _ & _ & Hw). unfold store.
  destruct Hb as [Hlen Hf]. rewrite decide_True by lia. split; [done|]. split.
  { split; [unfold b'; by rewrite length_insert|]. apply Forall_insert; done. }
  intros j Hj. unfold has, b'. case_decide as Hd.
  - rewrite Hd. f_equal. apply nth_lookup_Some. rewrite list_lookup_insert_eq; [done|lia].
  - f_equal. unfold slot_in in *. assert (Z.to_nat (i / 64) <> Z.to_nat (j / 64)) as Hne.
    { Z.div_mod_to_equations; lia. }
    rewrite !nth_lookup, list_lookup_insert_ne by done. done.
Qed.

Lemma same_slot i j : j / 64 = i / 64 -> (j mod 64 =? i mod 64) = bool_decide (j = i).
Proof.
  intros H. case_bool_decide as Hd; [subst; apply Z.eqb_refl|]. apply Z.eqb_neq. intros Hm. apply Hd.
  rewrite (Z.div_mod j 64), (Z.div_mod i 64) by lia. lia.
Qed.

Lemma set_spec n b i : wf n b -> slot_in n i ->
  exists b', set b i = Ret b' /\ wf n b' /\ forall j, slot_in n j -> has b' j = if decide (j = i) then true else has b j.
Proof.
  intros Hb Hi. destruct (slot_in_word n b i Hb Hi) as (x & Hx & Hf & Hn & _).
  assert (0 <= i mod 64 < 64) by (apply Z.mod_pos_bound; lia).
  destruct (update_spec n b i (Z.lor x (Z.shiftl 1 (i mod 64))) Hb Hi) as (E & W & H'); [by apply fits_set|].
  eexists. split; [unfold set, word_bit, index; rewrite Hx; exact E|]. split; [done|]. intros j Hj. rewrite (H' j Hj).
  assert (0 <= j mod 64 < 64) by (apply Z.mod_pos_bound; lia). case_decide as Hd.
  - rewrite testbit_set by lia. rewrite same_slot by done. unfold has. rewrite Hd, Hn.
    case_bool_decide; [rewrite decide_True by done; apply orb_true_r|rewrite decide_False by done; apply orb_false_r].
  - rewrite decide_False by congruence. done.
Qed.

Lemma clear_spec n b i : wf n b -> slot_in n i ->
  exists b', clear b i = Ret b' /\ wf n b' /\ forall j, slot_in n j -> has b' j = if decide (j = i) then false else has b j.
Proof.
  intros Hb Hi. destruct (slot_in_word n b i Hb Hi) as (x & Hx & Hf & Hn & _).
  assert (0 <= i mod 64 < 64) by (apply Z.mod_pos_bound; lia).
  destruct (update_spec n b i (Z.land x (lnot U64 (Z.shiftl 1 (i mod 64)))) Hb Hi) as (E & W & H'); [by apply fits_land|].
  eexists. split; [unfold clear, word_bit, index; rewrite Hx; exact E|]. split; [done|]. intros j Hj. rewrite (H' j Hj).
  assert (0 <= j mod 64 < 64) by (apply Z.mod_pos_bound; lia). case_decide as Hd.
  - rewrite testbit_clear by lia. rewrite same_slot by done. unfold has. rewrite Hd, Hn.
    case_bool_decide; [rewrite decide_True by done; apply andb_false_r|rewrite decide_False by done; apply andb_true_r].
  - rewrite decide_False by congruence. done.
Qed.

(** ** The ascending scan *)

Lemma peel_lowest p : forall j, 0 <= j ->
  Z.testbit (Z.land (Zpos p) (Zpos p - 1)) j = Z.testbit (Zpos p) j && negb (j =? pos_trailing_zeros p).
Proof.
  induction p as [p _|p IH|]; intros j Hj; cbn [pos_trailing_zeros].
  - rewrite Z.land_spec. replace (Zpos p~1 - 1) with (2 * Zpos p) by lia. rewrite (Pos2Z.inj_xI p).
    destruct (Z.eqb_spec j 0) as [->|]; [by rewrite Z.testbit_even_0, !andb_false_r|].
    replace j with (Z.succ (j - 1)) by lia. rewrite Z.testbit_odd_succ, Z.testbit_even_succ by lia. cbn. by destruct (Z.testbit _ _).
  - replace (Zpos p~0 - 1) with (2 * (Zpos p - 1) + 1) by lia. rewrite (Pos2Z.inj_xO p), Z.land_spec.
    pose proof (pos_trailing_zeros_nonneg p).
    destruct (Z.eq_dec j 0) as [->|]; [by rewrite Z.testbit_even_0|].
    replace j with (Z.succ (j - 1)) by lia. rewrite Z.testbit_odd_succ, !Z.testbit_even_succ by lia.
    rewrite <- Z.land_spec, IH by lia. do 2 f_equal. destruct (Z.eqb_spec (j - 1) (pos_trailing_zeros p)), (Z.eqb_spec (Z.succ (j - 1)) (1 + pos_trailing_zeros p)); lia.
  - cbn. rewrite Z.bits_0. destruct (Z.eqb_spec j 0) as [->|]; [done|]. change 1 with (2 ^ 0). rewrite Z.pow2_bits_false by lia. done.
Qed.

Lemma peel_bits x j : 0 < x -> 0 <= j ->
  Z.testbit (Z.land x (x - 1)) j = Z.testbit x j && negb (j =? trailing_zeros x).
Proof. destruct x as [|p|p]; try lia. intros _. apply peel_lowest. Qed.

(** The first set bit, at or above bit [k], on which [hit] holds. *)
Lemma scan_word_spec (hit : Z -> outcome bool) (p : Z -> bool) word : forall fuel x k,
  (forall bit, 0 <= bit < 64 -> hit (Z.of_nat word * 64 + bit) = Ret (p (Z.of_nat word * 64 + bit))) ->
  fits 64 x -> 0 <= k -> (forall j, 0 <= j < k -> Z.testbit x j = false) -> 64 <= Z.of_nat fuel + k ->
  match scan_word fuel hit word x with
  | Ret (Some i) => exists bit, i = Z.of_nat word * 64 + bit /\ 0 <= bit < 64 /\ Z.testbit x bit = true /\ p i = true /\
      forall j, 0 <= j < bit -> Z.testbit x j = true -> p (Z.of_nat word * 64 + j) = false
  | Ret None => forall j, 0 <= j < 64 -> Z.testbit x j = true -> p (Z.of_nat word * 64 + j) = false
  | _ => False
  end.
Proof.
  induction fuel as [|fuel IH]; intros x k Hhit Hx Hk Hlow Hfuel; cbn [scan_word]; destruct (Z.eqb_spec x 0) as [->|Hne].
  - intros j _. by rewrite Z.bits_0.
  - exfalso. apply Hne, (mask_zero x Hx). intros j Hj. apply Hlow. lia.
  - intros j _. by rewrite Z.bits_0.
  - assert (0 < x) by (unfold fits in Hx; lia).
    assert (exists j, 0 <= j < 64 /\ Z.testbit x j = true) as (j0 & Hj0 & Hb0).
    { destruct x as [|q|q]; try lia. destruct (pos_trailing_zeros_bit q) as [Ht _]. pose proof (pos_trailing_zeros_nonneg q).
      exists (pos_trailing_zeros q). split; [|done]. destruct (Z.lt_ge_cases (pos_trailing_zeros q) 64); [lia|].
      rewrite testbit_above in Ht by done. done. }
    destruct (trailing_zeros_least x j0) as [Hr Hb]; [lia..|done|]. set (bit := trailing_zeros x) in *.
    rewrite Hhit by lia. cbn [mbind outcome_bind]. destruct (p (Z.of_nat word * 64 + bit)) eqn:Ep.
    + exists bit. split; [done|]. split; [lia|]. do 2 (split; [done|]). intros j Hj Hbj.
      destruct (trailing_zeros_least x j) as [? _]; [lia..|done|]. unfold bit in Hj. lia.
    + specialize (IH (Z.land x (x - 1)) (bit + 1) Hhit (fits_land x _ Hx)).
      assert (k <= bit). { destruct (Z.lt_ge_cases bit k) as [Hc|]; [|done]. rewrite Hlow in Hb by lia. done. }
      assert (forall j, 0 <= j -> Z.testbit x j = true -> j <> bit -> Z.testbit (Z.land x (x - 1)) j = true) as Hkeep.
      { intros j Hj Hbj Hnj. rewrite peel_bits, Hbj by lia. apply negb_true_iff, Z.eqb_neq. done. }
      assert (forall j, 0 <= j -> Z.testbit (Z.land x (x - 1)) j = true -> Z.testbit x j = true) as Hback.
      { intros j Hj. rewrite peel_bits by lia. by intros [? _]%andb_true_iff. }
      ospecialize (IH _ _ _); [lia| |lia|].
      { intros j Hj. rewrite peel_bits by lia. fold bit. destruct (Z.eqb_spec j bit); [apply andb_false_r|].
        destruct (Z.testbit x j) eqn:Ej; [|done]. destruct (trailing_zeros_least x j) as [? _]; [lia..|done|]. unfold bit in *. lia. }
      destruct (scan_word fuel hit word _) as [[i|]| | |]; try done.
      * destruct IH as (b' & -> & Hb' & Ht & Hp & Hmin). exists b'. split; [done|]. split; [done|]. split; [by apply Hback; [lia|]|].
        split; [done|]. intros j Hj Hbj. destruct (Z.eq_dec j bit) as [->|]; [done|]. apply Hmin, Hkeep; [lia..|done|done].
      * intros j Hj Hbj. destruct (Z.eq_dec j bit) as [->|]; [done|]. apply IH, Hkeep; [lia..|done|done].
Qed.

Lemma slot_word word bit : 0 <= bit < 64 ->
  Z.to_nat ((Z.of_nat word * 64 + bit) / 64) = word /\ (Z.of_nat word * 64 + bit) mod 64 = bit.
Proof. intros. split; [|Z.div_mod_to_equations; lia]. replace ((Z.of_nat word * 64 + bit) / 64) with (Z.of_nat word) by (Z.div_mod_to_equations; lia). lia. Qed.

(** [scan] answers the least member of the bitmap on which [hit] holds. *)
Lemma scan_from_spec turns (hit : Z -> outcome bool) (p : Z -> bool) n b : forall words word,
  64 <= Z.of_nat turns -> wf n b -> (word + words)%nat = n -> (forall i, slot_in n i -> hit i = Ret (p i)) ->
  match scan_from turns hit b word words with
  | Ret (Some i) => Z.of_nat word * 64 <= i /\ slot_in n i /\ has b i = true /\ p i = true /\
      forall j, Z.of_nat word * 64 <= j < i -> has b j = true -> p j = false
  | Ret None => forall j, Z.of_nat word * 64 <= j -> slot_in n j -> has b j = true -> p j = false
  | _ => False
  end.
Proof.
  induction words as [|words IH]; intros word Ht64 Hb Hn Hhit; cbn [scan_from].
  {  intros j Hj Hs. unfold slot_in in Hs. lia. }
  destruct (lookup_lt_is_Some_2 b word) as [x Hx]; [destruct Hb; lia|].
  assert (fits 64 x) as Hf by (destruct Hb; by eapply Forall_lookup_1).
  assert (forall bit, 0 <= bit < 64 -> has b (Z.of_nat word * 64 + bit) = Z.testbit x bit) as Hhas.
  { intros bit Hbit. unfold has. destruct (slot_word word bit Hbit) as [-> ->]. f_equal. by apply nth_lookup_Some. }
  unfold index. rewrite Hx. cbn [mbind outcome_bind].
  assert (forall bit, 0 <= bit < 64 -> hit (Z.of_nat word * 64 + bit) = Ret (p (Z.of_nat word * 64 + bit))) as Hh.
  { intros bit Hbit. apply Hhit. unfold slot_in. lia. }
  pose proof (scan_word_spec hit p word turns x 0 Hh Hf ltac:(lia) ltac:(lia) ltac:(lia)) as HW.
  specialize (IH (word + 1)%nat Ht64 Hb ltac:(lia) Hhit).
  destruct (scan_word turns hit word x) as [[i|]| | |]; try done; cbn [mbind outcome_bind].
  - destruct HW as (bit & -> & Hbit & Ht & Hp & Hmin). split; [lia|]. split; [unfold slot_in; lia|].
    split; [by rewrite Hhas|]. split; [done|]. intros j Hj Hbj. replace j with (Z.of_nat word * 64 + (j - Z.of_nat word * 64)) in * by lia.
    apply Hmin; [lia|]. rewrite <- Hhas by lia. done.
  - assert (forall j, Z.of_nat word * 64 <= j < (Z.of_nat word + 1) * 64 -> has b j = true -> p j = false) as Hhere.
    { intros j Hj Hbj. replace j with (Z.of_nat word * 64 + (j - Z.of_nat word * 64)) in * by lia. apply HW; [lia|]. rewrite <- Hhas by lia. done. }
    destruct (scan_from turns hit b (word + 1) words) as [[i|]| | |]; try done.
    + destruct IH as (H1 & H2 & H3 & H4 & H5). split; [lia|]. do 3 (split; [done|]). intros j Hj Hbj.
      destruct (Z.lt_ge_cases j ((Z.of_nat word + 1) * 64)); [apply Hhere; [lia|done]|apply H5; [lia|done]].
    + intros j Hj Hs Hbj. destruct (Z.lt_ge_cases j ((Z.of_nat word + 1) * 64)); [apply Hhere; [lia|done]|apply IH; [lia|done..]].
Qed.

Lemma scan_spec (hit : Z -> outcome bool) (p : Z -> bool) n b :
  wf n b -> (forall i, slot_in n i -> hit i = Ret (p i)) ->
  exists r, scan hit b n = Ret r /\
  match r with
  | Some i => slot_in n i /\ has b i = true /\ p i = true /\ forall j, 0 <= j < i -> has b j = true -> p j = false
  | None => forall j, slot_in n j -> has b j = true -> p j = false
  end.
Proof.
  intros Hb Hhit. assert (64 <= Z.of_nat 64) as H64 by lia. unfold scan. revert H64. generalize 64%nat as turns. intros turns H64.
  pose proof (scan_from_spec turns hit p n b n 0 H64 Hb eq_refl Hhit) as H.
  destruct (scan_from turns hit b 0 n) as [[i|]| | |]; try done; (eexists; split; [done|]).
  - destruct H as (_ & H1 & H2 & H3 & H4). do 3 (split; [done|]). intros j Hj. apply H4. lia.
  - intros j Hj. apply H; [unfold slot_in in Hj; lia|done].
Qed.

(** ** The first free slot *)

(** The bits of [!word & mask] for a mask of the low [k] bits. *)
Lemma available_bits x k j : fits 64 x -> 0 <= k <= 64 -> 0 <= j ->
  Z.testbit (Z.land (lnot U64 x) (2 ^ k - 1)) j = negb (Z.testbit x j) && (j <? k).
Proof.
  intros Hx Hk Hj. replace (2 ^ k - 1) with (Z.ones k) by (rewrite Z.ones_equiv; lia).
  rewrite Z.land_spec, Z.testbit_ones_nonneg by lia. unfold lnot. rewrite Z.lxor_spec.
  replace (2 ^ U64 - 1) with (Z.ones 64) by done. rewrite Z.testbit_ones_nonneg by lia.
  destruct (Z.ltb_spec j k); [|by rewrite !andb_false_r]. destruct (Z.ltb_spec j 64); [|lia]. by rewrite !andb_true_r, xorb_true_r.
Qed.

(** One word's search below bit [k]. *)
Lemma available_spec x k : fits 64 x -> 0 <= k <= 64 ->
  let a := Z.land (lnot U64 x) (2 ^ k - 1) in
  (a = 0 -> forall j, 0 <= j < k -> Z.testbit x j = true) /\
  (a <> 0 -> 0 <= trailing_zeros a < k /\ Z.testbit x (trailing_zeros a) = false /\
     forall j, 0 <= j < trailing_zeros a -> Z.testbit x j = true).
Proof.
  intros Hx Hk a. assert (forall j, 0 <= j -> Z.testbit a j = negb (Z.testbit x j) && (j <? k)) as Ha by (intros; by apply available_bits).
  assert (fits 64 a) as Hf.
  { unfold a. rewrite Z.land_comm. apply fits_land. unfold fits. pose proof (Z.pow_pos_nonneg 2 k).
    assert (2 ^ k <= 2 ^ 64) by (apply Z.pow_le_mono_r; lia). lia. }
  split.
  - intros H0 j Hj. specialize (Ha j ltac:(lia)). rewrite H0, Z.bits_0 in Ha. destruct (Z.ltb_spec j k); [|lia]. by destruct (Z.testbit x j).
  - intros Hne. assert (0 < a) by (unfold fits in Hf; lia). destruct a as [|q|q] eqn:Eq; try lia. cbn [trailing_zeros].
    destruct (pos_trailing_zeros_bit q) as [Ht Hl]. pose proof (pos_trailing_zeros_nonneg q).
    rewrite Ha in Ht by lia. apply andb_true_iff in Ht as [Hn Hlt]. split; [lia|]. split; [by apply negb_true_iff|].
    intros j Hj. specialize (Hl j Hj). rewrite Ha in Hl by lia. destruct (Z.ltb_spec j k); [|lia]. by destruct (Z.testbit x j).
Qed.

(** What the search from word [w0] on must answer. *)
Definition free_from (limit : Z) (b : list Z) (lo : Z) (r : option Z) : Prop :=
  match r with
  | Some i => lo <= i < limit /\ has b i = false /\ forall j, lo <= j < i -> has b j = true
  | None => forall j, lo <= j < limit -> has b j = true
  end.

Lemma free_loop_spec limit b : 0 <= limit <= 2 ^ 16 -> Forall (fits 64) b -> limit <= 64 * Z.of_nat (length b) ->
  forall ws w0, drop w0 b = ws -> free_from limit b (Z.of_nat w0 * 64) (free_loop limit w0 ws).
Proof.
  intros Hlim Hf Hlen ws. induction ws as [|x ws IH]; intros w0 Hd; cbn [free_loop].
  { apply (f_equal length) in Hd. rewrite length_drop in Hd. cbn in Hd. cbn. intros j Hj. lia. }
  assert (b !! w0 = Some x) as Hx by (rewrite <- (Nat.add_0_r w0), <- lookup_drop, Hd; done).
  assert (fits 64 x) as Hfx by (by eapply Forall_lookup_1).
  assert (drop (w0 + 1) b = ws) as Hd' by (rewrite <- drop_drop, Hd; done).
  specialize (IH (w0 + 1)%nat Hd').
  assert (forall bit, 0 <= bit < 64 -> has b (Z.of_nat w0 * 64 + bit) = Z.testbit x bit) as Hhas.
  { intros bit Hbit. unfold has. destruct (slot_word w0 bit Hbit) as [-> ->]. f_equal. by apply nth_lookup_Some. }
  set (search := fun mask => if negb (Z.land (lnot U64 x) mask =? 0)
    then try_from U16 (Z.of_nat w0 * 64 + trailing_zeros (Z.land (lnot U64 x) mask)) else free_loop limit (w0 + 1) ws).
  assert (forall k, 0 <= k <= 64 -> Z.of_nat w0 * 64 + k <= limit -> (k < 64 -> limit = Z.of_nat w0 * 64 + k) ->
    free_from limit b (Z.of_nat w0 * 64) (search (2 ^ k - 1))) as Hs.
  { intros k Hk Hkl Heq. destruct (available_spec x k Hfx Hk) as [H0 H1]. unfold search.
    destruct (Z.eqb_spec (Z.land (lnot U64 x) (2 ^ k - 1)) 0) as [E|E]; cbn [negb].
    - specialize (H0 E). assert (forall j, Z.of_nat w0 * 64 <= j < Z.of_nat w0 * 64 + k -> has b j = true) as Hh.
      { intros j Hj. replace j with (Z.of_nat w0 * 64 + (j - Z.of_nat w0 * 64)) by lia. rewrite Hhas by lia. apply H0. lia. }
      assert (Z.of_nat (w0 + 1) * 64 = Z.of_nat w0 * 64 + 64) as Hn by lia. rewrite Hn in IH.
      destruct (free_loop limit (w0 + 1) ws) as [i|]; cbn in IH |- *.
      + destruct IH as (? & ? & Hj). assert (k = 64) by lia. subst k. split; [lia|]. split; [done|]. intros j Hj'.
        destruct (Z.lt_ge_cases j (Z.of_nat w0 * 64 + 64)); [apply Hh|apply Hj]; lia.
      + intros j Hj. destruct (Z.lt_ge_cases j (Z.of_nat w0 * 64 + k)); [apply Hh; lia|]. apply IH. lia.
    - destruct (H1 E) as (Hr & Hb & Hl). unfold try_from. destruct (Z.ltb_spec (Z.of_nat w0 * 64 + trailing_zeros (Z.land (lnot U64 x) (2 ^ k - 1))) (2 ^ 16)); [|lia].
      cbn. split; [lia|]. split; [rewrite Hhas by lia; done|]. intros j Hj.
      replace j with (Z.of_nat w0 * 64 + (j - Z.of_nat w0 * 64)) by lia. rewrite Hhas by lia. apply Hl. lia. }
  destruct (Z.ltb_spec (Z.of_nat w0) (limit / 64)) as [Hw|Hw].
  - apply (Hs 64); [lia|Z.div_mod_to_equations; lia|lia].
  - destruct (Z.eqb_spec (Z.of_nat w0) (limit / 64)) as [Hw'|Hw']; [destruct (Z.ltb_spec 0 (limit mod 64))|]; cbn [andb].
    + rewrite Z.shiftl_1_l. apply (Hs (limit mod 64)); Z.div_mod_to_equations; lia.
    + intros j Hj. Z.div_mod_to_equations; lia.
    + intros j Hj. Z.div_mod_to_equations; lia.
Qed.

(** [first_free] answers the least unoccupied slot below the capacity. *)
Lemma first_free_spec n limit b : wf n b -> 0 <= limit <= 64 * Z.of_nat n -> limit <= 2 ^ 16 ->
  free_from limit b 0 (first_free limit b).
Proof. intros [Hl Hf] H1 H2. apply (free_loop_spec limit b); [lia|done|lia|done]. Qed.

(** ** Total views

    Beyond the words of a well-formed bitmap every bit reads as clear, so the
    updates can be described for every slot index. *)

Lemma has_out n b j : wf n b -> 0 <= j -> ~ slot_in n j -> has b j = false.
Proof.
  intros [Hl _] Hj Ho. unfold has. rewrite nth_overflow; [apply Z.bits_0|]. rewrite Hl. unfold slot_in in Ho. Z.div_mod_to_equations. lia.
Qed.

Lemma set_total n b i : wf n b -> slot_in n i ->
  exists b', set b i = Ret b' /\ wf n b' /\ forall j, 0 <= j -> has b' j = if decide (j = i) then true else has b j.
Proof.
  intros Hb Hi. destruct (set_spec n b i Hb Hi) as (b' & E & W & H). exists b'. split; [done|]. split; [done|]. intros j Hj.
  destruct (decide (0 <= j < 64 * Z.of_nat n)) as [Hd|Hd]; [by apply H|]. rewrite (has_out n b' j), (has_out n b j) by done. by case_decide; subst.
Qed.

Lemma clear_total n b i : wf n b -> slot_in n i ->
  exists b', clear b i = Ret b' /\ wf n b' /\ forall j, 0 <= j -> has b' j = if decide (j = i) then false else has b j.
Proof.
  intros Hb Hi. destruct (clear_spec n b i Hb Hi) as (b' & E & W & H). exists b'. split; [done|]. split; [done|]. intros j Hj.
  destruct (decide (0 <= j < 64 * Z.of_nat n)) as [Hd|Hd]; [by apply H|]. rewrite (has_out n b' j), (has_out n b j) by done. by case_decide; subst.
Qed.

End Bitmap.

(** * Array accesses and the ring window

    Reading and writing an array element in range, and the queue a ring buffer
    with a read cursor and a count stands for: the entries at
    [(head + i) % N] for [i < len], the layout shared by the multishot
    registries (src/crates/kwokka-io/src/buffer/multishot/) and the cancel
    inboxes (src/crates/kwokka-io/src/boundary/cancel/inbox.rs). *)

From stdpp Require Import base tactics list numbers.

Local Open Scope Z_scope.

Module Fifo.

Definition in_range (n : nat) (i : Z) : Prop := 0 <= i < Z.of_nat n.

Lemma index_nth {A} (l : list A) (d : A) i : in_range (length l) i -> Bitmap.index l (Z.to_nat i) = Ret (nth (Z.to_nat i) l d).
Proof.
  intros Hi. unfold Bitmap.index. destruct (lookup_lt_is_Some_2 l (Z.to_nat i)) as [x Hx]; [unfold in_range in Hi; lia|].
  rewrite Hx. f_equal. symmetry. by apply nth_lookup_Some.
Qed.

Lemma nth_insert {A} (l : list A) (d : A) i x j : in_range (length l) i -> 0 <= j ->
  nth (Z.to_nat j) (<[Z.to_nat i := x]> l) d = if decide (j = i) then x else nth (Z.to_nat j) l d.
Proof.
  intros Hi Hj. unfold in_range in Hi. case_decide as Hd.
  - subst j. apply nth_lookup_Some, list_lookup_insert_eq. lia.
  - rewrite !nth_lookup, list_lookup_insert_ne; [done|lia].
Qed.

Lemma store_nth {A} (l : list A) (d : A) i x : in_range (length l) i ->
  exists l', Bitmap.store l (Z.to_nat i) x = Ret l' /\ length l' = length l /\
    forall j, 0 <= j -> nth (Z.to_nat j) l' d = if decide (j = i) then x else nth (Z.to_nat j) l d.
Proof.
  intros Hi. unfold Bitmap.store. rewrite decide_True by (unfold in_range in Hi; lia). eexists. split; [done|].
  split; [apply length_insert|]. intros j Hj. by apply nth_insert.
Qed.

Section window.
Context {A : Type} (N : Z).

Definition window (get : Z -> A) (head len : Z) : list A :=
  (fun i => get ((head + Z.of_nat i) mod N)) <$> seq 0 (Z.to_nat len).

Lemma length_window get head len : 0 <= len -> Z.of_nat (length (window get head len)) = len.
Proof. intros. unfold window. rewrite length_fmap, length_seq. lia. Qed.

Lemma window_empty get head : window get head 0 = [].
Proof. done. Qed.

Lemma window_ext get get' head len : 0 < N -> (forall i, 0 <= i < N -> get i = get' i) -> window get head len = window get' head len.
Proof. intros HN Hg. apply list_fmap_ext. intros i x _. apply Hg, Z.mod_pos_bound, HN. Qed.

Lemma cells_distinct head i j : 0 <= i < N -> 0 <= j < N -> (head + i) mod N = (head + j) mod N -> i = j.
Proof.
  intros Hi Hj E. assert ((head + i - (head + j)) mod N = 0) as H0.
  { rewrite Zminus_mod, E, Z.sub_diag. apply Z.mod_0_l. lia. }
  replace (head + i - (head + j)) with (i - j) in H0 by lia. apply Z.mod_divide in H0 as [q Hq]; [|lia]. assert (q = 0) by (assert (-1 < q < 1) by nia; lia). lia.
Qed.

Lemma window_push get head len x : 0 <= len < N ->
  window (fun i => if decide (i = (head + len) mod N) then x else get i) head (len + 1) = window get head len ++ [x].
Proof.
  intros Hl. unfold window. replace (Z.to_nat (len + 1)) with (S (Z.to_nat len)) by lia. rewrite seq_S, fmap_app. f_equal.
  - apply list_fmap_ext. intros i n (-> & Hn)%lookup_seq. rewrite decide_False; [done|]. intros E.
    apply cells_distinct in E; lia.
  - cbn. rewrite Z2Nat.id by lia. by rewrite decide_True by lia.
Qed.

Lemma window_pop get head len : 0 <= head < N -> 0 < len ->
  window get head len = get head :: window get ((head + 1) mod N) (len - 1).
Proof.
  intros Hh Hl. unfold window. replace (Z.to_nat len) with (S (Z.to_nat (len - 1))) by lia. cbn [seq fmap list_fmap].
  rewrite Z.add_0_r, Z.mod_small by lia. f_equal. rewrite <- fmap_S_seq, <- list_fmap_compose. apply list_fmap_ext.
  intros i n _. cbn. f_equal. rewrite Zplus_mod_idemp_l. f_equal. lia.
Qed.

End window.
End Fifo.
