(* ===== verification/IoTokens.v ===== *)
(** * Completion tokens

    The handles an I/O future holds (src/crates/kwokka-io/src/buffer/) and the
    [user_data] markers the completion drain sorts completions by
    (src/crates/kwokka-io/src/boundary/cancel/token.rs): their encoders, the
    predicates that recognise them and the decoders, with the CQE flags and
    the [Completion] record of
    src/crates/kwokka-io/src/operation/core/completion.rs. *)

From S2P Require Import Prelude.
From stdpp Require Import base tactics option list numbers.

Local Open Scope Z_scope.

Module IoTokens.

Record InflightSlotKey : Type := mkKey { slot : Z; generation : Z; worker_id : Z; op_token : Z }.

(** [MultishotSlotKey] and [RecvMultishotSlotKey] have the same fields. *)
Record MultishotSlotKey : Type := mkMs { ms_slot : Z; ms_generation : Z; ms_worker_id : Z }.

#[global] Instance InflightSlotKey_eq_dec : EqDecision InflightSlotKey.
Proof. solve_decision. Defined.
#[global] Instance MultishotSlotKey_eq_dec : EqDecision MultishotSlotKey.
Proof. solve_decision. Defined.

Definition WAKE_FD_USER_DATA : Z := 2 ^ 64 - 1.
Definition CANCEL_TOKEN_BASE : Z := 0xFFFFFFFF00000000.
Definition CANCEL_TOKEN_HIGH_MASK : Z := 0xFFFFFFFF00000000.
Definition MULTISHOT_TOKEN_BASE : Z := 0xFFFFFFFE00000000.
Definition RECV_MULTISHOT_TOKEN_BASE : Z := 0xFFFFFFFD00000000.
Definition MSG_RING_WAKE_USER_DATA : Z := 0xFFFFFFFC00000000.
Definition LINK_TIMEOUT_DISCARD_USER_DATA : Z := 0xFFFFFFFB00000000.

(** The marker, the slot at bits 0..16 and the low generation bits at 16..32. *)
Definition mark (base slot generation : Z) : Z :=
  Z.lor (Z.lor base (Z.shiftl (Z.land generation 0xFFFF) 16)) slot.

Definition encode_cancel_sentinel (key : InflightSlotKey) : Z :=
  mark CANCEL_TOKEN_BASE (slot key) (generation key).
Definition encode_multishot_sentinel (key : MultishotSlotKey) : Z :=
  mark MULTISHOT_TOKEN_BASE (ms_slot key) (ms_generation key).
Definition encode_recv_multishot_sentinel (key : MultishotSlotKey) : Z :=
  mark RECV_MULTISHOT_TOKEN_BASE (ms_slot key) (ms_generation key).

Definition is_cancel_sentinel (user_data : Z) : bool :=
  (Z.land user_data CANCEL_TOKEN_HIGH_MASK =? CANCEL_TOKEN_BASE) && negb (user_data =? WAKE_FD_USER_DATA).
Definition is_multishot_sentinel (user_data : Z) : bool :=
  Z.land user_data CANCEL_TOKEN_HIGH_MASK =? MULTISHOT_TOKEN_BASE.
Definition is_recv_multishot_sentinel (user_data : Z) : bool :=
  Z.land user_data CANCEL_TOKEN_HIGH_MASK =? RECV_MULTISHOT_TOKEN_BASE.
Definition is_msg_ring_wake (user_data : Z) : bool := user_data =? MSG_RING_WAKE_USER_DATA.
Definition is_link_timeout_discard (user_data : Z) : bool := user_data =? LINK_TIMEOUT_DISCARD_USER_DATA.

Definition multishot_sentinel_slot (user_data : Z) : Z := Z.land user_data 0xFFFF.
Definition multishot_sentinel_generation (user_data : Z) : Z := Z.land (Z.shiftr user_data 16) 0xFFFF.

(** [CqeFlags] *)
Definition BUFFER : Z := Z.shiftl 1 0.
Definition MORE : Z := Z.shiftl 1 1.
Definition NOTIF : Z := Z.shiftl 1 3.
Definition contains (flags other : Z) : bool := Z.land flags other =? other.

Record Completion : Type := mkCqe { token : Z; result : Z; flags : Z; buf_id : option Z }.

Definition is_notif (c : Completion) : bool := contains (flags c) NOTIF.
Definition has_more (c : Completion) : bool := contains (flags c) MORE.

(** ** The fields of a marker *)

Lemma mark_value base s g : fits 16 s -> 0 <= g -> 0 <= base -> base mod 2 ^ 32 = 0 ->
  mark base s g = base + (g mod 2 ^ 16) * 2 ^ 16 + s.
Proof.
  intros Hs Hg Hb Hm. unfold mark. change 0xFFFF with (2 ^ 16 - 1). rewrite land_ones_mod by lia.
  assert (0 <= g mod 2 ^ 16 < 2 ^ 16) by (apply Z.mod_pos_bound; lia).
  replace base with (Z.shiftl (base / 2 ^ 32) 32) at 1 by (rewrite Z.shiftl_mul_pow2 by lia; pose proof (Z_div_mod_eq_full base (2 ^ 32)); lia).
  rewrite lor_shiftl_add by (rewrite ?Z.shiftl_mul_pow2 by lia; lia). rewrite Z.shiftl_mul_pow2 by lia.
  replace (base / 2 ^ 32 * 2 ^ 32 + g mod 2 ^ 16 * 2 ^ 16) with (Z.shiftl (base / 2 ^ 32 * 2 ^ 16 + g mod 2 ^ 16) 16)
    by (rewrite Z.shiftl_mul_pow2 by lia; lia).
  unfold fits in Hs. rewrite lor_shiftl_add by lia. pose proof (Z_div_mod_eq_full base (2 ^ 32)). lia.
Qed.

Lemma high_mask x : fits 64 x -> Z.land x CANCEL_TOKEN_HIGH_MASK = (x / 2 ^ 32) * 2 ^ 32.
Proof.
  intros Hx. rewrite <- Z.shiftr_div_pow2, <- Z.shiftl_mul_pow2 by lia. apply Z.bits_inj'. intros n Hn.
  rewrite Z.land_spec, Z.shiftl_spec by lia. change CANCEL_TOKEN_HIGH_MASK with (Z.shiftl (Z.ones 32) 32).
  rewrite Z.shiftl_spec by lia. destruct (Z.lt_ge_cases n 32); [rewrite !(Z.testbit_neg_r _ (n - 32)) by lia; apply andb_false_r|].
  rewrite Z.testbit_ones_nonneg, Z.shiftr_spec by lia. replace (n - 32 + 32) with n by lia.
  destruct (Z.ltb_spec (n - 32) 32); [apply andb_true_r|]. rewrite andb_false_r. symmetry.
  replace x with (x mod 2 ^ 64) by (apply Z.mod_small, Hx). apply Z.mod_pow2_bits_high. lia.
Qed.

(** The corner of the upper half a [user_data] lies in. *)
Definition corner (user_data : Z) : Z := user_data / 2 ^ 32.

Lemma mark_fields base s g : fits 16 s -> 0 <= g -> fits 64 base -> base mod 2 ^ 32 = 0 ->
  fits 64 (mark base s g) /\ corner (mark base s g) = base / 2 ^ 32 /\
  multishot_sentinel_slot (mark base s g) = s /\ multishot_sentinel_generation (mark base s g) = g mod 2 ^ 16.
Proof.
  intros Hs Hg Hb Hm. unfold fits in Hb. rewrite mark_value by (done || lia). assert (0 <= g mod 2 ^ 16 < 2 ^ 16) by (apply Z.mod_pos_bound; lia).
  set (gl := g mod 2 ^ 16) in *. unfold fits in Hs. pose proof (Z_div_mod_eq_full base (2 ^ 32)) as Hbe. rewrite Hm in Hbe. set (q := base / 2 ^ 32) in *.
  assert (0 <= q < 2 ^ 32) by lia. rewrite Hbe.
  assert (multishot_sentinel_slot (2 ^ 32 * q + 0 + gl * 2 ^ 16 + s) = s) as H1.
  { unfold multishot_sentinel_slot. change 0xFFFF with (2 ^ 16 - 1). rewrite land_ones_mod by lia.
    replace (2 ^ 32 * q + 0 + gl * 2 ^ 16 + s) with (s + (2 ^ 16 * q + gl) * 2 ^ 16) by lia. rewrite Z.mod_add by lia. apply Z.mod_small. lia. }
  split; [unfold fits; lia|]. split; [|split; [done|]].
  - unfold corner. symmetry. apply (Z.div_unique_pos _ _ q (gl * 2 ^ 16 + s)); lia.
  - unfold multishot_sentinel_generation. rewrite Z.shiftr_div_pow2 by lia. change 0xFFFF with (2 ^ 16 - 1). rewrite land_ones_mod by lia.
    replace ((2 ^ 32 * q + 0 + gl * 2 ^ 16 + s) / 2 ^ 16) with (gl + q * 2 ^ 16); [rewrite Z.mod_add by lia; apply Z.mod_small; lia|].
    apply (Z.div_unique_pos _ _ _ s); lia.
Qed.

(** The routing the drain performs, in the order it tests. *)
Inductive route : Type :=
| RWakeFd | RMsgRing | RLinkTimeout | RNotif | RCancel | RMultishot | RRecvMultishot | RTask.

Definition route_of (c : Completion) : route :=
  let user_data := token c in
  if user_data =? WAKE_FD_USER_DATA then RWakeFd
  else if is_msg_ring_wake user_data then RMsgRing
  else if is_link_timeout_discard user_data then RLinkTimeout
  else if is_notif c then RNotif
  else if is_cancel_sentinel user_data then RCancel
  else if is_multishot_sentinel user_data then RMultishot
  else if is_recv_multishot_sentinel user_data then RRecvMultishot
  else RTask.

Lemma corner_routes c : fits 64 (token c) ->
  (token c =? WAKE_FD_USER_DATA) = false -> is_msg_ring_wake (token c) = false ->
  is_link_timeout_discard (token c) = false -> is_notif c = false ->
  route_of c = if corner (token c) =? 0xFFFFFFFF then RCancel
               else if corner (token c) =? 0xFFFFFFFE then RMultishot
               else if corner (token c) =? 0xFFFFFFFD then RRecvMultishot else RTask.
Proof.
  intros Hf H1 H2 H3 H4. unfold route_of. rewrite H1, H2, H3, H4.
  unfold is_cancel_sentinel, is_multishot_sentinel, is_recv_multishot_sentinel. rewrite H1, high_mask by done. cbn [negb].
  fold (corner (token c)). rewrite andb_true_r.
  assert (forall k, (corner (token c) * 2 ^ 32 =? k * 2 ^ 32) = (corner (token c) =? k)) as He.
  { intros k. destruct (Z.eqb_spec (corner (token c)) k) as [->|]; [apply Z.eqb_refl|]. apply Z.eqb_neq. lia. }
  change CANCEL_TOKEN_BASE with (0xFFFFFFFF * 2 ^ 32). change MULTISHOT_TOKEN_BASE with (0xFFFFFFFE * 2 ^ 32).
  change RECV_MULTISHOT_TOKEN_BASE with (0xFFFFFFFD * 2 ^ 32). rewrite !He. done.
Qed.

End IoTokens.
