(* ===== verification/InflightSlab.v ===== *)
(** * The in-flight buffer registry

    Models src/crates/kwokka-io/src/buffer/oneshot/inflight.rs: the per-worker
    registry [InflightBufSlab] that owns the bytes of every buffered operation
    the kernel may still touch.  The bitmaps are lists of 64-bit words, the
    per-slot tables lists, the backing region a list of bytes; indexing out of
    range panics.  [MmapRegion::new] fails on a zero length or when the system
    refuses the mapping, which is the argument [mapped] of [new]. *)

From S2P Require Import Prelude Words Bitmap IoTokens.
From stdpp Require Import base tactics option list numbers.

Local Open Scope Z_scope.

Module Inflight.
Import IoTokens.

Definition INFLIGHT_BUF_STRIDE : Z := 4096.
Definition DEFAULT_INFLIGHT_CAP : Z := 256.
Definition MAX_INFLIGHT_SLOTS : nat := 256.
Definition BITMAP_WORDS : nat := 4.

(** The opcodes a readiness deferral may carry, of [OpCode]. *)
Inductive Retryable : Type := Send | Recv.

(** [DeferredOp]; the owned descriptor is its number. *)
Record DeferredOp : Type := mkDeferred { fd : Z; len : Z; opcode : Retryable }.

#[global] Instance Retryable_eq_dec : EqDecision Retryable.
Proof. solve_decision. Defined.
#[global] Instance DeferredOp_eq_dec : EqDecision DeferredOp.
Proof. solve_decision. Defined.

Record InflightBufSlab : Type := mkSlab {
  storage : list Z;
  occupied : list Z;
  retire_pending : list Z;
  notif_expected : list Z;
  notif_ready : list Z;
  generations : list Z;
  op_tokens : list Z;
  deferred : list (option DeferredOp);
  owner : Z;
  cap : Z;
  stride : Z;
}.

Definition set_occupied x s := mkSlab (storage s) x (retire_pending s) (notif_expected s) (notif_ready s)
  (generations s) (op_tokens s) (deferred s) (owner s) (cap s) (stride s).
Definition set_retire_pending x s := mkSlab (storage s) (occupied s) x (notif_expected s) (notif_ready s)
  (generations s) (op_tokens s) (deferred s) (owner s) (cap s) (stride s).
Definition set_notif_expected x s := mkSlab (storage s) (occupied s) (retire_pending s) x (notif_ready s)
  (generations s) (op_tokens s) (deferred s) (owner s) (cap s) (stride s).
Definition set_notif_ready x s := mkSlab (storage s) (occupied s) (retire_pending s) (notif_expected s) x
  (generations s) (op_tokens s) (deferred s) (owner s) (cap s) (stride s).
Definition set_generations x s := mkSlab (storage s) (occupied s) (retire_pending s) (notif_expected s) (notif_ready s)
  x (op_tokens s) (deferred s) (owner s) (cap s) (stride s).
Definition set_op_tokens x s := mkSlab (storage s) (occupied s) (retire_pending s) (notif_expected s) (notif_ready s)
  (generations s) x (deferred s) (owner s) (cap s) (stride s).
Definition set_deferred x s := mkSlab (storage s) (occupied s) (retire_pending s) (notif_expected s) (notif_ready s)
  (generations s) (op_tokens s) x (owner s) (cap s) (stride s).
Definition set_storage x s := mkSlab x (occupied s) (retire_pending s) (notif_expected s) (notif_ready s)
  (generations s) (op_tokens s) (deferred s) (owner s) (cap s) (stride s).

Definition new (mapped : bool) (worker_id cap : Z) : option InflightBufSlab :=
  let cap := Z.min cap DEFAULT_INFLIGHT_CAP in
  let stride := INFLIGHT_BUF_STRIDE in
  if (cap * stride =? 0) || negb mapped then None else
  Some (mkSlab (replicate (Z.to_nat (cap * stride)) 0)
          (replicate BITMAP_WORDS 0) (replicate BITMAP_WORDS 0) (replicate BITMAP_WORDS 0) (replicate BITMAP_WORDS 0)
          (replicate MAX_INFLIGHT_SLOTS 0) (replicate MAX_INFLIGHT_SLOTS 0) (replicate MAX_INFLIGHT_SLOTS None)
          worker_id cap stride).

Definition first_free (s : InflightBufSlab) : option Z := Bitmap.first_free (cap s) (occupied s).

Definition is_live (s : InflightBufSlab) (key : InflightSlotKey) : outcome bool :=
  if negb (worker_id key =? owner s) then Ret false else
  if cap s <=? slot key then Ret false else
  o ← Bitmap.test (occupied s) (slot key);
  if negb o then Ret false else
  g ← Bitmap.index (generations s) (Z.to_nat (slot key));
  Ret (g =? generation key).

Definition allocate (s : InflightBufSlab) (token : Z) : outcome (option InflightSlotKey * InflightBufSlab) :=
  match first_free s with
  | None => Ret (None, s)
  | Some slot =>
      o ← Bitmap.set (occupied s) slot;
      let s := set_occupied o s in
      t ← Bitmap.store (op_tokens s) (Z.to_nat slot) token;
      let s := set_op_tokens t s in
      g ← Bitmap.index (generations s) (Z.to_nat slot);
      Ret (Some (mkKey slot g (owner s) token), s)
  end.

Definition clear_deferred (s : InflightBufSlab) (slot : Z) : outcome (option DeferredOp * InflightBufSlab) :=
  d ← Bitmap.index (deferred s) (Z.to_nat slot);
  ds ← Bitmap.store (deferred s) (Z.to_nat slot) None;
  Ret (d, set_deferred ds s).

(** The clearing sequence the three frees share: the four bits, the deferred
    record, then the generation bump. *)
Definition release (s : InflightBufSlab) (slot : Z) : outcome (option DeferredOp * InflightBufSlab) :=
  o ← Bitmap.clear (occupied s) slot;
  r ← Bitmap.clear (retire_pending s) slot;
  e ← Bitmap.clear (notif_expected s) slot;
  n ← Bitmap.clear (notif_ready s) slot;
  let s := set_notif_ready n (set_notif_expected e (set_retire_pending r (set_occupied o s))) in
  '(d, s) ← clear_deferred s slot;
  g ← Bitmap.index (generations s) (Z.to_nat slot);
  gs ← Bitmap.store (generations s) (Z.to_nat slot) (wrap U64 (g + 1));
  Ret (d, set_generations gs s).

Definition free (s : InflightBufSlab) (key : InflightSlotKey) : outcome (option DeferredOp * InflightBufSlab) :=
  l ← is_live s key;
  if negb l then Ret (None, s) else release s (slot key).

Definition mark_retire_pending (s : InflightBufSlab) (key : InflightSlotKey) : outcome InflightBufSlab :=
  l ← is_live s key;
  if negb l then Ret s else
  r ← Bitmap.set (retire_pending s) (slot key);
  Ret (set_retire_pending r s).

(** [free_by_op_token]: [Some d] is [was_freed] with the record [d]; the
    [u16::try_from] of the scanned slot gives up without freeing. *)
Definition free_by_op_token (s : InflightBufSlab) (token : Z) : outcome (bool * option DeferredOp * InflightBufSlab) :=
  let hit slot :=
    t ← Bitmap.index (op_tokens s) (Z.to_nat slot);
    if negb (t =? token) then Ret false else Bitmap.test (occupied s) slot in
  found ← Bitmap.scan hit (retire_pending s) BITMAP_WORDS;
  match found with
  | None => Ret (false, None, s)
  | Some slot =>
      match try_from U16 slot with
      | None => Ret (false, None, s)
      | Some slot => '(d, s) ← release s slot; Ret (true, d, s)
      end
  end.

Definition free_if_retire_pending (s : InflightBufSlab) (slot generation_low16 : Z)
    : outcome (option DeferredOp * InflightBufSlab) :=
  if cap s <=? slot then Ret (None, s) else
  is_occupied ← Bitmap.test (occupied s) slot;
  is_pending ← Bitmap.test (retire_pending s) slot;
  g ← Bitmap.index (generations s) (Z.to_nat slot);
  let matches_generation := Z.land g 0xFFFF =? generation_low16 in
  is_notif_expected ← Bitmap.test (notif_expected s) slot;
  is_notif_ready ← Bitmap.test (notif_ready s) slot;
  if negb is_occupied || negb is_pending || negb matches_generation || (is_notif_expected && negb is_notif_ready)
  then Ret (None, s) else release s slot.

(** The scan the token-keyed operations share: the first occupied slot whose
    op carries [token]. *)
Definition occupied_by_token (s : InflightBufSlab) (token : Z) : outcome (option Z) :=
  let hit slot := t ← Bitmap.index (op_tokens s) (Z.to_nat slot); Ret (t =? token) in
  Bitmap.scan hit (occupied s) BITMAP_WORDS.

Definition mark_deferred_by_op_token (s : InflightBufSlab) (token : Z) (op : DeferredOp) : outcome (bool * InflightBufSlab) :=
  found ← occupied_by_token s token;
  match found with
  | None => Ret (false, s)
  | Some slot => ds ← Bitmap.store (deferred s) (Z.to_nat slot) (Some op); Ret (true, set_deferred ds s)
  end.

Definition deferred_key_by_fd (s : InflightBufSlab) (raw : Z) : outcome (option InflightSlotKey) :=
  let hit slot :=
    d ← Bitmap.index (deferred s) (Z.to_nat slot);
    Ret (match d with None => false | Some d => fd d =? raw end) in
  found ← Bitmap.scan hit (occupied s) BITMAP_WORDS;
  match found ≫= try_from U16 with
  | None => Ret None
  | Some slot =>
      g ← Bitmap.index (generations s) (Z.to_nat slot);
      t ← Bitmap.index (op_tokens s) (Z.to_nat slot);
      Ret (Some (mkKey slot g (owner s) t))
  end.

Definition retire_deferred (s : InflightBufSlab) (key : InflightSlotKey) : outcome (option DeferredOp * InflightBufSlab) :=
  l ← is_live s key;
  if negb l then Ret (None, s) else clear_deferred s (slot key).

Definition mark_notif_expected_by_op_token (s : InflightBufSlab) (token : Z) : outcome InflightBufSlab :=
  found ← occupied_by_token s token;
  match found with
  | None => Ret s
  | Some slot => e ← Bitmap.set (notif_expected s) slot; Ret (set_notif_expected e s)
  end.

Definition mark_notif_ready_by_op_token (s : InflightBufSlab) (token : Z) : outcome InflightBufSlab :=
  found ← occupied_by_token s token;
  match found with
  | None => Ret s
  | Some slot => n ← Bitmap.set (notif_ready s) slot; Ret (set_notif_ready n s)
  end.

Definition is_notif_ready (s : InflightBufSlab) (key : InflightSlotKey) : outcome bool :=
  l ← is_live s key;
  if negb l then Ret false else Bitmap.test (notif_ready s) (slot key).

(** ** The slot bytes *)

(** [&bytes[offset..end]]: a range past the region panics. *)
Definition slice (bytes : list Z) (offset finish : Z) : outcome (list Z) :=
  if (offset <=? finish) && (finish <=? Z.of_nat (length bytes))
  then Ret (take (Z.to_nat (finish - offset)) (drop (Z.to_nat offset) bytes)) else Panic.

(** Overwriting the region from [offset] on with [src]. *)
Definition write_at (bytes : list Z) (offset : Z) (src : list Z) : list Z :=
  take (Z.to_nat offset) bytes ++ src ++ drop (Z.to_nat offset + length src) bytes.

(** [slot_ptr]: the offset of the slot in the region. *)
Definition slot_ptr (s : InflightBufSlab) (key : InflightSlotKey) : outcome (option Z) :=
  l ← is_live s key;
  if negb l then Ret None else Ret (Some (slot key * stride s)).

Definition slot_slice (s : InflightBufSlab) (key : InflightSlotKey) (len : Z) : outcome (option (list Z)) :=
  l ← is_live s key;
  if negb l then Ret None else
  let offset := slot key * stride s in
  bytes ← slice (storage s) offset (offset + Z.min len (stride s));
  Ret (Some bytes).

Definition slot_array (s : InflightBufSlab) (key : InflightSlotKey) : outcome (option (list Z)) :=
  l ← is_live s key;
  if negb l then Ret None else
  let offset := slot key * stride s in
  bytes ← slice (storage s) offset (offset + stride s);
  Ret (if Z.of_nat (length bytes) =? INFLIGHT_BUF_STRIDE then Some bytes else None).

(** [retry_parts]: the descriptor, the byte range and the direction of a retry. *)
Definition retry_parts (s : InflightBufSlab) (key : InflightSlotKey) : outcome (option (Z * list Z * Retryable)) :=
  l ← is_live s key;
  if negb l then Ret None else
  d ← Bitmap.index (deferred s) (Z.to_nat (slot key));
  match d with
  | None => Ret None
  | Some d =>
      let offset := slot key * stride s in
      bytes ← slice (storage s) offset (offset + Z.min (len d) (stride s));
      Ret (Some (fd d, bytes, opcode d))
  end.

End Inflight.
