(* ===== verification/InflightSpec.v ===== *)
(** * The in-flight registry, slot by slot

    The view of an [InflightBufSlab] as one entry per slot, its well-formedness
    invariant, and what every operation does to the entries: each lemma also
    says that the operation neither panics nor runs out of turns. *)

From S2P Require Import Prelude Words Bitmap IoTokens InflightSlab.
From stdpp Require Import base tactics option list numbers.

Local Open Scope Z_scope.

Module InflightSpec.
Import IoTokens Inflight.

(** One slot: its four bits, its generation, op token and deferred record. *)
Record entry : Type := mkEntry {
  e_occ : bool; e_ret : bool; e_exp : bool; e_rdy : bool;
  e_gen : Z; e_tok : Z; e_def : option DeferredOp;
}.

Definition at_ (s : InflightBufSlab) (i : Z) : entry :=
  mkEntry (Bitmap.has (occupied s) i) (Bitmap.has (retire_pending s) i)
    (Bitmap.has (notif_expected s) i) (Bitmap.has (notif_ready s) i)
    (nth (Z.to_nat i) (generations s) 0) (nth (Z.to_nat i) (op_tokens s) 0)
    (nth (Z.to_nat i) (deferred s) None).

Definition ranged (i : Z) : Prop := 0 <= i < 256.

(** A slot that is not occupied carries no mark and owns no record. *)
Definition entry_ok (cap i : Z) (e : entry) : Prop :=
  (e_occ e = true -> i < cap) /\ fits 64 (e_gen e) /\
  (e_occ e = false -> e_ret e = false /\ e_exp e = false /\ e_rdy e = false /\ e_def e = None).

Record shape (s : InflightBufSlab) : Prop := {
  sh_occ : Bitmap.wf BITMAP_WORDS (occupied s);
  sh_ret : Bitmap.wf BITMAP_WORDS (retire_pending s);
  sh_exp : Bitmap.wf BITMAP_WORDS (notif_expected s);
  sh_rdy : Bitmap.wf BITMAP_WORDS (notif_ready s);
  sh_gen : length (generations s) = MAX_INFLIGHT_SLOTS;
  sh_tok : length (op_tokens s) = MAX_INFLIGHT_SLOTS;
  sh_def : length (deferred s) = MAX_INFLIGHT_SLOTS;
  sh_cap : 0 < cap s <= DEFAULT_INFLIGHT_CAP;
  sh_stride : stride s = INFLIGHT_BUF_STRIDE;
  sh_bytes : Z.of_nat (length (storage s)) = cap s * stride s;
}.

Record wf (s : InflightBufSlab) : Prop := {
  wf_shape : shape s;
  wf_entry i : ranged i -> entry_ok (cap s) i (at_ s i);
}.

(** [s'] is [s] with slot [i] rewritten to [e]. *)
Record becomes (s s' : InflightBufSlab) (i : Z) (e : entry) : Prop := {
  be_shape : shape s';
  be_at j : ranged j -> at_ s' j = if decide (j = i) then e else at_ s j;
  be_owner : owner s' = owner s;
  be_cap : cap s' = cap s;
  be_bytes : storage s' = storage s;
}.

Lemma becomes_wf s s' i e : wf s -> becomes s s' i e -> entry_ok (cap s) i e -> wf s'.
Proof.
  intros [W We] [Sh Ha _ Hc _] He. split; [done|]. intros j Hj. rewrite Ha, Hc by done. case_decide; [by subst|by apply We].
Qed.

Lemma becomes_trans s s1 s2 i e1 e2 : becomes s s1 i e1 -> becomes s1 s2 i e2 -> becomes s s2 i e2.
Proof.
  intros [S1 A1 O1 C1 B1] [S2 A2 O2 C2 B2]. split; [done| |congruence..].
  intros j Hj. rewrite A2, A1 by done. by case_decide.
Qed.

Lemma slot_in_ranged i : Bitmap.slot_in BITMAP_WORDS i <-> ranged i.
Proof. unfold Bitmap.slot_in, ranged, BITMAP_WORDS. lia. Qed.

(** ** Array accesses *)

Lemma index_in {A} (l : list A) (d : A) i : length l = MAX_INFLIGHT_SLOTS -> ranged i ->
  Bitmap.index l (Z.to_nat i) = Ret (nth (Z.to_nat i) l d).
Proof.
  intros Hl Hi. unfold Bitmap.index. destruct (lookup_lt_is_Some_2 l (Z.to_nat i)) as [x Hx].
  { rewrite Hl. unfold ranged, MAX_INFLIGHT_SLOTS in *. lia. }
  rewrite Hx. f_equal. symmetry. by apply nth_lookup_Some.
Qed.

Lemma store_in {A} (l : list A) (d : A) i x : length l = MAX_INFLIGHT_SLOTS -> ranged i ->
  exists l', Bitmap.store l (Z.to_nat i) x = Ret l' /\ length l' = MAX_INFLIGHT_SLOTS /\
    forall j, ranged j -> nth (Z.to_nat j) l' d = if decide (j = i) then x else nth (Z.to_nat j) l d.
Proof.
  intros Hl Hi. unfold Bitmap.store. assert (Z.to_nat i < length l)%nat by (unfold ranged, MAX_INFLIGHT_SLOTS in *; lia).
  rewrite decide_True by done. eexists. split; [done|]. split; [by rewrite length_insert|]. intros j Hj. case_decide as Hd.
  - subst j. apply nth_lookup_Some. by rewrite list_lookup_insert_eq.
  - rewrite !nth_lookup, list_lookup_insert_ne; [done|]. unfold ranged in *. lia.
Qed.

Section ops.
Context (s : InflightBufSlab) (W : wf s).
Let Sh : shape s := wf_shape s W.

Lemma occ_in i : e_occ (at_ s i) = true -> ranged i -> i < cap s.
Proof. intros H Hi. by apply (wf_entry s W i Hi). Qed.

(** A single-bitmap or single-table update. *)
Ltac becomes_tac Ha :=
  split; [destruct Sh; split; cbn; done| |done..];
  let j := fresh in intros j ?; unfold at_; cbn; rewrite ?Ha by (apply slot_in_ranged || idtac; done);
  case_decide; subst; done.

Lemma set_occ_becomes i b : ranged i -> Bitmap.wf BITMAP_WORDS b ->
  forall v, (forall j, Bitmap.slot_in BITMAP_WORDS j -> Bitmap.has b j = if decide (j = i) then v else Bitmap.has (occupied s) j) ->
  let e := at_ s i in
  becomes s (set_occupied b s) i (mkEntry v (e_ret e) (e_exp e) (e_rdy e) (e_gen e) (e_tok e) (e_def e)).
Proof. intros Hi Hb v Ha. becomes_tac Ha. Qed.

Lemma set_ret_becomes i b : ranged i -> Bitmap.wf BITMAP_WORDS b ->
  forall v, (forall j, Bitmap.slot_in BITMAP_WORDS j -> Bitmap.has b j = if decide (j = i) then v else Bitmap.has (retire_pending s) j) ->
  let e := at_ s i in
  becomes s (set_retire_pending b s) i (mkEntry (e_occ e) v (e_exp e) (e_rdy e) (e_gen e) (e_tok e) (e_def e)).
Proof. intros Hi Hb v Ha. becomes_tac Ha. Qed.

Lemma set_exp_becomes i b : ranged i -> Bitmap.wf BITMAP_WORDS b ->
  forall v, (forall j, Bitmap.slot_in BITMAP_WORDS j -> Bitmap.has b j = if decide (j = i) then v else Bitmap.has (notif_expected s) j) ->
  let e := at_ s i in
  becomes s (set_notif_expected b s) i (mkEntry (e_occ e) (e_ret e) v (e_rdy e) (e_gen e) (e_tok e) (e_def e)).
Proof. intros Hi Hb v Ha. becomes_tac Ha. Qed.

Lemma set_rdy_becomes i b : ranged i -> Bitmap.wf BITMAP_WORDS b ->
  forall v, (forall j, Bitmap.slot_in BITMAP_WORDS j -> Bitmap.has b j = if decide (j = i) then v else Bitmap.has (notif_ready s) j) ->
  let e := at_ s i in
  becomes s (set_notif_ready b s) i (mkEntry (e_occ e) (e_ret e) (e_exp e) v (e_gen e) (e_tok e) (e_def e)).
Proof. intros Hi Hb v Ha. becomes_tac Ha. Qed.

(** ** Liveness of a handle *)

(** [key] names an occupied slot of this registry at its generation. *)
Definition live (key : InflightSlotKey) : bool :=
  (worker_id key =? owner s) && (slot key <? cap s) && e_occ (at_ s (slot key)) && (e_gen (at_ s (slot key)) =? generation key).

Lemma is_live_spec key : 0 <= slot key -> is_live s key = Ret (live key).
Proof.
  intros H0. unfold is_live, live. destruct (Z.eqb_spec (worker_id key) (owner s)) as [_|]; [|done]. cbn [negb andb].
  destruct (Z.leb_spec (cap s) (slot key)), (Z.ltb_spec (slot key) (cap s)); try lia; [done|]. cbn [andb].
  assert (ranged (slot key)) as Hr by (destruct (sh_cap s Sh); unfold DEFAULT_INFLIGHT_CAP, ranged in *; lia).
  rewrite (Bitmap.test_spec BITMAP_WORDS) by (apply Sh || by apply slot_in_ranged). cbn [mbind outcome_bind at_ e_occ].
  destruct (Bitmap.has (occupied s) (slot key)); cbn [negb andb]; [|done].
  rewrite (index_in _ 0) by (apply Sh || done). done.
Qed.

Lemma live_ranged key : 0 <= slot key -> live key = true -> ranged (slot key) /\ slot key < cap s.
Proof. intros H0 Hl. unfold live in Hl. destruct (sh_cap s Sh). unfold DEFAULT_INFLIGHT_CAP, ranged in *. split; lia. Qed.

(** ** Allocation *)

Lemma allocate_spec token :
  exists r s', allocate s token = Ret (r, s') /\
  match r with
  | None => s' = s /\ forall i, 0 <= i < cap s -> e_occ (at_ s i) = true
  | Some key => ranged (slot key) /\ slot key < cap s /\ e_occ (at_ s (slot key)) = false /\
      (forall j, 0 <= j < slot key -> e_occ (at_ s j) = true) /\
      key = mkKey (slot key) (e_gen (at_ s (slot key))) (owner s) token /\
      becomes s s' (slot key) (mkEntry true false false false (e_gen (at_ s (slot key))) token None)
  end.
Proof.
  unfold allocate, first_free. destruct Sh as [So Sr Se Sn Sg St Sd Sc Ss Sb].
  pose proof (Bitmap.first_free_spec BITMAP_WORDS (cap s) (occupied s) So) as Hff.
  unfold BITMAP_WORDS, DEFAULT_INFLIGHT_CAP in *. specialize (Hff ltac:(lia) ltac:(lia)).
  destruct (Bitmap.first_free (cap s) (occupied s)) as [i|]; [|do 2 eexists; split; [done|]; split; [done|]; apply Hff].
  destruct Hff as (Hi & Hfree & Hbelow). assert (ranged i) as Hr by (unfold ranged; lia).
  destruct (Bitmap.set_spec BITMAP_WORDS (occupied s) i So) as (o & Ho & Wo & Hoa); [by apply slot_in_ranged|].
  destruct (store_in (op_tokens s) 0 i token St Hr) as (t & Ht & Lt & Hta).
  rewrite Ho. cbn [mbind outcome_bind set_occupied op_tokens]. rewrite Ht. cbn [mbind outcome_bind set_op_tokens set_occupied generations].
  rewrite (index_in _ 0) by done. cbn [mbind outcome_bind]. do 2 eexists. split; [done|]. cbn [slot].
  do 3 (split; [done || lia|]). split; [exact Hbelow|]. split; [done|].
  split; [split; done| |done..]. intros j Hj. unfold at_. cbn. rewrite Hoa, Hta by (done || by apply slot_in_ranged).
  case_decide; [subst j|done]. destruct (wf_entry s W i Hr) as (_ & _ & Hcl). destruct (Hcl Hfree) as (H1 & H2 & H3 & H4).
  cbn in H1, H2, H3, H4. by rewrite H1, H2, H3, H4.
Qed.

(** ** Release *)

Lemma slots_release_spec i : ranged i ->
  exists s', release s i = Ret (e_def (at_ s i), s') /\
  becomes s s' i (mkEntry false false false false (wrap U64 (e_gen (at_ s i) + 1)) (e_tok (at_ s i)) None).
Proof.
  intros Hi. destruct Sh as [So Sr Se Sn Sg St Sd Sc Ss Sb]. assert (Bitmap.slot_in BITMAP_WORDS i) as Hsi by (by apply slot_in_ranged).
  destruct (Bitmap.clear_spec BITMAP_WORDS (occupied s) i So Hsi) as (o & Ho & Wo & Ao).
  destruct (Bitmap.clear_spec BITMAP_WORDS (retire_pending s) i Sr Hsi) as (r & Hr & Wr & Ar).
  destruct (Bitmap.clear_spec BITMAP_WORDS (notif_expected s) i Se Hsi) as (e & He & We & Ae).
  destruct (Bitmap.clear_spec BITMAP_WORDS (notif_ready s) i Sn Hsi) as (n & Hn & Wn & An).
  destruct (store_in (deferred s) None i None Sd Hi) as (ds & Hds & Lds & Ads).
  destruct (store_in (generations s) 0 i (wrap U64 (nth (Z.to_nat i) (generations s) 0 + 1)) Sg Hi) as (gs & Hgs & Lgs & Ags).
  unfold release, clear_deferred. rewrite Ho. cbn [mbind outcome_bind]. rewrite Hr. cbn [mbind outcome_bind]. rewrite He.
  cbn [mbind outcome_bind]. rewrite Hn. cbn [mbind outcome_bind].
  cbn [set_notif_ready set_notif_expected set_retire_pending set_occupied deferred generations].
  rewrite (index_in _ None) by done. cbn [mbind outcome_bind]. rewrite Hds. cbn [mbind outcome_bind]. cbn [set_deferred set_notif_ready set_notif_expected set_retire_pending set_occupied deferred generations].
  rewrite (index_in _ 0) by done. cbn [mbind outcome_bind]. rewrite Hgs. cbn [mbind outcome_bind].
  eexists. split; [done|]. split; [split; done| |done..]. intros j Hj. assert (Bitmap.slot_in BITMAP_WORDS j) as Hsj by (by apply slot_in_ranged).
  unfold at_. cbn. rewrite Ao, Ar, Ae, An, Ads, Ags by done. by case_decide; subst.
Qed.

Lemma free_spec key : 0 <= slot key ->
  exists d s', free s key = Ret (d, s') /\
  if live key then d = e_def (at_ s (slot key)) /\
    becomes s s' (slot key) (mkEntry false false false false (wrap U64 (generation key + 1)) (e_tok (at_ s (slot key))) None)
  else d = None /\ s' = s.
Proof.
  intros H0. unfold free. rewrite is_live_spec by done. cbn [mbind outcome_bind]. destruct (live key) eqn:Hl; cbn [negb]; [|by do 2 eexists].
  destruct (live_ranged key H0 Hl) as [Hr _]. destruct (slots_release_spec (slot key) Hr) as (s' & E & B). rewrite E. do 2 eexists. split; [done|].
  split; [done|]. unfold live in Hl. apply andb_true_iff in Hl as [_ Hg]. apply Z.eqb_eq in Hg. by rewrite <- Hg.
Qed.

Lemma mark_retire_pending_spec key : 0 <= slot key ->
  exists s', mark_retire_pending s key = Ret s' /\
  if live key then let e := at_ s (slot key) in
    becomes s s' (slot key) (mkEntry true true (e_exp e) (e_rdy e) (e_gen e) (e_tok e) (e_def e))
  else s' = s.
Proof.
  intros H0. unfold mark_retire_pending. rewrite is_live_spec by done. cbn [mbind outcome_bind].
  destruct (live key) eqn:Hl; cbn [negb]; [|by eexists]. destruct (live_ranged key H0 Hl) as [Hr _].
  destruct (Bitmap.set_spec BITMAP_WORDS (retire_pending s) (slot key)) as (r & E & Wr & Ar); [apply Sh|by apply slot_in_ranged|].
  rewrite E. cbn [mbind outcome_bind]. eexists. split; [done|]. cbn.
  assert (e_occ (at_ s (slot key)) = true) as Ho. { unfold live in Hl. apply andb_true_iff in Hl as [Hl _]. by apply andb_true_iff in Hl as [_ ?]. }
  pose proof (set_ret_becomes (slot key) r Hr Wr true Ar) as B. cbn zeta in B. by rewrite Ho in B.
Qed.

(** ** Frees keyed by token or slot *)

Lemma token_index i token : ranged i ->
  (t ← Bitmap.index (op_tokens s) (Z.to_nat i); Ret (t =? token)) = Ret (e_tok (at_ s i) =? token).
Proof. intros Hi. by rewrite (index_in _ 0) by (apply Sh || done). Qed.

Lemma free_by_op_token_spec token :
  exists b d s', free_by_op_token s token = Ret (b, d, s') /\
  if b : bool then exists i, ranged i /\ e_occ (at_ s i) = true /\ e_ret (at_ s i) = true /\ e_tok (at_ s i) = token /\
    d = e_def (at_ s i) /\ becomes s s' i (mkEntry false false false false (wrap U64 (e_gen (at_ s i) + 1)) token None)
  else s' = s /\ d = None /\ forall i, ranged i -> e_occ (at_ s i) = true -> e_ret (at_ s i) = true -> e_tok (at_ s i) <> token.
Proof.
  unfold free_by_op_token.
  set (hit := fun i => t ← Bitmap.index (op_tokens s) (Z.to_nat i); if negb (t =? token) then Ret false else Bitmap.test (occupied s) i).
  assert (forall i, Bitmap.slot_in BITMAP_WORDS i -> hit i = Ret ((e_tok (at_ s i) =? token) && e_occ (at_ s i))) as Hhit.
  { intros i Hi. unfold hit. rewrite (index_in _ 0) by (apply Sh || by apply slot_in_ranged). cbn [mbind outcome_bind].
    cbn [at_ e_tok e_occ]. destruct (_ =? token); cbn [negb andb]; [|done]. apply (Bitmap.test_spec BITMAP_WORDS); [apply Sh|done]. }
  destruct (Bitmap.scan_spec hit (fun i => (e_tok (at_ s i) =? token) && e_occ (at_ s i)) BITMAP_WORDS (retire_pending s)) as (r & -> & Hr);
    [apply Sh|done|]. cbn [mbind outcome_bind]. destruct r as [i|].
  - destruct Hr as (Hi & Hret & Hp & _). apply (proj1 (slot_in_ranged i)) in Hi. apply andb_true_iff in Hp as [Ht Ho]. apply Z.eqb_eq in Ht.
    unfold try_from. destruct (Z.ltb_spec i (2 ^ 16)); [|unfold ranged in Hi; lia].
    destruct (slots_release_spec i Hi) as (s' & E & B). rewrite E. cbn [mbind outcome_bind]. do 3 eexists. split; [done|]. cbn. exists i.
    do 5 (split; [done|]). by rewrite <- Ht.
  - do 3 eexists. split; [done|]. cbn. do 2 (split; [done|]). intros i Hi Ho Hret Ht.
    specialize (Hr i (proj2 (slot_in_ranged i) Hi) Hret). cbn in Hr. cbn in Ht, Ho. by rewrite Ht, Ho, Z.eqb_refl in Hr.
Qed.

(** The entry a cancel's [-ENOENT] completion may free. *)
Definition reclaimable (e : entry) (generation_low16 : Z) : bool :=
  e_occ e && e_ret e && (e_gen e mod 2 ^ 16 =? generation_low16) && negb (e_exp e && negb (e_rdy e)).

Lemma free_if_retire_pending_spec i low : 0 <= i ->
  exists d s', free_if_retire_pending s i low = Ret (d, s') /\
  if (i <? cap s) && reclaimable (at_ s i) low then d = e_def (at_ s i) /\
    becomes s s' i (mkEntry false false false false (wrap U64 (e_gen (at_ s i) + 1)) (e_tok (at_ s i)) None)
  else d = None /\ s' = s.
Proof.
  intros H0. unfold free_if_retire_pending. destruct (Z.leb_spec (cap s) i), (Z.ltb_spec i (cap s)); try lia; [by do 2 eexists|]. cbn [andb].
  assert (ranged i) as Hi by (destruct (sh_cap s Sh); unfold DEFAULT_INFLIGHT_CAP, ranged in *; lia).
  assert (Bitmap.slot_in BITMAP_WORDS i) as Hs by (by apply slot_in_ranged).
  rewrite !(Bitmap.test_spec BITMAP_WORDS), (index_in _ 0) by (apply Sh || done). cbn [mbind outcome_bind].
  change 0xFFFF with (2 ^ 16 - 1). rewrite land_ones_mod by lia.
  assert (forall a b c d, negb a || negb b || negb c || d = negb (a && b && c && negb d)) as Hn by (by intros [] [] [] []).
  rewrite Hn. unfold reclaimable. cbn [at_ e_occ e_ret e_exp e_rdy e_gen].
  destruct (_ && _ && _ && _); cbn [negb]; [|by do 2 eexists].
  destruct (slots_release_spec i Hi) as (s' & E & B). rewrite E. by do 2 eexists.
Qed.

(** ** Marks keyed by token *)

Lemma occupied_by_token_spec token :
  exists r, occupied_by_token s token = Ret r /\
  match r with
  | Some i => ranged i /\ e_occ (at_ s i) = true /\ e_tok (at_ s i) = token /\
      forall j, 0 <= j < i -> e_occ (at_ s j) = true -> e_tok (at_ s j) <> token
  | None => forall i, ranged i -> e_occ (at_ s i) = true -> e_tok (at_ s i) <> token
  end.
Proof.
  unfold occupied_by_token.
  destruct (Bitmap.scan_spec (fun i => t ← Bitmap.index (op_tokens s) (Z.to_nat i); Ret (t =? token))
    (fun i => e_tok (at_ s i) =? token) BITMAP_WORDS (occupied s)) as (r & -> & Hr); [apply Sh| |].
  { intros i Hi. by apply token_index, slot_in_ranged. }
  eexists. split; [done|]. destruct r as [i|].
  - destruct Hr as (Hi & Ho & Ht & Hmin). split; [by apply slot_in_ranged|]. split; [done|]. split; [by apply Z.eqb_eq|].
    intros j Hj Hoj Htj. specialize (Hmin j Hj Hoj). cbn in Hmin. cbn in Htj. by rewrite Htj, Z.eqb_refl in Hmin.
  - intros i Hi Ho Ht. specialize (Hr i (proj2 (slot_in_ranged i) Hi) Ho). cbn in Hr. cbn in Ht. by rewrite Ht, Z.eqb_refl in Hr.
Qed.

Lemma mark_notif_expected_spec token :
  exists s', mark_notif_expected_by_op_token s token = Ret s' /\
  ((exists i, let e := at_ s i in ranged i /\ e_occ e = true /\ e_tok e = token /\
      becomes s s' i (mkEntry true (e_ret e) true (e_rdy e) (e_gen e) token (e_def e))) \/
   s' = s /\ forall i, ranged i -> e_occ (at_ s i) = true -> e_tok (at_ s i) <> token).
Proof.
  unfold mark_notif_expected_by_op_token. destruct (occupied_by_token_spec token) as (r & -> & Hr). cbn [mbind outcome_bind].
  destruct r as [i|]; [|by eexists; split; [done|]; right]. destruct Hr as (Hi & Ho & Ht & _).
  destruct (Bitmap.set_spec BITMAP_WORDS (notif_expected s) i) as (b & -> & Wb & Ab); [apply Sh|by apply slot_in_ranged|].
  cbn [mbind outcome_bind]. eexists. split; [done|]. left. exists i. cbn zeta. do 3 (split; [done|]).
  pose proof (set_exp_becomes i b Hi Wb true Ab) as B. cbn zeta in B. by rewrite Ho, Ht in B.
Qed.

Lemma mark_notif_ready_spec token :
  exists s', mark_notif_ready_by_op_token s token = Ret s' /\
  ((exists i, let e := at_ s i in ranged i /\ e_occ e = true /\ e_tok e = token /\
      becomes s s' i (mkEntry true (e_ret e) (e_exp e) true (e_gen e) token (e_def e))) \/
   s' = s /\ forall i, ranged i -> e_occ (at_ s i) = true -> e_tok (at_ s i) <> token).
Proof.
  unfold mark_notif_ready_by_op_token. destruct (occupied_by_token_spec token) as (r & -> & Hr). cbn [mbind outcome_bind].
  destruct r as [i|]; [|by eexists; split; [done|]; right]. destruct Hr as (Hi & Ho & Ht & _).
  destruct (Bitmap.set_spec BITMAP_WORDS (notif_ready s) i) as (b & -> & Wb & Ab); [apply Sh|by apply slot_in_ranged|].
  cbn [mbind outcome_bind]. eexists. split; [done|]. left. exists i. cbn zeta. do 3 (split; [done|]).
  pose proof (set_rdy_becomes i b Hi Wb true Ab) as B. cbn zeta in B. by rewrite Ho, Ht in B.
Qed.

Lemma is_notif_ready_spec key : 0 <= slot key ->
  is_notif_ready s key = Ret (live key && e_rdy (at_ s (slot key))).
Proof.
  intros H0. unfold is_notif_ready. rewrite is_live_spec by done. cbn [mbind outcome_bind]. destruct (live key) eqn:Hl; cbn [negb andb]; [|done].
  destruct (live_ranged key H0 Hl) as [Hr _]. apply (Bitmap.test_spec BITMAP_WORDS); [apply Sh|by apply slot_in_ranged].
Qed.

End ops.

(** ** A fresh registry *)

Lemma slots_new_spec mapped w c s : 0 <= c -> new mapped w c = Some s ->
  wf s /\ owner s = w /\ cap s = Z.min c DEFAULT_INFLIGHT_CAP /\ forall i, ranged i -> at_ s i = mkEntry false false false false 0 0 None.
Proof.
  intros Hc H. unfold new in H. destruct (_ || _) eqn:E; [done|]. apply orb_false_iff in E as [E1 E2]. apply Z.eqb_neq in E1.
  unfold DEFAULT_INFLIGHT_CAP, INFLIGHT_BUF_STRIDE in *. apply (inj Some) in H. subst s.
  assert (Bitmap.wf BITMAP_WORDS (replicate BITMAP_WORDS 0)) as Hw by (split; [done|]; cbn; repeat constructor; unfold fits; lia).
  assert (forall i, ranged i -> Bitmap.has (replicate BITMAP_WORDS 0) i = false) as Hh.
  { intros i Hi. unfold Bitmap.has. rewrite nth_lookup. destruct (_ !! _) as [x|] eqn:Ex; cbn; [|apply Z.bits_0].
    apply lookup_replicate in Ex as [-> _]. apply Z.bits_0. }
  assert (forall A (d : A) i, nth i (replicate MAX_INFLIGHT_SLOTS d) d = d) as Hn.
  { intros A d i. rewrite nth_lookup. destruct (_ !! _) as [x|] eqn:Ex; cbn; [|done]. by apply lookup_replicate in Ex as [-> _]. }
  match goal with |- wf ?s0 /\ _ => assert (forall i, ranged i -> at_ s0 i = mkEntry false false false false 0 0 None) as Ha end.
  { intros i Hi. unfold at_. cbn [occupied retire_pending notif_expected notif_ready generations op_tokens deferred]. by rewrite !Hh, !Hn. }
  split; [|done]. split.
  - split; cbn [occupied retire_pending notif_expected notif_ready generations op_tokens deferred cap stride storage];
      rewrite ?length_replicate; unfold DEFAULT_INFLIGHT_CAP, INFLIGHT_BUF_STRIDE; done || lia.
  - intros i Hi. rewrite Ha by done. split; [done|]. split; [unfold fits; cbn; lia|done].
Qed.

End InflightSpec.
