(* ===== verification/SockAddr.v ===== *)
(** * Socket addresses

    Models src/crates/kwokka-io/src/addr: the Unix-domain address with its
    inline name, the three-way [SockAddr], and the packing into a
    [sockaddr_storage] buffer the kernel reads (and, for a received datagram,
    writes).  A byte is a [Z] below 256, an array the list of its bytes; a
    slice copied onto a range of another length panics.  The target is 64-bit
    little-endian Linux, whose [AF_*] values these are. *)

From S2P Require Import Prelude Words Bitmap IoTokens InflightSlab.
From stdpp Require Import base tactics option list numbers.

Local Open Scope Z_scope.

(** ** Integers as bytes, ranges of an array *)

Module Octets.
Import Inflight.

Definition octet (z : Z) : Prop := 0 <= z < 256.
Definition octets (n : nat) (l : list Z) : Prop := length l = n /\ Forall octet l.

Fixpoint to_le (n : nat) (z : Z) : list Z :=
  match n with O => [] | S n => z mod 256 :: to_le n (z / 256) end.
Fixpoint of_le (bs : list Z) : Z := match bs with [] => 0 | b :: bs => b + 256 * of_le bs end.
Definition to_be (n : nat) (z : Z) : list Z := reverse (to_le n z).
Definition of_be (bs : list Z) : Z := of_le (reverse bs).

(** [dst[a..b].copy_from_slice(src)]. *)
Definition copy_range (dst : list Z) (a b : Z) (src : list Z) : outcome (list Z) :=
  if (a <=? b) && (b <=? Z.of_nat (length dst)) && (Z.of_nat (length src) =? b - a)
  then Ret (write_at dst a src) else Panic.

(** The bytes [bs] lie at offset [o] of [l]. *)
Definition has (l : list Z) (o : Z) (bs : list Z) : Prop :=
  exists pre post, l = pre ++ bs ++ post /\ Z.of_nat (length pre) = o.

#[global] Instance octet_dec z : Decision (octet z).
Proof. unfold octet. apply _. Defined.
#[global] Instance octets_dec n l : Decision (octets n l).
Proof. unfold octets. apply _. Defined.

Lemma length_to_le n z : length (to_le n z) = n.
Proof. revert z. induction n as [|n IH]; intros z; cbn; [done|]. by rewrite IH. Qed.
Lemma length_to_be n z : length (to_be n z) = n.
Proof. unfold to_be. by rewrite length_reverse, length_to_le. Qed.

Lemma of_to_le n z : fits (8 * Z.of_nat n) z -> of_le (to_le n z) = z.
Proof.
  revert z. induction n as [|n IH]; intros z Hz; [cbn in *; unfold fits in Hz; cbn in Hz; lia|].
  cbn [to_le of_le]. rewrite IH; [pose proof (Z.div_mod z 256); lia|].
  unfold fits in *. split; [apply Z.div_pos; lia|]. apply Z.div_lt_upper_bound; [lia|].
  replace (8 * Z.of_nat (S n)) with (8 + 8 * Z.of_nat n) in Hz by lia. rewrite Z.pow_add_r in Hz by lia. lia.
Qed.
Lemma of_to_be n z : fits (8 * Z.of_nat n) z -> of_be (to_be n z) = z.
Proof. intros Hz. unfold of_be, to_be. rewrite reverse_involutive. by apply of_to_le. Qed.

Lemma to_of_le bs : Forall octet bs -> to_le (length bs) (of_le bs) = bs.
Proof.
  unfold octet. induction 1 as [|b bs Hb _ IH]; cbn [length to_le of_le]; [done|]. f_equal.
  - rewrite Z.mul_comm, Z.mod_add, Z.mod_small; lia.
  - rewrite Z.mul_comm, Z.div_add, Z.div_small, Z.add_0_l by lia. done.
Qed.

Lemma octets_to_le n z : octets n (to_le n z).
Proof.
  split; [apply length_to_le|]. revert z. induction n as [|n IH]; intros z; cbn; constructor; [|apply IH].
  unfold octet. apply Z.mod_pos_bound. lia.
Qed.
Lemma octets_to_be n z : octets n (to_be n z).
Proof. split; [apply length_to_be|]. apply Forall_reverse, octets_to_le. Qed.

Lemma octets_zero n : octets n (replicate n 0).
Proof. split; [apply length_replicate|]. apply Forall_replicate. unfold octet. lia. Qed.

(** *** Reading and writing ranges *)

Lemma has_length l o bs : has l o bs -> 0 <= o /\ o + Z.of_nat (length bs) <= Z.of_nat (length l).
Proof. intros (pre & post & -> & <-). rewrite !length_app. lia. Qed.

Lemma has_all l : has l 0 l.
Proof. exists [], []. by rewrite app_nil_r. Qed.

Lemma has_app l o a b : has l o (a ++ b) <-> has l o a /\ has l (o + Z.of_nat (length a)) b.
Proof.
  split.
  - intros (pre & post & -> & <-). split.
    + exists pre, (b ++ post). by rewrite <- app_assoc.
    + exists (pre ++ a), post. rewrite length_app, <- !app_assoc. split; [done|lia].
  - intros [(pre & post & -> & <-) (pre' & post' & He & Hl)]. exists pre, post'. split; [|done].
    assert (Hp : pre' = pre ++ a).
    { apply (f_equal (take (length pre'))) in He. rewrite take_app_length in He. rewrite <- He.
      replace (length pre') with (length (pre ++ a)) by (rewrite length_app; lia). by rewrite app_assoc, take_app_length. }
    rewrite He, Hp, <- !app_assoc. done.
Qed.

Lemma has_trans l o m o' bs : has l o m -> has m o' bs -> has l (o + o') bs.
Proof.
  intros (pre & post & -> & <-) (pre' & post' & -> & <-). exists (pre ++ pre'), (post' ++ post).
  rewrite length_app, <- !app_assoc. split; [done|lia].
Qed.

(** The bytes at an offset, as a decision. *)
Lemma has_take l o bs : 0 <= o -> has l o bs <-> take (length bs) (drop (Z.to_nat o) l) = bs /\ Z.of_nat (length bs) + o <= Z.of_nat (length l) .
Proof.
  intros Ho. split.
  - intros (pre & post & -> & <-). rewrite Nat2Z.id, drop_app_length, take_app_length, !length_app. split; [done|lia].
  - intros [Ht Hl]. exists (take (Z.to_nat o) l), (drop (length bs) (drop (Z.to_nat o) l)).
    split; [transitivity (take (Z.to_nat o) l ++ take (length bs) (drop (Z.to_nat o) l) ++ drop (length bs) (drop (Z.to_nat o) l)); [by rewrite !take_drop|by rewrite Ht]|].
    rewrite length_take_le by lia. lia.
Qed.

(** A piece of a piece. *)
Lemma has_sub l o m o' bs : has l o m -> has l (o + o') bs -> 0 <= o' -> o' + Z.of_nat (length bs) <= Z.of_nat (length m) -> has m o' bs.
Proof.
  intros (pre & post & -> & <-) Hb H0 Hl. apply has_take in Hb as [Hb _]; [|lia]. apply has_take; [done|]. split; [|lia]. rewrite <- Hb at 2.
  replace (Z.to_nat (Z.of_nat (length pre) + o')) with (length pre + Z.to_nat o')%nat by lia.
  rewrite <- drop_drop, drop_app_length, drop_app_le by lia. rewrite take_app_le; [done|]. rewrite length_drop. lia.
Qed.

Lemma slice_has l o f bs : has l o bs -> f = o + Z.of_nat (length bs) -> slice l o f = Ret bs.
Proof.
  intros H ->. pose proof (has_length _ _ _ H) as Hl. unfold slice.
  destruct (Z.leb_spec o (o + Z.of_nat (length bs))); [|lia].
  destruct (Z.leb_spec (o + Z.of_nat (length bs)) (Z.of_nat (length l))); [|lia]. cbn. f_equal.
  replace (o + Z.of_nat (length bs) - o) with (Z.of_nat (length bs)) by lia. rewrite Nat2Z.id. apply has_take; [lia|done].
Qed.

Lemma has_slice l o f bs : 0 <= o -> slice l o f = Ret bs -> has l o bs /\ f = o + Z.of_nat (length bs).
Proof.
  intros Ho. unfold slice. destruct (Z.leb_spec o f); [|done]. destruct (Z.leb_spec f (Z.of_nat (length l))); [|done]. cbn. intros [= <-].
  rewrite length_take_le by (rewrite length_drop; lia). split; [|lia]. apply has_take; [done|].
  rewrite length_take_le by (rewrite length_drop; lia). split; [done|lia].
Qed.

Lemma slice_total l o f : 0 <= o <= f -> f <= Z.of_nat (length l) -> exists bs, slice l o f = Ret bs /\ Z.of_nat (length bs) = f - o.
Proof.
  intros Ho Hf. unfold slice. destruct (Z.leb_spec o f); [|lia]. destruct (Z.leb_spec f (Z.of_nat (length l))); [|lia].
  eexists. split; [done|]. rewrite length_take_le; [lia|rewrite length_drop; lia].
Qed.

Section write.
Context (l : list Z) (a : Z) (src : list Z) (Ha : 0 <= a) (Hb : a + Z.of_nat (length src) <= Z.of_nat (length l)).

Lemma length_write_at : length (write_at l a src) = length l.
Proof. unfold write_at. rewrite !length_app, length_take_le, length_drop by lia. lia. Qed.

Lemma write_at_has : has (write_at l a src) a src.
Proof. unfold write_at. eexists _, _. split; [done|]. rewrite length_take_le by lia. lia. Qed.

(** A write leaves the bytes beside it. *)
Lemma write_at_frame o bs : has l o bs -> o + Z.of_nat (length bs) <= a \/ a + Z.of_nat (length src) <= o -> has (write_at l a src) o bs.
Proof.
  intros (pre & post & -> & <-) Hd. unfold write_at. destruct Hd as [Hd|Hd].
  - exists pre. eexists (take (Z.to_nat a - length pre - length bs) post ++ src ++ _). split; [|done].
    rewrite (take_app_ge pre) by lia. rewrite (take_app_ge bs) by lia. rewrite <- !app_assoc. done.
  - rewrite take_app_le by lia. rewrite drop_app_le by lia.
    exists (take (Z.to_nat a) pre ++ src ++ drop (Z.to_nat a + length src) pre), post.
    split; [by rewrite <- !app_assoc|]. rewrite !length_app, length_take_le, length_drop by lia. lia.
Qed.

Lemma write_at_octets n : octets n l -> Forall octet src -> octets n (write_at l a src).
Proof.
  intros [Hn Hl] Hs. split; [by rewrite length_write_at|]. unfold write_at.
  apply Forall_app_2; [by apply Forall_take|]. apply Forall_app_2; [done|by apply Forall_drop].
Qed.

Lemma copy_range_ok b : b = a + Z.of_nat (length src) -> copy_range l a b src = Ret (write_at l a src).
Proof.
  intros ->. unfold copy_range. destruct (Z.leb_spec a (a + Z.of_nat (length src))); [|lia].
  destruct (Z.leb_spec (a + Z.of_nat (length src)) (Z.of_nat (length l))); [|lia].
  destruct (Z.eqb_spec (Z.of_nat (length src)) (a + Z.of_nat (length src) - a)); [done|lia].
Qed.

End write.

(** Two lists of one length with the same bytes at 0 are the same. *)
Lemma has_whole l bs : has l 0 bs -> length bs = length l -> l = bs.
Proof.
  intros (pre & post & -> & Hp) Hl. rewrite !length_app in Hl. destruct pre; [|cbn in Hp; lia]. destruct post; [by rewrite app_nil_r|cbn in Hl; lia].
Qed.

End Octets.

(** ** Unix-domain addresses *)

Module UnixAddr.
Import Inflight Octets.

Definition SUN_PATH_MAX : Z := 107.

Inductive UnixAddr : Type := Path (buf : list Z) (len : Z) | Abstract (buf : list Z) (len : Z) | Unnamed.
Inductive AddrError : Type := PathTooLong | AbstractTooLong.

#[global] Instance UnixAddr_eq_dec : EqDecision UnixAddr.
Proof. solve_decision. Defined.

(** The inline copy both constructors make. *)
Definition inline (bytes : list Z) : outcome (list Z) :=
  copy_range (replicate (Z.to_nat SUN_PATH_MAX) 0) 0 (Z.of_nat (length bytes)) bytes.

Definition path (bytes : list Z) : outcome (result AddrError UnixAddr) :=
  if SUN_PATH_MAX <? Z.of_nat (length bytes) then Ret (Err PathTooLong) else
  buf ← inline bytes; Ret (Ok (Path buf (wrap U8 (Z.of_nat (length bytes))))).

Definition abstract_ (name : list Z) : outcome (result AddrError UnixAddr) :=
  if SUN_PATH_MAX <? Z.of_nat (length name) then Ret (Err AbstractTooLong) else
  buf ← inline name; Ret (Ok (Abstract buf (wrap U8 (Z.of_nat (length name))))).

Definition path_bytes (a : UnixAddr) : outcome (option (list Z)) :=
  match a with Path buf len => b ← slice buf 0 len; Ret (Some b) | _ => Ret None end.
Definition abstract_name (a : UnixAddr) : outcome (option (list Z)) :=
  match a with Abstract buf len => b ← slice buf 0 len; Ret (Some b) | _ => Ret None end.

(** What the constructors build: the name, zero-padded to the array. *)
Definition padded (bytes : list Z) : list Z := bytes ++ replicate (Z.to_nat SUN_PATH_MAX - length bytes) 0.
Definition name_ok (bytes : list Z) : Prop := Z.of_nat (length bytes) <= SUN_PATH_MAX /\ Forall octet bytes.
Definition of_path (bytes : list Z) : UnixAddr := Path (padded bytes) (Z.of_nat (length bytes)).
Definition of_name (bytes : list Z) : UnixAddr := Abstract (padded bytes) (Z.of_nat (length bytes)).
Definition wf (a : UnixAddr) : Prop :=
  a = Unnamed \/ exists bytes, name_ok bytes /\ (a = of_path bytes \/ a = of_name bytes).

Lemma inline_ok bytes : name_ok bytes -> inline bytes = Ret (padded bytes).
Proof.
  intros [Hn _]. unfold SUN_PATH_MAX in Hn. unfold inline. rewrite copy_range_ok; [|rewrite length_replicate; unfold SUN_PATH_MAX; lia|done].
  f_equal. unfold write_at, padded. by rewrite drop_replicate.
Qed.

Lemma wrap_len bytes : name_ok bytes -> wrap U8 (Z.of_nat (length bytes)) = Z.of_nat (length bytes).
Proof. intros [Hn _]. unfold SUN_PATH_MAX in Hn. unfold wrap. apply Z.mod_small. lia. Qed.

Lemma slice_padded bytes : name_ok bytes -> slice (padded bytes) 0 (Z.of_nat (length bytes)) = Ret bytes.
Proof. intros _. apply slice_has; [|lia]. exists [], (replicate (Z.to_nat SUN_PATH_MAX - length bytes) 0). done. Qed.

(** The constructors refuse exactly the names that do not fit, and the
    accessors give the bytes back. *)
Lemma path_spec bytes : Forall octet bytes ->
  path bytes = Ret (if decide (Z.of_nat (length bytes) <= SUN_PATH_MAX) then Ok (of_path bytes) else Err PathTooLong).
Proof.
  intros Ho. unfold path. destruct (Z.ltb_spec SUN_PATH_MAX (Z.of_nat (length bytes))); case_decide; try lia; [done|].
  rewrite inline_ok by done. cbn [mbind outcome_bind]. by rewrite wrap_len.
Qed.
Lemma abstract_spec bytes : Forall octet bytes ->
  abstract_ bytes = Ret (if decide (Z.of_nat (length bytes) <= SUN_PATH_MAX) then Ok (of_name bytes) else Err AbstractTooLong).
Proof.
  intros Ho. unfold abstract_. destruct (Z.ltb_spec SUN_PATH_MAX (Z.of_nat (length bytes))); case_decide; try lia; [done|].
  rewrite inline_ok by done. cbn [mbind outcome_bind]. by rewrite wrap_len.
Qed.
Lemma path_bytes_spec bytes : name_ok bytes -> path_bytes (of_path bytes) = Ret (Some bytes).
Proof. intros H. unfold path_bytes, of_path. by rewrite slice_padded. Qed.
Lemma abstract_name_spec bytes : name_ok bytes -> abstract_name (of_name bytes) = Ret (Some bytes).
Proof. intros H. unfold abstract_name, of_name. by rewrite slice_padded. Qed.

End UnixAddr.

(** ** Socket addresses and their packed form *)

Module SockAddr.
Import Inflight Octets.

(** [SocketAddrV4] and [SocketAddrV6] of the standard library. *)
Record SocketAddrV4 : Type := mkV4 { ip4 : list Z; port4 : Z }.
Record SocketAddrV6 : Type := mkV6 { ip6 : list Z; port6 : Z; flowinfo : Z; scope_id : Z }.
Inductive SocketAddr : Type := StdV4 (a : SocketAddrV4) | StdV6 (a : SocketAddrV6).

Inductive SockAddr : Type := V4 (a : SocketAddrV4) | V6 (a : SocketAddrV6) | Unix (a : UnixAddr.UnixAddr).
Inductive AddressFamily : Type := Inet | Inet6 | UnixFamily.

#[global] Instance SocketAddrV4_eq_dec : EqDecision SocketAddrV4.
Proof. solve_decision. Defined.
#[global] Instance SocketAddrV6_eq_dec : EqDecision SocketAddrV6.
Proof. solve_decision. Defined.
#[global] Instance SockAddr_eq_dec : EqDecision SockAddr.
Proof. solve_decision. Defined.

Definition AF_UNIX : Z := 1.
Definition AF_INET : Z := 2.
Definition AF_INET6 : Z := 10.
Definition STORAGE : nat := 128.

(** The kernel's [sockaddr_storage] is written after [out.fill(0)]. *)
Definition pack_v4 (a : SocketAddrV4) (out : list Z) : outcome (list Z * Z) :=
  let out := replicate (length out) 0 in
  out ← copy_range out 0 2 (to_le 2 AF_INET);
  out ← copy_range out 2 4 (to_be 2 (port4 a));
  out ← copy_range out 4 8 (ip4 a);
  Ret (out, 16).

Definition pack_v6 (a : SocketAddrV6) (out : list Z) : outcome (list Z * Z) :=
  let out := replicate (length out) 0 in
  out ← copy_range out 0 2 (to_le 2 AF_INET6);
  out ← copy_range out 2 4 (to_be 2 (port6 a));
  out ← copy_range out 4 8 (to_be 4 (flowinfo a));
  out ← copy_range out 8 24 (ip6 a);
  out ← copy_range out 24 28 (to_le 4 (scope_id a));
  Ret (out, 28).

Definition pack_unix (a : UnixAddr.UnixAddr) (out : list Z) : outcome (list Z * Z) :=
  let out := replicate (length out) 0 in
  out ← copy_range out 0 2 (to_le 2 AF_UNIX);
  match a with
  | UnixAddr.Path buf len =>
      src ← slice buf 0 len;
      out ← copy_range out 2 (2 + len) src;
      Ret (out, wrap U32 (2 + len + 1))
  | UnixAddr.Abstract buf len =>
      src ← slice buf 0 len;
      out ← copy_range out 3 (3 + len) src;
      Ret (out, wrap U32 (2 + 1 + len))
  | UnixAddr.Unnamed => Ret (out, 2)
  end.

Definition pack_into (a : SockAddr) (out : list Z) : outcome (list Z * Z) :=
  match a with V4 a => pack_v4 a out | V6 a => pack_v6 a out | Unix a => pack_unix a out end.

Definition family (a : SockAddr) : AddressFamily :=
  match a with V4 _ => Inet | V6 _ => Inet6 | Unix _ => UnixFamily end.
Definition from (a : SocketAddr) : SockAddr := match a with StdV4 a => V4 a | StdV6 a => V6 a end.

Definition packed_family (buf : list Z) : outcome Z := b ← slice buf 0 2; Ret (of_le b).
Definition is_inet (family : Z) : bool := family =? AF_INET.
Definition is_inet6 (family : Z) : bool := family =? AF_INET6.

Definition unpack_v4 (buf : list Z) : outcome SocketAddrV4 :=
  p ← slice buf 2 4; ip ← slice buf 4 8; Ret (mkV4 ip (of_be p)).
Definition unpack_v6 (buf : list Z) : outcome SocketAddrV6 :=
  p ← slice buf 2 4; f ← slice buf 4 8; ip ← slice buf 8 24; sc ← slice buf 24 28;
  Ret (mkV6 ip (of_be p) (of_be f) (of_le sc)).

Definition unpack (buf : list Z) : outcome (option SockAddr) :=
  fam ← packed_family buf;
  if is_inet fam then a ← unpack_v4 buf; Ret (Some (V4 a))
  else if is_inet6 fam then a ← unpack_v6 buf; Ret (Some (V6 a))
  else Ret None.

(** The values of the Rust types. *)
Definition wf (a : SockAddr) : Prop :=
  match a with
  | V4 a => octets 4 (ip4 a) /\ fits 16 (port4 a)
  | V6 a => octets 16 (ip6 a) /\ fits 16 (port6 a) /\ fits 32 (flowinfo a) /\ fits 32 (scope_id a)
  | Unix a => UnixAddr.wf a
  end.

(** The packed image: the significant bytes, whose number is the address
    length handed to the kernel. *)
Definition image (a : SockAddr) : list Z :=
  match a with
  | V4 a => to_le 2 AF_INET ++ to_be 2 (port4 a) ++ ip4 a ++ replicate 8 0
  | V6 a => to_le 2 AF_INET6 ++ to_be 2 (port6 a) ++ to_be 4 (flowinfo a) ++ ip6 a ++ to_le 4 (scope_id a)
  | Unix (UnixAddr.Path buf len) => to_le 2 AF_UNIX ++ take (Z.to_nat len) buf ++ [0]
  | Unix (UnixAddr.Abstract buf len) => to_le 2 AF_UNIX ++ [0] ++ take (Z.to_nat len) buf
  | Unix UnixAddr.Unnamed => to_le 2 AF_UNIX
  end.

End SockAddr.

Module AddrThms.
Import Inflight Octets SockAddr.

(** A packed buffer: the bytes written so far, zeros after them. *)
Definition zeroed (bs : list Z) : list Z := bs ++ replicate (STORAGE - length bs) 0.

Lemma length_zeroed bs : (length bs <= STORAGE)%nat -> length (zeroed bs) = STORAGE.
Proof. intros H. unfold zeroed. rewrite length_app, length_replicate. lia. Qed.

(** Appending to the written part, possibly after a gap of zeros. *)
Lemma copy_zeroed bs gap src a b : (length bs + gap + length src <= STORAGE)%nat -> a = Z.of_nat (length bs + gap) ->
  b = a + Z.of_nat (length src) -> copy_range (zeroed bs) a b src = Ret (zeroed (bs ++ replicate gap 0 ++ src)).
Proof.
  intros Hl -> ->. rewrite copy_range_ok; [|rewrite length_zeroed by lia; lia|done]. f_equal. unfold write_at, zeroed.
  rewrite !length_app, length_replicate. replace (STORAGE - length bs)%nat with (gap + (length src + (STORAGE - (length bs + (gap + length src)))))%nat by lia.
  rewrite !replicate_add, Nat2Z.id. set (z := replicate gap 0). set (w := replicate (length src) 0). set (r := replicate _ 0).
  assert (Hz : length z = gap) by apply length_replicate. assert (Hw : length w = length src) by apply length_replicate.
  rewrite (app_assoc bs z). rewrite take_app_length' by (rewrite length_app; lia).
  rewrite (app_assoc (bs ++ z) w), drop_app_length' by (rewrite !length_app; lia). by rewrite <- !app_assoc.
Qed.

Lemma replicate_zeroed (out : list Z) : length out = STORAGE -> replicate (length out) 0 = zeroed [].
Proof. intros ->. done. Qed.

Lemma zeroed_pad bs n : (length bs + n <= STORAGE)%nat -> zeroed (bs ++ replicate n 0) = zeroed bs.
Proof.
  intros H. unfold zeroed. rewrite length_app, length_replicate, <- app_assoc, <- replicate_add. do 2 f_equal. lia.
Qed.

(** Lengths of the pieces a packing writes. *)
Ltac lens := rewrite ?length_app, ?length_to_le, ?length_to_be, ?length_replicate; cbn [length];
  repeat match goal with H : length _ = _ |- _ => rewrite H end; unfold STORAGE.
Ltac packs gap := rewrite (copy_zeroed _ gap) by (lens; lia); cbn [mbind outcome_bind]; cbn [replicate]; rewrite ?app_nil_l.

Lemma take_padded bytes : take (Z.to_nat (Z.of_nat (length bytes))) (UnixAddr.padded bytes) = bytes.
Proof. rewrite Nat2Z.id. unfold UnixAddr.padded. apply take_app_length. Qed.

(** The number of bytes of an image. *)
Lemma length_image a : wf a -> (2 <= length (image a) <= 110)%nat.
Proof.
  destruct a as [a|a|a]; cbn [wf image].
  - intros [[Hl _] _]. lens. lia.
  - intros [[Hl _] _]. lens. lia.
  - intros [->|(bytes & [Hn _] & Ha)]; [lens; lia|]. unfold UnixAddr.SUN_PATH_MAX in Hn.
    destruct Ha as [->| ->]; unfold UnixAddr.of_path, UnixAddr.of_name; rewrite take_padded; lens; lia.
Qed.

Lemma pack_image a out : wf a -> length out = STORAGE -> pack_into a out = Ret (zeroed (image a), Z.of_nat (length (image a))).
Proof.
  intros Hw Ho. destruct a as [a|a|a]; cbn [pack_into image].
  - destruct Hw as [[Hl _] _]. unfold pack_v4. rewrite replicate_zeroed by done. packs 0%nat. packs 0%nat. packs 0%nat.
    replace (Z.of_nat _) with 16 by (lens; lia). f_equal. f_equal. rewrite !(app_assoc _ _ (replicate 8 0)), zeroed_pad by (lens; lia). by rewrite <- !app_assoc.
  - destruct Hw as [[Hl _] _]. unfold pack_v6. rewrite replicate_zeroed by done. packs 0%nat. packs 0%nat. packs 0%nat. packs 0%nat. packs 0%nat.
    replace (Z.of_nat _) with 28 by (lens; lia). by rewrite <- !app_assoc.
  - cbn [wf] in Hw. unfold pack_unix. rewrite replicate_zeroed by done. packs 0%nat.
    destruct Hw as [->|(bytes & Hn & Ha)]; [done|]. pose proof Hn as [Hn' _]. unfold UnixAddr.SUN_PATH_MAX in Hn'.
    destruct Ha as [->| ->]; unfold UnixAddr.of_path, UnixAddr.of_name; rewrite UnixAddr.slice_padded by done; cbn [mbind outcome_bind].
    + packs 0%nat. rewrite take_padded. unfold wrap. rewrite Z.mod_small by lia. f_equal. f_equal; [|lens; lia].
      rewrite app_assoc. symmetry. apply (zeroed_pad _ 1). lens. lia.
    + packs 1%nat. rewrite take_padded. unfold wrap. rewrite Z.mod_small by lia. f_equal. f_equal. lens. lia.
Qed.

(** Reading an address back out of a buffer that starts with its image. *)
Lemma unpack_image l a : wf a -> has l 0 (image a) -> unpack l = Ret (match a with Unix _ => None | _ => Some a end).
Proof.
  intros Hw Hh. unfold unpack, packed_family. destruct a as [[ip p]|[ip p f sc]|a]; cbn [wf image ip4 port4 ip6 port6 flowinfo scope_id] in *.
  - destruct Hw as [[Hl _] Hp]. apply has_app in Hh as [H0 [H2 [H4 _]%has_app]%has_app]. rewrite ?length_to_le, ?length_to_be in *.
    rewrite (slice_has _ _ 2 _ H0) by (lens; lia). cbn [mbind outcome_bind]. unfold unpack_v4.
    rewrite (slice_has _ 2 4 _ H2) by (lens; lia). cbn [mbind outcome_bind]. rewrite (slice_has _ 4 8 _ H4) by (lens; lia).
    rewrite of_to_be by done. done.
  - destruct Hw as ([Hl _] & Hp & Hf & Hs). apply has_app in Hh as [H0 [H2 [H4 [H8 H24]%has_app]%has_app]%has_app].
    rewrite ?length_to_le, ?length_to_be, ?Hl in *. rewrite (slice_has _ _ 2 _ H0) by (lens; lia). cbn [mbind outcome_bind]. unfold unpack_v6.
    rewrite (slice_has _ 2 4 _ H2) by (lens; lia). cbn [mbind outcome_bind]. rewrite (slice_has _ 4 8 _ H4) by (lens; lia). cbn [mbind outcome_bind].
    rewrite (slice_has _ 8 24 _ H8) by (lens; lia). cbn [mbind outcome_bind]. rewrite (slice_has _ 24 28 _ H24) by (lens; lia).
    cbn [mbind outcome_bind]. rewrite !of_to_be, (of_to_le 4 sc) by done. done.
  - assert (H0 : has l 0 (to_le 2 AF_UNIX)); [destruct a; [apply has_app in Hh as [? _]..|]; done|].
    by rewrite (slice_has _ _ 2 _ H0) by (lens; lia).
Qed.

Lemma zeroed_has bs : has (zeroed bs) 0 bs.
Proof. exists [], (replicate (STORAGE - length bs) 0). done. Qed.

(** A path names a file when it is not empty and does not start with NUL. *)
Definition names_a_file (a : SockAddr) : Prop :=
  match a with Unix (UnixAddr.Path buf len) => exists x xs, take (Z.to_nat len) buf = x :: xs /\ x <> 0 | _ => True end.

Lemma to_le_inj n x y : fits (8 * Z.of_nat n) x -> fits (8 * Z.of_nat n) y -> to_le n x = to_le n y -> x = y.
Proof. intros Hx Hy E. rewrite <- (of_to_le n x), <- (of_to_le n y), E; done. Qed.
Lemma to_be_inj n x y : fits (8 * Z.of_nat n) x -> fits (8 * Z.of_nat n) y -> to_be n x = to_be n y -> x = y.
Proof. intros Hx Hy E. rewrite <- (of_to_be n x), <- (of_to_be n y), E; done. Qed.

(** Unix-domain images. *)
Lemma unix_image_inj a b : UnixAddr.wf a -> UnixAddr.wf b -> names_a_file (Unix a) -> names_a_file (Unix b) ->
  image (Unix a) = image (Unix b) -> a = b.
Proof.
  assert (Hlen : forall (x y : list Z), x ++ [0] = y ++ [0] -> x = y) by (intros x y E; by apply app_inj_2 in E as [? _]).
  intros [->|(p & Hp & Ha)] [->|(q & Hq & Hb)] Pa Pb E; [done|..].
  - destruct Hb as [->| ->]; unfold UnixAddr.of_path, UnixAddr.of_name in E; cbn [image] in E; rewrite take_padded in E;
      apply (f_equal length) in E; revert E; lens; lia.
  - destruct Ha as [->| ->]; unfold UnixAddr.of_path, UnixAddr.of_name in E; cbn [image] in E; rewrite take_padded in E;
      apply (f_equal length) in E; revert E; lens; lia.
  - destruct Ha as [->| ->], Hb as [->| ->]; unfold UnixAddr.of_path, UnixAddr.of_name in *; cbn [image names_a_file] in *; rewrite !take_padded in *;
      apply (app_inv_head (to_le 2 AF_UNIX)) in E.
    + apply Hlen in E. by subst q.
    + destruct Pa as (x & xs & -> & Hx). cbn in E. congruence.
    + destruct Pb as (x & xs & -> & Hx). cbn in E. congruence.
    + cbn in E. by injection E as ->.
Qed.

Lemma image_inj a b : wf a -> wf b -> names_a_file a -> names_a_file b -> image a = image b -> a = b.
Proof.
  intros Wa Wb Pa Pb E. destruct a as [[ip p]|[ip p f sc]|a], b as [[ip' p']|[ip' p' f' sc']|b]; cbn [image ip4 port4 ip6 port6 flowinfo scope_id] in E;
    try (exfalso; apply (f_equal head) in E; repeat match goal with a : UnixAddr.UnixAddr |- _ => destruct a end; discriminate E).
  - destruct Wa as [[Hl _] Hp], Wb as [[Hl' _] Hp']. cbn [ip4 port4] in *. apply (app_inv_head (to_le 2 AF_INET)) in E.
    apply app_inj_1 in E as [Ep E]; [|lens; done]. apply app_inj_1 in E as [-> _]; [|congruence]. by rewrite (to_be_inj 2 p p') by done.
  - destruct Wa as ([Hl _] & Hp & Hf & Hs), Wb as ([Hl' _] & Hp' & Hf' & Hs'). cbn [ip6 port6 flowinfo scope_id] in *. apply (app_inv_head (to_le 2 AF_INET6)) in E.
    apply app_inj_1 in E as [Ep E]; [|lens; done]. apply app_inj_1 in E as [Ef E]; [|lens; done]. apply app_inj_1 in E as [-> Es]; [|congruence].
    by rewrite (to_be_inj 2 p p'), (to_be_inj 4 f f'), (to_le_inj 4 sc sc') by done.
  - by rewrite (unix_image_inj a b).
Qed.

(** The address length each family reports: [sockaddr_in], [sockaddr_in6], and
    for a Unix-domain address the family field, the name, and the terminating
    (path) or leading (abstract) NUL. *)
Definition significant (a : SockAddr) : Z :=
  match a with
  | V4 _ => 16
  | V6 _ => 28
  | Unix (UnixAddr.Path _ len) => 2 + len + 1
  | Unix (UnixAddr.Abstract _ len) => 2 + 1 + len
  | Unix UnixAddr.Unnamed => 2
  end.

Lemma image_significant a : wf a -> Z.of_nat (length (image a)) = significant a.
Proof.
  destruct a as [a|a|a]; cbn [wf image significant].
  - intros [[Hl _] _]. lens. lia.
  - intros [[Hl _] _]. lens. lia.
  - intros [->|(bytes & _ & [->| ->])]; [done|..]; unfold UnixAddr.of_path, UnixAddr.of_name; rewrite take_padded; lens; lia.
Qed.

(** C26: packing an address fills the 128-byte buffer with its image and zeros
    after it and reports the length its family has: 16 for IPv4, 28 for IPv6,
    2 plus the name and its NUL for a Unix path or abstract name, 2 for the
    unnamed address.  What is read back out of the buffer is the address for
    IPv4 and IPv6 and nothing for a Unix-domain address; two addresses that
    name something (no path that is empty or starts with NUL) pack to the same
    bytes and length only if they are equal. *)
Theorem sockaddr_roundtrip a out : wf a -> length out = STORAGE ->
  exists buf, pack_into a out = Ret (buf, significant a) /\ length buf = STORAGE /\ 2 <= significant a <= 110 /\
    take (Z.to_nat (significant a)) buf = image a /\
    drop (Z.to_nat (significant a)) buf = replicate (STORAGE - Z.to_nat (significant a)) 0 /\
    unpack buf = Ret (match a with Unix _ => None | _ => Some a end) /\
    (forall b out', wf b -> length out' = STORAGE -> names_a_file a -> names_a_file b -> pack_into b out' = Ret (buf, significant a) -> b = a).
Proof.
  intros Hw Ho. pose proof (length_image a Hw) as Hl. pose proof (image_significant a Hw) as Hs. exists (zeroed (image a)). rewrite pack_image, <- Hs by done.
  rewrite Nat2Z.id, length_zeroed by (unfold STORAGE; lia). split_and!; [done|done|lia|lia|unfold zeroed; by rewrite take_app_length|unfold zeroed; by rewrite drop_app_length|by apply unpack_image, zeroed_has|].
  intros b out' Hb Ho' Pa Pb E. rewrite pack_image in E by done. injection E as E En.
  apply image_inj; [done..|]. apply (f_equal (take (length (image a)))) in E. unfold zeroed in E. rewrite take_app_length in E.
  by rewrite take_app_length' in E by lia.
Qed.

Lemma sockaddr_roundtrip_witness :
  (exists buf, pack_into (V4 (mkV4 [203; 0; 113; 5] 8080)) (replicate 128 7) = Ret (buf, 16) /\
    unpack buf = Ret (Some (V4 (mkV4 [203; 0; 113; 5] 8080)))) /\
  (exists buf, pack_into (Unix (UnixAddr.of_name [1; 2])) (replicate 128 7) = Ret (buf, 5) /\ take 5 buf = [1; 0; 0; 1; 2] /\ unpack buf = Ret None).
Proof.
  split.
  - destruct (sockaddr_roundtrip (V4 (mkV4 [203; 0; 113; 5] 8080)) (replicate 128 7)) as (buf & E & _ & _ & _ & _ & U & _).
    + split; [|unfold fits; cbn [port4]; lia]. by apply (bool_decide_unpack (octets 4 [203; 0; 113; 5])).
    + done.
    + exists buf. split; [exact E|exact U].
  - destruct (sockaddr_roundtrip (Unix (UnixAddr.of_name [1; 2])) (replicate 128 7)) as (buf & E & _ & _ & T & _ & U & _).
    + right. exists [1; 2]. split; [|by right]. split; [cbn; unfold UnixAddr.SUN_PATH_MAX; lia|]. by repeat constructor.
    + done.
    + exists buf. split; [exact E|]. split; [exact T|exact U].
Defined.

(** A path that starts with NUL, which [path] accepts, packs to the bytes and
    length of an abstract name: it leaves the file system's name space. *)
Theorem unix_path_is_abstract name out : Forall octet name -> (length name < 107)%nat -> length out = STORAGE ->
  UnixAddr.path (0 :: name) = Ret (Ok (UnixAddr.of_path (0 :: name))) /\ pack_into (Unix (UnixAddr.of_path (0 :: name))) out = pack_into (Unix (UnixAddr.of_name (name ++ [0]))) out.
Proof.
  intros Hn Hl Ho. split.
  - rewrite UnixAddr.path_spec by (constructor; [unfold octet; lia|done]). case_decide as Hd; [done|]. cbn [length] in Hd. unfold UnixAddr.SUN_PATH_MAX in Hd. lia.
  - rewrite !pack_image; [|right; exists (name ++ [0])|done|right; exists (0 :: name)|done].
    + unfold UnixAddr.of_path, UnixAddr.of_name. cbn [image]. rewrite !take_padded. done.
    + split; [|by right]. split; [rewrite length_app; cbn; unfold UnixAddr.SUN_PATH_MAX; lia|]. apply Forall_app_2; [done|]. apply Forall_singleton. unfold octet. lia.
    + split; [|by left]. split; [cbn [length]; unfold UnixAddr.SUN_PATH_MAX; lia|]. constructor; [unfold octet; lia|done].
Qed.

End AddrThms.
