(* ===== verification/Seam.v ===== *)
(** * The poll seam and the buffered futures

    Models the buffered half of [IoSeam]
    (src/crates/kwokka-io/src/boundary/seam/state.rs) and the futures that keep
    their bytes in an in-flight slot: [RecvFuture] and [SendFuture]
    (src/crates/kwokka-io/src/operation/future/socket.rs) and [SendZcFuture]
    (src/crates/kwokka-io/src/operation/future/zerocopy.rs).

    A seam carries the worker's registry and driver (absent in a test seam)
    and the completion captured for the polling task.  The driver is what it
    answers to the submission made through it; [requests] records the
    operations that reached it.  A receive buffer is a byte array [[u8; N]]
    ([set_init] does nothing), a send source the list of its initialised
    bytes. *)

From S2P Require Import Prelude Words Bitmap IoTokens InflightSlab.
From stdpp Require Import base tactics option list numbers.

Local Open Scope Z_scope.

Module Seam.
Import IoTokens Inflight.

Record WakeSlot : Type := mkWs { ws_result : Z; ws_flags : Z; ws_buf_id : option Z }.

Inductive SubmitResult : Type := Submitted (token : Z) | QueueFull | Unsupported.

(** The operations the buffered futures submit; [OpReadv] and [OpWritev] are
    [OpCode::Read] and [OpCode::Write] with a vectored payload. *)
Inductive OpCode : Type := OpRecv | OpSend | OpSendZc | OpRead | OpWrite | OpSendmsg | OpRecvmsg | OpReadv | OpWritev.

(** The opcodes [absorb_deferred] accepts. *)
Definition retry_direction (op : OpCode) : option Retryable :=
  match op with OpRecv => Some Recv | OpSend => Some Send | _ => None end.

(** [SlotSubmit]: resolved by the driver, or to be retried on readiness. *)
Inductive SlotSubmit : Type := Resolved (r : SubmitResult) | Deferred (fd : Z).

(** What the driver answers to a buffered submit and to an internal one. *)
Record driver : Type := mkDriver { reply : SlotSubmit; internal_reply : SubmitResult; send_zc : bool }.

(** The submitted [IoRequest]: its [user_data], opcode and slot range; a
    message carries only its header's address, a vectored operation the address
    and number of its [iovec] entries. *)
Record request : Type := mkRequest { rq_token : Z; rq_opcode : OpCode; rq_ptr : Z; rq_len : Z }.

Record seam : Type := mkSeam {
  drv : option driver;
  inflight_slab : option InflightBufSlab;
  wake_slot : option WakeSlot;
  submitted : Z;
  requests : list request;
}.

Definition set_slab x sm := mkSeam (drv sm) x (wake_slot sm) (submitted sm) (requests sm).

Definition count sm := mkSeam (drv sm) (inflight_slab sm) (wake_slot sm) (wrap U16 (submitted sm + 1)) (requests sm).
Definition record rq sm := mkSeam (drv sm) (inflight_slab sm) (wake_slot sm) (submitted sm) (requests sm ++ [rq]).

Definition completion_result (sm : seam) : option WakeSlot := wake_slot sm.

Definition allocate_slot (sm : seam) (op_token : Z) : outcome (option (InflightSlotKey * Z) * seam) :=
  match inflight_slab sm with
  | None => Ret (None, sm)
  | Some slab =>
      '(key, slab) ← allocate slab op_token;
      let sm := set_slab (Some slab) sm in
      match key with
      | None => Ret (None, sm)
      | Some key =>
          ptr ← slot_ptr slab key;
          Ret (match ptr with None => None | Some ptr => Some (key, ptr) end, sm)
      end
  end.

Definition copy_into_slot (sm : seam) (key : InflightSlotKey) (src : list Z) : outcome (bool * seam) :=
  match inflight_slab sm with
  | None => Ret (false, sm)
  | Some slab =>
      ptr ← slot_ptr slab key;
      match ptr with
      | None => Ret (false, sm)
      | Some ptr =>
          if INFLIGHT_BUF_STRIDE <? Z.of_nat (length src) then Ret (false, sm) else
          Ret (true, set_slab (Some (set_storage (write_at (storage slab) ptr src) slab)) sm)
      end
  end.

Definition harvest_into_buf (sm : seam) (key : InflightSlotKey) (len : Z) (dst : list Z) : outcome (list Z * seam) :=
  match inflight_slab sm with
  | None => Ret (dst, sm)
  | Some slab =>
      src ← slot_slice slab key len;
      let dst := match src with
                 | None => dst
                 | Some src =>
                     let count := Nat.min (length src) (length dst) in
                     take count src ++ drop count dst
                 end in
      '(_, slab) ← free slab key;
      Ret (dst, set_slab (Some slab) sm)
  end.

Definition free_slot (sm : seam) (key : InflightSlotKey) : outcome seam :=
  match inflight_slab sm with
  | None => Ret sm
  | Some slab => '(_, slab) ← free slab key; Ret (set_slab (Some slab) sm)
  end.

Definition slot_notif_ready (sm : seam) (key : InflightSlotKey) : outcome bool :=
  match inflight_slab sm with
  | None => Ret false
  | Some slab => is_notif_ready slab key
  end.

Definition is_send_zc_supported (sm : seam) : bool :=
  match drv sm with None => false | Some d => send_zc d end.

(** [absorb_deferred]: the buffered futures set no op flag, so only the opcode,
    the length and the registry decide. *)
Definition absorb_deferred (sm : seam) (rq : request) (fd : Z) : outcome (SubmitResult * seam) :=
  match retry_direction (rq_opcode rq) with
  | None => Ret (Unsupported, sm)
  | Some dir =>
      match try_from U32 (rq_len rq), inflight_slab sm with
      | None, _ | _, None => Ret (Unsupported, sm)
      | Some len, Some slab =>
          '(marked, slab) ← mark_deferred_by_op_token slab (rq_token rq) (mkDeferred fd len dir);
          Ret (if marked : bool then Submitted (rq_token rq) else Unsupported, set_slab (Some slab) sm)
      end
  end.

(** [submit] and [submit_read]: [None] when the seam has no driver; a submitted
    operation raises the per-poll count. *)
Definition submit (sm : seam) (rq : request) : outcome (option SubmitResult * seam) :=
  match drv sm with
  | None => Ret (None, sm)
  | Some d =>
      '(r, sm) ← match reply d with
                 | Resolved r => Ret (r, match r with Submitted _ => record rq sm | _ => sm end)
                 | Deferred fd => absorb_deferred sm rq fd
                 end;
      Ret (Some r, match r with Submitted _ => count sm | _ => sm end)
  end.

Definition submit_read : seam -> request -> outcome (option SubmitResult * seam) := submit.

(** [submit_internal]: the request has no buffer of its own, so nothing is deferred. *)
Definition submit_internal (sm : seam) (rq : request) : outcome (option SubmitResult * seam) :=
  match drv sm with
  | None => Ret (None, sm)
  | Some d =>
      Ret (Some (internal_reply d), match internal_reply d with Submitted _ => count (record rq sm) | _ => sm end)
  end.

End Seam.

(** ** The futures *)

Module BufFuture.
Import IoTokens Inflight Seam.

Inductive Poll (A : Type) : Type := Ready (a : A) | Pending.
Arguments Ready {A} a.
Arguments Pending {A}.

(** [bytes_from_cqe]: the byte count, or the [errno]. *)
Definition bytes_from_cqe (result : Z) : Prelude.result Z Z :=
  if result <? 0 then Err (- result) else Ok result.

(** [RecvFuture] and [FileReadFuture]: the caller's buffer until it moves out
    with the result, the slot handle while the operation is out. *)
Record RecvFuture : Type := mkRecv { r_buf : option (list Z); r_key : option InflightSlotKey; r_submitted : bool }.

Definition recv_new (buf : list Z) : RecvFuture := mkRecv (Some buf) None false.

(** The closure run inside the seam on a first poll. *)
Definition recv_submit (op : OpCode) (token cap : Z) (sm : seam) : outcome (option InflightSlotKey * seam) :=
  '(slot, sm) ← allocate_slot sm token;
  match slot with
  | None => Ret (None, sm)
  | Some (key, ptr) =>
      '(r, sm) ← submit_read sm (mkRequest token op ptr cap);
      match r with
      | Some (Submitted _) => Ret (Some key, sm)
      | _ => sm ← free_slot sm key; Ret (None, sm)
      end
  end.

(** The completion half of the poll. *)
Definition recv_complete (key : InflightSlotKey) (buf : list Z) (sm : seam)
    : outcome (option (Prelude.result Z Z) * list Z * seam) :=
  match completion_result sm with
  | None => Ret (None, buf, sm)
  | Some slot =>
      let r := bytes_from_cqe (ws_result slot) in
      '(buf, sm) ← match r with
                   | Ok count => harvest_into_buf sm key count buf
                   | Err _ => sm ← free_slot sm key; Ret (buf, sm)
                   end;
      Ret (Some r, buf, sm)
  end.

(** [poll] of a read-class future; [None] for the seam when none is installed
    ([IoSeam::with_current] then answers [None]). *)
Definition recv_poll_with (op : OpCode) (token : Z) (f : RecvFuture) (sm : option seam)
    : outcome (Poll (Prelude.result Z Z * list Z) * RecvFuture * option seam) :=
  if r_submitted f then
    match r_key f, r_buf f with
    | None, _ | _, None => Panic
    | Some key, Some buf =>
        match sm with
        | None => Ret (Pending, f, sm)
        | Some sm =>
            '(r, buf, sm) ← recv_complete key buf sm;
            Ret (match r with
                 | Some r => (Ready (r, buf), mkRecv None None true, Some sm)
                 | None => (Pending, mkRecv (Some buf) (r_key f) true, Some sm)
                 end)
        end
    end
  else
    match r_buf f with
    | None => Panic
    | Some buf =>
        let cap := Z.of_nat (length buf) in
        if INFLIGHT_BUF_STRIDE <? cap then Ret (Ready (bytes_from_cqe (-22), buf), mkRecv None (r_key f) false, sm) else
        '(key, sm) ← match sm with
                     | None => Ret (None, None)
                     | Some sm => '(key, sm) ← recv_submit op token cap sm; Ret (key, Some sm)
                     end;
        Ret (match key with
             | Some key => (Pending, mkRecv (Some buf) (Some key) true, sm)
             | None => (Ready (bytes_from_cqe (-22), buf), mkRecv None (r_key f) false, sm)
             end)
    end.

Definition recv_poll := recv_poll_with OpRecv.
Definition file_read_poll := recv_poll_with OpRead.

(** [SendFuture] and [FileWriteFuture]. *)
Record SendFuture : Type := mkSend { s_buf : list Z; s_key : option InflightSlotKey; s_submitted : bool }.

Definition send_new (buf : list Z) : SendFuture := mkSend buf None false.

Definition send_submit (op : OpCode) (token : Z) (buf : list Z) (sm : seam) : outcome (option InflightSlotKey * seam) :=
  '(slot, sm) ← allocate_slot sm token;
  match slot with
  | None => Ret (None, sm)
  | Some (key, ptr) =>
      '(copied, sm) ← copy_into_slot sm key buf;
      if negb copied then sm ← free_slot sm key; Ret (None, sm) else
      '(r, sm) ← submit sm (mkRequest token op ptr (Z.of_nat (length buf)));
      match r with
      | Some (Submitted _) => Ret (Some key, sm)
      | _ => sm ← free_slot sm key; Ret (None, sm)
      end
  end.

Definition send_poll_with (op : OpCode) (token : Z) (f : SendFuture) (sm : option seam)
    : outcome (Poll (Prelude.result Z Z) * SendFuture * option seam) :=
  if s_submitted f then
    match s_key f with
    | None => Panic
    | Some key =>
        match sm with
        | None => Ret (Pending, f, sm)
        | Some sm =>
            match completion_result sm with
            | None => Ret (Pending, f, Some sm)
            | Some slot =>
                sm ← free_slot sm key;
                Ret (Ready (bytes_from_cqe (ws_result slot)), mkSend (s_buf f) None true, Some sm)
            end
        end
    end
  else
    '(key, sm) ← match sm with
                 | None => Ret (None, None)
                 | Some sm => '(key, sm) ← send_submit op token (s_buf f) sm; Ret (key, Some sm)
                 end;
    Ret (match key with
         | Some key => (Pending, mkSend (s_buf f) (Some key) true, sm)
         | None => (Ready (bytes_from_cqe (-22)), f, sm)
         end).

Definition send_poll := send_poll_with OpSend.
Definition file_write_poll := send_poll_with OpWrite.

(** [SendZcFuture]. *)
Record SendZcFuture : Type := mkZc {
  z_buf : list Z; z_key : option InflightSlotKey; z_submitted : bool;
  primary : option (Prelude.result Z Z); was_zero_copy : bool; has_fallen_back : bool;
}.

Definition zc_new (buf : list Z) : SendZcFuture := mkZc buf None false None false false.

Inductive SubmitOutcome : Type := ZSubmitted (key : InflightSlotKey) | ZRefused | ZUnavailable.

Definition submit_send (token : Z) (buf : list Z) (is_zero_copy : bool) (sm : seam) : outcome (SubmitOutcome * seam) :=
  '(slot, sm) ← allocate_slot sm token;
  match slot with
  | None => Ret (ZUnavailable, sm)
  | Some (key, ptr) =>
      '(copied, sm) ← copy_into_slot sm key buf;
      if negb copied then sm ← free_slot sm key; Ret (ZUnavailable, sm) else
      '(r, sm) ← submit sm (mkRequest token (if is_zero_copy then OpSendZc else OpSend) ptr (Z.of_nat (length buf)));
      match r with
      | Some (Submitted _) => Ret (ZSubmitted key, sm)
      | Some _ => sm ← free_slot sm key; Ret (ZRefused, sm)
      | None => sm ← free_slot sm key; Ret (ZUnavailable, sm)
      end
  end.

Inductive ZcStep : Type := ZReady (r : Prelude.result Z Z) | ZWaiting | ZStepRefused.

(** The readiness check that follows a stashed primary completion. *)
Definition zc_notified (key : InflightSlotKey) (f : SendZcFuture) (sm : seam) : outcome (ZcStep * SendZcFuture * seam) :=
  ready ← slot_notif_ready sm key;
  if negb ready then Ret (ZWaiting, f, sm) else
  sm ← free_slot sm key;
  Ret (ZReady (match primary f with Some r => r | None => bytes_from_cqe (-22) end),
       mkZc (z_buf f) None (z_submitted f) None (was_zero_copy f) (has_fallen_back f), sm).

(** The closure run inside the seam on a completion poll. *)
Definition zc_step (key : InflightSlotKey) (f : SendZcFuture) (sm : seam) : outcome (ZcStep * SendZcFuture * seam) :=
  match primary f with
  | Some _ => zc_notified key f sm
  | None =>
      match completion_result sm with
      | None => Ret (ZWaiting, f, sm)
      | Some slot =>
          let r := bytes_from_cqe (ws_result slot) in
          if negb (contains (ws_flags slot) MORE) then
            if was_zero_copy f && negb (has_fallen_back f) && (ws_result slot =? -22) then
              sm ← free_slot sm key;
              Ret (ZStepRefused, mkZc (z_buf f) None false (primary f) false true, sm)
            else
              sm ← free_slot sm key;
              Ret (ZReady r, mkZc (z_buf f) None (z_submitted f) (primary f) (was_zero_copy f) (has_fallen_back f), sm)
          else
            zc_notified key (mkZc (z_buf f) (z_key f) (z_submitted f) (Some r) (was_zero_copy f) (has_fallen_back f)) sm
      end
  end.

(** [poll]; the first component says whether the poll wakes its own task. *)
Definition zc_poll (token : Z) (f : SendZcFuture) (sm : option seam)
    : outcome (bool * Poll (Prelude.result Z Z) * SendZcFuture * option seam) :=
  if z_submitted f then
    match z_key f with
    | None => Panic
    | Some key =>
        match sm with
        | None => Ret (false, Pending, f, None)
        | Some sm =>
            '(step, f, sm) ← zc_step key f sm;
            Ret (match step with
                 | ZReady r => (false, Ready r, f, Some sm)
                 | ZWaiting => (false, Pending, f, Some sm)
                 | ZStepRefused => (true, Pending, f, Some sm)
                 end)
        end
    end
  else
    let can_zero_copy := negb (has_fallen_back f) in
    match sm with
    | None => Ret (false, Ready (bytes_from_cqe (-22)), f, None)
    | Some sm =>
        let is_zero_copy := can_zero_copy && is_send_zc_supported sm in
        '(r, sm) ← submit_send token (z_buf f) is_zero_copy sm;
        Ret (match r with
             | ZSubmitted key =>
                 (false, Pending, mkZc (z_buf f) (Some key) true (primary f) is_zero_copy (has_fallen_back f), Some sm)
             | ZRefused =>
                 if is_zero_copy && negb (has_fallen_back f)
                 then (true, Pending, mkZc (z_buf f) (z_key f) (z_submitted f) (primary f) (was_zero_copy f) true, Some sm)
                 else (false, Ready (bytes_from_cqe (-22)), f, Some sm)
             | ZUnavailable => (false, Ready (bytes_from_cqe (-22)), f, Some sm)
             end)
    end.

End BufFuture.

(** * Cancel and reclaim of buffered operations

    Models the buffered-slot half of
    src/crates/kwokka-io/src/boundary/seam/drain.rs: the cancel the worker
    submits for a dropped future and the reclaims the completion drain performs.
    A submitted cancel is the pair of the [user_data] it targets and the
    [user_data] of its own completion; the driver may refuse it. *)

From stdpp Require Import base tactics option list numbers.

Local Open Scope Z_scope.

Module SeamDrain.
Import IoTokens Inflight.

Definition submit_cancel (accepted : bool) (slab : InflightBufSlab) (key : InflightSlotKey)
    : outcome (InflightBufSlab * option (Z * Z)) :=
  slab ← mark_retire_pending slab key;
  Ret (slab, if accepted then Some (op_token key, encode_cancel_sentinel key) else None).

Definition reclaim_dropped_slot (slab : InflightBufSlab) (op_token : Z) : outcome InflightBufSlab :=
  '(_, _, slab) ← free_by_op_token slab op_token; Ret slab.

Definition CANCEL_TARGET_GONE : Z := -2.

Definition reclaim_cancel_completion (slab : InflightBufSlab) (sentinel_user_data result : Z) : outcome InflightBufSlab :=
  if negb (result =? CANCEL_TARGET_GONE) then Ret slab else
  let slot := Z.land sentinel_user_data 0xFFFF in
  let generation_low16 := Z.land (Z.shiftr sentinel_user_data 16) 0xFFFF in
  '(_, slab) ← free_if_retire_pending slab slot generation_low16;
  Ret slab.

Definition mark_notif_expected (slab : InflightBufSlab) (op_token : Z) : outcome InflightBufSlab :=
  mark_notif_expected_by_op_token slab op_token.

Definition reclaim_notif (slab : InflightBufSlab) (op_token : Z) : outcome InflightBufSlab :=
  '(was_freed, _, slab) ← free_by_op_token slab op_token;
  if was_freed : bool then Ret slab else mark_notif_ready_by_op_token slab op_token.

End SeamDrain.
