(* ===== verification/MsgSlot.v ===== *)
(** * Messages and vectors staged in an in-flight slot

    Models src/crates/kwokka-io/src/operation/core/msghdr.rs and vectored.rs
    (the layouts written over one slot), the builders and harvests of
    src/crates/kwokka-io/src/boundary/seam/state.rs that use them, and the
    datagram and vectored futures of
    src/crates/kwokka-io/src/operation/future/msg.rs and vectored.rs.

    A slot is the list of its bytes and the address [base] it lies at; the
    registry is mapped at [region].  A write through a raw pointer outside its
    array is [Undefined].  [size_of] and field offsets are those of
    [libc::msghdr] and [libc::iovec] on 64-bit Linux. *)

From S2P Require Import Prelude Words Bitmap IoTokens InflightSlab SockAddr Seam.
From stdpp Require Import base tactics option list numbers.

Local Open Scope Z_scope.

Module RawMem.
Import Inflight.

(** Writes and reads through a pointer [o] bytes into an array. *)
Definition raw_write (mem : list Z) (o : Z) (bs : list Z) : outcome (list Z) :=
  if (0 <=? o) && (o + Z.of_nat (length bs) <=? Z.of_nat (length mem)) then Ret (write_at mem o bs) else Undefined.
Definition raw_read (mem : list Z) (o n : Z) : outcome (list Z) :=
  if (0 <=? o) && (0 <=? n) && (o + n <=? Z.of_nat (length mem)) then Ret (take (Z.to_nat n) (drop (Z.to_nat o) mem)) else Undefined.

Record iovec : Type := mkIov { iov_base : Z; iov_len : Z }.
Definition IOVEC_SIZE : Z := 16.
Definition encode_iov (v : iovec) : list Z := Octets.to_le 8 (iov_base v) ++ Octets.to_le 8 (iov_len v).

Record msghdr : Type := mkHdr {
  msg_name : Z; msg_namelen : Z; msg_iov : Z; msg_iovlen : Z; msg_control : Z; msg_controllen : Z; msg_flags : Z;
}.
Definition MSGHDR_SIZE : Z := 56.
Definition zeroed_hdr : msghdr := mkHdr 0 0 0 0 0 0 0.
Definition encode_hdr (h : msghdr) : list Z :=
  Octets.to_le 8 (msg_name h) ++ Octets.to_le 4 (msg_namelen h) ++ replicate 4 0 ++
  Octets.to_le 8 (msg_iov h) ++ Octets.to_le 8 (msg_iovlen h) ++
  Octets.to_le 8 (msg_control h) ++ Octets.to_le 8 (msg_controllen h) ++ Octets.to_le 4 (msg_flags h) ++ replicate 4 0.

End RawMem.

(** ** The datagram header *)

Module MsgHdr.
Import Inflight Octets RawMem.

Definition SLOT_LEN : Z := INFLIGHT_BUF_STRIDE.
Definition IOVEC_OFFSET : Z := MSGHDR_SIZE.
Definition ADDR_OFFSET : Z := IOVEC_OFFSET + IOVEC_SIZE.
Definition RECV_NAMELEN : Z := 128.
Definition ADDR_LEN : Z := RECV_NAMELEN.
Definition PAYLOAD_OFFSET : Z := ADDR_OFFSET + ADDR_LEN.
Definition MAX_MSG_INLINE_CAP : Z := SLOT_LEN - PAYLOAD_OFFSET.

(** [write_layout]: the iovec, then the header; the header's address. *)
Definition write_layout (slot : list Z) (base iov_len addr_len : Z) : outcome (list Z * Z) :=
  let iov := mkIov (wrap USIZE (base + PAYLOAD_OFFSET)) iov_len in
  let header := mkHdr (wrap USIZE (base + ADDR_OFFSET)) addr_len (wrap USIZE (base + IOVEC_OFFSET)) 1
                  (msg_control zeroed_hdr) (msg_controllen zeroed_hdr) (msg_flags zeroed_hdr) in
  slot ← raw_write slot IOVEC_OFFSET (encode_iov iov);
  slot ← raw_write slot 0 (encode_hdr header);
  Ret (slot, base).

Definition write_send_header (slot : list Z) (base payload_len : Z) (addr : SockAddr.SockAddr) : outcome (list Z * Z) :=
  '(packed, addr_len) ← SockAddr.pack_into addr (replicate (Z.to_nat ADDR_LEN) 0);
  slot ← copy_range slot ADDR_OFFSET PAYLOAD_OFFSET packed;
  write_layout slot base payload_len addr_len.

Definition write_recv_header (slot : list Z) (base cap : Z) : outcome (list Z * Z) :=
  write_layout slot base cap RECV_NAMELEN.

Definition read_sender (slot : list Z) : outcome (option SockAddr.SockAddr) :=
  bytes ← slice slot ADDR_OFFSET PAYLOAD_OFFSET; SockAddr.unpack bytes.

End MsgHdr.

(** ** The [iovec] array *)

Module Vectored.
Import Inflight Octets RawMem.

Definition SLOT_LEN : Z := INFLIGHT_BUF_STRIDE.

Definition max_payload (count : Z) : option Z :=
  n ← checked_mul USIZE count IOVEC_SIZE;
  if n <=? SLOT_LEN then Some (SLOT_LEN - n) else None.

(** [payload_ptr]: the offset of the payload; a slice from past the end panics. *)
Definition payload_ptr (slot : list Z) (count : Z) : outcome Z :=
  if count * IOVEC_SIZE <=? Z.of_nat (length slot) then Ret (count * IOVEC_SIZE) else Panic.

(** [lens.iter().try_fold(0, checked_add)]. *)
Fixpoint checked_sum (sum : Z) (lens : list Z) : option Z :=
  match lens with
  | [] => Some sum
  | len :: lens => match checked_add USIZE sum len with None => None | Some sum => checked_sum sum lens end
  end.

Fixpoint fill_iovecs (slot : list Z) (base idx cursor : Z) (lens : list Z) : outcome (list Z) :=
  match lens with
  | [] => Ret slot
  | len :: lens =>
      slot ← raw_write slot (idx * IOVEC_SIZE) (encode_iov (mkIov (wrap USIZE (base + cursor)) len));
      cursor ← add_or_panic USIZE cursor len;
      fill_iovecs slot base (idx + 1) cursor lens
  end.

Definition write_iovecs (slot : list Z) (base : Z) (lens : list Z) : outcome (option (list Z * Z)) :=
  let fits_slot :=
    payload_at ← checked_mul USIZE (Z.of_nat (length lens)) IOVEC_SIZE;
    total ← checked_sum 0 lens;
    last ← checked_add USIZE payload_at total;
    if SLOT_LEN <? last then None else Some payload_at in
  match fits_slot with
  | None => Ret None
  | Some payload_at => slot ← fill_iovecs slot base 0 payload_at lens; Ret (Some (slot, base))
  end.

End Vectored.

(** ** The builders and harvests of the seam *)

Module MsgSeam.
Import IoTokens Inflight Octets RawMem Seam.

Definition slot_addr (region : Z) (slab : InflightBufSlab) (key : InflightSlotKey) : Z := region + slot key * stride slab.

(** The bytes behind [slot_array_mut], written back. *)
Definition put_slot (slab : InflightBufSlab) (key : InflightSlotKey) (bytes : list Z) : InflightBufSlab :=
  set_storage (write_at (storage slab) (slot key * stride slab) bytes) slab.

Definition build_send_msg (region : Z) (sm : seam) (key : InflightSlotKey) (src : list Z) (addr : SockAddr.SockAddr)
    : outcome (option Z * seam) :=
  match inflight_slab sm with
  | None => Ret (None, sm)
  | Some slab =>
      bytes ← slot_array slab key;
      match bytes with
      | None => Ret (None, sm)
      | Some bytes =>
          let len := Z.of_nat (length src) in
          if MsgHdr.MAX_MSG_INLINE_CAP <? len then Ret (None, sm) else
          bytes ← raw_write bytes MsgHdr.PAYLOAD_OFFSET src;
          '(bytes, header) ← MsgHdr.write_send_header bytes (slot_addr region slab key) len addr;
          Ret (Some header, set_slab (Some (put_slot slab key bytes)) sm)
      end
  end.

Definition build_recv_msg (region : Z) (sm : seam) (key : InflightSlotKey) (cap : Z) : outcome (option Z * seam) :=
  match inflight_slab sm with
  | None => Ret (None, sm)
  | Some slab =>
      bytes ← slot_array slab key;
      match bytes with
      | None => Ret (None, sm)
      | Some bytes =>
          let cap := Z.min cap MsgHdr.MAX_MSG_INLINE_CAP in
          '(bytes, header) ← MsgHdr.write_recv_header bytes (slot_addr region slab key) cap;
          Ret (Some header, set_slab (Some (put_slot slab key bytes)) sm)
      end
  end.

Definition read_msg_sender (sm : seam) (key : InflightSlotKey) : outcome (option SockAddr.SockAddr) :=
  match inflight_slab sm with
  | None => Ret None
  | Some slab =>
      bytes ← slot_array slab key;
      match bytes with None => Ret None | Some bytes => MsgHdr.read_sender bytes end
  end.

Definition harvest_msg_payload (sm : seam) (key : InflightSlotKey) (len : Z) (dst : list Z) : outcome (list Z * seam) :=
  match inflight_slab sm with
  | None => Ret (dst, sm)
  | Some slab =>
      bytes ← slot_array slab key;
      dst ← match bytes with
            | None => Ret dst
            | Some bytes =>
                let count := Z.min (Z.min len MsgHdr.MAX_MSG_INLINE_CAP) (Z.of_nat (length dst)) in
                src ← raw_read bytes MsgHdr.PAYLOAD_OFFSET count;
                Ret (src ++ drop (Z.to_nat count) dst)
            end;
      '(_, slab) ← free slab key;
      Ret (dst, set_slab (Some slab) sm)
  end.

(** The gather loop of [build_writev]. *)
Fixpoint gather (slot : list Z) (payload cursor : Z) (bufs : list (list Z)) : outcome (list Z) :=
  match bufs with
  | [] => Ret slot
  | buf :: bufs =>
      slot ← raw_write slot (payload + cursor) buf;
      cursor ← add_or_panic USIZE cursor (Z.of_nat (length buf));
      gather slot payload cursor bufs
  end.

Definition build_writev (region : Z) (sm : seam) (key : InflightSlotKey) (bufs : list (list Z)) : outcome (option (Z * Z) * seam) :=
  match inflight_slab sm with
  | None => Ret (None, sm)
  | Some slab =>
      bytes ← slot_array slab key;
      match bytes with
      | None => Ret (None, sm)
      | Some bytes =>
          let n := Z.of_nat (length bufs) in
          let lens := (fun b => Z.of_nat (length b)) <$> bufs in
          match Vectored.checked_sum 0 lens, Vectored.max_payload n with
          | Some total, Some budget =>
              if budget <? total then Ret (None, sm) else
              payload ← Vectored.payload_ptr bytes n;
              bytes ← gather bytes payload 0 bufs;
              array ← Vectored.write_iovecs bytes (slot_addr region slab key) lens;
              match array with
              | None => Ret (None, set_slab (Some (put_slot slab key bytes)) sm)
              | Some (bytes, array) =>
                  Ret (match try_from U32 n with None => None | Some n => Some (array, n) end,
                       set_slab (Some (put_slot slab key bytes)) sm)
              end
          | _, _ => Ret (None, sm)
          end
      end
  end.

(** The capacities [build_readv] offers. *)
Fixpoint clamp_caps (remaining : Z) (caps : list Z) : list Z :=
  match caps with
  | [] => []
  | cap :: caps => let cap := Z.min cap remaining in cap :: clamp_caps (remaining - cap) caps
  end.

Definition build_readv (region : Z) (sm : seam) (key : InflightSlotKey) (bufs : list (list Z)) : outcome (option (Z * Z) * seam) :=
  match inflight_slab sm with
  | None => Ret (None, sm)
  | Some slab =>
      bytes ← slot_array slab key;
      match bytes with
      | None => Ret (None, sm)
      | Some bytes =>
          let n := Z.of_nat (length bufs) in
          match Vectored.max_payload n with
          | None => Ret (None, sm)
          | Some budget =>
              let caps := clamp_caps budget ((fun b => Z.of_nat (length b)) <$> bufs) in
              array ← Vectored.write_iovecs bytes (slot_addr region slab key) caps;
              match array with
              | None => Ret (None, sm)
              | Some (bytes, array) =>
                  Ret (match try_from U32 n with None => None | Some n => Some (array, n) end,
                       set_slab (Some (put_slot slab key bytes)) sm)
              end
          end
      end
  end.

(** The scatter loop of [harvest_vectored]. *)
Fixpoint scatter (slot : list Z) (payload cursor remaining : Z) (bufs : list (list Z)) : outcome (list (list Z)) :=
  match bufs with
  | [] => Ret []
  | buf :: bufs =>
      let count := Z.min remaining (Z.of_nat (length buf)) in
      src ← raw_read slot (payload + cursor) count;
      cursor ← add_or_panic USIZE cursor count;
      rest ← scatter slot payload cursor (remaining - count) bufs;
      Ret ((src ++ drop (Z.to_nat count) buf) :: rest)
  end.

Definition harvest_vectored (sm : seam) (key : InflightSlotKey) (len : Z) (bufs : list (list Z)) : outcome (list (list Z) * seam) :=
  match inflight_slab sm with
  | None => Ret (bufs, sm)
  | Some slab =>
      bytes ← slot_array slab key;
      bufs ← match bytes, Vectored.max_payload (Z.of_nat (length bufs)) with
             | Some bytes, Some budget =>
                 payload ← Vectored.payload_ptr bytes (Z.of_nat (length bufs));
                 scatter bytes payload 0 (Z.min len budget) bufs
             | _, _ => Ret bufs
             end;
      '(_, slab) ← free slab key;
      Ret (bufs, set_slab (Some slab) sm)
  end.

End MsgSeam.

(** ** The futures

    The descriptor and the file offset only travel into the request. *)

Module MsgFuture.
Import IoTokens Inflight Seam BufFuture MsgSeam.

(** [SendMsgFuture]. *)
Record SendMsgFuture : Type := mkSendMsg {
  sm_addr : SockAddr.SockAddr; sm_buf : option (list Z); sm_key : option InflightSlotKey; sm_submitted : bool;
}.
Definition send_msg_new (addr : SockAddr.SockAddr) (buf : list Z) : SendMsgFuture := mkSendMsg addr (Some buf) None false.

(** What the four submit closures do with the pointer their builder returns. *)
Definition submit_built (token : Z) (op : OpCode) (key : InflightSlotKey) (built : option (Z * Z)) (sm : seam)
    : outcome (option InflightSlotKey * seam) :=
  match built with
  | None => sm ← free_slot sm key; Ret (None, sm)
  | Some (ptr, len) =>
      '(r, sm) ← submit_internal sm (mkRequest token op ptr len);
      match r with
      | Some (Submitted _) => Ret (Some key, sm)
      | _ => sm ← free_slot sm key; Ret (None, sm)
      end
  end.

Definition send_msg_submit (region token : Z) (addr : SockAddr.SockAddr) (buf : list Z) (sm : seam)
    : outcome (option InflightSlotKey * seam) :=
  '(slot, sm) ← allocate_slot sm token;
  match slot with
  | None => Ret (None, sm)
  | Some (key, _) =>
      '(header, sm) ← build_send_msg region sm key buf addr;
      submit_built token OpSendmsg key ((fun p => (p, 0)) <$> header) sm
  end.

Definition send_msg_poll (region token : Z) (f : SendMsgFuture) (sm : option seam)
    : outcome (Poll (Prelude.result Z Z) * SendMsgFuture * option seam) :=
  if sm_submitted f then
    match sm_key f with
    | None => Panic
    | Some key =>
        match sm with
        | None => Ret (Pending, f, None)
        | Some sm =>
            match completion_result sm with
            | None => Ret (Pending, f, Some sm)
            | Some slot =>
                sm ← free_slot sm key;
                Ret (Ready (bytes_from_cqe (ws_result slot)), mkSendMsg (sm_addr f) (sm_buf f) None true, Some sm)
            end
        end
    end
  else
    match sm_buf f with
    | None => Panic
    | Some buf =>
        '(key, sm) ← match sm with
                     | None => Ret (None, None)
                     | Some sm => '(key, sm) ← send_msg_submit region token (sm_addr f) buf sm; Ret (key, Some sm)
                     end;
        Ret (match key with
             | Some key => (Pending, mkSendMsg (sm_addr f) (Some buf) (Some key) true, sm)
             | None => (Ready (bytes_from_cqe (-22)), mkSendMsg (sm_addr f) None (sm_key f) false, sm)
             end)
    end.

(** [RecvMsgFuture]. *)
Record RecvMsgFuture : Type := mkRecvMsg { rm_buf : option (list Z); rm_key : option InflightSlotKey; rm_submitted : bool }.
Definition recv_msg_new (buf : list Z) : RecvMsgFuture := mkRecvMsg (Some buf) None false.

Definition recv_msg_submit (region token cap : Z) (sm : seam) : outcome (option InflightSlotKey * seam) :=
  '(slot, sm) ← allocate_slot sm token;
  match slot with
  | None => Ret (None, sm)
  | Some (key, _) =>
      '(header, sm) ← build_recv_msg region sm key cap;
      submit_built token OpRecvmsg key ((fun p => (p, 0)) <$> header) sm
  end.

(** The completion half: the sender is read before the harvest frees the slot. *)
Definition recv_msg_complete (key : InflightSlotKey) (buf : list Z) (sm : seam)
    : outcome (option (Prelude.result Z Z * option SockAddr.SockAddr) * list Z * seam) :=
  match completion_result sm with
  | None => Ret (None, buf, sm)
  | Some slot =>
      match bytes_from_cqe (ws_result slot) with
      | Ok count =>
          sender ← read_msg_sender sm key;
          '(buf, sm) ← harvest_msg_payload sm key count buf;
          Ret (Some (Ok count, sender), buf, sm)
      | Err error => sm ← free_slot sm key; Ret (Some (Err error, None), buf, sm)
      end
  end.

Definition recv_msg_poll (region token : Z) (f : RecvMsgFuture) (sm : option seam)
    : outcome (Poll (Prelude.result Z Z * option SockAddr.SockAddr * list Z) * RecvMsgFuture * option seam) :=
  if rm_submitted f then
    match rm_key f, rm_buf f with
    | None, _ | _, None => Panic
    | Some key, Some buf =>
        match sm with
        | None => Ret (Pending, f, None)
        | Some sm =>
            '(r, buf, sm) ← recv_msg_complete key buf sm;
            Ret (match r with
                 | Some (r, sender) => (Ready (r, sender, buf), mkRecvMsg None None true, Some sm)
                 | None => (Pending, mkRecvMsg (Some buf) (rm_key f) true, Some sm)
                 end)
        end
    end
  else
    match rm_buf f with
    | None => Panic
    | Some buf =>
        let cap := Z.of_nat (length buf) in
        if MsgHdr.MAX_MSG_INLINE_CAP <? cap then Ret (Ready (bytes_from_cqe (-22), None, buf), mkRecvMsg None (rm_key f) false, sm) else
        '(key, sm) ← match sm with
                     | None => Ret (None, None)
                     | Some sm => '(key, sm) ← recv_msg_submit region token cap sm; Ret (key, Some sm)
                     end;
        Ret (match key with
             | Some key => (Pending, mkRecvMsg (Some buf) (Some key) true, sm)
             | None => (Ready (bytes_from_cqe (-22), None, buf), mkRecvMsg None (rm_key f) false, sm)
             end)
    end.

(** [VectoredWriteFuture] and [VectoredReadFuture]. *)
Record VectoredFuture : Type := mkVec { v_iov : option (list (list Z)); v_key : option InflightSlotKey; v_submitted : bool }.
Definition vec_new (bufs : list (list Z)) : VectoredFuture := mkVec (Some bufs) None false.

Definition writev_submit (region token : Z) (bufs : list (list Z)) (sm : seam) : outcome (option InflightSlotKey * seam) :=
  '(slot, sm) ← allocate_slot sm token;
  match slot with
  | None => Ret (None, sm)
  | Some (key, _) => '(array, sm) ← build_writev region sm key bufs; submit_built token OpWritev key array sm
  end.

Definition writev_poll (region token : Z) (f : VectoredFuture) (sm : option seam)
    : outcome (Poll (Prelude.result Z Z * list (list Z)) * VectoredFuture * option seam) :=
  if v_submitted f then
    match v_key f with
    | None => Panic
    | Some key =>
        match sm with
        | None => Ret (Pending, f, None)
        | Some sm =>
            match completion_result sm with
            | None => Ret (Pending, f, Some sm)
            | Some slot =>
                sm ← free_slot sm key;
                match v_iov f with
                | None => Panic
                | Some bufs => Ret (Ready (bytes_from_cqe (ws_result slot), bufs), mkVec None None true, Some sm)
                end
            end
        end
    end
  else
    match v_iov f with
    | None => Panic
    | Some bufs =>
        '(key, sm) ← match sm with
                     | None => Ret (None, None)
                     | Some sm => '(key, sm) ← writev_submit region token bufs sm; Ret (key, Some sm)
                     end;
        Ret (match key with
             | Some key => (Pending, mkVec (Some bufs) (Some key) true, sm)
             | None => (Ready (bytes_from_cqe (-22), bufs), mkVec None (v_key f) false, sm)
             end)
    end.

Definition readv_submit (region token : Z) (bufs : list (list Z)) (sm : seam) : outcome (option InflightSlotKey * seam) :=
  '(slot, sm) ← allocate_slot sm token;
  match slot with
  | None => Ret (None, sm)
  | Some (key, _) => '(array, sm) ← build_readv region sm key bufs; submit_built token OpReadv key array sm
  end.

Definition readv_complete (key : InflightSlotKey) (bufs : list (list Z)) (sm : seam)
    : outcome (option (Prelude.result Z Z) * list (list Z) * seam) :=
  match completion_result sm with
  | None => Ret (None, bufs, sm)
  | Some slot =>
      match bytes_from_cqe (ws_result slot) with
      | Ok count => '(bufs, sm) ← harvest_vectored sm key count bufs; Ret (Some (Ok count), bufs, sm)
      | Err error => sm ← free_slot sm key; Ret (Some (Err error), bufs, sm)
      end
  end.

Definition readv_poll (region token : Z) (f : VectoredFuture) (sm : option seam)
    : outcome (Poll (Prelude.result Z Z * list (list Z)) * VectoredFuture * option seam) :=
  if v_submitted f then
    match v_key f, v_iov f with
    | None, _ | _, None => Panic
    | Some key, Some bufs =>
        match sm with
        | None => Ret (Pending, f, None)
        | Some sm =>
            '(r, bufs, sm) ← readv_complete key bufs sm;
            Ret (match r with
                 | Some r => (Ready (r, bufs), mkVec None None true, Some sm)
                 | None => (Pending, mkVec (Some bufs) (v_key f) true, Some sm)
                 end)
        end
    end
  else
    match v_iov f with
    | None => Panic
    | Some bufs =>
        '(key, sm) ← match sm with
                     | None => Ret (None, None)
                     | Some sm => '(key, sm) ← readv_submit region token bufs sm; Ret (key, Some sm)
                     end;
        Ret (match key with
             | Some key => (Pending, mkVec (Some bufs) (Some key) true, sm)
             | None => (Ready (bytes_from_cqe (-22), bufs), mkVec None (v_key f) false, sm)
             end)
    end.

End MsgFuture.
