(* ===== verification/MsgThms.v ===== *)
(** * What the kernel finds in a staged slot

    The builders of [MsgSeam] write a header or an [iovec] array, an address
    and a payload over one slot; the kernel follows the pointers they store.
    This file states that reading (as sendmsg(2), recvmsg(2), writev(2) and
    readv(2) document it) over the registry's memory, and proves that the
    staged structure means what the caller asked for and stays inside the
    slot. *)

From S2P Require Import Prelude Words Bitmap IoTokens InflightSlab InflightSpec SockAddr Seam MsgSlot.
From stdpp Require Import base tactics option list numbers.

Local Open Scope Z_scope.

(** ** The kernel's accesses *)

Module KernelMem.
Import Inflight Octets RawMem.

Section mem.
Context (region : Z).

Definition deref (mem : list Z) (addr n : Z) : option (list Z) :=
  match raw_read mem (addr - region) n with Ret bs => Some bs | _ => None end.
Definition store (mem : list Z) (addr : Z) (bs : list Z) : option (list Z) :=
  match raw_write mem (addr - region) bs with Ret mem => Some mem | _ => None end.
Definition load (n : nat) (mem : list Z) (addr : Z) : option Z := of_le <$> deref mem addr (Z.of_nat n).

(** The bytes [n] entries at [iov] describe, in order. *)
Fixpoint gather_iov (mem : list Z) (iov : Z) (n : nat) : option (list Z) :=
  match n with
  | O => Some []
  | S n =>
      base ← load 8 mem iov; len ← load 8 mem (iov + 8);
      bs ← deref mem base len; rest ← gather_iov mem (iov + 16) n; Some (bs ++ rest)
  end.

(** Filling [n] entries at [iov] with [data], each before the next. *)
Fixpoint scatter_iov (mem : list Z) (iov : Z) (n : nat) (data : list Z) : option (list Z) :=
  match n with
  | O => Some mem
  | S n =>
      base ← load 8 mem iov; len ← load 8 mem (iov + 8);
      mem ← store mem base (take (Z.to_nat len) data);
      scatter_iov mem (iov + 16) n (drop (Z.to_nat len) data)
  end.

(** sendmsg(2): the destination and the datagram. *)
Definition sendmsg_reads (mem : list Z) (header : Z) : option (list Z * list Z) :=
  name ← load 8 mem header; namelen ← load 4 mem (header + 8);
  iov ← load 8 mem (header + 16); iovlen ← load 8 mem (header + 24);
  addr ← deref mem name namelen; data ← gather_iov mem iov (Z.to_nat iovlen); Some (addr, data).

(** recvmsg(2): the sender's address up to the offered length, the datagram,
    and the header's [msg_namelen] and [msg_flags]. *)
Definition recvmsg_writes (mem : list Z) (header : Z) (sender data : list Z) (flags : Z) : option (list Z) :=
  name ← load 8 mem header; namelen ← load 4 mem (header + 8);
  iov ← load 8 mem (header + 16); iovlen ← load 8 mem (header + 24);
  mem ← store mem name (take (Z.to_nat namelen) sender);
  mem ← scatter_iov mem iov (Z.to_nat iovlen) data;
  mem ← store mem (header + 8) (to_le 4 (Z.of_nat (length sender)));
  store mem (header + 48) (to_le 4 flags).

End mem.

(** *** Raw accesses in range *)

Lemma raw_write_ok mem o bs : 0 <= o -> o + Z.of_nat (length bs) <= Z.of_nat (length mem) -> raw_write mem o bs = Ret (write_at mem o bs).
Proof.
  intros H0 H1. unfold raw_write. destruct (Z.leb_spec 0 o); [|lia].
  by destruct (Z.leb_spec (o + Z.of_nat (length bs)) (Z.of_nat (length mem))); [|lia].
Qed.

Lemma raw_read_has mem o bs : has mem o bs -> raw_read mem o (Z.of_nat (length bs)) = Ret bs.
Proof.
  intros H. pose proof (has_length _ _ _ H) as Hl. unfold raw_read. destruct (Z.leb_spec 0 o); [|lia].
  destruct (Z.leb_spec 0 (Z.of_nat (length bs))); [|lia]. destruct (Z.leb_spec (o + Z.of_nat (length bs)) (Z.of_nat (length mem))); [|lia].
  cbn [andb]. f_equal. rewrite Nat2Z.id. apply has_take; [lia|done].
Qed.

Section access.
Context (region : Z).

Lemma deref_has mem o bs n : has mem o bs -> n = Z.of_nat (length bs) -> deref region mem (region + o) n = Some bs.
Proof. intros H ->. unfold deref. replace (region + o - region) with o by lia. by rewrite raw_read_has. Qed.

Lemma load_has n mem o z : has mem o (to_le n z) -> fits (8 * Z.of_nat n) z -> load region n mem (region + o) = Some z.
Proof. intros H Hz. unfold load. rewrite (deref_has mem o _ _ H) by (by rewrite length_to_le). cbn. by rewrite of_to_le. Qed.

Lemma store_ok mem o bs : 0 <= o -> o + Z.of_nat (length bs) <= Z.of_nat (length mem) -> store region mem (region + o) bs = Some (write_at mem o bs).
Proof. intros H0 H1. unfold store. replace (region + o - region) with o by lia. by rewrite raw_write_ok. Qed.

End access.

(** *** Entries laid out back to back *)

Fixpoint iov_list (base cursor : Z) (lens : list Z) : list iovec :=
  match lens with [] => [] | len :: lens => mkIov (base + cursor) len :: iov_list base (cursor + len) lens end.
Definition encode_iovs (vs : list iovec) : list Z := concat (encode_iov <$> vs).
Definition total (lens : list Z) : Z := foldr Z.add 0 lens.

Lemma length_encode_iov v : length (encode_iov v) = 16%nat.
Proof. unfold encode_iov. by rewrite length_app, !length_to_le. Qed.

Lemma length_encode_iovs base cursor lens : Z.of_nat (length (encode_iovs (iov_list base cursor lens))) = 16 * Z.of_nat (length lens).
Proof.
  revert cursor. induction lens as [|len lens IH]; intros cursor; [done|]. unfold encode_iovs in *. cbn [iov_list fmap list_fmap concat].
  rewrite length_app, length_encode_iov, Nat2Z.inj_add, IH. cbn [length]. lia.
Qed.

Lemma total_nonneg lens : Forall (fun n => 0 <= n) lens -> 0 <= total lens.
Proof. induction 1; cbn; [done|]. unfold total in *. lia. Qed.

Section iovs.
Context (region base : Z) (Hr : 0 <= region).

(** The pieces of one entry. *)
Lemma entry_loads mem o v : has mem o (encode_iov v) -> fits 64 (iov_base v) -> fits 64 (iov_len v) ->
  load region 8 mem (region + o) = Some (iov_base v) /\ load region 8 mem (region + o + 8) = Some (iov_len v).
Proof.
  intros [H1 H2]%has_app Hb Hl. rewrite length_to_le in H2. split; [by apply load_has|]. replace (region + o + 8) with (region + (o + 8)) by lia. by apply load_has.
Qed.

Lemma gather_contig mem lens cursor o bufs : lens = (fun b => Z.of_nat (length b)) <$> bufs ->
  region <= base -> 0 <= cursor -> base + cursor + total lens < 2 ^ 64 ->
  has mem o (encode_iovs (iov_list base cursor lens)) -> has mem (base - region + cursor) (concat bufs) ->
  gather_iov region mem (region + o) (length lens) = Some (concat bufs).
Proof.
  intros ->. revert cursor o. induction bufs as [|b bufs IH]; intros cursor o Hb Hc Ht Ho Hd; [done|].
  cbn [fmap list_fmap length gather_iov total foldr concat] in *. fold (total ((fun b0 => Z.of_nat (length b0)) <$> bufs)) in Ht.
  assert (0 <= total ((fun b0 => Z.of_nat (length b0)) <$> bufs)) by (apply total_nonneg, Forall_fmap, Forall_true; intros; cbn; lia).
  unfold encode_iovs in Ho. cbn [iov_list fmap list_fmap concat] in Ho. apply has_app in Ho as [He Hs]. rewrite length_encode_iov in Hs. apply has_app in Hd as [Hd1 Hd2].
  destruct (entry_loads _ _ _ He) as [-> ->]; [unfold fits; cbn; lia..|]. cbn [mbind option_bind iov_base iov_len].
  replace (base + cursor) with (region + (base - region + cursor)) by lia. rewrite (deref_has region _ _ _ _ Hd1) by done. cbn [mbind option_bind].
  replace (region + o + 16) with (region + (o + 16)) by lia. rewrite (IH (cursor + Z.of_nat (length b)) (o + 16)); [done|lia..|exact Hs|].
  by replace (base - region + (cursor + Z.of_nat (length b))) with (base - region + cursor + Z.of_nat (length b)) by lia.
Qed.

(** The entries lie below the bytes they describe. *)
Lemma scatter_contig lens cursor o mem data : Forall (fun n => 0 <= n) lens ->
  region <= base -> 0 <= cursor -> base + cursor + total lens < 2 ^ 64 ->
  base - region + cursor + total lens <= Z.of_nat (length mem) ->
  has mem o (encode_iovs (iov_list base cursor lens)) -> o + 16 * Z.of_nat (length lens) <= base - region + cursor ->
  Z.of_nat (length data) <= total lens ->
  exists mem', scatter_iov region mem (region + o) (length lens) data = Some mem' /\ length mem' = length mem /\
    has mem' (base - region + cursor) data /\
    (forall o' bs, has mem o' bs -> o' + Z.of_nat (length bs) <= base - region + cursor \/ base - region + cursor + total lens <= o' -> has mem' o' bs).
Proof.
  intros Hp. revert cursor o mem data. induction Hp as [|len lens Hlen Hp IH]; intros cursor o mem data Hb Hc Ht Hm Ho Hd Hl.
  { cbn [total foldr] in Hl. destruct data; [|cbn [length] in Hl; lia]. exists mem. split; [done|]. split; [done|]. split; [|done]. apply has_take; [lia|]. cbn [length take] in *. split; [done|]. cbn [total foldr] in Hm. lia. }
  cbn [length scatter_iov total foldr] in *. fold (total lens) in *. pose proof (total_nonneg lens Hp) as Hn.
  unfold encode_iovs in Ho. cbn [iov_list fmap list_fmap concat] in Ho. pose proof Ho as [He Hs]%has_app. rewrite length_encode_iov in Hs.
  destruct (entry_loads _ _ _ He) as [-> ->]; [unfold fits; cbn; lia..|]. cbn [mbind option_bind iov_base iov_len].
  set (chunk := take (Z.to_nat len) data). assert (Hch : Z.of_nat (length chunk) <= len) by (unfold chunk; rewrite length_take; lia).
  replace (base + cursor) with (region + (base - region + cursor)) by lia. pose proof (has_length _ _ _ He) as [Ho0 _].
  rewrite store_ok by lia. cbn [mbind option_bind]. set (mem1 := write_at mem _ chunk).
  assert (Hl1 : length mem1 = length mem) by (apply length_write_at; lia).
  replace (region + o + 16) with (region + (o + 16)) by lia.
  destruct (IH (cursor + len) (o + 16) mem1 (drop (Z.to_nat len) data)) as (mem' & E & Hl' & Hd' & Hf); [lia..| | |rewrite length_drop; lia|].
  - apply write_at_frame; [lia|lia|exact Hs|left]. rewrite length_encode_iovs. lia.
  - lia.
  - exists mem'. split; [exact E|]. split; [by rewrite Hl'|]. split.
    + rewrite <- (take_drop (Z.to_nat len) data). apply has_app. fold chunk. split.
      * apply Hf; [apply write_at_has; lia|left; lia].
      * destruct (decide (length (drop (Z.to_nat len) data) = 0%nat)) as [Hz|Hz].
        { apply nil_length_inv in Hz. rewrite Hz. apply has_take; [lia|]. cbn [length take]. split; [done|lia]. }
        rewrite length_drop in Hz. replace (Z.of_nat (length chunk)) with len by (unfold chunk; rewrite length_take; lia).
        by replace (base - region + cursor + len) with (base - region + (cursor + len)) by lia.
    + intros o' bs Hbs Hdis. apply Hf; [|lia]. apply write_at_frame; [lia|lia|done|lia].
Qed.

End iovs.

End KernelMem.

(** ** The staged slot *)

Module MsgSpec.
Import IoTokens Inflight InflightSpec Octets RawMem KernelMem Seam MsgSeam.

Definition whole (slot : list Z) : Prop := Z.of_nat (length slot) = MsgHdr.SLOT_LEN.

Lemma length_encode_hdr h : length (encode_hdr h) = 56%nat.
Proof. unfold encode_hdr. rewrite !length_app, !length_to_le, !length_replicate. done. Qed.

Ltac sizes := unfold whole, MsgHdr.MAX_MSG_INLINE_CAP, MsgHdr.PAYLOAD_OFFSET, MsgHdr.ADDR_LEN, MsgHdr.RECV_NAMELEN, MsgHdr.ADDR_OFFSET, MsgHdr.IOVEC_OFFSET,
  MsgHdr.SLOT_LEN, Vectored.SLOT_LEN, MSGHDR_SIZE, IOVEC_SIZE, INFLIGHT_BUF_STRIDE in *.

(** The header and the entry [write_layout] stores for a slot at [base]. *)
Definition header_at (base addr_len : Z) : msghdr := mkHdr (wrap USIZE (base + 72)) addr_len (wrap USIZE (base + 56)) 1 0 0 0.
Definition entry_at (base n : Z) : iovec := mkIov (wrap USIZE (base + 200)) n.

Lemma write_layout_spec slot base n a : whole slot ->
  exists slot', MsgHdr.write_layout slot base n a = Ret (slot', base) /\ whole slot' /\
    has slot' 0 (encode_hdr (header_at base a)) /\ has slot' 56 (encode_iov (entry_at base n)) /\
    (forall o bs, has slot o bs -> 72 <= o -> has slot' o bs).
Proof.
  intros Hw. unfold MsgHdr.write_layout, zeroed_hdr. cbn [msg_control msg_controllen msg_flags].
  change (mkIov (wrap USIZE (base + MsgHdr.PAYLOAD_OFFSET)) n) with (entry_at base n).
  change (mkHdr (wrap USIZE (base + MsgHdr.ADDR_OFFSET)) a (wrap USIZE (base + MsgHdr.IOVEC_OFFSET)) 1 0 0 0) with (header_at base a).
  change MsgHdr.IOVEC_OFFSET with 56. sizes. pose proof (length_encode_iov (entry_at base n)) as He. pose proof (length_encode_hdr (header_at base a)) as Hh.
  rewrite raw_write_ok by lia. cbn [mbind outcome_bind]. set (s1 := write_at slot 56 _). assert (Hl : length s1 = length slot) by (apply length_write_at; lia).
  rewrite raw_write_ok by lia. cbn [mbind outcome_bind]. eexists. split; [done|]. split; [by rewrite length_write_at, Hl by lia|].
  split; [apply write_at_has; lia|]. split; [apply write_at_frame; [lia|lia|apply write_at_has; lia|lia]|].
  intros o bs Hb Ho. apply write_at_frame; [lia|lia| |lia]. apply write_at_frame; [lia|lia|done|lia].
Qed.

Lemma write_send_header_spec slot base n addr : whole slot -> SockAddr.wf addr ->
  exists slot', MsgHdr.write_send_header slot base n addr = Ret (slot', base) /\ whole slot' /\
    has slot' 0 (encode_hdr (header_at base (Z.of_nat (length (SockAddr.image addr))))) /\ has slot' 56 (encode_iov (entry_at base n)) /\
    has slot' 72 (SockAddr.image addr) /\ (forall o bs, has slot o bs -> 200 <= o -> has slot' o bs).
Proof.
  intros Hw Ha. unfold MsgHdr.write_send_header. pose proof (AddrThms.length_image addr Ha) as Hi.
  rewrite AddrThms.pack_image by done. cbn [mbind outcome_bind].
  pose proof (AddrThms.length_zeroed (SockAddr.image addr)) as Hz. unfold SockAddr.STORAGE in Hz. specialize (Hz ltac:(lia)).
  sizes. change (56 + 16) with 72. rewrite copy_range_ok by (rewrite ?Hz; cbn; lia). cbn [mbind outcome_bind].
  set (s1 := write_at slot 72 _). assert (Hl : length s1 = length slot) by (apply length_write_at; rewrite ?Hz; lia).
  destruct (write_layout_spec s1 base n (Z.of_nat (length (SockAddr.image addr)))) as (slot' & -> & Hw' & H0 & H56 & Hf); [unfold whole; sizes; lia|].
  exists slot'. do 2 (split; [done|]). split; [done|]. split; [done|]. split.
  - apply Hf; [|lia]. assert (has s1 72 (AddrThms.zeroed (SockAddr.image addr))) as [? _]%has_app; [|done]. apply write_at_has; rewrite ?Hz; lia.
  - intros o bs Hb Ho. apply Hf; [|lia]. apply write_at_frame; [lia|rewrite ?Hz; lia|done|right; rewrite Hz; lia].
Qed.

(** ** One slot of the registry *)

Section slot.
Context (s : InflightBufSlab) (W : wf s) (key : InflightSlotKey) (H0 : 0 <= slot key).

Lemma slot_array_dead : live s key = false -> slot_array s key = Ret None.
Proof. intros L. unfold slot_array. by rewrite is_live_spec, L. Qed.

Lemma put_slot_wf bytes : live s key = true -> whole bytes -> wf (put_slot s key bytes).
Proof.
  intros L Hw. destruct (live_ranged s W key H0 L) as [Hr Hc]. pose proof (wf_shape s W) as Sh. pose proof (sh_bytes _ Sh) as Hb. pose proof (sh_stride _ Sh) as Hst.
  destruct W as [[] We]. split; [split; try done|intros i Hi; apply (We i Hi)]. cbn [storage set_storage put_slot cap stride].
  rewrite length_write_at; [done|lia|]. rewrite Hst in *. sizes. nia.
Qed.

Context (L : live s key = true).

Lemma slot_array_live : exists bytes, slot_array s key = Ret (Some bytes) /\ whole bytes /\ has (storage s) (slot key * stride s) bytes.
Proof.
  destruct (live_ranged s W key H0 L) as [Hr Hc]. pose proof (wf_shape s W) as Sh. pose proof (sh_bytes _ Sh) as Hb. pose proof (sh_stride _ Sh) as Hst.
  rewrite Hst in *. unfold slot_array. rewrite is_live_spec, L by done. cbn [mbind outcome_bind negb]. rewrite Hst.
  destruct (slice_total (storage s) (slot key * INFLIGHT_BUF_STRIDE) (slot key * INFLIGHT_BUF_STRIDE + INFLIGHT_BUF_STRIDE)) as (bs & E & Hl); [sizes; lia|sizes; nia|].
  rewrite E. cbn [mbind outcome_bind]. destruct (Z.eqb_spec (Z.of_nat (length bs)) INFLIGHT_BUF_STRIDE); [|sizes; lia].
  exists bs. split; [done|]. split; [done|]. eapply has_slice; [sizes; lia|exact E].
Qed.

Context (bytes : list Z) (Hw : whole bytes).

Lemma put_slot_has : has (storage (put_slot s key bytes)) (slot key * stride s) bytes.
Proof.
  destruct (slot_array_live) as (old & _ & Ho & Hh). apply has_length in Hh. cbn [storage set_storage put_slot]. apply write_at_has; [lia|]. sizes. lia.
Qed.

(** The bytes of the other slots stay. *)
Lemma put_slot_frame o bs : has (storage s) o bs -> o + Z.of_nat (length bs) <= slot key * stride s \/ (slot key + 1) * stride s <= o ->
  has (storage (put_slot s key bytes)) o bs.
Proof.
  intros Hb Hd. destruct (slot_array_live) as (old & _ & Ho & Hh). apply has_length in Hh. pose proof (sh_stride _ (wf_shape s W)) as Hst.
  cbn [storage set_storage put_slot]. sizes. apply write_at_frame; [lia|lia|done|]. lia.
Qed.

Lemma put_slot_live : live (put_slot s key bytes) key = true.
Proof. exact L. Qed.

End slot.

(** ** Loops over buffers *)

Definition lens_of (bufs : list (list Z)) : list Z := (fun b => Z.of_nat (length b)) <$> bufs.

Lemma lens_nonneg bufs : Forall (fun n => 0 <= n) (lens_of bufs).
Proof. apply Forall_fmap, Forall_true. intros b. cbn. lia. Qed.

Lemma total_concat bufs : total (lens_of bufs) = Z.of_nat (length (concat bufs)).
Proof. induction bufs as [|b bufs IH]; [done|]. cbn [concat]. rewrite length_app, Nat2Z.inj_add, <- IH. done. Qed.

Lemma wrap_small z : 0 <= z < 2 ^ 64 -> wrap USIZE z = z.
Proof. intros H. unfold wrap. by apply Z.mod_small. Qed.

Lemma add_small a b : a + b < 2 ^ 64 -> add_or_panic USIZE a b = Ret (a + b).
Proof. intros H. unfold add_or_panic. by destruct (Z.ltb_spec (a + b) (2 ^ USIZE)); [|lia]. Qed.

Lemma checked_sum_spec lens acc : Forall (fun n => 0 <= n) lens -> 0 <= acc < 2 ^ 64 ->
  Vectored.checked_sum acc lens = if decide (acc + total lens < 2 ^ 64) then Some (acc + total lens) else None.
Proof.
  intros Hp. revert acc. induction Hp as [|len lens Hl Hp IH]; intros acc Ha; cbn [Vectored.checked_sum total foldr].
  - rewrite decide_True by lia. f_equal. lia.
  - fold (total lens). pose proof (total_nonneg lens Hp). unfold checked_add. destruct (Z.ltb_spec (acc + len) (2 ^ USIZE)).
    + rewrite IH by lia. rewrite Z.add_assoc. done.
    + rewrite decide_False by lia. done.
Qed.

Lemma fill_iovecs_spec lens slot base idx cursor : Forall (fun n => 0 <= n) lens -> whole slot -> 0 <= idx -> 0 <= base -> 0 <= cursor ->
  (idx + Z.of_nat (length lens)) * 16 <= 4096 -> base + cursor + total lens < 2 ^ 64 ->
  exists slot', Vectored.fill_iovecs slot base idx cursor lens = Ret slot' /\ whole slot' /\
    has slot' (idx * 16) (encode_iovs (iov_list base cursor lens)) /\
    (forall o bs, has slot o bs -> o + Z.of_nat (length bs) <= idx * 16 \/ (idx + Z.of_nat (length lens)) * 16 <= o -> has slot' o bs).
Proof.
  intros Hp. revert slot idx cursor. induction Hp as [|len lens Hl Hp IH]; intros slot idx cursor Hw Hi Hb Hc Hn Ht; cbn [Vectored.fill_iovecs length total foldr] in *.
  - exists slot. split; [done|]. split; [done|]. split; [|done]. apply has_take; [lia|]. cbn [length take]. split; [done|]. sizes. cbn. lia.
  - fold (total lens) in *. pose proof (total_nonneg lens Hp). pose proof (length_encode_iov (mkIov (base + cursor) len)) as He. sizes.
    rewrite wrap_small by lia. rewrite raw_write_ok by lia. cbn [mbind outcome_bind]. rewrite add_small by lia. cbn [mbind outcome_bind].
    set (s1 := write_at slot _ _). assert (Hl1 : length s1 = length slot) by (apply length_write_at; lia).
    destruct (IH s1 (idx + 1) (cursor + len)) as (slot' & E & Hw' & Hh & Hf); [by rewrite Hl1|lia..|]. exists slot'. split; [done|]. split; [done|]. split.
    + unfold encode_iovs. cbn [iov_list fmap list_fmap concat]. apply has_app. rewrite He. split.
      * apply Hf; [apply write_at_has; lia|rewrite He; lia].
      * by replace (idx * 16 + Z.of_nat 16) with ((idx + 1) * 16) by lia.
    + intros o bs Hbs Hd. apply Hf; [|lia]. apply write_at_frame; [lia|lia|done|rewrite He; lia].
Qed.

Lemma write_iovecs_spec lens slot base : Forall (fun n => 0 <= n) lens -> whole slot -> 0 <= base -> base + 4096 < 2 ^ 64 ->
  let n := 16 * Z.of_nat (length lens) in
  if decide (n + total lens <= 4096) then
    exists slot', Vectored.write_iovecs slot base lens = Ret (Some (slot', base)) /\ whole slot' /\
      has slot' 0 (encode_iovs (iov_list base n lens)) /\ (forall o bs, has slot o bs -> n <= o -> has slot' o bs)
  else Vectored.write_iovecs slot base lens = Ret None.
Proof.
  intros Hp Hw Hb Hfit n. pose proof (total_nonneg lens Hp) as Ht. unfold Vectored.write_iovecs, checked_mul. sizes.
  rewrite checked_sum_spec by (done || lia). replace (Z.of_nat (length lens) * 16) with n by (unfold n; lia).
  case_decide as Hd.
  - destruct (Z.ltb_spec n (2 ^ USIZE)); [|lia]. cbn [mbind option_bind]. rewrite decide_True by lia. cbn [mbind option_bind]. unfold checked_add.
    rewrite Z.add_0_l. destruct (Z.ltb_spec (n + total lens) (2 ^ USIZE)); [|lia]. cbn [mbind option_bind]. destruct (Z.ltb_spec 4096 (n + total lens)); [lia|].
    destruct (fill_iovecs_spec lens slot base 0 n) as (slot' & -> & Hw' & Hh & Hf); [done|done|lia|lia|lia|lia|lia|].
    exists slot'. cbn. do 2 (split; [done|]). split; [done|]. intros o bs Hbs Ho. apply Hf; [done|]. lia.
  - destruct (n <? _); cbn [mbind option_bind]; [|done]. case_decide; cbn [mbind option_bind]; [|done]. unfold checked_add. destruct (_ <? _); cbn [mbind option_bind]; [|done].
    destruct (Z.ltb_spec 4096 (n + (0 + total lens))); [done|lia].
Qed.

Lemma gather_spec bufs slot payload cursor : whole slot -> 0 <= payload -> 0 <= cursor ->
  payload + cursor + total (lens_of bufs) <= 4096 ->
  exists slot', gather slot payload cursor bufs = Ret slot' /\ whole slot' /\ has slot' (payload + cursor) (concat bufs) /\
    (forall o bs, has slot o bs -> o + Z.of_nat (length bs) <= payload + cursor -> has slot' o bs).
Proof.
  revert slot cursor. induction bufs as [|b bufs IH]; intros slot cursor Hw Hp Hc Ht; cbn [gather concat].
  - exists slot. split; [done|]. split; [done|]. split; [|done]. apply has_take; [lia|]. cbn [length take]. split; [done|]. sizes. cbn in Ht. lia.
  - cbn [lens_of fmap list_fmap total foldr] in Ht. fold (lens_of bufs) in Ht. fold (total (lens_of bufs)) in Ht.
    pose proof (total_nonneg _ (lens_nonneg bufs)). sizes. rewrite raw_write_ok by lia. cbn [mbind outcome_bind]. rewrite add_small by lia. cbn [mbind outcome_bind].
    set (s1 := write_at slot _ _). assert (Hl1 : length s1 = length slot) by (apply length_write_at; lia).
    destruct (IH s1 (cursor + Z.of_nat (length b))) as (slot' & E & Hw' & Hh & Hf); [by rewrite Hl1|lia..|]. exists slot'. split; [done|]. split; [done|]. split.
    + apply has_app. split; [apply Hf; [apply write_at_has; lia|lia]|]. by rewrite <- Z.add_assoc.
    + intros o bs Hbs Ho. apply Hf; [|lia]. apply write_at_frame; [lia|lia|done|lia].
Qed.

(** The harvest of a read fills the buffers in order. *)
Lemma scatter_spec bufs slot payload cursor data : has slot (payload + cursor) data -> 0 <= payload -> 0 <= cursor -> whole slot ->
  Z.of_nat (length data) <= total (lens_of bufs) ->
  exists bufs', scatter slot payload cursor (Z.of_nat (length data)) bufs = Ret bufs' /\ length <$> bufs' = length <$> bufs /\
    concat bufs' = data ++ drop (length data) (concat bufs).
Proof.
  revert cursor data. induction bufs as [|b bufs IH]; intros cursor data Hd Hp Hc Hw Ht; cbn [scatter].
  - cbn in Ht. destruct data; [|cbn [length] in Ht; lia]. by exists [].
  - cbn [lens_of fmap list_fmap total foldr] in Ht. fold (lens_of bufs) in Ht. fold (total (lens_of bufs)) in Ht.
    pose proof (total_nonneg _ (lens_nonneg bufs)) as Hnn. rewrite <- (take_drop (length b) data) in Hd. pose proof Hd as [Hd1 Hd2]%has_app. pose proof (has_length _ _ _ Hd1) as Hb. pose proof (length_take data (length b)) as Htk.
    assert (Hmin : Z.min (Z.of_nat (length data)) (Z.of_nat (length b)) = Z.of_nat (length (take (length b) data))) by lia.
    rewrite Hmin. rewrite (raw_read_has _ _ _ Hd1). cbn [mbind outcome_bind]. sizes. rewrite add_small by lia. cbn [mbind outcome_bind].
    replace (Z.of_nat (length data) - Z.of_nat (length (take (length b) data))) with (Z.of_nat (length (drop (length b) data))) by (rewrite length_drop; lia).
    destruct (IH (cursor + Z.of_nat (length (take (length b) data))) (drop (length b) data)) as (rest & E & Hl & Hcat); [by rewrite Z.add_assoc|lia|lia|done|rewrite length_drop; lia|].
    rewrite E. cbn [mbind outcome_bind]. eexists. split; [done|]. rewrite Nat2Z.id. split.
    + cbn [fmap list_fmap]. f_equal; [rewrite length_app, length_drop; lia|done].
    + cbn [concat]. rewrite Hcat. destruct (Nat.le_gt_cases (length data) (length b)).
      * rewrite (take_ge data) by lia. rewrite (drop_ge data) by lia. cbn [length app]. rewrite drop_0. rewrite drop_app_le by lia. by rewrite <- app_assoc.
      * rewrite length_take_le by lia. rewrite (drop_ge b) by lia. rewrite app_nil_r, drop_app_ge by lia.
        rewrite length_drop, app_assoc, take_drop. done.
Qed.

Lemma max_payload_spec n : 0 <= n -> Vectored.max_payload n = if decide (16 * n <= 4096) then Some (4096 - 16 * n) else None.
Proof.
  intros Hn. unfold Vectored.max_payload, checked_mul. sizes. replace (n * 16) with (16 * n) by lia. destruct (Z.ltb_spec (16 * n) (2 ^ USIZE)); cbn [mbind option_bind].
  - destruct (Z.leb_spec (16 * n) 4096); case_decide; (done || lia).
  - rewrite decide_False by lia. done.
Qed.

Lemma clamp_caps_spec caps budget : Forall (fun n => 0 <= n) caps -> 0 <= budget ->
  Forall (fun n => 0 <= n) (clamp_caps budget caps) /\ length (clamp_caps budget caps) = length caps /\
  total (clamp_caps budget caps) = Z.min budget (total caps).
Proof.
  intros Hp. revert budget. induction Hp as [|c caps Hc Hp IH]; intros budget Hb; cbn [clamp_caps total foldr length]; [split; [constructor|]; split; [done|lia]|].
  destruct (IH (budget - Z.min c budget)) as (H1 & H2 & H3); [lia|]. fold (total caps). fold (total (clamp_caps (budget - Z.min c budget) caps)).
  pose proof (total_nonneg caps Hp). split; [constructor; [lia|done]|]. split; [by rewrite H2|]. lia.
Qed.

(** Where the registry may be mapped. *)
Definition region_ok (region : Z) : Prop := 0 <= region /\ region + 2 ^ 20 < 2 ^ 64.

Section builders.
Context (s : InflightBufSlab) (W : wf s) (key : InflightSlotKey) (H0 : 0 <= slot key) (L : live s key = true).
Context (region : Z) (R : region_ok region) (sm : seam) (Hsm : inflight_slab sm = Some s).

Definition base : Z := slot_addr region s key.
Definition staged (bytes : list Z) : seam := set_slab (Some (put_slot s key bytes)) sm.

Lemma base_bounds : region <= base /\ base + 4096 <= region + 2 ^ 20 /\ base - region + 4096 <= Z.of_nat (length (storage s)).
Proof.
  destruct (live_ranged s W key H0 L) as [Hr Hc]. pose proof (wf_shape s W) as Sh. pose proof (sh_bytes _ Sh) as Hb. pose proof (sh_stride _ Sh) as Hst.
  pose proof (sh_cap _ Sh) as Hcap. unfold base, slot_addr. rewrite Hst in *. unfold DEFAULT_INFLIGHT_CAP in Hcap. sizes. nia.
Qed.

Lemma build_send_msg_spec src addr : SockAddr.wf addr ->
  if decide (Z.of_nat (length src) <= MsgHdr.MAX_MSG_INLINE_CAP) then
    exists bytes, build_send_msg region sm key src addr = Ret (Some base, staged bytes) /\ whole bytes /\
      has bytes 0 (encode_hdr (header_at base (Z.of_nat (length (SockAddr.image addr))))) /\
      has bytes 56 (encode_iov (entry_at base (Z.of_nat (length src)))) /\ has bytes 72 (SockAddr.image addr) /\ has bytes 200 src
  else build_send_msg region sm key src addr = Ret (None, sm).
Proof.
  intros Ha. destruct (slot_array_live s W key H0 L) as (old & E & Hw & Hh). unfold build_send_msg. rewrite Hsm, E. cbn [mbind outcome_bind].
  destruct (Z.ltb_spec MsgHdr.MAX_MSG_INLINE_CAP (Z.of_nat (length src))); case_decide; try lia; [done|].
  change MsgHdr.PAYLOAD_OFFSET with 200. sizes. rewrite raw_write_ok by lia. cbn [mbind outcome_bind].
  destruct (write_send_header_spec (write_at old 200 src) (slot_addr region s key) (Z.of_nat (length src)) addr) as (bytes & -> & Hw' & B0 & B56 & B72 & Bf);
    [unfold whole; sizes; rewrite length_write_at; lia|done|]. cbn [mbind outcome_bind].
  exists bytes. split; [done|]. do 4 (split; [done|]). apply Bf; [|lia]. apply write_at_has; lia.
Qed.

Lemma build_recv_msg_spec cap :
  exists bytes, build_recv_msg region sm key cap = Ret (Some base, staged bytes) /\ whole bytes /\
    has bytes 0 (encode_hdr (header_at base 128)) /\ has bytes 56 (encode_iov (entry_at base (Z.min cap MsgHdr.MAX_MSG_INLINE_CAP))).
Proof.
  destruct (slot_array_live s W key H0 L) as (old & E & Hw & Hh). unfold build_recv_msg. rewrite Hsm, E. cbn [mbind outcome_bind]. unfold MsgHdr.write_recv_header.
  destruct (write_layout_spec old (slot_addr region s key) (Z.min cap MsgHdr.MAX_MSG_INLINE_CAP) MsgHdr.RECV_NAMELEN Hw) as (bytes & -> & Hw' & B0 & B56 & _).
  cbn [mbind outcome_bind]. exists bytes. done.
Qed.

Lemma build_writev_spec bufs :
  let n := Z.of_nat (length bufs) in
  if decide (16 * n + total (lens_of bufs) <= 4096) then
    exists bytes, build_writev region sm key bufs = Ret (Some (base, n), staged bytes) /\ whole bytes /\
      has bytes 0 (encode_iovs (iov_list base (16 * n) (lens_of bufs))) /\ has bytes (16 * n) (concat bufs)
  else build_writev region sm key bufs = Ret (None, sm).
Proof.
  intros n. destruct (slot_array_live s W key H0 L) as (old & E & Hw & Hh). pose proof (base_bounds) as HB. destruct R as [R1 R2]. unfold build_writev. rewrite Hsm, E. cbn [mbind outcome_bind].
  fold (lens_of bufs). fold n. pose proof (total_nonneg _ (lens_nonneg bufs)) as Ht. rewrite checked_sum_spec by (apply lens_nonneg || lia). rewrite max_payload_spec by lia.
  case_decide as Hd.
  - rewrite !decide_True by lia. destruct (Z.ltb_spec (4096 - 16 * n) (0 + total (lens_of bufs))); [lia|]. unfold Vectored.payload_ptr.
    assert (Hwl : Z.of_nat (length old) = 4096) by (sizes; done). sizes. destruct (Z.leb_spec (n * 16) (Z.of_nat (length old))); [|lia]. cbn [mbind outcome_bind].
    destruct (gather_spec bufs old (n * 16) 0) as (g & -> & Hg & Hgh & _); [done|lia..|]. cbn [mbind outcome_bind].
    pose proof (write_iovecs_spec (lens_of bufs) g (slot_addr region s key) (lens_nonneg bufs) Hg) as Hwi. cbn zeta in Hwi.
    assert (Hlen : Z.of_nat (length (lens_of bufs)) = n) by (unfold lens_of, n; by rewrite length_fmap). rewrite Hlen in Hwi.
    rewrite decide_True in Hwi by lia. destruct Hwi as (bytes & -> & Hw' & B0 & Bf); [unfold base in HB; lia..|]. cbn [mbind outcome_bind].
    exists bytes. unfold try_from. destruct (Z.ltb_spec n (2 ^ U32)); [|lia]. split; [done|]. do 2 (split; [done|]).
    apply Bf; [|lia]. by replace (16 * n) with (n * 16 + 0) by lia.
  - case_decide; [|done]. case_decide; [|done]. destruct (Z.ltb_spec (4096 - 16 * n) (0 + total (lens_of bufs))); [done|lia].
Qed.

Lemma build_readv_spec bufs :
  let n := Z.of_nat (length bufs) in
  if decide (16 * n <= 4096) then
    exists bytes, build_readv region sm key bufs = Ret (Some (base, n), staged bytes) /\ whole bytes /\
      has bytes 0 (encode_iovs (iov_list base (16 * n) (clamp_caps (4096 - 16 * n) (lens_of bufs))))
  else build_readv region sm key bufs = Ret (None, sm).
Proof.
  intros n. destruct (slot_array_live s W key H0 L) as (old & E & Hw & Hh). pose proof (base_bounds) as HB. destruct R as [R1 R2]. unfold build_readv. rewrite Hsm, E. cbn [mbind outcome_bind].
  fold (lens_of bufs). fold n. rewrite max_payload_spec by lia. case_decide as Hd; [|done].
  destruct (clamp_caps_spec (lens_of bufs) (4096 - 16 * n) (lens_nonneg bufs)) as (C1 & C2 & C3); [lia|].
  pose proof (write_iovecs_spec _ old (slot_addr region s key) C1 Hw) as Hwi. cbn zeta in Hwi.
  assert (Hlen : Z.of_nat (length (clamp_caps (4096 - 16 * n) (lens_of bufs))) = n) by (rewrite C2; unfold lens_of, n; by rewrite length_fmap). rewrite Hlen in Hwi.
  rewrite decide_True in Hwi by lia. destruct Hwi as (bytes & -> & Hw' & B0 & _); [unfold base in HB; lia..|]. cbn [mbind outcome_bind].
  exists bytes. unfold try_from. destruct (Z.ltb_spec n (2 ^ U32)); [|lia]. done.
Qed.

(** Each builder returns, and at most rewrites the slot's bytes. *)
Definition stages {A} (o : outcome (option A * seam)) : Prop :=
  exists r sm', o = Ret (r, sm') /\ (sm' = sm \/ exists bytes, whole bytes /\ sm' = staged bytes).

Lemma send_stages src addr : SockAddr.wf addr -> stages (build_send_msg region sm key src addr).
Proof.
  intros Ha. pose proof (build_send_msg_spec src addr Ha) as H. case_decide; [|do 2 eexists; split; [exact H|by left]].
  destruct H as (bytes & E & Hw & _). do 2 eexists. split; [exact E|]. right. by exists bytes.
Qed.
Lemma recv_stages cap : stages (build_recv_msg region sm key cap).
Proof. destruct (build_recv_msg_spec cap) as (bytes & E & Hw & _). do 2 eexists. split; [exact E|]. right. by exists bytes. Qed.
Lemma writev_stages bufs : stages (build_writev region sm key bufs).
Proof.
  pose proof (build_writev_spec bufs) as H. cbn zeta in H. case_decide; [|do 2 eexists; split; [exact H|by left]].
  destruct H as (bytes & E & Hw & _). do 2 eexists. split; [exact E|]. right. by exists bytes.
Qed.
Lemma readv_stages bufs : stages (build_readv region sm key bufs).
Proof.
  pose proof (build_readv_spec bufs) as H. cbn zeta in H. case_decide; [|do 2 eexists; split; [exact H|by left]].
  destruct H as (bytes & E & Hw & _). do 2 eexists. split; [exact E|]. right. by exists bytes.
Qed.

End builders.

(** ** The harvests return, whatever the handle *)

Lemma scatter_total bufs slot payload cursor remaining : whole slot -> 0 <= payload -> 0 <= cursor -> 0 <= remaining ->
  payload + cursor + remaining <= 4096 -> exists bufs', scatter slot payload cursor remaining bufs = Ret bufs'.
Proof.
  revert cursor remaining. induction bufs as [|b bufs IH]; intros cursor remaining Hw Hp Hc Hr Ht; cbn [scatter]; [by eexists|]. sizes.
  unfold raw_read. destruct (Z.leb_spec 0 (payload + cursor)); [|lia]. destruct (Z.leb_spec 0 (Z.min remaining (Z.of_nat (length b)))); [|lia].
  destruct (Z.leb_spec (payload + cursor + Z.min remaining (Z.of_nat (length b))) (Z.of_nat (length slot))); [|lia]. cbn [andb mbind outcome_bind].
  rewrite add_small by lia. cbn [mbind outcome_bind].
  destruct (IH (cursor + Z.min remaining (Z.of_nat (length b))) (remaining - Z.min remaining (Z.of_nat (length b)))) as [r ->]; [done|lia..|]. by eexists.
Qed.

Lemma read_sender_total slot : whole slot -> exists r, MsgHdr.read_sender slot = Ret r.
Proof.
  intros Hw. unfold MsgHdr.read_sender. destruct (slice_total slot MsgHdr.ADDR_OFFSET MsgHdr.PAYLOAD_OFFSET) as (bs & -> & Hl); [sizes; lia..|]. cbn [mbind outcome_bind].
  sizes. assert (Hs : forall a b, 0 <= a <= b -> b <= 128 -> exists x, slice bs a b = Ret x) by (intros a b ? ?; destruct (slice_total bs a b) as (x & ? & _); [lia..|by exists x]).
  unfold SockAddr.unpack, SockAddr.packed_family, SockAddr.unpack_v4, SockAddr.unpack_v6.
  destruct (Hs 0 2) as [b0 ->]; [lia..|]. destruct (Hs 2 4) as [b2 ->]; [lia..|]. destruct (Hs 4 8) as [b4 ->]; [lia..|]. destruct (Hs 8 24) as [b8 ->]; [lia..|]. destruct (Hs 24 28) as [b24 ->]; [lia..|].
  cbn [mbind outcome_bind]. destruct (SockAddr.is_inet _); [by eexists|]. destruct (SockAddr.is_inet6 _); by eexists.
Qed.

Section harvests.
Context (s : InflightBufSlab) (W : wf s) (key : InflightSlotKey) (H0 : 0 <= slot key).
Context (sm : seam) (Hsm : inflight_slab sm = Some s).

Lemma read_msg_sender_total : exists r, read_msg_sender sm key = Ret r.
Proof.
  unfold read_msg_sender. rewrite Hsm. destruct (live s key) eqn:L; [|rewrite slot_array_dead by done; by eexists].
  destruct (slot_array_live s W key H0 L) as (bytes & -> & Hw & _). cbn [mbind outcome_bind]. by apply read_sender_total.
Qed.

Lemma harvest_msg_total len dst : 0 <= len ->
  exists d s' dst', free s key = Ret (d, s') /\ harvest_msg_payload sm key len dst = Ret (dst', set_slab (Some s') sm).
Proof.
  intros Hl. destruct (free_spec s W key H0) as (d & s' & Ef & _). exists d, s'. unfold harvest_msg_payload. rewrite Hsm.
  destruct (live s key) eqn:L; [|rewrite slot_array_dead by done; cbn [mbind outcome_bind]; rewrite Ef; by eexists].
  destruct (slot_array_live s W key H0 L) as (bytes & -> & Hw & _). cbn [mbind outcome_bind]. sizes. unfold raw_read.
  destruct (Z.leb_spec 0 (56 + 16 + 128)); [|lia]. destruct (Z.leb_spec 0 (Z.min (Z.min len (4096 - (56 + 16 + 128))) (Z.of_nat (length dst)))); [|lia].
  destruct (Z.leb_spec (56 + 16 + 128 + Z.min (Z.min len (4096 - (56 + 16 + 128))) (Z.of_nat (length dst))) (Z.of_nat (length bytes))); [|lia].
  cbn [andb mbind outcome_bind]. rewrite Ef. by eexists.
Qed.

Lemma harvest_vectored_total len bufs : 0 <= len ->
  exists d s' bufs', free s key = Ret (d, s') /\ harvest_vectored sm key len bufs = Ret (bufs', set_slab (Some s') sm).
Proof.
  intros Hl. destruct (free_spec s W key H0) as (d & s' & Ef & _). exists d, s'. unfold harvest_vectored. rewrite Hsm.
  destruct (live s key) eqn:L; [|rewrite slot_array_dead by done; cbn [mbind outcome_bind]; rewrite Ef; by eexists].
  destruct (slot_array_live s W key H0 L) as (bytes & -> & Hw & _). cbn [mbind outcome_bind]. rewrite max_payload_spec by lia.
  case_decide as Hd; [|cbn [mbind outcome_bind]; rewrite Ef; by eexists]. unfold Vectored.payload_ptr. sizes.
  destruct (Z.leb_spec (Z.of_nat (length bufs) * 16) (Z.of_nat (length bytes))); [|lia]. cbn [mbind outcome_bind].
  destruct (scatter_total bufs bytes (Z.of_nat (length bufs) * 16) 0 (Z.min len (4096 - 16 * Z.of_nat (length bufs)))) as [r ->]; [done|lia..|].
  cbn [mbind outcome_bind]. rewrite Ef. by eexists.
Qed.

End harvests.

End MsgSpec.

(** ** Theorems *)

Module MsgThms.
Import IoTokens Inflight InflightSpec Octets RawMem KernelMem Seam MsgSeam MsgSpec.

Section thms.
Context (s : InflightBufSlab) (W : wf s) (key : InflightSlotKey) (H0 : 0 <= slot key) (L : live s key = true).
Context (region : Z) (R : region_ok region) (sm : seam) (Hsm : inflight_slab sm = Some s).

Notation off := (slot key * stride s).
Notation base := (base s key region).
Notation staged := (staged s key sm).

Lemma base_off : base = region + off.
Proof. done. Qed.

(** A piece of a staged slot, seen from the registry's memory. *)
Lemma staged_has bytes o bs : whole bytes -> has bytes o bs -> has (storage (put_slot s key bytes)) (off + o) bs.
Proof. intros Hw Hb. eapply has_trans; [by apply put_slot_has|done]. Qed.

(** The fields of a header, at their offsets. *)
Lemma header_fields bytes h : has bytes 0 (encode_hdr h) ->
  has bytes 0 (to_le 8 (msg_name h)) /\ has bytes 8 (to_le 4 (msg_namelen h)) /\ has bytes 16 (to_le 8 (msg_iov h)) /\ has bytes 24 (to_le 8 (msg_iovlen h)).
Proof.
  unfold encode_hdr. intros [A H]%has_app. rewrite length_to_le in H. apply has_app in H as [B H]. rewrite length_to_le in H.
  apply has_app in H as [_ H]. rewrite length_replicate in H. apply has_app in H as [C H]. rewrite length_to_le in H. apply has_app in H as [D _]. done.
Qed.

(** What the kernel loads from a header laid out for this slot. *)
Lemma header_loads mem n : fits 32 n -> (forall o bs, has (encode_hdr (header_at base n)) o bs -> has mem (off + o) bs) ->
  load region 8 mem base = Some (region + (off + 72)) /\ load region 4 mem (base + 8) = Some n /\
  load region 8 mem (base + 16) = Some (region + (off + 56)) /\ load region 8 mem (base + 24) = Some 1.
Proof.
  intros Hn Hm. destruct (base_bounds s W key H0 L region) as (B1 & B2 & _). destruct R as [R1 R2]. rewrite base_off in *.
  destruct (header_fields (encode_hdr (header_at (region + off) n)) (header_at (region + off) n) (has_all _)) as (F0 & F8 & F16 & F24).
  apply Hm in F0, F8, F16, F24. unfold header_at in F0, F8, F16, F24. cbn [msg_name msg_namelen msg_iov msg_iovlen] in *. rewrite wrap_small in F0, F16 by lia.
  rewrite Z.add_0_r in F0. split_and!.
  - rewrite (load_has region 8 _ _ _ F0) by (unfold fits; lia). f_equal. lia.
  - rewrite <- Z.add_assoc. by apply load_has.
  - rewrite <- Z.add_assoc. rewrite (load_has region 8 _ _ _ F16) by (unfold fits; lia). f_equal. lia.
  - rewrite <- Z.add_assoc. by apply load_has.
Qed.

(** The single entry of a message. *)
Lemma entry_list n : 0 <= n <= 3896 -> encode_iov (entry_at base n) = encode_iovs (iov_list base 200 [n]).
Proof.
  intros Hn. destruct (base_bounds s W key H0 L region) as (B1 & B2 & _). destruct R as [R1 R2]. unfold encode_iovs, entry_at. cbn [iov_list fmap list_fmap concat].
  rewrite app_nil_r. by rewrite wrap_small by lia.
Qed.

Lemma frame_outside bytes : whole bytes -> forall o bs, has (storage s) o bs ->
  o + Z.of_nat (length bs) <= off \/ off + stride s <= o -> has (storage (put_slot s key bytes)) o bs.
Proof. intros Hw o bs Hb Hd. apply put_slot_frame; [done..|]. lia. Qed.

(** Freeing the slot ends its handle. *)
Lemma free_dead s' : wf s' -> live s' key = true -> exists d s2, free s' key = Ret (d, s2) /\ live s2 key = false.
Proof.
  intros W' L'. destruct (free_spec s' W' key H0) as (d & s2 & Ef & Hf). rewrite L' in Hf. destruct Hf as [_ B]. exists d, s2. split; [done|].
  destruct (live_ranged s' W' key H0 L') as [Hr _]. unfold live. rewrite (be_at _ _ _ _ B) by done. cbn [e_occ]. rewrite decide_True by done. cbn [e_occ]. by rewrite andb_false_r.
Qed.

(** What the futures do with the slot they were granted: [sm0] is the seam before
    the slot was taken. *)
Definition granted (token : Z) (sm0 : seam) : Prop := exists ptr, allocate_slot sm0 token = Ret (Some (key, ptr), sm).
(** A driver is bound and takes the request. *)
Definition taken_by_driver : Prop := exists d t, drv sm = Some d /\ internal_reply d = Submitted t.

Lemma submit_built_taken token op p s' : taken_by_driver ->
  MsgFuture.submit_built token op key (Some (p, 0)) (set_slab (Some s') sm) = Ret (Some key, count (record (mkRequest token op p 0) (set_slab (Some s') sm))).
Proof.
  intros (d & t & Hd & Ht). unfold MsgFuture.submit_built, submit_internal. cbn [drv set_slab]. rewrite Hd. cbn [mbind outcome_bind]. by rewrite Ht.
Qed.

(** C21: a datagram is staged whole or refused: when its payload fits the slot,
    following the [msghdr] the builder returns, as sendmsg(2) does, yields
    exactly the packed destination and exactly the caller's bytes, no byte
    outside the slot changes, and the future that was granted the slot records
    one request, with that header; when it does not fit, nothing is written,
    and the future gives the slot back and submits nothing. *)
Theorem sendmsg_delivers src addr : SockAddr.wf addr ->
  if decide (Z.of_nat (length src) <= MsgHdr.MAX_MSG_INLINE_CAP) then
    exists header s', build_send_msg region sm key src addr = Ret (Some header, set_slab (Some s') sm) /\
      wf s' /\ live s' key = true /\ sendmsg_reads region (storage s') header = Some (SockAddr.image addr, src) /\
      (forall o bs, has (storage s) o bs -> o + Z.of_nat (length bs) <= off \/ off + stride s <= o -> has (storage s') o bs) /\
      (forall token sm0, granted token sm0 -> taken_by_driver ->
        MsgFuture.send_msg_submit region token addr src sm0 = Ret (Some key, count (record (mkRequest token OpSendmsg header 0) (set_slab (Some s') sm))))
  else build_send_msg region sm key src addr = Ret (None, sm) /\
    (forall token sm0, granted token sm0 -> exists d s', free s key = Ret (d, s') /\ live s' key = false /\
      MsgFuture.send_msg_submit region token addr src sm0 = Ret (None, set_slab (Some s') sm)).
Proof.
  intros Ha. pose proof (build_send_msg_spec s W key H0 L region sm Hsm src addr Ha) as HS. case_decide as Hd.
  2:{ split; [done|]. intros token sm0 [ptr Hg]. destruct (free_dead s W L) as (d & s' & Ef & Hf). exists d, s'. split; [done|]. split; [done|].
      unfold MsgFuture.send_msg_submit. rewrite Hg. cbn [mbind outcome_bind]. rewrite HS. cbn [mbind outcome_bind]. cbn [fmap option_fmap option_map].
      unfold MsgFuture.submit_built, free_slot. rewrite Hsm, Ef. done. }
  destruct HS as (bytes & E & Hw & B0 & B56 & B72 & B200). exists base, (put_slot s key bytes). split; [done|].
  pose proof (AddrThms.length_image addr Ha) as Hi. split; [by apply put_slot_wf|]. split; [done|]. split; [|split; [by apply frame_outside|]].
  2:{ intros token sm0 [ptr Hg] Ht. unfold MsgFuture.send_msg_submit. rewrite Hg. cbn [mbind outcome_bind]. rewrite E. by apply submit_built_taken. }
  unfold sendmsg_reads. destruct (header_loads (storage (put_slot s key bytes)) (Z.of_nat (length (SockAddr.image addr)))) as (-> & -> & -> & ->).
  { unfold fits. lia. }
  { intros o bs Hb. apply staged_has; [done|]. eapply (has_trans bytes 0); [exact B0|exact Hb]. }
  cbn [mbind option_bind]. rewrite (deref_has region _ (off + 72) (SockAddr.image addr)); [|by apply staged_has|done]. cbn [mbind option_bind]. 
  destruct (base_bounds s W key H0 L region) as (B1 & B2 & _). destruct R as [R1 R2]. sizes.
  rewrite entry_list in B56 by lia. change (Z.to_nat 1) with (length [Z.of_nat (length src)]).
  rewrite (gather_contig region base R1 (storage (put_slot s key bytes)) [Z.of_nat (length src)] 200 (off + 56) [src]); [cbn [mbind option_bind concat]; by rewrite app_nil_r|done|lia|lia| | |].
  - cbn [total foldr]. lia.
  - by apply staged_has.
  - cbn [concat]. rewrite app_nil_r, base_off. replace (region + off - region + 200) with (off + 200) by lia. by apply staged_has.
Qed.

(** The bytes of a slot that another memory of the same size holds. *)
Lemma slot_view mem : length mem = length (storage s) -> let s' := set_storage mem s in
  exists bytes, wf s' /\ live s' key = true /\ slot_array s' key = Ret (Some bytes) /\ whole bytes /\
    forall o bs, 0 <= o -> has mem (off + o) bs -> o + Z.of_nat (length bs) <= 4096 -> has bytes o bs.
Proof.
  intros Hl s'. assert (W' : wf s') by (destruct W as [[] We]; split; [split; try done; cbn; congruence|intros i Hi; apply (We i Hi)]).
  assert (L' : live s' key = true) by exact L. destruct (slot_array_live s' W' key H0 L') as (bytes & E & Hw & Hh). exists bytes. do 4 (split; [done|]).
  intros o bs Ho Hb Hle. eapply has_sub; [exact Hh|exact Hb|done|]. sizes. lia.
Qed.

(** The two ends of a receive, from what the slot holds. *)
Lemma complete_delivers s' view sender data dst d s2 smc : SockAddr.wf sender -> (length data <= length dst)%nat ->
  slot_array s' key = Ret (Some view) -> whole view -> free s' key = Ret (d, s2) ->
  has view 72 (SockAddr.image sender) -> has view 200 data -> Z.of_nat (length data) <= 3896 ->
  inflight_slab smc = Some s' /\ (exists ws, completion_result smc = Some ws /\ ws_result ws = Z.of_nat (length data)) ->
  MsgFuture.recv_msg_complete key dst smc =
    Ret (Some (Ok (Z.of_nat (length data)), match sender with SockAddr.Unix _ => None | _ => Some sender end),
         data ++ drop (length data) dst, set_slab (Some s2) smc).
Proof.
  intros Hs Hdst Ev Hwv Ef H72 H200 Hd (Hslab & ws & Hws & Hres). pose proof (AddrThms.length_image sender Hs) as Hi.
  unfold MsgFuture.recv_msg_complete. rewrite Hws, Hres. unfold BufFuture.bytes_from_cqe. destruct (Z.ltb_spec (Z.of_nat (length data)) 0); [lia|].
  unfold read_msg_sender. rewrite Hslab, Ev. cbn [mbind outcome_bind]. unfold MsgHdr.read_sender.
  destruct (slice_total view MsgHdr.ADDR_OFFSET MsgHdr.PAYLOAD_OFFSET) as (bs & Eb & Hlb); [sizes; lia|sizes; lia|]. rewrite Eb. cbn [mbind outcome_bind].
  apply has_slice in Eb as [Eb _]; [|sizes; lia].
  rewrite (AddrThms.unpack_image bs sender); [|done|]. 2:{ eapply has_sub; [exact Eb|exact H72|lia|sizes; lia]. }
  cbn [mbind outcome_bind]. unfold harvest_msg_payload. rewrite Hslab, Ev. cbn [mbind outcome_bind].
  replace (Z.min (Z.min (Z.of_nat (length data)) MsgHdr.MAX_MSG_INLINE_CAP) (Z.of_nat (length dst))) with (Z.of_nat (length data)) by (sizes; lia).
  rewrite (raw_read_has view MsgHdr.PAYLOAD_OFFSET data) by exact H200. cbn [mbind outcome_bind]. rewrite Ef. cbn [mbind outcome_bind]. by rewrite Nat2Z.id.
Qed.

Lemma complete_fails s' dst d s2 smc e : free s' key = Ret (d, s2) -> 0 < e ->
  inflight_slab smc = Some s' /\ (exists ws, completion_result smc = Some ws /\ ws_result ws = - e) ->
  MsgFuture.recv_msg_complete key dst smc = Ret (Some (Err e, None), dst, set_slab (Some s2) smc).
Proof.
  intros Ef He (Hslab & ws & Hws & Hres). unfold MsgFuture.recv_msg_complete. rewrite Hws, Hres. unfold BufFuture.bytes_from_cqe.
  destruct (Z.ltb_spec (- e) 0); [|lia]. unfold free_slot. rewrite Hslab, Ef. cbn [mbind outcome_bind]. by rewrite Z.opp_involutive.
Qed.

(** The slot's registry after the kernel wrote [mem]: what the completion half of
    a receive hands over. *)
Definition finished (mem : list Z) (s' : InflightBufSlab) (res : Z) (smc : seam) : Prop :=
  inflight_slab smc = Some (set_storage mem s') /\ exists ws, completion_result smc = Some ws /\ ws_result ws = res.

(** C22: a received datagram is handed over whole: the [msghdr] the builder
    returns, and the future that was granted the slot submits, offers the kernel
    the address region and the requested capacity (at most the slot's); whatever
    datagram and sender recvmsg(2) stores through it stays in the slot.  The
    completion half of the future then returns the byte count, the sender (none
    for a Unix-domain one) and the caller's buffer with exactly the datagram at
    its front, and frees the slot; on a failed completion it returns the error
    and the buffer as it was, and frees the slot. *)
Theorem recvmsg_delivers cap : 0 <= cap ->
  exists header s1, build_recv_msg region sm key cap = Ret (Some header, set_slab (Some s1) sm) /\ wf s1 /\ live s1 key = true /\
  (forall token sm0, granted token sm0 -> taken_by_driver ->
    MsgFuture.recv_msg_submit region token cap sm0 = Ret (Some key, count (record (mkRequest token OpRecvmsg header 0) (set_slab (Some s1) sm)))) /\
  forall sender data flags dst, SockAddr.wf sender -> Z.of_nat (length data) <= Z.min cap MsgHdr.MAX_MSG_INLINE_CAP -> (length data <= length dst)%nat ->
  exists mem, recvmsg_writes region (storage s1) header (SockAddr.image sender) data flags = Some mem /\
    (forall o bs, has (storage s1) o bs -> o + Z.of_nat (length bs) <= off \/ off + stride s <= o -> has mem o bs) /\
    exists d s2, free (set_storage mem s1) key = Ret (d, s2) /\ live s2 key = false /\
      (forall smc, finished mem s1 (Z.of_nat (length data)) smc ->
        MsgFuture.recv_msg_complete key dst smc =
          Ret (Some (Ok (Z.of_nat (length data)), match sender with SockAddr.Unix _ => None | _ => Some sender end),
               data ++ drop (length data) dst, set_slab (Some s2) smc)) /\
      (forall smc e, 0 < e -> finished mem s1 (- e) smc ->
        MsgFuture.recv_msg_complete key dst smc = Ret (Some (Err e, None), dst, set_slab (Some s2) smc)).
Proof.
  intros Hc. destruct (build_recv_msg_spec s W key H0 L region sm Hsm cap) as (bytes & E & Hw & B0 & B56).
  exists base, (put_slot s key bytes). split; [done|]. split; [by apply put_slot_wf|]. split; [done|]. split.
  { intros token sm0 [ptr Hg] Ht. unfold MsgFuture.recv_msg_submit. rewrite Hg. cbn [mbind outcome_bind]. rewrite E. by apply submit_built_taken. }
  intros sender data flags dst Hs Hd Hdst. set (s1 := put_slot s key bytes) in *.
  pose proof (AddrThms.length_image sender Hs) as Hi. destruct (base_bounds s W key H0 L region) as (Bb1 & Bb2 & Bb3). destruct R as [R1 R2].
  assert (Hst : stride s = 4096) by apply (wf_shape s W). assert (Hboff : base = region + off) by done.
  assert (Hl0 : length (storage s1) = length (storage s)) by (apply length_write_at; sizes; lia).
  set (n := Z.min cap MsgHdr.MAX_MSG_INLINE_CAP) in *. assert (Hn : 0 <= n <= 3896) by (sizes; lia).
  unfold recvmsg_writes. destruct (header_loads (storage s1) 128) as (-> & -> & -> & ->); [unfold fits; lia| |].
  { intros o bs Hb. apply staged_has; [done|]. eapply (has_trans bytes 0); [exact B0|exact Hb]. }
  cbn [mbind option_bind]. rewrite (take_ge (SockAddr.image sender)) by lia. rewrite store_ok by lia. cbn [mbind option_bind]. set (m1 := write_at (storage s1) _ _).
  assert (Hl1 : length m1 = length (storage s)) by (rewrite <- Hl0; apply length_write_at; lia).
  change (Z.to_nat 1) with (length [n]).
  destruct (scatter_contig region base R1 [n] 200 (off + 56) m1 data) as (m2 & -> & Hl2 & Hd2 & Hf2); [repeat constructor; lia|lia|lia|cbn [total foldr]; lia..| |cbn [length]; lia|cbn [total foldr]; lia|].
  { apply write_at_frame; [lia|lia| |rewrite length_encode_iovs; cbn [length]; lia]. apply staged_has; [done|]. by rewrite <- entry_list. }
  cbn [mbind option_bind]. rewrite Hboff. rewrite <- (Z.add_assoc region off 8), <- (Z.add_assoc region off 48).
  rewrite store_ok by (rewrite ?length_to_le; lia). cbn [mbind option_bind]. set (m3 := write_at m2 _ _).
  assert (Hl3 : length m3 = length (storage s)) by (rewrite <- Hl1, <- Hl2; apply length_write_at; rewrite ?length_to_le; lia).
  rewrite store_ok by (rewrite ?length_to_le; lia). set (m4 := write_at m3 _ _).
  assert (Hl4 : length m4 = length (storage s)) by (rewrite <- Hl3; apply length_write_at; rewrite ?length_to_le; lia).
  assert (Hkeep : forall o bs, has m2 o bs -> o + Z.of_nat (length bs) <= off + 8 \/ off + 52 <= o -> has m4 o bs).
  { intros o bs Hb Ho. apply write_at_frame; [lia|rewrite length_to_le; lia| |rewrite length_to_le; lia]. apply write_at_frame; [lia|rewrite length_to_le; lia|done|rewrite length_to_le; lia]. }
  exists m4. split; [done|]. cbn [total foldr] in Hf2. split.
  { intros o bs Hb Ho. apply Hkeep; [|lia]. apply Hf2; [|lia]. apply write_at_frame; [lia|lia|done|lia]. }
  destruct (slot_view m4 Hl4) as (view & W4 & L4 & Ev & Hwv & Hv). change (set_storage m4 s1) with (set_storage m4 s). destruct (free_dead _ W4 L4) as (d & s2 & Ef & Hdead). exists d, s2. split; [done|]. split; [done|].
  assert (Hin : forall o bs, 0 <= o -> has m2 (off + o) bs -> 52 <= o -> o + Z.of_nat (length bs) <= 4096 -> has view o bs).
  { intros o bs Ho Hb H52 Hle. apply Hv; [done| |done]. apply Hkeep; [done|lia]. }
  split; [|intros smc e He Hfin; by eapply complete_fails].
  intros smc Hfin. eapply complete_delivers; [done..| | | |exact Hfin].
  - apply Hin; [lia| |lia|lia]. apply Hf2; [|lia]. apply write_at_has; lia.
  - apply Hin; [lia| |lia|lia]. by replace (off + 200) with (base - region + 200) by lia.
  - sizes. lia.
Qed.

(** C23: a vectored write is staged whole or refused: when the [iovec] array and
    the bytes fit the slot, following the array as writev(2) does yields the
    buffers' bytes in order; otherwise nothing is written.  A vectored read
    offers each buffer's capacity up to what the slot has left; whatever
    readv(2) stores through the array stays in the slot, and the harvest lays
    those bytes over the buffers in order, keeps every buffer's length and the
    bytes past them, and frees the slot. *)
Theorem vectored_delivers bufs : let n := Z.of_nat (length bufs) in
  (if decide (16 * n + total (lens_of bufs) <= 4096) then
    exists array s', build_writev region sm key bufs = Ret (Some (array, n), set_slab (Some s') sm) /\
      wf s' /\ live s' key = true /\ gather_iov region (storage s') array (length bufs) = Some (concat bufs) /\
      (forall o bs, has (storage s) o bs -> o + Z.of_nat (length bs) <= off \/ off + stride s <= o -> has (storage s') o bs)
   else build_writev region sm key bufs = Ret (None, sm)) /\
  (if decide (16 * n <= 4096) then
    exists array s1, build_readv region sm key bufs = Ret (Some (array, n), set_slab (Some s1) sm) /\ wf s1 /\ live s1 key = true /\
    forall data, Z.of_nat (length data) <= Z.min (4096 - 16 * n) (total (lens_of bufs)) ->
    exists mem, scatter_iov region (storage s1) array (length bufs) data = Some mem /\
      (forall o bs, has (storage s1) o bs -> o + Z.of_nat (length bs) <= off \/ off + stride s <= o -> has mem o bs) /\
      exists d s2 bufs', free (set_storage mem s1) key = Ret (d, s2) /\
        harvest_vectored (set_slab (Some (set_storage mem s1)) sm) key (Z.of_nat (length data)) bufs = Ret (bufs', set_slab (Some s2) sm) /\
        length <$> bufs' = length <$> bufs /\ concat bufs' = data ++ drop (length data) (concat bufs)
   else build_readv region sm key bufs = Ret (None, sm)).
Proof.
  intros n. destruct (base_bounds s W key H0 L region) as (Bb1 & Bb2 & Bb3). destruct (id R) as [R1 R2].
  assert (Hst : stride s = 4096) by apply (wf_shape s W). assert (Hboff : base = region + off) by done.
  assert (Hlens : length (lens_of bufs) = length bufs) by apply length_fmap. pose proof (total_nonneg _ (lens_nonneg bufs)) as Hnn. split.
  - pose proof (build_writev_spec s W key H0 L region R sm Hsm bufs) as HS. cbn zeta in HS. fold n in HS. case_decide as Hd; [|done].
    destruct HS as (bytes & E & Hw & B0 & Bp). exists base, (put_slot s key bytes). split; [done|]. split; [by apply put_slot_wf|]. split; [done|]. split; [|by apply frame_outside].
    rewrite <- Hlens. pose proof (gather_contig region base R1 (storage (put_slot s key bytes)) (lens_of bufs) (16 * n) off bufs) as HG.
    apply HG; [done|lia|lia|lia| |]; [rewrite <- (Z.add_0_r off); by apply staged_has|]. replace (base - region) with off by lia. by apply staged_has.
  - pose proof (build_readv_spec s W key H0 L region R sm Hsm bufs) as HS. cbn zeta in HS. fold n in HS. case_decide as Hd; [|done].
    destruct HS as (bytes & E & Hw & B0). exists base, (put_slot s key bytes). split; [done|]. split; [by apply put_slot_wf|]. split; [done|].
    intros data Hdata. set (s1 := put_slot s key bytes) in *. destruct (clamp_caps_spec (lens_of bufs) (4096 - 16 * n) (lens_nonneg bufs)) as (C1 & C2 & C3); [lia|].
    assert (Hl0 : length (storage s1) = length (storage s)) by (apply length_write_at; sizes; lia).
    rewrite <- Hlens, <- C2. rewrite Hboff. rewrite <- (Z.add_0_r off), Z.add_assoc.
    destruct (scatter_contig region base R1 (clamp_caps (4096 - 16 * n) (lens_of bufs)) (16 * n) (off + 0) (storage s1) data) as (mem & Es & Hlm & Hdm & Hfm);
      [done|lia|lia|lia|lia|by apply staged_has|lia|lia|]. rewrite Z.add_assoc in Es. exists mem. split; [exact Es|]. rewrite Z.add_0_r. split.
    { intros o bs Hb Ho. apply Hfm; [done|]. lia. }
    destruct (slot_view mem) as (view & W4 & L4 & Ev & Hwv & Hv); [by rewrite Hlm|]. change (set_storage mem s1) with (set_storage mem s).
    destruct (free_spec _ W4 key H0) as (d & s2 & Ef & _).
    destruct (scatter_spec bufs view (n * 16) 0 data) as (bufs' & Eb & Hlb & Hcat); [|lia|lia|done|lia|].
    { apply Hv; [lia| |sizes; lia]. by replace (off + (n * 16 + 0)) with (base - region + 16 * n) by lia. }
    exists d, s2, bufs'. split; [done|]. split; [|done]. unfold harvest_vectored. cbn [inflight_slab set_slab]. rewrite Ev. cbn [mbind outcome_bind]. fold n.
    rewrite max_payload_spec, decide_True by lia. unfold Vectored.payload_ptr. sizes. destruct (Z.leb_spec (n * 16) (Z.of_nat (length view))); [|lia].
    cbn [mbind outcome_bind]. replace (Z.min (Z.of_nat (length data)) (4096 - 16 * n)) with (Z.of_nat (length data)) by lia. rewrite Eb. cbn [mbind outcome_bind]. by rewrite Ef.
Qed.

End thms.

(** A registry of one slot with that slot taken. *)
Definition one_slot : InflightBufSlab := match new true 3 1 with Some s => s | None => set_storage [] (mkSlab [] [] [] [] [] [] [] [] 0 0 0) end.
Definition taken_key : InflightSlotKey := mkKey 0 0 3 7.
Definition taken_slab : InflightBufSlab := match allocate one_slot 7 with Ret (_, s) => s | _ => one_slot end.
Definition taking : driver := mkDriver (Resolved (Submitted 7)) (Submitted 7) false.
Definition seam_of (s : InflightBufSlab) : seam := mkSeam (Some taking) (Some s) None 0 [].
(** The seam at the poll after a completion with result [r]. *)
Definition done_seam (s : InflightBufSlab) (r : Z) : seam := mkSeam (Some taking) (Some s) (Some (mkWs r 0 None)) 0 [].
Definition peer : SockAddr.SockAddr := SockAddr.V4 (SockAddr.mkV4 [198; 51; 100; 9] 7777).

Lemma taken_ready : wf taken_slab /\ live taken_slab taken_key = true.
Proof.
  assert (En : new true 3 1 = Some one_slot) by reflexivity. destruct (slots_new_spec true 3 1 one_slot ltac:(lia) En) as (W & Ho & Hc & Ha).
  destruct (allocate_spec one_slot W 7) as (r & s' & E & H). assert (Es : taken_slab = s') by (unfold taken_slab; by rewrite E). rewrite Es.
  destruct r as [key|]; [|destruct H as [_ H]; specialize (H 0); rewrite Ha in H by (unfold ranged; lia); rewrite Hc in H; change (Z.min 1 DEFAULT_INFLIGHT_CAP) with 1 in H; discriminate (H ltac:(lia))].
  destruct H as (Hr & Hlt & _ & _ & Hk & B). assert (Hs0 : slot key = 0) by (rewrite Hc in Hlt; unfold ranged in Hr; change (Z.min 1 DEFAULT_INFLIGHT_CAP) with 1 in Hlt; lia).
  rewrite Hs0, Ha in B by (unfold ranged; lia). cbn [e_gen] in B. split.
  - eapply becomes_wf; [exact W|exact B|]. split; [intros _; rewrite Hc; done|]. split; [unfold fits; cbn; lia|done].
  - unfold live, taken_key. cbn [worker_id slot generation]. rewrite (be_owner _ _ _ _ B), (be_cap _ _ _ _ B), Ho, Hc, (be_at _ _ _ _ B) by (unfold ranged; lia). done.
Qed.

Lemma peer_wf : SockAddr.wf peer.
Proof. split; [|unfold fits; cbn; lia]. by apply (bool_decide_unpack (octets 4 [198; 51; 100; 9])). Qed.

Lemma map_ok : region_ok 65536.
Proof. unfold region_ok. lia. Qed.

Lemma one_granted : granted taken_key (seam_of taken_slab) 7 (seam_of one_slot).
Proof. eexists. vm_compute. reflexivity. Qed.
Lemma one_taken : taken_by_driver (seam_of taken_slab).
Proof. by exists taking, 7. Qed.

Lemma sendmsg_delivers_witness :
  (exists header s', MsgFuture.send_msg_submit 65536 7 peer [1; 2; 3] (seam_of one_slot)
      = Ret (Some taken_key, count (record (mkRequest 7 OpSendmsg header 0) (seam_of s'))) /\
    sendmsg_reads 65536 (storage s') header = Some (SockAddr.image peer, [1; 2; 3])) /\
  (exists s', MsgFuture.send_msg_submit 65536 7 peer (replicate 3897 0) (seam_of one_slot) = Ret (None, seam_of s') /\ live s' taken_key = false).
Proof.
  destruct taken_ready as [W L].
  pose proof (sendmsg_delivers taken_slab W taken_key ltac:(done) L 65536 map_ok (seam_of taken_slab) eq_refl) as D. split.
  - pose proof (D [1; 2; 3] peer peer_wf) as H. rewrite decide_True in H by done. destruct H as (header & s' & _ & _ & _ & G & _ & F).
    exists header, s'. split; [exact (F 7 (seam_of one_slot) one_granted one_taken)|exact G].
  - pose proof (D (replicate 3897 0) peer peer_wf) as H. rewrite decide_False in H by (rewrite length_replicate; vm_compute; congruence).
    destruct H as [_ H]. destruct (H 7 (seam_of one_slot) one_granted) as (d & s' & _ & Hl & E). exists s'. split; [exact E|exact Hl].
Defined.

Lemma recvmsg_delivers_witness : exists header s1 mem s2,
  MsgFuture.recv_msg_submit 65536 7 8 (seam_of one_slot) = Ret (Some taken_key, count (record (mkRequest 7 OpRecvmsg header 0) (seam_of s1))) /\
  recvmsg_writes 65536 (storage s1) header (SockAddr.image peer) [4; 5] 0 = Some mem /\
  MsgFuture.recv_msg_complete taken_key [0; 0; 0; 9] (done_seam (set_storage mem s1) 2) = Ret (Some (Ok 2, Some peer), [4; 5; 0; 9], done_seam s2 2) /\
  MsgFuture.recv_msg_complete taken_key [0; 0; 0; 9] (done_seam (set_storage mem s1) (-11)) = Ret (Some (Err 11, None), [0; 0; 0; 9], done_seam s2 (-11)) /\
  live s2 taken_key = false.
Proof.
  destruct taken_ready as [W L].
  destruct (recvmsg_delivers taken_slab W taken_key ltac:(done) L 65536 map_ok (seam_of taken_slab) eq_refl 8 ltac:(lia)) as (header & s1 & _ & _ & _ & F & H).
  destruct (H peer [4; 5] 0 [0; 0; 0; 9] peer_wf) as (mem & Em & _ & d & s2 & _ & Hl & Hok & Herr); [vm_compute; discriminate|cbn; lia|].
  exists header, s1, mem, s2. split; [exact (F 7 (seam_of one_slot) one_granted one_taken)|]. split; [exact Em|]. split.
  - apply (Hok (done_seam (set_storage mem s1) 2)). split; [done|]. by exists (mkWs 2 0 None).
  - split; [|exact Hl]. apply (Herr (done_seam (set_storage mem s1) (-11)) 11); [lia|]. split; [done|]. by exists (mkWs (-11) 0 None).
Defined.

Lemma vectored_delivers_witness : exists array s', build_writev 65536 (seam_of taken_slab) taken_key [[1; 2]; []; [3]] = Ret (Some (array, 3), seam_of s') /\
  gather_iov 65536 (storage s') array 3 = Some [1; 2; 3].
Proof.
  destruct taken_ready as [W L].
  destruct (vectored_delivers taken_slab W taken_key ltac:(done) L 65536 map_ok (seam_of taken_slab) eq_refl [[1; 2]; []; [3]]) as [H _].
  rewrite decide_True in H by (cbn; lia). destruct H as (array & s' & E & _ & _ & G & _). exists array, s'. split; [exact E|exact G].
Defined.

End MsgThms.
