(* ===== verification/InflightProto.v ===== *)
(** * The in-flight protocol

    The worker, its buffered futures and the kernel as one transition system.
    The worker side is the code: the polls and drops of the futures
    (modules [BufFuture] and [MsgFuture]; a datagram or vectored future also
    names the address the worker's registry is mapped at), [drain_cancels] (src/crates/kwokka-runtime/src/runtime/drive/turn.rs)
    and the buffered arms of [drain_completions]
    (src/crates/kwokka-runtime/src/runtime/drive/completion.rs).  The kernel
    side is the behaviour the source cites of io_uring: an operation posts one
    completion, or a zero-copy send a first one flagged [MORE] and then a
    notification; completions are read in the order they were posted; a cancel
    answers [-ENOENT] only when its target has already posted.

    A poll window is one [poll_one]: it captures the completion recorded in the
    polling task's header, which no code clears, and closes when the poll
    returns; the drains run between windows. *)

From S2P Require Import Prelude Words Bitmap IoTokens InflightSlab InflightSpec SockAddr Seam MsgSlot MsgThms.
From stdpp Require Import base tactics option list numbers gmap.

Local Open Scope Z_scope.

Module InflightProto.
Import IoTokens Inflight Seam BufFuture MsgFuture SeamDrain.

(** An operation the kernel holds: its [user_data], the slot it was handed and
    the slot's generation then, whether it is a zero-copy send, and whether it
    has posted its first completion and only owes the notification. *)
Inductive phase : Type := Running | Notifying.
Record kop : Type := mkOp { k_tok : Z; k_slot : Z; k_gen : Z; k_zc : bool; k_phase : phase }.

Inductive future : Type :=
| FRecv (op : OpCode) (f : RecvFuture)
| FSend (op : OpCode) (f : SendFuture)
| FZc (f : SendZcFuture)
| FSendMsg (region : Z) (f : SendMsgFuture)
| FRecvMsg (region : Z) (f : RecvMsgFuture)
| FWritev (region : Z) (f : VectoredFuture)
| FReadv (region : Z) (f : VectoredFuture).

Definition fkey (f : future) : option InflightSlotKey :=
  match f with
  | FRecv _ f => r_key f | FSend _ f => s_key f | FZc f => z_key f
  | FSendMsg _ f => sm_key f | FRecvMsg _ f => rm_key f | FWritev _ f | FReadv _ f => v_key f
  end.
Definition fsub (f : future) : bool :=
  match f with
  | FRecv _ f => r_submitted f | FSend _ f => s_submitted f | FZc f => z_submitted f
  | FSendMsg _ f => sm_submitted f | FRecvMsg _ f => rm_submitted f | FWritev _ f | FReadv _ f => v_submitted f
  end.

(** A future as the program creates it. *)
Definition fresh_future (f : future) : Prop :=
  match f with
  | FRecv op f => (op = OpRecv \/ op = OpRead) /\ exists buf, f = recv_new buf
  | FSend op f => (op = OpSend \/ op = OpWrite) /\ exists buf, f = send_new buf
  | FZc f => exists buf, f = zc_new buf
  | FSendMsg region f => MsgSpec.region_ok region /\ exists addr buf, SockAddr.wf addr /\ f = send_msg_new addr buf
  | FRecvMsg region f => MsgSpec.region_ok region /\ exists buf, f = recv_msg_new buf
  | FWritev region f | FReadv region f => MsgSpec.region_ok region /\ exists bufs, f = vec_new bufs
  end.

(** One poll: whether it resolved, the future and the seam after it. *)
Definition poll_future (token : Z) (f : future) (sm : seam) : outcome (bool * future * option seam) :=
  match f with
  | FRecv op f =>
      '(p, f, sm) ← recv_poll_with op token f (Some sm);
      Ret (match p with Ready _ => true | Pending => false end, FRecv op f, sm)
  | FSend op f =>
      '(p, f, sm) ← send_poll_with op token f (Some sm);
      Ret (match p with Ready _ => true | Pending => false end, FSend op f, sm)
  | FZc f =>
      '(_, p, f, sm) ← zc_poll token f (Some sm);
      Ret (match p with Ready _ => true | Pending => false end, FZc f, sm)
  | FSendMsg region f =>
      '(p, f, sm) ← send_msg_poll region token f (Some sm);
      Ret (match p with Ready _ => true | Pending => false end, FSendMsg region f, sm)
  | FRecvMsg region f =>
      '(p, f, sm) ← recv_msg_poll region token f (Some sm);
      Ret (match p with Ready _ => true | Pending => false end, FRecvMsg region f, sm)
  | FWritev region f =>
      '(p, f, sm) ← writev_poll region token f (Some sm);
      Ret (match p with Ready _ => true | Pending => false end, FWritev region f, sm)
  | FReadv region f =>
      '(p, f, sm) ← readv_poll region token f (Some sm);
      Ret (match p with Ready _ => true | Pending => false end, FReadv region f, sm)
  end.

(** A future of the task [c_tok]; [c_old] once the window that submitted it has
    closed. *)
Record client : Type := mkClient { c_tok : Z; c_fut : future; c_old : bool }.

Record sys : Type := mkSys {
  slab : InflightBufSlab;
  inbox : list InflightSlotKey;
  ops : list kop;
  cancels : list (Z * Z);
  cq : list Completion;
  clients : list client;
  wake : gmap Z WakeSlot;
  window : option (Z * option WakeSlot);
}.

Definition start (s : InflightBufSlab) : sys := mkSys s [] [] [] [] [] ∅ None.

(** The cancel inbox holds [CANCEL_INBOX_CAPACITY] records. *)
Definition CANCEL_INBOX_CAPACITY : nat := 264.

Definition push_cancel (q : list InflightSlotKey) (key : InflightSlotKey) : list InflightSlotKey :=
  if decide (CANCEL_INBOX_CAPACITY <= length q)%nat then q else q ++ [key].

(** [drop] of a future: a held key queues a cancel. *)
Definition drop_future (q : list InflightSlotKey) (f : future) : list InflightSlotKey :=
  match fkey f with Some key => push_cancel q key | None => q end.

(** The buffered arms of [drain_completions]: the registry after one
    completion, and what it stores in the header of the task it names. *)
Definition drain_one (s : InflightBufSlab) (c : Completion) : outcome (InflightBufSlab * option (Z * WakeSlot)) :=
  let user_data := token c in
  match route_of c with
  | RNotif => s ← reclaim_notif s user_data; Ret (s, None)
  | RCancel => s ← reclaim_cancel_completion s user_data (result c); Ret (s, None)
  | RTask =>
      s ← (if has_more c then mark_notif_expected s user_data else reclaim_dropped_slot s user_data);
      Ret (s, Some (user_data, mkWs (result c) (flags c) (buf_id c)))
  | _ => Ret (s, None)
  end.

(** ** Disciplines

    [fresh_tokens]: a task submits a buffered operation only while no slot
    still carries its token (at most one outstanding completion per task).
    [woken_polls]: a task that already has a recorded completion is polled only
    when its outstanding operation has posted and the drain has recorded it.
    [lossless]: the driver accepts every cancel. *)
Record discipline : Type := mkD { fresh_tokens : bool; woken_polls : bool; lossless : bool }.

Definition token_free (s : InflightBufSlab) (t : Z) : Prop := occupied_by_token s t = Ret None.

(** A completion that ends or announces the operation of [t]. *)
Definition primary_of (t : Z) (c : Completion) : bool := (token c =? t) && negb (is_notif c).

Definition settled (y : sys) (t : Z) : Prop :=
  wake y !! t = None \/
  (Forall (fun o => k_tok o = t -> k_phase o = Notifying) (ops y) /\ Forall (fun c => primary_of t c = false) (cq y)).

(** The [user_data] of a task: every sentinel is elsewhere. *)
Definition task_token (t : Z) : Prop := fits 64 t /\ corner t < 0xFFFFFFFB.

(** The sentinels of the cancels not yet drained. *)
Definition outstanding (y : sys) (sentinel : Z) : Prop :=
  (exists t, (t, sentinel) ∈ cancels y) \/ exists c, c ∈ cq y /\ token c = sentinel.

(** What a first poll hands the kernel: the request recorded by the seam, at the
    slot the future now holds. *)
Definition new_op (f : future) (rq : request) : option kop :=
  key ← fkey f;
  Some (mkOp (rq_token rq) (slot key) (generation key) (match rq_opcode rq with OpSendZc => true | _ => false end) Running).

Section steps.
Context (D : discipline).

Inductive step : sys -> sys -> Prop :=
| step_open y t :
    window y = None -> task_token t ->
    (woken_polls D = true -> settled y t) ->
    step y (mkSys (slab y) (inbox y) (ops y) (cancels y) (cq y) (clients y) (wake y) (Some (t, wake y !! t)))
| step_close y t w :
    window y = Some (t, w) ->
    step y (mkSys (slab y) (inbox y) (ops y) (cancels y) (cq y)
              ((fun c => mkClient (c_tok c) (c_fut c) true) <$> clients y) (wake y) None)
| step_new y t w f :
    window y = Some (t, w) -> fresh_future f ->
    step y (mkSys (slab y) (inbox y) (ops y) (cancels y) (cq y) (clients y ++ [mkClient t f false]) (wake y) (window y))
| step_submit y t w cs1 f b cs2 d r f' sm' :
    window y = Some (t, w) -> clients y = cs1 ++ mkClient t f b :: cs2 -> fsub f = false ->
    (fresh_tokens D = true -> token_free (slab y) t) ->
    poll_future t f (mkSeam (Some d) (Some (slab y)) w 0 []) = Ret (r, f', Some sm') ->
    (forall key, fkey f' = Some key -> ~ outstanding y (encode_cancel_sentinel key)) ->
    (exists x, reply d = Resolved x) ->
    step y (mkSys (default (slab y) (inflight_slab sm')) (inbox y) (ops y ++ omap (new_op f') (requests sm'))
              (cancels y) (cq y) (if r : bool then cs1 ++ cs2 else cs1 ++ mkClient t f' false :: cs2) (wake y) (window y))
| step_poll y t w cs1 f cs2 d r f' sm' :
    window y = Some (t, w) -> clients y = cs1 ++ mkClient t f true :: cs2 -> fsub f = true ->
    poll_future t f (mkSeam (Some d) (Some (slab y)) w 0 []) = Ret (r, f', Some sm') ->
    step y (mkSys (default (slab y) (inflight_slab sm')) (inbox y) (ops y) (cancels y) (cq y)
              (if r : bool then cs1 ++ cs2 else cs1 ++ mkClient t f' true :: cs2) (wake y) (window y))
| step_drop y cs1 c cs2 :
    clients y = cs1 ++ c :: cs2 ->
    step y (mkSys (slab y) (drop_future (inbox y) (c_fut c)) (ops y) (cancels y) (cq y) (cs1 ++ cs2) (wake y) (window y))
| step_cancel y key q accepted s' x :
    window y = None -> inbox y = key :: q -> (lossless D = true -> accepted = true) ->
    submit_cancel accepted (slab y) key = Ret (s', x) ->
    step y (mkSys s' q (ops y) (cancels y ++ option_list x) (cq y) (clients y) (wake y) (window y))
| step_post y os1 o os2 r fl :
    ops y = os1 ++ o :: os2 -> k_phase o = Running -> contains fl MORE = false -> contains fl NOTIF = false ->
    step y (mkSys (slab y) (inbox y) (os1 ++ os2) (cancels y) (cq y ++ [mkCqe (k_tok o) r fl None]) (clients y) (wake y) (window y))
| step_post_more y os1 o os2 r fl :
    ops y = os1 ++ o :: os2 -> k_phase o = Running -> k_zc o = true -> contains fl MORE = true -> contains fl NOTIF = false ->
    step y (mkSys (slab y) (inbox y) (os1 ++ mkOp (k_tok o) (k_slot o) (k_gen o) true Notifying :: os2) (cancels y)
              (cq y ++ [mkCqe (k_tok o) r fl None]) (clients y) (wake y) (window y))
| step_notify y os1 o os2 r fl :
    ops y = os1 ++ o :: os2 -> k_phase o = Notifying -> contains fl NOTIF = true ->
    step y (mkSys (slab y) (inbox y) (os1 ++ os2) (cancels y) (cq y ++ [mkCqe (k_tok o) r fl None]) (clients y) (wake y) (window y))
| step_cancelled y xs1 t sentinel xs2 r :
    cancels y = xs1 ++ (t, sentinel) :: xs2 ->
    (r = CANCEL_TARGET_GONE <-> Forall (fun o => k_tok o = t -> k_phase o = Notifying) (ops y)) ->
    step y (mkSys (slab y) (inbox y) (ops y) (xs1 ++ xs2) (cq y ++ [mkCqe sentinel r 0 None]) (clients y) (wake y) (window y))
| step_drain y c q s' stored :
    window y = None -> cq y = c :: q -> drain_one (slab y) c = Ret (s', stored) ->
    step y (mkSys s' (inbox y) (ops y) (cancels y) q (clients y)
              (match stored with Some (t, ws) => <[t := ws]> (wake y) | None => wake y end) (window y)).

End steps.

Inductive reach (D : discipline) (s : InflightBufSlab) : sys -> Prop :=
| reach_start : reach D s (start s)
| reach_step y y' : reach D s y -> step D y y' -> reach D s y'.

End InflightProto.
