(* ===== verification/SeamSpec.v ===== *)
(** * What a poll does to the registry

    The polls of the buffered futures, described by what they do to the
    in-flight registry: a first poll either leaves every occupied slot as it was
    or takes one free slot and hands it to the kernel; a later poll either
    waits or frees the future's own slot.  None of them panics. *)

From S2P Require Import Prelude Words Bitmap IoTokens InflightSlab InflightSpec SockAddr Seam MsgSlot MsgThms InflightProto.
From stdpp Require Import base tactics option list numbers.

Local Open Scope Z_scope.

Module SeamSpec.
Import IoTokens Inflight InflightSpec Seam BufFuture MsgSeam MsgFuture MsgSpec InflightProto.

(** Every occupied slot is as it was and no other one is occupied. *)
Record quiet (s s' : InflightBufSlab) : Prop := {
  qu_wf : wf s';
  qu_owner : owner s' = owner s;
  qu_cap : cap s' = cap s;
  qu_occ j : ranged j -> e_occ (at_ s' j) = e_occ (at_ s j);
  qu_at j : ranged j -> e_occ (at_ s j) = true -> at_ s' j = at_ s j;
}.

(** [key] is a fresh slot of [s'] for [token]; the others are as they were. *)
Record taken (s s' : InflightBufSlab) (token : Z) (key : InflightSlotKey) : Prop := {
  ta_wf : wf s';
  ta_owner : owner s' = owner s;
  ta_cap : cap s' = cap s;
  ta_ranged : ranged (slot key);
  ta_below : slot key < cap s;
  ta_free : e_occ (at_ s (slot key)) = false;
  ta_key : key = mkKey (slot key) (e_gen (at_ s (slot key))) (owner s) token;
  ta_at j : ranged j ->
    at_ s' j = if decide (j = slot key) then mkEntry true false false false (generation key) token None else at_ s j;
}.

Lemma quiet_refl s : wf s -> quiet s s.
Proof. by split. Qed.

(** ** Writing bytes changes no entry *)

Lemma write_at_length l o src : 0 <= o -> o + Z.of_nat (length src) <= Z.of_nat (length l) ->
  length (write_at l o src) = length l.
Proof. intros H0 H1. unfold write_at. rewrite !length_app, length_take, length_drop. lia. Qed.

Lemma set_storage_wf s b : wf s -> length b = length (storage s) -> wf (set_storage b s).
Proof. intros [[] We] Hl. split; [split; try done; cbn; by rewrite Hl|]. intros i Hi. apply (We i Hi). Qed.

Section seam.
Context (s : InflightBufSlab) (W : wf s).

Lemma allocated_live s' token key : taken s s' token key -> live s' key = true.
Proof.
  intros T. unfold live. rewrite (ta_key _ _ _ _ T) at 1. cbn [worker_id]. rewrite (ta_owner _ _ _ _ T), Z.eqb_refl.
  rewrite (ta_cap _ _ _ _ T). destruct (Z.ltb_spec (slot key) (cap s)); [|pose proof (ta_below _ _ _ _ T); lia].
  rewrite (ta_at _ _ _ _ T) by apply T. rewrite decide_True by done. cbn. apply Z.eqb_refl.
Qed.

Lemma allocate_slot_spec sm token : inflight_slab sm = Some s -> 
  exists r sm', allocate_slot sm token = Ret (r, sm') /\
  match r with
  | None => sm' = sm
  | Some (key, ptr) => exists s', sm' = set_slab (Some s') sm /\ taken s s' token key /\ ptr = slot key * stride s'
  end.
Proof.
  intros Hs. unfold allocate_slot. rewrite Hs. destruct (allocate_spec s W token) as (r & s' & -> & H). cbn [mbind outcome_bind].
  destruct r as [key|].
  - destruct H as (Hr & Hc & Hf & _ & Hk & B).
    assert (taken s s' token key) as T.
    { assert (entry_ok (cap s) (slot key) (mkEntry true false false false (e_gen (at_ s (slot key))) token None)) as Hok.
      { split; [done|]. split; [apply (wf_entry s W _ Hr)|done]. }
      split; [by eapply becomes_wf|apply B|apply B|done|done|done|done|].
      intros j Hj. rewrite (be_at _ _ _ _ B) by done. case_decide; [|done]. do 2 f_equal. by rewrite Hk. }
    unfold slot_ptr. rewrite is_live_spec by (apply T || (destruct Hr; lia)).
    rewrite (allocated_live s' token key T). cbn. do 2 eexists. split; [done|]. exists s'. done.
  - destruct H as [-> _]. do 2 eexists. split; [done|]. destruct sm; cbn in *. by subst.
Qed.

(** Giving a freshly taken slot back. *)
Lemma give_back s1 token key s2 : taken s s1 token key ->
  wf s2 -> owner s2 = owner s1 -> cap s2 = cap s1 -> (forall j, ranged j -> at_ s2 j = at_ s1 j) ->
  exists s3, free s2 key = Ret (None, s3) /\ quiet s s3.
Proof.
  intros T W2 Ho Hc Ha. assert (0 <= slot key) as H0 by (destruct (ta_ranged _ _ _ _ T); lia).
  destruct (free_spec s2 W2 key H0) as (d & s3 & E & H).
  assert (live s2 key = true) as Hl.
  { pose proof (allocated_live s1 token key T) as Hl. unfold live in *. rewrite Ho, Hc, Ha by apply T. done. }
  rewrite Hl in H. destruct H as [-> B]. exists s3. rewrite E, Ha, (ta_at _ _ _ _ T), decide_True by (done || apply T). split; [done|].
  split.
  - eapply becomes_wf; [exact W2|exact B|]. split; [done|]. split; [|done]. cbn. unfold wrap, fits. apply Z.mod_pos_bound. lia.
  - rewrite (be_owner _ _ _ _ B), Ho. apply T.
  - rewrite (be_cap _ _ _ _ B), Hc. apply T.
  - intros j Hj. rewrite (be_at _ _ _ _ B) by done. case_decide as Hd; [subst j; cbn; symmetry; apply T|].
    rewrite Ha, (ta_at _ _ _ _ T), decide_False by done. done.
  - intros j Hj Hoc. rewrite (be_at _ _ _ _ B) by done. case_decide as Hd.
    { subst j. rewrite (ta_free _ _ _ _ T) in Hoc. done. }
    rewrite Ha, (ta_at _ _ _ _ T), decide_False by done. done.
Qed.

End seam.

(** The seam a poll starts from. *)
Definition polling (d : driver) (s : InflightBufSlab) (w : option WakeSlot) : seam := mkSeam (Some d) (Some s) w 0 [].

(** How the first poll of a future leaves the registry and the kernel. *)
Definition submit_effect (s : InflightBufSlab) (token : Z) (f : future) (r : bool) (f' : future) (sm' : seam) : Prop :=
  exists s', inflight_slab sm' = Some s' /\
  ((quiet s s' /\ requests sm' = [] /\ fkey f' = None /\ (r = false -> fsub f' = false)) \/
   (exists key rq, taken s s' token key /\ r = false /\ fkey f' = Some key /\ fsub f' = true /\ requests sm' = [rq] /\
      rq_token rq = token /\ ((forall z, f' <> FZc z) -> rq_opcode rq <> OpSendZc))).

(** How a later poll leaves the registry: it waits, or frees its own slot. *)
Definition poll_effect (s : InflightBufSlab) (key : InflightSlotKey) (w : option WakeSlot) (f : future) (r : bool) (f' : future) (sm' : seam) : Prop :=
  (inflight_slab sm' = Some s /\ r = false /\ fkey f' = Some key /\ fsub f' = true /\ ((exists z, f' = FZc z) <-> (exists z, f = FZc z))) \/
  (exists d s', free s key = Ret (d, s') /\ inflight_slab sm' = Some s' /\ fkey f' = None /\ (r = false -> fsub f' = false) /\
     ((exists ws, w = Some ws /\ (contains (ws_flags ws) MORE = false \/ forall z, f <> FZc z)) \/
      ((exists z, f = FZc z) /\ e_rdy (at_ s (slot key)) = true))).

(** The shape of a future between polls. *)
Definition fut_ok (f : future) : Prop :=
  (fsub f = true <-> is_Some (fkey f)) /\
  match f with
  | FRecv op f => (op = OpRecv \/ op = OpRead) /\ is_Some (r_buf f)
  | FSend op f => op = OpSend \/ op = OpWrite
  | FZc f => True
  | FSendMsg region f => region_ok region /\ SockAddr.wf (sm_addr f) /\ is_Some (sm_buf f)
  | FRecvMsg region f => region_ok region /\ is_Some (rm_buf f)
  | FWritev region f | FReadv region f => region_ok region /\ is_Some (v_iov f)
  end.

Lemma fresh_future_ok f : fresh_future f -> fut_ok f /\ fsub f = false.
Proof.
  unfold fut_ok. destruct f; cbn; intros Hf; destruct_and?; destruct_or?; repeat match goal with H : exists _, _ |- _ => destruct H end; destruct_and?; subst; cbn;
    (split; [split; [split; [done|by intros []]|eauto 6]|done]).
Qed.

(** ** First polls *)

(** A driver's resolved answer to [rq], through the seam. *)
Lemma submit_resolved sm d rq x : drv sm = Some d -> reply d = Resolved x ->
  exists sm', submit sm rq = Ret (Some x, sm') /\ inflight_slab sm' = inflight_slab sm /\
    requests sm' = match x with Submitted _ => requests sm ++ [rq] | _ => requests sm end.
Proof. intros Hd Hr. unfold submit. rewrite Hd, Hr. cbn. destruct x; by eexists. Qed.

Section submit.
Context (s : InflightBufSlab) (W : wf s) (d : driver) (w : option WakeSlot) (x : SubmitResult).
Hypothesis Hreply : reply d = Resolved x.

(** What the in-seam closures answer: a key for a submitted operation, or
    nothing and a quiet registry. *)
Definition closure_effect (op : OpCode) (token : Z) (key : option InflightSlotKey) (sm' : seam) : Prop :=
  exists s', inflight_slab sm' = Some s' /\
  match key with
  | Some key => exists ptr len, taken s s' token key /\ requests sm' = [mkRequest token op ptr len]
  | None => quiet s s' /\ requests sm' = []
  end.

(** Handing a taken slot to the driver, after the bytes were staged. *)
Lemma submit_taken op token key ptr len s1 s2 sm :
  taken s s1 token key -> drv sm = Some d -> inflight_slab sm = Some s2 -> requests sm = [] ->
  wf s2 -> owner s2 = owner s1 -> cap s2 = cap s1 -> (forall j, ranged j -> at_ s2 j = at_ s1 j) ->
  exists sm', submit sm (mkRequest token op ptr len) = Ret (Some x, sm') /\
    match x with
    | Submitted _ => closure_effect op token (Some key) sm'
    | _ => exists sm'', free_slot sm' key = Ret sm'' /\ closure_effect op token None sm''
    end.
Proof.
  intros T Hd Hs Hq W2 Ho Hc Ha. destruct (submit_resolved sm d (mkRequest token op ptr len) x Hd Hreply) as (sm' & E & Hs' & Hr').
  exists sm'. split; [done|]. rewrite Hs in Hs'. rewrite Hq in Hr'.
  destruct x as [t| |].
  - exists s2. split; [done|]. exists ptr, len. split; [|done]. destruct T. split; [done|congruence|congruence|done..|].
    intros j Hj. rewrite Ha by done. auto.
  - destruct (give_back s s1 token key s2 T W2 Ho Hc Ha) as (s3 & Ef & Q). unfold free_slot. rewrite Hs', Ef. cbn. eexists.
    split; [done|]. exists s3. done.
  - destruct (give_back s s1 token key s2 T W2 Ho Hc Ha) as (s3 & Ef & Q). unfold free_slot. rewrite Hs', Ef. cbn. eexists.
    split; [done|]. exists s3. done.
Qed.

Lemma recv_submit_spec op token cap :
  exists key sm', recv_submit op token cap (polling d s w) = Ret (key, sm') /\ closure_effect op token key sm'.
Proof.
  unfold recv_submit. destruct (allocate_slot_spec s W (polling d s w) token eq_refl) as (r & sm & -> & H). cbn [mbind outcome_bind].
  destruct r as [[key ptr]|]; [|subst sm; do 2 eexists; split; [done|]; exists s; split; [done|]; split; [by apply quiet_refl|done]].
  destruct H as (s1 & -> & T & ->). unfold submit_read.
  destruct (submit_taken op token key (slot key * stride s1) cap s1 s1 (set_slab (Some s1) (polling d s w)) T) as (sm' & E & H); try done; [apply T|].
  rewrite E. cbn [mbind outcome_bind]. destruct x as [t| |]; [by do 2 eexists|..];
    destruct H as (sm'' & -> & H); by do 2 eexists.
Qed.

(** Staging the source bytes in a taken slot. *)
Lemma copy_taken token key s1 sm src : taken s s1 token key -> inflight_slab sm = Some s1 ->
  copy_into_slot sm key src = if INFLIGHT_BUF_STRIDE <? Z.of_nat (length src) then Ret (false, sm)
    else Ret (true, set_slab (Some (set_storage (write_at (storage s1) (slot key * stride s1) src) s1)) sm).
Proof.
  intros T Hs. unfold copy_into_slot, slot_ptr. rewrite Hs, is_live_spec by (apply T || (destruct (ta_ranged _ _ _ _ T); lia)).
  by rewrite (allocated_live s s1 token key T).
Qed.

Lemma staged_wf token key s1 src : taken s s1 token key -> Z.of_nat (length src) <= INFLIGHT_BUF_STRIDE ->
  wf (set_storage (write_at (storage s1) (slot key * stride s1) src) s1).
Proof.
  intros T Hl. pose proof (ta_wf _ _ _ _ T) as W1. pose proof (ta_ranged _ _ _ _ T) as Hr. pose proof (ta_below _ _ _ _ T) as Hb.
  pose proof (wf_shape s1 W1) as Sh. pose proof (sh_bytes _ Sh) as Hby. pose proof (sh_stride _ Sh) as Hst. rewrite (ta_cap _ _ _ _ T) in Hby.
  apply set_storage_wf; [done|]. apply write_at_length; unfold ranged in Hr; rewrite Hst in *; unfold INFLIGHT_BUF_STRIDE in *; nia.
Qed.

(** The common body of the three write-class submits. *)
Lemma stage_and_submit op token src :
  (exists sm', allocate_slot (polling d s w) token = Ret (None, sm') /\ closure_effect op token None sm') \/
  exists key ptr sm1, allocate_slot (polling d s w) token = Ret (Some (key, ptr), sm1) /\
   ((exists sm'', copy_into_slot sm1 key src = Ret (false, sm1) /\ free_slot sm1 key = Ret sm'' /\ closure_effect op token None sm'') \/
    (exists sm2 sm3, copy_into_slot sm1 key src = Ret (true, sm2) /\
       submit sm2 (mkRequest token op ptr (Z.of_nat (length src))) = Ret (Some x, sm3) /\
       match x with
       | Submitted _ => closure_effect op token (Some key) sm3
       | _ => exists sm4, free_slot sm3 key = Ret sm4 /\ closure_effect op token None sm4
       end)).
Proof.
  destruct (allocate_slot_spec s W (polling d s w) token eq_refl) as (r & sm & E & H).
  destruct r as [[key ptr]|]; [right|left; subst sm; eexists; split; [done|]; exists s; split; [done|]; split; [by apply quiet_refl|done]].
  destruct H as (s1 & -> & T & ->). exists key, (slot key * stride s1), (set_slab (Some s1) (polling d s w)). split; [done|].
  rewrite (copy_taken token key s1 (set_slab (Some s1) (polling d s w)) src T eq_refl). destruct (Z.ltb_spec INFLIGHT_BUF_STRIDE (Z.of_nat (length src))).
  - left. destruct (give_back s s1 token key s1 T) as (s3 & Ef & Q); try done; [apply T|]. unfold free_slot. cbn. rewrite Ef. cbn.
    eexists. split; [done|]. split; [done|]. exists s3. done.
  - right. pose proof (staged_wf token key s1 src T ltac:(lia)) as W2.
    set (s2 := set_storage (write_at (storage s1) (slot key * stride s1) src) s1) in *.
    destruct (submit_taken op token key (slot key * stride s1) (Z.of_nat (length src)) s1 s2 (set_slab (Some s2) (polling d s w)) T)
      as (sm3 & E3 & H3); [done|done|done|exact W2|done|done|done|]. eexists _, sm3. by do 2 (split; [done|]).
Qed.

Lemma send_submit_spec op token src :
  exists key sm', send_submit op token src (polling d s w) = Ret (key, sm') /\ closure_effect op token key sm'.
Proof.
  unfold send_submit. destruct (stage_and_submit op token src) as [(sm' & E0 & H)|(key & ptr & sm1 & E0 & [(sm'' & E1 & E & H)|(sm2 & sm3 & E1 & E & H)])];
    rewrite E0; cbn [mbind outcome_bind]; [by do 2 eexists|rewrite E1; cbn [mbind outcome_bind negb]; rewrite E; by do 2 eexists|].
  rewrite E1. cbn [mbind outcome_bind negb]. rewrite E. cbn [mbind outcome_bind].
  destruct x as [t| |]; [by do 2 eexists|..];
    destruct H as (sm4 & -> & H); by do 2 eexists.
Qed.

Lemma submit_send_spec token src zc :
  exists r sm', submit_send token src zc (polling d s w) = Ret (r, sm') /\
    closure_effect (if zc then OpSendZc else OpSend) token (match r with ZSubmitted key => Some key | _ => None end) sm'.
Proof.
  unfold submit_send. destruct (stage_and_submit (if zc : bool then OpSendZc else OpSend) token src)
    as [(sm' & E0 & H)|(key & ptr & sm1 & E0 & [(sm'' & E1 & E & H)|(sm2 & sm3 & E1 & E & H)])];
    rewrite E0; cbn [mbind outcome_bind]; [by do 2 eexists|rewrite E1; cbn [mbind outcome_bind negb]; rewrite E; by do 2 eexists|].
  rewrite E1. cbn [mbind outcome_bind negb]. rewrite E. cbn [mbind outcome_bind].
  destruct x as [t| |]; [by do 2 eexists|..];
    destruct H as (sm4 & -> & H); by do 2 eexists.
Qed.

(** A staged header or array handed to the driver, or the slot given back. *)
Lemma submit_built_spec op token key built s1 s2 sm :
  taken s s1 token key -> drv sm = Some d -> inflight_slab sm = Some s2 -> requests sm = [] ->
  wf s2 -> owner s2 = owner s1 -> cap s2 = cap s1 -> (forall j, ranged j -> at_ s2 j = at_ s1 j) ->
  exists k sm', submit_built token op key built sm = Ret (k, sm') /\ closure_effect op token k sm'.
Proof.
  intros T Hd Hs Hq W2 Ho Hc Ha. destruct (give_back s s1 token key s2 T W2 Ho Hc Ha) as (s3 & Ef & Q).
  assert (Hgive : exists sm', (sm' ← free_slot sm key; Ret (None : option InflightSlotKey, sm')) = Ret (None, sm') /\ closure_effect op token None sm').
  { unfold free_slot. rewrite Hs, Ef. cbn. eexists. split; [done|]. exists s3. done. }
  unfold submit_built. destruct built as [[ptr len]|]; [|by exists None]. unfold submit_internal. rewrite Hd. cbn [mbind outcome_bind].
  destruct (internal_reply d) as [t| |]; [|by exists None..]. exists (Some key). eexists. split; [done|]. exists s2. split; [done|].
  exists ptr, len. cbn [requests count record]. rewrite Hq. split; [|done]. destruct T. split; [done|congruence|congruence|done..|]. intros j Hj. rewrite Ha by done. auto.
Qed.

Lemma built_closure {A} op token (build : InflightSlotKey -> seam -> outcome (option A * seam)) (g : option A -> option (Z * Z)) :
  (forall key s1 sm1, wf s1 -> 0 <= slot key -> live s1 key = true -> inflight_slab sm1 = Some s1 -> stages s1 key sm1 (build key sm1)) ->
  exists k sm', ('(slot, sm) ← allocate_slot (polling d s w) token;
    match slot with
    | None => Ret (None, sm)
    | Some (key, _) => '(built, sm) ← build key sm; submit_built token op key (g built) sm
    end) = Ret (k, sm') /\ closure_effect op token k sm'.
Proof.
  intros Hb. destruct (allocate_slot_spec s W (polling d s w) token eq_refl) as (r & sm & -> & H). cbn [mbind outcome_bind].
  destruct r as [[key ptr]|]; [|subst sm; do 2 eexists; split; [done|]; exists s; split; [done|]; split; [by apply quiet_refl|done]].
  destruct H as (s1 & -> & T & ->). pose proof (ta_wf _ _ _ _ T) as W1. pose proof (ta_ranged _ _ _ _ T) as [Hr0 _]. pose proof (allocated_live s s1 token key T) as L.
  destruct (Hb key s1 (set_slab (Some s1) (polling d s w)) W1 Hr0 L eq_refl) as (built & sm' & -> & Hst). cbn [mbind outcome_bind].
  destruct Hst as [->|(bytes & Hw & ->)].
  - eapply (submit_built_spec op token key (g built) s1 s1); done.
  - eapply (submit_built_spec op token key (g built) s1 (put_slot s1 key bytes)); try done. by apply put_slot_wf.
Qed.

Lemma send_msg_submit_spec region token addr buf : region_ok region -> SockAddr.wf addr ->
  exists k sm', send_msg_submit region token addr buf (polling d s w) = Ret (k, sm') /\ closure_effect OpSendmsg token k sm'.
Proof. intros R Ha. apply (built_closure OpSendmsg token (fun key sm => build_send_msg region sm key buf addr)). intros. by apply send_stages. Qed.
Lemma recv_msg_submit_spec region token cap :
  exists k sm', recv_msg_submit region token cap (polling d s w) = Ret (k, sm') /\ closure_effect OpRecvmsg token k sm'.
Proof. apply (built_closure OpRecvmsg token (fun key sm => build_recv_msg region sm key cap)). intros. by apply recv_stages. Qed.
Lemma writev_submit_spec region token bufs : region_ok region ->
  exists k sm', writev_submit region token bufs (polling d s w) = Ret (k, sm') /\ closure_effect OpWritev token k sm'.
Proof. intros R. apply (built_closure OpWritev token (fun key sm => build_writev region sm key bufs) id). intros. by apply writev_stages. Qed.
Lemma readv_submit_spec region token bufs : region_ok region ->
  exists k sm', readv_submit region token bufs (polling d s w) = Ret (k, sm') /\ closure_effect OpReadv token k sm'.
Proof. intros R. apply (built_closure OpReadv token (fun key sm => build_readv region sm key bufs) id). intros. by apply readv_stages. Qed.

(** What a closure's answer means for the future that ran it. *)
Lemma closure_submit_effect op token f f' key r sm' : closure_effect op token key sm' -> op <> OpSendZc -> r = (if key then false else true) ->
  fkey f' = key -> fsub f' = (if key then true else false) -> submit_effect s token f r f' sm'.
Proof.
  intros (s' & Hs' & H) Hop -> Hk Hf. exists s'. split; [done|]. destruct key as [key|].
  - right. destruct H as (ptr & len & T & Hq). exists key, (mkRequest token op ptr len). do 6 (split; [done|]). by intros _.
  - left. destruct H as [Q Hq]. done.
Qed.

(** The first poll of a future. *)
Lemma first_poll_spec token f : fut_ok f -> fsub f = false ->
  exists r f' sm', poll_future token f (polling d s w) = Ret (r, f', Some sm') /\
    submit_effect s token f r f' sm' /\ (r = false -> fut_ok f').
Proof.
  intros [Hk Hf] Hs. assert (fkey f = None) as Hn by (destruct (fkey f); [destruct Hk as [_ Hk]; rewrite Hk in Hs by done; done|done]).
  destruct f as [op f|op f|f|region f|region f|region f|region f]; cbn in Hs, Hf, Hn |- *.
  - destruct Hf as [Hop [buf Hbuf]]. unfold recv_poll_with. rewrite Hs, Hbuf. destruct (_ <? _).
    { cbn. do 3 eexists. split; [done|]. split; [|done]. exists s. split; [done|]. left. split; [by apply quiet_refl|done]. }
    destruct (recv_submit_spec op token (Z.of_nat (length buf))) as (key & sm' & -> & s' & Hs' & H). cbn. destruct key as [key|].
    + destruct H as (ptr & len & T & Hq). do 3 eexists. split; [done|]. split.
      * exists s'. split; [done|]. right. exists key, (mkRequest token op ptr len). do 6 (split; [done|]). intros _. cbn. by destruct Hop as [-> | ->].
      * intros _. split; [by split|]. cbn. split; [done|by eexists].
    + destruct H as [Q Hq]. do 3 eexists. split; [done|]. split; [|done]. exists s'. split; [done|]. left. by rewrite Hn.
  - unfold send_poll_with. rewrite Hs. destruct (send_submit_spec op token (s_buf f)) as (key & sm' & -> & s' & Hs' & H). cbn. destruct key as [key|].
    + destruct H as (ptr & len & T & Hq). do 3 eexists. split; [done|]. split.
      * exists s'. split; [done|]. right. exists key, (mkRequest token op ptr len). do 6 (split; [done|]). intros _. cbn. by destruct Hf as [-> | ->].
      * intros _. split; [by split|]. done.
    + destruct H as [Q Hq]. do 3 eexists. split; [done|]. split; [|done]. exists s'. split; [done|]. left. cbn. by rewrite Hn.
  - unfold zc_poll. rewrite Hs. set (zc := negb (has_fallen_back f) && is_send_zc_supported (polling d s w)).
    destruct (submit_send_spec token (z_buf f) zc) as (r & sm' & -> & s' & Hs' & H). cbn [mbind outcome_bind]. destruct r as [key| |].
    + destruct H as (ptr & len & T & Hq). cbn. do 3 eexists. split; [done|]. split.
      * exists s'. split; [done|]. right. exists key, (mkRequest token (if zc then OpSendZc else OpSend) ptr len). do 6 (split; [done|]).
        intros Hz. by destruct (Hz _ eq_refl).
      * intros _. split; [by split|done].
    + destruct H as [Q Hq]. destruct (zc && _); cbn; do 3 eexists; (split; [done|]); (split; [|]); [|by intros _; split; cbn; rewrite ?Hs, ?Hn| |done];
        (exists s'; split; [done|]; left; cbn; by rewrite ?Hn, ?Hs).
    + destruct H as [Q Hq]. cbn. do 3 eexists. split; [done|]. split; [|done]. exists s'. split; [done|]. left. cbn. by rewrite Hn.
  - destruct Hf as (R & Ha & buf & Hbuf). unfold send_msg_poll. rewrite Hs, Hbuf.
    destruct (send_msg_submit_spec region token (sm_addr f) buf R Ha) as (key & sm' & -> & C). cbn [mbind outcome_bind].
    destruct key as [key|]; do 3 eexists; (split; [done|]); (split; [by eapply closure_submit_effect|]); [|done]. intros _. split; [by split|]. cbn. eauto.
  - destruct Hf as (R & buf & Hbuf). unfold recv_msg_poll. rewrite Hs, Hbuf. destruct (_ <? _).
    { cbn. do 3 eexists. split; [done|]. split; [|done]. exists s. split; [done|]. left. split; [by apply quiet_refl|done]. }
    destruct (recv_msg_submit_spec region token (Z.of_nat (length buf))) as (key & sm' & -> & C). cbn [mbind outcome_bind].
    destruct key as [key|]; do 3 eexists; (split; [done|]); (split; [by eapply closure_submit_effect|]); [|done]. intros _. split; [by split|]. cbn. eauto.
  - destruct Hf as (R & bufs & Hbuf). unfold writev_poll. rewrite Hs, Hbuf.
    destruct (writev_submit_spec region token bufs R) as (key & sm' & -> & C). cbn [mbind outcome_bind].
    destruct key as [key|]; do 3 eexists; (split; [done|]); (split; [by eapply closure_submit_effect|]); [|done]. intros _. split; [by split|]. cbn. eauto.
  - destruct Hf as (R & bufs & Hbuf). unfold readv_poll. rewrite Hs, Hbuf.
    destruct (readv_submit_spec region token bufs R) as (key & sm' & -> & C). cbn [mbind outcome_bind].
    destruct key as [key|]; do 3 eexists; (split; [done|]); (split; [by eapply closure_submit_effect|]); [|done]. intros _. split; [by split|]. cbn. eauto.
Qed.

End submit.

(** ** Later polls *)

Section later.
Context (s : InflightBufSlab) (W : wf s) (d : driver) (w : option WakeSlot) (key : InflightSlotKey).
Hypothesis H0 : 0 <= slot key.

Lemma free_slot_spec sm : inflight_slab sm = Some s ->
  exists dd s', free s key = Ret (dd, s') /\ free_slot sm key = Ret (set_slab (Some s') sm).
Proof. intros Hs. destruct (free_spec s W key H0) as (dd & s' & E & _). exists dd, s'. split; [done|]. unfold free_slot. by rewrite Hs, E. Qed.

Lemma slot_slice_spec len : 0 <= len -> exists r, slot_slice s key len = Ret r.
Proof.
  intros Hl. unfold slot_slice. rewrite is_live_spec by done. cbn [mbind outcome_bind]. destruct (live s key) eqn:E; cbn [negb]; [|by eexists].
  destruct (live_ranged s W key H0 E) as [Hr Hc]. pose proof (wf_shape s W) as Sh. pose proof (sh_bytes _ Sh) as Hb. pose proof (sh_stride _ Sh) as Hst.
  unfold slice. rewrite Hst in *. unfold INFLIGHT_BUF_STRIDE in *.
  destruct (Z.leb_spec (slot key * 4096) (slot key * 4096 + Z.min len 4096)); [|lia].
  destruct (Z.leb_spec (slot key * 4096 + Z.min len 4096) (Z.of_nat (length (storage s)))); [|nia]. by eexists.
Qed.

Lemma harvest_spec sm len dst : inflight_slab sm = Some s -> 0 <= len ->
  exists dd s' dst', free s key = Ret (dd, s') /\ harvest_into_buf sm key len dst = Ret (dst', set_slab (Some s') sm).
Proof.
  intros Hs Hl. destruct (slot_slice_spec len Hl) as [r E]. destruct (free_spec s W key H0) as (dd & s' & Ef & _).
  exists dd, s'. unfold harvest_into_buf. rewrite Hs, E. cbn [mbind outcome_bind]. rewrite Ef. by eexists.
Qed.

(** The notification check frees only a slot the kernel has released. *)
Lemma zc_notified_spec f sm : inflight_slab sm = Some s ->
  (zc_notified key f sm = Ret (ZWaiting, f, sm)) \/
  exists dd s' r, free s key = Ret (dd, s') /\ e_rdy (at_ s (slot key)) = true /\
    zc_notified key f sm = Ret (ZReady r, mkZc (z_buf f) None (z_submitted f) None (was_zero_copy f) (has_fallen_back f), set_slab (Some s') sm).
Proof.
  intros Hs. unfold zc_notified, slot_notif_ready. rewrite Hs, is_notif_ready_spec by done. cbn [mbind outcome_bind].
  destruct (live s key && _) eqn:E; cbn [negb]; [right|by left]. apply andb_true_iff in E as [_ E].
  destruct (free_slot_spec sm Hs) as (dd & s' & Ef & ->). do 3 eexists. by do 2 (split; [done|]).
Qed.

Lemma zc_later f : z_submitted f = true -> z_key f = Some key ->
  exists r f' sm', poll_future (op_token key) (FZc f) (polling d s w) = Ret (r, FZc f', Some sm') /\
    poll_effect s key w (FZc f) r (FZc f') sm' /\ (r = false -> fut_ok (FZc f')).
Proof.
  intros Hs Hk. cbn. unfold zc_poll. rewrite Hs, Hk. unfold zc_step, completion_result. cbn [polling wake_slot].
  set (sm := polling d s w). assert (inflight_slab sm = Some s) as Hsm by done.
  assert (forall g, z_submitted g = true -> z_key g = Some key ->
    exists r f' sm', ('(step, f, sm) ← zc_notified key g sm; Ret (match step with
                 | ZReady r => (false, Ready r, f, Some sm) | ZWaiting => (false, Pending, f, Some sm)
                 | ZStepRefused => (true, Pending, f, Some sm) end)) = Ret (false, r, f', Some sm') /\
      poll_effect s key w (FZc f) (match r with Ready _ => true | Pending => false end) (FZc f') sm' /\
      (match r with Ready _ => true | Pending => false end = false -> fut_ok (FZc f'))) as Hnot.
  { intros g Hg Hgk. destruct (zc_notified_spec g sm Hsm) as [-> | (dd & s' & r & Ef & Hrdy & ->)]; cbn.
    - do 3 eexists. split; [done|]. split; [left; split; [done|]; split; [done|]; split; [done|]; split; [done|]; naive_solver|].
      intros _. split; [|done]. cbn. by rewrite Hg, Hgk.
    - do 3 eexists. split; [done|]. split; [|done]. right. exists dd, s'. do 4 (split; [done|]). right. split; [by eexists|done]. }
  destruct (primary f) as [pr|] eqn:Hp.
  { destruct (Hnot f Hs Hk) as (r & f' & sm' & -> & H). cbn. do 3 eexists. split; [done|]. exact H. }
  destruct w as [ws|] eqn:Ew.
  2:{ cbn. do 3 eexists. split; [done|]. split; [left; do 4 (split; [done|]); naive_solver|]. intros _. split; [|done]. cbn. by rewrite Hs, Hk. }
  destruct (contains (ws_flags ws) MORE) eqn:Em; cbn [negb].
  - match goal with |- context [zc_notified key ?g sm] => destruct (Hnot g Hs Hk) as (r & f' & sm' & -> & H) end. cbn. do 3 eexists. split; [done|]. exact H.
  - destruct (free_slot_spec sm Hsm) as (dd & s' & Ef & ->). destruct (was_zero_copy f && _ && _); cbn; do 3 eexists; (split; [done|]);
      (split; [right; exists dd, s'; do 4 (split; [done|]); left; eexists; split; [done|]; by left|]); [intros _; split; [by split; [|intros []]|done]|done].
Qed.

(** The two outcomes of a later poll of a future that is no zero-copy send. *)
Lemma waits w' sm f f' : inflight_slab sm = Some s -> fkey f' = Some key -> fsub f' = true -> (forall z, f <> FZc z) -> (forall z, f' <> FZc z) -> poll_effect s key w' f false f' sm.
Proof. intros Hsm Hk Hs Hz Hz'. left. do 4 (split; [done|]). naive_solver. Qed.
Lemma frees w' f f' ws dd s' sm : w' = Some ws -> free s key = Ret (dd, s') -> inflight_slab sm = Some s' -> fkey f' = None -> (forall z, f <> FZc z) ->
  poll_effect s key w' f true f' sm.
Proof. intros Hw Ef Hs Hk Hz. right. exists dd, s'. do 4 (split; [done|]). left. exists ws. auto. Qed.

(** A poll of a submitted future. *)
Lemma later_poll_spec f : fut_ok f -> fsub f = true -> fkey f = Some key ->
  exists r f' sm', poll_future (op_token key) f (polling d s w) = Ret (r, f', Some sm') /\
    poll_effect s key w f r f' sm' /\ (r = false -> fut_ok f').
Proof.
  intros [Hk Hf] Hs Hkey. destruct f as [op f|op f|f|region f|region f|region f|region f]; cbn in Hs, Hkey, Hf.
  - destruct Hf as [Hop [buf Hbuf]]. cbn. unfold recv_poll_with. rewrite Hs, Hkey, Hbuf. unfold recv_complete, completion_result. cbn [polling wake_slot].
    destruct w as [ws|].
    2:{ cbn. do 3 eexists. split; [done|]. split; [left; do 4 (split; [done|]); naive_solver|]. intros _. split; [by split|]. cbn. split; [done|by eexists]. }
    unfold bytes_from_cqe. destruct (Z.ltb_spec (ws_result ws) 0).
    + destruct (free_slot_spec (polling d s (Some ws)) eq_refl) as (dd & s' & Ef & E). fold (polling d s (Some ws)). rewrite E. cbn.
      do 3 eexists. split; [done|]. split; [|done]. right. exists dd, s'. do 4 (split; [done|]). left. exists ws. split; [done|]. right. by intros z.
    + destruct (harvest_spec (polling d s (Some ws)) (ws_result ws) buf eq_refl) as (dd & s' & dst & Ef & E); [lia|].
      fold (polling d s (Some ws)). rewrite E. cbn. do 3 eexists. split; [done|]. split; [|done]. right. exists dd, s'. do 4 (split; [done|]).
      left. exists ws. split; [done|]. right. by intros z.
  - cbn. unfold send_poll_with. rewrite Hs, Hkey. unfold completion_result. cbn [polling wake_slot]. destruct w as [ws|].
    2:{ cbn. do 3 eexists. split; [done|]. split; [left; do 4 (split; [done|]); naive_solver|]. intros _. by split. }
    destruct (free_slot_spec (polling d s (Some ws)) eq_refl) as (dd & s' & Ef & E). fold (polling d s (Some ws)). rewrite E. cbn.
    do 3 eexists. split; [done|]. split; [|done]. right. exists dd, s'. do 4 (split; [done|]). left. exists ws. split; [done|]. right. by intros z.
  - destruct (zc_later f Hs Hkey) as (r & f' & sm' & E & H). by do 3 eexists.
  - destruct Hf as (R & Ha & buf & Hbuf). cbn. unfold send_msg_poll. rewrite Hs, Hkey. unfold completion_result. cbn [polling wake_slot]. destruct w as [ws|].
    2:{ do 3 eexists. split; [done|]. split; [by apply waits|]. intros _. split; [by split|]. cbn. eauto. }
    destruct (free_slot_spec (polling d s (Some ws)) eq_refl) as (dd & s' & Ef & E). fold (polling d s (Some ws)). rewrite E. cbn [mbind outcome_bind].
    do 3 eexists. split; [done|]. split; [|done]. by eapply frees.
  - destruct Hf as (R & buf & Hbuf). cbn. unfold recv_msg_poll. rewrite Hs, Hkey, Hbuf. unfold recv_msg_complete, completion_result. cbn [polling wake_slot]. destruct w as [ws|].
    2:{ do 3 eexists. split; [done|]. split; [by apply waits|]. intros _. split; [by split|]. cbn. eauto. }
    fold (polling d s (Some ws)). unfold bytes_from_cqe. destruct (Z.ltb_spec (ws_result ws) 0).
    + destruct (free_slot_spec (polling d s (Some ws)) eq_refl) as (dd & s' & Ef & E). rewrite E. cbn [mbind outcome_bind].
      do 3 eexists. split; [done|]. split; [|done]. by eapply frees.
    + destruct (read_msg_sender_total s W key H0 (polling d s (Some ws)) eq_refl) as [sender ->]. cbn [mbind outcome_bind].
      destruct (harvest_msg_total s W key H0 (polling d s (Some ws)) eq_refl (ws_result ws) buf) as (dd & s' & dst & Ef & ->); [lia|]. cbn [mbind outcome_bind].
      do 3 eexists. split; [done|]. split; [|done]. by eapply frees.
  - destruct Hf as (R & bufs & Hbuf). cbn. unfold writev_poll. rewrite Hs, Hkey. unfold completion_result. cbn [polling wake_slot]. destruct w as [ws|].
    2:{ do 3 eexists. split; [done|]. split; [by apply waits|]. intros _. split; [by split|]. cbn. eauto. }
    destruct (free_slot_spec (polling d s (Some ws)) eq_refl) as (dd & s' & Ef & E). fold (polling d s (Some ws)). rewrite E. cbn [mbind outcome_bind]. rewrite Hbuf.
    do 3 eexists. split; [done|]. split; [|done]. by eapply frees.
  - destruct Hf as (R & bufs & Hbuf). cbn. unfold readv_poll. rewrite Hs, Hkey, Hbuf. unfold readv_complete, completion_result. cbn [polling wake_slot]. destruct w as [ws|].
    2:{ do 3 eexists. split; [done|]. split; [by apply waits|]. intros _. split; [by split|]. cbn. eauto. }
    fold (polling d s (Some ws)). unfold bytes_from_cqe. destruct (Z.ltb_spec (ws_result ws) 0).
    + destruct (free_slot_spec (polling d s (Some ws)) eq_refl) as (dd & s' & Ef & E). rewrite E. cbn [mbind outcome_bind].
      do 3 eexists. split; [done|]. split; [|done]. by eapply frees.
    + destruct (harvest_vectored_total s W key H0 (polling d s (Some ws)) eq_refl (ws_result ws) bufs) as (dd & s' & dst & Ef & ->); [lia|]. cbn [mbind outcome_bind].
      do 3 eexists. split; [done|]. split; [|done]. by eapply frees.
Qed.

End later.

End SeamSpec.
