(* ===== verification/InflightInv.v ===== *)
(** * The invariant of the in-flight protocol

    A buffered operation is tracked, from the poll that submits it to the
    release of its slot, by its task token: the slot it was given, whether it is
    a zero-copy send, and its stage, which says what the kernel still owes, what
    waits in the completion queue and which notification bits are set. *)

From S2P Require Import Prelude Words Bitmap IoTokens InflightSlab InflightSpec Seam InflightProto SeamSpec.
From stdpp Require Import base tactics option list numbers gmap.

Local Open Scope Z_scope.

Module InflightInv.
Import IoTokens Inflight InflightSpec Seam BufFuture SeamDrain InflightProto SeamSpec.

(** [SRun]: the kernel runs it.  [SMoreQ], [SNotify]: it owes the notification,
    the first completion queued or drained.  [SPlainQ]: its only completion is
    queued.  [SBothQ], [SNotifQ]: the kernel is done, with both completions or
    only the notification queued.  [SEnd], [SRel]: everything is drained. *)
Inductive stage : Type := SRun | SMoreQ | SNotify | SPlainQ | SBothQ | SNotifQ | SEnd | SRel.

Record tracked : Type := mkT { t_slot : Z; t_zc : bool; t_stage : stage }.

(** What the kernel holds. *)
Definition held (st : stage) : option phase :=
  match st with SRun => Some Running | SMoreQ | SNotify => Some Notifying | _ => None end.

Inductive ckind : Type := CPlain | CMore | CNotif.

Definition kind (c : Completion) : ckind :=
  if is_notif c then CNotif else if has_more c then CMore else CPlain.

(** The completions of [t] in the queue, in order. *)
Definition trace (t : Z) (q : list Completion) : list ckind := kind <$> filter (fun c => token c = t) q.

Definition queued (st : stage) : list ckind :=
  match st with SMoreQ => [CMore] | SPlainQ => [CPlain] | SBothQ => [CMore; CNotif] | SNotifQ => [CNotif] | _ => [] end.

Definition expects (st : stage) : bool := match st with SNotify | SNotifQ | SRel => true | _ => false end.
Definition released (st : stage) : bool := match st with SRel => true | _ => false end.
Definition over (st : stage) : bool := match st with SEnd | SRel => true | _ => false end.
Definition stage_ok (zc : bool) (st : stage) : Prop := zc = true \/ st = SRun \/ st = SPlainQ \/ st = SEnd.
(** Its first completion has been drained. *)
Definition late (st : stage) : bool := match st with SNotify | SNotifQ | SEnd | SRel => true | _ => false end.

Abbreviation tracking := (gmap Z tracked).

Definition ent (s : InflightBufSlab) (x : tracked) : entry := at_ s (t_slot x).

(** The cancel sentinel that names slot [i] as it stands. *)
Definition names (s : InflightBufSlab) (i sentinel : Z) : Prop :=
  sentinel = encode_cancel_sentinel (mkKey i (e_gen (at_ s i)) 0 0).

Definition key_ok (key : InflightSlotKey) : Prop := ranged (slot key) /\ 0 <= generation key.

(** ** The groups of the invariant *)

Record SI (s : InflightBufSlab) (m : tracking) (wk : gmap Z WakeSlot) : Prop := {
  si_wf : wf s;
  si_tok t x : m !! t = Some x -> task_token t /\ ranged (t_slot x) /\ e_occ (ent s x) = true /\ e_tok (ent s x) = t /\
    e_exp (ent s x) = expects (t_stage x) /\ e_rdy (ent s x) = released (t_stage x) /\ stage_ok (t_zc x) (t_stage x);
  si_occ i : ranged i -> e_occ (at_ s i) = true -> exists x, m !! e_tok (at_ s i) = Some x /\ t_slot x = i;
  si_wake t x : m !! t = Some x -> expects (t_stage x) = true ->
    exists ws, wk !! t = Some ws /\ contains (ws_flags ws) MORE = true;
}.

Record OI (s : InflightBufSlab) (m : tracking) (os : list kop) : Prop := {
  oi_op o : o ∈ os -> exists x, m !! k_tok o = Some x /\ k_slot o = t_slot x /\ k_zc o = t_zc x /\
    held (t_stage x) = Some (k_phase o) /\ k_gen o = e_gen (ent s x);
  oi_nodup : NoDup (k_tok <$> os);
  oi_held t x p : m !! t = Some x -> held (t_stage x) = Some p -> t ∈ k_tok <$> os;
}.

Record QI (s : InflightBufSlab) (m : tracking) (q : list Completion) : Prop := {
  qi_trace t : task_token t -> trace t q = match m !! t with Some x => queued (t_stage x) | None => [] end;
  qi_cqe c : c ∈ q -> buf_id c = None /\
    (task_token (token c) \/ exists key, key_ok key /\ token c = encode_cancel_sentinel key /\ is_notif c = false);
  qi_gone l1 c l2 : q = l1 ++ c :: l2 -> result c = CANCEL_TARGET_GONE ->
    forall t x, m !! t = Some x -> names s (t_slot x) (token c) ->
    t_stage x <> SRun /\ Forall (fun c' => primary_of t c' = false) l2;
}.

(** [key] is the live, not retired handle of the operation of [t]. *)
Definition owned (s : InflightBufSlab) (m : tracking) (t : Z) (key : InflightSlotKey) : Prop :=
  op_token key = t /\ worker_id key = owner s /\
  exists x, m !! t = Some x /\ slot key = t_slot x /\ generation key = e_gen (ent s x) /\ e_ret (ent s x) = false.

(** The tokens of the keys the futures hold. *)
Definition held_tokens (cs : list client) : list Z := omap (fun c => op_token <$> fkey (c_fut c)) cs.

Record WI (s : InflightBufSlab) (m : tracking) (cs : list client) (q : list InflightSlotKey) : Prop := {
  wi_client c key : c ∈ cs -> fkey (c_fut c) = Some key -> owned s m (c_tok c) key /\
    ((forall z, c_fut c <> FZc z) -> exists x, m !! c_tok c = Some x /\ t_zc x = false);
  wi_fut c : c ∈ cs -> fut_ok (c_fut c) /\ task_token (c_tok c);
  wi_inbox key : key ∈ q -> owned s m (op_token key) key;
  wi_nodup : NoDup (held_tokens cs ++ (op_token <$> q));
  wi_claimed t x : m !! t = Some x -> e_ret (ent s x) = false -> t ∈ held_tokens cs ++ (op_token <$> q);
}.

Record CI (s : InflightBufSlab) (m : tracking) (xs : list (Z * Z)) : Prop := {
  ci_sent t sent : (t, sent) ∈ xs -> exists key, key_ok key /\ sent = encode_cancel_sentinel key;
  ci_tok t sent : (t, sent) ∈ xs -> forall t' x, m !! t' = Some x -> names s (t_slot x) sent -> t' = t;
}.

Definition NI (m : tracking) (cs : list client) (wn : option (Z * option WakeSlot)) : Prop :=
  (forall t w, wn = Some (t, w) -> task_token t) /\
  forall t ws c key x, wn = Some (t, Some ws) -> c ∈ cs -> c_tok c = t -> c_old c = true -> fkey (c_fut c) = Some key ->
    m !! t = Some x ->
    late (t_stage x) = true /\ (expects (t_stage x) = true -> contains (ws_flags ws) MORE = true).

(** A retired slot whose operation is over has a cancel on its way. *)
Definition LI (s : InflightBufSlab) (m : tracking) (xs : list (Z * Z)) (q : list Completion) : Prop :=
  forall t x, m !! t = Some x -> e_ret (ent s x) = true -> over (t_stage x) = true ->
    (exists sent, (t, sent) ∈ xs /\ names s (t_slot x) sent) \/
    (exists c, c ∈ q /\ result c = CANCEL_TARGET_GONE /\ names s (t_slot x) (token c)).

Record Inv (y : sys) (m : tracking) : Prop := {
  inv_s : SI (slab y) m (wake y);
  inv_o : OI (slab y) m (ops y);
  inv_q : QI (slab y) m (cq y);
  inv_w : WI (slab y) m (clients y) (inbox y);
  inv_c : CI (slab y) m (cancels y);
  inv_n : NI m (clients y) (window y);
}.

Definition Loss (y : sys) (m : tracking) : Prop := LI (slab y) m (cancels y) (cq y).

(** ** Basic facts *)

Section facts.
Context (s : InflightBufSlab) (m : tracking) (wk : gmap Z WakeSlot) (HS : SI s m wk).

Lemma slot_inj t t' x x' : m !! t = Some x -> m !! t' = Some x' -> t_slot x = t_slot x' -> t = t'.
Proof.
  intros H H' E. destruct (si_tok _ _ _ HS t x H) as (_ & _ & _ & Ht & _). destruct (si_tok _ _ _ HS t' x' H') as (_ & _ & _ & Ht' & _).
  unfold ent in *. rewrite E in Ht. congruence.
Qed.

Lemma tracked_gen t x : m !! t = Some x -> fits 64 (e_gen (ent s x)).
Proof. intros H. destruct (si_tok _ _ _ HS t x H) as (_ & Hr & _). apply (wf_entry s (si_wf _ _ _ HS) _ Hr). Qed.

Lemma encode_inj key key' : key_ok key -> key_ok key' -> encode_cancel_sentinel key = encode_cancel_sentinel key' ->
  slot key = slot key' /\ generation key mod 2 ^ 16 = generation key' mod 2 ^ 16.
Proof.
  intros [Hs Hg] [Hs' Hg'] E. unfold encode_cancel_sentinel, ranged in *.
  destruct (mark_fields CANCEL_TOKEN_BASE (slot key) (generation key)) as (_ & _ & F1 & F2); [unfold fits; lia|done|unfold fits, CANCEL_TOKEN_BASE; lia|done|].
  destruct (mark_fields CANCEL_TOKEN_BASE (slot key') (generation key')) as (_ & _ & F1' & F2'); [unfold fits; lia|done|unfold fits, CANCEL_TOKEN_BASE; lia|done|].
  rewrite E in F1, F2. split; congruence.
Qed.

Lemma names_slot i key : ranged i -> key_ok key -> names s i (encode_cancel_sentinel key) <->
  slot key = i /\ e_gen (at_ s i) mod 2 ^ 16 = generation key mod 2 ^ 16.
Proof.
  intros Hi Hk. assert (key_ok (mkKey i (e_gen (at_ s i)) 0 0)) as Hi'.
  { split; [done|]. cbn. destruct (wf_entry s (si_wf _ _ _ HS) _ Hi) as (_ & [? _] & _). done. }
  unfold names. split.
  - intros E. destruct (encode_inj _ _ Hk Hi' E) as [? ?]. done.
  - intros [Hs Hg]. unfold encode_cancel_sentinel, mark. cbn [slot generation]. rewrite Hs. change 0xFFFF with (2 ^ 16 - 1).
    by rewrite !land_ones_mod, Hg by lia.
Qed.

End facts.

Lemma task_token_routes t r fl : task_token t ->
  route_of (mkCqe t r fl None) = if contains fl NOTIF then RNotif else RTask.
Proof.
  intros [Hf Hc]. assert ((t =? WAKE_FD_USER_DATA) = false) as H1.
  { apply Z.eqb_neq. intros ->. unfold corner, WAKE_FD_USER_DATA in Hc. vm_compute in Hc. done. }
  assert (is_msg_ring_wake t = false) as H2. { apply Z.eqb_neq. intros ->. unfold corner in Hc. vm_compute in Hc. done. }
  assert (is_link_timeout_discard t = false) as H3. { apply Z.eqb_neq. intros ->. unfold corner in Hc. vm_compute in Hc. done. }
  destruct (contains fl NOTIF) eqn:En.
  - unfold route_of. cbn [token]. rewrite H1, H2, H3. unfold is_notif. cbn [flags]. by rewrite En.
  - rewrite corner_routes by done. cbn [token]. destruct (Z.eqb_spec (corner t) 0xFFFFFFFF); [lia|].
    destruct (Z.eqb_spec (corner t) 0xFFFFFFFE); [lia|]. destruct (Z.eqb_spec (corner t) 0xFFFFFFFD); [lia|done].
Qed.

Lemma sentinel_corner key : key_ok key -> corner (encode_cancel_sentinel key) = 0xFFFFFFFF /\
  multishot_sentinel_slot (encode_cancel_sentinel key) = slot key /\
  multishot_sentinel_generation (encode_cancel_sentinel key) = generation key mod 2 ^ 16 /\ fits 64 (encode_cancel_sentinel key).
Proof.
  intros [Hs Hg]. unfold ranged in Hs. destruct (mark_fields CANCEL_TOKEN_BASE (slot key) (generation key)) as (F0 & F & F1 & F2);
    [unfold fits; lia|done|unfold fits, CANCEL_TOKEN_BASE; lia|done|]. split; [unfold encode_cancel_sentinel; by rewrite F|]. by do 2 (split; [done|]).
Qed.

Lemma sentinel_not_task key : key_ok key -> ~ task_token (encode_cancel_sentinel key).
Proof. intros Hk [_ Hc]. destruct (sentinel_corner key Hk) as [E _]. lia. Qed.

Lemma sentinel_routes key r fl : key_ok key -> contains fl NOTIF = false ->
  route_of (mkCqe (encode_cancel_sentinel key) r fl None) = RCancel.
Proof.
  intros Hk Hn. destruct (sentinel_corner key Hk) as (E & E1 & E2 & Hf). rewrite corner_routes; cbn [token]; rewrite ?E; try done.
  - apply Z.eqb_neq. intros Hw. rewrite Hw in E1. assert (multishot_sentinel_slot WAKE_FD_USER_DATA = 65535) by done.
    destruct Hk as [Hs _]. unfold ranged in Hs. lia.
  - apply Z.eqb_neq. intros Hw. rewrite Hw in E. vm_compute in E. done.
  - apply Z.eqb_neq. intros Hw. rewrite Hw in E. vm_compute in E. done.
Qed.

Lemma trace_app t q1 q2 : trace t (q1 ++ q2) = trace t q1 ++ trace t q2.
Proof. unfold trace. by rewrite list.filter_app, fmap_app. Qed.

Lemma trace_other t c : token c <> t -> trace t [c] = [].
Proof. intros H. unfold trace. rewrite list.filter_cons, decide_False by done. done. Qed.

Lemma trace_same t c : token c = t -> trace t [c] = [kind c].
Proof. intros H. unfold trace. rewrite list.filter_cons, decide_True by done. done. Qed.

Lemma trace_primary t q : Forall (fun c => primary_of t c = false) q -> Forall (fun k => k = CNotif) (trace t q).
Proof.
  intros H. unfold trace. apply Forall_fmap, Forall_forall. intros c [Ht Hc]%list_elem_of_filter. rewrite Forall_forall in H.
  specialize (H c Hc). unfold primary_of in H. rewrite Ht, Z.eqb_refl in H. cbn in H. apply negb_false_iff in H. unfold compose, kind. by rewrite H.
Qed.

End InflightInv.

(** * Moving one tracked operation

    How each group of the in-flight invariant survives a change confined to the
    slot of one tracked token: the token moves to another stage, or its slot is
    released and the token is no longer tracked. *)

From stdpp Require Import base tactics option list numbers gmap.

Local Open Scope Z_scope.

Module InflightGroups.
Import IoTokens Inflight InflightSpec Seam BufFuture SeamDrain InflightProto SeamSpec InflightInv.

(** Every token tracked in [m'] is tracked in [m], at the same slot and
    generation. *)
Definition carries (s : InflightBufSlab) (m : tracking) (s' : InflightBufSlab) (m' : tracking) : Prop :=
  forall t x', m' !! t = Some x' -> exists x, m !! t = Some x /\ t_slot x' = t_slot x /\ e_gen (ent s' x') = e_gen (ent s x).

Lemma carries_refl s m : carries s m s m.
Proof. intros t x H. by exists x. Qed.

Lemma carries_names s m s' m' t x' sent : carries s m s' m' -> m' !! t = Some x' -> names s' (t_slot x') sent ->
  exists x, m !! t = Some x /\ names s (t_slot x) sent.
Proof. intros C H N. destruct (C t x' H) as (x & Hx & Hs & Hg). exists x. split; [done|]. unfold names, ent in *. rewrite N, Hg. by rewrite Hs. Qed.

Lemma CI_carries s m s' m' xs xs' : CI s m xs -> carries s m s' m' -> (forall p, p ∈ xs' -> p ∈ xs) -> CI s' m' xs'.
Proof.
  intros [C1 C2] C Hsub. split; [intros t sent H; by apply (C1 t), Hsub|]. intros t sent H t' x' H' N.
  destruct (carries_names _ _ _ _ _ _ _ C H' N) as (x & Hx & Nx). by apply (C2 t sent (Hsub _ H) t' x).
Qed.

Section local.
Context (s s' : InflightBufSlab) (m : tracking) (wk : gmap Z WakeSlot) (t : Z) (x : tracked).
Context (HS : SI s m wk) (Hx : m !! t = Some x) (W' : wf s') (Ho : owner s' = owner s).
Context (Hj : forall j, ranged j -> j <> t_slot x -> at_ s' j = at_ s j).

Lemma ent_other t' x' : t' <> t -> m !! t' = Some x' -> ent s' x' = ent s x'.
Proof.
  intros Hne H'. destruct (si_tok _ _ _ HS t' x' H') as (_ & Hr & _). apply Hj; [done|]. intros E. apply Hne.
  by apply (slot_inj s m wk HS t' t x' x).
Qed.

(** ** Released *)

Section untrack.
Context (Hfree : e_occ (ent s' x) = false).

Lemma carries_untrack : carries s m s' (delete t m).
Proof. intros t' x' H'. apply lookup_delete_Some in H' as [Hne H']. exists x'. split; [done|]. split; [done|]. by rewrite (ent_other t' x'). Qed.

Lemma SI_untrack wk' : (forall t', t' <> t -> wk' !! t' = wk !! t') -> SI s' (delete t m) wk'.
Proof.
  intros Hwk. destruct HS as [W Ht Hocc Hw]. split; [done|..].
  - intros t' x' H'. apply lookup_delete_Some in H' as [Hne H']. rewrite (ent_other t' x') by done. by apply Ht.
  - intros i Hi Hoc. destruct (decide (i = t_slot x)) as [->|Hne]; [unfold ent in Hfree; congruence|].
    rewrite Hj in Hoc |- * by done. destruct (Hocc i Hi Hoc) as (x' & H' & Hs). exists x'. split; [|done].
    apply lookup_delete_Some. split; [|done]. intros ->. rewrite H' in Hx. injection Hx as ->. done.
  - intros t' x' H' He. apply lookup_delete_Some in H' as [Hne H']. rewrite Hwk by done. by apply (Hw t' x').
Qed.

Lemma OI_untrack os : OI s m os -> held (t_stage x) = None -> OI s' (delete t m) os.
Proof.
  intros [O1 O2 O3] Hh. split; [|done|].
  - intros o Ho'. destruct (O1 o Ho') as (x' & H' & H1 & H2 & H3 & H4). assert (k_tok o <> t) as Hne.
    { intros E. rewrite E, Hx in H'. injection H' as <-. congruence. }
    exists x'. rewrite (ent_other (k_tok o) x') by done. split; [by apply lookup_delete_Some|done].
  - intros t' x' p H' Hp. apply lookup_delete_Some in H' as [_ H']. by apply (O3 t' x' p).
Qed.

Lemma QI_untrack q q' : QI s m q -> (forall t', task_token t' -> t' <> t -> trace t' q' = trace t' q) ->
  trace t q' = [] -> (forall c, c ∈ q' -> c ∈ q) -> (exists l, q = l ++ q') -> QI s' (delete t m) q'.
Proof.
  intros [Q1 Q2 Q3] Ht' Ht Hsub [l Hl]. split.
  - intros t' Htt. destruct (decide (t' = t)) as [->|Hne]; [by rewrite lookup_delete_eq|]. rewrite lookup_delete_ne by done. rewrite Ht' by done. by apply Q1.
  - intros c Hc. by apply Q2, Hsub.
  - intros l1 c l2 E Hr t' x' H' N. destruct (carries_names _ _ _ _ _ _ _ carries_untrack H' N) as (x0 & H0 & N0).
    apply lookup_delete_Some in H' as [_ H']. rewrite H' in H0. injection H0 as <-.
    apply (Q3 (l ++ l1) c l2); [by rewrite Hl, E, app_assoc|done..].
Qed.

Lemma WI_untrack cs q cs' q' : WI s m cs q ->
  (forall c key, c ∈ cs' -> fkey (c_fut c) = Some key -> c ∈ cs /\ op_token key <> t) ->
  (forall c, c ∈ cs' -> fut_ok (c_fut c) /\ task_token (c_tok c)) ->
  (forall key, key ∈ q' -> key ∈ q /\ op_token key <> t) ->
  NoDup (held_tokens cs' ++ (op_token <$> q')) ->
  (forall t', t' <> t -> t' ∈ held_tokens cs ++ (op_token <$> q) -> t' ∈ held_tokens cs' ++ (op_token <$> q')) ->
  WI s' (delete t m) cs' q'.
Proof.
  intros [W1 W2 W3 W4 W5] Hc Hf Hq Hnd Hcl.
  assert (forall t' key, owned s m t' key -> t' <> t -> owned s' (delete t m) t' key) as Hown.
  { intros t' key (E & Hw & x' & H' & H1 & H2 & H3) Hne. split; [done|]. split; [by rewrite Ho|]. exists x'.
    rewrite (ent_other t' x') by done. split; [by apply lookup_delete_Some|done]. }
  split; [|done| |done|].
  - intros c key Hin Hk. destruct (Hc c key Hin Hk) as [Hin' Hne]. destruct (W1 c key Hin' Hk) as [Hown' Hz].
    assert (c_tok c <> t) as Hct by (destruct Hown' as [E _]; congruence). split; [by apply Hown|].
    intros Hn. destruct (Hz Hn) as (x' & H' & Hzc). exists x'. split; [by apply lookup_delete_Some|done].
  - intros key Hin. destruct (Hq key Hin) as [Hin' Hne]. by apply Hown; [apply W3|].
  - intros t' x' H' Hr. apply lookup_delete_Some in H' as [Hne H']. rewrite (ent_other t' x') in Hr by done. apply Hcl; [done|]. by apply (W5 t' x').
Qed.

Lemma NI_untrack cs cs' wn : NI m cs wn -> (forall c key, c ∈ cs' -> fkey (c_fut c) = Some key -> c ∈ cs) -> NI (delete t m) cs' wn.
Proof.
  intros [N1 N2] Hc. split; [done|]. intros t' ws c key x' Hw Hin Ht Hold Hk H'. apply lookup_delete_Some in H' as [_ H'].
  by apply (N2 t' ws c key x' Hw (Hc c key Hin Hk)).
Qed.

Lemma LI_untrack xs q q' : LI s m xs q -> (forall c, c ∈ q -> c ∈ q' \/ result c <> CANCEL_TARGET_GONE \/ ~ (exists t' x', t' <> t /\ m !! t' = Some x' /\ names s (t_slot x') (token c))) ->
  LI s' (delete t m) xs q'.
Proof.
  intros HL Hq t' x' H' Hr Hov. apply lookup_delete_Some in H' as [Hne H']. pose proof (ent_other t' x' (not_eq_sym Hne) H') as E. rewrite E in Hr.
  assert (forall sent, names s (t_slot x') sent -> names s' (t_slot x') sent) as Hn by (intros sent Hn; unfold names, ent in *; by rewrite E).
  destruct (HL t' x' H' Hr Hov) as [(sent & Hin & N)|(c & Hin & Hg & N)]; [left; exists sent; auto|].
  destruct (Hq c Hin) as [Hin'|[Hb|Hb]]; [right; exists c; auto|done|]. destruct Hb. exists t', x'. split; [congruence|done].
Qed.

End untrack.

(** ** Moved to another stage *)

Section retrack.
Context (x' : tracked) (Hslot : t_slot x' = t_slot x) (Hzc : t_zc x' = t_zc x) (Hgen : e_gen (ent s' x) = e_gen (ent s x)).

Lemma ent_moved : ent s' x' = ent s' x.
Proof. unfold ent. by rewrite Hslot. Qed.

Lemma carries_retrack : carries s m s' (<[t := x']> m).
Proof.
  intros t' x0 H'. destruct (decide (t' = t)) as [->|Hne].
  - rewrite lookup_insert_eq in H'. injection H' as <-. exists x. by rewrite ent_moved.
  - rewrite lookup_insert_ne in H' by done. exists x0. by rewrite (ent_other t' x0).
Qed.

Lemma SI_retrack wk' : (forall t', t' <> t -> wk' !! t' = wk !! t') ->
  e_occ (ent s' x) = true -> e_tok (ent s' x) = t -> e_exp (ent s' x) = expects (t_stage x') ->
  e_rdy (ent s' x) = released (t_stage x') -> stage_ok (t_zc x) (t_stage x') ->
  (expects (t_stage x') = true -> exists ws, wk' !! t = Some ws /\ contains (ws_flags ws) MORE = true) ->
  SI s' (<[t := x']> m) wk'.
Proof.
  intros Hwk E1 E2 E3 E4 E5 E6. destruct HS as [W Ht Hocc Hw]. split; [done|..].
  - intros t' x0 H'. destruct (decide (t' = t)) as [->|Hne].
    + rewrite lookup_insert_eq in H'. injection H' as <-. rewrite ent_moved, Hslot, Hzc. destruct (Ht t x Hx) as (? & ? & _). done.
    + rewrite lookup_insert_ne in H' by done. rewrite (ent_other t' x0) by done. by apply Ht.
  - intros i Hi Hoc. destruct (decide (i = t_slot x)) as [->|Hne].
    + unfold ent in E2. rewrite E2. exists x'. by rewrite lookup_insert_eq.
    + rewrite Hj in Hoc |- * by done. destruct (Hocc i Hi Hoc) as (x0 & H' & Hs). exists x0. split; [|done].
      rewrite lookup_insert_ne; [done|]. intros ->. rewrite H' in Hx. injection Hx as ->. done.
  - intros t' x0 H' He. destruct (decide (t' = t)) as [->|Hne].
    + rewrite lookup_insert_eq in H'. injection H' as <-. by apply E6.
    + rewrite lookup_insert_ne in H' by done. rewrite Hwk by done. by apply (Hw t' x0).
Qed.

Lemma OI_retrack os os' : OI s m os ->
  (forall o, o ∈ os' -> k_tok o <> t -> o ∈ os) ->
  (forall o, o ∈ os' -> k_tok o = t -> k_slot o = t_slot x /\ k_zc o = t_zc x /\ held (t_stage x') = Some (k_phase o) /\ k_gen o = e_gen (ent s x)) ->
  NoDup (k_tok <$> os') ->
  (forall t', t' <> t -> t' ∈ k_tok <$> os -> t' ∈ k_tok <$> os') ->
  (forall p, held (t_stage x') = Some p -> t ∈ k_tok <$> os') ->
  OI s' (<[t := x']> m) os'.
Proof.
  intros [O1 O2 O3] Ha Hb Hn Hc Hd. split; [|done|].
  - intros o Hin. destruct (decide (k_tok o = t)) as [E|Hne].
    + destruct (Hb o Hin E) as (H1 & H2 & H3 & H4). exists x'. rewrite E, lookup_insert_eq, ent_moved, Hslot, Hzc, Hgen. done.
    + destruct (O1 o (Ha o Hin Hne)) as (x0 & H' & H1). exists x0. rewrite lookup_insert_ne, (ent_other (k_tok o) x0) by done. done.
  - intros t' x0 p H' Hp. destruct (decide (t' = t)) as [->|Hne].
    + rewrite lookup_insert_eq in H'. injection H' as <-. by apply (Hd p).
    + rewrite lookup_insert_ne in H' by done. apply Hc; [done|]. by apply (O3 t' x0 p).
Qed.

(** The kernel's side did not move. *)
Lemma OI_still os : OI s m os -> held (t_stage x') = held (t_stage x) -> OI s' (<[t := x']> m) os.
Proof.
  intros HO Hh. apply (OI_retrack os os HO); [done| |apply HO|done|].
  - intros o Hin E. destruct (oi_op _ _ _ HO o Hin) as (x0 & H' & H1 & H2 & H3 & H4). rewrite E, Hx in H'. injection H' as <-. by rewrite Hh.
  - intros p Hp. rewrite Hh in Hp. by apply (oi_held _ _ _ HO t x p).
Qed.

Lemma QI_retrack q q' : QI s m q -> (forall t', task_token t' -> t' <> t -> trace t' q' = trace t' q) ->
  trace t q' = queued (t_stage x') ->
  (forall c, c ∈ q' -> c ∈ q \/ buf_id c = None /\ task_token (token c)) ->
  (forall l1 c l2, q' = l1 ++ c :: l2 -> result c = CANCEL_TARGET_GONE -> forall t0 x0, m !! t0 = Some x0 -> names s (t_slot x0) (token c) ->
     (t_stage x0 <> SRun /\ t_stage x' <> SRun) /\ Forall (fun c' => primary_of t0 c' = false) l2) ->
  QI s' (<[t := x']> m) q'.
Proof.
  intros [Q1 Q2 Q3] Ht' Ht Hsub Hg. split.
  - intros t' Htt. destruct (decide (t' = t)) as [->|Hne]; [by rewrite lookup_insert_eq|]. rewrite lookup_insert_ne by done. rewrite Ht' by done. by apply Q1.
  - intros c Hc. destruct (Hsub c Hc) as [?|[? ?]]; [by apply Q2|split; [done|by left]].
  - intros l1 c l2 E Hr t' x0 H' N. destruct (carries_names _ _ _ _ _ _ _ carries_retrack H' N) as (x1 & H1 & N1).
    destruct (Hg l1 c l2 E Hr t' x1 H1 N1) as [[Ha Hb] HF]. split; [|done].
    destruct (decide (t' = t)) as [->|Hne]; [rewrite lookup_insert_eq in H'; by injection H' as <-|].
    rewrite lookup_insert_ne in H' by done. rewrite H' in H1. by injection H1 as <-.
Qed.

Lemma owned_retrack t' key : owned s m t' key -> (t' = t -> e_ret (ent s' x) = false) -> owned s' (<[t := x']> m) t' key.
Proof.
  intros (E & Hw & x0 & H' & H1 & H2 & H3) Hr. split; [done|]. split; [by rewrite Ho|]. destruct (decide (t' = t)) as [->|Hne].
  - exists x'. rewrite lookup_insert_eq, ent_moved, Hslot, Hgen. rewrite Hx in H'. injection H' as <-. split; [done|]. split; [done|]. split; [done|]. by apply Hr.
  - exists x0. rewrite lookup_insert_ne, (ent_other t' x0) by done. done.
Qed.

Lemma zc_retrack t' x0 : m !! t' = Some x0 -> t_zc x0 = false -> exists x1, (<[t := x']> m) !! t' = Some x1 /\ t_zc x1 = false.
Proof.
  intros H' Hz. destruct (decide (t' = t)) as [->|Hne].
  - exists x'. rewrite lookup_insert_eq. rewrite Hx in H'. injection H' as <-. split; [done|congruence].
  - exists x0. by rewrite lookup_insert_ne.
Qed.

Lemma WI_retrack cs q : WI s m cs q -> e_ret (ent s' x) = e_ret (ent s x) -> WI s' (<[t := x']> m) cs q.
Proof.
  intros [W1 W2 W3 W4 W5] Hret.
  assert (forall t' key, owned s m t' key -> owned s' (<[t := x']> m) t' key) as Hown.
  { intros t' key Hk. apply owned_retrack; [done|]. intros ->. rewrite Hret. destruct Hk as (_ & _ & x0 & H' & _ & _ & H3). rewrite Hx in H'. by injection H' as <-. }
  split; [|done|by intros key ?; apply Hown, W3|done|].
  - intros c key Hin Hk. destruct (W1 c key Hin Hk) as [Hk' Hz]. split; [by apply Hown|]. intros Hn. destruct (Hz Hn) as (x0 & H' & Hz0). by apply (zc_retrack _ x0).
  - intros t' x0 H' Hr. destruct (decide (t' = t)) as [->|Hne].
    + rewrite lookup_insert_eq in H'. injection H' as <-. rewrite ent_moved, Hret in Hr. by apply (W5 t x).
    + rewrite lookup_insert_ne in H' by done. rewrite (ent_other t' x0) in Hr by done. by apply (W5 t' x0).
Qed.

Lemma NI_retrack cs wn : NI m cs wn ->
  (late (t_stage x) = true -> late (t_stage x') = true /\ (expects (t_stage x') = true -> expects (t_stage x) = true)) ->
  NI (<[t := x']> m) cs wn.
Proof.
  intros [N1 N2] Hl. split; [done|]. intros t' ws c key x0 Hw Hin Ht Hold Hk H'. destruct (decide (t' = t)) as [->|Hne].
  - rewrite lookup_insert_eq in H'. injection H' as <-. destruct (N2 t ws c key x Hw Hin Ht Hold Hk Hx) as [Ha Hb]. destruct (Hl Ha) as [Hc Hd]. auto.
  - rewrite lookup_insert_ne in H' by done. by apply (N2 t' ws c key x0).
Qed.

(** [LI] for the other tokens, and for [t] as given. *)
Lemma LI_retrack xs q xs' q' : LI s m xs q ->
  (forall p, p ∈ xs -> p ∈ xs' \/ p.1 = t) ->
  (forall c, c ∈ q -> c ∈ q' \/ result c <> CANCEL_TARGET_GONE \/ ~ (exists t' x0, t' <> t /\ m !! t' = Some x0 /\ names s (t_slot x0) (token c))) ->
  (e_ret (ent s' x) = true -> over (t_stage x') = true ->
     (exists sent, (t, sent) ∈ xs' /\ names s' (t_slot x) sent) \/
     (exists c, c ∈ q' /\ result c = CANCEL_TARGET_GONE /\ names s' (t_slot x) (token c))) ->
  LI s' (<[t := x']> m) xs' q'.
Proof.
  intros HL Hxs Hq Ht t' x0 H' Hr Hov. destruct (decide (t' = t)) as [->|Hne].
  - rewrite lookup_insert_eq in H'. injection H' as <-. rewrite ent_moved in Hr. rewrite Hslot. by apply Ht.
  - rewrite lookup_insert_ne in H' by done. pose proof (ent_other t' x0 Hne H') as E. rewrite E in Hr.
    assert (forall sent, names s (t_slot x0) sent -> names s' (t_slot x0) sent) as Hn by (intros sent Hn; unfold names, ent in *; by rewrite E).
    destruct (HL t' x0 H' Hr Hov) as [(sent & Hin & N)|(c & Hin & Hg & N)].
    + left. destruct (Hxs _ Hin) as [?|?]; [exists sent; auto|done].
    + destruct (Hq c Hin) as [Hin'|[Hb|Hb]]; [right; exists c; auto|done|]. destruct Hb. by exists t', x0.
Qed.

End retrack.
End local.
End InflightGroups.
