(* ===== verification/InflightSafe.v ===== *)
(** * The in-flight invariant is preserved

    Every step of the in-flight protocol taken under the token and wake
    disciplines preserves the invariant, and, when the driver accepts every
    cancel, the promise that a retired slot still has a signal on its way. *)

From S2P Require Import Prelude Words Bitmap IoTokens InflightSlab InflightSpec Seam InflightProto SeamSpec InflightInv.
From stdpp Require Import base tactics option list numbers gmap.

Local Open Scope Z_scope.

Module InflightSafe.
Import IoTokens Inflight InflightSpec Seam BufFuture SeamDrain InflightProto SeamSpec InflightInv InflightGroups.

Lemma task_not_sentinel s i t : wf s -> ranged i -> task_token t -> ~ names s i t.
Proof.
  intros W Hi Ht N. unfold names in N. rewrite N in Ht. revert Ht. apply sentinel_not_task. split; [done|]. cbn.
  by destruct (wf_entry s W i Hi) as (_ & [? _] & _).
Qed.

(** ** Completions appended and removed *)

Section queue.
Context (s : InflightBufSlab) (m : tracking) (wk : gmap Z WakeSlot) (q : list Completion) (HS : SI s m wk) (HQ : QI s m q).

(** A completion of [t] posted by the kernel names no slot, and is a first
    completion only of a running operation. *)
Lemma gone_post t x c1 l1 c l2 : m !! t = Some x -> token c1 = t -> (is_notif c1 = true \/ t_stage x = SRun) ->
  q ++ [c1] = l1 ++ c :: l2 -> result c = CANCEL_TARGET_GONE -> forall t0 x0, m !! t0 = Some x0 -> names s (t_slot x0) (token c) ->
  t_stage x0 <> SRun /\ Forall (fun c' => primary_of t0 c' = false) l2.
Proof.
  intros Hx Htok Hk E Hr t0 x0 H0 N. destruct (si_tok _ _ _ HS t x Hx) as (Ht & _). destruct (si_tok _ _ _ HS t0 x0 H0) as (_ & Hr0 & _).
  destruct l2 as [|c2 l2 _] using rev_ind.
  - apply app_inj_tail in E as [-> <-]. destruct (task_not_sentinel s (t_slot x0) (token c1) (si_wf _ _ _ HS) Hr0); [by rewrite Htok|done].
  - rewrite app_comm_cons, app_assoc in E. apply app_inj_tail in E as [E <-].
    destruct (qi_gone _ _ _ HQ l1 c l2 E Hr t0 x0 H0 N) as [Hs HF]. split; [done|]. apply Forall_app. split; [done|]. constructor; [|done].
    unfold primary_of. destruct (Z.eqb_spec (token c1) t0) as [Et|]; [|done]. cbn. destruct Hk as [->|Hk]; [done|].
    rewrite <- Et, Htok, Hx in H0. injection H0 as <-. done.
Qed.

Lemma gone_pop c0 q' l1 c l2 : q = c0 :: q' -> q' = l1 ++ c :: l2 -> result c = CANCEL_TARGET_GONE -> forall t0 x0, m !! t0 = Some x0 -> names s (t_slot x0) (token c) ->
  t_stage x0 <> SRun /\ Forall (fun c' => primary_of t0 c' = false) l2.
Proof. intros -> -> Hr t0 x0. by apply (qi_gone _ _ _ HQ (c0 :: l1) c l2). Qed.

(** Popping a completion that is no task's. *)
Lemma QI_pop c0 q' : q = c0 :: q' -> ~ task_token (token c0) -> QI s m q'.
Proof.
  intros E Hn. split.
  - intros t Ht. rewrite <- (qi_trace _ _ _ HQ t Ht), E. change (c0 :: q') with ([c0] ++ q'). rewrite trace_app, trace_other; [done|congruence].
  - intros c Hc. apply (qi_cqe _ _ _ HQ). rewrite E. by right.
  - intros l1 c l2 E'. by apply (gone_pop c0 q' l1 c l2).
Qed.

End queue.

Lemma split_nodup {A B} (f : A -> B) l1 a l2 b : NoDup (f <$> (l1 ++ a :: l2)) -> b ∈ l1 ++ l2 -> f b <> f a.
Proof.
  rewrite fmap_app, fmap_cons. intros Hn Hb E. apply NoDup_app in Hn as (H1 & H2 & H3). apply NoDup_cons in H3 as [H3 _].
  apply elem_of_app in Hb as [Hb|Hb].
  - apply (H2 (f b)); [apply list_elem_of_fmap; eauto|]. rewrite E. apply list_elem_of_here.
  - apply H3. rewrite <- E. apply list_elem_of_fmap. eauto.
Qed.

Lemma split_fmap_nodup {A B} (f : A -> B) l1 a l2 : NoDup (f <$> (l1 ++ a :: l2)) -> NoDup (f <$> (l1 ++ l2)).
Proof.
  rewrite !fmap_app, fmap_cons. intros Hn. apply NoDup_app in Hn as (H1 & H2 & H3). apply NoDup_cons in H3 as [_ H3]. apply NoDup_app.
  split; [done|]. split; [|done]. intros z Hz Hz'. apply (H2 z Hz). by right.
Qed.

(** ** The kernel's steps *)

Section kernel.
Context (y : sys) (m : tracking) (HI : Inv y m).

(** The operation [o] moves its token to stage [st], posting [c1]. *)
Lemma post_inv os1 o os2 os' st c1 x :
  ops y = os1 ++ o :: os2 -> m !! k_tok o = Some x -> token c1 = k_tok o -> buf_id c1 = None ->
  (is_notif c1 = true \/ t_stage x = SRun) -> stage_ok (t_zc x) st -> expects st = expects (t_stage x) -> released st = released (t_stage x) -> st <> SRun ->
  queued st = queued (t_stage x) ++ [kind c1] -> over (t_stage x) = false ->
  (late (t_stage x) = true -> late st = true /\ (expects st = true -> expects (t_stage x) = true)) ->
  (os' = os1 ++ os2 /\ held st = None \/
   exists o', os' = os1 ++ o' :: os2 /\ k_tok o' = k_tok o /\ k_slot o' = k_slot o /\ k_zc o' = k_zc o /\ k_gen o' = k_gen o /\ held st = Some (k_phase o')) ->
  (over st = true -> False) ->
  let y' := mkSys (slab y) (inbox y) os' (cancels y) (cq y ++ [c1]) (clients y) (wake y) (window y) in
  let m' := <[k_tok o := mkT (t_slot x) (t_zc x) st]> m in
  Inv y' m' /\ (Loss y m -> Loss y' m').
Proof.
  intros Eo Hx Htok Hbuf Hk Hok Hexp Hrel Hst Hq Hov Hlate Hos Hno y' m'. destruct HI as [HS HO HQ HW HC HN].
  set (t := k_tok o) in *. set (x' := mkT (t_slot x) (t_zc x) st) in *.
  destruct (si_tok _ _ _ HS t x Hx) as (Ht & Hr & T1 & T2 & T3 & T4 & T5).
  assert (o ∈ ops y) as Hoin by (rewrite Eo; apply elem_of_app; right; apply list_elem_of_here).
  destruct (oi_op _ _ _ HO o Hoin) as (x0 & Hx0 & O1 & O2 & O3 & O4). fold t in Hx0. rewrite Hx in Hx0. injection Hx0 as <-.
  pose proof (oi_nodup _ _ _ HO) as Hnd. rewrite Eo in Hnd.
  assert (Hj : forall j, ranged j -> j <> t_slot x -> at_ (slab y) j = at_ (slab y) j) by done.
  split; [split; cbn|].
  - apply (SI_retrack (slab y) (slab y) m (wake y) t x HS Hx (si_wf _ _ _ HS) Hj x' eq_refl eq_refl); try done; [by rewrite T3|by rewrite T4|].
    intros He. cbn [x' t_stage] in He. rewrite Hexp in He. by apply (si_wake _ _ _ HS t x).
  - apply (OI_retrack (slab y) (slab y) m (wake y) t x HS Hx Hj x' eq_refl eq_refl eq_refl (ops y) os' HO).
    + intros o1 Hin Hne. rewrite Eo. destruct Hos as [[-> _]|(o' & -> & E' & _)].
      * apply elem_of_app. apply elem_of_app in Hin as [?|?]; [by left|right; by right].
      * apply elem_of_app. apply elem_of_app in Hin as [?|Hin]; [by left|]. apply elem_of_cons in Hin as [->|?]; [congruence|right; by right].
    + intros o1 Hin E. destruct Hos as [[-> _]|(o' & -> & E1 & E2 & E3 & E4 & E5)].
      * destruct (split_nodup k_tok os1 o os2 o1 Hnd Hin E).
      * assert (o1 = o') as ->.
        { apply elem_of_app in Hin as [Hin|Hin]; [|apply elem_of_cons in Hin as [->|Hin]; [done|]];
            destruct (split_nodup k_tok os1 o os2 o1 Hnd ltac:(apply elem_of_app; auto) E). }
        rewrite E2, E3, E4, O1, O2, O4. cbn [t_stage x']. done.
    + destruct Hos as [[-> _]|(o' & -> & E1 & _)]; [by apply (split_fmap_nodup k_tok os1 o)|].
      rewrite fmap_app, fmap_cons in Hnd |- *. by rewrite E1.
    + intros t' Hne Hin. rewrite Eo, fmap_app, fmap_cons in Hin. destruct Hos as [[-> _]|(o' & -> & E1 & _)].
      * rewrite fmap_app. apply elem_of_app. apply elem_of_app in Hin as [?|Hin]; [by left|]. apply elem_of_cons in Hin as [->|?]; [done|by right].
      * rewrite fmap_app, fmap_cons, E1. done.
    + intros p Hp. destruct Hos as [[-> Hn]|(o' & -> & E1 & _)]; [cbn in Hp; congruence|].
      rewrite fmap_app, fmap_cons, E1. apply elem_of_app. right. apply list_elem_of_here.
  - apply (QI_retrack (slab y) (slab y) m (wake y) t x HS Hx Hj x' eq_refl eq_refl (cq y) _ HQ).
    + intros t' Ht' Hne. rewrite trace_app, (trace_other t' c1), app_nil_r; [done|congruence].
    + rewrite trace_app, (qi_trace _ _ _ HQ t Ht), Hx, (trace_same t c1 Htok). by rewrite <- Hq.
    + intros c Hc. apply elem_of_app in Hc as [?|Hc]; [by left|right]. apply list_elem_of_singleton in Hc as ->. by rewrite Htok.
    + intros l1 c l2 E Hres t0 x0 H0 N. destruct (gone_post (slab y) m (wake y) (cq y) HS HQ t x c1 l1 c l2 Hx Htok Hk E Hres t0 x0 H0 N) as [Ha Hb].
      by split.
  - apply (WI_retrack (slab y) (slab y) m (wake y) t x HS Hx eq_refl Hj x' eq_refl eq_refl eq_refl _ _ HW eq_refl).
  - eapply CI_carries; [exact HC| |done]. apply (carries_retrack (slab y) (slab y) m (wake y) t x HS Hx Hj x'); done.
  - by apply (NI_retrack m t x Hx x').
  - intros HL. unfold Loss in *. cbn. apply (LI_retrack (slab y) (slab y) m (wake y) t x HS Hx Hj x' eq_refl (cancels y) (cq y)); [done|by left| |].
    + intros c Hc. left. apply elem_of_app. by left.
    + intros _ Hov'. by destruct Hno.
Qed.

(** A cancel is answered: [-ENOENT] only past the operation's first completion. *)
Lemma cancelled_inv xs1 t sentinel xs2 r :
  cancels y = xs1 ++ (t, sentinel) :: xs2 ->
  (r = CANCEL_TARGET_GONE <-> Forall (fun o => k_tok o = t -> k_phase o = Notifying) (ops y)) ->
  let y' := mkSys (slab y) (inbox y) (ops y) (xs1 ++ xs2) (cq y ++ [mkCqe sentinel r 0 None]) (clients y) (wake y) (window y) in
  Inv y' m /\ (Loss y m -> Loss y' m).
Proof.
  intros Ex Hr y'. destruct HI as [HS HO HQ HW HC HN]. set (c1 := mkCqe sentinel r 0 None) in *.
  assert ((t, sentinel) ∈ cancels y) as Hin by (rewrite Ex; apply elem_of_app; right; apply list_elem_of_here).
  destruct (ci_sent _ _ _ HC t sentinel Hin) as (key & Hkey & Es).
  assert (forall t0, task_token t0 -> token c1 <> t0) as Hne. { intros t0 Ht0 E. cbn in E. subst t0. rewrite Es in Ht0. by destruct (sentinel_not_task key Hkey). }
  split; [split; cbn; try done|].
  - split.
    + intros t0 Ht0. rewrite trace_app, (trace_other t0 c1 (Hne t0 Ht0)), app_nil_r. by apply HQ.
    + intros c Hc. apply elem_of_app in Hc as [Hc|Hc]; [by apply (qi_cqe _ _ _ HQ)|]. apply list_elem_of_singleton in Hc as ->. split; [done|]. right. exists key. done.
    + intros l1 c l2 E Hres t0 x0 H0 N. destruct (si_tok _ _ _ HS t0 x0 H0) as (Ht0 & _). destruct l2 as [|c2 l2 _] using rev_ind.
      * apply app_inj_tail in E as [_ <-]. split; [|done]. intros Hs. cbn in N, Hres. pose proof (ci_tok _ _ _ HC t sentinel Hin t0 x0 H0 N) as ->.
        pose proof (oi_held _ _ _ HO t x0 Running H0) as Hop. rewrite Hs in Hop. specialize (Hop eq_refl).
        apply list_elem_of_fmap in Hop as (o & Eo & Ho').
        destruct (oi_op _ _ _ HO o Ho') as (x1 & H1 & _ & _ & Hh & _). rewrite <- Eo, H0 in H1. injection H1 as <-. rewrite Hs in Hh. injection Hh as Hh.
        apply (proj1 Hr) in Hres. rewrite Forall_forall in Hres. specialize (Hres o Ho' (eq_sym Eo)). congruence.
      * rewrite app_comm_cons, app_assoc in E. apply app_inj_tail in E as [E <-].
        destruct (qi_gone _ _ _ HQ l1 c l2 E Hres t0 x0 H0 N) as [Ha HF]. split; [done|]. apply Forall_app. split; [done|]. constructor; [|done].
        unfold primary_of. destruct (Z.eqb_spec (token c1) t0) as [Et|]; [|done]. by destruct (Hne t0 Ht0).
  - eapply CI_carries; [exact HC|apply carries_refl|]. intros p. rewrite Ex, !elem_of_app, elem_of_cons. tauto.
  - intros HL t0 x0 H0 Hret Hov. cbn. destruct (HL t0 x0 H0 Hret Hov) as [(sent & Hs & N)|(c & Hc & Hg & N)].
    + rewrite Ex in Hs. apply elem_of_app in Hs as [Hs|Hs]; [left; exists sent; split; [apply elem_of_app; by left|done]|].
      apply elem_of_cons in Hs as [Hs|Hs]; [|left; exists sent; split; [apply elem_of_app; by right|done]]. injection Hs as -> ->.
      right. exists c1. split; [apply elem_of_app; right; by apply list_elem_of_singleton|]. split; [|done]. cbn. apply Hr, Forall_forall.
      intros o Ho' Eo. destruct (oi_op _ _ _ HO o Ho') as (x1 & H1 & _ & _ & Hh & _). rewrite Eo, H0 in H1. injection H1 as <-.
      by destruct (t_stage x0).
    + right. exists c. split; [apply elem_of_app; by left|done].
Qed.

End kernel.

(** ** The worker's drains *)

Section drain.
Context (y : sys) (m : tracking) (HI : Inv y m).

(** A retired slot has no live handle. *)
Lemma retired_unheld t x : m !! t = Some x -> e_ret (ent (slab y) x) = true ->
  (forall c key, c ∈ clients y -> fkey (c_fut c) = Some key -> op_token key <> t) /\ (forall key, key ∈ inbox y -> op_token key <> t).
Proof.
  intros Hx Hr. destruct HI as [HS HO HQ HW HC HN]. split.
  - intros c key Hc Hk E. destruct (wi_client _ _ _ _ HW c key Hc Hk) as [(Et & _ & x' & H' & _ & _ & Hf) _].
    rewrite <- Et, E, Hx in H'. injection H' as <-. congruence.
  - intros key Hk E. destruct (wi_inbox _ _ _ _ HW key Hk) as (_ & _ & x' & H' & _ & _ & Hf). rewrite E, Hx in H'. injection H' as <-. congruence.
Qed.

(** Releasing a retired slot whose operation the kernel no longer holds, after
    popping [c] and possibly recording it. *)
Lemma slots_release_inv c q s' wk' t x e' :
  window y = None -> cq y = c :: q -> m !! t = Some x -> e_ret (ent (slab y) x) = true -> held (t_stage x) = None ->
  becomes (slab y) s' (t_slot x) e' -> e_occ e' = false -> fits 64 (e_gen e') -> e_ret e' = false -> e_exp e' = false -> e_rdy e' = false -> e_def e' = None ->
  (forall t', t' <> t -> wk' !! t' = wake y !! t') ->
  trace t q = [] -> (token c = t \/ ~ task_token (token c)) ->
  (result c = CANCEL_TARGET_GONE -> forall t' x', m !! t' = Some x' -> names (slab y) (t_slot x') (token c) -> t' = t) ->
  let y' := mkSys s' (inbox y) (ops y) (cancels y) q (clients y) wk' (window y) in
  Inv y' (delete t m) /\ (Loss y m -> Loss y' (delete t m)).
Proof.
  intros Hwin Eq Hx Hret Hh B E1 E2 E3 E4 E5 E6 Hwk Htr Htok Hgone y'. pose proof HI as [HS HO HQ HW HC HN].
  destruct (si_tok _ _ _ HS t x Hx) as (Ht & Hr & _). destruct (retired_unheld t x Hx Hret) as [Hc Hk].
  assert (wf s') as W'. { eapply becomes_wf; [apply HS|exact B|]. split; [congruence|]. split; done. }
  assert (Hj : forall j, ranged j -> j <> t_slot x -> at_ s' j = at_ (slab y) j). { intros j Hj Hne. rewrite (be_at _ _ _ _ B), decide_False by done. done. }
  assert (e_occ (ent s' x) = false) as Hfree. { unfold ent. rewrite (be_at _ _ _ _ B), decide_True by done. done. }
  assert (forall t', task_token t' -> t' <> t -> trace t' q = trace t' (cq y)) as Htr'.
  { intros t' Ht' Hne. rewrite Eq. change (c :: q) with ([c] ++ q). rewrite trace_app, trace_other; [done|]. destruct Htok as [->|Htok]; congruence. }
  split; [split; cbn|].
  - by apply (SI_untrack (slab y) s' m (wake y) t x HS Hx W' Hj Hfree).
  - by apply (OI_untrack (slab y) s' m (wake y) t x HS Hx Hj).
  - apply (QI_untrack (slab y) s' m (wake y) t x HS Hx Hj (cq y) q HQ Htr' Htr); [intros c' Hc'; rewrite Eq; by right|by exists [c]].
  - apply (WI_untrack (slab y) s' m (wake y) t x HS Hx (be_owner _ _ _ _ B) Hj (clients y) (inbox y) (clients y) (inbox y) HW); try done;
      [intros c' key Hc' Hk'; split; [done|by apply (Hc c')]|apply HW|intros key Hin; split; [done|by apply Hk]|apply HW].
  - eapply CI_carries; [exact HC| |done]. by apply (carries_untrack (slab y) s' m (wake y) t x HS Hx Hj).
  - by apply (NI_untrack m t (clients y)).
  - intros HL. apply (LI_untrack (slab y) s' m (wake y) t x HS Hx Hj (cancels y) (cq y) q HL).
    intros c' Hc'. rewrite Eq in Hc'. apply elem_of_cons in Hc' as [->|?]; [|by left]. right.
    destruct (decide (result c = CANCEL_TARGET_GONE)) as [Hg|]; [|by left]. right. intros (t' & x' & Hne & H' & N). by apply Hne, (Hgone Hg t' x').
Qed.

End drain.
End InflightSafe.
