(* ===== verification/InflightDrain.v ===== *)
(** * The drains preserve the in-flight invariant

    One lemma per arm of [drain_completions] on buffered operations, and the
    drain of the cancel inbox. *)

From S2P Require Import Prelude Words Bitmap IoTokens InflightSlab InflightSpec Seam InflightProto SeamSpec InflightInv InflightSafe.
From stdpp Require Import base tactics option list numbers gmap.

Local Open Scope Z_scope.

Module InflightDrain.
Import IoTokens Inflight InflightSpec Seam BufFuture SeamDrain InflightProto SeamSpec InflightInv InflightGroups InflightSafe.

Section drain.
Context (y : sys) (m : tracking) (HI : Inv y m).
Let HS : SI (slab y) m (wake y) := inv_s y m HI.
Let HQ : QI (slab y) m (cq y) := inv_q y m HI.

(** The occupied slot that carries [t] is the tracked one. *)
Lemma tracked_slot t x i : m !! t = Some x -> ranged i -> e_occ (at_ (slab y) i) = true -> e_tok (at_ (slab y) i) = t -> i = t_slot x.
Proof. intros Hx Hi Ho Ht. destruct (si_occ _ _ _ HS i Hi Ho) as (x' & H' & E). rewrite Ht, Hx in H'. by injection H' as <-. Qed.

(** A completion of [t] at the head of the queue. *)
Lemma head_stage c q t : cq y = c :: q -> token c = t -> task_token t ->
  exists x, m !! t = Some x /\ queued (t_stage x) = kind c :: trace t q.
Proof.
  intros Eq Et Ht. pose proof (qi_trace _ _ _ HQ t Ht) as H. rewrite Eq in H. change (c :: q) with ([c] ++ q) in H.
  rewrite trace_app, (trace_same t c Et) in H. destruct (m !! t) as [x|]; [|done]. by exists x.
Qed.

(** The head completion of [t] is popped and [t] moves to stage [st], its slot
    becoming [e']. *)
Lemma advance_inv c q s' wk' t x e' st :
  window y = None -> cq y = c :: q -> token c = t -> m !! t = Some x -> queued (t_stage x) = kind c :: queued st ->
  becomes (slab y) s' (t_slot x) e' -> e_occ e' = true -> e_tok e' = t -> e_gen e' = e_gen (ent (slab y) x) -> e_ret e' = e_ret (ent (slab y) x) ->
  e_exp e' = expects st -> e_rdy e' = released st -> stage_ok (t_zc x) st -> held st = held (t_stage x) -> st <> SRun ->
  (forall t', t' <> t -> wk' !! t' = wake y !! t') ->
  (expects st = true -> exists ws, wk' !! t = Some ws /\ contains (ws_flags ws) MORE = true) ->
  (over st = true -> e_ret (ent (slab y) x) = false) ->
  let y' := mkSys s' (inbox y) (ops y) (cancels y) q (clients y) wk' (window y) in
  let m' := <[t := mkT (t_slot x) (t_zc x) st]> m in
  Inv y' m' /\ (Loss y m -> Loss y' m').
Proof.
  intros Hwin Eq Et Hx Hq B E1 E2 E3 E4 E5 E6 E7 Hh Hst Hwk Hmore Hret y' m'. pose proof HI as [_ HO _ HW HC HN]. set (x' := mkT (t_slot x) (t_zc x) st) in *.
  destruct (si_tok _ _ _ HS t x Hx) as (Ht & Hr & _).
  assert (ent s' x = e') as Ee. { unfold ent. rewrite (be_at _ _ _ _ B), decide_True by done. done. }
  assert (wf s') as W'.
  { eapply becomes_wf; [apply HS|exact B|]. destruct (wf_entry _ (si_wf _ _ _ HS) _ Hr) as (A1 & A2 & _). destruct (si_tok _ _ _ HS t x Hx) as (_ & _ & Ho & _).
    split; [intros _; by apply A1|]. split; [by rewrite E3|]. rewrite E1. done. }
  assert (Hj : forall j, ranged j -> j <> t_slot x -> at_ s' j = at_ (slab y) j). { intros j Hj Hne. rewrite (be_at _ _ _ _ B), decide_False by done. done. }
  assert (e_gen (ent s' x) = e_gen (ent (slab y) x)) as Hg by (by rewrite Ee).
  split; [split; cbn|].
  - apply (SI_retrack (slab y) s' m (wake y) t x HS Hx W' Hj x' eq_refl eq_refl); rewrite ?Ee; done.
  - apply (OI_still (slab y) s' m (wake y) t x HS Hx Hj x' eq_refl eq_refl Hg (ops y) HO). done.
  - apply (QI_retrack (slab y) s' m (wake y) t x HS Hx Hj x' eq_refl Hg (cq y) q HQ).
    + intros t' _ Hne. rewrite Eq. change (c :: q) with ([c] ++ q). rewrite trace_app, trace_other; [done|congruence].
    + pose proof (qi_trace _ _ _ HQ t Ht) as H. rewrite Eq, Hx in H. change (c :: q) with ([c] ++ q) in H. rewrite trace_app, (trace_same t c Et), Hq in H.
      by injection H as ->.
    + intros c' Hc'. left. rewrite Eq. by right.
    + intros l1 c' l2 E Hres t0 x0 H0 N. destruct (gone_pop (slab y) m (cq y) HQ c q l1 c' l2 Eq E Hres t0 x0 H0 N). by split.
  - apply (WI_retrack (slab y) s' m (wake y) t x HS Hx (be_owner _ _ _ _ B) Hj x' eq_refl eq_refl Hg _ _ HW). by rewrite Ee.
  - eapply CI_carries; [exact HC| |done]. by apply (carries_retrack (slab y) s' m (wake y) t x HS Hx Hj x').
  - split; [apply HN|]. by rewrite Hwin.
  - intros HL. apply (LI_retrack (slab y) s' m (wake y) t x HS Hx Hj x' eq_refl (cancels y) (cq y) (cancels y) q HL); [by left| |].
    + intros c' Hc'. rewrite Eq in Hc'. apply elem_of_cons in Hc' as [->|?]; [right; right|by left].
      intros (t' & x0 & Hne & H' & N). destruct (si_tok _ _ _ HS t' x0 H') as (_ & Hr' & _).
      destruct (task_not_sentinel (slab y) (t_slot x0) (token c) (si_wf _ _ _ HS) Hr'); [by rewrite Et|done].
    + intros Hr' Hov. rewrite Ee, E4, (Hret Hov) in Hr'. done.
Qed.

(** A task's completion names no slot. *)
Lemma task_gone c : task_token (token c) ->
  result c = CANCEL_TARGET_GONE -> forall t' x', m !! t' = Some x' -> names (slab y) (t_slot x') (token c) -> t' = token c.
Proof.
  intros Ht _ t' x' H' N. destruct (si_tok _ _ _ HS t' x' H') as (_ & Hr' & _).
  by destruct (task_not_sentinel (slab y) (t_slot x') (token c) (si_wf _ _ _ HS) Hr' Ht).
Qed.

(** What a drain of the head completion [c] leaves. *)
Definition drained (c : Completion) (q : list Completion) : Prop :=
  exists s' stored m', drain_one (slab y) c = Ret (s', stored) /\
  let y' := mkSys s' (inbox y) (ops y) (cancels y) q (clients y)
    (match stored with Some (t, ws) => <[t := ws]> (wake y) | None => wake y end) (window y) in
  Inv y' m' /\ (Loss y m -> Loss y' m').

Lemma becomes_refl s i : wf s -> becomes s s i (at_ s i).
Proof. intros W. split; [apply W| |done..]. intros j _. case_decide; by subst. Qed.

Lemma insert_other (wk : gmap Z WakeSlot) t ws t' : t' <> t -> <[t := ws]> wk !! t' = wk !! t'.
Proof. intros. by rewrite lookup_insert_ne. Qed.

(** The entry a release leaves. *)
Ltac released_entry := first [done | cbn; unfold wrap, fits; apply Z.mod_pos_bound; lia].

Lemma drain_plain t r fl q : window y = None -> cq y = mkCqe t r fl None :: q -> task_token t ->
  contains fl MORE = false -> contains fl NOTIF = false -> drained (mkCqe t r fl None) q.
Proof.
  intros Hwin Eq Ht Hm Hn. set (c := mkCqe t r fl None) in *. destruct (head_stage c q t Eq eq_refl Ht) as (x & Hx & Hq).
  assert (kind c = CPlain) as Hk. { unfold kind, is_notif, has_more, c. cbn [flags]. by rewrite Hm, Hn. }
  assert (t_stage x = SPlainQ /\ trace t q = []) as [Hst Htr]. { rewrite Hk in Hq. by destruct (t_stage x); inversion Hq. }
  destruct (si_tok _ _ _ HS t x Hx) as (_ & Hr & T1 & T2 & T3 & T4 & T5). rewrite Hst in T3, T4.
  unfold drained, drain_one, c. rewrite task_token_routes, Hn by done. unfold has_more. cbn [flags token]. rewrite Hm. unfold reclaim_dropped_slot.
  destruct (free_by_op_token_spec (slab y) (si_wf _ _ _ HS) t) as (b & d & s' & -> & H). cbn [mbind outcome_bind]. destruct b.
  - destruct H as (i & Hi & Ho & Hret & Hti & _ & B). pose proof (tracked_slot t x i Hx Hi Ho Hti) as ->. do 3 eexists. split; [done|].
    eapply (slots_release_inv y m HI c q s' _ t x _ Hwin Eq Hx Hret); [by rewrite Hst|exact B|released_entry..|intros; by apply insert_other|done|by left|].
    intros Hg t' x' H' N. by apply (task_gone c Ht Hg t' x').
  - destruct H as (-> & _ & Hnone). do 3 eexists. split; [done|].
    apply (advance_inv c q (slab y) _ t x (ent (slab y) x) SEnd Hwin Eq eq_refl Hx);
      [by rewrite Hst, Hk|apply becomes_refl, HS|done|done|done|done|by rewrite T3|by rewrite T4|by right; right; right|by rewrite Hst|done|intros; by apply insert_other|done|].
    intros _. destruct (e_ret (ent (slab y) x)) eqn:Er; [|done]. by destruct (Hnone (t_slot x) Hr T1 Er).
Qed.

Lemma drain_more t r fl q : window y = None -> cq y = mkCqe t r fl None :: q -> task_token t ->
  contains fl MORE = true -> contains fl NOTIF = false -> drained (mkCqe t r fl None) q.
Proof.
  intros Hwin Eq Ht Hm Hn. set (c := mkCqe t r fl None) in *. destruct (head_stage c q t Eq eq_refl Ht) as (x & Hx & Hq).
  assert (kind c = CMore) as Hk. { unfold kind, is_notif, has_more, c. cbn [flags]. by rewrite Hm, Hn. }
  destruct (si_tok _ _ _ HS t x Hx) as (_ & Hr & T1 & T2 & T3 & T4 & T5).
  assert (exists st, queued (t_stage x) = CMore :: queued st /\ held st = held (t_stage x) /\ released (t_stage x) = false /\
    (st = SNotify \/ st = SNotifQ) /\ t_zc x = true) as (st & Hqs & Hh & Hrel & Hst & Hzc).
  { rewrite Hk in Hq. destruct (t_stage x) eqn:E; try done; [exists SNotify|exists SNotifQ]; (split; [done|]); (split; [done|]); (split; [done|]);
      (split; [auto|]); destruct T5 as [?|[?|[?|?]]]; done. }
  unfold drained, drain_one, c. rewrite task_token_routes, Hn by done. unfold has_more. cbn [flags token]. rewrite Hm. unfold mark_notif_expected.
  destruct (mark_notif_expected_spec (slab y) (si_wf _ _ _ HS) t) as (s' & -> & [(i & Hi & Ho & Hti & B)|[_ Hnone]]); cbn [mbind outcome_bind].
  2:{ by destruct (Hnone (t_slot x) Hr T1). }
  pose proof (tracked_slot t x i Hx Hi Ho Hti) as ->. do 3 eexists. split; [done|].
  eapply (advance_inv c q s' _ t x _ st Hwin Eq eq_refl Hx); [by rewrite Hk|exact B|done|done|done|done|by destruct Hst as [-> | ->]| |by left|done|by destruct Hst as [-> | ->]|intros; by apply insert_other| |].
  - cbn [e_rdy]. change (e_rdy (ent (slab y) x) = released st). rewrite T4, Hrel. by destruct Hst as [-> | ->].
  - intros _. exists (mkWs r fl None). by rewrite lookup_insert_eq.
  - by destruct Hst as [-> | ->].
Qed.

Lemma drain_notif t r fl q : window y = None -> cq y = mkCqe t r fl None :: q -> task_token t ->
  contains fl NOTIF = true -> drained (mkCqe t r fl None) q.
Proof.
  intros Hwin Eq Ht Hn. set (c := mkCqe t r fl None) in *. destruct (head_stage c q t Eq eq_refl Ht) as (x & Hx & Hq).
  assert (kind c = CNotif) as Hk. { unfold kind, is_notif, c. cbn [flags]. by rewrite Hn. }
  assert (t_stage x = SNotifQ /\ trace t q = []) as [Hst Htr]. { rewrite Hk in Hq. by destruct (t_stage x); inversion Hq. }
  destruct (si_tok _ _ _ HS t x Hx) as (_ & Hr & T1 & T2 & T3 & T4 & T5). rewrite Hst in T3, T4, T5.
  assert (t_zc x = true) as Hzc by (destruct T5 as [?|[?|[?|?]]]; done).
  unfold drained, drain_one, c. rewrite task_token_routes, Hn by done. cbn [token]. unfold reclaim_notif.
  destruct (free_by_op_token_spec (slab y) (si_wf _ _ _ HS) t) as (b & d & s' & -> & H). cbn [mbind outcome_bind]. destruct b.
  - destruct H as (i & Hi & Ho & Hret & Hti & _ & B). pose proof (tracked_slot t x i Hx Hi Ho Hti) as ->. do 3 eexists. split; [done|].
    eapply (slots_release_inv y m HI c q s' _ t x _ Hwin Eq Hx Hret); [by rewrite Hst|exact B|released_entry..|done|done|by left|].
    intros Hg t' x' H' N. by apply (task_gone c Ht Hg t' x').
  - destruct H as (-> & _ & Hnone). assert (e_ret (ent (slab y) x) = false) as Hret.
    { destruct (e_ret (ent (slab y) x)) eqn:Er; [|done]. by destruct (Hnone (t_slot x) Hr T1 Er). }
    destruct (mark_notif_ready_spec (slab y) (si_wf _ _ _ HS) t) as (s1 & -> & [(i & Hi & Ho & Hti & B)|[_ Hno]]); cbn [mbind outcome_bind].
    2:{ by destruct (Hno (t_slot x) Hr T1). }
    pose proof (tracked_slot t x i Hx Hi Ho Hti) as ->. do 3 eexists. split; [done|].
    eapply (advance_inv c q s1 _ t x _ SRel Hwin Eq eq_refl Hx); [by rewrite Hst, Hk|exact B|done|done|done|done|exact T3|done|by left|by rewrite Hst|done|done| |done].
    intros _. apply (si_wake _ _ _ HS t x Hx). by rewrite Hst.
Qed.

(** Popping a cancel's completion that frees nothing. *)
Lemma pop_cancel_inv key c q : window y = None -> cq y = c :: q -> key_ok key -> token c = encode_cancel_sentinel key ->
  (result c = CANCEL_TARGET_GONE -> forall t x, m !! t = Some x -> names (slab y) (t_slot x) (token c) ->
     e_ret (ent (slab y) x) = true -> over (t_stage x) = true -> False) ->
  let y' := mkSys (slab y) (inbox y) (ops y) (cancels y) q (clients y) (wake y) (window y) in
  Inv y' m /\ (Loss y m -> Loss y' m).
Proof.
  intros Hwin Eq Hk Htok Hno y'. destruct HI as [? ? ? ? ? ?]. split.
  - split; cbn; try done. apply (QI_pop (slab y) m (cq y) HQ c q Eq). rewrite Htok. by apply sentinel_not_task.
  - intros HL t x Hx Hr Hov. cbn. destruct (HL t x Hx Hr Hov) as [?|(c' & Hc' & Hg & N)]; [by left|]. rewrite Eq in Hc'.
    apply elem_of_cons in Hc' as [->|?]; [|right; by exists c']. by destruct (Hno Hg t x Hx N Hr Hov).
Qed.

Lemma drain_cancelled key c q : window y = None -> cq y = c :: q -> key_ok key -> token c = encode_cancel_sentinel key -> is_notif c = false ->
  buf_id c = None -> drained c q.
Proof.
  intros Hwin Eq Hk Htok Hn Hb. unfold drained, drain_one. destruct c as [u r fl b]. cbn [token buf_id] in *. subst u b. rewrite sentinel_routes by done.
  unfold reclaim_cancel_completion. cbn [result token]. set (c := mkCqe (encode_cancel_sentinel key) r fl None) in *.
  destruct (Z.eqb_spec r CANCEL_TARGET_GONE) as [->|Hr]; cbn [negb].
  2:{ cbn [mbind outcome_bind]. do 3 eexists. split; [done|]. apply (pop_cancel_inv key c q Hwin Eq Hk eq_refl). intros Hg. by destruct Hr. }
  destruct (sentinel_corner key Hk) as (_ & F1 & F2 & _). fold (multishot_sentinel_slot (encode_cancel_sentinel key)).
  fold (multishot_sentinel_generation (encode_cancel_sentinel key)). rewrite F1, F2. pose proof Hk as [Hi Hg0].
  assert (0 <= slot key) as H0 by (unfold ranged in Hi; lia).
  destruct (free_if_retire_pending_spec (slab y) (si_wf _ _ _ HS) (slot key) (generation key mod 2 ^ 16) H0) as (d & s' & -> & H). cbn [mbind outcome_bind].
  destruct ((slot key <? cap (slab y)) && reclaimable (at_ (slab y) (slot key)) (generation key mod 2 ^ 16)) eqn:Hrec.
  - apply andb_true_iff in Hrec as [_ Hrec]. unfold reclaimable in Hrec. apply andb_true_iff in Hrec as [Hrec Hnb]. apply andb_true_iff in Hrec as [Hrec Hge].
    apply andb_true_iff in Hrec as [Ho Hret]. apply Z.eqb_eq in Hge. destruct H as [_ B].
    destruct (si_occ _ _ _ HS (slot key) Hi Ho) as (x & Hx & Es). set (t := e_tok (at_ (slab y) (slot key))) in *. clearbody t. rewrite <- Es in *.
    assert (names (slab y) (t_slot x) (token c)) as N. { apply (names_slot (slab y) m (wake y) HS (t_slot x) key Hi Hk). split; [done|]. exact Hge. }
    destruct (qi_gone _ _ _ HQ [] c q Eq eq_refl t x Hx N) as [Hrun HF]. apply trace_primary in HF.
    destruct (si_tok _ _ _ HS t x Hx) as (Ht & Hr & T1 & T2 & T3 & T4 & T5).
    assert (trace t q = queued (t_stage x)) as Htr.
    { pose proof (qi_trace _ _ _ HQ t Ht) as Htr. rewrite Eq, Hx in Htr. change (c :: q) with ([c] ++ q) in Htr. rewrite trace_app, trace_other in Htr; [done|].
      intros E. cbn in E. rewrite <- E in Ht. by destruct (sentinel_not_task key Hk). }
    rewrite Htr in HF. fold (ent (slab y) x) in Hnb. rewrite T3, T4 in Hnb.
    assert (over (t_stage x) = true) as Hov by (destruct (t_stage x); try done; by inversion HF).
    do 3 eexists. split; [done|]. eapply (slots_release_inv y m HI c q s' _ t x _ Hwin Eq Hx Hret);
      [by destruct (t_stage x)|exact B|released_entry..|done|by rewrite Htr; destruct (t_stage x)|right; by apply sentinel_not_task|].
    intros _ t' x' H' N'. destruct (si_tok _ _ _ HS t' x' H') as (_ & Hr' & _).
    pose proof (proj1 (names_slot (slab y) m (wake y) HS (t_slot x') key Hr' Hk) N') as [E' _]. apply (slot_inj (slab y) m (wake y) HS t' t x' x); congruence.
  - destruct H as [_ ->]. do 3 eexists. split; [done|]. apply (pop_cancel_inv key c q Hwin Eq Hk eq_refl). intros _ t x Hx N Hret Hov.
    destruct (si_tok _ _ _ HS t x Hx) as (Ht & Hr & T1 & T2 & T3 & T4 & T5).
    pose proof (proj1 (names_slot (slab y) m (wake y) HS (t_slot x) key Hr Hk) N) as [Es Hge]. rewrite Es in Hrec.
    pose proof (occ_in (slab y) (si_wf _ _ _ HS) (t_slot x) T1 Hr) as Hc. unfold reclaimable in Hrec. fold (ent (slab y) x) in Hrec, Hge.
    rewrite T1, Hret, T3, T4, Hge, Z.eqb_refl in Hrec. destruct (Z.ltb_spec (t_slot x) (cap (slab y))); [|lia]. cbn in Hrec. by destruct (t_stage x).
Qed.

(** ** The cancel inbox *)

Lemma cancel_inv key q accepted : window y = None -> inbox y = key :: q ->
  exists s' x, submit_cancel accepted (slab y) key = Ret (s', x) /\
  let y' := mkSys s' q (ops y) (cancels y ++ option_list x) (cq y) (clients y) (wake y) (window y) in
  Inv y' m /\ (accepted = true -> Loss y m -> Loss y' m).
Proof.
  intros Hwin Eq. pose proof HI as [_ HO _ HW HC HN]. assert (key ∈ inbox y) as Hin by (rewrite Eq; apply list_elem_of_here).
  destruct (wi_inbox _ _ _ _ HW key Hin) as (_ & Hown & x & Hx & Es & Eg & Er). set (t := op_token key) in *.
  destruct (si_tok _ _ _ HS t x Hx) as (Ht & Hr & T1 & T2 & T3 & T4 & T5). assert (0 <= slot key) as H0 by (rewrite Es; unfold ranged in Hr; lia).
  assert (live (slab y) key = true) as Hl.
  { unfold live. rewrite Hown, Z.eqb_refl, Es. pose proof (occ_in (slab y) (si_wf _ _ _ HS) (t_slot x) T1 Hr).
    destruct (Z.ltb_spec (t_slot x) (cap (slab y))); [|lia]. fold (ent (slab y) x). by rewrite T1, Eg, Z.eqb_refl. }
  unfold submit_cancel. destruct (mark_retire_pending_spec (slab y) (si_wf _ _ _ HS) key H0) as (s' & -> & B). rewrite Hl, Es in B. cbn [mbind outcome_bind].
  do 2 eexists. split; [done|]. cbn zeta in B. fold (ent (slab y) x) in B. rewrite T2 in B.
  assert (ent s' x = mkEntry true true (e_exp (ent (slab y) x)) (e_rdy (ent (slab y) x)) (e_gen (ent (slab y) x)) t (e_def (ent (slab y) x))) as Ee.
  { unfold ent. rewrite (be_at _ _ _ _ B), decide_True by done. done. }
  assert (wf s') as W'.
  { eapply becomes_wf; [apply HS|exact B|]. destruct (wf_entry _ (si_wf _ _ _ HS) _ Hr) as (A1 & A2 & _).
    split; [intros _; by apply A1|]. split; [done|]. done. }
  assert (Hj : forall j, ranged j -> j <> t_slot x -> at_ s' j = at_ (slab y) j). { intros j Hj Hne. rewrite (be_at _ _ _ _ B), decide_False by done. done. }
  assert (e_gen (ent s' x) = e_gen (ent (slab y) x)) as Hg by (by rewrite Ee).
  assert (<[t := x]> m = m) as Em by (by apply insert_id). assert (carries (slab y) m s' m) as HCa.
  { rewrite <- Em at 2. by apply (carries_retrack (slab y) s' m (wake y) t x HS Hx Hj x). }
  assert (key_ok key) as Hkey. { split; [by rewrite Es|]. rewrite Eg. apply (tracked_gen (slab y) m (wake y) HS t x Hx). }
  assert (names s' (t_slot x) (encode_cancel_sentinel key)) as Nk.
  { unfold names. fold (ent s' x). rewrite Hg, <- Eg, <- Es. done. }
  split; [split; cbn|].
  - rewrite <- Em. apply (SI_retrack (slab y) s' m (wake y) t x HS Hx W' Hj x eq_refl eq_refl); rewrite ?Ee; try done. intros He. by apply (si_wake _ _ _ HS t x).
  - rewrite <- Em. by apply (OI_still (slab y) s' m (wake y) t x HS Hx Hj x eq_refl eq_refl Hg (ops y) HO).
  - split; [apply HQ|apply HQ|]. intros l1 c l2 E Hres t0 x0 H0' N. destruct (carries_names _ _ _ _ _ _ _ HCa H0' N) as (x1 & H1 & N1).
    rewrite H0' in H1. injection H1 as <-. by apply (qi_gone _ _ _ HQ l1 c l2).
  - destruct HW as [W1 W2 W3 W4 W5]. rewrite Eq, fmap_cons in W4. assert (t ∉ held_tokens (clients y) ++ (op_token <$> q)) as Hnt.
    { intros Hc. rewrite <- Permutation_middle in W4. apply NoDup_cons in W4 as [W4 _]. done. }
    split.
    + intros c k Hc Hk. destruct (W1 c k Hc Hk) as [Ho Hz]. split; [|done]. rewrite <- Em.
      apply (owned_retrack (slab y) s' m (wake y) t x HS Hx (be_owner _ _ _ _ B) Hj x eq_refl Hg); [done|]. intros E. exfalso. apply Hnt, elem_of_app. left.
      apply list_elem_of_omap. exists c. split; [done|]. rewrite Hk. cbn. f_equal. destruct Ho as [-> _]. done.
    + done.
    + intros k Hk. rewrite <- Em. apply (owned_retrack (slab y) s' m (wake y) t x HS Hx (be_owner _ _ _ _ B) Hj x eq_refl Hg); [apply W3; rewrite Eq; by right|].
      intros E. exfalso. apply Hnt, elem_of_app. right. apply list_elem_of_fmap. by exists k.
    + rewrite <- Permutation_middle in W4. by apply NoDup_cons in W4 as [_ ?].
    + intros t' x' H' Hret. destruct (decide (t' = t)) as [->|Hne].
      { rewrite Hx in H'. injection H' as <-. rewrite Ee in Hret. done. }
      rewrite (ent_other (slab y) s' m (wake y) t x HS Hx Hj t' x') in Hret by done. specialize (W5 t' x' H' Hret). rewrite Eq, fmap_cons, elem_of_app, elem_of_cons in W5.
      rewrite elem_of_app. destruct W5 as [?|[?|?]]; [by left|done|by right].
  - split.
    + intros t0 sent Hc. apply elem_of_app in Hc as [Hc|Hc]; [by apply (ci_sent _ _ _ HC t0)|]. destruct accepted; [|by apply elem_of_nil in Hc].
      apply list_elem_of_singleton in Hc. injection Hc as -> ->. by exists key.
    + intros t0 sent Hc t' x' H' N. destruct (carries_names _ _ _ _ _ _ _ HCa H' N) as (x1 & H1 & N1). rewrite H' in H1. injection H1 as <-.
      apply elem_of_app in Hc as [Hc|Hc]; [by apply (ci_tok _ _ _ HC t0 sent Hc t' x')|]. destruct accepted; [|by apply elem_of_nil in Hc].
      apply list_elem_of_singleton in Hc. injection Hc as -> ->. destruct (si_tok _ _ _ HS t' x' H') as (_ & Hr' & _).
      pose proof (proj1 (names_slot (slab y) m (wake y) HS (t_slot x') key Hr' Hkey) N1) as [E' _]. apply (slot_inj (slab y) m (wake y) HS t' t x' x); congruence.
  - split; [apply HN|]. by rewrite Hwin.
  - intros -> HL. unfold Loss. cbn. rewrite <- Em.
    apply (LI_retrack (slab y) s' m (wake y) t x HS Hx Hj x eq_refl (cancels y) (cq y)); [done|intros p Hp; left; apply elem_of_app; by left|by left|].
    intros _ _. left. exists (encode_cancel_sentinel key). split; [|done]. apply elem_of_app. right. by apply list_elem_of_singleton.
Qed.

End drain.
End InflightDrain.

(** * Polls and drops preserve the in-flight invariant

    The steps of the futures: opening and closing a poll window, the first poll
    that submits, the later polls, and the drop that queues a cancel; then the
    invariant of every reachable state. *)

From stdpp Require Import base tactics option list numbers gmap.

Local Open Scope Z_scope.

Module InflightSteps.
Import IoTokens Inflight InflightSpec Seam BufFuture SeamDrain InflightProto SeamSpec InflightInv InflightGroups InflightSafe InflightDrain.

Lemma held_tokens_app cs1 cs2 : held_tokens (cs1 ++ cs2) = held_tokens cs1 ++ held_tokens cs2.
Proof. apply omap_app. Qed.

Lemma held_tokens_cons c cs : held_tokens (c :: cs) = option_list (op_token <$> fkey (c_fut c)) ++ held_tokens cs.
Proof. unfold held_tokens. cbn. by destruct (fkey (c_fut c)). Qed.

Lemma held_tokens_None cs1 c cs2 : fkey (c_fut c) = None -> held_tokens (cs1 ++ c :: cs2) = held_tokens (cs1 ++ cs2).
Proof. intros H. by rewrite !held_tokens_app, held_tokens_cons, H. Qed.

Lemma held_tokens_Some cs1 c cs2 key : fkey (c_fut c) = Some key -> held_tokens (cs1 ++ c :: cs2) ≡ₚ op_token key :: held_tokens (cs1 ++ cs2).
Proof. intros H. rewrite !held_tokens_app, held_tokens_cons, H. cbn. by rewrite Permutation_middle. Qed.

Lemma held_tokens_aged cs : held_tokens ((fun c => mkClient (c_tok c) (c_fut c) true) <$> cs) = held_tokens cs.
Proof. induction cs as [|c cs IH]; [done|]. rewrite fmap_cons, !held_tokens_cons, IH. done. Qed.

Lemma middle_elem {A} (cs1 : list A) c cs2 c' : c' ∈ cs1 ++ c :: cs2 <-> c' = c \/ c' ∈ cs1 ++ cs2.
Proof. rewrite !elem_of_app, elem_of_cons. tauto. Qed.

(** ** The cancel inbox never overflows *)

Lemma NoDup_image {A B C} (f : A -> B) (g : A -> C) l :
  NoDup (f <$> l) -> (forall a b, a ∈ l -> b ∈ l -> g a = g b -> f a = f b) -> NoDup (g <$> l).
Proof.
  induction l as [|a l IH]; intros Hn Hi; [apply NoDup_nil_2|]. rewrite fmap_cons in Hn. rewrite fmap_cons. apply NoDup_cons in Hn as [Ha Hn].
  apply NoDup_cons. split; [|apply IH; [done|]; intros; apply Hi; [by right..|done]].
  intros (b & E & Hb)%list_elem_of_fmap. apply Ha, list_elem_of_fmap. exists b. split; [|done]. apply Hi; [apply list_elem_of_here|by right|done].
Qed.

Section steps.
Context (y : sys) (m : tracking) (HI : Inv y m).
Let HS : SI (slab y) m (wake y) := inv_s y m HI.
Let HO : OI (slab y) m (ops y) := inv_o y m HI.
Let HQ : QI (slab y) m (cq y) := inv_q y m HI.
Let HW : WI (slab y) m (clients y) (inbox y) := inv_w y m HI.
Let HC : CI (slab y) m (cancels y) := inv_c y m HI.
Let HN : NI m (clients y) (window y) := inv_n y m HI.

Lemma inbox_room : (length (inbox y) <= 256)%nat.
Proof.
  pose proof (wi_nodup _ _ _ _ HW) as Hn. apply NoDup_app in Hn as (_ & _ & Hn).
  assert (NoDup (slot <$> inbox y)) as Hs.
  { apply (NoDup_image op_token slot _ Hn). intros a b Ha Hb E.
    destruct (wi_inbox _ _ _ _ HW a Ha) as (_ & _ & xa & Hxa & Ea & _). destruct (wi_inbox _ _ _ _ HW b Hb) as (_ & _ & xb & Hxb & Eb & _).
    apply (slot_inj (slab y) m (wake y) HS _ _ xa xb Hxa Hxb). congruence. }
  assert (slot <$> inbox y ⊆ seqZ 0 256) as Hsub.
  { intros i (a & -> & Ha)%list_elem_of_fmap. destruct (wi_inbox _ _ _ _ HW a Ha) as (_ & _ & xa & Hxa & -> & _).
    apply elem_of_seqZ. destruct (si_tok _ _ _ HS _ _ Hxa) as (_ & Hr & _). unfold ranged in Hr. lia. }
  pose proof (submseteq_length _ _ (NoDup_submseteq _ _ Hs Hsub)) as Hlen. rewrite length_fmap, length_seqZ in Hlen. lia.
Qed.

(** ** Windows *)

(** A settled task's operation is past its first completion. *)
Lemma settled_late t x ws : settled y t -> m !! t = Some x -> wake y !! t = Some ws ->
  late (t_stage x) = true /\ (expects (t_stage x) = true -> contains (ws_flags ws) MORE = true).
Proof.
  intros [Hn|[Hops Hcq]] Hx Hw; [congruence|]. destruct (si_tok _ _ _ HS t x Hx) as (Ht & _). apply trace_primary in Hcq.
  rewrite (qi_trace _ _ _ HQ t Ht), Hx in Hcq. split.
  - assert (t_stage x <> SRun) as Hr.
    { intros E. pose proof (oi_held _ _ _ HO t x Running Hx) as Hop. rewrite E in Hop. specialize (Hop eq_refl). apply list_elem_of_fmap in Hop as (o & Eo & Ho).
      destruct (oi_op _ _ _ HO o Ho) as (x1 & H1 & _ & _ & Hh & _). rewrite <- Eo, Hx in H1. injection H1 as <-. rewrite E in Hh. injection Hh as Hh.
      rewrite Forall_forall in Hops. specialize (Hops o Ho (eq_sym Eo)). congruence. }
    destruct (t_stage x); try done; by inversion Hcq.
  - intros He. destruct (si_wake _ _ _ HS t x Hx He) as (ws' & Hw' & Hm). rewrite Hw in Hw'. by injection Hw' as <-.
Qed.

Lemma open_inv t : window y = None -> task_token t -> settled y t ->
  let y' := mkSys (slab y) (inbox y) (ops y) (cancels y) (cq y) (clients y) (wake y) (Some (t, wake y !! t)) in Inv y' m.
Proof.
  intros _ Ht Hset y'. split; cbn; try done. split; [intros t' w E; by injection E as <- <-|].
  intros t' ws c key x E Hc Htc Hold Hk Hx. injection E as <- Hw. by apply (settled_late t x ws Hset Hx).
Qed.

Lemma close_inv t w : window y = Some (t, w) ->
  let y' := mkSys (slab y) (inbox y) (ops y) (cancels y) (cq y) ((fun c => mkClient (c_tok c) (c_fut c) true) <$> clients y) (wake y) None in Inv y' m.
Proof.
  intros Hw y'. pose proof HW as [W1 W2 W3 W4 W5]. split; cbn; try done.
  pose proof (held_tokens_aged (clients y)) as Eh.
  split; rewrite ?Eh; try done.
  - intros c key (c0 & -> & Hc)%list_elem_of_fmap Hk. apply (W1 c0 key Hc Hk).
  - intros c (c0 & -> & Hc)%list_elem_of_fmap. exact (W2 c0 Hc).
Qed.

Lemma new_inv t w f : window y = Some (t, w) -> fresh_future f ->
  let y' := mkSys (slab y) (inbox y) (ops y) (cancels y) (cq y) (clients y ++ [mkClient t f false]) (wake y) (window y) in Inv y' m.
Proof.
  intros Hw Hf y'. destruct (fresh_future_ok f Hf) as [Hok Hs]. assert (fkey f = None) as Hk.
  { destruct (fkey f) eqn:E; [|done]. destruct Hok as [[_ Hb] _]. rewrite E in Hb. rewrite Hb in Hs by done. done. }
  assert (task_token t) as Ht by (by apply (proj1 HN t w)).
  pose proof HW as [W1 W2 W3 W4 W5]. pose proof HN as HN'. split; cbn; try done.
  - split; rewrite ?held_tokens_app; cbn; rewrite ?Hk, ?app_nil_r; try done.
    + intros c key Hc Hkc. apply elem_of_app in Hc as [Hc|Hc]; [by apply W1|]. apply list_elem_of_singleton in Hc as ->. cbn in Hkc. congruence.
    + intros c Hc. apply elem_of_app in Hc as [Hc|Hc]; [by apply W2|]. by apply list_elem_of_singleton in Hc as ->.
  - split; [apply HN'|]. intros t' ws c key x E Hc. apply elem_of_app in Hc as [Hc|Hc]; [by apply (proj2 HN' t' ws c key x E)|].
    apply list_elem_of_singleton in Hc as ->. cbn. congruence.
Qed.

Lemma drop_inv cs1 c cs2 : clients y = cs1 ++ c :: cs2 ->
  let y' := mkSys (slab y) (drop_future (inbox y) (c_fut c)) (ops y) (cancels y) (cq y) (cs1 ++ cs2) (wake y) (window y) in Inv y' m.
Proof.
  intros Ec y'. pose proof inbox_room as Hroom. pose proof HW as [W1 W2 W3 W4 W5]. pose proof HN as [N1 N2]. rewrite Ec in *.
  assert (forall c', c' ∈ cs1 ++ cs2 -> c' ∈ cs1 ++ c :: cs2) as Hsub by (intros c' Hc'; apply middle_elem; by right).
  split; cbn; try done.
  2:{ split; [done|]. intros t' ws c' key x E Hc'. apply (N2 t' ws c' key x E), Hsub, Hc'. }
  unfold drop_future. destruct (fkey (c_fut c)) as [key|] eqn:Hk.
  - unfold push_cancel. rewrite decide_False by (unfold CANCEL_INBOX_CAPACITY; lia).
    assert (forall l, held_tokens (cs1 ++ cs2) ++ (op_token <$> (l ++ [key])) ≡ₚ held_tokens (cs1 ++ c :: cs2) ++ (op_token <$> l)) as Hp.
    { intros l. rewrite (held_tokens_Some cs1 c cs2 key Hk), fmap_app. cbn. rewrite app_assoc. by rewrite <- Permutation_cons_append. }
    split.
    + intros c' key' Hc'. by apply W1, Hsub.
    + intros c' Hc'. by apply W2, Hsub.
    + intros key' Hk'. apply elem_of_app in Hk' as [Hk'|Hk']; [by apply W3|]. apply list_elem_of_singleton in Hk' as ->.
      destruct (W1 c key) as [Ho _]; [apply middle_elem; by left|done|]. destruct Ho as [E Ho]. by rewrite E.
    + by rewrite Hp.
    + intros t x Hx Hr. rewrite Hp. by apply (W5 t x).
  - rewrite (held_tokens_None cs1 c cs2 Hk) in W4, W5. split; try done.
    + intros c' key' Hc'. by apply W1, Hsub.
    + intros c' Hc'. by apply W2, Hsub.
Qed.

(** ** First polls *)

(** The registry changed quietly; the polled future holds no key. *)
Lemma quiet_inv s' cs' : quiet (slab y) s' ->
  (forall c key, c ∈ cs' -> fkey (c_fut c) = Some key -> c ∈ clients y) ->
  (forall c, c ∈ cs' -> fut_ok (c_fut c) /\ task_token (c_tok c)) -> held_tokens cs' = held_tokens (clients y) ->
  let y' := mkSys s' (inbox y) (ops y) (cancels y) (cq y) cs' (wake y) (window y) in
  Inv y' m /\ (Loss y m -> Loss y' m).
Proof.
  intros [Qw Qo Qc Qocc Qat] Hc Hf Hh y'. pose proof HW as [W1 W2 W3 W4 W5].
  assert (forall t x, m !! t = Some x -> ent s' x = ent (slab y) x) as He.
  { intros t x Hx. destruct (si_tok _ _ _ HS t x Hx) as (_ & Hr & Ho & _). by apply Qat. }
  assert (carries (slab y) m s' m) as Hca by (intros t x Hx; exists x; by rewrite (He t x)).
  assert (forall t x sent, m !! t = Some x -> names s' (t_slot x) sent <-> names (slab y) (t_slot x) sent) as Hnm.
  { intros t x sent Hx. unfold names. pose proof (He t x Hx) as E. unfold ent in E. by rewrite E. }
  assert (forall t key, owned (slab y) m t key -> owned s' m t key) as Hown.
  { intros t key (E & Hw & x & Hx & H1 & H2 & H3). split; [done|]. split; [by rewrite Qo|]. exists x. by rewrite (He t x). }
  split; [split; cbn|].
  - split; [done| | |apply HS].
    + intros t x Hx. rewrite (He t x Hx). by apply HS.
    + intros i Hi Ho. rewrite Qocc in Ho by done. rewrite Qat by done. by apply HS.
  - split; [|apply HO|apply HO]. intros o Ho. destruct (oi_op _ _ _ HO o Ho) as (x & Hx & H). exists x. by rewrite (He _ x Hx).
  - split; [apply HQ|apply HQ|]. intros l1 c l2 E Hres t x Hx N. apply (qi_gone _ _ _ HQ l1 c l2 E Hres t x Hx). by apply (Hnm t x).
  - split; try done.
    + intros c key Hin Hk. destruct (W1 c key (Hc c key Hin Hk) Hk) as [? ?]. split; [by apply Hown|done].
    + intros key Hk. by apply Hown, W3.
    + by rewrite Hh.
    + intros t x Hx Hr. rewrite (He t x Hx) in Hr. rewrite Hh. by apply (W5 t x).
  - by eapply CI_carries.
  - split; [apply HN|]. intros t' ws c key x E Hin Ht Hold Hk. apply (proj2 HN t' ws c key x E (Hc c key Hin Hk)); done.
  - intros HL. unfold Loss, LI, y'. cbn [slab cancels cq]. intros t x Hx Hr Hov. rewrite (He t x Hx) in Hr. destruct (HL t x Hx Hr Hov) as [(sent & ? & N)|(c & ? & ? & N)].
    + left. exists sent. split; [done|]. by apply (Hnm t x).
    + right. exists c. split; [done|]. split; [done|]. by apply (Hnm t x).
Qed.

(** The slot [key] was taken for [t] and handed to the kernel. *)
Lemma taken_inv s' t w key zc f' cs1 c cs2 :
  window y = Some (t, w) -> clients y = cs1 ++ c :: cs2 -> fkey (c_fut c) = None -> taken (slab y) s' t key -> m !! t = None ->
  fkey f' = Some key -> fut_ok f' -> ((forall z, f' <> FZc z) -> zc = false) ->
  ~ outstanding y (encode_cancel_sentinel key) ->
  let y' := mkSys s' (inbox y) (ops y ++ [mkOp t (slot key) (generation key) zc Running]) (cancels y) (cq y)
              (cs1 ++ mkClient t f' false :: cs2) (wake y) (window y) in
  let m' := <[t := mkT (slot key) zc SRun]> m in
  Inv y' m' /\ (Loss y m -> Loss y' m').
Proof.
  intros Hwin Ec Hcn T Hnone Hk Hok Hz Hout y' m'. set (x' := mkT (slot key) zc SRun) in *. pose proof HW as [W1 W2 W3 W4 W5]. pose proof HN as [N1 N2].
  assert (task_token t) as Ht by (by apply (N1 t w)). destruct T as [Tw To Tc Tr Tb Tf Tk Ta].
  assert (forall t0 x0, m !! t0 = Some x0 -> t0 <> t /\ ent s' x0 = ent (slab y) x0) as He.
  { intros t0 x0 Hx. destruct (si_tok _ _ _ HS t0 x0 Hx) as (_ & Hr & Ho & _). split; [congruence|].
    assert (t_slot x0 <> slot key) by (intros E; unfold ent in Ho; rewrite E in Ho; congruence). unfold ent. by rewrite Ta, decide_False. }
  assert (forall t0 x0, m' !! t0 = Some x0 -> t0 = t /\ x0 = x' \/ t0 <> t /\ m !! t0 = Some x0) as Hm'.
  { intros t0 x0 Hx. destruct (decide (t0 = t)) as [->|Hne]; [left; unfold m' in Hx; rewrite lookup_insert_eq in Hx; by injection Hx as <-|].
    right. unfold m' in Hx. by rewrite lookup_insert_ne in Hx. }
  assert (forall t0 x0, m !! t0 = Some x0 -> m' !! t0 = Some x0) as Hkeep.
  { intros t0 x0 Hx. destruct (He t0 x0 Hx) as [Hne _]. unfold m'. by rewrite lookup_insert_ne. }
  assert (ent s' x' = mkEntry true false false false (generation key) t None) as Ee.
  { unfold ent. cbn. rewrite Ta, decide_True by done. done. }
  assert (forall c', c' ∈ cq y -> ~ names s' (slot key) (token c')) as Hng.
  { intros c' Hc' N. apply Hout. right. exists c'. split; [done|]. unfold names in N. rewrite N. change (at_ s' (slot key)) with (ent s' x'). by rewrite Ee. }
  assert (forall t0 x0 sent, m !! t0 = Some x0 -> names s' (t_slot x0) sent <-> names (slab y) (t_slot x0) sent) as Hnm.
  { intros t0 x0 sent Hx. unfold names. destruct (He t0 x0 Hx) as [_ E]. unfold ent in E. by rewrite E. }
  assert (forall t0 k, owned (slab y) m t0 k -> owned s' m' t0 k) as Hown.
  { intros t0 k (E & Hw & x & Hx & H1 & H2 & H3). split; [done|]. split; [by rewrite To|]. exists x. destruct (He t0 x Hx) as [_ ->]. split; [by apply Hkeep|done]. }
  assert (forall t0, t0 ∈ k_tok <$> ops y -> t0 <> t) as Hot.
  { intros t0 (o & -> & Ho)%list_elem_of_fmap. destruct (oi_op _ _ _ HO o Ho) as (x & Hx & _). congruence. }
  rewrite Ec in *. assert (forall c', c' ∈ cs1 ++ cs2 -> c' ∈ cs1 ++ c :: cs2) as Hsub by (intros c' Hc'; apply middle_elem; by right).
  assert (op_token key = t) as Hkt by (by rewrite Tk).
  assert (forall l, held_tokens (cs1 ++ mkClient t f' false :: cs2) ++ l ≡ₚ t :: held_tokens (cs1 ++ c :: cs2) ++ l) as Hp.
  { intros l. rewrite (held_tokens_Some cs1 (mkClient t f' false) cs2 key Hk), Hkt, (held_tokens_None cs1 c cs2 Hcn). done. }
  split; [split; cbn|].
  - split; [done|..].
    + intros t0 x0 Hx. destruct (Hm' t0 x0 Hx) as [[-> ->]|[Hne Hx0]].
      * rewrite Ee. cbn. repeat split; try done; try apply Ht; try apply Tr. by right; left.
      * destruct (He t0 x0 Hx0) as [_ ->]. by apply HS.
    + intros i Hi Ho. destruct (decide (i = slot key)) as [->|Hne].
      * exists x'. change (at_ s' (slot key)) with (ent s' x'). rewrite Ee. cbn. split; [|done]. unfold m'. by rewrite lookup_insert_eq.
      * rewrite Ta, decide_False in Ho |- * by done. destruct (si_occ _ _ _ HS i Hi Ho) as (x0 & Hx0 & E). exists x0. split; [by apply Hkeep|done].
    + intros t0 x0 Hx He0. destruct (Hm' t0 x0 Hx) as [[-> ->]|[Hne Hx0]]; [done|]. by apply (si_wake _ _ _ HS t0 x0).
  - split.
    + intros o Ho. apply elem_of_app in Ho as [Ho|Ho].
      * destruct (oi_op _ _ _ HO o Ho) as (x0 & Hx0 & H). exists x0. destruct (He _ x0 Hx0) as [_ ->]. split; [by apply Hkeep|done].
      * apply list_elem_of_singleton in Ho as ->. exists x'. cbn [k_tok k_slot k_zc k_phase k_gen]. rewrite Ee. unfold m'. by rewrite lookup_insert_eq.
    + rewrite fmap_app. apply NoDup_app. split; [apply HO|]. split; [|apply NoDup_singleton]. intros t0 H0 H1. apply list_elem_of_singleton in H1 as ->. by destruct (Hot t H0).
    + intros t0 x0 p Hx Hh. rewrite fmap_app, elem_of_app. destruct (Hm' t0 x0 Hx) as [[-> ->]|[Hne Hx0]]; [right; by apply list_elem_of_singleton|left].
      by apply (oi_held _ _ _ HO t0 x0 p).
  - split.
    + intros t0 Ht0. destruct (decide (t0 = t)) as [->|Hne].
      * unfold m'. rewrite lookup_insert_eq, (qi_trace _ _ _ HQ t Ht), Hnone. done.
      * unfold m'. rewrite lookup_insert_ne by done. by apply HQ.
    + apply HQ.
    + intros l1 c' l2 E Hres t0 x0 Hx N. destruct (Hm' t0 x0 Hx) as [[-> ->]|[Hne Hx0]].
      * destruct (Hng c'); [rewrite E; apply elem_of_app; right; apply list_elem_of_here|done].
      * apply (qi_gone _ _ _ HQ l1 c' l2 E Hres t0 x0 Hx0). by apply (Hnm t0 x0).
  - split.
    + intros c' k Hc' Hk'. apply middle_elem in Hc' as [->|Hc'].
      * cbn in Hk'. rewrite Hk in Hk'. injection Hk' as <-. cbn [c_tok c_fut]. split.
        { split; [done|]. split; [by rewrite Tk, To|]. exists x'. rewrite Ee. unfold m'. by rewrite lookup_insert_eq. }
        intros Hnz. exists x'. unfold m'. rewrite lookup_insert_eq. split; [done|]. by apply Hz.
      * destruct (W1 c' k (Hsub c' Hc') Hk') as [Ho Hzc]. split; [by apply Hown|]. intros Hnz. destruct (Hzc Hnz) as (x0 & Hx0 & ?). exists x0. split; [by apply Hkeep|done].
    + intros c' Hc'. apply middle_elem in Hc' as [->|Hc']; [done|]. by apply W2, Hsub.
    + intros k Hk'. by apply Hown, W3.
    + rewrite Hp. apply NoDup_cons. split; [|done]. intros Hin. apply elem_of_app in Hin as [Hin|Hin].
      * apply list_elem_of_omap in Hin as (c' & Hc' & Ek). destruct (fkey (c_fut c')) as [k|] eqn:Efk; [|done]. cbn in Ek. injection Ek as Ek.
        destruct (W1 c' k Hc' Efk) as [(Eo & _ & x0 & Hx0 & _) _]. congruence.
      * apply list_elem_of_fmap in Hin as (k & Ek & Hk'). destruct (W3 k Hk') as (_ & _ & x0 & Hx0 & _). congruence.
    + intros t0 x0 Hx Hr. rewrite Hp, elem_of_cons. destruct (Hm' t0 x0 Hx) as [[-> ->]|[Hne Hx0]]; [by left|right].
      destruct (He t0 x0 Hx0) as [_ Ex]. rewrite Ex in Hr. by apply (W5 t0 x0).
  - split; [apply HC|]. intros t0 sent Hin t' x0 Hx N. destruct (Hm' t' x0 Hx) as [[-> ->]|[Hne Hx0]].
    + destruct Hout. left. exists t0. unfold names in N. cbn [x' t_slot] in N. change (at_ s' (slot key)) with (ent s' x') in N. rewrite Ee in N. cbn in N.
      change (encode_cancel_sentinel key) with (encode_cancel_sentinel (mkKey (slot key) (generation key) 0 0)). by rewrite <- N.
    + apply (ci_tok _ _ _ HC t0 sent Hin t' x0 Hx0). by apply (Hnm t' x0).
  - split; [done|]. intros t' ws c' k x0 Ew Hc' Htc Hold Hk' Hx. apply middle_elem in Hc' as [->|Hc']; [done|].
    destruct (Hm' t' x0 Hx) as [[-> ->]|[Hne Hx0]].
    + destruct (W1 c' k (Hsub c' Hc') Hk') as [(_ & _ & x1 & Hx1 & _) _]. congruence.
    + by apply (N2 t' ws c' k x0 Ew (Hsub c' Hc')).
  - intros HL. unfold Loss, LI, y'. cbn [slab cancels cq]. intros t0 x0 Hx Hr Hov. destruct (Hm' t0 x0 Hx) as [[-> ->]|[Hne Hx0]]; [done|]. destruct (He t0 x0 Hx0) as [_ Ex]. rewrite Ex in Hr.
    destruct (HL t0 x0 Hx0 Hr Hov) as [(sent & ? & N)|(c' & ? & ? & N)].
    + left. exists sent. split; [done|]. by apply (Hnm t0 x0).
    + right. exists c'. split; [done|]. split; [done|]. by apply (Hnm t0 x0).
Qed.

Lemma submit_inv t w cs1 f b cs2 d r f' sm' x :
  window y = Some (t, w) -> clients y = cs1 ++ mkClient t f b :: cs2 -> fsub f = false -> token_free (slab y) t ->
  poll_future t f (polling d (slab y) w) = Ret (r, f', Some sm') -> reply d = Resolved x ->
  (forall key, fkey f' = Some key -> ~ outstanding y (encode_cancel_sentinel key)) ->
  exists m', let y' := mkSys (default (slab y) (inflight_slab sm')) (inbox y) (ops y ++ omap (new_op f') (requests sm'))
              (cancels y) (cq y) (if r : bool then cs1 ++ cs2 else cs1 ++ mkClient t f' false :: cs2) (wake y) (window y) in
  Inv y' m' /\ (Loss y m -> Loss y' m').
Proof.
  intros Hwin Ec Hs Hfree E Hrep Hout. assert (task_token t) as Ht by (by apply (proj1 HN t w)).
  destruct (wi_fut _ _ _ _ HW (mkClient t f b)) as [Hok _]; [rewrite Ec; apply middle_elem; by left|]. cbn in Hok.
  assert (fkey f = None) as Hn. { destruct (fkey f) eqn:Ef; [|done]. destruct Hok as [[_ Hb] _]. rewrite Ef in Hb. rewrite Hb in Hs by done. done. }
  destruct (first_poll_spec (slab y) (si_wf _ _ _ HS) d w x Hrep t f Hok Hs) as (r0 & f0 & sm0 & E0 & (s' & Es & Heff) & Hok').
  rewrite E in E0. injection E0 as <- <- <-. rewrite Es. cbn [default].
  destruct Heff as [(Q & Hreq & Hk & _)|(key & rq & T & -> & Hk & Hsub & Hreq & Hrt & Hzc)]; rewrite Hreq.
  - exists m. cbn. rewrite app_nil_r.
    apply quiet_inv; [done|..].
    + intros c key Hc Hkc. rewrite Ec. destruct r; [apply middle_elem; by right|]. apply middle_elem in Hc as [->|Hc]; [cbn in Hkc; congruence|apply middle_elem; by right].
    + intros c Hc. destruct r; [apply (wi_fut _ _ _ _ HW); rewrite Ec; apply middle_elem; by right|]. apply middle_elem in Hc as [->|Hc]; [split; [by apply Hok'|done]|].
      apply (wi_fut _ _ _ _ HW). rewrite Ec. apply middle_elem. by right.
    + rewrite Ec, (held_tokens_None cs1 (mkClient t f b) cs2 Hn). destruct r; [done|]. by rewrite held_tokens_None.
  - set (zc := match rq_opcode rq with OpSendZc => true | _ => false end).
    assert (m !! t = None) as Hnone.
    { destruct (m !! t) as [x0|] eqn:Hx; [|done]. destruct (si_tok _ _ _ HS t x0 Hx) as (_ & Hr & Ho & Hto & _).
      destruct (occupied_by_token_spec (slab y) (si_wf _ _ _ HS) t) as (r0 & Er & Hspec). unfold token_free in Hfree. rewrite Hfree in Er. injection Er as <-.
      by destruct (Hspec (t_slot x0) Hr Ho). }
    exists (<[t := mkT (slot key) zc SRun]> m). replace (omap (new_op f') [rq]) with [mkOp t (slot key) (generation key) zc Running].
    2:{ cbn. unfold new_op. rewrite Hk. cbn. by rewrite Hrt. }
    apply (taken_inv s' t w key zc f' cs1 (mkClient t f b) cs2); try done; [by apply Hok'| |by apply Hout].
    intros Hz. specialize (Hzc Hz). unfold zc. by destruct (rq_opcode rq).
Qed.

(** ** Later polls *)

(** The reasons a poll frees its slot leave the operation over. *)
Lemma freed_over t w f key x : window y = Some (t, w) -> mkClient t f true ∈ clients y -> fkey f = Some key -> m !! t = Some x -> slot key = t_slot x ->
  ((exists ws, w = Some ws /\ (contains (ws_flags ws) MORE = false \/ forall z, f <> FZc z)) \/
   ((exists z, f = FZc z) /\ e_rdy (at_ (slab y) (slot key)) = true)) ->
  over (t_stage x) = true.
Proof.
  intros Hwin Hc Hk Hx Es Hwhy. destruct (si_tok _ _ _ HS t x Hx) as (_ & Hr & T1 & T2 & T3 & T4 & T5).
  destruct Hwhy as [(ws & -> & Hws)|[_ Hrdy]].
  - destruct (proj2 HN t ws (mkClient t f true) key x Hwin Hc eq_refl eq_refl Hk Hx) as [Hl He]. destruct Hws as [Hm|Hz].
    + destruct (t_stage x); try done; by rewrite He in Hm.
    + destruct (wi_client _ _ _ _ HW (mkClient t f true) key Hc Hk) as [_ Hzc]. destruct (Hzc Hz) as (x0 & Hx0 & E). cbn in Hx0. rewrite Hx in Hx0. injection Hx0 as <-.
      rewrite E in T5. destruct T5 as [?|[E1|[E1|E1]]]; [done|rewrite E1 in Hl |- *; done..].
  - rewrite Es in Hrdy. fold (ent (slab y) x) in Hrdy. rewrite Hrdy in T4. by destruct (t_stage x).
Qed.

Lemma poll_inv t w cs1 f cs2 d r f' sm' :
  window y = Some (t, w) -> clients y = cs1 ++ mkClient t f true :: cs2 -> fsub f = true ->
  poll_future t f (polling d (slab y) w) = Ret (r, f', Some sm') ->
  exists m', let y' := mkSys (default (slab y) (inflight_slab sm')) (inbox y) (ops y) (cancels y) (cq y)
              (if r : bool then cs1 ++ cs2 else cs1 ++ mkClient t f' true :: cs2) (wake y) (window y) in
  Inv y' m' /\ (Loss y m -> Loss y' m').
Proof.
  intros Hwin Ec Hs E. set (c := mkClient t f true). assert (c ∈ clients y) as Hc by (rewrite Ec; apply middle_elem; by left).
  destruct (wi_fut _ _ _ _ HW c Hc) as [Hok Ht]. cbn in Hok, Ht. pose proof Hok as [Hk _]. apply Hk in Hs as Hkey. destruct Hkey as [key Hkey].
  destruct (wi_client _ _ _ _ HW c key Hc Hkey) as [(Et & Hw & x & Hx & Es & Eg & Er) Hz]. cbn in Et, Hx, Hz.
  destruct (si_tok _ _ _ HS t x Hx) as (_ & Hr & T1 & T2 & T3 & T4 & T5). assert (0 <= slot key) as H0 by (rewrite Es; unfold ranged in Hr; lia).
  destruct (later_poll_spec (slab y) (si_wf _ _ _ HS) d w key H0 f Hok Hs Hkey) as (r0 & f0 & sm0 & E0 & Heff & Hok').
  rewrite Et, E in E0. injection E0 as <- <- <-.
  assert (forall c', c' ∈ cs1 ++ cs2 -> c' ∈ clients y) as Hsub by (intros c' Hc'; rewrite Ec; apply middle_elem; by right).
  destruct Heff as [(Hsl & -> & Hk' & Hs' & Hzz)|(dd & s' & Ef & Hsl & Hk' & Hsub' & Hwhy)]; rewrite Hsl; cbn [default].
  - exists m. assert (held_tokens (cs1 ++ mkClient t f' true :: cs2) = held_tokens (clients y)) as Eh.
    { rewrite Ec, !held_tokens_app, !held_tokens_cons. unfold c_fut. by rewrite Hk', Hkey. }
    pose proof HW as [W1 W2 W3 W4 W5]. pose proof HN as [N1 N2]. split; [split; cbn; try done|done].
    + split; rewrite ?Eh; try done.
      * intros c' key' Hc' Hkc. apply middle_elem in Hc' as [->|Hc']; [|apply W1; [by apply Hsub|done]]. cbn in Hkc |- *. rewrite Hk' in Hkc. injection Hkc as <-.
        destruct (W1 c key Hc Hkey) as [? ?]. split; [done|]. intros Hnz. apply Hz. intros z Ez. destruct Hzz as [_ Hzz]. destruct Hzz as [z' Ez']; [by exists z|]. by apply (Hnz z').
      * intros c' Hc'. apply middle_elem in Hc' as [->|Hc']; [split; [by apply Hok'|done]|by apply W2, Hsub].
    + split; [done|]. intros t' ws c' key' x' Ew Hc' Htc Hold Hkc Hx'. apply middle_elem in Hc' as [->|Hc'].
      * cbn in Htc. subst t'. by apply (N2 t ws c key x' Ew Hc).
      * by apply (N2 t' ws c' key' x' Ew (Hsub c' Hc')).
  - exists (delete t m). assert (over (t_stage x) = true) as Hov by (by apply (freed_over t w f key x)).
    assert (live (slab y) key = true) as Hl.
    { unfold live. rewrite Hw, Z.eqb_refl, Es. pose proof (occ_in (slab y) (si_wf _ _ _ HS) (t_slot x) T1 Hr).
      destruct (Z.ltb_spec (t_slot x) (cap (slab y))); [|lia]. fold (ent (slab y) x). by rewrite T1, Eg, Z.eqb_refl. }
    destruct (free_spec (slab y) (si_wf _ _ _ HS) key H0) as (dd' & s1 & Ef' & Hf). rewrite Ef in Ef'. injection Ef' as <- <-. rewrite Hl, Es in Hf.
    destruct Hf as [_ B]. assert (wf s') as W'.
    { eapply becomes_wf; [apply HS|exact B|]. split; [done|]. split; [|done]. cbn. unfold wrap, fits. apply Z.mod_pos_bound. lia. }
    assert (Hj : forall j, ranged j -> j <> t_slot x -> at_ s' j = at_ (slab y) j). { intros j Hj Hne. rewrite (be_at _ _ _ _ B), decide_False by done. done. }
    assert (e_occ (ent s' x) = false) as Hfree. { unfold ent. rewrite (be_at _ _ _ _ B), decide_True by done. done. }
    set (cs' := if r : bool then cs1 ++ cs2 else cs1 ++ mkClient t f' true :: cs2).
    pose proof HW as [W1 W2 W3 W4 W5].
    assert (held_tokens cs' = held_tokens (cs1 ++ cs2)) as Eh by (unfold cs'; destruct r; [done|]; by rewrite held_tokens_None).
    assert (held_tokens (clients y) ++ (op_token <$> inbox y) ≡ₚ t :: held_tokens cs' ++ (op_token <$> inbox y)) as Hp.
    { rewrite Eh, Ec, (held_tokens_Some cs1 (mkClient t f true) cs2 key Hkey), Et. done. }
    rewrite Hp in W4. apply NoDup_cons in W4 as [Hnt W4].
    assert (forall c' key', c' ∈ cs' -> fkey (c_fut c') = Some key' -> c' ∈ clients y /\ op_token key' <> t) as Hcs.
    { intros c' key' Hc' Hkc. split.
      - unfold cs' in Hc'. destruct r; [by apply Hsub|]. apply middle_elem in Hc' as [->|Hc']; [cbn in Hkc; congruence|by apply Hsub].
      - intros E'. apply Hnt, elem_of_app. left. apply list_elem_of_omap. exists c'. split; [done|]. rewrite Hkc. cbn. by rewrite E'. }
    split; [split; cbn|].
    + by apply (SI_untrack (slab y) s' m (wake y) t x HS Hx W' Hj Hfree).
    + apply (OI_untrack (slab y) s' m (wake y) t x HS Hx Hj _ HO). by destruct (t_stage x).
    + apply (QI_untrack (slab y) s' m (wake y) t x HS Hx Hj (cq y) (cq y) HQ); [done| |done|by exists []].
      rewrite (qi_trace _ _ _ HQ t Ht), Hx. by destruct (t_stage x).
    + apply (WI_untrack (slab y) s' m (wake y) t x HS Hx (be_owner _ _ _ _ B) Hj (clients y) (inbox y) cs' (inbox y) HW); try done.
      * intros c' Hc'. unfold cs' in Hc'. destruct r; [by apply W2, Hsub|]. apply middle_elem in Hc' as [->|Hc']; [split; [by apply Hok'|done]|by apply W2, Hsub].
      * intros key' Hk''. split; [done|]. intros E'. apply Hnt, elem_of_app. right. apply list_elem_of_fmap. by exists key'.
      * intros t' Hne Hin. rewrite Hp, elem_of_cons in Hin. by destruct Hin.
    + eapply CI_carries; [exact HC| |done]. by apply (carries_untrack (slab y) s' m (wake y) t x HS Hx Hj).
    + apply (NI_untrack m t (clients y)); [done|]. intros c' key' Hc' Hkc. by apply (Hcs c' key').
    + intros HL. apply (LI_untrack (slab y) s' m (wake y) t x HS Hx Hj (cancels y) (cq y) (cq y) HL). by left.
Qed.

End steps.

(** ** Every step *)

Lemma stage_running y m o x : Inv y m -> o ∈ ops y -> m !! k_tok o = Some x ->
  match k_phase o with Running => t_stage x = SRun | Notifying => t_stage x = SMoreQ \/ t_stage x = SNotify end /\ k_zc o = t_zc x.
Proof.
  intros HI Ho Hx. destruct (oi_op _ _ _ (inv_o y m HI) o Ho) as (x0 & H0 & _ & Hz & Hh & _). rewrite Hx in H0. injection H0 as <-.
  split; [|done]. destruct (k_phase o), (t_stage x); try done; auto.
Qed.

Section all.
Context (D : discipline) (Hfresh : fresh_tokens D = true) (Hwoken : woken_polls D = true).

Lemma step_inv y y' m : step D y y' -> Inv y m -> exists m', Inv y' m' /\ (lossless D = true -> Loss y m -> Loss y' m').
Proof.
  intros Hst HI. pose proof HI as [HS HO HQ HW HC HN].
  destruct Hst as [y t Hw Ht Hset|y t w Hw|y t w f Hw Hf|y t w cs1 f b cs2 d r f' sm' Hw Hc Hs Hfr E Hout [x Hrep]
    |y t w cs1 f cs2 d r f' sm' Hw Hc Hs E|y cs1 c cs2 Hc|y key q acc s' x Hw Hq Hl E|y os1 o os2 r fl Eo Hp Hm Hn
    |y os1 o os2 r fl Eo Hp Hz Hm Hn|y os1 o os2 r fl Eo Hp Hn|y xs1 t sent xs2 r Ex Hr|y c q s' stored Hw Eq E].
  - exists m. split; [by apply open_inv; auto|done].
  - exists m. split; [by eapply close_inv|done].
  - exists m. split; [by eapply new_inv|done].
  - destruct (submit_inv y m HI t w cs1 f b cs2 d r f' sm' x) as (m' & H1 & H2); auto. exists m'. auto.
  - destruct (poll_inv y m HI t w cs1 f cs2 d r f' sm') as (m' & H1 & H2); auto. exists m'. auto.
  - exists m. split; [by apply drop_inv|done].
  - destruct (cancel_inv y m HI key q acc Hw Hq) as (s1 & x1 & E1 & H1 & H2). rewrite E in E1. injection E1 as <- <-. exists m. auto.
  - assert (o ∈ ops y) as Ho by (rewrite Eo; apply elem_of_app; right; apply list_elem_of_here).
    destruct (oi_op _ _ _ HO o Ho) as (x & Hx & _). destruct (stage_running y m o x HI Ho Hx) as [Hs _]. rewrite Hp in Hs.
    edestruct (post_inv y m HI os1 o os2 (os1 ++ os2) SPlainQ (mkCqe (k_tok o) r fl None) x) as [H1 H2]; try done; rewrite ?Hs; auto; try done.
    + right. auto.
    + unfold kind, is_notif, has_more. cbn [flags]. by rewrite Hm, Hn.
    + eexists. eauto.
  - assert (o ∈ ops y) as Ho by (rewrite Eo; apply elem_of_app; right; apply list_elem_of_here).
    destruct (oi_op _ _ _ HO o Ho) as (x & Hx & _). destruct (stage_running y m o x HI Ho Hx) as [Hs Hzc]. rewrite Hp in Hs. rewrite Hz in Hzc.
    edestruct (post_inv y m HI os1 o os2 (os1 ++ mkOp (k_tok o) (k_slot o) (k_gen o) true Notifying :: os2) SMoreQ (mkCqe (k_tok o) r fl None) x) as [H1 H2]; try done; rewrite ?Hs; auto; try done.
    + left. auto.
    + unfold kind, is_notif, has_more. cbn [flags]. by rewrite Hm, Hn.
    + right. eexists. split; [done|]. by rewrite Hz.
    + eexists. eauto.
  - assert (o ∈ ops y) as Ho by (rewrite Eo; apply elem_of_app; right; apply list_elem_of_here).
    destruct (oi_op _ _ _ HO o Ho) as (x & Hx & _). destruct (stage_running y m o x HI Ho Hx) as [Hs Hzc]. rewrite Hp in Hs.
    destruct (si_tok _ _ _ HS _ x Hx) as (_ & _ & _ & _ & _ & _ & T5).
    assert (t_zc x = true) as Hzt by (destruct Hs as [Hs|Hs]; rewrite Hs in T5; destruct T5 as [?|[?|[?|?]]]; done).
    assert (kind (mkCqe (k_tok o) r fl None) = CNotif) as Hk by (unfold kind, is_notif; cbn [flags]; by rewrite Hn).
    assert (is_notif (mkCqe (k_tok o) r fl None) = true) as Hin by done.
    destruct Hs as [Hs|Hs].
    + edestruct (post_inv y m HI os1 o os2 (os1 ++ os2) SBothQ (mkCqe (k_tok o) r fl None) x) as [H1 H2]; try done; rewrite ?Hs, ?Hk; auto; try done; [by left|].
      eexists. eauto.
    + edestruct (post_inv y m HI os1 o os2 (os1 ++ os2) SNotifQ (mkCqe (k_tok o) r fl None) x) as [H1 H2]; try done; rewrite ?Hs, ?Hk; auto; try done; [by left|].
      eexists. eauto.
  - destruct (cancelled_inv y m HI xs1 t sent xs2 r Ex Hr) as [H1 H2]. exists m. auto.
  - assert (drained y m c q) as (s1 & st1 & m' & E1 & H1 & H2).
    { assert (c ∈ cq y) as Hc by (rewrite Eq; apply list_elem_of_here).
      destruct (qi_cqe _ _ _ HQ c Hc) as [Hb [Ht|(key & Hk & Htok & Hn)]]; [|by apply (drain_cancelled y m HI key)].
      destruct c as [t r fl b]. cbn in Hb, Ht. subst b. destruct (contains fl NOTIF) eqn:Hn; [by apply drain_notif|].
      destruct (contains fl MORE) eqn:Hm; [by apply drain_more|by apply drain_plain]. }
    rewrite E in E1. injection E1 as <- <-. exists m'. auto.
Qed.

End all.
End InflightSteps.
