(* ===== verification/InflightRun.v ===== *)
(** * Running the in-flight protocol

    An executable scheduler for the in-flight protocol: a label names the step
    to take, its guards are checked, and a run of labels that succeeds is a path
    of the transition system. *)

From S2P Require Import Prelude Words Bitmap IoTokens InflightSlab InflightSpec Seam InflightProto SeamSpec InflightInv InflightSafe InflightDrain.
From stdpp Require Import base tactics option list numbers gmap.

Local Open Scope Z_scope.

Module InflightRun.
Import IoTokens Inflight Seam BufFuture SeamDrain InflightProto.

Inductive label : Type :=
| LOpen (t : Z) | LClose | LNew (f : future) | LSubmit (i : nat) (d : driver) | LPoll (i : nat) (d : driver) | LDrop (i : nat)
| LCancel (accepted : bool) | LPost (i : nat) (r : Z) | LPostMore (i : nat) (r : Z) | LNotify (i : nat) | LCancelled (i : nat) (r : Z) | LDrain.

#[global] Instance phase_eq_dec : EqDecision phase.
Proof. solve_decision. Defined.

#[global] Instance settled_dec y t : Decision (settled y t).
Proof. unfold settled. apply _. Defined.

#[global] Instance task_token_dec t : Decision (task_token t).
Proof. unfold task_token. apply _. Defined.

#[global] Instance token_free_dec s t : Decision (token_free s t).
Proof.
  unfold token_free. destruct (occupied_by_token s t) as [[i|]| | |]; [right; congruence|by left|right; congruence..].
Defined.

Definition no_running (os : list kop) (t : Z) : Prop := Forall (fun o => k_tok o = t -> k_phase o = Notifying) os.

#[global] Instance no_running_dec os t : Decision (no_running os t).
Proof. unfold no_running. apply _. Defined.

(** No cancel not yet drained carries the sentinel. *)
Definition unused (y : sys) (sentinel : Z) : bool :=
  forallb (fun p => negb (p.2 =? sentinel)) (cancels y) && forallb (fun c => negb (token c =? sentinel)) (cq y).

Lemma unused_outstanding y sentinel : unused y sentinel = true -> ~ outstanding y sentinel.
Proof.
  unfold unused. rewrite andb_true_iff, !forallb_forall. intros [H1 H2] [[t Hin]|(c & Hin & E)].
  - apply list_elem_of_In in Hin. specialize (H1 _ Hin). cbn in H1. by rewrite Z.eqb_refl in H1.
  - apply list_elem_of_In in Hin. specialize (H2 _ Hin). cbn in H2. by rewrite E, Z.eqb_refl in H2.
Qed.

Definition is_resolved (d : driver) : bool := match reply d with Resolved _ => true | Deferred _ => false end.

Section exec.
Context (D : discipline).

Definition exec (l : label) (y : sys) : option sys :=
  match l with
  | LOpen t =>
      if decide (window y = None /\ task_token t /\ (woken_polls D = true -> settled y t))
      then Some (mkSys (slab y) (inbox y) (ops y) (cancels y) (cq y) (clients y) (wake y) (Some (t, wake y !! t))) else None
  | LClose =>
      '(_, _) ← window y;
      Some (mkSys (slab y) (inbox y) (ops y) (cancels y) (cq y) ((fun c => mkClient (c_tok c) (c_fut c) true) <$> clients y) (wake y) None)
  | LNew f =>
      '(t, _) ← window y;
      Some (mkSys (slab y) (inbox y) (ops y) (cancels y) (cq y) (clients y ++ [mkClient t f false]) (wake y) (window y))
  | LSubmit i d =>
      '(t, w) ← window y; c ← clients y !! i;
      if decide (c_tok c = t /\ fsub (c_fut c) = false /\ (fresh_tokens D = true -> token_free (slab y) t) /\ is_resolved d = true) then
        match poll_future t (c_fut c) (mkSeam (Some d) (Some (slab y)) w 0 []) with
        | Ret (r, f', Some sm') =>
            if match fkey f' with Some key => unused y (encode_cancel_sentinel key) | None => true end
            then Some (mkSys (default (slab y) (inflight_slab sm')) (inbox y) (ops y ++ omap (new_op f') (requests sm')) (cancels y) (cq y)
                    (if r : bool then take i (clients y) ++ drop (S i) (clients y) else take i (clients y) ++ mkClient t f' false :: drop (S i) (clients y))
                    (wake y) (window y))
            else None
        | _ => None
        end
      else None
  | LPoll i d =>
      '(t, w) ← window y; c ← clients y !! i;
      if decide (c_tok c = t /\ fsub (c_fut c) = true /\ c_old c = true) then
        match poll_future t (c_fut c) (mkSeam (Some d) (Some (slab y)) w 0 []) with
        | Ret (r, f', Some sm') =>
            Some (mkSys (default (slab y) (inflight_slab sm')) (inbox y) (ops y) (cancels y) (cq y)
                    (if r : bool then take i (clients y) ++ drop (S i) (clients y) else take i (clients y) ++ mkClient t f' true :: drop (S i) (clients y))
                    (wake y) (window y))
        | _ => None
        end
      else None
  | LDrop i =>
      c ← clients y !! i;
      Some (mkSys (slab y) (drop_future (inbox y) (c_fut c)) (ops y) (cancels y) (cq y) (take i (clients y) ++ drop (S i) (clients y)) (wake y) (window y))
  | LCancel accepted =>
      match window y, inbox y with
      | None, key :: q =>
          if lossless D && negb accepted then None else
          match submit_cancel accepted (slab y) key with
          | Ret (s', x) => Some (mkSys s' q (ops y) (cancels y ++ option_list x) (cq y) (clients y) (wake y) (window y))
          | _ => None
          end
      | _, _ => None
      end
  | LPost i r =>
      o ← ops y !! i;
      if decide (k_phase o = Running)
      then Some (mkSys (slab y) (inbox y) (take i (ops y) ++ drop (S i) (ops y)) (cancels y) (cq y ++ [mkCqe (k_tok o) r 0 None]) (clients y) (wake y) (window y))
      else None
  | LPostMore i r =>
      o ← ops y !! i;
      if decide (k_phase o = Running /\ k_zc o = true)
      then Some (mkSys (slab y) (inbox y) (take i (ops y) ++ mkOp (k_tok o) (k_slot o) (k_gen o) true Notifying :: drop (S i) (ops y)) (cancels y)
                   (cq y ++ [mkCqe (k_tok o) r MORE None]) (clients y) (wake y) (window y))
      else None
  | LNotify i =>
      o ← ops y !! i;
      if decide (k_phase o = Notifying)
      then Some (mkSys (slab y) (inbox y) (take i (ops y) ++ drop (S i) (ops y)) (cancels y) (cq y ++ [mkCqe (k_tok o) 0 NOTIF None]) (clients y) (wake y) (window y))
      else None
  | LCancelled i r =>
      p ← cancels y !! i;
      if decide (r = CANCEL_TARGET_GONE <-> no_running (ops y) p.1)
      then Some (mkSys (slab y) (inbox y) (ops y) (take i (cancels y) ++ drop (S i) (cancels y)) (cq y ++ [mkCqe p.2 r 0 None]) (clients y) (wake y) (window y))
      else None
  | LDrain =>
      match window y, cq y with
      | None, c :: q =>
          match drain_one (slab y) c with
          | Ret (s', stored) => Some (mkSys s' (inbox y) (ops y) (cancels y) q (clients y)
                                  (match stored with Some (t, ws) => <[t := ws]> (wake y) | None => wake y end) (window y))
          | _ => None
          end
      | _, _ => None
      end
  end.

Definition label_ok (l : label) : Prop := match l with LNew f => fresh_future f | _ => True end.

(** Every successful label is a step. *)
Lemma exec_step l y y' : label_ok l -> exec l y = Some y' -> step D y y'.
Proof.
  intros Hl H. pose proof (fun A (xs : list A) i a (Hi : xs !! i = Some a) => eq_sym (take_drop_middle xs i a Hi)) as Hmid.
  destruct l as [t| |f|i d|i d|i|acc|i r|i r|i|i r|]; cbn [exec] in H.
  - case_decide as Hd; [|done]. injection H as <-. destruct Hd as (? & ? & ?). by apply step_open.
  - destruct (window y) as [[t w]|] eqn:E; [|done]. cbn in H. injection H as <-. by eapply step_close.
  - destruct (window y) as [[t w]|] eqn:E; [|done]. cbn in H. injection H as <-. rewrite <- E. by eapply step_new.
  - destruct (window y) as [[t w]|] eqn:E; [|done]. cbn in H. destruct (clients y !! i) as [[ct cf co]|] eqn:Ei; [|done]. cbn in H.
    case_decide as Hd; [|done]. destruct Hd as (<- & Hs & Hf & Hr). destruct (poll_future _ _ _) as [[[r f'] [sm'|]]| | |] eqn:Ep; try done.
    destruct (match fkey f' with Some key => _ | None => true end) eqn:Eu; [|done]. injection H as <-. rewrite <- E.
    eapply (step_submit D y ct w (take i (clients y)) cf co (drop (S i) (clients y)) d r f' sm'); [done|by apply Hmid|done|done|done| |].
    + intros key Hk. rewrite Hk in Eu. by apply unused_outstanding.
    + unfold is_resolved in Hr. destruct (reply d); [by eexists|done].
  - destruct (window y) as [[t w]|] eqn:E; [|done]. cbn in H. destruct (clients y !! i) as [[ct cf co]|] eqn:Ei; [|done]. cbn in H.
    case_decide as Hd; [|done]. destruct Hd as (<- & Hs & ->). destruct (poll_future _ _ _) as [[[r f'] [sm'|]]| | |] eqn:Ep; try done.
    injection H as <-. rewrite <- E. eapply (step_poll D y ct w (take i (clients y)) cf (drop (S i) (clients y)) d r f' sm'); [done|by apply Hmid|done|done].
  - destruct (clients y !! i) as [c|] eqn:Ei; [|done]. cbn in H. injection H as <-. apply step_drop. by apply Hmid.
  - destruct (window y) eqn:E; [done|]. destruct (inbox y) as [|key q] eqn:Eq; [done|]. destruct (lossless D && negb acc) eqn:El; [done|].
    destruct (submit_cancel _ _ _) as [[s' x]| | |] eqn:Es; try done. injection H as <-. rewrite <- E. eapply (step_cancel D y key q acc s' x); [done|done| |done].
    intros Hll. rewrite Hll in El. by destruct acc.
  - destruct (ops y !! i) as [o|] eqn:Ei; [|done]. cbn in H. case_decide; [|done]. injection H as <-. by apply step_post; [apply Hmid|..].
  - destruct (ops y !! i) as [o|] eqn:Ei; [|done]. cbn in H. case_decide as Hd; [|done]. destruct Hd. injection H as <-. by apply step_post_more; [apply Hmid|..].
  - destruct (ops y !! i) as [o|] eqn:Ei; [|done]. cbn in H. case_decide; [|done]. injection H as <-. by apply step_notify; [apply Hmid|..].
  - destruct (cancels y !! i) as [[t sent]|] eqn:Ei; [|done]. cbn in H. case_decide; [|done]. injection H as <-. by eapply step_cancelled; [apply Hmid|].
  - destruct (window y) eqn:E; [done|]. destruct (cq y) as [|c q] eqn:Eq; [done|]. destruct (drain_one _ _) as [[s' st]| | |] eqn:Ed; try done.
    injection H as <-. rewrite <- E. by eapply step_drain.
Qed.

Fixpoint run (ls : list label) (y : sys) : option sys :=
  match ls with [] => Some y | l :: ls => y ← exec l y; run ls y end.

Lemma run_reach s ls : Forall label_ok ls -> forall y y', reach D s y -> run ls y = Some y' -> reach D s y'.
Proof.
  induction 1 as [|l ls Hl Hls IH]; intros y y' Hr H; cbn in H; [by injection H as <-|].
  destruct (exec l y) as [y1|] eqn:E; [|done]. cbn in H. apply (IH y1); [|done]. eapply reach_step; [done|]. by eapply exec_step.
Qed.

End exec.
End InflightRun.

(** * In-flight buffers: what the protocol guarantees

    A slot the kernel may still touch is never released nor handed out again,
    provided each task keeps one operation outstanding and is polled only once
    that operation has posted; without either discipline two kernel operations
    can end up on one slot.  When every cancel is accepted, nothing leaks. *)

From stdpp Require Import base tactics option list numbers gmap.

Local Open Scope Z_scope.

Module InflightThms.
Import IoTokens Inflight InflightSpec Seam BufFuture SeamDrain InflightProto SeamSpec InflightInv InflightDrain InflightSteps InflightRun.

Lemma start_inv s w c : 0 <= c -> new true w c = Some s -> Inv (start s) ∅ /\ Loss (start s) ∅.
Proof.
  intros Hc H. destruct (slots_new_spec true w c s Hc H) as (W & Ho & Hcap & Ha). split; [|by intros t x Hx].
  split; cbn.
  - split; [done|by intros t x Hx| |by intros t x Hx]. intros i Hi He. by rewrite Ha in He.
  - split; [by intros o Ho'%elem_of_nil|apply NoDup_nil_2|by intros t x p Hx].
  - split; [by intros t _|by intros c' Hc'%elem_of_nil|]. intros l1 c' l2 E. by destruct l1.
  - split; [by intros c' key Hc'%elem_of_nil|by intros c' Hc'%elem_of_nil|by intros key Hk%elem_of_nil|apply NoDup_nil_2|by intros t x Hx].
  - split; by intros t sent Hin%elem_of_nil.
  - split; by intros.
Qed.

Section reached.
Context (D : discipline) (s : InflightBufSlab) (w c : Z).
Context (Hfresh : fresh_tokens D = true) (Hwoken : woken_polls D = true) (Hc : 0 <= c) (Hnew : new true w c = Some s).

Lemma slots_reach_inv y : reach D s y -> exists m, Inv y m /\ (lossless D = true -> Loss y m).
Proof.
  destruct (start_inv s w c Hc Hnew) as [H1 H2]. induction 1 as [|y y' Hr (m & HI & HL) Hst]; [by exists ∅|].
  destruct (step_inv D Hfresh Hwoken y y' m Hst HI) as (m' & HI' & HL'). exists m'. auto.
Qed.

(** The kernel's operations hold distinct, occupied slots. *)
Lemma ops_own y m : Inv y m ->
  Forall (fun o => e_occ (at_ (slab y) (k_slot o)) = true /\ e_gen (at_ (slab y) (k_slot o)) = k_gen o /\ e_tok (at_ (slab y) (k_slot o)) = k_tok o) (ops y) /\
  NoDup (k_slot <$> ops y).
Proof.
  intros [HS HO _ _ _ _]. split.
  - apply Forall_forall. intros o Ho. destruct (oi_op _ _ _ HO o Ho) as (x & Hx & E1 & _ & _ & E2). destruct (si_tok _ _ _ HS _ x Hx) as (_ & _ & T1 & T2 & _).
    rewrite E1. by rewrite E2.
  - apply (NoDup_image k_tok k_slot _ (oi_nodup _ _ _ HO)). intros a b Ha Hb E.
    destruct (oi_op _ _ _ HO a Ha) as (xa & Hxa & Ea & _). destruct (oi_op _ _ _ HO b Hb) as (xb & Hxb & Eb & _).
    apply (slot_inj (slab y) m (wake y) HS _ _ xa xb Hxa Hxb). congruence.
Qed.

(** The drains and the polls of a reachable state return. *)
Lemma drains_return y m : Inv y m -> window y = None ->
  (forall x q, cq y = x :: q -> exists r, drain_one (slab y) x = Ret r) /\
  (forall key q b, inbox y = key :: q -> exists r, submit_cancel b (slab y) key = Ret r).
Proof.
  intros HI Hw. split.
  - intros x q Eq. assert (x ∈ cq y) as Hx by (rewrite Eq; apply list_elem_of_here).
    destruct (qi_cqe _ _ _ (inv_q y m HI) x Hx) as [Hb Hk]. assert (drained y m x q) as (s' & st & m' & E & _); [|by eexists].
    destruct Hk as [Ht|(key & Hk & Htok & Hn)]; [|by apply (drain_cancelled y m HI key)].
    destruct x as [t r fl b]. cbn in Hb, Ht. subst b. destruct (contains fl NOTIF) eqn:Hn; [by apply drain_notif|].
    destruct (contains fl MORE) eqn:Hm; [by apply drain_more|by apply drain_plain].
  - intros key q b Eq. destruct (cancel_inv y m HI key q b Hw Eq) as (s' & x & E & _). by eexists.
Qed.

End reached.

(** C4: In every state reached under two disciplines -- a task submits only
    while no slot carries its token, and a task with a recorded completion is
    polled only once its outstanding operation has posted and been drained --
    with a driver that resolves every submission (none deferred to readiness)
    and no submission whose cancel sentinel an undrained cancel still carries:
    each operation the kernel holds owns its slot (occupied, at the generation
    and token it was submitted with), no two share one, the next allocation
    hands out none of them, and the drains return without panicking.
    [inflight_disciplines_needed] shows that neither discipline can be dropped. *)
Theorem inflight_kernel_owns_slots D s w c y :
  fresh_tokens D = true -> woken_polls D = true -> 0 <= c -> new true w c = Some s -> reach D s y ->
  Forall (fun o => e_occ (at_ (slab y) (k_slot o)) = true /\ e_gen (at_ (slab y) (k_slot o)) = k_gen o /\ e_tok (at_ (slab y) (k_slot o)) = k_tok o) (ops y) /\
  NoDup (k_slot <$> ops y) /\
  (forall t key s', allocate (slab y) t = Ret (Some key, s') -> slot key ∉ k_slot <$> ops y) /\
  (window y = None -> (forall x q, cq y = x :: q -> exists r, drain_one (slab y) x = Ret r) /\
     (forall key q b, inbox y = key :: q -> exists r, submit_cancel b (slab y) key = Ret r)).
Proof.
  intros Hf Hw Hc Hn Hr. destruct (slots_reach_inv D s w c Hf Hw Hc Hn y Hr) as (m & HI & _). destruct (ops_own y m HI) as [H1 H2].
  split; [done|]. split; [done|]. split; [|by apply (drains_return y m HI)].
  intros t key s' E Hin. apply list_elem_of_fmap in Hin as (o & Es & Ho). rewrite Forall_forall in H1. destruct (H1 o Ho) as (Hocc & _).
  destruct (allocate_spec (slab y) (si_wf _ _ _ (inv_s y m HI)) t) as (r & s1 & E1 & Hs). rewrite E in E1. injection E1 as <- <-.
  destruct Hs as (_ & _ & Hfree & _). congruence.
Qed.


(** ** Witnesses and the need for the disciplines *)

Definition answering : driver := mkDriver (Resolved (Submitted 0)) (Submitted 0) true.
Definition receive : label := LNew (FRecv OpRecv (recv_new [0; 0; 0; 0])).
Definition one_slot : InflightBufSlab := default (mkSlab [] [] [] [] [] [] [] [] 0 0 0) (new true 7 1).
Definition two_slots : InflightBufSlab := default (mkSlab [] [] [] [] [] [] [] [] 0 0 0) (new true 7 2).

Lemma receive_ok : label_ok receive.
Proof. split; [by left|by eexists]. Qed.

Ltac labels_ok := repeat (apply Forall_cons; split; [first [apply receive_ok | exact I | by eexists]|]); apply Forall_nil_2.

Definition strict : discipline := mkD true true true.
Definition spurious : discipline := mkD true false true.
Definition reusing : discipline := mkD false true true.

(** A zero-copy send dropped between its first completion and its
    notification, then drained to rest. *)
Definition drop_script : list label :=
  [LOpen 1; LNew (FZc (zc_new [9; 8; 7])); LSubmit 0 answering; LClose; LPostMore 0 3; LDrain; LDrop 0; LCancel true;
   LCancelled 0 CANCEL_TARGET_GONE; LDrain; LNotify 0; LDrain].

(** A task receives once, receives again, and is polled a second time before
    the second completion: the recorded first one resolves it. *)
Definition spurious_script : list label :=
  [LOpen 1; receive; LSubmit 0 answering; LClose; LPost 0 4; LDrain;
   LOpen 1; LPoll 0 answering; receive; LSubmit 0 answering; LClose;
   LOpen 1; LPoll 0 answering; LClose;
   LOpen 2; receive; LSubmit 0 answering; LClose].

(** A task drops a receive and issues another before the first completes. *)
Definition reuse_script : list label :=
  [LOpen 1; receive; LSubmit 0 answering; LDrop 0; receive; LSubmit 0 answering; LClose; LCancel true; LPost 1 4; LDrain;
   LOpen 2; receive; LSubmit 1 answering; LClose].

Definition final (D : discipline) (ls : list label) (s : InflightBufSlab) : sys := default (start s) (run D ls (start s)).

Lemma final_reach D ls s : Forall label_ok ls -> reach D s (final D ls s).
Proof.
  intros Hl. unfold final. destruct (run D ls (start s)) as [y|] eqn:E; cbn; [|constructor]. by eapply run_reach; [| |exact E]; [|constructor].
Qed.

Lemma inflight_kernel_owns_slots_witness :
  NoDup (k_slot <$> ops (final strict (take 6 drop_script) two_slots)) /\ length (ops (final strict (take 6 drop_script) two_slots)) = 1%nat.
Proof.
  split; [|vm_compute; reflexivity].
  apply (inflight_kernel_owns_slots strict two_slots 7 2 _ eq_refl eq_refl ltac:(lia)); [vm_compute; reflexivity|].
  apply final_reach. cbn [take drop_script]. labels_ok.
Defined.


(** C27: Neither discipline can be dropped.  Because the header's completion
    is never cleared, a task polled early after an earlier completion frees the
    slot of its running receive; because slots are reclaimed by task token, a
    task that reissues while a dropped receive is still running has the wrong
    slot reclaimed.  In both runs the next allocation puts two running kernel
    operations on one slot. *)
Theorem inflight_disciplines_needed :
  (exists y a b, reach spurious one_slot y /\ ops y = [a; b] /\ k_phase a = Running /\ k_phase b = Running /\ k_tok a <> k_tok b /\ k_slot a = k_slot b) /\
  (exists y a b, reach reusing two_slots y /\ ops y = [a; b] /\ k_phase a = Running /\ k_phase b = Running /\ k_tok a <> k_tok b /\ k_slot a = k_slot b).
Proof.
  split.
  - exists (final spurious spurious_script one_slot). do 2 eexists. split; [apply final_reach; unfold spurious_script; labels_ok|].
    split; [vm_compute; reflexivity|]. done.
  - exists (final reusing reuse_script two_slots). do 2 eexists. split; [apply final_reach; unfold reuse_script; labels_ok|].
    split; [vm_compute; reflexivity|]. done.
Qed.

End InflightThms.
