(* ===== verification/StreamRegistry.v ===== *)
(** * What a multishot registry promises

    The interface between the two multishot registries
    (src/crates/kwokka-io/src/buffer/multishot/accept.rs and recv.rs, with the
    seam and drain functions that operate on them) and the streams above: the
    view of a registry as one entry per slot, its operations, and the law of
    each, as functions of the entries.  A registry either stashes the terminal
    completion in the slot (recv) or queues it like any other (accept). *)

From S2P Require Import Prelude IoTokens.
From stdpp Require Import base tactics option list numbers.

Local Open Scope Z_scope.

Module StreamRegistry.
Import IoTokens.

(** One slot: occupancy, generation, owning task, the queued completions, the
    terminated bit, the stashed terminal completion and the cancel mark. *)
Record entry (A : Type) : Type := mkEntry {
  e_occ : bool; e_gen : Z; e_owner : Z; e_queue : list A; e_term : bool; e_stash : option A; e_cancel : bool;
}.
Arguments mkEntry {A} _ _ _ _ _ _ _.
Arguments e_occ {A} _.
Arguments e_gen {A} _.
Arguments e_owner {A} _.
Arguments e_queue {A} _.
Arguments e_term {A} _.
Arguments e_stash {A} _.
Arguments e_cancel {A} _.

(** The depth of a slot's queue. *)
Definition MULTISHOT_FIFO_DEPTH : Z := 64.

(** The task to wake and the task whose submission retires. *)
Record MultishotCompletion : Type := mkMc { mc_wake : option Z; mc_retire : option Z }.

Inductive MultishotNext (A : Type) : Type := Item (x : A) | NextPending | Ended.
Arguments Item {A} _.
Arguments NextPending {A}.
Arguments Ended {A}.

Section entries.
Context {A : Type} (stashes : bool).

Definition fresh (gen owner : Z) : entry A := mkEntry true gen owner [] false None false.
Definition freed (e : entry A) : entry A := mkEntry false (wrap U64 (e_gen e + 1)) (e_owner e) [] false None false.
Definition set_queue q (e : entry A) := mkEntry (e_occ e) (e_gen e) (e_owner e) q (e_term e) (e_stash e) (e_cancel e).
Definition set_term (e : entry A) := mkEntry (e_occ e) (e_gen e) (e_owner e) (e_queue e) true (e_stash e) (e_cancel e).
Definition set_stash o (e : entry A) := mkEntry (e_occ e) (e_gen e) (e_owner e) (e_queue e) (e_term e) o (e_cancel e).
Definition set_cancel (e : entry A) := mkEntry (e_occ e) (e_gen e) (e_owner e) (e_queue e) (e_term e) (e_stash e) true.

Definition has_room (e : entry A) : bool := Z.of_nat (length (e_queue e)) <? MULTISHOT_FIFO_DEPTH.

(** The slot is occupied at the low generation bits a sentinel carries. *)
Definition answers (e : entry A) (low : Z) : bool := e_occ e && (e_gen e mod 2 ^ 16 =? low).

(** The entry after a completion, and whether the slot kept it. *)
Definition complete_entry (e : entry A) (low : Z) (more : bool) (x : A) : entry A * bool :=
  if negb (answers e low) then (e, false)
  else if e_cancel e then (if more then e else freed e, false)
  else if more then if has_room e then (set_queue (e_queue e ++ [x]) e, true) else (e, false)
  else if stashes then (set_stash (Some x) (set_term e), true)
  else if has_room e then (set_queue (e_queue e ++ [x]) (set_term e), true) else (set_term e, false).

Definition complete_reply (e : entry A) (low : Z) (more : bool) (kept : bool) : MultishotCompletion :=
  mkMc (if kept then Some (e_owner e) else None)
       (if more then None else if answers e low then Some (e_owner e) else None).

Definition next_entry (e : entry A) : entry A * MultishotNext A :=
  match e_queue e, e_stash e with
  | x :: q, _ => (set_queue q e, Item x)
  | [], Some x => (set_stash None e, Item x)
  | [], None => if e_term e then (freed e, Ended) else (e, NextPending)
  end.

(** Everything the slot still holds. *)
Definition held (e : entry A) : list A := e_queue e ++ option_list (e_stash e).

(** The entry after the cancel of a dropped stream, and whether a cancel goes
    to the kernel. *)
Definition cancel_entry (e : entry A) : entry A * bool :=
  if stashes && e_term e then (freed e, false) else (set_cancel (set_stash None (set_queue [] e)), true).

Record entry_ok (cap i : Z) (e : entry A) : Prop := {
  ok_cap : e_occ e = true -> i < cap;
  ok_gen : fits 64 (e_gen e);
  ok_len : Z.of_nat (length (e_queue e)) <= MULTISHOT_FIFO_DEPTH;
  ok_free : e_occ e = false -> e_queue e = [] /\ e_term e = false /\ e_stash e = None /\ e_cancel e = false;
  ok_cancel : e_cancel e = true -> e_queue e = [] /\ e_stash e = None;
  ok_stash : e_stash e <> None -> stashes = true /\ e_term e = true;
}.
End entries.

(** ** The interface *)

Class Streams (S A : Type) := {
  st_wf : S -> Prop;
  st_at : S -> Z -> entry A;
  st_cap : S -> Z;
  st_worker : S -> Z;
  st_stashes : bool;
  st_sentinel : MultishotSlotKey -> Z;
  st_item : Completion -> A;
  st_res : A -> list Z;
  st_cqe_res : Completion -> list Z;
  st_cqe_fits : Completion -> Prop;
  st_cqe_ok : Completion -> Prop;
  st_allocate : S -> Z -> outcome (option MultishotSlotKey * S);
  st_complete : S -> Completion -> outcome (S * list Z * MultishotCompletion);
  st_next : S -> MultishotSlotKey -> outcome (MultishotNext A * S);
  st_release : S -> MultishotSlotKey -> outcome S;
  st_cancel : bool -> S -> MultishotSlotKey -> outcome (S * list Z * option Z);
}.

Section laws.
Context {S A : Type} {St : Streams S A}.

Definition live (s : S) (key : MultishotSlotKey) : bool :=
  (ms_worker_id key =? st_worker s) && (ms_slot key <? st_cap s) && e_occ (st_at s (ms_slot key)) &&
  (e_gen (st_at s (ms_slot key)) =? ms_generation key).

(** [s'] is the well-formed registry [s] with slot [i] rewritten to [e]. *)
Record rewrites (s s' : S) (i : Z) (e : entry A) : Prop := {
  rw_wf : st_wf s';
  rw_at j : 0 <= j -> st_at s' j = if decide (j = i) then e else st_at s j;
  rw_cap : st_cap s' = st_cap s;
  rw_worker : st_worker s' = st_worker s;
}.

Lemma rewrites_same s i : st_wf s -> rewrites s s i (st_at s i).
Proof. intros W. split; [done| |done..]. intros j _. by case_decide; subst. Qed.

Lemma rewrites_trans s s1 s2 i e1 e2 : rewrites s s1 i e1 -> rewrites s1 s2 i e2 -> rewrites s s2 i e2.
Proof. intros [_ A1 C1 W1] [W2 A2 C2 K2]. split; [done| |congruence..]. intros j Hj. rewrite A2, A1 by done. by case_decide. Qed.

Lemma rewrites_here s s' i e : 0 <= i -> rewrites s s' i e -> st_at s' i = e.
Proof. intros H0 [_ Ha _ _]. rewrite Ha by done. by rewrite decide_True. Qed.

Lemma live_rewrites s s' key e : 0 <= ms_slot key -> rewrites s s' (ms_slot key) e ->
  e_occ e = e_occ (st_at s (ms_slot key)) -> e_gen e = e_gen (st_at s (ms_slot key)) -> live s' key = live s key.
Proof.
  intros H0 R Eo Eg. unfold live. rewrite (rewrites_here s s' _ e H0 R), (rw_cap _ _ _ _ R), (rw_worker _ _ _ _ R), Eo, Eg. done.
Qed.
End laws.

(** The bounds and the effect of each operation. *)
Class StreamLaws (S A : Type) {St : Streams S A} : Prop := {
  st_bounds s : st_wf s -> 0 <= st_cap s <= 2 ^ 16 - 1 /\ forall i, 0 <= i -> entry_ok st_stashes (st_cap s) i (st_at s i);
  st_sentinel_fields key : fits 16 (ms_slot key) -> 0 <= ms_generation key ->
    fits 64 (st_sentinel key) /\
    multishot_sentinel_slot (st_sentinel key) = ms_slot key /\
    multishot_sentinel_generation (st_sentinel key) = ms_generation key mod 2 ^ 16;
  st_item_res c : st_cqe_ok c -> st_res (st_item c) = st_cqe_res c;
  st_allocate_law s owner : st_wf s -> fits 64 owner ->
    exists r s', st_allocate s owner = Ret (r, s') /\
    match r with
    | None => s' = s /\ forall i, 0 <= i < st_cap s -> e_occ (st_at s i) = true
    | Some key => 0 <= ms_slot key < st_cap s /\ e_occ (st_at s (ms_slot key)) = false /\
        key = mkMs (ms_slot key) (e_gen (st_at s (ms_slot key))) (st_worker s) /\
        rewrites s s' (ms_slot key) (fresh (e_gen (st_at s (ms_slot key))) owner)
    end;
  st_complete_law s c : st_wf s -> fits 64 (token c) -> st_cqe_fits c ->
    let i := multishot_sentinel_slot (token c) in
    let low := multishot_sentinel_generation (token c) in
    let e := st_at s i in
    let '(e', kept) := complete_entry st_stashes e low (has_more c) (st_item c) in
    exists s', st_complete s c = Ret (s', if kept then [] else st_cqe_res c, complete_reply e low (has_more c) kept) /\
      rewrites s s' i e';
  st_next_law s key : st_wf s -> 0 <= ms_slot key ->
    if live s key then
      let '(e', r) := next_entry (st_at s (ms_slot key)) in
      exists s', st_next s key = Ret (r, s') /\ rewrites s s' (ms_slot key) e'
    else st_next s key = Ret (NextPending, s);
  st_release_law s key : st_wf s -> 0 <= ms_slot key ->
    if live s key then exists s', st_release s key = Ret s' /\ rewrites s s' (ms_slot key) (freed (st_at s (ms_slot key)))
    else st_release s key = Ret s;
  st_cancel_law accepted s key : st_wf s -> 0 <= ms_slot key ->
    let sent := if accepted : bool then Some (st_sentinel key) else None in
    if live s key then
      let e := st_at s (ms_slot key) in
      let '(e', submits) := cancel_entry st_stashes e in
      exists s', st_cancel accepted s key = Ret (s', held e ≫= st_res, if submits then sent else None) /\
        rewrites s s' (ms_slot key) e'
    else st_cancel accepted s key = Ret (s, [], sent);
}.

End StreamRegistry.
