(* ===== verification/MultishotSlab.v ===== *)
(** * The multishot accept registry

    Models src/crates/kwokka-io/src/buffer/multishot/accept.rs -- the inline
    per-slot rings of accept results with their bitmaps, generations and owner
    tokens -- and the functions that operate on it:
    [allocate_multishot_slot], [multishot_next] and [multishot_free] of
    src/crates/kwokka-io/src/boundary/seam/state.rs, and
    [push_multishot_completion] and [submit_multishot_cancel] of
    src/crates/kwokka-io/src/boundary/seam/drain.rs.  Closing a descriptor is
    reported as an entry of the list of closed descriptors. *)

From S2P Require Import Prelude Words Bitmap IoTokens StreamRegistry.
From stdpp Require Import base tactics option list numbers.

Local Open Scope Z_scope.

Module Multishot.
Import IoTokens StreamRegistry.

Definition DEFAULT_MULTISHOT_CAP : Z := 8.
Definition MAX_MULTISHOT_SLOTS : nat := 8.
Definition BITMAP_WORDS : nat := 1.

Inductive MultishotPush : Type := Queued | Overflowed | Stale.

Record MultishotSlab : Type := mkSlab {
  results : list (list Z);
  head : list Z;
  len : list Z;
  occupied : list Z;
  terminated : list Z;
  cancel_pending : list Z;
  generation : list Z;
  owner_token : list Z;
  worker : Z;
  cap : Z;
}.

Definition set_ring rs h l s := mkSlab rs h l (occupied s) (terminated s) (cancel_pending s) (generation s) (owner_token s) (worker s) (cap s).
Definition set_bits o t c s := mkSlab (results s) (head s) (len s) o t c (generation s) (owner_token s) (worker s) (cap s).
Definition set_generation g s := mkSlab (results s) (head s) (len s) (occupied s) (terminated s) (cancel_pending s) g (owner_token s) (worker s) (cap s).
Definition set_owner o s := mkSlab (results s) (head s) (len s) (occupied s) (terminated s) (cancel_pending s) (generation s) o (worker s) (cap s).

Definition new (worker_id cap : Z) : MultishotSlab :=
  let slots {A} (x : A) := replicate MAX_MULTISHOT_SLOTS x in
  let bits := replicate BITMAP_WORDS 0 in
  mkSlab (slots (replicate (Z.to_nat MULTISHOT_FIFO_DEPTH) 0)) (slots 0) (slots 0) bits bits bits (slots 0) (slots 0)
    worker_id (Z.min cap DEFAULT_MULTISHOT_CAP).

(** [while slot < self.cap]: one turn per slot. *)
Fixpoint first_free_from (turns : nat) (s : MultishotSlab) (slot : Z) : outcome (option Z) :=
  if cap s <=? slot then Ret None else
  match turns with
  | O => OutOfFuel
  | S turns =>
      o ← Bitmap.test (occupied s) slot;
      if negb o then Ret (Some slot) else first_free_from turns s (slot + 1)
  end.

Definition first_free (s : MultishotSlab) : outcome (option Z) := first_free_from (Z.to_nat (cap s)) s 0.

Definition is_live (s : MultishotSlab) (key : MultishotSlotKey) : outcome bool :=
  if negb (ms_worker_id key =? worker s) then Ret false else
  if cap s <=? ms_slot key then Ret false else
  o ← Bitmap.test (occupied s) (ms_slot key);
  if negb o then Ret false else
  g ← Bitmap.index (generation s) (Z.to_nat (ms_slot key));
  Ret (g =? ms_generation key).

Definition is_slot_live (s : MultishotSlab) (slot generation_low16 : Z) : outcome bool :=
  if cap s <=? slot then Ret false else
  o ← Bitmap.test (occupied s) slot;
  if negb o then Ret false else
  g ← Bitmap.index (generation s) (Z.to_nat slot);
  Ret (Z.land g 0xFFFF =? generation_low16).

Definition allocate (s : MultishotSlab) (owner : Z) : outcome (option MultishotSlotKey * MultishotSlab) :=
  free ← first_free s;
  match free with
  | None => Ret (None, s)
  | Some slot =>
      o ← Bitmap.set (occupied s) slot;
      t ← Bitmap.clear (terminated s) slot;
      c ← Bitmap.clear (cancel_pending s) slot;
      h ← Bitmap.store (head s) (Z.to_nat slot) 0;
      l ← Bitmap.store (len s) (Z.to_nat slot) 0;
      w ← Bitmap.store (owner_token s) (Z.to_nat slot) owner;
      g ← Bitmap.index (generation s) (Z.to_nat slot);
      Ret (Some (mkMs slot g (worker s)), set_owner w (set_ring (results s) h l (set_bits o t c s)))
  end.

Definition push (s : MultishotSlab) (slot generation_low16 result : Z) (is_more : bool) : outcome (MultishotPush * MultishotSlab) :=
  l ← is_slot_live s slot generation_low16;
  if negb l then Ret (Stale, s) else
  t ← (if is_more then Ret (terminated s) else Bitmap.set (terminated s) slot);
  let s := set_bits (occupied s) t (cancel_pending s) s in
  n ← Bitmap.index (len s) (Z.to_nat slot);
  if MULTISHOT_FIFO_DEPTH <=? n then Ret (Overflowed, s) else
  h ← Bitmap.index (head s) (Z.to_nat slot);
  sum ← add_or_panic U16 h n;
  let index := sum mod MULTISHOT_FIFO_DEPTH in
  ring ← Bitmap.index (results s) (Z.to_nat slot);
  ring ← Bitmap.store ring (Z.to_nat index) result;
  rs ← Bitmap.store (results s) (Z.to_nat slot) ring;
  n' ← add_or_panic U16 n 1;
  ls ← Bitmap.store (len s) (Z.to_nat slot) n';
  Ret (Queued, set_ring rs (head s) ls s).

Definition pop (s : MultishotSlab) (key : MultishotSlotKey) : outcome (option Z * MultishotSlab) :=
  l ← is_live s key;
  if negb l then Ret (None, s) else
  let slot := Z.to_nat (ms_slot key) in
  n ← Bitmap.index (len s) slot;
  if n =? 0 then Ret (None, s) else
  h ← Bitmap.index (head s) slot;
  ring ← Bitmap.index (results s) slot;
  result ← Bitmap.index ring (Z.to_nat h);
  h1 ← add_or_panic U16 h 1;
  hs ← Bitmap.store (head s) slot (h1 mod MULTISHOT_FIFO_DEPTH);
  n' ← sub_or_panic n 1;
  ls ← Bitmap.store (len s) slot n';
  Ret (Some result, set_ring (results s) hs ls s).

Definition owner (s : MultishotSlab) (slot generation_low16 : Z) : outcome (option Z) :=
  l ← is_slot_live s slot generation_low16;
  if negb l then Ret None else
  o ← Bitmap.index (owner_token s) (Z.to_nat slot);
  Ret (Some o).

Definition is_terminated (s : MultishotSlab) (key : MultishotSlotKey) : outcome bool :=
  l ← is_live s key;
  if negb l then Ret false else Bitmap.test (terminated s) (ms_slot key).

Definition mark_cancel_pending (s : MultishotSlab) (key : MultishotSlotKey) : outcome MultishotSlab :=
  l ← is_live s key;
  if negb l then Ret s else
  c ← Bitmap.set (cancel_pending s) (ms_slot key);
  Ret (set_bits (occupied s) (terminated s) c s).

(** The clearing sequence both frees share. *)
Definition release (s : MultishotSlab) (slot : Z) : outcome MultishotSlab :=
  o ← Bitmap.clear (occupied s) slot;
  t ← Bitmap.clear (terminated s) slot;
  c ← Bitmap.clear (cancel_pending s) slot;
  l ← Bitmap.store (len s) (Z.to_nat slot) 0;
  g ← Bitmap.index (generation s) (Z.to_nat slot);
  gs ← Bitmap.store (generation s) (Z.to_nat slot) (wrap U64 (g + 1));
  Ret (set_generation gs (set_ring (results s) (head s) l (set_bits o t c s))).

Definition free (s : MultishotSlab) (key : MultishotSlotKey) : outcome MultishotSlab :=
  l ← is_live s key;
  if negb l then Ret s else release s (ms_slot key).

Definition is_cancel_pending (s : MultishotSlab) (slot generation_low16 : Z) : outcome bool :=
  l ← is_slot_live s slot generation_low16;
  if negb l then Ret false else Bitmap.test (cancel_pending s) slot.

Definition free_by_slot (s : MultishotSlab) (slot generation_low16 : Z) : outcome MultishotSlab :=
  l ← is_slot_live s slot generation_low16;
  if negb l then Ret s else release s slot.

(** ** The seam; a seam without a registry carries [None] *)

Inductive MultishotAlloc : Type := Allocated (key : MultishotSlotKey) (sentinel : Z) | Full | AllocUnsupported.

Definition allocate_multishot_slot (slab : option MultishotSlab) (owner_token : Z) : outcome (MultishotAlloc * option MultishotSlab) :=
  match slab with
  | None => Ret (AllocUnsupported, None)
  | Some slab =>
      '(r, slab) ← allocate slab owner_token;
      Ret (match r with None => Full | Some key => Allocated key (encode_multishot_sentinel key) end, Some slab)
  end.

Definition multishot_next (slab : option MultishotSlab) (key : MultishotSlotKey) : outcome (MultishotNext Z * option MultishotSlab) :=
  match slab with
  | None => Ret (Ended, None)
  | Some slab =>
      '(r, slab) ← pop slab key;
      match r with
      | Some result => Ret (Item result, Some slab)
      | None =>
          t ← is_terminated slab key;
          if t : bool then slab ← free slab key; Ret (Ended, Some slab) else Ret (NextPending, Some slab)
      end
  end.

Definition multishot_free (slab : option MultishotSlab) (key : MultishotSlotKey) : outcome (option MultishotSlab) :=
  match slab with
  | None => Ret None
  | Some slab => slab ← free slab key; Ret (Some slab)
  end.

(** ** The drain *)

(** [adopt_accepted_fd]: a negative result is an errno. *)
Definition adopt_accepted_fd (result : Z) : option Z := if result <? 0 then None else Some result.

(** The descriptor [dispose_accept_result] closes. *)
Definition dispose_accept_result (result : Z) : list Z := option_list (adopt_accepted_fd result).

Definition push_multishot_completion (slab : MultishotSlab) (user_data result flags : Z)
    : outcome (MultishotSlab * list Z * MultishotCompletion) :=
  let slot := multishot_sentinel_slot user_data in
  let generation := multishot_sentinel_generation user_data in
  let is_more := contains flags MORE in
  own ← owner slab slot generation;
  let retire := if is_more then None else own in
  pending ← is_cancel_pending slab slot generation;
  if pending : bool then
    if is_more then Ret (slab, dispose_accept_result result, mkMc None retire)
    else slab ← free_by_slot slab slot generation; Ret (slab, [], mkMc None retire)
  else
    '(r, slab) ← push slab slot generation result is_more;
    match r with
    | Queued => Ret (slab, [], mkMc own retire)
    | Overflowed | Stale => Ret (slab, if is_more then dispose_accept_result result else [], mkMc None retire)
    end.

(** [while let Some(result) = slab.pop(slot)]: at most one turn per queued
    result and a last one that finds the queue empty. *)
Fixpoint close_queued (turns : nat) (slab : MultishotSlab) (key : MultishotSlotKey) : outcome (list Z * MultishotSlab) :=
  match turns with
  | O => OutOfFuel
  | S turns =>
      '(r, slab) ← pop slab key;
      match r with
      | None => Ret ([], slab)
      | Some result => '(closed, slab) ← close_queued turns slab key; Ret (dispose_accept_result result ++ closed, slab)
      end
  end.

(** The closed descriptors and the [user_data] the accepted cancel targets and
    carries. *)
Definition submit_multishot_cancel (accepted : bool) (slab : MultishotSlab) (key : InflightSlotKey)
    : outcome (MultishotSlab * list Z * option Z) :=
  let slot := mkMs (IoTokens.slot key) (IoTokens.generation key) (IoTokens.worker_id key) in
  '(closed, slab) ← close_queued (Z.to_nat MULTISHOT_FIFO_DEPTH + 1) slab slot;
  slab ← mark_cancel_pending slab slot;
  Ret (slab, closed, if accepted then Some (op_token key) else None).

(** [push_multishot_cancel_for_worker]: the key a dropped stream queues. *)
Definition multishot_cancel_key (key : MultishotSlotKey) : InflightSlotKey :=
  mkKey (ms_slot key) (ms_generation key) (ms_worker_id key) (encode_multishot_sentinel key).

End Multishot.
