(* ===== verification/MultishotSpec.v ===== *)
(** * The accept registry implements the stream interface

    The view of a [MultishotSlab] as one entry per slot, its well-formedness
    and the laws of [StreamRegistry] for the accept side. *)

From S2P Require Import Prelude Words Bitmap IoTokens StreamRegistry MultishotSlab.
From stdpp Require Import base tactics option list numbers.

Local Open Scope Z_scope.

Module MultishotSpec.
Import IoTokens Fifo StreamRegistry Multishot.

Definition cell (s : MultishotSlab) (i j : Z) : Z := nth (Z.to_nat j) (nth (Z.to_nat i) (results s) []) 0.

Definition at_ (s : MultishotSlab) (i : Z) : entry Z :=
  mkEntry (Bitmap.has (occupied s) i) (nth (Z.to_nat i) (generation s) 0) (nth (Z.to_nat i) (owner_token s) 0)
    (window MULTISHOT_FIFO_DEPTH (cell s i) (nth (Z.to_nat i) (head s) 0) (nth (Z.to_nat i) (len s) 0))
    (Bitmap.has (terminated s) i) None (Bitmap.has (cancel_pending s) i).

Record shape (s : MultishotSlab) : Prop := {
  sh_occ : Bitmap.wf BITMAP_WORDS (occupied s);
  sh_term : Bitmap.wf BITMAP_WORDS (terminated s);
  sh_cancel : Bitmap.wf BITMAP_WORDS (cancel_pending s);
  sh_gen : length (generation s) = MAX_MULTISHOT_SLOTS;
  sh_owner : length (owner_token s) = MAX_MULTISHOT_SLOTS;
  sh_head : length (head s) = MAX_MULTISHOT_SLOTS;
  sh_len : length (len s) = MAX_MULTISHOT_SLOTS;
  sh_results : length (results s) = MAX_MULTISHOT_SLOTS;
  sh_ring i : 0 <= i < 8 -> length (nth (Z.to_nat i) (results s) []) = Z.to_nat MULTISHOT_FIFO_DEPTH;
  sh_heads i : 0 <= i -> 0 <= nth (Z.to_nat i) (head s) 0 < MULTISHOT_FIFO_DEPTH;
  sh_lens i : 0 <= i -> 0 <= nth (Z.to_nat i) (len s) 0 <= MULTISHOT_FIFO_DEPTH;
  sh_cap : 0 <= cap s <= DEFAULT_MULTISHOT_CAP;
}.

Record wf (s : MultishotSlab) : Prop := {
  wf_shape : shape s;
  wf_entry i : 0 <= i -> entry_ok false (cap s) i (at_ s i);
}.

#[global] Instance accept_streams : Streams MultishotSlab Z := {
  st_wf := wf;
  st_at := at_;
  st_cap := cap;
  st_worker := worker;
  st_stashes := false;
  st_sentinel := encode_multishot_sentinel;
  st_item := result;
  st_res := dispose_accept_result;
  st_cqe_res c := if has_more c then dispose_accept_result (result c) else [];
  st_cqe_fits _ := True;
  st_cqe_ok c := has_more c = false -> result c < 0;
  st_allocate := allocate;
  st_complete s c := push_multishot_completion s (token c) (result c) (flags c);
  st_next s key := '(r, s) ← multishot_next (Some s) key; match s with Some s => Ret (r, s) | None => Panic end;
  st_release s key := s ← multishot_free (Some s) key; match s with Some s => Ret s | None => Panic end;
  st_cancel accepted s key := submit_multishot_cancel accepted s (multishot_cancel_key key);
}.

(** ** Building a rewritten registry *)

Lemma accept_shape_rewrites s s' i e : wf s -> shape s' -> cap s' = cap s -> worker s' = worker s ->
  (forall j, 0 <= j -> at_ s' j = if decide (j = i) then e else at_ s j) -> entry_ok false (cap s) i e -> rewrites s s' i e.
Proof.
  intros [W We] Sh Hc Hw Ha He. split; [|done..]. split; [done|]. intros j Hj. rewrite Ha, Hc by done. case_decide; [by subst|by apply We].
Qed.

Lemma accept_slot_range s i : shape s -> 0 <= i < cap s -> in_range MAX_MULTISHOT_SLOTS i /\ Bitmap.slot_in BITMAP_WORDS i.
Proof. intros Sh Hi. pose proof (sh_cap s Sh). unfold DEFAULT_MULTISHOT_CAP, in_range, MAX_MULTISHOT_SLOTS, Bitmap.slot_in, BITMAP_WORDS in *. lia. Qed.

Ltac step H := rewrite H; cbn [mbind outcome_bind].

Section ops.
Context (s : MultishotSlab) (W : wf s).
Let Sh : shape s := wf_shape s W.

Lemma accept_occ_cap i : 0 <= i -> e_occ (at_ s i) = true -> 0 <= i < cap s.
Proof. intros H0 Ho. split; [done|]. by apply (wf_entry s W i H0). Qed.

Lemma read_gen i : 0 <= i < cap s -> Bitmap.index (generation s) (Z.to_nat i) = Ret (e_gen (at_ s i)).
Proof. intros Hi. apply index_nth. rewrite (sh_gen s Sh). by apply (accept_slot_range s). Qed.

Lemma read_len i : 0 <= i < cap s ->
  Bitmap.index (len s) (Z.to_nat i) = Ret (Z.of_nat (length (e_queue (at_ s i)))).
Proof.
  intros Hi. rewrite (index_nth _ 0) by (rewrite (sh_len s Sh); by apply (accept_slot_range s)). f_equal. cbn. symmetry. apply length_window, (sh_lens s Sh). lia.
Qed.

Lemma accept_test_bit b i : Bitmap.wf BITMAP_WORDS b -> 0 <= i < cap s -> Bitmap.test b i = Ret (Bitmap.has b i).
Proof. intros Hb Hi. apply (Bitmap.test_spec BITMAP_WORDS); [done|]. by apply (accept_slot_range s). Qed.

Lemma accept_live_spec key : 0 <= ms_slot key -> is_live s key = Ret (live s key).
Proof.
  intros H0. unfold is_live, live. cbn [st_worker st_cap st_at accept_streams]. destruct (_ =? worker s); [|done]. cbn [negb andb].
  destruct (Z.leb_spec (cap s) (ms_slot key)), (Z.ltb_spec (ms_slot key) (cap s)); try lia; [done|]. cbn [andb].
  step (accept_test_bit (occupied s) (ms_slot key) (sh_occ s Sh) ltac:(lia)). change (Bitmap.has (occupied s) (ms_slot key)) with (e_occ (at_ s (ms_slot key))).
  destruct (e_occ _); cbn [negb andb]; [|done]. by step (read_gen (ms_slot key) ltac:(lia)).
Qed.

Lemma accept_slot_live_spec i low : 0 <= i -> is_slot_live s i low = Ret (answers (at_ s i) low).
Proof.
  intros H0. unfold is_slot_live, answers. destruct (Z.leb_spec (cap s) i).
  - destruct (e_occ (at_ s i)) eqn:Ho; [|done]. apply accept_occ_cap in Ho; lia.
  - step (accept_test_bit (occupied s) i (sh_occ s Sh) ltac:(lia)). change (Bitmap.has (occupied s) i) with (e_occ (at_ s i)).
    destruct (e_occ _); cbn [negb andb]; [|done]. step (read_gen i ltac:(lia)). change 0xFFFF with (2 ^ 16 - 1). by rewrite land_ones_mod by lia.
Qed.

Lemma accept_live_slot key : 0 <= ms_slot key -> live s key = true -> 0 <= ms_slot key < cap s /\ e_occ (at_ s (ms_slot key)) = true.
Proof. intros H0 Hl. unfold live in Hl. cbn in Hl. apply andb_true_iff in Hl as [Hl _]. apply andb_true_iff in Hl as [Hl Ho]. apply andb_true_iff in Hl as [_ Hc]. apply Z.ltb_lt in Hc. by split. Qed.

Lemma accept_answers_slot i low : 0 <= i -> answers (at_ s i) low = true -> 0 <= i < cap s.
Proof. intros H0 [Ho _]%andb_true_iff. by apply accept_occ_cap. Qed.

(** ** Release *)

Lemma accept_release_spec i : 0 <= i < cap s -> exists s', release s i = Ret s' /\ rewrites s s' i (freed (at_ s i)).
Proof.
  intros Hi. destruct (accept_slot_range s i Sh Hi) as [Hr Hb]. unfold release.
  destruct (Bitmap.clear_total _ _ i (sh_occ s Sh) Hb) as (o & Ho & Wo & Ao). destruct (Bitmap.clear_total _ _ i (sh_term s Sh) Hb) as (t & Ht & Wt & At).
  destruct (Bitmap.clear_total _ _ i (sh_cancel s Sh) Hb) as (c & Hc & Wc & Ac).
  destruct (store_nth (len s) 0 i 0) as (l & Hl & Ll & Al); [by rewrite (sh_len s Sh)|].
  destruct (store_nth (generation s) 0 i (wrap U64 (e_gen (at_ s i) + 1))) as (g & Hg & Lg & Ag); [by rewrite (sh_gen s Sh)|].
  step Ho. step Ht. step Hc. step Hl. step (read_gen i Hi). step Hg. eexists. split; [done|].
  apply accept_shape_rewrites; [done| |done..| |].
  - destruct Sh. split; cbn; try done; try congruence. intros j Hj. rewrite Al by done. case_decide; [unfold MULTISHOT_FIFO_DEPTH; lia|auto].
  - intros j Hj. unfold at_. cbn. rewrite Ao, At, Ac, Al, Ag by done. case_decide; [subst j|done]. done.
  - destruct (wf_entry s W i ltac:(lia)). split; cbn; try done. unfold fits, wrap. apply Z.mod_pos_bound. lia.
Qed.

(** ** Push *)

Lemma ring_store i j x : in_range MAX_MULTISHOT_SLOTS i -> in_range (Z.to_nat MULTISHOT_FIFO_DEPTH) j ->
  exists r r' rs, Bitmap.index (results s) (Z.to_nat i) = Ret r /\ Bitmap.store r (Z.to_nat j) x = Ret r' /\
    Bitmap.store (results s) (Z.to_nat i) r' = Ret rs /\ length rs = MAX_MULTISHOT_SLOTS /\
    (forall k, 0 <= k < 8 -> length (nth (Z.to_nat k) rs []) = Z.to_nat MULTISHOT_FIFO_DEPTH) /\
    forall k m, 0 <= k -> 0 <= m -> nth (Z.to_nat m) (nth (Z.to_nat k) rs []) 0 = if decide (k = i) then if decide (m = j) then x else cell s k m else cell s k m.
Proof.
  intros Hi Hj. assert (in_range (length (results s)) i) as Hi' by (by rewrite (sh_results s Sh)).
  destruct (store_nth (nth (Z.to_nat i) (results s) []) 0 j x) as (r & Hr & Lr & Ar).
  { rewrite (sh_ring s Sh) by exact Hi. done. }
  destruct (store_nth (results s) [] i r Hi') as (rs & Hrs & Ls & As). exists (nth (Z.to_nat i) (results s) []), r, rs.
  split; [by apply index_nth|]. split; [done|]. split; [done|]. split; [by rewrite Ls, (sh_results s Sh)|]. split.
  - intros k Hk. rewrite As by lia. case_decide; [|by apply (sh_ring s Sh)]. rewrite Lr. by apply (sh_ring s Sh).
  - intros k m Hk Hm. rewrite As by done. case_decide; [|done]. subst k. by rewrite Ar.
Qed.

(** What [push] does past its liveness test, at the terminated bits [t]. *)
Lemma push_tail i x t : 0 <= i < cap s -> e_occ (at_ s i) = true -> e_cancel (at_ s i) = false -> Bitmap.wf BITMAP_WORDS t ->
  forall v, (forall j, 0 <= j -> Bitmap.has t j = if decide (j = i) then v else Bitmap.has (terminated s) j) ->
  let e := at_ s i in
  let e1 := mkEntry true (e_gen e) (e_owner e) (e_queue e) v None false in
  let s1 := set_bits (occupied s) t (cancel_pending s) s in
  rewrites s s1 i e1 /\
  (has_room e = true ->
   exists h r r' rs l s', Bitmap.index (head s) (Z.to_nat i) = Ret h /\
     add_or_panic U16 h (Z.of_nat (length (e_queue e))) = Ret (h + Z.of_nat (length (e_queue e))) /\
     Bitmap.index (results s) (Z.to_nat i) = Ret r /\
     Bitmap.store r (Z.to_nat ((h + Z.of_nat (length (e_queue e))) mod MULTISHOT_FIFO_DEPTH)) x = Ret r' /\
     Bitmap.store (results s) (Z.to_nat i) r' = Ret rs /\
     Bitmap.store (len s) (Z.to_nat i) (Z.of_nat (length (e_queue e)) + 1) = Ret l /\
     s' = set_ring rs (head s) l s1 /\ rewrites s s' i (set_queue (e_queue e ++ [x]) e1)).
Proof.
  intros Hi Ho Hc Wt v At e e1 s1. destruct (accept_slot_range s i Sh Hi) as [Hr Hb]. destruct (wf_entry s W i ltac:(lia)) as [K1 K2 K3 K4 K5 K6].
  assert (forall q : list Z, Z.of_nat (length q) <= MULTISHOT_FIFO_DEPTH -> entry_ok false (cap s) i (mkEntry true (e_gen e) (e_owner e) q v None false)) as Hok.
  { intros q Hq. split; cbn; try done. intros _. lia. }
  assert (shape s1) as Sh1 by (destruct Sh; split; done). split.
  - apply accept_shape_rewrites; [done..| |by apply Hok]. intros j Hj. unfold at_, s1. cbn. rewrite At by done. case_decide; [subst j|done].
    unfold e1. cbn in Ho, Hc. unfold e, at_. cbn. by rewrite Ho, Hc.
  - intros Hroom. set (q := e_queue e) in *. unfold has_room in Hroom. apply Z.ltb_lt in Hroom. fold q in Hroom.
    set (h := nth (Z.to_nat i) (head s) 0). assert (0 <= h < MULTISHOT_FIFO_DEPTH) as Hh by (apply (sh_heads s Sh); lia).
    set (n := Z.of_nat (length q)) in *. assert (nth (Z.to_nat i) (len s) 0 = n) as Hn.
    { unfold n, q, e. cbn. rewrite length_window; [done|]. apply (sh_lens s Sh). lia. }
    assert (0 <= n) by (unfold n; lia). unfold MULTISHOT_FIFO_DEPTH in *.
    destruct (ring_store i ((h + n) mod 64) x Hr) as (r & r' & rs & E1 & E2 & E3 & Lrs & Rl & Rc).
    { unfold in_range, MULTISHOT_FIFO_DEPTH. pose proof (Z.mod_pos_bound (h + n) 64). lia. }
    destruct (store_nth (len s) 0 i (n + 1)) as (l & El & Ll & Al); [by rewrite (sh_len s Sh)|].
    exists h, r, r', rs, l. eexists. split; [apply index_nth; by rewrite (sh_head s Sh)|]. split; [apply add_or_panic_Ret; lia|].
    do 5 (split; [done|]). apply accept_shape_rewrites; [done| |done..| |].
    + destruct Sh. split; cbn; try done; try congruence. intros j Hj. rewrite Al by done. unfold MULTISHOT_FIFO_DEPTH. case_decide; [lia|auto].
    + intros j Hj. unfold at_. cbn. rewrite At, Al by done. case_decide; [subst j|].
      * unfold set_queue, e1. cbn. cbn in Ho, Hc. rewrite Ho, Hc. f_equal. unfold q, e. cbn. rewrite Hn.
        fold h. rewrite <- (window_push MULTISHOT_FIFO_DEPTH (cell s i) h n x) by (unfold MULTISHOT_FIFO_DEPTH; lia). apply window_ext; [done|].
        intros m Hm. unfold cell at 1. cbn. rewrite Rc by lia. by rewrite decide_True by done.
      * f_equal. apply window_ext; [done|]. intros m Hm. unfold cell at 1. cbn. rewrite Rc by lia. by rewrite decide_False by done.
    + apply Hok. fold q. rewrite length_app. cbn [length]. clearbody q. unfold n in *. unfold MULTISHOT_FIFO_DEPTH. lia.
Qed.

Lemma accept_push_spec i low x more : 0 <= i -> answers (at_ s i) low = true -> e_cancel (at_ s i) = false ->
  let e := at_ s i in let e1 := if more : bool then e else set_term e in
  exists s', push s i low x more = Ret (if has_room e then Queued else Overflowed, s') /\
    rewrites s s' i (if has_room e then set_queue (e_queue e ++ [x]) e1 else e1).
Proof.
  intros H0 Ha Hc e e1. fold e in Ha, Hc. pose proof (accept_answers_slot i low H0 Ha) as Hi. destruct (accept_slot_range s i Sh Hi) as [_ Hb].
  assert (e_occ e = true) as Ho by (by apply andb_true_iff in Ha as [? _]).
  assert (exists t v, (if more then Ret (terminated s) else Bitmap.set (terminated s) i) = Ret t /\ Bitmap.wf BITMAP_WORDS t /\
    (forall j, 0 <= j -> Bitmap.has t j = if decide (j = i) then v else Bitmap.has (terminated s) j) /\
    e1 = mkEntry true (e_gen e) (e_owner e) (e_queue e) v None false) as (t & v & Et & Wt & At & Ee).
  { destruct more; [exists (terminated s), (e_term e)|destruct (Bitmap.set_total _ _ i (sh_term s Sh) Hb) as (t & E & Wt & At); exists t, true].
    - split; [done|]. split; [apply Sh|]. split; [intros j _; by case_decide; subst|]. unfold e1. rewrite <- Ho, <- Hc. done.
    - do 3 (split; [done|]). unfold e1, set_term. by rewrite Ho, Hc. }
  destruct (push_tail i x t Hi Ho Hc Wt v At) as [R1 R2]. cbn zeta in R1, R2. fold e in R1, R2. rewrite <- Ee in R1, R2.
  unfold push. step (accept_slot_live_spec i low H0). fold e. rewrite Ha. cbn [negb]. step Et. cbn [set_bits len head results].
  step (read_len i Hi). fold e. unfold has_room in *. destruct (Z.ltb_spec (Z.of_nat (length (e_queue e))) MULTISHOT_FIFO_DEPTH), (Z.leb_spec MULTISHOT_FIFO_DEPTH (Z.of_nat (length (e_queue e)))); try lia.
  - destruct (R2 eq_refl) as (h & r & r' & rs & l & s' & E1 & E2 & E3 & E4 & E5 & E6 & -> & R). step E1. step E2. step E3. step E4. step E5.
    assert (add_or_panic U16 (Z.of_nat (length (e_queue e))) 1 = Ret (Z.of_nat (length (e_queue e)) + 1)) as E7.
    { apply add_or_panic_Ret. unfold MULTISHOT_FIFO_DEPTH in *. lia. }
    step E7. step E6. eexists. split; [done|]. exact R.
  - eexists. split; [done|]. exact R1.
Qed.

(** ** Pop *)

Lemma accept_pop_spec key : 0 <= ms_slot key ->
  if live s key then
    match e_queue (at_ s (ms_slot key)) with
    | [] => pop s key = Ret (None, s)
    | x :: q => exists s', pop s key = Ret (Some x, s') /\ rewrites s s' (ms_slot key) (set_queue q (at_ s (ms_slot key)))
    end
  else pop s key = Ret (None, s).
Proof.
  intros H0. unfold pop. rewrite accept_live_spec by done. cbn [mbind outcome_bind]. destruct (live s key) eqn:Hl; cbn [negb]; [|done].
  destruct (accept_live_slot key H0 Hl) as [Hi Ho]. destruct (accept_slot_range s _ Sh Hi) as [Hr Hb]. set (i := ms_slot key) in *.
  pose proof (sh_lens s Sh i H0) as Hn. pose proof (sh_heads s Sh i H0) as Hh. unfold MULTISHOT_FIFO_DEPTH in Hh, Hn.
  set (n := nth (Z.to_nat i) (len s) 0) in *. set (h := nth (Z.to_nat i) (head s) 0) in *.
  assert (e_queue (at_ s i) = window MULTISHOT_FIFO_DEPTH (cell s i) h n) as Eq by done.
  rewrite (index_nth (len s) 0) by (by rewrite (sh_len s Sh)). cbn [mbind outcome_bind]. fold n. destruct (Z.eqb_spec n 0) as [E0|Hne].
  - rewrite Eq, E0. done.
  - rewrite Eq, window_pop by (unfold MULTISHOT_FIFO_DEPTH; lia).
    rewrite (index_nth (head s) 0) by (by rewrite (sh_head s Sh)). cbn [mbind outcome_bind]. fold h.
    rewrite (index_nth (results s) []) by (by rewrite (sh_results s Sh)). cbn [mbind outcome_bind].
    rewrite (index_nth _ 0) by (rewrite (sh_ring s Sh) by exact Hr; unfold in_range, MULTISHOT_FIFO_DEPTH; lia). cbn [mbind outcome_bind].
    assert (add_or_panic U16 h 1 = Ret (h + 1)) as E1 by (apply add_or_panic_Ret; lia). step E1.
    destruct (store_nth (head s) 0 i ((h + 1) mod MULTISHOT_FIFO_DEPTH)) as (hs & Ehs & Lhs & Ahs); [by rewrite (sh_head s Sh)|].
    destruct (store_nth (len s) 0 i (n - 1)) as (l & El & Ll & Al); [by rewrite (sh_len s Sh)|].
    step Ehs. assert (sub_or_panic n 1 = Ret (n - 1)) as E2 by (apply sub_or_panic_Ret; lia). step E2. step El.
    eexists. split; [done|]. apply accept_shape_rewrites; [done| |done..| |].
    + destruct Sh. split; cbn; try done; try congruence; intros j Hj.
      * rewrite Ahs by done. case_decide; [apply Z.mod_pos_bound; done|auto].
      * rewrite Al by done. unfold MULTISHOT_FIFO_DEPTH. case_decide; [lia|auto].
    + intros j Hj. unfold at_. cbn. rewrite Ahs, Al by done. case_decide; [subst j|done]. done.
    + destruct (wf_entry s W i H0) as [K1 K2 K3 K4 K5 K6]. split; cbn; try done.
      * rewrite length_window by lia. unfold MULTISHOT_FIFO_DEPTH. lia.
      * intros Hf. cbn in Ho. congruence.
      * intros Hcp. destruct (K5 Hcp) as [Hq _]. exfalso. rewrite Eq in Hq. apply (f_equal length) in Hq. cbn in Hq.
        pose proof (length_window MULTISHOT_FIFO_DEPTH (cell s i) h n ltac:(lia)). lia.
Qed.

Lemma term_bit key : 0 <= ms_slot key -> is_terminated s key = Ret (live s key && e_term (at_ s (ms_slot key))).
Proof.
  intros H0. unfold is_terminated. step (accept_live_spec key H0). destruct (live s key) eqn:Hl; cbn [negb andb]; [|done].
  apply accept_test_bit; [apply Sh|]. by apply accept_live_slot.
Qed.

Lemma accept_free_spec key : 0 <= ms_slot key ->
  if live s key then exists s', free s key = Ret s' /\ rewrites s s' (ms_slot key) (freed (at_ s (ms_slot key))) else free s key = Ret s.
Proof.
  intros H0. unfold free. rewrite accept_live_spec by done. cbn [mbind outcome_bind]. destruct (live s key) eqn:Hl; cbn [negb]; [|done].
  apply accept_release_spec. by apply accept_live_slot.
Qed.

Lemma accept_mark_spec key : 0 <= ms_slot key -> (live s key = true -> e_queue (at_ s (ms_slot key)) = []) ->
  if live s key then exists s', mark_cancel_pending s key = Ret s' /\ rewrites s s' (ms_slot key) (set_cancel (at_ s (ms_slot key)))
  else mark_cancel_pending s key = Ret s.
Proof.
  intros H0 Hq. unfold mark_cancel_pending. rewrite accept_live_spec by done. cbn [mbind outcome_bind].
  destruct (live s key) eqn:Hl; cbn [negb]; [|done]. destruct (accept_live_slot key H0 Hl) as [Hi Ho]. destruct (accept_slot_range s _ Sh Hi) as [_ Hb].
  destruct (Bitmap.set_total _ _ _ (sh_cancel s Sh) Hb) as (c & Ec & Wc & Ac). step Ec. eexists. split; [done|].
  apply accept_shape_rewrites; [done|destruct Sh; split; done|done..| |].
  - intros j Hj. unfold at_. cbn. rewrite Ac by done. by case_decide; subst.
  - destruct (wf_entry s W _ H0) as [K1 K2 K3 K4 K5 K6]. split; cbn; try done; [intros Hf; cbn in Ho; congruence|].
    intros _. split; [by apply Hq|done].
Qed.

End ops.

(** ** The laws *)

Lemma close_queued_spec key : 0 <= ms_slot key -> forall turns s, wf s -> (length (e_queue (at_ s (ms_slot key))) < turns)%nat ->
  if live s key then exists s', close_queued turns s key = Ret (e_queue (at_ s (ms_slot key)) ≫= dispose_accept_result, s') /\
    rewrites s s' (ms_slot key) (set_queue [] (at_ s (ms_slot key)))
  else close_queued turns s key = Ret ([], s).
Proof.
  intros H0. induction turns as [|turns IH]; intros s W Ht; [lia|]. cbn [close_queued]. pose proof (accept_pop_spec s W key H0) as Hp.
  destruct (live s key) eqn:Hl; [|by step Hp]. set (e := at_ s (ms_slot key)) in *. destruct (e_queue e) as [|x q] eqn:Eq.
  - step Hp. eexists. split; [done|]. assert (set_queue [] e = e) as -> by (rewrite <- Eq; by destruct e). exact (rewrites_same s _ W).
  - destruct Hp as (s1 & Hp & R1). step Hp. pose proof (rewrites_here _ _ _ _ H0 R1) as Ha. cbn [st_at accept_streams] in Ha.
    specialize (IH s1 (rw_wf _ _ _ _ R1)). rewrite Ha, (live_rewrites s s1 key _ H0 R1), Hl in IH by done. cbn [e_queue set_queue] in IH.
    cbn [length] in Ht. destruct (IH ltac:(lia)) as (s2 & E2 & R2). step E2. eexists. split; [done|]. by apply (rewrites_trans s s1 s2 _ _ _ R1).
Qed.

Lemma accept_cancel_law accepted s key : wf s -> 0 <= ms_slot key ->
  let sent := if accepted : bool then Some (encode_multishot_sentinel key) else None in
  if live s key then
    let '(e', submits) := cancel_entry false (at_ s (ms_slot key)) in
    exists s', submit_multishot_cancel accepted s (multishot_cancel_key key) =
      Ret (s', held (at_ s (ms_slot key)) ≫= dispose_accept_result, if submits then sent else None) /\ rewrites s s' (ms_slot key) e'
  else submit_multishot_cancel accepted s (multishot_cancel_key key) = Ret (s, [], sent).
Proof.
  intros W H0 sent. unfold submit_multishot_cancel, multishot_cancel_key. cbn [slot generation worker_id op_token IoTokens.slot IoTokens.generation].
  replace (mkMs (ms_slot key) (ms_generation key) (ms_worker_id key)) with key by (by destruct key).
  pose proof (close_queued_spec key H0 (Z.to_nat MULTISHOT_FIFO_DEPTH + 1) s W) as Hc. destruct (wf_entry s W _ H0) as [K1 K2 K3 K4 K5 K6].
  set (e := at_ s (ms_slot key)) in *. assert (e_stash e = None) as Es by done.
  ospecialize (Hc _); [unfold MULTISHOT_FIFO_DEPTH in *; lia|]. destruct (live s key) eqn:Hl.
  - cbn [cancel_entry andb]. destruct Hc as (s1 & E1 & R1). step E1. pose proof (rewrites_here _ _ _ _ H0 R1) as Ha. cbn [st_at accept_streams] in Ha.
    pose proof (accept_mark_spec s1 (rw_wf _ _ _ _ R1) key H0) as Hm. rewrite Ha, (live_rewrites s s1 key _ H0 R1), Hl in Hm by done.
    destruct (Hm ltac:(done)) as (s2 & E2 & R2). step E2. eexists. split.
    + unfold held. rewrite Es, app_nil_r. done.
    + by apply (rewrites_trans s s1 s2 _ _ _ R1).
  - step Hc. pose proof (accept_mark_spec s W key H0) as Hm. rewrite Hl in Hm. rewrite Hm by done. done.
Qed.

Lemma accept_complete_law s c : wf s -> fits 64 (token c) -> True ->
  let i := multishot_sentinel_slot (token c) in
  let low := multishot_sentinel_generation (token c) in
  let e := at_ s i in
  let '(e', kept) := complete_entry false e low (has_more c) (result c) in
  exists s', push_multishot_completion s (token c) (result c) (flags c) =
      Ret (s', if kept then [] else if has_more c then dispose_accept_result (result c) else [], complete_reply e low (has_more c) kept) /\
    rewrites s s' i e'.
Proof.
  intros W Ht Hres i low e. assert (0 <= i) as H0 by (unfold i, multishot_sentinel_slot; apply Z.land_nonneg; right; lia).
  unfold push_multishot_completion. fold i low. change (contains (flags c) MORE) with (has_more c). set (more := has_more c) in *.
  unfold owner. step (accept_slot_live_spec s W i low H0). fold e. unfold complete_entry, complete_reply, is_cancel_pending.
  destruct (answers e low) eqn:Ha; cbn [negb].
  2:{ cbn [mbind outcome_bind]. step (accept_slot_live_spec s W i low H0). fold e. rewrite Ha. cbn [negb mbind outcome_bind].
      unfold push. step (accept_slot_live_spec s W i low H0). fold e. rewrite Ha. cbn [negb mbind outcome_bind]. eexists. split; [by destruct more|]. exact (rewrites_same s _ W). }
  pose proof (accept_answers_slot s W i low H0 Ha) as Hi. destruct (accept_slot_range s i (wf_shape s W) Hi) as [Hr _].
  rewrite (index_nth (owner_token s) 0) by (by rewrite (sh_owner s (wf_shape s W))). cbn [mbind outcome_bind].
  change (nth (Z.to_nat i) (owner_token s) 0) with (e_owner e).
  step (accept_slot_live_spec s W i low H0). fold e. rewrite Ha. cbn [negb]. step (accept_test_bit s W _ i (sh_cancel s (wf_shape s W)) Hi).
  change (Bitmap.has (cancel_pending s) i) with (e_cancel e). destruct (e_cancel e) eqn:Hcp.
  - destruct more eqn:Em; [eexists; split; [done|]; exact (rewrites_same s _ W)|]. unfold free_by_slot. step (accept_slot_live_spec s W i low H0).
    fold e. rewrite Ha. cbn [negb]. destruct (accept_release_spec s W i Hi) as (s' & Es & R). step Es. by eexists.
  - destruct (accept_push_spec s W i low (result c) more H0 Ha Hcp) as (s' & Es & R). cbn zeta in R. fold e in Es, R. step Es.
    destruct more eqn:Em; cbn [set_term] in *; destruct (has_room e); (eexists; split; [done|exact R]).
Qed.

Lemma accept_first_free s : wf s -> exists r, first_free s = Ret r /\
  match r with
  | Some i => 0 <= i < cap s /\ e_occ (at_ s i) = false
  | None => forall i, 0 <= i < cap s -> e_occ (at_ s i) = true
  end.
Proof.
  intros W. unfold first_free. assert (forall turns k, 0 <= k -> cap s <= Z.of_nat turns + k -> (forall i, 0 <= i < k -> e_occ (at_ s i) = true) ->
    exists r, first_free_from turns s k = Ret r /\ match r with Some i => 0 <= i < cap s /\ e_occ (at_ s i) = false | None => forall i, 0 <= i < cap s -> e_occ (at_ s i) = true end) as H.
  { induction turns as [|turns IH]; intros k Hk Ht Hb; cbn [first_free_from]; destruct (Z.leb_spec (cap s) k); try lia;
      [eexists; split; [done|]; intros i Hi; apply Hb; lia..|].
    step (accept_test_bit s W _ k (sh_occ s (wf_shape s W)) ltac:(lia)). change (Bitmap.has (occupied s) k) with (e_occ (at_ s k)).
    destruct (e_occ (at_ s k)) eqn:Eo; cbn [negb]; [|eexists; split; [done|]; split; [lia|done]]. apply IH; [lia..|].
    intros i Hi. destruct (Z.eq_dec i k) as [->|]; [done|]. apply Hb. lia. }
  apply H; [lia| |lia]. pose proof (sh_cap s (wf_shape s W)). lia.
Qed.

Lemma accept_allocate_law s own : wf s -> exists r s', allocate s own = Ret (r, s') /\
  match r with
  | None => s' = s /\ forall i, 0 <= i < cap s -> e_occ (at_ s i) = true
  | Some key => 0 <= ms_slot key < cap s /\ e_occ (at_ s (ms_slot key)) = false /\
      key = mkMs (ms_slot key) (e_gen (at_ s (ms_slot key))) (worker s) /\
      rewrites s s' (ms_slot key) (fresh (e_gen (at_ s (ms_slot key))) own)
  end.
Proof.
  intros W. pose proof (wf_shape s W) as Sh. unfold allocate. destruct (accept_first_free s W) as (r & Er & Hr). step Er.
  destruct r as [i|]; [|by do 2 eexists]. destruct Hr as [Hi Ho]. destruct (accept_slot_range s i Sh Hi) as [Hrg Hb].
  destruct (Bitmap.set_total _ _ i (sh_occ s Sh) Hb) as (o & Eo & Wo & Ao). destruct (Bitmap.clear_total _ _ i (sh_term s Sh) Hb) as (t & Et & Wt & At).
  destruct (Bitmap.clear_total _ _ i (sh_cancel s Sh) Hb) as (c & Ec & Wc & Ac).
  destruct (store_nth (head s) 0 i 0) as (h & Eh & Lh & Ah); [by rewrite (sh_head s Sh)|].
  destruct (store_nth (len s) 0 i 0) as (l & El & Ll & Al); [by rewrite (sh_len s Sh)|].
  destruct (store_nth (owner_token s) 0 i own) as (w & Ew & Lw & Aw); [by rewrite (sh_owner s Sh)|].
  step Eo. step Et. step Ec. step Eh. step El. step Ew. step (read_gen s W i Hi). do 2 eexists. split; [done|]. cbn [ms_slot].
  do 3 (split; [done|]). apply accept_shape_rewrites; [done| |done..| |].
  - destruct Sh. split; cbn; try done; try congruence; intros j Hj; rewrite ?Ah, ?Al by done; unfold MULTISHOT_FIFO_DEPTH; case_decide; [lia|auto|lia|auto].
  - intros j Hj. unfold at_. cbn. rewrite Ao, At, Ac, Ah, Al, Aw by done. case_decide; [subst j|done]. done.
  - destruct (wf_entry s W i ltac:(lia)). split; cbn; try done. intros _. lia.
Qed.

#[global] Instance accept_laws : StreamLaws MultishotSlab Z.
Proof.
  split; cbn [st_wf st_at st_cap st_worker st_stashes st_sentinel st_item st_res st_cqe_res st_cqe_fits st_cqe_ok st_allocate st_complete st_next st_release st_cancel accept_streams].
  - intros s W. split; [|apply W]. pose proof (sh_cap s (wf_shape s W)). unfold DEFAULT_MULTISHOT_CAP in *. lia.
  - intros key Hs Hg. destruct (mark_fields MULTISHOT_TOKEN_BASE (ms_slot key) (ms_generation key) Hs Hg) as (H0 & _ & H1 & H2); done.
  - intros c Hc. destruct (has_more c); [done|]. specialize (Hc eq_refl). unfold dispose_accept_result, adopt_accepted_fd.
    by destruct (Z.ltb_spec (result c) 0); [|lia].
  - intros s own W _. by apply accept_allocate_law.
  - apply accept_complete_law.
  - intros s key W H0. cbn [multishot_next]. pose proof (accept_pop_spec s W key H0) as Hp. destruct (live s key) eqn:Hl.
    + unfold next_entry. set (e := at_ s (ms_slot key)) in *. assert (e_stash e = None) as -> by done. destruct (e_queue e) as [|x q] eqn:Eq.
      * step Hp. step (term_bit s W key H0). rewrite Hl. fold e. cbn [andb]. destruct (e_term e); cbn [mbind outcome_bind]; [|eexists; split; [done|]; exact (rewrites_same s _ W)].
        pose proof (accept_free_spec s W key H0) as Hf. rewrite Hl in Hf. destruct Hf as (s' & Ef & R). step Ef. by eexists.
      * destruct Hp as (s' & Hp & R). step Hp. by eexists.
    + step Hp. step (term_bit s W key H0). by rewrite Hl.
  - intros s key W H0. cbn [multishot_free]. pose proof (accept_free_spec s W key H0) as Hf. destruct (live s key); [|by step Hf].
    destruct Hf as (s' & Ef & R). step Ef. by eexists.
  - intros accepted s key W H0. apply accept_cancel_law; done.
Qed.

Lemma accept_new_wf w c : 0 <= c -> wf (new w c) /\ forall i, 0 <= i -> e_occ (at_ (new w c) i) = false.
Proof.
  intros Hc. assert (forall (A : Type) (d : A) n k, nth k (replicate n d) d = d) as Hn.
  { intros A d n k. rewrite nth_lookup. destruct (_ !! _) as [x|] eqn:Ex; cbn; [|done]. by apply lookup_replicate in Ex as [-> _]. }
  assert (forall i, Bitmap.has (replicate BITMAP_WORDS 0) i = false) as Hb by (intros i; unfold Bitmap.has; by rewrite Hn, Z.bits_0).
  assert (Bitmap.wf BITMAP_WORDS (replicate BITMAP_WORDS 0)) as Hw by (split; [done|]; repeat constructor; unfold fits; lia).
  split; [|intros i _; apply Hb]. split.
  - split; cbn [new occupied terminated cancel_pending generation owner_token head len results cap]; rewrite ?length_replicate; try done.
    + intros i Hi. rewrite nth_lookup, lookup_replicate_2 by (unfold MAX_MULTISHOT_SLOTS; lia). cbn. by rewrite length_replicate.
    + intros i _. by rewrite Hn.
    + intros i _. by rewrite Hn.
    + unfold DEFAULT_MULTISHOT_CAP. lia.
  - intros i Hi. unfold at_. cbn [new occupied terminated cancel_pending generation owner_token head len results]. rewrite !Hb, !Hn. split; cbn; try done.
Qed.

End MultishotSpec.
