(* ===== verification/RecvSlab.v ===== *)
(** * The multishot receive registry

    Models src/crates/kwokka-io/src/buffer/multishot/recv.rs -- the registry
    whose per-slot cursors, generations, owners and stashed terminals are
    records of a byte region, and whose queues are rings of packed entries in
    a second one -- and the functions that operate on it:
    [allocate_recv_multishot_slot], [recv_multishot_next] and
    [recv_multishot_free] of src/crates/kwokka-io/src/boundary/seam/state.rs,
    and [push_recv_multishot_completion] and [submit_recv_multishot_cancel] of
    src/crates/kwokka-io/src/boundary/seam/drain.rs.  A recycled buffer id is
    reported as an entry of the list of recycled ids; the driver is taken to
    have a pool, without which the kernel selects no buffer. *)

From S2P Require Import Prelude Words Bitmap IrBytes IoTokens StreamRegistry.
From Stdlib.Init Require Import Byte.
From stdpp Require Import base tactics option list numbers.

Local Open Scope Z_scope.

Module RecvMultishot.
Import Bytes IoTokens StreamRegistry Region.

Definition DEFAULT_RECV_MULTISHOT_CAP : Z := 256.
Definition MAX_RECV_MULTISHOT_SLOTS : Z := 256.
Definition BITMAP_WORDS : nat := 4.
Definition ENTRY_LEN : Z := 6.
Definition META_ENTRY_LEN : Z := 26.
Definition META_LEN_OFFSET : Z := 2.
Definition META_GENERATION_OFFSET : Z := 4.
Definition META_OWNER_TOKEN_OFFSET : Z := 12.
Definition META_TERMINAL_RESULT_OFFSET : Z := 20.
Definition META_TERMINAL_BUF_ID_OFFSET : Z := 24.
Definition NO_BUFFER : Z := 2 ^ 16 - 1.

Inductive RecvMultishotPush : Type := Queued | Terminal | Overflowed | Stale.

Record RecvMultishotSlab : Type := mkSlab {
  storage : list byte;
  metadata : list byte;
  occupied : list Z;
  terminated : list Z;
  terminal_stashed : list Z;
  cancel_pending : list Z;
  worker : Z;
  cap : Z;
}.

Definition set_storage x s := mkSlab x (metadata s) (occupied s) (terminated s) (terminal_stashed s) (cancel_pending s) (worker s) (cap s).
Definition set_metadata x s := mkSlab (storage s) x (occupied s) (terminated s) (terminal_stashed s) (cancel_pending s) (worker s) (cap s).
Definition set_bits o t d c s := mkSlab (storage s) (metadata s) o t d c (worker s) (cap s).

(** [mapped]: whether the two [mmap] calls succeed. *)
Definition new (mapped : bool * bool) (worker_id cap : Z) : option RecvMultishotSlab :=
  let cap := Z.min cap DEFAULT_RECV_MULTISHOT_CAP in
  if negb (fst mapped && snd mapped) then None else
  let bits := replicate BITMAP_WORDS 0 in
  Some (mkSlab (replicate (Z.to_nat (MAX_RECV_MULTISHOT_SLOTS * MULTISHOT_FIFO_DEPTH * ENTRY_LEN)) x00)
          (replicate (Z.to_nat (MAX_RECV_MULTISHOT_SLOTS * META_ENTRY_LEN)) x00) bits bits bits bits worker_id cap).

Definition entry_offset (slot ring_index : Z) : Z := (slot * MULTISHOT_FIFO_DEPTH + ring_index) * ENTRY_LEN.
Definition meta_offset (slot : Z) : Z := slot * META_ENTRY_LEN.

Definition slot_head s (slot : Z) : Z := read_u16 (metadata s) (meta_offset slot).
Definition set_slot_head s (slot value : Z) := set_metadata (write_u16 (metadata s) (meta_offset slot) value) s.
Definition slot_len s (slot : Z) : Z := read_u16 (metadata s) (meta_offset slot + META_LEN_OFFSET).
Definition set_slot_len s (slot value : Z) := set_metadata (write_u16 (metadata s) (meta_offset slot + META_LEN_OFFSET) value) s.
Definition slot_generation s (slot : Z) : Z := read_u64 (metadata s) (meta_offset slot + META_GENERATION_OFFSET).
Definition set_slot_generation s (slot value : Z) := set_metadata (write_u64 (metadata s) (meta_offset slot + META_GENERATION_OFFSET) value) s.
Definition slot_owner_token s (slot : Z) : Z := read_u64 (metadata s) (meta_offset slot + META_OWNER_TOKEN_OFFSET).
Definition set_slot_owner_token s (slot value : Z) := set_metadata (write_u64 (metadata s) (meta_offset slot + META_OWNER_TOKEN_OFFSET) value) s.
Definition slot_terminal s (slot : Z) : Z * Z :=
  let base := meta_offset slot in
  (read_i32 (metadata s) (base + META_TERMINAL_RESULT_OFFSET), read_u16 (metadata s) (base + META_TERMINAL_BUF_ID_OFFSET)).
Definition set_slot_terminal s (slot result buf_id : Z) :=
  let base := meta_offset slot in
  let m := write_i32 (metadata s) (base + META_TERMINAL_RESULT_OFFSET) result in
  set_metadata (write_u16 m (base + META_TERMINAL_BUF_ID_OFFSET) buf_id) s.

Definition first_free (s : RecvMultishotSlab) : option Z := Bitmap.first_free (cap s) (occupied s).

Definition is_live (s : RecvMultishotSlab) (key : MultishotSlotKey) : outcome bool :=
  if negb (ms_worker_id key =? worker s) then Ret false else
  if cap s <=? ms_slot key then Ret false else
  o ← Bitmap.test (occupied s) (ms_slot key);
  Ret (o && (slot_generation s (ms_slot key) =? ms_generation key)).

Definition is_slot_live (s : RecvMultishotSlab) (slot generation_low16 : Z) : outcome bool :=
  if cap s <=? slot then Ret false else
  o ← Bitmap.test (occupied s) slot;
  Ret (o && (Z.land (slot_generation s slot) 0xFFFF =? generation_low16)).

Definition allocate (s : RecvMultishotSlab) (owner_token : Z) : outcome (option MultishotSlotKey * RecvMultishotSlab) :=
  match first_free s with
  | None => Ret (None, s)
  | Some slot =>
      o ← Bitmap.set (occupied s) slot;
      t ← Bitmap.clear (terminated s) slot;
      d ← Bitmap.clear (terminal_stashed s) slot;
      c ← Bitmap.clear (cancel_pending s) slot;
      let s := set_bits o t d c s in
      let s := set_slot_head s slot 0 in
      let s := set_slot_len s slot 0 in
      let s := set_slot_owner_token s slot owner_token in
      Ret (Some (mkMs slot (slot_generation s slot) (worker s)), s)
  end.

Definition push (s : RecvMultishotSlab) (slot generation_low16 result buf_id : Z) (is_more : bool)
    : outcome (RecvMultishotPush * RecvMultishotSlab) :=
  l ← is_slot_live s slot generation_low16;
  if negb l then Ret (Stale, s) else
  if negb is_more then
    t ← Bitmap.set (terminated s) slot;
    let s := set_bits (occupied s) t (terminal_stashed s) (cancel_pending s) s in
    let s := set_slot_terminal s slot result buf_id in
    d ← Bitmap.set (terminal_stashed s) slot;
    Ret (Terminal, set_bits (occupied s) (terminated s) d (cancel_pending s) s)
  else
  let len := slot_len s slot in
  if MULTISHOT_FIFO_DEPTH <=? len then Ret (Overflowed, s) else
  let head := slot_head s slot in
  sum ← add_or_panic U16 head len;
  let offset := entry_offset slot (sum mod MULTISHOT_FIFO_DEPTH) in
  bytes ← copy_at (storage s) offset (le_encode 4 (wrap U32 result));
  bytes ← copy_at bytes (offset + 4) (le_encode 2 buf_id);
  let s := set_storage bytes s in
  len' ← add_or_panic U16 len 1;
  Ret (Queued, set_slot_len s slot len').

Definition pop (s : RecvMultishotSlab) (key : MultishotSlotKey) : outcome (option (Z * Z) * RecvMultishotSlab) :=
  l ← is_live s key;
  if negb l then Ret (None, s) else
  let slot := ms_slot key in
  let len := slot_len s slot in
  if len =? 0 then Ret (None, s) else
  let head := slot_head s slot in
  let offset := entry_offset slot head in
  match get_range (storage s) offset (offset + 4), get_range (storage s) (offset + 4) (offset + ENTRY_LEN) with
  | Some result_bytes, Some buf_id_bytes =>
      h ← add_or_panic U16 head 1;
      let s := set_slot_head s slot (h mod MULTISHOT_FIFO_DEPTH) in
      n ← sub_or_panic len 1;
      let s := set_slot_len s slot n in
      Ret (Some (i32_of (le_decode result_bytes), le_decode buf_id_bytes), s)
  | _, _ => Panic
  end.

Definition take_terminal (s : RecvMultishotSlab) (key : MultishotSlotKey) : outcome (option (Z * Z) * RecvMultishotSlab) :=
  l ← is_live s key;
  if negb l then Ret (None, s) else
  stashed ← Bitmap.test (terminal_stashed s) (ms_slot key);
  if negb stashed then Ret (None, s) else
  d ← Bitmap.clear (terminal_stashed s) (ms_slot key);
  let s := set_bits (occupied s) (terminated s) d (cancel_pending s) s in
  Ret (Some (slot_terminal s (ms_slot key)), s).

Definition owner (s : RecvMultishotSlab) (slot generation_low16 : Z) : outcome (option Z) :=
  l ← is_slot_live s slot generation_low16;
  if negb l then Ret None else Ret (Some (slot_owner_token s slot)).

Definition is_terminated (s : RecvMultishotSlab) (key : MultishotSlotKey) : outcome bool :=
  l ← is_live s key;
  if negb l then Ret false else Bitmap.test (terminated s) (ms_slot key).

Definition mark_cancel_pending (s : RecvMultishotSlab) (key : MultishotSlotKey) : outcome RecvMultishotSlab :=
  l ← is_live s key;
  if negb l then Ret s else
  c ← Bitmap.set (cancel_pending s) (ms_slot key);
  Ret (set_bits (occupied s) (terminated s) (terminal_stashed s) c s).

(** The clearing sequence both frees share. *)
Definition release (s : RecvMultishotSlab) (slot : Z) : outcome RecvMultishotSlab :=
  o ← Bitmap.clear (occupied s) slot;
  t ← Bitmap.clear (terminated s) slot;
  d ← Bitmap.clear (terminal_stashed s) slot;
  c ← Bitmap.clear (cancel_pending s) slot;
  let s := set_bits o t d c s in
  let s := set_slot_len s slot 0 in
  Ret (set_slot_generation s slot (wrap U64 (slot_generation s slot + 1))).

Definition free (s : RecvMultishotSlab) (key : MultishotSlotKey) : outcome RecvMultishotSlab :=
  l ← is_live s key;
  if negb l then Ret s else release s (ms_slot key).

Definition is_cancel_pending (s : RecvMultishotSlab) (slot generation_low16 : Z) : outcome bool :=
  l ← is_slot_live s slot generation_low16;
  if negb l then Ret false else Bitmap.test (cancel_pending s) slot.

Definition free_by_slot (s : RecvMultishotSlab) (slot generation_low16 : Z) : outcome RecvMultishotSlab :=
  l ← is_slot_live s slot generation_low16;
  if negb l then Ret s else release s slot.

(** ** The seam *)

Inductive RecvMultishotAlloc : Type := Allocated (key : MultishotSlotKey) (sentinel : Z) | Full | AllocUnsupported.

Definition allocate_recv_multishot_slot (slab : option RecvMultishotSlab) (owner_token : Z)
    : outcome (RecvMultishotAlloc * option RecvMultishotSlab) :=
  match slab with
  | None => Ret (AllocUnsupported, None)
  | Some slab =>
      '(r, slab) ← allocate slab owner_token;
      Ret (match r with None => Full | Some key => Allocated key (encode_recv_multishot_sentinel key) end, Some slab)
  end.

(** The buffer an entry names, [None] when it consumed none. *)
Definition buffer_of (buf_id : Z) : option Z := if buf_id =? NO_BUFFER then None else Some buf_id.

Definition recv_multishot_next (slab : option RecvMultishotSlab) (key : MultishotSlotKey)
    : outcome (MultishotNext (Z * option Z) * option RecvMultishotSlab) :=
  match slab with
  | None => Ret (Ended, None)
  | Some slab =>
      '(r, slab) ← pop slab key;
      match r with
      | Some (result, buf_id) => Ret (Item (result, buffer_of buf_id), Some slab)
      | None =>
          '(r, slab) ← take_terminal slab key;
          match r with
          | Some (result, buf_id) => Ret (Item (result, buffer_of buf_id), Some slab)
          | None =>
              t ← is_terminated slab key;
              if t : bool then slab ← free slab key; Ret (Ended, Some slab) else Ret (NextPending, Some slab)
          end
      end
  end.

Definition recv_multishot_free (slab : option RecvMultishotSlab) (key : MultishotSlotKey) : outcome (option RecvMultishotSlab) :=
  match slab with
  | None => Ret None
  | Some slab => slab ← free slab key; Ret (Some slab)
  end.

(** ** The drain *)

(** The id [recycle_provided] returns to the pool. *)
Definition recycle_provided (buf_id : option Z) : list Z := option_list buf_id.

Definition push_recv_multishot_completion (slab : RecvMultishotSlab) (user_data result flags : Z) (buf_id : option Z)
    : outcome (RecvMultishotSlab * list Z * MultishotCompletion) :=
  let slot := multishot_sentinel_slot user_data in
  let generation := multishot_sentinel_generation user_data in
  let is_more := contains flags MORE in
  own ← owner slab slot generation;
  let retire := if is_more then None else own in
  pending ← is_cancel_pending slab slot generation;
  if pending : bool then
    slab ← (if is_more then Ret slab else free_by_slot slab slot generation);
    Ret (slab, recycle_provided buf_id, mkMc None retire)
  else
    '(r, slab) ← push slab slot generation result (default NO_BUFFER buf_id) is_more;
    match r with
    | Queued | Terminal => Ret (slab, [], mkMc own retire)
    | Overflowed | Stale => Ret (slab, recycle_provided buf_id, mkMc None retire)
    end.

(** [while let Some((_, buf_id)) = slab.pop(key)]. *)
Fixpoint recycle_queued (turns : nat) (slab : RecvMultishotSlab) (key : MultishotSlotKey) : outcome (list Z * RecvMultishotSlab) :=
  match turns with
  | O => OutOfFuel
  | S turns =>
      '(r, slab) ← pop slab key;
      match r with
      | None => Ret ([], slab)
      | Some (_, buf_id) => '(ids, slab) ← recycle_queued turns slab key; Ret (recycle_provided (buffer_of buf_id) ++ ids, slab)
      end
  end.

(** The recycled ids and the [user_data] of the submitted cancel. *)
Definition submit_recv_multishot_cancel (accepted : bool) (slab : RecvMultishotSlab) (key : MultishotSlotKey)
    : outcome (RecvMultishotSlab * list Z * option Z) :=
  '(ids, slab) ← recycle_queued (Z.to_nat MULTISHOT_FIFO_DEPTH + 1) slab key;
  '(r, slab) ← take_terminal slab key;
  let ids := ids ++ match r with Some (_, buf_id) => recycle_provided (buffer_of buf_id) | None => [] end in
  t ← is_terminated slab key;
  if t : bool then slab ← free slab key; Ret (slab, ids, None) else
  slab ← mark_cancel_pending slab key;
  Ret (slab, ids, if accepted then Some (encode_recv_multishot_sentinel key) else None).

End RecvMultishot.
