(* ===== verification/RecvSpec.v ===== *)
(** * The receive registry implements the stream interface

    The metadata region as one record per slot, the storage region as one
    ring of entries per slot, the well-formedness of a [RecvMultishotSlab] and
    the laws of [StreamRegistry] for the receive side. *)

From S2P Require Import Prelude Words IrBytes Bitmap IoTokens StreamRegistry RecvSlab.
From Stdlib.Init Require Import Byte.
From stdpp Require Import base tactics option list numbers.

Local Open Scope Z_scope.

Module RecvSpec.
Import Bytes IoTokens Fifo StreamRegistry Region RecvMultishot.

(** ** The metadata records *)

Record record : Type := mkRec { m_head : Z; m_len : Z; m_gen : Z; m_owner : Z; m_res : Z; m_buf : Z }.

Definition meta (m : list byte) (i : Z) : record :=
  mkRec (read_u16 m (meta_offset i)) (read_u16 m (meta_offset i + META_LEN_OFFSET)) (read_u64 m (meta_offset i + META_GENERATION_OFFSET))
    (read_u64 m (meta_offset i + META_OWNER_TOKEN_OFFSET)) (read_i32 m (meta_offset i + META_TERMINAL_RESULT_OFFSET))
    (read_u16 m (meta_offset i + META_TERMINAL_BUF_ID_OFFSET)).

Definition META_BYTES : Z := 6656.
Definition STORAGE_BYTES : Z := 98304.

(** Writing one field of one record. *)
Ltac field_tac :=
  let j := fresh "j" in intros;
  unfold meta, read_u16, read_u64, read_i32, write_u16, write_u64, write_i32, meta_offset, META_LEN_OFFSET, META_GENERATION_OFFSET,
    META_OWNER_TOKEN_OFFSET, META_TERMINAL_RESULT_OFFSET, META_TERMINAL_BUF_ID_OFFSET, META_ENTRY_LEN, META_BYTES in *;
  case_decide; [subst|]; cbn [m_head m_len m_gen m_owner m_res m_buf]; f_equal;
  first [apply read_write_same; [lia|lia|done] | apply read_write_other; lia
        | f_equal; apply read_write_other; lia | rewrite read_write_same; [by apply i32_of_wrap|lia|lia|by apply wrap_fits] ].

Section fields.
Context (m : list byte) (Hm : zlen m = META_BYTES) (i : Z) (Hi : 0 <= i < 256).

Lemma meta_head v j : 0 <= j -> fits 16 v -> meta (write_u16 m (meta_offset i) v) j =
  if decide (j = i) then mkRec v (m_len (meta m i)) (m_gen (meta m i)) (m_owner (meta m i)) (m_res (meta m i)) (m_buf (meta m i)) else meta m j.
Proof. field_tac. Qed.

Lemma meta_len v j : 0 <= j -> fits 16 v -> meta (write_u16 m (meta_offset i + META_LEN_OFFSET) v) j =
  if decide (j = i) then mkRec (m_head (meta m i)) v (m_gen (meta m i)) (m_owner (meta m i)) (m_res (meta m i)) (m_buf (meta m i)) else meta m j.
Proof. field_tac. Qed.

Lemma meta_gen v j : 0 <= j -> fits 64 v -> meta (write_u64 m (meta_offset i + META_GENERATION_OFFSET) v) j =
  if decide (j = i) then mkRec (m_head (meta m i)) (m_len (meta m i)) v (m_owner (meta m i)) (m_res (meta m i)) (m_buf (meta m i)) else meta m j.
Proof. field_tac. Qed.

Lemma meta_owner v j : 0 <= j -> fits 64 v -> meta (write_u64 m (meta_offset i + META_OWNER_TOKEN_OFFSET) v) j =
  if decide (j = i) then mkRec (m_head (meta m i)) (m_len (meta m i)) (m_gen (meta m i)) v (m_res (meta m i)) (m_buf (meta m i)) else meta m j.
Proof. field_tac. Qed.

Lemma meta_res v j : 0 <= j -> i32_fits v -> meta (write_i32 m (meta_offset i + META_TERMINAL_RESULT_OFFSET) v) j =
  if decide (j = i) then mkRec (m_head (meta m i)) (m_len (meta m i)) (m_gen (meta m i)) (m_owner (meta m i)) v (m_buf (meta m i)) else meta m j.
Proof. field_tac. Qed.

Lemma meta_buf v j : 0 <= j -> fits 16 v -> meta (write_u16 m (meta_offset i + META_TERMINAL_BUF_ID_OFFSET) v) j =
  if decide (j = i) then mkRec (m_head (meta m i)) (m_len (meta m i)) (m_gen (meta m i)) (m_owner (meta m i)) (m_res (meta m i)) v else meta m j.
Proof. field_tac. Qed.
End fields.

(** ** The storage rings *)

Definition cell (s : RecvMultishotSlab) (i j : Z) : Z * option Z :=
  (i32_of (read_uint 4 (storage s) (entry_offset i j)), buffer_of (read_uint 2 (storage s) (entry_offset i j + 4))).

Lemma cell_write (st : list byte) i j r b i' j' : zlen st = STORAGE_BYTES -> 0 <= i < 256 -> 0 <= j < 64 -> 0 <= i' -> 0 <= j' < 64 ->
  i32_fits r -> fits 16 b ->
  let o := entry_offset i j in
  let st' := write_uint 2 (write_uint 4 st o (wrap U32 r)) (o + 4) b in
  (i32_of (read_uint 4 st' (entry_offset i' j')), buffer_of (read_uint 2 st' (entry_offset i' j' + 4))) =
  if decide (i' = i) then if decide (j' = j) then (r, buffer_of b) else (i32_of (read_uint 4 st (entry_offset i' j')), buffer_of (read_uint 2 st (entry_offset i' j' + 4)))
  else (i32_of (read_uint 4 st (entry_offset i' j')), buffer_of (read_uint 2 st (entry_offset i' j' + 4))).
Proof.
  intros Hs Hi Hj Hi' Hj' Hr Hb o st'. unfold st', o, entry_offset, STORAGE_BYTES, MULTISHOT_FIFO_DEPTH, ENTRY_LEN in *.
  pose proof (zlen_write 4 st ((i * 64 + j) * 6) (wrap U32 r) ltac:(lia)) as Hz.
  destruct (decide (i' = i)) as [->|]; [destruct (decide (j' = j)) as [->|]|].
  - f_equal; [|f_equal; apply read_write_same; [lia|lia|done]]. rewrite read_write_other by lia.
    rewrite read_write_same; [by apply i32_of_wrap|lia|lia|by apply wrap_fits].
  - rewrite !read_write_other by lia. done.
  - rewrite !read_write_other by lia. done.
Qed.

(** ** The view *)

Definition at_ (s : RecvMultishotSlab) (i : Z) : entry (Z * option Z) :=
  let k := meta (metadata s) i in
  mkEntry (Bitmap.has (occupied s) i) (m_gen k) (m_owner k) (window MULTISHOT_FIFO_DEPTH (cell s i) (m_head k) (m_len k))
    (Bitmap.has (terminated s) i) (if Bitmap.has (terminal_stashed s) i then Some (m_res k, buffer_of (m_buf k)) else None)
    (Bitmap.has (cancel_pending s) i).

Record shape (s : RecvMultishotSlab) : Prop := {
  sh_occ : Bitmap.wf BITMAP_WORDS (occupied s);
  sh_term : Bitmap.wf BITMAP_WORDS (terminated s);
  sh_stash : Bitmap.wf BITMAP_WORDS (terminal_stashed s);
  sh_cancel : Bitmap.wf BITMAP_WORDS (cancel_pending s);
  sh_meta : zlen (metadata s) = META_BYTES;
  sh_storage : zlen (storage s) = STORAGE_BYTES;
  sh_heads i : 0 <= i -> 0 <= m_head (meta (metadata s) i) < MULTISHOT_FIFO_DEPTH;
  sh_lens i : 0 <= i -> 0 <= m_len (meta (metadata s) i) <= MULTISHOT_FIFO_DEPTH;
  sh_cap : 0 <= cap s <= DEFAULT_RECV_MULTISHOT_CAP;
}.

Record wf (s : RecvMultishotSlab) : Prop := {
  wf_shape : shape s;
  wf_entry i : 0 <= i -> entry_ok true (cap s) i (at_ s i);
}.

Definition cqe_ok (c : Completion) : Prop := i32_fits (result c) /\ match buf_id c with Some b => 0 <= b < NO_BUFFER | None => True end.

#[global] Instance recv_streams : Streams RecvMultishotSlab (Z * option Z) := {
  st_wf := wf;
  st_at := at_;
  st_cap := cap;
  st_worker := worker;
  st_stashes := true;
  st_sentinel := encode_recv_multishot_sentinel;
  st_item c := (result c, buf_id c);
  st_res x := recycle_provided (snd x);
  st_cqe_res c := recycle_provided (buf_id c);
  st_cqe_fits := cqe_ok;
  st_cqe_ok _ := True;
  st_allocate := allocate;
  st_complete s c := push_recv_multishot_completion s (token c) (result c) (flags c) (buf_id c);
  st_next s key := '(r, s) ← recv_multishot_next (Some s) key; match s with Some s => Ret (r, s) | None => Panic end;
  st_release s key := s ← recv_multishot_free (Some s) key; match s with Some s => Ret s | None => Panic end;
  st_cancel := submit_recv_multishot_cancel;
}.

Lemma shape_rewrites s s' i e : wf s -> shape s' -> cap s' = cap s -> worker s' = worker s ->
  (forall j, 0 <= j -> at_ s' j = if decide (j = i) then e else at_ s j) -> entry_ok true (cap s) i e -> rewrites s s' i e.
Proof.
  intros [W We] Sh Hc Hw Ha He. split; [|done..]. split; [done|]. intros j Hj. rewrite Ha, Hc by done. case_decide; [by subst|by apply We].
Qed.

Lemma slot_range s i : shape s -> 0 <= i < cap s -> 0 <= i < 256 /\ Bitmap.slot_in BITMAP_WORDS i.
Proof. intros Sh Hi. pose proof (sh_cap s Sh). unfold DEFAULT_RECV_MULTISHOT_CAP, Bitmap.slot_in, BITMAP_WORDS in *. lia. Qed.

Lemma buffer_round b : match b with Some x => 0 <= x < NO_BUFFER | None => True end -> buffer_of (default NO_BUFFER b) = b /\ fits 16 (default NO_BUFFER b).
Proof. unfold buffer_of, NO_BUFFER, fits. destruct b as [x|]; cbn; [|intros _; split; [done|lia]]. intros Hx. destruct (Z.eqb_spec x (2 ^ 16 - 1)); [lia|]. split; [done|lia]. Qed.

End RecvSpec.

(** * The laws of the receive registry

    What each operation of a [RecvMultishotSlab] does to the entries of its
    view, and the [StreamLaws] instance. *)

From Stdlib.Init Require Import Byte.
From stdpp Require Import base tactics option list numbers.

Local Open Scope Z_scope.

Module RecvLaws.
Import Bytes IoTokens Fifo StreamRegistry Region RecvMultishot RecvSpec.

Ltac step H := rewrite H; cbn [mbind outcome_bind].

(** [b'] is the bitmap [b] with bit [i] set to [v]. *)
Definition bit_to (b b' : list Z) (i : Z) (v : bool) : Prop :=
  Bitmap.wf BITMAP_WORDS b' /\ forall j, 0 <= j -> Bitmap.has b' j = if decide (j = i) then v else Bitmap.has b j.

Lemma bit_kept b i : Bitmap.wf BITMAP_WORDS b -> bit_to b b i (Bitmap.has b i).
Proof. intros Hb. split; [done|]. intros j _. by case_decide; subst. Qed.

(** [m'] is the metadata [m] with record [i] rewritten to [k]. *)
Definition record_to (m m' : list byte) (i : Z) (k : record) : Prop :=
  zlen m' = META_BYTES /\ forall j, 0 <= j -> meta m' j = if decide (j = i) then k else meta m j.

Lemma record_kept m i : zlen m = META_BYTES -> record_to m m i (meta m i).
Proof. intros Hm. split; [done|]. intros j _. by case_decide; subst. Qed.

Lemma record_trans m m1 m2 i k1 k2 : record_to m m1 i k1 -> record_to m1 m2 i k2 -> record_to m m2 i k2.
Proof. intros [_ H1] [Z2 H2]. split; [done|]. intros j Hj. rewrite H2, H1 by done. by case_decide. Qed.

Lemma record_at m m' i k : 0 <= i -> record_to m m' i k -> meta m' i = k.
Proof. intros Hi [_ H]. rewrite H by done. by rewrite decide_True. Qed.

Section ops.
Context (s : RecvMultishotSlab) (W : wf s).
Let Sh : shape s := wf_shape s W.

(** A state built from new bitmaps, a new record and new ring cells. *)
Lemma view_update i st m o t d c vo vt vd vc k q :
  0 <= i < cap s -> bit_to (occupied s) o i vo -> bit_to (terminated s) t i vt -> bit_to (terminal_stashed s) d i vd ->
  bit_to (cancel_pending s) c i vc -> record_to (metadata s) m i k -> zlen st = STORAGE_BYTES ->
  let s' := mkSlab st m o t d c (worker s) (cap s) in
  (forall j x, 0 <= j -> j <> i -> 0 <= x < MULTISHOT_FIFO_DEPTH -> cell s' j x = cell s j x) ->
  0 <= m_head k < MULTISHOT_FIFO_DEPTH -> 0 <= m_len k <= MULTISHOT_FIFO_DEPTH ->
  window MULTISHOT_FIFO_DEPTH (cell s' i) (m_head k) (m_len k) = q ->
  let e := mkEntry vo (m_gen k) (m_owner k) q vt (if vd then Some (m_res k, buffer_of (m_buf k)) else None) vc in
  entry_ok true (cap s) i e -> rewrites s s' i e.
Proof.
  intros Hi [Wo Ho] [Wt Ht] [Wd Hd] [Wc Hc] [Zm Hm] Zs s' Hcell Hh Hl Hq e He. apply shape_rewrites; [done| |done..| |done].
  - destruct Sh. split; cbn [occupied terminated terminal_stashed cancel_pending metadata storage cap]; try done; intros j Hj; rewrite Hm by done; case_decide; auto.
  - intros j Hj. unfold at_, s'. cbn [occupied terminated terminal_stashed cancel_pending metadata]. rewrite Ho, Ht, Hd, Hc, Hm by done.
    case_decide as Hji; [subst j; unfold e; f_equal; exact Hq|]. f_equal. apply window_ext; [done|]. intros x Hx. by apply Hcell.
Qed.

Lemma occ_cap i : 0 <= i -> e_occ (at_ s i) = true -> 0 <= i < cap s.
Proof. intros H0 Ho. split; [done|]. by apply (wf_entry s W i H0). Qed.

Lemma test_bit b i : Bitmap.wf BITMAP_WORDS b -> 0 <= i < cap s -> Bitmap.test b i = Ret (Bitmap.has b i).
Proof. intros Hb Hi. apply (Bitmap.test_spec BITMAP_WORDS); [done|]. by apply (slot_range s). Qed.

Lemma set_bit b i : Bitmap.wf BITMAP_WORDS b -> 0 <= i < cap s -> exists b', Bitmap.set b i = Ret b' /\ bit_to b b' i true.
Proof. intros Hb Hi. destruct (Bitmap.set_total _ b i Hb) as (b' & E & Wb & H); [by apply (slot_range s)|]. by exists b'. Qed.

Lemma clear_bit b i : Bitmap.wf BITMAP_WORDS b -> 0 <= i < cap s -> exists b', Bitmap.clear b i = Ret b' /\ bit_to b b' i false.
Proof. intros Hb Hi. destruct (Bitmap.clear_total _ b i Hb) as (b' & E & Wb & H); [by apply (slot_range s)|]. by exists b'. Qed.

Lemma recv_live_spec key : 0 <= ms_slot key -> is_live s key = Ret (live s key).
Proof.
  intros H0. unfold is_live, live. cbn [st_worker st_cap st_at recv_streams]. destruct (_ =? worker s); [|done]. cbn [negb andb].
  destruct (Z.leb_spec (cap s) (ms_slot key)), (Z.ltb_spec (ms_slot key) (cap s)); try lia; [done|]. cbn [andb].
  by step (test_bit (occupied s) (ms_slot key) (sh_occ s Sh) ltac:(lia)).
Qed.

Lemma recv_slot_live_spec i low : 0 <= i -> is_slot_live s i low = Ret (answers (at_ s i) low).
Proof.
  intros H0. unfold is_slot_live, answers. destruct (Z.leb_spec (cap s) i).
  - destruct (e_occ (at_ s i)) eqn:Ho; [|done]. apply occ_cap in Ho; lia.
  - step (test_bit (occupied s) i (sh_occ s Sh) ltac:(lia)). change 0xFFFF with (2 ^ 16 - 1). by rewrite land_ones_mod by lia.
Qed.

Lemma live_slot key : 0 <= ms_slot key -> live s key = true -> 0 <= ms_slot key < cap s /\ e_occ (at_ s (ms_slot key)) = true.
Proof. intros H0 Hl. unfold live in Hl. cbn in Hl. apply andb_true_iff in Hl as [Hl _]. apply andb_true_iff in Hl as [Hl Ho]. apply andb_true_iff in Hl as [_ Hc]. apply Z.ltb_lt in Hc. by split. Qed.

Lemma answers_slot i low : 0 <= i -> answers (at_ s i) low = true -> 0 <= i < cap s.
Proof. intros H0 [Ho _]%andb_true_iff. by apply occ_cap. Qed.

Lemma stash_none i : e_stash (at_ s i) = None <-> Bitmap.has (terminal_stashed s) i = false.
Proof. unfold at_. cbn. by destruct (Bitmap.has _ _). Qed.

(** ** Release *)

Lemma recv_release_spec i : 0 <= i < cap s -> exists s', release s i = Ret s' /\ rewrites s s' i (freed (at_ s i)).
Proof.
  intros Hi. destruct (slot_range s i Sh Hi) as [Hr _]. unfold release.
  destruct (clear_bit _ i (sh_occ s Sh) Hi) as (o & Eo & Bo). destruct (clear_bit _ i (sh_term s Sh) Hi) as (t & Et & Bt).
  destruct (clear_bit _ i (sh_stash s Sh) Hi) as (d & Ed & Bd). destruct (clear_bit _ i (sh_cancel s Sh) Hi) as (c & Ec & Bc).
  step Eo. step Et. step Ed. step Ec. eexists. split; [done|].
  unfold set_slot_generation, set_slot_len, set_metadata, set_bits, slot_generation. cbn [metadata storage occupied terminated terminal_stashed cancel_pending worker cap].
  set (k := meta (metadata s) i). set (m1 := write_u16 (metadata s) (meta_offset i + META_LEN_OFFSET) 0).
  assert (record_to (metadata s) m1 i (mkRec (m_head k) 0 (m_gen k) (m_owner k) (m_res k) (m_buf k))) as R1.
  { split; [unfold m1, write_u16; rewrite zlen_write by (unfold meta_offset, META_ENTRY_LEN, META_LEN_OFFSET; lia); apply Sh|].
    intros j Hj. apply meta_len; [apply Sh|done|done|]. unfold fits. lia. }
  change (read_u64 m1 (meta_offset i + META_GENERATION_OFFSET)) with (m_gen (meta m1 i)). pose proof (record_at _ _ i _ (proj1 Hi) R1) as E1. rewrite E1. cbn [m_gen].
  set (g := wrap U64 (m_gen k + 1)). assert (fits 64 g) as Hg by (apply wrap_fits; lia). assert (record_to (metadata s) (write_u64 m1 (meta_offset i + META_GENERATION_OFFSET) g) i (mkRec (m_head k) 0 g (m_owner k) (m_res k) (m_buf k))) as R2.
  { eapply record_trans; [exact R1|]. destruct R1 as [Z1 R1]. split; [unfold write_u64; rewrite zlen_write by (unfold meta_offset, META_ENTRY_LEN, META_GENERATION_OFFSET; lia); done|].
    intros j Hj. by rewrite (meta_gen m1 Z1 i Hr g j Hj Hg), E1. }
  refine (view_update i _ _ o t d c _ _ _ _ _ [] Hi Bo Bt Bd Bc R2 (sh_storage s Sh) _ _ _ _ _); cbn [m_head m_len m_gen m_owner]; try done.
  - apply (sh_heads s Sh). lia.
Qed.

(** ** Push *)

(** The data path: a packed entry appended to the ring. *)
Lemma recv_push_data i low r b : 0 <= i -> answers (at_ s i) low = true -> e_cancel (at_ s i) = false -> i32_fits r -> fits 16 b ->
  let e := at_ s i in
  exists s', push s i low r b true = Ret (if has_room e then Queued else Overflowed, s') /\
    rewrites s s' i (if has_room e then set_queue (e_queue e ++ [(r, buffer_of b)]) e else e).
Proof.
  intros H0 Ha Hc Hr Hb e. pose proof (answers_slot i low H0 Ha) as Hi. destruct (slot_range s i Sh Hi) as [Hrg _].
  unfold push. step (recv_slot_live_spec i low H0). fold e in Ha, Hc |- *. rewrite Ha. cbn [negb].
  set (k := meta (metadata s) i). change (slot_len s i) with (m_len k). change (slot_head s i) with (m_head k).
  pose proof (sh_lens s Sh i H0) as Hn. pose proof (sh_heads s Sh i H0) as Hh. fold k in Hn, Hh.
  assert (Z.of_nat (length (e_queue e)) = m_len k) as Hl by (unfold e; cbn; rewrite length_window; [done|apply Hn]).
  unfold has_room. rewrite Hl. destruct (Z.ltb_spec (m_len k) MULTISHOT_FIFO_DEPTH), (Z.leb_spec MULTISHOT_FIFO_DEPTH (m_len k)); try lia.
  2:{ eexists. split; [done|]. exact (rewrites_same s i W). }
  assert (add_or_panic U16 (m_head k) (m_len k) = Ret (m_head k + m_len k)) as E1 by (apply add_or_panic_Ret; unfold MULTISHOT_FIFO_DEPTH in *; lia).
  step E1. set (x := (m_head k + m_len k) mod MULTISHOT_FIFO_DEPTH).
  assert (0 <= x < 64) as Hx by (apply Z.mod_pos_bound; done). set (off := entry_offset i x).
  assert (0 <= off /\ off + 6 <= STORAGE_BYTES) as [Ho1 Ho2].
  { unfold off, entry_offset, MULTISHOT_FIFO_DEPTH, ENTRY_LEN, STORAGE_BYTES. lia. }
  pose proof (sh_storage s Sh) as Zs. pose proof (zlen_write 4 (storage s) off (wrap U32 r) Ho1) as Z1.
  rewrite (copy_write 4) by (try rewrite Zs; lia). cbn [mbind outcome_bind].
  rewrite (copy_write 2) by (rewrite ?Z1, ?Zs; lia). cbn [mbind outcome_bind].
  assert (add_or_panic U16 (m_len k) 1 = Ret (m_len k + 1)) as E2 by (apply add_or_panic_Ret; unfold MULTISHOT_FIFO_DEPTH in *; lia).
  step E2. eexists. split; [done|]. unfold set_slot_len, set_metadata, set_storage. cbn [metadata storage occupied terminated terminal_stashed cancel_pending worker cap].
  assert (record_to (metadata s) (write_u16 (metadata s) (meta_offset i + META_LEN_OFFSET) (m_len k + 1)) i
    (mkRec (m_head k) (m_len k + 1) (m_gen k) (m_owner k) (m_res k) (m_buf k))) as Rk.
  { split; [unfold write_u16; rewrite zlen_write by (unfold meta_offset, META_ENTRY_LEN, META_LEN_OFFSET; lia); apply Sh|].
    intros j Hj. apply meta_len; [apply Sh|done|done|]. unfold fits, MULTISHOT_FIFO_DEPTH in *. lia. }
  destruct (wf_entry s W i H0) as [K1 K2 K3 K4 K5 K6].
  assert (forall j y, 0 <= j -> 0 <= y < 64 -> cell (mkSlab (write_uint 2 (write_uint 4 (storage s) off (wrap U32 r)) (off + 4) b)
     (write_u16 (metadata s) (meta_offset i + META_LEN_OFFSET) (m_len k + 1)) (occupied s) (terminated s) (terminal_stashed s) (cancel_pending s) (worker s) (cap s)) j y =
     if decide (j = i) then if decide (y = x) then (r, buffer_of b) else cell s j y else cell s j y) as Hcell.
  { intros j y Hj Hy. unfold cell. cbn [storage]. by apply cell_write. }
  refine (view_update i _ _ _ _ _ _ _ _ _ _ _ (e_queue e ++ [(r, buffer_of b)]) Hi (bit_kept _ i (sh_occ s Sh)) (bit_kept _ i (sh_term s Sh))
    (bit_kept _ i (sh_stash s Sh)) (bit_kept _ i (sh_cancel s Sh)) Rk _ _ _ _ _ _).
  - rewrite zlen_write by lia. by rewrite Z1.
  - intros j y Hj Hne Hy. rewrite Hcell by done. by rewrite decide_False.
  - exact Hh.
  - cbn [m_len]. lia.
  - cbn [m_head m_len]. change (e_queue e) with (window MULTISHOT_FIFO_DEPTH (cell s i) (m_head k) (m_len k)).
    rewrite <- (window_push MULTISHOT_FIFO_DEPTH (cell s i) (m_head k) (m_len k)) by lia. apply window_ext; [done|]. intros y Hy. rewrite Hcell by done. by rewrite decide_True.
  - split; cbn [e_occ e_gen e_queue e_term e_stash e_cancel m_gen m_res m_buf]; try done.
    + rewrite length_app, Nat2Z.inj_add, Hl. change (Z.of_nat (length [(r, buffer_of b)])) with 1. lia.
    + intros Hf. apply andb_true_iff in Ha as [Hocc _]. unfold e in Hocc. cbn in Hocc. congruence.
    + intros Hcp. unfold e in Hc. cbn in Hc. congruence.
Qed.

(** The terminal path: the completion goes to the stash. *)
Lemma recv_push_terminal i low r b : 0 <= i -> answers (at_ s i) low = true -> e_cancel (at_ s i) = false -> i32_fits r -> fits 16 b ->
  let e := at_ s i in
  exists s', push s i low r b false = Ret (Terminal, s') /\ rewrites s s' i (set_stash (Some (r, buffer_of b)) (set_term e)).
Proof.
  intros H0 Ha Hc Hr Hb e. pose proof (answers_slot i low H0 Ha) as Hi. destruct (slot_range s i Sh Hi) as [Hrg _].
  unfold push. step (recv_slot_live_spec i low H0). fold e in Ha, Hc |- *. rewrite Ha. cbn [negb].
  destruct (set_bit _ i (sh_term s Sh) Hi) as (t & Et & Bt). destruct (set_bit _ i (sh_stash s Sh) Hi) as (d & Ed & Bd).
  step Et. cbn [set_slot_terminal set_bits set_metadata terminal_stashed]. step Ed. eexists. split; [done|].
  cbn [set_slot_terminal set_bits set_metadata metadata storage occupied terminated terminal_stashed cancel_pending worker cap].
  set (k := meta (metadata s) i). set (m1 := write_i32 (metadata s) (meta_offset i + META_TERMINAL_RESULT_OFFSET) r).
  assert (record_to (metadata s) m1 i (mkRec (m_head k) (m_len k) (m_gen k) (m_owner k) r (m_buf k))) as R1.
  { split; [unfold m1, write_i32; rewrite zlen_write by (unfold meta_offset, META_ENTRY_LEN, META_TERMINAL_RESULT_OFFSET; lia); apply Sh|].
    intros j Hj. apply meta_res; [apply Sh|done..]. }
  pose proof (record_at _ _ i _ H0 R1) as E1.
  assert (record_to (metadata s) (write_u16 m1 (meta_offset i + META_TERMINAL_BUF_ID_OFFSET) b) i (mkRec (m_head k) (m_len k) (m_gen k) (m_owner k) r b)) as R2.
  { eapply record_trans; [exact R1|]. destruct R1 as [Z1 R1]. split; [unfold write_u16; rewrite zlen_write by (unfold meta_offset, META_ENTRY_LEN, META_TERMINAL_BUF_ID_OFFSET; lia); done|].
    intros j Hj. by rewrite (meta_buf m1 Z1 i Hrg b j Hj Hb), E1. }
  destruct (wf_entry s W i H0) as [K1 K2 K3 K4 K5 K6].
  refine (view_update i _ _ _ _ _ _ _ _ _ _ _ (e_queue e) Hi (bit_kept _ i (sh_occ s Sh)) Bt Bd (bit_kept _ i (sh_cancel s Sh)) R2 (sh_storage s Sh) _ _ _ _ _); try done.
  - by apply (sh_heads s Sh).
  - by apply (sh_lens s Sh).
  - split; cbn [e_occ e_gen e_queue e_term e_stash e_cancel m_gen m_res m_buf]; try done.
    + intros Hf. apply andb_true_iff in Ha as [Hocc _]. unfold e in Hocc. cbn in Hocc. congruence.
    + intros Hcp. unfold e in Hc. cbn in Hc. congruence.
Qed.

(** ** Reads by the consumer *)

Lemma recv_pop_spec key : 0 <= ms_slot key ->
  if live s key then
    match e_queue (at_ s (ms_slot key)) with
    | [] => pop s key = Ret (None, s)
    | x :: q => exists b s', pop s key = Ret (Some (fst x, b), s') /\ buffer_of b = snd x /\
        rewrites s s' (ms_slot key) (set_queue q (at_ s (ms_slot key)))
    end
  else pop s key = Ret (None, s).
Proof.
  intros H0. unfold pop. rewrite recv_live_spec by done. cbn [mbind outcome_bind]. destruct (live s key) eqn:Hl; cbn [negb]; [|done].
  destruct (live_slot key H0 Hl) as [Hi Ho]. destruct (slot_range s _ Sh Hi) as [Hr _]. set (i := ms_slot key) in *.
  set (k := meta (metadata s) i). change (slot_len s i) with (m_len k). change (slot_head s i) with (m_head k).
  pose proof (sh_lens s Sh i H0) as Hn. pose proof (sh_heads s Sh i H0) as Hh. fold k in Hn, Hh.
  assert (e_queue (at_ s i) = window MULTISHOT_FIFO_DEPTH (cell s i) (m_head k) (m_len k)) as Eq by done.
  destruct (Z.eqb_spec (m_len k) 0) as [E0|Hne]; [by rewrite Eq, E0|].
  rewrite Eq, window_pop by lia. unfold MULTISHOT_FIFO_DEPTH in Hh, Hn. pose proof (sh_storage s Sh) as Zs.
  assert (0 <= entry_offset i (m_head k) /\ entry_offset i (m_head k) + 6 <= STORAGE_BYTES) as [Ho1 Ho2].
  { unfold entry_offset, MULTISHOT_FIFO_DEPTH, ENTRY_LEN, STORAGE_BYTES. lia. }
  destruct (get_read 4 (storage s) (entry_offset i (m_head k))) as (rb & Erb & Drb); [lia|rewrite Zs; lia|]. change (Z.of_nat 4) with 4 in Erb. rewrite Erb.
  destruct (get_read 2 (storage s) (entry_offset i (m_head k) + 4)) as (bb & Ebb & Dbb); [lia|rewrite Zs; lia|].
  replace (entry_offset i (m_head k) + ENTRY_LEN) with (entry_offset i (m_head k) + 4 + Z.of_nat 2) by (unfold ENTRY_LEN; lia). rewrite Ebb, Drb, Dbb.
  assert (add_or_panic U16 (m_head k) 1 = Ret (m_head k + 1)) as E1 by (apply add_or_panic_Ret; lia). step E1.
  assert (sub_or_panic (m_len k) 1 = Ret (m_len k - 1)) as E2 by (apply sub_or_panic_Ret; lia). step E2.
  do 2 eexists. split; [done|]. split; [done|].
  unfold set_slot_len, set_slot_head, set_metadata. cbn [metadata storage occupied terminated terminal_stashed cancel_pending worker cap].
  set (h := (m_head k + 1) mod MULTISHOT_FIFO_DEPTH). assert (0 <= h < MULTISHOT_FIFO_DEPTH) as Hh' by (by apply Z.mod_pos_bound).
  set (m1 := write_u16 (metadata s) (meta_offset i) h).
  assert (record_to (metadata s) m1 i (mkRec h (m_len k) (m_gen k) (m_owner k) (m_res k) (m_buf k))) as R1.
  { split; [unfold m1, write_u16; rewrite zlen_write by (unfold meta_offset, META_ENTRY_LEN; lia); apply Sh|].
    intros j Hj. apply meta_head; [apply Sh|done..|]. unfold fits, MULTISHOT_FIFO_DEPTH in *. lia. }
  pose proof (record_at _ _ i _ H0 R1) as Em.
  assert (record_to (metadata s) (write_u16 m1 (meta_offset i + META_LEN_OFFSET) (m_len k - 1)) i (mkRec h (m_len k - 1) (m_gen k) (m_owner k) (m_res k) (m_buf k))) as R2.
  { eapply record_trans; [exact R1|]. destruct R1 as [Z1 _]. split; [unfold write_u16; rewrite zlen_write by (unfold meta_offset, META_ENTRY_LEN, META_LEN_OFFSET; lia); done|].
    intros j Hj. rewrite (meta_len m1 Z1 i Hr _ j Hj) by (unfold fits; lia). by rewrite Em. }
  destruct (wf_entry s W i H0) as [K1 K2 K3 K4 K5 K6].
  refine (view_update i _ _ _ _ _ _ _ _ _ _ _ _ Hi (bit_kept _ i (sh_occ s Sh)) (bit_kept _ i (sh_term s Sh))
    (bit_kept _ i (sh_stash s Sh)) (bit_kept _ i (sh_cancel s Sh)) R2 (sh_storage s Sh) _ _ _ _ _); try done.
  - cbn [m_len]. unfold MULTISHOT_FIFO_DEPTH. lia.
  - split; cbn [e_occ e_gen e_queue e_term e_stash e_cancel m_gen m_res m_buf]; try done.
    + cbn [m_head m_len]. rewrite length_window; unfold MULTISHOT_FIFO_DEPTH; lia.
    + intros Hf. unfold at_ in Ho. cbn in Ho. congruence.
    + intros Hcp. destruct (K5 Hcp) as [Hq _]. exfalso. rewrite Eq in Hq. apply (f_equal length) in Hq. cbn [length] in Hq.
      pose proof (length_window MULTISHOT_FIFO_DEPTH (cell s i) (m_head k) (m_len k) ltac:(lia)). lia.
Qed.

Lemma recv_take_spec key : 0 <= ms_slot key ->
  if live s key then
    match e_stash (at_ s (ms_slot key)) with
    | None => take_terminal s key = Ret (None, s)
    | Some x => exists b s', take_terminal s key = Ret (Some (fst x, b), s') /\ buffer_of b = snd x /\
        rewrites s s' (ms_slot key) (set_stash None (at_ s (ms_slot key)))
    end
  else take_terminal s key = Ret (None, s).
Proof.
  intros H0. unfold take_terminal. rewrite recv_live_spec by done. cbn [mbind outcome_bind]. destruct (live s key) eqn:Hl; cbn [negb]; [|done].
  destruct (live_slot key H0 Hl) as [Hi Ho]. set (i := ms_slot key) in *. step (test_bit _ i (sh_stash s Sh) Hi).
  assert (e_stash (at_ s i) = if Bitmap.has (terminal_stashed s) i then Some (m_res (meta (metadata s) i), buffer_of (m_buf (meta (metadata s) i))) else None) as -> by done.
  destruct (Bitmap.has (terminal_stashed s) i) eqn:Hst; cbn [negb]; [|done].
  destruct (clear_bit _ i (sh_stash s Sh) Hi) as (d & Ed & Bd). step Ed. do 2 eexists. split; [done|]. split; [done|].
  destruct (wf_entry s W i H0) as [K1 K2 K3 K4 K5 K6].
  refine (view_update i _ _ _ _ _ _ _ _ _ _ _ (e_queue (at_ s i)) Hi (bit_kept _ i (sh_occ s Sh)) (bit_kept _ i (sh_term s Sh)) Bd (bit_kept _ i (sh_cancel s Sh))
    (record_kept _ i (sh_meta s Sh)) (sh_storage s Sh) _ _ _ _ _); try done.
  - by apply (sh_heads s Sh).
  - by apply (sh_lens s Sh).
  - split; cbn [e_occ e_gen e_queue e_term e_stash e_cancel m_gen m_res m_buf]; try done.
    + intros Hf. unfold at_ in Ho. cbn in Ho. congruence.
    + intros Hcp. by apply K5 in Hcp as [? _].
Qed.

Lemma recv_term_bit key : 0 <= ms_slot key -> is_terminated s key = Ret (live s key && e_term (at_ s (ms_slot key))).
Proof.
  intros H0. unfold is_terminated. step (recv_live_spec key H0). destruct (live s key) eqn:Hl; cbn [negb andb]; [|done].
  apply test_bit; [apply Sh|]. by apply live_slot.
Qed.

Lemma recv_free_spec key : 0 <= ms_slot key ->
  if live s key then exists s', free s key = Ret s' /\ rewrites s s' (ms_slot key) (freed (at_ s (ms_slot key))) else free s key = Ret s.
Proof.
  intros H0. unfold free. rewrite recv_live_spec by done. cbn [mbind outcome_bind]. destruct (live s key) eqn:Hl; cbn [negb]; [|done].
  apply recv_release_spec. by apply live_slot.
Qed.

Lemma recv_mark_spec key : 0 <= ms_slot key -> (live s key = true -> e_queue (at_ s (ms_slot key)) = [] /\ e_stash (at_ s (ms_slot key)) = None) ->
  if live s key then exists s', mark_cancel_pending s key = Ret s' /\ rewrites s s' (ms_slot key) (set_cancel (at_ s (ms_slot key)))
  else mark_cancel_pending s key = Ret s.
Proof.
  intros H0 Hq. unfold mark_cancel_pending. rewrite recv_live_spec by done. cbn [mbind outcome_bind].
  destruct (live s key) eqn:Hl; cbn [negb]; [|done]. destruct (live_slot key H0 Hl) as [Hi Ho]. set (i := ms_slot key) in *.
  destruct (set_bit _ i (sh_cancel s Sh) Hi) as (c & Ec & Bc). step Ec. eexists. split; [done|]. destruct (wf_entry s W i H0) as [K1 K2 K3 K4 K5 K6].
  refine (view_update i _ _ _ _ _ _ _ _ _ _ _ (e_queue (at_ s i)) Hi (bit_kept _ i (sh_occ s Sh)) (bit_kept _ i (sh_term s Sh)) (bit_kept _ i (sh_stash s Sh)) Bc
    (record_kept _ i (sh_meta s Sh)) (sh_storage s Sh) _ _ _ _ _); try done.
  - by apply (sh_heads s Sh).
  - by apply (sh_lens s Sh).
  - split; cbn [e_occ e_gen e_queue e_term e_stash e_cancel m_gen m_res m_buf]; try done.
    + intros Hf. unfold at_ in Ho. cbn in Ho. congruence.
Qed.

End ops.

(** ** The laws *)

Lemma recycle_queued_spec key : 0 <= ms_slot key -> forall turns s, wf s -> (length (e_queue (at_ s (ms_slot key))) < turns)%nat ->
  if live s key then exists s', recycle_queued turns s key = Ret (e_queue (at_ s (ms_slot key)) ≫= (fun x => recycle_provided (snd x)), s') /\
    rewrites s s' (ms_slot key) (set_queue [] (at_ s (ms_slot key)))
  else recycle_queued turns s key = Ret ([], s).
Proof.
  intros H0. induction turns as [|turns IH]; intros s W Ht; [lia|]. cbn [recycle_queued]. pose proof (recv_pop_spec s W key H0) as Hp.
  destruct (live s key) eqn:Hl; [|by step Hp]. set (e := at_ s (ms_slot key)) in *. destruct (e_queue e) as [|x q] eqn:Eq.
  - step Hp. eexists. split; [done|]. assert (set_queue [] e = e) as -> by (rewrite <- Eq; by destruct e). exact (rewrites_same s _ W).
  - destruct Hp as (b & s1 & Hp & Hb & R1). step Hp. pose proof (rewrites_here _ _ _ _ H0 R1) as Ha. cbn [st_at recv_streams] in Ha.
    specialize (IH s1 (rw_wf _ _ _ _ R1)). rewrite Ha, (live_rewrites s s1 key _ H0 R1), Hl in IH by done. cbn [e_queue set_queue] in IH.
    cbn [length] in Ht. destruct (IH ltac:(lia)) as (s2 & E2 & R2). step E2. eexists. split; [|by apply (rewrites_trans s s1 s2 _ _ _ R1)].
    rewrite bind_cons, Hb. done.
Qed.

Lemma recv_cancel_law accepted s key : wf s -> 0 <= ms_slot key ->
  let sent := if accepted : bool then Some (encode_recv_multishot_sentinel key) else None in
  if live s key then
    let '(e', submits) := cancel_entry true (at_ s (ms_slot key)) in
    exists s', submit_recv_multishot_cancel accepted s key =
      Ret (s', held (at_ s (ms_slot key)) ≫= (fun x => recycle_provided (snd x)), if submits then sent else None) /\ rewrites s s' (ms_slot key) e'
  else submit_recv_multishot_cancel accepted s key = Ret (s, [], sent).
Proof.
  intros W H0 sent. unfold submit_recv_multishot_cancel.
  pose proof (recycle_queued_spec key H0 (Z.to_nat MULTISHOT_FIFO_DEPTH + 1) s W) as Hc. destruct (wf_entry s W _ H0) as [_ _ K3 _ _ _].
  set (e := at_ s (ms_slot key)) in *. ospecialize (Hc _); [unfold MULTISHOT_FIFO_DEPTH in *; lia|]. destruct (live s key) eqn:Hl.
  - destruct Hc as (s1 & E1 & R1). step E1. pose proof (rewrites_here _ _ _ _ H0 R1) as Ha1. cbn [st_at recv_streams] in Ha1.
    pose proof (live_rewrites s s1 key _ H0 R1 eq_refl eq_refl) as L1. rewrite Hl in L1.
    pose proof (recv_take_spec s1 (rw_wf _ _ _ _ R1) key H0) as Ht. rewrite L1, Ha1 in Ht. cbn [e_stash set_queue] in Ht.
    assert (exists r s2, take_terminal s1 key = Ret (r, s2) /\
      match r with Some (_, buf_id) => recycle_provided (buffer_of buf_id) | None => [] end = option_list (e_stash e) ≫= (fun x => recycle_provided (snd x)) /\
      rewrites s s2 (ms_slot key) (set_stash None (set_queue [] e))) as (r & s2 & E2 & Hrec & R2).
    { destruct (e_stash e) as [x|] eqn:Es.
      - destruct Ht as (b & s2 & Et & Hb & R2). exists (Some (fst x, b)), s2. split; [done|]. split; [cbn; by rewrite Hb, app_nil_r|].
        by apply (rewrites_trans s s1 s2 _ _ _ R1).
      - exists None, s1. split; [done|]. split; [done|]. assert (set_stash None (set_queue [] e) = set_queue [] e) as -> by (unfold set_stash; cbn; by rewrite <- Es). done. }
    step E2. pose proof (rewrites_here _ _ _ _ H0 R2) as Ha2. cbn [st_at recv_streams] in Ha2.
    pose proof (live_rewrites s s2 key _ H0 R2 eq_refl eq_refl) as L2. rewrite Hl in L2. pose proof (rw_wf _ _ _ _ R2) as W2. cbn [st_wf recv_streams] in W2.
    step (recv_term_bit s2 W2 key H0). rewrite L2, Ha2. cbn [andb e_term set_stash set_queue]. unfold cancel_entry, held. cbn [andb]. rewrite Hrec, bind_app.
    destruct (e_term e) eqn:Et.
    + pose proof (recv_free_spec s2 W2 key H0) as Hf. rewrite L2, Ha2 in Hf. destruct Hf as (s3 & E3 & R3). step E3. eexists. split; [done|].
      exact (rewrites_trans s s2 s3 _ _ _ R2 R3).
    + pose proof (recv_mark_spec s2 W2 key H0) as Hm. rewrite L2, Ha2 in Hm. destruct (Hm ltac:(done)) as (s3 & E3 & R3). step E3. eexists. split; [done|].
      exact (rewrites_trans s s2 s3 _ _ _ R2 R3).
  - step Hc. pose proof (recv_take_spec s W key H0) as Ht. rewrite Hl in Ht. step Ht. step (recv_term_bit s W key H0). rewrite Hl. cbn [andb].
    pose proof (recv_mark_spec s W key H0) as Hm. rewrite Hl in Hm. by rewrite Hm.
Qed.

Lemma recv_complete_law s c : wf s -> fits 64 (token c) -> cqe_ok c ->
  let i := multishot_sentinel_slot (token c) in
  let low := multishot_sentinel_generation (token c) in
  let e := at_ s i in
  let '(e', kept) := complete_entry true e low (has_more c) (result c, buf_id c) in
  exists s', push_recv_multishot_completion s (token c) (result c) (flags c) (buf_id c) =
      Ret (s', if kept then [] else recycle_provided (buf_id c), complete_reply e low (has_more c) kept) /\ rewrites s s' i e'.
Proof.
  intros W Ht [Hres Hbuf] i low e. assert (0 <= i) as H0 by (unfold i, multishot_sentinel_slot; apply Z.land_nonneg; right; lia).
  destruct (buffer_round _ Hbuf) as [Hb Hf16]. unfold push_recv_multishot_completion. fold i low. change (contains (flags c) MORE) with (has_more c).
  unfold owner. step (recv_slot_live_spec s W i low H0). fold e. unfold complete_entry, complete_reply, is_cancel_pending.
  destruct (answers e low) eqn:Ha; cbn [negb].
  2:{ cbn [mbind outcome_bind]. step (recv_slot_live_spec s W i low H0). fold e. rewrite Ha. cbn [negb mbind outcome_bind].
      unfold push. step (recv_slot_live_spec s W i low H0). fold e. rewrite Ha. cbn [negb mbind outcome_bind]. eexists. split; [by destruct (has_more c)|]. exact (rewrites_same s _ W). }
  pose proof (answers_slot s W i low H0 Ha) as Hi. cbn [mbind outcome_bind]. change (slot_owner_token s i) with (e_owner e).
  step (recv_slot_live_spec s W i low H0). fold e. rewrite Ha. cbn [negb]. step (test_bit s W _ i (sh_cancel s (wf_shape s W)) Hi).
  change (Bitmap.has (cancel_pending s) i) with (e_cancel e). destruct (e_cancel e) eqn:Hcp.
  - destruct (has_more c); [eexists; split; [done|]; exact (rewrites_same s _ W)|]. unfold free_by_slot. step (recv_slot_live_spec s W i low H0).
    fold e. rewrite Ha. cbn [negb]. destruct (recv_release_spec s W i Hi) as (s' & Es & R). step Es. by eexists.
  - destruct (has_more c).
    + destruct (recv_push_data s W i low (result c) (default NO_BUFFER (buf_id c)) H0 Ha Hcp Hres Hf16) as (s' & Es & R). cbn zeta in R. fold e in Es, R.
      step Es. rewrite Hb in R. destruct (has_room e); (eexists; split; [done|exact R]).
    + destruct (recv_push_terminal s W i low (result c) (default NO_BUFFER (buf_id c)) H0 Ha Hcp Hres Hf16) as (s' & Es & R). cbn zeta in R. fold e in Es, R.
      step Es. rewrite Hb in R. eexists. split; [done|exact R].
Qed.

Lemma recv_allocate_law s own : wf s -> fits 64 own -> exists r s', allocate s own = Ret (r, s') /\
  match r with
  | None => s' = s /\ forall i, 0 <= i < cap s -> e_occ (at_ s i) = true
  | Some key => 0 <= ms_slot key < cap s /\ e_occ (at_ s (ms_slot key)) = false /\
      key = mkMs (ms_slot key) (e_gen (at_ s (ms_slot key))) (worker s) /\
      rewrites s s' (ms_slot key) (fresh (e_gen (at_ s (ms_slot key))) own)
  end.
Proof.
  intros W Hown. pose proof (wf_shape s W) as Sh. unfold allocate, first_free. pose proof (sh_cap s Sh) as Hcap. unfold DEFAULT_RECV_MULTISHOT_CAP in Hcap.
  pose proof (Bitmap.first_free_spec BITMAP_WORDS (cap s) (occupied s) (sh_occ s Sh)) as Hff. unfold BITMAP_WORDS in Hff. specialize (Hff ltac:(lia) ltac:(lia)).
  destruct (Bitmap.first_free (cap s) (occupied s)) as [i|]; [|do 2 eexists; split; [done|]; split; [done|]; apply Hff].
  destruct Hff as (Hi & Hfree & _). destruct (slot_range s i Sh Hi) as [Hr _].
  destruct (set_bit s W _ i (sh_occ s Sh) Hi) as (o & Eo & Bo). destruct (clear_bit s W _ i (sh_term s Sh) Hi) as (t & Et & Bt).
  destruct (clear_bit s W _ i (sh_stash s Sh) Hi) as (d & Ed & Bd). destruct (clear_bit s W _ i (sh_cancel s Sh) Hi) as (c & Ec & Bc).
  step Eo. step Et. step Ed. step Ec. unfold set_slot_owner_token, set_slot_len, set_slot_head, set_metadata, set_bits.
  cbn [metadata storage occupied terminated terminal_stashed cancel_pending worker cap]. set (k := meta (metadata s) i).
  set (m1 := write_u16 (metadata s) (meta_offset i) 0). set (m2 := write_u16 m1 (meta_offset i + META_LEN_OFFSET) 0).
  set (m3 := write_u64 m2 (meta_offset i + META_OWNER_TOKEN_OFFSET) own).
  assert (zlen m1 = META_BYTES) as Z1 by (unfold m1, write_u16; rewrite zlen_write by (unfold meta_offset, META_ENTRY_LEN; lia); apply Sh).
  assert (zlen m2 = META_BYTES) as Z2 by (unfold m2, write_u16; rewrite zlen_write by (unfold meta_offset, META_ENTRY_LEN, META_LEN_OFFSET; lia); done).
  assert (zlen m3 = META_BYTES) as Z3 by (unfold m3, write_u64; rewrite zlen_write by (unfold meta_offset, META_ENTRY_LEN, META_OWNER_TOKEN_OFFSET; lia); done).
  assert (fits 16 0) as F0 by (unfold fits; lia).
  assert (record_to (metadata s) m1 i (mkRec 0 (m_len k) (m_gen k) (m_owner k) (m_res k) (m_buf k))) as R1.
  { split; [done|]. intros j Hj. apply meta_head; [apply Sh|done..]. }
  pose proof (record_at _ _ i _ (proj1 Hi) R1) as E1.
  assert (record_to (metadata s) m2 i (mkRec 0 0 (m_gen k) (m_owner k) (m_res k) (m_buf k))) as R2.
  { eapply record_trans; [exact R1|]. split; [done|]. intros j Hj. unfold m2. by rewrite (meta_len m1 Z1 i Hr 0 j Hj F0), E1. }
  pose proof (record_at _ _ i _ (proj1 Hi) R2) as E2.
  assert (record_to (metadata s) m3 i (mkRec 0 0 (m_gen k) own (m_res k) (m_buf k))) as R3.
  { eapply record_trans; [exact R2|]. split; [done|]. intros j Hj. unfold m3. by rewrite (meta_owner m2 Z2 i Hr own j Hj Hown), E2. }
  pose proof (record_at _ _ i _ (proj1 Hi) R3) as E3.
  do 2 eexists. split; [done|]. cbn [ms_slot]. split; [done|]. split; [done|]. split.
  - unfold slot_generation. cbn [metadata]. change (read_u64 m3 (meta_offset i + META_GENERATION_OFFSET)) with (m_gen (meta m3 i)). by rewrite E3.
  - destruct (wf_entry s W i ltac:(lia)) as [K1 K2 K3 K4 K5 K6].
    refine (view_update s W i _ _ o t d c _ _ _ _ _ [] Hi Bo Bt Bd Bc R3 (sh_storage s Sh) _ _ _ _ _); try done. split; cbn; try done. intros _. lia.
Qed.

#[global] Instance recv_laws : StreamLaws RecvMultishotSlab (Z * option Z).
Proof.
  split; cbn [st_wf st_at st_cap st_worker st_stashes st_sentinel st_item st_res st_cqe_res st_cqe_fits st_cqe_ok st_allocate st_complete st_next st_release st_cancel recv_streams].
  - intros s W. split; [|apply W]. pose proof (sh_cap s (wf_shape s W)). unfold DEFAULT_RECV_MULTISHOT_CAP in *. lia.
  - intros key Hs Hg. destruct (mark_fields RECV_MULTISHOT_TOKEN_BASE (ms_slot key) (ms_generation key) Hs Hg) as (H0 & _ & H1 & H2); done.
  - done.
  - apply recv_allocate_law.
  - apply recv_complete_law.
  - intros s key W H0. cbn [recv_multishot_next]. pose proof (recv_pop_spec s W key H0) as Hp. pose proof (recv_take_spec s W key H0) as Ht.
    destruct (live s key) eqn:Hl.
    + unfold next_entry. set (e := at_ s (ms_slot key)) in *. destruct (e_queue e) as [|x q] eqn:Eq.
      * step Hp. destruct (e_stash e) as [x|] eqn:Es.
        -- destruct Ht as (b & s' & Et & Hb & R). step Et. rewrite Hb, <- surjective_pairing. by eexists.
        -- step Ht. step (recv_term_bit s W key H0). rewrite Hl. fold e. cbn [andb].
           destruct (e_term e); cbn [mbind outcome_bind]; [|eexists; split; [done|]; exact (rewrites_same s _ W)].
           pose proof (recv_free_spec s W key H0) as Hf. rewrite Hl in Hf. destruct Hf as (s' & Ef & R). step Ef. by eexists.
      * destruct Hp as (b & s' & Hp & Hb & R). step Hp. rewrite Hb, <- surjective_pairing. by eexists.
    + step Hp. step Ht. step (recv_term_bit s W key H0). by rewrite Hl.
  - intros s key W H0. cbn [recv_multishot_free]. pose proof (recv_free_spec s W key H0) as Hf. destruct (live s key); [|by step Hf].
    destruct Hf as (s' & Ef & R). step Ef. by eexists.
  - intros accepted s key W H0. apply recv_cancel_law; done.
Qed.

Lemma recv_new_wf w c s : 0 <= c -> new (true, true) w c = Some s -> wf s /\ forall i, 0 <= i -> e_occ (at_ s i) = false.
Proof.
  intros Hc E. unfold new in E. cbn [fst snd andb negb] in E. apply (inj Some) in E.
  assert (forall i, Bitmap.has (replicate BITMAP_WORDS 0) i = false) as Hb.
  { intros i. unfold Bitmap.has. rewrite nth_lookup. destruct (_ !! _) as [x|] eqn:Ex; cbn; [|apply Z.bits_0]. apply lookup_replicate in Ex as [-> _]. apply Z.bits_0. }
  assert (Bitmap.wf BITMAP_WORDS (replicate BITMAP_WORDS 0)) as Hw by (split; [done|]; repeat constructor; unfold fits; lia).
  assert (forall n i, 0 <= i -> meta (replicate n x00) i = mkRec 0 0 0 0 0 0) as Hm.
  { intros n i Hi. unfold meta, read_u16, read_u64, read_i32, meta_offset, META_ENTRY_LEN, META_LEN_OFFSET, META_GENERATION_OFFSET, META_OWNER_TOKEN_OFFSET,
      META_TERMINAL_RESULT_OFFSET, META_TERMINAL_BUF_ID_OFFSET. by rewrite !read_zero by lia. }
  subst s. split; [split|].
  - split; cbn [occupied terminated terminal_stashed cancel_pending metadata storage cap]; try done.
    + intros i Hi. by rewrite Hm.
    + intros i Hi. by rewrite Hm.
    + unfold DEFAULT_RECV_MULTISHOT_CAP. lia.
  - intros i Hi. unfold at_. cbn [occupied terminated terminal_stashed cancel_pending metadata cap]. rewrite !Hb, Hm by done. split; cbn; done.
  - intros i Hi. apply Hb.
Qed.

End RecvLaws.
