(* ===== verification/StreamProto.v ===== *)
(** * Streams over a multishot registry

    The streams of src/crates/kwokka-net/src/tcp/accept.rs and recv.rs, the
    worker's drains and the kernel, over any registry that implements
    [StreamRegistry].  A stream opens by allocating a slot and submitting the
    operation under the slot's sentinel ([start_multishot]); it polls with
    [next] and ends when the registry says so; dropping it queues a cancel, if
    the inbox has room.  The kernel posts any number of completions flagged
    [MORE] for a running operation, then a final one; a cancel's own answer
    carries the sentinel too.

    The ghost fields count what happened: the resources (descriptors, buffer
    ids) the kernel handed out, those a stream delivered to its caller, those
    the drains disposed of, and the tasks whose submissions were made and
    retired. *)

From S2P Require Import Prelude IoTokens StreamRegistry.
From stdpp Require Import base tactics option list numbers.

Local Open Scope Z_scope.

Module StreamProto.
Import IoTokens StreamRegistry.

(** Where a completion comes from. *)
Inductive origin : Type := Data | Final | Answer.

(** The slot and low generation bits a completion or a key names. *)
Definition key_tag (key : MultishotSlotKey) : Z * Z := (ms_slot key, ms_generation key mod 2 ^ 16).
Definition token_tag (user_data : Z) : Z * Z := (multishot_sentinel_slot user_data, multishot_sentinel_generation user_data).

Section proto.
Context {S A : Type} {St : Streams S A}.

Record sys : Type := mkSys {
  reg : S;
  streams : list MultishotSlotKey;
  inbox : list MultishotSlotKey;
  kops : list MultishotSlotKey;
  cancels : list Z;
  cq : list (origin * Completion);
  created : list Z;
  delivered : list Z;
  disposed : list Z;
  submitted : list Z;
  retired : list Z;
}.

Definition start (s : S) : sys := mkSys s [] [] [] [] [] [] [] [] [] [].

Definition queue_cancel (icap : nat) (q : list MultishotSlotKey) (key : MultishotSlotKey) : list MultishotSlotKey :=
  if decide (length q < icap)%nat then q ++ [key] else q.

(** No operation, completion or cancel in flight carries the key's sentinel. *)
Definition unused (y : sys) (key : MultishotSlotKey) : bool :=
  forallb (fun k => negb (bool_decide (key_tag k = key_tag key))) (kops y) &&
  forallb (fun t => negb (bool_decide (token_tag t = key_tag key))) (cancels y) &&
  forallb (fun c => negb (bool_decide (token_tag (token (snd c)) = key_tag key))) (cq y).

(** [start_multishot]: allocate, submit, and give the slot back when the
    submission is refused; the second component says whether a stream opened. *)
Definition start_multishot (s : S) (owner : Z) (accepted : bool) : outcome (S * option MultishotSlotKey) :=
  '(r, s) ← st_allocate s owner;
  match r with
  | None => Ret (s, None)
  | Some key => if accepted then Ret (s, Some key) else s ← st_release s key; Ret (s, None)
  end.

(** Whether the driver accepts every cancel, and the room of the inbox. *)
Context (lossless : bool) (icap : nat).

Inductive step : sys -> sys -> Prop :=
| step_start y owner accepted s' r :
    fits 64 owner -> start_multishot (reg y) owner accepted = Ret (s', r) ->
    (forall key, r = Some key -> unused y key = true) ->
    step y (mkSys s' (streams y ++ option_list r) (inbox y) (kops y ++ option_list r) (cancels y) (cq y) (created y) (delivered y) (disposed y)
              (submitted y ++ match r with Some _ => [owner] | None => [] end) (retired y))
| step_next y l1 key l2 r s' :
    streams y = l1 ++ key :: l2 -> st_next (reg y) key = Ret (r, s') ->
    step y (mkSys s' (match r with Ended => l1 ++ l2 | _ => streams y end) (inbox y) (kops y) (cancels y) (cq y) (created y)
              (delivered y ++ match r with Item x => st_res x | _ => [] end) (disposed y) (submitted y) (retired y))
| step_drop y l1 key l2 :
    streams y = l1 ++ key :: l2 ->
    step y (mkSys (reg y) (l1 ++ l2) (queue_cancel icap (inbox y) key) (kops y) (cancels y) (cq y) (created y) (delivered y) (disposed y) (submitted y) (retired y))
| step_cancel y key q accepted s' ds sent :
    inbox y = key :: q -> (lossless = true -> accepted = true) -> st_cancel accepted (reg y) key = Ret (s', ds, sent) ->
    step y (mkSys s' (streams y) q (kops y) (cancels y ++ option_list sent) (cq y) (created y) (delivered y) (disposed y ++ ds) (submitted y) (retired y))
| step_post y key c :
    key ∈ kops y -> token c = st_sentinel key -> has_more c = true -> st_cqe_fits c -> st_cqe_ok c ->
    step y (mkSys (reg y) (streams y) (inbox y) (kops y) (cancels y) (cq y ++ [(Data, c)]) (created y ++ st_cqe_res c) (delivered y) (disposed y) (submitted y) (retired y))
| step_final y l1 key l2 c :
    kops y = l1 ++ key :: l2 -> token c = st_sentinel key -> has_more c = false -> st_cqe_fits c -> st_cqe_ok c ->
    step y (mkSys (reg y) (streams y) (inbox y) (l1 ++ l2) (cancels y) (cq y ++ [(Final, c)]) (created y ++ st_cqe_res c) (delivered y) (disposed y) (submitted y) (retired y))
| step_answer y l1 sent l2 c :
    cancels y = l1 ++ sent :: l2 -> token c = sent -> has_more c = false -> st_cqe_fits c -> st_cqe_res c = [] ->
    step y (mkSys (reg y) (streams y) (inbox y) (kops y) (l1 ++ l2) (cq y ++ [(Answer, c)]) (created y) (delivered y) (disposed y) (submitted y) (retired y))
| step_drain y o c q s' ds mc :
    cq y = (o, c) :: q -> st_complete (reg y) c = Ret (s', ds, mc) ->
    step y (mkSys s' (streams y) (inbox y) (kops y) (cancels y) q (created y) (delivered y) (disposed y ++ ds) (submitted y) (retired y ++ option_list (mc_retire mc))).

Inductive reach (s : S) : sys -> Prop :=
| reach_start : reach s (start s)
| reach_step y y' : reach s y -> step y y' -> reach s y'.

(** ** Where the resources are *)

Definition slots (s : S) : list Z := seqZ 0 (st_cap s).
Definition total (f : entry A -> list Z) (s : S) : list Z := slots s ≫= fun i => f (st_at s i).

Definition held_res (e : entry A) : list Z := held e ≫= st_res.
Definition unretired (e : entry A) : list Z := if e_occ e && negb (e_term e) then [e_owner e] else [].

(** Every resource handed out is in exactly one place. *)
Definition conserved (y : sys) : Prop :=
  created y ≡ₚ (cq y ≫= fun c => st_cqe_res (snd c)) ++ total held_res (reg y) ++ delivered y ++ disposed y.

(** Every submission is retired once, or its operation is still open. *)
Definition accounted (y : sys) : Prop := submitted y ≡ₚ retired y ++ total unretired (reg y).

(** Nothing left to run. *)
Definition at_rest (y : sys) : Prop := streams y = [] /\ inbox y = [] /\ kops y = [] /\ cancels y = [] /\ cq y = [].

End proto.
End StreamProto.

(** * The invariant of the stream protocol

    Which slots the open streams own, which completions are still to come for a
    slot, and the bookkeeping of resources and submissions; with the lemmas that
    relate the sums over all slots before and after one slot is rewritten. *)

From stdpp Require Import base tactics option numbers list gmap.

Local Open Scope Z_scope.

Module StreamInv.
Import IoTokens StreamRegistry StreamProto.

#[global] Instance origin_eq_dec : EqDecision origin.
Proof. solve_decision. Defined.

Section inv.
Context {S A : Type} {St : Streams S A} {La : StreamLaws S A}.
Implicit Types (s : S) (e : entry A) (y : sys (S := S)).

(** ** Sums over the slots *)

Lemma slots_elem s i : i ∈ slots s <-> 0 <= i < st_cap s.
Proof. unfold slots. rewrite elem_of_seqZ. lia. Qed.

Lemma total_ext f s s' : st_cap s' = st_cap s -> (forall i, 0 <= i < st_cap s -> f (st_at s' i) = f (st_at s i)) -> total f s' = total f s.
Proof.
  intros Hc Hf. unfold total, slots. rewrite Hc. assert (forall l, (forall i, i ∈ l -> 0 <= i < st_cap s) -> l ≫= (fun i => f (st_at s' i)) = l ≫= (fun i => f (st_at s i))) as H.
  { induction l as [|i l IH]; intros Hl; [done|]. rewrite !bind_cons, IH, Hf; [done|apply Hl; left|]. intros j Hj. apply Hl. by right. }
  apply H. intros i Hi. by apply slots_elem.
Qed.

Lemma total_same f s s' i e : rewrites s s' i e -> f e = f (st_at s i) -> total f s' = total f s.
Proof. intros R Hf. apply total_ext; [apply R|]. intros j Hj. rewrite (rw_at _ _ _ _ R) by lia. by case_decide; subst. Qed.

Lemma total_change f s s' i e : rewrites s s' i e -> 0 <= i < st_cap s ->
  exists l, total f s ≡ₚ f (st_at s i) ++ l /\ total f s' ≡ₚ f e ++ l.
Proof.
  intros R Hi. assert (i ∈ slots s) as Hin by (by apply slots_elem). apply list_elem_of_split in Hin as (l1 & l2 & El).
  assert (NoDup (slots s)) as Hnd by apply NoDup_seqZ. rewrite El in Hnd. apply NoDup_app in Hnd as (_ & H1 & H2). apply NoDup_cons in H2 as [H2 _].
  assert (forall l, l ⊆ slots s -> i ∉ l -> l ≫= (fun j => f (st_at s' j)) = l ≫= (fun j => f (st_at s j))) as He.
  { induction l as [|j l IH]; intros Hs Hl; [done|]. apply not_elem_of_cons in Hl as [Hne Hl]. rewrite !bind_cons, IH by set_solver. f_equal.
    rewrite (rw_at _ _ _ _ R); [by rewrite decide_False|]. assert (j ∈ slots s) as Hj by (apply Hs; left). apply slots_elem in Hj. lia. }
  exists ((l1 ≫= fun j => f (st_at s j)) ++ (l2 ≫= fun j => f (st_at s j))). unfold total, slots. rewrite (rw_cap _ _ _ _ R). fold (slots s). rewrite El, !bind_app, !bind_cons.
  rewrite (rewrites_here s s' i e ltac:(lia) R). rewrite !He; [split; solve_Permutation|..]; rewrite ?El; try set_solver.
Qed.

(** ** Tags still to come *)

Definition tags (o : origin) (l : list (origin * Completion)) : list (Z * Z) :=
  l ≫= fun c => if decide (fst c = o) then [token_tag (token (snd c))] else [].

Lemma tags_app o l1 l2 : tags o (l1 ++ l2) = tags o l1 ++ tags o l2.
Proof. apply bind_app. Qed.

Lemma tags_cons o o' c l : tags o ((o', c) :: l) = (if decide (o' = o) then [token_tag (token c)] else []) ++ tags o l.
Proof. done. Qed.

Lemma tags_nil o : tags o [] = [].
Proof. done. Qed.

#[global] Arguments tags : simpl never.

(** The operations whose final completion is not yet drained. *)
Definition ends y : list (Z * Z) := (key_tag <$> kops y) ++ tags Final (cq y).
(** The cancels whose answer is not yet drained. *)
Definition answering y : list (Z * Z) := (token_tag <$> cancels y) ++ tags Answer (cq y).

Definition key_ok s (key : MultishotSlotKey) : Prop :=
  fits 16 (ms_slot key) /\ 0 <= ms_generation key /\ live s key = true /\ e_cancel (st_at s (ms_slot key)) = false.

Definition cqe_wf (c : origin * Completion) : Prop :=
  fits 64 (token (snd c)) /\ st_cqe_fits (snd c) /\ has_more (snd c) = bool_decide (fst c = Data) /\
  match fst c with Answer => st_cqe_res (snd c) = [] | _ => st_cqe_ok (snd c) end.

(** The registry against the keys of the streams, the tags whose final
    completion is to come and the tags whose cancel is to be answered. *)
Record Rg s (ks : list MultishotSlotKey) (es ans : list (Z * Z)) : Prop := {
  rg_wf : st_wf s;
  rg_keys : Forall (key_ok s) ks;
  rg_open t : t ∈ es -> 0 <= fst t -> answers (st_at s (fst t)) (snd t) = true -> e_term (st_at s (fst t)) = false;
  rg_ans t : t ∈ ans -> 0 <= fst t -> answers (st_at s (fst t)) (snd t) = true -> e_cancel (st_at s (fst t)) = true;
  rg_stash i : st_stashes = true -> 0 <= i -> e_cancel (st_at s i) = true -> e_term (st_at s i) = false;
}.

(** What is still owed to the occupied slots: an owner for a slot that is not
    cancelled, a final completion for one that has not ended, and the answer to
    its cancel for one that was cancelled after it ended. *)
Record Ow s (ks : list MultishotSlotKey) (es ans : list (Z * Z)) : Prop := {
  ow_owner i : 0 <= i -> e_occ (st_at s i) = true -> e_cancel (st_at s i) = false -> i ∈ ms_slot <$> ks;
  ow_end i : 0 <= i -> e_occ (st_at s i) = true -> e_term (st_at s i) = false -> (i, e_gen (st_at s i) mod 2 ^ 16) ∈ es;
  ow_answer i : 0 <= i -> e_occ (st_at s i) = true -> e_cancel (st_at s i) = true -> e_term (st_at s i) = true ->
    (i, e_gen (st_at s i) mod 2 ^ 16) ∈ ans;
}.

Definition keys y : list MultishotSlotKey := streams y ++ inbox y.

Record Inv y : Prop := {
  iv_rg : Rg (reg y) (keys y) (ends y) (answering y);
  iv_nodup : NoDup (ms_slot <$> keys y);
  iv_kops : Forall (fun k => fits 16 (ms_slot k) /\ 0 <= ms_generation k) (kops y);
  iv_cancels : Forall (fits 64) (cancels y);
  iv_cq : Forall cqe_wf (cq y);
  iv_ends : NoDup (ends y);
  iv_conserved : conserved y;
  iv_accounted : st_stashes = true -> accounted y;
}.

Definition Owed y : Prop := Ow (reg y) (keys y) (ends y) (answering y).

(** ** Facts used by every step *)

Lemma key_occ s key : live s key = true -> e_occ (st_at s (ms_slot key)) = true /\ e_gen (st_at s (ms_slot key)) = ms_generation key /\
  ms_slot key < st_cap s /\ ms_worker_id key = st_worker s.
Proof. unfold live. rewrite !andb_true_iff, !Z.eqb_eq, Z.ltb_lt. tauto. Qed.

Lemma key_answers s key : live s key = true -> answers (st_at s (ms_slot key)) (snd (key_tag key)) = true.
Proof. intros (Ho & Hg & _)%key_occ. unfold answers, key_tag. cbn. by rewrite Ho, Hg, Z.eqb_refl. Qed.

Lemma sentinel_tag key : fits 16 (ms_slot key) -> 0 <= ms_generation key -> token_tag (st_sentinel key) = key_tag key /\ fits 64 (st_sentinel key).
Proof. intros Hs Hg. destruct (st_sentinel_fields key Hs Hg) as (H0 & H1 & H2). split; [|done]. unfold token_tag, key_tag. by rewrite H1, H2. Qed.

Lemma answers_tag e low : answers e low = true <-> e_occ e = true /\ e_gen e mod 2 ^ 16 = low.
Proof. unfold answers. by rewrite andb_true_iff, Z.eqb_eq. Qed.

Lemma tag_slot u : 0 <= fst (token_tag u).
Proof. cbn. unfold multishot_sentinel_slot. apply Z.land_nonneg. right. lia. Qed.

Lemma rw_other s s' i e j : rewrites s s' i e -> 0 <= j -> j <> i -> st_at s' j = st_at s j.
Proof. intros R Hj Hne. rewrite (rw_at _ _ _ _ R) by done. by rewrite decide_False. Qed.

Lemma key_ok_other s s' i e key : rewrites s s' i e -> ms_slot key <> i -> key_ok s key -> key_ok s' key.
Proof.
  intros R Hne (H1 & H2 & H3 & H4). pose proof H1 as [H0 _]. split; [done|]. split; [done|]. unfold live. rewrite (rw_other _ _ _ _ _ R H0 Hne), (rw_cap _ _ _ _ R), (rw_worker _ _ _ _ R).
  done.
Qed.

Lemma key_ok_here s s' e key : rewrites s s' (ms_slot key) e -> e_occ e = e_occ (st_at s (ms_slot key)) -> e_gen e = e_gen (st_at s (ms_slot key)) ->
  e_cancel e = e_cancel (st_at s (ms_slot key)) -> key_ok s key -> key_ok s' key.
Proof.
  intros R E1 E2 E3 (H1 & H2 & H3 & H4). pose proof H1 as [H0 _]. split; [done|]. split; [done|]. rewrite (live_rewrites s s' key e H0 R E1 E2).
  by rewrite (rewrites_here s s' _ e H0 R), E3.
Qed.

Lemma keys_other s s' i e (l : list MultishotSlotKey) : rewrites s s' i e -> i ∉ ms_slot <$> l -> Forall (key_ok s) l -> Forall (key_ok s') l.
Proof.
  intros R Hi Hl. apply Forall_forall. intros k Hk. apply (key_ok_other s s' i e k R); [|by eapply Forall_forall in Hl].
  intros E. apply Hi. rewrite <- E. by apply list_elem_of_fmap_2.
Qed.

Lemma keys_here s s' i e (l : list MultishotSlotKey) : rewrites s s' i e -> e_occ e = e_occ (st_at s i) -> e_gen e = e_gen (st_at s i) ->
  e_cancel e = e_cancel (st_at s i) -> Forall (key_ok s) l -> Forall (key_ok s') l.
Proof.
  intros R E1 E2 E3 Hl. apply Forall_forall. intros k Hk. eapply Forall_forall in Hl; [|done].
  destruct (decide (ms_slot k = i)) as [<-|Hne]; [by apply (key_ok_here s s' e)|by apply (key_ok_other s s' i e)].
Qed.

Lemma rg_mono s ks ks' es es' ans ans' : ks' ⊆ ks -> es' ⊆ es -> ans' ⊆ ans -> Rg s ks es ans -> Rg s ks' es' ans'.
Proof. intros H1 H2 H3 [W K O N T]. split; auto. apply Forall_forall. intros k Hk. eapply Forall_forall in K; [done|auto]. Qed.

Lemma ow_mono s ks ks' es es' ans ans' : ks ⊆ ks' -> es ⊆ es' -> ans ⊆ ans' -> Ow s ks es ans -> Ow s ks' es' ans'.
Proof. intros H1 H2 H3 [O N T]. split; auto. intros i Hi H4 H5. specialize (O i Hi H4 H5). apply list_elem_of_fmap in O as (k & -> & Hk). apply list_elem_of_fmap_2. auto. Qed.

(** ** One slot rewritten *)

Section rewritten.
Context (s s' : S) (i : Z) (e : entry A) (R : rewrites s s' i e) (Hi : 0 <= i).

Lemma at_cases j : 0 <= j -> (j = i /\ st_at s' j = e) \/ (j <> i /\ st_at s' j = st_at s j).
Proof. intros Hj. rewrite (rw_at _ _ _ _ R) by done. case_decide; auto. Qed.

(** The status of the slot is unchanged. *)
Definition same_status : Prop :=
  e_occ e = e_occ (st_at s i) /\ e_gen e = e_gen (st_at s i) /\ e_term e = e_term (st_at s i) /\ e_cancel e = e_cancel (st_at s i).

Lemma rg_same ks es ans : same_status -> Rg s ks es ans -> Rg s' ks es ans.
Proof.
  intros (E1 & E2 & E3 & E4) [W K O N T]. split; [apply R|by apply (keys_here s s' i e)|..].
  - intros t Ht H0 Ha. destruct (at_cases (fst t) H0) as [[E Ea]|[_ Ea]]; rewrite Ea in *; [|by apply O]. rewrite E3. rewrite <- E in *. apply O; [done..|].
    unfold answers in *. by rewrite <- E1, <- E2.
  - intros t Ht H0 Ha. destruct (at_cases (fst t) H0) as [[E Ea]|[_ Ea]]; rewrite Ea in *; [|by apply N]. rewrite E4. rewrite <- E in *. apply N; [done..|].
    unfold answers in *. by rewrite <- E1, <- E2.
  - intros j Hs Hj Hc. destruct (at_cases j Hj) as [[-> Ea]|[_ Ea]]; rewrite Ea in *; [|by apply T]. rewrite E3. apply T; [done..|congruence].
Qed.

Lemma ow_same ks es ans : same_status -> Ow s ks es ans -> Ow s' ks es ans.
Proof.
  intros (E1 & E2 & E3 & E4) [O N T]. split; intros j Hj; (destruct (at_cases j Hj) as [[-> Ea]|[_ Ea]]; rewrite Ea); rewrite ?E1, ?E2, ?E3, ?E4; auto.
Qed.

(** The slot is free afterwards. *)
Lemma rg_vacant ks es ans : e_occ e = false -> e_cancel e = false -> i ∉ ms_slot <$> ks -> Rg s ks es ans -> Rg s' ks es ans.
Proof.
  intros E1 E2 Hk [W K O N T]. split; [apply R|by apply (keys_other s s' i e)|..].
  - intros t Ht H0 Ha. destruct (at_cases (fst t) H0) as [[_ Ea]|[_ Ea]]; rewrite Ea in *; [|by apply O]. apply answers_tag in Ha. destruct Ha. congruence.
  - intros t Ht H0 Ha. destruct (at_cases (fst t) H0) as [[_ Ea]|[_ Ea]]; rewrite Ea in *; [|by apply N]. apply answers_tag in Ha. destruct Ha. congruence.
  - intros j Hs Hj Hc. destruct (at_cases j Hj) as [[-> Ea]|[_ Ea]]; rewrite Ea in *; [congruence|by apply T].
Qed.

(** ... so what is owed to the other slots is all that is owed. *)
Lemma ow_vacant ks ks' es es' ans ans' : e_occ e = false -> Ow s ks es ans ->
  (forall j, j <> i -> j ∈ ms_slot <$> ks -> j ∈ ms_slot <$> ks') ->
  (forall j g, j <> i -> (j, g) ∈ es -> (j, g) ∈ es') -> (forall j g, j <> i -> (j, g) ∈ ans -> (j, g) ∈ ans') -> Ow s' ks' es' ans'.
Proof.
  intros E1 [O N T] H1 H2 H3. split; intros j Hj; (destruct (at_cases j Hj) as [[-> Ea]|[Hne Ea]]; rewrite Ea); [congruence|auto|congruence|auto|congruence|auto].
Qed.

(** The slot is marked cancelled; tags of that slot may join [ans]. *)
Lemma rg_marked ks es ans ans' : e_occ e = e_occ (st_at s i) -> e_gen e = e_gen (st_at s i) -> e_term e = e_term (st_at s i) -> e_cancel e = true ->
  (st_stashes = true -> e_term e = false) -> i ∉ ms_slot <$> ks -> (forall t, t ∈ ans' -> t ∈ ans \/ fst t = i) -> Rg s ks es ans -> Rg s' ks es ans'.
Proof.
  intros E1 E2 E3 E4 Hst Hk Ha' [W K O N T]. split; [apply R|by apply (keys_other s s' i e)|..].
  - intros t Ht H0 Ha. destruct (at_cases (fst t) H0) as [[E Ea]|[_ Ea]]; rewrite Ea in *; [|by apply O]. rewrite E3. rewrite <- E in *. apply O; [done..|].
    unfold answers in *. by rewrite <- E1, <- E2.
  - intros t Ht H0 Ha. destruct (at_cases (fst t) H0) as [[E Ea]|[Hne Ea]]; rewrite Ea in *; [done|]. destruct (Ha' t Ht); [by apply N|done].
  - intros j Hs Hj Hc. destruct (at_cases j Hj) as [[-> Ea]|[_ Ea]]; rewrite Ea in *; [auto|by apply T].
Qed.

Lemma ow_marked ks ks' es ans ans' : e_occ e = e_occ (st_at s i) -> e_gen e = e_gen (st_at s i) -> e_term e = e_term (st_at s i) -> e_cancel e = true ->
  Ow s ks es ans -> (forall j, j <> i -> j ∈ ms_slot <$> ks -> j ∈ ms_slot <$> ks') -> ans ⊆ ans' ->
  (e_term e = true -> (i, e_gen e mod 2 ^ 16) ∈ ans') -> Ow s' ks' es ans'.
Proof.
  intros E1 E2 E3 E4 [O N T] Hk Ha Ht. split; intros j Hj; (destruct (at_cases j Hj) as [[-> Ea]|[Hne Ea]]; rewrite Ea); [congruence|auto| |auto|auto|auto].
  rewrite E1, E2, E3. auto.
Qed.

(** The final completion is recorded; its tag leaves [es]. *)
Lemma rg_ended ks es es' ans : e_occ e = e_occ (st_at s i) -> e_gen e = e_gen (st_at s i) -> e_cancel e = e_cancel (st_at s i) -> e_cancel e = false ->
  es' ⊆ es -> (i, e_gen e mod 2 ^ 16) ∉ es' -> Rg s ks es ans -> Rg s' ks es' ans.
Proof.
  intros E1 E2 E3 E4 Hes Hni [W K O N T]. split; [apply R|by apply (keys_here s s' i e)|..].
  - intros t Ht H0 Ha. destruct (at_cases (fst t) H0) as [[E Ea]|[_ Ea]]; rewrite Ea in *; [|auto]. exfalso. apply Hni. apply answers_tag in Ha as [_ Ha].
    rewrite <- E, Ha. by destruct t.
  - intros t Ht H0 Ha. destruct (at_cases (fst t) H0) as [[E Ea]|[_ Ea]]; rewrite Ea in *; [|by apply N]. rewrite E3. rewrite <- E in *. apply N; [done..|].
    unfold answers in *. by rewrite <- E1, <- E2.
  - intros j Hs Hj Hc. destruct (at_cases j Hj) as [[-> Ea]|[_ Ea]]; rewrite Ea in *; [congruence|by apply T].
Qed.

Lemma ow_ended ks es es' ans : e_occ e = e_occ (st_at s i) -> e_term e = true -> e_cancel e = e_cancel (st_at s i) -> e_cancel e = false ->
  Ow s ks es ans -> (forall j g, j <> i -> (j, g) ∈ es -> (j, g) ∈ es') -> Ow s' ks es' ans.
Proof.
  intros E1 E2 E3 E4 [O N T] Hes. split; intros j Hj; (destruct (at_cases j Hj) as [[-> Ea]|[Hne Ea]]; rewrite Ea); [|auto|congruence|auto|congruence|auto].
  rewrite E1, E3. auto.
Qed.

(** A free slot is handed out under a key nothing in flight refers to. *)
Lemma rg_opened ks ks' es es' ans key own : i = ms_slot key -> key = mkMs i (e_gen (st_at s i)) (st_worker s) -> fits 16 i -> i < st_cap s -> e = fresh (e_gen (st_at s i)) own ->
  i ∉ ms_slot <$> ks -> (forall k, k ∈ ks' -> k ∈ ks \/ k = key) -> (forall t, t ∈ es' -> t ∈ es \/ t = key_tag key) -> key_tag key ∉ ans -> Rg s ks es ans -> Rg s' ks' es' ans.
Proof.
  intros Ei Ek Hf Hc Ee Hnk Hk He Hna [W K O N T]. assert (ms_generation key = e_gen (st_at s i)) as Eg by (by rewrite Ek).
  assert (key_ok s' key) as Hkey.
  { split; [by rewrite <- Ei|]. split; [rewrite Eg; apply (ok_gen _ _ _ _ (proj2 (st_bounds s W) i Hi))|]. rewrite <- Ei, (rewrites_here s s' i e Hi R), Ee. split; [|done].
    unfold live. rewrite <- Ei, (rewrites_here s s' i e Hi R), Ee, (rw_cap _ _ _ _ R), (rw_worker _ _ _ _ R), Eg. cbn [fresh e_occ e_gen]. rewrite Z.eqb_refl, andb_true_r.
    rewrite Ek. cbn. rewrite Z.eqb_refl. cbn. by apply andb_true_iff; split; [apply Z.ltb_lt|]. }
  split; [apply R|..].
  - apply Forall_forall. intros k Hin. destruct (Hk k Hin) as [Hin'| ->]; [|done]. pose proof (keys_other s s' i e ks R Hnk K) as K'. by eapply Forall_forall in K'.
  - intros t Ht H0 Ha. destruct (at_cases (fst t) H0) as [[E Ea]|[Hne Ea]]; rewrite Ea in *; [by rewrite Ee|]. destruct (He t Ht) as [Hin| ->]; [by apply O|]. by rewrite Ei in Hne.
  - intros t Ht H0 Ha. destruct (at_cases (fst t) H0) as [[E Ea]|[_ Ea]]; rewrite Ea in *; [|by apply N]. exfalso. apply Hna. rewrite Ee in Ha.
    apply answers_tag in Ha as [_ Ha]. cbn in Ha. replace (key_tag key) with t; [done|]. unfold key_tag. rewrite <- Ei, Eg, Ha, <- E. by destruct t.
  - intros j Hs Hj Hc'. destruct (at_cases j Hj) as [[-> Ea]|[_ Ea]]; rewrite Ea in *; [by rewrite Ee in Hc'|by apply T].
Qed.

Lemma ow_opened ks ks' es es' ans key own : i = ms_slot key -> key = mkMs i (e_gen (st_at s i)) (st_worker s) -> e = fresh (e_gen (st_at s i)) own ->
  ks ⊆ ks' -> key ∈ ks' -> es ⊆ es' -> key_tag key ∈ es' -> Ow s ks es ans -> Ow s' ks' es' ans.
Proof.
  intros Ei Ek Ee Hk Hkin Hes Hein HO. eapply ow_mono in HO as [O N T]; [|exact Hk|exact Hes|done].
  split; intros j Hj; (destruct (at_cases j Hj) as [[-> Ea]|[Hne Ea]]; rewrite Ea); [rewrite Ei; intros; by apply list_elem_of_fmap_2|auto| |auto|by rewrite Ee|auto].
  intros _ _. replace (i, e_gen e mod 2 ^ 16) with (key_tag key); [done|]. unfold key_tag. by rewrite <- Ei, Ee, Ek.
Qed.

End rewritten.

End inv.
End StreamInv.

(** * The stream protocol keeps its invariant

    One lemma per kind of step: the invariant, the bookkeeping of what is owed
    and the capacity of the registry. *)

From stdpp Require Import base tactics option numbers list gmap.

Local Open Scope Z_scope.

Module StreamSteps.
Import IoTokens StreamRegistry StreamProto StreamInv.

Section steps.
Context {S A : Type} {St : Streams S A} {La : StreamLaws S A} (lossless : bool) (icap : nat).
Implicit Types (s : S) (e : entry A) (y : sys (S := S)).

(** The conditions under which nothing leaks: an inbox with a place per slot,
    and cancels that are accepted unless the registry frees an ended slot
    itself. *)
Definition roomy s : Prop := st_cap s <= Z.of_nat icap /\ (lossless = true \/ st_stashes = true).

Definition kept y y' : Prop := Inv y' /\ st_cap (reg y') = st_cap (reg y) /\ (roomy (reg y) -> Owed y -> Owed y').

Lemma entry_of s i : st_wf s -> 0 <= i -> entry_ok st_stashes (st_cap s) i (st_at s i).
Proof. intros W Hi. by apply (st_bounds s W). Qed.

Lemma keys_split y l1 key l2 : Inv y -> keys y = l1 ++ key :: l2 ->
  key_ok (reg y) key /\ ms_slot key ∉ ms_slot <$> l1 ++ l2 /\ NoDup (ms_slot <$> l1 ++ l2) /\ Forall (key_ok (reg y)) (l1 ++ l2).
Proof.
  intros HI E. pose proof (iv_nodup y HI) as Hn. pose proof (rg_keys _ _ _ _ (iv_rg y HI)) as Hk. rewrite E in Hn, Hk.
  rewrite fmap_app, fmap_cons in Hn. assert (ms_slot <$> l1 ++ l2 = (ms_slot <$> l1) ++ (ms_slot <$> l2)) as Ef by apply fmap_app.
  assert ((ms_slot <$> l1) ++ ms_slot key :: (ms_slot <$> l2) ≡ₚ ms_slot key :: (ms_slot <$> l1 ++ l2)) as Hp by (rewrite Ef; solve_Permutation).
  rewrite Hp in Hn. apply NoDup_cons in Hn as [H1 H2]. apply Forall_app in Hk as [K1 K2]. apply Forall_cons in K2 as [K2 K3]. split; [done|]. split; [done|]. split; [done|].
  by apply Forall_app.
Qed.

(** ** A stream takes its next item *)

Lemma next_kept y l1 key l2 r s' : Inv y -> streams y = l1 ++ key :: l2 -> st_next (reg y) key = Ret (r, s') ->
  kept y (mkSys s' (match r with Ended => l1 ++ l2 | _ => streams y end) (inbox y) (kops y) (cancels y) (cq y) (created y)
            (delivered y ++ match r with Item x => st_res x | _ => [] end) (disposed y) (submitted y) (retired y)).
Proof.
  intros HI El En. assert (keys y = l1 ++ key :: (l2 ++ inbox y)) as Ek by (unfold keys; by rewrite El, <- app_assoc).
  destruct (keys_split y l1 key _ HI Ek) as (Hok & Hnot & Hnd & Hall). pose proof Hok as (Hf & Hg & Hl & Hc). pose proof Hf as [H0 _]. pose proof HI as [HR HN HK HX HQ HE HV HU]. pose proof (rg_wf _ _ _ _ HR) as W.
  pose proof (st_next_law (reg y) key W H0) as Hlaw. rewrite Hl in Hlaw. set (i := ms_slot key) in *. set (e := st_at (reg y) i) in *.
  destruct (next_entry e) as [e' r0] eqn:Ee. destruct Hlaw as (s1 & E1 & R). rewrite E1 in En. injection En as -> ->.
  destruct (key_occ _ _ Hl) as (Ho & _ & Hcap & _). unfold next_entry in Ee.
  assert (r = Ended /\ e' = freed e /\ held e = [] /\ e_term e = true \/
          r <> Ended /\ same_status (reg y) i e' /\ held_res e = (match r with Item x => st_res x | _ => [] end) ++ held_res e' /\ unretired e' = unretired e) as Hcase.
  { destruct (e_queue e) as [|x q] eqn:Eq; [destruct (e_stash e) as [x|] eqn:Es; [|destruct (e_term e) eqn:Et]|]; injection Ee as <- <-.
    - right. split; [done|]. split; [done|]. split; [|done]. unfold held_res, held. cbn. rewrite Eq, Es. cbn. by rewrite app_nil_r.
    - left. split; [done|]. split; [done|]. split; [|done]. unfold held. by rewrite Eq, Es.
    - right. split; [done|]. split; [done|]. done.
    - right. split; [done|]. split; [done|]. split; [|done]. unfold held_res, held. cbn. by rewrite Eq. }
  destruct Hcase as [(-> & -> & Hh & Ht)|(Hne & Hs & Hh & Hu)]; split.
  - split; cbn; try done.
    + unfold keys. cbn. rewrite <- app_assoc. apply (rg_vacant (reg y) s' i _ R); [done..|]. eapply rg_mono; [| | |exact HR]; [|done..]. rewrite Ek. set_solver.
    + unfold keys. cbn. by rewrite <- app_assoc.
    + unfold conserved in *. cbn. rewrite app_nil_r, (total_same held_res _ _ _ _ R); [done|]. fold e. unfold held_res, freed, held in *. cbn. by rewrite Hh.
    + intros Hst. specialize (HU Hst). unfold accounted in *. cbn. rewrite (total_same unretired _ _ _ _ R); [done|]. fold e. unfold unretired. cbn. by rewrite Ht, andb_false_r.
  - cbn. split; [apply R|]. intros _ HO. unfold Owed in *. cbn. apply (ow_vacant (reg y) s' i _ R) with (keys y) (ends y) (answering y); [done|done|..]; [|done..].
    intros j Hj. rewrite Ek. unfold keys; cbn. rewrite <- app_assoc, !fmap_app, fmap_cons, fmap_app. intros Hin. fold i in Hin. set_solver.
  - assert (match r with Ended => l1 ++ l2 | _ => streams y end = streams y) as -> by (by destruct r). split; cbn; try done.
    + unfold keys. cbn. by apply (rg_same (reg y) s' i e' R).
    + unfold conserved in *. cbn. destruct (total_change held_res _ _ _ _ R ltac:(lia)) as (l & P1 & P2). fold e in P1. rewrite HV, P1, P2, Hh. solve_Permutation.
    + intros Hst. specialize (HU Hst). unfold accounted in *. cbn. rewrite (total_same unretired _ _ _ _ R); done.
  - assert (match r with Ended => l1 ++ l2 | _ => streams y end = streams y) as -> by (by destruct r). cbn. split; [apply R|]. intros _ HO. unfold Owed, keys in *. cbn.
    by apply (ow_same (reg y) s' i e' R).
Qed.

(** ** A stream is dropped *)

Lemma drop_kept y l1 key l2 : Inv y -> streams y = l1 ++ key :: l2 ->
  kept y (mkSys (reg y) (l1 ++ l2) (queue_cancel icap (inbox y) key) (kops y) (cancels y) (cq y) (created y) (delivered y) (disposed y) (submitted y) (retired y)).
Proof.
  intros HI El. assert (keys y = l1 ++ key :: (l2 ++ inbox y)) as Ek by (unfold keys; by rewrite El, <- app_assoc).
  destruct (keys_split y l1 key _ HI Ek) as (Hok & Hnot & Hnd & Hall). pose proof HI as [HR HN HK HX HQ HE HV HU].
  set (q := queue_cancel icap (inbox y) key). assert (q = inbox y ++ [key] \/ q = inbox y /\ (icap <= length (inbox y))%nat) as Hq.
  { unfold q, queue_cancel. case_decide; [by left|right; split; [done|lia]]. }
  assert ((l1 ++ l2) ++ inbox y ++ [key] ≡ₚ keys y) as Hp by (rewrite Ek; solve_Permutation). split; [|split; [done|]].
  - split; cbn; try done.
    + eapply rg_mono; [| | |exact HR]; [|done..]. enough ((l1 ++ l2) ++ q ⊆ keys y) by done. destruct Hq as [->|[-> _]]; [by rewrite Hp|]. rewrite Ek. set_solver.
    + unfold keys. cbn. destruct Hq as [->|[-> _]]; [by rewrite Hp|]. by rewrite <- app_assoc.
  - intros [Hroom _] HO. unfold Owed in *. cbn. eapply ow_mono; [| | |exact HO]; [|done..]. enough (keys y ⊆ (l1 ++ l2) ++ q) by done. destruct Hq as [->|[_ Hfull]]; [by rewrite Hp|].
    exfalso. assert (length (keys y) <= length (slots (reg y)))%nat as Hlen.
    { rewrite <- (length_fmap ms_slot). apply submseteq_length, NoDup_submseteq; [done|]. intros j Hj. apply list_elem_of_fmap in Hj as (k & -> & Hk).
      pose proof (rg_keys _ _ _ _ HR) as Hf. rewrite Forall_forall in Hf. destruct (Hf k Hk) as ([? _] & _ & Hl & _). apply key_occ in Hl as (_ & _ & ? & _). apply slots_elem. lia. }
    unfold slots in Hlen. rewrite length_seqZ, Ek in Hlen. rewrite length_app in Hlen. cbn in Hlen. rewrite length_app in Hlen. unfold keys in *.
    pose proof (proj1 (st_bounds _ (rg_wf _ _ _ _ HR))). lia.
Qed.

(** ** The worker cancels a dropped stream *)

Lemma cancel_kept y key q accepted s' ds sent : Inv y -> inbox y = key :: q -> (lossless = true -> accepted = true) ->
  st_cancel accepted (reg y) key = Ret (s', ds, sent) ->
  kept y (mkSys s' (streams y) q (kops y) (cancels y ++ option_list sent) (cq y) (created y) (delivered y) (disposed y ++ ds) (submitted y) (retired y)).
Proof.
  intros HI Eq Hll Ec. assert (keys y = streams y ++ key :: q) as Ek by (unfold keys; by rewrite Eq).
  destruct (keys_split y _ key q HI Ek) as (Hok & Hnot & Hnd & Hall). pose proof Hok as (Hf & Hg & Hl & Hc). pose proof Hf as [H0 _].
  pose proof HI as [HR HN HK HX HQ HE HV HU]. pose proof (rg_wf _ _ _ _ HR) as W.
  pose proof (st_cancel_law accepted (reg y) key W H0) as Hlaw. cbn zeta in Hlaw. rewrite Hl in Hlaw. set (i := ms_slot key) in *. set (e := st_at (reg y) i) in *.
  destruct (key_occ _ _ Hl) as (Ho & Hge & Hcap & _). fold i e in Ho, Hge. destruct (sentinel_tag key Hf Hg) as [Hst Hsf].
  assert (Rg (reg y) (streams y ++ q) (ends y) (answering y)) as HR' by (eapply rg_mono; [| | |exact HR]; [rewrite Ek; set_solver|done..]).
  assert (forall j, j <> i -> j ∈ ms_slot <$> keys y -> j ∈ ms_slot <$> streams y ++ q) as Hsub.
  { intros j Hj. rewrite Ek, !fmap_app, fmap_cons. fold i. set_solver. }
  unfold cancel_entry in Hlaw. destruct (st_stashes && e_term e) eqn:Hend.
  - destruct Hlaw as (s1 & E1 & R). rewrite E1 in Ec. injection Ec as <- <- <-. apply andb_true_iff in Hend as [_ Ht]. cbn [option_list]. rewrite app_nil_r. split; [|split; [apply R|]].
    + split; cbn; try done.
      * by apply (rg_vacant (reg y) s1 i _ R).
      * unfold conserved in *. cbn. destruct (total_change held_res _ _ _ _ R ltac:(lia)) as (l & P1 & P2). fold e in P1. rewrite HV, P1, P2. unfold held_res at 2, freed, held at 2. cbn. solve_Permutation.
      * intros Hs. specialize (HU Hs). unfold accounted in *. cbn. rewrite (total_same unretired _ _ _ _ R); [done|]. fold e. unfold unretired. cbn. by rewrite Ht, andb_false_r.
    + intros _ HO. unfold Owed in *. cbn. by apply (ow_vacant (reg y) s1 i _ R) with (keys y) (ends y) (answering y).
  - destruct Hlaw as (s1 & E1 & R). rewrite E1 in Ec. injection Ec as <- <- <-. split; [|split; [apply R|]].
    + split; cbn; try done.
      * apply (rg_marked (reg y) s1 i _ R) with (ans := answering y); [done..| |done| |exact HR'].
        -- cbn. intros Hs. rewrite Hs in Hend. done.
        -- intros t. unfold answering. cbn. rewrite fmap_app, !elem_of_app. intros [[Hin|Hin]|Hin]; [by left; left| |by left; right].
           destruct accepted; cbn in Hin; [|by apply elem_of_nil in Hin]. apply list_elem_of_singleton in Hin as ->. right. by rewrite Hst.
      * apply Forall_app. split; [done|]. destruct accepted; cbn; auto.
      * unfold conserved in *. cbn. destruct (total_change held_res _ _ _ _ R ltac:(lia)) as (l & P1 & P2). fold e in P1. rewrite HV, P1, P2. unfold held_res at 2, held at 2. cbn. solve_Permutation.
      * intros Hs. specialize (HU Hs). unfold accounted in *. cbn. rewrite (total_same unretired _ _ _ _ R); done.
    + intros [_ Hroom] HO. unfold Owed in *. cbn. apply (ow_marked (reg y) s1 i _ R) with (keys y) (answering y); [done..| |].
      * unfold answering. cbn. rewrite fmap_app. set_solver.
      * cbn. intros Ht. destruct Hroom as [Hlo|Hs]; [|rewrite Hs, Ht in Hend; done]. rewrite (Hll Hlo). unfold answering. cbn. rewrite fmap_app. cbn. rewrite Hst. unfold key_tag. fold i. rewrite Hge. set_solver.
Qed.

(** ** The kernel posts *)

Lemma post_kept y key c : Inv y -> key ∈ kops y -> token c = st_sentinel key -> has_more c = true -> st_cqe_fits c -> st_cqe_ok c ->
  kept y (mkSys (reg y) (streams y) (inbox y) (kops y) (cancels y) (cq y ++ [(Data, c)]) (created y ++ st_cqe_res c) (delivered y) (disposed y) (submitted y) (retired y)).
Proof.
  intros HI Hk Et Hm Hf Ho. pose proof HI as [HR HN HK HX HQ HE HV HU]. rewrite Forall_forall in HK. destruct (HK key Hk) as [Hs Hg].
  destruct (sentinel_tag key Hs Hg) as [_ Hsf]. set (y' := mkSys _ _ _ _ _ _ _ _ _ _ _).
  assert (ends y' = ends y) as Ee by (unfold ends, y'; cbn; rewrite tags_app, tags_cons, tags_nil; cbn; by rewrite app_nil_r).
  assert (answering y' = answering y) as Ea by (unfold answering, y'; cbn; rewrite tags_app, tags_cons, tags_nil; cbn; by rewrite app_nil_r). split; [|split; [done|]].
  - split; rewrite ?Ee, ?Ea; try done.
    + apply Forall_forall. done.
    + apply Forall_app. split; [done|]. apply Forall_singleton. split; [cbn; by rewrite Et|]. split; [done|]. split; [|done]. cbn. by rewrite Hm.
    + unfold conserved in *. cbn. rewrite bind_app, HV. cbn. solve_Permutation.
  - intros _ HO. unfold Owed in *. by rewrite Ee, Ea.
Qed.

Lemma final_kept y l1 key l2 c : Inv y -> kops y = l1 ++ key :: l2 -> token c = st_sentinel key -> has_more c = false -> st_cqe_fits c -> st_cqe_ok c ->
  kept y (mkSys (reg y) (streams y) (inbox y) (l1 ++ l2) (cancels y) (cq y ++ [(Final, c)]) (created y ++ st_cqe_res c) (delivered y) (disposed y) (submitted y) (retired y)).
Proof.
  intros HI Ek Et Hm Hf Ho. pose proof HI as [HR HN HK HX HQ HE HV HU]. rewrite Ek in HK. apply Forall_app in HK as [K1 K2]. apply Forall_cons in K2 as [[Hs Hg] K3].
  destruct (sentinel_tag key Hs Hg) as [Htag Hsf]. set (y' := mkSys _ _ _ _ _ _ _ _ _ _ _).
  assert (ends y' ≡ₚ ends y) as Ee. { unfold ends, y'. cbn. rewrite Ek, tags_app, tags_cons, tags_nil, !fmap_app, fmap_cons. cbn. rewrite Et, Htag. solve_Permutation. }
  assert (answering y' = answering y) as Ea by (unfold answering, y'; cbn; rewrite tags_app, tags_cons, tags_nil; cbn; by rewrite app_nil_r). split; [|split; [done|]].
  - split; try done.
    + rewrite Ea. eapply rg_mono; [| | |exact HR]; [done| |done]. by rewrite Ee.
    + by apply Forall_app.
    + apply Forall_app. split; [done|]. apply Forall_singleton. split; [cbn; by rewrite Et|]. split; [done|]. split; [|done]. cbn. by rewrite Hm.
    + by rewrite Ee.
    + unfold conserved in *. cbn. rewrite bind_app, HV. cbn. solve_Permutation.
  - intros _ HO. unfold Owed in *. rewrite Ea. eapply ow_mono; [| | |exact HO]; [done| |done]. by rewrite Ee.
Qed.

Lemma answer_kept y l1 sent l2 c : Inv y -> cancels y = l1 ++ sent :: l2 -> token c = sent -> has_more c = false -> st_cqe_fits c -> st_cqe_res c = [] ->
  kept y (mkSys (reg y) (streams y) (inbox y) (kops y) (l1 ++ l2) (cq y ++ [(Answer, c)]) (created y) (delivered y) (disposed y) (submitted y) (retired y)).
Proof.
  intros HI Ek Et Hm Hf Hr. pose proof HI as [HR HN HK HX HQ HE HV HU]. rewrite Ek in HX. apply Forall_app in HX as [K1 K2]. apply Forall_cons in K2 as [Hsf K3].
  set (y' := mkSys _ _ _ _ _ _ _ _ _ _ _).
  assert (answering y' ≡ₚ answering y) as Ea. { unfold answering, y'. cbn. rewrite Ek, tags_app, tags_cons, tags_nil, !fmap_app, fmap_cons. cbn. rewrite Et. solve_Permutation. }
  assert (ends y' = ends y) as Ee by (unfold ends, y'; cbn; rewrite tags_app, tags_cons, tags_nil; cbn; by rewrite app_nil_r). split; [|split; [done|]].
  - split; rewrite ?Ee; try done.
    + eapply rg_mono; [| | |exact HR]; [done|done|]. by rewrite Ea.
    + by apply Forall_app.
    + apply Forall_app. split; [done|]. apply Forall_singleton. split; [cbn; by rewrite Et|]. split; [done|]. split; [|done]. cbn. by rewrite Hm.
    + unfold conserved in *. cbn. rewrite bind_app, HV. cbn. rewrite Hr. solve_Permutation.
  - intros _ HO. unfold Owed in *. rewrite Ee. eapply ow_mono; [| | |exact HO]; [done|done|]. by rewrite Ea.
Qed.

(** ** The worker drains a completion *)

(** The state after the head of the completion queue is handled. *)
Definition drained y q s' ds ret : sys :=
  mkSys s' (streams y) (inbox y) (kops y) (cancels y) q (created y) (delivered y) (disposed y ++ ds) (submitted y) (retired y ++ ret).

Definition only (o o' : origin) (t : Z * Z) : list (Z * Z) := if decide (o = o') then [t] else [].

Lemma drained_ends y o c q s' ds ret : cq y = (o, c) :: q -> ends y ≡ₚ only o Final (token_tag (token c)) ++ ends (drained y q s' ds ret).
Proof. intros E. unfold ends, only. rewrite E, tags_cons. cbn. solve_Permutation. Qed.

Lemma drained_answering y o c q s' ds ret : cq y = (o, c) :: q -> answering y ≡ₚ only o Answer (token_tag (token c)) ++ answering (drained y q s' ds ret).
Proof. intros E. unfold answering, only. rewrite E, tags_cons. cbn. solve_Permutation. Qed.

Lemma only_other o o' t j g (l : list (Z * Z)) : (j, g) ∈ only o o' t ++ l -> j <> fst t \/ g <> snd t -> (j, g) ∈ l.
Proof. unfold only. case_decide; cbn; [|done]. intros [E|]%elem_of_cons; [|done]. rewrite <- E. cbn. intros []; done. Qed.

(** The bookkeeping, given what the registry did. *)
Lemma drained_kept y o c q s' ds ret (y' := drained y q s' ds ret) : Inv y -> cq y = (o, c) :: q ->
  Rg s' (keys y) (ends y') (answering y') ->
  total held_res s' ++ ds ≡ₚ total held_res (reg y) ++ st_cqe_res c ->
  (st_stashes = true -> ret ++ total unretired s' ≡ₚ total unretired (reg y)) ->
  st_cap s' = st_cap (reg y) -> (Owed y -> Owed y') -> kept y y'.
Proof.
  intros HI Eq HR' Hh Hu Hc HO. pose proof HI as [HR HN HK HX HQ HE HV HU]. rewrite Eq in HQ. apply Forall_cons in HQ as [_ HQ].
  pose proof (drained_ends y o c q s' ds ret Eq) as Pe. fold y' in Pe. split; [|split; [done|auto]]. split; try done.
  - rewrite Pe in HE. by apply NoDup_app in HE as (_ & _ & ?).
  - unfold conserved in *. cbn. rewrite Eq, bind_cons in HV. cbn in HV. rewrite HV. transitivity ((q ≫= fun c => st_cqe_res (snd c)) ++ (total held_res (reg y) ++ st_cqe_res c) ++ delivered y ++ disposed y); [solve_Permutation|].
    rewrite <- Hh. solve_Permutation.
  - intros Hs. specialize (HU Hs). specialize (Hu Hs). unfold accounted in *. cbn. rewrite HU, <- Hu. solve_Permutation.
Qed.

(** What a completion that its slot answers to does to the slot. *)
Lemma complete_cases s ks es ans o c : Rg s ks es ans -> cqe_wf (o, c) ->
  let t := token_tag (token c) in let e := st_at s (fst t) in
  (o = Final -> t ∈ es) -> (o = Answer -> t ∈ ans) ->
  let '(e', stored) := complete_entry st_stashes e (snd t) (has_more c) (st_item c) in
  let ret := option_list (mc_retire (complete_reply e (snd t) (has_more c) stored)) in
  held_res e' ++ (if stored then [] else st_cqe_res c) ≡ₚ held_res e ++ st_cqe_res c /\
  (st_stashes = true -> ret ++ unretired e' ≡ₚ unretired e) /\
  (answers e (snd t) = false /\ e' = e \/
   answers e (snd t) = true /\ o = Data /\ same_status s (fst t) e' \/
   answers e (snd t) = true /\ e_cancel e = true /\ e' = freed e \/
   answers e (snd t) = true /\ o = Final /\ e_occ e' = e_occ e /\ e_gen e' = e_gen e /\ e_cancel e' = e_cancel e /\ e_cancel e' = false /\ e_term e' = true).
Proof.
  intros HR (Hft & Hfc & Hm & Hok) t e Hfin Hansw. cbn [fst snd] in *. pose proof (tag_slot (token c)) as H0. fold t in H0. pose proof (entry_of s (fst t) (rg_wf _ _ _ _ HR) H0) as Hokk. fold e in Hokk.
  assert (o <> Answer -> st_res (st_item c) = st_cqe_res c) as Hres by (intros Hno; apply st_item_res; by destruct o).
  unfold complete_entry, complete_reply, same_status. fold e. destruct (answers e (snd t)) eqn:Ha; cbn [negb].
  2: { cbn. destruct (has_more c); cbn; auto. }
  pose proof Ha as [Hocc _]%answers_tag. rewrite Hm. destruct (e_cancel e) eqn:Hc.
  - assert (held e = []) as Hh. { unfold held. destruct (ok_cancel _ _ _ _ Hokk Hc) as [-> ->]. done. }
    destruct (decide (o = Data)) as [->|Hd]; [rewrite bool_decide_true by done; cbn; split; [done|]; split; [done|]; by right; left|].
    rewrite bool_decide_false by done. cbn. split; [unfold held_res; rewrite Hh; done|]. split; [|by right; right; left].
    intros Hs. unfold unretired. cbn. pose proof (rg_stash _ _ _ _ HR (fst t) Hs H0 Hc) as Ht. fold e in Ht. by rewrite Hocc, Ht.
  - assert (o <> Answer) as Hno. { intros ->. pose proof (rg_ans _ _ _ _ HR t (Hansw eq_refl) H0 Ha) as Hx. fold e in Hx. congruence. }
    specialize (Hres Hno). destruct (decide (o = Data)) as [->|Hd].
    + rewrite bool_decide_true by done. destruct (has_room e); cbn; (split; [|split; [done|by right; left]]); [|done].
      unfold held_res, held. cbn. rewrite !bind_app. cbn. rewrite Hres. solve_Permutation.
    + assert (o = Final) as -> by (destruct o; done). rewrite bool_decide_false by done.
      pose proof (rg_open _ _ _ _ HR t (Hfin eq_refl) H0 Ha) as Ht. fold e in Ht.
      assert (e_stash e = None) as Hst. { destruct (e_stash e) eqn:E; [|done]. destruct (ok_stash _ _ _ _ Hokk) as [_ ?]; congruence. }
      destruct st_stashes; [|destruct (has_room e)]; cbn; (split; [|split; [|by right; right; right]]);
        try (intros _; unfold unretired; cbn; by rewrite Hocc, Ht); try done; unfold held_res, held; cbn; rewrite !bind_app, ?Hst; cbn; rewrite Hres; solve_Permutation.
Qed.

Lemma drain_kept y o c q s' ds mc : Inv y -> cq y = (o, c) :: q -> st_complete (reg y) c = Ret (s', ds, mc) -> kept y (drained y q s' ds (option_list (mc_retire mc))).
Proof.
  intros HI Eq Ec. pose proof HI as [HR HN HK HX HQ HE HV HU]. pose proof HQ as HQ'. rewrite Eq in HQ'. apply Forall_cons in HQ' as [Hcw _]. pose proof Hcw as (Hft & Hfc & Hm & Hok). cbn [fst snd] in *.
  set (y' := drained y q s' ds (option_list (mc_retire mc))). pose proof (drained_ends y o c q s' ds (option_list (mc_retire mc)) Eq) as Pe. pose proof (drained_answering y o c q s' ds (option_list (mc_retire mc)) Eq) as Pa. fold y' in Pe, Pa.
  pose proof (st_complete_law (reg y) c (rg_wf _ _ _ _ HR) Hft Hfc) as Hlaw. cbn zeta in Hlaw. pose proof (tag_slot (token c)) as H0.
  pose proof (complete_cases (reg y) _ _ _ o c HR Hcw) as Hcs. cbn zeta in Hcs. set (t := token_tag (token c)) in *.
  change (multishot_sentinel_slot (token c)) with (fst t) in Hlaw. change (multishot_sentinel_generation (token c)) with (snd t) in Hlaw. set (e := st_at (reg y) (fst t)) in *.
  destruct (complete_entry st_stashes e (snd t) (has_more c) (st_item c)) as [e' stored] eqn:Ee. destruct Hlaw as (s1 & E1 & R). rewrite E1 in Ec. injection Ec as <- <- <-.
  destruct Hcs as (Hh & Hu & Hcs); [by intros ->; rewrite Pe; left|by intros ->; rewrite Pa; left|].
  assert (Rg (reg y) (keys y) (ends y') (answering y')) as HR' by (eapply rg_mono; [done| | |exact HR]; rewrite ?Pe, ?Pa; set_solver).
  assert (e' = e \/ 0 <= fst t < st_cap (reg y)) as Hin.
  { destruct Hcs as [[_ ->]|Hcs]; [by left|]. right. split; [done|]. apply (ok_cap _ _ _ _ (entry_of (reg y) (fst t) (rg_wf _ _ _ _ HR) H0)). fold e. destruct Hcs as [[Ha _]|[[Ha _]|[Ha _]]]; by apply answers_tag in Ha as [? _]. }
  apply (drained_kept y o c q s1 _ _ HI Eq); fold y'.
  - destruct Hcs as [[Ha ->]|[(Ha & Ho & Hs)|[(Ha & Hc & ->)|(Ha & Ho & H1 & H2 & H3 & H4 & H5)]]].
    + by apply (rg_same (reg y) s1 _ _ R).
    + by apply (rg_same (reg y) s1 _ _ R).
    + apply (rg_vacant (reg y) s1 _ _ R); [done..| |done]. intros (k & Ek & Hk)%list_elem_of_fmap. pose proof (rg_keys _ _ _ _ HR) as Hf. rewrite Forall_forall in Hf. destruct (Hf k Hk) as (_ & _ & _ & Hx).
      rewrite <- Ek in Hx. fold e in Hx. congruence.
    + apply (rg_ended (reg y) s1 _ _ R) with (es := ends y'); [done..| |done]. apply answers_tag in Ha as [_ Ha]. rewrite H2, Ha, <- surjective_pairing.
      rewrite Pe in HE. unfold only in HE. rewrite Ho, decide_True in HE by done. by apply NoDup_cons in HE as [? _].
  - destruct Hin as [->|Hin].
    + rewrite (total_same held_res _ _ _ _ R) by done. apply Permutation_app_inv_l in Hh. by rewrite Hh.
    + destruct (total_change held_res _ _ _ _ R Hin) as (l & -> & ->). fold e. rewrite <- app_assoc, (Permutation_app_comm l), app_assoc, Hh. solve_Permutation.
  - intros Hs. specialize (Hu Hs). change (multishot_sentinel_generation (token c)) with (snd t). destruct Hin as [->|Hin].
    + rewrite (total_same unretired _ _ _ _ R) by done. rewrite <- (app_nil_l (unretired e)) in Hu at 2. apply Permutation_app_inv_r in Hu. by rewrite Hu.
    + destruct (total_change unretired _ _ _ _ R Hin) as (l & -> & ->). fold e. by rewrite app_assoc, Hu.
  - apply R.
  - intros HO. unfold Owed in *. change (keys y') with (keys y). change (reg y') with s1. destruct Hcs as [[Ha ->]|[(Ha & Ho & Hs)|[(Ha & Hc & ->)|(Ha & Ho & H1 & H2 & H3 & H4 & H5)]]].
    + apply (ow_same (reg y) s1 _ _ R); [done|]. destruct HO as [O1 O2 O3]. assert (forall i, e_occ (st_at (reg y) i) = true -> i <> fst t \/ e_gen (st_at (reg y) i) mod 2 ^ 16 <> snd t) as Hne.
      { intros i Ho. destruct (decide (i = fst t)) as [->|]; [right|by left]. intros Hg. fold e in Ho, Hg. unfold answers in Ha. rewrite Ho, Hg, Z.eqb_refl in Ha. done. }
      split; [done|..]; intros i Hi Ho; intros; eapply only_other; [rewrite <- Pe; auto|auto|rewrite <- Pa; auto|auto].
    + apply (ow_same (reg y) s1 _ _ R); [done|]. rewrite Ho in Pe, Pa. unfold only in Pe, Pa. rewrite decide_False in Pe by done. rewrite decide_False in Pa by done. eapply ow_mono; [done| | |exact HO]; by rewrite ?Pe, ?Pa.
    + apply (ow_vacant (reg y) s1 _ _ R) with (keys y) (ends y) (answering y); [done..| |]; intros j g Hj Hg; [rewrite Pe in Hg|rewrite Pa in Hg]; eapply only_other; eauto.
    + rewrite Ho in Pa. unfold only in Pa. rewrite decide_False in Pa by done. apply (ow_ended (reg y) s1 _ _ R) with (ends y); [done..| |]; [eapply ow_mono; [done|done| |exact HO]; by rewrite Pa|].
      intros j g Hj Hg. rewrite Pe in Hg. eapply only_other; eauto.
Qed.

(** ** A stream opens *)

Lemma unused_tags y key : unused y key = true -> key_tag key ∉ ends y /\ key_tag key ∉ answering y.
Proof.
  intros Hu. unfold unused in Hu. rewrite !andb_true_iff, !forallb_forall in Hu. destruct Hu as [[H1 H2] H3].
  assert (forall o, key_tag key ∉ tags o (cq y)) as Ht.
  { intros o Hin. unfold tags in Hin. apply list_elem_of_bind in Hin as ([o' c] & Hin & Hc). cbn in Hin. case_decide; [|by apply elem_of_nil in Hin]. apply list_elem_of_singleton in Hin.
    apply list_elem_of_In, H3 in Hc. cbn in Hc. rewrite bool_decide_true in Hc by done. done. }
  split; intros [Hin|Hin]%elem_of_app; try by apply Ht in Hin.
  - apply list_elem_of_fmap in Hin as (k & Ek & Hk). apply list_elem_of_In, H1 in Hk. by rewrite bool_decide_true in Hk.
  - apply list_elem_of_fmap in Hin as (k & Ek & Hk). apply list_elem_of_In, H2 in Hk. by rewrite bool_decide_true in Hk.
Qed.

(** What opening a stream does to the registry. *)
Lemma start_multishot_law s owner accepted s' r : st_wf s -> fits 64 owner -> start_multishot s owner accepted = Ret (s', r) ->
  r = None /\ s' = s \/
  (exists i, r = None /\ 0 <= i < st_cap s /\ e_occ (st_at s i) = false /\ rewrites s s' i (freed (fresh (e_gen (st_at s i)) owner))) \/
  (exists key, r = Some key /\ 0 <= ms_slot key < st_cap s /\ e_occ (st_at s (ms_slot key)) = false /\
     key = mkMs (ms_slot key) (e_gen (st_at s (ms_slot key))) (st_worker s) /\ rewrites s s' (ms_slot key) (fresh (e_gen (st_at s (ms_slot key))) owner)).
Proof.
  intros W Ho E. unfold start_multishot in E. destruct (st_allocate_law s owner W Ho) as (a & s1 & Ea & Hlaw). rewrite Ea in E. cbn in E.
  destruct a as [key|]; [|left; destruct Hlaw as [-> _]; by injection E]. destruct Hlaw as (Hi & Hocc & Ek & R). destruct accepted.
  - injection E as <- <-. right; right. by exists key.
  - pose proof (st_release_law s1 key (rw_wf _ _ _ _ R) (proj1 Hi)) as Hr. assert (live s1 key = true) as Hl.
    { unfold live. rewrite (rewrites_here _ _ _ _ (proj1 Hi) R), (rw_cap _ _ _ _ R), (rw_worker _ _ _ _ R), Ek. cbn. rewrite !Z.eqb_refl, !andb_true_r. apply Z.ltb_lt. lia. }
    rewrite Hl in Hr. destruct Hr as (s2 & E2 & R2). rewrite E2 in E. injection E as <- <-. right; left. exists (ms_slot key). split; [done|]. split; [done|]. split; [done|].
    rewrite (rewrites_here _ _ _ _ (proj1 Hi) R) in R2. by eapply rewrites_trans.
Qed.

Lemma start_kept y owner accepted s' r : Inv y -> fits 64 owner -> start_multishot (reg y) owner accepted = Ret (s', r) ->
  (forall key, r = Some key -> unused y key = true) ->
  kept y (mkSys s' (streams y ++ option_list r) (inbox y) (kops y ++ option_list r) (cancels y) (cq y) (created y) (delivered y) (disposed y)
              (submitted y ++ match r with Some _ => [owner] | None => [] end) (retired y)).
Proof.
  intros HI Ho Es Hu. pose proof HI as [HR HN HK HX HQ HE HV HU]. pose proof (rg_wf _ _ _ _ HR) as W.
  assert (forall i, 0 <= i -> e_occ (st_at (reg y) i) = false -> i ∉ ms_slot <$> keys y /\ held_res (st_at (reg y) i) = [] /\ unretired (st_at (reg y) i) = []) as Hfree.
  { intros i Hi Hocc. split; [|split].
    - intros (k & -> & Hk)%list_elem_of_fmap. pose proof (rg_keys _ _ _ _ HR) as Hf. rewrite Forall_forall in Hf. destruct (Hf k Hk) as (_ & _ & Hl & _). apply key_occ in Hl. destruct Hl. congruence.
    - destruct (ok_free _ _ _ _ (entry_of (reg y) i W Hi) Hocc) as (E1 & _ & E2 & _). unfold held_res, held. by rewrite E1, E2.
    - unfold unretired. by rewrite Hocc. }
  destruct (start_multishot_law _ _ _ _ _ W Ho Es) as [[-> ->]|[(i & -> & Hi & Hocc & R)|(key & -> & Hi & Hocc & Ek & R)]]; cbn [option_list]; rewrite ?app_nil_r.
  - split; [|done]. by destruct y.
  - destruct (Hfree i (proj1 Hi) Hocc) as (Hk & Hh & Hn). split; [|split; [apply R|]].
    + split; cbn; try done.
      * by apply (rg_vacant (reg y) s' i _ R).
      * unfold conserved in *. cbn. by rewrite (total_same held_res _ _ _ _ R).
      * intros Hs. unfold accounted in *. cbn. by rewrite (total_same unretired _ _ _ _ R); [apply HU|].
    + intros _ HO. unfold Owed in *. cbn. by apply (ow_vacant (reg y) s' i _ R) with (keys y) (ends y) (answering y).
  - destruct (Hfree _ (proj1 Hi) Hocc) as (Hk & Hh & Hn). destruct (unused_tags y key (Hu key eq_refl)) as [Hne Hna]. set (i := ms_slot key) in *. set (y' := mkSys _ _ _ _ _ _ _ _ _ _ _).
    pose proof (ok_gen _ _ _ _ (entry_of (reg y) i W (proj1 Hi))) as Hg. assert (ms_generation key = e_gen (st_at (reg y) i)) as Egk by (by rewrite Ek).
    assert (fits 16 i) as Hf. { pose proof (proj1 (st_bounds _ W)). unfold fits. lia. }
    assert (keys y' ≡ₚ key :: keys y) as Pk by (unfold keys, y'; cbn; solve_Permutation).
    assert (ends y' ≡ₚ key_tag key :: ends y) as Pe by (unfold ends, y'; cbn; rewrite fmap_app; cbn; solve_Permutation).
    split; [|split; [apply R|]].
    + split; try done.
      * apply (rg_opened (reg y) s' i _ R (proj1 Hi)) with (ks := keys y) (es := ends y) (key := key) (own := owner); try done; [lia|intros k; rewrite Pk; set_solver|intros t; rewrite Pe; set_solver].
      * rewrite Pk, fmap_cons. by apply NoDup_cons.
      * apply Forall_app. split; [done|]. apply Forall_singleton. split; [done|]. rewrite Egk. apply Hg.
      * rewrite Pe. by apply NoDup_cons.
      * unfold conserved in *. cbn. by rewrite (total_same held_res _ _ _ _ R).
      * intros Hs. specialize (HU Hs). unfold accounted in *. cbn. destruct (total_change unretired _ _ _ _ R Hi) as (l & P1 & P2). fold i in P1. rewrite Hn in P1. rewrite HU, P1, P2. unfold unretired; cbn. solve_Permutation.
    + intros _ HO. unfold Owed in *. apply (ow_opened (reg y) s' i _ R) with (ks := keys y) (es := ends y) (key := key) (own := owner); try done; rewrite ?Pk, ?Pe; set_solver.
Qed.

(** ** Every step *)

Lemma step_kept y y' : Inv y -> step lossless icap y y' -> kept y y'.
Proof.
  intros HI Hs. destruct Hs.
  - by eapply start_kept.
  - by eapply next_kept.
  - by eapply drop_kept.
  - by eapply cancel_kept.
  - by eapply post_kept.
  - by eapply final_kept.
  - by eapply answer_kept.
  - by eapply drain_kept.
Qed.

End steps.
End StreamSteps.
