(* ===== verification/StreamRun.v ===== *)
(** * Running the stream protocol

    An executable scheduler for [StreamProto]: a label names the step to take,
    its guards are checked, and a run of labels that succeeds is a path of the
    transition system. *)

From S2P Require Import Prelude IoTokens StreamRegistry StreamProto.
From stdpp Require Import base tactics option list numbers.

Local Open Scope Z_scope.

Module StreamRun.
Import IoTokens StreamRegistry StreamProto.

Inductive label : Type :=
| LStart (owner : Z) (accepted : bool) | LNext (i : nat) | LDrop (i : nat) | LCancel (accepted : bool)
| LPost (i : nat) (c : Completion) | LFinal (i : nat) (c : Completion) | LAnswer (i : nat) (c : Completion) | LDrain.

Section exec.
Context {S A : Type} {St : Streams S A} (lossless : bool) (icap : nat).
Context `{Hfit : forall c, Decision (st_cqe_fits c)} `{Hok : forall c, Decision (st_cqe_ok c)}.
Implicit Types (y : sys (S := S)).

Definition without {B} (l : list B) (i : nat) : list B := take i l ++ drop (Datatypes.S i) l.

Definition exec (l : label) y : option sys :=
  match l with
  | LStart owner accepted =>
      match start_multishot (reg y) owner accepted with
      | Ret (s', r) =>
          if bool_decide (fits 64 owner) && match r with Some key => unused y key | None => true end then
            Some (mkSys s' (streams y ++ option_list r) (inbox y) (kops y ++ option_list r) (cancels y) (cq y) (created y) (delivered y) (disposed y)
                    (submitted y ++ match r with Some _ => [owner] | None => [] end) (retired y))
          else None
      | _ => None
      end
  | LNext i =>
      key ← streams y !! i;
      match st_next (reg y) key with
      | Ret (r, s') =>
          Some (mkSys s' (match r with Ended => without (streams y) i | _ => streams y end) (inbox y) (kops y) (cancels y) (cq y) (created y)
                  (delivered y ++ match r with Item x => st_res x | _ => [] end) (disposed y) (submitted y) (retired y))
      | _ => None
      end
  | LDrop i =>
      key ← streams y !! i;
      Some (mkSys (reg y) (without (streams y) i) (queue_cancel icap (inbox y) key) (kops y) (cancels y) (cq y) (created y) (delivered y) (disposed y) (submitted y) (retired y))
  | LCancel accepted =>
      match inbox y with
      | key :: q =>
          if lossless && negb accepted then None else
          match st_cancel accepted (reg y) key with
          | Ret (s', ds, sent) =>
              Some (mkSys s' (streams y) q (kops y) (cancels y ++ option_list sent) (cq y) (created y) (delivered y) (disposed y ++ ds) (submitted y) (retired y))
          | _ => None
          end
      | [] => None
      end
  | LPost i c =>
      key ← kops y !! i;
      if decide (token c = st_sentinel key /\ has_more c = true /\ st_cqe_fits c /\ st_cqe_ok c) then
        Some (mkSys (reg y) (streams y) (inbox y) (kops y) (cancels y) (cq y ++ [(Data, c)]) (created y ++ st_cqe_res c) (delivered y) (disposed y) (submitted y) (retired y))
      else None
  | LFinal i c =>
      key ← kops y !! i;
      if decide (token c = st_sentinel key /\ has_more c = false /\ st_cqe_fits c /\ st_cqe_ok c) then
        Some (mkSys (reg y) (streams y) (inbox y) (without (kops y) i) (cancels y) (cq y ++ [(Final, c)]) (created y ++ st_cqe_res c) (delivered y) (disposed y) (submitted y) (retired y))
      else None
  | LAnswer i c =>
      sent ← cancels y !! i;
      if decide (token c = sent /\ has_more c = false /\ st_cqe_fits c /\ st_cqe_res c = []) then
        Some (mkSys (reg y) (streams y) (inbox y) (kops y) (without (cancels y) i) (cq y ++ [(Answer, c)]) (created y) (delivered y) (disposed y) (submitted y) (retired y))
      else None
  | LDrain =>
      match cq y with
      | (_, c) :: q =>
          match st_complete (reg y) c with
          | Ret (s', ds, mc) =>
              Some (mkSys s' (streams y) (inbox y) (kops y) (cancels y) q (created y) (delivered y) (disposed y ++ ds) (submitted y) (retired y ++ option_list (mc_retire mc)))
          | _ => None
          end
      | [] => None
      end
  end.

Lemma without_split {B} (l : list B) i x : l !! i = Some x -> l = take i l ++ x :: drop (Datatypes.S i) l.
Proof. intros H. by rewrite take_drop_middle. Qed.

(** Every successful label is a step. *)
Lemma stream_exec_step l y y' : exec l y = Some y' -> step lossless icap y y'.
Proof.
  destruct l; cbn [exec]; intros H.
  - destruct start_multishot as [[s' r]| | |] eqn:Es; try done. case_bool_decide as Hf; [|done]. cbn [andb] in H.
    destruct (match r with Some key => unused y key | None => true end) eqn:Hu; [|done]. injection H as <-. apply step_start with (accepted := accepted); [done..|].
    intros key ->. done.
  - apply bind_Some in H as (key & Hk & H). destruct st_next as [[r s']| | |] eqn:En; try done. injection H as <-. eapply step_next; [by apply without_split|done].
  - apply bind_Some in H as (key & Hk & H). injection H as <-. eapply step_drop. by apply without_split.
  - destruct (inbox y) as [|key q] eqn:Ei; [done|]. destruct (lossless && negb accepted) eqn:Hl; [done|]. destruct st_cancel as [[[s' ds] sent]| | |] eqn:Ec; try done. injection H as <-.
    eapply step_cancel; [done| |done]. intros ->. by destruct accepted.
  - apply bind_Some in H as (key & Hk & H). case_decide as Hd; [|done]. injection H as <-. destruct Hd as (H1 & H2 & H3 & H4). eapply step_post; [by eapply list_elem_of_lookup_2|done..].
  - apply bind_Some in H as (key & Hk & H). case_decide as Hd; [|done]. injection H as <-. destruct Hd as (H1 & H2 & H3 & H4). eapply step_final; [by apply without_split|done..].
  - apply bind_Some in H as (key & Hk & H). case_decide as Hd; [|done]. injection H as <-. destruct Hd as (H1 & H2 & H3 & H4). eapply step_answer; [by apply without_split|done..].
  - destruct (cq y) as [|[o c] q] eqn:Eq; [done|]. destruct st_complete as [[[s' ds] mc]| | |] eqn:Ec; try done. injection H as <-. by eapply step_drain.
Qed.

Definition run (ls : list label) y : option sys := foldl (fun o l => o ≫= exec l) (Some y) ls.

Lemma stream_run_reach ls s y y' : reach lossless icap s y -> run ls y = Some y' -> reach lossless icap s y'.
Proof.
  unfold run. revert y. induction ls as [|l ls IH]; cbn; intros y Hr H; [by injection H as <-|].
  destruct (exec l y) as [y1|] eqn:E; cbn in H; [apply (IH y1); [by eapply reach_step, stream_exec_step|done]|]. exfalso. revert H. clear. induction ls; cbn; [done|exact IHls].
Qed.
End exec.

End StreamRun.

(** * The registries refine one queue per slot

    The operations of a registry as a script, the abstract machine whose state
    is a function from slots to entries, and the simulation: a registry that
    meets [StreamLaws] never panics on a script, and its replies are those of
    the abstract machine. *)

From stdpp Require Import base tactics option numbers list.

Local Open Scope Z_scope.

Module StreamRefine.
Import IoTokens StreamRegistry.

Inductive op : Type :=
| Allocate (owner : Z) | Complete (c : Completion) | Next (key : MultishotSlotKey) | Release (key : MultishotSlotKey)
| Cancel (accepted : bool) (key : MultishotSlotKey).

Inductive reply (A : Type) : Type :=
| Allocated (key : option MultishotSlotKey) | Completed (disposed : list Z) (mc : MultishotCompletion) | Took (r : MultishotNext A)
| Released | Cancelled (disposed : list Z) (sent : option Z).
Arguments Allocated {A} _.
Arguments Completed {A} _ _.
Arguments Took {A} _.
Arguments Released {A}.
Arguments Cancelled {A} _ _.

Section refine.
Context {S A : Type} {St : Streams S A}.

Definition run_op (s : S) (o : op) : outcome (reply A * S) :=
  match o with
  | Allocate owner => '(r, s) ← st_allocate s owner; Ret (Allocated r, s)
  | Complete c => '(s, ds, mc) ← st_complete s c; Ret (Completed ds mc, s)
  | Next key => '(r, s) ← st_next s key; Ret (Took r, s)
  | Release key => s ← st_release s key; Ret (Released, s)
  | Cancel accepted key => '(s, ds, sent) ← st_cancel accepted s key; Ret (Cancelled ds sent, s)
  end.

Fixpoint run_ops (s : S) (os : list op) : outcome (list (reply A) * S) :=
  match os with
  | [] => Ret ([], s)
  | o :: os => '(r, s) ← run_op s o; '(rs, s) ← run_ops s os; Ret (r :: rs, s)
  end.

(** The operands the callers pass: task tokens and [user_data] are 64 bits
    wide, a completion's fields have their widths, slots are unsigned. *)
Definition op_ok (o : op) : Prop :=
  match o with
  | Allocate owner => fits 64 owner
  | Complete c => fits 64 (token c) /\ st_cqe_fits c
  | Next key | Release key | Cancel _ key => 0 <= ms_slot key
  end.

(** ** The abstract machine *)

Section spec.
Context (cap worker : Z).

Definition key_live (a : Z -> entry A) (key : MultishotSlotKey) : bool :=
  (ms_worker_id key =? worker) && (ms_slot key <? cap) && e_occ (a (ms_slot key)) && (e_gen (a (ms_slot key)) =? ms_generation key).

Definition update (a : Z -> entry A) (i : Z) (e : entry A) (a' : Z -> entry A) : Prop :=
  forall j, 0 <= j -> a' j = if decide (j = i) then e else a j.

Definition unchanged (a a' : Z -> entry A) : Prop := forall j, 0 <= j -> a' j = a j.

Inductive spec_step (a : Z -> entry A) : op -> reply A -> (Z -> entry A) -> Prop :=
| spec_full owner a' : (forall i, 0 <= i < cap -> e_occ (a i) = true) -> unchanged a a' -> spec_step a (Allocate owner) (Allocated None) a'
| spec_allocate owner i a' : 0 <= i < cap -> e_occ (a i) = false -> update a i (fresh (e_gen (a i)) owner) a' ->
    spec_step a (Allocate owner) (Allocated (Some (mkMs i (e_gen (a i)) worker))) a'
| spec_complete c e' kept a' (i := multishot_sentinel_slot (token c)) (low := multishot_sentinel_generation (token c)) :
    complete_entry st_stashes (a i) low (has_more c) (st_item c) = (e', kept) -> update a i e' a' ->
    spec_step a (Complete c) (Completed (if kept then [] else st_cqe_res c) (complete_reply (a i) low (has_more c) kept)) a'
| spec_next key e' r a' : key_live a key = true -> next_entry (a (ms_slot key)) = (e', r) -> update a (ms_slot key) e' a' ->
    spec_step a (Next key) (Took r) a'
| spec_next_stale key a' : key_live a key = false -> unchanged a a' -> spec_step a (Next key) (Took NextPending) a'
| spec_release key a' : key_live a key = true -> update a (ms_slot key) (freed (a (ms_slot key))) a' -> spec_step a (Release key) Released a'
| spec_release_stale key a' : key_live a key = false -> unchanged a a' -> spec_step a (Release key) Released a'
| spec_cancel (accepted : bool) key e' (submits : bool) a' : key_live a key = true -> cancel_entry st_stashes (a (ms_slot key)) = (e', submits) -> update a (ms_slot key) e' a' ->
    spec_step a (Cancel accepted key) (Cancelled (held (a (ms_slot key)) ≫= st_res) (if submits then if accepted then Some (st_sentinel key) else None else None)) a'
| spec_cancel_stale (accepted : bool) key a' : key_live a key = false -> unchanged a a' ->
    spec_step a (Cancel accepted key) (Cancelled [] (if accepted then Some (st_sentinel key) else None)) a'.

Inductive spec_run (a : Z -> entry A) : list op -> list (reply A) -> (Z -> entry A) -> Prop :=
| spec_done : spec_run a [] [] a
| spec_more o r a1 os rs a' : spec_step a o r a1 -> spec_run a1 os rs a' -> spec_run a (o :: os) (r :: rs) a'.
End spec.

(** ** The simulation *)

Context {La : StreamLaws S A}.

Lemma run_op_refines s o : st_wf s -> op_ok o -> exists r s', run_op s o = Ret (r, s') /\ st_wf s' /\ st_cap s' = st_cap s /\ st_worker s' = st_worker s /\
  spec_step (st_cap s) (st_worker s) (st_at s) o r (st_at s').
Proof.
  intros W Ho. destruct o as [owner|c|key|key|accepted key]; cbn [run_op op_ok] in *.
  - destruct (st_allocate_law s owner W Ho) as (r & s' & E & H). rewrite E. cbn. do 2 eexists. split; [done|]. destruct r as [key|].
    + destruct H as (Hi & Hf & Ek & R). repeat (split; [apply R|]). rewrite Ek. apply spec_allocate; [done..|]. intros j Hj. by apply R.
    + destruct H as [-> Hf]. repeat (split; [done|]). by apply spec_full.
  - destruct Ho as [Ht Hc]. pose proof (st_complete_law s c W Ht Hc) as H. cbn zeta in H. destruct complete_entry as [e' kept] eqn:Ee. destruct H as (s' & E & R). rewrite E. cbn. do 2 eexists. split; [done|].
    repeat (split; [apply R|]). eapply spec_complete; [done|]. intros j Hj. by apply R.
  - pose proof (st_next_law s key W Ho) as H. destruct (live s key) eqn:El.
    + destruct next_entry as [e' r] eqn:En. destruct H as (s' & E & R). rewrite E. cbn. do 2 eexists. split; [done|]. repeat (split; [apply R|]). eapply spec_next; [done..|]. intros j Hj. by apply R.
    + rewrite H. cbn. do 2 eexists. split; [done|]. repeat (split; [done|]). by apply spec_next_stale.
  - pose proof (st_release_law s key W Ho) as H. destruct (live s key) eqn:El.
    + destruct H as (s' & E & R). rewrite E. cbn. do 2 eexists. split; [done|]. repeat (split; [apply R|]). apply spec_release; [done|]. intros j Hj. by apply R.
    + rewrite H. cbn. do 2 eexists. split; [done|]. repeat (split; [done|]). by apply spec_release_stale.
  - pose proof (st_cancel_law accepted s key W Ho) as H. cbn zeta in H. destruct (live s key) eqn:El.
    + destruct cancel_entry as [e' submits] eqn:Ee. destruct H as (s' & E & R). rewrite E. cbn. do 2 eexists. split; [done|]. repeat (split; [apply R|]). eapply spec_cancel; [done..|]. intros j Hj. by apply R.
    + rewrite H. cbn. do 2 eexists. split; [done|]. repeat (split; [done|]). by apply spec_cancel_stale.
Qed.

Lemma run_ops_refine os s : st_wf s -> Forall op_ok os -> exists rs s', run_ops s os = Ret (rs, s') /\ st_wf s' /\
  spec_run (st_cap s) (st_worker s) (st_at s) os rs (st_at s').
Proof.
  intros W Ho. revert s W. induction Ho as [|o os Ho _ IH]; intros s W; [exists [], s; repeat split; [done|constructor]|].
  destruct (run_op_refines s o W Ho) as (r & s1 & E & W1 & Hc & Hw & Hs). destruct (IH s1 W1) as (rs & s' & E' & W' & Hr). exists (r :: rs), s'. cbn. rewrite E. cbn. rewrite E'. split; [done|].
  split; [done|]. rewrite Hc, Hw in Hr. by eapply spec_more.
Qed.
End refine.

End StreamRefine.
