(* ===== verification/StreamThms.v ===== *)
(** * Multishot streams: the theorems

    The two registries behind [StreamRegistry] refine one queue per slot, and
    the streams over them hand every descriptor and every provided buffer the
    kernel gives out to exactly one place. *)

From S2P Require Import Prelude IoTokens StreamRegistry MultishotSlab MultishotSpec RecvSlab RecvSpec StreamProto StreamRun.
From stdpp Require Import base tactics option numbers list gmap.

Local Open Scope Z_scope.

Module StreamThms.
Import IoTokens StreamRegistry StreamProto StreamInv StreamSteps StreamRun StreamRefine.

Section generic.
Context {S A : Type} {St : Streams S A}.
Implicit Types (s : S) (y : sys (S := S)).

Definition all_free s : Prop := forall i, 0 <= i -> e_occ (st_at s i) = false.

(** Every operation the streams and the worker can perform next returns. *)
Definition never_stuck y : Prop :=
  (forall owner accepted, fits 64 owner -> exists r, start_multishot (reg y) owner accepted = Ret r) /\
  (forall key, key ∈ streams y -> exists r, st_next (reg y) key = Ret r) /\
  (forall key accepted, key ∈ inbox y -> exists r, st_cancel accepted (reg y) key = Ret r) /\
  (forall o c, (o, c) ∈ cq y -> exists r, st_complete (reg y) c = Ret r).

Context {La : StreamLaws S A} (lossless : bool) (icap : nat).

Lemma total_nil f s : (forall i, 0 <= i < st_cap s -> f (st_at s i) = []) -> total f s = [].
Proof.
  intros Hf. unfold total. assert (forall l, (forall i, i ∈ l -> 0 <= i < st_cap s) -> l ≫= (fun i => f (st_at s i)) = []) as H.
  { induction l as [|i l IH]; intros Hl; [done|]. rewrite bind_cons, Hf, IH; [done| |apply Hl; left]. intros j Hj. apply Hl. by right. }
  apply H. intros i Hi. by apply slots_elem.
Qed.

Lemma free_totals s : st_wf s -> all_free s -> total held_res s = [] /\ total unretired s = [].
Proof.
  intros W Hf. split; apply total_nil; intros i Hi; pose proof (Hf i (proj1 Hi)) as Ho.
  - destruct (ok_free _ _ _ _ (entry_of s i W (proj1 Hi)) Ho) as (E1 & _ & E2 & _). unfold held_res, held. by rewrite E1, E2.
  - unfold unretired. by rewrite Ho.
Qed.

Lemma stream_start_inv s : st_wf s -> all_free s -> Inv (start s) /\ Owed (start s).
Proof.
  intros W Hf. destruct (free_totals s W Hf) as [T1 T2]. split.
  - split; cbn; try constructor; cbn; try done; try by intros ? []%elem_of_nil.
    + intros i _ Hi Hc. destruct (ok_free _ _ _ _ (entry_of s i W Hi) (Hf i Hi)) as (_ & _ & _ & Hc'). congruence.
    + unfold conserved. cbn. by rewrite T1.
    + intros _. unfold accounted. cbn. by rewrite T2.
  - split; cbn; intros i Hi Ho; rewrite (Hf i Hi) in Ho; done.
Qed.

Lemma reach_kept s y : st_wf s -> all_free s -> reach lossless icap s y ->
  Inv y /\ st_cap (reg y) = st_cap s /\ (roomy lossless icap s -> Owed y).
Proof.
  intros W Hf Hr. induction Hr as [|y y' _ (HI & Hc & HO) Hs].
  - destruct (stream_start_inv s W Hf). done.
  - destruct (step_kept lossless icap y y' HI Hs) as (HI' & Hc' & HO'). split; [done|]. split; [congruence|]. intros Hroom. apply HO'; [|auto]. unfold roomy in *. by rewrite Hc.
Qed.

Lemma inv_never_stuck y : Inv y -> never_stuck y.
Proof.
  intros HI. pose proof HI as [HR HN HK HX HQ HE HV HU]. pose proof (rg_wf _ _ _ _ HR) as W. pose proof (rg_keys _ _ _ _ HR) as Hkeys. rewrite Forall_forall in Hkeys. split; [|split; [|split]].
  - intros owner accepted Ho. destruct (st_allocate_law (reg y) owner W Ho) as (a & s1 & Ea & Hlaw). unfold start_multishot. rewrite Ea. cbn. destruct a as [key|]; [|by eexists].
    destruct accepted; [by eexists|]. destruct Hlaw as (Hi & _ & _ & R). pose proof (st_release_law s1 key (rw_wf _ _ _ _ R) (proj1 Hi)) as Hr.
    destruct (live s1 key); [destruct Hr as (s2 & -> & _)|rewrite Hr]; cbn; by eexists.
  - intros key Hk. destruct (Hkeys key) as ([H0 _] & _); [apply elem_of_app; by left|]. pose proof (st_next_law (reg y) key W H0) as Hn.
    destruct (live (reg y) key); [destruct (next_entry _) as [e' r]; destruct Hn as (s1 & -> & _)|rewrite Hn]; by eexists.
  - intros key accepted Hk. destruct (Hkeys key) as ([H0 _] & _); [apply elem_of_app; by right|]. pose proof (st_cancel_law accepted (reg y) key W H0) as Hn. cbn zeta in Hn.
    destruct (live (reg y) key); [destruct (cancel_entry _ _) as [e' r]; destruct Hn as (s1 & -> & _)|rewrite Hn]; by eexists.
  - intros o c Hc. rewrite Forall_forall in HQ. destruct (HQ _ Hc) as (Hf & Hfit & _). pose proof (st_complete_law (reg y) c W Hf Hfit) as Hn. cbn zeta in Hn.
    destruct (complete_entry _ _ _ _ _) as [e' kept]. destruct Hn as (s1 & -> & _). by eexists.
Qed.

Lemma rest_free y : Owed y -> at_rest y -> all_free (reg y).
Proof.
  intros [O N T] (E1 & E2 & E3 & E4 & E5) i Hi. unfold keys, ends, answering in *. rewrite E1, E2 in O. rewrite E3, E5 in N. rewrite E4, E5 in T. cbn in *.
  destruct (e_occ (st_at (reg y) i)) eqn:Ho; [|done]. exfalso. destruct (e_cancel (st_at (reg y) i)) eqn:Hc; [|by eapply not_elem_of_nil, O].
  destruct (e_term (st_at (reg y) i)) eqn:Ht; [by eapply not_elem_of_nil, T|by eapply not_elem_of_nil, N].
Qed.

Lemma rest_settled y : Inv y -> Owed y -> at_rest y ->
  all_free (reg y) /\ created y ≡ₚ delivered y ++ disposed y /\ (st_stashes = true -> submitted y ≡ₚ retired y).
Proof.
  intros HI HO Hrest. pose proof (rest_free y HO Hrest) as Hf. destruct (free_totals (reg y) (rg_wf _ _ _ _ (iv_rg y HI)) Hf) as [T1 T2]. split; [done|]. split.
  - pose proof (iv_conserved y HI) as HV. unfold conserved in HV. destruct Hrest as (_ & _ & _ & _ & E5). by rewrite E5, T1 in HV.
  - intros Hs. pose proof (iv_accounted y HI Hs) as HU. unfold accounted in HU. by rewrite T2, app_nil_r in HU.
Qed.
End generic.


Lemma recv_new_fields w c s : RecvMultishot.new (true, true) w c = Some s ->
  RecvMultishot.cap s = Z.min c RecvMultishot.DEFAULT_RECV_MULTISHOT_CAP /\ RecvMultishot.worker s = w.
Proof. intros E. unfold RecvMultishot.new in E. cbn [fst snd andb negb] in E. apply (inj Some) in E. by rewrite <- E. Qed.


(** C20: the byte-level receive registry refines one queue per slot.  Run on
    any script of operations, the registry whose cursors, generations and
    stashes are little-endian records of a byte region and whose queues are
    packed rings never panics, and its replies are those of the machine whose
    state is a list of completions, a terminal stash and two marks per slot. *)
Theorem recv_registry_refines w c s os :
  0 <= c -> RecvMultishot.new (true, true) w c = Some s -> Forall (op_ok (St := RecvSpec.recv_streams)) os ->
  exists rs s', run_ops s os = Ret (rs, s') /\ all_free s /\
    spec_run (Z.min c RecvMultishot.DEFAULT_RECV_MULTISHOT_CAP) w (st_at s) os rs (st_at s').
Proof.
  intros Hc En Hos. destruct (RecvLaws.recv_new_wf w c s Hc En) as [W Hf]. destruct (run_ops_refine (St := RecvSpec.recv_streams) os s W Hos) as (rs & s' & E & _ & H). exists rs, s'. split; [done|]. split; [done|].
  cbn [st_cap st_worker RecvSpec.recv_streams] in H. by rewrite (proj1 (recv_new_fields w c s En)), (proj2 (recv_new_fields w c s En)) in H.
Qed.

(** The inline accept registry refines the same machine. *)
Theorem accept_registry_refines w c os : 0 <= c -> Forall (op_ok (St := MultishotSpec.accept_streams)) os ->
  exists rs s', run_ops (Multishot.new w c) os = Ret (rs, s') /\ all_free (Multishot.new w c) /\
    spec_run (Z.min c Multishot.DEFAULT_MULTISHOT_CAP) w (st_at (Multishot.new w c)) os rs (st_at s').
Proof.
  intros Hc Hos. destruct (MultishotSpec.accept_new_wf w c Hc) as [W Hf]. destruct (run_ops_refine (St := MultishotSpec.accept_streams) os (Multishot.new w c) W Hos) as (rs & s' & E & _ & H). by exists rs, s'.
Qed.

(** ** Runs *)

#[global] Instance accept_fits_dec c : Decision (st_cqe_fits (Streams := MultishotSpec.accept_streams) c).
Proof. left. exact I. Defined.

#[global] Instance accept_ok_dec c : Decision (st_cqe_ok (Streams := MultishotSpec.accept_streams) c).
Proof. cbn. destruct (has_more c); [left; congruence|]. destruct (decide (result c < 0)); [by left|right; tauto]. Defined.

#[global] Instance recv_fits_dec c : Decision (st_cqe_fits (Streams := RecvSpec.recv_streams) c).
Proof. cbn. unfold RecvSpec.cqe_ok. destruct (buf_id c); apply _. Defined.

#[global] Instance recv_ok_dec c : Decision (st_cqe_ok (Streams := RecvSpec.recv_streams) c).
Proof. left. exact I. Defined.

Definition accept_cqe (slot gen r : Z) (more : bool) : Completion :=
  mkCqe (encode_multishot_sentinel (mkMs slot gen 1)) r (if more then MORE else 0) None.

(** A stream whose operation ended on its own and which is then dropped. *)
Definition ended_then_dropped : list label :=
  [LStart 7 true; LFinal 0 (accept_cqe 0 0 (-104) false); LDrain; LDrop 0].

(** The accept registry needs the accepted cancel.  A stream whose operation
    has already ended when it is dropped is only marked: if the driver refuses
    the cancel, the system comes to rest with the slot occupied for good; and if
    the driver accepts it, the cancel's own answer retires the owner's single
    submission a second time. *)
Theorem accept_ended_slot_strands :
  (exists y, reach false 8 (Multishot.new 1 8) y /\ at_rest y /\ e_occ (st_at (reg y) 0) = true) /\
  (exists y, reach true 8 (Multishot.new 1 8) y /\ at_rest y /\ submitted y = [7] /\ retired y = [7; 7]).
Proof.
  split.
  - destruct (run false 8 (ended_then_dropped ++ [LCancel false]) (start (Multishot.new 1 8))) as [y|] eqn:E; [|vm_compute in E; discriminate].
    exists y. split; [eapply stream_run_reach; [apply reach_start|exact E]|]. vm_compute in E. injection E as <-. vm_compute. done.
  - destruct (run true 8 (ended_then_dropped ++ [LCancel true; LAnswer 0 (accept_cqe 0 0 (-2) false); LDrain]) (start (Multishot.new 1 8))) as [y|] eqn:E; [|vm_compute in E; discriminate].
    exists y. split; [eapply stream_run_reach; [apply reach_start|exact E]|]. vm_compute in E. injection E as <-. vm_compute. done.
Qed.

(** ** Witnesses *)

Definition restb {S : Type} (y : sys (S := S)) : bool :=
  match streams y, inbox y, kops y, cancels y, cq y with [], [], [], [], [] => true | _, _, _, _, _ => false end.

Lemma restb_rest {S : Type} (y : sys (S := S)) : restb y = true -> at_rest y.
Proof. unfold restb, at_rest. by destruct (streams y), (inbox y), (kops y), (cancels y), (cq y). Qed.

(** The run succeeds, comes to rest, and created these resources. *)
Definition rests {S : Type} (o : option (sys (S := S))) (res : list Z) : bool :=
  match o with Some y => restb y && bool_decide (created y = res) | None => false end.

Lemma rests_spec {S : Type} (o : option (sys (S := S))) res : rests o res = true -> exists y, o = Some y /\ at_rest y /\ created y = res.
Proof. unfold rests. destruct o as [y|]; [|done]. intros [H1 H2%bool_decide_eq_true]%andb_true_iff. exists y. eauto using restb_rest. Qed.

(** One descriptor taken, one queued when the stream drops, one arriving
    after the cancel. *)
Definition accept_script : list label :=
  [LStart 7 true; LStart 9 false; LPost 0 (accept_cqe 0 0 5 true); LPost 0 (accept_cqe 0 0 6 true); LDrain; LNext 0; LDrain; LDrop 0;
   LCancel true; LPost 0 (accept_cqe 0 0 8 true); LFinal 0 (accept_cqe 0 0 (-125) false); LAnswer 0 (accept_cqe 0 0 0 false); LDrain; LDrain; LDrain].


Definition recv_cqe (slot gen r : Z) (buf : option Z) (more : bool) : Completion :=
  mkCqe (encode_recv_multishot_sentinel (mkMs slot gen 1)) r (if more then MORE else 0) buf.

Definition recv_slab : RecvMultishot.RecvMultishotSlab := default (RecvMultishot.mkSlab [] [] [] [] [] [] 0 0) (RecvMultishot.new (true, true) 1 4).

(** One buffer taken, one queued and a terminal one stashed when the stream
    drops; the cancel is refused. *)
Definition recv_script : list label :=
  [LStart 7 true; LPost 0 (recv_cqe 0 0 512 (Some 3) true); LPost 0 (recv_cqe 0 0 20 (Some 4) true); LDrain; LNext 0; LDrain;
   LFinal 0 (recv_cqe 0 0 1 (Some 5) false); LDrain; LDrop 0; LCancel false].


Lemma recv_registry_refines_witness :
  exists rs s', run_ops recv_slab [Allocate 7; Complete (recv_cqe 0 0 512 (Some 3) true); Next (mkMs 0 0 1); Next (mkMs 0 0 1)] = Ret (rs, s') /\
    all_free recv_slab /\ spec_run 4 1 (st_at recv_slab) [Allocate 7; Complete (recv_cqe 0 0 512 (Some 3) true); Next (mkMs 0 0 1); Next (mkMs 0 0 1)] rs (st_at s').
Proof.
  apply (recv_registry_refines 1 4 recv_slab); [lia|reflexivity|].
  repeat (apply Forall_cons; split); [unfold op_ok, fits; lia|split; [vm_compute; split; congruence|vm_compute; intuition congruence]|done|done|by apply Forall_nil].
Defined.

End StreamThms.
