(* ===== verification/MpscRing.v ===== *)
(** * The multi-producer single-consumer ring

    Models src/crates/kwokka-runtime/src/sync/mpsc.rs, the bounded ring behind
    the wake inboxes and the steal channels: any number of threads push, one
    thread pops.  [push] and [pop] are broken into their shared-memory accesses;
    a call in progress is the access it performs next with its local variables.
    A cell that is not initialised is [None]: reading it is [Undefined], and a
    value read out leaves the cell uninitialised. *)

From S2P Require Import Prelude Bitmap.
From stdpp Require Import base tactics option list numbers.

Local Open Scope Z_scope.

Module Mpsc.

Section ring.
Context {T : Type} (N : Z).

Record Slot : Type := mkSlot { sequence : Z; cell : option T }.

Record MpscRing : Type := mkRing { enqueue_pos : Z; dequeue_pos : Z; slots : list Slot }.

Definition new : MpscRing := mkRing 0 0 ((fun i => mkSlot (Z.of_nat i) None) <$> seq 0 (Z.to_nat N)).

Definition USIZE_HALF : Z := (2 ^ 64 - 1) / 2.

Definition mask (pos : Z) : Z := Z.land pos (N - 1).

Definition slot_at (r : MpscRing) (pos : Z) : outcome Slot := Bitmap.index (slots r) (Z.to_nat (mask pos)).
Definition set_slot (r : MpscRing) (pos : Z) (s : Slot) : outcome MpscRing :=
  l ← Bitmap.store (slots r) (Z.to_nat (mask pos)) s;
  Ret (mkRing (enqueue_pos r) (dequeue_pos r) l).

(** ** [push], one access at a time *)

Inductive pushing : Type :=
| Load (value : T)
| Test (value : T) (pos : Z)
| Claim (value : T) (pos : Z)
| Fill (value : T) (pos : Z)
| Publish (pos : Z).

Inductive pushed : Type := Pushed | Refused (value : T).

(** [weak]: the compare-exchange fails spuriously. *)
Definition push_step (weak : bool) (r : MpscRing) (at_ : pushing) : outcome (MpscRing * (pushing + pushed)) :=
  match at_ with
  | Load value => Ret (r, inl (Test value (enqueue_pos r)))
  | Test value pos =>
      slot ← slot_at r pos;
      let gap := wrap USIZE (sequence slot - pos) in
      if gap =? 0 then Ret (r, inl (Claim value pos))
      else if USIZE_HALF <? gap then Ret (r, inr (Refused value))
      else Ret (r, inl (Load value))
  | Claim value pos =>
      if negb weak && (enqueue_pos r =? pos)
      then Ret (mkRing (wrap USIZE (pos + 1)) (dequeue_pos r) (slots r), inl (Fill value pos))
      else Ret (r, inl (Test value (enqueue_pos r)))
  | Fill value pos =>
      slot ← slot_at r pos;
      r ← set_slot r pos (mkSlot (sequence slot) (Some value));
      Ret (r, inl (Publish pos))
  | Publish pos =>
      slot ← slot_at r pos;
      r ← set_slot r pos (mkSlot (wrap USIZE (pos + 1)) (cell slot));
      Ret (r, inr Pushed)
  end.

(** ** [pop], one access at a time *)

Inductive popping : Type :=
| PopLoad
| PopTest (pos : Z)
| PopRead (pos : Z)
| PopRelease (pos : Z) (value : T)
| PopAdvance (pos : Z) (value : T).

Definition pop_step (r : MpscRing) (at_ : popping) : outcome (MpscRing * (popping + option T)) :=
  match at_ with
  | PopLoad => Ret (r, inl (PopTest (dequeue_pos r)))
  | PopTest pos =>
      slot ← slot_at r pos;
      if USIZE_HALF <? wrap USIZE (sequence slot - wrap USIZE (pos + 1)) then Ret (r, inr None)
      else Ret (r, inl (PopRead pos))
  | PopRead pos =>
      slot ← slot_at r pos;
      match cell slot with
      | None => Undefined
      | Some value => r ← set_slot r pos (mkSlot (sequence slot) None); Ret (r, inl (PopRelease pos value))
      end
  | PopRelease pos value =>
      slot ← slot_at r pos;
      r ← set_slot r pos (mkSlot (wrap USIZE (pos + N)) (cell slot));
      Ret (r, inl (PopAdvance pos value))
  | PopAdvance pos value => Ret (mkRing (enqueue_pos r) (wrap USIZE (pos + 1)) (slots r), inr (Some value))
  end.

(** ** Without interference *)

Definition len (r : MpscRing) : Z := wrap USIZE (enqueue_pos r - dequeue_pos r).
Definition is_empty (r : MpscRing) : bool := len r =? 0.

(** A whole [push] run alone: five accesses, or three when refused. *)
Fixpoint push_run (fuel : nat) (r : MpscRing) (at_ : pushing) : outcome (MpscRing * pushed) :=
  match fuel with
  | O => OutOfFuel
  | S fuel =>
      '(r, next) ← push_step false r at_;
      match next with inl at_ => push_run fuel r at_ | inr done => Ret (r, done) end
  end.
Definition push (r : MpscRing) (value : T) : outcome (MpscRing * pushed) := push_run 5 r (Load value).

Fixpoint pop_run (fuel : nat) (r : MpscRing) (at_ : popping) : outcome (MpscRing * option T) :=
  match fuel with
  | O => OutOfFuel
  | S fuel =>
      '(r, next) ← pop_step r at_;
      match next with inl at_ => pop_run fuel r at_ | inr done => Ret (r, done) end
  end.
Definition pop (r : MpscRing) : outcome (MpscRing * option T) := pop_run 5 r PopLoad.

(** [Drop]: the values of the positions from [dequeue_pos] to [enqueue_pos]
    are dropped in place. *)
Fixpoint drop_from (fuel : nat) (r : MpscRing) (pos : Z) : outcome (list T) :=
  if pos =? enqueue_pos r then Ret [] else
  match fuel with
  | O => OutOfFuel
  | S fuel =>
      slot ← slot_at r pos;
      match cell slot with
      | None => Undefined
      | Some value => values ← drop_from fuel r (wrap USIZE (pos + 1)); Ret (value :: values)
      end
  end.
Definition drop (r : MpscRing) : outcome (list T) := drop_from (Z.to_nat N) r (dequeue_pos r).

(** ** All threads

    [pushes]: the calls of [push] in progress, each with the absolute number of
    the position it holds or last loaded; [popper]: the call of [pop] in
    progress.  [claimed]: the values in the order in which their positions were
    claimed; [accepted]: those whose [push] returned [Ok]; [popped]: those
    [pop] returned. *)

Record sys : Type := mkSys {
  ring : MpscRing;
  pushes : list (pushing * Z);
  popper : option popping;
  claimed : list T;
  accepted : list T;
  popped : list T;
}.

Definition start : sys := mkSys new [] None [] [] [].

Definition count (l : list T) : Z := Z.of_nat (length l).

(** A call that still compares its position has not been overtaken by half
    the range of [usize]. *)
Definition prompt (y : sys) : Prop :=
  Forall (fun t => match fst t with Test _ _ | Claim _ _ => count (claimed y) - snd t + N < 2 ^ 63 | _ => True end) (pushes y).

Inductive step : sys -> sys -> Prop :=
| step_begin y value :
    step y (mkSys (ring y) (pushes y ++ [(Load value, 0)]) (popper y) (claimed y) (accepted y) (popped y))
| step_load y l1 value g l2 p :
    (* a relaxed load may return an older value *)
    pushes y = l1 ++ (Load value, g) :: l2 -> 0 <= p <= count (claimed y) ->
    step y (mkSys (ring y) (l1 ++ (Test value (wrap USIZE p), p) :: l2) (popper y) (claimed y) (accepted y) (popped y))
| step_test y l1 value pos p l2 at_ :
    pushes y = l1 ++ (Test value pos, p) :: l2 -> push_step false (ring y) (Test value pos) = Ret (ring y, inl at_) ->
    step y (mkSys (ring y) (l1 ++ (at_, p) :: l2) (popper y) (claimed y) (accepted y) (popped y))
| step_refuse y l1 value pos p l2 :
    pushes y = l1 ++ (Test value pos, p) :: l2 -> push_step false (ring y) (Test value pos) = Ret (ring y, inr (Refused value)) ->
    step y (mkSys (ring y) (l1 ++ l2) (popper y) (claimed y) (accepted y) (popped y))
| step_claim y l1 value pos p l2 r' :
    pushes y = l1 ++ (Claim value pos, p) :: l2 -> push_step false (ring y) (Claim value pos) = Ret (r', inl (Fill value pos)) ->
    step y (mkSys r' (l1 ++ (Fill value pos, p) :: l2) (popper y) (claimed y ++ [value]) (accepted y) (popped y))
| step_lose y l1 value pos p l2 weak pos' :
    pushes y = l1 ++ (Claim value pos, p) :: l2 -> push_step weak (ring y) (Claim value pos) = Ret (ring y, inl (Test value pos')) ->
    step y (mkSys (ring y) (l1 ++ (Test value pos', count (claimed y)) :: l2) (popper y) (claimed y) (accepted y) (popped y))
| step_fill y l1 value pos p l2 r' :
    pushes y = l1 ++ (Fill value pos, p) :: l2 -> push_step false (ring y) (Fill value pos) = Ret (r', inl (Publish pos)) ->
    step y (mkSys r' (l1 ++ (Publish pos, p) :: l2) (popper y) (claimed y) (accepted y) (popped y))
| step_publish y l1 pos p l2 r' :
    pushes y = l1 ++ (Publish pos, p) :: l2 -> push_step false (ring y) (Publish pos) = Ret (r', inr Pushed) ->
    step y (mkSys r' (l1 ++ l2) (popper y) (claimed y) (accepted y ++ option_list (claimed y !! Z.to_nat p)) (popped y))
| step_pop y : popper y = None ->
    step y (mkSys (ring y) (pushes y) (Some PopLoad) (claimed y) (accepted y) (popped y))
| step_popping y at_ r' at_' :
    popper y = Some at_ -> pop_step (ring y) at_ = Ret (r', inl at_') ->
    step y (mkSys r' (pushes y) (Some at_') (claimed y) (accepted y) (popped y))
| step_popped y at_ r' o :
    popper y = Some at_ -> pop_step (ring y) at_ = Ret (r', inr o) ->
    step y (mkSys r' (pushes y) None (claimed y) (accepted y) (popped y ++ option_list o)).

Inductive reach : sys -> Prop :=
| reach_start : reach start
| reach_step y y' : reach y -> step y y' -> prompt y' -> reach y'.

End ring.

Arguments Slot T : clear implicits.
Arguments MpscRing T : clear implicits.
Arguments pushing T : clear implicits.
Arguments pushed T : clear implicits.
Arguments popping T : clear implicits.
Arguments sys T : clear implicits.

End Mpsc.
