(* ===== verification/MpscInv.v ===== *)
(** * The invariant of the ring

    What every slot within the window of [N] positions that starts at the
    consumer holds, given the calls in progress; and that every access keeps
    it. *)

From S2P Require Import Prelude Bitmap MpscRing.
From stdpp Require Import base tactics option numbers list gmap.

Local Open Scope Z_scope.

Module MpscInv.
Import Mpsc.

Section inv.
Context {T : Type} (k : Z) (Hk : 1 <= k <= 62).
Local Abbreviation N := (2 ^ k).
Implicit Types (y : sys T) (r : MpscRing T) (ps : list (pushing T * Z)).

(** ** Positions *)

Lemma N_bounds : 2 <= N <= 2 ^ 62.
Proof. split; [change 2 with (2 ^ 1) at 1|]; apply Z.pow_le_mono_r; lia. Qed.

Lemma mask_wrap p : mask N (wrap 64 p) = p mod N.
Proof.
  unfold mask, wrap. rewrite land_ones_mod by lia. apply Z.mod_mod_divide. exists (2 ^ (64 - k)). rewrite <- Z.pow_add_r by lia. f_equal. lia.
Qed.

Lemma mod_range p : Fifo.in_range (Z.to_nat N) (p mod N).
Proof. unfold Fifo.in_range. pose proof N_bounds. rewrite Z2Nat.id by lia. apply Z.mod_pos_bound. lia. Qed.

(** Two positions of one window of [N] share a slot only if they are equal. *)
Lemma same_cell d p q : d <= p < d + N -> d <= q < d + N -> p mod N = q mod N -> p = q.
Proof.
  intros Hp Hq E. assert (p - d = q - d); [|lia]. apply (Fifo.cells_distinct N d); [lia..|]. by replace (d + (p - d)) with p by lia; replace (d + (q - d)) with q by lia.
Qed.

Lemma wrap_eq a b : wrap 64 a = wrap 64 b -> - 2 ^ 64 < a - b < 2 ^ 64 -> a = b.
Proof.
  unfold wrap. intros E H. assert ((a - b) mod 2 ^ 64 = 0) as H0 by (rewrite Zminus_mod, E, Z.sub_diag; done).
  apply Z.mod_divide in H0 as [q Hq]; [|lia]. assert (q = 0) by nia. lia.
Qed.

(** The sign of a wrapped difference. *)
Lemma gap_cases a b : - 2 ^ 63 <= a - b < 2 ^ 63 ->
  (wrap 64 (wrap 64 a - wrap 64 b) =? 0) = (a =? b) /\ (USIZE_HALF <? wrap 64 (wrap 64 a - wrap 64 b)) = (a <? b).
Proof.
  intros H. rewrite wrap_wrap_sub. unfold wrap, USIZE_HALF. change ((2 ^ 64 - 1) / 2) with (2 ^ 63 - 1). destruct (Z.lt_ge_cases (a - b) 0).
  - replace ((a - b) mod 2 ^ 64) with (a - b + 2 ^ 64) by (rewrite <- (Z.mod_add _ 1) by lia; rewrite Z.mul_1_l; symmetry; apply Z.mod_small; lia). lia.
  - rewrite Z.mod_small by lia. lia.
Qed.

(** ** Slots *)

Definition no_slot : Slot T := mkSlot 0 None.
Definition slotv r (p : Z) : Slot T := nth (Z.to_nat (p mod N)) (slots r) no_slot.

Lemma slot_at_ok r p : length (slots r) = Z.to_nat N -> slot_at N r (wrap 64 p) = Ret (slotv r p).
Proof. intros Hl. unfold slot_at, slotv. rewrite mask_wrap. apply Fifo.index_nth. rewrite Hl. apply mod_range. Qed.

Lemma set_slot_ok r p s : length (slots r) = Z.to_nat N ->
  exists r', set_slot N r (wrap 64 p) s = Ret r' /\ length (slots r') = Z.to_nat N /\ enqueue_pos r' = enqueue_pos r /\ dequeue_pos r' = dequeue_pos r /\
    forall q, slotv r' q = if decide (q mod N = p mod N) then s else slotv r q.
Proof.
  intros Hl. unfold set_slot. rewrite mask_wrap. destruct (Fifo.store_nth (slots r) no_slot (p mod N) s) as (l & -> & Hll & Hn); [rewrite Hl; apply mod_range|].
  cbn. eexists. split; [done|]. cbn. split; [congruence|]. split; [done|]. split; [done|]. intros q. unfold slotv. cbn. apply Hn. apply (mod_range q).
Qed.

(** ** The calls in progress *)

Definition held_by (t : pushing T * Z) : list Z := match fst t with Fill _ _ | Publish _ => [snd t] | _ => [] end.
Definition fill_by (t : pushing T * Z) : list Z := match fst t with Fill _ _ => [snd t] | _ => [] end.
Definition held ps : list Z := ps ≫= held_by.
Definition fills ps : list Z := ps ≫= fill_by.

Lemma held_mid l1 t l2 : held (l1 ++ t :: l2) ≡ₚ held_by t ++ held (l1 ++ l2).
Proof. unfold held. rewrite !bind_app, bind_cons. solve_Permutation. Qed.

Lemma fills_mid l1 t l2 : fills (l1 ++ t :: l2) ≡ₚ fill_by t ++ fills (l1 ++ l2).
Proof. unfold fills. rewrite !bind_app, bind_cons. solve_Permutation. Qed.

Lemma fills_held ps p : p ∈ fills ps -> p ∈ held ps.
Proof.
  unfold fills, held. rewrite !list_elem_of_bind. intros ([t q] & Hin & Ht). exists (t, q). split; [|done]. by destruct t; cbn in *; try (by apply elem_of_nil in Hin).
Qed.

(** The slot of position [p] as the calls in progress leave it; [taken] is the
    position the consumer has read and not yet released. *)
Definition expected (cl : list T) ps (taken : option Z) (p : Z) : Slot T :=
  mkSlot (if decide (p < count cl /\ p ∉ held ps) then wrap 64 (p + 1) else wrap 64 p)
         (if decide (p < count cl /\ p ∉ fills ps /\ taken <> Some p) then cl !! Z.to_nat p else None).

Definition taken_of (c : option (popping T)) (d : Z) : option Z := match c with Some (PopRelease _ _) => Some d | _ => None end.
Definition released (c : option (popping T)) : Z := match c with Some (PopAdvance _ _) => 1 | _ => 0 end.

(** A push in progress, with [e] positions claimed and [d] released. *)
Definition push_ok (cl : list T) (d : Z) (t : pushing T * Z) : Prop :=
  let p := snd t in let e := count cl in
  match fst t with
  | Load _ => True
  | Test _ pos => pos = wrap 64 p /\ 0 <= p <= e
  | Claim _ pos => pos = wrap 64 p /\ 0 <= p <= e /\ p < d + N
  | Fill v pos => pos = wrap 64 p /\ d <= p < e /\ cl !! Z.to_nat p = Some v
  | Publish pos => pos = wrap 64 p /\ d <= p < e
  end.

Definition pop_ok (cl : list T) ps (d : Z) (c : option (popping T)) : Prop :=
  match c with
  | None | Some PopLoad => True
  | Some (PopTest pos) => pos = wrap 64 d
  | Some (PopRead pos) => pos = wrap 64 d /\ d < count cl /\ d ∉ held ps
  | Some (PopRelease pos v) => pos = wrap 64 d /\ d < count cl /\ d ∉ held ps /\ cl !! Z.to_nat d = Some v
  | Some (PopAdvance pos v) => pos = wrap 64 d /\ d < count cl /\ cl !! Z.to_nat d = Some v
  end.

Definition values (cl : list T) (ps : list Z) : list T := ps ≫= fun p => option_list (cl !! Z.to_nat p).

Record Inv y (d := count (popped y)) (d' := d + released (popper y)) : Prop := {
  iv_len : length (slots (ring y)) = Z.to_nat N;
  iv_enq : enqueue_pos (ring y) = wrap 64 (count (claimed y));
  iv_deq : dequeue_pos (ring y) = wrap 64 d;
  iv_window : d' <= count (claimed y) <= d' + N;
  iv_prefix : popped y = take (length (popped y)) (claimed y);
  iv_pushes : Forall (push_ok (claimed y) d') (pushes y);
  iv_nodup : NoDup (held (pushes y));
  iv_slots p : d' <= p < d' + N -> slotv (ring y) p = expected (claimed y) (pushes y) (taken_of (popper y) d) p;
  iv_popper : pop_ok (claimed y) (pushes y) d (popper y);
  iv_accepted : claimed y ≡ₚ accepted y ++ values (claimed y) (held (pushes y));
}.

Lemma count_nonneg (l : list T) : 0 <= count l.
Proof. unfold count. lia. Qed.

Lemma expected_ext cl ps ps' tk p : (p ∈ held ps <-> p ∈ held ps') -> (p ∈ fills ps <-> p ∈ fills ps') -> expected cl ps tk p = expected cl ps' tk p.
Proof. clear k Hk. intros H1 H2. unfold expected. f_equal; apply decide_ext; tauto. Qed.

Lemma pop_ok_mono cl ps ps' d c : (d ∈ held ps' -> d ∈ held ps) -> pop_ok cl ps d c -> pop_ok cl ps' d c.
Proof.
  intros H. unfold pop_ok. destruct c as [[]|]; try exact (fun x => x); [intros (H1 & H2 & H3)|intros (H1 & H2 & H3 & H4)]; repeat (split; [assumption || (by intros ?%H)|]); [by intros ?%H|assumption].
Qed.

(** The calls in progress change and hold the same positions. *)
Lemma same_held y ps : Inv y -> held ps ≡ₚ held (pushes y) -> fills ps ≡ₚ fills (pushes y) ->
  Forall (push_ok (claimed y) (count (popped y) + released (popper y))) ps ->
  Inv (mkSys (ring y) ps (popper y) (claimed y) (accepted y) (popped y)).
Proof.
  intros HI Hh Hf Hok. destruct HI as [IL IE ID IW IP IS IN IV IC IA]. split; cbn; try done.
  - by rewrite Hh.
  - intros p Hp. rewrite (IV p Hp). apply expected_ext; by rewrite ?Hh, ?Hf.
  - eapply pop_ok_mono; [|exact IC]. by rewrite Hh.
  - unfold values in *. by rewrite Hh.
Qed.

Lemma pushes_mid y l1 t l2 (P : pushing T * Z -> Prop) : pushes y = l1 ++ t :: l2 -> Forall P (pushes y) -> P t /\ Forall P (l1 ++ l2).
Proof. intros -> [H1 [H2 H3]%Forall_cons]%Forall_app. split; [done|]. by apply Forall_app. Qed.

Lemma mid_pushes (l1 l2 : list (pushing T * Z)) t (P : pushing T * Z -> Prop) : P t -> Forall P (l1 ++ l2) -> Forall P (l1 ++ t :: l2).
Proof. intros Ht [H1 H2]%Forall_app. apply Forall_app. split; [done|]. by apply Forall_cons. Qed.

(** A call that holds no position before or after its step. *)
Lemma quiet_step y l1 t t' l2 : Inv y -> pushes y = l1 ++ t :: l2 -> held_by t = [] -> held_by t' = [] -> fill_by t = [] -> fill_by t' = [] ->
  push_ok (claimed y) (count (popped y) + released (popper y)) t' ->
  Inv (mkSys (ring y) (l1 ++ t' :: l2) (popper y) (claimed y) (accepted y) (popped y)).
Proof.
  intros HI El H1 H2 F1 F2 Hok. apply same_held; [done|rewrite El, !held_mid, H1, H2; done|rewrite El, !fills_mid, F1, F2; done|].
  apply mid_pushes; [done|]. by apply (pushes_mid y l1 t l2 _ El), HI.
Qed.

Lemma test_pos y l1 v pos p l2 : Inv y -> prompt N y -> pushes y = l1 ++ (Test v pos, p) :: l2 ->
  pos = wrap 64 p /\ 0 <= p <= count (claimed y) /\ count (claimed y) - p + N < 2 ^ 63.
Proof.
  intros HI HP El. pose proof (iv_pushes y HI) as Hf. unfold prompt in HP. rewrite El in Hf, HP. apply Forall_app in Hf as [_ Hf]. apply Forall_cons in Hf as [[? ?] _].
  apply Forall_app in HP as [_ HP]. apply Forall_cons in HP as [HP _]. done.
Qed.

(** The position the slot of [p] currently stands for. *)
Lemma current_position d p : exists q, d <= q < d + N /\ q mod N = p mod N /\ exists j, q - p = j * N.
Proof.
  pose proof N_bounds as HN. exists (d + (p - d) mod N). pose proof (Z.mod_pos_bound (p - d) N ltac:(lia)) as Hm. split; [lia|]. pose proof (Z.div_mod (p - d) N ltac:(lia)) as Hd. split.
  - rewrite Zplus_mod_idemp_r. f_equal. lia.
  - exists (- ((p - d) / N)). nia.
Qed.

(** What the comparison of a push's position with its slot tells. *)
Lemma test_slot y p : Inv y -> 0 <= p <= count (claimed y) -> count (claimed y) - p + N < 2 ^ 63 ->
  let d' := count (popped y) + released (popper y) in
  let gap := wrap 64 (sequence (slotv (ring y) p) - wrap 64 p) in
  ((gap =? 0) = true -> p < d' + N) /\ ((gap =? 0) = false -> (USIZE_HALF <? gap) = true -> count (claimed y) = d' + N).
Proof.
  intros HI Hp Hpr d' gap. pose proof N_bounds as HN. destruct (current_position d' p) as (q & Hq & Em & j & Ej). pose proof (iv_slots y HI q Hq) as Hs. pose proof (iv_window y HI) as HW. cbn zeta in HW. fold d' in HW, Hs.
  assert (slotv (ring y) p = slotv (ring y) q) as E by (unfold slotv; by rewrite Em).
  assert (exists s, (s = q \/ s = q + 1) /\ sequence (slotv (ring y) p) = wrap 64 s) as (s & Hsq & Es).
  { rewrite E, Hs. unfold expected. cbn. case_decide; eauto. }
  unfold gap. rewrite Es. assert (- 2 ^ 63 <= s - p < 2 ^ 63) as Hr by lia. destruct (gap_cases s p Hr) as [-> ->]. split.
  - intros Hz. apply Z.eqb_eq in Hz. subst s. destruct Hsq as [?|Hsq]; [lia|]. exfalso. assert (j * N = - 1) by lia. destruct (Z.lt_ge_cases j 0); [assert (j * N <= -1 * N) by (apply Z.mul_le_mono_nonneg_r; lia)|assert (0 * N <= j * N) by (apply Z.mul_le_mono_nonneg_r; lia)]; lia.
  - intros _ Hlt. apply Z.ltb_lt in Hlt. assert (q < p) by lia. assert (j < 0) by nia. assert (j * N <= -1 * N) by (apply Z.mul_le_mono_nonneg_r; lia). lia.
Qed.

End inv.
End MpscInv.

(** * Every access keeps the invariant of the ring *)

From stdpp Require Import base tactics option numbers list gmap.

Local Open Scope Z_scope.

Module MpscSteps.
Import Mpsc MpscInv.

Section steps.
Context {T : Type} (k : Z) (Hk : 1 <= k <= 62).
Local Abbreviation N := (2 ^ k).
Local Abbreviation Inv := (Inv (T := T) k).
Implicit Types (y : sys T) (r : MpscRing T) (ps : list (pushing T * Z)).

Lemma start_ok : Inv (start N).
Proof.
  pose proof (N_bounds k Hk) as HN. split; cbn; try done.
  - by rewrite length_fmap, length_seq.
  - unfold count. cbn. lia.
  - constructor.
  - intros p Hp. unfold slotv, expected, count in *. cbn in Hp |- *. rewrite !decide_False by (intros [? _]; lia).
    rewrite Z.mod_small by lia. rewrite wrap_id by (unfold fits; lia). apply nth_lookup_Some. rewrite list_lookup_fmap, lookup_seq_lt by lia. cbn. f_equal. f_equal. lia.
Qed.

Lemma begin_ok y v : Inv y -> Inv (mkSys (ring y) (pushes y ++ [(Load v, 0)]) (popper y) (claimed y) (accepted y) (popped y)).
Proof.
  intros HI. apply (same_held k); [done|..].
  - unfold held. rewrite bind_app. cbn. by rewrite app_nil_r.
  - unfold fills. rewrite bind_app. cbn. by rewrite app_nil_r.
  - apply Forall_app. split; [apply HI|]. by apply Forall_singleton.
Qed.

Lemma refuse_ok y l1 v pos p l2 : Inv y -> pushes y = l1 ++ (Test v pos, p) :: l2 -> Inv (mkSys (ring y) (l1 ++ l2) (popper y) (claimed y) (accepted y) (popped y)).
Proof.
  intros HI El. apply (same_held k); [done|by rewrite El, held_mid|by rewrite El, fills_mid|]. by apply (pushes_mid y l1 _ l2 _ El), HI.
Qed.

(** [Test] against its slot. *)
Lemma test_step_spec y v pos p l1 l2 : Inv y -> prompt N y -> pushes y = l1 ++ (Test v pos, p) :: l2 ->
  exists next, push_step N false (ring y) (Test v pos) = Ret (ring y, next) /\
    ((next = inl (Claim v pos) /\ p < count (popped y) + released (popper y) + N) \/ next = inl (Load v) \/
     (next = inr (Refused v) /\ count (claimed y) = count (popped y) + released (popper y) + N)).
Proof.
  intros HI HP El. destruct (test_pos k y l1 v pos p l2 HI HP El) as (-> & Hp & Hpr). cbn. rewrite slot_at_ok by (done || apply HI). cbn.
  destruct (test_slot k Hk y p HI Hp Hpr) as [H1 H2]. destruct (_ =? 0) eqn:Ez; [eexists; split; [done|]; left; auto|].
  destruct (_ <? _) eqn:El'; eexists; (split; [done|]); auto.
Qed.

Lemma test_ok y v pos p l1 l2 at_ : Inv y -> prompt N y -> pushes y = l1 ++ (Test v pos, p) :: l2 ->
  push_step N false (ring y) (Test v pos) = Ret (ring y, inl at_) -> Inv (mkSys (ring y) (l1 ++ (at_, p) :: l2) (popper y) (claimed y) (accepted y) (popped y)).
Proof.
  intros HI HP El E. destruct (test_step_spec y v pos p l1 l2 HI HP El) as (next & E' & Hn). rewrite E' in E. injection E as ->. destruct (test_pos k y l1 v pos p l2 HI HP El) as (-> & Hp & _).
  destruct Hn as [[[= ->] Hlt]|[[= ->]|[[=] _]]]; by eapply (quiet_step k).
Qed.

Lemma claim_pos y l1 v pos p l2 : Inv y -> prompt N y -> pushes y = l1 ++ (Claim v pos, p) :: l2 ->
  pos = wrap 64 p /\ 0 <= p <= count (claimed y) /\ p < count (popped y) + released (popper y) + N /\ count (claimed y) - p + N < 2 ^ 63.
Proof.
  intros HI HP El. destruct (pushes_mid y l1 _ l2 _ El (iv_pushes k y HI)) as [(H1 & H2 & H3) _]. destruct (pushes_mid y l1 _ l2 _ El HP) as [H4 _]. done.
Qed.

Lemma lose_ok y l1 v pos p l2 weak pos' : Inv y -> pushes y = l1 ++ (Claim v pos, p) :: l2 -> push_step N weak (ring y) (Claim v pos) = Ret (ring y, inl (Test v pos')) ->
  Inv (mkSys (ring y) (l1 ++ (Test v pos', count (claimed y)) :: l2) (popper y) (claimed y) (accepted y) (popped y)).
Proof.
  intros HI El E. cbn in E. destruct (negb weak && (enqueue_pos (ring y) =? pos)); [done|]. injection E as <-. eapply (quiet_step k); [done|exact El|done..|]. cbn. split; [apply HI|].
  unfold count. lia.
Qed.

Lemma claim_ok y l1 v pos p l2 r' : Inv y -> prompt N y -> pushes y = l1 ++ (Claim v pos, p) :: l2 ->
  push_step N false (ring y) (Claim v pos) = Ret (r', inl (Fill v pos)) ->
  Inv (mkSys r' (l1 ++ (Fill v pos, p) :: l2) (popper y) (claimed y ++ [v]) (accepted y) (popped y)).
Proof.
  intros HI HP El E. destruct (claim_pos y l1 v pos p l2 HI HP El) as (-> & Hp & Hlt & Hpr). destruct HI as [IL IE ID IW IP IS IN IV IC IA]. pose proof (N_bounds k Hk) as HN.
  cbn in E. destruct (enqueue_pos (ring y) =? wrap 64 p) eqn:Ee; [|done]. injection E as <-. apply Z.eqb_eq in Ee. rewrite IE in Ee. apply wrap_eq in Ee; [|lia]. subst p.
  set (e := count (claimed y)) in *. assert (count (claimed y ++ [v]) = e + 1) as Hc by (unfold e, count; rewrite length_app; cbn; lia).
  assert (forall p, 0 <= p < e -> (claimed y ++ [v]) !! Z.to_nat p = claimed y !! Z.to_nat p) as Hlk.
  { intros p Hp'. apply lookup_app_l. unfold e, count in Hp'. lia. }
  assert (0 <= count (popped y) + released (popper y)) as Hd0 by (unfold count; destruct (popper y) as [[]|]; cbn; lia).
  assert ((claimed y ++ [v]) !! Z.to_nat e = Some v) as Hle by (unfold e, count; rewrite Nat2Z.id; by apply list_lookup_middle).
  destruct (pushes_mid y l1 _ l2 _ El IS) as [_ IS']. assert (held (pushes y) ≡ₚ held (l1 ++ l2)) as Hh by (by rewrite El, held_mid). assert (fills (pushes y) ≡ₚ fills (l1 ++ l2)) as Hf by (by rewrite El, fills_mid).
  assert (forall p, p ∈ held (pushes y) -> 0 <= p < e) as Hheld.
  { intros p. unfold held. rewrite list_elem_of_bind. intros ([t q] & Hin & Ht). rewrite Forall_forall in IS. specialize (IS _ Ht). destruct t; cbn in Hin; try (by apply elem_of_nil in Hin);
      apply list_elem_of_singleton in Hin as ->; cbn in IS; unfold e; lia. }
  assert (e ∉ held (l1 ++ l2)) as Hne by (rewrite <- Hh; intros Hin%Hheld; lia). set (ps := l1 ++ (Fill v (wrap 64 e), e) :: l2).
  assert (held ps ≡ₚ e :: held (l1 ++ l2)) as Hh' by (unfold ps; by rewrite held_mid). assert (fills ps ≡ₚ e :: fills (l1 ++ l2)) as Hf' by (unfold ps; by rewrite fills_mid).
  split; cbn; try done.
  - rewrite Hc. by rewrite wrap_add_l.
  - rewrite Hc. cbn in *. lia.
  - rewrite take_app_le; [done|]. apply (f_equal length) in IP. rewrite length_take in IP. lia.
  - apply mid_pushes; [unfold push_ok; cbn [fst snd]; rewrite Hc; split; [reflexivity|]; split; [lia|exact Hle]|]. eapply Forall_impl; [exact IS'|]. intros [t q]. unfold push_ok. cbn. rewrite Hc. fold e.
    destruct t; cbn; [done|intros [H1 H2]; split; [exact H1|lia]|intros (H1 & H2 & H3); split; [exact H1|]; split; [lia|exact H3]| |intros (H1 & H2); split; [exact H1|lia]].
    intros (H1 & H2 & H3). split; [exact H1|]. split; [lia|]. rewrite Hlk by lia. exact H3.
  - rewrite Hh'. apply NoDup_cons. split; [done|]. by rewrite <- Hh.
  - intros p Hp'. transitivity (slotv k (ring y) p); [done|]. rewrite (IV p Hp'). unfold expected. fold e. rewrite Hc. assert (p ∈ held (pushes y) <-> p ∈ held (l1 ++ l2)) as Hi1 by (by rewrite Hh).
    assert (p ∈ fills (pushes y) <-> p ∈ fills (l1 ++ l2)) as Hi2 by (by rewrite Hf). assert (p ∈ held ps <-> p = e \/ p ∈ held (l1 ++ l2)) as Hi3 by (by rewrite Hh', elem_of_cons).
    assert (p ∈ fills ps <-> p = e \/ p ∈ fills (l1 ++ l2)) as Hi4 by (by rewrite Hf', elem_of_cons). destruct (decide (p = e)) as [->|Hpe].
    + f_equal; rewrite !decide_False; tauto || lia.
    + assert (p < e + 1 <-> p < e) as Hlt' by lia. f_equal; [apply decide_ext; tauto|]. case_decide as D1; case_decide as D2; [by rewrite Hlk by (split; [lia|tauto])|exfalso; tauto|exfalso; tauto|done].
  - unfold pop_ok in *. rewrite Hc. fold e in IC. assert (count (popped y) < e -> count (popped y) ∉ held (pushes y) -> count (popped y) ∉ held ps) as Hni.
    { intros H1 H2. rewrite Hh', <- Hh. apply not_elem_of_cons. split; [lia|exact H2]. }
    assert (count (popped y) < e -> (claimed y ++ [v]) !! Z.to_nat (count (popped y)) = claimed y !! Z.to_nat (count (popped y))) as Hlk' by (intros; apply Hlk; unfold count in *; lia).
    destruct (popper y) as [[]|]; try exact I; [exact IC|destruct IC as (H1 & H2 & H3)|destruct IC as (H1 & H2 & H3 & H4)|destruct IC as (H1 & H2 & H3)]; rewrite ?Hlk' by assumption; repeat (split; [assumption || lia|]); auto.
  - unfold values in *. rewrite Hh', bind_cons, Hle, IA. assert (forall l, (forall p, p ∈ l -> 0 <= p < e) -> l ≫= (fun p => option_list ((claimed y ++ [v]) !! Z.to_nat p)) = l ≫= (fun p => option_list (claimed y !! Z.to_nat p))) as Hv.
    { induction l as [|x l IH]; intros Hl; [done|]. rewrite !bind_cons, IH, Hlk; [done|apply Hl; left|]. intros q Hq. apply Hl. by right. }
    rewrite Hv by (intros q Hq; apply Hheld; by rewrite Hh). rewrite <- Hh. cbn. solve_Permutation.
Qed.

(** A held position belongs to one call, and is neither read nor released. *)
Lemma held_facts y l1 t p l2 : Inv y -> pushes y = l1 ++ (t, p) :: l2 -> held_by (t, p) = [p] ->
  p ∉ held (l1 ++ l2) /\ p ∉ fills (l1 ++ l2) /\ taken_of (popper y) (count (popped y)) <> Some p /\ p ∈ held (pushes y).
Proof.
  intros HI El Hb. pose proof (iv_nodup k y HI) as Hn. rewrite El, held_mid, Hb in Hn. apply NoDup_cons in Hn as [Hn _].
  assert (p ∈ held (pushes y)) as Hin by (rewrite El, held_mid, Hb; left). split; [done|]. split; [by intros ?%fills_held|]. split; [|done].
  pose proof (iv_popper k y HI) as Hp. intros E. destruct (popper y) as [[]|]; try done. cbn in E, Hp. injection E as <-. tauto.
Qed.

(** A call that writes the slot of the position it holds. *)
Lemma write_ok y l1 t t' p l2 r' acc : Inv y -> pushes y = l1 ++ (t, p) :: l2 -> held_by (t, p) = [p] ->
  length (slots r') = Z.to_nat N -> enqueue_pos r' = enqueue_pos (ring y) -> dequeue_pos r' = dequeue_pos (ring y) ->
  let d' := count (popped y) + released (popper y) in d' <= p < count (claimed y) ->
  let ps := l1 ++ t' ++ l2 in
  Forall (push_ok k (claimed y) d') ps -> NoDup (held ps) -> held ps ⊆ held (pushes y) ->
  (forall q, q <> p -> (q ∈ held ps <-> q ∈ held (pushes y)) /\ (q ∈ fills ps <-> q ∈ fills (pushes y))) ->
  (forall q, slotv k r' q = if decide (q mod N = p mod N) then expected (claimed y) ps (taken_of (popper y) (count (popped y))) p else slotv k (ring y) q) ->
  claimed y ≡ₚ acc ++ values (claimed y) (held ps) ->
  Inv (mkSys r' ps (popper y) (claimed y) acc (popped y)).
Proof.
  intros HI El Hb Hl He Hd d' Hp ps Hok Hn Hsub Hq Hs Ha. destruct HI as [IL IE ID IW IP IS IN IV IC IA]. cbn zeta in *. fold d' in IW, IV. split; cbn; try done.
  - congruence.
  - congruence.
  - fold d'. intros q Hw. rewrite Hs. case_decide as Hm.
    + apply (same_cell k Hk d') in Hm; [by subst|done|lia].
    + rewrite (IV q Hw). assert (q <> p) as Hne by (intros ->; done). destruct (Hq q Hne) as [H1 H2]. apply expected_ext; tauto.
  - eapply pop_ok_mono; [|exact IC]. apply Hsub.
Qed.

Lemma fill_ok y l1 v pos p l2 r' : Inv y -> pushes y = l1 ++ (Fill v pos, p) :: l2 ->
  push_step N false (ring y) (Fill v pos) = Ret (r', inl (Publish pos)) ->
  Inv (mkSys r' (l1 ++ (Publish pos, p) :: l2) (popper y) (claimed y) (accepted y) (popped y)).
Proof.
  intros HI El E. destruct (pushes_mid y l1 _ l2 _ El (iv_pushes k y HI)) as [(Epos & Hp & Hv) Hrest]. cbn [fst snd] in Epos, Hp, Hv. subst pos. destruct (held_facts y l1 _ p l2 HI El eq_refl) as (N1 & N2 & N3 & N4).
  cbn in E. rewrite (slot_at_ok k Hk) in E by apply HI. cbn in E.
  destruct (set_slot_ok k Hk (ring y) p (mkSlot (sequence (slotv k (ring y) p)) (Some v)) (iv_len k y HI)) as (r1 & E1 & L1 & L2 & L3 & L4). rewrite E1 in E. injection E as ->.
  set (ps := l1 ++ [(Publish (wrap 64 p), p)] ++ l2). assert (held ps ≡ₚ held (pushes y)) as Hh by (unfold ps; rewrite El; cbn [app]; by rewrite !held_mid).
  assert (fills (pushes y) ≡ₚ p :: fills (l1 ++ l2)) as Hf by (by rewrite El, fills_mid). assert (fills ps ≡ₚ fills (l1 ++ l2)) as Hf' by (unfold ps; cbn [app]; by rewrite fills_mid).
  apply (write_ok y l1 _ [(Publish (wrap 64 p), p)] p l2 r' _ HI El); try done; fold ps.
  - apply mid_pushes; [|done]. by split.
  - rewrite Hh. apply HI.
  - by rewrite Hh.
  - intros q Hq. rewrite Hh, Hf, Hf', elem_of_cons. tauto.
  - intros q. rewrite L4. case_decide as Hm; [|done]. unfold expected. rewrite (decide_False (P := p < _ /\ p ∉ held ps)) by (rewrite Hh; tauto). rewrite decide_True by (rewrite Hf'; split; [lia|done]). rewrite Hv. f_equal.
    rewrite (iv_slots k y HI p) by (pose proof (iv_window k y HI); cbn in *; lia). unfold expected. cbn. by rewrite decide_False by tauto.
  - unfold values. rewrite Hh. apply HI.
Qed.

Lemma publish_ok y l1 pos p l2 r' : Inv y -> pushes y = l1 ++ (Publish pos, p) :: l2 ->
  push_step N false (ring y) (Publish pos) = Ret (r', inr Pushed) ->
  Inv (mkSys r' (l1 ++ l2) (popper y) (claimed y) (accepted y ++ option_list (claimed y !! Z.to_nat p)) (popped y)).
Proof.
  intros HI El E. destruct (pushes_mid y l1 _ l2 _ El (iv_pushes k y HI)) as [(Epos & Hp) Hrest]. cbn [fst snd] in Epos, Hp. subst pos. destruct (held_facts y l1 _ p l2 HI El eq_refl) as (N1 & N2 & N3 & N4).
  cbn in E. rewrite (slot_at_ok k Hk) in E by apply HI. cbn in E.
  destruct (set_slot_ok k Hk (ring y) p (mkSlot (wrap 64 (wrap 64 p + 1)) (cell (slotv k (ring y) p))) (iv_len k y HI)) as (r1 & E1 & L1 & L2 & L3 & L4). rewrite E1 in E. injection E as ->.
  assert (held (pushes y) ≡ₚ p :: held (l1 ++ l2)) as Hh by (by rewrite El, held_mid). assert (fills (pushes y) ≡ₚ fills (l1 ++ l2)) as Hf by (by rewrite El, fills_mid).
  pose proof (iv_nodup k y HI) as Hn. rewrite Hh in Hn. apply NoDup_cons in Hn as [_ Hn].
  apply (write_ok y l1 _ [] p l2 r' _ HI El); try done; cbn [app].
  - rewrite Hh. set_solver.
  - intros q Hq. rewrite Hh, Hf, elem_of_cons. tauto.
  - intros q. rewrite L4. case_decide as Hm; [|done]. unfold expected. rewrite !decide_True by (split; [lia|done]). f_equal; [by rewrite wrap_add_l|].
    rewrite (iv_slots k y HI p) by (pose proof (iv_window k y HI); cbn in *; lia). unfold expected. cbn. by rewrite decide_True by (rewrite Hf; split; [lia|done]).
  - pose proof (iv_accepted k y HI) as Ha. unfold values in *. rewrite Hh, bind_cons in Ha. rewrite Ha at 1. solve_Permutation.
Qed.

(** ** The consumer *)

(** The consumer moves on without touching a slot. *)
Lemma popper_quiet y c : Inv y -> released c = released (popper y) -> taken_of c (count (popped y)) = taken_of (popper y) (count (popped y)) ->
  pop_ok (claimed y) (pushes y) (count (popped y)) c -> Inv (mkSys (ring y) (pushes y) c (claimed y) (accepted y) (popped y)).
Proof. intros [IL IE ID IW IP IS IN IV IC IA] Hr Ht Hc. split; cbn; rewrite ?Hr, ?Ht; assumption. Qed.

(** The consumer's comparison: its slot is published or not. *)
Lemma pop_test_spec y pos : Inv y -> popper y = Some (PopTest pos) ->
  let d := count (popped y) in
  pos = wrap 64 d /\
  ((d < count (claimed y) /\ d ∉ held (pushes y) /\ pop_step N (ring y) (PopTest pos) = Ret (ring y, inl (PopRead pos))) \/
   (d = count (claimed y) \/ d ∈ held (pushes y)) /\ pop_step N (ring y) (PopTest pos) = Ret (ring y, inr None)).
Proof.
  intros HI Hc d. pose proof (iv_popper k y HI) as Hp. rewrite Hc in Hp. cbn in Hp. fold d in Hp. subst pos. split; [reflexivity|]. pose proof (N_bounds k Hk) as HN.
  pose proof (iv_window k y HI) as HW. cbn zeta in HW. rewrite Hc in HW. cbn [released] in HW. fold d in HW. rewrite Z.add_0_r in HW.
  cbn. rewrite (slot_at_ok k Hk) by apply HI. cbn. pose proof (iv_slots k y HI d) as Hs. cbn zeta in Hs. rewrite Hc in Hs. cbn [released taken_of] in Hs. fold d in Hs. rewrite Hs by lia.
  unfold expected. cbn. rewrite wrap_add_l. destruct (decide (d < count (claimed y) /\ d ∉ held (pushes y))) as [[D1 D2]|D].
  - left. split; [exact D1|]. split; [exact D2|]. destruct (gap_cases (d + 1) (d + 1) ltac:(lia)) as [_ ->]. by rewrite Z.ltb_irrefl.
  - right. destruct (gap_cases d (d + 1) ltac:(lia)) as [_ ->]. replace (d <? d + 1) with true by (symmetry; apply Z.ltb_lt; lia). split; [|reflexivity].
    destruct (decide (d = count (claimed y))); [by left|right]. destruct (decide (d ∈ held (pushes y))); [assumption|]. exfalso. apply D. split; [lia|assumption].
Qed.

Lemma pop_read_spec y pos : Inv y -> popper y = Some (PopRead pos) ->
  exists v r', pop_step N (ring y) (PopRead pos) = Ret (r', inl (PopRelease pos v)) /\ Inv (mkSys r' (pushes y) (Some (PopRelease pos v)) (claimed y) (accepted y) (popped y)).
Proof.
  intros HI Hc. destruct HI as [IL IE ID IW IP IS IN IV IC IA]. rewrite Hc in *. cbn [released taken_of] in *. set (d := count (popped y)) in *. rewrite Z.add_0_r in *. destruct IC as (-> & Hd & Hnh).
  pose proof (N_bounds k Hk) as HN. cbn. rewrite (slot_at_ok k Hk) by exact IL. cbn. rewrite (IV d) by lia.
  assert (d ∉ fills (pushes y)) as Hnf by (by intros ?%fills_held). destruct (lookup_lt_is_Some_2 (claimed y) (Z.to_nat d)) as [v Hv]; [unfold d, count in *; lia|].
  unfold expected at 1. cbn [cell]. rewrite decide_True by (split; [exact Hd|]; split; [exact Hnf|congruence]). rewrite Hv.
  destruct (set_slot_ok k Hk (ring y) d (mkSlot (sequence (expected (claimed y) (pushes y) None d)) None) IL) as (r' & E1 & L1 & L2 & L3 & L4). exists v, r'. rewrite E1. split; [reflexivity|].
  split; cbn [ring pushes popper claimed accepted popped released taken_of]; fold d; rewrite ?Z.add_0_r; try assumption; try congruence.
  - intros q Hq. rewrite L4. case_decide as Hm.
    + apply (same_cell k Hk d) in Hm; [|assumption|lia]. subst q. unfold expected. cbn. f_equal. symmetry. apply decide_False. tauto.
    + assert (q <> d) as Hne by (by intros ->). rewrite (IV q Hq). unfold expected. f_equal. apply decide_ext. split; intros (? & ? & ?); (split; [assumption|split; [assumption|congruence]]).
  - repeat (split; [assumption || reflexivity|]). assumption.
Qed.

Lemma next_lap p : (p + N) mod N = p mod N.
Proof. pose proof (N_bounds k Hk). replace (p + N) with (p + 1 * N) by lia. apply Z.mod_add. lia. Qed.

Lemma pop_release_spec y pos v : Inv y -> popper y = Some (PopRelease pos v) ->
  exists r', pop_step N (ring y) (PopRelease pos v) = Ret (r', inl (PopAdvance pos v)) /\ Inv (mkSys r' (pushes y) (Some (PopAdvance pos v)) (claimed y) (accepted y) (popped y)).
Proof.
  intros HI Hc. destruct HI as [IL IE ID IW IP IS IN IV IC IA]. rewrite Hc in *. cbn [released taken_of] in *. set (d := count (popped y)) in *. rewrite Z.add_0_r in *. destruct IC as (-> & Hd & Hnh & Hv).
  pose proof (N_bounds k Hk) as HN. cbn. rewrite (slot_at_ok k Hk) by exact IL. cbn. rewrite (IV d) by lia. rewrite wrap_add_l.
  destruct (set_slot_ok k Hk (ring y) d (mkSlot (wrap 64 (d + N)) (cell (expected (claimed y) (pushes y) (Some d) d))) IL) as (r' & E1 & L1 & L2 & L3 & L4). exists r'. rewrite E1. split; [reflexivity|].
  assert (forall p, p ∈ held (pushes y) -> d + 1 <= p) as Hheld.
  { intros p Hin. assert (p <> d) by (by intros ->). unfold held in Hin. apply list_elem_of_bind in Hin as ([t q] & Hin & Ht). rewrite Forall_forall in IS. specialize (IS _ Ht).
    destruct t; cbn in Hin; try (by apply elem_of_nil in Hin); apply list_elem_of_singleton in Hin as ->; cbn in IS; lia. }
  split; cbn [ring pushes popper claimed accepted popped released taken_of]; fold d; try assumption; try congruence.
  - lia.
  - apply Forall_forall. intros [t q] Ht. rewrite Forall_forall in IS. pose proof (IS _ Ht) as Hok. assert (held_by (t, q) ⊆ held (pushes y)) as Hsub.
    { intros p Hp. unfold held. apply list_elem_of_bind. by exists (t, q). }
    unfold push_ok in *. cbn [fst snd] in *. destruct t; cbn [fst snd held_by] in *; [exact I|exact Hok| | |];
      try (assert (d + 1 <= q) by (apply Hheld, Hsub; left)); destruct Hok as [H1 H2]; (split; [exact H1|]); [lia|destruct H2 as [H2 H3]; split; [lia|exact H3]|lia].
  - intros q Hq. rewrite L4. case_decide as Hm.
    + assert (q = d + N) as ->. { apply (same_cell k Hk (d + 1)); [assumption|lia|]. rewrite Hm. symmetry. apply next_lap. }
      unfold expected. cbn. rewrite (decide_False (P := d < _ /\ _)) by (intros (_ & _ & ?); done). rewrite !decide_False by (intros [? _]; lia). reflexivity.
    + assert (q <> d) as Hne by (by intros ->). assert (q <> d + N) as Hne2. { intros ->. apply Hm. apply next_lap. }
      rewrite (IV q) by lia. unfold expected. f_equal. apply decide_ext. split; intros (? & ? & ?); (split; [assumption|split; [assumption|congruence]]).
  - repeat (split; [assumption || reflexivity|]). assumption.
Qed.

Lemma pop_advance_spec y pos v : Inv y -> popper y = Some (PopAdvance pos v) ->
  exists r', pop_step N (ring y) (PopAdvance pos v) = Ret (r', inr (Some v)) /\ Inv (mkSys r' (pushes y) None (claimed y) (accepted y) (popped y ++ [v])).
Proof.
  intros HI Hc. destruct HI as [IL IE ID IW IP IS IN IV IC IA]. rewrite Hc in *. cbn [released taken_of] in *. set (d := count (popped y)) in *. destruct IC as (-> & Hd & Hv).
  eexists. split; [reflexivity|]. assert (count (popped y ++ [v]) = d + 1) as Hcnt by (unfold d, count; rewrite length_app; cbn; lia).
  split; cbn [ring pushes popper claimed accepted popped released taken_of enqueue_pos dequeue_pos slots]; rewrite ?Hcnt, ?Z.add_0_r; try assumption.
  - apply wrap_add_l.
  - rewrite length_app. cbn [length]. rewrite IP at 1. rewrite Nat.add_1_r. symmetry. apply take_S_r. unfold d, count in Hv. by rewrite Nat2Z.id in Hv.
  - exact I.
Qed.

(** ** Every step *)

Lemma step_ok y y' : Inv y -> prompt N y -> step N y y' -> Inv y'.
Proof.
  intros HI HP Hs. destruct Hs as [y v|y l1 v g l2 p El Hp|y l1 v pos p l2 at_ El E|y l1 v pos p l2 El E|y l1 v pos p l2 r' El E|y l1 v pos p l2 weak pos' El E|y l1 v pos p l2 r' El E|y l1 pos p l2 r' El E|y Hn|y at_ r' at_' Hc E|y at_ r' o Hc E].
  - by apply begin_ok.
  - eapply (quiet_step k); [done|exact El|done..|]. split; [reflexivity|]. assumption.
  - by eapply test_ok.
  - by eapply refuse_ok.
  - by eapply claim_ok.
  - by eapply lose_ok.
  - by eapply fill_ok.
  - by eapply publish_ok.
  - apply popper_quiet; [assumption|by rewrite Hn..|exact I].
  - destruct at_ as [|pos|pos|pos v|pos v].
    + injection E as <- <-. apply popper_quiet; [assumption|by rewrite Hc..|]. apply HI.
    + destruct (pop_test_spec y pos HI Hc) as (Ep & [(H1 & H2 & E')|[_ E']]); rewrite E' in E; [|done]. injection E as <- <-. apply popper_quiet; [assumption|by rewrite Hc..|]. by split.
    + destruct (pop_read_spec y pos HI Hc) as (v & r1 & E' & HI'). rewrite E' in E. by injection E as <- <-.
    + destruct (pop_release_spec y pos v HI Hc) as (r1 & E' & HI'). rewrite E' in E. by injection E as <- <-.
    + done.
  - destruct at_ as [|pos|pos|pos v|pos v].
    + done.
    + destruct (pop_test_spec y pos HI Hc) as (Ep & [(H1 & H2 & E')|[_ E']]); rewrite E' in E; [done|]. injection E as <- <-. cbn. rewrite app_nil_r. apply popper_quiet; [assumption|by rewrite Hc..|exact I].
    + destruct (pop_read_spec y pos HI Hc) as (v & r1 & E' & HI'). rewrite E' in E. done.
    + destruct (pop_release_spec y pos v HI Hc) as (r1 & E' & HI'). rewrite E' in E. done.
    + destruct (pop_advance_spec y pos v HI Hc) as (r1 & E' & HI'). rewrite E' in E. by injection E as <- <-.
Qed.

End steps.
End MpscSteps.
