(* ===== verification/MpscThms.v ===== *)
(** * The multi-producer ring: the theorems *)

From S2P Require Import Prelude Bitmap MpscRing MpscInv.
From stdpp Require Import base tactics option numbers list gmap.

Local Open Scope Z_scope.

Module MpscThms.
Import Mpsc MpscInv MpscSteps.

Section thms.
Context {T : Type} (k : Z).
Local Abbreviation N := (2 ^ k).
Implicit Types (y : sys T) (r : MpscRing T).

(** The cells about to be accessed without synchronisation. *)
Definition touching y : list Z :=
  (pushes y ≫= fun t => match fst t with Fill _ pos => [mask N pos] | _ => [] end) ++
  match popper y with Some (PopRead pos) => [mask N pos] | _ => [] end.

(** Every call in progress can perform its next access. *)
Definition never_undefined y : Prop :=
  (forall at_ p weak, (at_, p) ∈ pushes y -> exists x, push_step N weak (ring y) at_ = Ret x) /\
  (forall at_, popper y = Some at_ -> exists x, pop_step N (ring y) at_ = Ret x).

(** The values of the pushes that have claimed a position and not returned. *)
Definition in_flight y : list T := values (claimed y) (held (pushes y)).

(** The values not yet popped. *)
Definition queue y : list T := list.drop (length (popped y)) (claimed y).

Definition quiet y : Prop := pushes y = [] /\ popper y = None.

Context (Hk : 1 <= k <= 62).

Lemma reach_ok y : reach N y -> Inv k y /\ prompt N y.
Proof.
  induction 1 as [|y y' _ [HI HP] Hs HP']; [split; [by apply start_ok|by constructor]|]. split; [by apply (step_ok k Hk y)|done].
Qed.

Lemma fill_slots y ps : Forall (push_ok k (claimed y) (count (popped y) + released (popper y))) ps ->
  (ps ≫= fun t => match fst t with Fill _ pos => [mask N pos] | _ => [] end) = (fun p => p mod N) <$> fills ps.
Proof.
  induction 1 as [|[t p] ps Ht _ IH]; [done|]. unfold fills in *. rewrite !bind_cons, fmap_app, IH. f_equal. destruct t; cbn in *; try done. destruct Ht as [-> _]. by rewrite mask_wrap.
Qed.

Lemma fills_sublist ps : fills ps `sublist_of` held (T := T) ps.
Proof. induction ps as [|[t p] ps IH]; [done|]. unfold fills, held in *. rewrite !bind_cons. apply sublist_app; [|done]. destruct t; cbn; done || by constructor. Qed.

Lemma held_window y p : Inv k y -> p ∈ held (pushes y) -> count (popped y) + released (popper y) <= p < count (claimed y).
Proof.
  intros HI Hin. unfold held in Hin. apply list_elem_of_bind in Hin as ([t q] & Hin & Ht). pose proof (iv_pushes k y HI) as Hf. rewrite Forall_forall in Hf. specialize (Hf _ Ht).
  destruct t; cbn in Hin; try (by apply elem_of_nil in Hin); apply list_elem_of_singleton in Hin as ->; cbn in Hf; tauto.
Qed.

Lemma window_nodup d (l : list Z) : (forall p, p ∈ l -> d <= p < d + N) -> NoDup l -> NoDup ((fun p => p mod N) <$> l).
Proof.
  intros Hw Hn. induction Hn as [|p l Hp _ IH]; [constructor|]. rewrite fmap_cons. apply NoDup_cons. split; [|apply IH; intros q Hq; apply Hw; by right].
  intros (q & E & Hq)%list_elem_of_fmap. apply Hp. rewrite (same_cell k Hk d p q); [done|apply Hw; left|apply Hw; by right|done].
Qed.

Lemma inv_race_free y : Inv k y -> NoDup (touching y).
Proof.
  intros HI. unfold touching. rewrite (fill_slots y) by apply HI. set (d' := count (popped y) + released (popper y)). pose proof (iv_window k y HI) as HW. cbn zeta in HW. fold d' in HW.
  assert (forall p, p ∈ fills (pushes y) -> d' <= p < d' + N) as Hf by (intros p Hp%fills_held; apply (held_window y p HI) in Hp; fold d' in Hp; lia).
  assert (NoDup ((fun p => p mod N) <$> fills (pushes y))) as Hn by (eapply window_nodup; [done|]; eapply sublist_NoDup; [apply HI|apply fills_sublist]).
  destruct (popper y) as [[| |pos| |]|] eqn:Hc; rewrite ?app_nil_r; try exact Hn. pose proof (iv_popper k y HI) as Hp. rewrite Hc in Hp. destruct Hp as (-> & Hd & Hnh). rewrite mask_wrap by done.
  apply NoDup_app. split; [exact Hn|]. split; [|apply NoDup_singleton]. intros x Hx ->%list_elem_of_singleton. apply list_elem_of_fmap in Hx as (p & E & Hp). apply Hnh.
  rewrite (same_cell k Hk d' (count (popped y)) p); [by apply fills_held|unfold d' in *; cbn [released] in *; lia|by apply Hf|exact E].
Qed.

Lemma inv_never_undefined y : Inv k y -> never_undefined y.
Proof.
  intros HI. assert (forall p s, exists r', set_slot N (ring y) (wrap 64 p) s = Ret r') as Hset by (intros p s; destruct (set_slot_ok k Hk (ring y) p s (iv_len k y HI)) as (r' & E & _); eauto).
  split.
  - intros at_ p weak Hin. pose proof (iv_pushes k y HI) as Hf. rewrite Forall_forall in Hf. specialize (Hf _ Hin). pose proof (slot_at_ok k Hk (ring y) p (iv_len k y HI)) as Hs.
    destruct at_ as [v|v pos|v pos|v pos|pos]; cbn in *; [by eexists|destruct Hf as [-> _]; rewrite Hs; cbn; repeat case_match; by eexists|case_match; by eexists| |];
      destruct Hf as [-> _]; rewrite Hs; cbn [mbind outcome_bind]; edestruct Hset as [r' ->]; by eexists.
  - intros at_ Hc. pose proof (iv_popper k y HI) as Hp. rewrite Hc in Hp. destruct at_ as [|pos|pos|pos v|pos v]; cbn; [by eexists| | | |by eexists].
    + destruct (pop_test_spec k Hk y pos HI Hc) as (_ & [(_ & _ & E)|[_ E]]); cbn in E; rewrite E; by eexists.
    + destruct (pop_read_spec k Hk y pos HI Hc) as (v & r' & E & _). cbn in E. rewrite E. by eexists.
    + destruct (pop_release_spec k Hk y pos v HI Hc) as (r' & E & _). cbn in E. rewrite E. by eexists.
Qed.

Lemma quiet_queue y : Inv k y -> quiet y ->
  len (ring y) = count (queue y) /\ Mpsc.drop N (ring y) = Ret (queue y) /\ claimed y ≡ₚ accepted y /\ count (queue y) <= N.
Proof.
  intros HI [Ep Ec]. pose proof (N_bounds k Hk) as HN. destruct HI as [IL IE ID IW IP IS IN IV IC IA]. rewrite Ec, Ep in *. cbn [released taken_of] in *. rewrite Z.add_0_r in *. set (d := count (popped y)) in *. set (e := count (claimed y)) in *.
  assert (count (queue y) = e - d) as Hq by (unfold queue, count; rewrite length_drop; unfold e, d, count in *; lia). split; [|split; [|split; [by rewrite app_nil_r in IA|lia]]].
  - unfold len. rewrite IE, ID, wrap_wrap_sub, Hq. apply wrap_id. unfold fits. lia.
  - unfold Mpsc.drop. rewrite ID. assert (forall fuel p, d <= p <= e -> e - p <= Z.of_nat fuel -> drop_from N fuel (ring y) (wrap 64 p) = Ret (list.drop (Z.to_nat p) (claimed y))) as Hdrop.
    { induction fuel as [|fuel IH]; intros p Hp Hf; cbn [drop_from]; rewrite IE.
      - assert (p = e) as -> by lia. rewrite Z.eqb_refl. symmetry. f_equal. apply drop_ge. unfold e, count. lia.
      - destruct (wrap 64 p =? wrap 64 e) eqn:Ew.
        + apply Z.eqb_eq, wrap_eq in Ew; [|lia]. subst p. symmetry. f_equal. apply drop_ge. unfold e, count. lia.
        + assert (p <> e) by (intros ->; by rewrite Z.eqb_refl in Ew). rewrite (slot_at_ok k Hk) by exact IL. cbn [mbind outcome_bind]. rewrite (IV p) by lia. unfold expected. cbn [cell].
          rewrite decide_True by (split; [lia|]; split; [apply not_elem_of_nil|done]). destruct (lookup_lt_is_Some_2 (claimed y) (Z.to_nat p)) as [v Hv]; [unfold e, count in *; lia|]. rewrite Hv, wrap_add_l, IH by lia. cbn [mbind outcome_bind].
          rewrite (drop_S _ _ _ Hv). f_equal. f_equal. f_equal. unfold d, count in *. lia. }
    rewrite Hdrop; [|lia|lia]. unfold queue, d, count. by rewrite Nat2Z.id.
Qed.

(** C9: the ring under every interleaving.  Any number of threads push and one
    pops, accesses interleaving in every way, compare-exchanges failing
    spuriously and relaxed loads returning old values, positions wrapping
    around: no access is undefined, no two threads are about to touch one cell,
    the values come out in the order their positions were claimed, and each
    value claimed is accepted or still being pushed.  A [push] is refused only
    when [N] values are in the ring, a [pop] answers [None] only when nothing is
    there or the next value's [push] has not returned. *)
Theorem mpsc_exactly_once y : reach N y ->
  never_undefined y /\ NoDup (touching y) /\
  popped y `prefix_of` claimed y /\ claimed y ≡ₚ accepted y ++ in_flight y /\
  (forall v pos p, (Test v pos, p) ∈ pushes y -> push_step N false (ring y) (Test v pos) = Ret (ring y, inr (Refused v)) -> N <= count (queue y)) /\
  (forall pos, popper y = Some (PopTest pos) -> pop_step N (ring y) (PopTest pos) = Ret (ring y, inr None) -> queue y = [] \/ count (popped y) ∈ held (pushes y)).
Proof.
  intros Hr. destruct (reach_ok y Hr) as [HI HP]. split; [by apply inv_never_undefined|]. split; [by apply inv_race_free|]. split; [rewrite (iv_prefix k y HI); apply prefix_take|].
  split; [apply HI|]. assert (count (queue y) = count (claimed y) - count (popped y)) as Hq.
  { pose proof (iv_window k y HI) as HW. cbn zeta in HW. unfold queue, count in *. rewrite length_drop. destruct (popper y) as [[]|]; cbn in HW; lia. }
  split.
  - intros v pos p Hin E. apply list_elem_of_split in Hin as (l1 & l2 & El). destruct (test_step_spec k Hk y v pos p l1 l2 HI HP El) as (next & E' & Hn). rewrite E' in E. injection E as ->.
    destruct Hn as [[? _]|[?|[_ Hn]]]; [done|done|]. destruct (popper y) as [[]|]; cbn in Hn; lia.
  - intros pos Hc E. destruct (pop_test_spec k Hk y pos HI Hc) as (_ & [(_ & _ & E')|[Hd _]]); [rewrite E' in E; done|]. destruct Hd as [Hd|]; [|by right]. left. apply length_zero_iff_nil. unfold count in Hq. unfold count in Hd. lia.
Qed.

(** ** One call at a time *)

Definition alone y (t : pushing T) (p : Z) : sys T := mkSys (ring y) [(t, p)] None (claimed y) (accepted y) (popped y).

Lemma alone_prompt y t p : p = count (claimed y) -> prompt N (alone y t p).
Proof. intros ->. pose proof (N_bounds k Hk). apply Forall_singleton. cbn. destruct t; cbn; try exact I; lia. Qed.

Lemma alone_begin y v : reach N y -> quiet y -> reach N (alone y (Load v) 0).
Proof.
  intros Hr [Ep Ec]. eapply reach_step; [exact Hr| |by apply Forall_singleton]. pose proof (step_begin N y v) as Hs. by rewrite Ep, Ec in Hs.
Qed.

Lemma alone_step y t t' p p' : reach N (alone y t p) -> p' = count (claimed y) -> step N (alone y t p) (alone y t' p') -> reach N (alone y t' p').
Proof. intros Hr Hp Hs. eapply reach_step; [exact Hr|exact Hs|by apply alone_prompt]. Qed.

(** The slot of the next position to claim, when no call is in progress. *)
Lemma tail_slot y : Inv k y -> quiet y -> let e := count (claimed y) in
  sequence (slotv k (ring y) e) = if decide (count (queue y) < N) then wrap 64 e else wrap 64 (e + 1 - N).
Proof.
  intros HI [Ep Ec] e. pose proof (N_bounds k Hk) as HN. destruct (quiet_queue y HI (conj Ep Ec)) as (_ & _ & _ & Hq). destruct HI as [IL IE ID IW IP IS IN IV IC IA]. rewrite Ec, Ep in *. cbn [released taken_of] in *. rewrite Z.add_0_r in *.
  assert (count (queue y) = e - count (popped y)) as Hc by (unfold queue, count in *; rewrite length_drop; unfold e, count in *; lia). unfold e in *. case_decide as Hd.
  - rewrite (IV _) by lia. unfold expected. cbn. by rewrite decide_False by (intros [? _]; lia).
  - assert (count (claimed y) = count (popped y) + N) as -> by lia. unfold slotv. rewrite (next_lap k Hk). fold (slotv k (ring y) (count (popped y))). rewrite IV by lia. unfold expected. cbn. rewrite decide_True by (split; [lia|apply not_elem_of_nil]). f_equal. lia.
Qed.

Lemma push_alone y v : reach N y -> quiet y ->
  if decide (count (queue y) < N)
  then exists y', push N (ring y) v = Ret (ring y', Pushed) /\ reach N y' /\ quiet y' /\ queue y' = queue y ++ [v]
  else push N (ring y) v = Ret (ring y, Refused v).
Proof.
  intros Hr Hq. pose proof (N_bounds k Hk) as HN. destruct (reach_ok y Hr) as [HI HP]. set (e := count (claimed y)). pose proof (tail_slot y HI Hq) as Hs. cbn zeta in Hs. fold e in Hs.
  unfold push. cbn [push_run push_step mbind outcome_bind]. rewrite (iv_enq k y HI). fold e. rewrite (slot_at_ok k Hk) by apply HI. cbn [mbind outcome_bind]. rewrite Hs. case_decide as Hd.
  - pose proof (alone_begin y v Hr Hq) as R0.
    assert (reach N (alone y (Test v (wrap 64 e)) e)) as R1. { eapply alone_step; [exact R0|reflexivity|]. apply (step_load N (alone y (Load v) 0) [] v 0 [] e); [reflexivity|]. unfold e, count. cbn. lia. }
    assert (reach N (alone y (Claim v (wrap 64 e)) e)) as R2.
    { eapply alone_step; [exact R1|reflexivity|]. apply (step_test N (alone y (Test v (wrap 64 e)) e) [] v (wrap 64 e) e []); [reflexivity|]. cbn [alone ring push_step]. rewrite (slot_at_ok k Hk) by apply HI. cbn [mbind outcome_bind]. rewrite Hs.
      destruct (gap_cases e e ltac:(lia)) as [-> _]. by rewrite Z.eqb_refl. }
    destruct (gap_cases e e ltac:(lia)) as [-> _]. rewrite Z.eqb_refl. cbn [push_run push_step mbind outcome_bind negb andb]. rewrite (iv_enq k y HI). fold e. rewrite Z.eqb_refl. cbn [push_run push_step mbind outcome_bind].
    set (r1 := mkRing (wrap 64 (wrap 64 e + 1)) (dequeue_pos (ring y)) (slots (ring y))). set (y3 := mkSys r1 [(Fill v (wrap 64 e), e)] None (claimed y ++ [v]) (accepted y) (popped y)).
    assert (reach N y3) as R3.
    { eapply reach_step; [exact R2| |by apply Forall_singleton]. apply (step_claim N (alone y (Claim v (wrap 64 e)) e) [] v (wrap 64 e) e [] r1); [reflexivity|]. cbn. rewrite (iv_enq k y HI). fold e. by rewrite Z.eqb_refl. }
    destruct (reach_ok y3 R3) as [I3 _]. pose proof (slot_at_ok k Hk r1 e (iv_len k y3 I3)) as A3. rewrite A3. cbn [mbind outcome_bind].
    destruct (set_slot_ok k Hk r1 e (mkSlot (sequence (slotv k r1 e)) (Some v)) (iv_len k y3 I3)) as (r2 & E2 & _). rewrite E2. cbn [push_run push_step mbind outcome_bind].
    set (y4 := mkSys r2 [(Publish (wrap 64 e), e)] None (claimed y ++ [v]) (accepted y) (popped y)).
    assert (reach N y4) as R4.
    { eapply reach_step; [exact R3| |by apply Forall_singleton]. apply (step_fill N y3 [] v (wrap 64 e) e [] r2); [reflexivity|]. cbn [push_step ring y3]. rewrite A3. cbn [mbind outcome_bind]. by rewrite E2. }
    destruct (reach_ok y4 R4) as [I4 _]. pose proof (slot_at_ok k Hk r2 e (iv_len k y4 I4)) as A4. rewrite A4. cbn [mbind outcome_bind].
    destruct (set_slot_ok k Hk r2 e (mkSlot (wrap 64 (wrap 64 e + 1)) (cell (slotv k r2 e))) (iv_len k y4 I4)) as (r3 & E3 & _). rewrite E3. cbn [push_run push_step mbind outcome_bind].
    eexists (mkSys r3 [] None (claimed y ++ [v]) _ (popped y)). split; [reflexivity|]. split; [|split; [done|]].
    + eapply reach_step; [exact R4| |by constructor]. apply (step_publish N y4 [] (wrap 64 e) e [] r3); [reflexivity|]. cbn [push_step ring y4]. rewrite A4. cbn [mbind outcome_bind]. by rewrite E3.
    + unfold queue. cbn. apply drop_app_le. pose proof (iv_window k y HI) as HW. cbn zeta in HW. destruct Hq as [_ Ec]. rewrite Ec in HW. unfold count in HW. cbn in HW. lia.
  - destruct (gap_cases (e + 1 - N) e ltac:(lia)) as [-> ->]. replace (e + 1 - N =? e) with false by lia. replace (e + 1 - N <? e) with true by lia. reflexivity.
Qed.

Lemma pop_run_next fuel r at_ r' n : pop_step N r at_ = Ret (r', n) ->
  pop_run N (S fuel) r at_ = match n with inl at_ => pop_run N fuel r' at_ | inr o => Ret (r', o) end.
Proof. intros E. cbn [pop_run]. by rewrite E. Qed.

Lemma popping_step y at_ r' at_' : reach N y -> popper y = Some at_ -> pushes y = [] -> pop_step N (ring y) at_ = Ret (r', inl at_') ->
  reach N (mkSys r' [] (Some at_') (claimed y) (accepted y) (popped y)).
Proof. intros Hr Hc Hp E. eapply reach_step; [exact Hr| |by constructor]. rewrite <- Hp. by eapply step_popping. Qed.

Lemma pop_alone y : reach N y -> quiet y ->
  match queue y with
  | [] => pop N (ring y) = Ret (ring y, None)
  | v :: q => exists y', pop N (ring y) = Ret (ring y', Some v) /\ reach N y' /\ quiet y' /\ queue y' = q
  end.
Proof.
  intros Hr [Ep Ec]. destruct (reach_ok y Hr) as [HI _]. set (d := wrap 64 (count (popped y))).
  set (y1 := mkSys (ring y) [] (Some PopLoad) (claimed y) (accepted y) (popped y)). assert (reach N y1) as R1.
  { eapply reach_step; [exact Hr| |by constructor]. unfold y1. rewrite <- Ep. by apply step_pop. }
  assert (pop_step N (ring y) PopLoad = Ret (ring y, inl (PopTest d))) as E1 by (cbn; by rewrite (iv_deq k y HI)).
  pose proof (popping_step y1 _ _ _ R1 eq_refl eq_refl E1) as R2. set (y2 := mkSys _ _ _ _ _ _) in R2. destruct (reach_ok y2 R2) as [I2 _]. destruct (pop_test_spec k Hk y2 d I2 eq_refl) as (_ & Ht).
  change (pushes y2) with (@nil (pushing T * Z)) in Ht. change (claimed y2) with (claimed y) in Ht. change (popped y2) with (popped y) in Ht. change (ring y2) with (ring y) in Ht.
  unfold pop. rewrite (pop_run_next _ _ _ _ _ E1). pose proof (iv_window k y HI) as HW. cbn zeta in HW. rewrite Ec in HW. cbn [released] in HW. unfold count in HW.
  destruct Ht as [(Hd & _ & E2)|[[Hd|[]%elem_of_nil] E2]]; rewrite (pop_run_next _ _ _ _ _ E2).
  2: { unfold queue. unfold count in Hd. rewrite drop_ge by lia. done. }
  pose proof (popping_step y2 _ _ _ R2 eq_refl eq_refl E2) as R3. set (y3 := mkSys _ _ _ _ _ _) in R3. destruct (reach_ok y3 R3) as [I3 _].
  destruct (pop_read_spec k Hk y3 d I3 eq_refl) as (v & r3 & E3 & I4). change (ring y3) with (ring y) in E3. pose proof (popping_step y3 _ _ _ R3 eq_refl eq_refl E3) as R4. rewrite (pop_run_next _ _ _ _ _ E3).
  set (y4 := mkSys _ _ _ _ _ _) in R4. change (Inv k y4) in I4. destruct (pop_release_spec k Hk y4 d v I4 eq_refl) as (r4 & E4 & I5). change (ring y4) with r3 in E4. pose proof (popping_step y4 _ _ _ R4 eq_refl eq_refl E4) as R5. rewrite (pop_run_next _ _ _ _ _ E4).
  set (y5 := mkSys _ _ _ _ _ _) in R5. change (Inv k y5) in I5. destruct (pop_advance_spec k y5 d v I5 eq_refl) as (r5 & E5 & I6). change (ring y5) with r4 in E5. rewrite (pop_run_next _ _ _ _ _ E5).
  pose proof (iv_popper k y5 I5) as (_ & _ & Hv). change (claimed y5) with (claimed y) in Hv. change (popped y5) with (popped y) in Hv. unfold count in Hv. rewrite Nat2Z.id in Hv.
  unfold queue. rewrite (drop_S _ _ _ Hv). exists (mkSys r5 [] None (claimed y) (accepted y) (popped y ++ [v])). split; [reflexivity|]. split; [|split; [done|]].
  - eapply reach_step; [exact R5| |by constructor]. change [v] with (option_list (Some v)). by apply (step_popped N y5 (PopAdvance d v) r5 (Some v)).
  - unfold queue. cbn. rewrite length_app. cbn. by rewrite Nat.add_1_r.
Qed.

(** the ring with one call at a time is a bounded FIFO queue.  In every
    reachable state without a call in progress, [len] is the number of values
    queued, [push] appends unless [N] values are queued, when it gives the value
    back, [pop] takes the oldest, the states reached are again such states, and
    dropping the ring drops exactly the queued values. *)
Theorem mpsc_alone_fifo y v : reach N y -> quiet y ->
  len (ring y) = count (queue y) /\ Mpsc.drop N (ring y) = Ret (queue y) /\
  (if decide (count (queue y) < N)
   then exists y', push N (ring y) v = Ret (ring y', Pushed) /\ reach N y' /\ quiet y' /\ queue y' = queue y ++ [v]
   else push N (ring y) v = Ret (ring y, Refused v)) /\
  match queue y with
  | [] => pop N (ring y) = Ret (ring y, None)
  | x :: q => exists y', pop N (ring y) = Ret (ring y', Some x) /\ reach N y' /\ quiet y' /\ queue y' = q
  end.
Proof.
  intros Hr Hq. destruct (quiet_queue y (proj1 (reach_ok y Hr)) Hq) as (H1 & H2 & _). split; [done|]. split; [done|]. split; [by apply push_alone|by apply pop_alone].
Qed.

End thms.

(** The bound [N >= 2] is needed: a ring of one slot, which the constructor's
    assertion accepts, takes a second value over the first one, which is lost. *)
Theorem mpsc_one_slot_loses :
  ('(r, a) ← push 1 (new 1) 7; '(r, b) ← push 1 r 8; '(r, c) ← pop 1 r; '(r, d) ← pop 1 r; Ret (a, b, c, d)) = Ret (Pushed, Pushed, Some 8, None).
Proof. vm_compute. reflexivity. Qed.

(** ** Witnesses *)

Definition demo : sys Z := start (2 ^ 1).

(** Two pushes: the first has claimed position 0, the second is about to
    compare-exchange a position that is gone. *)
Definition two_slots (e : Z) (ps : list (pushing Z * Z)) (cl : list Z) : sys Z := mkSys (mkRing e 0 [mkSlot 0 None; mkSlot 1 None]) ps None cl [] [].
Definition contended : sys Z := two_slots 1 [(Fill 7 0, 0); (Claim 8 0, 0)] [7].

Lemma contended_reach : reach (2 ^ 1) contended.
Proof.
  assert (reach (2 ^ 1) (two_slots 0 [] [])) as R0 by exact (reach_start (2 ^ 1)).
  apply (reach_step _ (two_slots 0 [(Claim 7 0, 0); (Claim 8 0, 0)] [])); [|refine (step_claim _ (two_slots 0 _ []) [] 7 0 0 [(Claim 8 0, 0)] _ _ _); reflexivity|repeat constructor].
  apply (reach_step _ (two_slots 0 [(Claim 7 0, 0); (Test 8 0, 0)] [])); [|refine (step_test _ (two_slots 0 _ []) [(Claim 7 0, 0)] 8 0 0 [] (Claim 8 0) _ _); reflexivity|repeat constructor].
  apply (reach_step _ (two_slots 0 [(Test 7 0, 0); (Test 8 0, 0)] [])); [|refine (step_test _ (two_slots 0 _ []) [] 7 0 0 [(Test 8 0, 0)] (Claim 7 0) _ _); reflexivity|repeat constructor].
  apply (reach_step _ (two_slots 0 [(Test 7 0, 0); (Load 8, 0)] [])); [|refine (step_load _ (two_slots 0 _ []) [(Test 7 0, 0)] 8 0 [] 0 _ _); [reflexivity|vm_compute; split; congruence]|repeat constructor].
  apply (reach_step _ (two_slots 0 [(Load 7, 0); (Load 8, 0)] [])); [|refine (step_load _ (two_slots 0 _ []) [] 7 0 [(Load 8, 0)] 0 _ _); [reflexivity|vm_compute; split; congruence]|repeat constructor].
  apply (reach_step _ (two_slots 0 [(Load 7, 0)] [])); [|exact (step_begin _ (two_slots 0 [(Load 7, 0)] []) 8)|repeat constructor].
  apply (reach_step _ (two_slots 0 [] [])); [exact R0|exact (step_begin _ (two_slots 0 [] []) 7)|repeat constructor].
Qed.

Lemma mpsc_exactly_once_witness : NoDup (touching 1 contended) /\ [7] ≡ₚ accepted contended ++ in_flight contended /\ never_undefined 1 contended.
Proof. destruct (mpsc_exactly_once (T := Z) 1 ltac:(lia) contended contended_reach) as (H0 & H1 & _ & H2 & _). split; [exact H1|]. split; [exact H2|exact H0]. Defined.

Lemma mpsc_alone_fifo_witness : exists y', push (2 ^ 1) (ring demo) 7 = Ret (ring y', Pushed) /\ queue y' = [7].
Proof.
  destruct (mpsc_alone_fifo (T := Z) 1 ltac:(lia) demo 7 (reach_start _) ltac:(done)) as (_ & _ & H & _). destruct (decide (count (queue demo) < 2 ^ 1)) as [|n]; [|exfalso; apply n; reflexivity].
  destruct H as (y' & H1 & _ & _ & H2). exists y'. split; [exact H1|exact H2].
Defined.

End MpscThms.
