(* ===== verification/Park.v ===== *)
(** * Parking and cross-thread wakes

    [Endpoint] models src/crates/kwokka-runtime/src/worker/park/endpoint.rs, the
    word through which producers learn whether a worker is parked.  [Park] models
    one worker and everything that posts mail to it: the wake inbox and [signal]
    of worker/coordination/mailbox.rs, the steal and settled-note rings of
    worker/coordination/steal.rs ([report_settled_relocations] of
    runtime/drive/steal.rs posts the notes), the shutdown flag and
    [park_bracketed] of runtime/crew/stealing.rs, and the wake read armed on the
    worker's ring ([arm_wake] of runtime/drive/turn.rs).  Accesses to shared state are atomic
    steps in one order, which the sequentially consistent fences of the handshake
    provide. *)

From S2P Require Import Prelude IrBytes.
From stdpp Require Import base tactics option numbers list gmap.

Local Open Scope Z_scope.

Module Endpoint.

Record EndpointCell : Type := mkCell { signal : Z; ring_fd : Z }.

Definition PARKED : Z := 1.
Definition FD_SHIFT : Z := 32.

Record WakeTarget : Type := mkTarget { event_fd : Z; target_ring : option Z }.

Definition new : EndpointCell := mkCell 0 (-1).

Definition publish (self : EndpointCell) (event_fd : Z) (ring_fd : option Z) : EndpointCell :=
  let fd_bits := wrap U32 event_fd in
  let packed := wrap U64 (Z.shiftl (fd_bits + 1) FD_SHIFT) in
  mkCell packed (default (-1) ring_fd).

Definition withdraw (self : EndpointCell) : EndpointCell := mkCell 0 (-1).

Definition set_parked (self : EndpointCell) (is_parked : bool) : EndpointCell :=
  mkCell (if is_parked then Z.lor (signal self) PARKED else Z.land (signal self) (lnot U64 PARKED)) (ring_fd self).

Definition signal_target (self : EndpointCell) : option WakeTarget :=
  let packed := signal self in
  if Z.land packed PARKED =? 0 then None else
  let fd_plus_one := Z.shiftr packed FD_SHIFT in
  if fd_plus_one =? 0 then None else
  let fd_bits := wrap U32 (fd_plus_one - 1) in
  let event_fd := Region.i32_of fd_bits in
  let ring := ring_fd self in
  Some (mkTarget event_fd (if 0 <=? ring then Some ring else None)).

(** ** The word *)

(** The cell of a worker that published [fd], with its flag. *)
Definition word (fd : Z) (parked : bool) : Z := (wrap U32 fd + 1) * 2 ^ 32 + (if parked then 1 else 0).

Lemma wrap32_range fd : 0 <= wrap 32 fd < 2 ^ 32.
Proof. apply Z.mod_pos_bound. lia. Qed.

Lemma publish_word c fd ring : Region.i32_fits fd -> fd <> -1 -> signal (publish c fd ring) = word fd false.
Proof.
  intros Hf Hne. unfold publish, word. cbn [signal]. unfold FD_SHIFT. rewrite Z.shiftl_mul_pow2, Z.add_0_r by lia. apply wrap_id. pose proof (wrap32_range fd).
  assert (wrap 32 fd <> 2 ^ 32 - 1). { intros E. apply Hne. rewrite <- (Region.i32_of_wrap fd Hf), E. done. }
  unfold fits. lia.
Qed.

Lemma word_range fd b : Region.i32_fits fd -> fd <> -1 -> 2 ^ 32 <= word fd b < 2 ^ 64.
Proof.
  intros Hf Hne. unfold word. pose proof (wrap32_range fd). assert (wrap 32 fd <> 2 ^ 32 - 1). { intros E. apply Hne. rewrite <- (Region.i32_of_wrap fd Hf), E. done. }
  destruct b; lia.
Qed.

Lemma clear_low w : 0 <= w < 2 ^ 64 -> Z.land w (lnot 64 1) = w / 2 * 2.
Proof.
  intros Hw. transitivity (Z.ldiff w (Z.ones 1)); [|rewrite Z.ldiff_ones_r, Z.shiftl_mul_pow2, Z.shiftr_div_pow2 by lia; done].
  apply Z.bits_inj'. intros n Hn. unfold lnot. rewrite Z.land_spec, Z.lxor_spec, Z.ldiff_spec. change (2 ^ 64 - 1) with (Z.ones 64). change (Z.ones 1) with 1. destruct (Z.lt_ge_cases n 64).
  - rewrite (Z.ones_spec_low 64 n) by lia. by destruct (Z.testbit 1 n).
  - replace w with (w mod 2 ^ 64) by (by apply Z.mod_small). by rewrite Z.mod_pow2_bits_high by lia.
Qed.

Lemma word_parked fd b b' r : Region.i32_fits fd -> fd <> -1 -> set_parked (mkCell (word fd b) r) b' = mkCell (word fd b') r.
Proof.
  intros Hf Hne. unfold set_parked. f_equal. cbn [signal]. pose proof (word_range fd b Hf Hne) as Hw. destruct b'.
  - assert (forall c : bool, word fd c = Z.lor (Z.shiftl ((wrap 32 fd + 1) * 2 ^ 31) 1) (Z.b2z c)) as E.
    { intros c. rewrite lor_shiftl_add by (by destruct c). unfold word. destruct c; cbn [Z.b2z]; lia. }
    rewrite !E. rewrite <- Z.lor_assoc. by destruct b.
  - unfold PARKED. rewrite clear_low by lia. unfold word. destruct b.
    + replace ((wrap 32 fd + 1) * 2 ^ 32 + 1) with (1 + (wrap 32 fd + 1) * 2 ^ 31 * 2) by lia. rewrite Z.div_add by lia. change (1 / 2) with 0. lia.
    + rewrite Z.add_0_r. replace ((wrap 32 fd + 1) * 2 ^ 32) with ((wrap 32 fd + 1) * 2 ^ 31 * 2) at 1 by lia. rewrite Z.div_mul by lia. lia.
Qed.

Lemma word_target fd b r : Region.i32_fits fd -> fd <> -1 ->
  signal_target (mkCell (word fd b) r) = if b then Some (mkTarget fd (if 0 <=? r then Some r else None)) else None.
Proof.
  intros Hf Hne. unfold signal_target. cbn [signal ring_fd]. pose proof (word_range fd b Hf Hne) as Hw. pose proof (wrap32_range fd) as H32. unfold PARKED. change 1 with (Z.ones 1) at 1. rewrite Z.land_ones by lia.
  assert (word fd b mod 2 ^ 1 = Z.b2z b) as ->. { unfold word. replace ((wrap 32 fd + 1) * 2 ^ 32) with ((wrap 32 fd + 1) * 2 ^ 31 * 2 ^ 1) by lia. rewrite Z.add_comm, Z.mod_add by lia. by destruct b. }
  destruct b; [|done]. cbn [Z.b2z]. unfold FD_SHIFT. rewrite shiftr_div by lia. unfold word. rewrite Z.add_comm, Z.div_add by lia. rewrite Z.div_small by lia. rewrite Z.add_0_l.
  destruct (Z.eqb_spec (wrap 32 fd + 1) 0); [lia|]. replace (wrap 32 fd + 1 - 1) with (wrap 32 fd) by lia. f_equal. f_equal. rewrite wrap_id by exact H32. by apply Region.i32_of_wrap.
Qed.

End Endpoint.

Module Park.
Import Endpoint.

Definition INBOX_CAPACITY : nat := 256.
Definition STEAL_REQUEST_CAPACITY : nat := 8.
Definition HANDOFF_CAPACITY : nat := 2.
Definition SETTLED_NOTE_CAPACITY : nat := 256.

(** What other threads post to a worker. *)
Inductive mail : Type := Wake (task_ref : Z) | StealRequest | Handoff | Settled | Shutdown.

(** A thread posting mail: about to put it down, about to read the endpoint
    ([source]: whether the thread has a ring of its own), about to submit a
    [msg_ring] wake, about to write the eventfd. *)
Inductive post : Type :=
| Deliver (m : mail) (source : bool)
| Signal (source : bool)
| Submit (t : WakeTarget)
| WriteFd (t : WakeTarget).

Definition signalling (p : post) : bool := match p with Deliver _ _ => false | _ => true end.

Inductive cqe : Type := WakeRead | MsgWake | Io.

(** Where the worker is: inside a pass, at the steps of [park_bracketed], or
    waiting in [park]. *)
Inductive phase : Type := Passing | Raising | CheckShutdown | CheckInbox | CheckRings | Parking | Lowering.

Definition in_bracket (p : phase) : bool := match p with Passing | Raising => false | _ => true end.

(** [late] counts the notes put down since the flag was last raised; no step
    looks at it. *)
Record sys : Type := mkSys {
  cell : EndpointCell;
  inbox : list Z;
  steals : nat;
  handoffs : nat;
  shutdown : bool;
  counter : Z;
  reads : nat;
  cqes : list cqe;
  at_ : phase;
  posts : list post;
  notes : nat;
  late : nat;
}.

Definition set_mail i s h d y := mkSys (cell y) i s h d (counter y) (reads y) (cqes y) (at_ y) (posts y) (notes y) (late y).
Definition set_posts ps y := mkSys (cell y) (inbox y) (steals y) (handoffs y) (shutdown y) (counter y) (reads y) (cqes y) (at_ y) ps (notes y) (late y).
Definition set_phase p y := mkSys (cell y) (inbox y) (steals y) (handoffs y) (shutdown y) (counter y) (reads y) (cqes y) p (posts y) (notes y) (late y).
Definition set_cell c y := mkSys c (inbox y) (steals y) (handoffs y) (shutdown y) (counter y) (reads y) (cqes y) (at_ y) (posts y) (notes y) (late y).
Definition set_kernel n r q y := mkSys (cell y) (inbox y) (steals y) (handoffs y) (shutdown y) n r q (at_ y) (posts y) (notes y) (late y).
Definition set_notes n k y := mkSys (cell y) (inbox y) (steals y) (handoffs y) (shutdown y) (counter y) (reads y) (cqes y) (at_ y) (posts y) n k.

(** [registry::enqueue], [push_steal_request], [push_handoff], [push_settled] and
    the store of the shutdown flag: [None] when the ring is full. *)
Definition deliver (m : mail) (y : sys) : option sys :=
  match m with
  | Wake task_ref => if decide (length (inbox y) < INBOX_CAPACITY)%nat then Some (set_mail (inbox y ++ [task_ref]) (steals y) (handoffs y) (shutdown y) y) else None
  | StealRequest => if decide (steals y < STEAL_REQUEST_CAPACITY)%nat then Some (set_mail (inbox y) (S (steals y)) (handoffs y) (shutdown y) y) else None
  | Handoff => if decide (handoffs y < HANDOFF_CAPACITY)%nat then Some (set_mail (inbox y) (steals y) (S (handoffs y)) (shutdown y) y) else None
  | Settled => if decide (notes y < SETTLED_NOTE_CAPACITY)%nat then Some (set_notes (S (notes y)) (if in_bracket (at_ y) then S (late y) else late y) y) else None
  | Shutdown => Some (set_mail (inbox y) (steals y) (handoffs y) true y)
  end.

(** [registry::signal], from the load of the endpoint on. *)
Definition signal_step (source : bool) (y : sys) : option post :=
  match signal_target (cell y) with
  | None => None
  | Some target => Some (if source && match target_ring target with Some _ => true | None => false end then Submit target else WriteFd target)
  end.

(** [signal_wake_fd]: a full counter stays full. *)
Definition signal_wake_fd (n : Z) : Z := Z.min (n + 1) (2 ^ 64 - 2).

(** The circumstances: whether parks are bracketed, whether the ring accepts
    every arm of the wake read, whether a submitted [msg_ring] wake always
    reaches its target, and whether [block_on] is called on a runtime whose read
    is already armed. *)
Record env : Type := mkEnv { bracketed : bool; arms_accepted : bool; msgs_arrive : bool; reruns : bool }.

Section steps.
Context (e : env).

Inductive step : sys -> sys -> Prop :=
| post_begin y m source : step y (set_posts (posts y ++ [Deliver m source]) y)
| post_deliver y l1 m source l2 y' :
    posts y = l1 ++ Deliver m source :: l2 -> deliver m y = Some y' -> step y (set_posts (l1 ++ Signal source :: l2) y')
| post_bounce y l1 m source l2 :
    posts y = l1 ++ Deliver m source :: l2 -> deliver m y = None -> step y (set_posts (l1 ++ l2) y)
| post_signal y l1 source l2 :
    posts y = l1 ++ Signal source :: l2 -> step y (set_posts (l1 ++ option_list (signal_step source y) ++ l2) y)
| post_refused y l1 t l2 : posts y = l1 ++ Submit t :: l2 -> step y (set_posts (l1 ++ WriteFd t :: l2) y)
| post_arrives y l1 t l2 :
    posts y = l1 ++ Submit t :: l2 -> step y (set_posts (l1 ++ l2) (set_kernel (counter y) (reads y) (cqes y ++ [MsgWake]) y))
| post_lost y l1 t l2 :
    posts y = l1 ++ Submit t :: l2 -> msgs_arrive e = false -> step y (set_posts (l1 ++ l2) y)
| post_write y l1 t l2 :
    posts y = l1 ++ WriteFd t :: l2 -> step y (set_posts (l1 ++ l2) (set_kernel (signal_wake_fd (counter y)) (reads y) (cqes y) y))
| kernel_read y r : reads y = S r -> 0 < counter y -> step y (set_kernel 0 r (cqes y ++ [WakeRead]) y)
| kernel_io y : step y (set_kernel (counter y) (reads y) (cqes y ++ [Io]) y)
| pass_arm y q accepted : at_ y = Passing -> cqes y = WakeRead :: q -> (arms_accepted e = true -> accepted = true) ->
    step y (set_kernel (counter y) (if accepted : bool then S (reads y) else reads y) q y)
| pass_cqe y c q : at_ y = Passing -> cqes y = c :: q -> c <> WakeRead -> step y (set_kernel (counter y) (reads y) q y)
| pass_pop y r q : at_ y = Passing -> inbox y = r :: q -> step y (set_mail q (steals y) (handoffs y) (shutdown y) y)
| pass_serve y n : at_ y = Passing -> steals y = S n -> step y (set_mail (inbox y) n (handoffs y) (shutdown y) y)
| pass_receive y n : at_ y = Passing -> handoffs y = S n -> step y (set_mail (inbox y) (steals y) n (shutdown y) y)
| pass_note y n : at_ y = Passing -> notes y = S n -> step y (set_notes n (late y) y)
| pass_rerun y : at_ y = Passing -> reruns e = true -> step y (set_kernel (counter y) (S (reads y)) (cqes y) y)
| pass_idle y : at_ y = Passing -> step y (set_phase (if bracketed e then Raising else Parking) y)
| park_raise y : at_ y = Raising -> step y (set_phase CheckShutdown (set_notes (notes y) 0 (set_cell (set_parked (cell y) true) y)))
| park_shutdown y : at_ y = CheckShutdown -> step y (set_phase (if shutdown y then Lowering else CheckInbox) y)
| park_pop y r q : at_ y = CheckInbox -> inbox y = r :: q -> step y (set_phase Lowering (set_mail q (steals y) (handoffs y) (shutdown y) y))
| park_empty y : at_ y = CheckInbox -> inbox y = [] -> step y (set_phase CheckRings y)
| park_rings y : at_ y = CheckRings ->
    step y (set_phase (if decide (steals y = 0%nat /\ handoffs y = 0%nat) then Parking else Lowering) y)
| park_complete y : at_ y = Parking -> cqes y <> [] -> step y (set_phase (if bracketed e then Lowering else Passing) y)
| park_timeout y : at_ y = Parking -> step y (set_phase (if bracketed e then Lowering else Passing) y)
| park_lower y : at_ y = Lowering -> step y (set_phase Passing (set_cell (set_parked (cell y) false) y)).

Inductive reach (y0 : sys) : sys -> Prop :=
| reach_start : reach y0 y0
| reach_step y y' : reach y0 y -> step y y' -> reach y0 y'.

End steps.

(** A worker that has published its endpoint and armed its read. *)
Definition start (fd : Z) (ring : option Z) : sys := mkSys (publish new fd ring) [] 0 0 false 0 1 [] Passing [] 0 0.

(** The mail the bracket looks for before it waits; settled notes are not among
    it. *)
Definition pending (y : sys) : Prop := inbox y <> [] \/ steals y <> 0%nat \/ handoffs y <> 0%nat \/ shutdown y = true.

(** The wait in [park] ends: a completion is there, or the armed read will
    complete. *)
Definition wakes_up (y : sys) : Prop := cqes y <> [] \/ (0 < counter y /\ (0 < reads y)%nat).

(** ** The invariant *)

Fixpoint read_cqes (q : list cqe) : nat :=
  match q with [] => 0%nat | WakeRead :: q => S (read_cqes q) | _ :: q => read_cqes q end.

Definition alarm (y : sys) : Prop := cqes y <> [] \/ 0 < counter y \/ Exists (fun p => signalling p = true) (posts y).

(** The mail the bracket has already looked for, and the notes put down since the
    flag went up. *)
Definition checked (y : sys) : Prop :=
  (in_bracket (at_ y) = true /\ late y <> 0%nat) \/
  match at_ y with
  | CheckInbox => shutdown y = true
  | CheckRings => shutdown y = true \/ inbox y <> []
  | Parking => pending y
  | _ => False
  end.

Record Inv (fd : Z) (y : sys) : Prop := {
  iv_cell : signal (cell y) = word fd (in_bracket (at_ y));
  iv_reads : (reads y + read_cqes (cqes y))%nat = 1%nat;
  iv_counter : 0 <= counter y;
  iv_alarm : checked y -> alarm y;
}.

Lemma read_cqes_app q1 q2 : read_cqes (q1 ++ q2) = (read_cqes q1 + read_cqes q2)%nat.
Proof. induction q1 as [|[] q1 IH]; cbn; lia. Qed.

Section proof.
Context (fd : Z) (Hfit : Region.i32_fits fd) (Hne : fd <> -1).
Context (e : env) (Hb : bracketed e = true) (Ha : arms_accepted e = true) (Hm : msgs_arrive e = true) (Hr : reruns e = false).

Lemma cell_word y : Inv fd y -> cell y = mkCell (word fd (in_bracket (at_ y))) (ring_fd (cell y)).
Proof. intros HI. destruct (cell y) eqn:E. cbn. f_equal. pose proof (iv_cell fd y HI) as H. by rewrite E in H. Qed.

Lemma parked_word y b : Inv fd y -> set_parked (cell y) b = mkCell (word fd b) (ring_fd (cell y)).
Proof. intros HI. rewrite (cell_word y HI) at 1. by rewrite word_parked. Qed.

(** A post inside the bracket finds the flag raised. *)
Lemma signal_raised y source : Inv fd y -> in_bracket (at_ y) = true -> exists p, signal_step source y = Some p /\ signalling p = true.
Proof.
  intros HI Hin. unfold signal_step. rewrite (cell_word y HI), Hin, word_target by done. eexists. split; [done|]. by case_match.
Qed.

Lemma checked_bracket y : checked y -> in_bracket (at_ y) = true.
Proof. unfold checked. intros [[? _]|H]; [done|by destruct (at_ y)]. Qed.

(** The posts change; the mail and the worker stay. *)
Lemma posts_step y ps : Inv fd y -> (in_bracket (at_ y) = true -> Exists (fun p => signalling p = true) (posts y) -> Exists (fun p => signalling p = true) ps) -> Inv fd (set_posts ps y).
Proof.
  intros HI Hp. destruct HI as [IC IR IN IA]. split; cbn; try done. intros Hc. pose proof (checked_bracket y Hc) as Hin. destruct (IA Hc) as [H|[H|H]]; [by left|by right; left|right; right; auto].
Qed.

(** A completion is posted or the counter rises: an alarm either way. *)
Lemma kernel_step y n q : Inv fd y -> 0 <= n -> (reads y + read_cqes q)%nat = 1%nat -> (q <> [] \/ 0 < n) -> Inv fd (set_kernel n (reads y) q y).
Proof. intros [IC IR IN IA] Hn Hq Hal. split; cbn; try done. intros _. unfold alarm. cbn. tauto. Qed.

Lemma unchecked y : in_bracket (at_ y) = false -> checked y -> alarm y.
Proof. intros Hp Hc%checked_bracket. congruence. Qed.

Lemma deliver_inv y y1 l1 m source l2 : Inv fd y -> posts y = l1 ++ Deliver m source :: l2 -> deliver m y = Some y1 -> Inv fd (set_posts (l1 ++ Signal source :: l2) y1).
Proof.
  intros [IC IR IN IA] El Hd. assert (cell y1 = cell y /\ reads y1 = reads y /\ cqes y1 = cqes y /\ counter y1 = counter y /\ at_ y1 = at_ y) as (E1 & E2 & E3 & E4 & E5).
  { destruct m; cbn in Hd; try (destruct (decide _) in Hd; [|done]); by injection Hd as <-. }
  split; cbn; rewrite ?E1, ?E2, ?E3, ?E4, ?E5; try done. intros _. right. right. cbn. apply Exists_app. right. by apply Exists_cons_hd.
Qed.

(** The worker takes mail during a pass. *)
Lemma pass_step y i s h d : Inv fd y -> at_ y = Passing -> Inv fd (set_mail i s h d y).
Proof. intros [IC IR IN IA] Hp. split; cbn; try done. apply unchecked. cbn. by rewrite Hp. Qed.

Lemma note_step y n k : Inv fd y -> at_ y = Passing -> Inv fd (set_notes n k y).
Proof. intros [IC IR IN IA] Hp. split; cbn; try done. apply unchecked. cbn. by rewrite Hp. Qed.

(** The worker moves to the next step of the bracket: the alarm it needs now is
    for what it needed before, and for what the check just did not find. *)
Definition sought (p : phase) (y : sys) : Prop :=
  match p with
  | CheckInbox => shutdown y = true
  | CheckRings => shutdown y = true \/ inbox y <> []
  | Parking => pending y
  | _ => False
  end.

Lemma checked_sought y : checked y <-> (in_bracket (at_ y) = true /\ late y <> 0%nat) \/ sought (at_ y) y.
Proof. done. Qed.

Lemma phase_step y p : Inv fd y -> in_bracket p = in_bracket (at_ y) -> (sought p y -> checked y) -> Inv fd (set_phase p y).
Proof.
  intros [IC IR IN IA] Hp Hc. split; cbn; rewrite ?Hp; try done. intros [[Hin Hl]|Hs]; apply IA; [|by apply Hc]. left. cbn in *. by rewrite <- Hp.
Qed.

Lemma park_step_inv y y' : Inv fd y -> step e y y' -> Inv fd y'.
Proof.
  intros HI Hs. pose proof HI as [IC IR IN IA]. destruct Hs as [y m src|y l1 m src l2 y' El Hd|y l1 m src l2 El Hd|y l1 src l2 El|y l1 t l2 El|y l1 t l2 El|y l1 t l2 El Hx|y l1 t l2 El|y r Er Hc|y|y q acc Hp Hq Hacc|y c q Hp Hq Hc|y r q Hp Hq|y n Hp Hq|y n Hp Hq|y n Hp Hq|y Hp Hx|y Hp|y Hp|y Hp|y r q Hp Hq|y Hp Hq|y Hp|y Hp Hq|y Hp|y Hp].
  - apply posts_step; [done|]. intros _ H. apply Exists_app. by left.
  - by eapply deliver_inv.
  - apply posts_step; [done|]. intros _. rewrite El, !Exists_app, Exists_cons. cbn. intuition discriminate.
  - apply posts_step; [done|]. intros Hin _. destruct (signal_raised y src HI Hin) as (p & -> & Hp). apply Exists_app. right. by apply Exists_cons_hd.
  - apply posts_step; [done|]. intros _ _. apply Exists_app. right. by apply Exists_cons_hd.
  - destruct (kernel_step y (counter y) (cqes y ++ [MsgWake]) HI) as [IC' IR' IN' _]; [done|rewrite read_cqes_app; cbn; cbn; lia|left; by destruct (cqes y)|].
    split; cbn; try done. intros _. left. cbn. by destruct (cqes y).
  - congruence.
  - split; cbn; try done; [unfold signal_wake_fd; lia|]. intros _. right. left. cbn. unfold signal_wake_fd. lia.
  - split; cbn; try done; [rewrite read_cqes_app, Er in *; cbn in *; cbn; lia|]. intros _. left. cbn. by destruct (cqes y).
  - apply kernel_step; [done..|rewrite read_cqes_app; cbn; lia|left; by destruct (cqes y)].
  - rewrite (Hacc Ha). split; cbn; try done; [rewrite Hq in IR; cbn in *; lia|]. apply unchecked. cbn. by rewrite Hp.
  - split; cbn; try done; [rewrite Hq in IR; destruct c; cbn in *; done|]. apply unchecked. cbn. by rewrite Hp.
  - by apply pass_step.
  - by apply pass_step.
  - by apply pass_step.
  - by apply note_step.
  - congruence.
  - rewrite Hb. apply phase_step; [done|by rewrite Hp|done].
  - rewrite (parked_word y true HI). split; cbn; try done. by intros [[_ H]|H].
  - destruct (shutdown y) eqn:Hsd; (apply phase_step; [done|by rewrite Hp|]); cbn; [done|congruence].
  - split; cbn; try done; [by rewrite Hp in IC|]. intros [[_ Hl]|H]; [|done]. apply IA. left. by rewrite Hp.
  - apply phase_step; [done|by rewrite Hp|]. cbn. intros [H|H]; [|done]. right. by rewrite Hp.
  - case_decide as Hd; (apply phase_step; [done|by rewrite Hp|]); cbn; [|done]. unfold pending. intros H. right. rewrite Hp. destruct Hd. tauto.
  - rewrite Hb. apply phase_step; [done|by rewrite Hp|done].
  - rewrite Hb. apply phase_step; [done|by rewrite Hp|done].
  - rewrite (parked_word y false HI). split; cbn; try done. by intros [[? _]|H].
Qed.

Lemma park_start_inv ring : Inv fd (start fd ring).
Proof. split; [exact (publish_word new fd ring Hfit Hne)|done|done|by apply unchecked]. Qed.

Lemma park_reach_inv ring y : reach e (start fd ring) y -> Inv fd y.
Proof. induction 1; [apply park_start_inv|by eapply park_step_inv]. Qed.
End proof.


(** the endpoint word.  A published and parked worker resolves to exactly
    the descriptors it published, for every 32-bit descriptor but -1, whose
    packed form is the unpublished word; an unparked or withdrawn one resolves to
    nothing, also when the flag is raised after the withdrawal. *)
Theorem endpoint_roundtrip c fd ring :
  Region.i32_fits fd -> (forall r, ring = Some r -> 0 <= r) ->
  signal_target (set_parked (publish c fd ring) true) = (if decide (fd = -1) then None else Some (mkTarget fd ring)) /\
  signal_target (set_parked (set_parked (publish c fd ring) true) false) = None /\
  signal_target (set_parked (withdraw (publish c fd ring)) true) = None.
Proof.
  intros Hf Hring. split; [|split; [|done]].
  - case_decide as Hd; [by subst fd|]. assert (publish c fd ring = mkCell (word fd false) (default (-1) ring)) as -> by (rewrite <- (publish_word c fd ring) by done; done).
    rewrite word_parked, word_target by done. f_equal. f_equal. destruct ring as [r|]; cbn; [|done]. specialize (Hring r eq_refl). destruct (Z.leb_spec 0 r); [done|lia].
  - destruct (decide (fd = -1)) as [->|Hd]; [done|]. assert (publish c fd ring = mkCell (word fd false) (default (-1) ring)) as -> by (rewrite <- (publish_word c fd ring) by done; done).
    by rewrite !word_parked, word_target.
Qed.

Lemma endpoint_roundtrip_witness : signal_target (set_parked (publish new 0 (Some 9)) true) = Some (mkTarget 0 (Some 9)).
Proof.
  destruct (endpoint_roundtrip new 0 (Some 9)) as (H & _); [unfold Region.i32_fits; lia|intros r [= <-]; lia|].
  rewrite H. reflexivity.
Defined.

(** ** Runs *)

Inductive label : Type :=
| LBegin (m : mail) (source : bool) | LDeliver | LSignal | LLost | LWrite | LRead | LArm (accepted : bool) | LPop | LRerun
| LIdle | LRaise | LShutdown | LEmpty | LRings | LComplete | LLower.

#[global] Instance phase_dec : EqDecision phase.
Proof. solve_decision. Defined.

(** The step a label names, on the oldest post. *)
Definition exec (e : env) (l : label) (y : sys) : option sys :=
  let at_phase p o := if decide (at_ y = p) then o else None in
  match l with
  | LBegin m source => Some (set_posts (posts y ++ [Deliver m source]) y)
  | LDeliver => match posts y with Deliver m source :: l2 => y' ← deliver m y; Some (set_posts ([] ++ Signal source :: l2) y') | _ => None end
  | LSignal => match posts y with Signal source :: l2 => Some (set_posts ([] ++ option_list (signal_step source y) ++ l2) y) | _ => None end
  | LLost => match posts y with Submit t :: l2 => if msgs_arrive e then None else Some (set_posts ([] ++ l2) y) | _ => None end
  | LWrite => match posts y with WriteFd t :: l2 => Some (set_posts ([] ++ l2) (set_kernel (signal_wake_fd (counter y)) (reads y) (cqes y) y)) | _ => None end
  | LRead => match reads y with S r => if 0 <? counter y then Some (set_kernel 0 r (cqes y ++ [WakeRead]) y) else None | O => None end
  | LArm accepted => at_phase Passing (match cqes y with WakeRead :: q => if arms_accepted e && negb accepted then None else Some (set_kernel (counter y) (if accepted then S (reads y) else reads y) q y) | _ => None end)
  | LPop => at_phase Passing (match inbox y with _ :: q => Some (set_mail q (steals y) (handoffs y) (shutdown y) y) | [] => None end)
  | LRerun => at_phase Passing (if reruns e then Some (set_kernel (counter y) (S (reads y)) (cqes y) y) else None)
  | LIdle => at_phase Passing (Some (set_phase (if bracketed e then Raising else Parking) y))
  | LRaise => at_phase Raising (Some (set_phase CheckShutdown (set_notes (notes y) 0 (set_cell (set_parked (cell y) true) y))))
  | LShutdown => at_phase CheckShutdown (Some (set_phase (if shutdown y then Lowering else CheckInbox) y))
  | LEmpty => at_phase CheckInbox (match inbox y with [] => Some (set_phase CheckRings y) | _ => None end)
  | LRings => at_phase CheckRings (Some (set_phase (if decide (steals y = 0%nat /\ handoffs y = 0%nat) then Parking else Lowering) y))
  | LComplete => at_phase Parking (match cqes y with [] => None | _ => Some (set_phase (if bracketed e then Lowering else Passing) y) end)
  | LLower => at_phase Lowering (Some (set_phase Passing (set_cell (set_parked (cell y) false) y)))
  end.

Lemma park_exec_step e l y y' : exec e l y = Some y' -> step e y y'.
Proof.
  destruct l; cbn [exec]; intros H; repeat (case_decide; [|done]).
  - injection H as <-. constructor.
  - destruct (posts y) as [|[] l2] eqn:E; try done. apply bind_Some in H as (y1 & Hd & H). injection H as <-. by apply (post_deliver e y [] m source l2).
  - destruct (posts y) as [|[] l2] eqn:E; try done. injection H as <-. by apply (post_signal e y [] source l2).
  - destruct (posts y) as [|[] l2] eqn:E; try done. destruct (msgs_arrive e) eqn:Em; [done|]. injection H as <-. by eapply (post_lost e y []).
  - destruct (posts y) as [|[] l2] eqn:E; try done. injection H as <-. by eapply (post_write e y []).
  - destruct (reads y) eqn:E; [done|]. destruct (Z.ltb_spec 0 (counter y)); [|done]. injection H as <-. by apply kernel_read.
  - destruct (cqes y) as [|[] q] eqn:E; try done. destruct (arms_accepted e && negb accepted) eqn:Ea; [done|]. injection H as <-. apply pass_arm; [done..|]. intros E'. rewrite E' in Ea. by destruct accepted.
  - destruct (inbox y) as [|r q] eqn:E; [done|]. injection H as <-. by eapply pass_pop.
  - destruct (reruns e) eqn:E; [|done]. injection H as <-. by apply pass_rerun.
  - injection H as <-. by apply pass_idle.
  - injection H as <-. by apply park_raise.
  - injection H as <-. by apply park_shutdown.
  - destruct (inbox y) eqn:E; [|done]. injection H as <-. by apply park_empty.
  - injection H as <-. by apply park_rings.
  - destruct (cqes y) eqn:E; [done|]. injection H as <-. apply park_complete; [done|congruence].
  - injection H as <-. by apply park_lower.
Qed.

Definition run (e : env) (ls : list label) (y : sys) : option sys := foldl (fun o l => o ≫= exec e l) (Some y) ls.

Lemma park_run_reach e ls y0 y y' : reach e y0 y -> run e ls y = Some y' -> reach e y0 y'.
Proof.
  unfold run. revert y. induction ls as [|l ls IH]; cbn; intros y Hr H; [by injection H as <-|].
  destruct (exec e l y) as [y1|] eqn:E; cbn in H; [apply (IH y1); [by eapply reach_step, park_exec_step|done]|]. exfalso. revert H. clear. induction ls; cbn; [done|exact IHls].
Qed.

(** The worker waits, mail is there, and nothing will end the wait. *)
Definition stuck (y : sys) : Prop := at_ y = Parking /\ inbox y <> [] /\ posts y = [] /\ cqes y = [] /\ (counter y = 0 \/ reads y = 0%nat).

Definition bracket : list label := [LIdle; LRaise; LShutdown; LEmpty; LRings].

(** C37: each circumstance is needed.  A worker that parks without the bracket
    -- as [block_on] of the affine runtime does -- sleeps through a wake from
    another thread; so does one whose re-arm of the wake read was refused, and
    one whose [msg_ring] wake was submitted but failed; and running a second
    future on a runtime arms a second read while the first one is in flight. *)
Theorem park_disciplines_needed :
  (exists y, reach (mkEnv false true true false) (start 5 (Some 9)) y /\ stuck y) /\
  (exists y, reach (mkEnv true false true false) (start 5 (Some 9)) y /\ stuck y) /\
  (exists y, reach (mkEnv true true false false) (start 5 (Some 9)) y /\ stuck y) /\
  (exists y, reach (mkEnv true true true true) (start 5 (Some 9)) y /\ reads y = 2%nat).
Proof.
  split; [|split; [|split]].
  - eexists. split; [apply (park_run_reach _ [LIdle; LBegin (Wake 7) false; LDeliver; LSignal] _ _ _ (reach_start _ _)); vm_compute; reflexivity|]. vm_compute. intuition discriminate.
  - eexists. split; [apply (park_run_reach _ (bracket ++ [LBegin (Wake 7) false; LDeliver; LSignal; LWrite; LRead; LComplete; LLower; LArm false; LPop] ++ bracket ++ [LBegin (Wake 8) false; LDeliver; LSignal; LWrite]) _ _ _ (reach_start _ _)); vm_compute; reflexivity|].
    vm_compute. intuition discriminate.
  - eexists. split; [apply (park_run_reach _ (bracket ++ [LBegin (Wake 7) true; LDeliver; LSignal; LLost]) _ _ _ (reach_start _ _)); vm_compute; reflexivity|]. vm_compute. intuition discriminate.
  - eexists. split; [apply (park_run_reach _ [LRerun] _ _ _ (reach_start _ _)); vm_compute; reflexivity|]. reflexivity.
Qed.

(** A settled note put down between the last drain of a pass and the raising of
    the flag finds the worker unparked, so its signal is swallowed; the bracket
    does not look at the note ring, and the worker waits with the note there and
    nothing on its way, in the best of circumstances. *)
Theorem park_sleeps_through_note :
  exists y, reach (mkEnv true true true false) (start 5 (Some 9)) y /\ at_ y = Parking /\ notes y = 1%nat /\ posts y = [] /\ cqes y = [] /\ counter y = 0.
Proof.
  eexists. split; [apply (park_run_reach _ ([LBegin Settled true; LDeliver; LSignal] ++ bracket) _ _ _ (reach_start _ _)); vm_compute; reflexivity|]. by vm_compute.
Qed.


End Park.
