(* ===== verification/CancelInbox.v ===== *)
(** * Cancel inboxes and cancel sets

    Models src/crates/kwokka-io/src/boundary/cancel/inbox.rs: [CancelInbox],
    the inline ring of cancels for dropped buffered and multishot operations;
    [RecvCancelInbox], the ring of packed 11-byte records for dropped receive
    streams; and the three sets of tokens of dropped slotless operations,
    [AcceptCancelSet], [ProvidedRecvCancelSet] and [ConnectCancelSet], which
    share one layout ([Module CancelSet]).  [InboxRing] is what the rings
    promise their clients: a bounded queue that drops what does not fit. *)

From S2P Require Import Prelude IrBytes Bitmap IoTokens InflightSlab StreamRegistry MultishotSlab RecvSlab.
From Stdlib.Init Require Import Byte.
From stdpp Require Import base tactics option numbers list.

Local Open Scope Z_scope.

(** ** The inline ring *)

Module CancelInbox.
Import IoTokens.

Definition CANCEL_INBOX_CAPACITY : Z := Inflight.DEFAULT_INFLIGHT_CAP + Multishot.DEFAULT_MULTISHOT_CAP.

Record CancelInbox : Type := mkInbox { slots : list (option InflightSlotKey); head : Z; len : Z }.

Section ops.
Context (N : Z).

Definition new : CancelInbox := mkInbox (replicate (Z.to_nat N) None) 0 0.

(** A full ring drops the cancel. *)
Definition push_cancel (self : CancelInbox) (key : InflightSlotKey) : outcome CancelInbox :=
  if N <=? len self then Ret self else
  slots ← Bitmap.store (slots self) (Z.to_nat ((head self + len self) mod N)) (Some key);
  Ret (mkInbox slots (head self) (len self + 1)).

Definition pop (self : CancelInbox) : outcome (option InflightSlotKey * CancelInbox) :=
  if len self =? 0 then Ret (None, self) else
  key ← Bitmap.index (slots self) (Z.to_nat (head self));
  slots ← Bitmap.store (slots self) (Z.to_nat (head self)) None;
  Ret (key, mkInbox slots ((head self + 1) mod N) (len self - 1)).

End ops.
End CancelInbox.

(** ** The ring of packed records *)

Module RecvCancelInbox.
Import IoTokens Bytes.

Definition RECV_CANCEL_INBOX_CAPACITY : Z := RecvMultishot.DEFAULT_RECV_MULTISHOT_CAP.
Definition RECV_CANCEL_ENTRY_LEN : Z := 11.

Record RecvCancelInbox : Type := mkInbox { storage : list byte; head : Z; len : Z }.

Section ops.
Context (N : Z).

(** [MmapRegion::new] gives zeroed bytes, or fails. *)
Definition fresh : RecvCancelInbox := mkInbox (replicate (Z.to_nat (N * RECV_CANCEL_ENTRY_LEN)) x00) 0 0.
Definition new (mapped : bool) : option RecvCancelInbox := if mapped then Some fresh else None.

Definition push_cancel (self : RecvCancelInbox) (key : MultishotSlotKey) : outcome RecvCancelInbox :=
  if N <=? len self then Ret self else
  let index := (head self + len self) mod N in
  let offset := index * RECV_CANCEL_ENTRY_LEN in
  match get_range (storage self) offset (offset + RECV_CANCEL_ENTRY_LEN) with
  | None => Ret self
  | Some _ =>
      bytes ← copy_at (storage self) offset (le_encode 8 (ms_generation key));
      bytes ← copy_at bytes (offset + 8) (le_encode 2 (ms_slot key));
      bytes ← copy_at bytes (offset + 10) (le_encode 1 (ms_worker_id key));
      Ret (mkInbox bytes (head self) (len self + 1))
  end.

Definition pop (self : RecvCancelInbox) : outcome (option MultishotSlotKey * RecvCancelInbox) :=
  if len self =? 0 then Ret (None, self) else
  let offset := head self * RECV_CANCEL_ENTRY_LEN in
  match get_range (storage self) offset (offset + RECV_CANCEL_ENTRY_LEN) with
  | None => Ret (None, self)
  | Some record =>
      match get_range record 0 8, get_range record 8 10, get_range record 10 11 with
      | Some generation, Some slot, Some worker_id =>
          Ret (Some (mkMs (le_decode slot) (le_decode generation) (le_decode worker_id)),
               mkInbox (storage self) ((head self + 1) mod N) (len self - 1))
      | _, _, _ => Panic
      end
  end.

End ops.
End RecvCancelInbox.

(** ** The sets of cancelled tokens *)

Module CancelSet.

(** Tokens packed in [0, len). *)
Record CancelSet : Type := mkSet { tokens : list Z; len : Z }.

Section ops.
Context (N : Z).

Definition new : CancelSet := mkSet (replicate (Z.to_nat N) 0) 0.

Definition insert (self : CancelSet) (token : Z) : outcome CancelSet :=
  if len self <? N then
    tokens ← Bitmap.store (tokens self) (Z.to_nat (len self)) token;
    Ret (mkSet tokens (len self + 1))
  else Ret self.

Fixpoint take_from (fuel : nat) (self : CancelSet) (token index : Z) : outcome (bool * CancelSet) :=
  match fuel with
  | O => OutOfFuel
  | S fuel =>
      if negb (index <? len self) then Ret (false, self) else
      t ← Bitmap.index (tokens self) (Z.to_nat index);
      if t =? token then
        last ← Bitmap.index (tokens self) (Z.to_nat (len self - 1));
        tokens ← Bitmap.store (tokens self) (Z.to_nat index) last;
        Ret (true, mkSet tokens (len self - 1))
      else take_from fuel self token (index + 1)
  end.

(** The loop looks at [len] entries at most. *)
Definition take (self : CancelSet) (token : Z) : outcome (bool * CancelSet) :=
  take_from (S (Z.to_nat (len self))) self token 0.

Definition is_empty (self : CancelSet) : bool := len self =? 0.

End ops.
End CancelSet.

Module AcceptCancelSet.
Definition ACCEPT_CANCEL_CAPACITY : Z := 32.
Definition ACCEPT_CANCEL_SLOT : Z := 2 ^ 16 - 1.
Definition AcceptCancelSet : Type := CancelSet.CancelSet.
Definition new : AcceptCancelSet := CancelSet.new ACCEPT_CANCEL_CAPACITY.
Definition insert : AcceptCancelSet -> Z -> outcome AcceptCancelSet := CancelSet.insert ACCEPT_CANCEL_CAPACITY.
Definition take : AcceptCancelSet -> Z -> outcome (bool * AcceptCancelSet) := CancelSet.take.
Definition is_empty : AcceptCancelSet -> bool := CancelSet.is_empty.
End AcceptCancelSet.

Module ProvidedRecvCancelSet.
Definition PROVIDED_RECV_CANCEL_CAPACITY : Z := Inflight.DEFAULT_INFLIGHT_CAP.
Definition PROVIDED_RECV_CANCEL_SLOT : Z := 2 ^ 16 - 1 - 1.
Definition ProvidedRecvCancelSet : Type := CancelSet.CancelSet.
Definition new : ProvidedRecvCancelSet := CancelSet.new PROVIDED_RECV_CANCEL_CAPACITY.
Definition insert : ProvidedRecvCancelSet -> Z -> outcome ProvidedRecvCancelSet := CancelSet.insert PROVIDED_RECV_CANCEL_CAPACITY.
Definition take : ProvidedRecvCancelSet -> Z -> outcome (bool * ProvidedRecvCancelSet) := CancelSet.take.
Definition is_empty : ProvidedRecvCancelSet -> bool := CancelSet.is_empty.
End ProvidedRecvCancelSet.

Module ConnectCancelSet.
Definition CONNECT_CANCEL_CAPACITY : Z := 8.
Definition CONNECT_CANCEL_SLOT : Z := 2 ^ 16 - 1 - 2.
Definition ConnectCancelSet : Type := CancelSet.CancelSet.
Definition new : ConnectCancelSet := CancelSet.new CONNECT_CANCEL_CAPACITY.
Definition insert : ConnectCancelSet -> Z -> outcome ConnectCancelSet := CancelSet.insert CONNECT_CANCEL_CAPACITY.
Definition take : ConnectCancelSet -> Z -> outcome (bool * ConnectCancelSet) := CancelSet.take.
Definition is_empty : ConnectCancelSet -> bool := CancelSet.is_empty.
End ConnectCancelSet.

(** ** What the rings promise *)

(** [N] is the capacity. *)
Class InboxRing (N : Z) (R K : Type) := {
  ib_new : R;
  ib_push : R -> K -> outcome R;
  ib_pop : R -> outcome (option K * R);
}.

Module BoundedQueue.

(** A queue of at most [N] entries that drops what does not fit. *)
Definition push {K} (N : Z) (q : list K) (k : K) : list K := if Z.of_nat (length q) <? N then q ++ [k] else q.

Inductive op (K : Type) : Type := Push (k : K) | Pop.
Arguments Push {K} k.
Arguments Pop {K}.

Definition map_op {K L} (f : K -> L) (o : op K) : op L := match o with Push k => Push (f k) | Pop => Pop end.

(** The answers of the pops of a script. *)
Fixpoint answers {K} (N : Z) (q : list K) (ops : list (op K)) : list (option K) :=
  match ops with
  | [] => []
  | Push k :: ops => answers N (push N q k) ops
  | Pop :: ops => hd_error q :: answers N (tail q) ops
  end.

Fixpoint run {R K} (N : Z) `{InboxRing N R K} (r : R) (ops : list (op K)) : outcome (list (option K)) :=
  match ops with
  | [] => Ret []
  | Push k :: ops => r ← ib_push r k; run N r ops
  | Pop :: ops => '(k, r) ← ib_pop r; ks ← run N r ops; Ret (k :: ks)
  end.

End BoundedQueue.

Class InboxLaws (N : Z) (R K : Type) `{InboxRing N R K} (ok : K -> Prop) := {
  ib_holds : R -> list K -> Prop;
  ib_new_law : ib_holds ib_new [];
  ib_push_law r q k : ib_holds r q -> ok k -> exists r', ib_push r k = Ret r' /\ ib_holds r' (BoundedQueue.push N q k);
  ib_pop_law r q : ib_holds r q -> exists r', ib_pop r = Ret (hd_error q, r') /\ ib_holds r' (tail q);
}.

Module InboxClient.
Import BoundedQueue.

Section client.
Context {R K : Type} {N : Z} {ok : K -> Prop} `{L : InboxLaws N R K ok}.

Definition op_ok (o : op K) : Prop := match o with Push k => ok k | Pop => True end.

Lemma run_answers ops r q : ib_holds r q -> Forall op_ok ops -> run N r ops = Ret (answers N q ops).
Proof.
  revert r q. induction ops as [|[k|] ops IH]; intros r q Hr Hok; [done|..]; apply Forall_cons in Hok as [Ho Hok]; cbn [run answers].
  - destruct (ib_push_law r q k Hr Ho) as (r' & -> & Hr'). by apply IH.
  - destruct (ib_pop_law r q Hr) as (r' & -> & Hr'). cbn [mbind outcome_bind]. by rewrite (IH r' (tail q)).
Qed.

End client.

Lemma answers_map {K L} (f : K -> L) N (q : list K) (ops : list (op K)) : answers N (f <$> q) (map_op f <$> ops) = option_map f <$> answers N q ops.
Proof.
  revert q. induction ops as [|[k|] ops IH]; intros q; [done|..]; cbn [fmap list_fmap map_op answers].
  - rewrite <- IH. f_equal. unfold push. rewrite length_fmap. by destruct (_ <? _); [rewrite fmap_app|].
  - rewrite <- IH. by destruct q.
Qed.

Lemma answers_pushes {K} N (q l : list K) ops : Z.of_nat (length (q ++ l)) <= N -> answers N q ((Push <$> l) ++ ops) = answers N (q ++ l) ops.
Proof.
  revert q. induction l as [|k l IH]; intros q Hl; cbn [fmap list_fmap app answers]; [by rewrite app_nil_r|].
  rewrite length_app in Hl. cbn [length] in Hl. unfold push. destruct (Z.ltb_spec (Z.of_nat (length q)) N); [|lia].
  rewrite IH, <- app_assoc; [done|]. rewrite !length_app. cbn [length]. lia.
Qed.

Lemma answers_pops {K} N (q : list K) : answers N q (replicate (length q) Pop) = Some <$> q.
Proof. induction q as [|k q IH]; [done|]. cbn [length replicate answers hd_error tail fmap list_fmap]. by rewrite IH. Qed.

End InboxClient.

(** ** The rings keep the promise *)

Module InboxRings.
Import IoTokens Bytes Fifo.

Section rings.
Context (N : Z) (HN : 0 < N).

(** The cursors of a ring that holds [q], entry [i] of it [get i]. *)
Record cursors {K} (get : Z -> K) (head len : Z) (q : list K) : Prop := {
  cu_head : 0 <= head < N;
  cu_len : 0 <= len <= N;
  cu_queue : q = window N get head len;
}.

Lemma cursors_length {K} (get : Z -> K) head len q : cursors get head len q -> Z.of_nat (length q) = len.
Proof. intros [? ? ->]. apply length_window. lia. Qed.

Lemma cursors_push {K} (get get' : Z -> K) head len q k :
  cursors get head len q -> len < N -> (forall i, 0 <= i < N -> get' i = if decide (i = (head + len) mod N) then k else get i) ->
  cursors get' head (len + 1) (BoundedQueue.push N q k).
Proof.
  intros Hc Hl Hg. pose proof (cursors_length _ _ _ _ Hc) as Hq. destruct Hc as [Hh Hn ->]. split; [done|lia|].
  unfold BoundedQueue.push. rewrite Hq. destruct (Z.ltb_spec len N); [|lia]. rewrite <- window_push by lia.
  apply window_ext; [done|]. intros i Hi. by rewrite Hg.
Qed.

Lemma cursors_full {K} (get : Z -> K) head len q k : cursors get head len q -> N <= len -> BoundedQueue.push N q k = q.
Proof. intros Hc Hl. unfold BoundedQueue.push. rewrite (cursors_length _ _ _ _ Hc). destruct (Z.ltb_spec len N); [lia|done]. Qed.

Lemma cursors_pop {K} (get get' : Z -> K) head len q :
  cursors get head len q -> 0 < len -> (forall i, 0 <= i < N -> i <> head -> get' i = get i) ->
  hd_error q = Some (get head) /\ cursors get' ((head + 1) mod N) (len - 1) (tail q).
Proof.
  intros [Hh Hn ->] Hl Hg. rewrite window_pop by lia. split; [done|]. split; [apply Z.mod_pos_bound; lia|lia|].
  cbn [tail]. unfold window. apply list_fmap_ext. intros j i (-> & Hj)%lookup_seq. symmetry. apply Hg; [apply Z.mod_pos_bound; lia|].
  rewrite Zplus_mod_idemp_l. intros E. rewrite <- (Z.mod_small head N) in E at 2 by lia. rewrite <- (Z.add_0_r head) in E at 2.
  rewrite <- Z.add_assoc in E. apply cells_distinct in E; lia.
Qed.

Lemma cursors_empty {K} (get : Z -> K) head len q : cursors get head len q -> len = 0 -> q = [].
Proof. intros [_ _ ->] ->. done. Qed.

Lemma cursor_range head len : 0 <= (head + len) mod N < N.
Proof. apply Z.mod_pos_bound. lia. Qed.

Definition inline_at (r : CancelInbox.CancelInbox) (i : Z) : option InflightSlotKey := nth (Z.to_nat i) (CancelInbox.slots r) None.

Definition inline_holds (r : CancelInbox.CancelInbox) (q : list InflightSlotKey) : Prop :=
  Z.of_nat (length (CancelInbox.slots r)) = N /\ cursors (inline_at r) (CancelInbox.head r) (CancelInbox.len r) (Some <$> q).

Lemma inline_new : inline_holds (CancelInbox.new N) [].
Proof. split; [cbn; rewrite length_replicate; lia|]. split; cbn; [lia|lia|done]. Qed.

Lemma map_push {K L} (f : K -> L) q k : f <$> BoundedQueue.push N q k = BoundedQueue.push N (f <$> q) (f k).
Proof. unfold BoundedQueue.push. rewrite length_fmap. by destruct (_ <? _); [rewrite fmap_app|]. Qed.

Lemma inline_push r q k : inline_holds r q ->
  exists r', CancelInbox.push_cancel N r k = Ret r' /\ inline_holds r' (BoundedQueue.push N q k).
Proof.
  intros [Hs Hc]. unfold CancelInbox.push_cancel. destruct (Z.leb_spec N (CancelInbox.len r)) as [Hl|Hl].
  - eexists. split; [done|]. split; [done|]. by rewrite map_push, (cursors_full _ _ _ _ _ Hc Hl).
  - destruct (store_nth (CancelInbox.slots r) None ((CancelInbox.head r + CancelInbox.len r) mod N) (Some k)) as (l' & -> & Hl' & Hn);
      [unfold in_range; rewrite Hs; apply cursor_range|].
    eexists. split; [done|]. split; [cbn; lia|]. rewrite map_push. apply (cursors_push _ _ _ _ _ _ Hc Hl).
    intros i Hi. unfold inline_at. cbn. apply Hn. lia.
Qed.

Lemma inline_pop r q : inline_holds r q -> exists r', CancelInbox.pop N r = Ret (hd_error q, r') /\ inline_holds r' (tail q).
Proof.
  intros [Hs Hc]. unfold CancelInbox.pop. destruct (Z.eqb_spec (CancelInbox.len r) 0) as [Hl|Hl].
  - pose proof (cursors_empty _ _ _ _ Hc Hl) as ->%fmap_nil_inv. by eexists.
  - assert (Hr : in_range (length (CancelInbox.slots r)) (CancelInbox.head r)) by (unfold in_range; rewrite Hs; apply Hc).
    rewrite (index_nth _ None) by done. destruct (store_nth _ None _ None Hr) as (l' & E & Hl' & Hn). cbn [mbind outcome_bind]. rewrite E.
    destruct (cursors_pop (inline_at r) (inline_at (CancelInbox.mkInbox l' ((CancelInbox.head r + 1) mod N) (CancelInbox.len r - 1))) _ _ _ Hc) as [Hhd Htl];
      [destruct Hc; lia|intros i Hi Hne; unfold inline_at; cbn; rewrite Hn by lia; by rewrite decide_False|].
    destruct q as [|k q]; [done|]. injection Hhd as Hhd. unfold inline_at in Hhd. cbn [mbind outcome_bind]. rewrite <- Hhd.
    eexists. split; [done|]. split; [cbn; lia|]. exact Htl.
Qed.

Lemma get_range_sub l a b r c d : 0 <= a -> get_range l a b = Some r -> 0 <= c -> c <= d <= b - a -> get_range r c d = get_range l (a + c) (a + d).
Proof.
  intros H0 E Hc Hd. pose proof E as (Hl & Hb & Hh)%get_range_Some; [|done]. destruct (get_range_is_Some r c d) as [bs Hr]; [lia|].
  pose proof Hr as (Hl' & _ & Hh')%get_range_Some; [|done]. rewrite Hr. symmetry. apply get_range_holds; [lia|lia|].
  by apply (holds_trans l a r c bs).
Qed.

Definition packed_at (r : RecvCancelInbox.RecvCancelInbox) (i : Z) : MultishotSlotKey :=
  let read n o := Region.read_uint n (RecvCancelInbox.storage r) (i * 11 + o) in mkMs (read 2%nat 8) (read 8%nat 0) (read 1%nat 10).

Definition key_fits (k : MultishotSlotKey) : Prop := fits U16 (ms_slot k) /\ fits U64 (ms_generation k) /\ fits U8 (ms_worker_id k).

Definition packed_holds (r : RecvCancelInbox.RecvCancelInbox) (q : list MultishotSlotKey) : Prop :=
  zlen (RecvCancelInbox.storage r) = N * 11 /\ cursors (packed_at r) (RecvCancelInbox.head r) (RecvCancelInbox.len r) q.

Lemma packed_new : packed_holds (RecvCancelInbox.fresh N) [].
Proof. split; [unfold zlen; cbn; rewrite length_replicate; unfold RecvCancelInbox.RECV_CANCEL_ENTRY_LEN; lia|]. split; cbn; [lia|lia|done]. Qed.

Lemma packed_push r q k : packed_holds r q -> key_fits k ->
  exists r', RecvCancelInbox.push_cancel N r k = Ret r' /\ packed_holds r' (BoundedQueue.push N q k).
Proof.
  intros [Hs Hc] (Fs & Fg & Fw). unfold RecvCancelInbox.push_cancel. destruct (Z.leb_spec N (RecvCancelInbox.len r)) as [Hl|Hl].
  { eexists. split; [done|]. split; [done|]. by rewrite (cursors_full _ _ _ _ _ Hc Hl). }
  pose proof (cursor_range (RecvCancelInbox.head r) (RecvCancelInbox.len r)) as Hi. set (i := (RecvCancelInbox.head r + RecvCancelInbox.len r) mod N) in *.
  cbv zeta. unfold RecvCancelInbox.RECV_CANCEL_ENTRY_LEN. destruct (get_range_is_Some (RecvCancelInbox.storage r) (i * 11) (i * 11 + 11)) as [bs ->]; [nia|].
  rewrite Region.copy_write by (cbn; nia). cbn [mbind outcome_bind].
  rewrite Region.copy_write by (rewrite ?Region.zlen_write by lia; cbn; nia). cbn [mbind outcome_bind].
  rewrite Region.copy_write by (rewrite ?Region.zlen_write by lia; cbn; nia). cbn [mbind outcome_bind].
  eexists. split; [done|]. split; [cbn [RecvCancelInbox.storage]; by rewrite !Region.zlen_write by lia|].
  apply (cursors_push _ _ _ _ _ _ Hc Hl). fold i. intros j Hj. unfold packed_at. cbn [RecvCancelInbox.storage]. rewrite !Z.add_0_r. case_decide as Hd.
  - subst j. destruct k as [ks kg kw]. f_equal.
    + rewrite Region.read_write_other by lia. apply Region.read_write_same; [lia|rewrite Region.zlen_write by lia; cbn; nia|done].
    + rewrite 2!Region.read_write_other by lia. apply Region.read_write_same; [lia|cbn; nia|done].
    + apply Region.read_write_same; [lia|rewrite !Region.zlen_write by lia; cbn; nia|done].
  - f_equal; rewrite !Region.read_write_other by (cbn; nia); done.
Qed.

Lemma packed_pop r q : packed_holds r q -> exists r', RecvCancelInbox.pop N r = Ret (hd_error q, r') /\ packed_holds r' (tail q).
Proof.
  intros [Hs Hc]. unfold RecvCancelInbox.pop. destruct (Z.eqb_spec (RecvCancelInbox.len r) 0) as [Hl|Hl].
  { pose proof (cursors_empty _ _ _ _ Hc Hl) as ->. by eexists. }
  pose proof (cu_head _ _ _ _ Hc) as Hh. set (h := RecvCancelInbox.head r) in *. cbv zeta. unfold RecvCancelInbox.RECV_CANCEL_ENTRY_LEN.
  destruct (get_range_is_Some (RecvCancelInbox.storage r) (h * 11) (h * 11 + 11)) as [bs E]; [nia|]. rewrite E.
  assert (H0 : 0 <= h * 11) by lia.
  rewrite (get_range_sub _ _ _ _ 0 8 H0 E), (get_range_sub _ _ _ _ 8 10 H0 E), (get_range_sub _ _ _ _ 10 11 H0 E) by lia.
  destruct (Region.get_read 8 (RecvCancelInbox.storage r) (h * 11 + 0)) as (b1 & E1 & D1); [lia|cbn; nia|].
  destruct (Region.get_read 2 (RecvCancelInbox.storage r) (h * 11 + 8)) as (b2 & E2 & D2); [lia|cbn; nia|].
  destruct (Region.get_read 1 (RecvCancelInbox.storage r) (h * 11 + 10)) as (b3 & E3 & D3); [lia|cbn; nia|].
  rewrite <- Z.add_assoc in E1, E2, E3. change (0 + Z.of_nat 8) with 8 in E1. change (8 + Z.of_nat 2) with 10 in E2. change (10 + Z.of_nat 1) with 11 in E3.
  rewrite E1, E2, E3, D1, D2, D3.
  destruct (cursors_pop (packed_at r) (packed_at r) _ _ _ Hc) as [Hhd Htl]; [destruct Hc; lia|done|].
  eexists. split; [by rewrite Hhd|]. by split.
Qed.

#[global] Instance inline_ring : InboxRing N CancelInbox.CancelInbox InflightSlotKey :=
  {| ib_new := CancelInbox.new N; ib_push := CancelInbox.push_cancel N; ib_pop := CancelInbox.pop N |}.

#[global] Instance packed_ring : InboxRing N RecvCancelInbox.RecvCancelInbox MultishotSlotKey :=
  {| ib_new := RecvCancelInbox.fresh N; ib_push := RecvCancelInbox.push_cancel N; ib_pop := RecvCancelInbox.pop N |}.

#[global] Instance inline_laws : InboxLaws N CancelInbox.CancelInbox InflightSlotKey (fun _ => True) :=
  {| ib_holds := inline_holds; ib_new_law := inline_new; ib_push_law r q k H _ := inline_push r q k H; ib_pop_law := inline_pop |}.

#[global] Instance packed_laws : InboxLaws N RecvCancelInbox.RecvCancelInbox MultishotSlotKey key_fits :=
  {| ib_holds := packed_holds; ib_new_law := packed_new; ib_push_law := packed_push; ib_pop_law := packed_pop |}.

End rings.
End InboxRings.

(** ** The sets are multisets *)

Module CancelSetSpec.
Import CancelSet Fifo.

Section sets.
Context (N : Z) (HN : 0 <= N).

(** [self] holds the tokens [l], in any order. *)
Definition holds (self : CancelSet) (l : list Z) : Prop :=
  Z.of_nat (length (tokens self)) = N /\ 0 <= len self <= N /\ list.take (Z.to_nat (len self)) (tokens self) ≡ₚ l.

Lemma set_new : holds (new N) [].
Proof. split; [cbn; rewrite length_replicate; lia|]. split; [cbn; lia|]. done. Qed.

Lemma set_length self l : holds self l -> Z.of_nat (length l) = len self.
Proof. intros (Hl & Hn & <-). rewrite length_take. lia. Qed.

Lemma set_insert self l t : holds self l ->
  exists self', insert N self t = Ret self' /\ holds self' (if Z.of_nat (length l) <? N then t :: l else l).
Proof.
  intros H. pose proof (set_length _ _ H) as Hs. destruct H as (Hl & Hn & Hp). unfold insert. rewrite Hs.
  destruct (Z.ltb_spec (len self) N); [|eexists; split; [done|]; done].
  unfold Bitmap.store. rewrite decide_True by lia. eexists. split; [done|]. split; [cbn [tokens]; by rewrite length_insert|]. cbn [tokens len]. split; [lia|].
  replace (Z.to_nat (len self + 1)) with (S (Z.to_nat (len self))) by lia.
  rewrite (take_S_r _ _ t) by (apply list_lookup_insert_eq; lia). rewrite take_insert_ge by lia. rewrite Hp. apply Permutation_app_comm.
Qed.

(** Replacing an entry of the prefix by its last one removes it. *)
Lemma swap_remove (l : list Z) (i n : nat) x y : (i <= n)%nat -> l !! i = Some x -> l !! n = Some y ->
  list.take (S n) l ≡ₚ x :: list.take n (<[i := y]> l).
Proof.
  intros Hi Hx Hy. rewrite (take_S_r _ _ _ Hy). destruct (decide (i = n)) as [->|Hne].
  - rewrite take_insert_ge by lia. assert (x = y) as -> by congruence. apply Permutation_app_comm.
  - assert (Hp : list.take n l !! i = Some x) by (rewrite lookup_take_lt; [done|lia]).
    rewrite <- (take_drop_middle _ _ _ Hp) at 1. rewrite take_insert_lt by lia. rewrite insert_take_drop by (by eapply lookup_lt_Some).
    rewrite <- app_assoc. cbn [app]. rewrite <- (Permutation_middle _ _ x). apply perm_skip, Permutation_app_head. symmetry. apply Permutation_cons_append.
Qed.

Lemma index_hit (l : list Z) i x : l !! i = Some x -> Bitmap.index l i = Ret x.
Proof. intros H. unfold Bitmap.index. by rewrite H. Qed.

Lemma take_from_spec self l t fuel index : holds self l -> 0 <= index <= len self -> Z.of_nat fuel > len self - index ->
  (forall j x, (j < Z.to_nat index)%nat -> tokens self !! j = Some x -> x <> t) ->
  exists self', take_from fuel self t index = Ret (bool_decide (t ∈ l), self') /\
    (if decide (t ∈ l) then exists l', l ≡ₚ t :: l' /\ holds self' l' else self' = self).
Proof.
  intros H. pose proof H as (Hl & Hn & Hp). revert index. induction fuel as [|fuel IH]; intros index Hi Hf Hb; [lia|]. cbn [take_from].
  destruct (Z.ltb_spec index (len self)) as [Hlt|Hge]; cbn [negb].
  - destruct (lookup_lt_is_Some_2 (tokens self) (Z.to_nat index)) as [x Hx]; [lia|]. rewrite (index_hit _ _ _ Hx). cbn [mbind outcome_bind].
    destruct (Z.eqb_spec x t) as [->|Hne].
    + destruct (lookup_lt_is_Some_2 (tokens self) (Z.to_nat (len self - 1))) as [y Hy]; [lia|]. rewrite (index_hit _ _ _ Hy). cbn [mbind outcome_bind].
      unfold Bitmap.store. rewrite decide_True by lia. cbn [mbind outcome_bind].
      pose proof (swap_remove (tokens self) (Z.to_nat index) (Z.to_nat (len self - 1)) t y ltac:(lia) Hx Hy) as Hsw.
      replace (S (Z.to_nat (len self - 1))) with (Z.to_nat (len self)) in Hsw by lia. rewrite Hp in Hsw.
      assert (Hin : t ∈ l) by (rewrite Hsw; left). rewrite bool_decide_true by done. eexists. split; [done|]. rewrite decide_True by done.
      eexists. split; [exact Hsw|]. split; [cbn; by rewrite length_insert|]. split; [cbn; lia|]. done.
    + apply IH; [lia|lia|]. intros j z Hj Hz. destruct (decide (j = Z.to_nat index)) as [->|]; [congruence|]. apply (Hb j); [lia|done].
  - assert (Hin : t ∉ l).
    { rewrite <- Hp. intros (j & Hj)%list_elem_of_lookup. apply lookup_take_Some in Hj as [Hj Hlt]. apply (Hb j t); [lia|done|done]. }
    rewrite bool_decide_false by done. eexists. split; [done|]. by rewrite decide_False.
Qed.

Lemma set_take self l t : holds self l ->
  exists self', take self t = Ret (bool_decide (t ∈ l), self') /\
    (if decide (t ∈ l) then exists l', l ≡ₚ t :: l' /\ holds self' l' else self' = self).
Proof. intros H. pose proof H as (_ & Hn & _). apply take_from_spec; [done|lia|lia|]. intros j x Hj. lia. Qed.

Lemma set_is_empty self l : holds self l -> is_empty self = bool_decide (l = []).
Proof.
  intros H. pose proof (set_length _ _ H) as Hs. unfold is_empty. rewrite <- Hs. by destruct l.
Qed.

End sets.
End CancelSetSpec.

Module CancelThms.
Import IoTokens BoundedQueue InboxClient InboxRings.

(** The key the inline ring would hold for a receive stream. *)
Definition as_inline (k : MultishotSlotKey) : InflightSlotKey := mkKey (ms_slot k) (ms_generation k) (ms_worker_id k) 0.

(** C38: The ring of packed 11-byte records and the inline ring of keys are the
    same queue: on every script of pushes and pops, with keys of their machine
    widths, neither panics, both give the same answers in the same order, and
    the answers are those of a queue of [N] entries that drops what does not
    fit. *)
Theorem cancel_rings_equivalent N (ops : list (op MultishotSlotKey)) : 0 < N -> Forall (op_ok (ok := key_fits)) ops ->
  run N (RecvCancelInbox.fresh N) ops = Ret (answers N [] ops) /\
  run N (CancelInbox.new N) (map_op as_inline <$> ops) = Ret (option_map as_inline <$> answers N [] ops).
Proof.
  intros HN Hok. split.
  - by apply (run_answers (L := packed_laws N HN) ops (RecvCancelInbox.fresh N) [] (packed_new N HN)).
  - rewrite <- answers_map. apply (run_answers (L := inline_laws N HN) (map_op as_inline <$> ops) (CancelInbox.new N) [] (inline_new N HN)).
    apply Forall_fmap, Forall_true. by intros [].
Qed.

Lemma cancel_rings_equivalent_witness :
  let key i := mkMs i (2 ^ 40 + i) 3 in
  let ops := [Push (key 1); Push (key 2); Pop; Push (key 3); Push (key 4); Pop; Pop; Pop] in
  answers 2 [] ops = [Some (key 1); Some (key 2); Some (key 3); None] /\ run 2 (RecvCancelInbox.fresh 2) ops = Ret (answers 2 [] ops).
Proof.
  split; [reflexivity|]. refine (proj1 (cancel_rings_equivalent 2 _ _ _)); [reflexivity|].
  repeat (apply Forall_cons; split; [vm_compute; intuition discriminate|]). apply Forall_nil. exact I.
Defined.

(** One key per occupied slot of a registry of [cap] slots. *)
Definition slab_keys {K} (slot : K -> Z) (cap : Z) (ks : list K) : Prop := NoDup (slot <$> ks) /\ Forall (fun k => 0 <= slot k < cap) ks.

Lemma slab_keys_bound {K} (slot : K -> Z) cap (ks : list K) : 0 <= cap -> slab_keys slot cap ks -> Z.of_nat (length ks) <= cap.
Proof.
  intros Hc [Hn Hf]. rewrite <- (length_fmap slot). rewrite <- (Z2Nat.id cap) by done. apply Nat2Z.inj_le.
  rewrite <- (length_seqZ 0 cap). apply submseteq_length, NoDup_submseteq; [done|]. intros x (k & -> & Hk)%list_elem_of_fmap.
  rewrite Forall_forall in Hf. specialize (Hf k Hk). apply elem_of_seqZ. lia.
Qed.

(** C39: No cancel of a registry-backed operation is lost.  Between two drains
    each occupied slot of the buffer registry, of the accept registry and of
    the receive registry can queue one cancel; whatever the order in which
    they are queued, the two rings hold them all, and the drain pops each of
    them, oldest first. *)
Theorem cancel_capacity_suffices (ks l : list InflightSlotKey) (ms rs : list MultishotSlotKey) :
  slab_keys slot Inflight.DEFAULT_INFLIGHT_CAP ks -> slab_keys ms_slot Multishot.DEFAULT_MULTISHOT_CAP ms ->
  slab_keys ms_slot RecvMultishot.DEFAULT_RECV_MULTISHOT_CAP rs -> Forall key_fits rs ->
  l ≡ₚ ks ++ (Multishot.multishot_cancel_key <$> ms) ->
  run CancelInbox.CANCEL_INBOX_CAPACITY (CancelInbox.new CancelInbox.CANCEL_INBOX_CAPACITY) ((Push <$> l) ++ replicate (length l) Pop) = Ret (Some <$> l) /\
  run RecvCancelInbox.RECV_CANCEL_INBOX_CAPACITY (RecvCancelInbox.fresh RecvCancelInbox.RECV_CANCEL_INBOX_CAPACITY) ((Push <$> rs) ++ replicate (length rs) Pop) = Ret (Some <$> rs).
Proof.
  intros Hk%slab_keys_bound Hm%slab_keys_bound Hr%slab_keys_bound Hf Hl; [|done..]. assert (Hn : Z.of_nat (length l) <= CancelInbox.CANCEL_INBOX_CAPACITY).
  { rewrite Hl, length_app, length_fmap. unfold CancelInbox.CANCEL_INBOX_CAPACITY. lia. }
  assert (H1 : 0 < CancelInbox.CANCEL_INBOX_CAPACITY) by done. assert (H2 : 0 < RecvCancelInbox.RECV_CANCEL_INBOX_CAPACITY) by done. split.
  - rewrite (run_answers (L := inline_laws _ H1) _ _ [] (inline_new _ H1));
      [by rewrite answers_pushes, answers_pops|]. apply Forall_true. by intros [].
  - rewrite (run_answers (L := packed_laws _ H2) _ _ [] (packed_new _ H2));
      [by rewrite answers_pushes, answers_pops|]. apply Forall_app. split; [by apply Forall_fmap|]. by apply Forall_replicate.
Qed.

Lemma cancel_capacity_suffices_witness :
  let ks := [mkKey 0 1 3 70; mkKey 255 2 3 71] in let ms := [mkMs 7 1 3] in
  run CancelInbox.CANCEL_INBOX_CAPACITY (CancelInbox.new CancelInbox.CANCEL_INBOX_CAPACITY)
    ((Push <$> (ks ++ (Multishot.multishot_cancel_key <$> ms))) ++ replicate 3 Pop) = Ret (Some <$> (ks ++ (Multishot.multishot_cancel_key <$> ms))).
Proof.
  refine (proj1 (cancel_capacity_suffices [mkKey 0 1 3 70; mkKey 255 2 3 71] _ [mkMs 7 1 3] [] _ _ _ _ _));
    [apply (bool_decide_unpack _); vm_compute; exact I..|reflexivity].
Defined.

End CancelThms.
