(* ===== verification/CancelRoute.v ===== *)
(** * Cancels of dropped operations: queueing, routing and disposal

    Models src/crates/kwokka-io/src/boundary/seam/cancel.rs (the queueing of a
    cancel by a dropped future), the cancel half of
    src/crates/kwokka-io/src/boundary/seam/drain.rs ([submit_accept_cancel] to
    [dispose_cancelled_op]), [drain_cancels] of
    src/crates/kwokka-runtime/src/runtime/drive/turn.rs, and the futures of
    slotless operations: [AcceptFuture] and [ConnectFuture]
    (src/crates/kwokka-net/src/tcp/accept.rs and connect.rs) and
    [ProvidedRecvFuture] (src/crates/kwokka-io/src/operation/future/provided.rs).

    A submission through the driver is the answer it gives ([accepted] for the
    best-effort cancels); closed descriptors and recycled buffers are
    returned. *)

From S2P Require Import Prelude IrBytes Bitmap IoTokens InflightSlab Seam StreamRegistry MultishotSlab RecvSlab CancelInbox.
From stdpp Require Import base tactics option numbers list.

Local Open Scope Z_scope.

(** ** The keys a dropped future queues *)

Module CancelKey.
Import IoTokens AcceptCancelSet ProvidedRecvCancelSet ConnectCancelSet.

Definition accept_cancel_key (worker_id token : Z) : InflightSlotKey := mkKey ACCEPT_CANCEL_SLOT 0 worker_id token.
Definition provided_recv_cancel_key (worker_id token : Z) : InflightSlotKey := mkKey PROVIDED_RECV_CANCEL_SLOT 0 worker_id token.
Definition connect_cancel_key (worker_id token : Z) : InflightSlotKey := mkKey CONNECT_CANCEL_SLOT 0 worker_id token.

End CancelKey.

(** ** Routing and disposal *)

Module CancelRoute.
Import IoTokens Inflight Multishot.

(** The worker's registries a cancel can reach. *)
Record cancels : Type := mkCancels {
  inflight : InflightBufSlab;
  multishot : MultishotSlab;
  accepts : AcceptCancelSet.AcceptCancelSet;
  provided_recvs : ProvidedRecvCancelSet.ProvidedRecvCancelSet;
  connects : ConnectCancelSet.ConnectCancelSet;
}.

Definition set_inflight x s := mkCancels x (multishot s) (accepts s) (provided_recvs s) (connects s).
Definition set_multishot x s := mkCancels (inflight s) x (accepts s) (provided_recvs s) (connects s).
Definition set_accepts x s := mkCancels (inflight s) (multishot s) x (provided_recvs s) (connects s).
Definition set_provided x s := mkCancels (inflight s) (multishot s) (accepts s) x (connects s).
Definition set_connects x s := mkCancels (inflight s) (multishot s) (accepts s) (provided_recvs s) x.

(** The cancel request: the [user_data] it targets and its own. *)
Definition cancel_request (accepted : bool) (key : InflightSlotKey) : option (Z * Z) :=
  if accepted then Some (op_token key, encode_cancel_sentinel key) else None.

Definition submit_accept_cancel (accepted : bool) (accepts : AcceptCancelSet.AcceptCancelSet) (key : InflightSlotKey)
    : outcome (AcceptCancelSet.AcceptCancelSet * option (Z * Z)) :=
  accepts ← AcceptCancelSet.insert accepts (op_token key); Ret (accepts, cancel_request accepted key).

Definition submit_provided_recv_cancel (accepted : bool) (cancels : ProvidedRecvCancelSet.ProvidedRecvCancelSet) (key : InflightSlotKey)
    : outcome (ProvidedRecvCancelSet.ProvidedRecvCancelSet * option (Z * Z)) :=
  cancels ← ProvidedRecvCancelSet.insert cancels (op_token key); Ret (cancels, cancel_request accepted key).

Definition submit_connect_cancel (accepted : bool) (connects : ConnectCancelSet.ConnectCancelSet) (key : InflightSlotKey)
    : outcome (ConnectCancelSet.ConnectCancelSet * option (Z * Z)) :=
  connects ← ConnectCancelSet.insert connects (op_token key); Ret (connects, cancel_request accepted key).

(** The registries after the cancel, the descriptors closed and the request
    that reached the kernel. *)
Definition submit_cancel_for (accepted : bool) (s : cancels) (key : InflightSlotKey) : outcome (cancels * list Z * option (Z * Z)) :=
  if is_multishot_sentinel (op_token key) then
    '(m, closed, sent) ← submit_multishot_cancel accepted (multishot s) key;
    Ret (set_multishot m s, closed, match sent with Some t => Some (t, t) | None => None end)
  else if slot key =? AcceptCancelSet.ACCEPT_CANCEL_SLOT then
    '(x, sent) ← submit_accept_cancel accepted (accepts s) key; Ret (set_accepts x s, [], sent)
  else if slot key =? ProvidedRecvCancelSet.PROVIDED_RECV_CANCEL_SLOT then
    '(x, sent) ← submit_provided_recv_cancel accepted (provided_recvs s) key; Ret (set_provided x s, [], sent)
  else if slot key =? ConnectCancelSet.CONNECT_CANCEL_SLOT then
    '(x, sent) ← submit_connect_cancel accepted (connects s) key; Ret (set_connects x s, [], sent)
  else
    '(x, sent) ← SeamDrain.submit_cancel accepted (inflight s) key; Ret (set_inflight x s, [], sent).

Definition dispose_cancelled_accept (accepts : AcceptCancelSet.AcceptCancelSet) (token result : Z)
    : outcome (bool * AcceptCancelSet.AcceptCancelSet * list Z) :=
  if AcceptCancelSet.is_empty accepts then Ret (false, accepts, []) else
  '(taken, accepts) ← AcceptCancelSet.take accepts token;
  if taken : bool then Ret (true, accepts, dispose_accept_result result) else Ret (false, accepts, []).

Definition dispose_cancelled_connect (connects : ConnectCancelSet.ConnectCancelSet) (token : Z)
    : outcome (bool * ConnectCancelSet.ConnectCancelSet) :=
  if ConnectCancelSet.is_empty connects then Ret (false, connects) else ConnectCancelSet.take connects token.

(** [!provided_recvs.is_empty() && provided_recvs.take(token)]. *)
Definition take_provided (provided_recvs : ProvidedRecvCancelSet.ProvidedRecvCancelSet) (token : Z)
    : outcome (bool * ProvidedRecvCancelSet.ProvidedRecvCancelSet) :=
  if ProvidedRecvCancelSet.is_empty provided_recvs then Ret (false, provided_recvs) else ProvidedRecvCancelSet.take provided_recvs token.

(** Whether the completion was consumed, with the descriptors closed and the
    buffers recycled. *)
Definition dispose_cancelled_op (s : cancels) (token result : Z) (buf_id : option Z) : outcome (bool * cancels * list Z * list Z) :=
  match buf_id with
  | Some id =>
      '(taken, p) ← take_provided (provided_recvs s) token;
      if taken : bool then Ret (true, set_provided p s, [], RecvMultishot.recycle_provided (Some id))
      else Ret (false, set_provided p s, [], [])
  | None =>
      '(taken, c) ← dispose_cancelled_connect (connects s) token;
      let s := set_connects c s in
      if taken : bool then Ret (true, s, [], []) else
      '(taken, p) ← if result =? 0 then take_provided (provided_recvs s) token else Ret (false, provided_recvs s);
      let s := set_provided p s in
      if taken : bool then Ret (true, s, [], []) else
      '(taken, a, closed) ← dispose_cancelled_accept (accepts s) token result;
      let s := set_accepts a s in
      if taken : bool then Ret (true, s, closed, []) else
      '(taken, p) ← take_provided (provided_recvs s) token;
      Ret (taken : bool, set_provided p s, [], [])
  end.

(** [drain_cancels]: the shared ring, then the ring of receive streams.  [sqe i]
    is whether the driver takes the [i]-th cancel; the buffers recycled come
    with the descriptors closed. *)
Fixpoint drain_inbox (fuel : nat) (sqe : nat -> bool) (ring : CancelInbox.CancelInbox) (s : cancels)
    : outcome (CancelInbox.CancelInbox * cancels * list Z * list (Z * Z)) :=
  match fuel with
  | O => OutOfFuel
  | S fuel =>
      '(key, ring) ← CancelInbox.pop CancelInbox.CANCEL_INBOX_CAPACITY ring;
      match key with
      | None => Ret (ring, s, [], [])
      | Some key =>
          '(s, closed, sent) ← submit_cancel_for (sqe 0%nat) s key;
          '(ring, s, closed', sent') ← drain_inbox fuel (fun i => sqe (S i)) ring s;
          Ret (ring, s, closed ++ closed', option_list sent ++ sent')
      end
  end.

Fixpoint drain_recv_inbox (fuel : nat) (sqe : nat -> bool) (ring : RecvCancelInbox.RecvCancelInbox) (slab : RecvMultishot.RecvMultishotSlab)
    : outcome (RecvCancelInbox.RecvCancelInbox * RecvMultishot.RecvMultishotSlab * list Z * list Z) :=
  match fuel with
  | O => OutOfFuel
  | S fuel =>
      '(key, ring) ← RecvCancelInbox.pop RecvCancelInbox.RECV_CANCEL_INBOX_CAPACITY ring;
      match key with
      | None => Ret (ring, slab, [], [])
      | Some key =>
          '(slab, ids, sent) ← RecvMultishot.submit_recv_multishot_cancel (sqe 0%nat) slab key;
          '(ring, slab, ids', sent') ← drain_recv_inbox fuel (fun i => sqe (S i)) ring slab;
          Ret (ring, slab, ids ++ ids', option_list sent ++ sent')
      end
  end.

End CancelRoute.

(** ** The slotless futures *)

Module SlotlessFuture.
Import IoTokens Seam BufFuture CancelKey.

(** [AcceptOp], [ConnectOp] and [ProvidedRecvOp]. *)
Record SubmittedOp : Type := mkOp { worker_id : Z; token : Z }.

(** What [IoSeam::with_current] answers: the completion in the wake slot and
    the driver's reply, each absent without a seam or driver. *)
Record current : Type := mkCurrent { completion : option (option WakeSlot); reply : option (option SubmitResult) }.

Record AcceptFuture : Type := mkAccept { a_fd : Z; a_submitted : option SubmittedOp }.

Definition accept_new (fd : Z) : AcceptFuture := mkAccept fd None.

Definition accept_poll (seam : current) (binding : SubmittedOp) (this : AcceptFuture) : Poll Z * AcceptFuture :=
  match a_submitted this with
  | Some _ =>
      match completion seam with
      | Some (Some slot) => (Ready (ws_result slot), mkAccept (a_fd this) None)
      | _ => (Pending, this)
      end
  | None =>
      match reply seam with
      | Some (Some (Submitted _)) => (Pending, mkAccept (a_fd this) (Some binding))
      | _ => (Ready (-22), this)
      end
  end.

(** The key a drop queues. *)
Definition accept_drop (this : AcceptFuture) : option InflightSlotKey :=
  (fun op => accept_cancel_key (worker_id op) (token op)) <$> a_submitted this.

(** [Addr] is the packed peer address. *)
Section connect.
Context {Addr : Type}.

Record ConnectFuture : Type := mkConnect { c_fd : Z; c_addr : option Addr; deadline_ns : option Z; c_submitted : option SubmittedOp }.

Definition connect_new (fd : Z) (addr : Addr) : ConnectFuture := mkConnect fd (Some addr) None None.
Definition connect_with_deadline (fd : Z) (addr : Addr) (deadline_ns : Z) : ConnectFuture := mkConnect fd (Some addr) (Some deadline_ns) None.

(** [reply] answers [submit_internal], or [submit_linked_timeout_internal]
    when there is a deadline. *)
Definition connect_poll (seam : current) (binding : SubmittedOp) (this : ConnectFuture) : Poll Z * ConnectFuture :=
  match c_addr this with
  | None =>
      match completion seam with
      | Some (Some slot) => (Ready (ws_result slot), mkConnect (c_fd this) None (deadline_ns this) None)
      | _ => (Pending, this)
      end
  | Some addr =>
      let this := mkConnect (c_fd this) None (deadline_ns this) (c_submitted this) in
      match reply seam with
      | Some (Some (Submitted _)) => (Pending, mkConnect (c_fd this) None (deadline_ns this) (Some binding))
      | _ => (Ready (-22), this)
      end
  end.

Definition connect_drop (this : ConnectFuture) : option InflightSlotKey :=
  (fun op => connect_cancel_key (worker_id op) (token op)) <$> c_submitted this.
End connect.

(** The buffer view of [resolve_provided_recv]: the worker, the buffer and its
    length ([None] for the empty view). *)
Inductive ProvidedError : Type := Os (errno : Z) | UnsupportedKind | InvalidData.

Definition resolve_provided_recv (worker_id result : Z) (buf_id : option Z) : Prelude.result ProvidedError (option (Z * Z * Z)) :=
  if result <? 0 then Err (Os (- result)) else
  match buf_id with
  | Some buf_id => Ok (Some (worker_id, buf_id, result))
  | None => if result =? 0 then Ok None else Err InvalidData
  end.

Record ProvidedRecvFuture : Type := mkProvided { p_fd : Z; p_submitted : option SubmittedOp; p_is_submitted : bool }.

Definition provided_new (fd : Z) : ProvidedRecvFuture := mkProvided fd None false.

Definition provided_poll (seam : current) (binding : SubmittedOp) (this : ProvidedRecvFuture)
    : Poll (Prelude.result ProvidedError (option (Z * Z * Z))) * ProvidedRecvFuture :=
  if p_is_submitted this then
    match p_submitted this with
    | None => (Ready (Err (Os 22)), this)
    | Some op =>
        match completion seam with
        | Some (Some slot) => (Ready (resolve_provided_recv (worker_id op) (ws_result slot) (ws_buf_id slot)), mkProvided (p_fd this) None true)
        | _ => (Pending, this)
        end
    end
  else
    match reply seam with
    | Some (Some (Submitted _)) => (Pending, mkProvided (p_fd this) (Some binding) true)
    | Some (Some Unsupported) => (Ready (Err UnsupportedKind), this)
    | _ => (Ready (Err (Os 22)), this)
    end.

Definition provided_drop (this : ProvidedRecvFuture) : option InflightSlotKey :=
  (fun op => provided_recv_cancel_key (worker_id op) (token op)) <$> p_submitted this.

End SlotlessFuture.

(** ** The registration of a worker's inboxes

    src/crates/kwokka-io/src/boundary/cancel/guard.rs: [CANCEL_INBOXES] and
    [RECV_CANCEL_INBOXES], with the push of a dropped future
    ([push_cancel_for_worker], [push_recv_multishot_cancel_for_worker]).  The
    two differ in the ring only; the client knows it as an [InboxRing]. *)

Module CancelGuard.

Definition CANCEL_INBOX_SLOTS : nat := 256.

Section guard.
Context {N : Z} {R K : Type} `{InboxRing N R K} (worker_of : K -> Z).

(** [st] is the installed address of each worker's inbox, or null. *)
Definition install (st : list (option nat)) (worker_id : Z) (inbox : nat) : outcome (list (option nat)) := Bitmap.store st (Z.to_nat worker_id) (Some inbox).
Definition guard_drop (st : list (option nat)) (worker_id : Z) : outcome (list (option nat)) := Bitmap.store st (Z.to_nat worker_id) None.
Definition cancel_inbox (st : list (option nat)) (worker_id : Z) : outcome (option nat) := Bitmap.index st (Z.to_nat worker_id).

(** Shards in memory, with the worker each belongs to: a push through an
    address whose shard is gone is undefined. *)
Definition push_for_worker (st : list (option nat)) (mem : list (option (Z * R))) (key : K) : outcome (list (option (Z * R))) :=
  p ← cancel_inbox st (worker_of key);
  match p with
  | None => Ret mem
  | Some p =>
      match mem !! p with
      | Some (Some (w, inbox)) => inbox ← ib_push inbox key; Ret (<[p := Some (w, inbox)]> mem)
      | _ => Undefined
      end
  end.

(** A run of workers: shards are built and freed, each run installs its
    shard's inbox and clears it before the shard goes away, and futures drop
    at any time. *)
Inductive label : Type := LShard (w : Z) | LInstall (w : Z) (p : nat) | LClear (w : Z) | LFree (p : nat) | LPush (key : K).

Record sys : Type := mkSys { st : list (option nat); mem : list (option (Z * R)) }.

Definition exec (l : label) (y : sys) : outcome (option sys) :=
  match l with
  | LShard w => if fitsb 8 w then Ret (Some (mkSys (st y) (mem y ++ [Some (w, ib_new)]))) else Ret None
  | LInstall w p =>
      match mem y !! p with
      | Some (Some (w', _)) => if w =? w' then s ← install (st y) w p; Ret (Some (mkSys s (mem y))) else Ret None
      | _ => Ret None
      end
  | LClear w => if fitsb 8 w then s ← guard_drop (st y) w; Ret (Some (mkSys s (mem y))) else Ret None
  | LFree p =>
      match mem y !! p with
      | Some (Some (w, _)) => if decide (st y !! Z.to_nat w = Some (Some p)) then Ret None else Ret (Some (mkSys (st y) (<[p := None]> (mem y))))
      | _ => Ret None
      end
  | LPush key => if fitsb 8 (worker_of key) then m ← push_for_worker (st y) (mem y) key; Ret (Some (mkSys (st y) m)) else Ret None
  end.

Definition start : sys := mkSys (replicate CANCEL_INBOX_SLOTS None) [].

(** Runs whose keys satisfy [ok]: their fields have their machine widths. *)
Inductive reach (ok : K -> Prop) : sys -> Prop :=
| reach_start : reach ok start
| reach_step y l y' : reach ok y -> (match l with LPush key => ok key | _ => True end) -> exec l y = Ret (Some y') -> reach ok y'.

End guard.
Arguments sys : clear implicits.
Arguments label : clear implicits.
End CancelGuard.

Module CancelGuardThms.
Import CancelGuard.

Section thms.
Context {N : Z} {R K : Type} {ok : K -> Prop} `{L : InboxLaws N R K ok} (worker_of : K -> Z).

Record Inv (y : sys R) : Prop := {
  g_len : length (st y) = CANCEL_INBOX_SLOTS;
  g_shard p w r : mem y !! p = Some (Some (w, r)) -> fits 8 w /\ exists q, ib_holds r q;
  g_inst i p : st y !! i = Some (Some p) -> exists w r, mem y !! p = Some (Some (w, r)) /\ Z.to_nat w = i;
}.

Lemma worker_slot y w : Inv y -> fits 8 w -> exists o, st y !! Z.to_nat w = Some o.
Proof.
  intros I Hw. apply lookup_lt_is_Some_2. rewrite (g_len y I). unfold fits in Hw. change CANCEL_INBOX_SLOTS with (Z.to_nat 256). apply Z2Nat.inj_lt; lia.
Qed.

(** The push reaches the inbox installed for its worker, and no other. *)
Lemma push_reaches y key : Inv y -> fits 8 (worker_of key) -> ok key ->
  exists m, push_for_worker worker_of (st y) (mem y) key = Ret m /\ Inv (mkSys (st y) m) /\ length m = length (mem y) /\
    forall p w r q, mem y !! p = Some (Some (w, r)) -> ib_holds r q ->
      exists r', m !! p = Some (Some (w, r')) /\ (if decide (st y !! Z.to_nat (worker_of key) = Some (Some p)) then ib_holds r' (BoundedQueue.push N q key) else r' = r).
Proof.
  intros I Hw Hk. destruct (worker_slot y _ I Hw) as [o Ho]. unfold push_for_worker, cancel_inbox, Bitmap.index. rewrite Ho. cbn [mbind outcome_bind]. destruct o as [p|].
  - destruct (g_inst y I _ _ Ho) as (w & r & Hp & Hi). rewrite Hp. destruct (g_shard y I p w r Hp) as [Fw [q Hq]]. destruct (ib_push_law r q key Hq Hk) as (r' & Er & Hr').
    rewrite Er. cbn [mbind outcome_bind]. eexists. split; [done|]. pose proof (lookup_lt_Some _ _ _ Hp) as Hlt. split; [|split; [apply length_insert|]].
    + destruct I as [I1 I2 I3]. split; cbn [st mem]; [done| |].
      * intros p' w' x [(<- & [= <- <-] & _)|(_ & Hx)]%list_lookup_insert_Some; [eauto|by apply (I2 p')].
      * intros i p' Hi'. destruct (I3 i p' Hi') as (w' & x & Hx & Hj). destruct (decide (p' = p)) as [->|]; [|rewrite list_lookup_insert_ne by done; eauto].
        rewrite Hp in Hx. injection Hx as <- <-. rewrite list_lookup_insert_eq by done. eauto.
    + intros p' w' x q' Hx Hq'. destruct (decide (p' = p)) as [->|Hd].
      * rewrite Hp in Hx. injection Hx as <- <-. destruct (ib_push_law r q' key Hq' Hk) as (r2 & Er2 & Hr2). rewrite Er in Er2. injection Er2 as <-.
        exists r'. rewrite list_lookup_insert_eq by done. split; [done|]. by rewrite decide_True.
      * exists x. rewrite list_lookup_insert_ne by done. split; [done|]. rewrite decide_False; [done|]. congruence.
  - eexists. split; [done|]. split; [by destruct y|]. split; [done|]. intros p w r q Hp _. exists r. split; [done|]. by rewrite decide_False.
Qed.

Lemma guard_step_ok y l : Inv y -> (match l with LPush key => ok key | _ => True end) ->
  exists o, exec worker_of l y = Ret o /\ forall y', o = Some y' -> Inv y'.
Proof.
  intros I Hok. destruct l as [w|w p|w|p|key]; cbn [exec].
  - destruct (fitsb 8 w) eqn:G; [|by exists None]. apply fitsb_spec in G. eexists. split; [done|]. intros ? [= <-]. destruct I as [I1 I2 I3]. split; cbn [st mem]; [done| |].
    + intros p w' r Hp. apply lookup_app_Some in Hp as [Hp|[_ Hp]]; [by apply (I2 p)|]. apply list_lookup_singleton_Some in Hp as [_ [= <- <-]]. split; [done|]. exists []. apply ib_new_law.
    + intros i p Hi. destruct (I3 i p Hi) as (w' & r & Hp & Hw). exists w', r. split; [|done]. by apply lookup_app_l_Some.
  - destruct (mem y !! p) as [[[w' r]|]|] eqn:Hp; [|by exists None..]. destruct (Z.eqb_spec w w') as [->|]; [|by exists None]. destruct (g_shard y I p w' r Hp) as [Fw _].
    destruct (worker_slot y w' I Fw) as [o Ho]. unfold install, Bitmap.store. rewrite decide_True by (by eapply lookup_lt_Some). eexists. split; [done|]. intros ? [= <-]. destruct I as [I1 I2 I3].
    split; cbn [st mem]; [by rewrite length_insert|done|]. intros i p' [(<- & [= <-] & _)|(_ & Hx)]%list_lookup_insert_Some; [eauto|by apply I3].
  - destruct (fitsb 8 w) eqn:G; [|by exists None]. apply fitsb_spec in G. destruct (worker_slot y w I G) as [o Ho]. unfold guard_drop, Bitmap.store. rewrite decide_True by (by eapply lookup_lt_Some).
    eexists. split; [done|]. intros ? [= <-]. destruct I as [I1 I2 I3]. split; cbn [st mem]; [by rewrite length_insert|done|].
    intros i p' [(_ & ? & _)|(_ & Hx)]%list_lookup_insert_Some; [done|by apply I3].
  - destruct (mem y !! p) as [[[w r]|]|] eqn:Hp; [|by exists None..]. case_decide as Hd; [by exists None|]. eexists. split; [done|]. intros ? [= <-]. destruct I as [I1 I2 I3]. split; cbn [st mem]; [done| |].
    + intros p' w' x [(_ & ? & _)|(_ & Hx)]%list_lookup_insert_Some; [done|by apply (I2 p')].
    + intros i p' Hi. destruct (I3 i p' Hi) as (w' & x & Hx & Hw). destruct (decide (p' = p)) as [->|]; [|rewrite list_lookup_insert_ne by done; eauto].
      rewrite Hp in Hx. injection Hx as <- <-. destruct Hd. by rewrite Hw.
  - destruct (fitsb 8 (worker_of key)) eqn:G; [|by exists None]. apply fitsb_spec in G. destruct (push_reaches y key I G Hok) as (m & -> & I' & _). eexists. split; [done|]. by intros ? [= <-].
Qed.

Lemma guard_reach_inv y : reach worker_of ok y -> Inv y.
Proof.
  induction 1 as [|y l y' _ IH Hok E].
  - split; cbn [start st mem]; [apply length_replicate|done|]. intros i p [? _]%lookup_replicate. done.
  - destruct (guard_step_ok y l IH Hok) as (o & E' & Hy). rewrite E in E'. injection E' as <-. by apply Hy.
Qed.

(** What a push of [key] does in [y]. *)
Definition delivers (y : sys R) (key : K) : Prop :=
  exists m, push_for_worker worker_of (st y) (mem y) key = Ret m /\ length m = length (mem y) /\
    forall p w r q, mem y !! p = Some (Some (w, r)) -> ib_holds r q ->
      exists r', m !! p = Some (Some (w, r')) /\ (if decide (st y !! Z.to_nat (worker_of key) = Some (Some p)) then ib_holds r' (BoundedQueue.push N q key) else r' = r).

Lemma guard_delivers y key : reach worker_of ok y -> fits 8 (worker_of key) -> ok key -> delivers y key.
Proof. intros R0 Hw Hk. destruct (push_reaches y key (guard_reach_inv y R0) Hw Hk) as (m & E & _ & Hl & Hm). by exists m. Qed.

End thms.

(** A dropped future's cancel finds its worker's inbox, whatever runs the
    workers are in: the push of either ring never goes through the address of
    a shard that is gone; inside a run it appends the key to the inbox of the
    worker (or drops it when that is full), outside it does nothing, and no
    other inbox changes. *)
Theorem cancel_guard_delivers
    (y : sys CancelInbox.CancelInbox) (key : IoTokens.InflightSlotKey) (z : sys RecvCancelInbox.RecvCancelInbox) (k : IoTokens.MultishotSlotKey) :
  reach (N := CancelInbox.CANCEL_INBOX_CAPACITY) IoTokens.worker_id (fun _ => True) y -> fits 8 (IoTokens.worker_id key) ->
  reach (N := RecvCancelInbox.RECV_CANCEL_INBOX_CAPACITY) IoTokens.ms_worker_id InboxRings.key_fits z -> InboxRings.key_fits k ->
  delivers (L := InboxRings.inline_laws CancelInbox.CANCEL_INBOX_CAPACITY eq_refl) IoTokens.worker_id y key /\
  delivers (L := InboxRings.packed_laws RecvCancelInbox.RECV_CANCEL_INBOX_CAPACITY eq_refl) IoTokens.ms_worker_id z k.
Proof. intros Hy Hw Hz Hk. split; apply guard_delivers; try done. apply Hk. Qed.

End CancelGuardThms.
