(* ===== verification/SlotlessProto.v ===== *)
(** * Dropped accepts, connects and provided receives

    One worker's slotless operations together: futures that submit and drop,
    the cancel ring they queue on, the drain that routes each cancel, the
    kernel that completes operations, and the completion drain that disposes
    or delivers each completion ([drain_completions] of
    src/crates/kwokka-runtime/src/runtime/drive/completion.rs and
    [drain_cancels] of turn.rs, over the definitions of CancelInbox.v and
    CancelRoute.v).  [exec] runs one labelled step; every descriptor the kernel
    accepts and every buffer it selects is a resource with one owner. *)

From S2P Require Import Prelude Bitmap IoTokens InflightSlab Seam StreamRegistry MultishotSlab RecvSlab InflightProto CancelInbox CancelRoute.
From stdpp Require Import base tactics option numbers list.

Local Open Scope Z_scope.

Module SlotlessProto.
Import IoTokens CancelRoute CancelKey SlotlessFuture.

(** [Buffered] stands for the operations of the in-flight registry, whose
    drop InflightProto.v models. *)
Inductive kind : Type := Accept | Provided | Connect | Buffered.

#[global] Instance kind_eq_dec : EqDecision kind.
Proof. solve_decision. Defined.

Abbreviation op := (kind * Z)%type.

Inductive resource : Type := Fd (fd : Z) | Buf (id : Z).

#[global] Instance resource_eq_dec : EqDecision resource.
Proof. solve_decision. Defined.

Record cqe : Type := mkC { c_kind : kind; c_token : Z; c_result : Z; c_buf : option Z }.

Definition c_op (c : cqe) : op := (c_kind c, c_token c).

(** What a completion hands over. *)
Definition carried (c : cqe) : list resource :=
  match c_kind c with
  | Accept => Fd <$> Multishot.dispose_accept_result (c_result c)
  | Provided => Buf <$> option_list (c_buf c)
  | Connect | Buffered => []
  end.

Record sys : Type := mkSys {
  ring : CancelInbox.CancelInbox;
  sets : cancels;
  live : list op;        (* futures waiting for their completion *)
  ready : list cqe;      (* completions stored for a live future *)
  kops : list op;        (* operations the kernel holds *)
  cq : list cqe;
  created : list resource;
  delivered : list resource;
  disposed : list resource;
  lost : list resource;
  overflowed : bool;     (* a ring or set was full *)
}.

(** [solo]: a task has one outstanding operation.  [prompt]: no future is
    dropped once its completion is stored. *)
Record env : Type := mkEnv { solo : bool; prompt : bool }.

Inductive label : Type :=
| LSubmit (k : kind) (t : Z)
| LComplete (i : nat) (result : Z) (buf : option Z)
| LDrop (i : nat)
| LDropReady (i : nat)
| LPoll (i : nat)
| LCancel (accepted : bool)
| LDrain.

(** The key the drop of a future with a submitted operation queues. *)
Definition cancel_key (worker : Z) (o : op) : option InflightSlotKey :=
  match o with
  | (Accept, t) => accept_drop (mkAccept 0 (Some (mkOp worker t)))
  | (Provided, t) => provided_drop (mkProvided 0 (Some (mkOp worker t)) true)
  | (Connect, t) => connect_drop (mkConnect (Addr := unit) 0 None None (Some (mkOp worker t)))
  | (Buffered, _) => None
  end.

Definition token_of (o : op) : Z := o.2.

Definition unused (y : sys) (t : Z) : bool :=
  bool_decide (t ∉ (token_of <$> live y)) && bool_decide (t ∉ (token_of <$> kops y)) &&
  bool_decide (t ∉ (c_token <$> cq y)) && bool_decide (t ∉ (c_token <$> ready y)).

Definition with_ring r o y := mkSys r (sets y) (live y) (ready y) (kops y) (cq y) (created y) (delivered y) (disposed y) (lost y) (overflowed y || o).
Definition with_live l y := mkSys (ring y) (sets y) l (ready y) (kops y) (cq y) (created y) (delivered y) (disposed y) (lost y) (overflowed y).

Definition CAP : Z := CancelInbox.CANCEL_INBOX_CAPACITY.

(** Whether the set the cancel goes to is full. *)
Definition set_full (s : cancels) (key : InflightSlotKey) : bool :=
  if slot key =? AcceptCancelSet.ACCEPT_CANCEL_SLOT then AcceptCancelSet.ACCEPT_CANCEL_CAPACITY <=? CancelSet.len (accepts s)
  else if slot key =? ProvidedRecvCancelSet.PROVIDED_RECV_CANCEL_SLOT then ProvidedRecvCancelSet.PROVIDED_RECV_CANCEL_CAPACITY <=? CancelSet.len (provided_recvs s)
  else ConnectCancelSet.CONNECT_CANCEL_CAPACITY <=? CancelSet.len (connects s).

Section exec.
Context (worker : Z) (e : env).

(** [Ret None]: the step is not enabled. *)
Definition exec (l : label) (y : sys) : outcome (option sys) :=
  match l with
  | LSubmit k t =>
      if bool_decide (fits 64 t /\ corner t < 0xFFFFFFFB) && (negb (solo e) || unused y t) then
        Ret (Some (mkSys (ring y) (sets y) (live y ++ [(k, t)]) (ready y) (kops y ++ [(k, t)]) (cq y) (created y) (delivered y) (disposed y) (lost y) (overflowed y)))
      else Ret None
  | LComplete i result buf =>
      match kops y !! i with
      | Some (k, t) =>
          if bool_decide (buf = None \/ k = Provided) then
            let c := mkC k t result buf in
            Ret (Some (mkSys (ring y) (sets y) (live y) (ready y) (delete i (kops y)) (cq y ++ [c]) (created y ++ carried c) (delivered y) (disposed y) (lost y) (overflowed y)))
          else Ret None
      | None => Ret None
      end
  | LDrop i =>
      match live y !! i ≫= cancel_key worker with
      | Some key =>
          r ← CancelInbox.push_cancel CAP (ring y) key;
          Ret (Some (with_ring r (CAP <=? CancelInbox.len (ring y)) (with_live (delete i (live y)) y)))
      | None => Ret None
      end
  | LDropReady i =>
      match ready y !! i with
      | Some c =>
          match prompt e, cancel_key worker (c_op c) with
          | false, Some key =>
              r ← CancelInbox.push_cancel CAP (ring y) key;
              Ret (Some (mkSys r (sets y) (live y) (delete i (ready y)) (kops y) (cq y) (created y) (delivered y) (disposed y) (lost y ++ carried c)
                           (overflowed y || (CAP <=? CancelInbox.len (ring y)))))
          | _, _ => Ret None
          end
      | None => Ret None
      end
  | LPoll i =>
      match ready y !! i with
      | Some c => Ret (Some (mkSys (ring y) (sets y) (live y) (delete i (ready y)) (kops y) (cq y) (created y) (delivered y ++ carried c) (disposed y) (lost y) (overflowed y)))
      | None => Ret None
      end
  | LCancel accepted =>
      '(key, r) ← CancelInbox.pop CAP (ring y);
      match key with
      | None => Ret None
      | Some key =>
          '(s, closed, _) ← submit_cancel_for accepted (sets y) key;
          Ret (Some (mkSys r s (live y) (ready y) (kops y) (cq y) (created y) (delivered y) (disposed y ++ (Fd <$> closed)) (lost y)
                       (overflowed y || set_full (sets y) key)))
      end
  | LDrain =>
      if negb (CancelInbox.len (ring y) =? 0) then Ret None else
      match cq y with
      | [] => Ret None
      | c :: q =>
          '(consumed, s, closed, recycled) ← dispose_cancelled_op (sets y) (c_token c) (c_result c) (c_buf c);
          if consumed : bool then
            Ret (Some (mkSys (ring y) s (live y) (ready y) (kops y) q (created y) (delivered y) (disposed y ++ (Fd <$> closed) ++ (Buf <$> recycled)) (lost y) (overflowed y)))
          else
            match list_find (fun o => token_of o = c_token c) (live y) with
            | Some (i, _) =>
                Ret (Some (mkSys (ring y) s (delete i (live y)) (ready y ++ [c]) (kops y) q (created y) (delivered y) (disposed y) (lost y) (overflowed y)))
            | None =>
                Ret (Some (mkSys (ring y) s (live y) (ready y) (kops y) q (created y) (delivered y) (disposed y) (lost y ++ carried c) (overflowed y)))
            end
      end
  end.

Inductive reach (y0 : sys) : sys -> Prop :=
| reach_start : reach y0 y0
| reach_step y l y' : reach y0 y -> exec l y = Ret (Some y') -> reach y0 y'.

Fixpoint run (ls : list label) (y : sys) : outcome (option sys) :=
  match ls with
  | [] => Ret (Some y)
  | l :: ls => o ← exec l y; match o with Some y => run ls y | None => Ret None end
  end.

End exec.

(** A worker with empty rings and sets over any registries. *)
Definition start (i : Inflight.InflightBufSlab) (m : Multishot.MultishotSlab) : sys :=
  mkSys (CancelInbox.new CAP) (mkCancels i m AcceptCancelSet.new ProvidedRecvCancelSet.new ConnectCancelSet.new) [] [] [] [] [] [] [] [] false.

End SlotlessProto.
