(* ===== verification/SlotlessThms.v ===== *)
(** * Every resource of a slotless operation is delivered or disposed once

    The invariant of the system of SlotlessProto.v and its theorems. *)

From S2P Require Import Prelude Bitmap IoTokens InflightSlab Seam StreamRegistry MultishotSlab RecvSlab InflightProto CancelInbox CancelRoute SlotlessProto.
From stdpp Require Import base tactics option numbers list.

Local Open Scope Z_scope.

(** ** Disposal of one completion *)

Module SlotlessInv.
Import IoTokens InflightProto CancelRoute CancelKey SlotlessProto CancelSetSpec Tally.

Lemma task_not_multishot t : task_token t -> is_multishot_sentinel t = false.
Proof.
  intros [Hf Hc]. unfold is_multishot_sentinel. rewrite high_mask by done. apply Z.eqb_neq. unfold corner in Hc.
  change MULTISHOT_TOKEN_BASE with (0xFFFFFFFE * 2 ^ 32). lia.
Qed.

Lemma guarded_miss N s l t : holds N s l -> t ∉ l -> (if CancelSet.is_empty s then Ret (false, s) else CancelSet.take s t) = Ret (false, s).
Proof.
  intros H Ht. destruct (CancelSet.is_empty s); [done|]. destruct (set_take N s l t H) as (s' & -> & Hs'). rewrite decide_False in Hs' by done.
  by rewrite bool_decide_false, Hs'.
Qed.

Lemma guarded_hit N s l t : holds N s l -> t ∈ l ->
  exists s' l', (if CancelSet.is_empty s then Ret (false, s) else CancelSet.take s t) = Ret (true, s') /\ l ≡ₚ t :: l' /\ holds N s' l'.
Proof.
  intros H Ht. rewrite (set_is_empty N s l H), bool_decide_false by (intros ->; by apply elem_of_nil in Ht).
  destruct (set_take N s l t H) as (s' & -> & Hs'). rewrite decide_True in Hs' by done. destruct Hs' as (l' & Hl & Hh).
  exists s', l'. by rewrite bool_decide_true.
Qed.

Definition set_holds (s : cancels) (la lp lc : list Z) : Prop :=
  holds AcceptCancelSet.ACCEPT_CANCEL_CAPACITY (accepts s) la /\
  holds ProvidedRecvCancelSet.PROVIDED_RECV_CANCEL_CAPACITY (provided_recvs s) lp /\
  holds ConnectCancelSet.CONNECT_CANCEL_CAPACITY (connects s) lc.

Ltac fields := cbn [mbind outcome_bind set_connects set_provided set_accepts provided_recvs accepts connects].

Section dispose.
Context (s : cancels) (la lp lc : list Z) (t result : Z) (buf : option Z) (H : set_holds s la lp lc).

Lemma provided_miss : t ∉ lp -> take_provided (provided_recvs s) t = Ret (false, provided_recvs s).
Proof. intros Ht. apply (guarded_miss ProvidedRecvCancelSet.PROVIDED_RECV_CANCEL_CAPACITY _ lp); [apply H|done]. Qed.

Lemma connect_miss : t ∉ lc -> dispose_cancelled_connect (connects s) t = Ret (false, connects s).
Proof. intros Ht. apply (guarded_miss ConnectCancelSet.CONNECT_CANCEL_CAPACITY _ lc); [apply H|done]. Qed.

Lemma accept_miss : t ∉ la -> dispose_cancelled_accept (accepts s) t result = Ret (false, accepts s, []).
Proof.
  intros Ht. unfold dispose_cancelled_accept. pose proof (guarded_miss _ _ la t (proj1 H) Ht) as E.
  unfold AcceptCancelSet.is_empty, AcceptCancelSet.take. destruct (CancelSet.is_empty _); [done|]. by rewrite E.
Qed.

Lemma dispose_none : t ∉ la -> t ∉ lp -> t ∉ lc -> dispose_cancelled_op s t result buf = Ret (false, s, [], []).
Proof.
  intros Ha Hp Hc. unfold dispose_cancelled_op. destruct buf.
  - rewrite provided_miss by done. by destruct s.
  - rewrite connect_miss by done. fields.
    destruct (result =? 0); rewrite ?provided_miss by done; fields;
      rewrite accept_miss by done; fields;
      rewrite provided_miss by done; by destruct s.
Qed.

Lemma dispose_accept : t ∈ la -> t ∉ lp -> t ∉ lc -> buf = None ->
  exists s' la', dispose_cancelled_op s t result buf = Ret (true, s', Multishot.dispose_accept_result result, []) /\
    la ≡ₚ t :: la' /\ set_holds s' la' lp lc.
Proof.
  intros Ha Hp Hc ->. unfold dispose_cancelled_op. rewrite connect_miss by done. fields.
  destruct (guarded_hit _ _ la t (proj1 H) Ha) as (a & la' & E & Hl & Hh).
  assert (E' : dispose_cancelled_accept (accepts s) t result = Ret (true, a, Multishot.dispose_accept_result result)).
  { unfold dispose_cancelled_accept, AcceptCancelSet.is_empty, AcceptCancelSet.take. destruct (CancelSet.is_empty _); [done|]. by rewrite E. }
  exists (set_accepts a (set_provided (provided_recvs s) (set_connects (connects s) s))), la'.
  split; [|split; [done|]]; [|split; [done|apply H]].
  destruct (result =? 0); rewrite ?provided_miss by done; fields; by rewrite E'.
Qed.

Lemma dispose_provided : t ∉ la -> t ∈ lp -> t ∉ lc ->
  exists s' lp', dispose_cancelled_op s t result buf = Ret (true, s', [], option_list buf) /\ lp ≡ₚ t :: lp' /\ set_holds s' la lp' lc.
Proof.
  intros Ha Hp Hc. destruct (guarded_hit _ _ lp t (proj1 (proj2 H)) Hp) as (p & lp' & E & Hl & Hh).
  assert (E' : take_provided (provided_recvs s) t = Ret (true, p)) by exact E.
  destruct H as (H1 & H2 & H3). unfold dispose_cancelled_op. destruct buf as [b|].
  - rewrite E'. do 2 eexists. split; [reflexivity|]. split; [exact Hl|]. by split.
  - rewrite connect_miss by done. fields. destruct (result =? 0).
    + rewrite E'. do 2 eexists. split; [reflexivity|]. split; [exact Hl|]. by split.
    + fields. rewrite accept_miss by done.
      fields. rewrite E'. do 2 eexists. split; [reflexivity|]. split; [exact Hl|]. by split.
Qed.

Lemma dispose_connect : t ∈ lc -> buf = None ->
  exists s' lc', dispose_cancelled_op s t result buf = Ret (true, s', [], []) /\ lc ≡ₚ t :: lc' /\ set_holds s' la lp lc'.
Proof.
  intros Hc ->. destruct (guarded_hit _ _ lc t (proj2 (proj2 H)) Hc) as (c & lc' & E & Hl & Hh).
  assert (E' : dispose_cancelled_connect (connects s) t = Ret (true, c)) by exact E. destruct H as (H1 & H2 & H3).
  unfold dispose_cancelled_op. rewrite E'. do 2 eexists. split; [reflexivity|]. split; [exact Hl|]. by split.
Qed.

End dispose.
(** ** The invariant *)

Definition tagged (la lp lc : list Z) : list op := (pair Accept <$> la) ++ (pair Provided <$> lp) ++ (pair Connect <$> lc).
Definition outs (y : sys) : list op := kops y ++ (c_op <$> cq y).
Definition holding (l : list cqe) : list resource := l ≫= carried.
Definition cqe_ok (c : cqe) : Prop := c_buf c = None \/ c_kind c = Provided.

(** [q] is queued on the ring, [la], [lp] and [lc] are recorded in the sets and
    [fg] lost its record: together with the live futures they are the
    outstanding operations. *)
Record Inv (worker : Z) (y : sys) (q : list op) (la lp lc : list Z) (fg : list op) : Prop := {
  i_ring : exists keys, Forall2 (fun o k => cancel_key worker o = Some k) q keys /\ InboxRings.inline_holds CAP (ring y) keys;
  i_sets : set_holds (sets y) la lp lc;
  i_own : outs y ≡ₚ live y ++ q ++ tagged la lp lc ++ fg;
  i_nodup : NoDup (token_of <$> outs y);
  i_tok : Forall (fun o => task_token (token_of o)) (outs y);
  i_buf : Forall cqe_ok (cq y);
  i_res : created y ≡ₚ holding (cq y) ++ holding (ready y) ++ delivered y ++ disposed y ++ lost y;
  i_fg : overflowed y = false -> fg = [] /\ lost y = [];
}.

Lemma token_inj (l : list op) a b : NoDup (token_of <$> l) -> a ∈ l -> b ∈ l -> token_of a = token_of b -> a = b.
Proof.
  intros HN [i Hi]%list_elem_of_lookup [j Hj]%list_elem_of_lookup E.
  assert (i = j) as <-; [|congruence]. eapply (NoDup_lookup _ i j (token_of a) HN); [by rewrite list_lookup_fmap, Hi|by rewrite list_lookup_fmap, Hj, E].
Qed.

Lemma elem_tagged k t la lp lc : (k, t) ∈ tagged la lp lc <->
  match k with Accept => t ∈ la | Provided => t ∈ lp | Connect => t ∈ lc | Buffered => False end.
Proof. unfold tagged. rewrite !elem_of_app, !list_elem_of_fmap. destruct k; naive_solver. Qed.

Lemma holding_app l k : holding (l ++ k) = holding l ++ holding k.
Proof. apply bind_app. Qed.

Lemma holding_cons c l : holding (c :: l) = carried c ++ holding l.
Proof. done. Qed.

Lemma holding_delete l i c : l !! i = Some c -> holding l ≡ₚ carried c ++ holding (delete i l).
Proof.
  intros H. rewrite <- (take_drop_middle l i c H) at 1. rewrite (delete_take_drop l i), !holding_app, holding_cons.
  rewrite !app_assoc. apply Permutation_app_tail, Permutation_app_comm.
Qed.

Lemma cancel_key_eq worker k t : cancel_key worker (k, t) =
  match k with
  | Accept => Some (mkKey AcceptCancelSet.ACCEPT_CANCEL_SLOT 0 worker t)
  | Provided => Some (mkKey ProvidedRecvCancelSet.PROVIDED_RECV_CANCEL_SLOT 0 worker t)
  | Connect => Some (mkKey ConnectCancelSet.CONNECT_CANCEL_SLOT 0 worker t)
  | Buffered => None
  end.
Proof. by destruct k. Qed.

(** Routing one queued cancel. *)
Lemma route_spec worker s la lp lc o key accepted :
  set_holds s la lp lc -> task_token (token_of o) -> cancel_key worker o = Some key ->
  exists s' sent la' lp' lc', submit_cancel_for accepted s key = Ret (s', [], sent) /\ set_holds s' la' lp' lc' /\
    (if set_full s key then tagged la' lp' lc' = tagged la lp lc else tagged la' lp' lc' ≡ₚ o :: tagged la lp lc).
Proof.
  intros (Ha & Hp & Hc) Ht Hk. destruct o as [k t]. unfold token_of in Ht. cbn [snd] in Ht. rewrite cancel_key_eq in Hk. destruct k; [..|discriminate]; injection Hk as <-;
    unfold submit_cancel_for, set_full; cbn [op_token slot]; rewrite (task_not_multishot t Ht).
  - rewrite Z.eqb_refl. unfold submit_accept_cancel, AcceptCancelSet.insert.
    destruct (set_insert _ _ la t Ha) as (a & E & Hh). cbn [op_token]. rewrite E. rewrite (set_length _ _ _ Ha) in Hh.
    exists (set_accepts a s). do 2 eexists. exists lp, lc. split; [reflexivity|]. split; [split; [exact Hh|by split]|].
    destruct (Z.ltb_spec (CancelSet.len (accepts s)) AcceptCancelSet.ACCEPT_CANCEL_CAPACITY), (Z.leb_spec AcceptCancelSet.ACCEPT_CANCEL_CAPACITY (CancelSet.len (accepts s))); done || lia.
  - change (ProvidedRecvCancelSet.PROVIDED_RECV_CANCEL_SLOT =? AcceptCancelSet.ACCEPT_CANCEL_SLOT) with false. cbn match. rewrite Z.eqb_refl.
    unfold submit_provided_recv_cancel, ProvidedRecvCancelSet.insert.
    destruct (set_insert _ _ lp t Hp) as (a & E & Hh). cbn [op_token]. rewrite E. rewrite (set_length _ _ _ Hp) in Hh.
    exists (set_provided a s). eexists. exists la. eexists. exists lc. split; [reflexivity|]. split; [split; [done|split; [exact Hh|done]]|].
    destruct (Z.ltb_spec (CancelSet.len (provided_recvs s)) ProvidedRecvCancelSet.PROVIDED_RECV_CANCEL_CAPACITY), (Z.leb_spec ProvidedRecvCancelSet.PROVIDED_RECV_CANCEL_CAPACITY (CancelSet.len (provided_recvs s))); try done; try lia.
    unfold tagged. rewrite fmap_cons. tally.
  - change (ConnectCancelSet.CONNECT_CANCEL_SLOT =? AcceptCancelSet.ACCEPT_CANCEL_SLOT) with false.
    change (ConnectCancelSet.CONNECT_CANCEL_SLOT =? ProvidedRecvCancelSet.PROVIDED_RECV_CANCEL_SLOT) with false. cbn match. rewrite Z.eqb_refl.
    unfold submit_connect_cancel, ConnectCancelSet.insert.
    destruct (set_insert _ _ lc t Hc) as (a & E & Hh). cbn [op_token]. rewrite E. rewrite (set_length _ _ _ Hc) in Hh.
    exists (set_connects a s). eexists. exists la, lp. eexists. split; [reflexivity|]. split; [split; [done|split; [done|exact Hh]]|].
    destruct (Z.ltb_spec (CancelSet.len (connects s)) ConnectCancelSet.CONNECT_CANCEL_CAPACITY), (Z.leb_spec ConnectCancelSet.CONNECT_CANCEL_CAPACITY (CancelSet.len (connects s))); try done; try lia.
    unfold tagged. rewrite fmap_cons. tally.
Qed.

(** ** Each step keeps it *)

Definition goes_on (worker : Z) (r : outcome (option sys)) : Prop :=
  exists o, r = Ret o /\ forall y', o = Some y' -> exists q la lp lc fg, Inv worker y' q la lp lc fg.

Lemma goes_None worker : goes_on worker (Ret None).
Proof. exists None. done. Qed.

Lemma goes_Some worker y' q la lp lc fg : Inv worker y' q la lp lc fg -> goes_on worker (Ret (Some y')).
Proof. intros H. eexists. split; [done|]. intros ? [= <-]. eauto 10. Qed.

Section steps.
Context (worker : Z) (y : sys) (q : list op) (la lp lc : list Z) (fg : list op) (I : Inv worker y q la lp lc fg).

Let e := mkEnv true true.

Lemma submit_goes k t : goes_on worker (exec worker e (LSubmit k t) y).
Proof.
  cbn [exec]. destruct (bool_decide _) eqn:Ht; [|apply goes_None]. apply bool_decide_eq_true in Ht. cbn [e solo negb orb].
  destruct (unused y t) eqn:Hu; [|apply goes_None]. unfold unused in Hu. rewrite !andb_true_iff, !bool_decide_eq_true in Hu. destruct Hu as (((_ & U1) & U2) & _).
  destruct I as [Ir Is Io In It Ib Ic If].
  assert (P : outs (mkSys (ring y) (sets y) (live y ++ [(k, t)]) (ready y) (kops y ++ [(k, t)]) (cq y) (created y) (delivered y) (disposed y) (lost y) (overflowed y)) ≡ₚ (k, t) :: outs y)
    by (unfold outs; cbn [kops cq]; tally).
  eapply goes_Some. split; cbn [ring sets cq created ready delivered disposed lost overflowed live]; [exact Ir|exact Is| | | |exact Ib|exact Ic|exact If].
  - rewrite P. tally Io.
  - rewrite P, fmap_cons. apply NoDup_cons. split; [|exact In]. unfold outs. rewrite fmap_app, <- list_fmap_compose, not_elem_of_app. done.
  - rewrite P. apply Forall_cons. done.
Qed.

Lemma complete_goes i result buf : goes_on worker (exec worker e (LComplete i result buf) y).
Proof.
  cbn [exec]. destruct (kops y !! i) as [[k t]|] eqn:E; [|apply goes_None]. destruct (bool_decide _) eqn:Hb; [|apply goes_None]. apply bool_decide_eq_true in Hb.
  destruct I as [Ir Is Io In It Ib Ic If]. pose proof (perm_delete _ _ _ E) as D. set (c := mkC k t result buf).
  eapply goes_Some. assert (P : outs (mkSys (ring y) (sets y) (live y) (ready y) (delete i (kops y)) (cq y ++ [c]) (created y ++ carried c) (delivered y) (disposed y) (lost y) (overflowed y)) ≡ₚ outs y).
  { unfold outs. cbn [kops cq]. rewrite fmap_app. change (c_op <$> [c]) with [(k, t)]. tally D. }
  split; cbn [ring sets cq created ready delivered disposed lost overflowed live]; [exact Ir|exact Is|by rewrite P|by rewrite P|by rewrite P| | |exact If].
  - apply Forall_app. split; [exact Ib|]. apply Forall_singleton. exact Hb.
  - rewrite holding_app, holding_cons. change (holding []) with (@nil resource). tally Ic.
Qed.

Lemma drop_goes i : goes_on worker (exec worker e (LDrop i) y).
Proof.
  cbn [exec]. destruct (live y !! i) as [o|] eqn:E; [|apply goes_None]. cbn [mbind option_bind]. destruct (cancel_key worker o) as [key|] eqn:Hk; [|apply goes_None].
  destruct I as [(keys & Hq & Hr) Is Io In It Ib Ic If]. destruct (InboxRings.inline_push CAP ltac:(done) _ _ key Hr) as (r & -> & Hr').
  pose proof (perm_delete _ _ _ E) as D. cbn [mbind outcome_bind]. unfold BoundedQueue.push in Hr'.
  assert (Hn : Z.of_nat (length keys) = CancelInbox.len (ring y)) by (rewrite <- (length_fmap Some); apply (InboxRings.cursors_length CAP _ _ _ _ (proj2 Hr))).
  rewrite Hn in Hr'. destruct (Z.ltb_spec (CancelInbox.len (ring y)) CAP), (Z.leb_spec CAP (CancelInbox.len (ring y))); try lia.
  - apply (goes_Some _ _ (q ++ [o]) la lp lc fg). split; cbn [with_ring with_live ring sets cq created ready delivered disposed lost overflowed live]; try done; rewrite ?orb_false_r.
    + exists (keys ++ [key]). split; [|done]. apply Forall2_app; [done|]. by repeat constructor.
    + change (outs _) with (outs y). tally D Io.
    + done.
  - apply (goes_Some _ _ q la lp lc (o :: fg)). split; cbn [with_ring with_live ring sets cq created ready delivered disposed lost overflowed live]; try done; rewrite ?orb_true_r; try done.
    + by exists keys.
    + change (outs _) with (outs y). tally D Io.
Qed.

Lemma poll_goes i : goes_on worker (exec worker e (LPoll i) y).
Proof.
  cbn [exec]. destruct (ready y !! i) as [c|] eqn:E; [|apply goes_None]. destruct I as [Ir Is Io In It Ib Ic If].
  pose proof (holding_delete _ _ _ E) as D. apply (goes_Some _ _ q la lp lc fg).
  split; cbn [ring sets cq created ready delivered disposed lost overflowed live]; try done. tally D Ic.
Qed.

Lemma cancel_goes accepted : goes_on worker (exec worker e (LCancel accepted) y).
Proof.
  cbn [exec]. destruct I as [(keys & Hq & Hr) Is Io In It Ib Ic If]. destruct (InboxRings.inline_pop CAP ltac:(done) _ _ Hr) as (r & -> & Hr'). cbn [mbind outcome_bind].
  destruct Hq as [|o key q' keys' Hk Hq]; [apply goes_None|]. cbn [hd_error tail] in *.
  assert (Ht : task_token (token_of o)).
  { rewrite Forall_forall in It. apply It. rewrite Io, !elem_of_app, elem_of_cons. tauto. }
  destruct (route_spec worker (sets y) la lp lc o key accepted Is Ht Hk) as (s' & sent & la' & lp' & lc' & -> & Hs & Hf). cbn [mbind outcome_bind].
  destruct (set_full (sets y) key).
  - apply (goes_Some _ _ q' la' lp' lc' (o :: fg)). split; cbn [ring sets cq created ready delivered disposed lost overflowed live]; try done; rewrite ?orb_true_r; try done.
    + by exists keys'.
    + change (outs _) with (outs y). rewrite Hf. tally Io.
    + rewrite app_nil_r. done.
  - apply (goes_Some _ _ q' la' lp' lc' fg). split; cbn [ring sets cq created ready delivered disposed lost overflowed live]; try done; rewrite ?orb_false_r; try done.
    + by exists keys'.
    + change (outs _) with (outs y). tally Io Hf.
    + rewrite app_nil_r. done.
Qed.

(** The outstanding operation of a token has one owner. *)
Lemma owned_once o : o ∈ outs y -> forall l1 l2, live y ++ q ++ tagged la lp lc ++ fg ≡ₚ l1 ++ l2 -> o ∈ l1 ->
  forall o', token_of o' = token_of o -> o' ∉ l2.
Proof.
  intros Ho l1 l2 P H1 o' Ht H2. pose proof (i_own _ _ _ _ _ _ _ I) as Io. rewrite P in Io. pose proof (i_nodup _ _ _ _ _ _ _ I) as N. rewrite Io, fmap_app in N.
  apply NoDup_app in N as (_ & N & _). apply (N (token_of o)); [by apply list_elem_of_fmap_2|]. rewrite <- Ht. by apply list_elem_of_fmap_2.
Qed.

Lemma absent_sets t : (forall o', token_of o' = t -> o' ∉ tagged la lp lc) -> t ∉ la /\ t ∉ lp /\ t ∉ lc.
Proof. intros H. repeat split; intros Ht; [apply (H (Accept, t))|apply (H (Provided, t))|apply (H (Connect, t))]; try done; by apply elem_tagged. Qed.

(** What remains when the completion [c] at the head is settled. *)
Lemma settled_outs c rest : cq y = c :: rest -> c_op c ∈ outs y /\ outs y ≡ₚ c_op c :: kops y ++ (c_op <$> rest).
Proof. intros E. unfold outs. rewrite E, fmap_cons. split; [rewrite elem_of_app, elem_of_cons; tauto|tally]. Qed.

Lemma settled_inv c rest y' la' lp' lc' fg' : cq y = c :: rest -> q = [] ->
  ring y' = ring y -> set_holds (sets y') la' lp' lc' -> kops y' = kops y -> cq y' = rest ->
  live y ++ tagged la lp lc ++ fg ≡ₚ c_op c :: live y' ++ tagged la' lp' lc' ++ fg' ->
  created y' ≡ₚ holding rest ++ holding (ready y') ++ delivered y' ++ disposed y' ++ lost y' ->
  (overflowed y' = false -> fg' = [] /\ lost y' = []) -> Inv worker y' [] la' lp' lc' fg'.
Proof.
  intros E -> Er Hs Ek Ec P Hres Hov. destruct (settled_outs _ _ E) as [_ O]. destruct I as [Ir Is Io In It Ib Ic If]. rewrite E in Ib.
  assert (Eo : outs y' = kops y ++ (c_op <$> rest)) by (unfold outs; by rewrite Ek, Ec). split; rewrite ?Er, ?Eo, ?Ec; try done.
  - apply (Permutation_cons_inv (a := c_op c)). rewrite <- O, Io. tally P.
  - rewrite O, fmap_cons in In. by apply NoDup_cons in In as [_ In].
  - rewrite O in It. by apply Forall_cons in It as [_ It].
  - by apply Forall_cons in Ib as [_ Ib].
Qed.

Lemma pass_on_goes c rest : cq y = c :: rest -> q = [] ->
  (exists i o, live y !! i = Some o /\ c_op c = o /\ dispose_cancelled_op (sets y) (c_token c) (c_result c) (c_buf c) = Ret (false, sets y, [], [])) \/
  (c_op c ∈ fg /\ (forall o, o ∈ live y -> token_of o <> c_token c) /\ dispose_cancelled_op (sets y) (c_token c) (c_result c) (c_buf c) = Ret (false, sets y, [], [])) ->
  goes_on worker (exec worker e LDrain y).
Proof.
  intros E Hq H. cbn [exec]. destruct (negb (CancelInbox.len (ring y) =? 0)); [apply goes_None|]. rewrite E.
  pose proof I as [_ Is _ In _ _ Ic If]. rewrite E, holding_cons in Ic.
  destruct H as [(i & o & Hi & Ho & ->)|(Hfg & Hno & ->)]; cbn [mbind outcome_bind].
  - destruct (list_find _ (live y)) as [[j o']|] eqn:Hf.
    + apply list_find_Some in Hf as (Hj & Ht & _).
      assert (o' = c_op c) as ->.
      { apply (token_inj (outs y)); [done| |by apply (settled_outs c rest)|done].
        rewrite (i_own _ _ _ _ _ _ _ I), elem_of_app. left. by eapply list_elem_of_lookup_2. }
      apply (goes_Some _ _ [] la lp lc fg). apply (settled_inv c rest); try done; cbn [live created ready delivered disposed lost cq].
      * pose proof (perm_delete _ _ _ Hj) as D. tally D.
      * rewrite holding_app, holding_cons. change (holding []) with (@nil resource). tally Ic.
    + apply list_find_None in Hf. rewrite Forall_forall in Hf. destruct (Hf o); [by eapply list_elem_of_lookup_2|]. by rewrite <- Ho.
  - destruct (list_find _ (live y)) as [[j o']|] eqn:Hf.
    + apply list_find_Some in Hf as (Hj & Ht & _). destruct (Hno o'); [by eapply list_elem_of_lookup_2|done].
    + apply elem_of_Permutation in Hfg as [fg' Hfg].
      apply (goes_Some _ _ [] la lp lc fg'). apply (settled_inv c rest); try done; cbn [live created ready delivered disposed lost cq overflowed].
      * tally Hfg.
      * tally Ic.
      * intros [-> _]%If. by apply Permutation_nil_cons in Hfg.
Qed.

Lemma consumed_goes c rest s' closed recycled la' lp' lc' : cq y = c :: rest -> q = [] ->
  dispose_cancelled_op (sets y) (c_token c) (c_result c) (c_buf c) = Ret (true, s', closed, recycled) ->
  set_holds s' la' lp' lc' -> tagged la lp lc ≡ₚ c_op c :: tagged la' lp' lc' -> carried c = (Fd <$> closed) ++ (Buf <$> recycled) ->
  goes_on worker (exec worker e LDrain y).
Proof.
  intros E Hq Hd Hs P Hc. cbn [exec]. destruct (negb (CancelInbox.len (ring y) =? 0)); [apply goes_None|]. rewrite E, Hd. cbn [mbind outcome_bind].
  pose proof I as [_ _ _ _ _ _ Ic If]. rewrite E, holding_cons, Hc in Ic.
  apply (goes_Some _ _ [] la' lp' lc' fg). apply (settled_inv c rest); try done; cbn [live created ready delivered disposed lost cq overflowed].
  - tally P.
  - tally Ic.
Qed.

Lemma drained_queue : CancelInbox.len (ring y) = 0 -> q = [].
Proof.
  intros E. destruct (i_ring _ _ _ _ _ _ _ I) as (keys & Hq & Hr). pose proof (InboxRings.cursors_empty _ _ _ _ _ (proj2 Hr) E) as ->%fmap_nil_inv.
  by inversion Hq.
Qed.

Lemma drain_tagged c rest : cq y = c :: rest -> q = [] -> c_op c ∈ tagged la lp lc -> goes_on worker (exec worker e LDrain y).
Proof.
  intros E Hq Hin. pose proof (settled_outs _ _ E) as [Ho _]. pose proof I as [_ Is _ In _ Ib _ _]. rewrite E in Ib. apply Forall_cons in Ib as [Hb _].
  assert (Hone : forall k, (k, c_token c) ∈ tagged la lp lc -> k = c_kind c).
  { intros k Hk. cut ((k, c_token c) = c_op c); [by intros [= ->]|]. apply (token_inj (outs y)); [done| |done|done].
    rewrite (i_own _ _ _ _ _ _ _ I), !elem_of_app. tauto. }
  assert (Hout : forall k, k <> c_kind c -> (k, c_token c) ∉ tagged la lp lc) by (intros k Hk Hi; by apply Hk, Hone).
  pose proof (proj1 (elem_tagged _ _ la lp lc) Hin) as Hm. destruct c as [k t r b]. unfold c_op in *. cbn [c_kind c_token c_result c_buf] in *.
  assert (Hx : forall k', k' <> k -> match k' with Accept => t ∉ la | Provided => t ∉ lp | Connect => t ∉ lc | Buffered => True end).
  { intros k' Hk'. specialize (Hout k' Hk'). rewrite elem_tagged in Hout. by destruct k'. }
  unfold cqe_ok in Hb. cbn [c_buf c_kind] in Hb. destruct k; [| | |done].
  - assert (b = None) as -> by (destruct Hb; done). destruct (dispose_accept (sets y) la lp lc t r None Is) as (s' & la' & Hd & Hl & Hs);
      [done|by apply (Hx Provided)|by apply (Hx Connect)|done|].
    eapply consumed_goes; [done|done|exact Hd|exact Hs| |]; [|cbn; by rewrite app_nil_r]. unfold tagged, c_op. cbn [c_kind c_token]. rewrite Hl. done.
  - destruct (dispose_provided (sets y) la lp lc t r b Is) as (s' & lp' & Hd & Hl & Hs); [by apply (Hx Accept)|done|by apply (Hx Connect)|].
    eapply consumed_goes; [done|done|exact Hd|exact Hs| |done]. unfold tagged, c_op. cbn [c_kind c_token]. rewrite Hl, fmap_cons. tally.
  - assert (b = None) as -> by (destruct Hb; done). destruct (dispose_connect (sets y) la lp lc t r None Is) as (s' & lc' & Hd & Hl & Hs); [done|done|].
    eapply consumed_goes; [done|done|exact Hd|exact Hs| |done]. unfold tagged, c_op. cbn [c_kind c_token]. rewrite Hl, fmap_cons. tally.
Qed.

(** A completion outside the sets goes past the disposal untouched. *)
Lemma dispose_passes c l2 : c_op c ∈ outs y -> q = [] ->
  live y ++ q ++ tagged la lp lc ++ fg ≡ₚ l2 ++ tagged la lp lc -> c_op c ∈ l2 ->
  dispose_cancelled_op (sets y) (c_token c) (c_result c) (c_buf c) = Ret (false, sets y, [], []).
Proof.
  intros Ho Hq P Hin. destruct (absent_sets (c_token c)) as (Ha & Hp & Hc).
  - intros o' Ht. apply (owned_once (c_op c) Ho l2 (tagged la lp lc)); [done|done|exact Ht].
  - apply (dispose_none _ la lp lc); [apply I|done|done|done].
Qed.

Lemma drain_goes : goes_on worker (exec worker e LDrain y).
Proof.
  destruct (decide (CancelInbox.len (ring y) = 0)) as [Hl|Hl]; [|cbn [exec]; rewrite (proj2 (Z.eqb_neq _ _) Hl); apply goes_None].
  pose proof (drained_queue Hl) as Hq. destruct (cq y) as [|c rest] eqn:E; [cbn [exec]; rewrite E; destruct (negb _); apply goes_None|].
  pose proof (settled_outs _ _ E) as [Ho _]. pose proof Ho as Hin. rewrite (i_own _ _ _ _ _ _ _ I), Hq, !elem_of_app in Hin. cbn [app] in Hin.
  destruct Hin as [Hin|[Hin|[Hin|Hin]]]; [|by apply elem_of_nil in Hin|by eapply drain_tagged|].
  - apply (pass_on_goes c rest); [done|done|]. left. apply list_elem_of_lookup in Hin as [i Hi]. exists i, (c_op c). split; [done|]. split; [done|].
    apply (dispose_passes c (live y ++ fg)); [done|done|rewrite Hq; tally|rewrite elem_of_app; left; by eapply list_elem_of_lookup_2].
  - apply (pass_on_goes c rest); [done|done|]. right. split; [done|]. split.
    + intros o Hlive Ht. apply (owned_once (c_op c) Ho fg (live y ++ tagged la lp lc)) with (o' := o); [rewrite Hq; tally|done|done|]. rewrite elem_of_app. by left.
    + apply (dispose_passes c (live y ++ fg)); [done|done|rewrite Hq; tally|rewrite elem_of_app; by right].
Qed.

End steps.

Lemma slotless_step_ok worker y q la lp lc fg l : Inv worker y q la lp lc fg -> goes_on worker (exec worker (mkEnv true true) l y).
Proof.
  intros I. destruct l; eauto using submit_goes, complete_goes, drop_goes, poll_goes, cancel_goes, drain_goes.
  cbn [exec]. destruct (ready y !! i); apply goes_None.
Qed.

Lemma slotless_start_inv worker i m : Inv worker (start i m) [] [] [] [] [].
Proof.
  split; cbn; try done.
  - exists []. split; [constructor|]. apply InboxRings.inline_new. done.
  - constructor.
Qed.

Lemma slotless_reach_inv worker i m y : reach worker (mkEnv true true) (start i m) y -> exists q la lp lc fg, Inv worker y q la lp lc fg.
Proof.
  induction 1 as [|y l y' _ (q & la & lp & lc & fg & I) E]; [eauto 10 using slotless_start_inv|].
  destruct (slotless_step_ok worker y q la lp lc fg l I) as (o & E' & H). rewrite E in E'. injection E' as <-. by apply H.
Qed.

End SlotlessInv.

Module SlotlessThms.
Import IoTokens CancelRoute SlotlessProto SlotlessInv Tally.

(** Nothing is outstanding: no future waits or holds a completion, the kernel
    and both queues are empty. *)
Definition at_rest (y : sys) : Prop := live y = [] /\ ready y = [] /\ kops y = [] /\ cq y = [].


Lemma slotless_run_reach worker e y0 ls y y' : reach worker e y0 y -> run worker e ls y = Ret (Some y') -> reach worker e y0 y'.
Proof.
  revert y. induction ls as [|l ls IH]; intros y R E; cbn [run] in E; [by injection E as <-|].
  apply outcome_bind_Ret in E as ([y1|] & E1 & E); [|done]. apply (IH y1); [|done]. by eapply reach_step.
Qed.

Definition demo_slab : { s | Inflight.new true 3 1 = Some s }.
Proof. eexists. vm_compute. reflexivity. Defined.

Definition demo_start : sys := start (proj1_sig demo_slab) (Multishot.new 3 8).

(** An accept dropped before it completes, a receive that is delivered, a
    dropped receive whose buffer is recycled and a dropped connect. *)
Definition demo : list label :=
  [LSubmit Accept 7; LSubmit Provided 8; LSubmit Provided 9; LSubmit Connect 10; LDrop 0; LDrop 1; LDrop 1; LCancel true; LCancel false; LCancel true;
   LComplete 0 5 None; LComplete 0 64 (Some 2); LComplete 0 32 (Some 3); LComplete 0 0 None; LDrain; LDrain; LDrain; LDrain; LPoll 0].


(** The disciplines are needed.  When a task that dropped an accept has a
    receive outstanding, the receive's byte count is closed as a descriptor no
    accept ever produced; and when an accept is dropped after its completion
    was stored, its descriptor is lost, and the next accept of the task has
    its descriptor closed while its future waits with nothing outstanding. *)
Theorem slotless_disciplines_needed :
  (exists y, reach 3 (mkEnv false true) demo_start y /\ created y = [] /\ disposed y = [Fd 5]) /\
  (exists y, reach 3 (mkEnv true false) demo_start y /\ lost y = [Fd 9] /\ disposed y = [Fd 11] /\ live y = [(Accept, 7)] /\
     kops y = [] /\ cq y = [] /\ ready y = [] /\ overflowed y = false).
Proof.
  split.
  - assert (E : exists y, run 3 (mkEnv false true) [LSubmit Accept 7; LSubmit Buffered 7; LDrop 0; LCancel true; LComplete 1 5 None; LDrain] demo_start = Ret (Some y) /\
      created y = [] /\ disposed y = [Fd 5]) by (eexists; split; [vm_compute; reflexivity|by vm_compute]).
    destruct E as (y & E & H). exists y. split; [|exact H]. by apply (slotless_run_reach _ _ _ _ _ _ (reach_start _ _ _) E).
  - assert (E : exists y, run 3 (mkEnv true false) [LSubmit Accept 7; LComplete 0 9 None; LDrain; LDropReady 0; LCancel true; LSubmit Accept 7; LComplete 0 11 None; LDrain] demo_start = Ret (Some y) /\
      lost y = [Fd 9] /\ disposed y = [Fd 11] /\ live y = [(Accept, 7)] /\ kops y = [] /\ cq y = [] /\ ready y = [] /\ overflowed y = false)
      by (eexists; split; [vm_compute; reflexivity|by vm_compute]).
    destruct E as (y & E & H). exists y. split; [|exact H]. by apply (slotless_run_reach _ _ _ _ _ _ (reach_start _ _ _) E).
Qed.

End SlotlessThms.
