(* ===== verification/Registered.v ===== *)
(** * Registered buffer and descriptor slots

    Models src/crates/kwokka-io/src/buffer/registration/buffers.rs
    ([RegisteredBuffers]) and fds.rs ([RegisteredFds]): two registries with
    the same code, a bitmap of used slots under a capacity clamped to the
    size of the bitmap.  They refine a finite set of slots that hands out the
    least free one. *)

From S2P Require Import Prelude Words Bitmap.
From stdpp Require Import base tactics option numbers list gmap.

Local Open Scope Z_scope.

Module Registered.

Inductive RegisterError : Type := Unsupported | SlotExhausted | InvalidArgument.

Record Registry : Type := mkReg { used : list Z; capacity : Z }.

Section ops.
(** The number of words of the bitmap. *)
Context (words : nat).

Definition new (capacity : Z) : Registry := mkReg (replicate words 0) (Z.min capacity (Z.of_nat words * 64)).

(** The loop of [allocate] from word [word_idx] on: the slot taken and the
    words after it. *)
Fixpoint allocate_from (limit : Z) (word_idx : nat) (ws : list Z) : option Z * list Z :=
  match ws with
  | [] => (None, [])
  | word :: ws =>
      let last_word := limit / 64 in
      let last_bit := limit mod 64 in
      let search mask :=
        let available := Z.land (lnot U64 word) mask in
        if negb (available =? 0)
        then let bit := trailing_zeros available in
             (Some (Z.of_nat word_idx * 64 + bit), Z.lor word (Z.shiftl 1 bit) :: ws)
        else let '(slot, ws) := allocate_from limit (word_idx + 1) ws in (slot, word :: ws) in
      if Z.of_nat word_idx <? last_word then search (2 ^ 64 - 1)
      else if (Z.of_nat word_idx =? last_word) && (0 <? last_bit) then search (Z.shiftl 1 last_bit - 1)
      else (None, word :: ws)
  end.

Definition allocate (self : Registry) : result RegisterError Z * Registry :=
  let '(slot, used) := allocate_from (capacity self) 0 (used self) in
  (ok_or slot SlotExhausted, mkReg used (capacity self)).

Definition release (self : Registry) (slot : Z) : outcome (result RegisterError unit * Registry) :=
  if capacity self <=? slot then Ret (Err InvalidArgument, self) else
  taken ← Bitmap.test (used self) slot;
  if negb taken then Ret (Err InvalidArgument, self) else
  used ← Bitmap.clear (used self) slot;
  Ret (Ok tt, mkReg used (capacity self)).

Definition is_allocated (self : Registry) (slot : Z) : outcome bool :=
  if capacity self <=? slot then Ret false else Bitmap.test (used self) slot.

End ops.
End Registered.

Module RegisteredBuffers.
Definition MAX_REGISTERED_BUFFERS : Z := 32768.
Definition BUFFER_BITMAP_WORDS : nat := Z.to_nat (MAX_REGISTERED_BUFFERS / 64).
(** [BufGroupId(slot as u16)]. *)
Definition new (capacity : Z) : Registered.Registry := Registered.new BUFFER_BITMAP_WORDS capacity.
Definition allocate (self : Registered.Registry) : result Registered.RegisterError Z * Registered.Registry :=
  let '(r, self) := Registered.allocate self in (match r with Ok slot => Ok (wrap U16 slot) | Err e => Err e end, self).
Definition release : Registered.Registry -> Z -> outcome (result Registered.RegisterError unit * Registered.Registry) := Registered.release.
Definition is_allocated : Registered.Registry -> Z -> outcome bool := Registered.is_allocated.
End RegisteredBuffers.

Module RegisteredFds.
Definition MAX_REGISTERED_FDS : Z := 65536.
Definition FD_BITMAP_WORDS : nat := Z.to_nat (MAX_REGISTERED_FDS / 64).
(** [FdSlot(slot as u32)]. *)
Definition new (capacity : Z) : Registered.Registry := Registered.new FD_BITMAP_WORDS capacity.
Definition allocate (self : Registered.Registry) : result Registered.RegisterError Z * Registered.Registry :=
  let '(r, self) := Registered.allocate self in (match r with Ok slot => Ok (wrap U32 slot) | Err e => Err e end, self).
Definition release : Registered.Registry -> Z -> outcome (result Registered.RegisterError unit * Registered.Registry) := Registered.release.
Definition is_allocated : Registered.Registry -> Z -> outcome bool := Registered.is_allocated.
End RegisteredFds.

(** ** The set of slots *)

Module RegisteredThms.
Import Registered.

Inductive op : Type := Allocate | Release (slot : Z) | IsAllocated (slot : Z).
Inductive answer : Type := Slot (r : result RegisterError Z) | Done (r : result RegisterError unit) | Bool (b : bool).

(** The abstract registry: the set of used slots under a capacity. *)
Definition least_free (cap : Z) (X : gset Z) : option Z := hd_error (filter (.∉ X) (seqZ 0 cap)).

Definition spec_step (cap : Z) (X : gset Z) (o : op) : answer * gset Z :=
  match o with
  | Allocate =>
      match least_free cap X with
      | Some slot => (Slot (Ok slot), {[slot]} ∪ X)
      | None => (Slot (Err SlotExhausted), X)
      end
  | Release slot => if decide (slot ∈ X) then (Done (Ok tt), X ∖ {[slot]}) else (Done (Err InvalidArgument), X)
  | IsAllocated slot => (Bool (bool_decide (slot ∈ X)), X)
  end.

Fixpoint spec_run (cap : Z) (X : gset Z) (ops : list op) : list answer :=
  match ops with [] => [] | o :: ops => let '(a, X) := spec_step cap X o in a :: spec_run cap X ops end.

(** [narrow] is the cast the slot is returned with. *)
Definition run_step (narrow : Z -> Z) (self : Registry) (o : op) : outcome (answer * Registry) :=
  match o with
  | Allocate => let '(r, self) := allocate self in Ret (Slot (match r with Ok slot => Ok (narrow slot) | Err e => Err e end), self)
  | Release slot => '(r, self) ← release self slot; Ret (Done r, self)
  | IsAllocated slot => b ← is_allocated self slot; Ret (Bool b, self)
  end.

Fixpoint run (narrow : Z -> Z) (self : Registry) (ops : list op) : outcome (list answer) :=
  match ops with [] => Ret [] | o :: ops => '(a, self) ← run_step narrow self o; answers ← run narrow self ops; Ret (a :: answers) end.

Section refine.
Context (words : nat) (Hw : Z.of_nat words * 64 <= 2 ^ 16).

(** [self] stands for the set [X]. *)
Record stands (cap : Z) (self : Registry) (X : gset Z) : Prop := {
  sd_wf : Bitmap.wf words (used self);
  sd_cap : capacity self = cap;
  sd_range : 0 <= cap <= Z.of_nat words * 64;
  sd_has j : 0 <= j -> Bitmap.has (used self) j = bool_decide (j ∈ X);
  sd_in j : j ∈ X -> 0 <= j < cap;
}.

(** The loop takes the slot [free_loop] finds and sets its bit. *)
Lemma allocate_from_spec limit ws w : 0 <= limit <= 2 ^ 16 -> Forall (fits 64) ws ->
  match Bitmap.free_loop limit w ws with
  | Some slot => exists k x, slot = Z.of_nat (w + k) * 64 + slot mod 64 /\ ws !! k = Some x /\
      allocate_from limit w ws = (Some slot, <[k := Z.lor x (Z.shiftl 1 (slot mod 64))]> ws)
  | None => allocate_from limit w ws = (None, ws)
  end.
Proof.
  intros Hl. revert w. induction ws as [|x ws IH]; intros w Hf; [done|]. apply Forall_cons in Hf as [Hx Hf]. specialize (IH (w + 1)%nat Hf).
  assert (Hs : forall k, 0 <= k <= 64 -> Z.of_nat w * 64 + k <= 2 ^ 16 ->
    match (let available := Z.land (lnot U64 x) (2 ^ k - 1) in
           if negb (available =? 0) then try_from U16 (Z.of_nat w * 64 + trailing_zeros available) else Bitmap.free_loop limit (w + 1) ws) with
    | Some slot => exists k' x', slot = Z.of_nat (w + k') * 64 + slot mod 64 /\ (x :: ws) !! k' = Some x' /\
        (let available := Z.land (lnot U64 x) (2 ^ k - 1) in
         if negb (available =? 0) then let bit := trailing_zeros available in (Some (Z.of_nat w * 64 + bit), Z.lor x (Z.shiftl 1 bit) :: ws)
         else let '(slot, ws) := allocate_from limit (w + 1) ws in (slot, x :: ws)) = (Some slot, <[k' := Z.lor x' (Z.shiftl 1 (slot mod 64))]> (x :: ws))
    | None => (let available := Z.land (lnot U64 x) (2 ^ k - 1) in
         if negb (available =? 0) then let bit := trailing_zeros available in (Some (Z.of_nat w * 64 + bit), Z.lor x (Z.shiftl 1 bit) :: ws)
         else let '(slot, ws) := allocate_from limit (w + 1) ws in (slot, x :: ws)) = (None, x :: ws)
    end).
  { intros k Hk Hb. destruct (Bitmap.available_spec x k Hx Hk) as [_ H1]. cbv zeta. set (a := Z.land (lnot U64 x) (2 ^ k - 1)) in *.
    destruct (Z.eqb_spec a 0) as [E|E]; cbn [negb].
    - destruct (Bitmap.free_loop limit (w + 1) ws) as [slot|]; [|by rewrite IH]. destruct IH as (k' & x' & E1 & E2 & ->).
      exists (S k'), x'. split; [by rewrite <- Nat.add_succ_comm, <- (Nat.add_1_r w)|]. by split.
    - destruct (H1 E) as (Ht & _). unfold try_from. destruct (Z.ltb_spec (Z.of_nat w * 64 + trailing_zeros a) (2 ^ 16)); [|lia].
      exists 0%nat, x. assert (Hm : (Z.of_nat w * 64 + trailing_zeros a) mod 64 = trailing_zeros a)
        by (rewrite Z.add_comm, Z.mod_add by lia; apply Z.mod_small; lia). rewrite Hm, Nat.add_0_r. done. }
  cbn [Bitmap.free_loop allocate_from]. destruct (Z.ltb_spec (Z.of_nat w) (limit / 64)).
  - apply (Hs 64); [lia|]. Z.div_mod_to_equations; lia.
  - destruct ((Z.of_nat w =? limit / 64) && (0 <? limit mod 64)) eqn:E; [|done]. rewrite Z.shiftl_1_l. apply Hs; Z.div_mod_to_equations; lia.
Qed.

Lemma filter_none (X : gset Z) l : (forall j, j ∈ l -> j ∈ X) -> filter (.∉ X) l = [].
Proof.
  induction l as [|x l IH]; intros H; [done|]. rewrite filter_cons_False by (intros Hn; apply Hn, H; left). apply IH. intros j Hj. apply H. by right.
Qed.

Lemma least_free_Some cap X i : 0 <= i < cap -> i ∉ X -> (forall j, 0 <= j < i -> j ∈ X) -> least_free cap X = Some i.
Proof.
  intros Hi Hx Hj. unfold least_free. replace cap with (i + (1 + (cap - i - 1))) by lia. rewrite seqZ_app, filter_app by lia.
  rewrite (filter_none X (seqZ 0 i)) by (intros j Hj'%elem_of_seqZ; apply Hj; lia).
  rewrite Z.add_0_l, seqZ_cons by lia. cbn [app]. rewrite filter_cons_True by done. done.
Qed.

Lemma least_free_None cap X : (forall j, 0 <= j < cap -> j ∈ X) -> least_free cap X = None.
Proof. intros Hj. unfold least_free. rewrite filter_none; [done|]. intros j Hj'%elem_of_seqZ. apply Hj. lia. Qed.

Lemma slot_words i : 0 <= i < Z.of_nat words * 64 -> Bitmap.slot_in words i.
Proof. unfold Bitmap.slot_in. lia. Qed.

Lemma reg_allocate_spec cap self X : stands cap self X ->
  match least_free cap X with
  | Some slot => 0 <= slot < cap /\ exists self', allocate self = (Ok slot, self') /\ stands cap self' ({[slot]} ∪ X)
  | None => allocate self = (Err SlotExhausted, self)
  end.
Proof.
  intros [W C R H I]. pose proof (Bitmap.first_free_spec words cap (used self) W ltac:(lia) ltac:(lia)) as Hf. unfold Bitmap.first_free in Hf.
  pose proof (allocate_from_spec cap (used self) 0 ltac:(lia) (proj2 W)) as Ha. unfold allocate. rewrite C.
  destruct (Bitmap.free_loop cap 0 (used self)) as [slot|]; cbn [Bitmap.free_from] in Hf.
  - destruct Hf as (Hr & Hn & Hl). rewrite H in Hn by lia. apply bool_decide_eq_false in Hn.
    rewrite (least_free_Some cap X slot); [|done|done|]; [|intros j Hj; specialize (Hl j Hj); rewrite H in Hl by lia; by apply bool_decide_eq_true in Hl].
    split; [done|]. destruct Ha as (k & x & Hs & Hk & ->).
    destruct (Bitmap.set_total words (used self) slot W (slot_words slot ltac:(lia))) as (b' & Eb & Wb & Hb).
    assert (Ek : Z.to_nat (slot / 64) = k) by (pose proof (Z_div_mod_eq_full slot 64); lia).
    assert (b' = <[k := Z.lor x (Z.shiftl 1 (slot mod 64))]> (used self)) as ->.
    { unfold Bitmap.set, Bitmap.word_bit, Bitmap.index in Eb. rewrite Ek, Hk in Eb. cbn in Eb. unfold Bitmap.store in Eb.
      rewrite decide_True in Eb by (by eapply lookup_lt_Some). by injection Eb as <-. }
    eexists. split; [done|]. split; cbn [used capacity]; [done|done|done| |].
    + intros j Hj. rewrite Hb by done. case_decide; [subst; by rewrite bool_decide_true by set_solver|]. rewrite H by done. apply bool_decide_ext. set_solver.
    + intros j [->%elem_of_singleton|Hj]%elem_of_union; [lia|by apply I].
  - rewrite least_free_None; [|intros j Hj; specialize (Hf j Hj); rewrite H in Hf by lia; by apply bool_decide_eq_true in Hf].
    rewrite Ha. cbn. rewrite <- C. by destruct self.
Qed.

Lemma reg_test_bit cap self X slot : stands cap self X -> 0 <= slot < cap -> Bitmap.test (used self) slot = Ret (bool_decide (slot ∈ X)).
Proof. intros [W C R H I] Hs. rewrite (Bitmap.test_spec words) by (done || apply slot_words; lia). by rewrite H by lia. Qed.

Lemma reg_release_spec cap self X slot : stands cap self X -> 0 <= slot ->
  exists self', release self slot = Ret (if decide (slot ∈ X) then Ok tt else Err InvalidArgument, self') /\
    stands cap self' (if decide (slot ∈ X) then X ∖ {[slot]} else X).
Proof.
  intros S Hs. pose proof S as [W C R H I]. unfold release. rewrite C. destruct (Z.leb_spec cap slot).
  - assert (slot ∉ X) by (intros Hi%I; lia). rewrite !decide_False by done. by exists self.
  - rewrite (reg_test_bit cap self X) by (done || lia). cbn [mbind outcome_bind]. destruct (decide (slot ∈ X)) as [Hx|Hx].
    + rewrite bool_decide_true by done. cbn [negb]. destruct (Bitmap.clear_total words (used self) slot W (slot_words slot ltac:(lia))) as (b' & -> & Wb & Hb).
      eexists. split; [done|]. split; cbn [used capacity]; [done|done|done| |].
      * intros j Hj. rewrite Hb by done. case_decide; [subst; by rewrite bool_decide_false by set_solver|]. rewrite H by done. apply bool_decide_ext. set_solver.
      * intros j [Hj _]%elem_of_difference. by apply I.
    + rewrite bool_decide_false by done. by exists self.
Qed.

Definition op_ok (o : op) : Prop := match o with Allocate => True | Release slot | IsAllocated slot => 0 <= slot end.

Lemma registered_step_refines narrow cap self X o : (forall slot, 0 <= slot < cap -> narrow slot = slot) -> stands cap self X -> op_ok o ->
  exists self', run_step narrow self o = Ret ((spec_step cap X o).1, self') /\ stands cap self' (spec_step cap X o).2.
Proof.
  intros Hn S Ho. destruct o as [|slot|slot]; cbn [run_step spec_step].
  - pose proof (reg_allocate_spec cap self X S) as Ha. destruct (least_free cap X) as [slot|].
    + destruct Ha as (Hr & self' & -> & S'). exists self'. cbn. by rewrite Hn.
    + rewrite Ha. by exists self.
  - destruct (reg_release_spec cap self X slot S Ho) as (self' & -> & S'). exists self'. by destruct (decide (slot ∈ X)).
  - exists self. split; [|done]. unfold is_allocated. rewrite (sd_cap _ _ _ S). destruct (Z.leb_spec cap slot).
    + cbn. do 3 f_equal. symmetry. apply bool_decide_eq_false. intros Hi%(sd_in _ _ _ S). lia.
    + rewrite (reg_test_bit cap self X) by (done || cbn in Ho; lia). done.
Qed.

Lemma registered_run_refines narrow cap ops : forall self X, (forall slot, 0 <= slot < cap -> narrow slot = slot) -> stands cap self X -> Forall op_ok ops ->
  run narrow self ops = Ret (spec_run cap X ops).
Proof.
  induction ops as [|o ops IH]; intros self X Hn S Hok; [done|]. apply Forall_cons in Hok as [Ho Hok].
  destruct (registered_step_refines narrow cap self X o Hn S Ho) as (self' & E & S'). cbn [run spec_run]. rewrite E. cbn [mbind outcome_bind].
  destruct (spec_step cap X o) as [a X']. cbn [fst snd] in *. rewrite (IH self' X') by done. done.
Qed.

Lemma new_stands capacity : 0 <= capacity -> stands (Z.min capacity (Z.of_nat words * 64)) (new words capacity) ∅.
Proof.
  intros Hc. split; cbn [used Registered.capacity new]; [|done|lia| |set_solver].
  - split; [apply length_replicate|]. apply Forall_replicate. done.
  - intros j Hj. rewrite bool_decide_false by set_solver. unfold Bitmap.has. rewrite nth_lookup.
    destruct (replicate words 0 !! Z.to_nat (j / 64)) as [x|] eqn:E; [|apply Z.bits_0]. apply lookup_replicate in E as [-> _]. apply Z.bits_0.
Qed.

End refine.

(** C40: The registries of registered buffers and of registered descriptors
    refine a set of slots, for every capacity and every script of operations:
    no bitmap access is out of range, [allocate] hands out the least free slot
    below the clamped capacity and reports exhaustion exactly when there is
    none, the narrowing casts lose nothing, [release] frees exactly an
    allocated slot and rejects every other argument, and [is_allocated] tells
    which slots are out. *)
Theorem registered_slots_refine capacity ops : 0 <= capacity -> Forall op_ok ops ->
  run (wrap U16) (RegisteredBuffers.new capacity) ops = Ret (spec_run (Z.min capacity RegisteredBuffers.MAX_REGISTERED_BUFFERS) ∅ ops) /\
  run (wrap U32) (RegisteredFds.new capacity) ops = Ret (spec_run (Z.min capacity RegisteredFds.MAX_REGISTERED_FDS) ∅ ops).
Proof.
  intros Hc Hok. split.
  - apply (registered_run_refines RegisteredBuffers.BUFFER_BITMAP_WORDS ltac:(done)); [|exact (new_stands RegisteredBuffers.BUFFER_BITMAP_WORDS ltac:(done) capacity Hc)|done].
    intros slot Hs. apply Z.mod_small. unfold RegisteredBuffers.MAX_REGISTERED_BUFFERS in Hs. lia.
  - apply (registered_run_refines RegisteredFds.FD_BITMAP_WORDS ltac:(done)); [|exact (new_stands RegisteredFds.FD_BITMAP_WORDS ltac:(done) capacity Hc)|done].
    intros slot Hs. apply Z.mod_small. unfold RegisteredFds.MAX_REGISTERED_FDS in Hs. lia.
Qed.

Lemma registered_slots_refine_witness :
  let ops := [Allocate; Allocate; Allocate; Release 0; Release 0; Allocate; IsAllocated 1; IsAllocated 9] in
  run (wrap U16) (RegisteredBuffers.new 2) ops =
    Ret [Slot (Ok 0); Slot (Ok 1); Slot (Err SlotExhausted); Done (Ok tt); Done (Err InvalidArgument); Slot (Ok 0); Bool true; Bool false].
Proof.
  refine (eq_trans (proj1 (registered_slots_refine 2 _ _ _)) _); [discriminate| |vm_compute; reflexivity].
  repeat (apply Forall_cons; split; [cbn; exact I || discriminate|]). apply Forall_nil. exact I.
Defined.

End RegisteredThms.
