(* ===== verification/BufRing.v ===== *)
(** * The provided-buffer ring, its pool and the views over it

    Models src/crates/kwokka-io/src/buffer/ring/abi.rs and memory.rs
    ([BufRing], the ring of buffer entries shared with the kernel, whose tail
    lives in the reserved field of entry 0), pool.rs ([BufRingPool]), the
    per-worker registration of a pool with its epoch
    (src/crates/kwokka-io/src/boundary/seam/pool.rs) and [ProvidedBuf]
    (src/crates/kwokka-io/src/operation/core/provided.rs).  [Module BufProto]
    puts them together with the kernel, which takes entries at its own head,
    and with runs of the worker that install and clear the registration. *)

From S2P Require Import Prelude IrBytes ArenaBump Bitmap.
From Stdlib.Init Require Import Byte.
From stdpp Require Import base tactics option numbers list.

Local Open Scope Z_scope.

Module BufRing.

Record BufRingEntry : Type := mkEntry { addr : Z; len : Z; bid : Z; resv : Z }.

(** [ring] is the mapped region. *)
Record BufRing : Type := mkRing { ring : list BufRingEntry; entries : Z; mask : Z }.

Definition from_raw (ring : list BufRingEntry) (entries : Z) : outcome BufRing :=
  if (0 <? entries) && Arena.is_power_of_two entries then Ret (mkRing ring entries (entries - 1)) else Panic.

(** The tail counter: the reserved field of entry 0. *)
Definition tail (self : BufRing) : outcome Z := e ← Bitmap.index (ring self) 0; Ret (resv e).

Definition store_tail (self : BufRing) (t : Z) : outcome BufRing :=
  e ← Bitmap.index (ring self) 0;
  r ← Bitmap.store (ring self) 0 (mkEntry (addr e) (len e) (bid e) t);
  Ret (mkRing r (entries self) (mask self)).

Definition push (self : BufRing) (addr len bid : Z) : outcome BufRing :=
  t ← tail self;
  let idx := Z.land t (mask self) in
  e ← Bitmap.index (ring self) (Z.to_nat idx);
  r ← Bitmap.store (ring self) (Z.to_nat idx) (mkEntry addr len bid (resv e));
  store_tail (mkRing r (entries self) (mask self)) (wrap U16 (t + 1)).

End BufRing.

Module BufRingPool.
Import BufRing Bytes.

(** [base] is the address of the storage region. *)
Record BufRingPool : Type := mkPool {
  pring : BufRing; storage : list byte; base : Z; buf_size : Z; pentries : Z; group_id : Z }.

Inductive PoolError : Type := ZeroBufSize | BadEntries | TooManyEntries | MapFailed.

Definition check_params (entries buf_size : Z) : result PoolError unit :=
  if buf_size =? 0 then Err ZeroBufSize
  else if (entries =? 0) || negb (Arena.is_power_of_two entries) then Err BadEntries
  else if 2 ^ 15 <? entries then Err TooManyEntries
  else Ok tt.

Definition check_bid (bid entries : Z) : bool := bid <? entries.
Definition check_len (len buf_size : Z) : bool := len <=? buf_size.

(** [base + u64::from(bid) * u64::from(buf_size)]. *)
Definition buf_addr (base bid buf_size : Z) : outcome Z := add_or_panic U64 base (bid * buf_size).

Fixpoint push_all (n : nat) (bid : Z) (base buf_size : Z) (r : BufRing) : outcome BufRing :=
  match n with
  | O => Ret r
  | S n => a ← buf_addr base bid buf_size; r ← push r a buf_size bid; push_all n (bid + 1) base buf_size r
  end.

(** The two [mmap] calls answer whether the ring was mapped and where the
    storage was. *)
Definition new (ring_mapped : bool) (storage_at : option Z) (entries buf_size group_id : Z) : outcome (result PoolError BufRingPool) :=
  match check_params entries buf_size with
  | Err e => Ret (Err e)
  | Ok _ =>
      if negb ring_mapped then Ret (Err MapFailed) else
      r ← from_raw (replicate (Z.to_nat entries) (mkEntry 0 0 0 0)) entries;
      match storage_at with
      | None => Ret (Err MapFailed)
      | Some base =>
          r ← push_all (Z.to_nat entries) 0 base buf_size r;
          Ret (Ok (mkPool r (replicate (Z.to_nat (entries * buf_size)) x00) base buf_size entries group_id))
      end
  end.

Definition get (self : BufRingPool) (bid len : Z) : outcome (list byte) :=
  if negb (check_bid bid (pentries self)) then Panic else
  if negb (check_len len (buf_size self)) then Panic else
  let offset := bid * buf_size self in
  match get_range (storage self) offset (offset + len) with Some bytes => Ret bytes | None => Panic end.

Definition recycle (self : BufRingPool) (bid : Z) : outcome BufRingPool :=
  if negb (check_bid bid (pentries self)) then Panic else
  a ← buf_addr (base self) bid (buf_size self);
  r ← push (pring self) a (buf_size self) bid;
  Ret (mkPool r (storage self) (base self) (buf_size self) (pentries self) (group_id self)).

End BufRingPool.

(** ** The registration and the views *)

Module ProvidedBuf.
Import BufRingPool.

Definition PROVIDED_POOL_SLOTS : nat := 256.

(** [PROVIDED_POOLS] (an address or null) and [PROVIDED_POOL_EPOCHS]. *)
Record statics : Type := mkStatics { pools : list (option nat); epochs : list Z }.

Definition provided_pool (st : statics) (worker_id epoch : Z) : outcome (option nat) :=
  p ← Bitmap.index (pools st) (Z.to_nat worker_id);
  match p with
  | None => Ret None
  | Some p => e ← Bitmap.index (epochs st) (Z.to_nat worker_id); Ret (if e =? epoch then Some p else None)
  end.

Definition provided_pool_epoch (st : statics) (worker_id : Z) : outcome Z := Bitmap.index (epochs st) (Z.to_nat worker_id).

(** [ProvidedPoolGuard::install_pool] and its [Drop]. *)
Definition install_pool (st : statics) (worker_id : Z) (pool : option nat) : outcome statics :=
  match pool with
  | None => Ret st
  | Some p =>
      e ← Bitmap.index (epochs st) (Z.to_nat worker_id);
      es ← Bitmap.store (epochs st) (Z.to_nat worker_id) (wrap U64 (e + 1));
      ps ← Bitmap.store (pools st) (Z.to_nat worker_id) (Some p);
      Ret (mkStatics ps es)
  end.

Definition guard_drop (st : statics) (worker_id : Z) : outcome statics :=
  ps ← Bitmap.store (pools st) (Z.to_nat worker_id) None; Ret (mkStatics ps (epochs st)).

Record ProvidedBuf : Type := mkBuf { buf_id : option Z; blen : Z; worker_id : Z; epoch : Z }.

Definition new (worker_id epoch buf_id len : Z) : ProvidedBuf := mkBuf (Some buf_id) len worker_id epoch.
Definition empty : ProvidedBuf := mkBuf None 0 0 0.

(** [u32::try_from(result)] of a non-negative result always fits. *)
Definition resolve_selected (st : statics) (worker_id result buf_id : Z) : outcome ProvidedBuf :=
  e ← provided_pool_epoch st worker_id; Ret (new worker_id e buf_id result).

(** [mem a] is the pool at address [a], if it is still there: reading through
    an address whose pool is gone is undefined. *)
Definition bytes (st : statics) (mem : nat -> option BufRingPool) (self : ProvidedBuf) : outcome (list byte) :=
  match buf_id self with
  | None => Ret []
  | Some id =>
      p ← provided_pool st (worker_id self) (epoch self);
      match p with
      | None => Panic
      | Some p => match mem p with Some pool => get pool id (blen self) | None => Undefined end
      end
  end.

(** The pool the buffer goes back to, with its new state; [None] when the drop
    skips the recycling. *)
Definition drop (st : statics) (mem : nat -> option BufRingPool) (self : ProvidedBuf) : outcome (option (nat * BufRingPool)) :=
  match buf_id self with
  | None => Ret None
  | Some id =>
      p ← provided_pool st (worker_id self) (epoch self);
      match p with
      | None => Ret None
      | Some p =>
          match mem p with
          | None => Undefined
          | Some pool => if negb (check_bid id (pentries pool)) then Ret None else pool ← recycle pool id; Ret (Some (p, pool))
          end
      end
  end.

End ProvidedBuf.

(** ** Workers, views and the kernel together *)

Module BufProto.
Import BufRing BufRingPool ProvidedBuf.

(** A pool in memory: its owner, the kernel's head, the buffers the kernel
    took and has not handed over, and those whose view was dropped outside
    the run that produced it. *)
Record pool_state : Type := mkPs { pl : BufRingPool; owner : Z; khead : Z; picked : list Z; gone : list Z }.

Record sys : Type := mkSys { st : statics; mem : list (option pool_state); views : list (ProvidedBuf * nat) }.

Definition state_at (y : sys) (p : nat) : option pool_state := mjoin (mem y !! p).
Definition pool_at (y : sys) (p : nat) : option BufRingPool := pl <$> state_at y p.

(** The entries between the kernel's head and the tail. *)
Definition ring_window (r : BufRing) (head t : Z) : list BufRingEntry :=
  Fifo.window (entries r) (fun i => nth (Z.to_nat i) (ring r) (mkEntry 0 0 0 0)) (head mod entries r) (wrap U16 (t - head)).

Definition ring_bids (ps : pool_state) : list Z :=
  match tail (pring (pl ps)) with Ret t => bid <$> ring_window (pring (pl ps)) (khead ps) t | _ => [] end.

Inductive label : Type :=
| LBuild (w entries buf_size base : Z)
| LInstall (w : Z) (p : nat)
| LClear (w : Z)
| LFree (p : nat)
| LPick (p : nat)
| LResolve (p : nat) (i : nat) (len : Z)
| LRecycle (p : nat) (i : nat)
| LDrop (i : nat).

Definition put (p : nat) (ps : pool_state) (y : sys) : sys := mkSys (st y) (<[p := Some ps]> (mem y)) (views y).

Definition is_installed (y : sys) (w : Z) (p : nat) : bool := bool_decide (pools (st y) !! Z.to_nat w = Some (Some p)).

(** [Ret None]: the step is not enabled. *)
Definition exec (l : label) (y : sys) : outcome (option sys) :=
  match l with
  | LBuild w entries buf_size base =>
      if negb (fitsb 8 w && fitsb 16 entries && fitsb 32 buf_size && (0 <=? base) && (base + entries * buf_size <? 2 ^ 64)) then Ret None else
      r ← BufRingPool.new true (Some base) entries buf_size 0;
      match r with
      | Ok pool => Ret (Some (mkSys (st y) (mem y ++ [Some (mkPs pool w 0 [] [])]) (views y)))
      | Err _ => Ret None
      end
  | LInstall w p =>
      match state_at y p, pools (st y) !! Z.to_nat w, epochs (st y) !! Z.to_nat w with
      | Some ps, Some None, Some e =>
          if (owner ps =? w) && (e <? 2 ^ 64 - 1) then
            s ← install_pool (st y) w (Some p); Ret (Some (mkSys s (mem y) (views y)))
          else Ret None
      | _, _, _ => Ret None
      end
  | LClear w => if fitsb 8 w then s ← guard_drop (st y) w; Ret (Some (mkSys s (mem y) (views y))) else Ret None
  | LFree p =>
      match state_at y p with
      | Some ps => if is_installed y (owner ps) p then Ret None else Ret (Some (mkSys (st y) (<[p := None]> (mem y)) (views y)))
      | None => Ret None
      end
  | LPick p =>
      match state_at y p with
      | Some ps =>
          match ring_bids ps with
          | b :: _ => Ret (Some (put p (mkPs (pl ps) (owner ps) (wrap U16 (khead ps + 1)) (picked ps ++ [b]) (gone ps)) y))
          | [] => Ret None
          end
      | None => Ret None
      end
  | LResolve p i len =>
      match state_at y p with
      | Some ps =>
          match picked ps !! i with
          | Some b =>
              if is_installed y (owner ps) p && (0 <=? len) && (len <=? buf_size (pl ps)) then
                view ← resolve_selected (st y) (owner ps) len b;
                Ret (Some (mkSys (st y) (<[p := Some (mkPs (pl ps) (owner ps) (khead ps) (delete i (picked ps)) (gone ps))]> (mem y)) (views y ++ [(view, p)])))
              else Ret None
          | None => Ret None
          end
      | None => Ret None
      end
  | LRecycle p i =>
      match state_at y p with
      | Some ps =>
          match picked ps !! i with
          | Some b =>
              pool ← recycle (pl ps) b;
              Ret (Some (put p (mkPs pool (owner ps) (khead ps) (delete i (picked ps)) (gone ps)) y))
          | None => Ret None
          end
      | None => Ret None
      end
  | LDrop i =>
      match views y !! i with
      | Some (view, p0) =>
          r ← drop (st y) (pool_at y) view;
          let y' := mkSys (st y) (mem y) (delete i (views y)) in
          match r with
          | Some (p, pool) =>
              match state_at y p with
              | Some ps => Ret (Some (put p (mkPs pool (owner ps) (khead ps) (picked ps) (gone ps)) y'))
              | None => Undefined
              end
          | None =>
              match state_at y p0, buf_id view with
              | Some ps, Some b => Ret (Some (put p0 (mkPs (pl ps) (owner ps) (khead ps) (picked ps) (gone ps ++ [b])) y'))
              | _, _ => Ret (Some y')
              end
          end
      | None => Ret None
      end
  end.

Inductive reach : sys -> sys -> Prop :=
| reach_start y0 : reach y0 y0
| reach_step y0 y l y' : reach y0 y -> exec l y = Ret (Some y') -> reach y0 y'.

Fixpoint run (ls : list label) (y : sys) : outcome (option sys) :=
  match ls with
  | [] => Ret (Some y)
  | l :: ls => o ← exec l y; match o with Some y => run ls y | None => Ret None end
  end.

Definition start : sys := mkSys (mkStatics (replicate PROVIDED_POOL_SLOTS None) (replicate PROVIDED_POOL_SLOTS 0)) [] [].

End BufProto.
