(* ===== verification/Uring.v ===== *)
(** * The io_uring driver

    Models src/crates/kwokka-io/src/operation/request (the request and its
    constructors), src/crates/kwokka-io/src/uring (the SQE builders, the
    submission of a request, the completion drain, the capability probe) and
    src/crates/kwokka-io/src/driver/dispatch.rs (the choice of backend and the
    synthesised completions of deferred operations).

    The io-uring crate is a parameter.  A submission entry is the expression
    that builds it: the opcode with its arguments and the [user_data] and
    [flags] calls made on it, in order.  The ring is the class [Ring]: a
    bounded submission queue, a kernel that takes entries when it is entered,
    a completion queue read as an iterator. *)

From S2P Require Import Prelude Words Bitmap IoTokens InflightSlab SockAddr Seam Registered BufRing.
From stdpp Require Import base tactics option numbers list.

Local Open Scope Z_scope.

(** ** Requests *)

Module Request.

Inductive OpCode : Type :=
| Read | Write | Send | SendZc | Recv | RecvProvided | Sendmsg | Recvmsg | Accept | Connect
| Open | Close | Fsync | Fallocate | Fadvise | Statx | Mkdir | Rename | Unlink | Symlink | Link | Splice | Tee | Shutdown | Socket
| Timeout | Cancel | MsgRing | Poll.

Record OpFlags : Type := mkFlags { fixed_buf : bool; fixed_fd : bool; zero_copy : bool; multishot : bool; buffer_select : bool }.
Definition no_flags : OpFlags := mkFlags false false false false false.
Definition with_fixed_buf (f : OpFlags) (v : bool) := mkFlags v (fixed_fd f) (zero_copy f) (multishot f) (buffer_select f).
Definition with_fixed_fd (f : OpFlags) (v : bool) := mkFlags (fixed_buf f) v (zero_copy f) (multishot f) (buffer_select f).
Definition with_zero_copy (f : OpFlags) (v : bool) := mkFlags (fixed_buf f) (fixed_fd f) v (multishot f) (buffer_select f).
Definition with_multishot_flag (f : OpFlags) (v : bool) := mkFlags (fixed_buf f) (fixed_fd f) (zero_copy f) v (buffer_select f).
Definition with_buffer_select (f : OpFlags) (v : bool) := mkFlags (fixed_buf f) (fixed_fd f) (zero_copy f) (multishot f) v.

Record CommonFields : Type := mkCommon {
  user_data : Z; registered_buf : option Z; registered_fd : option Z; buf_group : option Z;
}.
Definition no_common : CommonFields := mkCommon 0 None None None.

(** An [IoBuf] or [IoBufMut]: where it lies, how much is initialised, how much it holds. *)
Record buffer : Type := mkBuffer { as_ptr : Z; bytes_init : Z; capacity : Z }.
(** [InlineBuf::new], [InlineBuf::set_init] and [FixedBuf::new] over [n] bytes at [ptr]. *)
Definition inline_buf (ptr cap : Z) : buffer := mkBuffer ptr 0 cap.
Definition set_init (b : buffer) (n : Z) : buffer := mkBuffer (as_ptr b) n (capacity b).
Definition fixed_size_buf (ptr n len : Z) : buffer := mkBuffer ptr (if len <? n then len else n) n.

Inductive ControlPayload : Type :=
| CTimeout (duration_ns : Z) | CCancel (target : Z) | CMsgRing (result sentinel : Z) | CPollAdd (events : Z) | CPollRemove (token : Z).

Inductive OpPayload : Type :=
| PBuffer (buf : buffer) (offset : Z)
| PSocket (addr : SockAddr.SockAddr)
| PMsg (msghdr : Z)
| PVectored (iovec count offset : Z)
| PSplice (fd_out off_in off_out nbytes splice_flags : Z)
| PNewSocket (domain socket_type protocol : Z)
| PFd
| PControl (c : ControlPayload).

Record IoRequest : Type := mkRequest { fd : Z; opcode : OpCode; flags : OpFlags; common : CommonFields; payload : OpPayload }.

Definition build (fd : Z) (op : OpCode) (p : OpPayload) : IoRequest := mkRequest fd op no_flags no_common p.

Definition with_user_data (r : IoRequest) (ud : Z) : IoRequest :=
  let c := common r in
  mkRequest (fd r) (opcode r) (flags r) (mkCommon ud (registered_buf c) (registered_fd c) (buf_group c)) (payload r).
Definition with_registered_buf (r : IoRequest) (slot : Z) : IoRequest :=
  let c := common r in
  mkRequest (fd r) (opcode r) (with_fixed_buf (flags r) true) (mkCommon (user_data c) (Some slot) (registered_fd c) (buf_group c)) (payload r).
Definition with_registered_fd (r : IoRequest) (slot : Z) : IoRequest :=
  let c := common r in
  mkRequest (fd r) (opcode r) (with_fixed_fd (flags r) true) (mkCommon (user_data c) (registered_buf c) (Some slot) (buf_group c)) (payload r).
Definition with_multishot (r : IoRequest) : IoRequest :=
  mkRequest (fd r) (opcode r) (with_multishot_flag (flags r) true) (common r) (payload r).

Definition accept (fd : Z) := build fd Accept PFd.
Definition accept_multishot (fd : Z) := with_multishot (accept fd).
Definition recv_provided (fd group : Z) : IoRequest :=
  let r := build fd RecvProvided PFd in
  let c := common r in
  mkRequest (Request.fd r) (opcode r) (with_buffer_select (flags r) true) (mkCommon (user_data c) (registered_buf c) (registered_fd c) (Some group)) (payload r).
Definition recv_multishot_provided (fd group : Z) := with_multishot (recv_provided fd group).
Definition connect (fd : Z) (addr : SockAddr.SockAddr) := build fd Connect (PSocket addr).
Definition sendmsg_prepared (fd msghdr : Z) := build fd Sendmsg (PMsg msghdr).
Definition recvmsg_prepared (fd msghdr : Z) := build fd Recvmsg (PMsg msghdr).
Definition shutdown (fd : Z) := build fd Shutdown PFd.
Definition socket (domain socket_type protocol : Z) := build (-1) Socket (PNewSocket domain socket_type protocol).
Definition timeout (duration_ns : Z) := build (-1) Timeout (PControl (CTimeout duration_ns)).
Definition cancel (target : Z) := build (-1) Cancel (PControl (CCancel target)).
Definition msg_ring_wake (target_ring_fd : Z) :=
  with_user_data (build target_ring_fd MsgRing (PControl (CMsgRing 0 IoTokens.MSG_RING_WAKE_USER_DATA))) IoTokens.MSG_RING_WAKE_USER_DATA.
Definition poll_add (fd events : Z) := build fd Poll (PControl (CPollAdd events)).
Definition poll_remove (fd token : Z) := build fd Poll (PControl (CPollRemove token)).
Definition close (fd : Z) := build fd Close PFd.
Definition fsync (fd : Z) := build fd Fsync PFd.
Definition fallocate (fd : Z) := build fd Fallocate PFd.
Definition fadvise (fd : Z) := build fd Fadvise PFd.
Definition read (fd : Z) (buf : buffer) (offset : Z) := build fd Read (PBuffer buf offset).
Definition recv (fd : Z) (buf : buffer) := build fd Recv (PBuffer buf 0).
Definition recv_multishot (fd : Z) (buf : buffer) := with_multishot (recv fd buf).
Definition readv_prepared (fd iovec count offset : Z) := build fd Read (PVectored iovec count offset).
Definition write (fd : Z) (buf : buffer) (offset : Z) := build fd Write (PBuffer buf offset).
Definition send (fd : Z) (buf : buffer) := build fd Send (PBuffer buf 0).
Definition send_zc (fd : Z) (buf : buffer) := build fd SendZc (PBuffer buf 0).
Definition writev_prepared (fd iovec count offset : Z) := build fd Write (PVectored iovec count offset).
Definition splice (fd_in off_in fd_out off_out nbytes splice_flags : Z) := build fd_in Splice (PSplice fd_out off_in off_out nbytes splice_flags).
Definition tee (fd_in fd_out nbytes splice_flags : Z) := build fd_in Tee (PSplice fd_out (-1) (-1) nbytes splice_flags).

End Request.

(** ** Submission entries *)

Module Sqe.
Import Request.

Inductive target : Type := Fd (fd : Z) | Fixed (slot : Z).
(** The scratch fields an entry may point at. *)
Inductive scratch_ptr : Type := ScratchAddr | ScratchTimespec | ScratchLinkTimeout.

(** One constructor per [io_uring::opcode] struct the builders use. *)
Inductive sqe_op : Type :=
| OpRead (t : target) (ptr len offset : Z) | OpWrite (t : target) (ptr len offset : Z)
| OpReadv (t : target) (iovec count offset : Z) | OpWritev (t : target) (iovec count offset : Z)
| OpFsync (t : target) | OpSplice (t_in : target) (off_in : Z) (t_out : target) (off_out nbytes splice_flags : Z)
| OpTee (t_in t_out : target) (nbytes splice_flags : Z)
| OpRecv (t : target) (ptr len : Z) (group : option Z) | OpRecvMulti (t : target) (group : Z)
| OpSend (t : target) (ptr len : Z) | OpSendZc (t : target) (ptr len : Z)
| OpAccept (t : target) | OpAcceptMulti (t : target) | OpConnect (t : target) (addr : scratch_ptr) (len : Z)
| OpSendMsg (t : target) (msghdr : Z) | OpRecvMsg (t : target) (msghdr : Z)
| OpSocket (domain socket_type protocol : Z) | OpShutdown (t : target) (how : Z) | OpClose (t : target)
| OpTimeout (ts : scratch_ptr) | OpLinkTimeout (ts : scratch_ptr) (timeout_flags : Z)
| OpAsyncCancel (user_data : Z) | OpMsgRingData (t : target) (result sentinel : Z)
| OpPollAdd (t : target) (events : Z) | OpPollRemove (user_data : Z).

(** [squeue::Flags]. *)
Definition FIXED_FILE : Z := 1.
Definition IO_LINK : Z := 4.
Definition BUFFER_SELECT : Z := 32.
Definition SKIP_SUCCESS : Z := 64.

Inductive call : Type := UserData (ud : Z) | Flags (bits : Z).
Record Entry : Type := mkEntry { op : sqe_op; calls : list call }.
Definition entry_of (o : sqe_op) : Entry := mkEntry o [].
Definition call_user_data (ud : Z) (e : Entry) : Entry := mkEntry (op e) (calls e ++ [UserData ud]).
Definition call_flags (bits : Z) (e : Entry) : Entry := mkEntry (op e) (calls e ++ [Flags bits]).

(** The choice every builder makes between [Fixed(fd as u32)] and [Fd(fd)]. *)
Definition on (fd : Z) (f : OpFlags) : target := if fixed_fd f then Fixed (wrap U32 fd) else Fd fd.

Definition build_read (fd ptr capacity offset : Z) (f : OpFlags) := entry_of (OpRead (on fd f) ptr (wrap U32 capacity) offset).
Definition build_write (fd ptr len offset : Z) (f : OpFlags) := entry_of (OpWrite (on fd f) ptr (wrap U32 len) offset).
Definition build_readv (fd iovec count offset : Z) (f : OpFlags) := entry_of (OpReadv (on fd f) iovec count offset).
Definition build_writev (fd iovec count offset : Z) (f : OpFlags) := entry_of (OpWritev (on fd f) iovec count offset).
Definition build_fsync (fd : Z) (f : OpFlags) := entry_of (OpFsync (on fd f)).
Definition build_splice (fd_in off_in fd_out off_out nbytes splice_flags : Z) (f : OpFlags) :=
  entry_of (OpSplice (on fd_in f) off_in (on fd_out f) off_out nbytes splice_flags).
Definition build_tee (fd_in fd_out nbytes splice_flags : Z) (f : OpFlags) := entry_of (OpTee (on fd_in f) (on fd_out f) nbytes splice_flags).
Definition build_recv (fd ptr capacity : Z) (f : OpFlags) := entry_of (OpRecv (on fd f) ptr (wrap U32 capacity) None).
Definition build_recv_multishot_provided (fd : Z) (group : option Z) (f : OpFlags) := entry_of (OpRecvMulti (on fd f) (default 0 group)).
Definition build_recv_provided (fd : Z) (group : option Z) (f : OpFlags) : Entry :=
  if multishot f then build_recv_multishot_provided fd group f
  else entry_of (OpRecv (on fd f) 0 0 (Some (default 0 group))).
Definition build_send (fd ptr len : Z) (f : OpFlags) := entry_of (OpSend (on fd f) ptr (wrap U32 len)).
Definition build_send_zc (fd ptr len : Z) (f : OpFlags) := entry_of (OpSendZc (on fd f) ptr (wrap U32 len)).
Definition build_accept_multi (fd : Z) (f : OpFlags) := entry_of (OpAcceptMulti (on fd f)).
Definition build_accept (fd : Z) (f : OpFlags) : Entry := if multishot f then build_accept_multi fd f else entry_of (OpAccept (on fd f)).
Definition build_sendmsg (fd msghdr : Z) (f : OpFlags) := entry_of (OpSendMsg (on fd f) msghdr).
Definition build_recvmsg (fd msghdr : Z) (f : OpFlags) := entry_of (OpRecvMsg (on fd f) msghdr).
Definition build_socket (domain socket_type protocol : Z) := entry_of (OpSocket domain socket_type protocol).
Definition SHUT_RDWR : Z := 2.
Definition build_shutdown (fd : Z) (f : OpFlags) := entry_of (OpShutdown (on fd f) SHUT_RDWR).
Definition build_close (fd : Z) := entry_of (OpClose (Fd fd)).
Definition build_cancel (user_data : Z) := entry_of (OpAsyncCancel user_data).
Definition build_msg_ring (target_ring_fd result sentinel : Z) := call_flags SKIP_SUCCESS (entry_of (OpMsgRingData (Fd target_ring_fd) result sentinel)).
Definition build_poll_add (fd events : Z) (f : OpFlags) := entry_of (OpPollAdd (on fd f) events).
Definition build_poll_remove (user_data : Z) := entry_of (OpPollRemove user_data).

(** [SubmitScratch]; a [Timespec] is its seconds and nanoseconds. *)
Record SubmitScratch : Type := mkScratch { addr : list Z; timespec : Z * Z; link_timeout : Z * Z }.
Definition scratch_new : SubmitScratch := mkScratch (replicate 128 0) (0, 0) (0, 0).

Definition timespec_of (duration_ns : Z) : Z * Z := (duration_ns / 1000000000, wrap U32 (duration_ns mod 1000000000)).
Definition build_connect (fd : Z) (a : SockAddr.SockAddr) (sc : SubmitScratch) (f : OpFlags) : outcome (Entry * SubmitScratch) :=
  '(buf, len) ← SockAddr.pack_into a (addr sc);
  Ret (entry_of (OpConnect (on fd f) ScratchAddr len), mkScratch buf (timespec sc) (link_timeout sc)).
Definition build_timeout (duration_ns : Z) (sc : SubmitScratch) : Entry * SubmitScratch :=
  (entry_of (OpTimeout ScratchTimespec), mkScratch (addr sc) (timespec_of duration_ns) (link_timeout sc)).
Definition build_link_timeout (duration_ns : Z) (sc : SubmitScratch) (timeout_flags : Z) : Entry * SubmitScratch :=
  (entry_of (OpLinkTimeout ScratchLinkTimeout timeout_flags), mkScratch (addr sc) (timespec sc) (timespec_of duration_ns)).

Definition sqe_flags (f : OpFlags) : Z :=
  let bits := if fixed_fd f then FIXED_FILE else 0 in
  if buffer_select f then Z.lor bits BUFFER_SELECT else bits.

End Sqe.

(** ** From a request to an entry *)

Module Submission.
Import Request Sqe.

Definition apply_common (e : Entry) (c : CommonFields) (f : OpFlags) : Entry := call_flags (sqe_flags f) (call_user_data (user_data c) e).

Definition build_entry (r : IoRequest) (sc : SubmitScratch) : outcome (Entry * SubmitScratch) :=
  '(e, sc) ← match opcode r, payload r with
             | Accept, PFd => Ret (build_accept (fd r) (flags r), sc)
             | RecvProvided, PFd => Ret (build_recv_provided (fd r) (buf_group (common r)) (flags r), sc)
             | Connect, PSocket a => build_connect (fd r) a sc (flags r)
             | Close, PFd => Ret (build_close (fd r), sc)
             | Timeout, PControl (CTimeout duration_ns) => Ret (build_timeout duration_ns sc)
             | Cancel, PControl (CCancel target) => Ret (build_cancel target, sc)
             | MsgRing, PControl (CMsgRing result sentinel) => Ret (build_msg_ring (fd r) result sentinel, sc)
             | Poll, PControl (CPollAdd events) => Ret (build_poll_add (fd r) events (flags r), sc)
             | Poll, PControl (CPollRemove token) => Ret (build_poll_remove token, sc)
             | Fsync, PFd => Ret (build_fsync (fd r) (flags r), sc)
             | Splice, PSplice fd_out off_in off_out nbytes splice_flags =>
                 Ret (build_splice (fd r) off_in fd_out off_out nbytes splice_flags (flags r), sc)
             | Tee, PSplice fd_out _ _ nbytes splice_flags => Ret (build_tee (fd r) fd_out nbytes splice_flags (flags r), sc)
             | Shutdown, PFd => Ret (build_shutdown (fd r) (flags r), sc)
             | Socket, PNewSocket domain socket_type protocol => Ret (build_socket domain socket_type protocol, sc)
             | Sendmsg, PMsg msghdr => Ret (build_sendmsg (fd r) msghdr (flags r), sc)
             | Recvmsg, PMsg msghdr => Ret (build_recvmsg (fd r) msghdr (flags r), sc)
             | Read, PVectored iovec count offset => Ret (build_readv (fd r) iovec count offset (flags r), sc)
             | Write, PVectored iovec count offset => Ret (build_writev (fd r) iovec count offset (flags r), sc)
             | _, _ => Panic
             end;
  Ret (apply_common e (common r) (flags r), sc).

Definition build_entry_read (r : IoRequest) : outcome Entry :=
  e ← match opcode r, payload r with
      | Read, PBuffer buf offset => Ret (build_read (fd r) (as_ptr buf) (capacity buf) offset (flags r))
      | Recv, PBuffer buf _ => Ret (build_recv (fd r) (as_ptr buf) (capacity buf) (flags r))
      | _, _ => Panic
      end;
  Ret (apply_common e (common r) (flags r)).

Definition build_entry_write (r : IoRequest) : outcome Entry :=
  e ← match opcode r, payload r with
      | Write, PBuffer buf offset => Ret (build_write (fd r) (as_ptr buf) (bytes_init buf) offset (flags r))
      | Send, PBuffer buf _ => Ret (build_send (fd r) (as_ptr buf) (bytes_init buf) (flags r))
      | SendZc, PBuffer buf _ => Ret (build_send_zc (fd r) (as_ptr buf) (bytes_init buf) (flags r))
      | _, _ => Panic
      end;
  Ret (apply_common e (common r) (flags r)).

End Submission.

(** ** Capabilities *)

Module Capability.

Record KernelVersion : Type := mkVersion { major : Z; minor : Z; patch : Z }.
Definition ZERO : KernelVersion := mkVersion 0 0 0.
Definition at_least (v : KernelVersion) (ma mi : Z) : bool := (ma <? major v) || ((major v =? ma) && (mi <=? minor v)).

Record CapabilityMatrix : Type := mkCaps {
  kernel_version : KernelVersion;
  defer_taskrun : bool; coop_taskrun : bool; single_issuer : bool; sqpoll : bool;
  registered_buffers : bool; registered_files : bool; max_register_slots : Z;
  buf_ring : bool; multishot_accept : bool; multishot_recv : bool; msg_ring : bool;
  send_zc : bool; sendmsg_zc : bool; recv_zc : bool; async_cancel : bool; link_timeout : bool;
  direct_io_align : Z;
}.
Definition thin_fallback : CapabilityMatrix :=
  mkCaps ZERO false false false false false false 0 false false false false false false false false false 4096.
Definition full : CapabilityMatrix :=
  mkCaps (mkVersion 6 10 0) true true true true true true 1024 true true true true true true true true true 4096.

End Capability.

(** ** The ring *)

Module Ring.
Import Sqe.

(** [io::Error::raw_os_error]. *)
Definition errno : Type := option Z.
(** A raw CQE. *)
Record cqe : Type := mkRaw { cqe_user_data : Z; cqe_result : Z; cqe_flags : Z }.

(** [submit], the flushing [enter], [submit_and_wait] with its optional timeout. *)
Inductive enter_call : Type := Submit | GetEvents | SubmitAndWait (timeout : option (Z * Z)).
Inductive register_call : Type :=
| BuffersSparse (n : Z) | BuffersUpdate (offset : Z) (iovecs : list (Z * Z)) | UnregisterBuffers
| RegisterFiles (fds : list Z) | UnregisterFiles | RegisterBufRing (addr entries bgid : Z).
Inductive sqe_code : Type :=
| AcceptMultiCode | RecvMultiCode | MsgRingDataCode | SendZcCode | SendMsgZcCode | AsyncCancelCode | LinkTimeoutCode.

(** What the driver calls of the crate.  [enter] is given the scratch the
    queued entries point at, as the kernel reads it while it takes them. *)
Class Ring (R : Type) : Type := {
  push : Entry -> R -> option R;
  push_multiple : list Entry -> R -> option R;
  enter : enter_call -> SubmitScratch -> R -> result errno Z * R;
  next : R -> option (cqe * R);
  register : register_call -> R -> result errno unit * R;
  register_probe : R -> result errno (sqe_code -> bool);
  is_setup_single_issuer : R -> bool;
  as_raw_fd : R -> Z;
}.

(** The [cqueue] functions on a raw flags word. *)
Class CqueueFlags : Type := { buffer_select : Z -> option Z; more : Z -> bool; notif : Z -> bool }.

End Ring.

(** ** The completion drain *)

Module Cqe.
Import Ring IoTokens.

Definition EMPTY : Z := 0.
Definition is_cqe_more `{CqueueFlags} (raw : Z) : bool := more raw.
Definition is_cqe_notif `{CqueueFlags} (raw : Z) : bool := notif raw.

Definition translate_flags `{CqueueFlags} (raw : Z) : Z :=
  let flags := EMPTY in
  let flags := if buffer_select raw is Some _ then Z.lor flags BUFFER else flags in
  let flags := if is_cqe_more raw then Z.lor flags MORE else flags in
  if is_cqe_notif raw then Z.lor flags NOTIF else flags.

Definition translate_cqe `{CqueueFlags} (c : cqe) : Completion :=
  mkCqe (cqe_user_data c) (cqe_result c) (translate_flags (cqe_flags c)) (buffer_select (cqe_flags c)).

Section drain.
Context `{CqueueFlags} {R : Type} `{Ring R}.

(** The loop of [drain_completions]: the iterator yields a CQE, and takes it
    from the queue, before the body compares [count] with [capacity].  [fuel]
    bounds the iterations; the loop ends after at most [capacity + 1]. *)
Fixpoint drain_loop (fuel capacity count : nat) (r : R) (out : list Completion) : outcome (nat * list Completion * R) :=
  match fuel with
  | O => OutOfFuel
  | S fuel =>
      match next r with
      | None => Ret (count, out, r)
      | Some (c, r) =>
          if decide (capacity <= count)%nat then Ret (count, out, r) else
          out ← Bitmap.store out count (translate_cqe c);
          drain_loop fuel capacity (S count) r out
      end
  end.

Definition drain_completions (r : R) (max : nat) (out : list Completion) : outcome (nat * list Completion * R) :=
  let capacity := Nat.min max (length out) in
  drain_loop (S (S capacity)) capacity 0 r out.
End drain.

Definition is_multishot_continuation (flags : Z) : bool := contains flags MORE.
Definition is_multishot_terminated (flags : Z) : bool := negb (contains flags MORE).

Inductive CancelError : Type := BestEffortDetach | NotFound | TooLateToCancel.
Definition map_cancel_result (res : Z) : Prelude.result CancelError unit :=
  if res =? 0 then Ok tt else if res =? -2 then Err NotFound else if res =? -114 then Err TooLateToCancel else Err BestEffortDetach.

End Cqe.

(** ** The probe *)

Module Detect.
Import Sqe Ring Capability.

Inductive SetupTier : Type := Optimal | Baseline.
#[global] Instance SetupTier_eq_dec : EqDecision SetupTier.
Proof. solve_decision. Defined.

(** The Cargo features the build is configured with. *)
Record features : Type := mkFeatures { uring_buf_ring : bool; uring_multishot : bool; uring_msg_ring : bool; uring_send_zc : bool }.

(** *** [parse_version_string] *)

(** Strings are their bytes; the separators are ASCII. *)
Definition DOT : Z := 46.
Definition DASH : Z := 45.
Definition PLUS : Z := 43.

(** [str::split]: the parts between the separators, at least one. *)
Fixpoint split (sep : Z) (s : list Z) : list (list Z) :=
  match s with
  | [] => [[]]
  | c :: s =>
      if c =? sep then [] :: split sep s
      else match split sep s with p :: ps => (c :: p) :: ps | [] => [[c]] end
  end.

(** The digit loop of [u32::from_str]: a byte that is no digit and a value
    past [u32::MAX] are errors. *)
Fixpoint parse_digits (acc : Z) (s : list Z) : option Z :=
  match s with
  | [] => Some acc
  | c :: s =>
      if (48 <=? c) && (c <=? 57)
      then acc ← checked_mul U32 acc 10; acc ← checked_add U32 acc (c - 48); parse_digits acc s
      else None
  end.
(** An empty string and a lone sign are errors; a leading [+] is skipped. *)
Definition parse_u32 (s : list Z) : option Z :=
  match s with
  | [] => None
  | [c] => if (c =? PLUS) || (c =? DASH) then None else parse_digits 0 s
  | c :: rest => if c =? PLUS then parse_digits 0 rest else parse_digits 0 s
  end.

Definition parse_version_string (release : list Z) : option KernelVersion :=
  version_part ← hd_error (split DASH release);
  let parts := split DOT version_part in
  major ← parts !! 0%nat; major ← parse_u32 major;
  minor ← parts !! 1%nat; minor ← parse_u32 minor;
  let patch := default 0 (parts !! 2%nat ≫= parse_u32) in
  Some (mkVersion major minor patch).

(** [uname] answers the release, [None] when it fails or is not UTF-8. *)
Definition parse_utsname_release (uname : option (list Z)) : option KernelVersion := uname ≫= parse_version_string.
Definition read_kernel_version (uname : option (list Z)) : KernelVersion := default ZERO (parse_utsname_release uname).

Section probe.
Context {R : Type} `{Ring R}.

Definition detect_capabilities (cfg : features) (uname : option (list Z)) (ring : R) (tier : SetupTier) : result errno CapabilityMatrix :=
  match register_probe ring with
  | Err e => Err e
  | Ok is_supported =>
      let kernel_version := read_kernel_version uname in
      Ok {| kernel_version := kernel_version;
            defer_taskrun := bool_decide (tier = Optimal);
            coop_taskrun := true;
            single_issuer := is_setup_single_issuer ring;
            sqpoll := false;
            registered_buffers := true;
            registered_files := true;
            max_register_slots := 1024;
            buf_ring := uring_buf_ring cfg && at_least kernel_version 5 19;
            multishot_accept := uring_multishot cfg && is_supported AcceptMultiCode;
            multishot_recv := uring_multishot cfg && is_supported RecvMultiCode;
            msg_ring := uring_msg_ring cfg && is_supported MsgRingDataCode;
            send_zc := uring_send_zc cfg && is_supported SendZcCode;
            sendmsg_zc := uring_send_zc cfg && is_supported SendMsgZcCode;
            recv_zc := false;
            async_cancel := is_supported AsyncCancelCode;
            link_timeout := is_supported LinkTimeoutCode;
            direct_io_align := 4096 |}
  end.

(** [build] is [Builder::build] with the flags of a tier. *)
Context (build : SetupTier -> Z -> result errno R).

Definition try_tier_optimal (entries : Z) : result errno (R * SetupTier) :=
  match build Optimal entries with Ok r => Ok (r, Optimal) | Err e => Err e end.
Definition try_tier_baseline (entries : Z) : result errno (R * SetupTier) :=
  match build Baseline entries with Ok r => Ok (r, Baseline) | Err e => Err e end.

Definition probe_and_create (cfg : features) (uname : option (list Z)) (entries : Z)
    : result errno (R * CapabilityMatrix * SetupTier) :=
  match (match try_tier_optimal entries with Ok x => Ok x | Err _ => try_tier_baseline entries end) with
  | Err e => Err e
  | Ok (ring, tier) =>
      match detect_capabilities cfg uname ring tier with
      | Err e => Err e
      | Ok caps => Ok (ring, caps, tier)
      end
  end.
End probe.

End Detect.

(** ** The driver *)

Module UringDriver.
Import Request Sqe Submission Ring Capability Detect.
Import Seam.

Definition REGISTER_CHUNK : nat := 256.
Definition PROVIDED_RECV_RING_ENTRIES : Z := 256.
Definition PROVIDED_RECV_BUF_SIZE : Z := 4096.
Definition PROVIDED_RECV_GROUP_ID : Z := 0.
Definition EBUSY : Z := 16.
Definition ENOMEM : Z := 12.

(** [wake_buf] is the address of the landing pad of the wake read. *)
Record UringDriver (R : Type) : Type := mkUring {
  ring : R; capabilities : CapabilityMatrix; tier : SetupTier; scratch : SubmitScratch; wake_buf : Z;
  buffers : Registered.Registry; files : Registered.Registry; buf_ring_pool : option BufRingPool.BufRingPool;
}.
#[global] Arguments mkUring {_} _ _ _ _ _ _ _ _.
#[global] Arguments ring {_} _.
#[global] Arguments capabilities {_} _.
#[global] Arguments tier {_} _.
#[global] Arguments scratch {_} _.
#[global] Arguments wake_buf {_} _.
#[global] Arguments buffers {_} _.
#[global] Arguments files {_} _.
#[global] Arguments buf_ring_pool {_} _.

Section driver.
Context {R : Type} `{Ring R}.
Local Notation UringDriver := (UringDriver R).

Definition set_ring (x : R) (d : UringDriver) : UringDriver :=
  mkUring x (capabilities d) (tier d) (scratch d) (wake_buf d) (buffers d) (files d) (buf_ring_pool d).
Definition set_scratch x (d : UringDriver) : UringDriver :=
  mkUring (ring d) (capabilities d) (tier d) x (wake_buf d) (buffers d) (files d) (buf_ring_pool d).
Definition set_buffers x (d : UringDriver) : UringDriver :=
  mkUring (ring d) (capabilities d) (tier d) (scratch d) (wake_buf d) x (files d) (buf_ring_pool d).
Definition set_files x (d : UringDriver) : UringDriver :=
  mkUring (ring d) (capabilities d) (tier d) (scratch d) (wake_buf d) (buffers d) x (buf_ring_pool d).

(** *** Submission *)

Definition push_and_submit (d : UringDriver) (entry : Entry) (user_data : Z) : SubmitResult * UringDriver :=
  match push entry (ring d) with
  | None => (QueueFull, d)
  | Some r => let '(_, r) := enter Submit (scratch d) r in (Submitted user_data, set_ring r d)
  end.

Definition push_pair_and_submit (d : UringDriver) (entries : list Entry) (primary_user_data : Z) : SubmitResult * UringDriver :=
  match push_multiple entries (ring d) with
  | None => (QueueFull, d)
  | Some r => let '(_, r) := enter Submit (scratch d) r in (Submitted primary_user_data, set_ring r d)
  end.

Definition submit (d : UringDriver) (request : IoRequest) : outcome (SubmitResult * UringDriver) :=
  match opcode request with
  | Read | Recv => Ret (Unsupported, d)
  | Write | Send =>
      entry ← build_entry_write request;
      Ret (push_and_submit d entry (user_data (common request)))
  | _ => Ret (Unsupported, d)
  end.

Definition submit_read (d : UringDriver) (request : IoRequest) : outcome (SubmitResult * UringDriver) :=
  entry ← build_entry_read request;
  Ret (push_and_submit d entry (user_data (common request))).

Definition submit_internal (d : UringDriver) (request : IoRequest) : outcome (SubmitResult * UringDriver) :=
  '(entry, sc) ← build_entry request (scratch d);
  Ret (push_and_submit (set_scratch sc d) entry (user_data (common request))).

Definition arm_wake_read (d : UringDriver) (fd user_data : Z) : outcome (SubmitResult * UringDriver) :=
  submit_read d (with_user_data (read fd (inline_buf (wake_buf d) 8) 0) user_data).

Definition submit_msg_ring_wake (d : UringDriver) (target_ring_fd : Z) : outcome (SubmitResult * UringDriver) :=
  if negb (msg_ring (capabilities d)) then Ret (Unsupported, d) else submit_internal d (msg_ring_wake target_ring_fd).

Definition submit_linked_timeout_internal (d : UringDriver) (request : IoRequest) (deadline_ns : Z) : outcome (SubmitResult * UringDriver) :=
  if negb (link_timeout (capabilities d)) then Ret (Unsupported, d) else
  '(primary, sc) ← build_entry request (scratch d);
  let primary := call_flags IO_LINK primary in
  let '(timeout, sc) := build_link_timeout deadline_ns sc 0 in
  let timeout := call_user_data IoTokens.LINK_TIMEOUT_DISCARD_USER_DATA timeout in
  Ret (push_pair_and_submit (set_scratch sc d) [primary; timeout] (user_data (common request))).

Definition cancel (d : UringDriver) (token : Z) : outcome (result Cqe.CancelError unit * UringDriver) :=
  let request := Request.cancel token in
  '(entry, sc) ← build_entry request (scratch d);
  let '(answer, d) := push_and_submit (set_scratch sc d) entry (user_data (common request)) in
  Ret (match answer with Submitted _ => Ok tt | QueueFull | Unsupported => Err Cqe.BestEffortDetach end, d).

(** *** Waiting *)

Definition flush_deferred (d : UringDriver) : result errno Z * UringDriver :=
  if negb (defer_taskrun (capabilities d)) then (Ok 0, d) else
  let '(answer, r) := enter GetEvents (scratch d) (ring d) in (answer, set_ring r d).

(** A [Duration] is its seconds and nanoseconds. *)
Definition park (d : UringDriver) (deadline : option (Z * Z)) : result errno Z * UringDriver :=
  let '(answer, r) := enter (SubmitAndWait deadline) (scratch d) (ring d) in (answer, set_ring r d).

Definition ring_fd (d : UringDriver) : Z := as_raw_fd (ring d).

Definition poll_completions `{CqueueFlags} (d : UringDriver) (max : nat) (out : list IoTokens.Completion)
    : outcome (nat * list IoTokens.Completion * UringDriver) :=
  '(count, out, r) ← Cqe.drain_completions (ring d) max out;
  Ret (count, out, set_ring r d).

(** *** Registration *)

Definition io_to_register_error (error : errno) : Registered.RegisterError :=
  match error with
  | Some e => if (e =? EBUSY) || (e =? ENOMEM) then Registered.SlotExhausted else Registered.InvalidArgument
  | None => Registered.InvalidArgument
  end.
Definition fixed (call : register_call) (d : UringDriver) : result Registered.RegisterError unit * UringDriver :=
  let '(answer, r) := register call (ring d) in
  (match answer with Ok _ => Ok tt | Err e => Err (io_to_register_error e) end, set_ring r d).
(** The wrappers of fixed.rs. *)
Definition fixed_unregister_buffers := fixed UnregisterBuffers.
Definition fixed_register_files (fds : list Z) := fixed (RegisterFiles fds).
Definition fixed_unregister_files := fixed UnregisterFiles.
Definition fixed_register_buf_ring (ring_addr entries bgid : Z) (r : R) : result Registered.RegisterError unit * R :=
  let '(answer, r) := register (RegisterBufRing ring_addr entries bgid) r in
  (match answer with Ok _ => Ok tt | Err e => Err (io_to_register_error e) end, r).

(** The loop over [bufs.chunks(REGISTER_CHUNK)]; one pass per chunk. *)
Fixpoint update_chunks (fuel : nat) (offset : Z) (bufs : list (Z * Z)) (r : R) : outcome (result Registered.RegisterError unit * R) :=
  match fuel, bufs with
  | _, [] => Ret (Ok tt, r)
  | O, _ => OutOfFuel
  | S fuel, _ =>
      let chunk := take REGISTER_CHUNK bufs in
      let '(answer, r) := register (BuffersUpdate offset chunk) r in
      match answer with
      | Err _ => Ret (Err Registered.InvalidArgument, r)
      | Ok _ =>
          offset ← add_or_panic U32 offset (wrap U32 (Z.of_nat (length chunk)));
          update_chunks fuel offset (drop REGISTER_CHUNK bufs) r
      end
  end.

(** A buffer is its address and length. *)
Definition register_buffers (d : UringDriver) (bufs : list (Z * Z)) : outcome (result Registered.RegisterError Z * UringDriver) :=
  if decide (bufs = []) then Ret (Err Registered.InvalidArgument, d) else
  let total := wrap U32 (Z.of_nat (length bufs)) in
  let '(answer, r) := register (BuffersSparse total) (ring d) in
  match answer with
  | Err _ => Ret (Err Registered.InvalidArgument, set_ring r d)
  | Ok _ =>
      '(answer, r) ← update_chunks (length bufs) 0 bufs r;
      match answer with
      | Err e => Ret (Err e, set_ring r d)
      | Ok _ => let '(slot, b) := RegisteredBuffers.allocate (buffers d) in Ret (slot, set_buffers b (set_ring r d))
      end
  end.

Definition unregister_buffers (d : UringDriver) (group : Z) : outcome (result Registered.RegisterError unit * UringDriver) :=
  let '(answer, d) := fixed_unregister_buffers d in
  match answer with
  | Err e => Ret (Err e, d)
  | Ok _ => '(answer, b) ← RegisteredBuffers.release (buffers d) group; Ret (answer, set_buffers b d)
  end.

Definition register_files (d : UringDriver) (fds : list Z) : result Registered.RegisterError Z * UringDriver :=
  let '(answer, d) := fixed_register_files fds d in
  match answer with
  | Err e => (Err e, d)
  | Ok _ => let '(slot, f) := RegisteredFds.allocate (files d) in (slot, set_files f d)
  end.

Definition unregister_files (d : UringDriver) (slot : Z) : outcome (result Registered.RegisterError unit * UringDriver) :=
  let '(answer, d) := fixed_unregister_files d in
  match answer with
  | Err e => Ret (Err e, d)
  | Ok _ => '(answer, f) ← RegisteredFds.release (files d) slot; Ret (answer, set_files f d)
  end.

Definition provided_recv_pool (d : UringDriver) : option BufRingPool.BufRingPool := buf_ring_pool d.
Definition provided_recv_group (d : UringDriver) : option Z := BufRingPool.group_id <$> provided_recv_pool d.

(** *** Construction *)

(** [maps] is what the two mappings of [BufRingPool::new] answer, [ring_addr]
    the address of the ring one. *)
Definition register_provided_recv_pool (maps : bool * option Z) (ring_addr : Z) (r : R)
    : outcome (result Registered.RegisterError BufRingPool.BufRingPool * R) :=
  pool ← BufRingPool.new (fst maps) (snd maps) PROVIDED_RECV_RING_ENTRIES PROVIDED_RECV_BUF_SIZE PROVIDED_RECV_GROUP_ID;
  match pool with
  | Err _ => Ret (Err Registered.SlotExhausted, r)
  | Ok pool =>
      let '(answer, r) := fixed_register_buf_ring ring_addr (BufRingPool.pentries pool) PROVIDED_RECV_GROUP_ID r in
      Ret (match answer with Ok _ => Ok pool | Err e => Err e end, r)
  end.

Definition new (build : SetupTier -> Z -> result errno R) (cfg : features) (uname : option (list Z)) (maps : bool * option Z)
    (ring_addr wake_addr : Z) (entries : Z) : outcome (result errno UringDriver) :=
  match probe_and_create build cfg uname entries with
  | Err e => Ret (Err e)
  | Ok (r, caps, tier) =>
      let max_buf_slots := wrap U16 (max_register_slots caps) in
      '(pool, r) ← (if Capability.buf_ring caps
                    then '(answer, r) ← register_provided_recv_pool maps ring_addr r;
                         Ret (match answer with Ok pool => Some pool | Err _ => None end, r)
                    else Ret (None, r));
      Ret (Ok (mkUring r caps tier scratch_new wake_addr (RegisteredBuffers.new max_buf_slots)
                 (RegisteredFds.new (max_register_slots caps)) pool))
  end.

End driver.
End UringDriver.

(** ** Sockets and readiness attempts *)

Module Socket.
Import SockAddr.

Definition EAGAIN : Z := 11.
Definition EIO : Z := 5.
Definition EINVAL : Z := 22.
Definition MSG_DONTWAIT : Z := 0x40.
Definition MSG_NOSIGNAL : Z := 0x4000.
Definition SOCK_STREAM : Z := 1.
Definition SOCK_DGRAM : Z := 2.
Definition SOCKET_CLOEXEC : Z := 0x80000.

(** A system call: its result and what [io::Error::last_os_error] then holds. *)
Record sys : Type := mkSys { ret : Z; last_os_error : option Z }.

Inductive SocketError : Type := Os (e : option Z) | NotSupported.

(** [call domain type protocol] is [libc::socket]. *)
Definition create_socket (call : Z -> Z -> Z -> sys) (family : AddressFamily) (socket_type : Z) : result SocketError Z :=
  let go domain :=
    let raw := call domain (Z.lor socket_type SOCKET_CLOEXEC) 0 in
    if ret raw <? 0 then Err (Os (last_os_error raw)) else Ok (ret raw) in
  match family with
  | Inet => go AF_INET
  | Inet6 => go AF_INET6
  | UnixFamily => Err NotSupported
  end.
Definition create_stream_socket call family := create_socket call family SOCK_STREAM.
Definition create_datagram_socket call family := create_socket call family SOCK_DGRAM.

Definition duplicate_fd (fcntl : Z -> sys) (fd : Z) : result (option Z) Z :=
  let duplicated := fcntl fd in
  if ret duplicated <? 0 then Err (last_os_error duplicated) else Ok (ret duplicated).

Inductive Attempt : Type := AttemptDone (n : Z) | AttemptFailed (e : Z) | AttemptWouldBlock (fd : Z).
Inductive Retry : Type := Done (n : Z) | Failed (e : Z) | WouldBlock.

(** [isize] to [u32]: the only failure is a value above [u32::MAX]. *)
Definition attempt_result (duplicated : Z) (result : sys) : Attempt :=
  if 0 <=? ret result then match try_from U32 (ret result) with Some n => AttemptDone n | None => AttemptFailed (- EINVAL) end
  else if decide (last_os_error result = Some EAGAIN) then AttemptWouldBlock duplicated
  else AttemptFailed (- default EIO (last_os_error result)).
Definition retry_result (result : sys) : Retry :=
  if 0 <=? ret result then match try_from U32 (ret result) with Some n => Done n | None => Failed (- EINVAL) end
  else if decide (last_os_error result = Some EAGAIN) then WouldBlock
  else Failed (- default EIO (last_os_error result)).

(** The kernel side: [recv fd len flags] answers and yields the bytes it wrote
    at the start of the buffer, [send fd bytes flags] answers. *)
Record sockets : Type := mkSockets { recv : Z -> Z -> Z -> sys * list Z; send : Z -> list Z -> Z -> sys }.

Definition attempt_recv (k : sockets) (duplicated cap : Z) : Attempt * list Z :=
  let '(result, bytes) := recv k duplicated cap MSG_DONTWAIT in (attempt_result duplicated result, bytes).
Definition attempt_send (k : sockets) (duplicated : Z) (buf : list Z) : Attempt :=
  attempt_result duplicated (send k duplicated buf (Z.lor MSG_DONTWAIT MSG_NOSIGNAL)).
Definition retry_recv (k : sockets) (fd : Z) (buf : list Z) : Retry * list Z :=
  let '(result, bytes) := recv k fd (Z.of_nat (length buf)) MSG_DONTWAIT in (retry_result result, bytes).
Definition retry_send (k : sockets) (fd : Z) (buf : list Z) : Retry :=
  retry_result (send k fd buf (Z.lor MSG_DONTWAIT MSG_NOSIGNAL)).

End Socket.

(** ** The choice of backend *)

Module Dispatch.
Import Request Ring Capability Seam Inflight Socket.

(** [synthesize]; a receive writes its bytes into the slot's region. *)
Definition synthesize (k : sockets) (slab : InflightBufSlab) (fd : Z) : outcome (option IoTokens.Completion * InflightBufSlab) :=
  key ← deferred_key_by_fd slab fd;
  match key with
  | None => Ret (None, slab)
  | Some key =>
      parts ← retry_parts slab key;
      match parts with
      | None => Ret (None, slab)
      | Some (fd, bytes, opcode) =>
          let '(retry, slab) :=
            match opcode with
            | Recv =>
                let '(retry, written) := retry_recv k fd bytes in
                (retry, set_storage (write_at (storage slab) (IoTokens.slot key * stride slab) written) slab)
            | Send => (retry_send k fd bytes, slab)
            end in
          let finish result :=
            '(record, slab) ← retire_deferred slab key;
            match record with
            | None => Ret (None, slab)
            | Some _ => Ret (Some (IoTokens.mkCqe (IoTokens.op_token key) result 0 None), slab)
            end in
          match retry with
          | Done bytes => finish (if bytes <? 2 ^ 31 then bytes else - EINVAL)
          | Failed error => finish error
          | WouldBlock => Ret (None, slab)
          end
      end
  end.

(** The Linux variants of [DriverType]. *)
Inductive DriverType (R : Type) : Type := Uring (d : UringDriver.UringDriver R) | Epoll.
#[global] Arguments Uring {_} _.
#[global] Arguments Epoll {_}.

Section dispatch.
Context {R : Type} `{Ring R} `{CqueueFlags}.

(** An operation of the [Uring] arm under the constructor. *)
Definition lift {A} (x : A * UringDriver.UringDriver R) : A * DriverType R := (fst x, Uring (snd x)).
Definition lift_outcome {A} (x : outcome (A * UringDriver.UringDriver R)) : outcome (A * DriverType R) := x ← x; Ret (lift x).

Definition submit (d : DriverType R) (request : IoRequest) : outcome (SubmitResult * DriverType R) :=
  match d with Uring driver => lift_outcome (UringDriver.submit driver request) | Epoll => Ret (Unsupported, d) end.
Definition submit_read (d : DriverType R) (request : IoRequest) : outcome (SubmitResult * DriverType R) :=
  match d with Uring driver => lift_outcome (UringDriver.submit_read driver request) | Epoll => Ret (Unsupported, d) end.
Definition submit_internal (d : DriverType R) (request : IoRequest) : outcome (SubmitResult * DriverType R) :=
  match d with Uring driver => lift_outcome (UringDriver.submit_internal driver request) | Epoll => Ret (Unsupported, d) end.
Definition poll_completions (d : DriverType R) (max : nat) (out : list IoTokens.Completion)
    : outcome (nat * list IoTokens.Completion * DriverType R) :=
  match d with Uring driver => lift_outcome (UringDriver.poll_completions driver max out) | Epoll => Ret (0%nat, out, d) end.
Definition STUB_CAPS : CapabilityMatrix := thin_fallback.
Definition capabilities (d : DriverType R) : CapabilityMatrix := match d with Uring driver => UringDriver.capabilities driver | Epoll => STUB_CAPS end.
Definition cancel (d : DriverType R) (token : Z) : outcome (result Cqe.CancelError unit * DriverType R) :=
  match d with Uring driver => lift_outcome (UringDriver.cancel driver token) | Epoll => Ret (Err Cqe.BestEffortDetach, d) end.
Definition register_buffers (d : DriverType R) (bufs : list (Z * Z)) : outcome (result Registered.RegisterError Z * DriverType R) :=
  match d with Uring driver => lift_outcome (UringDriver.register_buffers driver bufs) | Epoll => Ret (Err Registered.Unsupported, d) end.
Definition unregister_buffers (d : DriverType R) (group : Z) : outcome (result Registered.RegisterError unit * DriverType R) :=
  match d with Uring driver => lift_outcome (UringDriver.unregister_buffers driver group) | Epoll => Ret (Err Registered.Unsupported, d) end.
Definition register_files (d : DriverType R) (fds : list Z) : result Registered.RegisterError Z * DriverType R :=
  match d with Uring driver => lift (UringDriver.register_files driver fds) | Epoll => (Err Registered.Unsupported, d) end.
Definition unregister_files (d : DriverType R) (slot : Z) : outcome (result Registered.RegisterError unit * DriverType R) :=
  match d with Uring driver => lift_outcome (UringDriver.unregister_files driver slot) | Epoll => Ret (Err Registered.Unsupported, d) end.
Definition provided_recv_group (d : DriverType R) : option Z :=
  match d with Uring driver => UringDriver.provided_recv_group driver | Epoll => None end.
Definition provided_recv_pool (d : DriverType R) : option BufRingPool.BufRingPool :=
  match d with Uring driver => UringDriver.provided_recv_pool driver | Epoll => None end.
(** The slab argument of [drain_ready] is not used by either arm. *)
Definition drain_ready (d : DriverType R) (max : nat) (out : list IoTokens.Completion)
    : outcome (nat * list IoTokens.Completion * DriverType R) := poll_completions d max out.
Definition submit_deferrable (d : DriverType R) (request : IoRequest) : outcome (SlotSubmit * DriverType R) :=
  match d with
  | Uring driver => '(r, driver) ← UringDriver.submit driver request; Ret (Resolved r, Uring driver)
  | Epoll => Ret (Resolved Unsupported, d)
  end.
Definition submit_deferrable_read (d : DriverType R) (request : IoRequest) : outcome (SlotSubmit * DriverType R) :=
  match d with
  | Uring driver => '(r, driver) ← UringDriver.submit_read driver request; Ret (Resolved r, Uring driver)
  | Epoll => Ret (Resolved Unsupported, d)
  end.
Definition for_platform (build : Detect.SetupTier -> Z -> result errno R) cfg uname maps ring_addr wake_addr (entries : Z)
    : outcome (result errno (DriverType R)) :=
  d ← UringDriver.new build cfg uname maps ring_addr wake_addr entries;
  Ret (match d with Ok d => Ok (Uring d) | Err e => Err e end).
Definition park (d : DriverType R) (deadline : option (Z * Z)) : result errno Z * DriverType R :=
  match d with Uring driver => lift (UringDriver.park driver deadline) | Epoll => (Ok 0, d) end.
Definition flush_deferred (d : DriverType R) : result errno Z * DriverType R :=
  match d with Uring driver => lift (UringDriver.flush_deferred driver) | Epoll => (Ok 0, d) end.
Definition arm_wake_read (d : DriverType R) (fd user_data : Z) : outcome (SubmitResult * DriverType R) :=
  match d with Uring driver => lift_outcome (UringDriver.arm_wake_read driver fd user_data) | Epoll => Ret (Unsupported, d) end.
Definition ring_fd (d : DriverType R) : option Z := match d with Uring driver => Some (UringDriver.ring_fd driver) | Epoll => None end.
Definition submit_msg_ring_wake (d : DriverType R) (target_ring_fd : Z) : outcome (SubmitResult * DriverType R) :=
  match d with Uring driver => lift_outcome (UringDriver.submit_msg_ring_wake driver target_ring_fd) | Epoll => Ret (Unsupported, d) end.
Definition submit_linked_timeout_internal (d : DriverType R) (request : IoRequest) (deadline_ns : Z) : outcome (SubmitResult * DriverType R) :=
  match d with
  | Uring driver => lift_outcome (UringDriver.submit_linked_timeout_internal driver request deadline_ns)
  | Epoll => Ret (Unsupported, d)
  end.

End dispatch.
End Dispatch.
