(* ===== verification/UringThms.v ===== *)
(** * What the kernel is asked, and what it answers

    The submissions and the completion drain of the io_uring driver
    ([Uring]), proved against the laws of the ring ([RingLaws]): a bounded
    submission queue from which an enter takes a prefix, reading the scratch as
    it stands then, and a completion queue from which the iterator takes one
    entry per step.  What a request asks for ([asked]) is compared with what
    the kernel reads out of the entry it takes ([performed]).

    The laws have an instance over lists, used for concrete runs. *)

From S2P Require Import Prelude Words Bitmap IoTokens InflightSlab InflightSpec SockAddr Seam Registered BufRing Uring.
From stdpp Require Import base tactics option numbers list.

Local Open Scope Z_scope.

(** ** The laws of the ring *)

Module RingSpec.
Import Sqe Ring.

(** [queued] entries are pushed and not taken, [taken] ones were read by the
    kernel with the scratch beside them, [posted] completions wait. *)
Class RingLaws (R : Type) `{Ring R} : Type := {
  queued : R -> list Entry;
  taken : R -> list (Entry * SubmitScratch);
  posted : R -> list cqe;
  depth : R -> nat;
  push_law e r :
    match push e r with
    | Some r' => queued r' = queued r ++ [e] /\ taken r' = taken r /\ posted r' = posted r /\ depth r' = depth r
    | None => (depth r <= length (queued r))%nat
    end;
  push_multiple_law es r :
    match push_multiple es r with
    | Some r' => queued r' = queued r ++ es /\ taken r' = taken r /\ posted r' = posted r /\ depth r' = depth r
    | None => (depth r < length (queued r) + length es)%nat
    end;
  enter_law c sc r :
    exists k new, let r' := (enter c sc r).2 in
      queued r' = drop k (queued r) /\ taken r' = taken r ++ ((., sc) <$> take k (queued r)) /\
      posted r' = posted r ++ new /\ depth r' = depth r;
  next_law r :
    match next r with
    | Some (c, r') => posted r = c :: posted r' /\ queued r' = queued r /\ taken r' = taken r /\ depth r' = depth r
    | None => posted r = []
    end;
}.

(** The entry a builder expression stands for: [user_data] sets the field,
    [flags] adds bits. *)
Class EntryLaws : Type := {
  entry_user_data : Entry -> Z;
  entry_flags : Entry -> Z;
  user_data_set u e : entry_user_data (call_user_data u e) = u;
  user_data_keep f e : entry_user_data (call_flags f e) = entry_user_data e;
  flags_add f e : entry_flags (call_flags f e) = Z.lor (entry_flags e) f;
  flags_keep u e : entry_flags (call_user_data u e) = entry_flags e;
  flags_link o : Z.testbit (entry_flags (entry_of o)) 2 = false;
  flags_skip o : Z.testbit (entry_flags (entry_of o)) 6 = false;
  flags_select o : match o with OpRecv _ _ _ (Some _) | OpRecvMulti _ _ => True | _ => Z.testbit (entry_flags (entry_of o)) 5 = false end;
}.

(** The kernel takes every queued entry at each submission. *)
Definition prompt (R : Type) `{RingLaws R} : Prop := forall sc (r : R), queued (enter Submit sc r).2 = [].

(** *** Over lists *)

(** The kernel takes every queued entry when it is [eager]; otherwise [plan]
    says how many it takes at each enter, all of them once it is used up. *)
Record lring (eager : bool) : Type := mkL {
  l_depth : nat; l_sq : list Entry; l_taken : list (Entry * SubmitScratch); l_cq : list cqe; l_plan : list nat;
}.
#[global] Arguments mkL {_} _ _ _ _ _.
#[global] Arguments l_depth {_} _.
#[global] Arguments l_sq {_} _.
#[global] Arguments l_taken {_} _.
#[global] Arguments l_cq {_} _.
#[global] Arguments l_plan {_} _.

Section lists.
Context {eager : bool}.
Local Abbreviation lring := (lring eager).

Definition l_push_multiple (es : list Entry) (r : lring) : option lring :=
  if decide (length (l_sq r) + length es <= l_depth r)%nat
  then Some (mkL (l_depth r) (l_sq r ++ es) (l_taken r) (l_cq r) (l_plan r)) else None.
Definition l_enter (c : enter_call) (sc : SubmitScratch) (r : lring) : result errno Z * lring :=
  let k := if eager then length (l_sq r) else default (length (l_sq r)) (hd_error (l_plan r)) in
  (Ok (Z.of_nat k), mkL (l_depth r) (drop k (l_sq r)) (l_taken r ++ ((., sc) <$> take k (l_sq r))) (l_cq r) (tail (l_plan r))).
Definition l_next (r : lring) : option (cqe * lring) :=
  match l_cq r with [] => None | c :: cs => Some (c, mkL (l_depth r) (l_sq r) (l_taken r) cs (l_plan r)) end.

#[global] Instance lring_ring : Ring lring := {
  push e := l_push_multiple [e];
  push_multiple := l_push_multiple;
  enter := l_enter;
  next := l_next;
  register _ r := (Ok tt, r);
  register_probe _ := Ok (fun _ => true);
  is_setup_single_issuer _ := true;
  as_raw_fd _ := 3;
}.

#[global] Instance lring_laws : RingLaws lring.
Proof.
  refine {| queued := l_sq; taken := l_taken; posted := l_cq; depth := l_depth |}.
  - intros e r. cbn. unfold l_push_multiple. case_decide as H; cbn in *; [done|]. lia.
  - intros es r. cbn. unfold l_push_multiple. case_decide as H; cbn in *; [done|]. lia.
  - intros c sc r. eexists _, []. cbn. by rewrite app_nil_r.
  - intros r. cbn. unfold l_next. by destruct (l_cq r).
Defined.
End lists.

Lemma eager_prompt : prompt (lring true).
Proof. intros sc r. cbn. apply drop_all. Qed.

(** The bits of a CQE flags word in the kernel's interface. *)
#[global] Instance abi_flags : CqueueFlags := {
  buffer_select raw := if Z.testbit raw 0 then Some (wrap U16 (Z.shiftr raw 16)) else None;
  more raw := Z.testbit raw 1;
  notif raw := Z.testbit raw 3;
}.

Definition l_entry_user_data (e : Entry) : Z :=
  fold_left (fun acc c => match c with UserData u => u | Flags _ => acc end) (calls e) 0.
Definition l_entry_flags (e : Entry) : Z :=
  fold_left (fun acc c => match c with UserData _ => acc | Flags f => Z.lor acc f end) (calls e)
    (match op e with OpRecvMulti _ _ => BUFFER_SELECT | _ => 0 end).

#[global] Instance list_entry_laws : EntryLaws.
Proof.
  refine {| entry_user_data := l_entry_user_data; entry_flags := l_entry_flags |};
    try (intros x e; unfold l_entry_user_data, l_entry_flags; cbn; by rewrite fold_left_app);
    intros []; try done; by case_match.
Defined.

End RingSpec.

(** ** What a request asks for *)

Module SubmitSpec.
Import Request Sqe Ring RingSpec.

(** An operation as the kernel carries it out; [multi] is a multishot one. *)
Inductive effect : Type :=
| ERead (fd ptr len offset : Z) | EWrite (fd ptr len offset : Z)
| EReadv (fd iovec count offset : Z) | EWritev (fd iovec count offset : Z)
| ERecv (fd ptr len : Z) | ERecvGroup (fd group : Z) (multi : bool) | ESend (fd ptr len : Z) | ESendZc (fd ptr len : Z)
| EAccept (fd : Z) (multi : bool) | EConnect (fd : Z) (sockaddr : list Z) | ESendMsg (fd msghdr : Z) | ERecvMsg (fd msghdr : Z)
| ESocket (domain socket_type protocol : Z) | EShutdown (fd how : Z) | EClose (fd : Z) | ESync (fd : Z)
| ESplice (fd_in off_in fd_out off_out nbytes splice_flags : Z) | ETee (fd_in fd_out nbytes splice_flags : Z)
| ETimeout (ns : Z) | ELinkTimeout (ns : Z) | ECancel (target : Z) | EMsgRing (fd result sentinel : Z)
| EPollAdd (fd events : Z) | EPollRemove (target : Z).

(** A submission: the operation, the [user_data] of its completion, whether
    the next entry is linked to it, whether success posts no completion,
    whether the kernel selects the buffer. *)
Record submission : Type := mkSub { what : effect; ud : Z; linked : bool; quiet : bool; select : bool }.

(** *** The kernel's reading of an entry *)

Definition nanoseconds (ts : Z * Z) : Z := fst ts * 1000000000 + snd ts.
Definition timespec_at (p : scratch_ptr) (sc : SubmitScratch) : Z * Z :=
  match p with ScratchTimespec => timespec sc | ScratchLinkTimeout => link_timeout sc | ScratchAddr => (0, 0) end.

Definition effect_of (o : sqe_op) (sc : SubmitScratch) : option effect :=
  match o with
  | OpRead (Fd fd) ptr len offset => Some (ERead fd ptr len offset)
  | OpWrite (Fd fd) ptr len offset => Some (EWrite fd ptr len offset)
  | OpReadv (Fd fd) iovec count offset => Some (EReadv fd iovec count offset)
  | OpWritev (Fd fd) iovec count offset => Some (EWritev fd iovec count offset)
  | OpFsync (Fd fd) => Some (ESync fd)
  | OpSplice (Fd i) off_in (Fd o) off_out nbytes fl => Some (ESplice i off_in o off_out nbytes fl)
  | OpTee (Fd i) (Fd o) nbytes fl => Some (ETee i o nbytes fl)
  | OpRecv (Fd fd) ptr len None => Some (ERecv fd ptr len)
  | OpRecv (Fd fd) _ _ (Some g) => Some (ERecvGroup fd g false)
  | OpRecvMulti (Fd fd) g => Some (ERecvGroup fd g true)
  | OpSend (Fd fd) ptr len => Some (ESend fd ptr len)
  | OpSendZc (Fd fd) ptr len => Some (ESendZc fd ptr len)
  | OpAccept (Fd fd) => Some (EAccept fd false)
  | OpAcceptMulti (Fd fd) => Some (EAccept fd true)
  | OpConnect (Fd fd) ScratchAddr len => Some (EConnect fd (take (Z.to_nat len) (addr sc)))
  | OpSendMsg (Fd fd) h => Some (ESendMsg fd h)
  | OpRecvMsg (Fd fd) h => Some (ERecvMsg fd h)
  | OpSocket d t p => Some (ESocket d t p)
  | OpShutdown (Fd fd) how => Some (EShutdown fd how)
  | OpClose (Fd fd) => Some (EClose fd)
  | OpTimeout p => Some (ETimeout (nanoseconds (timespec_at p sc)))
  | OpLinkTimeout p 0 => Some (ELinkTimeout (nanoseconds (timespec_at p sc)))
  | OpAsyncCancel t => Some (ECancel t)
  | OpMsgRingData (Fd fd) r s => Some (EMsgRing fd r s)
  | OpPollAdd (Fd fd) ev => Some (EPollAdd fd ev)
  | OpPollRemove t => Some (EPollRemove t)
  | _ => None
  end.

Definition performed `{EntryLaws} (x : Entry * SubmitScratch) : option submission :=
  let '(e, sc) := x in
  w ← effect_of (op e) sc;
  Some (mkSub w (entry_user_data e) (Z.testbit (entry_flags e) 2) (Z.testbit (entry_flags e) 6) (Z.testbit (entry_flags e) 5)).

(** *** The request's meaning *)

(** The request as its constructor and fields say it; [None] for a payload
    that does not fit the opcode and for the ones no driver builds. *)
Definition asks_for (r : IoRequest) : option effect :=
  let fd := fd r in
  match opcode r, payload r with
  | Read, PBuffer b offset => Some (ERead fd (as_ptr b) (capacity b) offset)
  | Write, PBuffer b offset => Some (EWrite fd (as_ptr b) (bytes_init b) offset)
  | Recv, PBuffer b _ => if multishot (flags r) then None else Some (ERecv fd (as_ptr b) (capacity b))
  | Send, PBuffer b _ => Some (ESend fd (as_ptr b) (bytes_init b))
  | Read, PVectored iovec count offset => Some (EReadv fd iovec count offset)
  | Write, PVectored iovec count offset => Some (EWritev fd iovec count offset)
  | RecvProvided, PFd => g ← buf_group (common r); Some (ERecvGroup fd g (multishot (flags r)))
  | Accept, PFd => Some (EAccept fd (multishot (flags r)))
  | Connect, PSocket a => Some (EConnect fd (SockAddr.image a))
  | Sendmsg, PMsg h => Some (ESendMsg fd h)
  | Recvmsg, PMsg h => Some (ERecvMsg fd h)
  | Socket, PNewSocket d t p => Some (ESocket d t p)
  | Shutdown, PFd => Some (EShutdown fd SHUT_RDWR)
  | Close, PFd => Some (EClose fd)
  | Fsync, PFd => Some (ESync fd)
  | Splice, PSplice fd_out off_in off_out nbytes fl => Some (ESplice fd off_in fd_out off_out nbytes fl)
  | Tee, PSplice fd_out _ _ nbytes fl => Some (ETee fd fd_out nbytes fl)
  | Timeout, PControl (CTimeout ns) => Some (ETimeout ns)
  | Cancel, PControl (CCancel target) => Some (ECancel target)
  | MsgRing, PControl (CMsgRing result sentinel) => Some (EMsgRing fd result sentinel)
  | Poll, PControl (CPollAdd events) => Some (EPollAdd fd events)
  | Poll, PControl (CPollRemove token) => Some (EPollRemove token)
  | _, _ => None
  end.

Definition is_msg_ring (r : IoRequest) : bool := match opcode r with MsgRing => true | _ => false end.
Definition asked (link : bool) (r : IoRequest) : option submission :=
  w ← asks_for r; Some (mkSub w (user_data (common r)) link (is_msg_ring r) (Request.buffer_select (flags r))).

(** The values of the Rust types, of a request on a plain descriptor. *)
Definition payload_wf (p : OpPayload) : Prop :=
  match p with
  | PBuffer b _ => fits 32 (bytes_init b) /\ fits 32 (capacity b)
  | PSocket a => SockAddr.wf a
  | PControl (CTimeout ns) => fits 64 ns
  | _ => True
  end.
Record request_wf (r : IoRequest) : Prop := {
  wf_fd : fixed_fd (flags r) = false;
  wf_payload : payload_wf (payload r);
  wf_select : Request.buffer_select (flags r) = match opcode r with RecvProvided => true | _ => false end;
}.

(** Which entry point takes the request. *)
Definition buffered_write (r : IoRequest) : bool := match opcode r, payload r with Write, PBuffer _ _ | Send, PBuffer _ _ => true | _, _ => false end.
Definition buffered_read (r : IoRequest) : bool := match opcode r, payload r with Read, PBuffer _ _ | Recv, PBuffer _ _ => true | _, _ => false end.
Definition buffered (r : IoRequest) : bool := match payload r with PBuffer _ _ => true | _ => false end.

End SubmitSpec.

(** ** Submission *)

Module SubmitThms.
Import Seam Request Sqe Submission Ring RingSpec SubmitSpec Capability UringDriver.

Inductive call : Type :=
| CWrite (r : IoRequest) | CRead (r : IoRequest) | CInternal (r : IoRequest) | CLinked (r : IoRequest) (deadline_ns : Z)
| CWake (target_ring_fd : Z) | CArm (fd user_data : Z) | CCancel (token : Z).
Inductive answer : Type := Sub (s : SubmitResult) | Can (r : result Cqe.CancelError unit).

Definition sub {R} (x : outcome (SubmitResult * UringDriver R)) : outcome (answer * UringDriver R) := '(a, d) ← x; Ret (Sub a, d).
Definition run_call {R} `{Ring R} (d : UringDriver R) (c : call) : outcome (answer * UringDriver R) :=
  match c with
  | CWrite r => sub (submit d r)
  | CRead r => sub (submit_read d r)
  | CInternal r => sub (submit_internal d r)
  | CLinked r ns => sub (submit_linked_timeout_internal d r ns)
  | CWake fd => sub (submit_msg_ring_wake d fd)
  | CArm fd ud => sub (arm_wake_read d fd ud)
  | CCancel token => '(a, d) ← cancel d token; Ret (Can a, d)
  end.
Fixpoint run_calls {R} `{Ring R} (d : UringDriver R) (cs : list call) : outcome (list answer * UringDriver R) :=
  match cs with
  | [] => Ret ([], d)
  | c :: cs => '(a, d) ← run_call d c; '(as_, d) ← run_calls d cs; Ret (a :: as_, d)
  end.

Definition internal_wf (r : IoRequest) : Prop := request_wf r /\ is_Some (asks_for r) /\ buffered r = false.
Definition call_wf (c : call) : Prop :=
  match c with
  | CWrite r => request_wf r /\ (match opcode r with Write | Send => buffered r = true | _ => True end)
  | CRead r => request_wf r /\ is_Some (asks_for r) /\ buffered_read r = true
  | CInternal r => internal_wf r
  | CLinked r ns => internal_wf r /\ fits 64 ns
  | _ => True
  end.

(** The answer to a call and the operations the kernel is to carry out. *)
Definition spec (caps : CapabilityMatrix) (pad : Z) (c : call) : answer * list (option submission) :=
  let ok r := Sub (Submitted (user_data (common r))) in
  match c with
  | CWrite r => match opcode r with Write | Send => (ok r, [asked false r]) | _ => (Sub Unsupported, []) end
  | CRead r | CInternal r => (ok r, [asked false r])
  | CLinked r ns =>
      if link_timeout caps
      then (ok r, [asked true r; Some (mkSub (ELinkTimeout ns) IoTokens.LINK_TIMEOUT_DISCARD_USER_DATA false false false)])
      else (Sub Unsupported, [])
  | CWake fd =>
      if msg_ring caps
      then (Sub (Submitted IoTokens.MSG_RING_WAKE_USER_DATA),
            [Some (mkSub (EMsgRing fd 0 IoTokens.MSG_RING_WAKE_USER_DATA) IoTokens.MSG_RING_WAKE_USER_DATA false true false)])
      else (Sub Unsupported, [])
  | CArm fd ud => (Sub (Submitted ud), [Some (mkSub (ERead fd pad 8 0) ud false false false)])
  | CCancel token => (Can (Ok tt), [Some (mkSub (ECancel token) 0 false false false)])
  end.

(** *** Entries *)

Section entries.
Context `{EntryLaws}.

(** The submission an entry stands for, in any scratch agreeing with [sc] on
    the fields a request may point at. *)
Definition stands (e : Entry) (sc : SubmitScratch) (s : submission) : Prop :=
  (forall sc', addr sc' = addr sc -> timespec sc' = timespec sc -> effect_of (op e) sc' = Some (what s)) /\
  entry_user_data e = ud s /\ Z.testbit (entry_flags e) 2 = linked s /\
  Z.testbit (entry_flags e) 6 = quiet s /\ Z.testbit (entry_flags e) 5 = select s.

Lemma stands_performed e sc s sc' : stands e sc s -> addr sc' = addr sc -> timespec sc' = timespec sc -> performed (e, sc') = Some s.
Proof. intros (He & Hu & Hl & Hq & Hs) Ha Ht. unfold performed. rewrite (He _ Ha Ht). cbn. destruct s; cbn in *. congruence. Qed.

Lemma bits_common f : Z.testbit (sqe_flags f) 2 = false /\ Z.testbit (sqe_flags f) 6 = false /\
  Z.testbit (sqe_flags f) 5 = Request.buffer_select f.
Proof. unfold sqe_flags. destruct (fixed_fd f), (Request.buffer_select f); done. Qed.

(** A builder's entry after [apply_common]. *)
Lemma stands_common o sc w c f :
  (forall sc', addr sc' = addr sc -> timespec sc' = timespec sc -> effect_of o sc' = Some w) ->
  (match o with OpRecv _ _ _ (Some _) | OpRecvMulti _ _ => Request.buffer_select f = true | _ => True end) ->
  stands (apply_common (entry_of o) c f) sc (mkSub w (user_data c) false false (Request.buffer_select f)).
Proof.
  intros Ho Hb. destruct (bits_common f) as (B2 & B6 & B5). unfold stands, apply_common. cbn [op what ud linked quiet select call_flags call_user_data entry_of].
  fold (entry_of o). fold (call_user_data (user_data c) (entry_of o)). fold (call_flags (sqe_flags f) (call_user_data (user_data c) (entry_of o))).
  rewrite user_data_keep, user_data_set, flags_add, flags_keep, !Z.lor_spec, flags_link, flags_skip, B2, B6, B5.
  repeat split; [done|]. pose proof (flags_select o) as Hs.
  destruct o as [| | | | | | |? ? ? []| | | | | | | | | | | | | | | | | ]; try (by rewrite Hs); by rewrite Hb, orb_true_r.
Qed.

Lemma stands_link e sc s : stands e sc s -> stands (call_flags IO_LINK e) sc (mkSub (what s) (ud s) true (quiet s) (select s)).
Proof.
  intros (He & Hu & Hl & Hq & Hs). unfold stands. change (op (call_flags IO_LINK e)) with (op e).
  rewrite user_data_keep, flags_add, !Z.lor_spec, Hl, Hq, Hs. cbn [what ud linked quiet select]. rewrite !orb_false_r. by destruct (linked s).
Qed.

(** A wake entry does not report its success. *)
Lemma stands_msg_ring fd res sentinel sc c f : stands (apply_common (build_msg_ring fd res sentinel) c f) sc
  (mkSub (EMsgRing fd res sentinel) (user_data c) false true (Request.buffer_select f)).
Proof.
  destruct (bits_common f) as (B2 & B6 & B5). unfold stands, apply_common, build_msg_ring.
  set (o := OpMsgRingData _ _ _). assert (Hs : Z.testbit (entry_flags (entry_of o)) 5 = false) by apply (flags_select o). split; [done|].
  rewrite user_data_keep, user_data_set, !flags_add, flags_keep, flags_add, !Z.lor_spec, flags_link, flags_skip, Hs, B2, B6, B5. done.
Qed.

Lemma nanoseconds_of ns : fits 64 ns -> nanoseconds (timespec_of ns) = ns.
Proof.
  intros _. unfold nanoseconds, timespec_of, wrap. cbn [fst snd].
  pose proof (Z.mod_pos_bound ns 1000000000 ltac:(lia)). rewrite (Z.mod_small _ (2 ^ 32)) by lia.
  pose proof (Z_div_mod_eq_full ns 1000000000). lia.
Qed.

Ltac by_common := simplify_eq/=; eexists _, _; split; [reflexivity|]; split; [done|]; apply stands_common; [done|by cbn].

Lemma build_entry_stands r sc w : request_wf r -> asks_for r = Some w -> buffered r = false -> length (addr sc) = SockAddr.STORAGE ->
  exists e sc', build_entry r sc = Ret (e, sc') /\ length (addr sc') = SockAddr.STORAGE /\
    stands e sc' (mkSub w (user_data (common r)) false (is_msg_ring r) (Request.buffer_select (flags r))).
Proof.
  intros [Hfd Hp Hsel] Ha Hb Hl. destruct r as [fd o [fb ff zc ms bs] c p]. cbn in Hfd, Hp, Hsel, Ha, Hb. subst ff.
  destruct o, p as [| | | | | | |[]]; try discriminate; unfold build_entry; cbn [opcode payload Request.fd flags common].
  all: try by_common.
  - cbn in Ha. destruct (buf_group c) as [g|]; [|discriminate]. unfold build_recv_provided. destruct ms; by_common.
  - destruct ms; by_common.
  - unfold build_connect. rewrite AddrThms.pack_image by done. simplify_eq/=. eexists _, _. split; [reflexivity|].
    pose proof (AddrThms.length_image _ Hp) as Hi. split; [apply AddrThms.length_zeroed; unfold SockAddr.STORAGE; lia|].
    apply stands_common; [|done]. intros sc' Had _. cbn in *. rewrite Had, Nat2Z.id. unfold AddrThms.zeroed. by rewrite take_app_length.
  - simplify_eq/=. eexists _, _. split; [reflexivity|]. split; [done|]. apply stands_common; [|done].
    intros sc' _ Ht. cbn in *. by rewrite Ht, nanoseconds_of.
  - cbn in Ha. injection Ha as <-. eexists _, _. split; [reflexivity|]. split; [done|]. apply stands_msg_ring.
Qed.

Lemma build_read_stands r sc w : request_wf r -> asks_for r = Some w -> buffered_read r = true ->
  exists e, build_entry_read r = Ret e /\ stands e sc (mkSub w (user_data (common r)) false false (Request.buffer_select (flags r))).
Proof.
  intros [Hfd Hp Hsel] Ha Hb. destruct r as [fd o [fb ff zc ms bs] c p]. cbn in Hfd, Hp, Hsel, Ha, Hb. subst ff.
  unfold build_entry_read; destruct o, p; try discriminate; [|destruct ms; [done|]]; destruct Hp as [_ Hc]; simplify_eq/=;
    eexists; (split; [reflexivity|]); apply stands_common; try done; cbn; unfold wrap; rewrite Z.mod_small by exact Hc; done.
Qed.

Lemma build_write_stands r sc : request_wf r -> buffered_write r = true ->
  exists e w, build_entry_write r = Ret e /\ asks_for r = Some w /\
    stands e sc (mkSub w (user_data (common r)) false false (Request.buffer_select (flags r))).
Proof.
  intros [Hfd Hp Hsel] Hb. destruct r as [fd o [fb ff zc ms bs] c p]. cbn in Hfd, Hp, Hsel, Hb. subst ff.
  unfold build_entry_write; destruct o, p; try discriminate; destruct Hp as [Hc _];
    eexists _, _; (split; [reflexivity|]); (split; [reflexivity|]); apply stands_common; try done; cbn; unfold wrap; rewrite Z.mod_small by exact Hc; done.
Qed.

End entries.

(** *** Runs *)

Section run.
Context {R : Type} `{RingLaws R} `{EntryLaws}.
Context (Hprompt : prompt R).

(** A driver between two calls. *)
Record idle (d : UringDriver R) : Prop := {
  id_queue : queued (ring d) = [];
  id_depth : (2 <= depth (ring d))%nat;
  id_addr : length (addr (scratch d)) = SockAddr.STORAGE;
}.

(** From [d] to [d'] the kernel took [subs] and nothing else. *)
Record advances (d d' : UringDriver R) (subs : list (option submission)) : Prop := {
  ad_idle : idle d';
  ad_taken : performed <$> taken (ring d') = (performed <$> taken (ring d)) ++ subs;
  ad_posted : exists new, posted (ring d') = posted (ring d) ++ new;
  ad_caps : capabilities d' = capabilities d;
  ad_pad : wake_buf d' = wake_buf d;
}.

Lemma advances_refl d : idle d -> advances d d [].
Proof. intros Hi. constructor; try done; [by rewrite app_nil_r|exists []; by rewrite app_nil_r]. Qed.

Lemma advances_step d d1 d2 s1 s2 : advances d d1 s1 -> advances d1 d2 s2 -> advances d d2 (s1 ++ s2).
Proof.
  intros [Hi1 Ht1 [n1 Hp1] Hc1 Hw1] [Hi2 Ht2 [n2 Hp2] Hc2 Hw2]. constructor; [done| | |congruence..].
  - by rewrite Ht2, Ht1, app_assoc.
  - exists (n1 ++ n2). by rewrite Hp2, Hp1, app_assoc.
Qed.

(** Entering right after a push hands over everything that was queued. *)
Lemma enter_takes sc (r0 r : R) es : queued r0 = [] -> queued r = queued r0 ++ es -> taken r = taken r0 -> posted r = posted r0 -> depth r = depth r0 ->
  let r' := (enter Submit sc r).2 in
  queued r' = [] /\ taken r' = taken r0 ++ ((., sc) <$> es) /\ (exists new, posted r' = posted r0 ++ new) /\ depth r' = depth r0.
Proof.
  intros Hq Hq' Ht Hp Hd. rewrite Hq in Hq'. cbn in Hq'. pose proof (Hprompt sc r) as He. destruct (enter_law Submit sc r) as (k & new & Hk & Htk & Hn & Hdk).
  cbn zeta. rewrite Hk in He. apply (f_equal length) in He. rewrite length_drop in He. cbn in He.
  rewrite Hk, Htk, Hn, Hdk, Ht, Hp, Hd, <- Hq'. rewrite take_ge by lia. rewrite drop_ge by lia. eauto.
Qed.

Lemma single d e u s sc : idle d -> length (addr sc) = SockAddr.STORAGE -> performed (e, sc) = s ->
  exists d', push_and_submit (set_scratch sc d) e u = (Submitted u, d') /\ advances d d' [s].
Proof.
  intros [Hq Hd Ha] Hs <-. unfold push_and_submit. cbn [ring set_scratch scratch]. pose proof (push_law e (ring d)) as Hl.
  destruct (push e (ring d)) as [r|]; [|rewrite Hq in Hl; cbn in Hl; lia]. destruct Hl as (Hq' & Ht & Hp & Hdd).
  pose proof (enter_takes sc _ _ _ Hq Hq' Ht Hp Hdd) as (E1 & E2 & E3 & E4). destruct (enter Submit sc r) as [a r']. cbn in *.
  eexists. split; [reflexivity|]. constructor; [constructor; cbn; try done; lia| |done..].
  cbn. rewrite E2, fmap_app. done.
Qed.

Lemma pair_ d e1 e2 u s1 s2 sc : idle d -> length (addr sc) = SockAddr.STORAGE -> performed (e1, sc) = s1 -> performed (e2, sc) = s2 ->
  exists d', push_pair_and_submit (set_scratch sc d) [e1; e2] u = (Submitted u, d') /\ advances d d' [s1; s2].
Proof.
  intros [Hq Hd Ha] Hs <- <-. unfold push_pair_and_submit. cbn [ring set_scratch scratch]. pose proof (push_multiple_law [e1; e2] (ring d)) as Hl.
  destruct (push_multiple [e1; e2] (ring d)) as [r|]; [|rewrite Hq in Hl; cbn in Hl; lia]. destruct Hl as (Hq' & Ht & Hp & Hdd).
  pose proof (enter_takes sc _ _ _ Hq Hq' Ht Hp Hdd) as (E1 & E2 & E3 & E4). destruct (enter Submit sc r) as [a r']. cbn in *.
  eexists. split; [reflexivity|]. constructor; [constructor; cbn; try done; lia| |done..].
  cbn. rewrite E2, fmap_app. done.
Qed.

Lemma Ret_eq {A} (x y : A) : Ret x = Ret y -> x = y.
Proof. by intros [=]. Qed.

Lemma set_scratch_id (d : UringDriver R) : set_scratch (scratch d) d = d.
Proof. by destruct d. Qed.

Lemma single_here d e u s : idle d -> performed (e, scratch d) = s -> exists d', push_and_submit d e u = (Submitted u, d') /\ advances d d' [s].
Proof. intros Hi Hs. destruct (single d e u s (scratch d) Hi (id_addr _ Hi) Hs) as (d' & E & A). rewrite set_scratch_id in E. eauto. Qed.

(** *** One call *)

Lemma submit_write_spec d r : idle d -> call_wf (CWrite r) ->
  exists d', sub (submit d r) = Ret ((spec (capabilities d) (wake_buf d) (CWrite r)).1, d') /\
    advances d d' (spec (capabilities d) (wake_buf d) (CWrite r)).2.
Proof.
  intros Hi [Hw Hb]. unfold submit. cbn [spec]. destruct (opcode r) eqn:Eo; cbn [fst snd]; try (exists d; by split; [|apply advances_refl]).
  all: (destruct (build_write_stands r (scratch d) Hw) as (e & w & He & Hk & Hs);
    [unfold buffered_write, buffered in *; rewrite Eo; by destruct (payload r)|]); rewrite He; cbn [mbind outcome_bind].
  all: destruct (single_here d e (user_data (common r)) (asked false r) Hi) as (d' & Ed & A).
  all: try (unfold asked; rewrite Hk; cbn; unfold is_msg_ring; rewrite Eo; exact (stands_performed _ _ _ _ Hs eq_refl eq_refl)).
  all: rewrite Ed; exists d'; by split.
Qed.

Lemma submit_read_spec d r u : idle d -> request_wf r -> is_Some (asks_for r) -> buffered_read r = true -> u = user_data (common r) ->
  exists d', submit_read d r = Ret (Submitted u, d') /\ advances d d' [asked false r].
Proof.
  intros Hi Hw [w Hk] Hb ->. destruct (build_read_stands r (scratch d) w Hw Hk Hb) as (e & He & Hs). unfold submit_read. rewrite He. cbn [mbind outcome_bind].
  destruct (single_here d e (user_data (common r)) (asked false r) Hi) as (d' & Ed & A); [|rewrite Ed; eauto].
  unfold asked. rewrite Hk. cbn. replace (is_msg_ring r) with false by (unfold is_msg_ring, buffered_read in *; by destruct (opcode r)).
  exact (stands_performed _ _ _ _ Hs eq_refl eq_refl).
Qed.

Lemma submit_internal_spec d r : idle d -> internal_wf r ->
  exists d', submit_internal d r = Ret (Submitted (user_data (common r)), d') /\ advances d d' [asked false r].
Proof.
  intros Hi (Hw & [w Hk] & Hb). destruct (build_entry_stands r (scratch d) w Hw Hk Hb (id_addr _ Hi)) as (e & sc & He & Hl & Hs).
  unfold submit_internal. rewrite He. cbn [mbind outcome_bind].
  destruct (single d e (user_data (common r)) (asked false r) sc Hi Hl) as (d' & Ed & A); [|rewrite Ed; eauto].
  unfold asked. rewrite Hk. exact (stands_performed _ _ _ _ Hs eq_refl eq_refl).
Qed.

Lemma linked_spec d r ns : idle d -> internal_wf r -> fits 64 ns -> link_timeout (capabilities d) = true ->
  exists d', submit_linked_timeout_internal d r ns = Ret (Submitted (user_data (common r)), d') /\
    advances d d' [asked true r; Some (mkSub (ELinkTimeout ns) IoTokens.LINK_TIMEOUT_DISCARD_USER_DATA false false false)].
Proof.
  intros Hi (Hw & [w Hk] & Hb) Hn Hc. destruct (build_entry_stands r (scratch d) w Hw Hk Hb (id_addr _ Hi)) as (e & sc & He & Hl & Hs).
  unfold submit_linked_timeout_internal. rewrite Hc. cbn [negb]. rewrite He. cbn [mbind outcome_bind build_link_timeout].
  set (sc2 := mkScratch (addr sc) (timespec sc) (timespec_of ns)). set (t := call_user_data _ _).
  destruct (pair_ d (call_flags IO_LINK e) t (user_data (common r)) (asked true r)
    (Some (mkSub (ELinkTimeout ns) IoTokens.LINK_TIMEOUT_DISCARD_USER_DATA false false false)) sc2 Hi Hl) as (d' & Ed & A); [| |rewrite Ed; eauto].
  - unfold asked. rewrite Hk. exact (stands_performed _ _ _ sc2 (stands_link _ _ _ Hs) eq_refl eq_refl).
  - unfold performed, t. cbn [op call_user_data entry_of effect_of]. fold (entry_of (OpLinkTimeout ScratchLinkTimeout 0)).
    fold (call_user_data IoTokens.LINK_TIMEOUT_DISCARD_USER_DATA (entry_of (OpLinkTimeout ScratchLinkTimeout 0))).
    rewrite user_data_set, flags_keep, flags_link, flags_skip, (flags_select (OpLinkTimeout ScratchLinkTimeout 0)).
    change (timespec_at ScratchLinkTimeout sc2) with (timespec_of ns). by rewrite nanoseconds_of.
Qed.

(** A request built on a fresh [IoRequest] is a request on a plain descriptor. *)
Lemma wake_wf fd : internal_wf (msg_ring_wake fd).
Proof. by split; [constructor|split; [eexists|]]. Qed.
Lemma cancel_wf token : internal_wf (Request.cancel token).
Proof. by split; [constructor|split; [eexists|]]. Qed.

Lemma run_call_spec d c : idle d -> call_wf c ->
  exists d', run_call d c = Ret ((spec (capabilities d) (wake_buf d) c).1, d') /\ advances d d' (spec (capabilities d) (wake_buf d) c).2.
Proof.
  intros Hi Hc. destruct c as [r|r|r|r ns|fd|fd u|token].
  - by apply submit_write_spec.
  - destruct Hc as (Hw & Hk & Hb). destruct (submit_read_spec d r _ Hi Hw Hk Hb eq_refl) as (d' & E & A). exists d'. cbn [run_call]. by rewrite E.
  - destruct (submit_internal_spec d r Hi Hc) as (d' & E & A). exists d'. cbn [run_call]. by rewrite E.
  - destruct Hc as [Hc Hn]. cbn [spec run_call]. destruct (link_timeout (capabilities d)) eqn:El.
    + destruct (linked_spec d r ns Hi Hc Hn El) as (d' & E & A). exists d'. by rewrite E.
    + unfold submit_linked_timeout_internal. rewrite El. exists d. by split; [|apply advances_refl].
  - cbn [spec run_call]. unfold submit_msg_ring_wake. destruct (msg_ring (capabilities d)) eqn:El.
    + cbn [negb]. destruct (submit_internal_spec d _ Hi (wake_wf fd)) as (d' & E & A). exists d'. by rewrite E.
    + exists d. by split; [|apply advances_refl].
  - set (r := with_user_data (read fd (inline_buf (wake_buf d) 8) 0) u). cbn [spec run_call]. unfold arm_wake_read. fold r.
    destruct (submit_read_spec d r u Hi) as (d' & E & A); [by constructor|by eexists|done|done|]. exists d'. by rewrite E.
  - destruct (submit_internal_spec d _ Hi (cancel_wf token)) as (d' & E & A). exists d'. split; [|exact A].
    unfold submit_internal in E. cbn [run_call spec fst]. unfold cancel.
    destruct (build_entry (Request.cancel token) (scratch d)) as [[e sc]| | |]; try done. cbn [mbind outcome_bind] in E |- *.
    apply Ret_eq in E. unfold Request.cancel, build in E |- *. cbn [common user_data no_common] in E |- *. by rewrite E.
Qed.

End run.

(** The answers to a sequence of calls, and the operations handed to the
    kernel, in order. *)
Definition answers caps pad (cs : list call) : list answer := (fun c => fst (spec caps pad c)) <$> cs.
Definition submissions caps pad (cs : list call) : list (option submission) := cs ≫= (fun c => snd (spec caps pad c)).

(** C14: A submission reaches the kernel as what its request says.  On any ring
    that keeps the submission-queue laws and a kernel that takes what is queued
    when it is entered, every sequence of submissions returns: a buffered
    write, send, read or receive, an internal operation, an operation under a
    linked deadline, a cross-ring wake, the wake-fd read, a cancellation.  Each
    is answered as its capability says, and the kernel carries out exactly the
    accepted ones, in order and once each: on the request's descriptor, with its
    pointer and length, its packed address, its duration, its group, and its
    [user_data]; a linked deadline right behind the operation it bounds, which
    alone carries the link. *)
Theorem uring_submits_exactly {R : Type} `{RingLaws R} `{EntryLaws} (d : UringDriver R) cs : prompt R -> idle d -> Forall call_wf cs ->
  exists d', run_calls d cs = Ret (answers (capabilities d) (wake_buf d) cs, d') /\ idle d' /\
    performed <$> taken (ring d') = (performed <$> taken (ring d)) ++ submissions (capabilities d) (wake_buf d) cs.
Proof.
  intros Hp Hi Hc. enough (exists d', run_calls d cs = Ret (answers (capabilities d) (wake_buf d) cs, d') /\
    advances d d' (submissions (capabilities d) (wake_buf d) cs)) as (d' & E & [A T _ _ _]) by eauto.
  revert d Hi Hc. induction cs as [|c cs IH]; intros d Hi Hc; [exists d; split; [done|by apply advances_refl]|].
  apply Forall_cons_1 in Hc as [Hc Hcs]. destruct (run_call_spec Hp d c Hi Hc) as (d1 & E1 & A1).
  destruct (IH d1 (ad_idle _ _ _ A1) Hcs) as (d2 & E2 & A2). rewrite (ad_caps _ _ _ A1), (ad_pad _ _ _ A1) in E2, A2.
  exists d2. split; [|exact (advances_step _ _ _ _ _ A1 A2)]. cbn [run_calls]. rewrite E1. cbn [mbind outcome_bind]. by rewrite E2.
Qed.

(** A driver over the list ring. *)
Definition list_driver {eager} (plan : list nat) (cq : list cqe) : UringDriver (lring eager) :=
  mkUring (mkL 8 [] [] cq plan) full Detect.Optimal scratch_new 4096 (RegisteredBuffers.new 0) (RegisteredFds.new 0) None.
Definition peer (p : Z) : SockAddr.SockAddr := SockAddr.V4 (SockAddr.mkV4 [127; 0; 0; 1] p).
Lemma loopback_wf p : fits 16 p -> SockAddr.wf (peer p).
Proof. intros Hp. split; [split; [done|]|done]. repeat constructor; cbn; lia. Qed.
Definition demo : list call :=
  [CLinked (with_user_data (connect 5 (peer 80)) 7) 1500000000; CWrite (with_user_data (send 5 (fixed_size_buf 8192 64 11)) 8);
   CInternal (with_user_data (recv_multishot_provided 5 0) 9); CArm 6 10; CWake 12; CCancel 9].

Lemma uring_submits_exactly_witness : exists d', run_calls (list_driver (eager := true) [] []) demo =
    Ret ([Sub (Submitted 7); Sub (Submitted 8); Sub (Submitted 9); Sub (Submitted 10); Sub (Submitted IoTokens.MSG_RING_WAKE_USER_DATA); Can (Ok tt)], d') /\
  performed <$> taken (ring d') =
    [Some (mkSub (EConnect 5 [2; 0; 0; 80; 127; 0; 0; 1; 0; 0; 0; 0; 0; 0; 0; 0]) 7 true false false);
     Some (mkSub (ELinkTimeout 1500000000) IoTokens.LINK_TIMEOUT_DISCARD_USER_DATA false false false);
     Some (mkSub (ESend 5 8192 11) 8 false false false); Some (mkSub (ERecvGroup 5 0 true) 9 false false true);
     Some (mkSub (ERead 6 4096 8 0) 10 false false false);
     Some (mkSub (EMsgRing 12 0 IoTokens.MSG_RING_WAKE_USER_DATA) IoTokens.MSG_RING_WAKE_USER_DATA false true false);
     Some (mkSub (ECancel 9) 0 false false false)].
Proof.
  destruct (uring_submits_exactly (list_driver (eager := true) [] []) demo eager_prompt) as (d' & E & _ & T).
  - by constructor; cbn; try lia.
  - repeat constructor; try done; cbn; try lia; try (by eexists).
  - exists d'. split; [exact E|]. exact T.
Defined.

Lemma connect_entry fd a u sc : SockAddr.wf a -> length (addr sc) = SockAddr.STORAGE ->
  build_entry (with_user_data (connect fd a) u) sc =
    Ret (apply_common (entry_of (OpConnect (Fd fd) ScratchAddr (Z.of_nat (length (SockAddr.image a))))) (mkCommon u None None None) no_flags,
         mkScratch (AddrThms.zeroed (SockAddr.image a)) (timespec sc) (Sqe.link_timeout sc)).
Proof. intros Ha Hl. unfold build_entry, connect, with_user_data, build. cbn [opcode payload]. unfold build_connect. by rewrite AddrThms.pack_image. Qed.

Lemma list_push {eager} (d : UringDriver (lring eager)) e u : (length (l_sq (ring d)) < l_depth (ring d))%nat ->
  push_and_submit d e u = (Submitted u, set_ring (snd (l_enter Submit (scratch d)
    (mkL (l_depth (ring d)) (l_sq (ring d) ++ [e]) (l_taken (ring d)) (l_cq (ring d)) (l_plan (ring d))))) d).
Proof. intros Hl. unfold push_and_submit. cbn [push lring_ring]. unfold l_push_multiple. rewrite decide_True by (cbn; lia). done. Qed.

(** A submission the kernel does not take at once can be carried out on
    another address.  The entries of two connects both point at the driver's
    one address scratch, and [push_and_submit] ignores the answer of the
    submission, so when the first enter takes nothing (the kernel answers
    [EAGAIN] or [EBUSY]) and the second takes both, both connects are accepted
    and the kernel connects both descriptors to the second address. *)
Theorem uring_connect_overwrites a b : SockAddr.wf a -> SockAddr.wf b ->
  exists d', run_calls (list_driver (eager := false) [0%nat] []) [CInternal (with_user_data (connect 5 a) 1); CInternal (with_user_data (connect 6 b) 2)]
      = Ret ([Sub (Submitted 1); Sub (Submitted 2)], d') /\
    exists n, performed <$> taken (ring d') =
      [Some (mkSub (EConnect 5 (take n (AddrThms.zeroed (SockAddr.image b)))) 1 false false false);
       Some (mkSub (EConnect 6 (SockAddr.image b)) 2 false false false)] /\ n = length (SockAddr.image a).
Proof.
  intros Ha Hb. pose proof (AddrThms.length_image _ Ha) as La. pose proof (AddrThms.length_image _ Hb) as Lb.
  cbn [run_calls run_call]. unfold submit_internal. rewrite connect_entry by done.
  cbn [mbind outcome_bind sub]. rewrite list_push by (cbn; lia). cbn [mbind outcome_bind].
  rewrite connect_entry by (done || (apply AddrThms.length_zeroed; unfold SockAddr.STORAGE; lia)).
  cbn [mbind outcome_bind sub]. rewrite list_push by (cbn; lia). eexists. split; [reflexivity|]. exists (length (SockAddr.image a)). split; [|done].
  cbn -[AddrThms.zeroed Z.of_nat Z.to_nat]. rewrite !Nat2Z.id.
  unfold AddrThms.zeroed at 2. by rewrite take_app_length.
Qed.

(** Requests the driver does not honour.  A zero-copy send is refused
    whatever the capabilities say.  A request on a registered descriptor names
    the table entry by the descriptor's own number instead of its slot.  A
    multishot receive into a buffer is built as a single receive.  The
    [fallocate] and [fadvise] requests panic. *)
Theorem uring_requests_not_honoured {R : Type} `{Ring R} (d : UringDriver R) fd b slot sc :
  submit d (Request.send_zc fd b) = Ret (Unsupported, d) /\
  (exists e, build_entry (with_registered_fd (accept fd) slot) sc = Ret (e, sc) /\ op e = OpAccept (Fixed (wrap U32 fd))) /\
  (exists e e', build_entry_read (recv_multishot fd b) = Ret e /\ build_entry_read (recv fd b) = Ret e' /\ op e = op e') /\
  build_entry (fallocate fd) sc = Panic /\ build_entry (fadvise fd) sc = Panic.
Proof. repeat split; try done; repeat eexists. Qed.

End SubmitThms.

(** ** Completions *)

Module DrainThms.
Import IoTokens Ring RingSpec Cqe.

Section drain.
Context {R : Type} `{RingLaws R} `{CqueueFlags}.

(** The loop from a count on, over the completions that wait. *)
Lemma drain_loop_spec n ps : forall fuel capacity count (r : R) out, posted r = ps -> capacity = (count + n)%nat -> (capacity <= length out)%nat ->
  (n + 1 < fuel)%nat ->
  exists r', drain_loop fuel capacity count r out =
      Ret ((count + Nat.min n (length ps))%nat,
           take count out ++ (translate_cqe <$> take n ps) ++ drop (count + Nat.min n (length ps)) out, r') /\
    posted r' = drop (S n) ps /\ queued r' = queued r /\ taken r' = taken r.
Proof.
  induction n as [|n IH] in ps |- *; intros [|fuel] capacity count r out Hp -> Hl Hf; try lia; cbn [drain_loop]; pose proof (next_law r) as Hn;
    destruct (next r) as [[c r1]|]; rewrite Hp in Hn.
  - destruct Hn as (-> & Hq & Ht & _). rewrite decide_True by lia. exists r1. cbn [take fmap list_fmap]. rewrite Nat.min_0_l, Nat.add_0_r, app_nil_l, take_drop.
    split; [done|]. cbn [drop]. done.
  - rewrite Hn in Hp |- *. exists r. cbn [take fmap list_fmap length]. rewrite Nat.min_0_l, Nat.add_0_r, app_nil_l, take_drop, Hp. done.
  - destruct Hn as (-> & Hq & Ht & _). rewrite decide_False by lia. unfold Bitmap.store. rewrite decide_True by lia. cbn [mbind outcome_bind].
    destruct (IH (posted r1) fuel (count + S n)%nat (S count) r1 (<[count := translate_cqe c]> out)) as (r2 & E & Hp2 & Hq2 & Ht2);
      [done|lia|rewrite length_insert; lia|lia|].
    exists r2. rewrite E. split; [|split; [done|]; by rewrite Hq2, Ht2]. f_equal. f_equal. f_equal; [cbn [length]; lia|].
    cbn [take fmap list_fmap length]. rewrite drop_insert_lt by lia. rewrite (take_S_r _ _ (translate_cqe c)) by (apply list_lookup_insert_eq; lia).
    rewrite take_insert_ge by lia. rewrite <- app_assoc. cbn [app]. do 4 f_equal. lia.
  - rewrite Hn in Hp |- *. exists r. cbn [take fmap list_fmap length]. rewrite Nat.min_0_r, Nat.add_0_r, app_nil_l, take_drop, Hp. done.
Qed.

End drain.

(** C25: What one completion drain does.  With room for [n] completions
    ([max], capped by the length of [out]) and the completions [posted] waiting,
    the drain returns: it writes the first [n] of them at the start of [out], in
    order, each with its own token, result, flags and buffer id, leaves the rest
    of [out] as it was and reports how many it wrote.  When at most [n] wait,
    none is left and none is lost.  When more wait, it also takes the completion
    after the last one it stored and drops it. *)
Theorem uring_drain_exact {R : Type} `{RingLaws R} `{CqueueFlags} (r : R) max out :
  let n := Nat.min max (length out) in
  let k := Nat.min n (length (posted r)) in
  exists r', drain_completions r max out = Ret (k, (translate_cqe <$> take n (posted r)) ++ drop k out, r') /\
    queued r' = queued r /\ taken r' = taken r /\
    ((length (posted r) <= n)%nat -> k = length (posted r) /\ posted r' = []) /\
    ((n < length (posted r))%nat -> exists lost, posted r !! n = Some lost /\ posted r = take n (posted r) ++ [lost] ++ posted r').
Proof.
  intros n k. destruct (drain_loop_spec n (posted r) (S (S n)) n 0 r out eq_refl eq_refl ltac:(lia) ltac:(lia)) as (r' & E & Hp & Hq & Ht).
  exists r'. split; [exact E|]. split; [done|]. split; [done|]. split.
  - intros Hl. split; [lia|]. rewrite Hp. apply drop_ge. lia.
  - intros Hl. destruct (lookup_lt_is_Some_2 _ _ Hl) as [x Hx]. exists x. split; [done|]. rewrite Hp. symmetry. by apply take_drop_middle.
Qed.

Definition waiting (n : Z) : lring true := mkL 8 [] [] ((fun u => mkRaw u 0 0) <$> seqZ 0 n) [].
Definition blank (n : nat) : list Completion := replicate n (mkCqe 0 0 0 None).

Lemma uring_drain_exact_witness : exists r', drain_completions (waiting 3) 4 (blank 4) = Ret (3%nat, [mkCqe 0 0 0 None; mkCqe 1 0 0 None; mkCqe 2 0 0 None; mkCqe 0 0 0 None], r') /\
  posted r' = [].
Proof.
  destruct (uring_drain_exact (waiting 3) 4 (blank 4)) as (r' & E & _ & _ & Hall & _). exists r'. split; [exact E|]. apply Hall. vm_compute. lia.
Defined.

(** The bits of a drained completion.  Under the kernel's flag word the
    completion says MORE, NOTIF or BUFFER exactly when the kernel set that bit,
    and it carries a buffer id exactly when it says BUFFER. *)
Theorem uring_translate_bits (c : cqe) :
  let t := translate_cqe c in
  contains (flags t) MORE = Z.testbit (cqe_flags c) 1 /\ contains (flags t) NOTIF = Z.testbit (cqe_flags c) 3 /\
  contains (flags t) BUFFER = Z.testbit (cqe_flags c) 0 /\
  buf_id t = (if Z.testbit (cqe_flags c) 0 then Some (Z.shiftr (cqe_flags c) 16 mod 2 ^ 16) else None).
Proof.
  intros t. unfold t, translate_cqe, translate_flags, is_cqe_more, is_cqe_notif. cbn [flags buf_id buffer_select more notif abi_flags].
  by destruct (Z.testbit (cqe_flags c) 0), (Z.testbit (cqe_flags c) 1), (Z.testbit (cqe_flags c) 3).
Qed.

(** The drain loses completions.  With 65 completions waiting and the
    run loop's batch of 64, two drains see the first 64 and no more: the last one
    is neither stored nor left in the queue. *)
Theorem uring_drain_loses : exists out r1 r2,
  drain_completions (waiting 65) 64 (blank 64) = Ret (64%nat, out, r1) /\
  drain_completions r1 64 (blank 64) = Ret (0%nat, blank 64, r2) /\
  token <$> out = seqZ 0 64.
Proof. eexists _, _, _. split; [vm_compute; reflexivity|]. split; vm_compute; reflexivity. Qed.

End DrainThms.

(** ** The probe *)

Module ProbeThms.
Import Capability Detect.

(** The decimal digits of [n], most significant first. *)
Fixpoint decimal_go (fuel : nat) (n : Z) : list Z :=
  match fuel with
  | O => []
  | S fuel => if n <? 10 then [48 + n] else decimal_go fuel (n / 10) ++ [48 + n mod 10]
  end.
(** Ten digits hold every [u32]. *)
Definition decimal (n : Z) : list Z := decimal_go 10 n.

Definition digit (c : Z) : Prop := 48 <= c <= 57.

Lemma decimal_go_digits fuel n : 0 <= n -> (0 < fuel)%nat -> Forall digit (decimal_go fuel n) /\ decimal_go fuel n <> [].
Proof.
  revert n. induction fuel as [|fuel IH]; intros n Hn Hf; [lia|]. cbn [decimal_go]. destruct (Z.ltb_spec n 10) as [Hlt|Hge].
  - split; [|done]. constructor; [unfold digit; lia|constructor].
  - pose proof (Z.mod_pos_bound n 10 ltac:(lia)). split; [|by destruct (decimal_go _ _)]. apply Forall_app. split; [|constructor; [unfold digit; lia|constructor]].
    destruct fuel; [constructor|]. apply IH; [apply Z.div_pos|]; lia.
Qed.

Lemma parse_digits_app s : forall acc t, parse_digits acc (s ++ t) = (a ← parse_digits acc s; parse_digits a t).
Proof.
  induction s as [|c s IH]; intros acc t; [done|]. cbn [app parse_digits]. destruct ((48 <=? c) && (c <=? 57)); [|done].
  destruct (checked_mul U32 acc 10) as [a|]; [|done]. cbn [mbind option_bind]. destruct (checked_add U32 a (c - 48)); [|done]. apply IH.
Qed.

Lemma parse_digit a d : 0 <= a -> 0 <= d < 10 -> 10 * a + d < 2 ^ 32 -> parse_digits a [48 + d] = Some (10 * a + d).
Proof.
  intros Ha Hd Hb. cbn [parse_digits]. rewrite (proj2 (Z.leb_le 48 _)), (proj2 (Z.leb_le _ 57)) by lia. cbn [andb]. unfold checked_mul, checked_add.
  rewrite (proj2 (Z.ltb_lt _ _)) by lia. cbn [mbind option_bind]. rewrite (proj2 (Z.ltb_lt _ _)) by lia. cbn [mbind option_bind]. f_equal. lia.
Qed.

Lemma parse_decimal_go fuel n : 0 <= n < 2 ^ 32 -> n < 10 ^ Z.of_nat fuel -> (0 < fuel)%nat -> parse_digits 0 (decimal_go fuel n) = Some n.
Proof.
  revert n. induction fuel as [|fuel IH]; intros n Hn Hf Hz; [lia|]. cbn [decimal_go]. destruct (Z.ltb_spec n 10) as [Hlt|Hge].
  - rewrite parse_digit; [done|lia..].
  - rewrite Nat2Z.inj_succ, Z.pow_succ_r in Hf by lia. pose proof (Z_div_mod_eq_full n 10). pose proof (Z.mod_pos_bound n 10 ltac:(lia)).
    destruct fuel as [|fuel]; [cbn in Hf; lia|]. rewrite parse_digits_app, IH by lia. cbn [mbind option_bind]. rewrite parse_digit by lia. f_equal. lia.
Qed.

Lemma parse_decimal n : fits 32 n -> parse_u32 (decimal n) = Some n.
Proof.
  intros Hn. destruct (decimal_go_digits 10 n) as [Hd Hne]; [unfold fits in Hn; lia|lia|]. pose proof (parse_decimal_go 10 n Hn) as Hp.
  unfold fits in Hn. specialize (Hp ltac:(cbn; lia) ltac:(lia)). unfold decimal. destruct (decimal_go 10 n) as [|c s]; [done|].
  apply Forall_cons_1 in Hd as [Hc _]. unfold digit in Hc. unfold parse_u32, PLUS, DASH.
  rewrite (proj2 (Z.eqb_neq c 43)), (proj2 (Z.eqb_neq c 45)) by lia. by destruct s.
Qed.

Lemma split_none sep s : Forall (fun c => c <> sep) s -> split sep s = [s].
Proof. induction 1 as [|c s Hc _ IH]; [done|]. cbn [split]. by rewrite (proj2 (Z.eqb_neq _ _)), IH. Qed.
Lemma split_at sep s t : Forall (fun c => c <> sep) s -> split sep (s ++ sep :: t) = s :: split sep t.
Proof.
  induction 1 as [|c s Hc _ IH]; cbn [app split]; [by rewrite Z.eqb_refl|]. by rewrite (proj2 (Z.eqb_neq _ _)), IH.
Qed.

Lemma decimal_avoids sep n : fits 32 n -> ~ digit sep -> Forall (fun c => c <> sep) (decimal n).
Proof.
  intros Hn Hs. destruct (decimal_go_digits 10 n) as [Hd _]; [unfold fits in Hn; lia|lia|]. eapply Forall_impl; [exact Hd|]. intros c Hc ->. done.
Qed.

(** A suffix [split] cuts off. *)
Definition build_suffix (s : list Z) : Prop := s = [] \/ exists t, s = DASH :: t.

Lemma first_dash s suffix : Forall (fun c => c <> DASH) s -> build_suffix suffix -> hd_error (split DASH (s ++ suffix)) = Some s.
Proof. intros Hs [->|[t ->]]; [by rewrite app_nil_r, split_none|by rewrite split_at]. Qed.

(** The kernel release is read back.  A release of the form
    [major.minor.patch] or [major.minor], in decimal and each number a [u32],
    with or without a suffix that starts with a dash, parses to exactly those
    numbers, the patch zero when it is not given. *)
Theorem version_roundtrip major minor patch suffix : fits 32 major -> fits 32 minor -> fits 32 patch -> build_suffix suffix ->
  parse_version_string (decimal major ++ DOT :: decimal minor ++ DOT :: decimal patch ++ suffix) = Some (mkVersion major minor patch) /\
  parse_version_string (decimal major ++ DOT :: decimal minor ++ suffix) = Some (mkVersion major minor 0).
Proof.
  intros H1 H2 H3 Hs. unfold parse_version_string.
  assert (Hd : forall n, fits 32 n -> Forall (fun c => c <> DASH) (decimal n)) by (intros n Hn; apply decimal_avoids; [done|unfold digit, DASH; lia]).
  assert (Ho : forall n, fits 32 n -> Forall (fun c => c <> DOT) (decimal n)) by (intros n Hn; apply decimal_avoids; [done|unfold digit, DOT; lia]).
  split.
  - replace (decimal major ++ _) with ((decimal major ++ DOT :: decimal minor ++ DOT :: decimal patch) ++ suffix) by (repeat (rewrite <- app_assoc; cbn [app]); done).
    rewrite first_dash; [|rewrite !Forall_app, !Forall_cons, Forall_app, Forall_cons; repeat split; auto; done|done].
    cbn [mbind option_bind]. rewrite !split_at, split_none by auto. cbn [lookup list_lookup mbind option_bind]. by rewrite !parse_decimal.
  - replace (decimal major ++ _) with ((decimal major ++ DOT :: decimal minor) ++ suffix) by (rewrite <- app_assoc; done).
    rewrite first_dash; [|rewrite !Forall_app, !Forall_cons; repeat split; auto; done|done].
    cbn [mbind option_bind]. rewrite !split_at, split_none by auto. cbn [lookup list_lookup mbind option_bind]. by rewrite !parse_decimal.
Qed.

(** "6.1.42-generic" and "5.19-generic". *)
Lemma version_roundtrip_witness :
  parse_version_string [54; 46; 49; 46; 52; 50; 45; 103; 101; 110; 101; 114; 105; 99] = Some (mkVersion 6 1 42) /\
  parse_version_string [54; 46; 49; 45; 103; 101; 110; 101; 114; 105; 99] = Some (mkVersion 6 1 0).
Proof.
  refine (version_roundtrip 6 1 42 [45; 103; 101; 110; 101; 114; 105; 99] _ _ _ _); [unfold fits; lia..|right; by eexists].
Defined.

End ProbeThms.

(** ** Readiness retries *)

Module ReadinessThms.
Import IoTokens Inflight InflightSpec Socket Dispatch.

(** What recv(2) and send(2) promise: no more than the buffer is transferred,
    a receive writes exactly what it reports, a failure sets [errno]. *)
Record sockets_ok (k : sockets) : Prop := {
  so_recv fd len fl : 0 <= len -> let '(r, bytes) := recv k fd len fl in ret r <= len /\ length bytes = Z.to_nat (ret r) /\ (ret r < 0 -> is_Some (last_os_error r));
  so_send fd buf fl : let r := send k fd buf fl in ret r <= Z.of_nat (length buf) /\ (ret r < 0 -> is_Some (last_os_error r));
}.

(** The completion value of a call; [None] while the socket would block. *)
Definition value (r : sys) : option Z :=
  if 0 <=? ret r then Some (ret r)
  else match last_os_error r with Some e => if e =? EAGAIN then None else Some (- e) | None => Some (- EIO) end.

(** The retry of a record whose slot region is [region]: the value and the
    bytes it leaves in the region. *)
Definition attempt (k : sockets) (d : DeferredOp) (region : list Z) : option Z * list Z :=
  let n := Z.min (len d) INFLIGHT_BUF_STRIDE in
  match opcode d with
  | Recv => let '(r, bytes) := recv k (fd d) n MSG_DONTWAIT in (value r, bytes ++ drop (length bytes) region)
  | Send => (value (send k (fd d) (take (Z.to_nat n) region) (Z.lor MSG_DONTWAIT MSG_NOSIGNAL)), region)
  end.

(** The bytes of slot [i]. *)
Definition region (s : InflightBufSlab) (i : Z) : list Z := take (Z.to_nat INFLIGHT_BUF_STRIDE) (drop (Z.to_nat (i * INFLIGHT_BUF_STRIDE)) (storage s)).

(** The slot a readiness event on [raw] retries: the first occupied one that
    waits for it. *)
Definition waits (s : InflightBufSlab) (raw i : Z) (d : DeferredOp) : Prop :=
  ranged i /\ e_occ (at_ s i) = true /\ e_def (at_ s i) = Some d /\ fd d = raw /\
  forall j d', 0 <= j < i -> e_occ (at_ s j) = true -> e_def (at_ s j) = Some d' -> fd d' <> raw.

Section retry.
Context (s : InflightBufSlab) (W : wf s).
Let Sh : shape s := wf_shape s W.

Definition names (raw i : Z) : bool := match e_def (at_ s i) with Some d => fd d =? raw | None => false end.

Lemma deferred_key_spec raw : exists r, deferred_key_by_fd s raw = Ret r /\
  match r with
  | Some key => exists d, waits s raw (slot key) d /\ key = mkKey (slot key) (e_gen (at_ s (slot key))) (owner s) (e_tok (at_ s (slot key)))
  | None => forall i d, ranged i -> e_occ (at_ s i) = true -> e_def (at_ s i) = Some d -> fd d <> raw
  end.
Proof.
  unfold deferred_key_by_fd.
  set (hit := fun i => d ← Bitmap.index (deferred s) (Z.to_nat i); Ret (match d with None => false | Some d => fd d =? raw end)).
  destruct (Bitmap.scan_spec hit (names raw) BITMAP_WORDS (occupied s)) as (r & -> & Hr); [apply Sh| |].
  { intros i Hi. unfold hit. rewrite (index_in _ None) by (apply Sh || by apply slot_in_ranged). done. }
  cbn [mbind outcome_bind]. destruct r as [i|].
  - destruct Hr as (Hi & Ho & Hp & Hmin). apply (proj1 (slot_in_ranged i)) in Hi. cbn [mbind option_bind].
    unfold try_from. destruct (Z.ltb_spec i (2 ^ 16)); [|unfold ranged in Hi; lia].
    rewrite !(index_in _ 0) by (apply Sh || done). cbn [mbind outcome_bind]. eexists. split; [done|]. cbn [slot]. unfold names in Hp.
    destruct (e_def (at_ s i)) as [d|] eqn:Ed; [|done]. exists d. split; [|done]. apply Z.eqb_eq in Hp. repeat split; try done; [apply Hi..|].
    intros j d' Hj Hoj Hdj Hfd. specialize (Hmin j Hj Hoj). unfold names in Hmin. rewrite Hdj in Hmin. lia.
  - eexists. split; [done|]. intros i d Hi Ho Hd Hfd. specialize (Hr i (proj2 (slot_in_ranged i) Hi) Ho). unfold names in Hr. rewrite Hd in Hr. lia.
Qed.

Lemma set_deferred_becomes i x : ranged i ->
  exists l, Bitmap.store (deferred s) (Z.to_nat i) x = Ret l /\
    let e := at_ s i in becomes s (set_deferred l s) i (mkEntry (e_occ e) (e_ret e) (e_exp e) (e_rdy e) (e_gen e) (e_tok e) x).
Proof.
  intros Hr. destruct (store_in (deferred s) None i x) as (l & -> & Hl & Hn); [apply Sh|done|]. exists l. split; [done|]. cbn zeta.
  constructor; try done; [constructor; try apply Sh; done|]. intros j Hj. unfold at_.
  cbn [set_deferred occupied retire_pending notif_expected notif_ready generations op_tokens deferred]. rewrite Hn by done. case_decide; [by subst|done].
Qed.

Lemma retire_deferred_spec key d : live s key = true -> ranged (slot key) -> e_def (at_ s (slot key)) = Some d ->
  exists s', retire_deferred s key = Ret (Some d, s') /\
    let e := at_ s (slot key) in becomes s s' (slot key) (mkEntry (e_occ e) (e_ret e) (e_exp e) (e_rdy e) (e_gen e) (e_tok e) None).
Proof.
  intros Hl Hr Hd. unfold retire_deferred. rewrite is_live_spec by (done || apply Hr). rewrite Hl. cbn [mbind outcome_bind negb]. unfold clear_deferred.
  rewrite (index_in _ None) by (apply Sh || done). cbn [mbind outcome_bind]. destruct (set_deferred_becomes (slot key) None Hr) as (l & -> & B).
  cbn [mbind outcome_bind]. cbn in Hd. rewrite Hd. by eexists.
Qed.

(** Deferring an operation keeps its record in the slot its token names. *)
Lemma mark_deferred_spec token d : exists b s', mark_deferred_by_op_token s token d = Ret (b, s') /\ wf s' /\
  if b : bool then exists i, ranged i /\ e_occ (at_ s i) = true /\ e_tok (at_ s i) = token /\
    forall j, ranged j -> at_ s' j = if decide (j = i) then mkEntry true (e_ret (at_ s i)) (e_exp (at_ s i)) (e_rdy (at_ s i)) (e_gen (at_ s i)) token (Some d) else at_ s j
  else s' = s.
Proof.
  unfold mark_deferred_by_op_token. destruct (occupied_by_token_spec s W token) as (r & -> & Hr). cbn [mbind outcome_bind].
  destruct r as [i|]; [|by exists false, s]. destruct Hr as (Hi & Ho & Ht & _). destruct (set_deferred_becomes i (Some d) Hi) as (l & -> & B). cbn zeta in B. rewrite Ho, Ht in B.
  cbn [mbind outcome_bind]. exists true. eexists. split; [done|]. destruct (wf_entry s W i Hi) as (E1 & E2 & _).
  split; [|exists i; split; [done|]; split; [done|]; split; [done|]; apply (be_at _ _ _ _ B)]. apply (becomes_wf s _ i _ W B). by split; [auto|].
Qed.

(** *** Slot regions *)

Lemma region_fits i : i < cap s -> 0 <= i -> Z.of_nat (length (storage s)) = cap s * INFLIGHT_BUF_STRIDE /\ (i + 1) * INFLIGHT_BUF_STRIDE <= cap s * INFLIGHT_BUF_STRIDE.
Proof. intros Hc H0. pose proof (sh_bytes s Sh) as Hb. rewrite (sh_stride s Sh) in Hb. split; [done|]. unfold INFLIGHT_BUF_STRIDE. lia. Qed.

Lemma region_has i : 0 <= i < cap s -> length (region s i) = Z.to_nat INFLIGHT_BUF_STRIDE /\ Octets.has (storage s) (i * INFLIGHT_BUF_STRIDE) (region s i).
Proof.
  intros [H0 Hc]. destruct (region_fits i Hc H0) as [Hb Hi]. unfold INFLIGHT_BUF_STRIDE in *.
  assert (Hl : length (region s i) = Z.to_nat 4096) by (unfold region, INFLIGHT_BUF_STRIDE; rewrite length_take, length_drop; lia).
  split; [done|]. apply Octets.has_take; [lia|]. rewrite Hl. split; [done|lia].
Qed.

Lemma region_of_has s' i bs : 0 <= i -> Octets.has (storage s') (i * INFLIGHT_BUF_STRIDE) bs -> length bs = Z.to_nat INFLIGHT_BUF_STRIDE -> region s' i = bs.
Proof. intros H0 Hh Hl. apply Octets.has_take in Hh as [Hh _]; [|unfold INFLIGHT_BUF_STRIDE; lia]. unfold region. by rewrite <- Hl. Qed.

Lemma write_region i bytes : 0 <= i < cap s -> (length bytes <= Z.to_nat INFLIGHT_BUF_STRIDE)%nat ->
  let s' := set_storage (write_at (storage s) (i * stride s) bytes) s in
  wf s' /\ region s' i = bytes ++ drop (length bytes) (region s i) /\ forall j, 0 <= j < cap s -> j <> i -> region s' j = region s j.
Proof.
  intros Hi Hl s'. destruct (region_has i Hi) as [Hr Hh]. destruct (region_fits i ltac:(lia) ltac:(lia)) as [Hb Hx]. rewrite <- (take_drop (length bytes) (region s i)) in Hh.
  unfold s'. rewrite (sh_stride s Sh). pose proof (length_take (region s i) (length bytes)) as Ht.
  apply Octets.has_app in Hh as [_ Hh]. rewrite Ht, Nat.min_l in Hh by lia. unfold INFLIGHT_BUF_STRIDE in *.
  assert (Ha : 0 <= i * 4096) by lia. assert (Hroom : i * 4096 + Z.of_nat (length bytes) <= Z.of_nat (length (storage s))) by lia.
  split; [|split].
  - destruct W as [Sh' We]. split; [|exact We]. destruct Sh'. constructor; try done. cbn [storage set_storage cap stride]. by rewrite (Octets.length_write_at _ _ _ Ha Hroom).
  - apply region_of_has; [lia| |rewrite length_app, length_drop; unfold INFLIGHT_BUF_STRIDE; lia]. apply Octets.has_app. split; [exact (Octets.write_at_has _ _ _ Ha Hroom)|].
    apply (Octets.write_at_frame _ _ _ Ha Hroom); [exact Hh|]. right. unfold INFLIGHT_BUF_STRIDE. lia.
  - intros j Hj Hne. destruct (region_has j Hj) as [Hrj Hhj]. apply region_of_has; [lia| |done]. apply (Octets.write_at_frame _ _ _ Ha Hroom); [exact Hhj|].
    rewrite Hrj. unfold INFLIGHT_BUF_STRIDE. lia.
Qed.

Lemma retry_parts_spec key d : live s key = true -> ranged (slot key) -> slot key < cap s -> e_def (at_ s (slot key)) = Some d -> 0 <= len d ->
  retry_parts s key = Ret (Some (fd d, take (Z.to_nat (Z.min (len d) INFLIGHT_BUF_STRIDE)) (region s (slot key)), opcode d)).
Proof.
  intros Hl Hr Hc Hd Hn. unfold retry_parts. rewrite is_live_spec by (done || apply Hr). rewrite Hl. cbn [mbind outcome_bind negb].
  rewrite (index_in _ None) by (apply Sh || done). cbn [mbind outcome_bind]. cbn in Hd. rewrite Hd, (sh_stride s Sh).
  destruct (region_fits (slot key) Hc (proj1 Hr)) as [Hb Hi]. unfold INFLIGHT_BUF_STRIDE in *. destruct Hr as [Hr _].
  unfold slice. rewrite (proj2 (Z.leb_le _ _)) by lia. rewrite (proj2 (Z.leb_le _ _)) by lia. cbn [andb mbind outcome_bind]. do 3 f_equal. f_equal.
  unfold region, INFLIGHT_BUF_STRIDE. rewrite take_take. f_equal. lia.
Qed.

End retry.

(** The two renderings of a call's answer agree. *)
Lemma retry_result_value r : ret r < 2 ^ 31 ->
  match retry_result r with Done n => value r = Some (if n <? 2 ^ 31 then n else - EINVAL) | Failed e => value r = Some e | WouldBlock => value r = None end.
Proof.
  intros Hr. unfold retry_result, value. destruct (Z.leb_spec 0 (ret r)) as [H0|H0].
  - unfold try_from. rewrite (proj2 (Z.ltb_lt _ (2 ^ 32))) by lia. by rewrite (proj2 (Z.ltb_lt _ (2 ^ 31))) by lia.
  - destruct (last_os_error r) as [e|]; cbn [default]; [|by rewrite decide_False].
    destruct (Z.eqb_spec e EAGAIN) as [->|Hne]; [by rewrite decide_True|]. by rewrite decide_False by congruence.
Qed.

Lemma waits_live s raw i d : wf s -> waits s raw i d ->
  live s (mkKey i (e_gen (at_ s i)) (owner s) (e_tok (at_ s i))) = true /\ i < cap s.
Proof.
  intros W (Hr & Ho & _ & _ & _). pose proof (occ_in s W i Ho Hr) as Hc. split; [|done]. unfold live. cbn [worker_id slot generation].
  by rewrite !Z.eqb_refl, (proj2 (Z.ltb_lt _ _) Hc), Ho.
Qed.

Definition cleared (e : entry) : entry := mkEntry (e_occ e) (e_ret e) (e_exp e) (e_rdy e) (e_gen e) (e_tok e) None.

(** The end of [synthesize] once the call was made. *)
Lemma finish_spec s1 i v key d : wf s1 -> live s1 key = true -> slot key = i -> ranged i -> e_def (at_ s1 i) = Some d ->
  exists s', ('(record, slab) ← retire_deferred s1 key;
    match record with None => Ret (None, slab) | Some _ => Ret (Some (mkCqe (op_token key) v 0 None), slab) end) =
      Ret (Some (mkCqe (op_token key) v 0 None), s') /\ wf s' /\ storage s' = storage s1 /\
    forall j, ranged j -> at_ s' j = if decide (j = i) then cleared (at_ s1 i) else at_ s1 j.
Proof.
  intros W Hl <- Hr Hd. destruct (retire_deferred_spec s1 W key d Hl Hr Hd) as (s' & -> & B). cbn [mbind outcome_bind]. exists s'. split; [done|].
  split; [|split; [apply (be_bytes _ _ _ _ B)|apply (be_at _ _ _ _ B)]].
  apply (becomes_wf s1 s' (slot key) _ W B). destruct (wf_entry s1 W _ Hr) as (E1 & E2 & E3). split; [done|]. split; [done|]. cbn. intros Ho. by destruct (E3 Ho) as (? & ? & ? & ?).
Qed.

Lemma answer_spec s1 i key d r : wf s1 -> live s1 key = true -> slot key = i -> ranged i -> e_def (at_ s1 i) = Some d -> ret r < 2 ^ 31 ->
  let finish v := ('(record, slab) ← retire_deferred s1 key;
    match record with None => Ret (None, slab) | Some _ => Ret (Some (mkCqe (op_token key) v 0 None), slab) end) in
  exists c s', match retry_result r with
               | Done bytes => finish (if bytes <? 2 ^ 31 then bytes else - EINVAL)
               | Failed error => finish error
               | WouldBlock => Ret (None, s1)
               end = Ret (c, s') /\ wf s' /\ storage s' = storage s1 /\
    match value r with
    | None => c = None /\ forall j, ranged j -> at_ s' j = at_ s1 j
    | Some v => c = Some (mkCqe (op_token key) v 0 None) /\ forall j, ranged j -> at_ s' j = if decide (j = i) then cleared (at_ s1 i) else at_ s1 j
    end.
Proof.
  intros W Hl Hi Hri Hd Hr finish. pose proof (retry_result_value r Hr) as Hv. destruct (retry_result r) as [n|e|]; rewrite Hv.
  3: by exists None, s1.
  all: destruct (finish_spec s1 i (default 0 (value r)) key d W Hl Hi Hri Hd) as (s' & E & W' & Hst & Hat); rewrite Hv in E; cbn [default] in E.
  all: eexists _, s'; split; [exact E|]; done.
Qed.

(** C24: A readiness event completes the operation that waits for it, once.
    The retry runs on the first occupied slot whose record names the descriptor:
    a receive into the slot's own bytes, a send of exactly the recorded length
    from them.  While the socket would block there is no completion and every
    record stays; otherwise there is one completion, with the operation's own
    token and the count or negated errno, and that record, and no other, is
    gone, so a second event on the descriptor does not complete it again.  No
    other slot's bytes change, and a descriptor nobody waits for changes
    nothing. *)
Theorem readiness_retry_exact k s raw : sockets_ok k -> wf s -> (forall i d, ranged i -> e_def (at_ s i) = Some d -> 0 <= len d) ->
  exists c s', synthesize k s raw = Ret (c, s') /\ wf s' /\
  ((c = None /\ s' = s /\ forall i d, ranged i -> e_occ (at_ s i) = true -> e_def (at_ s i) = Some d -> fd d <> raw) \/
   exists i d, waits s raw i d /\ region s' i = (attempt k d (region s i)).2 /\ (forall j, 0 <= j < cap s -> j <> i -> region s' j = region s j) /\
     match (attempt k d (region s i)).1 with
     | None => c = None /\ forall j, ranged j -> at_ s' j = at_ s j
     | Some v => c = Some (mkCqe (e_tok (at_ s i)) v 0 None) /\
                 forall j, ranged j -> at_ s' j = if decide (j = i) then cleared (at_ s i) else at_ s j
     end).
Proof.
  intros Hk W Hlen. unfold synthesize. destruct (deferred_key_spec s W raw) as ([key|] & -> & Hr); cbn [mbind outcome_bind].
  2: { exists None, s. split; [done|]. split; [done|]. by left. }
  destruct Hr as (d & Hw & Hkey). destruct (waits_live s raw _ d W Hw) as [Hlive Hc]. rewrite <- Hkey in Hlive. pose proof Hw as (Hri & Ho & Hd & Hfd & _).
  set (i := slot key) in *. pose proof (Hlen i d Hri Hd) as Hn. assert (Htok : op_token key = e_tok (at_ s i)) by (by rewrite Hkey).
  rewrite (retry_parts_spec s W key d Hlive Hri Hc Hd Hn). cbn [mbind outcome_bind]. fold i. assert (Hi : 0 <= i < cap s) by (unfold ranged in Hri; lia).
  destruct (region_has s W i Hi) as [Hreg _]. set (n := Z.min (len d) INFLIGHT_BUF_STRIDE).
  assert (Hmin : 0 <= n <= INFLIGHT_BUF_STRIDE) by (unfold n, INFLIGHT_BUF_STRIDE; lia).
  assert (Hlt : length (take (Z.to_nat n) (region s i)) = Z.to_nat n) by (rewrite length_take; lia).
  destruct (opcode d) eqn:Eop.
  - unfold retry_send. set (r := send _ _ _ _). assert (Hr : ret r < 2 ^ 31).
    { pose proof (so_send k Hk (fd d) (take (Z.to_nat n) (region s i)) (Z.lor MSG_DONTWAIT MSG_NOSIGNAL)) as [Hr _]. fold r in Hr. rewrite Hlt in Hr. unfold INFLIGHT_BUF_STRIDE in Hmin. lia. }
    destruct (answer_spec s i key d r W Hlive eq_refl Hri Hd Hr) as (c & s' & E & W' & Hst & Hv). rewrite Htok in Hv.
    exists c, s'. split; [exact E|]. split; [done|]. right. exists i, d. split; [done|]. unfold attempt. rewrite Eop. fold n. fold r. cbn [fst snd].
    unfold region. rewrite Hst. done.
  - unfold retry_recv. rewrite Hlt, Z2Nat.id by lia. pose proof (so_recv k Hk (fd d) n MSG_DONTWAIT ltac:(lia)) as Hrecv.
    destruct (recv k (fd d) n MSG_DONTWAIT) as [r bytes] eqn:Er. destruct Hrecv as (Hr & Hbytes & _).
    destruct (write_region s W i bytes Hi) as (W1 & Hreg1 & Hoth); [lia|]. set (s1 := set_storage _ _) in *.
    destruct (answer_spec s1 i key d r W1 Hlive eq_refl Hri Hd) as (c & s' & E & W' & Hst & Hv); [unfold INFLIGHT_BUF_STRIDE in Hmin; lia|]. rewrite Htok in Hv.
    exists c, s'. split; [exact E|]. split; [done|]. right. exists i, d. split; [done|]. unfold attempt. rewrite Eop. fold n. rewrite Er. cbn [fst snd].
    unfold region in *. rewrite Hst. done.
Qed.

(** A socket that delivers two bytes to a receive and would block a send. *)
Definition demo_sockets : sockets :=
  mkSockets (fun _ len _ => if 2 <=? len then (mkSys 2 None, [65; 66]) else (mkSys 0 None, [])) (fun _ _ _ => mkSys (-1) (Some EAGAIN)).
Lemma demo_sockets_ok : sockets_ok demo_sockets.
Proof.
  split; [intros fd len fl Hl|intros fd buf fl]; cbn; [|split; [lia|by eexists]]. destruct (Z.leb_spec 2 len); (split; [cbn; lia|]; split; [done|]; cbn; intros; lia).
Qed.

(** A registry with one slot, held by a receive that waits on descriptor 9. *)
Definition demo_run : outcome InflightBufSlab :=
  match new true 0 1 with
  | None => Panic
  | Some s => '(_, s) ← allocate s 77; '(_, s) ← mark_deferred_by_op_token s 77 (mkDeferred 9 16 Recv); Ret s
  end.
Definition demo_slab : InflightBufSlab :=
  mkSlab (replicate 4096 0) [1; 0; 0; 0] [0; 0; 0; 0] [0; 0; 0; 0] [0; 0; 0; 0] (replicate 256 0) (77 :: replicate 255 0)
    (Some (mkDeferred 9 16 Recv) :: replicate 255 None) 0 1 4096.
Lemma demo_run_slab : demo_run = Ret demo_slab.
Proof. vm_compute. reflexivity. Qed.

Lemma demo_slab_ok : wf demo_slab /\ forall i d, ranged i -> e_def (at_ demo_slab i) = Some d -> 0 <= len d.
Proof.
  pose proof demo_run_slab as E. unfold demo_run in E. destruct (new true 0 1) as [s0|] eqn:En; [|done].
  destruct (slots_new_spec true 0 1 s0 ltac:(lia) En) as (W0 & _ & _ & A0).
  destruct (allocate_spec s0 W0 77) as (r & s1 & E1 & Hr). rewrite E1 in E. cbn [mbind outcome_bind] in E.
  assert (W1 : wf s1 /\ forall i, ranged i -> e_def (at_ s1 i) = None).
  { destruct r as [key|]; [|destruct Hr as [-> _]; split; [done|]; intros i Hi; by rewrite A0]. destruct Hr as (Hi & Hc & _ & _ & _ & B). split.
    - apply (becomes_wf s0 s1 _ _ W0 B). split; [done|]. split; [apply (wf_entry s0 W0 _ Hi)|done].
    - intros i Hri. rewrite (be_at _ _ _ _ B) by done. case_decide; [done|]. by rewrite A0. }
  destruct W1 as [W1 D1]. destruct (mark_deferred_spec s1 W1 77 (mkDeferred 9 16 Recv)) as (b & s2 & E2 & W2 & Hb). rewrite E2 in E. cbn [mbind outcome_bind] in E.
  assert (s2 = demo_slab) as -> by (by inversion E). split; [done|]. intros i d Hi Hd. destruct b; [|subst; by rewrite D1 in Hd].
  destruct Hb as (j & _ & _ & _ & Hat). rewrite Hat in Hd by done. case_decide; [cbn in Hd; injection Hd as <-; cbn; lia|by rewrite D1 in Hd].
Qed.

Lemma readiness_retry_exact_witness : exists c s', synthesize demo_sockets demo_slab 9 = Ret (c, s') /\ wf s' /\ c = Some (mkCqe 77 2 0 None) /\ synthesize demo_sockets s' 9 = Ret (None, s').
Proof.
  destruct (readiness_retry_exact demo_sockets demo_slab 9 demo_sockets_ok (proj1 demo_slab_ok) (proj2 demo_slab_ok)) as (c & s' & E & W' & _).
  exists c, s'. split; [exact E|]. split; [exact W'|]. vm_compute in E. injection E as <- <-. split; vm_compute; reflexivity.
Defined.

End ReadinessThms.
