(* ===== verification/BufRingThms.v ===== *)
(** * Every provided buffer has one owner

    The entries of the ring between the kernel's head and the tail as a
    queue, and the invariant and theorems of [BufProto] (BufRing.v). *)

From S2P Require Import Prelude IrBytes ArenaBump ArenaThms Bitmap BufRing.
From Stdlib.Init Require Import Byte.
From stdpp Require Import base tactics option numbers list.

Local Open Scope Z_scope.

(** ** The ring as a queue *)

Module RingQueue.
Import BufRing Fifo.

Definition none : BufRingEntry := mkEntry 0 0 0 0.
Definition shown (e : BufRingEntry) : Z * Z * Z := (addr e, len e, bid e).
Definition shown_at (r : BufRing) (i : Z) : Z * Z * Z := shown (nth (Z.to_nat i) (ring r) none).

(** The kernel at [head] sees the queue [q]. *)
Record ring_ok (r : BufRing) (N head : Z) (q : list (Z * Z * Z)) : Prop := {
  rk_pow : exists k, 0 <= k <= 15 /\ N = 2 ^ k;
  rk_entries : entries r = N;
  rk_mask : mask r = N - 1;
  rk_ring : Z.of_nat (length (ring r)) = N;
  rk_tail : BufRing.tail r = Ret (wrap U16 (head + Z.of_nat (length q)));
  rk_len : Z.of_nat (length q) <= N;
  rk_win : window N (shown_at r) (head mod N) (Z.of_nat (length q)) = q;
}.

Lemma pow_facts N : (exists k, 0 <= k <= 15 /\ N = 2 ^ k) -> 0 < N <= 2 ^ 15 /\ (forall x, wrap U16 x mod N = x mod N) /\ (forall x, Z.land x (N - 1) = x mod N).
Proof.
  intros (k & Hk & ->). pose proof (Z.pow_pos_nonneg 2 k ltac:(lia) ltac:(lia)). split; [split; [done|apply Z.pow_le_mono_r; lia]|]. split.
  - intros x. unfold wrap. replace (2 ^ U16) with (2 ^ k * 2 ^ (16 - k)) by (rewrite <- Z.pow_add_r by lia; f_equal; lia).
    rewrite Z.rem_mul_r by (try apply Z.pow_nonzero; try apply Z.pow_pos_nonneg; lia). rewrite Z.mul_comm, Z.mod_add by lia. apply Z.mod_mod. lia.
  - intros x. rewrite <- Z.land_ones by lia. f_equal. rewrite Z.ones_equiv. lia.
Qed.

Lemma ring_push r N head q a l b : ring_ok r N head q -> Z.of_nat (length q) < N ->
  exists r', push r a l b = Ret r' /\ ring_ok r' N head (q ++ [(a, l, b)]).
Proof.
  intros [Hp He Hm Hr Ht Hl Hw] Hq. destruct (pow_facts N Hp) as (HN & Hwr & Hland). unfold push. rewrite Ht. cbn [mbind outcome_bind].
  rewrite Hm, Hland, Hwr. set (idx := (head + Z.of_nat (length q)) mod N). assert (Hi : in_range (length (ring r)) idx) by (unfold in_range; rewrite Hr; apply Z.mod_pos_bound; lia).
  rewrite (index_nth _ none) by done. cbn [mbind outcome_bind].
  destruct (store_nth (ring r) none idx (mkEntry a l b (resv (nth (Z.to_nat idx) (ring r) none))) Hi) as (r1 & -> & Hl1 & Hn1). cbn [mbind outcome_bind].
  unfold store_tail. cbn [ring entries mask]. assert (H0 : in_range (length r1) 0) by (unfold in_range; lia).
  pose proof (index_nth r1 none 0 H0) as Hi0. change (Z.to_nat 0) with 0%nat in Hi0. rewrite Hi0. cbn [mbind outcome_bind].
  destruct (store_nth r1 none 0 (mkEntry (addr (nth 0 r1 none)) (len (nth 0 r1 none)) (bid (nth 0 r1 none)) (wrap U16 (wrap U16 (head + Z.of_nat (length q)) + 1))) H0) as (r2 & E2 & Hl2 & Hn2).
  change (Z.to_nat 0) with 0%nat in *. rewrite E2. cbn [mbind outcome_bind]. eexists. split; [reflexivity|].
  assert (Hsh : forall j, 0 <= j -> shown (nth (Z.to_nat j) r2 none) = if decide (j = idx) then (a, l, b) else shown_at r j).
  { intros j Hj. rewrite Hn2 by done. assert (Hs : shown (nth (Z.to_nat j) r1 none) = if decide (j = idx) then (a, l, b) else shown_at r j) by (rewrite Hn1 by done; by case_decide).
    rewrite <- Hs. destruct (decide (j = 0)) as [->|]; reflexivity. }
  split; cbn [entries mask ring]; [done|done|done|lia| |rewrite length_app; cbn; lia|].
  - unfold BufRing.tail. cbn [ring]. assert (H02 : in_range (length r2) 0) by (unfold in_range; lia). pose proof (index_nth r2 none 0 H02) as Hi2. change (Z.to_nat 0) with 0%nat in Hi2. rewrite Hi2.
    cbn [mbind outcome_bind]. pose proof (Hn2 0 ltac:(lia)) as Hn. change (Z.to_nat 0) with 0%nat in Hn. rewrite Hn, decide_True by done. cbn [resv].
    rewrite length_app. cbn [length]. f_equal. unfold wrap. rewrite Zplus_mod_idemp_l. f_equal. lia.
  - rewrite length_app. cbn [length]. replace (Z.of_nat (length q + 1)) with (Z.of_nat (length q) + 1) by lia.
    rewrite (window_ext N _ (fun i => if decide (i = (head mod N + Z.of_nat (length q)) mod N) then (a, l, b) else shown_at r i)); [|lia|].
    + rewrite window_push by lia. by rewrite Hw.
    + intros i Hi'. unfold shown_at at 1. cbn [ring]. rewrite Hsh by lia. rewrite Zplus_mod_idemp_l. done.
Qed.

Lemma ring_pick r N head x q : ring_ok r N head (x :: q) -> ring_ok r N (wrap U16 (head + 1)) q.
Proof.
  intros [Hp He Hm Hr Ht Hl Hw]. destruct (pow_facts N Hp) as (HN & Hwr & _). cbn [length] in *. split; try done; [|lia|].
  - rewrite Ht. f_equal. unfold wrap. rewrite Zplus_mod_idemp_l. f_equal. lia.
  - rewrite window_pop in Hw by (try lia; apply Z.mod_pos_bound; lia). injection Hw as _ Hw.
    rewrite Hwr. rewrite Zplus_mod_idemp_l in Hw. by replace (Z.of_nat (S (length q)) - 1) with (Z.of_nat (length q)) in Hw by lia.
Qed.

(** The bids the kernel sees. *)
Lemma ring_seen r N head q : ring_ok r N head q ->
  exists t, BufRing.tail r = Ret t /\ (fun e => shown e) <$> BufProto.ring_window r head t = q.
Proof.
  intros [Hp He Hm Hr Ht Hl Hw]. destruct (pow_facts N Hp) as (HN & _). eexists. split; [exact Ht|].
  unfold BufProto.ring_window. rewrite He. replace (wrap U16 (wrap U16 (head + Z.of_nat (length q)) - head)) with (Z.of_nat (length q)).
  - rewrite <- Hw at 2. unfold window. rewrite <- list_fmap_compose. done.
  - unfold wrap. rewrite Zminus_mod_idemp_l. replace (head + Z.of_nat (length q) - head) with (Z.of_nat (length q)) by lia. symmetry. apply Z.mod_small. lia.
Qed.

End RingQueue.

(** ** The invariant *)

Module BufInv.
Import BufRing BufRingPool ProvidedBuf BufProto RingQueue Tally Bytes.

(** The entry of buffer [b]: its own part of the storage. *)
Definition entry_of (pool : BufRingPool) (b : Z) : Z * Z * Z := (base pool + b * buf_size pool, buf_size pool, b).

Record pool_ok (pool : BufRingPool) (head : Z) (q : list Z) : Prop := {
  po_size : 0 < buf_size pool;
  po_base : 0 <= base pool;
  po_top : base pool + pentries pool * buf_size pool < 2 ^ 64;
  po_storage : zlen (storage pool) = pentries pool * buf_size pool;
  po_ring : ring_ok (pring pool) (pentries pool) head (entry_of pool <$> q);
}.

Definition held_by (p : nat) (vs : list (ProvidedBuf * nat)) : list Z := omap (fun '(v, p') => if decide (p' = p) then buf_id v else None) vs.

Definition view_ok (y : sys) (v : ProvidedBuf) (p : nat) : Prop :=
  exists b e, buf_id v = Some b /\ fits 8 (worker_id v) /\ epochs (st y) !! Z.to_nat (worker_id v) = Some e /\ epoch v <= e /\ (p < length (mem y))%nat /\
    (forall p', pools (st y) !! Z.to_nat (worker_id v) = Some (Some p') -> epoch v = e -> p' = p) /\
    (forall ps, state_at y p = Some ps -> owner ps = worker_id v /\ 0 <= blen v <= buf_size (pl ps)).

Record Inv (y : sys) : Prop := {
  v_pools : length (pools (st y)) = PROVIDED_POOL_SLOTS;
  v_epochs : length (epochs (st y)) = PROVIDED_POOL_SLOTS;
  v_epoch i e : epochs (st y) !! i = Some e -> fits 64 e;
  v_pool p ps : state_at y p = Some ps -> fits 8 (owner ps) /\
    exists q, pool_ok (pl ps) (khead ps) q /\ q ++ picked ps ++ held_by p (views y) ++ gone ps ≡ₚ seqZ 0 (pentries (pl ps));
  v_inst i p : pools (st y) !! i = Some (Some p) -> exists ps, state_at y p = Some ps /\ owner ps = Z.of_nat i;
  v_view v p : (v, p) ∈ views y -> view_ok y v p;
}.

Lemma state_lookup y p ps : state_at y p = Some ps -> mem y !! p = Some (Some ps).
Proof. unfold state_at. destruct (mem y !! p) as [[x|]|]; cbn; naive_solver. Qed.

Lemma state_bound y p ps : state_at y p = Some ps -> (p < length (mem y))%nat.
Proof. intros H%state_lookup. by eapply lookup_lt_Some. Qed.

Lemma state_insert y s vs p o p' : (p < length (mem y))%nat ->
  state_at (mkSys s (<[p := o]> (mem y)) vs) p' = if decide (p' = p) then o else state_at y p'.
Proof.
  intros Hp. unfold state_at. cbn [mem]. case_decide as Hd; [subst; by rewrite list_lookup_insert_eq|by rewrite list_lookup_insert_ne].
Qed.

Lemma slot_lookup (y : sys) w : Inv y -> fits 8 w -> exists o e, pools (st y) !! Z.to_nat w = Some o /\ epochs (st y) !! Z.to_nat w = Some e.
Proof.
  intros I Hw. assert (Hn : (Z.to_nat w < PROVIDED_POOL_SLOTS)%nat) by (unfold fits in Hw; change PROVIDED_POOL_SLOTS with (Z.to_nat 256); apply Z2Nat.inj_lt; lia).
  destruct (lookup_lt_is_Some_2 (pools (st y)) (Z.to_nat w)) as [o Ho]; [by rewrite (v_pools y I)|].
  destruct (lookup_lt_is_Some_2 (epochs (st y)) (Z.to_nat w)) as [e He]; [by rewrite (v_epochs y I)|]. eauto.
Qed.

(** A queue of distinct buffers below [N] has room for one more. *)
Lemma room N (q rest : list Z) b : 0 <= N -> q ++ b :: rest ≡ₚ seqZ 0 N -> Z.of_nat (length q) < N /\ 0 <= b < N.
Proof.
  intros HN P. split.
  - apply Permutation_length in P. rewrite length_app, length_seqZ in P. cbn in P. lia.
  - assert (Hb : b ∈ seqZ 0 N) by (rewrite <- P, elem_of_app, elem_of_cons; tauto). apply elem_of_seqZ in Hb. lia.
Qed.

Lemma pool_entries pool head q : pool_ok pool head q -> 0 < pentries pool <= 2 ^ 15.
Proof. intros H. destruct (pow_facts _ (rk_pow _ _ _ _ (po_ring _ _ _ H))) as [H1 _]. done. Qed.

Lemma pool_addr pool head q b : pool_ok pool head q -> 0 <= b < pentries pool ->
  buf_addr (base pool) b (buf_size pool) = Ret (base pool + b * buf_size pool).
Proof. intros [H1 H2 H3 H4 H5] Hb. unfold buf_addr, add_or_panic. destruct (Z.ltb_spec (base pool + b * buf_size pool) (2 ^ 64)); [done|nia]. Qed.

Lemma recycle_ok pool head q rest b : pool_ok pool head q -> q ++ b :: rest ≡ₚ seqZ 0 (pentries pool) ->
  exists pool', recycle pool b = Ret pool' /\ pool_ok pool' head (q ++ [b]) /\ pentries pool' = pentries pool /\ buf_size pool' = buf_size pool /\ storage pool' = storage pool.
Proof.
  intros H P. pose proof (pool_entries _ _ _ H) as HN. destruct (room (pentries pool) q rest b) as [Hq Hb]; [lia|done|].
  unfold recycle, check_bid. rewrite (proj2 (Z.ltb_lt _ _)) by lia. cbn [negb]. rewrite (pool_addr _ _ _ _ H Hb). cbn [mbind outcome_bind].
  destruct (ring_push (pring pool) (pentries pool) head (entry_of pool <$> q) (base pool + b * buf_size pool) (buf_size pool) b (po_ring _ _ _ H)) as (r & -> & Hr);
    [by rewrite length_fmap|]. cbn [mbind outcome_bind]. eexists. split; [done|]. split; [|done]. destruct H as [H1 H2 H3 H4 H5]. split; try done. cbn [pring pentries]. by rewrite fmap_app.
Qed.

Lemma push_all_ok pool n : forall b, let N := pentries pool in
  0 < N -> base pool + N * buf_size pool < 2 ^ 64 -> 0 <= base pool -> 0 <= buf_size pool -> 0 <= b -> b + Z.of_nat n <= N ->
  forall r, ring_ok r N 0 (entry_of pool <$> seqZ 0 b) ->
  exists r', push_all n b (base pool) (buf_size pool) r = Ret r' /\ ring_ok r' N 0 (entry_of pool <$> seqZ 0 (b + Z.of_nat n)).
Proof.
  induction n as [|n IH]; intros b N HN Ht Hb Hs Hb0 Hn r Hr; cbn [push_all].
  - exists r. by rewrite Z.add_0_r.
  - unfold buf_addr, add_or_panic. destruct (Z.ltb_spec (base pool + b * buf_size pool) (2 ^ 64)); [|nia]. cbn [mbind outcome_bind].
    destruct (ring_push r N 0 _ (base pool + b * buf_size pool) (buf_size pool) b Hr) as (r1 & -> & Hr1); [rewrite length_fmap, length_seqZ; lia|]. cbn [mbind outcome_bind].
    replace (b + Z.of_nat (S n)) with (b + 1 + Z.of_nat n) by lia. apply IH; try done; try lia.
    rewrite seqZ_app, fmap_app by lia. rewrite Z.add_0_l. exact Hr1.
Qed.

Lemma new_ok b m sz : 0 <= b -> fits 16 m -> fits 32 sz -> b + m * sz < 2 ^ 64 ->
  (exists e, BufRingPool.new true (Some b) m sz 0 = Ret (Err e)) \/
  exists pool, BufRingPool.new true (Some b) m sz 0 = Ret (Ok pool) /\ pool_ok pool 0 (seqZ 0 m) /\ pentries pool = m.
Proof.
  intros Hb [He _] [Hs _] Ht. unfold BufRingPool.new, check_params. destruct (Z.eqb_spec sz 0); [eauto|]. destruct (Z.eqb_spec m 0); [eauto|]. cbn [orb].
  destruct (Arena.is_power_of_two m) eqn:Ep; cbn [negb]; [|eauto]. destruct (Z.ltb_spec (2 ^ 15) m); [eauto|]. right.
  unfold from_raw. rewrite Ep, (proj2 (Z.ltb_lt 0 m)) by lia. cbn [andb mbind outcome_bind].
  apply ArenaThms.power_of_two_spec in Ep as (k & Hk & Ek). assert (k <= 15) by (apply (Z.pow_le_mono_r_iff 2); [lia..|]; lia).
  set (pool := mkPool (mkRing (replicate (Z.to_nat m) (mkEntry 0 0 0 0)) m (m - 1)) [] b sz m 0).
  destruct (push_all_ok pool (Z.to_nat m) 0 ltac:(cbn; lia) ltac:(cbn; lia) Hb ltac:(cbn; lia) ltac:(lia) ltac:(cbn; lia) (pring pool)) as (r & Hr & Hok).
  { split; cbn [pring entries mask ring pool pentries]; [by exists k|done|done|unfold pool; cbn [ring pring pentries]; rewrite length_replicate; lia| |change (0 <= m); lia|done].
    unfold BufRing.tail, Bitmap.index. cbn [ring]. by destruct (Z.to_nat m) eqn:E; [lia|]. }
  cbn [pool base BufRingPool.buf_size pring] in Hr. rewrite Hr. cbn [mbind outcome_bind]. eexists. split; [done|]. split; [|done].
  split; cbn [base BufRingPool.buf_size pentries storage pring]; [lia|done|done|unfold zlen; rewrite length_replicate; nia|].
  by replace (0 + Z.of_nat (Z.to_nat m)) with m in Hok by lia.
Qed.

(** ** Each step keeps it *)

Definition goes_on (r : outcome (option sys)) : Prop := exists o, r = Ret o /\ forall y', o = Some y' -> Inv y'.

Lemma buf_goes_None : goes_on (Ret None).
Proof. by exists None. Qed.

Lemma buf_goes_Some y' : Inv y' -> goes_on (Ret (Some y')).
Proof. intros H. exists (Some y'). split; [done|]. by intros ? [= <-]. Qed.

Lemma held_app p l k : held_by p (l ++ k) = held_by p l ++ held_by p k.
Proof. apply omap_app. Qed.

Lemma held_delete p vs i v p0 b : vs !! i = Some (v, p0) -> buf_id v = Some b ->
  held_by p vs ≡ₚ (if decide (p0 = p) then [b] else []) ++ held_by p (delete i vs).
Proof.
  intros H Hb. transitivity (held_by p ((v, p0) :: delete i vs)).
  - apply omap_Permutation. by apply delete_Permutation.
  - unfold held_by. cbn. case_decide; by rewrite ?Hb.
Qed.

Lemma inst_bound y i p : Inv y -> pools (st y) !! i = Some (Some p) -> (p < length (mem y))%nat.
Proof. intros I H. destruct (v_inst y I i p H) as (ps & Hs & _). by eapply state_bound. Qed.

(** A step that leaves the registration and the views alone. *)
Lemma pool_step y p ps ps' : Inv y -> state_at y p = Some ps -> owner ps' = owner ps -> buf_size (pl ps') = buf_size (pl ps) ->
  (forall q, pool_ok (pl ps) (khead ps) q -> q ++ picked ps ++ held_by p (views y) ++ gone ps ≡ₚ seqZ 0 (pentries (pl ps)) ->
     exists q', pool_ok (pl ps') (khead ps') q' /\ q' ++ picked ps' ++ held_by p (views y) ++ gone ps' ≡ₚ seqZ 0 (pentries (pl ps'))) ->
  Inv (put p ps' y).
Proof.
  intros I Hs Ho Hz Hk. pose proof (state_bound _ _ _ Hs) as Hp. destruct I as [I1 I2 I3 I4 I5 I6]. unfold put. split; cbn [st views]; [done|done|done| | |].
  - intros p' x. rewrite state_insert by done. case_decide as Hd; [|apply I4]. intros [= <-]. subst p'. destruct (I4 p ps Hs) as (Hf & q & H1 & H2). rewrite Ho. split; [done|]. by apply (Hk q).
  - intros i p' Hi. destruct (I5 i p' Hi) as (x & Hx & Hw). setoid_rewrite state_insert; [|done]. case_decide as Hd; [|eauto]. subst p'. rewrite Hs in Hx. injection Hx as <-. exists ps'. by rewrite Ho.
  - intros v p' Hv. destruct (I6 v p' Hv) as (b & e & H1 & H2 & H3 & H4 & H5 & H6 & H7). exists b, e. cbn [st mem]. rewrite length_insert. split_and!; try done.
    intros x. rewrite state_insert by done. case_decide as Hd; [|apply H7]. intros [= <-]. subst p'. rewrite Ho, Hz. by apply H7.
Qed.

Section steps.
Context (y : sys) (I : Inv y).

Lemma build_goes w n sz b : goes_on (exec (LBuild w n sz b) y).
Proof.
  cbn [exec]. destruct (_ && (b + n * sz <? 2 ^ 64)) eqn:G; cbn [negb]; [|apply buf_goes_None]. rewrite !andb_true_iff, !fitsb_spec, Z.leb_le, Z.ltb_lt in G. destruct G as ((((Gw & Gn) & Gs) & Gb) & Gt).
  destruct (new_ok b n sz Gb Gn Gs Gt) as [[e ->]|(pool & -> & Hok & Hn)]; cbn [mbind outcome_bind]; [apply buf_goes_None|]. apply buf_goes_Some. pose proof I as [I1 I2 I3 I4 I5 I6].
  assert (Hs : forall p ps, state_at (mkSys (st y) (mem y ++ [Some (mkPs pool w 0 [] [])]) (views y)) p = Some ps ->
    state_at y p = Some ps \/ (p = length (mem y) /\ ps = mkPs pool w 0 [] [])).
  { intros p ps. unfold state_at. cbn [mem]. destruct (decide (p < length (mem y))%nat); [rewrite lookup_app_l by done; tauto|]. rewrite lookup_app_r by lia.
    destruct (p - length (mem y))%nat eqn:E; cbn; [|done]. intros [= <-]. right. split; [lia|done]. }
  assert (Hs' : forall p ps, state_at y p = Some ps -> state_at (mkSys (st y) (mem y ++ [Some (mkPs pool w 0 [] [])]) (views y)) p = Some ps).
  { intros p ps Hp. pose proof (state_bound _ _ _ Hp). unfold state_at in *. cbn [mem]. by rewrite lookup_app_l. }
  split; cbn [st views]; [done|done|done| | |].
  - intros p ps [Hp|[-> ->]]%Hs; [by apply I4|]. cbn [owner picked gone pl khead]. split; [done|]. exists (seqZ 0 n). rewrite Hn. split; [done|].
    assert (E : held_by (length (mem y)) (views y) = []).
    { destruct (held_by (length (mem y)) (views y)) as [|x l] eqn:E; [done|]. assert (Hx : x ∈ held_by (length (mem y)) (views y)) by (rewrite E; left).
      apply list_elem_of_omap in Hx as ([v p] & Hv & Hx). case_decide; [|done]. subst p. destruct (I6 v _ Hv) as (? & ? & _ & _ & _ & _ & Hl & _). lia. }
    rewrite E. cbn [app]. by rewrite app_nil_r.
  - intros i p Hi. destruct (I5 i p Hi) as (ps & Hp & Ho). exists ps. split; [by apply Hs'|done].
  - intros v p Hv. destruct (I6 v p Hv) as (x & e & H1 & H2 & H3 & H4 & H5 & H6 & H7). exists x, e. cbn [st mem]. rewrite length_app. split_and!; try done; [cbn; lia|].
    intros ps [Hp|[-> ->]]%Hs; [by apply H7|lia].
Qed.

Lemma install_goes w p : goes_on (exec (LInstall w p) y).
Proof.
  cbn [exec]. destruct (state_at y p) as [ps|] eqn:Hs; [|apply buf_goes_None]. destruct (pools (st y) !! Z.to_nat w) as [[|]|] eqn:Hp; try apply buf_goes_None.
  destruct (epochs (st y) !! Z.to_nat w) as [e|] eqn:He; [|apply buf_goes_None]. destruct ((owner ps =? w) && (e <? 2 ^ 64 - 1)) eqn:G; [|apply buf_goes_None].
  apply andb_true_iff in G as [Go%Z.eqb_eq Ge%Z.ltb_lt]. pose proof I as [I1 I2 I3 I4 I5 I6]. pose proof (I3 _ _ He) as Fe. unfold fits in Fe. destruct (I4 p ps Hs) as [[Fo _] _].
  unfold install_pool, Bitmap.index, Bitmap.store. rewrite He. cbn [mbind outcome_bind].
  pose proof (lookup_lt_Some _ _ _ He) as Le. pose proof (lookup_lt_Some _ _ _ Hp) as Lp. rewrite !decide_True by done. cbn [mbind outcome_bind].
  replace (wrap U64 (e + 1)) with (e + 1) by (symmetry; apply Z.mod_small; lia). apply buf_goes_Some. split; cbn [st pools epochs views]; [by rewrite length_insert|by rewrite length_insert| |done| |].
  - intros i x [(<- & <- & _)|(_ & Hx)]%list_lookup_insert_Some; [unfold fits; lia|by apply (I3 i)].
  - intros i p' [(<- & [= <-] & _)|(_ & Hx)]%list_lookup_insert_Some; [|by apply (I5 i)]. exists ps. split; [done|lia].
  - intros v p' Hv. destruct (I6 v p' Hv) as (b & e' & H1 & H2 & H3 & H4 & H5 & H6 & H7). cbn [st pools epochs mem]. destruct (decide (Z.to_nat (worker_id v) = Z.to_nat w)) as [Hd|Hd].
    + rewrite Hd, He in H3. injection H3 as <-. exists b, (e + 1). rewrite Hd. cbn [epochs pools st]. rewrite list_lookup_insert_eq by done. split_and!; try done; [lia|lia].
    + exists b, e'. cbn [epochs pools st]. rewrite !list_lookup_insert_ne by done. by split_and!.
Qed.

Lemma clear_goes w : goes_on (exec (LClear w) y).
Proof.
  cbn [exec]. destruct (fitsb 8 w) eqn:G; [|apply buf_goes_None]. apply fitsb_spec in G. destruct (slot_lookup y w I G) as (o & e & Ho & He). pose proof I as [I1 I2 I3 I4 I5 I6].
  unfold guard_drop, Bitmap.store. rewrite decide_True by (by eapply lookup_lt_Some). cbn [mbind outcome_bind]. apply buf_goes_Some.
  assert (Hsub : forall i p, <[Z.to_nat w := None]> (pools (st y)) !! i = Some (Some p) -> pools (st y) !! i = Some (Some p)) by (intros i p [(_ & ? & _)|(_ & Hx)]%list_lookup_insert_Some; done).
  split; cbn [st pools epochs views]; [by rewrite length_insert|done|done|done| |].
  - intros i p Hi%Hsub. by apply (I5 i).
  - intros v p Hv. destruct (I6 v p Hv) as (b & e' & H1 & H2 & H3 & H4 & H5 & H6 & H7). exists b, e'. cbn [st pools epochs mem]. split_and!; try done. intros p' Hp'%Hsub. by apply H6.
Qed.

Lemma free_goes p : goes_on (exec (LFree p) y).
Proof.
  cbn [exec]. destruct (state_at y p) as [ps|] eqn:Hs; [|apply buf_goes_None]. destruct (is_installed y (owner ps) p) eqn:G; [apply buf_goes_None|]. apply bool_decide_eq_false in G. apply buf_goes_Some.
  pose proof (state_bound _ _ _ Hs) as Hp. pose proof I as [I1 I2 I3 I4 I5 I6]. split; cbn [st views]; [done|done|done| | |].
  - intros p' x. rewrite state_insert by done. case_decide; [done|apply I4].
  - intros i p' Hi. setoid_rewrite state_insert; [|done]. case_decide as Hd; [|by apply (I5 i)]. subst p'. destruct (I5 i p Hi) as (x & Hx & Ho). rewrite Hs in Hx. injection Hx as <-.
    destruct G. rewrite Ho. by rewrite Nat2Z.id.
  - intros v p' Hv. destruct (I6 v p' Hv) as (b & e & H1 & H2 & H3 & H4 & H5 & H6 & H7). exists b, e. cbn [st mem]. rewrite length_insert. split_and!; try done. intros x. rewrite state_insert by done.
    case_decide; [done|apply H7].
Qed.

Lemma pick_goes p : goes_on (exec (LPick p) y).
Proof.
  cbn [exec]. destruct (state_at y p) as [ps|] eqn:Hs; [|apply buf_goes_None]. destruct (ring_bids ps) as [|b rest] eqn:E; [apply buf_goes_None|]. apply buf_goes_Some.
  apply (pool_step y p ps); [done|done|done|done|]. intros q Hok P. cbn [pl khead picked gone].
  destruct (ring_seen _ _ _ _ (po_ring _ _ _ Hok)) as (t & Ht & Hw). unfold ring_bids in E. rewrite Ht in E.
  assert (Hq : q = b :: rest).
  { rewrite <- E. rewrite <- (list_fmap_id q) at 1. change (fun e => shown e) with shown in Hw. transitivity (snd <$> (entry_of (pl ps) <$> q)); [by rewrite <- list_fmap_compose; apply list_fmap_ext|].
    rewrite <- Hw, <- list_fmap_compose. by apply list_fmap_ext. }
  subst q. exists rest. split; [|tally P]. destruct Hok as [H1 H2 H3 H4 H5]. split; try done. by apply (ring_pick _ _ _ (entry_of (pl ps) b)).
Qed.

Lemma resolve_goes p i len : goes_on (exec (LResolve p i len) y).
Proof.
  cbn [exec]. destruct (state_at y p) as [ps|] eqn:Hs; [|apply buf_goes_None]. destruct (picked ps !! i) as [b|] eqn:Hi; [|apply buf_goes_None].
  destruct (is_installed y (owner ps) p && (0 <=? len) && (len <=? buf_size (pl ps))) eqn:G; [|apply buf_goes_None]. rewrite !andb_true_iff, !Z.leb_le in G. destruct G as ((Gi & Gl) & Gm). apply bool_decide_eq_true in Gi.
  pose proof I as [I1 I2 I3 I4 I5 I6]. destruct (I4 p ps Hs) as (Fo & q & Hok & P). destruct (slot_lookup y (owner ps) I Fo) as (o & e & _ & He).
  unfold resolve_selected, provided_pool_epoch, Bitmap.index. rewrite He. cbn [mbind outcome_bind]. pose proof (state_bound _ _ _ Hs) as Hp. pose proof (delete_Permutation _ _ _ Hi) as D.
  apply buf_goes_Some. split; cbn [st views]; [done|done|done| | |].
  - intros p' x. rewrite state_insert by done. rewrite held_app. case_decide as Hd.
    + intros [= <-]. subst p'. cbn [owner pl khead picked gone]. split; [done|]. exists q. split; [done|]. unfold held_by at 2. cbn [omap list_omap ProvidedBuf.new buf_id]. rewrite decide_True by done. tally P D.
    + intros Hx. unfold held_by at 2. cbn [omap list_omap]. rewrite decide_False by done. rewrite app_nil_r. by apply I4.
  - intros j p' Hj. setoid_rewrite state_insert; [|done]. destruct (I5 j p' Hj) as (x & Hx & Ho). case_decide as Hd; [|eauto]. subst p'. rewrite Hs in Hx. injection Hx as <-. eauto.
  - intros v p' [Hv|Hv%list_elem_of_singleton]%elem_of_app.
    + destruct (I6 v p' Hv) as (x & e' & H1 & H2 & H3 & H4 & H5 & H6 & H7). exists x, e'. cbn [st mem]. rewrite length_insert. split_and!; try done. intros z. rewrite state_insert by done.
      case_decide as Hd; [|apply H7]. intros [= <-]. subst p'. cbn [owner pl]. by apply H7.
    + injection Hv as -> ->. exists b, e. cbn [st mem ProvidedBuf.new buf_id worker_id epoch blen]. rewrite length_insert. split_and!; try done.
      * intros p'. rewrite Gi. congruence.
      * intros z. rewrite state_insert by done. rewrite decide_True by done. intros [= <-]. done.
Qed.

Lemma recycle_goes p i : goes_on (exec (LRecycle p i) y).
Proof.
  cbn [exec]. destruct (state_at y p) as [ps|] eqn:Hs; [|apply buf_goes_None]. destruct (picked ps !! i) as [b|] eqn:Hi; [|apply buf_goes_None]. pose proof (delete_Permutation _ _ _ Hi) as D.
  destruct (v_pool y I p ps Hs) as (_ & q & Hok & P).
  destruct (recycle_ok (pl ps) (khead ps) q (delete i (picked ps) ++ held_by p (views y) ++ gone ps) b Hok) as (pool' & -> & Hok' & Hn & Hz & _); [rewrite <- P; tally D|].
  cbn [mbind outcome_bind]. apply buf_goes_Some. apply (pool_step y p ps); [done|done|done|done|]. intros _ _ _. cbn [pl khead picked gone]. exists (q ++ [b]). rewrite Hn. split; [done|]. rewrite <- P. tally D.
Qed.

(** The registration a view resolves to is the pool it came from. *)
Lemma view_pool v p0 : (v, p0) ∈ views y -> exists b e o, buf_id v = Some b /\ epochs (st y) !! Z.to_nat (worker_id v) = Some e /\ pools (st y) !! Z.to_nat (worker_id v) = Some o /\
  ((provided_pool (st y) (worker_id v) (epoch v) = Ret (Some p0) /\ o = Some p0 /\ e = epoch v /\ exists ps, state_at y p0 = Some ps) \/
   (provided_pool (st y) (worker_id v) (epoch v) = Ret None /\ ~ (o = Some p0 /\ e = epoch v))).
Proof.
  intros Hv. destruct (v_view y I v p0 Hv) as (b & e & Hb & Fw & He & _ & _ & Hp & _). destruct (slot_lookup y _ I Fw) as (o & e' & Ho & _). exists b, e, o. split; [done|]. split; [done|]. split; [done|].
  unfold provided_pool, Bitmap.index. rewrite Ho. cbn [mbind outcome_bind]. destruct o as [p|]; [|right; split; [done|]; by intros []]. rewrite He. cbn [mbind outcome_bind].
  destruct (Z.eqb_spec e (epoch v)) as [Ee|Ee]; [|right; split; [done|]; by intros []]. left. rewrite (Hp p Ho (eq_sym Ee)) in Ho |- *. split; [done|]. split; [done|]. split; [done|].
  destruct (v_inst y I _ _ Ho) as (ps & Hs & _). eauto.
Qed.

(** Dropping a view takes it off the list. *)
Lemma views_step y' i v p0 b : views y !! i = Some (v, p0) -> buf_id v = Some b -> st y' = st y -> views y' = delete i (views y) -> length (mem y') = length (mem y) ->
  (forall p, p <> p0 -> state_at y' p = state_at y p) ->
  (forall ps', state_at y' p0 = Some ps' -> exists ps, state_at y p0 = Some ps /\ owner ps' = owner ps /\ buf_size (pl ps') = buf_size (pl ps) /\
     exists q, pool_ok (pl ps') (khead ps') q /\ q ++ picked ps' ++ held_by p0 (delete i (views y)) ++ gone ps' ≡ₚ seqZ 0 (pentries (pl ps'))) ->
  (forall ps, state_at y p0 = Some ps -> exists ps', state_at y' p0 = Some ps') -> Inv y'.
Proof.
  intros Hi Hb Es Ev El Hne Hp0 Hex. pose proof I as [I1 I2 I3 I4 I5 I6]. split; rewrite ?Es; [done|done|done| | |].
  - intros p ps' Hp. rewrite Ev. destruct (decide (p = p0)) as [->|Hd].
    + destruct (Hp0 ps' Hp) as (ps & Hs & Ho & Hz & Hq). rewrite Ho. split; [by apply (I4 p0)|done].
    + rewrite Hne in Hp by done. destruct (I4 p ps' Hp) as (Fo & q & Hok & P). split; [done|]. exists q. split; [done|]. rewrite <- P. pose proof (held_delete p _ _ _ _ _ Hi Hb) as D. rewrite decide_False in D by done. tally D.
  - intros j p Hj. destruct (I5 j p Hj) as (ps & Hs & Ho). destruct (decide (p = p0)) as [->|Hd]; [|rewrite Hne by done; eauto].
    destruct (Hex ps Hs) as [ps' Hs']. destruct (Hp0 ps' Hs') as (x & Hx & Hxo & _). rewrite Hs in Hx. injection Hx as <-. exists ps'. split; [done|congruence].
  - intros v' p Hv. rewrite Ev in Hv. assert (Hv' : (v', p) ∈ views y) by (rewrite (delete_Permutation _ _ _ Hi); by right).
    destruct (I6 v' p Hv') as (x & e & H1 & H2 & H3 & H4 & H5 & H6 & H7). exists x, e. rewrite Es, El. split_and!; try done. intros ps'. destruct (decide (p = p0)) as [->|Hd]; [|rewrite Hne by done; apply H7].
    intros Hs'. destruct (Hp0 ps' Hs') as (ps & Hs & Ho & Hz & _). rewrite Ho, Hz. by apply H7.
Qed.

Lemma buf_drop_goes i : goes_on (exec (LDrop i) y).
Proof.
  cbn [exec]. destruct (views y !! i) as [[v p0]|] eqn:Hi; [|apply buf_goes_None]. assert (Hv : (v, p0) ∈ views y) by (by eapply list_elem_of_lookup_2).
  destruct (view_pool v p0 Hv) as (b & e & o & Hb & He & Ho & Hc). pose proof (held_delete p0 _ _ _ _ _ Hi Hb) as D. rewrite decide_True in D by done. cbn [app] in D.
  unfold ProvidedBuf.drop. rewrite Hb. destruct Hc as [(-> & _ & _ & ps & Hs)|(-> & _)]; cbn [mbind outcome_bind].
  - unfold pool_at. rewrite Hs. cbn [fmap option_fmap option_map]. destruct (v_pool y I p0 ps Hs) as (Fo & q & Hok & P).
    assert (P' : q ++ b :: picked ps ++ held_by p0 (delete i (views y)) ++ gone ps ≡ₚ seqZ 0 (pentries (pl ps))) by (rewrite <- P; tally D).
    pose proof (pool_entries _ _ _ Hok) as He2. destruct (room _ _ _ _ (Z.lt_le_incl _ _ (proj1 He2)) P') as [_ Hr].
    destruct (recycle_ok (pl ps) (khead ps) q _ b Hok P') as (pool' & E & Hok' & Hn & Hz & _).
    unfold check_bid. rewrite (proj2 (Z.ltb_lt _ _)) by lia. cbn [negb]. rewrite E. cbn [mbind outcome_bind]. rewrite Hs. apply buf_goes_Some.
    pose proof (state_bound _ _ _ Hs) as Hp. apply (views_step _ i v p0 b); [done|done|done|done|by cbn; rewrite length_insert| | |].
    + intros p Hd. unfold put. cbn [st mem views]. rewrite state_insert by done. by rewrite decide_False.
    + intros ps'. unfold put. cbn [st mem views]. rewrite state_insert, decide_True by done. intros [= <-]. exists ps. cbn [owner pl khead picked gone]. split_and!; try done.
      exists (q ++ [b]). rewrite Hn. split; [done|]. tally P'.
    + intros ps' _. unfold put. cbn [st mem views]. rewrite state_insert, decide_True by done. eauto.
  - destruct (state_at y p0) as [ps|] eqn:Hs; apply buf_goes_Some.
    + pose proof (state_bound _ _ _ Hs) as Hp. apply (views_step _ i v p0 b); [done|done|done|done|by cbn; rewrite length_insert| | |].
      * intros p Hd. unfold put. cbn [st mem views]. rewrite state_insert by done. by rewrite decide_False.
      * intros ps'. unfold put. cbn [st mem views]. rewrite state_insert, decide_True by done. intros [= <-]. exists ps. cbn [owner pl khead picked gone]. split_and!; try done.
        destruct (v_pool y I p0 ps Hs) as (_ & q & Hok & P). exists q. split; [done|]. rewrite <- P. tally D.
      * intros ps' _. unfold put. cbn [st mem views]. rewrite state_insert, decide_True by done. eauto.
    + apply (views_step _ i v p0 b); try done; intros ps'; [change (state_at _ p0) with (state_at y p0)|]; by rewrite Hs.
Qed.

End steps.

Lemma buf_step_ok y l : Inv y -> goes_on (exec l y).
Proof.
  intros I. destruct l; eauto using build_goes, install_goes, clear_goes, free_goes, pick_goes, resolve_goes, recycle_goes, buf_drop_goes.
Qed.

Lemma buf_start_inv : Inv start.
Proof.
  split; cbn [start st pools epochs views]; [done|done| |done| |].
  - intros i e [-> _]%lookup_replicate. done.
  - intros i p [? _]%lookup_replicate. done.
  - intros v p Hv. by apply elem_of_nil in Hv.
Qed.

Lemma buf_reach_inv y : reach start y -> Inv y.
Proof.
  remember start as y0 eqn:E0. induction 1 as [|y0 y l y' _ IH E]; subst; [apply buf_start_inv|]. specialize (IH eq_refl).
  destruct (buf_step_ok y l IH) as (o & E' & H). rewrite E in E'. injection E' as <-. by apply H.
Qed.

End BufInv.

Module BufThms.
Import BufRing BufRingPool ProvidedBuf BufProto RingQueue BufInv Bytes.

(** C11: Every buffer of every pool has one owner.  Over every interleaving of
    the kernel taking entries, completions handed out as views, disposals by
    the drain, dropped views, and runs that install and clear a pool's
    registration (fewer than 2^64 per worker): no operation panics or touches
    a pool that is gone; the buffers in the ring, with the kernel, under a
    view and lost are all distinct, and together are all the buffers of the
    pool; each entry the kernel can take describes its buffer's own part of
    the storage, disjoint from the others; a view reads its own pool's bytes
    inside the run that produced it and panics outside of it; and a pool whose
    buffers all came back has them all in the ring. *)
Theorem provided_bufs_exclusive y : reach start y ->
  (forall l, exists o, BufProto.exec l y = Ret o) /\
  (forall p ps, state_at y p = Some ps ->
     ring_bids ps ++ picked ps ++ held_by p (views y) ++ gone ps ≡ₚ seqZ 0 (pentries (pl ps)) /\
     NoDup (ring_bids ps ++ picked ps ++ held_by p (views y) ++ gone ps) /\
     (exists t, BufRing.tail (pring (pl ps)) = Ret t /\
        Forall (fun e => shown e = entry_of (pl ps) (bid e) /\ 0 <= bid e < pentries (pl ps)) (ring_window (pring (pl ps)) (khead ps) t)) /\
     (picked ps = [] -> held_by p (views y) = [] -> gone ps = [] -> ring_bids ps ≡ₚ seqZ 0 (pentries (pl ps)))) /\
  (forall v p, (v, p) ∈ views y -> exists b, buf_id v = Some b /\
     bytes (st y) (pool_at y) v =
       if decide (pools (st y) !! Z.to_nat (worker_id v) = Some (Some p) /\ epochs (st y) !! Z.to_nat (worker_id v) = Some (epoch v))
       then match pool_at y p with Some pool => BufRingPool.get pool b (blen v) | None => Panic end else Panic) /\
  (forall v p ps b, (v, p) ∈ views y -> state_at y p = Some ps -> buf_id v = Some b ->
     exists bs, BufRingPool.get (pl ps) b (blen v) = Ret bs /\ holds (storage (pl ps)) (b * buf_size (pl ps)) bs /\ zlen bs = blen v).
Proof.
  intros R. pose proof (buf_reach_inv y R) as I. split_and!.
  - intros l. destruct (buf_step_ok y l I) as (o & E & _). eauto.
  - intros p ps Hs. destruct (v_pool y I p ps Hs) as (_ & q & Hok & P). destruct (ring_seen _ _ _ _ (po_ring _ _ _ Hok)) as (t & Ht & Hw).
    change (fun e => shown e) with shown in Hw.
    assert (Eq : ring_bids ps = q).
    { unfold ring_bids. rewrite Ht. transitivity (snd <$> (shown <$> ring_window (pring (pl ps)) (khead ps) t)); [by rewrite <- list_fmap_compose|].
      rewrite Hw, <- list_fmap_compose. rewrite <- (list_fmap_id q) at 2. by apply list_fmap_ext. }
    rewrite Eq. split; [done|]. split; [rewrite P; apply NoDup_seqZ|]. split.
    + exists t. split; [done|]. apply Forall_forall. intros e He. assert (Hx : shown e ∈ entry_of (pl ps) <$> q) by (rewrite <- Hw; by apply list_elem_of_fmap_2).
      apply list_elem_of_fmap in Hx as (b & E & Hb). assert (Eb : bid e = b) by (by injection E). rewrite Eb. split; [done|].
      assert (Hin : b ∈ seqZ 0 (pentries (pl ps))) by (rewrite <- P, elem_of_app; by left). apply elem_of_seqZ in Hin. lia.
    + intros E1 E2 E3. by rewrite E1, E2, E3, !app_nil_r in P.
  - intros v p Hv. destruct (view_pool y I v p Hv) as (b & e & o & Hb & He & Ho & Hc). exists b. split; [done|]. unfold bytes. rewrite Hb.
    destruct Hc as [(-> & -> & -> & ps & Hs)|(-> & Hn)]; cbn [mbind outcome_bind].
    + rewrite decide_True by done. unfold pool_at. by rewrite Hs.
    + rewrite decide_False; [done|]. rewrite Ho, He. intros [[= ->] [= ->]]. by apply Hn.
  - intros v p ps b Hv Hs Hb. destruct (v_view y I v p Hv) as (b' & e & Hb' & _ & _ & _ & _ & _ & Hp). rewrite Hb in Hb'. injection Hb' as <-. destruct (Hp ps Hs) as [_ Hl].
    destruct (v_pool y I p ps Hs) as (_ & q & Hok & P). assert (Hin : b ∈ seqZ 0 (pentries (pl ps))).
    { rewrite <- P, !elem_of_app. right. right. left. apply list_elem_of_omap. exists (v, p). by rewrite decide_True. }
    apply elem_of_seqZ in Hin. unfold BufRingPool.get, check_bid, check_len. rewrite (proj2 (Z.ltb_lt _ _)), (proj2 (Z.leb_le _ _)) by lia. cbn [negb]. destruct Hok as [H1 H2 H3 H4 H5].
    destruct (get_range_is_Some (storage (pl ps)) (b * buf_size (pl ps)) (b * buf_size (pl ps) + blen v)) as [bs E]; [nia|]. rewrite E. exists bs. split; [done|].
    apply get_range_Some in E as (E1 & E2 & E3); [|nia]. split; [done|lia].
Qed.

Lemma buf_run_reach y0 ls y y' : reach y0 y -> run ls y = Ret (Some y') -> reach y0 y'.
Proof.
  revert y. induction ls as [|l ls IH]; intros y R E; cbn [run] in E; [by injection E as <-|].
  apply outcome_bind_Ret in E as ([y1|] & E1 & E); [|done]. apply (IH y1); [|done]. by eapply reach_step.
Qed.

(** Two buffers taken, one handed out and dropped in a later run. *)
Definition demo : list label :=
  [LBuild 3 4 16 4096; LInstall 3 0; LPick 0; LPick 0; LResolve 0 0 5; LRecycle 0 0; LClear 3; LInstall 3 0; LDrop 0].

Lemma provided_bufs_exclusive_witness : exists y ps, reach start y /\ state_at y 0 = Some ps /\ ring_bids ps = [2; 3; 1] /\ gone ps = [0] /\ NoDup (ring_bids ps ++ picked ps ++ held_by 0 (views y) ++ gone ps).
Proof.
  assert (E : exists y ps, run demo start = Ret (Some y) /\ state_at y 0 = Some ps /\ ring_bids ps = [2; 3; 1] /\ gone ps = [0]) by (do 2 eexists; split; [vm_compute; reflexivity|]; split; [vm_compute; reflexivity|]; split; vm_compute; reflexivity).
  destruct E as (y & ps & E & Hs & Hr & Hg). pose proof (buf_run_reach _ _ _ _ (reach_start start) E) as R. exists y, ps. split; [exact R|]. split; [exact Hs|]. split; [exact Hr|]. split; [exact Hg|].
  exact (proj1 (proj2 (proj1 (proj2 (provided_bufs_exclusive y R)) 0%nat ps Hs))).
Defined.

End BufThms.
