(* ===== verification/Steal.v ===== *)
(** * The steal protocol

    Models src/crates/kwokka-runtime/src/scheduler/stealing/ (forward.rs,
    origin.rs, relocate.rs, victim.rs, thief.rs), the steps a worker's loop
    composes from them (src/crates/kwokka-runtime/src/runtime/drive/steal.rs,
    worker/park/wake.rs [wake_or_forward], the steal half of
    runtime/crew/stealing.rs) and the rings between workers
    (worker/coordination/steal.rs, mailbox.rs).

    A ring is the queue its producers and its one consumer see: a push appends
    or, on a full ring, hands the element back; a pop takes the front
    ([MpscRing]'s theorems give that view).  A signal is an entry of a log, the
    park handshake behind it being the subject of [Park].  The transport
    [StolenTask] holds a slot by value; what [copy_cell] leaves behind is the
    husk, whose future is gone. *)

From S2P Require Import Prelude GenKey SlabAlloc SlabFacts SlabThms SlabStore TaskRefId TaskCell TaskSlots RunQueue.
From stdpp Require Import base tactics option numbers list.

Local Open Scope Z_scope.

(** ** The task slab with a slot promised to a steal *)

Section open_cells.
Context (w : Z) (p : option Z).
Abbreviation slab := (Slab.slab TaskSlot.slot).
Implicit Types (s : slab).

(** Well formed, with the promise [p] still standing. *)
Definition open_wf s : Prop := SlabSpec.wf s /\ from_option (SlabOps.promised s) True p.

Definition open_at s (r : Z) : option TaskSlot.slot := SlabSpec.lookup s (TaskRef.key r).

Lemma open_get s r : open_wf s -> ref_of w r -> Slab.get s (TaskRef.key r) = Ret (open_at s r).
Proof. intros [W _] (i & g & K)%ref_keyed. apply SlabOps.get_spec; [done|apply K]. Qed.

Lemma open_view s r i g v : keyed w r i g -> open_at s r = Some v -> SlabSpec.view s i = Some (g, v).
Proof. exact (at_ref_view w s r i g v). Qed.

Lemma open_upd s s' r i g c r' :
  keyed w r i g -> ref_of w r' -> (forall v, c = Some v -> v.1 = g) ->
  (forall v, SlabSpec.view s i = Some v -> v.1 = g) ->
  (forall j, SlabSpec.view s' j = SlabSpec.upd (SlabSpec.view s) i c j) ->
  open_at s' r' = if decide (r' = r) then snd <$> c else open_at s r'.
Proof. exact (at_ref_upd w s s' r i g c r'). Qed.

Lemma open_get_mut s r : open_wf s -> ref_of w r ->
  match open_at s r with
  | None => Slab.get_mut s (TaskRef.key r) = Ret None
  | Some v => exists st, Slab.get_mut s (TaskRef.key r) = Ret (Some (v, st)) /\ forall v',
      open_wf (st v') /\ length (Slab.slots (st v')) = length (Slab.slots s) /\
      forall r', ref_of w r' -> open_at (st v') r' = if decide (r' = r) then Some v' else open_at s r'
  end.
Proof.
  intros [W Hp] (i & g & K)%ref_keyed. pose proof (SlabOps.get_mut_spec s (TaskRef.key r) W (k_live _ _ _ _ K)) as H.
  fold (open_at s r) in H. destruct (open_at s r) as [v|] eqn:E; [|done]. destruct H as (st & Hst & H). exists st.
  split; [done|]. intros v'. destruct (H v') as (W' & Hc & Hv). split_and!; [|done|].
  - split; [done|]. destruct p as [key|]; [|done]. cbn in *. eapply (SlabTrace.promised_step s (SlabTrace.OWrite (TaskRef.key r) v')).
    + done.
    + exact (k_live _ _ _ _ K).
    + cbn. rewrite Hst. cbn. reflexivity.
    + by intros [].
    + done.
  - intros r' Hr'. pose proof (open_view _ _ _ _ _ K E) as Ei. rewrite (k_index _ _ _ _ K), (k_gen _ _ _ _ K) in Hv.
    apply (open_upd s _ r i g (Some (g, v'))); [done|done|by intros ? [= <-]|by intros ? ?; simplify_eq|done].
Qed.

Lemma open_cap_bound s : open_wf s -> Z.of_nat (length (Slab.slots s)) < 2 ^ 32.
Proof. intros [[fl W] _]. apply W. Qed.

Lemma open_bound s l :
  open_wf s -> NoDup l -> Forall (fun r => ref_of w r /\ is_Some (open_at s r)) l -> (length l <= length (Slab.slots s))%nat.
Proof.
  intros W Hnd Hl. rewrite <- (length_fmap (fun r => SlabSpec.key_index (TaskRef.key r))).
  replace (length (Slab.slots s)) with (length (seq 0 (length (Slab.slots s)))) by apply length_seq. apply submseteq_length, NoDup_submseteq.
  - apply NoDup_fmap_2_strong; [|done]. intros r r' Hr Hr' E. rewrite Forall_forall in Hl.
    destruct (Hl _ Hr) as [(i & g & K)%ref_keyed [v Hv]], (Hl _ Hr') as [(i' & g' & K')%ref_keyed [v' Hv']].
    rewrite (k_index _ _ _ _ K), (k_index _ _ _ _ K') in E. subst i'. apply (open_view _ _ _ _ _ K) in Hv.
    apply (open_view _ _ _ _ _ K') in Hv'. simplify_eq. by eapply keyed_inj.
  - intros i (r & -> & Hr)%list_elem_of_fmap. rewrite Forall_forall in Hl. destruct (Hl _ Hr) as [(i & g & K)%ref_keyed [v Hv]].
    apply (open_view _ _ _ _ _ K) in Hv. apply elem_of_seq. rewrite (k_index _ _ _ _ K).
    pose proof (slab_view_range s i _ Hv). lia.
Qed.

(** Reading and writing cells leaves promises alone. *)
Definition open_cells : TaskCells w slab := {|
  ts_get s r := Slab.get s (TaskRef.key r);
  ts_get_mut s r := Slab.get_mut s (TaskRef.key r);
  ts_wf := open_wf;
  ts_at := open_at;
  ts_cap (s : slab) := length (Slab.slots s);
  ts_get_spec := open_get;
  ts_get_mut_spec := open_get_mut;
  ts_cap_bound := open_cap_bound;
  ts_bound := open_bound;
|}.
End open_cells.

Module ForwardTable.

Record ForwardEntry : Type := mkEntry { retired_generation : Z; new_ref : Z }.

Record table : Type := mkTable { entries : list (option ForwardEntry) }.

Definition new (capacity : Z) : table := mkTable (replicate (Z.to_nat capacity) None).

Definition record (self : table) (victim_key to : Z) : outcome table :=
  let i := Z.to_nat (SlabKey.index victim_key) in
  match entries self !! i with
  | None => Panic
  | Some _ => Ret (mkTable (<[i := Some (mkEntry (SlabKey.generation victim_key) to)]> (entries self)))
  end.

Definition lookup (self : table) (stale_key : Z) : option Z :=
  match entries self !! Z.to_nat (SlabKey.index stale_key) with
  | None | Some None => None
  | Some (Some entry) =>
      if retired_generation entry =? SlabKey.generation stale_key then Some (new_ref entry) else None
  end.

End ForwardTable.

Module ForwardOrigin.

Record Origin : Type := mkOrigin { victim_id : Z; victim_key : Z }.

Record table : Type := mkTable { entries : list (option Origin) }.

Definition new (capacity : Z) : table := mkTable (replicate (Z.to_nat capacity) None).

Definition capacity (self : table) : Z := default 0 (try_from U32 (Z.of_nat (length (entries self)))).

Definition peek (self : table) (index : Z) : option Origin := default None (entries self !! Z.to_nat index).

Definition record (self : table) (index : Z) (origin : Origin) : outcome table :=
  match entries self !! Z.to_nat index with
  | None => Panic
  | Some _ => Ret (mkTable (<[Z.to_nat index := Some origin]> (entries self)))
  end.

Definition take (self : table) (index : Z) : option Origin * table :=
  match entries self !! Z.to_nat index with
  | None => (None, self)
  | Some o => (o, mkTable (<[Z.to_nat index := None]> (entries self)))
  end.

Definition is_relocated (self : table) (index : Z) : bool :=
  match entries self !! Z.to_nat index with Some (Some _) => true | _ => false end.

End ForwardOrigin.

Module Relocate.
Import TaskSlot.

Record StolenTask : Type := mkStolen { body : slot; body_pip : Z; victim_key : Z }.

Record SettledNote : Type := mkNote { note_key : Z }.

Record StealRequest : Type := mkRequest { thief_id : Z; dest : Z }.

Inductive HandoffMsg : Type :=
| Delivered (dest victim_id : Z) (task : StolenTask)
| Declined (dest : Z).

(** The bytes leave for the transport; the source keeps the rest. *)
Definition copy_cell (source : slot) : outcome (slot * slot) :=
  c ← TaskCell.copy_cell (cell source); Ret (source, set_cell c source).

(** [move_out] and [move_out_woken], which differ in the compare-exchange that
    retires the source: the transport, if any, and the slot left behind. *)
Definition move_out_from (retire : TaskState.AtomicTaskState -> outcome (result TaskState.t unit * TaskState.AtomicTaskState))
    (source : slot) (key : Z) : outcome (option StolenTask * slot) :=
  let '(claimed, st) := TaskState.try_claim (state source) in
  if negb claimed then Ret (None, source) else
  if negb (in_flight_ops source =? 0) || bool_decide (is_Some (first_child source)) || is_pinned source
  then Ret (None, set_state (TaskState.release_claim st) source) else
  '(r, st) ← retire st;
  match r with
  | Err _ => Ret (None, set_state (TaskState.release_claim st) source)
  | Ok _ =>
      '(cell, husk) ← copy_cell (set_state st source);
      let cell := set_state TaskState.new cell in
      Ret (Some (mkStolen cell (pip cell) key), husk)
  end.

Definition move_out : slot -> Z -> outcome (option StolenTask * slot) := move_out_from TaskState.try_retire.
Definition move_out_woken : slot -> Z -> outcome (option StolenTask * slot) := move_out_from TaskState.try_retire_woken.

Definition move_in (thief : Slab.slab slot) (dest : Z) (stolen : StolenTask) : outcome (option StolenTask * Slab.slab slot) :=
  '(r, thief) ← Slab.install thief dest (body stolen);
  match r with
  | Ok _ => Ret (None, thief)
  | Err cell => Ret (Some (mkStolen cell (body_pip stolen) (victim_key stolen)), thief)
  end.

(** Dropping an uninstalled transport runs the cell's drop glue. *)
Definition drop_stolen (stolen : StolenTask) : outcome unit := _ ← TaskCell.drop_in_place_fn (cell (body stolen)); Ret tt.

End Relocate.

Module Victim.
Import TaskSlot Relocate.

(** [is_sleeping_candidate] and [is_woken_candidate]. *)
Definition is_candidate (wanted : TaskState.t) (header : slot) (origins : ForwardOrigin.table) (key : Z) : outcome bool :=
  st ← TaskState.load (state header);
  Ret (bool_decide (st = wanted) && has_polled header && negb (io_bound header) && negb (is_pinned header)
       && negb (bool_decide (is_Some (first_child header))) && (in_flight_ops header =? 0)
       && negb (ForwardOrigin.is_relocated origins (SlabKey.index key))).

Definition is_sleeping_candidate := is_candidate TaskState.Sleeping.
Definition is_woken_candidate := is_candidate TaskState.Woken.

(** What the atomics of a shared slot now hold. *)
Definition write_back (tasks : Slab.slab slot) (key : Z) (v : slot) : outcome (Slab.slab slot) :=
  x ← Slab.get_mut tasks key; Ret (match x with None => tasks | Some (_, st) => st v end).

(** Pass 1, over the residents of the slab in slot order. *)
Fixpoint sleeping_pass (origins : ForwardOrigin.table) (tasks : Slab.slab slot) (residents : list (Z * slot))
    : outcome (option StolenTask * Slab.slab slot) :=
  match residents with
  | [] => Ret (None, tasks)
  | (key, source) :: residents =>
      candidate ← is_sleeping_candidate source origins key;
      if negb candidate then sleeping_pass origins tasks residents else
      '(r, source) ← move_out source key;
      tasks ← write_back tasks key source;
      match r with
      | None => sleeping_pass origins tasks residents
      | Some task => Ret (Some task, tasks)
      end
  end.

Section queue.
Context (w : Z).
#[local] Instance victim_cells : TaskCells w (Slab.slab slot) := open_cells w None.

(** Pass 2, at most [n] candidates off the run queue. *)
Fixpoint woken_pass (n : nat) (origins : ForwardOrigin.table) (tasks : Slab.slab slot) (q : RunQueue.queue)
    : outcome (option StolenTask * Slab.slab slot * RunQueue.queue) :=
  match n with
  | O => Ret (None, tasks, q)
  | S n =>
      '(x, q) ← RunQueue.pop q tasks;
      match x with
      | None => Ret (None, tasks, q)
      | Some candidate_ref =>
          let key := TaskRef.key candidate_ref in
          found ← Slab.get tasks key;
          match found with
          | None => '(q, tasks) ← RunQueue.push q candidate_ref tasks; woken_pass n origins tasks q
          | Some source =>
              qualifies ← is_woken_candidate source origins key;
              if negb qualifies then '(q, tasks) ← RunQueue.push q candidate_ref tasks; woken_pass n origins tasks q else
              '(r, source) ← move_out_woken source key;
              tasks ← write_back tasks key source;
              match r with
              | Some task => Ret (Some task, tasks, q)
              | None => '(q, tasks) ← RunQueue.push q candidate_ref tasks; woken_pass n origins tasks q
              end
          end
      end
  end.

Definition serve_steal (tasks : Slab.slab slot) (forward : ForwardTable.table) (origins : ForwardOrigin.table)
    (q : RunQueue.queue) (request : StealRequest)
    : outcome (HandoffMsg * Slab.slab slot * ForwardTable.table * RunQueue.queue) :=
  residents ← Slab.iter tasks;
  '(r, tasks) ← sleeping_pass origins tasks residents;
  match r with
  | Some task =>
      forward ← ForwardTable.record forward (victim_key task) (dest request);
      Ret (Delivered (dest request) w task, tasks, forward, q)
  | None =>
      '(r, tasks, q) ← woken_pass (Z.to_nat (RunQueue.len q)) origins tasks q;
      match r with
      | Some task =>
          forward ← ForwardTable.record forward (victim_key task) (dest request);
          Ret (Delivered (dest request) w task, tasks, forward, q)
      | None => Ret (Declined (dest request), tasks, forward, q)
      end
  end.
End queue.
End Victim.

Module Thief.
Import TaskSlot Relocate.

Definition prepare_steal (tasks : Slab.slab slot) (thief_id : Z) : outcome (option StealRequest * Slab.slab slot) :=
  '(r, tasks) ← Slab.reserve tasks;
  match r with
  | Err _ => Ret (None, tasks)
  | Ok promised => Ret (Some (mkRequest thief_id (TaskRef.from_slab thief_id promised)), tasks)
  end.

Inductive Received : Type := Installed (task_ref : Z) | Withdrawn.

Definition receive_handoff (tasks : Slab.slab slot) (origins : ForwardOrigin.table) (msg : HandoffMsg)
    : outcome (Received * Slab.slab slot * ForwardOrigin.table) :=
  match msg with
  | Delivered dest victim_id task =>
      let key := TaskRef.key dest in
      let victim_key := victim_key task in
      '(returned, tasks) ← move_in tasks key task;
      match returned with
      | Some returned =>
          _ ← drop_stolen returned;
          Ret (Withdrawn, (Slab.unreserve tasks key).2, origins)
      | None =>
          origins ← ForwardOrigin.record origins (TaskRef.index dest) (ForwardOrigin.mkOrigin victim_id victim_key);
          Ret (Installed dest, tasks, origins)
      end
  | Declined dest => Ret (Withdrawn, (Slab.unreserve tasks (TaskRef.key dest)).2, origins)
  end.

Definition is_resident_settled (tasks : Slab.slab slot) (index : Z) : outcome bool :=
  x ← Slab.get_by_index tasks index;
  match x with
  | None => Ret false
  | Some header =>
      st ← TaskState.load (state header);
      Ret (TaskState.is_terminal st || bool_decide (st = TaskState.Done))
  end.

(** [report] acts on some state [R]. *)
Section report.
Context {R : Type} (report : ForwardOrigin.Origin -> R -> outcome (bool * R)).

Fixpoint report_from (indices : list Z) (tasks : Slab.slab slot) (origins : ForwardOrigin.table) (x : R)
    : outcome (Slab.slab slot * ForwardOrigin.table * R) :=
  match indices with
  | [] => Ret (tasks, origins, x)
  | index :: indices =>
      match ForwardOrigin.peek origins index with
      | None => report_from indices tasks origins x
      | Some origin =>
          settled ← is_resident_settled tasks index;
          if negb settled then report_from indices tasks origins x else
          '(landed, x) ← report origin x;
          if negb landed then report_from indices tasks origins x else
          let '(_, origins) := ForwardOrigin.take origins index in
          '(removed, tasks) ← Slab.remove_by_index tasks index;
          _ ← match removed with None => Ret tt | Some sl => _ ← TaskCell.drop_in_place_fn (cell sl); Ret tt end;
          report_from indices tasks origins x
      end
  end.

Definition report_settled (tasks : Slab.slab slot) (origins : ForwardOrigin.table) (x : R)
    : outcome (Slab.slab slot * ForwardOrigin.table * R) :=
  report_from (seqZ 0 (ForwardOrigin.capacity origins)) tasks origins x.
End report.
End Thief.

(** ** The rings between workers *)

Module StealRings.
Import Relocate.

Definition INBOX_CAPACITY : Z := 256.
Definition INBOX_SLOTS : Z := TaskRef.WORKER_ID_MAX + 1.
Definition SETTLED_NOTE_CAPACITY : Z := 256.
Definition STEAL_REQUEST_CAPACITY : Z := 8.
Definition HANDOFF_CAPACITY : Z := 2.

(** [RING[id].push(x)]: whether it was taken. *)
Definition push_at {A} (capacity : Z) (id : Z) (x : A) (table : list (list A)) : outcome (bool * list (list A)) :=
  match table !! Z.to_nat id with
  | None => Panic
  | Some q => if Z.of_nat (length q) <? capacity then Ret (true, <[Z.to_nat id := q ++ [x]]> table) else Ret (false, table)
  end.

(** [RING[id].pop()]. *)
Definition pop_at {A} (id : Z) (table : list (list A)) : outcome (option A * list (list A)) :=
  match table !! Z.to_nat id with
  | None => Panic
  | Some [] => Ret (None, table)
  | Some (x :: q) => Ret (Some x, <[Z.to_nat id := q]> table)
  end.

Record rings : Type := mkRings {
  inboxes : list (list Z);
  steal_requests : list (list StealRequest);
  handoffs : list (list HandoffMsg);
  settled_notes : list (list SettledNote);
  signals : list Z;
}.

Definition start : rings :=
  mkRings (replicate (Z.to_nat INBOX_SLOTS) []) (replicate (Z.to_nat INBOX_SLOTS) [])
    (replicate (Z.to_nat INBOX_SLOTS) []) (replicate (Z.to_nat INBOX_SLOTS) []) [].

Definition set_inboxes x r := mkRings x (steal_requests r) (handoffs r) (settled_notes r) (signals r).
Definition set_requests x r := mkRings (inboxes r) x (handoffs r) (settled_notes r) (signals r).
Definition set_handoffs x r := mkRings (inboxes r) (steal_requests r) x (settled_notes r) (signals r).
Definition set_notes x r := mkRings (inboxes r) (steal_requests r) (handoffs r) x (signals r).

Definition signal (worker_id : Z) (r : rings) : rings :=
  mkRings (inboxes r) (steal_requests r) (handoffs r) (settled_notes r) (signals r ++ [worker_id]).

Definition enqueue (task_ref : Z) (r : rings) : outcome (bool * rings) :=
  '(b, x) ← push_at INBOX_CAPACITY (TaskRef.worker_id task_ref) task_ref (inboxes r); Ret (b, set_inboxes x r).
Definition pop (worker_id : Z) (r : rings) : outcome (option Z * rings) :=
  '(o, x) ← pop_at worker_id (inboxes r); Ret (o, set_inboxes x r).
Definition push_settled (victim_id : Z) (note : SettledNote) (r : rings) : outcome (bool * rings) :=
  '(b, x) ← push_at SETTLED_NOTE_CAPACITY victim_id note (settled_notes r); Ret (b, set_notes x r).
Definition pop_settled (worker_id : Z) (r : rings) : outcome (option SettledNote * rings) :=
  '(o, x) ← pop_at worker_id (settled_notes r); Ret (o, set_notes x r).
Definition push_steal_request (victim_id : Z) (request : StealRequest) (r : rings) : outcome (bool * rings) :=
  '(b, x) ← push_at STEAL_REQUEST_CAPACITY victim_id request (steal_requests r); Ret (b, set_requests x r).
Definition pop_steal_request (worker_id : Z) (r : rings) : outcome (option StealRequest * rings) :=
  '(o, x) ← pop_at worker_id (steal_requests r); Ret (o, set_requests x r).
Definition push_handoff (thief_id : Z) (msg : HandoffMsg) (r : rings) : outcome (bool * rings) :=
  '(b, x) ← push_at HANDOFF_CAPACITY thief_id msg (handoffs r); Ret (b, set_handoffs x r).
Definition pop_handoff (worker_id : Z) (r : rings) : outcome (option HandoffMsg * rings) :=
  '(o, x) ← pop_at worker_id (handoffs r); Ret (o, set_handoffs x r).

End StealRings.

(** ** The steps of a worker's loop *)

Module DriveSteal.
Import TaskSlot Relocate StealRings.

(** The fields of [WorkerShard] the protocol touches. *)
Record shard : Type := mkShard {
  id : Z;
  tasks : Slab.slab slot;
  run_queue : RunQueue.queue;
  forward : ForwardTable.table;
  origins : ForwardOrigin.table;
  steal_cursor : Z;
  pending_steal : option Z;
}.

Definition shard_new (id task_capacity : Z) : outcome shard :=
  tasks ← Slab.new task_capacity;
  Ret (mkShard id tasks RunQueue.new (ForwardTable.new task_capacity) (ForwardOrigin.new task_capacity) 0 None).

Definition set_tasks x sh := mkShard (id sh) x (run_queue sh) (forward sh) (origins sh) (steal_cursor sh) (pending_steal sh).
Definition set_queue x sh := mkShard (id sh) (tasks sh) x (forward sh) (origins sh) (steal_cursor sh) (pending_steal sh).
Definition set_forward x sh := mkShard (id sh) (tasks sh) (run_queue sh) x (origins sh) (steal_cursor sh) (pending_steal sh).
Definition set_origins x sh := mkShard (id sh) (tasks sh) (run_queue sh) (forward sh) x (steal_cursor sh) (pending_steal sh).
Definition set_cursor x sh := mkShard (id sh) (tasks sh) (run_queue sh) (forward sh) (origins sh) x (pending_steal sh).
Definition set_pending x sh := mkShard (id sh) (tasks sh) (run_queue sh) (forward sh) (origins sh) (steal_cursor sh) x.

Definition serve_steals (sh : shard) (r : rings) : outcome (shard * rings) :=
  '(request, r) ← pop_steal_request (id sh) r;
  match request with
  | None => Ret (sh, r)
  | Some request =>
      '(reply, tasks, forward, q) ← Victim.serve_steal (id sh) (tasks sh) (forward sh) (origins sh) (run_queue sh) request;
      let sh := set_queue q (set_forward forward (set_tasks tasks sh)) in
      '(pushed, r) ← push_handoff (thief_id request) reply r;
      _ ← match pushed, reply with
          | false, Delivered _ _ task => drop_stolen task
          | _, _ => Ret tt
          end;
      Ret (sh, signal (thief_id request) r)
  end.

(** [wake_local] on this worker's slab and queue. *)
Definition wake_local (sh : shard) (task_ref : Z) : outcome shard :=
  '(q, tasks) ← @RunQueue.wake_local (id sh) _ (open_cells (id sh) None) (tasks sh) (run_queue sh) task_ref;
  Ret (set_queue q (set_tasks tasks sh)).

(** One turn of a [while let Some(x) = pop()] loop: [false] on an empty ring. *)
Definition receive_one (sh : shard) (r : rings) : outcome (bool * shard * rings) :=
  '(reply, r) ← pop_handoff (id sh) r;
  match reply with
  | None => Ret (false, sh, r)
  | Some reply =>
      '(received, tasks, origins) ← Thief.receive_handoff (tasks sh) (origins sh) reply;
      let sh := set_origins origins (set_tasks tasks sh) in
      sh ← match received with
           | Thief.Installed task_ref => wake_local sh task_ref
           | Thief.Withdrawn => Ret sh
           end;
      Ret (true, set_pending None sh, r)
  end.

(** The loop; [turns] bounds the pops. *)
Fixpoint loop (turn : shard -> rings -> outcome (bool * shard * rings)) (turns : nat) (sh : shard) (r : rings) : outcome (shard * rings) :=
  match turns with
  | O => OutOfFuel
  | S turns =>
      '(more, sh, r) ← turn sh r;
      if more : bool then loop turn turns sh r else Ret (sh, r)
  end.

Definition receive_handoffs : nat -> shard -> rings -> outcome (shard * rings) := loop receive_one.

(** The closure [report_settled_relocations] hands to [report_settled]. *)
Definition report_note (origin : ForwardOrigin.Origin) (r : rings) : outcome (bool * rings) :=
  '(pushed, r) ← push_settled (ForwardOrigin.victim_id origin) (mkNote (ForwardOrigin.victim_key origin)) r;
  Ret (pushed, if pushed : bool then signal (ForwardOrigin.victim_id origin) r else r).

Definition report_settled_relocations (sh : shard) (r : rings) : outcome (shard * rings) :=
  '(tasks, origins, r) ← Thief.report_settled report_note (tasks sh) (origins sh) r;
  Ret (set_origins origins (set_tasks tasks sh), r).

Definition mark_settled (tasks : Slab.slab slot) (note : SettledNote) : outcome (Slab.slab slot) :=
  x ← Slab.get_mut tasks (note_key note);
  match x with
  | None => Ret tasks
  | Some (sl, st) =>
      state ← TaskState.load (state sl);
      Ret (if bool_decide (state = TaskState.Retired) then
             st (mkSlot (cell sl) (pip sl) (namespace sl) (first_child sl) (next_sibling sl) (wake_data sl)
                   (in_flight_ops sl) (is_pinned sl) true (has_polled sl) (io_bound sl) (next_runnable sl))
           else tasks)
  end.

Definition note_one (sh : shard) (r : rings) : outcome (bool * shard * rings) :=
  '(note, r) ← pop_settled (id sh) r;
  match note with
  | None => Ret (false, sh, r)
  | Some note => tasks ← mark_settled (tasks sh) note; Ret (true, set_tasks tasks sh, r)
  end.

Definition drain_settled_notes : nat -> shard -> rings -> outcome (shard * rings) := loop note_one.

Definition wake_or_forward (sh : shard) (r : rings) (task_ref : Z) : outcome (shard * rings) :=
  let key := TaskRef.key task_ref in
  x ← Slab.get (tasks sh) key;
  is_relocated ← match x with
                 | None => Ret true
                 | Some sl => st ← TaskState.load (state sl); Ret (bool_decide (st = TaskState.Retired))
                 end;
  if negb is_relocated then sh ← wake_local sh task_ref; Ret (sh, r) else
  match ForwardTable.lookup (forward sh) key with
  | None => Ret (sh, r)
  | Some new_ref =>
      '(pushed, r) ← enqueue new_ref r;
      Ret (sh, if pushed : bool then signal (TaskRef.worker_id new_ref) r else r)
  end.

Definition wake_one (sh : shard) (r : rings) : outcome (bool * shard * rings) :=
  '(task_ref, r) ← pop (id sh) r;
  match task_ref with
  | None => Ret (false, sh, r)
  | Some task_ref => '(sh, r) ← wake_or_forward sh r task_ref; Ret (true, sh, r)
  end.

Definition drain_wakes : nat -> shard -> rings -> outcome (shard * rings) := loop wake_one.

(** Checked [u8] addition and subtraction, and the remainder, which panics on
    a zero divisor. *)
Definition next_victim (sh : shard) (lead workers : Z) : outcome (option Z * shard) :=
  match try_from U8 workers with
  | None => Ret (None, sh)
  | Some count =>
      offset_of_self ← sub_or_panic (id sh) lead;
      next ← add_or_panic U8 (steal_cursor sh) 1;
      if count =? 0 then Panic else
      let next := next mod count in
      next ← (if next =? offset_of_self then next ← add_or_panic U8 next 1; Ret (next mod count) else Ret next);
      let sh := set_cursor next sh in
      if next =? offset_of_self then Ret (None, sh) else
      victim ← add_or_panic U8 lead next;
      Ret (match WorkerId.new victim with Ok v => Some v | Err _ => None end, sh)
  end.

Definition try_steal (sh : shard) (r : rings) (lead workers : Z) : outcome (shard * rings) :=
  if (workers <=? 1) || bool_decide (is_Some (pending_steal sh)) then Ret (sh, r) else
  '(victim, sh) ← next_victim sh lead workers;
  match victim with
  | None => Ret (sh, r)
  | Some victim =>
      '(request, tasks) ← Thief.prepare_steal (tasks sh) (id sh);
      let sh := set_tasks tasks sh in
      match request with
      | None => Ret (sh, r)
      | Some request =>
          let promised := TaskRef.key (dest request) in
          '(pushed, r) ← push_steal_request victim request r;
          if negb pushed then Ret (set_tasks (Slab.unreserve tasks promised).2 sh, r) else
          Ret (set_pending (Some promised) sh, signal victim r)
      end
  end.

End DriveSteal.
