(* ===== verification/StealThms.v ===== *)
(** * The steal protocol: what it guarantees

    The effect of each step of [Steal] on the slab of the worker that runs it,
    then the network of workers: every body is in one place, every husk has
    one carrier on its way back, and every route leads to the body. *)

From S2P Require Import Prelude GenKey SlabAlloc SlabFacts SlabThms SlabStore TaskRefId TaskCell TaskSlots RunQueue Steal.
From stdpp Require Import base tactics option numbers list sets.

Local Open Scope Z_scope.

Module StealSpec.
Import TaskSlot Relocate.

(** ** Slots between steps *)

(** The slot is in state [st], unclaimed unless retired, and the half of its
    cell that state owns is there. *)
Definition st_ok (sl : slot) (st : TaskState.t) : Prop :=
  state sl = TaskState.mkAtomic (TaskState.to_u8 st) (bool_decide (st = TaskState.Retired)) /\
  match st with
  | TaskState.Sleeping | TaskState.Woken | TaskState.Running | TaskState.Cancelled => TaskCell.future (cell sl) = TaskCell.Live
  | TaskState.Done => TaskCell.output (cell sl) = TaskCell.Live
  | TaskState.Retired => TaskCell.future (cell sl) = TaskCell.Gone
  | _ => True
  end /\
  (st <> TaskState.Retired -> is_remote_settled sl = false).

Definition bare (sl : slot) : slot := set_next_runnable None sl.

Definition cores (s : Slab.slab slot) (r : Z) : option slot := bare <$> open_at s r.

(** What [copy_cell] leaves behind and what it ships. *)
Definition husk_of (sl : slot) : slot :=
  set_cell (TaskCell.mkCell (TaskState.mkAtomic (TaskState.to_u8 TaskState.Retired) true) TaskCell.Gone (TaskCell.output (cell sl))) sl.
Definition shipped (sl : slot) : slot := set_state TaskState.new sl.

(** The resident may leave: the gate both candidate filters apply. *)
Record stealable (origins : ForwardOrigin.table) (r : Z) (sl : slot) : Prop := {
  sb_state : st_ok sl TaskState.Sleeping \/ st_ok sl TaskState.Woken;
  sb_polled : has_polled sl = true;
  sb_io : in_flight_ops sl = 0;
  sb_leaf : first_child sl = None;
  sb_pin : is_pinned sl = false;
  sb_native : ForwardOrigin.is_relocated origins (TaskRef.index r) = false;
}.

Lemma st_ok_bare sl st : st_ok (bare sl) st <-> st_ok sl st.
Proof. done. Qed.

Lemma st_ok_inj sl st st' : st_ok sl st -> st_ok sl st' -> st = st'.
Proof. intros [E _] [E' _]. rewrite E in E'. injection E' as E' _. by apply TaskState.to_u8_inj. Qed.

Lemma st_ok_load sl st : st_ok sl st -> TaskState.load (state sl) = Ret st.
Proof. intros [-> _]. apply TaskState.from_to. Qed.

Lemma shipped_ok sl : st_ok sl TaskState.Sleeping \/ st_ok sl TaskState.Woken -> st_ok (shipped sl) TaskState.Sleeping.
Proof. intros [(_ & Hf & Hs)|(_ & Hf & Hs)]; (split; [done|]; split; [exact Hf|]; intros _; by apply Hs). Qed.

Lemma husk_of_ok sl : st_ok (husk_of sl) TaskState.Retired.
Proof. by split. Qed.

Lemma candidate_spec wanted sl st origins key :
  st_ok sl st ->
  exists b, Victim.is_candidate wanted sl origins key = Ret b /\
    (b = true -> st = wanted /\ has_polled sl = true /\ in_flight_ops sl = 0 /\ first_child sl = None /\ is_pinned sl = false /\
       ForwardOrigin.is_relocated origins (SlabKey.index key) = false).
Proof.
  intros H. unfold Victim.is_candidate. rewrite (st_ok_load _ _ H). cbn [mbind outcome_bind]. eexists. split; [done|].
  rewrite !andb_true_iff, !negb_true_iff, bool_decide_eq_true, bool_decide_eq_false, Z.eqb_eq.
  intros [[[[[[-> ?] _] ?] Hc] ?] ?]. split_and!; try done. destruct (first_child sl); [|done]. by destruct Hc.
Qed.

Lemma move_out_from_spec st sl key :
  st = TaskState.Sleeping \/ st = TaskState.Woken -> st_ok sl st ->
  in_flight_ops sl = 0 -> first_child sl = None -> is_pinned sl = false ->
  move_out_from (TaskState.retire_from st) sl key = Ret (Some (mkStolen (shipped sl) (pip sl) key), husk_of sl).
Proof.
  intros Hst (E & F & _) Ho Hc Hp. unfold move_out_from. rewrite E, Ho, Hc, Hp. destruct sl as [[]]. cbn in *. destruct Hst; subst; cbn; done.
Qed.

(** ** The slab operations of the protocol, by task reference *)

Section refs.
Context (w : Z).
Hypothesis Hw : WorkerId.wf w.
Implicit Types (s : Slab.slab slot).

Lemma key_of_new key : SlabSpec.live_key key -> key = SlabKey.new (SlabKey.index key) (SlabKey.generation key) ->
  ref_of w (TaskRef.from_slab w key) /\ TaskRef.key (TaskRef.from_slab w key) = key.
Proof.
  intros Hl E. pose proof (SlabKey.index_fits key). pose proof (SlabKey.generation_wf key). split.
  - split; [done|]. exists (SlabKey.index key), (SlabKey.generation key). by rewrite <- E.
  - rewrite E at 1. rewrite TaskRef.key_from_slab by done. done.
Qed.

Lemma ref_key r : ref_of w r -> r = TaskRef.from_slab w (TaskRef.key r) /\ SlabSpec.live_key (TaskRef.key r) /\
  TaskRef.index r = SlabKey.index (TaskRef.key r) /\ TaskRef.worker_id r = w.
Proof.
  intros (_ & i & g & Hi & Hg & Ho & ->). pose proof (TaskRef.key_from_slab w i g Hw Hi Hg) as E. rewrite E.
  destruct (TaskRef.from_slab_fields w i g Hw Hi Hg) as (F1 & F2 & F3 & F4).
  split_and!; [done| | |]; unfold SlabSpec.live_key; rewrite ?SlabKey.generation_new, ?SlabKey.index_new by done; done.
Qed.

Lemma keyed_ref r i g : keyed w r i g -> TaskRef.index r = Z.of_nat i.
Proof.
  intros K. rewrite <- (k_index _ _ _ _ K). rewrite SlabSpec.key_index_Z. unfold TaskRef.key. rewrite SlabKey.index_new; [done|].
  unfold TaskRef.index, fits, wrap. pose proof (Z.mod_pos_bound (Z.land r TaskRef.INDEX_MASK) (2 ^ U32)). cbn in *. lia.
Qed.

(** A view of the slab is a resident of the worker. *)
Lemma view_ref s i g v : SlabSpec.wf s -> SlabSpec.view s i = Some (g, v) ->
  let r := TaskRef.from_slab w (SlabKey.new (Z.of_nat i) g) in
  ref_of w r /\ keyed w r i g /\ TaskRef.key r = SlabKey.new (Z.of_nat i) g /\ open_at s r = Some v.
Proof.
  intros [fl W] E r. apply SlabSpec.view_Some in E as (sl & Hi & Ho & Hg & Hd). pose proof (SlabSpec.wf_index _ _ _ _ W Hi) as Hf.
  assert (Generation.wf g) as Hgw by (subst g; apply (SlabSpec.wf_slots _ _ W _ _ Hi)).
  assert (Hr : ref_of w r) by (split; [done|]; exists (Z.of_nat i), g; unfold SlabSpec.occ in Ho; subst g; done).
  assert (Hk : TaskRef.key r = SlabKey.new (Z.of_nat i) g) by by apply TaskRef.key_from_slab.
  split_and!; try done.
  - split; rewrite ?Hk; try done.
    + unfold SlabSpec.key_index. by rewrite SlabKey.index_new, Nat2Z.id.
    + by rewrite SlabKey.generation_new.
    + unfold SlabSpec.live_key. rewrite SlabKey.generation_new by done. by subst g.
  - unfold open_at. rewrite Hk. erewrite SlabSpec.lookup_new_key by done.
    replace (SlabSpec.view s i) with (Some (g, v)) by (symmetry; apply SlabSpec.view_Some; eauto 6). cbn. by rewrite Z.eqb_refl.
Qed.

Lemma reserve_key s key s' : SlabSpec.wf s -> Slab.reserve s = Ret (Ok key, s') -> key = SlabKey.new (SlabKey.index key) (SlabKey.generation key).
Proof.
  intros [fl W] E. unfold Slab.reserve in E. destruct (Z.eqb_spec (Slab.free_head s) Slab.FREE_SENTINEL) as [|Hh]; [done|].
  destruct (SlabOps.head_slot _ _ W Hh) as (i & fl' & sl & -> & Hhd & Hi & Ho & Hg).
  rewrite (SlabOps.slot_at_nat _ _ i Hhd), Hi in E. fold (SlabSpec.occ sl) in E. rewrite Ho in E. injection E as <- _. rewrite Hhd.
  pose proof (SlabSpec.wf_index _ _ _ _ W Hi). rewrite SlabKey.index_new, SlabKey.generation_new by (done || apply Generation.next_wf). done.
Qed.

Lemma at_same s s' : (forall j, SlabSpec.view s' j = SlabSpec.view s j) -> forall r, open_at s' r = open_at s r.
Proof. intros H r. unfold open_at, SlabSpec.lookup. by rewrite H. Qed.

Lemma reserve_ref s : open_wf None s ->
  match Slab.reserve s with
  | Ret (Err _, s') => s' = s
  | Ret (Ok key, s') =>
      let r := TaskRef.from_slab w key in
      ref_of w r /\ TaskRef.key r = key /\ open_wf (Some key) s' /\ length (Slab.slots s') = length (Slab.slots s) /\
      forall r', open_at s' r' = open_at s r'
  | _ => False
  end.
Proof.
  intros [W _]. pose proof (SlabOps.reserve_spec s W) as H. pose proof (reserve_key s) as Hk.
  destruct (Slab.reserve s) as [[[key|[]] s']| | |]; try done; [|apply H]. destruct H as (W' & Hl & Hp & _ & _ & Hv & Hc).
  destruct (key_of_new key Hl (Hk key s' W eq_refl)) as [Hr Er]. cbv zeta. split_and!; try done. by apply at_same.
Qed.

Lemma unreserve_ref s key : open_wf (Some key) s ->
  exists s', Slab.unreserve s key = (true, s') /\ open_wf None s' /\ length (Slab.slots s') = length (Slab.slots s) /\
    forall r', open_at s' r' = open_at s r'.
Proof.
  intros [W Hp]. destruct (SlabOps.unreserve_spec s key W Hp) as (s' & E & W' & Hc & Hv & _). exists s'. split_and!; try done. by apply at_same.
Qed.

Lemma promised_at s r : ref_of w r -> open_wf (Some (TaskRef.key r)) s -> open_at s r = None.
Proof.
  intros (i & g & K)%(ref_keyed w) [_ Hp]. unfold open_at, SlabSpec.lookup.
  by rewrite (SlabTrace.promised_view s _ Hp).
Qed.

Lemma install_ref s r v : ref_of w r -> open_wf (Some (TaskRef.key r)) s ->
  exists s', Slab.install s (TaskRef.key r) v = Ret (Ok tt, s') /\ open_wf None s' /\ length (Slab.slots s') = length (Slab.slots s) /\
    forall r', ref_of w r' -> open_at s' r' = if decide (r' = r) then Some v else open_at s r'.
Proof.
  intros Hr [W Hp]. destruct (SlabOps.install_spec s _ v W Hp) as (s' & E & W' & Hc & _ & Hv). exists s'. split_and!; try done.
  intros r' Hr'. destruct (ref_keyed w r Hr) as (i & g & K). rewrite (k_index _ _ _ _ K), (k_gen _ _ _ _ K) in Hv.
  assert (SlabSpec.view s i = None) as Hn by (rewrite <- (k_index _ _ _ _ K); by apply SlabTrace.promised_view).
  apply (open_upd w s s' r i g (Some (g, v))); [done|done|by intros ? [= <-]|by rewrite Hn|done].
Qed.

Lemma remove_ref p s r v : ref_of w r -> open_wf p s -> open_at s r = Some v ->
  exists s', Slab.remove_by_index s (TaskRef.index r) = Ret (Some v, s') /\ open_wf p s' /\ length (Slab.slots s') = length (Slab.slots s) /\
    forall r', ref_of w r' -> open_at s' r' = if decide (r' = r) then None else open_at s r'.
Proof.
  intros (i & g & K)%(ref_keyed w) [W Hp] E. pose proof (open_view w _ _ _ _ _ K E) as Ei. rewrite (keyed_ref _ _ _ K).
  pose proof (SlabOps.remove_by_index_spec s i W) as H. rewrite Ei in H. destruct H as (s' & Er & W' & Hc & Hv).
  exists s'. split_and!; try done.
  - split; [done|]. destruct p as [key|]; [|done]. cbn in *.
    eapply (SlabTrace.promised_step s (SlabTrace.ORemoveIdx i)); [done|done|cbn; rewrite Er; reflexivity|by intros []|done].
  - intros r' Hr'. apply (open_upd w s s' r i g None); [done|done|done|by intros ? ?; simplify_eq|done].
Qed.

Lemma index_ref s i v : open_wf None s -> Slab.get_by_index s (Z.of_nat i) = Ret (Some v) ->
  exists g, let r := TaskRef.from_slab w (SlabKey.new (Z.of_nat i) g) in keyed w r i g /\ ref_of w r /\ open_at s r = Some v.
Proof.
  intros [W _] E. rewrite SlabOps.get_by_index_spec in E by done. injection E as E. unfold SlabOps.view_value in E.
  destruct (SlabSpec.view s i) as [[g v']|] eqn:Ev; [|done]. cbn in E. injection E as ->.
  exists g. destruct (view_ref s i g v W Ev) as (? & ? & _ & ?). done.
Qed.
End refs.

(** ** Serving a request *)

Section serve.
Context (w : Z) (p : option Z) (origins : ForwardOrigin.table).
Hypothesis Hw : WorkerId.wf w.
Implicit Types (s : Slab.slab slot).
#[local] Instance spec_cells : TaskCells w (Slab.slab slot) := open_cells w p.

Definition slots_ok s : Prop := forall r sl, ref_of w r -> cores s r = Some sl -> exists st, st_ok sl st.

(** The state of a queued task: it does not sleep and has not left; a
    relocated one, which nobody here can cancel, is woken. *)
Definition waiting (r : Z) (sl : slot) : Prop :=
  ~ st_ok sl TaskState.Sleeping /\ ~ st_ok sl TaskState.Retired /\
  (ForwardOrigin.is_relocated origins (TaskRef.index r) = true -> st_ok sl TaskState.Woken).

(** The queue holds [l]. *)
Record queued s (q : RunQueue.queue) (l : list Z) : Prop := {
  qd_holds : RunQueueSpec.holds s q l;
  qd_state r sl : r ∈ l -> cores s r = Some sl -> waiting r sl;
}.

(** [task] is the body of the resident [r] of [s], whose slot is a husk in
    [s']. *)
Record stolen s s' (task : StolenTask) (r : Z) (sl : slot) : Prop := {
  so_ref : ref_of w r;
  so_at : cores s r = Some sl;
  so_can : stealable origins r sl;
  so_body : bare (body task) = shipped sl;
  so_pip : body_pip task = pip sl;
  so_key : victim_key task = TaskRef.key r;
  so_after r' : ref_of w r' -> cores s' r' = if decide (r' = r) then Some (husk_of sl) else cores s r';
}.

Lemma open_cores s r v : open_at s r = Some v -> cores s r = Some (bare v).
Proof. unfold cores. by intros ->. Qed.

Lemma cores_open s r v : cores s r = Some v -> exists v', open_at s r = Some v' /\ v = bare v'.
Proof. unfold cores. destruct (open_at s r); naive_solver. Qed.

Lemma slots_ok_at s r v : slots_ok s -> ref_of w r -> open_at s r = Some v -> exists st, st_ok v st.
Proof. intros H Hr E. destruct (H r (bare v) Hr (open_cores _ _ _ E)) as (st & Hst). by exists st. Qed.

Lemma write_back_spec s r v v' : open_wf p s -> ref_of w r -> open_at s r = Some v ->
  exists s', Victim.write_back s (TaskRef.key r) v' = Ret s' /\ open_wf p s' /\ length (Slab.slots s') = length (Slab.slots s) /\
    forall r', ref_of w r' -> open_at s' r' = if decide (r' = r) then Some v' else open_at s r'.
Proof.
  intros W Hr E. pose proof (open_get_mut w p s r W Hr) as H. rewrite E in H. destruct H as (st & Hst & H).
  exists (st v'). unfold Victim.write_back. rewrite Hst. cbn. split; [done|]. apply H.
Qed.

(** Writing the husk over the resident it came from. *)
Lemma stolen_write s r v st :
  open_wf p s -> ref_of w r -> open_at s r = Some v -> st = TaskState.Sleeping \/ st = TaskState.Woken -> st_ok v st ->
  has_polled v = true -> in_flight_ops v = 0 -> first_child v = None -> is_pinned v = false ->
  ForwardOrigin.is_relocated origins (SlabKey.index (TaskRef.key r)) = false ->
  exists s', Victim.write_back s (TaskRef.key r) (husk_of v) = Ret s' /\ open_wf p s' /\
    length (Slab.slots s') = length (Slab.slots s) /\ stolen s s' (mkStolen (shipped v) (pip v) (TaskRef.key r)) r (bare v) /\
    forall r', ref_of w r' -> r' <> r -> open_at s' r' = open_at s r'.
Proof.
  intros W Hr E Hst Hok Hpo Hio Hch Hpi Hre. destruct (write_back_spec s r v (husk_of v) W Hr E) as (s' & Ew & W' & Hc & Ha).
  exists s'. split_and!; try done; [|by intros r' Hr' ?; rewrite Ha, decide_False].
  split; cbn; try done.
  - by apply open_cores.
  - split; try done; [destruct Hst; subst; auto|]. destruct (ref_key w Hw r Hr) as (_ & _ & -> & _). done.
  - intros r' Hr'. unfold cores. rewrite Ha by done. by destruct (decide _).
Qed.

Lemma sleeping_pass_spec l s :
  open_wf p s -> slots_ok s -> (forall key v, (key, v) ∈ l -> exists r, ref_of w r /\ key = TaskRef.key r /\ open_at s r = Some v) ->
  Victim.sleeping_pass origins s l = Ret (None, s) \/
  exists task s' r sl, Victim.sleeping_pass origins s l = Ret (Some task, s') /\ open_wf p s' /\
    length (Slab.slots s') = length (Slab.slots s) /\ stolen s s' task r sl /\ st_ok sl TaskState.Sleeping /\
    forall r', ref_of w r' -> r' <> r -> open_at s' r' = open_at s r'.
Proof.
  intros W Hok. induction l as [|[key v] l IH]; intros Hl; [by left|]. cbn [Victim.sleeping_pass].
  destruct (Hl key v ltac:(set_solver)) as (r & Hr & -> & E). destruct (slots_ok_at s r v Hok Hr E) as (st & Hst).
  destruct (candidate_spec TaskState.Sleeping v st origins (TaskRef.key r) Hst) as (b & Eb & Hb).
  unfold Victim.is_sleeping_candidate. rewrite Eb. cbn [mbind outcome_bind].
  destruct b; cbn [negb]; [|apply IH; intros; apply Hl; set_solver]. right.
  destruct (Hb eq_refl) as (-> & Hpo & Hio & Hch & Hpi & Hre). unfold move_out, TaskState.try_retire.
  rewrite move_out_from_spec by auto. cbn [mbind outcome_bind].
  destruct (stolen_write s r v TaskState.Sleeping) as (s' & -> & W' & Hc & Hs & Ho); try done; [by left|].
  cbn [mbind outcome_bind]. by eexists _, s', r, (bare v).
Qed.

(** Pushing a popped candidate back rotates the queue. *)
Lemma relinked_queued s s' q l : RunQueueSpec.relinked s s' -> RunQueueSpec.holds s' q l -> Forall (ref_of w) l ->
  (forall r sl, r ∈ l -> cores s r = Some sl -> waiting r sl) -> queued s' q l.
Proof.
  intros [_ _ Hc] H Hl Hs. split; [done|]. intros r sl Hr E. apply (Hs r); [done|]. rewrite Forall_forall in Hl.
  change (RunQueueSpec.core s' r = Some sl) in E. rewrite Hc in E by auto. exact E.
Qed.

Lemma rotate_spec s q q1 l r v :
  open_wf p s -> queued s q (r :: l) -> RunQueueSpec.holds s q1 l -> ref_of w r -> open_at s r = Some v ->
  exists q' s', @RunQueue.push w _ (open_cells w None) q1 r s = Ret (q', s') /\ queued s' q' (l ++ [r]) /\ RunQueueSpec.relinked s s'.
Proof.
  intros W [Hq Hs] H1 Hr E. pose proof (RunQueueSpec.q_nodup _ _ _ Hq) as Hnd. apply NoDup_cons in Hnd as [Hni _].
  destruct (@RunQueueSpec.push_spec w _ spec_cells s q1 l r v W H1 Hni Hr E) as (q' & s' & Ep & Hh & Hre). exists q', s'. split_and!; [exact Ep| |done].
  pose proof (RunQueueSpec.q_refs _ _ _ Hq) as Hf. apply Forall_cons in Hf as [_ Hf].
  eapply relinked_queued; [done|done|by apply Forall_app; split; [|apply Forall_singleton]|]. intros x sl Hx. apply Hs. set_solver.
Qed.

Lemma relinked_cores s s' : RunQueueSpec.relinked s s' -> forall r, ref_of w r -> cores s' r = cores s r.
Proof. intros [_ _ H]. exact H. Qed.

Lemma relinked_trans s1 s2 s3 : RunQueueSpec.relinked s1 s2 -> RunQueueSpec.relinked s2 s3 -> RunQueueSpec.relinked s1 s3.
Proof. intros [W1 C1 H1] [W2 C2 H2]. split; [done|by rewrite C2|]. intros r Hr. by rewrite H2, H1. Qed.

Lemma relinked_refl s : open_wf p s -> RunQueueSpec.relinked s s.
Proof. by split. Qed.

Lemma stolen_relinked s s1 s' task r sl : RunQueueSpec.relinked s s1 -> stolen s1 s' task r sl -> stolen s s' task r sl.
Proof.
  intros H []. pose proof (relinked_cores _ _ H) as Hc. split; try done; [by rewrite <- Hc|].
  intros r' Hr'. rewrite so_after0 by done. destruct (decide _); [done|]. by apply Hc.
Qed.

Lemma woken_pass_spec n s q l :
  open_wf p s -> slots_ok s -> queued s q l ->
  (exists s' q' l', Victim.woken_pass w n origins s q = Ret (None, s', q') /\ queued s' q' l' /\ RunQueueSpec.relinked s s') \/
  exists task s' q' l' r sl, Victim.woken_pass w n origins s q = Ret (Some task, s', q') /\ queued s' q' l' /\ open_wf p s' /\
    length (Slab.slots s') = length (Slab.slots s) /\ stolen s s' task r sl.
Proof.
  revert s q l. induction n as [|n IH]; intros s q l W Hok Hq; [by left; exists s, q, l; split_and!; [..|apply relinked_refl]|].
  cbn [Victim.woken_pass]. destruct (@RunQueueSpec.pop_spec w _ spec_cells s q l W (qd_holds _ _ _ Hq)) as (q1 & Ep & H1).
  change (@RunQueue.pop w _ (Victim.victim_cells w) q s) with (RunQueue.pop q s). rewrite Ep. cbn [mbind outcome_bind].
  destruct l as [|r l]; [left; exists s, q1, []; split_and!; [done|split; [done|set_solver]|by apply relinked_refl]|]. cbn [List.hd_error List.tl] in *.
  pose proof (RunQueueSpec.q_refs _ _ _ (qd_holds _ _ _ Hq)) as Hf. apply Forall_cons in Hf as [Hr Hf].
  destruct (RunQueueSpec.q_links _ _ _ (qd_holds _ _ _ Hq)) as [(v & E & _) _]. change (open_at s r = Some v) in E.
  rewrite (open_get w p s r W Hr), E. cbn [mbind outcome_bind].
  assert (Again : exists q' s', @RunQueue.push w _ (Victim.victim_cells w) q1 r s = Ret (q', s') /\ queued s' q' (l ++ [r]) /\ RunQueueSpec.relinked s s')
    by by eapply rotate_spec.
  destruct (slots_ok_at s r v Hok Hr E) as (st & Hst).
  destruct (candidate_spec TaskState.Woken v st origins (TaskRef.key r) Hst) as (b & Eb & Hb).
  unfold Victim.is_woken_candidate. rewrite Eb. cbn [mbind outcome_bind]. destruct b; cbn [negb].
  - destruct (Hb eq_refl) as (-> & Hpo & Hio & Hch & Hpi & Hre). unfold move_out_woken, TaskState.try_retire_woken.
    rewrite move_out_from_spec by auto. cbn [mbind outcome_bind].
    destruct (stolen_write s r v TaskState.Woken) as (s' & -> & W' & Hc & Hs & Ho); try done; [by right|]. cbn [mbind outcome_bind].
    right. eexists _, s', q1, l, r, (bare v). split_and!; try done. pose proof (RunQueueSpec.q_nodup _ _ _ (qd_holds _ _ _ Hq)) as Hnd.
    apply NoDup_cons in Hnd as [Hni _]. rewrite Forall_forall in Hf. split.
    + eapply RunQueueSpec.queue_holds_frame; [exact H1|]. intros x vx Hx Ex. exists vx. split; [|done]. change (open_at s' x = Some vx).
      rewrite Ho; [done|auto|by intros ->].
    + intros x sl Hx Ex. rewrite (so_after _ _ _ _ _ Hs), decide_False in Ex; [|by intros ->|auto]. apply (qd_state _ _ _ Hq x); [set_solver|done].
  - destruct Again as (q' & s' & -> & Hq' & Hre). cbn [mbind outcome_bind].
    assert (Hok' : slots_ok s') by (intros x sl Hx Ex; rewrite (relinked_cores _ _ Hre) in Ex by done; by eapply Hok).
    destruct (IH s' q' (l ++ [r]) (RunQueueSpec.re_wf _ _ Hre) Hok' Hq') as [(s2 & q2 & l2 & E2 & ? & ?)|(task & s2 & q2 & l2 & r2 & sl2 & E2 & ? & ? & Hc & ?)].
    + left. exists s2, q2, l2. split_and!; [done|done|by eapply relinked_trans].
    + right. exists task, s2, q2, l2, r2, sl2. split_and!; try done; [|by eapply stolen_relinked]. rewrite Hc. apply Hre.
Qed.

(** Whatever a request is answered with, the slab has kept its tasks but for
    the one that left. *)
Lemma serve_steal_spec s fwd q l request :
  open_wf p s -> slots_ok s -> queued s q l -> length (ForwardTable.entries fwd) = length (Slab.slots s) ->
  (exists s' q' l', Victim.serve_steal w s fwd origins q request = Ret (Declined (dest request), s', fwd, q') /\ queued s' q' l' /\ RunQueueSpec.relinked s s') \/
  exists task s' fwd' q' l' r sl, Victim.serve_steal w s fwd origins q request = Ret (Delivered (dest request) w task, s', fwd', q') /\
    ForwardTable.record fwd (TaskRef.key r) (dest request) = Ret fwd' /\ queued s' q' l' /\ open_wf p s' /\
    length (Slab.slots s') = length (Slab.slots s) /\ stolen s s' task r sl.
Proof.
  intros W Hok Hq Hlen. unfold Victim.serve_steal. destruct (SlabOps.iter_spec s (proj1 W)) as (rs & -> & _ & _ & Hrs). cbn [mbind outcome_bind].
  assert (Rec : forall s' task r sl, stolen s s' task r sl -> exists fwd', ForwardTable.record fwd (victim_key task) (dest request) = Ret fwd' /\
    ForwardTable.record fwd (TaskRef.key r) (dest request) = Ret fwd').
  { intros s' task r sl Hs. rewrite (so_key _ _ _ _ _ Hs). destruct (cores_open _ _ _ (so_at _ _ _ _ _ Hs)) as (v & E & _).
    destruct (ref_keyed w r (so_ref _ _ _ _ _ Hs)) as (i & g & K). pose proof (slab_view_range _ _ _ (open_view w _ _ _ _ _ K E)) as Hi.
    unfold ForwardTable.record. fold (SlabSpec.key_index (TaskRef.key r)). rewrite (k_index _ _ _ _ K).
    destruct (lookup_lt_is_Some_2 (ForwardTable.entries fwd) i) as [x ->]; [lia|]. by eexists. }
  destruct (sleeping_pass_spec rs s W Hok) as [->|(task & s' & r & sl & -> & W' & Hc & Hs & Hsl & Ho)].
  - intros key v Hkv. apply Hrs in Hkv as (i & g & Hv & ->). destruct (view_ref w Hw s i g v (proj1 W) Hv) as (Hr & _ & Hk & E).
    eexists. split_and!; [exact Hr|by rewrite Hk|done].
  - cbn [mbind outcome_bind]. destruct (woken_pass_spec (Z.to_nat (RunQueue.len q)) s q l W Hok Hq)
      as [(s' & q' & l' & -> & ? & ?)|(task & s' & q' & l' & r & sl & -> & ? & ? & ? & Hs)]; cbn [mbind outcome_bind].
    + left. by exists s', q', l'.
    + destruct (Rec _ _ _ _ Hs) as (fwd' & -> & Hf). cbn [mbind outcome_bind]. right. by exists task, s', fwd', q', l', r, sl.
  - cbn [mbind outcome_bind]. destruct (Rec _ _ _ _ Hs) as (fwd' & -> & Hf). cbn [mbind outcome_bind]. right.
    exists task, s', fwd', q, l, r, sl. split_and!; try done. pose proof (RunQueueSpec.q_refs _ _ _ (qd_holds _ _ _ Hq)) as Hrefs. rewrite Forall_forall in Hrefs.
    assert (Hni : r ∉ l) by (intros Hin; destruct (qd_state _ _ _ Hq r sl Hin (so_at _ _ _ _ _ Hs)) as [Hn _]; exact (Hn Hsl)). split.
    + eapply RunQueueSpec.queue_holds_frame; [apply Hq|]. intros x vx Hx Ex. exists vx. split; [|done]. change (open_at s' x = Some vx).
      rewrite Ho; [done|auto|by intros ->].
    + intros x slx Hx Ex. rewrite (so_after _ _ _ _ _ Hs), decide_False in Ex; [|by intros ->|auto]. by apply (qd_state _ _ _ Hq x).
Qed.
End serve.
End StealSpec.

(** ** Gathering what a table of lists holds *)

Module Gather.
Import Tally.

Section gather.
Context {A B : Type} `{EqDecision B} (f : nat -> A -> list B).

Fixpoint gather_from (i : nat) (l : list A) : list B :=
  match l with [] => [] | x :: l => f i x ++ gather_from (S i) l end.
Definition gather (l : list A) : list B := gather_from 0 l.

Lemma gather_from_insert l k i x y : l !! i = Some x -> gather_from k (<[i:=y]> l) ++ f (k + i) x ≡ₚ gather_from k l ++ f (k + i) y.
Proof.
  revert k i. induction l as [|z l IH]; intros k i; [done|]. destruct i as [|i].
  - intros [= ->]. rewrite Nat.add_0_r. cbn. tally.
  - intros H. change (<[S i:=y]> (z :: l)) with (z :: <[i:=y]> l). cbn [gather_from]. specialize (IH (S k) i H). rewrite Nat.add_succ_comm in IH. tally IH.
Qed.

Lemma gather_insert l i x y : l !! i = Some x -> gather (<[i:=y]> l) ++ f i x ≡ₚ gather l ++ f i y.
Proof. apply (gather_from_insert l 0). Qed.

Lemma gather_from_elem l k b : b ∈ gather_from k l <-> exists i x, l !! i = Some x /\ b ∈ f (k + i) x.
Proof.
  revert k. induction l as [|z l IH]; intros k; cbn.
  - split; [by intros ?%elem_of_nil|]. intros (i & x & H & _). by rewrite lookup_nil in H.
  - rewrite elem_of_app, IH. split.
    + intros [H|(i & x & H & Hb)]; [exists 0%nat, z; rewrite Nat.add_0_r; done|exists (S i), x; rewrite <- Nat.add_succ_comm; done].
    + intros ([|i] & x & H & Hb); cbn in H; [left; rewrite Nat.add_0_r in Hb; naive_solver|right; exists i, x; rewrite Nat.add_succ_comm; done].
Qed.

Lemma gather_elem l b : b ∈ gather l <-> exists i x, l !! i = Some x /\ b ∈ f i x.
Proof. apply (gather_from_elem l 0). Qed.

Lemma gather_replicate n x : (forall i, f i x = []) -> gather (replicate n x) = [].
Proof.
  intros H. unfold gather. generalize 0%nat. induction n as [|n IH]; intros k; [done|]. cbn. by rewrite H, IH.
Qed.
End gather.
End Gather.

(** ** The crew *)

Module StealNet.
Import TaskSlot Relocate StealRings DriveSteal StealSpec Gather Tally.

Record net : Type := mkNet { ws : list shard; rs : rings }.

(** One step of one worker, or a wake from outside the crew.  A loop is the
    sequence of its turns, the settle report that of its indices. *)
Inductive op : Type :=
| Steal (t : nat) (lead workers : Z)
| Serve (v : nat)
| Receive (t : nat)
| Report (t : nat) (index : nat)
| Note (v : nat)
| Wake (v : nat)
| Enqueue (task_ref : Z).

Definition at_worker (i : nat) (f : shard -> rings -> outcome (shard * rings)) (n : net) : outcome net :=
  match ws n !! i with
  | None => Panic
  | Some sh => '(sh, r) ← f sh (rs n); Ret (mkNet (<[i:=sh]> (ws n)) r)
  end.

Definition one (turn : shard -> rings -> outcome (bool * shard * rings)) (sh : shard) (r : rings) : outcome (shard * rings) :=
  '(_, sh, r) ← turn sh r; Ret (sh, r).

Definition report_one (index : nat) (sh : shard) (r : rings) : outcome (shard * rings) :=
  '(tasks, origins, r) ← Thief.report_from report_note [Z.of_nat index] (tasks sh) (origins sh) r;
  Ret (set_origins origins (set_tasks tasks sh), r).

Definition exec (n : net) (o : op) : outcome net :=
  match o with
  | Steal t lead workers => at_worker t (fun sh r => try_steal sh r lead workers) n
  | Serve v => at_worker v serve_steals n
  | Receive t => at_worker t (one receive_one) n
  | Report t index => at_worker t (report_one index) n
  | Note v => at_worker v (one note_one) n
  | Wake v => at_worker v (one wake_one) n
  | Enqueue task_ref => '(pushed, r) ← enqueue task_ref (rs n); Ret (mkNet (ws n) (if pushed : bool then signal (TaskRef.worker_id task_ref) r else r))
  end.

(** *** Where the bodies are *)

Definition home (o : ForwardOrigin.Origin) : Z := TaskRef.from_slab (ForwardOrigin.victim_id o) (ForwardOrigin.victim_key o).

Definition msg_home (m : HandoffMsg) : list Z :=
  match m with Delivered _ victim task => [TaskRef.from_slab victim (victim_key task)] | Declined _ => [] end.
Definition msg_dest (m : HandoffMsg) : Z := match m with Delivered dest _ _ | Declined dest => dest end.

(** The homes of the bodies in transport, of those hosted by a worker, and of
    those settled whose note is still on its way. *)
Definition transit (r : rings) : list Z := gather (fun _ q => gather (fun _ => msg_home) q) (handoffs r).
Definition hosted_in (sh : shard) : list Z := gather (fun _ o => option_list (home <$> o)) (ForwardOrigin.entries (origins sh)).
Definition hosted (l : list shard) : list Z := gather (fun _ => hosted_in) l.
Definition noted (r : rings) : list Z :=
  gather (fun v q => (fun note => TaskRef.from_slab (Z.of_nat v) (note_key note)) <$> q) (settled_notes r).

Definition carriers (n : net) : list Z := transit (rs n) ++ hosted (ws n) ++ noted (rs n).

(** The destinations promised by worker [t] and not yet answered. *)
Definition asks (r : rings) (t : nat) : list Z :=
  gather (fun _ q => dest <$> filter (fun x => thief_id x = Z.of_nat t) q) (steal_requests r)
  ++ (msg_dest <$> default [] (handoffs r !! t)).

(** Worker [w] holds the unsettled husk [r] of the task [pip]. *)
Definition husk_in (w : nat) (sh : shard) (r pip : Z) : Prop :=
  ref_of (Z.of_nat w) r /\ exists sl, cores (tasks sh) r = Some sl /\ st_ok sl TaskState.Retired /\
    is_remote_settled sl = false /\ TaskSlot.pip sl = pip.

(** ... and knows it went to [d]. *)
Definition route_in (w : nat) (sh : shard) (r d pip : Z) : Prop :=
  husk_in w sh r pip /\ ForwardTable.lookup (forward sh) (TaskRef.key r) = Some d.

(** Slot [i] of worker [w] holds the live task [pip] under the reference [d]. *)
Definition host_in (w : nat) (sh : shard) (i : nat) (d pip : Z) : Prop :=
  ref_of (Z.of_nat w) d /\ TaskRef.index d = Z.of_nat i /\
  exists sl, cores (tasks sh) d = Some sl /\ ~ st_ok sl TaskState.Retired /\ TaskSlot.pip sl = pip.

(** The origin [v], [k] is the slot its reference names. *)
Definition homed (v k : Z) : Prop := TaskRef.key (TaskRef.from_slab v k) = k /\ TaskRef.worker_id (TaskRef.from_slab v k) = v.

Definition husked (n : net) (r pip : Z) : Prop := exists w sh, ws n !! w = Some sh /\ husk_in w sh r pip.
Definition routed (n : net) (r d pip : Z) : Prop := exists w sh, ws n !! w = Some sh /\ route_in w sh r d pip.

(** *** The invariant *)

Record shard_ok (w : nat) (sh : shard) : Prop := {
  sk_id : id sh = Z.of_nat w;
  sk_wf : open_wf (pending_steal sh) (tasks sh);
  sk_slots : slots_ok (Z.of_nat w) (tasks sh);
  sk_queue : exists l, queued (Z.of_nat w) None (origins sh) (tasks sh) (run_queue sh) l;
  sk_fwd : length (ForwardTable.entries (forward sh)) = length (Slab.slots (tasks sh));
  sk_org : length (ForwardOrigin.entries (origins sh)) = length (Slab.slots (tasks sh));
  sk_refs i e : ForwardTable.entries (forward sh) !! i = Some (Some e) -> exists t, ref_of t (ForwardTable.new_ref e);
  sk_pending k : pending_steal sh = Some k -> ref_of (Z.of_nat w) (TaskRef.from_slab (Z.of_nat w) k) /\ TaskRef.key (TaskRef.from_slab (Z.of_nat w) k) = k;
  sk_cursor : 0 <= steal_cursor sh < 128;
}.

Record rings_ok (r : rings) : Prop := {
  rk_inboxes : length (inboxes r) = Z.to_nat INBOX_SLOTS;
  rk_requests : length (steal_requests r) = Z.to_nat INBOX_SLOTS;
  rk_handoffs : length (handoffs r) = Z.to_nat INBOX_SLOTS;
  rk_notes : length (settled_notes r) = Z.to_nat INBOX_SLOTS;
}.

Definition promise (w : nat) (sh : shard) : list Z := option_list (TaskRef.from_slab (Z.of_nat w) <$> pending_steal sh).

Record inv (n : net) : Prop := {
  iv_size : Z.of_nat (length (ws n)) <= INBOX_SLOTS;
  iv_rings : rings_ok (rs n);
  iv_shards w sh : ws n !! w = Some sh -> shard_ok w sh;
  iv_once : NoDup (carriers n);
  iv_cover r pip : husked n r pip -> r ∈ carriers n;
  iv_asks t sh : ws n !! t = Some sh -> asks (rs n) t ≡ₚ promise t sh;
  iv_reqs v q x : steal_requests (rs n) !! v = Some q -> x ∈ q ->
    exists t, thief_id x = Z.of_nat t /\ is_Some (ws n !! t) /\ ref_of (Z.of_nat t) (dest x);
  iv_msgs t q d v task : handoffs (rs n) !! t = Some q -> Delivered d v task ∈ q ->
    st_ok (body task) TaskState.Sleeping /\ homed v (victim_key task) /\ routed n (TaskRef.from_slab v (victim_key task)) d (pip (body task));
  iv_hosts t sh i o : ws n !! t = Some sh -> ForwardOrigin.entries (origins sh) !! i = Some (Some o) ->
    exists d pip, host_in t sh i d pip /\ homed (ForwardOrigin.victim_id o) (ForwardOrigin.victim_key o) /\ routed n (home o) d pip;
  iv_notes v q note : settled_notes (rs n) !! v = Some q -> note ∈ q ->
    exists sh pip, ws n !! v = Some sh /\ TaskRef.key (TaskRef.from_slab (Z.of_nat v) (note_key note)) = note_key note /\
      husk_in v sh (TaskRef.from_slab (Z.of_nat v) (note_key note)) pip;
  iv_inbox v q r : inboxes (rs n) !! v = Some q -> r ∈ q -> ref_of (Z.of_nat v) r;
}.

(** *** Accounting of the rings *)

Definition only {A} (b : bool) (x : A) : list A := if b then [x] else [].

Lemma push_at_spec {A} cap (i : nat) (x : A) tbl q : tbl !! i = Some q ->
  push_at cap (Z.of_nat i) x tbl = if Z.of_nat (length q) <? cap then Ret (true, <[i := q ++ [x]]> tbl) else Ret (false, tbl).
Proof. intros H. unfold push_at. by rewrite Nat2Z.id, H. Qed.

Lemma pop_at_spec {A} (i : nat) (tbl : list (list A)) q : tbl !! i = Some q ->
  pop_at (Z.of_nat i) tbl = Ret (match q with [] => (None, tbl) | x :: q => (Some x, <[i := q]> tbl) end).
Proof. intros H. unfold pop_at. rewrite Nat2Z.id, H. by destruct q. Qed.

(** Members after a push are old ones or the new one. *)
Lemma push_elem {A} (tbl : list (list A)) i q x v q' y :
  tbl !! i = Some q -> <[i := q ++ [x]]> tbl !! v = Some q' -> y ∈ q' -> (exists q, tbl !! v = Some q /\ y ∈ q) \/ (v = i /\ y = x).
Proof.
  intros Hi Hv Hy. destruct (decide (v = i)) as [-> |Hne].
  - rewrite list_lookup_insert_eq in Hv by by eapply lookup_lt_Some. injection Hv as <-. apply elem_of_app in Hy as [Hy|Hy%list_elem_of_singleton]; eauto.
  - rewrite list_lookup_insert_ne in Hv by done. eauto.
Qed.

Lemma pop_elem {A} (tbl : list (list A)) i x q v q' y :
  tbl !! i = Some (x :: q) -> <[i := q]> tbl !! v = Some q' -> y ∈ q' -> exists q, tbl !! v = Some q /\ y ∈ q.
Proof.
  intros Hi Hv Hy. destruct (decide (v = i)) as [-> |Hne].
  - rewrite list_lookup_insert_eq in Hv by by eapply lookup_lt_Some. injection Hv as <-. exists (x :: q). set_solver.
  - rewrite list_lookup_insert_ne in Hv by done. eauto.
Qed.

Lemma filter_only (t : nat) (x : StealRequest) : dest <$> filter (fun x => thief_id x = Z.of_nat t) [x] = only (bool_decide (thief_id x = Z.of_nat t)) (dest x).
Proof. rewrite filter_cons, filter_nil. case_bool_decide; [rewrite decide_True by done|rewrite decide_False by done]; done. Qed.

Lemma asks_push_request r t v q x : steal_requests r !! v = Some q ->
  asks (set_requests (<[v := q ++ [x]]> (steal_requests r)) r) t ≡ₚ asks r t ++ only (bool_decide (thief_id x = Z.of_nat t)) (dest x).
Proof.
  intros H. unfold asks. cbn [steal_requests set_requests handoffs].
  pose proof (gather_insert (fun (_ : nat) q => dest <$> filter (fun x => thief_id x = Z.of_nat t) q) _ v q (q ++ [x]) H) as G. cbv beta in G.
  rewrite filter_app, fmap_app, filter_only in G. tally G.
Qed.

Lemma asks_pop_request r t v q x : steal_requests r !! v = Some (x :: q) ->
  asks (set_requests (<[v := q]> (steal_requests r)) r) t ++ only (bool_decide (thief_id x = Z.of_nat t)) (dest x) ≡ₚ asks r t.
Proof.
  intros H. unfold asks. cbn [steal_requests set_requests handoffs].
  pose proof (gather_insert (fun (_ : nat) q => dest <$> filter (fun x => thief_id x = Z.of_nat t) q) _ v (x :: q) q H) as G. cbv beta in G.
  change (x :: q) with ([x] ++ q) in G. rewrite filter_app, fmap_app, filter_only in G. tally G.
Qed.

Lemma asks_push_handoff r t u q m : handoffs r !! u = Some q ->
  asks (set_handoffs (<[u := q ++ [m]]> (handoffs r)) r) t ≡ₚ asks r t ++ only (bool_decide (u = t)) (msg_dest m).
Proof.
  intros H. unfold asks. cbn [steal_requests set_handoffs handoffs]. case_bool_decide as E; cbn [only].
  - subst u. rewrite list_lookup_insert_eq by by eapply lookup_lt_Some. rewrite H. change (default [] (Some (q ++ [m]))) with (q ++ [m]). rewrite fmap_app, app_assoc. done.
  - rewrite list_lookup_insert_ne by done. by rewrite app_nil_r.
Qed.

Lemma asks_pop_handoff r t u q m : handoffs r !! u = Some (m :: q) ->
  asks (set_handoffs (<[u := q]> (handoffs r)) r) t ++ only (bool_decide (u = t)) (msg_dest m) ≡ₚ asks r t.
Proof.
  intros H. unfold asks. cbn [steal_requests set_handoffs handoffs]. case_bool_decide as E; cbn [only].
  - subst u. rewrite list_lookup_insert_eq by by eapply lookup_lt_Some. rewrite H. change (default [] (Some (m :: q))) with ([m] ++ q). change (default [] (Some q)) with q. rewrite fmap_app. cbn [fmap list_fmap]. tally.
  - rewrite list_lookup_insert_ne by done. by rewrite app_nil_r.
Qed.

Lemma gather_snoc {A} (f : A -> list Z) (q : list A) x : gather (fun _ => f) (q ++ [x]) = gather (fun _ => f) q ++ f x.
Proof.
  unfold gather. generalize 0%nat. induction q as [|y q IH]; intros k; cbn; [by rewrite app_nil_r|]. by rewrite IH, app_assoc.
Qed.

Lemma gather_cons {A} (f : A -> list Z) (q : list A) x : gather (fun _ => f) (x :: q) = f x ++ gather (fun _ => f) q.
Proof.
  unfold gather. cbn. f_equal. generalize 0%nat, 1%nat. induction q as [|y q IH]; intros k j; cbn; [done|]. by rewrite (IH (S k) (S j)).
Qed.

Lemma transit_push r u q m : handoffs r !! u = Some q -> transit (set_handoffs (<[u := q ++ [m]]> (handoffs r)) r) ≡ₚ transit r ++ msg_home m.
Proof.
  intros H. unfold transit. cbn [handoffs set_handoffs]. pose proof (gather_insert (fun _ q => gather (fun _ => msg_home) q) _ u q (q ++ [m]) H) as G.
  cbv beta in G. rewrite gather_snoc in G. tally G.
Qed.

Lemma transit_pop r u q m : handoffs r !! u = Some (m :: q) -> transit (set_handoffs (<[u := q]> (handoffs r)) r) ++ msg_home m ≡ₚ transit r.
Proof.
  intros H. unfold transit. cbn [handoffs set_handoffs]. pose proof (gather_insert (fun _ q => gather (fun _ => msg_home) q) _ u (m :: q) q H) as G.
  cbv beta in G. rewrite gather_cons in G. tally G.
Qed.

Lemma noted_push r v q x : settled_notes r !! v = Some q ->
  noted (set_notes (<[v := q ++ [x]]> (settled_notes r)) r) ≡ₚ noted r ++ [TaskRef.from_slab (Z.of_nat v) (note_key x)].
Proof.
  intros H. unfold noted. cbn [settled_notes set_notes].
  pose proof (gather_insert (fun v q => (fun note => TaskRef.from_slab (Z.of_nat v) (note_key note)) <$> q) _ v q (q ++ [x]) H) as G.
  cbv beta in G. rewrite fmap_app in G. cbn [fmap list_fmap] in G. tally G.
Qed.

Lemma noted_pop r v q x : settled_notes r !! v = Some (x :: q) ->
  noted (set_notes (<[v := q]> (settled_notes r)) r) ++ [TaskRef.from_slab (Z.of_nat v) (note_key x)] ≡ₚ noted r.
Proof.
  intros H. unfold noted. cbn [settled_notes set_notes].
  pose proof (gather_insert (fun v q => (fun note => TaskRef.from_slab (Z.of_nat v) (note_key note)) <$> q) _ v (x :: q) q H) as G.
  cbv beta in G. cbn [fmap list_fmap] in G. tally G.
Qed.

Lemma hosted_set l w sh sh' : l !! w = Some sh -> hosted (<[w := sh']> l) ++ hosted_in sh ≡ₚ hosted l ++ hosted_in sh'.
Proof. intros H. exact (gather_insert (fun _ => hosted_in) l w sh sh' H). Qed.

Lemma hosted_in_set sh i o o' : ForwardOrigin.entries (origins sh) !! i = Some o ->
  hosted_in (set_origins (ForwardOrigin.mkTable (<[i := o']> (ForwardOrigin.entries (origins sh)))) sh) ++ option_list (home <$> o)
  ≡ₚ hosted_in sh ++ option_list (home <$> o').
Proof. intros H. exact (gather_insert (fun _ o => option_list (home <$> o)) _ i o o' H). Qed.

(** Membership, spelled out. *)
Lemma elem_transit r x : x ∈ transit r <-> exists t q d v task, handoffs r !! t = Some q /\ Delivered d v task ∈ q /\ x = TaskRef.from_slab v (victim_key task).
Proof.
  unfold transit. rewrite gather_elem. split.
  - intros (t & q & Hq & (i & m & Hm & Hx)%gather_elem). destruct m as [d v task|d]; cbn in Hx; [|by apply elem_of_nil in Hx].
    apply list_elem_of_singleton in Hx. exists t, q, d, v, task. split_and!; [done|by eapply list_elem_of_lookup_2|done].
  - intros (t & q & d & v & task & Hq & (i & Hm)%list_elem_of_lookup & ->). exists t, q. split; [done|]. apply gather_elem. exists i, (Delivered d v task).
    split; [done|]. cbn. set_solver.
Qed.

Lemma elem_hosted_in sh x : x ∈ hosted_in sh <-> exists i o, ForwardOrigin.entries (origins sh) !! i = Some (Some o) /\ x = home o.
Proof.
  unfold hosted_in. rewrite gather_elem. split.
  - intros (i & [o|] & Ho & Hx); cbn in Hx; [|by apply elem_of_nil in Hx]. apply list_elem_of_singleton in Hx. eauto.
  - intros (i & o & Ho & ->). exists i, (Some o). split; [done|]. cbn. set_solver.
Qed.

Lemma elem_hosted l x : x ∈ hosted l <-> exists t sh i o, l !! t = Some sh /\ ForwardOrigin.entries (origins sh) !! i = Some (Some o) /\ x = home o.
Proof.
  unfold hosted. rewrite gather_elem. split.
  - intros (t & sh & Ht & (i & o & Ho & ->)%elem_hosted_in). by exists t, sh, i, o.
  - intros (t & sh & i & o & Ht & Ho & ->). exists t, sh. split; [done|]. apply elem_hosted_in. eauto.
Qed.

Lemma elem_noted r x : x ∈ noted r <-> exists v q note, settled_notes r !! v = Some q /\ note ∈ q /\ x = TaskRef.from_slab (Z.of_nat v) (note_key note).
Proof.
  unfold noted. rewrite gather_elem. split.
  - intros (v & q & Hq & (note & -> & Hn)%list_elem_of_fmap). by exists v, q, note.
  - intros (v & q & note & Hq & Hn & ->). exists v, q. split; [done|]. apply list_elem_of_fmap. eauto.
Qed.

(** *** What a step has to show *)

(** Worker [w] kept its husks, their routes and the residents it hosts, but
    for the husks [x]. *)
Record keeps (x : Z -> Prop) (w : nat) (sh sh' : shard) : Prop := {
  kp_husk r pip : ~ x r -> husk_in w sh' r pip <-> husk_in w sh r pip;
  kp_route r d pip : ~ x r -> route_in w sh r d pip -> route_in w sh' r d pip;
  kp_host i d pip o : ForwardOrigin.entries (origins sh') !! i = Some (Some o) ->
    ForwardOrigin.entries (origins sh) !! i = Some (Some o) -> host_in w sh i d pip -> host_in w sh' i d pip;
}.

Definition none (r : Z) : Prop := False.

Lemma not_none r : ~ none r.
Proof. by intros []. Qed.
#[local] Hint Resolve not_none : core.

Lemma set_lookup (l : list shard) w sh sh' t sht : l !! w = Some sh -> <[w := sh']> l !! t = Some sht ->
  (t = w /\ sht = sh') \/ (t <> w /\ l !! t = Some sht).
Proof.
  intros H Ht. destruct (decide (t = w)) as [-> |Hne].
  - rewrite list_lookup_insert_eq in Ht by by eapply lookup_lt_Some. injection Ht as <-. by left.
  - rewrite list_lookup_insert_ne in Ht by done. by right.
Qed.

Lemma husked_set n w sh sh' r' x r pip : ws n !! w = Some sh -> keeps x w sh sh' -> ~ x r ->
  husked (mkNet (<[w := sh']> (ws n)) r') r pip -> husked n r pip.
Proof.
  intros Hw K Hx (t & sht & Ht & Hh). cbn in Ht. apply (set_lookup _ _ sh) in Ht as [[-> ->]|[_ Ht]]; [|by exists t, sht|done].
  exists w, sh. split; [done|]. by apply (kp_husk _ _ _ _ K).
Qed.

Lemma set_lookup_self (l : list shard) w sh sh' : l !! w = Some sh -> <[w := sh']> l !! w = Some sh'.
Proof. intros H. apply list_lookup_insert_eq. by eapply lookup_lt_Some. Qed.

Lemma routed_set n w sh sh' r' x r d pip : ws n !! w = Some sh -> keeps x w sh sh' -> ~ x r ->
  routed n r d pip -> routed (mkNet (<[w := sh']> (ws n)) r') r d pip.
Proof.
  intros Hw K Hx (t & sht & Ht & Hh). destruct (decide (t = w)) as [-> |Hne].
  - rewrite Ht in Hw. injection Hw as ->. exists w, sh'. cbn. split; [by eapply set_lookup_self|]. by apply (kp_route _ _ _ _ K).
  - exists t, sht. cbn. by rewrite list_lookup_insert_ne.
Qed.

Lemma routed_husked n r d pip : routed n r d pip -> husked n r pip.
Proof. intros (w & sh & H & [Hh _]). by exists w, sh. Qed.

(** A carrier carries for a husk. *)
Lemma carrier_husked n r : inv n -> r ∈ carriers n -> exists pip, husked n r pip.
Proof.
  intros I. unfold carriers. rewrite !elem_of_app. intros [H|[H|H]].
  - apply elem_transit in H as (t & q & d & v & task & Hq & Hm & ->). destruct (iv_msgs n I _ _ _ _ _ Hq Hm) as (_ & _ & Hr).
    eexists. by eapply routed_husked.
  - apply elem_hosted in H as (t & sh & i & o & Ht & Ho & ->). destruct (iv_hosts n I _ _ _ _ Ht Ho) as (d & pip & _ & _ & Hr).
    eexists. by eapply routed_husked.
  - apply elem_noted in H as (v & q & note & Hq & Hn & ->). destruct (iv_notes n I _ _ _ Hq Hn) as (sh & pip & Hv & _ & Hh). by exists pip, v, sh.
Qed.

Lemma inv_step n w sh sh' r' x :
  let n' := mkNet (<[w := sh']> (ws n)) r' in
  inv n -> ws n !! w = Some sh -> shard_ok w sh' -> rings_ok r' -> keeps x w sh sh' ->
  (forall r, x r -> r ∉ transit (rs n) /\ r ∉ hosted (ws n)) ->
  NoDup (carriers n') ->
  (forall r, ~ x r -> r ∈ carriers n -> r ∈ carriers n') ->
  (forall r pip, x r -> husked n' r pip -> r ∈ carriers n') ->
  (forall t sht, ws n' !! t = Some sht -> asks r' t ≡ₚ promise t sht) ->
  (forall v q y, steal_requests r' !! v = Some q -> y ∈ q ->
     (exists q, steal_requests (rs n) !! v = Some q /\ y ∈ q) \/
     exists t, thief_id y = Z.of_nat t /\ is_Some (ws n !! t) /\ ref_of (Z.of_nat t) (dest y)) ->
  (forall t q d v task, handoffs r' !! t = Some q -> Delivered d v task ∈ q ->
     (exists q, handoffs (rs n) !! t = Some q /\ Delivered d v task ∈ q) \/
     st_ok (body task) TaskState.Sleeping /\ homed v (victim_key task) /\ routed n' (TaskRef.from_slab v (victim_key task)) d (pip (body task))) ->
  (forall i o, ForwardOrigin.entries (origins sh') !! i = Some (Some o) ->
     ForwardOrigin.entries (origins sh) !! i = Some (Some o) \/
     exists d pip, host_in w sh' i d pip /\ homed (ForwardOrigin.victim_id o) (ForwardOrigin.victim_key o) /\ routed n' (home o) d pip) ->
  (forall v q note, settled_notes r' !! v = Some q -> note ∈ q ->
     (exists q, settled_notes (rs n) !! v = Some q /\ note ∈ q) /\ ~ x (TaskRef.from_slab (Z.of_nat v) (note_key note)) \/
     TaskRef.key (TaskRef.from_slab (Z.of_nat v) (note_key note)) = note_key note /\
     exists d pip, routed n (TaskRef.from_slab (Z.of_nat v) (note_key note)) d pip /\ ~ x (TaskRef.from_slab (Z.of_nat v) (note_key note)) /\
       ref_of (Z.of_nat v) (TaskRef.from_slab (Z.of_nat v) (note_key note))) ->
  (forall v q r, inboxes r' !! v = Some q -> r ∈ q -> (exists q, inboxes (rs n) !! v = Some q /\ r ∈ q) \/ ref_of (Z.of_nat v) r) ->
  inv n'.
Proof.
  intros n' I Hw Hsh Hr K Hx Hnd Hin Hnew Hasks Hreq Hmsg Hhost Hnote Hbox.
  assert (Hsz : length (ws n') = length (ws n)) by (cbn; by rewrite length_insert).
  assert (Hsome : forall t, is_Some (ws n !! t) -> is_Some (ws n' !! t)) by (intros t Ht; apply lookup_lt_is_Some; rewrite Hsz; by apply lookup_lt_is_Some).
  assert (Hdec : forall t sht, ws n' !! t = Some sht -> (t = w /\ sht = sh') \/ (t <> w /\ ws n !! t = Some sht)) by (intros; by eapply set_lookup).
  split.
  - rewrite Hsz. apply I.
  - done.
  - intros t sht Ht. destruct (Hdec _ _ Ht) as [[-> ->]|[_ Ht']]; [done|by apply I].
  - done.
  - intros r pip Hh. destruct (decide (r ∈ carriers n')) as [|Hni]; [done|]. assert (Hnx : ~ x r) by (intros Hxr; apply Hni; eauto).
    apply Hin; [done|]. eapply (iv_cover n I). by eapply husked_set.
  - done.
  - intros v q y Hq Hy. destruct (Hreq _ _ _ Hq Hy) as [(q0 & Hq0 & Hy0)|(t & ? & ? & ?)]; [|exists t; auto].
    destruct (iv_reqs n I _ _ _ Hq0 Hy0) as (t & ? & ? & ?). exists t; auto.
  - intros t q d v task Hq Hm. destruct (Hmsg _ _ _ _ _ Hq Hm) as [(q0 & Hq0 & Hm0)|]; [|done].
    destruct (iv_msgs n I _ _ _ _ _ Hq0 Hm0) as (Hb & Hhm & Hro). split; [done|]. split; [done|]. eapply routed_set; [done|done| |done].
    intros Hxx. destruct (Hx _ Hxx) as [Hnt _]. apply Hnt, elem_transit. by exists t, q0, d, v, task.
  - intros t sht i o Ht Ho. destruct (Hdec _ _ Ht) as [[-> ->]|[Hne Ht']].
    + destruct (Hhost _ _ Ho) as [Ho0|]; [|done]. destruct (iv_hosts n I _ _ _ _ Hw Ho0) as (d & pip & Hh & Hhm & Hro). exists d, pip. split_and!; [|done|].
      * by eapply (kp_host _ _ _ _ K).
      * eapply routed_set; [done|done| |done]. intros Hxx. destruct (Hx _ Hxx) as [_ Hnt]. apply Hnt, elem_hosted. by exists w, sh, i, o.
    + destruct (iv_hosts n I _ _ _ _ Ht' Ho) as (d & pip & Hh & Hhm & Hro). exists d, pip. split; [done|]. split; [done|].
      eapply routed_set; [done|done| |done]. intros Hxx. destruct (Hx _ Hxx) as [_ Hnt]. apply Hnt, elem_hosted. by exists t, sht, i, o.
  - intros v q note Hq Hn. destruct (Hnote _ _ _ Hq Hn) as [((q0 & Hq0 & Hn0) & Hnx)|(Hk & d & pip & (t & sht & Ht & [Hh Hl]) & Hnx & Href)].
    + destruct (iv_notes n I _ _ _ Hq0 Hn0) as (shv & pip & Hv & Hk & Hh). destruct (decide (v = w)) as [-> |Hne].
      * rewrite Hw in Hv. injection Hv as <-. exists sh', pip. split; [by eapply set_lookup_self|]. split; [done|]. by apply (kp_husk _ _ _ _ K).
      * exists shv, pip. split; [|done]. cbn. by rewrite list_lookup_insert_ne.
    + assert (Htv : t = v).
      { destruct Hh as [H1 _]. pose proof Href as Href'. destruct Href as (Hw1 & _). pose proof H1 as (Hw2 & _).
        destruct (ref_key _ Hw2 _ H1) as (_ & _ & _ & E1). destruct (ref_key _ Hw1 _ Href') as (_ & _ & _ & E2). lia. }
      subst t. destruct (decide (v = w)) as [-> |Hne].
      * rewrite Hw in Ht. injection Ht as <-. exists sh', pip. split; [by eapply set_lookup_self|]. split; [done|]. by apply (kp_husk _ _ _ _ K).
      * exists sht, pip. split; [|done]. cbn. by rewrite list_lookup_insert_ne.
  - intros v q r Hq Hrq. destruct (Hbox _ _ _ Hq Hrq) as [(q0 & Hq0 & ?)|]; [by eapply (iv_inbox n I)|done].
Qed.

(** *** The steps *)

(** A slot did not change, or is a live one that kept its identity. *)
Definition calm (o o' : option slot) : Prop :=
  o' = o \/ exists v v', o = Some v /\ o' = Some v' /\ ~ st_ok v TaskState.Retired /\ ~ st_ok v' TaskState.Retired /\ TaskSlot.pip v' = TaskSlot.pip v.

Lemma keeps_calm w sh sh' :
  forward sh' = forward sh -> (forall r, ref_of (Z.of_nat w) r -> calm (cores (tasks sh) r) (cores (tasks sh') r)) -> keeps none w sh sh'.
Proof.
  intros Hf Hc. assert (Hh : forall r pip, husk_in w sh' r pip <-> husk_in w sh r pip).
  { intros r pip. unfold husk_in. split; intros [Hr (sl & E & Hs & ? & ?)]; (split; [done|]); destruct (Hc r Hr) as [Ec|(v & v' & E1 & E2 & N1 & N2 & _)];
      try congruence; exists sl; split_and!; congruence || done. }
  split.
  - intros r pip _. apply Hh.
  - intros r d pip _ [H1 H2]. split; [by apply Hh|]. by rewrite Hf.
  - intros i d pip o _ _ (Hd & Hi & sl & E & Hs & Hp). split; [done|]. split; [done|]. destruct (Hc d Hd) as [Ec|(v & v' & E1 & E2 & N1 & N2 & Hpp)].
    + exists sl. rewrite Ec. done.
    + exists v'. split_and!; [done|done|]. congruence.
Qed.

Lemma keeps_cores w sh sh' :
  forward sh' = forward sh -> (forall r, ref_of (Z.of_nat w) r -> cores (tasks sh') r = cores (tasks sh) r) -> keeps none w sh sh'.
Proof. intros Hf Hc. apply keeps_calm; [done|]. intros r Hr. left. by apply Hc. Qed.

Lemma slots_ok_calm w s s' :
  slots_ok (Z.of_nat w) s ->
  (forall r, ref_of (Z.of_nat w) r -> cores s' r = cores s r \/ forall v, cores s' r = Some v -> exists st, st_ok v st) ->
  slots_ok (Z.of_nat w) s'.
Proof. intros H Hc r v Hr E. destruct (Hc r Hr) as [E'|E']; [rewrite E' in E; by eapply H|by apply E']. Qed.

(** New tasks and queue in a shard. *)
Lemma shard_ok_set w sh s q :
  shard_ok w sh -> open_wf (pending_steal sh) s -> length (Slab.slots s) = length (Slab.slots (tasks sh)) ->
  slots_ok (Z.of_nat w) s -> (exists l, queued (Z.of_nat w) None (origins sh) s q l) -> shard_ok w (set_queue q (set_tasks s sh)).
Proof. intros [] W Hl Hs Hq. by split; cbn; try done; rewrite Hl. Qed.

Lemma queued_cores w p o o' s s' q l :
  queued (Z.of_nat w) p o s q l -> (forall r, r ∈ l -> open_at s' r = open_at s r) ->
  (forall r, r ∈ l -> ForwardOrigin.is_relocated o' (TaskRef.index r) = true -> ForwardOrigin.is_relocated o (TaskRef.index r) = true) ->
  queued (Z.of_nat w) p o' s' q l.
Proof.
  intros [H1 H2] E Eo. split.
  - eapply RunQueueSpec.queue_holds_frame; [exact H1|]. intros r v Hr Hv. exists v. split; [|done]. change (open_at s' r = Some v). by rewrite E.
  - intros r sl Hr Hc. destruct (H2 r sl Hr) as (A & B & C); [unfold cores in *; by rewrite <- E|]. split_and!; auto.
Qed.

Lemma queued_refs w p o s q l r : queued (Z.of_nat w) p o s q l -> r ∈ l -> ref_of (Z.of_nat w) r.
Proof. intros [H _] Hr. pose proof (RunQueueSpec.q_refs _ _ _ H) as Hf. rewrite Forall_forall in Hf. auto. Qed.

Lemma queued_at w p o s q l r : queued (Z.of_nat w) p o s q l -> r ∈ l -> is_Some (open_at s r).
Proof. intros [H _] Hr. exact (RunQueueSpec.linked_resolves _ _ _ (RunQueueSpec.q_links _ _ _ H) Hr). Qed.

(** The queue does not depend on the promise. *)
Lemma queued_any w p p' o s q l : queued w p o s q l -> queued w p' o s q l.
Proof. intros [[] ?]. split; [by split|done]. Qed.

Lemma wake_local_ok w sh r : shard_ok w sh -> ref_of (Z.of_nat w) r ->
  exists s q, wake_local sh r = Ret (set_queue q (set_tasks s sh)) /\ shard_ok w (set_queue q (set_tasks s sh)) /\
    keeps none w sh (set_queue q (set_tasks s sh)).
Proof.
  intros K Hr. pose proof K as [Hid W Hs [l Hq%(queued_any _ _ (pending_steal sh))] _ _ _ _ _]. unfold wake_local. rewrite Hid.
  pose proof (@RunQueueSpec.wake_local_spec (Z.of_nat w) _ (open_cells (Z.of_nat w) (pending_steal sh)) (tasks sh) (run_queue sh) l r W (qd_holds _ _ _ _ _ _ Hq) Hr) as H.
  change (@ts_at _ _ (open_cells (Z.of_nat w) (pending_steal sh)) (tasks sh) r) with (open_at (tasks sh) r) in H.
  change (@RunQueue.wake_local _ _ (open_cells (Z.of_nat w) None) (tasks sh) (run_queue sh) r)
    with (@RunQueue.wake_local _ _ (open_cells (Z.of_nat w) (pending_steal sh)) (tasks sh) (run_queue sh) r).
  destruct (open_at (tasks sh) r) as [v|] eqn:E.
  - destruct (slots_ok_at _ _ _ _ Hs Hr E) as (st & Hst). destruct (H st) as (q' & s' & -> & W' & Hc & Hh & Hcore); clear H.
    { destruct Hst as [-> _]. done. }
    { intros -> Hin. destruct (qd_state _ _ _ _ _ _ Hq r _ Hin (open_cores _ _ _ E)) as [Hn _]. by apply Hn. }
    exists s', q'. cbn [mbind outcome_bind]. split; [done|].
    assert (Hcr : forall r', ref_of (Z.of_nat w) r' -> cores s' r' = if decide (r' = r /\ st = TaskState.Sleeping)
      then Some (set_next_runnable None (set_state (TaskState.mkAtomic (TaskState.to_u8 TaskState.Woken) (TaskState.claim (state v))) v)) else cores (tasks sh) r')
      by exact Hcore. clear Hcore.
    assert (Hwk : st = TaskState.Sleeping -> st_ok (set_state (TaskState.mkAtomic (TaskState.to_u8 TaskState.Woken) (TaskState.claim (state v))) v) TaskState.Woken).
    { intros ->. destruct Hst as (Es & Hf & Hs'). rewrite Es. split; [done|]. split; [exact Hf|]. intros _. by apply Hs'. }
    assert (Hcalm : forall r', ref_of (Z.of_nat w) r' -> calm (cores (tasks sh) r') (cores s' r')).
    { intros r' Hr'. rewrite Hcr by done. destruct (decide (r' = r /\ st = TaskState.Sleeping)) as [[-> Hsl]|]; [|by left]. right. eexists _, _. rewrite (open_cores _ _ _ E). split_and!; try done.
      - intros Hn. by rewrite Hsl in Hst; pose proof (st_ok_inj _ _ _ Hst Hn).
      - intros Hn. by pose proof (st_ok_inj _ _ _ (Hwk Hsl) Hn). }
    split.
    + apply shard_ok_set; try done.
      * eapply slots_ok_calm; [done|]. intros r' Hr'. rewrite Hcr by done. destruct (decide (r' = r /\ st = TaskState.Sleeping)) as [[-> Hsl]|]; [|by left].
        right. intros v0 [= <-]. exists TaskState.Woken. by apply Hwk.
      * exists (if decide (st = TaskState.Sleeping) then l ++ [r] else l). apply (queued_any _ (pending_steal sh)). split; [exact Hh|]. intros x sl Hx Ex.
        assert (Hxr : ref_of (Z.of_nat w) x).
        { pose proof (RunQueueSpec.q_refs _ _ _ Hh) as Hf. rewrite Forall_forall in Hf. by apply Hf. }
        rewrite Hcr in Ex by done. destruct (decide (x = r /\ st = TaskState.Sleeping)) as [[-> Hsl]|Hn].
        -- injection Ex as <-. split_and!; [intros Hb; by pose proof (st_ok_inj _ _ _ (Hwk Hsl) Hb)|intros Hb; by pose proof (st_ok_inj _ _ _ (Hwk Hsl) Hb)|]. intros _. by apply Hwk.
        -- apply (qd_state _ _ _ _ _ _ Hq x); [|done]. destruct (decide (st = TaskState.Sleeping)); [|done]. apply elem_of_app in Hx as [?|?%list_elem_of_singleton]; [done|]. by destruct Hn.
    + by apply keeps_calm.
  - rewrite H. cbn [mbind outcome_bind]. eexists _, _. split; [done|]. destruct sh; cbn in *. split; [done|]. by apply keeps_cores.
Qed.

Lemma ring_slot {A} (tbl : list (list A)) n w sh : inv n -> ws n !! w = Some sh -> length tbl = Z.to_nat INBOX_SLOTS -> exists q, tbl !! w = Some q.
Proof.
  intros I Hw Hl. apply lookup_lt_is_Some_2. rewrite Hl. pose proof (iv_size n I). apply lookup_lt_Some in Hw. unfold INBOX_SLOTS in *. lia.
Qed.

Lemma worker_wf n w sh : inv n -> ws n !! w = Some sh -> WorkerId.wf (Z.of_nat w).
Proof.
  intros I Hw. pose proof (iv_size n I) as Hs. apply lookup_lt_Some in Hw. change INBOX_SLOTS with 128 in Hs.
  unfold WorkerId.wf, WorkerId.MAX, WorkerId.MAX_WORKERS. lia.
Qed.

(** A step that moves no body. *)
Lemma steal_quiet n w sh sh' r' :
  let n' := mkNet (<[w := sh']> (ws n)) r' in
  inv n -> ws n !! w = Some sh -> shard_ok w sh' -> rings_ok r' -> keeps none w sh sh' -> origins sh' = origins sh ->
  transit r' ≡ₚ transit (rs n) -> noted r' ≡ₚ noted (rs n) ->
  (forall t sht, ws n' !! t = Some sht -> asks r' t ≡ₚ promise t sht) ->
  (forall v q y, steal_requests r' !! v = Some q -> y ∈ q ->
     (exists q, steal_requests (rs n) !! v = Some q /\ y ∈ q) \/
     exists t, thief_id y = Z.of_nat t /\ is_Some (ws n !! t) /\ ref_of (Z.of_nat t) (dest y)) ->
  (forall t q d v task, handoffs r' !! t = Some q -> Delivered d v task ∈ q -> exists q, handoffs (rs n) !! t = Some q /\ Delivered d v task ∈ q) ->
  (forall v q note, settled_notes r' !! v = Some q -> note ∈ q -> exists q, settled_notes (rs n) !! v = Some q /\ note ∈ q) ->
  (forall v q r, inboxes r' !! v = Some q -> r ∈ q -> (exists q, inboxes (rs n) !! v = Some q /\ r ∈ q) \/ ref_of (Z.of_nat v) r) ->
  inv n'.
Proof.
  intros n' I Hw Hsh Hr K Ho Ht Hn Hasks Hreq Hmsg Hnote Hbox.
  assert (Hc : carriers n' ≡ₚ carriers n).
  { pose proof (hosted_set (ws n) w sh sh' Hw) as Hh. assert (hosted_in sh' = hosted_in sh) as E by (unfold hosted_in; by rewrite Ho). rewrite E in Hh.
    unfold carriers. cbn [ws rs n']. tally Hh Ht Hn. }
  eapply (inv_step n w sh sh' r' none); try done.
  - fold n'. rewrite Hc. apply I.
  - intros r _ Hin. fold n'. by rewrite Hc.
  - intros t q d v task Hq Hm. left. by eapply Hmsg.
  - intros j o Hj. left. by rewrite <- Ho.
  - intros v q note Hq Hm. left. split; [by eapply Hnote|by intros []].
Qed.

(** Only the worker's slab, queue and cursor change. *)
Lemma inv_local n w sh sh' :
  inv n -> ws n !! w = Some sh -> shard_ok w sh' -> keeps none w sh sh' -> origins sh' = origins sh -> pending_steal sh' = pending_steal sh ->
  inv (mkNet (<[w := sh']> (ws n)) (rs n)).
Proof.
  intros I Hw Hsh K Ho Hp. eapply steal_quiet; try done; try apply I; eauto.
  intros t sht Ht. apply (set_lookup _ _ sh) in Ht as [[-> ->]|[_ Ht]]; [|by apply I|done]. unfold promise. rewrite Hp. by apply I.
Qed.

Lemma add_u8 a b : a + b < 256 -> add_or_panic U8 a b = Ret (a + b).
Proof. intros H. by apply add_or_panic_Ret. Qed.

Lemma next_victim_spec sh lead workers :
  0 <= lead <= id sh -> id sh < lead + workers -> lead + workers <= 128 -> 2 <= workers -> 0 <= steal_cursor sh < 128 ->
  exists v, next_victim sh lead workers = Ret (Some v, set_cursor (v - lead) sh) /\ lead <= v < lead + workers /\ v <> id sh.
Proof.
  intros H1 H2 H3 H4 H5. unfold next_victim, try_from. replace (workers <? 2 ^ U8) with true by (symmetry; apply Z.ltb_lt; change (2 ^ U8) with 256; lia).
  unfold sub_or_panic. replace (lead <=? id sh) with true by (symmetry; apply Z.leb_le; lia). cbn [mbind outcome_bind].
  rewrite add_u8 by lia. cbn [mbind outcome_bind].
  replace (workers =? 0) with false by (symmetry; apply Z.eqb_neq; lia).
  pose proof (Z.mod_pos_bound (steal_cursor sh + 1) workers ltac:(lia)) as Hm. set (m := (steal_cursor sh + 1) mod workers) in *.
  assert (Fin : forall v, 0 <= v < workers -> v <> id sh - lead ->
    (victim ← add_or_panic U8 lead v; Ret (match WorkerId.new victim with Ok v => Some v | Err _ => None end, set_cursor v sh)) = Ret (Some (lead + v), set_cursor (lead + v - lead) sh)).
  { intros v Hv _. rewrite add_u8 by lia. cbn [mbind outcome_bind]. unfold WorkerId.new, WorkerId.MAX, WorkerId.MAX_WORKERS.
    replace (lead + v - lead) with v by lia. destruct (Z.ltb_spec (128 - 1) (lead + v)) as [|]; [lia|done]. }
  destruct (Z.eqb_spec m (id sh - lead)) as [Em|Em]; cbn [mbind outcome_bind].
  - rewrite add_u8 by lia. cbn [mbind outcome_bind].
    pose proof (Z.mod_pos_bound (m + 1) workers ltac:(lia)) as Hm'. set (m' := (m + 1) mod workers) in *.
    assert (Hne : m' <> id sh - lead).
    { subst m'. rewrite <- Em. clearbody m. destruct (Z.eq_dec (m + 1) workers) as [E|E]; [rewrite E, Z.mod_same by lia; lia|rewrite Z.mod_small by lia; lia]. }
    replace (m' =? id sh - lead) with false by (symmetry; by apply Z.eqb_neq). exists (lead + m'). rewrite Fin by done. split; [done|]. lia.
  - replace (m =? id sh - lead) with false by (symmetry; by apply Z.eqb_neq). exists (lead + m). rewrite Fin by done. split; [done|]. lia.
Qed.

(** Rings of the same shape. *)
Lemma rings_set_requests r i q : rings_ok r -> rings_ok (set_requests (<[i := q]> (steal_requests r)) r).
Proof. intros []. split; cbn; rewrite ?length_insert; done. Qed.
Lemma rings_set_handoffs r i q : rings_ok r -> rings_ok (set_handoffs (<[i := q]> (handoffs r)) r).
Proof. intros []. split; cbn; rewrite ?length_insert; done. Qed.
Lemma rings_set_notes r i q : rings_ok r -> rings_ok (set_notes (<[i := q]> (settled_notes r)) r).
Proof. intros []. split; cbn; rewrite ?length_insert; done. Qed.
Lemma rings_set_inboxes r i q : rings_ok r -> rings_ok (set_inboxes (<[i := q]> (inboxes r)) r).
Proof. intros []. split; cbn; rewrite ?length_insert; done. Qed.
Lemma rings_signal r x : rings_ok r -> rings_ok (signal x r).
Proof. intros []. by split. Qed.

Lemma set_requests_id r : set_requests (steal_requests r) r = r.
Proof. by destruct r. Qed.
Lemma set_handoffs_id r : set_handoffs (handoffs r) r = r.
Proof. by destruct r. Qed.
Lemma set_notes_id r : set_notes (settled_notes r) r = r.
Proof. by destruct r. Qed.
Lemma set_inboxes_id r : set_inboxes (inboxes r) r = r.
Proof. by destruct r. Qed.

Lemma shard_ok_cursor w sh c : shard_ok w sh -> 0 <= c < 128 -> shard_ok w (set_cursor c sh).
Proof. intros [] H. by split. Qed.

(** A promise made, and one withdrawn or kept. *)
Lemma shard_ok_pending w sh s k :
  shard_ok w sh -> open_wf (Some k) s -> length (Slab.slots s) = length (Slab.slots (tasks sh)) ->
  (forall r, open_at s r = open_at (tasks sh) r) ->
  ref_of (Z.of_nat w) (TaskRef.from_slab (Z.of_nat w) k) /\ TaskRef.key (TaskRef.from_slab (Z.of_nat w) k) = k ->
  shard_ok w (set_pending (Some k) (set_tasks s sh)).
Proof.
  intros [] W Hl He Hk. split; cbn; try done; rewrite ?Hl; try done.
  - intros r v Hr. unfold cores. rewrite He. apply sk_slots0; done.
  - destruct sk_queue0 as [l Hq]. exists l. eapply queued_cores; [done| |by auto]. intros. apply He.
  - by intros k' [= <-].
Qed.

Lemma shard_ok_settle w sh s q : shard_ok w (set_queue q (set_tasks s sh)) -> shard_ok w (set_pending None (set_queue q (set_tasks s sh))).
Proof. intros [? [] ? ? ? ? ? ? ?]. by split. Qed.

Definition op_ok (n : net) (o : op) : Prop :=
  match o with
  | Steal t lead workers => is_Some (ws n !! t) /\ 0 <= lead <= Z.of_nat t /\ Z.of_nat t < lead + workers <= Z.of_nat (length (ws n))
  | Serve v | Receive v | Note v | Wake v => is_Some (ws n !! v)
  | Report t index => exists sh, ws n !! t = Some sh /\ (index < length (Slab.slots (tasks sh)))%nat
  | Enqueue task_ref => exists w, ref_of w task_ref
  end.

Lemma steal_inv n t lead workers : inv n -> op_ok n (Steal t lead workers) -> exists n', exec n (Steal t lead workers) = Ret n' /\ inv n'.
Proof.
  intros I ([sh Ht] & Hl1 & Hl2). cbn [exec]. unfold at_worker. rewrite Ht. pose proof (iv_shards n I _ _ Ht) as K. pose proof (worker_wf _ _ _ I Ht) as Hwf.
  unfold try_steal. destruct ((workers <=? 1) || bool_decide (is_Some (pending_steal sh))) eqn:Eg.
  { cbn [mbind outcome_bind]. eexists. split; [done|]. rewrite list_insert_id by done. by destruct n. }
  apply orb_false_iff in Eg as [Ew%Z.leb_gt Ep%bool_decide_eq_false]. assert (Hp : pending_steal sh = None) by (destruct (pending_steal sh); [by destruct Ep|done]).
  pose proof (iv_size n I) as Hsz. change INBOX_SLOTS with 128 in Hsz. pose proof (sk_id _ _ K) as Hid.
  destruct (next_victim_spec sh lead workers) as (v & -> & Hv & Hvs); rewrite ?Hid; try lia; [apply K|]. cbn [mbind outcome_bind].
  assert (K1 : shard_ok t (set_cursor (v - lead) sh)) by (apply shard_ok_cursor; [done|lia]).
  set (sh1 := set_cursor (v - lead) sh) in *. unfold Thief.prepare_steal. pose proof (sk_wf _ _ K1) as W. change (pending_steal sh1) with (pending_steal sh) in W. rewrite Hp in W.
  pose proof (reserve_ref _ Hwf (tasks sh1) W) as Hres. change (id sh1) with (id sh). rewrite Hid.
  destruct (Slab.reserve (tasks sh1)) as [[[key|e] s]| | |] eqn:Er; try done; cbn [mbind outcome_bind].
  2: { subst s. eexists. split; [done|]. by apply (inv_local _ _ sh). }
  destruct Hres as (Hr & Hk & W' & Hlen & Hat). cbn [dest thief_id]. rewrite Hk. unfold push_steal_request.
  assert (Hvn : (Z.to_nat v < length (ws n))%nat) by lia. apply lookup_lt_is_Some_2 in Hvn as [shv Hvs'].
  destruct (ring_slot (steal_requests (rs n)) n _ shv I Hvs' (rk_requests _ (iv_rings _ I))) as [q Hq].
  replace v with (Z.of_nat (Z.to_nat v)) by lia. set (vn := Z.to_nat v) in *. rewrite (push_at_spec _ _ _ _ _ Hq). destruct (_ <? _) eqn:Efull; cbn [mbind outcome_bind negb].
  - eexists. split; [done|]. set (x := mkRequest (Z.of_nat t) (TaskRef.from_slab (Z.of_nat t) key)).
    pose proof (shard_ok_pending _ sh1 s key K1 W' Hlen Hat (conj Hr Hk)) as K2.
    eapply (steal_quiet n t sh); try done; try (eapply keeps_cores; [done|]; intros r _; cbn; unfold cores; by rewrite Hat); cbn.
    + apply rings_signal. apply rings_set_requests, I.
    + intros u shu Hu. pose proof (asks_push_request (rs n) u vn q x Hq) as Ha.
      change (asks (set_requests (<[vn := q ++ [x]]> (steal_requests (rs n))) (rs n)) u ≡ₚ promise u shu).
      apply (set_lookup _ _ sh) in Hu as [[-> ->]|[Hne Hu]]; [| |done].
      * pose proof (iv_asks n I _ _ Ht) as H0. unfold promise in *. rewrite Hp in H0. cbn in H0, Ha |- *. rewrite bool_decide_eq_true_2 in Ha by done. cbn [only] in Ha. tally Ha H0.
      * pose proof (iv_asks n I _ _ Hu) as H0. cbn [x thief_id] in Ha. rewrite bool_decide_eq_false_2 in Ha by lia. cbn [only] in Ha. tally Ha H0.
    + intros u q' y Hu Hy. destruct (push_elem _ _ _ _ _ _ _ Hq Hu Hy) as [|[-> ->]]; [by left|right]. exists t. split_and!; [done|by eexists|done].
    + by eauto.
    + by eauto.
    + by eauto.
  - destruct (unreserve_ref s key W') as (s' & -> & W2 & Hl2' & Hat2). eexists. split; [done|].
    rewrite set_requests_id. apply (inv_local _ _ sh); try done; [|by eapply keeps_cores; [done|]; intros r _; cbn; unfold cores; rewrite Hat2, Hat].
    change (set_tasks (true, s').2 (set_tasks s sh1)) with (set_queue (run_queue sh1) (set_tasks s' sh1)). apply shard_ok_set; try done.
    + change (pending_steal sh1) with (pending_steal sh). by rewrite Hp.
    + by rewrite Hl2', Hlen.
    + intros r v' Hr'. unfold cores. rewrite Hat2, Hat. by apply (sk_slots _ _ K1).
    + destruct (sk_queue _ _ K1) as [l Hql]. exists l. eapply queued_cores; [done| |by auto]. intros. by rewrite Hat2, Hat.
Qed.

(** *** Serving *)

Lemma Ret_inj {A} (x y : A) : Ret x = Ret y -> x = y.
Proof. by intros [= ->]. Qed.

Lemma ref_worker w w' r : ref_of w r -> ref_of w' r -> w = w'.
Proof.
  intros H H'. pose proof H as [Hw _]. pose proof H' as [Hw' _]. destruct (ref_key w Hw r H) as (_ & _ & _ & E). destruct (ref_key w' Hw' r H') as (_ & _ & _ & E'). congruence.
Qed.

(** Two residents of a slab are in different slots. *)
Lemma resident_inj w s r r' : ref_of w r -> ref_of w r' -> is_Some (cores s r) -> is_Some (cores s r') -> TaskRef.index r = TaskRef.index r' -> r = r'.
Proof.
  intros Hr Hr' [v Hv] [v' Hv'] E. apply cores_open in Hv as (x & Hx & _), Hv' as (x' & Hx' & _).
  destruct (ref_keyed w r Hr) as (i & g & K), (ref_keyed w r' Hr') as (i' & g' & K').
  rewrite (keyed_ref _ _ _ _ K), (keyed_ref _ _ _ _ K') in E. assert (i' = i) as -> by lia.
  apply (open_view w _ _ _ _ _ K) in Hx. apply (open_view w _ _ _ _ _ K') in Hx'. simplify_eq. by eapply keyed_inj.
Qed.

Lemma record_spec w fwd r d fwd' : ref_of w r -> ForwardTable.record fwd (TaskRef.key r) d = Ret fwd' ->
  length (ForwardTable.entries fwd') = length (ForwardTable.entries fwd) /\
  ForwardTable.lookup fwd' (TaskRef.key r) = Some d /\
  (forall r', ref_of w r' -> TaskRef.index r' <> TaskRef.index r -> ForwardTable.lookup fwd' (TaskRef.key r') = ForwardTable.lookup fwd (TaskRef.key r')) /\
  (forall i e, ForwardTable.entries fwd' !! i = Some (Some e) -> ForwardTable.entries fwd !! i = Some (Some e) \/ ForwardTable.new_ref e = d).
Proof.
  intros Hr. unfold ForwardTable.record. destruct (_ !! _) as [o|] eqn:E; [|done]. intros Hf. apply Ret_inj in Hf. subst fwd'. cbn [ForwardTable.entries]. rewrite length_insert.
  apply lookup_lt_Some in E. split_and!; [done| | |].
  - unfold ForwardTable.lookup. cbn [ForwardTable.entries]. rewrite list_lookup_insert_eq by done. cbn. by rewrite Z.eqb_refl.
  - intros r' Hr' Hne. unfold ForwardTable.lookup. cbn [ForwardTable.entries]. rewrite list_lookup_insert_ne; [done|].
    pose proof Hr as [Hw _]. destruct (ref_key w Hw r Hr) as (_ & _ & E1 & _), (ref_key w Hw r' Hr') as (_ & _ & E2 & _).
    pose proof (SlabKey.index_fits (TaskRef.key r)). pose proof (SlabKey.index_fits (TaskRef.key r')). unfold fits in *. lia.
  - intros i e Hi. destruct (decide (i = Z.to_nat (SlabKey.index (TaskRef.key r)))) as [-> |Hne].
    + rewrite list_lookup_insert_eq in Hi by done. injection Hi as <-. by right.
    + rewrite list_lookup_insert_ne in Hi by done. by left.
Qed.

Lemma relocated_entry origins r i o : ForwardOrigin.is_relocated origins (TaskRef.index r) = false ->
  ForwardOrigin.entries origins !! i = Some (Some o) -> TaskRef.index r <> Z.of_nat i.
Proof. intros H E Hi. unfold ForwardOrigin.is_relocated in H. rewrite Hi, Nat2Z.id, E in H. done. Qed.

Lemma record_shard w sh r d fwd' :
  shard_ok w sh -> ref_of (Z.of_nat w) r -> (exists t, ref_of t d) -> ForwardTable.record (forward sh) (TaskRef.key r) d = Ret fwd' -> shard_ok w (set_forward fwd' sh).
Proof.
  intros [] Hr Hd Hf. destruct (record_spec _ _ _ _ _ Hr Hf) as (Hl & _ & _ & He). split; cbn; try done; [by rewrite Hl|].
  intros i e Hi. destruct (He i e Hi) as [Hi0| ->]; [by eapply sk_refs0|done].
Qed.

(** The victim's shard once the body [r] has left for [d]. *)
Lemma stolen_keeps w sh s q l task r sl d fwd' :
  shard_ok w sh -> open_wf (pending_steal sh) s -> length (Slab.slots s) = length (Slab.slots (tasks sh)) ->
  queued (Z.of_nat w) None (origins sh) s q l -> stolen (Z.of_nat w) (origins sh) (tasks sh) s task r sl -> (exists t, ref_of t d) ->
  ForwardTable.record (forward sh) (TaskRef.key r) d = Ret fwd' ->
  let sh' := set_queue q (set_forward fwd' (set_tasks s sh)) in
  shard_ok w sh' /\ keeps (eq r) w sh sh' /\ route_in w sh' r d (TaskSlot.pip sl).
Proof.
  intros K W Hl Hq Hs Hd Hf sh'. pose proof Hs as [Hr Hat [Hst _ _ _ _ Hnat] Hbody Hpip Hkey Hafter].
  destruct (record_spec _ _ _ _ _ Hr Hf) as (_ & Hlook & Hother & _).
  assert (Hset : is_remote_settled sl = false) by (destruct Hst as [(_ & _ & H)|(_ & _ & H)]; by apply H).
  assert (Hne : forall r', ref_of (Z.of_nat w) r' -> r <> r' -> cores s r' = cores (tasks sh) r') by (intros r' Hr' Hn; rewrite Hafter by done; by rewrite decide_False).
  split_and!.
  - change sh' with (set_forward fwd' (set_queue q (set_tasks s sh))). eapply (record_shard _ _ r d); try done. apply shard_ok_set; try done; [|by exists l].
    eapply slots_ok_calm; [apply K|]. intros r' Hr'. rewrite Hafter by done. destruct (decide (r' = r)); [|by left]. right. intros v [= <-]. exists TaskState.Retired. apply husk_of_ok.
  - split.
    + intros r' pip Hn. unfold husk_in. cbn. split; intros [Hr' H]; (split; [done|]); [rewrite Hne in H by done|rewrite Hne by done]; done.
    + intros r' d' pip Hn [[Hr' (v & Hv & Hv')] Hl']. split.
      * split; [done|]. exists v. cbn. by rewrite Hne.
      * cbn. rewrite Hother; [done..|]. intros E. apply Hn. symmetry. by eapply resident_inj.
    + intros i d' pip o _ Ho (Hd' & Hi & v & Hv & Hv'). split_and!; [done|done|]. exists v. cbn. rewrite Hne; [done|done|].
      intros <-. by eapply relocated_entry.
  - split; [|done]. split; [done|]. exists (husk_of sl). cbn. rewrite Hafter, decide_True by done. split_and!; [done|apply husk_of_ok|done|done].
Qed.

Lemma husked_home n w sh r pip : inv n -> ws n !! w = Some sh -> ref_of (Z.of_nat w) r -> husked n r pip -> husk_in w sh r pip.
Proof.
  intros I Hw Hr (t & sht & Ht & Hh). pose proof Hh as [Hr' _]. assert (t = w) as -> by (pose proof (ref_worker _ _ _ Hr Hr'); lia). congruence.
Qed.

(** A resident that is not a husk has no carrier. *)
Lemma live_no_carrier n w sh r sl : inv n -> ws n !! w = Some sh -> ref_of (Z.of_nat w) r -> cores (tasks sh) r = Some sl -> ~ st_ok sl TaskState.Retired ->
  r ∉ carriers n.
Proof.
  intros I Hw Hr Hc Hs Hin. destruct (carrier_husked n r I Hin) as (pip & Hh). apply (husked_home _ _ _ _ _ I Hw Hr) in Hh as [_ (v & Hv & Hv' & _)]. congruence.
Qed.

Lemma promise_length w sh : (length (promise w sh) <= 1)%nat.
Proof. unfold promise. destruct (pending_steal sh); cbn; lia. Qed.

Section answer.
(** Worker [v] takes the request [x] of worker [t] off its ring and puts the
    reply [m] on [t]'s. *)
Context (n : net) (v t : nat) (q : list StealRequest) (x : StealRequest) (sht : shard) (m : HandoffMsg).
Hypothesis (I : inv n) (Hq : steal_requests (rs n) !! v = Some (x :: q)) (Hx : thief_id x = Z.of_nat t) (Ht : ws n !! t = Some sht) (Hm : msg_dest m = dest x).

Definition answered : rings :=
  let r1 := set_requests (<[v := q]> (steal_requests (rs n))) (rs n) in
  signal (thief_id x) (set_handoffs (<[t := [m]]> (handoffs r1)) r1).

Lemma answer_room : handoffs (rs n) !! t = Some [].
Proof.
  destruct (ring_slot (handoffs (rs n)) n t sht I Ht (rk_handoffs _ (iv_rings _ I))) as [qh Hqh]. rewrite Hqh. f_equal.
  pose proof (asks_pop_request (rs n) t v q x Hq) as Ha. rewrite bool_decide_eq_true_2 in Ha by done. cbn [only] in Ha. rewrite (iv_asks n I _ _ Ht) in Ha.
  apply Permutation_length in Ha. rewrite length_app in Ha. pose proof (promise_length t sht). cbn [length] in Ha.
  unfold asks in Ha. cbn [handoffs set_requests] in Ha. rewrite Hqh, length_app, length_fmap in Ha. change (default [] (Some qh)) with qh in Ha.
  destruct qh; [done|]. cbn [length] in Ha. lia.
Qed.

Lemma answer_asks u : asks answered u ≡ₚ asks (rs n) u.
Proof.
  unfold answered. cbv zeta. set (r1 := set_requests _ _).
  change (asks (set_handoffs (<[t := [] ++ [m]]> (handoffs r1)) r1) u ≡ₚ asks (rs n) u).
  pose proof (asks_pop_request (rs n) u v q x Hq) as Ha. fold r1 in Ha. pose proof (asks_push_handoff r1 u t [] m answer_room) as Hb. rewrite Hm in Hb.
  assert (bool_decide (thief_id x = Z.of_nat u) = bool_decide (t = u)) as E by (rewrite Hx; apply bool_decide_ext; lia). rewrite E in Ha. tally Ha Hb.
Qed.

Lemma answer_rings : rings_ok answered.
Proof. apply rings_signal, rings_set_handoffs, rings_set_requests, I. Qed.

Lemma answer_transit : transit answered ≡ₚ transit (rs n) ++ msg_home m.
Proof.
  unfold answered. cbv zeta. set (r1 := set_requests _ _). exact (transit_push r1 t [] m answer_room).
Qed.

Lemma answer_msgs u qu y : handoffs answered !! u = Some qu -> y ∈ qu -> (exists q, handoffs (rs n) !! u = Some q /\ y ∈ q) \/ y = m.
Proof. intros Hu Hy. destruct (push_elem (handoffs (rs n)) t [] m u qu y answer_room Hu Hy) as [|[_ ->]]; auto. Qed.

Lemma answer_reqs u qu y : steal_requests answered !! u = Some qu -> y ∈ qu -> exists q, steal_requests (rs n) !! u = Some q /\ y ∈ q.
Proof. intros Hu Hy. exact (pop_elem (steal_requests (rs n)) v x q u qu y Hq Hu Hy). Qed.

Lemma answer_push : push_handoff (thief_id x) m (set_requests (<[v := q]> (steal_requests (rs n))) (rs n)) =
  Ret (true, set_handoffs (<[t := [m]]> (handoffs (rs n))) (set_requests (<[v := q]> (steal_requests (rs n))) (rs n))).
Proof. unfold push_handoff. cbn [handoffs set_requests]. rewrite Hx, (push_at_spec _ _ _ _ _ answer_room). done. Qed.
End answer.

Lemma promise_set n w sh sh' (r' : rings) : inv n -> ws n !! w = Some sh -> pending_steal sh' = pending_steal sh -> (forall u, asks r' u ≡ₚ asks (rs n) u) ->
  forall t sht, <[w := sh']> (ws n) !! t = Some sht -> asks r' t ≡ₚ promise t sht.
Proof.
  intros I Hw Hp Ha t sht Ht. rewrite Ha. apply (set_lookup _ _ sh) in Ht as [[-> ->]|[_ Ht]]; [|by apply I|done].
  unfold promise. rewrite Hp. by apply I.
Qed.

Lemma serve_inv n v : inv n -> op_ok n (Serve v) -> exists n', exec n (Serve v) = Ret n' /\ inv n'.
Proof.
  intros I [sh Hv]. cbn [exec]. unfold at_worker. rewrite Hv. pose proof (iv_shards n I _ _ Hv) as K. pose proof (worker_wf _ _ _ I Hv) as Hwf.
  pose proof K as [Hid W Hsl [l Hl] Hfw _ _ _ _]. unfold serve_steals, pop_steal_request. rewrite Hid.
  destruct (ring_slot (steal_requests (rs n)) n _ sh I Hv (rk_requests _ (iv_rings _ I))) as [q0 Hq]. rewrite (pop_at_spec _ _ _ Hq). destruct q0 as [|x q]; cbn [mbind outcome_bind].
  { eexists. split; [done|]. rewrite set_requests_id, list_insert_id by done. by destruct n. }
  destruct (iv_reqs n I _ _ x Hq) as (t & Hx & [sht Ht] & Hd); [set_solver|].
  apply (queued_any _ _ (pending_steal sh)) in Hl.
  destruct (serve_steal_spec (Z.of_nat v) (pending_steal sh) (origins sh) Hwf (tasks sh) (forward sh) (run_queue sh) l x W Hsl Hl Hfw)
    as [(s' & q' & l' & -> & Hq' & Hre)|(task & s' & fwd' & q' & l' & r & sl & -> & Hf & Hq' & W' & Hlen & Hs)]; cbn [mbind outcome_bind].
  - rewrite (answer_push n v t q x sht (Declined (dest x)) I Hq Hx Ht). cbn [mbind outcome_bind]. eexists. split; [done|].
    change (inv (mkNet (<[v := set_queue q' (set_forward (forward sh) (set_tasks s' sh))]> (ws n)) (answered n v t q x (Declined (dest x))))).
    pose proof (relinked_cores _ _ _ _ Hre) as Hc.
    apply (steal_quiet n v sh); try done.
    + change (set_queue q' (set_forward (forward sh) (set_tasks s' sh))) with (set_queue q' (set_tasks s' sh)). apply shard_ok_set; try done; [apply Hre|apply Hre| |].
      * eapply slots_ok_calm; [done|]. intros r Hr. left. by apply Hc.
      * exists l'. by eapply queued_any.
    + by apply answer_rings.
    + by apply keeps_cores.
    + rewrite (answer_transit n v t q x sht) by done. by rewrite app_nil_r.
    + eapply promise_set; try done. by apply (answer_asks n v t q x sht).
    + intros u qu y Hu Hy. left. by eapply (answer_reqs n v t q x).
    + intros u qu d v' task Hu Hy. by destruct (answer_msgs n v t q x sht _ I Hq Hx Ht u qu _ Hu Hy) as [|].
    + by eauto.
    + by eauto.
  - set (m := Delivered (dest x) (Z.of_nat v) task). rewrite (answer_push n v t q x sht m I Hq Hx Ht). cbn [mbind outcome_bind]. eexists. split; [done|].
    set (sh' := set_queue q' (set_forward fwd' (set_tasks s' sh))). change (inv (mkNet (<[v := sh']> (ws n)) (answered n v t q x m))).
    destruct (stolen_keeps v sh s' q' l' task r sl (dest x) fwd' K W' Hlen) as (K' & Hk & Hro); try done; [by eapply queued_any|by exists (Z.of_nat t)|].
    pose proof Hs as [Hr Hat Hcan Hbody Hpip Hkey _].
    assert (Hlive : ~ st_ok sl TaskState.Retired) by (intros Hn; destruct (sb_state _ _ _ Hcan) as [H|H]; by pose proof (st_ok_inj _ _ _ H Hn)).
    pose proof (live_no_carrier n v sh r sl I Hv Hr Hat Hlive) as Hnc.
    assert (Hhome : msg_home m = [r]) by (cbn; rewrite Hkey; f_equal; symmetry; by apply ref_key).
    assert (Hcar : carriers (mkNet (<[v := sh']> (ws n)) (answered n v t q x m)) ≡ₚ r :: carriers n).
    { pose proof (hosted_set (ws n) v sh sh' Hv) as Hh. change (hosted_in sh') with (hosted_in sh) in Hh.
      pose proof (answer_transit n v t q x sht m I Hq Hx Ht) as Htr. rewrite Hhome in Htr. unfold carriers. cbn [ws rs]. change (noted (answered n v t q x m)) with (noted (rs n)). tally Hh Htr. }
    assert (Hrouted : routed (mkNet (<[v := sh']> (ws n)) (answered n v t q x m)) r (dest x) (TaskSlot.pip sl)).
    { exists v, sh'. split; [by eapply set_lookup_self|done]. }
    apply (inv_step n v sh sh' _ (eq r)); try done.
    + by apply answer_rings.
    + intros ? <-. unfold carriers in Hnc. rewrite !elem_of_app in Hnc. naive_solver.
    + rewrite Hcar. apply NoDup_cons. split; [done|apply I].
    + intros r' _ Hin. rewrite Hcar. set_solver.
    + intros ? pip <- _. rewrite Hcar. set_solver.
    + eapply promise_set; try done. by apply (answer_asks n v t q x sht).
    + intros u qu y Hu Hy. left. by eapply (answer_reqs n v t q x).
    + intros u qu d v' task' Hu Hy. destruct (answer_msgs n v t q x sht m I Hq Hx Ht u qu _ Hu Hy) as [|[= -> -> ->]]; [by left|right].
      split; [apply (proj1 (st_ok_bare _ _)); rewrite Hbody; apply shipped_ok, Hcan|]. injection Hhome as Hhome. split.
      { unfold homed. rewrite Hhome, Hkey. split; [done|]. by apply ref_key. }
      rewrite Hhome.
      assert (TaskSlot.pip (body task) = TaskSlot.pip sl) as -> by (change (TaskSlot.pip (bare (body task)) = TaskSlot.pip sl); by rewrite Hbody). done.
    + intros i o Ho. by left.
    + intros u qu note Hu Hn. left. split; [by eauto|]. intros E. apply Hnc. unfold carriers. rewrite !elem_of_app. right. right. apply elem_noted. by exists u, qu, note.
    + by eauto.
Qed.

(** *** Receiving *)

Lemma kept_trans w sh1 sh2 sh3 : origins sh3 = origins sh2 -> keeps none w sh1 sh2 -> keeps none w sh2 sh3 -> keeps none w sh1 sh3.
Proof.
  intros Ho [A1 B1 C1] [A2 B2 C2]. split.
  - intros r pip H. rewrite A2, A1 by done. done.
  - intros r d pip H Hr. by apply B2, B1.
  - intros i d pip o H3 H1 Hh. rewrite Ho in H3. eapply C2; [by rewrite Ho|done|]. by eapply C1.
Qed.

Lemma shard_ok_none w sh s :
  shard_ok w sh -> open_wf None s -> length (Slab.slots s) = length (Slab.slots (tasks sh)) -> (forall r, open_at s r = open_at (tasks sh) r) ->
  shard_ok w (set_pending None (set_tasks s sh)).
Proof.
  intros [] W Hl He. split; cbn; try done; rewrite ?Hl; try done.
  - intros r v Hr. unfold cores. rewrite He. apply sk_slots0; done.
  - destruct sk_queue0 as [l Hq]. exists l. eapply queued_cores; [done| |by auto]. intros. apply He.
Qed.

(** The wake of the received body, before the promise is cleared. *)
Lemma wake_received w sh r : shard_ok w (set_pending None sh) -> ref_of (Z.of_nat w) r ->
  exists sh', wake_local sh r = Ret sh' /\ shard_ok w (set_pending None sh') /\ keeps none w (set_pending None sh) (set_pending None sh') /\
    origins sh' = origins sh.
Proof.
  intros K Hr. destruct (wake_local_ok w _ r K Hr) as (s & q & E & K' & Hk). exists (set_queue q (set_tasks s sh)). split; [|done].
  unfold wake_local in *. cbn [id tasks run_queue set_pending] in E. destruct (@RunQueue.wake_local _ _ _ _ _ _) as [[q0 s0]| | |]; [|done..].
  cbn [mbind outcome_bind] in *. apply Ret_inj in E. injection E as -> ->. done.
Qed.

Section receive.
(** Worker [t] takes the reply [m] off its ring. *)
Context (n : net) (t : nat) (sh : shard) (m : HandoffMsg) (q : list HandoffMsg).
Hypothesis (I : inv n) (Ht : ws n !! t = Some sh) (Hq : handoffs (rs n) !! t = Some (m :: q)).

Definition taken : rings := set_handoffs (<[t := q]> (handoffs (rs n))) (rs n).

Lemma taken_promise : exists k, pending_steal sh = Some k /\ msg_dest m = TaskRef.from_slab (Z.of_nat t) k /\
  ref_of (Z.of_nat t) (msg_dest m) /\ TaskRef.key (msg_dest m) = k /\ asks taken t ≡ₚ [].
Proof.
  pose proof (asks_pop_handoff (rs n) t t q m Hq) as Ha. rewrite bool_decide_eq_true_2 in Ha by done. cbn [only] in Ha. rewrite (iv_asks n I _ _ Ht) in Ha.
  unfold promise in Ha. pose proof (sk_pending _ _ (iv_shards n I _ _ Ht)) as Hk. fold taken in Ha. destruct (pending_steal sh) as [k|]; cbn [option_list fmap option_fmap option_map] in Ha.
  - exists k. destruct (Hk k eq_refl) as [Hr Hkey]. assert (E : asks taken t = [] /\ msg_dest m = TaskRef.from_slab (Z.of_nat t) k).
    { pose proof (Permutation_length Ha) as Hl. rewrite length_app in Hl. cbn [length] in Hl. destruct (asks taken t) as [|a l]; [|exfalso; change (S (length l) + 1 = 1)%nat in Hl; lia].
      cbn [app] in Ha. apply Permutation_length_1_inv in Ha. naive_solver. }
    destruct E as [E1 E2]. rewrite E2. split_and!; try done. by rewrite E1.
  - exfalso. apply Permutation_length in Ha. rewrite length_app in Ha. cbn in Ha. lia.
Qed.

Lemma taken_asks sh' : pending_steal sh' = None -> forall u shu, <[t := sh']> (ws n) !! u = Some shu -> asks taken u ≡ₚ promise u shu.
Proof.
  intros Hp u shu Hu. apply (set_lookup _ _ sh) in Hu as [[-> ->]|[Hne Hu]]; [| |done].
  - unfold promise. rewrite Hp. by destruct taken_promise as (k & _ & _ & _ & _ & ->).
  - pose proof (asks_pop_handoff (rs n) u t q m Hq) as Ha. rewrite bool_decide_eq_false_2 in Ha by done. cbn [only] in Ha. rewrite app_nil_r in Ha. fold taken in Ha.
    rewrite Ha. by apply I.
Qed.

Lemma taken_msgs u qu y : handoffs taken !! u = Some qu -> y ∈ qu -> exists q, handoffs (rs n) !! u = Some q /\ y ∈ q.
Proof. intros Hu Hy. exact (pop_elem (handoffs (rs n)) t m q u qu y Hq Hu Hy). Qed.

Lemma taken_transit : transit taken ++ msg_home m ≡ₚ transit (rs n).
Proof. exact (transit_pop (rs n) t q m Hq). Qed.

(** A delivered body lands in the promised slot. *)
Lemma receive_delivered d v task : m = Delivered d v task ->
  exists s o, Slab.install (tasks sh) (TaskRef.key d) (body task) = Ret (Ok tt, s) /\
    ForwardOrigin.record (origins sh) (TaskRef.index d) (ForwardOrigin.mkOrigin v (victim_key task)) = Ret o /\
    let sh1 := set_pending None (set_origins o (set_tasks s sh)) in
    shard_ok t sh1 /\ keeps none t sh sh1 /\ hosted_in sh1 ≡ₚ hosted_in sh ++ [TaskRef.from_slab v (victim_key task)] /\
    exists i, ForwardOrigin.entries o = <[i := Some (ForwardOrigin.mkOrigin v (victim_key task))]> (ForwardOrigin.entries (origins sh)) /\
      (i < length (ForwardOrigin.entries (origins sh)))%nat /\
      host_in t sh1 i d (TaskSlot.pip (body task)).
Proof.
  intros Em. pose proof (iv_shards n I _ _ Ht) as K. destruct taken_promise as (k & Hp & Hd & Hr & Hk & _). rewrite Em in Hd, Hr, Hk. cbn [msg_dest] in Hd, Hr, Hk.
  pose proof K as [Hid W Hsl [l Hl] Hfw Hor Hrefs _ Hcur]. rewrite Hp in W. rewrite <- Hk in W.
  pose proof (worker_wf _ _ _ I Ht) as Hwf. destruct (install_ref (Z.of_nat t) (tasks sh) d (body task) Hr W) as (s & Ein & W' & Hlen & Hat).
  pose proof (promised_at (Z.of_nat t) _ _ Hr W) as Hnone. destruct (ref_keyed _ d Hr) as (i & g & Kd). pose proof (keyed_ref _ _ _ _ Kd) as Hi.
  assert (Hin : (i < length (ForwardOrigin.entries (origins sh)))%nat).
  { rewrite Hor. destruct W as [_ (x & Hx & _)]. rewrite (k_index _ _ _ _ Kd) in Hx. by eapply lookup_lt_Some. }
  assert (Hslot : forall r, ref_of (Z.of_nat t) r -> is_Some (open_at (tasks sh) r) -> Z.to_nat (TaskRef.index r) = i -> False).
  { intros r Hr' [x Hx] Ei. destruct (ref_keyed _ r Hr') as (i2 & g2 & Kr). rewrite (keyed_ref _ _ _ _ Kr), Nat2Z.id in Ei. subst i2.
    apply (open_view _ _ _ _ _ _ Kr) in Hx. destruct W as [_ Hpr]. pose proof (SlabTrace.promised_view _ _ Hpr) as Hv. rewrite (k_index _ _ _ _ Kd) in Hv. congruence. }
  assert (Hent : ForwardOrigin.entries (origins sh) !! i = Some None).
  { destruct (lookup_lt_is_Some_2 _ _ Hin) as [[o|] Ho]; [|done]. exfalso. destruct (iv_hosts n I _ _ _ _ Ht Ho) as (d' & pip & (Hd' & Hi' & v' & Hv' & _) & _).
    destruct (cores_open _ _ _ Hv') as (x & Hx & _). apply (Hslot d' Hd'); [by eexists|lia]. }
  assert (Hb : st_ok (body task) TaskState.Sleeping) by (rewrite Em in Hq; by apply (iv_msgs n I t _ d v task Hq (list_elem_of_here _ _))).
  assert (Hlive : ~ st_ok (body task) TaskState.Retired) by (intros Hn; by pose proof (st_ok_inj _ _ _ Hb Hn)).
  eexists s, _. split; [done|]. unfold ForwardOrigin.record. rewrite Hi, Nat2Z.id, Hent. split; [done|]. set (o := ForwardOrigin.mkTable _). cbv zeta.
  set (sh1 := set_pending None (set_origins o (set_tasks s sh))).
  assert (Hcr : forall r, ref_of (Z.of_nat t) r -> cores s r = if decide (r = d) then Some (bare (body task)) else cores (tasks sh) r).
  { intros r Hr'. unfold cores. rewrite Hat by done. by destruct (decide (r = d)). }
  assert (Hcd : cores (tasks sh) d = None) by (unfold cores; by rewrite Hnone).
  split_and!.
  - split; cbn; try done; rewrite ?Hlen, ?length_insert; try done.
    + eapply slots_ok_calm; [done|]. intros r Hr'. rewrite Hcr by done. destruct (decide (r = d)); [|by left]. right. intros x [= <-]. by exists TaskState.Sleeping.
    + assert (Hnd : forall r, r ∈ l -> r <> d) by (intros r Hrl ->; destruct (queued_at _ _ _ _ _ _ _ Hl Hrl); congruence).
      exists l. eapply queued_cores; [done| |].
      * intros r Hrl. rewrite Hat by by eapply queued_refs. rewrite decide_False; [done|]. by apply Hnd.
      * intros r Hrl. unfold ForwardOrigin.is_relocated. cbn. destruct (decide (Z.to_nat (TaskRef.index r) = i)) as [E|E]; [|by rewrite list_lookup_insert_ne].
        exfalso. apply Hslot with r; [by eapply queued_refs|by eapply queued_at|done]. 
  - split.
    + intros r pip _. unfold husk_in. cbn. split; intros [Hr' (x & Hx & Hx' & Hx'')]; (split; [done|]).
      * rewrite Hcr in Hx by done. destruct (decide (r = d)); [|by exists x]. injection Hx as <-. by destruct Hlive.
      * exists x. rewrite Hcr by done. rewrite decide_False; [done|]. intros ->. congruence.
    + intros r d' pip _ [[Hr' (x & Hx & Hx')] Hlk]. split; [|done]. split; [done|]. exists x. cbn. rewrite Hcr by done. rewrite decide_False; [done|]. intros ->. congruence.
    + intros j d' pip o' _ _ (Hd' & Hj & x & Hx & Hx'). split_and!; [done|done|]. exists x. cbn. rewrite Hcr by done. rewrite decide_False; [done|]. intros ->. congruence.
  - pose proof (hosted_in_set sh i None (Some (ForwardOrigin.mkOrigin v (victim_key task))) Hent) as Hh. cbn [option_list fmap option_fmap option_map] in Hh.
    rewrite app_nil_r in Hh. exact Hh.
  - exists i. split_and!; [done|done|]. split_and!; [done|done|]. exists (bare (body task)). cbn. rewrite Hcr, decide_True by done. done.
Qed.
End receive.

Lemma receive_inv n t : inv n -> op_ok n (Receive t) -> exists n', exec n (Receive t) = Ret n' /\ inv n'.
Proof.
  intros I [sh Ht]. cbn [exec]. unfold at_worker, one, receive_one, pop_handoff. rewrite Ht. pose proof (iv_shards n I _ _ Ht) as K. rewrite (sk_id _ _ K).
  destruct (ring_slot (handoffs (rs n)) n _ sh I Ht (rk_handoffs _ (iv_rings _ I))) as [q0 Hq]. rewrite (pop_at_spec _ _ _ Hq). destruct q0 as [|m q]; cbn [mbind outcome_bind].
  { eexists. split; [done|]. rewrite set_handoffs_id, list_insert_id by done. by destruct n. }
  destruct (taken_promise n t sh m q I Ht Hq) as (k & Hp & Hd & Hr & Hk & Ha). destruct m as [d v task|d]; cbn [Thief.receive_handoff msg_dest] in *.
  - destruct (receive_delivered n t sh _ q I Ht Hq d v task eq_refl) as (s & o & Ein & Eo & K1 & Hk1 & Hh1 & i & Hent & Hi & Hhost).
    unfold move_in. rewrite Ein. cbn [mbind outcome_bind]. rewrite Eo. cbn [mbind outcome_bind].
    destruct (wake_received t (set_origins o (set_tasks s sh)) d K1 Hr) as (sh2 & -> & K2 & Hk2 & Ho2). cbn [mbind outcome_bind]. eexists. split; [done|].
    change (set_handoffs (<[t := q]> (handoffs (rs n))) (rs n)) with (taken n t q). set (sh3 := set_pending None sh2) in *.
    assert (Hk3 : keeps none t sh sh3) by exact (kept_trans t sh (set_pending None (set_origins o (set_tasks s sh))) sh3 Ho2 Hk1 Hk2). set (hm := TaskRef.from_slab v (victim_key task)) in *.
    assert (Hcar : carriers (mkNet (<[t := sh3]> (ws n)) (taken n t q)) ≡ₚ carriers n).
    { pose proof (hosted_set (ws n) t sh sh3 Ht) as Hh. assert (E : hosted_in sh3 = hosted_in (set_pending None (set_origins o (set_tasks s sh)))) by (unfold hosted_in; cbn; by rewrite Ho2).
      rewrite E, Hh1 in Hh. pose proof (taken_transit n t _ q Hq) as Htr. cbn [msg_home] in Htr. fold hm in Htr. unfold carriers. cbn [ws rs]. change (noted (taken n t q)) with (noted (rs n)). tally Hh Htr. }
    assert (Hro : routed (mkNet (<[t := sh3]> (ws n)) (taken n t q)) hm d (TaskSlot.pip (body task))).
    { destruct (iv_msgs n I t _ d v task Hq) as (_ & _ & Hro); [set_solver|]. by eapply routed_set. }
    assert (Eo2 : origins sh3 = o) by (cbn; by rewrite Ho2).
    apply (inv_step n t sh sh3 _ none); try done.
    + apply rings_set_handoffs, I.
    + rewrite Hcar. apply I.
    + intros r _ Hin. by rewrite Hcar.
    + by eapply (taken_asks n t sh _ q).
    + by eauto.
    + intros u qu d' v' task' Hu Hm. left. by eapply (taken_msgs n t _ q).
    + intros j o' Ho'. rewrite Eo2, Hent in Ho'. destruct (decide (j = i)) as [-> |Hne].
      * right. rewrite list_lookup_insert_eq in Ho' by done. injection Ho' as <-. exists d, (TaskSlot.pip (body task)). split_and!; [|apply (iv_msgs n I t _ d v task Hq); set_solver|done].
        eapply (kp_host _ _ _ _ Hk2); [| |exact Hhost]; cbn; rewrite ?Ho2; cbn; rewrite Hent; by apply list_lookup_insert_eq.
      * left. by rewrite list_lookup_insert_ne in Ho'.
    + intros u qu note Hu Hn. left. split; [by eauto|by intros []].
    + by eauto.
  - pose proof (sk_wf _ _ K) as W. rewrite Hp, <- Hk in W. destruct (unreserve_ref (tasks sh) _ W) as (s & -> & W' & Hlen & Hat). cbn [mbind outcome_bind]. eexists. split; [done|].
    change (set_handoffs (<[t := q]> (handoffs (rs n))) (rs n)) with (taken n t q).
    assert (K1 : shard_ok t (set_pending None (set_tasks s sh))) by by apply shard_ok_none.
    apply (steal_quiet n t sh); try done.
    + apply rings_set_handoffs, I.
    + apply keeps_cores; [done|]. intros r _. cbn. unfold cores. by rewrite Hat.
    + pose proof (taken_transit n t _ q Hq) as Htr. cbn [msg_home] in Htr. rewrite app_nil_r in Htr. exact Htr.
    + by eapply (taken_asks n t sh _ q).
    + by eauto.
    + intros u qu d' v' task' Hu Hm. by eapply (taken_msgs n t _ q).
    + by eauto.
    + by eauto.
Qed.

(** *** Reporting *)

Lemma settled_spec w s i : open_wf None s -> WorkerId.wf (Z.of_nat w) -> slots_ok (Z.of_nat w) s ->
  exists b, Thief.is_resident_settled s (Z.of_nat i) = Ret b.
Proof.
  intros W Hw Hs. unfold Thief.is_resident_settled. rewrite (SlabOps.get_by_index_spec s i (proj1 W)). unfold SlabOps.view_value. cbn [mbind outcome_bind].
  destruct (SlabSpec.view s i) as [[g v]|] eqn:E; [|by eexists]. cbn. destruct (view_ref _ Hw s i g v (proj1 W) E) as (Hr & _ & _ & Hat).
  destruct (slots_ok_at _ _ _ _ Hs Hr Hat) as (st & Hst). rewrite (st_ok_load _ _ Hst). by eexists.
Qed.

Lemma drop_spec sl st : st_ok sl st -> exists c, TaskCell.drop_in_place_fn (cell sl) = Ret c.
Proof.
  intros H. unfold TaskCell.drop_in_place_fn. pose proof (st_ok_load _ _ H) as E. unfold state in E. rewrite E. cbn [mbind outcome_bind]. destruct H as (_ & H & _).
  unfold TaskCell.drop_future, TaskCell.drop_output. destruct st; try (by eexists); rewrite H; by eexists.
Qed.

(** The resident [d] of slot [i] leaves the thief's slab. *)
Lemma settle_shard w sh i o d pip :
  shard_ok w sh -> ForwardOrigin.entries (origins sh) !! i = Some (Some o) -> host_in w sh i d pip ->
  (forall sl, cores (tasks sh) d = Some sl -> ~ st_ok sl TaskState.Woken) ->
  exists v s, Slab.remove_by_index (tasks sh) (Z.of_nat i) = Ret (Some v, s) /\ (exists st, st_ok v st) /\
    let sh1 := set_origins (ForwardOrigin.mkTable (<[i := None]> (ForwardOrigin.entries (origins sh)))) (set_tasks s sh) in
    shard_ok w sh1 /\ keeps none w sh sh1 /\ hosted_in sh1 ++ [home o] ≡ₚ hosted_in sh.
Proof.
  intros K Ho (Hd & Hi & sl & Hc & Hs & Hp) Hq. pose proof K as [Hid W Hsl [l Hl] Hfw Hor Hrefs Hpend Hcur].
  destruct (cores_open _ _ _ Hc) as (v & Hv & Ev). destruct (remove_ref (Z.of_nat w) (pending_steal sh) (tasks sh) d v Hd W Hv) as (s & Er & W' & Hlen & Hat).
  rewrite Hi in Er. exists v, s. split; [done|]. split; [by eapply slots_ok_at|]. cbv zeta. set (sh1 := set_origins _ _).
  assert (Hcr : forall r, ref_of (Z.of_nat w) r -> cores s r = if decide (r = d) then None else cores (tasks sh) r).
  { intros r Hr. unfold cores. rewrite Hat by done. by destruct (decide (r = d)). }
  split_and!.
  - split; cbn; try done; rewrite ?Hlen, ?length_insert; try done.
    + eapply slots_ok_calm; [done|]. intros r Hr. rewrite Hcr by done. destruct (decide (r = d)); [by right|by left].
    + exists l. eapply queued_cores; [done| |].
      * intros r Hr. rewrite Hat by by eapply queued_refs. rewrite decide_False; [done|]. intros ->.
        destruct (qd_state _ _ _ _ _ _ Hl d sl Hr Hc) as (_ & _ & Hw). apply (Hq sl Hc), Hw. unfold ForwardOrigin.is_relocated. by rewrite Hi, Nat2Z.id, Ho.
      * intros r _. unfold ForwardOrigin.is_relocated. cbn. destruct (decide (Z.to_nat (TaskRef.index r) = i)) as [->|E]; [|by rewrite list_lookup_insert_ne].
        rewrite list_lookup_insert_eq; [done|]. by eapply lookup_lt_Some.
  - split.
    + intros r p _. unfold husk_in. cbn. split; intros [Hr (x & Hx & Hx')]; (split; [done|]); exists x.
      * rewrite Hcr in Hx by done. by destruct (decide (r = d)).
      * rewrite Hcr by done. rewrite decide_False; [done|]. intros ->. naive_solver congruence.
    + intros r d' p _ [[Hr (x & Hx & Hx')] Hlk]. split; [|done]. split; [done|]. exists x. cbn. rewrite Hcr by done. rewrite decide_False; [done|]. intros ->. naive_solver congruence.
    + intros j d' p o' Hj _ (Hd' & Hj' & x & Hx & Hx'). split_and!; [done|done|]. exists x. cbn in Hj |- *. rewrite Hcr by done. rewrite decide_False; [done|]. intros ->.
      assert (j = i) as -> by lia. rewrite list_lookup_insert_eq in Hj; [done|]. by eapply lookup_lt_Some.
  - pose proof (hosted_in_set sh i (Some o) None Ho) as Hh. cbn [option_list fmap option_fmap option_map] in Hh. rewrite app_nil_r in Hh. exact Hh.
Qed.

Lemma report_settled_st v st : st_ok v st -> TaskState.is_terminal st || bool_decide (st = TaskState.Done) = true -> ~ st_ok v TaskState.Woken.
Proof. intros H E Hn. pose proof (st_ok_inj _ _ _ H Hn) as ->. done. Qed.

Lemma set_shard_id sh : set_origins (origins sh) (set_tasks (tasks sh) sh) = sh.
Proof. by destruct sh. Qed.

Lemma report_inv n t i : inv n -> op_ok n (Report t i) -> exists n', exec n (Report t i) = Ret n' /\ inv n'.
Proof.
  intros I (sh & Ht & Hi). cbn [exec]. unfold at_worker, report_one. rewrite Ht. pose proof (iv_shards n I _ _ Ht) as K. pose proof (worker_wf _ _ _ I Ht) as Hwf.
  assert (Same : exists n', Ret (mkNet (<[t := set_origins (origins sh) (set_tasks (tasks sh) sh)]> (ws n)) (rs n)) = Ret n' /\ inv n').
  { eexists. split; [done|]. rewrite set_shard_id, list_insert_id by done. by destruct n. }
  cbn [Thief.report_from]. unfold ForwardOrigin.peek. rewrite Nat2Z.id. destruct (ForwardOrigin.entries (origins sh) !! i) as [[o|]|] eqn:Ho; cbn [default from_option].
  2,3: cbn [mbind outcome_bind]; exact Same.
  change (Datatypes.id (Some o)) with (Some o). cbv iota. destruct (iv_hosts n I _ _ _ _ Ht Ho) as (d & pip & Hhost & Hhm & Hro).
  pose proof Hhost as (Hd & Hdi & sl & Hc & Hs & Hp). destruct (cores_open _ _ _ Hc) as (v & Hv & Ev). pose proof (sk_wf _ _ K) as W.
  destruct (slots_ok_at _ _ _ _ (sk_slots _ _ K) Hd Hv) as (st & Hst). unfold Thief.is_resident_settled.
  rewrite (SlabOps.get_by_index_spec (tasks sh) i (proj1 W)). unfold SlabOps.view_value. destruct (ref_keyed _ d Hd) as (i' & g & Kd).
  rewrite (keyed_ref _ _ _ _ Kd) in Hdi. assert (i' = i) as -> by lia. rewrite (open_view _ _ _ _ _ _ Kd Hv). cbn [mbind outcome_bind fmap option_fmap option_map snd].
  rewrite (st_ok_load _ _ Hst). cbn [mbind outcome_bind]. destruct (TaskState.is_terminal st || bool_decide (st = TaskState.Done)) eqn:Est; cbn [negb]; [|exact Same].
  destruct Hro as (u & shu & Hu & [[Hur Huh] Hlk]). destruct Hhm as [Hk Hid]. destruct (ref_key _ (worker_wf _ _ _ I Hu) _ Hur) as (Hself & _ & _ & Hwid).
  fold (home o) in Hk, Hid. rewrite Hwid in Hid.
  unfold report_note, push_settled. rewrite <- Hid. destruct (ring_slot (settled_notes (rs n)) n _ shu I Hu (rk_notes _ (iv_rings _ I))) as [q Hq]. rewrite (push_at_spec _ _ _ _ _ Hq).
  destruct (_ <? _); cbn [mbind outcome_bind negb]; [|rewrite set_notes_id; exact Same].
  assert (Hnw : forall sl, cores (tasks sh) d = Some sl -> ~ st_ok sl TaskState.Woken).
  { intros sl' E'. rewrite Hc in E'. injection E' as <-. rewrite Ev. by eapply (report_settled_st v). }
  destruct (settle_shard t sh i o d pip K Ho Hhost Hnw) as (v' & s & Er & (st' & Hst') & K1 & Hk1 & Hh1).
  unfold ForwardOrigin.take. rewrite Nat2Z.id, Ho. rewrite Er. cbn [mbind outcome_bind]. destruct (drop_spec v' st' Hst') as (c & ->). cbn [mbind outcome_bind].
  eexists. split; [done|]. set (sh1 := set_origins _ (set_tasks s sh)) in *. set (x := mkNote (ForwardOrigin.victim_key o)).
  set (r' := signal (Z.of_nat u) (set_notes (<[u := q ++ [x]]> (settled_notes (rs n))) (rs n))).
  assert (Hx : TaskRef.from_slab (Z.of_nat u) (note_key x) = home o) by (cbn; by rewrite <- Hk, <- Hself).
  assert (Hcar : carriers (mkNet (<[t := sh1]> (ws n)) r') ≡ₚ carriers n).
  { pose proof (hosted_set (ws n) t sh sh1 Ht) as Hh. pose proof (noted_push (rs n) u q x Hq) as Hn. rewrite Hx in Hn. unfold carriers. cbn [ws rs].
    change (transit r') with (transit (rs n)). change (noted r') with (noted (set_notes (<[u := q ++ [x]]> (settled_notes (rs n))) (rs n))). tally Hh Hn Hh1. }
  apply (inv_step n t sh sh1 r' none); try done.
  + apply rings_signal, rings_set_notes, I.
  + rewrite Hcar. apply I.
  + intros r _ Hin. by rewrite Hcar.
  + eapply promise_set; try done.
  + by eauto.
  + by eauto.
  + intros j o' Hj. left. cbn in Hj. destruct (decide (j = i)) as [-> |Hne]; [|by rewrite list_lookup_insert_ne in Hj].
    rewrite list_lookup_insert_eq in Hj; [done|]. by eapply lookup_lt_Some.
  + intros v0 q0 note Hq0 Hn. destruct (push_elem _ _ _ _ _ _ _ Hq Hq0 Hn) as [|[-> ->]]; [by left|right]. rewrite Hx. split; [exact Hk|].
    exists d, pip. split_and!; [|done|done]. exists u, shu. done.
  + by eauto.
Qed.

(** *** Notes and wakes *)

Definition marked (sl : slot) : slot :=
  mkSlot (cell sl) (TaskSlot.pip sl) (namespace sl) (first_child sl) (next_sibling sl) (wake_data sl)
    (in_flight_ops sl) (is_pinned sl) true (has_polled sl) (io_bound sl) (next_runnable sl).

(** The husk [r] is marked: no longer an unsettled one. *)
Lemma mark_shard w sh r pip note : shard_ok w sh -> husk_in w sh r pip -> TaskRef.key r = note_key note ->
  exists s, mark_settled (tasks sh) note = Ret s /\ shard_ok w (set_tasks s sh) /\ keeps (eq r) w sh (set_tasks s sh) /\
    forall pip, ~ husk_in w (set_tasks s sh) r pip.
Proof.
  intros K [Hr (sl & Hc & Hs & Hset & Hp)] Hk. pose proof K as [Hid W Hsl [l Hl] _ _ _ _ _]. destruct (cores_open _ _ _ Hc) as (v & Hv & Ev).
  assert (Hsv : st_ok v TaskState.Retired) by (rewrite Ev in Hs; exact Hs).
  pose proof (open_get_mut (Z.of_nat w) _ (tasks sh) r W Hr) as Hg. rewrite Hv in Hg. destruct Hg as (st & Eg & Hst). unfold mark_settled. rewrite <- Hk, Eg.
  cbn [mbind outcome_bind]. rewrite (st_ok_load _ _ Hsv). cbn [mbind outcome_bind]. rewrite bool_decide_eq_true_2 by done. change (mkSlot _ _ _ _ _ _ _ _ true _ _ _) with (marked v).
  exists (st (marked v)). split; [done|]. destruct (Hst (marked v)) as (W' & Hlen & Hat).
  assert (Hcr : forall r', ref_of (Z.of_nat w) r' -> cores (st (marked v)) r' = if decide (r' = r) then Some (bare (marked v)) else cores (tasks sh) r').
  { intros r' Hr'. unfold cores. rewrite Hat by done. by destruct (decide (r' = r)). }
  assert (Hne : forall r', ref_of (Z.of_nat w) r' -> r <> r' -> cores (st (marked v)) r' = cores (tasks sh) r') by (intros r' Hr' Hn; rewrite Hcr by done; by rewrite decide_False).
  split_and!.
  - change (set_tasks (st (marked v)) sh) with (set_queue (run_queue sh) (set_tasks (st (marked v)) sh)). apply shard_ok_set; try done.
    + eapply slots_ok_calm; [done|]. intros r' Hr'. rewrite Hcr by done. destruct (decide (r' = r)); [|by left]. right. intros x [= <-]. exists TaskState.Retired.
      destruct Hsv as (H1 & H2 & _). by split.
    + exists l. eapply queued_cores; [done| |by auto]. intros r' Hr'. rewrite Hat by by eapply queued_refs. rewrite decide_False; [done|]. intros ->.
      destruct (qd_state _ _ _ _ _ _ Hl r sl Hr' Hc) as (_ & Hn & _). by apply Hn.
  - split.
    + intros r' p Hn. unfold husk_in. cbn. split; intros [Hr' H]; (split; [done|]); [rewrite Hne in H by done|rewrite Hne by done]; done.
    + intros r' d' p Hn [[Hr' (x & Hx & Hx')] Hl']. split; [|done]. split; [done|]. exists x. cbn. by rewrite Hne.
    + intros i d' p o _ _ (Hd' & Hi & x & Hx & Hx' & Hx''). split_and!; [done|done|]. exists x. cbn. rewrite Hne; [done|done|]. intros <-. congruence.
  - intros p [_ (x & Hx & _ & Hx' & _)]. cbn in Hx. rewrite Hcr, decide_True in Hx by done. injection Hx as <-. done.
Qed.

Lemma note_inv n v : inv n -> op_ok n (Note v) -> exists n', exec n (Note v) = Ret n' /\ inv n'.
Proof.
  intros I [sh Hv]. cbn [exec]. unfold at_worker, one, note_one, pop_settled. rewrite Hv. pose proof (iv_shards n I _ _ Hv) as K. rewrite (sk_id _ _ K).
  destruct (ring_slot (settled_notes (rs n)) n _ sh I Hv (rk_notes _ (iv_rings _ I))) as [q0 Hq]. rewrite (pop_at_spec _ _ _ Hq). destruct q0 as [|x q]; cbn [mbind outcome_bind].
  { eexists. split; [done|]. rewrite set_notes_id, list_insert_id by done. by destruct n. }
  destruct (iv_notes n I _ _ x Hq) as (sh0 & pip & Hv0 & Hk & Hh); [set_solver|]. rewrite Hv in Hv0. injection Hv0 as <-. set (r := TaskRef.from_slab (Z.of_nat v) (note_key x)) in *.
  destruct (mark_shard v sh r pip x K Hh Hk) as (s & -> & K1 & Hk1 & Hgone). cbn [mbind outcome_bind]. eexists. split; [done|].
  set (r' := set_notes (<[v := q]> (settled_notes (rs n))) (rs n)). set (sh1 := set_tasks s sh) in *.
  pose proof (noted_pop (rs n) v q x Hq) as Hn. fold r r' in Hn. pose proof (iv_once n I) as Hnd.
  assert (Hcar : carriers (mkNet (<[v := sh1]> (ws n)) r') ++ [r] ≡ₚ carriers n).
  { pose proof (hosted_set (ws n) v sh sh1 Hv) as Hho. change (hosted_in sh1) with (hosted_in sh) in Hho. unfold carriers. cbn [ws rs]. change (transit r') with (transit (rs n)). tally Hho Hn. }
  assert (Hnd' := Hnd). rewrite <- Hcar in Hnd'. apply NoDup_app in Hnd' as (Hnd1 & Hdisj & _).
  assert (Hrn : r ∈ noted (rs n)) by (rewrite <- Hn; set_solver).
  assert (Hrf : r ∉ transit (rs n) /\ r ∉ hosted (ws n)).
  { unfold carriers in Hnd. apply NoDup_app in Hnd as (_ & H1 & Hnd). apply NoDup_app in Hnd as (_ & H2 & _). split; intros H; [apply (H1 r H)|apply (H2 r H)]; set_solver. }
  apply (inv_step n v sh sh1 r' (eq r)); try done.
  - apply rings_set_notes, I.
  - by intros ? <-.
  - intros y Hy Hin. rewrite <- Hcar in Hin. apply elem_of_app in Hin as [Hin|Hin]; [done|]. apply list_elem_of_singleton in Hin. by destruct Hy.
  - intros ? p <- (u & shu & Hu & Hhu). exfalso. apply (set_lookup _ _ sh) in Hu as [[-> ->]|[Hne _]]; [by apply (Hgone p)| |done].
    destruct Hhu as [Hru _], Hh as [Hrv _]. pose proof (ref_worker _ _ _ Hru Hrv). lia.
  - eapply promise_set; try done.
  - by eauto.
  - by eauto.
  - by eauto.
  - intros u qu note Hu Hy. left. split; [exact (pop_elem _ _ _ _ _ _ _ Hq Hu Hy)|]. intros E. apply (Hdisj r); [|set_solver].
    unfold carriers. rewrite !elem_of_app. right. right. apply elem_noted. by exists u, qu, note.
  - by eauto.
Qed.

Lemma inv_inboxes n tbl sg : inv n -> length tbl = Z.to_nat INBOX_SLOTS -> (forall v q r, tbl !! v = Some q -> r ∈ q -> ref_of (Z.of_nat v) r) ->
  inv (mkNet (ws n) (mkRings tbl (steal_requests (rs n)) (handoffs (rs n)) (settled_notes (rs n)) sg)).
Proof. intros I Hl Hr. destruct I. split; try done. destruct iv_rings0. by split. Qed.

Lemma enqueue_inv n r t : inv n -> ref_of t r ->
  exists b r', enqueue r (rs n) = Ret (b, r') /\ inv (mkNet (ws n) r') /\ forall x, inv (mkNet (ws n) (signal x r')).
Proof.
  intros I Hr. pose proof Hr as [Hw _]. destruct (ref_key t Hw r Hr) as (_ & _ & _ & E). unfold enqueue. rewrite E.
  assert (Hlt : (Z.to_nat t < length (inboxes (rs n)))%nat).
  { rewrite (rk_inboxes _ (iv_rings _ I)). unfold WorkerId.wf, WorkerId.MAX, WorkerId.MAX_WORKERS in Hw. change INBOX_SLOTS with 128. lia. }
  apply lookup_lt_is_Some_2 in Hlt as [q Hq]. assert (Et : t = Z.of_nat (Z.to_nat t)) by (destruct Hw; lia). 
  assert (Ep : push_at INBOX_CAPACITY t r (inboxes (rs n)) = push_at INBOX_CAPACITY (Z.of_nat (Z.to_nat t)) r (inboxes (rs n))) by by rewrite <- Et.
  rewrite Ep, (push_at_spec _ _ _ _ _ Hq).
  destruct (_ <? _); cbn [mbind outcome_bind].
  - exists true. eexists. split; [done|]. assert (H : forall sg, inv (mkNet (ws n) (mkRings (<[Z.to_nat t := q ++ [r]]> (inboxes (rs n))) (steal_requests (rs n)) (handoffs (rs n)) (settled_notes (rs n)) sg))).
    { intros sg. apply inv_inboxes; [done|rewrite length_insert; apply I|]. intros v q' y Hv Hy. destruct (push_elem _ _ _ _ _ _ _ Hq Hv Hy) as [(q2 & H1 & H2)|[-> ->]].
      - by eapply (iv_inbox n I).
      - by rewrite <- Et. }
    split; [apply H|]. intros x. apply H.
  - exists false. eexists. split; [done|]. rewrite set_inboxes_id. split; [by destruct n|]. intros x. apply inv_inboxes; [done|apply I|apply I].
Qed.

Lemma wake_inv n v : inv n -> op_ok n (Wake v) -> exists n', exec n (Wake v) = Ret n' /\ inv n'.
Proof.
  intros I [sh Hv]. cbn [exec]. unfold at_worker, one, wake_one, pop. rewrite Hv. pose proof (iv_shards n I _ _ Hv) as K. rewrite (sk_id _ _ K).
  destruct (ring_slot (inboxes (rs n)) n _ sh I Hv (rk_inboxes _ (iv_rings _ I))) as [q0 Hq]. rewrite (pop_at_spec _ _ _ Hq). destruct q0 as [|r q]; cbn [mbind outcome_bind].
  { eexists. split; [done|]. rewrite set_inboxes_id, list_insert_id by done. by destruct n. }
  pose proof (iv_inbox n I _ _ r Hq ltac:(set_solver)) as Hr. set (r1 := set_inboxes (<[v := q]> (inboxes (rs n))) (rs n)).
  assert (I1 : inv (mkNet (ws n) r1)).
  { apply inv_inboxes; [done|rewrite length_insert; apply I|]. intros u qu y Hu Hy. destruct (pop_elem _ _ _ _ _ _ _ Hq Hu Hy) as (q2 & H1 & H2). by eapply (iv_inbox n I). }
  assert (Same : inv (mkNet (<[v := sh]> (ws n)) r1)) by by rewrite list_insert_id.
  unfold wake_or_forward. rewrite (open_get _ _ _ _ (sk_wf _ _ K) Hr). cbn [mbind outcome_bind].
  set (stay := match ForwardTable.lookup _ _ with None => _ | Some _ => _ end).
  assert (Fwd : exists n', ('(_, sh, r) ← ('(sh, r) ← stay; Ret (true, sh, r)); Ret (sh, r)) ≫= (fun '(sh, r) => Ret (mkNet (<[v := sh]> (ws n)) r)) = Ret n' /\ inv n').
  { unfold stay. destruct (ForwardTable.lookup (forward sh) (TaskRef.key r)) as [nr|] eqn:El; [|by eexists].
    assert (Hnr : exists t, ref_of t nr).
    { unfold ForwardTable.lookup in El. destruct (ForwardTable.entries (forward sh) !! _) as [[e|]|] eqn:Ee; [|done..]. destruct (_ =? _); [|done]. injection El as <-. by eapply (sk_refs _ _ K). }
    destruct Hnr as [t Hnr]. destruct (enqueue_inv _ nr t I1 Hnr) as (b & r2 & Ee & H1 & H2). cbn [rs] in Ee. rewrite Ee. cbn [mbind outcome_bind]. eexists. split; [done|].
    rewrite list_insert_id by done. destruct b; [apply H2|apply H1]. }
  destruct (open_at (tasks sh) r) as [sl|] eqn:Er; [|exact Fwd].
  destruct (slots_ok_at _ _ _ _ (sk_slots _ _ K) Hr Er) as (st & Hst). rewrite (st_ok_load _ _ Hst). cbn [mbind outcome_bind]. case_bool_decide; cbn [negb]; [exact Fwd|].
  destruct (wake_local_ok v sh r K Hr) as (s & q' & -> & K' & Hk). cbn [mbind outcome_bind]. eexists. split; [done|].
  by apply (inv_local (mkNet (ws n) r1) v sh).
Qed.

Lemma exec_inv n o : inv n -> op_ok n o -> exists n', exec n o = Ret n' /\ inv n'.
Proof.
  intros I Ho. destruct o; [by apply steal_inv|by apply serve_inv|by apply receive_inv|by apply report_inv|by apply note_inv|by apply wake_inv|].
  destruct Ho as [w Hw]. destruct (enqueue_inv n task_ref w I Hw) as (b & r' & E & H1 & H2). cbn [exec]. rewrite E. cbn [mbind outcome_bind]. eexists. split; [done|].
  destruct b; [apply H2|apply H1].
Qed.

(** *** The rest of the worker *)

(** What the protocol relies on between its steps: the worker keeps its slab
    and queue in order, neither makes nor settles husks, and leaves the
    residents it hosts in place. *)
Record rely (w : nat) (sh sh' : shard) : Prop := {
  rl_ok : shard_ok w sh';
  rl_keeps : keeps none w sh sh';
  rl_origins : origins sh' = origins sh;
  rl_pending : pending_steal sh' = pending_steal sh;
}.

(** Spawning a task. *)
Lemma rely_spawn w sh pip ns : WorkerId.wf (Z.of_nat w) -> shard_ok w sh ->
  match Slab.insert (tasks sh) (TaskSlot.new pip ns) with
  | Ret (Ok _, s) => rely w sh (set_tasks s sh)
  | Ret (Err _, s) => s = tasks sh
  | _ => False
  end.
Proof.
  intros Hwf K. pose proof K as [Hid [W Hp] Hsl [l Hl] _ _ _ _ _]. pose proof (SlabOps.insert_spec (tasks sh) (TaskSlot.new pip ns) W) as H.
  destruct (Slab.insert (tasks sh) _) as [[[key|[]] s]| | |] eqn:E; try done; [|apply H]. destruct H as (W' & Hlive & Hnone & _ & Hv & Hlen).
  assert (Hk : key = SlabKey.new (SlabKey.index key) (SlabKey.generation key)).
  { unfold Slab.insert in E. destruct W as [fl W]. destruct (Z.eqb_spec (Slab.free_head (tasks sh)) Slab.FREE_SENTINEL) as [|Hh]; [done|].
    destruct (SlabOps.head_slot _ _ W Hh) as (i & fl' & sl & -> & Hhd & Hi & Ho & Hg).
    rewrite (SlabOps.slot_at_nat _ _ i Hhd), Hi in E. fold (SlabSpec.occ sl) in E. rewrite Ho in E.
    apply outcome_bind_Ret in E as (m & _ & E). injection E as <- _. rewrite Hhd.
    pose proof (SlabSpec.wf_index _ _ _ _ W Hi). rewrite SlabKey.index_new, SlabKey.generation_new by (done || apply Generation.next_wf). done. }
  destruct (key_of_new _ Hwf key Hlive Hk) as [Hr Hkr]. set (r := TaskRef.from_slab (Z.of_nat w) key) in *. destruct (ref_keyed _ r Hr) as (i & g & Kr).
  assert (Ei : SlabSpec.key_index key = i) by (rewrite <- Hkr; apply Kr). assert (Eg : SlabKey.generation key = g) by (rewrite <- Hkr; apply Kr). rewrite Ei, Eg in *.
  assert (Hat : forall r', ref_of (Z.of_nat w) r' -> open_at s r' = if decide (r' = r) then Some (TaskSlot.new pip ns) else open_at (tasks sh) r').
  { intros r' Hr'. apply (open_upd (Z.of_nat w) (tasks sh) s r i g (Some (g, TaskSlot.new pip ns))); [done|done|by intros ? [= <-]|by rewrite Hnone|done]. }
  assert (Hn : open_at (tasks sh) r = None) by (unfold open_at, SlabSpec.lookup; by rewrite (k_index _ _ _ _ Kr), Hnone).
  assert (Hcr : forall r', ref_of (Z.of_nat w) r' -> cores s r' = if decide (r' = r) then Some (TaskSlot.new pip ns) else cores (tasks sh) r').
  { intros r' Hr'. unfold cores. rewrite Hat by done. by destruct (decide (r' = r)). }
  assert (Hc0 : cores (tasks sh) r = None) by (unfold cores; by rewrite Hn).
  assert (Hnew : st_ok (TaskSlot.new pip ns) TaskState.Sleeping) by (by split_and!).
  split; [| |done|done].
  - change (set_tasks s sh) with (set_queue (run_queue sh) (set_tasks s sh)). apply shard_ok_set; try done.
    + split; [done|]. destruct (pending_steal sh) as [k|]; [|done]. cbn in *.
      eapply (SlabTrace.promised_step (tasks sh) (SlabTrace.OInsert (TaskSlot.new pip ns))); [done|done|cbn; rewrite E; reflexivity|by intros []|done].
    + eapply slots_ok_calm; [done|]. intros r' Hr'. rewrite Hcr by done. destruct (decide (r' = r)); [|by left]. right. intros x [= <-]. by exists TaskState.Sleeping.
    + exists l. eapply queued_cores; [done| |by auto]. intros r' Hr'. rewrite Hat by by eapply queued_refs. rewrite decide_False; [done|]. intros ->.
      destruct (queued_at _ _ _ _ _ _ _ Hl Hr'). congruence.
  - assert (Hd : forall r', ref_of (Z.of_nat w) r' -> is_Some (cores (tasks sh) r') -> cores s r' = cores (tasks sh) r').
    { intros r' Hr' [x Hx]. rewrite Hcr by done. rewrite decide_False; [done|]. intros ->. congruence. }
    split.
    + intros r' p _. unfold husk_in. cbn. split; intros [Hr' (x & Hx & Hx' & Hx'')]; (split; [done|]); exists x.
      * rewrite Hcr in Hx by done. destruct (decide (r' = r)); [|done]. injection Hx as <-. by pose proof (st_ok_inj _ _ _ Hnew Hx').
      * rewrite Hd; [done|done|by eexists].
    + intros r' d' p _ [[Hr' (x & Hx & Hx')] Hlk]. split; [|done]. split; [done|]. exists x. cbn. rewrite Hd; [done|done|by eexists].
    + intros j d' p o _ _ (Hd' & Hj & x & Hx & Hx'). split_and!; [done|done|]. exists x. cbn. rewrite Hd; [done|done|by eexists].
Qed.

(** Moving a live task on: a poll, a wake, a cancel. *)
Lemma rely_write w sh r v v' : shard_ok w sh -> ref_of (Z.of_nat w) r -> open_at (tasks sh) r = Some v ->
  ~ st_ok v TaskState.Retired -> (exists st, st_ok v' st /\ st <> TaskState.Retired) -> TaskSlot.pip v' = TaskSlot.pip v ->
  (forall l, queued (Z.of_nat w) None (origins sh) (tasks sh) (run_queue sh) l -> r ∉ l) ->
  exists s, Victim.write_back (tasks sh) (TaskRef.key r) v' = Ret s /\ rely w sh (set_tasks s sh).
Proof.
  intros K Hr Hv Hs (st & Hst & Hne) Hp Hq. pose proof K as [Hid W Hsl [l Hl] _ _ _ _ _].
  destruct (write_back_spec _ _ (tasks sh) r v v' W Hr Hv) as (s & Ew & W' & Hlen & Hat). exists s. split; [done|].
  assert (Hcr : forall r', ref_of (Z.of_nat w) r' -> cores s r' = if decide (r' = r) then Some (bare v') else cores (tasks sh) r').
  { intros r' Hr'. unfold cores. rewrite Hat by done. by destruct (decide (r' = r)). }
  split; [| |done|done].
  - change (set_tasks s sh) with (set_queue (run_queue sh) (set_tasks s sh)). apply shard_ok_set; try done.
    + eapply slots_ok_calm; [done|]. intros r' Hr'. rewrite Hcr by done. destruct (decide (r' = r)); [|by left]. right. intros x [= <-]. by exists st.
    + exists l. eapply queued_cores; [done| |by auto]. intros r' Hr'. rewrite Hat by by eapply queued_refs. rewrite decide_False; [done|]. intros ->. by eapply Hq.
  - apply keeps_calm; [done|]. intros r' Hr'. cbn. rewrite Hcr by done. destruct (decide (r' = r)) as [-> |]; [|by left]. right.
    exists (bare v), (bare v'). rewrite (open_cores _ _ _ Hv). split_and!; try done. intros Hn. by apply Hne, (st_ok_inj _ _ _ Hst).
Qed.

Inductive reach (cap : Z) : net -> Prop :=
| reach_start l : (length l <= 128)%nat -> 0 <= cap < 2 ^ 32 ->
    (forall i sh, l !! i = Some sh -> shard_new (Z.of_nat i) cap = Ret sh) -> reach cap (mkNet l StealRings.start)
| reach_exec n o n' : reach cap n -> op_ok n o -> exec n o = Ret n' -> reach cap n'
| reach_local n w sh sh' : reach cap n -> ws n !! w = Some sh -> rely w sh sh' -> reach cap (mkNet (<[w := sh']> (ws n)) (rs n)).

Lemma start_entry {A} k (i : nat) (o : A) : replicate k None !! i = Some (Some o) -> False.
Proof. intros [H _]%lookup_replicate. done. Qed.

Lemma start_ring {A} k (i : nat) (q : list A) x : replicate k [] !! i = Some q -> x ∈ q -> False.
Proof. intros [-> _]%lookup_replicate H. by apply elem_of_nil in H. Qed.

Lemma start_shard cap i sh : 0 <= cap < 2 ^ 32 -> shard_new i cap = Ret sh ->
  exists s, SlabSpec.wf s /\ (forall r, open_at s r = None) /\ length (Slab.slots s) = Z.to_nat cap /\
    sh = mkShard i s RunQueue.new (ForwardTable.new cap) (ForwardOrigin.new cap) 0 None.
Proof.
  intros Hc E. unfold shard_new in E. destruct (SlabOps.new_spec (V := slot) cap Hc) as (s & Es & W & _ & Hcap & Hv). rewrite Es in E. cbn [mbind outcome_bind] in E.
  apply Ret_inj in E. exists s. split_and!; [done| |unfold Slab.capacity in Hcap; lia|done]. intros r. unfold open_at, SlabSpec.lookup. by rewrite Hv.
Qed.

Lemma steal_reach_inv cap n : reach cap n -> inv n.
Proof.
  induction 1 as [l Hlen Hcap Hl|n o n' _ IH Ho E|n w sh sh' _ IH Hw [H1 H2 H3 H4]].
  - assert (Hno : forall i sh, l !! i = Some sh -> (forall r, open_at (tasks sh) r = None) /\ origins sh = ForwardOrigin.new cap /\ pending_steal sh = None).
    { intros i sh Hi. destruct (start_shard _ _ _ Hcap (Hl i sh Hi)) as (s & _ & Hv & _ & ->). done. }
    assert (Hc : carriers (mkNet l StealRings.start) = []).
    { unfold carriers. cbn [ws rs]. unfold transit, noted. cbn [handoffs settled_notes StealRings.start]. rewrite !gather_replicate by done. rewrite app_nil_r. cbn [app].
      apply elem_of_nil_inv. intros r (t & sh & i & o & Ht & Ho & _)%elem_hosted. destruct (Hno _ _ Ht) as (_ & E & _). rewrite E in Ho. cbn in Ho. exact (False_ind _ (start_entry _ _ _ Ho)). }
    split; cbn [ws rs].
    + change INBOX_SLOTS with 128. lia.
    + split; cbn; by rewrite length_replicate.
    + intros w sh Hw. destruct (start_shard _ _ _ Hcap (Hl w sh Hw)) as (s & W & Hv & Hsl & ->). split; cbn; rewrite ?length_replicate; try done.
      * intros r v _. unfold cores. by rewrite Hv.
      * exists []. split; [apply RunQueueSpec.queue_holds_new|]. intros r sl H. by apply elem_of_nil in H.
      * intros i e H. by apply start_entry in H.
    + rewrite Hc. constructor.
    + intros r pip (w & sh & Hw & _ & sl & E & _). cbn in Hw. unfold cores in E. destruct (Hno _ _ Hw) as (Hv & _). by rewrite Hv in E.
    + intros t sh Ht. unfold promise. destruct (Hno _ _ Ht) as (_ & _ & ->). unfold asks. cbn [steal_requests handoffs StealRings.start]. rewrite gather_replicate by done.
      destruct (replicate _ [] !! t) as [q|] eqn:E; [|done]. apply lookup_replicate in E as [-> _]. done.
    + intros v q x H1 H2. by destruct (start_ring _ _ _ _ H1 H2).
    + intros t q d v task H1 H2. by destruct (start_ring _ _ _ _ H1 H2).
    + intros t sh i o Ht Ho. destruct (Hno _ _ Ht) as (_ & E & _). rewrite E in Ho. cbn in Ho. by apply start_entry in Ho.
    + intros v q x H1 H2. by destruct (start_ring _ _ _ _ H1 H2).
    + intros v q x H1 H2. by destruct (start_ring _ _ _ _ H1 H2).
  - destruct (exec_inv n o IH Ho) as (n2 & E2 & I2). congruence.
  - by eapply inv_local.
Qed.

(** *** The claims *)

(** C12: in every state the crew reaches, and whatever its workers do between
    the steps of the protocol, each unsettled husk has exactly one carrier (the
    body in transport, the body hosted by a thief, or its settled note) and
    each carrier such a husk; a body in transport is the only message on its
    thief's ring and answers that thief's standing promise; a body in transport
    or hosted is where the route of its husk says, under the identity of the
    husk, and alive; and no step panics, reads a moved cell or runs out of fuel. *)
Theorem steal_exactly_once cap n :
  reach cap n ->
  NoDup (carriers n) /\
  (forall r, r ∈ carriers n <-> exists pip, husked n r pip) /\
  (forall t sh q d v task, ws n !! t = Some sh -> handoffs (rs n) !! t = Some q -> Delivered d v task ∈ q ->
     q = [Delivered d v task] /\ pending_steal sh = Some (TaskRef.key d) /\
     routed n (TaskRef.from_slab v (victim_key task)) d (pip (body task))) /\
  (forall t sh i o, ws n !! t = Some sh -> ForwardOrigin.entries (origins sh) !! i = Some (Some o) ->
     exists d pip, host_in t sh i d pip /\ routed n (home o) d pip) /\
  (forall o, op_ok n o -> exists n', exec n o = Ret n').
Proof.
  intros H. pose proof (steal_reach_inv _ _ H) as I. split_and!.
  - apply I.
  - intros r. split; [by apply carrier_husked|]. intros (pip & Hh). by eapply (iv_cover n I).
  - intros t sh q d v task Ht Hq Hm. destruct (iv_msgs n I _ _ _ _ _ Hq Hm) as (_ & _ & Hro). pose proof (iv_asks n I _ _ Ht) as Ha.
    unfold asks in Ha. rewrite Hq in Ha. change (default [] (Some q)) with q in Ha. pose proof (Permutation_length Ha) as Hl. rewrite length_app, length_fmap in Hl.
    pose proof (promise_length t sh). destruct q as [|m [|m' q]]; [by apply elem_of_nil in Hm| |cbn [length] in Hl; lia]. apply list_elem_of_singleton in Hm. subst m.
    destruct (taken_promise n t sh _ [] I Ht Hq) as (k & Hp & _ & _ & Hk & _). split_and!; [done| |done]. by rewrite Hp, <- Hk.
  - intros t sh i o Ht Ho. destruct (iv_hosts n I _ _ _ _ Ht Ho) as (d & pip & ? & _ & ?). by exists d, pip.
  - intros o Ho. destruct (exec_inv n o I Ho) as (n' & E & _). by exists n'.
Qed.

(** C13: a wake that names the husk of a hosted task is passed on, to the worker
    that hosts it, under the reference at which the live body with the husk's
    identity is found. *)
Theorem steal_wake_follows cap n t sh i o :
  reach cap n -> ws n !! t = Some sh -> ForwardOrigin.entries (origins sh) !! i = Some (Some o) ->
  exists v shv d hk sl, ws n !! v = Some shv /\ open_at (tasks shv) (home o) = Some hk /\ open_at (tasks sh) d = Some sl /\
    TaskSlot.pip sl = TaskSlot.pip hk /\ ~ st_ok sl TaskState.Retired /\ TaskRef.worker_id d = Z.of_nat t /\ TaskRef.index d = Z.of_nat i /\
    wake_or_forward shv (rs n) (home o) =
      '(pushed, r) ← enqueue d (rs n); Ret (shv, if pushed : bool then signal (Z.of_nat t) r else r).
Proof.
  intros H Ht Ho. pose proof (steal_reach_inv _ _ H) as I.
  destruct (iv_hosts n I _ _ _ _ Ht Ho) as (d & pip & (Hd & Hi & sl & Hc & Hs & Hp) & _ & (v & shv & Hv & [[Hr (hk & Hhk & Hret & _ & Hpp)] Hlk])).
  destruct (cores_open _ _ _ Hc) as (x & Hx & Ex), (cores_open _ _ _ Hhk) as (y & Hy & Ey). subst sl hk.
  destruct (ref_key _ (worker_wf _ _ _ I Ht) _ Hd) as (_ & _ & _ & Hwid).
  exists v, shv, d, y, x. split_and!; try done.
  - change (TaskSlot.pip x = pip) in Hp. change (TaskSlot.pip y = pip) in Hpp. congruence.
  - unfold wake_or_forward. rewrite (open_get _ _ _ _ (sk_wf _ _ (iv_shards n I _ _ Hv)) Hr), Hy. cbn [mbind outcome_bind]. rewrite (st_ok_load y _ Hret). cbn [mbind outcome_bind].
    rewrite bool_decide_eq_true_2 by done. cbn [negb]. rewrite Hlk, Hwid. done.
Qed.

(** *** A run *)

Fixpoint run (n : net) (os : list op) : outcome net :=
  match os with [] => Ret n | o :: os => n ← exec n o; run n os end.

Definition demo_shard (i : Z) : shard :=
  mkShard i (Slab.mkSlab [Slab.mkSlot 0 1 None; Slab.mkSlot 0 Slab.FREE_SENTINEL None] 0 0) RunQueue.new (ForwardTable.new 2) (ForwardOrigin.new 2) 0 None.

Definition demo_task : slot := TaskSlot.new 7 0.
Definition demo_ready : slot := set_has_polled true demo_task.

(** Worker 0 has spawned a task and polled it once. *)
Definition demo_spawned (v : slot) : shard :=
  set_tasks (Slab.mkSlab [Slab.mkSlot 1 Slab.FREE_SENTINEL (Some v); Slab.mkSlot 0 Slab.FREE_SENTINEL None] 1 1) (demo_shard 0).

Definition demo_begin : net := mkNet [demo_spawned demo_ready; demo_shard 1] StealRings.start.

(** Worker 1 steals it. *)
Definition demo_moved : net := match run demo_begin [Steal 1 0 2; Serve 0; Receive 1] with Ret n => n | _ => demo_begin end.

Lemma demo_reach_begin : reach 2 demo_begin.
Proof.
  assert (H0 : reach 2 (mkNet [demo_shard 0; demo_shard 1] StealRings.start)).
  { apply reach_start; [cbn; lia|lia|]. intros [|[|i]] sh [= <-]; vm_compute; reflexivity. }
  pose proof (iv_shards _ (steal_reach_inv _ _ H0) 0%nat _ eq_refl) as K0. assert (Hwf : WorkerId.wf (Z.of_nat 0)) by (unfold WorkerId.wf, WorkerId.MAX, WorkerId.MAX_WORKERS; lia).
  pose proof (rely_spawn 0 _ 7 0 Hwf K0) as H1. change (Slab.insert (tasks (demo_shard 0)) (TaskSlot.new 7 0)) with
    (Ret (@Ok Slab.SlabError Z (SlabKey.new 0 1), tasks (demo_spawned demo_task))) in H1. cbv iota in H1.
  pose proof (reach_local _ _ 0%nat _ _ H0 eq_refl H1) as H2. pose proof (rl_ok _ _ _ H1) as K1.
  set (r := TaskRef.from_slab 0 (SlabKey.new 0 1)). assert (Hr : ref_of (Z.of_nat 0) r) by (split; [done|]; exists 0, 1; done).
  destruct (rely_write 0 (demo_spawned demo_task) r demo_task demo_ready K1 Hr) as (s & Es & H3); try done.
  - by intros [[=] _].
  - exists TaskState.Sleeping. by split_and!.
  - intros l [Hh _]. pose proof (RunQueueSpec.q_head _ _ _ Hh) as E. destruct l; [|done]. set_solver.
  - change (Victim.write_back (tasks (demo_spawned demo_task)) (TaskRef.key r) demo_ready) with (Ret (tasks (demo_spawned demo_ready))) in Es.
    apply Ret_inj in Es. subst s. exact (reach_local _ _ 0%nat _ _ H2 eq_refl H3).
Qed.

Lemma exec_length n o n' : exec n o = Ret n' -> length (ws n') = length (ws n).
Proof.
  assert (Hat : forall i f, at_worker i f n = Ret n' -> length (ws n') = length (ws n)).
  { intros i f. unfold at_worker. destruct (ws n !! i); [|done]. intros ([sh r] & _ & E)%outcome_bind_Ret. apply Ret_inj in E. subst n'. cbn. apply length_insert. }
  destruct o; cbn [exec]; try apply Hat. intros ([b r] & _ & E)%outcome_bind_Ret. apply Ret_inj in E. by subst n'.
Qed.

Lemma reach_run cap n os n' : reach cap n -> Forall (fun o => forall n1, length (ws n1) = length (ws n) -> op_ok n1 o) os -> run n os = Ret n' -> reach cap n'.
Proof.
  revert n. induction os as [|o os IH]; intros n H Hok E; cbn in E; [by apply Ret_inj in E as <-|].
  apply Forall_cons in Hok as [Ho Hok]. destruct (exec n o) as [n1| | |] eqn:E1; try done. apply (IH n1); [by eapply reach_exec; [..|exact E1]; [|apply Ho]| |done].
  rewrite (exec_length _ _ _ E1). done.
Qed.

Lemma demo_reach : reach 2 demo_moved.
Proof.
  eapply (reach_run _ demo_begin [Steal 1 0 2; Serve 0; Receive 1] demo_moved demo_reach_begin); [|vm_compute; reflexivity].
  assert (Hs : forall i n1, (i < 2)%nat -> length (ws n1) = length (ws demo_begin) -> is_Some (ws n1 !! i)) by (intros i n1 Hi Hn; apply lookup_lt_is_Some_2; by rewrite Hn).
  constructor; [|constructor; [|constructor; [|constructor]]]; intros n1 Hn; cbn [op_ok]; [|by apply Hs; [lia|]|by apply Hs; [lia|]].
  split; [by apply Hs; [lia|]|]. rewrite Hn. change (length (ws demo_begin)) with 2%nat. lia.
Qed.

Lemma steal_exactly_once_witness :
  carriers demo_moved = [TaskRef.from_slab 0 (SlabKey.new 0 1)] /\ exists pip, husked demo_moved (TaskRef.from_slab 0 (SlabKey.new 0 1)) pip.
Proof.
  assert (E : carriers demo_moved = [TaskRef.from_slab 0 (SlabKey.new 0 1)]) by (vm_compute; reflexivity). split; [exact E|].
  destruct (steal_exactly_once 2 demo_moved demo_reach) as (_ & H & _). apply H. rewrite E. by apply list_elem_of_singleton.
Defined.

Lemma steal_wake_follows_witness :
  exists v shv d hk sl sh, ws demo_moved !! v = Some shv /\ ws demo_moved !! 1%nat = Some sh /\
    open_at (tasks shv) (TaskRef.from_slab 0 (SlabKey.new 0 1)) = Some hk /\ open_at (tasks sh) d = Some sl /\ TaskSlot.pip sl = TaskSlot.pip hk.
Proof.
  destruct (ws demo_moved !! 1%nat) as [sh|] eqn:Es; [|vm_compute in Es; done].
  destruct (steal_wake_follows 2 demo_moved 1 sh 0 (ForwardOrigin.mkOrigin 0 (SlabKey.new 0 1)) demo_reach Es) as (v & shv & d & hk & sl & H1 & H2 & H3 & H4 & _).
  - vm_compute in Es. injection Es as <-. vm_compute. reflexivity.
  - by exists v, shv, d, hk, sl, sh.
Defined.

(** A settled note left in worker 0's ring by an earlier crew, for a key that
    is in use again, marks the husk of a task that is still running on
    worker 1: the teardown paths empty the request, handoff and wake rings,
    not this one. *)
Definition demo_stale : net :=
  mkNet (ws demo_moved) (set_notes (<[0%nat := [mkNote (SlabKey.new 0 1)]]> (settled_notes (rs demo_moved))) (rs demo_moved)).

Theorem steal_stale_note :
  exists n sh0 sh1 hk sl, exec demo_stale (Note 0) = Ret n /\ ws n !! 0%nat = Some sh0 /\ ws n !! 1%nat = Some sh1 /\
    open_at (tasks sh0) (TaskRef.from_slab 0 (SlabKey.new 0 1)) = Some hk /\ is_remote_settled hk = true /\
    open_at (tasks sh1) (TaskRef.from_slab 1 (SlabKey.new 0 1)) = Some sl /\ TaskState.load (state sl) = Ret TaskState.Woken.
Proof. eexists _, _, _, _, _. split; [vm_compute; reflexivity|]. split; [vm_compute; reflexivity|]. split; [vm_compute; reflexivity|]. repeat split; vm_compute; reflexivity. Qed.
End StealNet.
